(* ===== verification/_CoqProject ===== *)
-Q . S2P
Prelude.v
CString.v
Kernel.v
Environ.v
GetNum.v
Alloc.v
Transfer.v
Files.v
FileCopy.v
FileFill.v
Tail.v
Tee.v
Vector.v
Dup.v
Attr.v
ErrorFns.v
Users.v
Acl.v
Threads.v
Incr.v
Condvar.v
Joining.v
ErrorText.v
Pipes.v
ChangeCase.v
PipeSync.v
MsgFile.v
SemInit.v
Semops.v
Reaper.v
Signals.v
SigSync.v
Process.v
Daemon.v
Pty.v
Tty.v
Ttyname.v
Relay.v
SeekIo.v
Sendfile.v
Bench.v
Svshm.v
SvMsg.v
PMsg.v
IpcCreate.v
ProcFs.v
Sockets.v
Seqnum.v
Flags.v
Serve.v
Ucase.v
Password.v
Timers.v
Inotify.v
Epoll.v
Hup.v
Select.v
SelfPipe.v
SelectMq.v
Scm.v
DirList.v
Stat.v
Locks.v
Xattr.v
AclShow.v
Exec.v
System.v
