(* ===== verification/Prelude.v ===== *)
(** * Verification of the exercises and of the programs of The Linux Programming Interface

    The repository holds two bodies of C code: the author's exercises, a directory per chapter
    (01-... to 17-...), and the programs and the support library of the book (tlpi-dist).  Both
    are many small programs over the system calls of Linux; the library tlpi-dist/lib, which most
    programs of tlpi-dist link, holds copies of files of the other directories, and a definition
    here names the file of the topic.

    ** How a program is modelled

    A C function is a function of the state: [M S A := S -> outcome A * S] (below), where the
    [outcome] says whether the function returns ([Ret]), ends the process ([Exit], [Abort]), runs
    into behaviour that C leaves undefined ([Undef]) or uses up the fuel of a loop ([NoFuel]).  A
    theorem that a function returns therefore says that nothing else happens, and a loop without
    a bound in the code has fuel in the model together with a proof of how much is enough.  Machine
    integers are [Z] with the wrap of their type; strings and buffers are lists of [ascii].

    The kernel and the libraries are not part of the repository.  Their state is a type parameter,
    their calls are type classes ([FileIO], [SocketOps], [LibAcl], ...), and what a theorem needs of
    them is a class of laws ([SourceLaws], [AclLaws], ...), which states documented behaviour
    of single calls: errors, short transfers and interruptions stay possible.  Every class of laws
    has an instance, a small kernel in Rocq, and the witnesses run the programs on it.  The process
    around such a kernel, with [errno] and what it printed, is [Kernel.proc].

    Threads and processes that share memory are steps of a transition system ([Threads.sys]): a
    step is one call or one access to the shared variables, any thread may make it, calls may fail
    and waits may end spuriously.  Theorems hold of all reachable states.

    ** The files

    - Prelude.v: outcomes and the state monad, the rules of its weakest precondition [wp], loops,
      machine integers, bytes, tactics.
    - CString.v: the string functions of C: strchr, strcmp, strtol, atoi, decimal and hexadecimal
      printing.
    - Kernel.v: [proc], the calls on files ([FileIO]), the laws of sources and sinks of bytes.
    - Environ.v: setenv and unsetenv on the array [environ] (tlpi-dist/proc/setenv.c).
    - GetNum.v: getInt, getLong (tlpi-dist/lib/get_num.c).
    - Alloc.v: po_malloc, po_free and their free list threaded through the memory
      (07-memory-allocation/po_malloc_free.c).
    - Transfer.v: readn, writen, readLine, readLineBuf and the echo handler (tlpi-dist/sockets).
    - Files.v: regular files with holes, and large_file, append_seek, holy_file
      (04-..., 05-...).  FileCopy.v: copy.c, cpholes.c.  FileFill.v: write_bytes.c and
      atomic_append.c, whose two writers interleave.  Vector.v: readv and writev (vector_fileio.c).  Tail.v: tail.c
      (13-...).  SeekIo.v: seek_io.c, an interpreter of commands on a file (tlpi-dist/fileio).
      Tee.v: tee.c.  Sendfile.v: sendfile.c, the system call by hand.  Bench.v:
      benchmarkwrites.c (14-...).
    - Dup.v: dup and dup2 (05-file-io-further-details/dup.c).
    - Attr.v: chattr.c, exercise6_chmod.c, filePermStr.  Xattr.v: setfattr.c, xattr_view.c.  Flags.v: chiflag.c
      and t_mount.c (tlpi-dist/files, filesys).
    - ErrorFns.v: errExit, fatal and their relatives (tlpi-dist/lib/error_functions.c), with the
      buffering of stdio; the other files use them through the trace.
    - Users.v: names and IDs of users and groups, po_getpwnam, po_initgroups.
    - Acl.v: acl_update.c, its parser and its update of ACLs.  AclShow.v: acl_view.c, dispacl.c.
    - Threads.v: the scheduler, mutexes, condition variables, semaphores, and the class [Lock] for
      what guards a critical region.  Incr.v: thread_incr, with a race, and thread_incr_mutex and
      thread_incr_psem, one definition over [Lock].  Condvar.v: prod_condvar.  Joining.v:
      thread_multijoin and one_time_init.  ErrorText.v: the three versions of strerror, with a static
      buffer, thread-specific data and thread-local storage, and strerror_test.
    - Pipes.v: pipes and the processes that share them, and simple_pipe.c; ChangeCase.v:
      change_case.c; PipeSync.v: pipe_sync.c (tlpi-dist/pipes).  MsgFile.v: the file server over
      message queues and its clients (tlpi-dist/svmsg).
    - Svshm.v: the transfer over shared memory of svshm_xfr_writer and svshm_xfr_reader, with the
      binary semaphores of tlpi-dist/svsem.  SemInit.v: svsem_good_init.c and svsem_bad_init.c, who
      initialises a shared semaphore.  Semops.v: svsem_op.c, with its parser of operations, and
      event_flags.c.  SvMsg.v: svmsg_send.c, svmsg_receive.c.  PMsg.v: pmsg_create.c, pmsg_send.c and
      pmsg_receive.c.  IpcCreate.v: svmsg_create.c, svshm_create.c and svsem_create.c.
    - ProcFs.v: proclist, pstree and sherlock over /proc (12-...).
    - Sockets.v: inet_sockets.c and unix_sockets.c.  Seqnum.v: the sequence number servers and
      clients over sockets and over FIFOs, which use Sockets.v, Transfer.v and GetNum.v.  Serve.v: the
      us_xfr servers and clients, and the echo servers (is_echo_*.c) and their client.  Ucase.v: the
      datagram servers ud_ucase and i6d_ucase and their clients.  Scm.v: scm_rights_send.c, scm_rights_recv.c,
      scm_cred_send.c and scm_cred_recv.c, which pass a descriptor and credentials.
    - Locks.v: region_locking.c, create_pid_file.c, i_fcntl_locking.c.
    - Process.v: sessions, terminals and descriptors of a process.  Daemon.v: become_daemon.c,
      and Hup.v: daemon_SIGHUP.c, a daemon that opens its log again (tlpi-dist/daemons).  Pty.v:
      pty_master_open.c, pty_fork.c.  Tty.v: tty_functions.c.  Ttyname.v: ttyname.c.  Relay.v:
      script.c and unbuffer.c, which copy between a terminal and a pseudoterminal (tlpi-dist/pty).
    - Reaper.v: print_wait_status.c and multi_SIGCHLD.c, whose SIGCHLD handler reaps its children
      (tlpi-dist/procexec).  SigSync.v: fork_sig_sync.c, a parent that waits for a signal of its child.
    - Signals.v: signal_functions.c, and sig_sender.c and sig_receiver.c, which count signals that merge or queue.
    - Timers.v: itimerspec_from_str.c and demo_timerfd.c.  Inotify.v: demo_inotify.c.
    - Password.v: check_password.c, check_password_caps.c.
    - Epoll.v: epoll_input.c and poll_pipes.c (tlpi-dist/altio).  SelectMq.v: select_mq.c, which waits for a
      terminal and, by a child for each, for message queues.  Select.v: t_select.c.  SelfPipe.v: self_pipe.c,
      whose signal handler writes to a pipe.
    - DirList.v: list_files.c, list_files_readdir_r.c, file_type_stats.c and nftw_dir_tree.c
      (tlpi-dist/dirs_links).  Stat.v: t_stat.c and exercise3_tstat.c.
    - Exec.v: execlp.c.  System.v: system.c and simple_system.c.

    In each file the state is a record, the data are inductive types with the constructors of the
    source, and a definition has the name of the C function, or of the step of it that it is; the
    doc comment at the top of the file says what corresponds to what.

    ** What the theorems show

    - Refinement and equivalence: setenv is the update of a map, seek_io the interpreter of its commands, an update of an ACL is the update
      of a map of rights, dup2 has the outcomes of its POSIX description, chmod a+rX is reached or
      missed exactly as stated, the buffered readLine delivers what the unbuffered one does, the two versions of
      list_files and of t_stat print the same.
    - Concurrency: no wake-up is lost and nothing gets stuck in prod_condvar; thread_multijoin joins
      every thread, once; an initialiser runs at most once; the transfer over shared memory
      is a copy, without a race; a counter guarded by a lock is exact, and a counter without one is between two
      bounds; two writers with O_APPEND lose nothing; a process ID file has
      one owner; a string from strerror survives a call in another thread exactly when its buffer belongs
      to the thread, and the report of an error in strerror enters strerror again; of the processes that share a semaphore none operates on it before it has its first
      value, and no operation is lost; the processes of simple_pipe, change_case and pipe_sync never wait for each other
      for ever, and what comes out is what went in; the clients of the message queue file server
      get their files; messages sent to a POSIX queue come out by priority, each once; select_mq shows the
      messages of all its queues, each queue in its order; the servers of us_xfr and of the echo service
      get through their clients and leak no descriptor; epoll_input reads all of its FIFOs to their
      ends; the SIGCHLD handler of multi_SIGCHLD misses no child; the
      parent of fork_sig_sync misses no signal, daemon_SIGHUP opens its log again after each, and self_pipe misses no
      signal between its other descriptors; sig_receiver
      counts every realtime signal that can be queued, and a standard one at least once.
    - Function of each program on every branch: allocation, transfers, copies, attributes, ACLs,
      process lists, password checks (with the clear
      text erased), sockets (which leak one
      descriptor, when listen fails), sequence numbers (which are granted once), the relay of script, which
      resets the terminal, execlp, system.
    - Round trips: ACL text, the operations of svsem_op (whose parser accepts exactly the stated
      language), decimal numbers, permission strings, writev followed by readv, messages sent and
      received, descriptors and credentials passed, the fields of a request.
    - Bounds and undefined behaviour: getInt's range, sums of lengths in writev, arrays of fixed
      size in po_initgroups, pstree, execlp, tail, tee and svmsg_receive, the block that ttyname grows.

    Several theorems and lemmas state what the code does where it is not what it should do; these
    are listed as findings in the manifest.

    ** Fuel

    Loops that read or write get more fuel than the bytes that are pending plus the interruptions
    that can occur ([rdelays], [wdelays]); walks over lists (the free list, /proc, the entries of an
    ACL, the prefixes of PATH) more than their length.  The theorems have this as a
    hypothesis and conclude that the function returns, so fuel is never what ends a run; [loop_fuel]
    shows that more fuel changes no result.

    ** Not modelled

    Programs that show the effect of single calls (most of tlpi-dist outside the files above), the
    timing and order of asynchronous signals, terminals, mappings of memory, the dynamic linker;
    freeing memory that is not used again; the text of locale-dependent messages, a parameter.
    06-processes/myenviron.c does not compile.  The main functions of dup.c and initgroups.c, which try
    out the functions, are left out. *)

From Stdlib Require Import ZArith Lia String Ascii.
From stdpp Require Export base list option strings gmap.
#[global] Open Scope Z_scope.

(** ** Machine integers

    A [w]-bit unsigned (signed) C integer is a [Z] in the range of the type; a conversion or an
    operation that can leave the range is followed by the wrap of its result type. *)

Definition wrap_u (w z : Z) : Z := z mod 2 ^ w.
Definition wrap_s (w z : Z) : Z := (z + 2 ^ (w - 1)) mod 2 ^ w - 2 ^ (w - 1).

Abbreviation u8 := (wrap_u 8).
Abbreviation u32 := (wrap_u 32).
Abbreviation u64 := (wrap_u 64).
Abbreviation s32 := (wrap_s 32).
Abbreviation s64 := (wrap_s 64).

Definition INT_MAX : Z := 2 ^ 31 - 1.
Definition INT_MIN : Z := - 2 ^ 31.
Definition LONG_MAX : Z := 2 ^ 63 - 1.
Definition LONG_MIN : Z := - 2 ^ 63.
Definition SSIZE_MAX : Z := 2 ^ 63 - 1.

Definition in_u (w z : Z) : Prop := 0 <= z < 2 ^ w.
Definition in_s (w z : Z) : Prop := - 2 ^ (w - 1) <= z < 2 ^ (w - 1).

Lemma wrap_u_range w z : 0 <= w -> in_u w (wrap_u w z).
Proof. intros. unfold in_u, wrap_u. apply Z.mod_pos_bound. lia. Qed.

Lemma wrap_u_id w z : in_u w z -> wrap_u w z = z.
Proof. apply Z.mod_small. Qed.

Lemma wrap_s_range w z : 0 < w -> in_s w (wrap_s w z).
Proof.
  intros Hw. unfold in_s, wrap_s.
  assert (2 ^ w = 2 * 2 ^ (w - 1)) by (rewrite <- Z.pow_succ_r by lia; f_equal; lia).
  pose proof (Z.mod_pos_bound (z + 2 ^ (w - 1)) (2 ^ w)). lia.
Qed.

Lemma wrap_s_id w z : 0 < w -> in_s w z -> wrap_s w z = z.
Proof.
  intros Hw. unfold in_s, wrap_s.
  assert (2 ^ w = 2 * 2 ^ (w - 1)) by (rewrite <- Z.pow_succ_r by lia; f_equal; lia).
  intros. rewrite Z.mod_small; lia.
Qed.

(** ** Effects

    A C function is a state transformer.  Besides returning, it may end the process (through
    [exit] or [abort]), run into behaviour the C standard leaves undefined, or use up the fuel a
    loop was given; [outcome] keeps these apart, so that a theorem that a function returns says
    so. *)

Inductive outcome (A : Type) : Type :=
| Ret (a : A)
| Exit (status : Z)
| Abort
| Undef
| NoFuel.
Arguments Ret {A} a.
Arguments Exit {A} status.
Arguments Abort {A}.
Arguments Undef {A}.
Arguments NoFuel {A}.

Definition M (S A : Type) : Type := S -> outcome A * S.

#[global] Instance M_ret S : MRet (M S) := fun A a s => (Ret a, s).
#[global] Instance M_bind S : MBind (M S) := fun A B k m s =>
  match m s with
  | (Ret a, s') => k a s'
  | (Exit z, s') => (Exit z, s')
  | (Abort, s') => (Abort, s')
  | (Undef, s') => (Undef, s')
  | (NoFuel, s') => (NoFuel, s')
  end.

Definition exit_ {S A} (status : Z) : M S A := fun s => (Exit status, s).
Definition abort_ {S A} : M S A := fun s => (Abort, s).
Definition undef_ {S A} : M S A := fun s => (Undef, s).
Definition gets {S A} (f : S -> A) : M S A := fun s => (Ret (f s), s).
Definition modify {S} (f : S -> S) : M S unit := fun s => (Ret tt, f s).

(** A partial read of memory: nothing there is undefined behaviour. *)
Definition the {S A} (o : option A) : M S A :=
  match o with Some a => mret a | None => undef_ end.

(** [loop fuel body st]: the body says whether to go round again ([inl]) or leave ([inr]). *)
Fixpoint loop {S St A} (fuel : nat) (body : St -> M S (St + A)) (st : St) : M S A :=
  match fuel with
  | O => fun s => (NoFuel, s)
  | Datatypes.S n =>
      r ← body st;
      match r with
      | inl st' => loop n body st'
      | inr a => mret a
      end
  end.

Lemma bind_Ret {S A B} (m : M S A) (k : A -> M S B) s a s' :
  m s = (Ret a, s') -> (m ≫= k) s = k a s'.
Proof. intros H. unfold mbind, M_bind. by rewrite H. Qed.

Lemma bind_Exit {S A B} (m : M S A) (k : A -> M S B) s z s' :
  m s = (Exit z, s') -> (m ≫= k) s = (Exit z, s').
Proof. intros H. unfold mbind, M_bind. by rewrite H. Qed.

Lemma bind_Undef {S A B} (m : M S A) (k : A -> M S B) s s' :
  m s = (Undef, s') -> (m ≫= k) s = (Undef, s').
Proof. intros H. unfold mbind, M_bind. by rewrite H. Qed.

Lemma ret_eq {S A} (a : A) (s : S) : (mret a : M S A) s = (Ret a, s).
Proof. done. Qed.

Lemma loop_S {S St A} n (body : St -> M S (St + A)) st :
  loop (Datatypes.S n) body st
  = (r ← body st; match r with inl st' => loop n body st' | inr a => mret a end).
Proof. done. Qed.

(** One round of a loop whose body returned. *)
Lemma loop_next {S St A} n (body : St -> M S (St + A)) st st' s s' :
  body st s = (Ret (inl st'), s') -> loop (Datatypes.S n) body st s = loop n body st' s'.
Proof. intros H. simpl. by rewrite (bind_Ret _ _ _ _ _ H). Qed.

Lemma loop_done {S St A} n (body : St -> M S (St + A)) st a s s' :
  body st s = (Ret (inr a), s') -> loop (Datatypes.S n) body st s = (Ret a, s').
Proof. intros H. simpl. by rewrite (bind_Ret _ _ _ _ _ H). Qed.

(** A [for] loop over the items of a list, and one that may stop early. *)
Fixpoint for_each {S A} (body : A -> M S unit) (l : list A) : M S unit :=
  match l with
  | [] => mret tt
  | x :: l' => body x ;; for_each body l'
  end.

(** *** Postconditions *)

Definition recast {A B} (o : outcome A) (f : A -> outcome B) : outcome B :=
  match o with
  | Ret a => f a
  | Exit z => Exit z
  | Abort => Abort
  | Undef => Undef
  | NoFuel => NoFuel
  end.

Definition wp {S A} (m : M S A) (s : S) (Q : outcome A -> S -> Prop) : Prop :=
  Q (m s).1 (m s).2.

Lemma wp_ret {S A} (a : A) (s : S) Q : Q (Ret a) s -> wp (mret a : M S A) s Q.
Proof. done. Qed.

Lemma wp_gets {S A} (f : S -> A) (s : S) Q : Q (Ret (f s)) s -> wp (gets f) s Q.
Proof. done. Qed.

Lemma wp_mono {S A} (m : M S A) s (Q Q' : outcome A -> S -> Prop) :
  wp m s Q -> (forall o s', Q o s' -> Q' o s') -> wp m s Q'.
Proof. unfold wp. auto. Qed.

Lemma wp_elim {S A} (m : M S A) s Q : wp m s Q -> exists o s', m s = (o, s') /\ Q o s'.
Proof. unfold wp. destruct (m s) as [o s']. eauto. Qed.

Lemma wp_intro {S A} (m : M S A) s o s' (Q : outcome A -> S -> Prop) : m s = (o, s') -> Q o s' -> wp m s Q.
Proof. intros E HQ. unfold wp. by rewrite E. Qed.

Lemma wp_bind {S A B} (m : M S A) (k : A -> M S B) s Q :
  wp m s (fun o s' => match o with
                      | Ret a => wp (k a) s' Q
                      | o => Q (recast o (fun _ => NoFuel)) s'
                      end) ->
  wp (m ≫= k) s Q.
Proof.
  unfold wp, mbind, M_bind. destruct (m s) as [[] s']; simpl; auto.
Qed.

Lemma loop_wp {S St A} (I : St -> S -> Prop) (mu : St -> S -> nat)
    (body : St -> M S (St + A)) (Q : outcome A -> S -> Prop) :
  (forall st s, I st s ->
     wp (body st) s (fun o s' =>
       match o with
       | Ret (inl st') => I st' s' /\ (mu st' s' < mu st s)%nat
       | Ret (inr a) => Q (Ret a) s'
       | o => Q (recast o (fun _ => NoFuel)) s'
       end)) ->
  forall fuel st s, I st s -> (mu st s < fuel)%nat -> wp (loop fuel body st) s Q.
Proof.
  intros Hbody. induction fuel as [|fuel IH]; intros st s HI Hf; [lia|].
  simpl. apply wp_bind. eapply wp_mono; [by apply Hbody|].
  intros [[st'|a]| | | |] s'; simpl; [|by auto..].
  intros [HI' Hlt]. apply IH; [done|lia].
Qed.

(** What holds of a loop however often it goes round, the end of the fuel included. *)
Lemma loop_keeps {S St A} (I : St -> S -> Prop) (body : St -> M S (St + A)) (Q : outcome A -> S -> Prop) :
  (forall st s, I st s ->
     wp (body st) s (fun o s' =>
       match o with
       | Ret (inl st') => I st' s'
       | Ret (inr a) => Q (Ret a) s'
       | o => Q (recast o (fun _ => NoFuel)) s'
       end)) ->
  (forall st s, I st s -> Q NoFuel s) ->
  forall fuel st s, I st s -> wp (loop fuel body st) s Q.
Proof.
  intros Hbody HQ. induction fuel as [|fuel IH]; intros st s HI; [by apply (HQ st)|].
  simpl. apply wp_bind. eapply wp_mono; [by apply Hbody|].
  intros [[st'|a]| | | |] s'; simpl; auto.
Qed.

(** More fuel does not change a result. *)
Lemma loop_fuel {S St A} (body : St -> M S (St + A)) n m st s :
  (n <= m)%nat -> (loop n body st s).1 <> NoFuel -> loop m body st s = loop n body st s.
Proof.
  revert m st s. induction n as [|n IH]; intros m st s Hle Hne; [done|].
  destruct m as [|m]; [lia|]. simpl in *. unfold mbind, M_bind in *.
  destruct (body st s) as [[[st'|a]| | | |] s']; try done.
  apply IH; [lia|done].
Qed.

#[global] Arguments loop : simpl never.

(** A [for] loop, with an invariant indexed by the items already handled. *)
Lemma for_each_wp {S A} (I : list A -> S -> Prop) (body : A -> M S unit) (Q : outcome unit -> S -> Prop) l s :
  (forall done x rest s, l = done ++ x :: rest -> I done s ->
     wp (body x) s (fun o s' => match o with
                                | Ret _ => I (done ++ [x]) s'
                                | o => Q (recast o (fun _ => NoFuel)) s'
                                end)) ->
  I [] s -> (forall s', I l s' -> Q (Ret tt) s') -> wp (for_each body l) s Q.
Proof.
  intros Hbody HI HQ.
  cut (forall done rest s, l = done ++ rest -> I done s -> wp (for_each body rest) s Q).
  { intros H. by apply (H [] l). }
  clear s HI. intros done rest. revert done.
  induction rest as [|x rest IH]; intros done s Hl HI; simpl.
  - apply wp_ret, HQ. by rewrite Hl, app_nil_r.
  - apply wp_bind. eapply wp_mono; [by eapply Hbody|].
    intros [[]| | | |] s' H; try done. eapply (IH (done ++ [x])); [by rewrite <- app_assoc|done].
Qed.

(** *** Sequences of steps, for the concurrent components *)

Section Star.
Context {A : Type} (R : A -> A -> Prop).

Lemma rtc_invariant (I : A -> Prop) x y :
  (forall a b, I a -> R a b -> I b) -> I x -> rtc R x y -> I y.
Proof. intros Hstep HI. induction 1; eauto. Qed.

(** A measure that every step decreases, under an invariant, bounds the length of every run. *)
Lemma nsteps_bounded_inv (I : A -> Prop) (mu : A -> nat) n x y :
  (forall a b, I a -> R a b -> I b) -> (forall a b, I a -> R a b -> (mu b < mu a)%nat) ->
  I x -> nsteps R n x y -> (n <= mu x)%nat.
Proof.
  intros Hstep Hdec HI Hn. cut (n + mu y <= mu x)%nat; [lia|].
  induction Hn as [|n x y z HR _ IH]; [lia|]. specialize (Hdec _ _ HI HR). specialize (IH (Hstep _ _ HI HR)). lia.
Qed.

End Star.

(** ** Bytes *)

Abbreviation bytes := (list ascii).

Definition str (s : string) : bytes := list_ascii_of_string s.
Definition NUL : ascii := Ascii false false false false false false false false.
Definition NL : ascii := Ascii false true false true false false false false.

(** The value of a character as [unsigned char]. *)
Definition ord (c : ascii) : Z := Z.of_nat (nat_of_ascii c).
Definition chr (z : Z) : ascii := ascii_of_nat (Z.to_nat (z mod 256)).

Lemma ord_range c : 0 <= ord c < 256.
Proof. unfold ord. pose proof (nat_ascii_bounded c). lia. Qed.

Lemma chr_ord c : chr (ord c) = c.
Proof.
  unfold chr. rewrite Z.mod_small by apply ord_range. unfold ord.
  rewrite Nat2Z.id. apply ascii_nat_embedding.
Qed.

Lemma ord_chr z : 0 <= z < 256 -> ord (chr z) = z.
Proof.
  intros. unfold ord, chr. rewrite Z.mod_small by done. rewrite nat_ascii_embedding; lia.
Qed.

Lemma ord_inj c d : ord c = ord d -> c = d.
Proof. intros H. by rewrite <- (chr_ord c), H, chr_ord. Qed.

(** ** Tactics *)

(** Split a hypothesis or a goal on the scrutinee of the outermost [match]. *)
Ltac case_step :=
  match goal with
  | |- context [match ?x with _ => _ end] =>
      lazymatch x with context [match _ with _ => _ end] => fail | _ => destruct x eqn:? end
  end.

(** Turn the boolean tests of the code into arithmetic facts. *)
Ltac z_bool :=
  repeat match goal with
  | H : (_ =? _)%Z = true |- _ => apply Z.eqb_eq in H
  | H : (_ =? _)%Z = false |- _ => apply Z.eqb_neq in H
  | H : (_ <? _)%Z = true |- _ => apply Z.ltb_lt in H
  | H : (_ <? _)%Z = false |- _ => apply Z.ltb_ge in H
  | H : (_ <=? _)%Z = true |- _ => apply Z.leb_le in H
  | H : (_ <=? _)%Z = false |- _ => apply Z.leb_gt in H
  | H : (_ && _)%bool = true |- _ => apply andb_prop in H as [? ?]
  | H : (_ || _)%bool = false |- _ => apply orb_false_elim in H as [? ?]
  | H : negb _ = true |- _ => apply negb_true_iff in H
  | H : negb _ = false |- _ => apply negb_false_iff in H
  end.

(** One step of a monadic program inside [wp]. *)
Ltac wp_step := apply wp_bind; try (apply wp_ret).

(** Evaluate the codes of literal characters. *)
Ltac ord_eval :=
  unfold NUL, NL in *;
  repeat match goal with
  | |- context [ord ?c] =>
      lazymatch c with Ascii _ _ _ _ _ _ _ _ => idtac end;
      let v := eval vm_compute in (ord c) in change (ord c) with v
  | H : context [ord ?c] |- _ =>
      lazymatch c with Ascii _ _ _ _ _ _ _ _ => idtac end;
      let v := eval vm_compute in (ord c) in change (ord c) with v in H
  end.
Ltac ord_lia := ord_eval; lia.

(** Prove a decidable proposition by evaluating its decision procedure. *)
Ltac by_decide := apply (bool_decide_unpack _); vm_compute; exact I.
