(* ===== verification/CString.v ===== *)
(** * Strings, characters and numbers of the C library

    The parts of <string.h>, <ctype.h> and <stdlib.h> that the programs use.  A C string is the
    [bytes] before its terminating null byte; a position in it is an index, and the byte at the
    index of its length is the null byte. *)

From Stdlib Require Import ZArith Lia String Ascii.
From S2P Require Import Prelude.

(** ** Indexing and searching *)

(** The byte a C program sees at [s[i]]; outside the string and its terminator, undefined. *)
Definition char_at (s : bytes) (i : nat) : option ascii :=
  if decide (i = length s) then Some NUL else s !! i.

Definition strlen (s : bytes) : Z := Z.of_nat (length s).

Fixpoint index_of (c : ascii) (s : bytes) : option nat :=
  match s with
  | [] => None
  | x :: s' => if Ascii.eqb x c then Some O else S <$> index_of c s'
  end.

(** [strchr] also finds the terminator. *)
Definition strchr (s : bytes) (c : ascii) : option nat :=
  if Ascii.eqb c NUL then Some (length s) else index_of c s.

(** The byte-wise comparison of [strcmp] and [strncmp]: the difference of the first bytes that
    differ, a string that ends first comparing as its null byte. *)
Fixpoint strncmp (a b : bytes) (n : nat) {struct n} : Z :=
  match n with
  | O => 0
  | S n' =>
      match a, b with
      | [], [] => 0
      | x :: _, [] => ord x
      | [], y :: _ => - ord y
      | x :: a', y :: b' => if Ascii.eqb x y then strncmp a' b' n' else ord x - ord y
      end
  end.

Definition strcmp (a b : bytes) : Z := strncmp a b (S (length a)).

(** No byte of a C string is the null byte. *)
Definition c_string (s : bytes) : Prop := NUL ∉ s.

#[export] Instance c_string_dec s : Decision (c_string s).
Proof. unfold c_string. apply _. Defined.

(** ** Character classes (C locale) *)

Definition isspace (c : ascii) : bool := let z := ord c in ((9 <=? z) && (z <=? 13)) || (z =? 32).
Definition isdigit (c : ascii) : bool := let z := ord c in (48 <=? z) && (z <=? 57).
Definition islower (c : ascii) : bool := let z := ord c in (97 <=? z) && (z <=? 122).
Definition isupper (c : ascii) : bool := let z := ord c in (65 <=? z) && (z <=? 90).
Definition isprint (c : ascii) : bool := let z := ord c in (32 <=? z) && (z <=? 126).
Definition toupper (c : ascii) : ascii := if islower c then chr (ord c - 32) else c.
Definition tolower (c : ascii) : ascii := if isupper c then chr (ord c + 32) else c.

(** ** Numbers *)

Fixpoint span (p : ascii -> bool) (s : bytes) : bytes * bytes :=
  match s with
  | [] => ([], [])
  | c :: s' => if p c then let '(l, r) := span p s' in (c :: l, r) else ([], s)
  end.

(** The value of a digit in the largest base, 36 or more for a character that is none. *)
Definition digit_val (c : ascii) : Z :=
  if isdigit c then ord c - 48
  else if islower c then ord c - 87
  else if isupper c then ord c - 55
  else 36.

Definition is_digit (base : Z) (c : ascii) : bool := digit_val c <? base.

Definition digits_val (base : Z) (ds : bytes) : Z :=
  fold_left (fun acc c => acc * base + digit_val c) ds 0.

Record strtol_result := { st_value : Z; st_end : nat; st_erange : bool }.

Definition split_sign (s : bytes) : bool * bytes :=
  match s with
  | c :: s' => if Ascii.eqb c "-" then (true, s') else if Ascii.eqb c "+" then (false, s') else (false, s)
  | [] => (false, s)
  end.

(** The base and the digits after an optional [0x]; base 0 takes it from the prefix. *)
Definition split_prefix (base : Z) (s : bytes) : Z * bytes :=
  match s with
  | z :: x :: d :: _ =>
      if Ascii.eqb z "0" && Ascii.eqb (tolower x) "x" && is_digit 16 d
         && ((base =? 0) || (base =? 16))
      then (16, drop 2 s)
      else if base =? 0 then (if Ascii.eqb z "0" then 8 else 10, s) else (base, s)
  | z :: _ => if base =? 0 then (if Ascii.eqb z "0" then 8 else 10, s) else (base, s)
  | [] => (if base =? 0 then 10 else base, s)
  end.

Definition strtol (s : bytes) (base : Z) : strtol_result :=
  let '(_, s1) := span isspace s in
  let '(neg, s2) := split_sign s1 in
  let '(base', s3) := split_prefix base s2 in
  let '(ds, rest) := span (is_digit base') s3 in
  if decide (ds = []) then {| st_value := 0; st_end := O; st_erange := false |}
  else
    let v := if neg : bool then - digits_val base' ds else digits_val base' ds in
    let e := (length s - length rest)%nat in
    if LONG_MAX <? v then {| st_value := LONG_MAX; st_end := e; st_erange := true |}
    else if v <? LONG_MIN then {| st_value := LONG_MIN; st_end := e; st_erange := true |}
    else {| st_value := v; st_end := e; st_erange := false |}.

(** [atol] is [strtol] in base 10 without the error report; [atoi] narrows it to an [int]. *)
Definition atol (s : bytes) : Z := st_value (strtol s 10).
Definition atoi (s : bytes) : Z := s32 (atol s).

(** *** Printing: [%d] and [%ld] *)

Fixpoint dec_digits (fuel : nat) (n : Z) : bytes :=
  match fuel with
  | O => []
  | S fuel' =>
      if n <? 10 then [chr (48 + n)] else dec_digits fuel' (n / 10) ++ [chr (48 + n mod 10)]
  end.

(** [Z.log2 n + 1] digits are enough in any base. *)
Definition dec_nat (n : Z) : bytes := dec_digits (S (Z.to_nat (Z.log2 n))) n.
Definition dec (z : Z) : bytes :=
  if z <? 0 then "-"%char :: dec_nat (- z) else dec_nat z.

(** The hexadecimal form of a 32-bit number, padded to eight digits ([%08x], [%08X]). *)
Definition hex_digit (upper : bool) (d : Z) : ascii :=
  if d <? 10 then chr (48 + d) else chr ((if upper then 55 else 87) + d).
Definition hex8 (upper : bool) (z : Z) : bytes :=
  (fun i => hex_digit upper (Z.land (Z.shiftr (u32 z) (4 * Z.of_nat i)) 15)) <$> [7; 6; 5; 4; 3; 2; 1; 0]%nat.

(** [%x]: without the leading zeros. *)
Definition hex_number (z : Z) : bytes :=
  let ds := hex8 false z in
  match drop (length (span (fun c => Ascii.eqb c "0") ds).1) ds with [] => str "0" | s => s end.


(** ** Lemmas *)

Lemma index_of_Some c s i : index_of c s = Some i -> s !! i = Some c /\ c ∉ take i s.
Proof.
  revert i. induction s as [|x s IH]; intros i; simpl; [done|].
  destruct (Ascii.eqb_spec x c) as [->|Hne].
  - intros [= <-]. split; [done|]. simpl. set_solver.
  - destruct (index_of c s) as [j|]; simpl; [|done]. intros [= <-].
    destruct (IH j eq_refl). split; [done|]. simpl. set_solver.
Qed.

Lemma index_of_None c s : index_of c s = None <-> c ∉ s.
Proof.
  induction s as [|x s IH]; simpl; [set_solver|].
  destruct (Ascii.eqb_spec x c) as [->|Hne]; [set_solver|].
  destruct (index_of c s); simpl; set_solver.
Qed.

Lemma index_of_app c s t : c ∉ s -> index_of c (s ++ t) = (Nat.add (length s)) <$> index_of c t.
Proof.
  induction s as [|x s IH]; simpl; intros Hn.
  - by destruct (index_of c t).
  - destruct (Ascii.eqb_spec x c) as [->|]; [set_solver|].
    rewrite IH by set_solver. by destruct (index_of c t).
Qed.

Lemma index_of_here c s t : c ∉ s -> index_of c (s ++ c :: t) = Some (length s).
Proof.
  intros. rewrite index_of_app by done. simpl. rewrite Ascii.eqb_refl. simpl. f_equal. lia.
Qed.

Lemma strchr_index s c : c <> NUL -> strchr s c = index_of c s.
Proof. intros. unfold strchr. by destruct (Ascii.eqb_spec c NUL). Qed.

(** On strings, [strncmp] over the length of [b] tests for the prefix [b]. *)
Lemma strncmp_prefix a b :
  c_string a -> c_string b -> strncmp a b (length b) = 0 <-> exists t, a = b ++ t.
Proof.
  unfold c_string. revert a. induction b as [|y b IH]; intros a Ha Hb; simpl.
  - split; [by exists a|done].
  - destruct a as [|x a].
    + split; [|by intros [? ?]]. intros H. assert (ord y = 0) as ->%(ord_inj _ NUL) by lia.
      set_solver.
    + destruct (Ascii.eqb_spec x y) as [->|Hne].
      * rewrite IH by set_solver. split; intros [t ?]; exists t; naive_solver.
      * split; [|intros [t ?]; naive_solver]. intros H. by assert (x = y) by (apply ord_inj; lia).
Qed.

Lemma strncmp_eq a b n :
  c_string a -> c_string b -> (length a < n)%nat -> strncmp a b n = 0 <-> a = b.
Proof.
  unfold c_string. revert b n. induction a as [|x a IH]; intros b n Ha Hb Hn;
    (destruct n as [|n]; [simpl in Hn; lia|]); destruct b as [|y b]; simpl in *; [done|..].
  - split; [|done]. intros H. assert (ord y = 0) as ->%(ord_inj _ NUL) by lia. set_solver.
  - split; [|done]. intros H. assert (ord x = 0) as ->%(ord_inj _ NUL) by lia. set_solver.
  - destruct (Ascii.eqb_spec x y) as [->|Hne].
    + rewrite IH by (set_solver || lia). naive_solver.
    + split; [|naive_solver]. intros. by assert (x = y) by (apply ord_inj; lia).
Qed.

Lemma strcmp_eq a b : c_string a -> c_string b -> strcmp a b = 0 <-> a = b.
Proof. intros. apply strncmp_eq; auto. Qed.

(** *** Digits *)

Lemma span_app p l r :
  Forall (fun c => p c = true) l ->
  match r with [] => True | c :: _ => p c = false end ->
  span p (l ++ r) = (l, r).
Proof.
  intros Hl Hr. induction Hl as [|c l Hc _ IH]; simpl.
  - destruct r as [|c r]; [done|]. simpl. by rewrite Hr.
  - by rewrite Hc, IH.
Qed.

Lemma span_eq p s : let '(l, r) := span p s in
  s = l ++ r /\ Forall (fun c => p c = true) l /\
  match r with [] => True | c :: _ => p c = false end.
Proof.
  induction s as [|c s IH]; simpl; [done|].
  destruct (p c) eqn:Hp; [|by auto].
  destruct (span p s) as [l r]. destruct IH as (-> & ? & ?). by auto.
Qed.

Lemma digits_val_app base l c : digits_val base (l ++ [c]) = digits_val base l * base + digit_val c.
Proof. unfold digits_val. by rewrite fold_left_app. Qed.

Lemma digit_val_chr d : 0 <= d < 10 -> digit_val (chr (48 + d)) = d.
Proof.
  intros. unfold digit_val, isdigit. rewrite ord_chr by lia.
  replace (48 <=? 48 + d) with true by lia. replace (48 + d <=? 57) with true by lia. simpl. lia.
Qed.

Lemma dec_digits_val fuel n :
  0 <= n < 10 ^ Z.of_nat fuel -> digits_val 10 (dec_digits fuel n) = n.
Proof.
  revert n. induction fuel as [|fuel IH]; intros n Hn; [simpl in Hn; unfold digits_val; simpl; lia|].
  simpl dec_digits. destruct (n <? 10) eqn:E; z_bool.
  - change ([chr (48 + n)]) with ([] ++ [chr (48 + n)]).
    rewrite digits_val_app, digit_val_chr by lia. unfold digits_val. simpl. lia.
  - rewrite digits_val_app, digit_val_chr by (apply Z.mod_pos_bound; lia).
    rewrite IH.
    + pose proof (Z.div_mod n 10). lia.
    + rewrite Nat2Z.inj_succ, Z.pow_succ_r in Hn by lia.
      split; [apply Z.div_pos; lia|]. apply Z.div_lt_upper_bound; lia.
Qed.

Definition dec_char (c : ascii) : Prop := isdigit c = true.

Lemma dec_char_chr d : 0 <= d < 10 -> dec_char (chr (48 + d)).
Proof. intros. unfold dec_char, isdigit. rewrite ord_chr by lia. lia. Qed.

Lemma dec_digits_chars fuel n : 0 <= n -> Forall dec_char (dec_digits fuel n).
Proof.
  revert n. induction fuel as [|fuel IH]; intros n Hn; simpl; [done|].
  destruct (n <? 10) eqn:E; z_bool.
  - constructor; [|done]. apply dec_char_chr. lia.
  - apply Forall_app. split; [apply IH, Z.div_pos; lia|].
    constructor; [|done]. apply dec_char_chr, Z.mod_pos_bound. lia.
Qed.

Lemma log2_fuel n : 0 <= n -> n < 10 ^ Z.of_nat (S (Z.to_nat (Z.log2 n))).
Proof.
  intros Hn. rewrite Nat2Z.inj_succ, Z2Nat.id by apply Z.log2_nonneg.
  destruct (Z.eq_dec n 0) as [->|]; [done|].
  apply Z.lt_le_trans with (2 ^ Z.succ (Z.log2 n)); [apply Z.log2_spec; lia|].
  apply Z.pow_le_mono_l. lia.
Qed.

Lemma dec_nat_val n : 0 <= n -> digits_val 10 (dec_nat n) = n.
Proof. intros. apply dec_digits_val. split; [done|]. by apply log2_fuel. Qed.

Lemma dec_nat_chars n : 0 <= n -> Forall dec_char (dec_nat n).
Proof. apply dec_digits_chars. Qed.

Lemma dec_nat_nonempty n : dec_nat n <> [].
Proof.
  unfold dec_nat. simpl. destruct (n <? 10); [done|]. intros H%(f_equal length).
  rewrite length_app in H. simpl in H. lia.
Qed.

Lemma dec_char_spec c : dec_char c <-> 48 <= ord c <= 57.
Proof. unfold dec_char, isdigit. lia. Qed.

Lemma dec_char_digit c : dec_char c -> is_digit 10 c = true.
Proof.
  intros Hc. unfold is_digit, digit_val. rewrite Hc. apply dec_char_spec in Hc. lia.
Qed.

Lemma dec_char_nospace c : dec_char c -> isspace c = false.
Proof. intros Hc%dec_char_spec. unfold isspace. lia. Qed.

Lemma ascii_neq c d : ord c <> ord d -> Ascii.eqb c d = false.
Proof. intros. destruct (Ascii.eqb_spec c d); [congruence|done]. Qed.

Lemma split_sign_dec l : Forall dec_char l -> split_sign l = (false, l).
Proof.
  intros [|c l' Hc _]; [done|]. apply dec_char_spec in Hc. simpl.
  rewrite !ascii_neq; [done| |]; ord_lia.
Qed.

Lemma split_prefix_10 s : split_prefix 10 s = (10, s).
Proof. destruct s as [|a [|b [|c s]]]; simpl; rewrite ?andb_false_r; done. Qed.

Lemma span_none p s : match s with [] => True | c :: _ => p c = false end -> span p s = ([], s).
Proof. destruct s as [|c s]; simpl; [done|]. by intros ->. Qed.

(** No digit may follow a printed number for it to be read back. *)
Definition no_digit (s : bytes) : Prop := match s with [] => True | c :: _ => is_digit 10 c = false end.

Lemma strtol_dec z rest :
  LONG_MIN <= z <= LONG_MAX -> no_digit rest ->
  strtol (dec z ++ rest) 10
  = {| st_value := z; st_end := length (dec z); st_erange := false |}.
Proof.
  intros Hz Hrest. unfold strtol, dec.
  assert (forall n, 0 <= n ->
    exists c l, dec_nat n = c :: l /\ dec_char c) as Hhd.
  { intros n Hn. pose proof (dec_nat_chars n Hn). pose proof (dec_nat_nonempty n).
    destruct (dec_nat n) as [|c l]; [done|]. inversion H; eauto. }
  assert (forall n, 0 <= n ->
    span (is_digit 10) (dec_nat n ++ rest) = (dec_nat n, rest)) as Hspan.
  { intros n Hn. apply span_app; [|done].
    eapply Forall_impl; [by apply dec_nat_chars|]. apply dec_char_digit. }
  destruct (z <? 0) eqn:Ez; z_bool.
  - rewrite (span_none isspace) by done.
    simpl split_sign. cbv iota. rewrite split_prefix_10, Hspan by lia.
    rewrite decide_False by apply dec_nat_nonempty. rewrite dec_nat_val by lia.
    replace (LONG_MAX <? - - z) with false by lia. replace (- - z <? LONG_MIN) with false by lia.
    f_equal; [lia|]. simpl. rewrite length_app. lia.
  - destruct (Hhd z) as (c & l & E & Hc); [lia|].
    rewrite (span_none isspace) by (rewrite E; simpl; by apply dec_char_nospace).
    assert (split_sign (dec_nat z ++ rest) = (false, dec_nat z ++ rest)) as ->.
    { rewrite E. simpl. apply dec_char_spec in Hc. rewrite !ascii_neq; [done| |]; ord_lia. }
    rewrite split_prefix_10, Hspan by lia.
    rewrite decide_False by apply dec_nat_nonempty. rewrite dec_nat_val by lia.
    replace (LONG_MAX <? z) with false by lia. replace (z <? LONG_MIN) with false by lia.
    f_equal. rewrite length_app. lia.
Qed.

Lemma strtol_dec_end z :
  LONG_MIN <= z <= LONG_MAX ->
  strtol (dec z) 10 = {| st_value := z; st_end := length (dec z); st_erange := false |}.
Proof. intros. rewrite <- (app_nil_r (dec z)) at 1. by apply strtol_dec. Qed.

Lemma atoi_dec z rest : INT_MIN <= z <= INT_MAX -> no_digit rest -> atoi (dec z ++ rest) = z.
Proof.
  intros Hz Hr. unfold atoi, atol. rewrite strtol_dec by (done || (unfold LONG_MIN, LONG_MAX;
    unfold INT_MIN, INT_MAX in *; lia)). simpl.
  apply wrap_s_id; [lia|]. unfold in_s. unfold INT_MIN, INT_MAX in *. lia.
Qed.

Lemma dec_nonempty z : dec z <> [].
Proof. unfold dec. destruct (z <? 0); [done|]. apply dec_nat_nonempty. Qed.

Lemma dec_c_string z : c_string (dec z).
Proof.
  assert (forall n, 0 <= n -> NUL ∉ dec_nat n) as H.
  { intros n Hn Hin. pose proof (dec_nat_chars n Hn) as Hf. rewrite Forall_forall in Hf.
    apply Hf, dec_char_spec in Hin. ord_lia. }
  unfold c_string, dec. destruct (z <? 0) eqn:E; z_bool; [|by apply H].
  pose proof (H (- z)). set_solver by lia.
Qed.

Create HintDb cstring.
#[export] Hint Resolve dec_c_string dec_nonempty : cstring.

(** The characters a printed number can contain. *)
Lemma dec_chars z : Forall (fun c => c = "-"%char \/ dec_char c) (dec z).
Proof.
  assert (forall n, 0 <= n -> Forall (fun c => c = "-"%char \/ dec_char c) (dec_nat n)) as H.
  { intros n Hn. eapply Forall_impl; [by apply dec_nat_chars|]. naive_solver. }
  unfold dec. destruct (z <? 0) eqn:E; z_bool; [|by apply H].
  constructor; [by left|]. apply H. lia.
Qed.
