(* ===== verification/Kernel.v ===== *)
(** * The interface to the operating system

    The kernel is not part of the repository.  Its state is an abstract type [K] and each family
    of system calls is a class of operations on it: an operation answers with a result or with
    an error number.  The wrappers of the C library, which turn an error number into the result
    -1 and [errno], are defined here once; a component asks for the classes it uses, and a
    theorem that needs more than that asks for a class of laws.  Two simulated kernels, one of
    byte streams with partial and interrupted transfers and one of regular files, satisfy the
    laws and run the programs in the witnesses. *)

From Stdlib Require Import ZArith Lia String Ascii.
From S2P Require Import Prelude CString.

(** ** Constants of the Linux headers *)

Definition EPERM : Z := 1.
Definition ENOENT : Z := 2.
Definition EINTR : Z := 4.
Definition ENOEXEC : Z := 8.
Definition EBADF : Z := 9.
Definition EAGAIN : Z := 11.
Definition ENOMEM : Z := 12.
Definition EACCES : Z := 13.
Definition EINVAL : Z := 22.
Definition ENAMETOOLONG : Z := 36.
Definition ENOSYS : Z := 38.
Definition ERANGE : Z := 34.
Definition EDEADLK : Z := 35.

Definition EXIT_SUCCESS : Z := 0.
Definition EXIT_FAILURE : Z := 1.

Definition SEEK_SET : Z := 0.
Definition SEEK_CUR : Z := 1.
Definition SEEK_END : Z := 2.

Definition O_RDONLY : Z := 0.
Definition O_WRONLY : Z := 1.
Definition O_RDWR : Z := 2.
Definition O_CREAT : Z := 64.
Definition O_TRUNC : Z := 512.
Definition O_APPEND : Z := 1024.

Definition STDIN_FILENO : Z := 0.
Definition STDOUT_FILENO : Z := 1.
Definition STDERR_FILENO : Z := 2.

(** ** The process *)

(** What a program prints, on either stream of stdio. *)
Inductive event := Out (s : bytes) | Err (s : bytes).

Record proc (K : Type) := Proc { kern : K; errno : Z; trace : list event }.
Arguments Proc {K}.
Arguments kern {K}.
Arguments errno {K}.
Arguments trace {K}.

Section Proc.
Context {K : Type}.

Definition set_errno (e : Z) : M (proc K) unit := modify (fun p => Proc (kern p) e (trace p)).
Definition get_errno : M (proc K) Z := gets errno.
Definition printf (s : bytes) : M (proc K) unit :=
  modify (fun p => Proc (kern p) (errno p) (trace p ++ [Out s])).
Definition eprintf (s : bytes) : M (proc K) unit :=
  modify (fun p => Proc (kern p) (errno p) (trace p ++ [Err s])).

(** A system call as the C library presents it: on an error, [errno] is set and the result is
    the given failure value. *)
Definition syscall {A} (fail : A) (f : K -> (A + Z) * K) : M (proc K) A := fun p =>
  match f (kern p) with
  | (inl a, k') => (Ret a, Proc k' (errno p) (trace p))
  | (inr e, k') => (Ret fail, Proc k' e (trace p))
  end.
End Proc.

(** ** Files and streams *)

Class FileIO (K : Type) := {
  k_open : bytes -> Z -> Z -> K -> (Z + Z) * K;      (* path, flags, mode *)
  k_close : Z -> K -> (Z + Z) * K;
  k_read : Z -> Z -> K -> (bytes + Z) * K;           (* descriptor, count *)
  k_write : Z -> bytes -> K -> (Z + Z) * K;
  k_lseek : Z -> Z -> Z -> K -> (Z + Z) * K          (* descriptor, offset, whence *)
}.

Section Calls.
Context {K : Type} `{!FileIO K}.

Definition open_ (path : bytes) (flags mode : Z) : M (proc K) Z :=
  syscall (-1) (k_open path flags mode).
Definition close (fd : Z) : M (proc K) Z := syscall (-1) (k_close fd).
(** The result of [read] together with the bytes it put into the buffer. *)
Definition read (fd n : Z) : M (proc K) (Z * bytes) :=
  syscall (-1, []) (fun k => let '(r, k') := k_read fd n k in
    (match r with inl bs => inl (strlen bs, bs) | inr e => inr e end, k')).
Definition write (fd : Z) (data : bytes) : M (proc K) Z := syscall (-1) (k_write fd data).
Definition lseek (fd off whence : Z) : M (proc K) Z := syscall (-1) (k_lseek fd off whence).
End Calls.

(** *** A descriptor as a source and as a sink of bytes

    [pending k fd] is what [read] on [fd] will still deliver, in pieces of any size, and [sunk k
    fd] what [write] has accepted, a piece of each request at a time.  A call may be interrupted
    any finite number of times in a row ([delays]) or fail otherwise; neither loses bytes. *)

Class SourceLaws (K : Type) `{!FileIO K} := {
  pending : K -> Z -> bytes;
  rdelays : K -> Z -> nat;
  k_read_ok : forall k fd n bs k', 0 < n -> k_read fd n k = (inl bs, k') ->
    pending k fd = bs ++ pending k' fd /\ strlen bs <= n /\
    (bs = [] -> pending k fd = []) /\ (rdelays k' fd <= rdelays k fd)%nat;
  k_read_err : forall k fd n e k', 0 < n -> k_read fd n k = (inr e, k') ->
    pending k' fd = pending k fd /\ (e = EINTR -> (rdelays k' fd < rdelays k fd)%nat)
}.

Class SinkLaws (K : Type) `{!FileIO K} := {
  sunk : K -> Z -> bytes;
  wdelays : K -> Z -> nat;
  k_write_ok : forall k fd data c k', data <> [] -> k_write fd data k = (inl c, k') ->
    0 <= c <= strlen data /\ sunk k' fd = sunk k fd ++ take (Z.to_nat c) data /\
    (wdelays k' fd <= wdelays k fd)%nat;
  k_write_err : forall k fd data e k', data <> [] -> k_write fd data k = (inr e, k') ->
    sunk k' fd = sunk k fd /\ (e = EINTR -> (wdelays k' fd < wdelays k fd)%nat)
}.

(** *** A simulated kernel of streams

    Each descriptor has a script of what its reads deliver and of how its writes go. *)

Inductive rd := Chunk (c : ascii) (cs : bytes) | RFail (e : Z).
Inductive wr := Accept (n : nat) | WFail (e : Z).

Record streams := Streams {
  s_in : gmap Z (list rd);
  s_out : gmap Z bytes;
  s_script : gmap Z (list wr)
}.

Definition rd_bytes (r : rd) : bytes := match r with Chunk c cs => c :: cs | RFail _ => [] end.
Definition rd_fails (r : rd) : nat := match r with Chunk _ _ => 0 | RFail _ => 1 end.
Definition wr_fails (r : wr) : nat := match r with Accept _ => 0 | WFail _ => 1 end.

Definition streams_read (fd n : Z) (k : streams) : (bytes + Z) * streams :=
  match default [] (s_in k !! fd) with
  | [] => (inl [], k)
  | RFail e :: rs => (inr e, Streams (<[fd := rs]> (s_in k)) (s_out k) (s_script k))
  | Chunk c cs :: rs =>
      let rs' := match drop (Z.to_nat n) (c :: cs) with
                 | [] => rs
                 | c' :: cs' => Chunk c' cs' :: rs
                 end in
      (inl (take (Z.to_nat n) (c :: cs)), Streams (<[fd := rs']> (s_in k)) (s_out k) (s_script k))
  end.

Definition streams_write (fd : Z) (data : bytes) (k : streams) : (Z + Z) * streams :=
  let out n := <[fd := default [] (s_out k !! fd) ++ take n data]> (s_out k) in
  match default [] (s_script k !! fd) with
  | [] => (inl (strlen data), Streams (s_in k) (out (length data)) (s_script k))
  | WFail e :: ws => (inr e, Streams (s_in k) (s_out k) (<[fd := ws]> (s_script k)))
  | Accept n :: ws =>
      (inl (Z.of_nat (Nat.min n (length data))),
       Streams (s_in k) (out (Nat.min n (length data))) (<[fd := ws]> (s_script k)))
  end.

#[export] Instance streams_io : FileIO streams := {|
  k_open := fun _ _ _ k => (inr ENOENT, k);
  k_close := fun _ k => (inl 0, k);
  k_read := streams_read;
  k_write := streams_write;
  k_lseek := fun _ _ _ k => (inr EINVAL, k)
|}.

Definition total (l : list nat) : nat := foldr Nat.add O l.

#[export] Program Instance streams_source : SourceLaws streams := {|
  pending := fun k fd => concat (rd_bytes <$> default [] (s_in k !! fd));
  rdelays := fun k fd => total (rd_fails <$> default [] (s_in k !! fd))
|}.
Next Obligation.
  intros k fd n bs k' Hn. simpl. unfold streams_read.
  destruct (default [] (s_in k !! fd)) as [|[c cs|e] rs] eqn:E; intros [= <- <-]; simpl.
  - rewrite E. unfold strlen. by split_and!; simpl; try lia.
  - destruct (Z.to_nat n) as [|m] eqn:En; [lia|]. cbn [take drop].
    rewrite lookup_insert_eq. simpl. unfold strlen. simpl. rewrite length_take.
    rewrite <- (take_drop m cs) at 1. destruct (drop m cs) as [|c' cs']; simpl;
      rewrite ?app_nil_r, <- ?app_assoc; split_and!; done || lia.
Qed.
Next Obligation.
  intros k fd n e k' Hn. simpl. unfold streams_read.
  destruct (default [] (s_in k !! fd)) as [|[c cs|e'] rs] eqn:E; intros [= <- <-]; simpl.
  rewrite lookup_insert_eq. simpl. split; [done|intros _; apply Nat.lt_succ_diag_r].
Qed.

#[export] Program Instance streams_sink : SinkLaws streams := {|
  sunk := fun k fd => default [] (s_out k !! fd);
  wdelays := fun k fd => total (wr_fails <$> default [] (s_script k !! fd))
|}.
Next Obligation.
  intros k fd data c k' Hd. simpl. unfold streams_write, strlen.
  destruct (default [] (s_script k !! fd)) as [|[n|e] ws] eqn:E; intros [= <- <-]; simpl;
    rewrite ?lookup_insert_eq, ?E; simpl; rewrite ?Nat2Z.id; split_and!; done || lia.
Qed.
Next Obligation.
  intros k fd data e k' Hd. simpl. unfold streams_write.
  destruct (default [] (s_script k !! fd)) as [|[n|e'] ws] eqn:E; intros [= <- <-]; simpl.
  rewrite lookup_insert_eq. simpl. split; [done|intros _; apply Nat.lt_succ_diag_r].
Qed.

(** *** Rules for the calls *)

Section CallRules.
Context {K : Type} `{!FileIO K}.
Implicit Types (p : proc K) (fd n : Z).

Lemma wp_read `{!SourceLaws K} fd n p (Q : outcome (Z * bytes) -> proc K -> Prop) :
  0 < n ->
  (forall bs k', pending (kern p) fd = bs ++ pending k' fd -> strlen bs <= n ->
     (bs = [] -> pending (kern p) fd = []) -> (rdelays k' fd <= rdelays (kern p) fd)%nat ->
     Q (Ret (strlen bs, bs)) (Proc k' (errno p) (trace p))) ->
  (forall e k', pending k' fd = pending (kern p) fd ->
     (e = EINTR -> (rdelays k' fd < rdelays (kern p) fd)%nat) ->
     Q (Ret (-1, [])) (Proc k' e (trace p))) ->
  wp (read fd n) p Q.
Proof.
  intros Hn Hok Herr. unfold wp, read, syscall.
  destruct (k_read fd n (kern p)) as [[bs|e] k'] eqn:E; simpl.
  - destruct (k_read_ok _ _ _ _ _ Hn E) as (? & ? & ? & ?). auto.
  - destruct (k_read_err _ _ _ _ _ Hn E). auto.
Qed.

Lemma wp_write `{!SinkLaws K} fd data p (Q : outcome Z -> proc K -> Prop) :
  data <> [] ->
  (forall c k', 0 <= c <= strlen data ->
     sunk k' fd = sunk (kern p) fd ++ take (Z.to_nat c) data ->
     (wdelays k' fd <= wdelays (kern p) fd)%nat ->
     Q (Ret c) (Proc k' (errno p) (trace p))) ->
  (forall e k', sunk k' fd = sunk (kern p) fd ->
     (e = EINTR -> (wdelays k' fd < wdelays (kern p) fd)%nat) ->
     Q (Ret (-1)) (Proc k' e (trace p))) ->
  wp (write fd data) p Q.
Proof.
  intros Hd Hok Herr. unfold wp, write, syscall.
  destruct (k_write fd data (kern p)) as [[c|e] k'] eqn:E; simpl.
  - destruct (k_write_ok _ _ _ _ _ Hd E) as (? & ? & ?). auto.
  - destruct (k_write_err _ _ _ _ _ Hd E). auto.
Qed.

Lemma wp_get_errno p (Q : outcome Z -> proc K -> Prop) : Q (Ret (errno p)) p -> wp get_errno p Q.
Proof. done. Qed.

Lemma wp_syscall {A} (fail : A) f p (Q : outcome A -> proc K -> Prop) :
  match f (kern p) with
  | (inl a, k') => Q (Ret a) (Proc k' (errno p) (trace p))
  | (inr e, k') => Q (Ret fail) (Proc k' e (trace p))
  end -> wp (syscall fail f) p Q.
Proof. unfold wp, syscall. by destruct (f (kern p)) as [[a|e] k']. Qed.

Lemma wp_set_errno e p (Q : outcome unit -> proc K -> Prop) :
  Q (Ret tt) (Proc (kern p) e (trace p)) -> wp (set_errno e) p Q.
Proof. done. Qed.

Lemma wp_printf s p (Q : outcome unit -> proc K -> Prop) :
  Q (Ret tt) (Proc (kern p) (errno p) (trace p ++ [Out s])) -> wp (printf s) p Q.
Proof. done. Qed.

Lemma wp_eprintf s p (Q : outcome unit -> proc K -> Prop) :
  Q (Ret tt) (Proc (kern p) (errno p) (trace p ++ [Err s])) -> wp (eprintf s) p Q.
Proof. done. Qed.
End CallRules.

Lemma strlen_app a b : strlen (a ++ b) = strlen a + strlen b.
Proof. unfold strlen. rewrite length_app. lia. Qed.

Lemma strlen_nonneg a : 0 <= strlen a.
Proof. unfold strlen. lia. Qed.

Lemma strlen_nil a : strlen a = 0 <-> a = [].
Proof. unfold strlen. rewrite <- length_zero_iff_nil. lia. Qed.

(** Reading and writing do not disturb each other: what a descriptor has still to deliver is not
    changed by a write, nor what was accepted by a read. *)
Class DuplexLaws (K : Type) `{!FileIO K, !SourceLaws K, !SinkLaws K} := {
  k_read_sunk : forall k fd n r k' fd', k_read fd n k = (r, k') ->
    sunk k' fd' = sunk k fd' /\ wdelays k' fd' = wdelays k fd';
  k_write_pending : forall k fd data r k' fd', k_write fd data k = (r, k') ->
    pending k' fd' = pending k fd' /\ rdelays k' fd' = rdelays k fd'
}.

#[export] Instance streams_duplex : DuplexLaws streams.
Proof.
  split.
  - intros k fd n r k' fd' H. simpl in *. unfold streams_read in H. repeat case_match; by simplify_eq.
  - intros k fd data r k' fd' H. simpl in *. unfold streams_write in H. repeat case_match; by simplify_eq.
Qed.

Section DuplexRules.
Context {K : Type} `{!FileIO K, !SourceLaws K, !SinkLaws K, !DuplexLaws K}.
Implicit Types (p : proc K) (fd n : Z).

Lemma wp_read_duplex fd fd' n p (Q : outcome (Z * bytes) -> proc K -> Prop) :
  0 < n ->
  (forall bs k', pending (kern p) fd = bs ++ pending k' fd -> strlen bs <= n ->
     (bs = [] -> pending (kern p) fd = []) -> (rdelays k' fd <= rdelays (kern p) fd)%nat ->
     sunk k' fd' = sunk (kern p) fd' ->
     Q (Ret (strlen bs, bs)) (Proc k' (errno p) (trace p))) ->
  (forall e k', pending k' fd = pending (kern p) fd -> sunk k' fd' = sunk (kern p) fd' ->
     (e = EINTR -> (rdelays k' fd < rdelays (kern p) fd)%nat) ->
     Q (Ret (-1, [])) (Proc k' e (trace p))) ->
  wp (read fd n) p Q.
Proof.
  intros Hn Hok Herr. unfold wp, read, syscall.
  destruct (k_read fd n (kern p)) as [[bs|e] k'] eqn:E; simpl;
    destruct (k_read_sunk _ _ _ _ _ fd' E) as [? _].
  - destruct (k_read_ok _ _ _ _ _ Hn E) as (? & ? & ? & ?). auto.
  - destruct (k_read_err _ _ _ _ _ Hn E). auto.
Qed.

Lemma wp_write_duplex fd fd' data p (Q : outcome Z -> proc K -> Prop) :
  data <> [] ->
  (forall c k', 0 <= c <= strlen data ->
     sunk k' fd = sunk (kern p) fd ++ take (Z.to_nat c) data ->
     pending k' fd' = pending (kern p) fd' -> rdelays k' fd' = rdelays (kern p) fd' ->
     Q (Ret c) (Proc k' (errno p) (trace p))) ->
  (forall e k', sunk k' fd = sunk (kern p) fd ->
     pending k' fd' = pending (kern p) fd' -> rdelays k' fd' = rdelays (kern p) fd' ->
     Q (Ret (-1)) (Proc k' e (trace p))) ->
  wp (write fd data) p Q.
Proof.
  intros Hd Hok Herr. unfold wp, write, syscall.
  destruct (k_write fd data (kern p)) as [[c|e] k'] eqn:E; simpl;
    destruct (k_write_pending _ _ _ _ _ fd' E) as [? ?].
  - destruct (k_write_ok _ _ _ _ _ Hd E) as (? & ? & ?). auto.
  - destruct (k_write_err _ _ _ _ _ Hd E). auto.
Qed.
End DuplexRules.
