(* ===== verification/Environ.v ===== *)
(** * The environment list: [setenv] and [unsetenv] (tlpi-dist/proc/setenv.c)

    [environ] is an array of string pointers that ends with a null pointer.  The two functions
    work on it in place.  Their contract is that of a map from names to values, where a list
    stands for the map its first matching entries define. *)

From Stdlib Require Import ZArith Lia String Ascii.
From S2P Require Import Prelude CString Kernel.

(** ** State *)

(** [heap_ok n] tells whether the next allocation of [n] bytes succeeds. *)
Record env_state := EnvState {
  environ : list (option bytes);
  env_errno : Z;
  heap_ok : Z -> bool
}.

Definition set_environ (env : list (option bytes)) : M env_state unit :=
  modify (fun s => EnvState env (env_errno s) (heap_ok s)).
Definition fail_with (e : Z) : M env_state Z :=
  modify (fun s => EnvState (environ s) e (heap_ok s)) ;; mret (-1).

(** [environ[i]], which is undefined outside the array. *)
Definition slot (i : nat) : M env_state (option bytes) :=
  env ← gets environ; the (env !! i).
Definition set_slot (i : nat) (p : option bytes) : M env_state unit :=
  env ← gets environ;
  if decide (i < length env)%nat then set_environ (<[i := p]> env) else undef_.

(** ** The functions *)

Definition EQ : ascii := "="%char.

(** [name == NULL || name[0] == '\0' || strchr(name, '=') != NULL], [None] being the null
    pointer. *)
Definition bad_name (name : option bytes) : bool :=
  match name with
  | None => true
  | Some n => bool_decide (n = []) || bool_decide (strchr n EQ <> None)
  end.

(** [strncmp( *ep, name, len) == 0 && ( *ep)[len] == '='] *)
Definition is_entry (e name : bytes) : M env_state bool :=
  if strncmp e name (length name) =? 0
  then c ← the (char_at e (length name)); mret (Ascii.eqb c EQ)
  else mret false.

(** [for (sp = ep; *sp != NULL; sp++) *sp = *(sp + 1);] *)
Definition shift_down (fuel : nat) (ep : nat) : M env_state unit :=
  loop fuel (fun sp =>
    p ← slot sp;
    match p with
    | None => mret (inr tt)
    | Some _ => q ← slot (S sp); set_slot sp q ;; mret (inl (S sp))
    end) ep.

(** One round of [for (ep = environ; *ep != NULL; )]: a match is removed and [ep] stays, to look
    at the entry moved there. *)
Definition unsetenv_round (n : bytes) (fuel : nat) (ep : nat) : M env_state (nat + Z) :=
  p ← slot ep;
  match p with
  | None => mret (inr 0)
  | Some e =>
      b ← is_entry e n;
      if b : bool then shift_down fuel ep ;; mret (inl ep) else mret (inl (S ep))
  end.

Definition unsetenv (name : option bytes) : M env_state Z :=
  match name with
  | Some n =>
      if bad_name name then fail_with EINVAL
      else
        fuel ← gets (fun s => S (length (environ s)));
        loop fuel (unsetenv_round n fuel) O
  | None => fail_with EINVAL
  end.

(** The C library's [getenv] and [putenv], over the entries before the null pointer. *)

Fixpoint entries (env : list (option bytes)) : list bytes :=
  match env with
  | Some e :: env' => e :: entries env'
  | _ => []
  end.

(** The value an entry gives to [name]. *)
Fixpoint entry_value (name e : bytes) : option bytes :=
  match name, e with
  | [], c :: v => if Ascii.eqb c EQ then Some v else None
  | x :: name', y :: e' => if Ascii.eqb x y then entry_value name' e' else None
  | _, [] => None
  end.

Fixpoint env_get (l : list bytes) (name : bytes) : option bytes :=
  match l with
  | [] => None
  | e :: l' => match entry_value name e with Some v => Some v | None => env_get l' name end
  end.

Definition getenv (name : bytes) : M env_state (option bytes) :=
  gets (fun s => env_get (entries (environ s)) name).

(** The first entry of the same name is replaced; otherwise the array is copied into a larger
    one. *)
Fixpoint put_entry (l : list bytes) (name es : bytes) : option (list bytes) :=
  match l with
  | [] => None
  | e :: l' =>
      if bool_decide (entry_value name e <> None) then Some (es :: l')
      else match put_entry l' name es with Some l'' => Some (e :: l'') | None => None end
  end.

Definition putenv (es : bytes) : M env_state Z :=
  l ← gets (fun s => entries (environ s));
  match index_of EQ es with
  | None =>                        (* no value: the variable is removed *)
      set_environ ((Some <$> filter (fun e => entry_value es e = None) l) ++ [None]) ;; mret 0
  | Some i =>
      match put_entry l (take i es) es with
      | Some l' => set_environ ((Some <$> l') ++ [None]) ;; mret 0
      | None =>
          ok ← gets (fun s => heap_ok s (8 * (Z.of_nat (length l) + 2)));
          if ok : bool then set_environ ((Some <$> (l ++ [es])) ++ [None]) ;; mret 0
          else fail_with ENOMEM
      end
  end.

Definition setenv (name value : option bytes) (overwrite : Z) : M env_state Z :=
  match name, value with
  | Some n, Some v =>
      if bad_name name then fail_with EINVAL
      else
        old ← getenv n;
        if bool_decide (old <> None) && (overwrite =? 0) then mret 0
        else
          unsetenv (Some n) ;;
          ok ← gets (fun s => heap_ok s (strlen n + strlen v + 2));
          if ok : bool then
            let es := n ++ [EQ] ++ v in
            r ← putenv es;
            mret (if r =? 0 then 0 else -1)
          else fail_with ENOMEM
  | _, _ => fail_with EINVAL
  end.

(** ** The array and the entries in it *)

Definition valid_name (n : bytes) : Prop := n <> [] /\ (EQ ∉ n) /\ c_string n.

(** The array holds the entries [l], then a null pointer; what follows is out of sight. *)
Definition env_repr (env : list (option bytes)) (l : list bytes) : Prop :=
  Forall c_string l /\ exists junk, env = (Some <$> l) ++ None :: junk.

Definition names (name e : bytes) : bool := bool_decide (is_Some (entry_value name e)).

Lemma entry_value_spec name e v : entry_value name e = Some v <-> e = name ++ EQ :: v.
Proof.
  revert e. induction name as [|x name IH]; intros [|y e]; simpl.
  - done.
  - destruct (Ascii.eqb_spec y EQ); naive_solver.
  - done.
  - destruct (Ascii.eqb_spec x y) as [->|]; [rewrite IH|]; naive_solver.
Qed.

Lemma names_spec name e : names name e = true <-> exists v, e = name ++ EQ :: v.
Proof.
  unfold names. rewrite bool_decide_eq_true. split.
  - intros [v Hv]. exists v. by apply entry_value_spec.
  - intros [v Hv]. exists v. by apply entry_value_spec.
Qed.

(** The entry [e] defines the variable [name]. *)
Definition defines (name e : bytes) : Prop := exists v, e = name ++ EQ :: v.

#[export] Instance defines_dec name e : Decision (defines name e).
Proof. refine (cast_if (decide (names name e = true))); unfold defines; by rewrite <- names_spec. Defined.

(** Names without [=] do not run into each other. *)
Lemma names_inj n n' e : EQ ∉ n -> EQ ∉ n' -> names n e = true -> names n' e = true -> n = n'.
Proof.
  rewrite !names_spec. intros Hn Hn' [v ->] [v' Hv]. revert n' Hn' Hv.
  induction n as [|x n IH]; intros [|y n'] Hn' Hv; simpl in *; simplify_eq; [done|set_solver..|].
  f_equal. apply IH; set_solver.
Qed.

Lemma entries_repr env l : env_repr env l -> entries env = l.
Proof. intros [_ [junk ->]]. induction l as [|e l IH]; [done|]. simpl. f_equal. apply IH. Qed.

Lemma bad_name_valid n : valid_name n -> bad_name (Some n) = false.
Proof.
  intros (? & ? & ?). simpl. rewrite strchr_index by done.
  rewrite (proj2 (index_of_None EQ n)) by done. rewrite bool_decide_eq_false_2 by done. rewrite bool_decide_eq_false_2; auto.
Qed.

Lemma is_entry_names e n s :
  c_string e -> valid_name n -> is_entry e n s = (Ret (names n e), s).
Proof.
  intros He (Hn & Heq & Hs). unfold is_entry. destruct (_ =? _) eqn:E; z_bool.
  - apply strncmp_prefix in E as [t ->]; [|done..].
    unfold char_at. destruct (decide (length (n ++ t) = length n)) as [El|El].
    + rewrite (decide_True (P := length n = _)) by done. rewrite length_app in El.
      destruct t; [|simpl in El; lia]. unfold the, mbind, M_bind, mret, M_ret. simpl.
      do 2 f_equal. symmetry. apply not_true_is_false. rewrite names_spec.
      intros [v Hv%(f_equal length)]. rewrite !length_app in Hv. simpl in Hv. lia.
    + rewrite decide_False by done. rewrite lookup_app_r, Nat.sub_diag by done.
      destruct t as [|c t]; [rewrite app_nil_r in El; done|].
      unfold the, mbind, M_bind, mret, M_ret. simpl. do 2 f_equal.
      apply eq_true_iff_eq. rewrite names_spec, Ascii.eqb_eq. split.
      * intros ->. by exists t.
      * intros [v Hv%app_inv_head]. naive_solver.
  - unfold mret, M_ret. do 2 f_equal. symmetry. apply not_true_is_false. rewrite names_spec.
    intros [v ->]. apply E, strncmp_prefix; eauto.
Qed.

(** ** In-place removal *)

Section Shift.
Context (er : Z) (h : Z -> bool).
Local Abbreviation st env := (EnvState env er h).

Lemma slot_at i A p B :
  i = length A -> slot i (st (A ++ p :: B)) = (Ret p, st (A ++ p :: B)).
Proof. intros ->. unfold slot, gets, the, mbind, M_bind. simpl. by rewrite list_lookup_middle. Qed.

Lemma slot_next i A x p B :
  i = length A -> slot (S i) (st (A ++ x :: p :: B)) = (Ret p, st (A ++ x :: p :: B)).
Proof.
  intros ->. rewrite cons_middle, app_assoc. apply slot_at. rewrite length_app. simpl. lia.
Qed.

Lemma set_slot_at i A p q B :
  i = length A -> set_slot i q (st (A ++ p :: B)) = (Ret tt, st (A ++ q :: B)).
Proof.
  intros ->. unfold set_slot, gets, set_environ, modify, mbind, M_bind. simpl.
  rewrite decide_True by (rewrite length_app; simpl; lia). simpl. do 2 f_equal.
  by rewrite insert_app_r_alt, Nat.sub_diag by done.
Qed.

Lemma shift_down_spec fuel i (A : list (option bytes)) x post junk :
  i = length A -> (length post + 1 < fuel)%nat ->
  shift_down fuel i (st (A ++ Some x :: (Some <$> post) ++ None :: junk))
  = (Ret tt, st (A ++ (Some <$> post) ++ None :: None :: junk)).
Proof.
  unfold shift_down. revert fuel i A x.
  induction post as [|y post IH]; intros [|fuel] i A x Hi Hf; simpl in Hf; try lia;
    (erewrite loop_next; [|erewrite bind_Ret by (by apply slot_at); cbn beta iota;
       erewrite bind_Ret by (by apply slot_next);
       erewrite bind_Ret by (by apply set_slot_at); apply ret_eq]).
  - destruct fuel as [|fuel]; [lia|]. simpl. erewrite loop_done; [done|].
    erewrite bind_Ret by (by apply slot_next). apply ret_eq.
  - specialize (IH fuel (S i) (A ++ [Some y]) y). rewrite <- !app_assoc in IH.
    apply IH; [rewrite length_app; simpl|]; lia.
Qed.

Definition others (n : bytes) (l : list bytes) : list bytes := filter (fun e => names n e = false) l.

Lemma unsetenv_loop n fuel0 :
  valid_name n -> forall rest pre junk fuel i,
  i = length pre -> Forall c_string rest -> (length rest < fuel)%nat ->
  (length rest < fuel0)%nat ->
  exists junk',
    loop fuel (unsetenv_round n fuel0) i (st ((Some <$> pre) ++ (Some <$> rest) ++ None :: junk))
    = (Ret 0, st ((Some <$> pre) ++ (Some <$> others n rest) ++ None :: junk')).
Proof.
  intros Hn. induction rest as [|e rest IH]; intros pre junk [|fuel] i Hi Hf Hl Hl0;
    simpl in Hl, Hl0; try lia.
  - exists junk. apply loop_done. unfold unsetenv_round.
    erewrite bind_Ret; [|apply slot_at; by rewrite length_fmap]. apply ret_eq.
  - inversion Hf as [|? ? He Hr]; subst. unfold others. rewrite filter_cons.
    case_decide as Hne.
    + destruct (IH (pre ++ [e]) junk fuel (S (length pre))) as [junk' Hloop];
        [rewrite length_app; simpl; lia|done|lia..|].
      exists junk'. erewrite loop_next; [|unfold unsetenv_round].
      * rewrite !fmap_app, <- !app_assoc in Hloop. simpl in Hloop. apply Hloop.
      * erewrite bind_Ret; [|apply slot_at; by rewrite length_fmap]. cbn beta iota.
        erewrite bind_Ret; [|by apply is_entry_names]. rewrite Hne. apply ret_eq.
    + apply not_false_iff_true in Hne.
      destruct (IH pre (None :: junk) fuel (length pre)) as [junk' Hloop]; [done|done|lia..|].
      exists junk'. erewrite loop_next; [apply Hloop|]. unfold unsetenv_round.
      erewrite bind_Ret; [|apply slot_at; by rewrite length_fmap]. cbn beta iota.
      erewrite bind_Ret; [|by apply is_entry_names]. rewrite Hne.
      erewrite bind_Ret; [apply ret_eq|].
      apply shift_down_spec; [by rewrite length_fmap|lia].
Qed.
End Shift.

(** ** What the functions do to the entries *)

Lemma unsetenv_entries n s l :
  valid_name n -> env_repr (environ s) l ->
  exists env', unsetenv (Some n) s = (Ret 0, EnvState env' (env_errno s) (heap_ok s)) /\
    env_repr env' (others n l).
Proof.
  intros Hn [Hl [junk Henv]]. destruct s as [env er h]. cbn [environ env_errno heap_ok] in *. subst env.
  unfold unsetenv. rewrite bad_name_valid by done.
  erewrite bind_Ret by done. cbn [environ].
  set (fuel := S (length ((Some <$> l) ++ None :: junk))).
  destruct (unsetenv_loop er h n fuel Hn l [] junk fuel O) as [junk' Hloop]; [done|done|..].
  1, 2: unfold fuel; rewrite length_app, length_fmap; simpl; lia.
  simpl in Hloop. eexists. split.
  - apply Hloop.
  - split; [|eauto]. apply Forall_forall. intros e He.
    apply list_elem_of_filter in He as [_ He]. rewrite Forall_forall in Hl. auto.
Qed.

Lemma names_value n e : names n e = false <-> entry_value n e = None.
Proof.
  unfold names. rewrite bool_decide_eq_false, <- eq_None_not_Some. done.
Qed.

Lemma others_cons n e l : others n (e :: l) = if names n e then others n l else e :: others n l.
Proof. unfold others. rewrite filter_cons. by destruct (names n e). Qed.

Lemma env_get_others n m l :
  valid_name n -> valid_name m ->
  env_get (others n l) m = if decide (m = n) then None else env_get l m.
Proof.
  intros (_ & Hn & _) (_ & Hm & _). induction l as [|e l IH]; simpl.
  - by case_decide.
  - rewrite others_cons. destruct (names n e) eqn:He; simpl; rewrite IH.
    + case_decide as Hmn; [done|].
      rewrite (proj1 (names_value m e)); [done|].
      apply not_true_is_false. intros Hme. apply Hmn. by eapply names_inj.
    + case_decide as Hmn; [|done]. subst. by rewrite (proj1 (names_value _ _) He).
Qed.

Lemma env_get_snoc l e m :
  env_get (l ++ [e]) m = match env_get l m with Some v => Some v | None => entry_value m e end.
Proof.
  induction l as [|e' l IH]; simpl; [by destruct (entry_value m e)|].
  by destruct (entry_value m e').
Qed.

Lemma entry_value_entry m n v :
  EQ ∉ m -> EQ ∉ n -> entry_value m (n ++ EQ :: v) = if decide (m = n) then Some v else None.
Proof.
  intros Hm Hn. case_decide as E.
  - subst. by apply entry_value_spec.
  - destruct (entry_value m (n ++ EQ :: v)) as [w|] eqn:Ev; [|done]. exfalso. apply E.
    apply (names_inj _ _ (n ++ EQ :: v)); [done..| |].
    + apply names_spec. exists w. by apply entry_value_spec.
    + apply names_spec. eauto.
Qed.

Lemma put_entry_absent l n es : env_get l n = None -> put_entry l n es = None.
Proof.
  induction l as [|e l IH]; simpl; [done|]. destruct (entry_value n e); [done|].
  intros H. rewrite bool_decide_eq_false_2 by auto. by rewrite IH.
Qed.

(** *** Environments as maps *)

(** Two entry lists that give every name the same value. *)
Definition env_equiv (l1 l2 : list bytes) : Prop :=
  forall n, valid_name n -> env_get l1 n = env_get l2 n.

#[export] Instance env_equiv_equivalence : Equivalence env_equiv.
Proof. unfold env_equiv. split; [done|by intros ?? H ? ?; rewrite H|]. intros ??? H1 H2 n Hn.
  by rewrite H1, H2. Qed.

(** The entries after a successful [setenv]. *)
Definition put_var (n v : bytes) (l : list bytes) : list bytes := others n l ++ [n ++ EQ :: v].

Lemma env_get_put n v l m :
  valid_name n -> valid_name m ->
  env_get (put_var n v l) m = if decide (m = n) then Some v else env_get l m.
Proof.
  intros Hn Hm. unfold put_var. rewrite env_get_snoc, env_get_others by done.
  pose proof Hn as (_ & ? & _). pose proof Hm as (_ & ? & _).
  rewrite entry_value_entry by done.
  case_decide; [done|]. by destruct (env_get l m).
Qed.

#[export] Instance others_proper n : valid_name n -> Proper (env_equiv ==> env_equiv) (others n).
Proof. intros Hn l1 l2 H m Hm. rewrite !env_get_others by done. case_decide; auto. Qed.

#[export] Instance put_var_proper n v :
  valid_name n -> Proper (env_equiv ==> env_equiv) (put_var n v).
Proof. intros Hn l1 l2 H m Hm. rewrite !env_get_put by done. case_decide; auto. Qed.

(** Setting two variables in either order defines the same map. *)
Lemma put_var_comm n1 v1 n2 v2 l :
  valid_name n1 -> valid_name n2 -> n1 <> n2 ->
  env_equiv (put_var n1 v1 (put_var n2 v2 l)) (put_var n2 v2 (put_var n1 v1 l)).
Proof.
  intros H1 H2 Hne m Hm. rewrite !env_get_put by done.
  repeat case_decide; congruence.
Qed.

Lemma putenv_new n v s l :
  valid_name n -> c_string v -> env_repr (environ s) l -> env_get l n = None ->
  heap_ok s (8 * (Z.of_nat (length l) + 2)) = true ->
  exists env', putenv (n ++ EQ :: v) s = (Ret 0, EnvState env' (env_errno s) (heap_ok s)) /\
    env_repr env' (l ++ [n ++ EQ :: v]).
Proof.
  intros (Hne & Heq & Hc) Hv Hrepr Hget Hok. pose proof (entries_repr _ _ Hrepr) as He.
  unfold putenv. erewrite bind_Ret by done. rewrite He, index_of_here by done.
  rewrite take_app_length, put_entry_absent by done.
  erewrite bind_Ret by done. rewrite Hok. eexists. split; [done|].
  split; [|by exists []]. destruct Hrepr as [Hl _]. apply Forall_app. split; [done|].
  constructor; [|done]. unfold c_string in *. rewrite elem_of_app, elem_of_cons. naive_solver.
Qed.

Lemma putenv_fails n v s l :
  valid_name n -> env_repr (environ s) l -> env_get l n = None ->
  heap_ok s (8 * (Z.of_nat (length l) + 2)) = false ->
  putenv (n ++ EQ :: v) s = (Ret (-1), EnvState (environ s) ENOMEM (heap_ok s)).
Proof.
  intros (Hne & Heq & Hc) Hrepr Hget Hok. pose proof (entries_repr _ _ Hrepr) as He.
  unfold putenv. erewrite bind_Ret by done. rewrite He, index_of_here by done.
  rewrite take_app_length, put_entry_absent by done.
  erewrite bind_Ret by done. by rewrite Hok.
Qed.

Lemma others_get n l : valid_name n -> env_get (others n l) n = None.
Proof. intros. rewrite env_get_others by done. by rewrite decide_True. Qed.

(** ** Properties *)

(** for every valid name, [unsetenv] terminates with result 0 and without touching [errno];
    the entries left are exactly those of other names, in their order, whatever the number and
    the position of the duplicates. *)
Theorem unsetenv_removes n s l :
  valid_name n -> env_repr (environ s) l ->
  exists s', unsetenv (Some n) s = (Ret 0, s') /\ env_errno s' = env_errno s /\
    env_repr (environ s') (filter (fun e => ~ defines n e) l) /\
    forall m, valid_name m ->
      getenv m s' = (Ret (if decide (m = n) then None else env_get l m), s').
Proof.
  intros Hn Hl. destruct (unsetenv_entries n s l) as (env' & Hrun & Hrepr); [done..|].
  eexists. split; [done|]. split; [done|]. split.
  - simpl. erewrite list_filter_iff; [apply Hrepr|]. intros e. unfold defines.
    rewrite <- names_spec. by destruct (names n e).
  - intros m Hm. unfold getenv, gets. simpl. rewrite (entries_repr _ _ Hrepr).
    by rewrite env_get_others.
Qed.

(** C1: [setenv] implements the update of a map.  It keeps the value of a defined name when
    [overwrite] is 0; otherwise it returns 0 and the name has the new value, or it runs out of
    memory, returns -1 with [ENOMEM], and the name is no longer defined.  No other name
    changes. *)
Theorem setenv_refines_map n v ow s l :
  valid_name n -> c_string v -> env_repr (environ s) l ->
  exists r s' l', setenv (Some n) (Some v) ow s = (Ret r, s') /\ env_repr (environ s') l' /\
    let keep := bool_decide (env_get l n <> None) && (ow =? 0) in
    let mem := heap_ok s (strlen n + strlen v + 2)
               && heap_ok s (8 * (Z.of_nat (length (others n l)) + 2)) in
    (if keep then r = 0 /\ l' = l
     else if mem then r = 0 /\ env_errno s' = env_errno s /\
       forall m, valid_name m -> env_get l' m = if decide (m = n) then Some v else env_get l m
     else r = -1 /\ env_errno s' = ENOMEM /\
       forall m, valid_name m -> env_get l' m = if decide (m = n) then None else env_get l m).
Proof.
  intros Hn Hv Hl. unfold setenv. rewrite bad_name_valid by done.
  erewrite bind_Ret by done. cbv zeta. rewrite (entries_repr _ _ Hl).
  destruct (_ && (ow =? 0)) eqn:Hkeep; [by exists 0, s, l|].
  destruct (unsetenv_entries n s l) as (env' & Hrun & Hrepr); [done..|].
  erewrite bind_Ret by done. erewrite bind_Ret by done. cbn [heap_ok].
  pose proof (others_get n l Hn).
  destruct (heap_ok s (strlen n + strlen v + 2)) eqn:Hok1; cbn [andb].
  - destruct (heap_ok s (8 * _)) eqn:Hok2.
    + destruct (putenv_new n v (EnvState env' (env_errno s) (heap_ok s)) (others n l))
        as (env2 & Hput & Hrepr2); [done..|].
      change ([EQ] ++ v) with (EQ :: v). erewrite bind_Ret by done.
      eexists _, _, _. split; [done|]. split; [done|].
      split_and!; [done..|]. intros m Hm. by apply env_get_put.
    + change ([EQ] ++ v) with (EQ :: v). erewrite bind_Ret by (by eapply putenv_fails). eexists _, _, _.
      split; [done|]. split; [done|]. split_and!; [done..|]. intros m Hm. by apply env_get_others.
  - eexists _, _, _. split; [done|]. split; [done|]. split_and!; [done..|].
    intros m Hm. by apply env_get_others.
Qed.

(** a null, empty or [=]-containing name is refused by both functions, and a null value by
    [setenv]: the result is -1, [errno] is [EINVAL] and the environment is untouched. *)
Theorem bad_name_refused name value ow s :
  bad_name name = true \/ value = None ->
  setenv name value ow s = (Ret (-1), EnvState (environ s) EINVAL (heap_ok s)) /\
  (bad_name name = true ->
   unsetenv name s = (Ret (-1), EnvState (environ s) EINVAL (heap_ok s))) /\
  (bad_name name = true <->
   match name with None => True | Some n => n = [] \/ EQ ∈ n end).
Proof.
  intros H. split_and!.
  - unfold setenv. destruct name as [n|], value as [v|]; try done.
    destruct H as [->|]; done.
  - unfold unsetenv. destruct name as [n|]; [|done]. by intros ->.
  - destruct name as [n|]; [|done]. simpl. rewrite strchr_index by done.
    rewrite orb_true_iff, !bool_decide_eq_true, index_of_None.
    destruct (decide (EQ ∈ n)); naive_solver.
Qed.

Definition demo_env : env_state :=
  EnvState ((Some <$> [str "A=1"; str "PATH=/bin"; str "A=2"]) ++ [None]) 0 (fun _ => true).

Lemma demo_repr : env_repr (environ demo_env) [str "A=1"; str "PATH=/bin"; str "A=2"].
Proof. split; [by_decide|by exists []]. Qed.

Lemma demo_name : valid_name (str "A").
Proof. split_and!; [done|by_decide..]. Qed.

Lemma unsetenv_removes_witness :
  exists s', unsetenv (Some (str "A")) demo_env = (Ret 0, s') /\ entries (environ s') = [str "PATH=/bin"].
Proof.
  destruct (unsetenv_removes (str "A") demo_env _ demo_name demo_repr) as (s' & Hs & _ & Hr & _).
  exists s'. split; [exact Hs|]. vm_compute in Hs. injection Hs as <-. vm_compute. reflexivity.
Defined.

Lemma setenv_refines_map_witness :
  exists s', setenv (Some (str "A")) (Some (str "3")) 1 demo_env = (Ret 0, s') /\
    env_get (entries (environ s')) (str "A") = Some (str "3").
Proof.
  destruct (setenv_refines_map (str "A") (str "3") 1 demo_env _ demo_name
    ltac:(by_decide) demo_repr) as (r & s' & l' & Hs & _ & H).
  vm_compute in H. destruct H as (-> & _). exists s'. split; [exact Hs|].
  vm_compute in Hs. injection Hs as <-. vm_compute. reflexivity.
Defined.

Lemma bad_name_refused_witness :
  setenv (Some (str "A=B")) (Some (str "3")) 1 demo_env
  = (Ret (-1), EnvState (environ demo_env) EINVAL (heap_ok demo_env)).
Proof.
  exact (proj1 (bad_name_refused (Some (str "A=B")) (Some (str "3")) 1 demo_env
    (or_introl eq_refl))).
Defined.
