(* ===== verification/GetNum.v ===== *)
(** * Numeric command-line arguments (tlpi-dist/lib/get_num.c)

    [getInt] and [getLong] either return the number an argument spells or end the process with
    a message.  The null pointer is [None]. *)

From Stdlib Require Import ZArith Lia String Ascii.
From S2P Require Import Prelude CString Kernel.

(** ** Flags (get_num.h) *)

Definition GN_NONNEG : Z := 1.
Definition GN_GT_0 : Z := 2.
Definition GN_ANY_BASE : Z := 64.
Definition GN_BASE_8 : Z := 128.
Definition GN_BASE_16 : Z := 256.

(** [flags & bit] as a condition. *)
Definition has (flags bit : Z) : bool := negb (Z.land flags bit =? 0).

Section GetNum.
Context {K : Type}.

Definition gnFail {A} (fname msg : bytes) (arg name : option bytes) : M (proc K) A :=
  eprintf (fname ++ str " error") ;;
  (match name with Some n => eprintf (str " (in " ++ n ++ str ")") | None => mret tt end) ;;
  eprintf (str ": " ++ msg ++ [NL]) ;;
  (match arg with
   | Some ((_ :: _) as a) => eprintf (str "        offending text: " ++ a ++ [NL])
   | _ => mret tt
   end) ;;
  exit_ EXIT_FAILURE.

Definition base_of (flags : Z) : Z :=
  if has flags GN_ANY_BASE then 0
  else if has flags GN_BASE_8 then 8
  else if has flags GN_BASE_16 then 16 else 10.

(** [strtol] with its report of a range error through [errno]. *)
Definition strtol_errno (s : bytes) (base : Z) : M (proc K) (Z * nat) :=
  let r := strtol s base in
  (if st_erange r then set_errno ERANGE else mret tt) ;;
  mret (st_value r, st_end r).

Definition getNum (fname : bytes) (arg : option bytes) (flags : Z) (name : option bytes)
    : M (proc K) Z :=
  match arg with
  | None | Some [] => gnFail fname (str "null or empty string") arg name
  | Some s =>
      set_errno 0 ;;
      re ← strtol_errno s (base_of flags);
      let '(res, e) := re in
      errno ← get_errno;
      if negb (errno =? 0) then gnFail fname (str "strtol() failed") arg name
      else
        c ← the (char_at s e);
        if negb (Ascii.eqb c NUL) then gnFail fname (str "nonnumeric characters") arg name
        else if has flags GN_NONNEG && (res <? 0)
        then gnFail fname (str "negative value not allowed") arg name
        else if has flags GN_GT_0 && (res <=? 0)
        then gnFail fname (str "value must be > 0") arg name
        else mret res
  end.

Definition getLong (arg : option bytes) (flags : Z) (name : option bytes) : M (proc K) Z :=
  getNum (str "getLong") arg flags name.

Definition getInt (arg : option bytes) (flags : Z) (name : option bytes) : M (proc K) Z :=
  res ← getNum (str "getInt") arg flags name;
  if (INT_MAX <? res) || (res <? INT_MIN)
  then gnFail (str "getInt") (str "integer out of range") arg name
  else mret (s32 res).
End GetNum.

(** ** What is accepted *)

(** The argument [s] spells the number [v] and [v] passes the checks that [flags] ask for. *)
Definition accepted (s : bytes) (flags v : Z) : Prop :=
  strtol s (base_of flags) = {| st_value := v; st_end := length s; st_erange := false |} /\
  s <> [] /\
  (has flags GN_NONNEG = true -> 0 <= v) /\
  (has flags GN_GT_0 = true -> 0 < v).

(** The process ends with status 1, after a message on the standard error. *)
Definition fails {K A} (r : outcome A * proc K) (p : proc K) : Prop :=
  exists e m ms, r = (Exit EXIT_FAILURE, Proc (kern p) e (trace p ++ Err m :: ms)).

Lemma gnFail_fails {K A} fname msg arg name (p : proc K) :
  fails (gnFail (A := A) fname msg arg name p) p.
Proof.
  destruct p as [k e t]. unfold fails, gnFail.
  destruct arg as [[|c a]|], name as [n|]; do 3 eexists;
    unfold eprintf, modify, exit_, mret, M_ret, mbind, M_bind; cbn -[app str];
    rewrite <- ?app_assoc; reflexivity.
Qed.

Lemma fails_errno {K A} (r : outcome A * proc K) k e e' t : 
  fails r (Proc k e t) -> fails r (Proc k e' t).
Proof. intros (e0 & m & ms & ->). by exists e0, m, ms. Qed.

Lemma strtol_bounds s base :
  (st_end (strtol s base) <= length s)%nat /\ LONG_MIN <= st_value (strtol s base) <= LONG_MAX.
Proof.
  unfold strtol. destruct (span isspace s), (split_sign _) as [neg ?], (split_prefix _ _) as [b s3].
  destruct (span _ s3) as [ds rest].
  repeat case_match; cbn; z_bool; unfold LONG_MIN, LONG_MAX in *; lia.
Qed.

Lemma char_at_end s i : c_string s -> (i <= length s)%nat ->
  exists c, char_at s i = Some c /\ (c = NUL <-> i = length s).
Proof.
  intros Hs Hi. unfold char_at. case_decide as E; [by exists NUL|].
  destruct (lookup_lt_is_Some_2 s i) as [c Hc]; [lia|]. exists c. split; [done|].
  split; [|done]. intros ->. destruct Hs. by eapply list_elem_of_lookup_2.
Qed.

(** Every call of [getNum] either returns or fails, and what it returns is what is accepted. *)
Lemma getNum_cases {K} fname s flags name (p : proc K) :
  c_string s ->
  (exists v, accepted s flags v /\
     getNum fname (Some s) flags name p = (Ret v, Proc (kern p) 0 (trace p))) \/
  ((forall v, ~ accepted s flags v) /\ fails (getNum fname (Some s) flags name p) p).
Proof.
  intros Hs. destruct s as [|c0 s0]; [right; split; [intros v (_ & ? & _); done|apply gnFail_fails]|].
  set (s := c0 :: s0) in *. destruct p as [k e t].
  destruct (strtol_bounds s (base_of flags)) as [Hend _].
  destruct (char_at_end s (st_end (strtol s (base_of flags)))) as (c & Hc & Hnul); [done..|].
  unfold getNum. fold s. cbn [s]. erewrite bind_Ret by done. unfold strtol_errno.
  destruct (strtol s (base_of flags)) as [v en r] eqn:Er. cbn [st_value st_end st_erange] in *.
  unfold accepted. fold s. rewrite Er. destruct r.
  { right. split; [naive_solver|]. eapply fails_errno, gnFail_fails. }
  erewrite bind_Ret by (erewrite bind_Ret by done; apply ret_eq).
  cbn beta iota. erewrite bind_Ret by done. cbn [errno Z.eqb negb]. rewrite Hc.
  erewrite bind_Ret by done.
  destruct (Ascii.eqb_spec c NUL) as [Ec|Ec]; cbn [negb]; last first.
  { right. split; [|eapply fails_errno, gnFail_fails].
    intros v' [Heq _]. apply Ec, Hnul. by injection Heq. }
  apply Hnul in Ec. subst en.
  destruct (has flags GN_NONNEG) eqn:H1, (has flags GN_GT_0) eqn:H2; cbn [andb];
    repeat match goal with |- context [if ?b then _ else _] => destruct b eqn:?; z_bool end;
    first [left; exists v; split; [split_and!; try done; lia|done]
          |right; split; [|eapply fails_errno, gnFail_fails]];
    intros v' (Heq & _ & Hp & Hq); injection Heq as ->; try specialize (Hp eq_refl); try specialize (Hq eq_refl);
    lia.
Qed.

(** So does [getInt], which takes the range of [int] from it. *)
Lemma getInt_cases {K} s flags name (p : proc K) :
  c_string s ->
  let ok v := accepted s flags v /\ INT_MIN <= v <= INT_MAX in
  (exists v, ok v /\ getInt (Some s) flags name p = (Ret v, Proc (kern p) 0 (trace p))) \/
  ((forall v, ~ ok v) /\ fails (getInt (Some s) flags name p) p).
Proof.
  intros Hs ok. unfold getInt. destruct p as [k e t].
  destruct (getNum_cases (str "getInt") s flags name (Proc k e t) Hs) as [(v & Hv & Hrun)|[Hno Hfail]].
  - erewrite bind_Ret by exact Hrun.
    destruct (_ || _) eqn:E.
    + right. split; [|eapply fails_errno, gnFail_fails].
      intros v' [Hv' Hr]. assert (v' = v) as -> by (destruct Hv, Hv'; congruence). lia.
    + left. exists v. z_bool. split; [split; [done|lia]|].
      rewrite wrap_s_id; [done|lia|]. unfold in_s. unfold INT_MAX, INT_MIN in *. lia.
  - right. split; [intros v [? _]; by eapply Hno|].
    destruct Hfail as (e' & m & ms & Hrun). exists e', m, ms.
    unfold mbind, M_bind. by rewrite Hrun.
Qed.

(** ** Properties *)

(** C12: [getInt] always comes to an end: it returns the number the argument spells, with nothing
    printed, exactly when the whole argument is a numeral of the chosen base that fits an [int]
    and passes the sign checks; in every other case it prints a message and exits with
    status 1. *)
Theorem getInt_spec {K} s flags name (p : proc K) :
  c_string s ->
  (forall v q, getInt (Some s) flags name p = (Ret v, q) <->
     accepted s flags v /\ INT_MIN <= v <= INT_MAX /\ q = Proc (kern p) 0 (trace p)) /\
  (forall o q, getInt (Some s) flags name p = (o, q) -> (exists v, o = Ret v) \/ fails (o, q) p).
Proof.
  intros Hs. destruct (getInt_cases s flags name p Hs) as [(v & [Hv Hr] & ->)|[Hno (e & m & ms & ->)]]; split.
  - intros v' q. split; [by intros [= <- <-]|]. intros (Hv' & _ & ->). destruct Hv, Hv'. congruence.
  - intros o q [= <- <-]. left. by eexists.
  - intros v q. split; [done|]. intros (Hv & Hr & _). by destruct (Hno v).
  - intros o q [= <- <-]. right. by do 3 eexists.
Qed.

(** every [int] is read back from its decimal numeral, every other [long] printed in decimal
    is refused, and text after the number is refused. *)
Theorem getInt_decimal {K} z rest name (p : proc K) :
  LONG_MIN <= z <= LONG_MAX -> c_string rest -> no_digit rest ->
  (rest = [] /\ INT_MIN <= z <= INT_MAX ->
     getInt (Some (dec z ++ rest)) 0 name p = (Ret z, Proc (kern p) 0 (trace p))) /\
  (rest <> [] \/ z < INT_MIN \/ INT_MAX < z -> fails (getInt (Some (dec z ++ rest)) 0 name p) p).
Proof.
  intros Hz Hrest Hnd. pose proof (dec_c_string z) as Hdec.
  assert (c_string (dec z ++ rest)) as Hs by (unfold c_string in *; rewrite elem_of_app; tauto).
  pose proof (strtol_dec z rest Hz Hnd) as Hst.
  assert (forall v, accepted (dec z ++ rest) 0 v -> v = z /\ rest = []) as Hacc.
  { intros v (Hv & _). change (base_of 0) with 10 in Hv. rewrite Hst in Hv.
    injection Hv as Hv Hlen. rewrite length_app in Hlen. split; [done|].
    apply nil_length_inv. lia. }
  destruct (getInt_cases (dec z ++ rest) 0 name p Hs) as [(v & [Hv Hr] & Hrun)|[Hno Hfail]].
  - apply Hacc in Hv as [-> ->]. split; [done|]. intros [?|?]; [done|lia].
  - split; [|done]. intros [-> Hr]. exfalso. apply (Hno z). split; [|lia].
    split_and!; [|rewrite app_nil_r; apply dec_nonempty|done|done].
    change (base_of 0) with 10. by rewrite Hst, app_nil_r.
Qed.

Lemma getInt_spec_witness :
  getInt (Some (str " 0x1F")) (Z.lor GN_ANY_BASE GN_GT_0) None (Proc tt 7 []) = (Ret 31, Proc tt 0 []).
Proof.
  apply (getInt_spec (str " 0x1F") (Z.lor GN_ANY_BASE GN_GT_0) None (Proc tt 7 [])); [by_decide|].
  vm_compute. split_and!; try reflexivity; discriminate.
Defined.

Lemma getInt_decimal_witness :
  getInt (Some (dec (-70000))) 0 None (Proc tt 7 []) = (Ret (-70000), Proc tt 0 []).
Proof.
  rewrite <- (app_nil_r (dec (-70000))).
  refine (proj1 (getInt_decimal (-70000) [] None (Proc tt 7 []) _ _ _) _); try by_decide; done.
Defined.
