(* ===== verification/Alloc.v ===== *)
(** * The allocator of exercise 7-2 (07-memory-allocation/po_malloc_free.c)

    [po_malloc] and [po_free] keep freed blocks on a doubly linked list whose nodes are block
    headers inside the heap.  The heap is modelled byte by byte, since headers end up at any
    address and may overlap what a caller was given: an address is an unsigned 64-bit number,
    a header is three 8-byte little-endian words (length, previous, next), and touching an
    address that is not mapped is undefined.  The program break belongs to the kernel. *)

From Stdlib Require Import ZArith Lia String Ascii.
From S2P Require Import Prelude Kernel.

(** ** Memory *)

Abbreviation memory := (gmap Z Z).

Fixpoint load (n : nat) (m : memory) (a : Z) : option Z :=
  match n with
  | O => Some 0
  | S n' =>
      match m !! a, load n' m (a + 1) with
      | Some b, Some r => Some (b + 256 * r)
      | _, _ => None
      end
  end.

Fixpoint store (n : nat) (m : memory) (a v : Z) : option memory :=
  match n with
  | O => Some m
  | S n' =>
      match m !! a with
      | Some _ => store n' (<[a := v mod 256]> m) (a + 1) (v / 256)
      | None => None
      end
  end.

(** [n] zero bytes from [a] on, where nothing was mapped before. *)
Fixpoint map_zero (n : nat) (m : memory) (a : Z) : memory :=
  match n with
  | O => m
  | S n' => map_zero n' (<[a := 0]> m) (a + 1)
  end.

(** ** State *)

Class Sbrk (K : Type) := {
  k_sbrk : Z -> K -> (Z + Z) * K;
  k_brk : K -> Z
}.

(** Growing the break yields the old one, and the break moves by the amount asked for. *)
Class SbrkLaws (K : Type) `{!Sbrk K} := {
  sbrk_ok : forall n k a k', k_sbrk n k = (inl a, k') ->
    a = k_brk k /\ k_brk k' = a + n /\ 0 < a /\ a + n < 2 ^ 63
}.

Record heap (K : Type) := Heap { mem : memory; free_ll_head : Z; sys : K }.
Arguments Heap {K}.
Arguments mem {K}.
Arguments free_ll_head {K}.
Arguments sys {K}.

Definition NULL : Z := 0.
Definition sizeof_header : Z := 24.
Definition FREE_BLOCK_HEADER (ptr : Z) : Z := u64 (ptr - sizeof_header).
Definition FREE_BLOCK_MEMORY (ptr : Z) : Z := u64 (ptr + sizeof_header).

Section Alloc.
Context {K : Type} `{!Sbrk K}.

Definition rd64 (a : Z) : M (heap K) Z := m ← gets mem; the (load 8 m (u64 a)).
Definition wr64 (a v : Z) : M (heap K) unit :=
  m ← gets mem;
  m' ← the (store 8 m (u64 a) v);
  modify (fun h => Heap m' (free_ll_head h) (sys h)).

(** The fields of a [block_header_t]. *)
Definition block_length (h : Z) : M (heap K) Z := rd64 h.
Definition prev_free_chunk (h : Z) : M (heap K) Z := rd64 (h + 8).
Definition next_free_chunk (h : Z) : M (heap K) Z := rd64 (h + 16).
Definition set_block_length (h v : Z) : M (heap K) unit := wr64 h v.
Definition set_prev (h v : Z) : M (heap K) unit := wr64 (h + 8) v.
Definition set_next (h v : Z) : M (heap K) unit := wr64 (h + 16) v.

Definition get_head : M (heap K) Z := gets free_ll_head.
Definition set_head (p : Z) : M (heap K) unit := modify (fun h => Heap (mem h) p (sys h)).

(** [sbrk] answers [(void * ) -1] when the kernel refuses. *)
Definition sbrk (n : Z) : M (heap K) Z := fun h =>
  match k_sbrk n (sys h) with
  | (inl a, k') => (Ret a, Heap (map_zero (Z.to_nat n) (mem h) a) (free_ll_head h) k')
  | (inr _, k') => (Ret (2 ^ 64 - 1), Heap (mem h) (free_ll_head h) k')
  end.

(** ** The list operations *)

Definition ll_append (prev next : Z) : M (heap K) Z :=
  set_next prev next ;; set_prev next prev ;; mret 0.

Definition ll_remove (list_item : Z) : M (heap K) Z :=
  p ← prev_free_chunk list_item;
  (if p =? NULL then
     n ← next_free_chunk list_item;
     if negb (n =? NULL) then set_head n else set_head NULL
   else
     n ← next_free_chunk list_item;
     set_next p n) ;;
  n ← next_free_chunk list_item;
  (if negb (n =? NULL) then
     p ← prev_free_chunk list_item;
     set_prev n p
   else mret tt) ;;
  mret 0.

Definition ll_replace (old_item new_item : Z) : M (heap K) Z :=
  p ← prev_free_chunk old_item;
  (if negb (p =? NULL) then set_next p new_item else set_head new_item) ;;
  n ← next_free_chunk old_item;
  (if negb (n =? NULL) then set_prev n new_item else mret tt) ;;
  p ← prev_free_chunk old_item;
  set_prev new_item p ;;
  n ← next_free_chunk old_item;
  set_next new_item n ;;
  mret 0.

(** ** [po_malloc] and [po_free] *)

(** The block at [current_header] is used, split when it is larger than the request plus a
    header. *)
Definition take_block (current_header size size_plus_header : Z) : M (heap K) Z :=
  let memory_to_use := FREE_BLOCK_MEMORY current_header in
  len ← block_length current_header;
  (if size_plus_header <? len then
     let new_free_header := u64 (memory_to_use + size) in
     len ← block_length current_header;
     set_block_length new_free_header (u64 (len - size)) ;;
     ll_replace current_header new_free_header
   else ll_remove current_header) ;;
  mret memory_to_use.

(** A round of [while (current_header)]: [inr (Some p)] returns [p] from the function, [inr None]
    is the end of the list. *)
Definition malloc_round (size size_plus_header current_header : Z)
    : M (heap K) (Z + option Z) :=
  if current_header =? NULL then mret (inr None)
  else
    len ← block_length current_header;
    if size <=? len then
      p ← take_block current_header size size_plus_header; mret (inr (Some p))
    else
      n ← next_free_chunk current_header; mret (inl n).

Definition po_malloc (fuel : nat) (size : Z) : M (heap K) Z :=
  let size_plus_header := u64 (size + sizeof_header) in
  current_header ← get_head;
  found ← loop fuel (malloc_round size size_plus_header) current_header;
  match found with
  | Some p => mret p
  | None =>
      (* [current_header] is NULL here, so the other arm of the size computation is dead *)
      let expand_size := size_plus_header in
      block_header ← sbrk expand_size;
      let memory_to_use := FREE_BLOCK_MEMORY block_header in
      if block_header =? NULL then mret NULL
      else
        set_next block_header NULL ;;
        set_prev block_header NULL ;;
        set_block_length block_header size ;;
        mret memory_to_use
  end.

Definition po_free (ptr : Z) : M (heap K) unit :=
  let new_freed_header := FREE_BLOCK_HEADER ptr in
  set_prev new_freed_header NULL ;;
  head ← get_head;
  if negb (head =? NULL) then
    set_next new_freed_header head ;;
    set_prev head ptr ;;
    set_head new_freed_header
  else
    set_next new_freed_header NULL ;;
    set_head new_freed_header.

(** The exerciser: allocate, free everything, allocate again.  The strings written into the
    blocks are [len - 1] digits and a null byte. *)

Fixpoint fill (n : nat) (a c : Z) : M (heap K) unit :=
  match n with
  | O => mret tt
  | S n' =>
      m ← gets mem;
      m' ← the (store 1 m (u64 a) c);
      modify (fun h => Heap m' (free_ll_head h) (sys h)) ;;
      fill n' (a + 1) c
  end.

Definition alloc_and_write (fuel : nat) (i : Z) : M (heap K) Z :=
  let len := 100 + i in
  buf ← po_malloc fuel len;
  fill (Z.to_nat (len - 1)) buf (48 + i mod 10) ;;
  fill 1 (buf + (len - 1)) 0 ;;
  mret buf.

Fixpoint mapM_ {A B} (f : A -> M (heap K) B) (l : list A) : M (heap K) (list B) :=
  match l with
  | [] => mret []
  | x :: l' => y ← f x; ys ← mapM_ f l'; mret (y :: ys)
  end.

(** The break before and after the second round of allocations; the printed lines carry the same
    numbers. *)
Definition simple_free_test (fuel : nat) (count : Z) : M (heap K) (Z * Z) :=
  bufs ← mapM_ (alloc_and_write fuel) (seqZ 0 count);
  cur_brk ← gets (fun h => k_brk (sys h));
  mapM_ po_free bufs ;;
  mapM_ (alloc_and_write fuel) (seqZ 0 count) ;;
  after ← gets (fun h => k_brk (sys h));
  mret (cur_brk, after).
End Alloc.

(** A kernel whose break can grow up to a limit. *)
Record brk_sim := BrkSim { cur : Z; limit : Z }.
#[export] Instance brk_sim_sbrk : Sbrk brk_sim := {|
  k_sbrk := fun n k =>
    if (0 <? cur k) && (0 <=? n) && (cur k + n <=? limit k) && (limit k <? 2 ^ 63)
    then (inl (cur k), BrkSim (cur k + n) (limit k)) else (inr ENOMEM, k);
  k_brk := cur
|}.
#[export] Instance brk_sim_laws : SbrkLaws brk_sim.
Proof.
  split. intros n [c l] a k'. cbn -[Z.pow]. destruct (_ && _ && _ && _) eqn:E; [|done].
  intros [= <- <-]. cbn -[Z.pow]. z_bool. lia.
Qed.

Definition heap0 : heap brk_sim := Heap ∅ NULL (BrkSim 4096 (2 ^ 40)).

(** ** Loads and stores *)

Lemma load_agree n m m' a :
  (forall x, a <= x < a + Z.of_nat n -> m' !! x = m !! x) -> load n m' a = load n m a.
Proof.
  revert a. induction n as [|n IH]; intros a H; [done|]. simpl.
  rewrite H, IH by (intros; try apply H; lia). done.
Qed.

Lemma store_outside n m a v m' :
  store n m a v = Some m' -> forall x, ~ (a <= x < a + Z.of_nat n) -> m' !! x = m !! x.
Proof.
  revert m a v. induction n as [|n IH]; intros m a v; simpl; [by intros [= ->]|].
  destruct (m !! a) eqn:E; [|done]. intros Hs x Hx. rewrite (IH _ _ _ Hs) by lia.
  apply lookup_insert_ne. lia.
Qed.

Lemma store_mapped n m a v m' x :
  store n m a v = Some m' -> is_Some (m !! x) -> is_Some (m' !! x).
Proof.
  revert m a v. induction n as [|n IH]; intros m a v; simpl; [by intros [= ->]|].
  destruct (m !! a) eqn:E; [|done]. intros Hs Hx. apply (IH _ _ _ Hs).
  rewrite lookup_insert. case_decide; eauto.
Qed.

Lemma store_succeeds n m a v :
  (forall x, a <= x < a + Z.of_nat n -> is_Some (m !! x)) -> exists m', store n m a v = Some m'.
Proof.
  revert m a v. induction n as [|n IH]; intros m a v H; simpl; [eauto|].
  destruct (H a) as [b ->]; [lia|]. apply IH. intros x Hx.
  rewrite lookup_insert. case_decide; [eauto|]. apply H. lia.
Qed.

Lemma load_store n m a v m' :
  store n m a v = Some m' -> load n m' a = Some (v mod 256 ^ Z.of_nat n).
Proof.
  revert m a v. induction n as [|n IH]; intros m a v; cbn [load store].
  - intros _. by rewrite Z.mod_1_r.
  - destruct (m !! a); [|done]. intros Hs.
    rewrite (store_outside _ _ _ _ _ Hs) by lia. rewrite lookup_insert_eq, (IH _ _ _ Hs).
    f_equal. rewrite Nat2Z.inj_succ, Z.pow_succ_r by lia.
    rewrite Z.rem_mul_r by lia. lia.
Qed.

Lemma load_mapped n m a v x :
  load n m a = Some v -> a <= x < a + Z.of_nat n -> is_Some (m !! x).
Proof.
  revert a v. induction n as [|n IH]; intros a v; simpl; [lia|].
  destruct (m !! a) eqn:E, (load n m (a + 1)) eqn:El; try done. intros _ Hx.
  destruct (Z.eq_dec x a) as [->|]; [eauto|]. eapply IH; [done|lia].
Qed.

Lemma map_zero_outside n m a x : ~ (a <= x < a + Z.of_nat n) -> map_zero n m a !! x = m !! x.
Proof.
  revert m a. induction n as [|n IH]; intros m a H; simpl; [done|].
  rewrite IH by lia. apply lookup_insert_ne. lia.
Qed.

Lemma map_zero_mapped n m a x :
  a <= x < a + Z.of_nat n \/ is_Some (m !! x) -> is_Some (map_zero n m a !! x).
Proof.
  revert m a. induction n as [|n IH]; intros m a H; simpl; [destruct H; [lia|done]|].
  apply IH. rewrite lookup_insert. case_decide; [by eauto|]. destruct H; [left; lia|by right].
Qed.

(** ** The free list in memory *)

(** An address whose header does not wrap around. *)
Definition addr (h : Z) : Prop := 0 < h /\ h + sizeof_header < 2 ^ 63.

Definition word (m : memory) (a : Z) : option Z := load 8 m a.
#[global] Arguments word : simpl never.

Definition first (l : list (Z * Z)) (n : Z) : Z := match l with [] => n | (h, _) :: _ => h end.
Fixpoint final (l : list (Z * Z)) (p : Z) : Z := match l with [] => p | (h, _) :: l' => final l' h end.

(** The blocks [l] (address and length of each) linked both ways; [p] is before the first and [n]
    after the last. *)
Fixpoint dseg (m : memory) (p : Z) (l : list (Z * Z)) (n : Z) : Prop :=
  match l with
  | [] => True
  | (h, len) :: l' =>
      addr h /\ 0 <= len < 2 ^ 63 /\ word m h = Some len /\ word m (h + 8) = Some p /\
      word m (h + 16) = Some (first l' n) /\ dseg m h l' n
  end.

(** Headers do not overlap. *)
Definition hdr_apart (h h' : Z) : Prop := h + 24 <= h' \/ h' + 24 <= h.
Fixpoint apart (l : list (Z * Z)) : Prop :=
  match l with
  | [] => True
  | (h, _) :: l' => Forall (fun b => hdr_apart h b.1) l' /\ apart l'
  end.

Definition free_list {K} (H : heap K) (l : list (Z * Z)) : Prop :=
  free_ll_head H = first l NULL /\ dseg (mem H) NULL l NULL /\ apart l.

(** The bytes of the headers of [l]. *)
Definition in_hdr (l : list (Z * Z)) (x : Z) : Prop := Exists (fun b => b.1 <= x < b.1 + 24) l.

Lemma u64_addr h k : addr h -> 0 <= k <= 24 -> u64 (h + k) = h + k.
Proof. intros [? ?] ?. apply wrap_u_id. unfold in_u. unfold sizeof_header in *. lia. Qed.

Lemma word_agree m m' a : (forall x, a <= x < a + 8 -> m' !! x = m !! x) -> word m' a = word m a.
Proof. intros. by apply load_agree. Qed.

Lemma dseg_agree m m' p l n :
  (forall x, in_hdr l x -> m' !! x = m !! x) -> dseg m p l n -> dseg m' p l n.
Proof.
  revert p. induction l as [|[h len] l IH]; intros p Hag; simpl; [done|].
  assert (forall k, 0 <= k <= 16 -> word m' (h + k) = word m (h + k)) as Hw.
  { intros k Hk. apply word_agree. intros x Hx. apply Hag. left. simpl. lia. }
  specialize (Hw 0) as Hw0. rewrite Z.add_0_r in Hw0. rewrite Hw0, !Hw by lia.
  intros (? & ? & ? & ? & ? & ?). split_and!; auto; try lia.
  apply IH; [|done]. intros x Hx. apply Hag. by right.
Qed.

Lemma dseg_app m p l1 l2 n :
  dseg m p (l1 ++ l2) n <-> dseg m p l1 (first l2 n) /\ dseg m (final l1 p) l2 n.
Proof.
  revert p. induction l1 as [|[h len] l1 IH]; intros p; simpl; [tauto|].
  rewrite IH. replace (first (l1 ++ l2) n) with (first l1 (first l2 n)) by (by destruct l1 as [|[]]).
  tauto.
Qed.

Lemma dseg_mapped m p l n x : dseg m p l n -> in_hdr l x -> is_Some (m !! x).
Proof.
  revert p. induction l as [|[h len] l IH]; intros p; simpl; [intros _ Hx; inversion Hx|].
  intros (? & ? & H1 & H2 & H3 & Hl) Hx. apply Exists_cons in Hx as [Hx|Hx]; [simpl in Hx|eauto].
  destruct (Z.lt_ge_cases x (h + 8)); [eapply (load_mapped 8); [exact H1|lia]|].
  destruct (Z.lt_ge_cases x (h + 16)); [eapply (load_mapped 8); [exact H2|lia]|].
  eapply (load_mapped 8); [exact H3|lia].
Qed.

Lemma apart_app l1 l2 :
  apart (l1 ++ l2) <-> apart l1 /\ apart l2 /\ Forall (fun b => Forall (fun c => hdr_apart b.1 c.1) l2) l1.
Proof.
  induction l1 as [|[h len] l1 IH]; simpl.
  - split; [by intros|tauto].
  - rewrite IH, Forall_app, Forall_cons. simpl. tauto.
Qed.

Lemma in_hdr_app l1 l2 x : in_hdr (l1 ++ l2) x <-> in_hdr l1 x \/ in_hdr l2 x.
Proof. apply Exists_app. Qed.

(** A header apart from those of [l] shares no byte with them. *)
Lemma apart_not_in h l x : Forall (fun b => hdr_apart h b.1) l -> h <= x < h + 24 -> ~ in_hdr l x.
Proof.
  intros Hf Hx Hin. unfold in_hdr in Hin. rewrite Exists_exists in Hin.
  destruct Hin as (b & Hb & Hbx). rewrite Forall_forall in Hf. specialize (Hf _ Hb).
  unfold hdr_apart in Hf. lia.
Qed.

Lemma apart_disjoint l1 l2 x :
  Forall (fun b => Forall (fun c => hdr_apart b.1 c.1) l2) l1 -> in_hdr l1 x -> ~ in_hdr l2 x.
Proof.
  intros Hf Hin. unfold in_hdr in Hin. rewrite Exists_exists in Hin. destruct Hin as (b & Hb & Hbx).
  rewrite Forall_forall in Hf. by apply (apart_not_in b.1), Hbx; apply Hf.
Qed.

(** ** Reads and writes of header fields *)

(** [m'] differs from [m] only inside [P], and no byte is unmapped. *)
Definition updates (P : Z -> Prop) (m m' : memory) : Prop :=
  (forall x, ~ P x -> m' !! x = m !! x) /\ (forall x, is_Some (m !! x) -> is_Some (m' !! x)).

Lemma updates_refl P m : updates P m m.
Proof. by split. Qed.

Lemma updates_trans P Q m1 m2 m3 :
  updates P m1 m2 -> updates Q m2 m3 -> updates (fun x => P x \/ Q x) m1 m3.
Proof.
  intros [H1 H2] [H3 H4]. split; [|auto]. intros x Hx. rewrite H3, H1 by tauto. done.
Qed.

Lemma updates_weaken P Q m m' : (forall x, P x -> Q x) -> updates P m m' -> updates Q m m'.
Proof. intros HPQ [H1 H2]. split; [|done]. intros x Hx. apply H1. auto. Qed.

Lemma updates_dseg P m m' p l n :
  updates P m m' -> (forall x, in_hdr l x -> ~ P x) -> dseg m p l n -> dseg m' p l n.
Proof. intros [Hu _] Hd. apply dseg_agree. intros x Hx. by apply Hu, Hd. Qed.

Lemma updates_word P m m' a :
  updates P m m' -> (forall x, a <= x < a + 8 -> ~ P x) -> word m' a = word m a.
Proof. intros [Hu _] Hd. apply word_agree. intros x Hx. by apply Hu, Hd. Qed.

Definition ptr (z : Z) : Prop := 0 <= z < 2 ^ 64.

Lemma addr_ptr a k : addr a -> 0 <= k <= 24 -> ptr (a + k).
Proof. unfold addr, ptr, sizeof_header. lia. Qed.

Lemma addr_not_null a : addr a -> (a =? NULL) = false.
Proof. intros [? _]. unfold NULL. lia. Qed.

Section Ops.
Context {K : Type} `{!Sbrk K}.
Implicit Types (m : memory) (k : K) (hd : Z).

Lemma rd_field a o m hd k v :
  addr a -> 0 <= o <= 16 -> word m (a + o) = Some v ->
  rd64 (a + o) (Heap m hd k) = (Ret v, Heap m hd k).
Proof.
  intros Ha Ho Hv. unfold rd64. erewrite bind_Ret by done. cbn [mem].
  rewrite u64_addr by (done || lia). unfold word in Hv. by rewrite Hv.
Qed.

Lemma rd_length a m hd k v :
  addr a -> word m a = Some v -> block_length a (Heap m hd k) = (Ret v, Heap m hd k).
Proof.
  intros Ha Hv. unfold block_length. rewrite <- (Z.add_0_r a).
  apply rd_field; [done|lia|]. by rewrite Z.add_0_r.
Qed.

Lemma wr_field a o m hd k v :
  addr a -> 0 <= o <= 16 -> ptr v ->
  (forall x, a + o <= x < a + o + 8 -> is_Some (m !! x)) ->
  exists m', wr64 (a + o) v (Heap m hd k) = (Ret tt, Heap m' hd k) /\
    word m' (a + o) = Some v /\ updates (fun x => a + o <= x < a + o + 8) m m'.
Proof.
  intros Ha Ho Hv Hm. destruct (store_succeeds 8 m (a + o) v) as [m' Hs]; [by simpl|].
  exists m'. split_and!.
  - unfold wr64. erewrite bind_Ret by done. cbn [mem]. rewrite u64_addr by (done || lia).
    by rewrite Hs.
  - unfold word. rewrite (load_store _ _ _ _ _ Hs). f_equal. apply Z.mod_small. exact Hv.
  - split; [intros x Hx; eapply store_outside; [done|simpl; lia]|].
    intros x. by eapply store_mapped.
Qed.

(** Both links of a header, one after the other. *)
Lemma wr_links a m hd k p nx :
  addr a -> ptr p -> ptr nx -> (forall x, a <= x < a + 24 -> is_Some (m !! x)) ->
  exists m1 m2, wr64 (a + 8) p (Heap m hd k) = (Ret tt, Heap m1 hd k) /\
    wr64 (a + 16) nx (Heap m1 hd k) = (Ret tt, Heap m2 hd k) /\
    updates (fun x => a + 8 <= x < a + 16) m m1 /\ updates (fun x => a + 8 <= x < a + 24) m m2 /\
    word m2 (a + 8) = Some p /\ word m2 (a + 16) = Some nx.
Proof.
  intros Ha Hp Hnx Hm.
  destruct (wr_field a 8 m hd k p) as (m1 & R1 & W1 & U1); [done|lia|done|intros; apply Hm; lia|].
  destruct (wr_field a 16 m1 hd k nx) as (m2 & R2 & W2 & U2); [done|lia|done|intros; apply U1, Hm; lia|].
  exists m1, m2. split_and!; try done.
  - eapply updates_weaken; [|exact U1]. simpl. lia.
  - eapply updates_weaken; [|eapply updates_trans; [exact U1|exact U2]]. simpl. lia.
  - rewrite (updates_word _ _ _ _ U2); [done|lia].
Qed.

Lemma dseg_final m l n : dseg m NULL l n -> l = [] \/ exists l' h len,
  l = l' ++ [(h, len)] /\ final l NULL = h /\ addr h.
Proof.
  destruct l as [|[h len] l' _] using rev_ind; [by left|]. right.
  apply dseg_app in H as [_ Hh]. exists l', h, len. split; [done|]. split; [|apply Hh].
  clear. generalize NULL. induction l' as [|[] l' IH]; intros p; simpl; [done|apply IH].
Qed.

Lemma first_ptr m p l n : dseg m p l n -> ptr n -> ptr (first l n).
Proof.
  destruct l as [|[h len] l]; simpl; [done|]. intros (Ha & _) _.
  rewrite <- (Z.add_0_r h). apply addr_ptr; [done|lia].
Qed.

(** Make [v] what follows the blocks [l]: the list head if there are none. *)
Definition set_following (p v : Z) : M (heap K) unit :=
  if p =? NULL then set_head v else set_next p v.

Lemma set_following_ok l n v m hd k :
  hd = first l n -> dseg m NULL l n -> apart l -> ptr v ->
  exists m', set_following (final l NULL) v (Heap m hd k) = (Ret tt, Heap m' (first l v) k) /\
    dseg m' NULL l v /\ updates (in_hdr l) m m'.
Proof.
  intros -> Hd Ha Hv. unfold set_following.
  destruct (dseg_final m l n Hd) as [->|(l' & h & len & -> & -> & Hh)].
  { exists m. split; [done|]. split; [done|apply updates_refl]. }
  rewrite addr_not_null by done. apply dseg_app in Hd as [Hl' Hd]. simpl in Hl'.
  apply apart_app in Ha as (_ & _ & Hap).
  assert (forall x, h <= x < h + 24 -> in_hdr (l' ++ [(h, len)]) x) as Hin.
  { intros x Hx. apply in_hdr_app. right. by left. }
  destruct (wr_field h 16 m (first (l' ++ [(h, len)]) n) k v) as (m' & Hw & Hword & Hup);
    [done|lia|done|..].
  { intros x Hx. eapply dseg_mapped; [exact Hd|]. left. simpl. lia. }
  exists m'. split; [|split].
  - unfold set_next. rewrite Hw. do 2 f_equal. by destruct l' as [|[]].
  - apply dseg_app. split.
    + simpl. eapply updates_dseg; [exact Hup| |done]. intros x Hx Hx'.
      apply (apart_disjoint l' [(h, len)] x); [done..|]. left. simpl. lia.
    + simpl in *. destruct Hd as (? & ? & H1 & H2 & _). split_and!; try done; try lia.
      * rewrite (updates_word _ _ _ _ Hup); [done|lia].
      * rewrite (updates_word _ _ _ _ Hup); [done|lia].
  - eapply updates_weaken; [|exact Hup]. intros x Hx. apply Hin. simpl in Hx. lia.
Qed.

(** Make [v] what precedes the blocks [l], if there are any. *)
Definition set_preceding (n v : Z) : M (heap K) unit :=
  if negb (n =? NULL) then set_prev n v else mret tt.

Lemma set_preceding_ok l q v m hd k :
  dseg m q l NULL -> apart l -> ptr v ->
  exists m', set_preceding (first l NULL) v (Heap m hd k) = (Ret tt, Heap m' hd k) /\
    dseg m' v l NULL /\ updates (in_hdr l) m m'.
Proof.
  intros Hd Ha Hv. unfold set_preceding. destruct l as [|[h len] l].
  { exists m. split; [done|]. split; [done|apply updates_refl]. }
  simpl in Ha. destruct Ha as [Hf _].
  destruct Hd as (Hh & Hlen & H1 & H2 & H3 & Hl). simpl first. rewrite addr_not_null by done.
  destruct (wr_field h 8 m hd k v) as (m' & Hw & Hword & Hup); [done|lia|done|..].
  { intros x Hx. eapply (load_mapped 8); [exact H2|simpl; lia]. }
  exists m'. split; [done|]. split.
  - simpl. split_and!; try done; try lia.
    + rewrite (updates_word _ _ _ _ Hup); [done|lia].
    + rewrite (updates_word _ _ _ _ Hup); [done|lia].
    + eapply updates_dseg; [exact Hup| |done]. intros x Hx Hx'.
      eapply apart_not_in; [exact Hf| |exact Hx]. lia.
  - eapply updates_weaken; [|exact Hup]. intros x Hx. left. simpl in *. lia.
Qed.
End Ops.

(** ** Removal and replacement of a block *)

Section Lists.
Context {K : Type} `{!Sbrk K}.
Implicit Types (m : memory) (k : K) (hd : Z).

(** The header of one block of the list, seen on its own. *)
Lemma dseg_middle m l1 h len l2 n :
  dseg m NULL (l1 ++ (h, len) :: l2) n ->
  dseg m NULL l1 h /\ addr h /\ 0 <= len < 2 ^ 63 /\ word m h = Some len /\
  word m (h + 8) = Some (final l1 NULL) /\ word m (h + 16) = Some (first l2 n) /\ dseg m h l2 n.
Proof. rewrite dseg_app. simpl. tauto. Qed.

Lemma apart_middle l1 h len l2 :
  apart (l1 ++ (h, len) :: l2) ->
  apart l1 /\ apart l2 /\ Forall (fun b => hdr_apart h b.1) l1 /\
  Forall (fun b => hdr_apart h b.1) l2 /\
  Forall (fun b => Forall (fun c => hdr_apart b.1 c.1) l2) l1.
Proof.
  rewrite apart_app. simpl. intros (H1 & (H2 & H3) & H4). split_and!; try done;
    eapply Forall_impl; try exact H4; intros b Hb; inversion Hb; subst; [|done].
  unfold hdr_apart in *. simpl in *. lia.
Qed.

Lemma apart_join l1 l2 :
  apart l1 -> apart l2 -> Forall (fun b => Forall (fun c => hdr_apart b.1 c.1) l2) l1 ->
  apart (l1 ++ l2).
Proof. rewrite apart_app. tauto. Qed.

Lemma outside_hdr h l x : Forall (fun b => hdr_apart h b.1) l -> in_hdr l x -> ~ (h <= x < h + 24).
Proof. intros Hf Hin Hx. by eapply apart_not_in. Qed.

Lemma final_ptr m l n : dseg m NULL l n -> ptr (final l NULL).
Proof.
  intros Hd. destruct (dseg_final m l n Hd) as [->|(l' & h & len & -> & -> & Hh)]; [done|].
  rewrite <- (Z.add_0_r h). apply addr_ptr; [done|lia].
Qed.

Lemma ll_remove_run l1 h len l2 m k :
  dseg m NULL (l1 ++ (h, len) :: l2) NULL -> apart (l1 ++ (h, len) :: l2) ->
  exists m', ll_remove h (Heap m (first (l1 ++ (h, len) :: l2) NULL) k)
      = (Ret 0, Heap m' (first (l1 ++ l2) NULL) k) /\
    dseg m' NULL (l1 ++ l2) NULL /\ apart (l1 ++ l2) /\ updates (in_hdr (l1 ++ l2)) m m'.
Proof.
  intros Hd Ha. destruct (dseg_middle _ _ _ _ _ _ Hd) as (Hl1 & Hh & Hlen & W0 & W8 & W16 & Hl2).
  destruct (apart_middle _ _ _ _ Ha) as (A1 & A2 & F1 & F2 & F12).
  pose proof (first_ptr _ _ _ _ Hl2 ltac:(done)) as Pn. pose proof (final_ptr _ _ _ Hl1) as Pp.
  replace (first (l1 ++ (h, len) :: l2) NULL) with (first l1 h) by (by destruct l1 as [|[]]).
  destruct (set_following_ok l1 h (first l2 NULL) m _ k eq_refl Hl1 A1 Pn) as (m1 & R1 & D1 & U1).
  assert (forall o, 0 <= o <= 16 -> word m1 (h + o) = word m (h + o)) as HW.
  { intros o Ho. apply (updates_word _ _ _ _ U1). intros x Hx Hin.
    eapply outside_hdr; [exact F1|exact Hin|lia]. }
  assert (dseg m1 h l2 NULL) as Hl2'.
  { eapply updates_dseg; [exact U1| |exact Hl2]. intros x Hx Hx1. by eapply (apart_disjoint l1). }
  destruct (set_preceding_ok l2 h (final l1 NULL) m1 (first l1 (first l2 NULL)) k Hl2' A2 Pp)
    as (m2 & R2 & D2 & U2).
  exists m2. split; [|split_and!].
  - unfold ll_remove, prev_free_chunk, next_free_chunk.
    erewrite bind_Ret by (by apply rd_field; [|lia|]).
    erewrite bind_Ret; last first.
    { unfold set_following in R1. destruct (final l1 NULL =? NULL).
      - erewrite bind_Ret by (by apply rd_field; [|lia|]).
        destruct (Z.eqb_spec (first l2 NULL) NULL) as [E|E]; cbn [negb]; [rewrite <- E|]; exact R1.
      - erewrite bind_Ret by (by apply rd_field; [|lia|]). exact R1. }
    erewrite bind_Ret by (apply rd_field; [done|lia|by rewrite HW by lia]).
    erewrite bind_Ret; last first.
    { unfold set_preceding in R2. destruct (negb _); [|exact R2].
      erewrite bind_Ret by (apply rd_field; [done|lia|by rewrite HW by lia]). exact R2. }
    rewrite ret_eq. do 2 f_equal. by destruct l1 as [|[]].
  - apply dseg_app. split; [|done]. eapply updates_dseg; [exact U2| |exact D1].
    intros x Hx Hx2. by eapply (apart_disjoint l1 l2).
  - by apply apart_join.
  - eapply updates_weaken; [|eapply updates_trans; [exact U1|exact U2]].
    intros x Hx. by apply in_hdr_app.
Qed.

(** The new header: mapped, away from every header of the list, with its length written. *)
Lemma ll_replace_run l1 h len l2 nh nlen m k :
  dseg m NULL (l1 ++ (h, len) :: l2) NULL -> apart (l1 ++ (h, len) :: l2) ->
  addr nh -> 0 <= nlen < 2 ^ 63 -> word m nh = Some nlen ->
  (forall x, nh <= x < nh + 24 -> is_Some (m !! x)) ->
  Forall (fun b => hdr_apart nh b.1) (l1 ++ (h, len) :: l2) ->
  exists m', ll_replace h nh (Heap m (first (l1 ++ (h, len) :: l2) NULL) k)
      = (Ret 0, Heap m' (first (l1 ++ (nh, nlen) :: l2) NULL) k) /\
    dseg m' NULL (l1 ++ (nh, nlen) :: l2) NULL /\ apart (l1 ++ (nh, nlen) :: l2) /\
    updates (in_hdr (l1 ++ (nh, nlen) :: l2)) m m'.
Proof.
  intros Hd Ha Hnh Hnlen Wn Hmap Hfn.
  destruct (dseg_middle _ _ _ _ _ _ Hd) as (Hl1 & Hh & Hlen & W0 & W8 & W16 & Hl2).
  destruct (apart_middle _ _ _ _ Ha) as (A1 & A2 & F1 & F2 & F12).
  apply Forall_app in Hfn as [N1 N2]. apply Forall_cons in N2 as [Nh N2]. simpl in Nh.
  pose proof (first_ptr _ _ _ _ Hl2 ltac:(done)) as Pn. pose proof (final_ptr _ _ _ Hl1) as Pp.
  assert (ptr nh) as Pnh by (rewrite <- (Z.add_0_r nh); apply addr_ptr; [done|lia]).
  replace (first (l1 ++ (h, len) :: l2) NULL) with (first l1 h) by (by destruct l1 as [|[]]).
  destruct (set_following_ok l1 h nh m _ k eq_refl Hl1 A1 Pnh) as (m1 & R1 & D1 & U1).
  assert (dseg m1 h l2 NULL) as Hl2'.
  { eapply updates_dseg; [exact U1| |exact Hl2]. intros x Hx Hx1. by eapply (apart_disjoint l1). }
  destruct (set_preceding_ok l2 h nh m1 (first l1 nh) k Hl2' A2 Pnh) as (m2 & R2 & D2 & U2).
  pose proof (updates_trans _ _ _ _ _ U1 U2) as U12.
  assert (forall x, in_hdr l1 x \/ in_hdr l2 x -> ~ (h <= x < h + 24)) as Oh.
  { intros x [Hx|Hx]; [by eapply outside_hdr; [exact F1|]|by eapply outside_hdr; [exact F2|]]. }
  assert (forall x, in_hdr l1 x \/ in_hdr l2 x -> ~ (nh <= x < nh + 24)) as On.
  { intros x [Hx|Hx]; [by eapply outside_hdr; [exact N1|]|by eapply outside_hdr; [exact N2|]]. }
  assert (forall o, 0 <= o <= 16 -> word m1 (h + o) = word m (h + o)) as HW1.
  { intros o Ho. apply (updates_word _ _ _ _ U1). intros x Hx Hin. eapply Oh; [by left|]. lia. }
  assert (forall o, 0 <= o <= 16 -> word m2 (h + o) = word m (h + o)) as HW2.
  { intros o Ho. apply (updates_word _ _ _ _ U12). intros x Hx Hin. eapply Oh; [done|]. lia. }
  destruct (wr_links nh m2 (first l1 nh) k (final l1 NULL) (first l2 NULL)) as (m3 & m4 & R3 & R4 & U3 & U34 & W3 & W4); try done.
  { intros x Hx. by apply U12, Hmap. }
  assert (word m3 (h + 16) = Some (first l2 NULL)) as HW3.
  { rewrite (updates_word _ _ _ _ U3), HW2 by (intros; unfold hdr_apart in Nh; lia). done. }
  assert (updates (fun x => nh <= x < nh + 24) m2 m4) as Unew.
  { eapply updates_weaken; [|exact U34]. simpl. lia. }
  exists m4. split; [|split_and!].
  - unfold ll_replace, prev_free_chunk, next_free_chunk.
    erewrite bind_Ret by (by apply rd_field; [|lia|]).
    erewrite bind_Ret; last first.
    { unfold set_following in R1. destruct (final l1 NULL =? NULL); exact R1. }
    erewrite bind_Ret by (apply rd_field; [done|lia|by rewrite HW1 by lia]).
    erewrite bind_Ret by exact R2.
    erewrite bind_Ret by (apply rd_field; [done|lia|by rewrite HW2 by lia]).
    unfold set_prev. erewrite bind_Ret by exact R3.
    erewrite bind_Ret by (by apply rd_field; [|lia|]).
    unfold set_next. erewrite bind_Ret by exact R4.
    rewrite ret_eq. do 2 f_equal. by destruct l1 as [|[]].
  - apply dseg_app. simpl. split_and!; try done; try lia.
    + eapply updates_dseg; [exact Unew|intros x Hx; apply On; by left|].
      eapply updates_dseg; [exact U2| |exact D1]. intros x Hx Hx2.
      by eapply (apart_disjoint l1 l2).
    + rewrite (updates_word _ _ _ _ U34), (updates_word _ _ _ _ U12); [done| |lia].
      intros x Hx Hin. eapply On; [exact Hin|lia].
    + eapply updates_dseg; [exact Unew|intros x Hx; apply On; by right|done].
  - apply apart_join; [done|by split|].
    apply Forall_forall. intros b Hb. rewrite Forall_forall in F12, N1. constructor; [|by apply F12].
    specialize (N1 b Hb). unfold hdr_apart in *. simpl. lia.
  - eapply updates_weaken; [|eapply updates_trans; [exact U12|exact Unew]].
    intros x [[Hx|Hx]|Hx]; apply in_hdr_app; [by left|right; by right|right; by left].
Qed.
End Lists.

(** ** Allocation *)

Section Malloc.
Context {K : Type} `{!Sbrk K}.
Implicit Types (m : memory) (k : K) (hd : Z).

(** The payload of a block: mapped, in range, and free of list headers. *)
Definition payload_ok m (l : list (Z * Z)) (h len : Z) : Prop :=
  h + 24 + len < 2 ^ 63 /\
  forall x, h + 24 <= x < h + 24 + len -> is_Some (m !! x) /\ ~ in_hdr l x.

(** The walk passes the blocks that are too small. *)
Lemma malloc_skip size sph l p n fuel m hd k :
  dseg m p l n -> Forall (fun b => b.2 < size) l ->
  loop (length l + fuel) (malloc_round size sph) (first l n) (Heap m hd k)
  = loop fuel (malloc_round size sph) n (Heap m hd k).
Proof.
  revert p. induction l as [|[h len] l IH]; intros p Hd Hs; simpl; [done|].
  destruct Hd as (Hh & Hlen & W0 & W8 & W16 & Hd). inversion Hs as [|? ? Hl Hs']; subst. simpl in Hl.
  erewrite loop_next; [by eapply IH|]. unfold malloc_round.
  rewrite addr_not_null by done. erewrite bind_Ret by (by apply rd_length).
  replace (size <=? len) with false by lia.
  erewrite bind_Ret by (by apply rd_field; [|lia|]). apply ret_eq.
Qed.

(** What is left on the list in place of a block that was used. *)
Definition remainder (h len size : Z) : list (Z * Z) :=
  if size + 24 <? len then [(h + 24 + size, len - size)] else [].

Lemma take_block_run l1 h len l2 size m k :
  dseg m NULL (l1 ++ (h, len) :: l2) NULL -> apart (l1 ++ (h, len) :: l2) ->
  payload_ok m (l1 ++ (h, len) :: l2) h len -> 0 <= size <= len ->
  let l' := l1 ++ remainder h len size ++ l2 in
  exists m', take_block h size (size + 24) (Heap m (first (l1 ++ (h, len) :: l2) NULL) k)
      = (Ret (h + 24), Heap m' (first l' NULL) k) /\
    dseg m' NULL l' NULL /\ apart l' /\ updates (in_hdr l') m m'.
Proof.
  intros Hd Ha [Hend Hpay] Hsz l'. unfold take_block.
  destruct (dseg_middle _ _ _ _ _ _ Hd) as (Hl1 & Hh & Hlen & W0 & _).
  unfold FREE_BLOCK_MEMORY. rewrite u64_addr by (done || (unfold sizeof_header; lia)).
  unfold sizeof_header. erewrite bind_Ret by (by apply rd_length).
  subst l'. unfold remainder. destruct (size + 24 <? len) eqn:Hsplit; z_bool.
  - set (l := l1 ++ (h, len) :: l2) in *. set (nh := h + 24 + size).
    assert (addr nh) as Hnh by (unfold addr, sizeof_header, nh in *; destruct Hh; lia).
    assert (u64 nh = nh) as -> by (apply wrap_u_id; unfold in_u; destruct Hnh; unfold sizeof_header in *; lia).
    assert (u64 (len - size) = len - size) as Hu by (apply wrap_u_id; unfold in_u; lia).
    assert (forall x, nh <= x < nh + 24 -> is_Some (m !! x) /\ ~ in_hdr l x) as Hnew.
    { intros x Hx. apply Hpay. unfold nh in Hx. lia. }
    destruct (wr_field nh 0 m (first l NULL) k (len - size)) as (m1 & R1 & W1 & U1);
      [done|lia|unfold ptr; lia|intros x Hx; apply Hnew; lia|].
    rewrite Z.add_0_r in R1, W1.
    assert (Forall (fun b => hdr_apart nh b.1) l) as Hap.
    { apply Forall_forall. intros b Hb. unfold hdr_apart.
      destruct (Z.le_gt_cases (nh + 24) b.1); [by left|]. right.
      destruct (Z.le_gt_cases (b.1 + 24) nh); [done|]. exfalso.
      destruct (Hnew (Z.max nh b.1)) as [_ Hn]; [lia|]. apply Hn.
      unfold in_hdr. rewrite Exists_exists. exists b. split; [done|lia]. }
    destruct (ll_replace_run l1 h len l2 nh (len - size) m1 k) as (m2 & R2 & D2 & A2 & U2);
      [|done|done|lia|done| |done|].
    { eapply updates_dseg; [exact U1| |exact Hd]. intros x Hx Hx'.
      eapply (Hnew x); [simpl in Hx'; lia|exact Hx]. }
    { intros x Hx. apply U1, Hnew. done. }
    exists m2. split_and!.
    + erewrite bind_Ret; [apply ret_eq|]. erewrite bind_Ret by (by apply rd_length).
      rewrite Hu. unfold set_block_length. erewrite bind_Ret by exact R1. exact R2.
    + exact D2.
    + exact A2.
    + eapply updates_weaken; [|eapply updates_trans; [exact U1|exact U2]].
      intros x [Hx|Hx]; [|exact Hx]. apply in_hdr_app. right. left. simpl in *. lia.
  - destruct (ll_remove_run l1 h len l2 m k Hd Ha) as (m' & R & D & A & U).
    exists m'. split_and!; try done. erewrite bind_Ret by exact R. apply ret_eq.
Qed.

(** C11: first fit.  On a well-formed free list, [po_malloc] returns the payload of the first
    block that is large enough, without asking the kernel for memory; the list is again
    well formed and lacks that block, except that a block with more than a header to spare is
    replaced by its remainder.  No byte outside the headers of the resulting list changes. *)
Theorem po_malloc_first_fit fuel size (H : heap K) l1 h len l2 :
  free_list H (l1 ++ (h, len) :: l2) -> Forall (fun b => b.2 < size) l1 -> 0 <= size <= len ->
  payload_ok (mem H) (l1 ++ (h, len) :: l2) h len -> (length l1 < fuel)%nat ->
  let l' := l1 ++ remainder h len size ++ l2 in
  exists H', po_malloc fuel size H = (Ret (h + 24), H') /\
    sys H' = sys H /\ free_list H' l' /\ updates (in_hdr l') (mem H) (mem H').
Proof.
  destruct H as [m hd k]. intros (Hhd & Hd & Ha) Hs Hsz Hpay Hfuel l'. simpl in *. subst hd.
  destruct (take_block_run l1 h len l2 size m k Hd Ha Hpay Hsz) as (m' & R & D & A & U).
  destruct (dseg_middle _ _ _ _ _ _ Hd) as (Hl1 & Hh & Hlen & W0 & _).
  exists (Heap m' (first l' NULL) k). split; [|by split_and!].
  unfold po_malloc. erewrite bind_Ret by done. cbn [free_ll_head].
  assert (u64 (size + sizeof_header) = size + 24) as ->.
  { apply wrap_u_id. unfold in_u, sizeof_header. lia. }
  replace fuel with (length l1 + S (fuel - length l1 - 1))%nat by lia.
  assert (forall m0 k0, loop (length l1 + S (fuel - length l1 - 1)) (malloc_round size (size + 24))
    (first (l1 ++ (h, len) :: l2) NULL) (Heap m (first (l1 ++ (h, len) :: l2) NULL) k)
    = (Ret (Some (h + 24)), Heap m' (first l' NULL) k)) as Hloop.
  { intros _ _. replace (first (l1 ++ (h, len) :: l2) NULL) with (first l1 h) at 1
      by (by destruct l1 as [|[]]).
    erewrite malloc_skip by done. apply loop_done. unfold malloc_round.
    rewrite addr_not_null by done. erewrite bind_Ret by (by apply rd_length).
    replace (size <=? len) with true by lia. erewrite bind_Ret by exact R. apply ret_eq. }
  erewrite bind_Ret by (by apply Hloop). apply ret_eq.
Qed.

(** when no free block is large enough, [po_malloc] grows the heap by the request and a
    header, and returns the payload of the new block, whose header records the request; the free
    list stays as it is. *)
Theorem po_malloc_grows `{!SbrkLaws K} fuel size (H : heap K) l a k' :
  free_list H l -> Forall (fun b => b.2 < size) l -> 0 <= size < 2 ^ 62 -> (length l < fuel)%nat ->
  k_sbrk (size + 24) (sys H) = (inl a, k') -> Forall (fun b => b.1 + 24 <= k_brk (sys H)) l ->
  exists H', po_malloc fuel size H = (Ret (k_brk (sys H) + 24), H') /\ sys H' = k' /\
    k_brk k' = k_brk (sys H) + size + 24 /\ free_list H' l /\
    word (mem H') (k_brk (sys H)) = Some size /\
    forall x, k_brk (sys H) <= x < k_brk (sys H) + 24 + size -> is_Some (mem H' !! x).
Proof.
  destruct H as [m hd k]. intros (Hhd & Hd & Ha) Hs Hsz Hfuel Hk Hb. simpl in *. subst hd.
  destruct (sbrk_ok _ _ _ _ Hk) as (-> & Hbrk' & Hpos & Hmax). set (a := k_brk k) in *.
  set (m0 := map_zero (Z.to_nat (size + 24)) m a).
  assert (addr a) as Haddr by (unfold addr, sizeof_header; lia).
  assert (forall x, a <= x < a + size + 24 -> is_Some (m0 !! x)) as Hmap.
  { intros x Hx. apply map_zero_mapped. left. lia. }
  assert (forall x, in_hdr l x -> ~ a <= x < a + size + 24) as Hout.
  { intros x Hx. unfold in_hdr in Hx. rewrite Exists_exists in Hx. destruct Hx as (b & Hin & Hx).
    rewrite Forall_forall in Hb. specialize (Hb b Hin). lia. }
  assert (dseg m0 NULL l NULL) as Hd0.
  { eapply dseg_agree; [|exact Hd]. intros x Hx. apply map_zero_outside.
    specialize (Hout x Hx). lia. }
  destruct (wr_field a 16 m0 (first l NULL) k' NULL) as (m1 & R1 & W1 & U1);
    [done|lia|done|intros; apply Hmap; lia|].
  destruct (wr_field a 8 m1 (first l NULL) k' NULL) as (m2 & R2 & W2 & U2);
    [done|lia|done|intros; apply U1, Hmap; lia|].
  destruct (wr_field a 0 m2 (first l NULL) k' size) as (m3 & R3 & W3 & U3);
    [done|lia|unfold ptr; lia|intros; apply U2, U1, Hmap; lia|].
  rewrite Z.add_0_r in R3, W3.
  assert (updates (fun x => a <= x < a + size + 24) m0 m3) as U.
  { eapply updates_weaken; [|eapply updates_trans; [exact U1|eapply updates_trans; [exact U2|exact U3]]].
    simpl. lia. }
  exists (Heap m3 (first l NULL) k'). split; [|split_and!; try done; try lia].
  - unfold po_malloc. erewrite bind_Ret by done. cbn [free_ll_head].
    assert (u64 (size + sizeof_header) = size + 24) as ->.
    { apply wrap_u_id. unfold in_u, sizeof_header. lia. }
    erewrite bind_Ret; last first.
    { replace fuel with (length l + S (fuel - length l - 1))%nat by lia.
      erewrite malloc_skip by done. by apply loop_done. }
    cbv beta iota zeta. erewrite bind_Ret by (unfold sbrk; cbn [sys mem free_ll_head]; by rewrite Hk).
    rewrite addr_not_null by done.
    unfold set_next, set_prev, set_block_length. fold m0.
    erewrite bind_Ret by exact R1. erewrite bind_Ret by exact R2. erewrite bind_Ret by exact R3.
    unfold FREE_BLOCK_MEMORY. rewrite u64_addr by (done || (unfold sizeof_header; lia)).
    apply ret_eq.
  - split_and!; [done| |done]. eapply updates_dseg; [exact U|exact Hout|done].
  - intros x Hx. apply U, Hmap. lia.
Qed.

(** ** Release *)

(** The list as its forward links give it; the back links may hold anything. *)
Fixpoint chain m (l : list (Z * Z)) : Prop :=
  match l with
  | [] => True
  | (h, len) :: l' =>
      addr h /\ word m h = Some len /\ (exists p, word m (h + 8) = Some p) /\
      word m (h + 16) = Some (first l' NULL) /\ chain m l'
  end.

Lemma chain_agree m m' l :
  (forall x, in_hdr l x -> m' !! x = m !! x) -> chain m l -> chain m' l.
Proof.
  induction l as [|[h len] l IH]; intros Hag; simpl; [done|].
  assert (forall o, 0 <= o <= 16 -> word m' (h + o) = word m (h + o)) as Hw.
  { intros o Ho. apply word_agree. intros x Hx. apply Hag. left. simpl. lia. }
  specialize (Hw 0) as Hw0. rewrite Z.add_0_r in Hw0. rewrite Hw0, !Hw by lia.
  intros (? & ? & ? & ? & ?). split_and!; auto. apply IH; [|done].
  intros x Hx. apply Hag. by right.
Qed.

(** [po_free] puts the block at the front of the list: following the forward links from the
    new head gives the freed block and then the old list.  But the back link of the old head is
    the address of the payload, not of the header, so with an old list that is not empty the
    result is not a doubly linked list. *)
Theorem po_free_pushes (H : heap K) h len l :
  free_ll_head H = first l NULL -> chain (mem H) l -> apart ((h, len) :: l) ->
  addr h -> h + 48 < 2 ^ 63 -> word (mem H) h = Some len ->
  (forall x, h <= x < h + 24 -> is_Some (mem H !! x)) ->
  exists H', po_free (h + 24) H = (Ret tt, H') /\ sys H' = sys H /\
    free_ll_head H' = h /\ chain (mem H') ((h, len) :: l) /\ word (mem H') (h + 8) = Some NULL /\
    match l with
    | [] => dseg (mem H') NULL [(h, len)] NULL \/ ~ 0 <= len < 2 ^ 63
    | (h1, _) :: _ => word (mem H') (h1 + 8) = Some (h + 24) /\ ~ free_list H' ((h, len) :: l)
    end.
Proof.
  destruct H as [m hd k]. cbn [free_ll_head mem sys]. intros -> Hc [Hf Ha] Hh Hbig W0 Hm.
  unfold po_free. unfold FREE_BLOCK_HEADER, sizeof_header.
  replace (u64 (h + 24 - 24)) with h by (rewrite Z.add_simpl_r; symmetry; apply wrap_u_id;
    unfold in_u; destruct Hh; unfold sizeof_header in *; lia).
  assert (ptr (first l NULL)) as Pf.
  { destruct l as [|[h1 len1] l]; [done|]. rewrite <- (Z.add_0_r (first _ _)).
    apply addr_ptr; [apply Hc|lia]. }
  destruct (wr_links h m (first l NULL) k NULL (first l NULL)) as (m1 & m2 & R1 & R2 & U1 & U12 & W8' & W2); try done.
  unfold set_prev, set_next. erewrite bind_Ret by exact R1. erewrite bind_Ret by done.
  cbn [free_ll_head].
  assert (chain m2 l) as Hc2.
  { eapply chain_agree; [|exact Hc]. intros x Hx. apply U12. intros Hx'.
    eapply apart_not_in; [exact Hf| |exact Hx]. lia. }
  assert (word m2 h = Some len) as W0' by (rewrite (updates_word _ _ _ _ U12) by lia; done).
  destruct l as [|[h1 len1] l]; simpl first in *.
  - rewrite Z.eqb_refl. cbn [negb]. erewrite bind_Ret by exact R2.
    exists (Heap m2 h k). split_and!; try done; cbn [mem].
    + simpl. by split_and!; eauto.
    + destruct (decide (0 <= len < 2 ^ 63)); [left|by right]. simpl. split_and!; done || lia.
  - destruct Hc2 as (Hh1 & V0 & [p V8] & V16 & Hc2). rewrite addr_not_null by done. cbn [negb].
    erewrite bind_Ret by exact R2.
    destruct Ha as [Hf1 _]. inversion Hf as [|? ? Hap Hf2]; subst. simpl in Hap. unfold hdr_apart in Hap.
    destruct (wr_field h1 8 m2 h1 k (h + 24)) as (m3 & R3 & W3 & U3);
      [done|lia|apply addr_ptr; [done|lia]| |].
    { intros x Hx. eapply (load_mapped 8); [exact V8|simpl; lia]. }
    erewrite bind_Ret by exact R3. exists (Heap m3 h k).
    assert (chain m3 l) as Hc3.
    { eapply chain_agree; [|exact Hc2]. intros x Hx. apply U3. simpl. intros Hx'.
      eapply apart_not_in; [exact Hf1| |exact Hx]. simpl. lia. }
    split_and!; try done; cbn [mem].
    + assert (forall a, a + 8 <= h1 + 8 \/ h1 + 16 <= a -> word m3 a = word m2 a) as HW.
      { intros a Haa. apply (updates_word _ _ _ _ U3). lia. }
      simpl. rewrite (HW h), (HW (h + 8)), (HW (h + 16)), (HW h1), (HW (h1 + 16)) by lia.
      by split_and!; eauto.
    + rewrite (updates_word _ _ _ _ U3) by lia. done.
    + intros (_ & (_ & _ & _ & _ & _ & Hd) & _). simpl in Hd. destruct Hd as (_ & _ & _ & Hp & _).
      rewrite W3 in Hp. injection Hp. lia.
Qed.
End Malloc.

(** ** Where the allocator does not do what it means to *)

(** when the kernel refuses memory, [po_malloc] does not return a null pointer: it takes the
    error value of [sbrk] for a block and writes a header there, near address 0. *)
Theorem po_malloc_out_of_memory {K} `{!Sbrk K} fuel size (H : heap K) l e k' :
  free_list H l -> Forall (fun b => b.2 < size) l -> 0 <= size < 2 ^ 62 -> (length l < fuel)%nat ->
  k_sbrk (size + 24) (sys H) = (inr e, k') -> mem H !! 15 = None ->
  exists H', po_malloc fuel size H = (Undef, H').
Proof.
  destruct H as [m hd k]. intros (Hhd & Hd & Ha) Hs Hsz Hfuel Hk Hm. simpl in *. subst hd.
  exists (Heap m (first l NULL) k').
  unfold po_malloc. erewrite bind_Ret by done. cbn [free_ll_head].
  assert (u64 (size + sizeof_header) = size + 24) as ->.
  { apply wrap_u_id. unfold in_u, sizeof_header. lia. }
  erewrite bind_Ret; last first.
  { replace fuel with (length l + S (fuel - length l - 1))%nat by lia.
    erewrite malloc_skip by done. by apply loop_done. }
  cbv beta iota zeta. erewrite bind_Ret by (unfold sbrk; cbn [sys mem free_ll_head]; by rewrite Hk).
  change (2 ^ 64 - 1 =? NULL) with false. cbv iota.
  unfold set_next, wr64, mbind, M_bind, gets. cbn [mem].
  change (u64 (2 ^ 64 - 1 + 16)) with 15. cbn [store]. by rewrite Hm.
Qed.

(** Two blocks are allocated and freed, the larger first, and two more requests are made that
    only the larger can serve. *)
Definition reuse_client : M (heap brk_sim) (Z * Z) :=
  a ← po_malloc 10 64;
  b ← po_malloc 10 100;
  po_free b ;;
  po_free a ;;
  p ← po_malloc 10 100;
  q ← po_malloc 10 100;
  mret (p, q).

(** the same block is given to two callers: because of the wrong back link left by
    [po_free], the first request does not take the block off the free list. *)
Theorem po_malloc_same_block_twice : exists p H, reuse_client heap0 = (Ret (p, p), H).
Proof. exists 4208. eexists. vm_compute. reflexivity. Qed.

(** the exerciser, which frees all its blocks before it allocates the same sizes again, sees
    the program break move. *)
Theorem simple_free_test_moves_break :
  exists before after, (simple_free_test 200 100 heap0).1 = Ret (before, after) /\ before < after.
Proof. exists 21446, 31371. split; [vm_compute; reflexivity|lia]. Qed.

(** ** Witnesses *)

Definition heap_after {A} (p : M (heap brk_sim) A) : heap brk_sim := (p heap0).2.

Lemma mapped_check m a n :
  forallb (fun x => bool_decide (is_Some (m !! x))) (seqZ a n) = true ->
  forall x, a <= x < a + n -> is_Some ((m : memory) !! x).
Proof.
  rewrite forallb_forall. intros H x Hx. apply (bool_decide_unpack _), Is_true_true, H.
  apply list_elem_of_In, elem_of_seqZ. lia.
Qed.

Definition freed_200 : heap brk_sim := heap_after (a ← po_malloc 10 200; po_free a).

Lemma freed_200_list : free_list freed_200 ([] ++ (4096, 200) :: []).
Proof. split_and!; by vm_compute. Qed.

Lemma freed_200_payload : payload_ok (mem freed_200) ([] ++ (4096, 200) :: []) 4096 200.
Proof.
  split; [lia|]. intros x Hx. split.
  - eapply mapped_check; [|exact Hx]. vm_compute. reflexivity.
  - intros Hin. inversion Hin as [? ? H|? ? H]; [simpl in H; lia|inversion H].
Qed.

Lemma po_malloc_first_fit_witness :
  exists H', po_malloc 10 50 freed_200 = (Ret 4120, H') /\ free_list H' [(4170, 150)].
Proof.
  destruct (po_malloc_first_fit 10 50 freed_200 [] 4096 200 [] freed_200_list
    (Forall_nil_2 _) ltac:(lia) freed_200_payload ltac:(simpl; lia)) as (H' & HR & _ & HF & _).
  exists H'. exact (conj HR HF).
Defined.

Lemma po_malloc_grows_witness :
  exists H', po_malloc 10 50 heap0 = (Ret 4120, H') /\ word (mem H') 4096 = Some 50.
Proof.
  destruct (po_malloc_grows 10 50 heap0 [] 4096 (BrkSim 4170 (2 ^ 40))
    ltac:(split_and!; done) (Forall_nil_2 _) ltac:(lia) ltac:(simpl; lia) eq_refl (Forall_nil_2 _))
    as (H' & HR & _ & _ & _ & HW & _).
  exists H'. exact (conj HR HW).
Defined.

Definition freed_b : heap brk_sim := heap_after (po_malloc 10 64 ;; b ← po_malloc 10 100; po_free b).

Lemma po_free_pushes_witness :
  exists H', po_free (4096 + 24) freed_b = (Ret tt, H') /\ word (mem H') (4184 + 8) = Some 4120.
Proof.
  destruct (po_free_pushes freed_b 4096 64 [(4184, 100)]) as (H' & HR & _ & _ & _ & _ & HP & _).
  - vm_compute. reflexivity.
  - split_and!; [by vm_compute..|exists 0; by vm_compute|by vm_compute|done].
  - split; [|by split]. constructor; [left; simpl; lia|done].
  - split; vm_compute; reflexivity.
  - vm_compute. reflexivity.
  - vm_compute. reflexivity.
  - apply mapped_check. vm_compute. reflexivity.
  - exists H'. exact (conj HR HP).
Defined.

Lemma po_malloc_out_of_memory_witness :
  exists H', po_malloc 10 50 (Heap ∅ NULL (BrkSim 4096 4096)) = (Undef, H').
Proof.
  apply (po_malloc_out_of_memory 10 50 _ [] ENOMEM (BrkSim 4096 4096));
    [split_and!; done|done|lia|simpl; lia|reflexivity|reflexivity].
Defined.
