(* ===== verification/Transfer.v ===== *)
(** * Reading and writing in pieces

    [readn] and [writen] (tlpi-dist/lib/rdwrn.c), [readLine] (lib/read_line.c), its buffered
    version [readLineBuf] (sockets/read_line_buf.c), and the connection handler of the echo server
    (sockets/is_echo_sv.c).  A result is paired with the bytes put into the caller's buffer.  The
    loops have no bound in the code: a transfer may be interrupted any number of times.  Their
    fuel is shown to suffice when it exceeds what the descriptor has still to deliver or to
    accept plus the interruptions. *)

From Stdlib Require Import ZArith Lia String Ascii.
From S2P Require Import Prelude CString Kernel.

Section Transfer.
Context {K : Type} `{!FileIO K}.

(** ** rdwrn.c *)

Definition readn (fuel : nat) (fd n : Z) : M (proc K) (Z * bytes) :=
  loop fuel (fun '(totRead, buf) =>
    if totRead <? n then
      r ← read fd (n - totRead);
      let '(numRead, data) := r in
      if numRead =? 0 then mret (inr (totRead, buf))
      else if numRead =? -1 then
        e ← get_errno;
        if e =? EINTR then mret (inl (totRead, buf)) else mret (inr (-1, buf))
      else mret (inl (totRead + numRead, buf ++ data))
    else mret (inr (totRead, buf))) (0, []).

Definition writen (fuel : nat) (fd : Z) (buffer : bytes) : M (proc K) Z :=
  let n := strlen buffer in
  loop fuel (fun totWritten =>
    if totWritten <? n then
      numWritten ← write fd (drop (Z.to_nat totWritten) buffer);
      if numWritten <=? 0 then
        e ← get_errno;
        if (numWritten =? -1) && (e =? EINTR) then mret (inl totWritten) else mret (inr (-1))
      else mret (inl (totWritten + numWritten))
    else mret (inr totWritten)) 0.

(** ** read_line.c *)

Definition readLine (fuel : nat) (fd : Z) (buffer : bool) (n : Z) : M (proc K) (Z * bytes) :=
  if (n <=? 0) || negb buffer then set_errno EINVAL ;; mret (-1, [])
  else
    loop fuel (fun '(totRead, buf) =>
      r ← read fd 1;
      let '(numRead, data) := r in
      if numRead =? -1 then
        e ← get_errno;
        if e =? EINTR then mret (inl (totRead, buf)) else mret (inr (-1, buf))
      else if numRead =? 0 then
        if totRead =? 0 then mret (inr (0, buf)) else mret (inr (totRead, buf ++ [NUL]))
      else
        ch ← the (data !! 0%nat);
        let '(totRead, buf) :=
          if totRead <? n - 1 then (totRead + 1, buf ++ [ch]) else (totRead, buf) in
        if Ascii.eqb ch NL then mret (inr (totRead, buf ++ [NUL]))
        else mret (inl (totRead, buf))) (0, []).

(** ** read_line_buf.c *)

Definition RL_MAX_BUF : Z := 10.

(** [rl_data] holds the [rl_len] bytes of the last read. *)
Record ReadLineBuf := RLB { rl_fd : Z; rl_data : bytes; rl_next : Z; rl_len : Z }.

Definition readLineBufInit (fd : Z) (b : ReadLineBuf) : ReadLineBuf := RLB fd (rl_data b) 0 0.

(** Refill the buffer when it is used up: [Some] is what makes the caller leave its loop. *)
Definition refill (b : ReadLineBuf) : M (proc K) (ReadLineBuf * option bool) :=
  if rl_len b <=? rl_next b then
    r ← read (rl_fd b) RL_MAX_BUF;
    let '(len, data) := r in
    let b := RLB (rl_fd b) (if len =? -1 then rl_data b else data) (rl_next b) len in
    if len =? -1 then mret (b, Some false)
    else if len =? 0 then mret (b, Some true)
    else mret (RLB (rl_fd b) (rl_data b) 0 len, None)
  else mret (b, None).

Definition readLineBuf (fuel : nat) (b : ReadLineBuf) (buffer : bool) (n : Z)
    : M (proc K) (Z * bytes * ReadLineBuf) :=
  if (n <=? 0) || negb buffer then set_errno EINVAL ;; mret (-1, [], b)
  else
    loop fuel (fun '(cnt, buf, b) =>
      rb ← refill b;
      let '(b, stop) := rb in
      match stop with
      | Some false => mret (inr (-1, buf, b))
      | Some true => mret (inr (cnt, buf, b))
      | None =>
          c ← the (rl_data b !! Z.to_nat (rl_next b));
          let b := RLB (rl_fd b) (rl_data b) (rl_next b + 1) (rl_len b) in
          let '(cnt, buf) := if cnt <? n then (cnt + 1, buf ++ [c]) else (cnt, buf) in
          if Ascii.eqb c NL then mret (inr (cnt, buf, b)) else mret (inl (cnt, buf, b))
      end) (0, [], b).

(** ** is_echo_sv.c *)

(** Everything read from the connection is written back to it; a [syslog] line is recorded as a
    diagnostic.  [strerror] gives the text for an error number. *)
Definition handleRequest (strerror : Z -> bytes) (fuel : nat) (cfd : Z) : M (proc K) unit :=
  loop fuel (fun _ =>
    r ← read cfd 4096;
    let '(numRead, buf) := r in
    if 0 <? numRead then
      w ← write cfd buf;
      if negb (w =? numRead) then
        e ← get_errno;
        eprintf (str "write() failed: " ++ strerror e) ;; exit_ EXIT_FAILURE
      else mret (inl tt)
    else if numRead =? -1 then
      e ← get_errno;
      eprintf (str "Error from read(): " ++ strerror e) ;; exit_ EXIT_FAILURE
    else mret (inr tt)) tt.
End Transfer.

(** ** What the routines deliver *)

(** A line is everything up to and including the first newline, or the rest of the input. *)
Definition line_of (s : bytes) : bytes :=
  match index_of NL s with Some i => take (S i) s | None => s end.

Lemma line_of_newline c s : NL ∉ c -> line_of (c ++ NL :: s) = c ++ [NL].
Proof.
  intros Hc. unfold line_of. rewrite index_of_here by done.
  rewrite (cons_middle NL), app_assoc, take_app_le by (rewrite length_app; simpl; lia).
  rewrite take_ge; [done|]. rewrite length_app. simpl. lia.
Qed.

Lemma line_of_last c : NL ∉ c -> line_of c = c.
Proof. intros Hc. unfold line_of. by rewrite (proj2 (index_of_None NL c)). Qed.

Section Specs.
Context {K : Type} `{!FileIO K}.
Implicit Types (p : proc K).

Lemma take_snoc_le (n : nat) (c : bytes) x :
  (length c < n)%nat -> take n c ++ [x] = take n (c ++ [x]).
Proof. intros. rewrite !take_ge; [done|rewrite length_app; simpl; lia|lia]. Qed.

Lemma take_snoc_ge (n : nat) (c : bytes) x : (n <= length c)%nat -> take n (c ++ [x]) = take n c.
Proof. intros. by rewrite take_app_le. Qed.

(** [readn] always returns.  The bytes it stores are the next bytes of the descriptor, none
    lost and none read twice, through any partial and interrupted reads; it stops short of [n]
    only at the end of the input, or with -1 on an error other than an interruption. *)
Theorem readn_spec `{!SourceLaws K} fuel fd n p :
  0 <= n -> (Z.to_nat n + rdelays (kern p) fd < fuel)%nat ->
  exists r data p', readn fuel fd n p = (Ret (r, data), p') /\
    pending (kern p) fd = data ++ pending (kern p') fd /\ trace p' = trace p /\
    (r = strlen data /\ (r = n \/ r < n /\ pending (kern p') fd = []) \/
     r = -1 /\ strlen data < n /\ errno p' <> EINTR).
Proof.
  intros Hn Hfuel.
  cut (wp (readn fuel fd n) p (fun o p' => exists r data, o = Ret (r, data) /\
    pending (kern p) fd = data ++ pending (kern p') fd /\ trace p' = trace p /\
    (r = strlen data /\ (r = n \/ r < n /\ pending (kern p') fd = []) \/
     r = -1 /\ strlen data < n /\ errno p' <> EINTR))).
  { intros (o & p' & HR & r & data & -> & H)%wp_elim. eauto. }
  apply (loop_wp
    (fun '(tot, buf) q => tot = strlen buf /\ tot <= n /\
       pending (kern p) fd = buf ++ pending (kern q) fd /\ trace q = trace p)
    (fun '(tot, _) q => (Z.to_nat (n - tot) + rdelays (kern q) fd)%nat)); last first.
  { by rewrite Z.sub_0_r. }
  { by split_and!. }
  intros [tot buf] q (-> & Hle & Hpend & Htr). destruct (Z.ltb_spec (strlen buf) n) as [Hlt|Hge].
  - apply wp_bind, wp_read; [lia| |].
    + intros bs k' Hbs Hlen Heof Hdel. pose proof (strlen_nonneg bs).
      destruct (Z.eqb_spec (strlen bs) 0) as [E|E]; [apply strlen_nil in E as ->|].
      * apply wp_ret. exists (strlen buf), buf. split_and!; [done| |done|].
        -- by rewrite Hpend, (Heof eq_refl), <- (Heof eq_refl), Hbs.
        -- left. split; [done|]. right. split; [done|]. rewrite (Heof eq_refl) in Hbs. by simpl in Hbs.
      * replace (strlen bs =? -1) with false by lia. apply wp_ret.
        rewrite strlen_app. split_and!; [done|lia| |done|simpl; lia].
        by rewrite Hpend, Hbs, <- app_assoc.
    + intros e k' Hk Hdel. cbn -[EINTR]. apply wp_bind, wp_get_errno. cbn [errno].
      destruct (Z.eqb_spec e EINTR) as [->|He]; apply wp_ret.
      * split_and!; try done; simpl; [congruence|]. specialize (Hdel eq_refl). lia.
      * exists (-1), buf. split_and!; try done; simpl; [congruence|]. right. by split_and!.
  - apply wp_ret. exists (strlen buf), buf. split_and!; try done. left. split; [done|left; lia].
Qed.

Lemma drop_take_more (a c : nat) (l : bytes) : take a l ++ take c (drop a l) = take (a + c) l.
Proof. by rewrite take_take_drop. Qed.

(** [writen] always returns.  The descriptor accepts a prefix of the buffer, byte for byte
    and once each, through any partial and interrupted writes; the result is the length of the
    buffer when all of it was accepted, and otherwise -1. *)
Theorem writen_spec `{!SinkLaws K} fuel fd buffer p :
  (length buffer + wdelays (kern p) fd < fuel)%nat ->
  exists r c p', writen fuel fd buffer p = (Ret r, p') /\
    sunk (kern p') fd = sunk (kern p) fd ++ take c buffer /\ trace p' = trace p /\
    (r = strlen buffer /\ c = length buffer \/ r = -1 /\ (c < length buffer)%nat).
Proof.
  intros Hfuel.
  cut (wp (writen fuel fd buffer) p (fun o p' => exists r c, o = Ret r /\
    sunk (kern p') fd = sunk (kern p) fd ++ take c buffer /\ trace p' = trace p /\
    (r = strlen buffer /\ c = length buffer \/ r = -1 /\ (c < length buffer)%nat))).
  { intros (o & p' & HR & r & data & -> & H)%wp_elim. eauto. }
  apply (loop_wp
    (fun tot q => 0 <= tot <= strlen buffer /\
       sunk (kern q) fd = sunk (kern p) fd ++ take (Z.to_nat tot) buffer /\ trace q = trace p)
    (fun tot q => (Z.to_nat (strlen buffer - tot) + wdelays (kern q) fd)%nat)); last first.
  { unfold strlen. simpl. lia. }
  { split_and!; try done; [apply strlen_nonneg|]. by rewrite app_nil_r. }
  unfold strlen. intros tot q (Htot & Hsunk & Htr). destruct (Z.ltb_spec tot (Z.of_nat (length buffer))).
  - apply wp_bind, wp_write.
    { intros Hnil%(f_equal length). rewrite length_drop in Hnil. simpl in Hnil. lia. }
    + intros c k' Hc Hk Hdel. unfold strlen in Hc. rewrite length_drop in Hc.
      destruct (Z.leb_spec c 0).
      * apply wp_bind, wp_get_errno. replace (c =? -1) with false by lia. cbn [andb]. apply wp_ret.
        exists (-1), (Z.to_nat tot). replace c with 0 in Hk by lia. simpl in Hk.
        split_and!; try done; [|right; lia]. simpl. by rewrite Hk, Hsunk, app_nil_r.
      * apply wp_ret. split_and!; try lia; try done; simpl; [|lia].
        rewrite Hk, Hsunk, <- app_assoc, drop_take_more. do 2 f_equal. lia.
    + intros e k' Hk Hdel. change (-1 <=? 0) with true. cbv iota. apply wp_bind, wp_get_errno.
      rewrite Z.eqb_refl. cbn [errno andb].
      destruct (Z.eqb_spec e EINTR) as [->|He]; apply wp_ret.
      * split_and!; try done; try lia; simpl; [congruence|]. specialize (Hdel eq_refl). lia.
      * exists (-1), (Z.to_nat tot). split_and!; try done; simpl; [congruence|]. right. lia.
  - apply wp_ret. exists tot, (Z.to_nat tot). split_and!; try done. left. lia.
Qed.

(** One more byte of the line: it is stored while there is room. *)
Lemma store_byte n c ch :
  let m := Z.to_nat (n - 1) in let buf := take m c in
  exists buf', (if strlen buf <? n - 1 then (strlen buf + 1, buf ++ [ch]) else (strlen buf, buf)) = (strlen buf', buf') /\
    buf' = take m (c ++ [ch]).
Proof.
  intros m buf. subst buf. destruct (Z.ltb_spec (strlen (take m c)) (n - 1)) as [E|E].
  - exists (take m c ++ [ch]). rewrite strlen_app. split; [done|].
    unfold strlen in E. rewrite length_take in E. apply take_snoc_le. lia.
  - exists (take m c). split; [done|]. symmetry. apply take_snoc_ge.
    unfold strlen in E. rewrite length_take in E. lia.
Qed.

(** What [readLine] says of its result [r] and the contents [buf] of the buffer. *)
Definition line_read `{!SourceLaws K} (fd n : Z) (p : proc K) (r : Z) (buf : bytes) (p' : proc K) : Prop :=
  let line := line_of (pending (kern p) fd) in
  let stored := take (Z.to_nat (n - 1)) line in
  trace p' = trace p /\
    (r = strlen stored /\ pending (kern p) fd = line ++ pending (kern p') fd /\
       buf = (if decide (stored = [] /\ (NL ∉ line)) then [] else stored ++ [NUL]) \/
     r = -1 /\ errno p' <> EINTR /\
       exists c, pending (kern p) fd = c ++ pending (kern p') fd /\ (NL ∉ c)).

Lemma line_read_eof `{!SourceLaws K} fd n (p p' : proc K) c :
  trace p' = trace p -> NL ∉ c -> pending (kern p) fd = c ++ pending (kern p') fd -> pending (kern p') fd = [] ->
  let buf := take (Z.to_nat (n - 1)) c in
  line_read fd n p (strlen buf) (if strlen buf =? 0 then [] else buf ++ [NUL]) p'.
Proof.
  intros Htr Hc Hpend Heof buf. assert (line_of (pending (kern p) fd) = c) as Hline.
  { rewrite Hpend, Heof, app_nil_r. by apply line_of_last. }
  split; [done|left]. rewrite Hline. split_and!; [done..|]. fold buf. destruct (Z.eqb_spec (strlen buf) 0) as [E|E].
  - apply strlen_nil in E. by rewrite decide_True.
  - rewrite decide_False; [done|]. intros [E' _]. by apply E, strlen_nil.
Qed.

Lemma line_read_newline `{!SourceLaws K} fd n (p p' : proc K) c :
  trace p' = trace p -> NL ∉ c -> pending (kern p) fd = (c ++ [NL]) ++ pending (kern p') fd ->
  let buf := take (Z.to_nat (n - 1)) (c ++ [NL]) in
  line_read fd n p (strlen buf) (buf ++ [NUL]) p'.
Proof.
  intros Htr Hc Hpend buf. assert (line_of (pending (kern p) fd) = c ++ [NL]) as Hline.
  { rewrite Hpend, <- app_assoc. by apply line_of_newline. }
  split; [done|left]. rewrite Hline. split_and!; [done..|]. rewrite decide_False; [done|]. intros [_ Hnot]. set_solver.
Qed.

(** [readLine] always returns.  It consumes exactly one line of the input, or all of it when
    there is no newline left, and stores as much of that line as fits, with a null byte unless it
    came to the end of the input with nothing stored; the result is the number of bytes of the
    line stored, or -1 on an error other than an interruption, with no newline consumed. *)
Theorem readLine_spec `{!SourceLaws K} fuel fd n p :
  0 < n -> (length (pending (kern p) fd) + rdelays (kern p) fd < fuel)%nat ->
  let line := line_of (pending (kern p) fd) in
  let stored := take (Z.to_nat (n - 1)) line in
  exists r buf p', readLine fuel fd true n p = (Ret (r, buf), p') /\ trace p' = trace p /\
    (r = strlen stored /\ pending (kern p) fd = line ++ pending (kern p') fd /\
       buf = (if decide (stored = [] /\ (NL ∉ line)) then [] else stored ++ [NUL]) \/
     r = -1 /\ errno p' <> EINTR /\
       exists c, pending (kern p) fd = c ++ pending (kern p') fd /\ (NL ∉ c)).
Proof.
  intros Hn Hfuel line stored.
  cut (wp (readLine fuel fd true n) p (fun o p' => exists r buf, o = Ret (r, buf) /\ line_read fd n p r buf p')).
  { intros (o & p' & HR & r & data & -> & H)%wp_elim. eauto. }
  unfold readLine. replace (n <=? 0) with false by lia. cbn [orb negb].
  apply (loop_wp
    (fun '(tot, buf) q => trace q = trace p /\ exists c, buf = take (Z.to_nat (n - 1)) c /\ tot = strlen buf /\
       (NL ∉ c) /\ pending (kern p) fd = c ++ pending (kern q) fd)
    (fun _ q => (length (pending (kern q) fd) + rdelays (kern q) fd)%nat)); [|split; [done|]|done].
  2: { exists []. rewrite take_nil. split_and!; try done. by apply not_elem_of_nil. }
  intros [tot buf] q (Htr & c & -> & -> & Hc & Hpend). apply wp_bind, wp_read; [lia| |].
  - intros bs k' Hbs Hlen Heof Hdel.
    destruct bs as [|ch [|? bs]]; [| |unfold strlen in Hlen; simpl in Hlen; lia].
    + specialize (Heof eq_refl). pose proof Hbs as Hk. rewrite Heof in Hk. cbn in Hk. rewrite Heof in Hpend.
      pose proof (line_read_eof fd n p (Proc k' (errno q) (trace q)) c Htr Hc) as Hdone. cbn [kern] in Hdone.
      change (strlen [] =? -1) with false. change (strlen [] =? 0) with true. cbv iota. rewrite <- Hk in Hdone.
      specialize (Hdone Hpend eq_refl). destruct (Z.eqb_spec (strlen (take (Z.to_nat (n - 1)) c)) 0) as [E|E].
      * rewrite E in Hdone. apply strlen_nil in E. apply wp_ret. eexists _, _. split; [by rewrite E|exact Hdone].
      * apply wp_ret. eexists _, _. split; [done|exact Hdone].
    + change (strlen [ch] =? -1) with false. change (strlen [ch] =? 0) with false. cbv iota.
      cbn [lookup list_lookup]. apply wp_bind, wp_ret. destruct (store_byte n c ch) as (buf' & -> & ->).
      assert (pending (kern p) fd = (c ++ [ch]) ++ pending k' fd) as Hpend' by (by rewrite Hpend, Hbs, <- app_assoc).
      destruct (Ascii.eqb_spec ch NL) as [->|Hne]; apply wp_ret.
      * eexists _, _. split; [done|]. by apply (line_read_newline fd n p (Proc k' (errno q) (trace q))).
      * split; [split; [done|]|simpl; rewrite Hbs; simpl; lia].
        exists (c ++ [ch]). split_and!; [done|done|set_solver|done].
  - intros e k' Hk Hdel. change (-1 =? -1) with true. cbv iota. apply wp_bind, wp_get_errno.
    cbn [errno]. destruct (Z.eqb_spec e EINTR) as [->|He]; apply wp_ret.
    + split; [split; [done|]|].
      * exists c. cbn [kern]. by rewrite Hk.
      * simpl. rewrite Hk. specialize (Hdel eq_refl). lia.
    + eexists _, _. split; [done|]. split; [done|]. right. split_and!; [done..|].
      exists c. cbn [kern]. by rewrite Hk.
Qed.

(** Whatever reading leaves alone, [readLine] leaves alone; and it fails only with the error of a
    read. *)
Lemma readLine_frame {B} (f : K -> B) fuel fd n p :
  (forall fd m k, f (k_read fd m k).2 = f k) -> 0 < n ->
  wp (readLine fuel fd true n) p (fun o p' => f (kern p') = f (kern p) /\
    forall buf, o = Ret (-1, buf) -> exists m k e k', k_read fd m k = (inr e, k') /\ e <> EINTR /\ f k = f (kern p)).
Proof.
  intros Hf Hn. unfold readLine. replace (n <=? 0) with false by lia. cbn [orb negb].
  apply (loop_keeps (fun '(tot, _) q => 0 <= tot /\ f (kern q) = f (kern p))); [|by intros [] ? [_ ?]|done].
  intros [tot buf] q [Htot Hq]. apply wp_bind, wp_syscall. pose proof (Hf fd 1 (kern q)) as H1.
  destruct (k_read fd 1 (kern q)) as [[bs|e] k'] eqn:E; cbn [snd] in H1.
  - rewrite (proj2 (Z.eqb_neq (strlen bs) (-1))) by (pose proof (strlen_nonneg bs); lia).
    destruct (Z.eqb_spec (strlen bs) 0).
    + destruct (tot =? 0) eqn:?; z_bool; apply wp_ret; (split; [cbn [kern]; congruence|intros ? [=]; lia]).
    + destruct bs as [|ch bs]; [done|]. cbn [lookup list_lookup the]. apply wp_bind, wp_ret.
      destruct (tot <? n - 1); destruct (Ascii.eqb ch NL); apply wp_ret; cbn [kern];
        (split; [lia || congruence|]); try congruence; intros ? [=]; lia.
  - change (-1 =? -1) with true. cbv iota. apply wp_bind, wp_get_errno. cbn [errno].
    destruct (Z.eqb_spec e EINTR); apply wp_ret; cbn [kern]; (split; [lia || congruence|]); [congruence|].
    intros _ _. by exists 1, (kern q), e, k'.
Qed.

(** *** The buffered reader *)

(** The bytes of the buffer not handed out yet, and the whole input still to come. *)
Definition avail (b : ReadLineBuf) : bytes :=
  if rl_len b <=? rl_next b then [] else drop (Z.to_nat (rl_next b)) (rl_data b).

Definition stream `{!SourceLaws K} (b : ReadLineBuf) (k : K) : bytes := avail b ++ pending k (rl_fd b).

Definition rlb_wf (b : ReadLineBuf) : Prop :=
  0 <= rl_next b /\ (rl_next b < rl_len b -> rl_len b = strlen (rl_data b)).

Lemma rlb_init_wf fd b : rlb_wf (readLineBufInit fd b).
Proof. split; simpl; lia. Qed.

Lemma refill_ok `{!SourceLaws K} b q :
  rlb_wf b ->
  wp (refill b) q (fun o q' => exists b' stop, o = Ret (b', stop) /\ trace q' = trace q /\
    rlb_wf b' /\ rl_fd b' = rl_fd b /\ stream b (kern q) = stream b' (kern q') /\
    match stop with
    | None => rl_next b' < rl_len b'
    | Some eof => avail b' = [] /\ (eof = true -> stream b' (kern q') = [])
    end).
Proof.
  intros [Hnext Hlen]. unfold refill, stream, avail. destruct (Z.leb_spec (rl_len b) (rl_next b)).
  - apply wp_bind, wp_read; [unfold RL_MAX_BUF; lia| |].
    + intros bs k' Hbs Hmax Heof _. pose proof (strlen_nonneg bs).
      replace (strlen bs =? -1) with false by lia.
      destruct (Z.eqb_spec (strlen bs) 0) as [E|E]; apply wp_ret; eexists _, _;
        (split; [done|]); (split; [done|]); unfold rlb_wf; cbn [rl_len rl_next rl_fd rl_data kern].
      * apply strlen_nil in E as ->. change (strlen []) with 0 in *.
        replace (0 <=? rl_next b) with true by lia.
        simpl in Hbs. rewrite (Heof eq_refl) in *. rewrite <- Hbs. split_and!; try done; lia.
      * replace (strlen bs <=? 0) with false by lia. rewrite drop_0. split_and!; try done; lia.
    + intros e k' Hk _. change (-1 =? -1) with true. cbv iota zeta. apply wp_ret. eexists _, _.
      split; [done|]. split; [done|]. unfold rlb_wf; cbn [rl_len rl_next rl_fd rl_data kern].
      replace (-1 <=? rl_next b) with true by lia. rewrite Hk. split_and!; try done; lia.
  - apply wp_ret. eexists _, _. split; [done|]. split; [done|]. split; [by split|].
    replace (rl_len b <=? rl_next b) with false by lia. done.
Qed.

Lemma avail_cons b : rlb_wf b -> rl_next b < rl_len b ->
  exists c, rl_data b !! Z.to_nat (rl_next b) = Some c /\
    avail b = c :: avail (RLB (rl_fd b) (rl_data b) (rl_next b + 1) (rl_len b)) /\
    rlb_wf (RLB (rl_fd b) (rl_data b) (rl_next b + 1) (rl_len b)).
Proof.
  intros [Hnext Hlen] Hlt. specialize (Hlen Hlt) as Hl. unfold strlen in Hl.
  destruct (lookup_lt_is_Some_2 (rl_data b) (Z.to_nat (rl_next b))) as [c Hc]; [lia|].
  exists c. split; [done|]. split; [|split; cbn [rl_next rl_len rl_data]; lia].
  unfold avail. cbn [rl_next rl_len rl_data]. replace (rl_len b <=? rl_next b) with false by lia.
  rewrite (drop_S _ c) by done. f_equal.
  replace (Z.to_nat (rl_next b + 1)) with (S (Z.to_nat (rl_next b))) by lia.
  destruct (Z.leb_spec (rl_len b) (rl_next b + 1)); [|done]. apply drop_ge. lia.
Qed.

Lemma readLineBuf_run `{!SourceLaws K} fuel b n p :
  0 < n -> rlb_wf b -> (length (stream b (kern p)) < fuel)%nat ->
  let line := line_of (stream b (kern p)) in
  exists r buf b' p', readLineBuf fuel b true n p = (Ret (r, buf, b'), p') /\ trace p' = trace p /\
    rlb_wf b' /\ rl_fd b' = rl_fd b /\
    (r = strlen buf /\ buf = take (Z.to_nat n) line /\ stream b (kern p) = line ++ stream b' (kern p') \/
     r = -1 /\ avail b' = [] /\ exists c, stream b (kern p) = c ++ stream b' (kern p') /\ (NL ∉ c)).
Proof.
  intros Hn Hwf Hfuel line.
  cut (wp (readLineBuf fuel b true n) p (fun o p' => exists r buf b', o = Ret (r, buf, b') /\
    trace p' = trace p /\ rlb_wf b' /\ rl_fd b' = rl_fd b /\
    (r = strlen buf /\ buf = take (Z.to_nat n) line /\ stream b (kern p) = line ++ stream b' (kern p') \/
     r = -1 /\ avail b' = [] /\ exists c, stream b (kern p) = c ++ stream b' (kern p') /\ (NL ∉ c)))).
  { intros (o & p' & HR & r & buf & b' & -> & H)%wp_elim. eauto 10. }
  unfold readLineBuf. replace (n <=? 0) with false by lia. cbn [orb negb].
  set (m := Z.to_nat n) in *.
  apply (loop_wp
    (fun '(cnt, buf, b1) q => trace q = trace p /\ rlb_wf b1 /\ rl_fd b1 = rl_fd b /\
       exists c, buf = take m c /\ cnt = strlen buf /\ (NL ∉ c) /\
         stream b (kern p) = c ++ stream b1 (kern q))
    (fun '(_, _, b1) q => length (stream b1 (kern q)))); [|split_and!; [done..|]|done].
  2: { exists []. rewrite take_nil. split_and!; try done. by apply not_elem_of_nil. }
  intros [[cnt buf] b1] q (Htr & Hwf1 & Hfd & c & Hbuf & -> & Hc & Hst).
  apply wp_bind. eapply wp_mono; [by apply refill_ok|].
  intros o q1 (b2 & stop & -> & Htr1 & Hwf2 & Hfd2 & Hst1 & Hstop). cbv beta iota.
  destruct stop as [[]|].
  - (* end of the input *)
    destruct Hstop as [Hav Heof]. apply wp_ret. eexists _, _, _. split; [done|].
    split_and!; [congruence|done|congruence|]. left.
    rewrite Hst1, (Heof eq_refl), app_nil_r in Hst. subst line.
    rewrite Hst, line_of_last, (Heof eq_refl), app_nil_r by done. by split_and!.
  - destruct Hstop as [Hav _]. apply wp_ret. eexists _, _, _. split; [done|].
    split_and!; [congruence|done|simpl; congruence|]. right. split_and!; [done..|]. exists c. by rewrite <- Hst1.
  - destruct (avail_cons b2 Hwf2 Hstop) as (ch & Hch & Hav & Hwf3). rewrite Hch.
    apply wp_bind, wp_ret. set (b3 := RLB _ _ _ _) in *.
    assert (stream b1 (kern q) = ch :: stream b3 (kern q1)) as Hst2.
    { rewrite Hst1. unfold stream. by rewrite Hav. }
    assert (exists buf', (if strlen buf <? n then (strlen buf + 1, buf ++ [ch]) else (strlen buf, buf))
      = (strlen buf', buf') /\ buf' = take m (c ++ [ch])) as (buf' & -> & Hbuf').
    { destruct (Z.ltb_spec (strlen buf) n) as [E|E]; subst buf;
        unfold strlen in E; rewrite length_take in E.
      - exists (take m c ++ [ch]). rewrite strlen_app. split; [done|]. apply take_snoc_le. lia.
      - exists (take m c). split; [done|]. symmetry. apply take_snoc_ge. lia. }
    destruct (Ascii.eqb_spec ch NL) as [->|Hne]; apply wp_ret.
    + eexists _, _, _. split; [done|]. split_and!; [congruence|done|simpl; congruence|]. left.
      assert (line = c ++ [NL]) as ->.
      { subst line. rewrite Hst, Hst2. by apply line_of_newline. }
      split_and!; [done..|]. by rewrite Hst, Hst2, <- app_assoc.
    + split; [|rewrite Hst2; simpl; lia]. split_and!; [congruence|done|simpl; congruence|].
      exists (c ++ [ch]). split_and!; [done|done|set_solver|]. by rewrite Hst, Hst2, <- app_assoc.
Qed.

(** C15: [readLineBuf], which reads blocks of bytes ahead, delivers what [readLine] delivers when
    it reads one byte at a time: on the same remaining input, if neither reports an error, both
    return the same count and store the same bytes of the line (with one byte more of room for
    [readLine]'s null byte), and both leave the same input for the next call. *)
Theorem readLineBuf_like_readLine `{!SourceLaws K} fuel1 fuel2 b fd n p1 p2 :
  0 < n -> rlb_wf b -> stream b (kern p1) = pending (kern p2) fd ->
  (length (stream b (kern p1)) < fuel1)%nat ->
  (length (pending (kern p2) fd) + rdelays (kern p2) fd < fuel2)%nat ->
  exists r1 buf1 b' p1' r2 buf2 p2',
    readLineBuf fuel1 b true n p1 = (Ret (r1, buf1, b'), p1') /\
    readLine fuel2 fd true (n + 1) p2 = (Ret (r2, buf2), p2') /\
    (r1 <> -1 -> r2 <> -1 ->
       r1 = r2 /\ take (length buf1) buf2 = buf1 /\ r1 = strlen buf1 /\
       stream b' (kern p1') = pending (kern p2') fd /\ rlb_wf b').
Proof.
  intros Hn Hwf Heq Hf1 Hf2.
  destruct (readLineBuf_run fuel1 b n p1) as (r1 & buf1 & b' & p1' & R1 & _ & Hwf' & _ & H1); [done..|].
  destruct (readLine_spec fuel2 fd (n + 1) p2) as (r2 & buf2 & p2' & R2 & _ & H2); [lia|done|].
  exists r1, buf1, b', p1', r2, buf2, p2'. split; [done|]. split; [done|]. intros N1 N2.
  destruct H1 as [(-> & Hb1 & Hs1)|[? _]]; [|done].
  destruct H2 as [(-> & Hs2 & Hb2)|[? _]]; [|done].
  rewrite Z.add_simpl_r, <- Heq in *. rewrite <- Hb1 in Hb2 |- *. split_and!; [done| |done| |done].
  - rewrite Hb2. case_decide as E; [by destruct E as [-> _]|]. by rewrite take_app_length.
  - rewrite Hs1 in Hs2 at 1. by apply app_inv_head in Hs2.
Qed.
End Specs.

(** *** The echo service *)

(** the connection handler of the echo server always ends.  If it returns, the client was
    sent exactly what it sent, all of it; otherwise the handler's process exits with status 1
    after a diagnostic, and what the client was sent is a prefix of what it sent. *)
Theorem handleRequest_echoes {K} `{!FileIO K, !SourceLaws K, !SinkLaws K, !DuplexLaws K}
    strerror fuel fd (p : proc K) :
  (length (pending (kern p) fd) < fuel)%nat ->
  exists o p', handleRequest strerror fuel fd p = (o, p') /\
    ((o = Ret tt /\ sunk (kern p') fd = sunk (kern p) fd ++ pending (kern p) fd /\
        pending (kern p') fd = [] /\ trace p' = trace p) \/
     (o = Exit EXIT_FAILURE /\ trace p' <> trace p /\
        exists c rest, pending (kern p) fd = c ++ rest /\ sunk (kern p') fd = sunk (kern p) fd ++ c)).
Proof.
  intros Hfuel. unfold handleRequest.
  apply wp_elim. apply (loop_wp
    (fun _ q => trace q = trace p /\ exists c, pending (kern p) fd = c ++ pending (kern q) fd /\
       sunk (kern q) fd = sunk (kern p) fd ++ c)
    (fun _ q => length (pending (kern q) fd))); [|split; [done|]|done].
  2: { exists []. by rewrite app_nil_r. }
  intros _ q (Htr & c & Hpend & Hsunk).
  assert (forall m (t : list event), t ++ [Err m] <> t) as Hmsg.
  { intros m t H%(f_equal length). rewrite length_app in H. simpl in H. lia. }
  apply wp_bind, (wp_read_duplex fd fd); [lia| |].
  - intros bs k' Hbs Hlen Heof _ Hs. destruct (Z.ltb_spec 0 (strlen bs)) as [Hpos|Hneg].
    + assert (bs <> []) as Hne by (intros ->; done).
      apply wp_bind, (wp_write_duplex fd fd); [done| |].
      * intros w k'' Hw Hs' Hp' Hd'. cbn [kern] in *.
        destruct (Z.eqb_spec w (strlen bs)) as [->|Hshort]; cbn [negb].
        -- apply wp_ret. split; [split; [done|]|].
           ++ exists (c ++ bs). cbn [kern]. rewrite Hp', Hpend, Hbs, Hs', Hs, Hsunk, <- !app_assoc.
              split; [done|]. do 2 f_equal. apply take_ge. unfold strlen. lia.
           ++ cbn [kern]. rewrite Hp', Hbs, length_app. destruct bs; [done|]. simpl. lia.
        -- right. split; [done|]. split; [cbn; by rewrite Htr; apply Hmsg|].
           exists (c ++ take (Z.to_nat w) bs), (drop (Z.to_nat w) bs ++ pending k' fd). split.
           ++ by rewrite Hpend, Hbs, <- app_assoc, (app_assoc (take _ _)), take_drop.
           ++ change (sunk k'' fd = sunk (kern p) fd ++ c ++ take (Z.to_nat w) bs).
              by rewrite Hs', Hs, Hsunk, <- app_assoc.
      * intros e k'' Hs' Hp' Hd'. cbn [kern] in *.
        destruct (Z.eqb_spec (-1) (strlen bs)) as [|_]; [lia|]. cbn [negb]. right.
        split; [done|]. split; [cbn; by rewrite Htr; apply Hmsg|].
        exists c, (pending (kern q) fd). split; [done|]. change (sunk k'' fd = sunk (kern p) fd ++ c).
        by rewrite Hs', Hs.
    + assert (bs = []) as -> by (apply strlen_nil; pose proof (strlen_nonneg bs); lia).
      change (strlen [] =? -1) with false. apply wp_ret. left. cbn [kern trace].
      rewrite (Heof eq_refl) in *. rewrite Hpend, Hs, Hsunk, app_nil_r.
      by split_and!.
  - intros e k' Hk Hs _. right. split; [done|]. split; [cbn; by rewrite Htr; apply Hmsg|].
    exists c, (pending (kern q) fd). split; [done|]. change (sunk k' fd = sunk (kern p) fd ++ c).
    by rewrite Hs.
Qed.

(** ** Witnesses *)

(** Descriptor 3 delivers in pieces with an interruption, and accepts two bytes, then is
    interrupted, then accepts the rest. *)
Definition net : streams :=
  Streams {[ 3 := [Chunk "a" (str "b"); RFail EINTR; Chunk NL (str "cd"); RFail EINTR] ]} ∅
          {[ 3 := [Accept 2; WFail EINTR] ]}.
Definition net_proc : proc streams := Proc net 0 [].

Lemma readn_spec_witness :
  exists r data p', readn 20 3 4 net_proc = (Ret (r, data), p') /\ data = str "ab" ++ [NL] ++ str "c".
Proof.
  destruct (readn_spec 20 3 4 net_proc ltac:(lia) ltac:(by_decide))
    as (r & data & p' & HR & _).
  exists r, data, p'. split; [exact HR|]. vm_compute in HR. by injection HR as <- <- _.
Defined.

Lemma writen_spec_witness :
  exists p', writen 20 3 (str "hello") net_proc = (Ret 5, p') /\ sunk (kern p') 3 = str "hello".
Proof.
  destruct (writen_spec 20 3 (str "hello") net_proc ltac:(by_decide))
    as (r & c & p' & HR & _ & _ & [[-> _]|[-> _]]).
  - exists p'. split; [exact HR|]. vm_compute in HR. by injection HR as <-.
  - exfalso. vm_compute in HR. discriminate HR.
Defined.

Lemma readLine_spec_witness :
  exists r buf p', readLine 20 3 true 3 net_proc = (Ret (r, buf), p') /\ buf = str "ab" ++ [NUL].
Proof.
  destruct (readLine_spec 20 3 3 net_proc ltac:(lia) ltac:(by_decide))
    as (r & buf & p' & HR & _).
  exists r, buf, p'. split; [exact HR|]. vm_compute in HR. by injection HR as <- <- _.
Defined.

Definition two_lines : proc streams :=
  Proc (Streams {[ 4 := [Chunk "a" (NL :: str "c")] ]} ∅ ∅) 0 [].

Lemma readLineBuf_like_readLine_witness :
  exists r1 buf1 b' p1' r2 buf2 p2',
    readLineBuf 20 (readLineBufInit 4 (RLB 0 [] 0 0)) true 80 two_lines = (Ret (r1, buf1, b'), p1') /\
    readLine 20 4 true 81 two_lines = (Ret (r2, buf2), p2') /\ r1 = r2.
Proof.
  destruct (readLineBuf_like_readLine 20 20 (readLineBufInit 4 (RLB 0 [] 0 0)) 4 80 two_lines two_lines
    ltac:(lia) (rlb_init_wf _ _) eq_refl ltac:(by_decide) ltac:(by_decide))
    as (r1 & buf1 & b' & p1' & r2 & buf2 & p2' & H1 & H2 & H).
  exists r1, buf1, b', p1', r2, buf2, p2'. split; [exact H1|]. split; [exact H2|].
  apply H; intros ->; vm_compute in H1, H2; discriminate.
Defined.

Lemma handleRequest_echoes_witness :
  exists p', handleRequest (fun _ => []) 20 3 (Proc (Streams {[ 3 := [Chunk "a" (str "b"); Chunk "c" []] ]} ∅ ∅) 0 [])
    = (Ret tt, p') /\ sunk (kern p') 3 = str "abc".
Proof.
  destruct (handleRequest_echoes (fun _ => []) 20 3
    (Proc (Streams {[ 3 := [Chunk "a" (str "b"); Chunk "c" []] ]} ∅ ∅) 0 []) ltac:(by_decide))
    as (o & p' & HR & [(-> & HS & _)|(-> & _)]).
  - exists p'. split; [exact HR|exact HS].
  - exfalso. vm_compute in HR. discriminate HR.
Defined.
