(* ===== verification/Files.v ===== *)
(** * Regular files

    What POSIX says of descriptors on regular files, for the file programs.  [fsv] is the part of
    the kernel's state they can observe: names, contents, open file descriptions with their
    offsets, and descriptors that refer to them.  [FileLaws] says how each call may change it:
    a call may fail, and then changes nothing, and a transfer may be partial.  [ReliableLaws] is
    the kernel on which no call fails that need not, and no transfer is partial; the simulated
    kernel [fsv], which is its own view, satisfies both. *)

From Stdlib Require Import ZArith Lia String Ascii.
From S2P Require Import Prelude CString Kernel.

(** ** The view *)

Record ofd := Ofd { o_ino : Z; o_off : Z; o_flags : Z }.

Record fsv := Fsv {
  v_names : gmap bytes Z;      (* path to i-node *)
  v_data : gmap Z bytes;       (* i-node to contents *)
  v_ofds : gmap Z ofd;         (* open file descriptions *)
  v_fds : gmap Z Z             (* descriptor to description *)
}.

Definition has_flag (flags bit : Z) : bool := negb (Z.land flags bit =? 0).
Definition access (flags : Z) : Z := Z.land flags 3.
Definition readable (o : ofd) : bool := negb (access (o_flags o) =? O_WRONLY).
Definition writable (o : ofd) : bool := negb (access (o_flags o) =? O_RDONLY).

Definition lookup_fd (v : fsv) (fd : Z) : option (Z * ofd) :=
  i ← v_fds v !! fd; o ← v_ofds v !! i; Some (i, o).
Definition content (v : fsv) (ino : Z) : bytes := default [] (v_data v !! ino).

Definition set_ofd (i : Z) (o : ofd) (v : fsv) : fsv :=
  Fsv (v_names v) (v_data v) (<[i := o]> (v_ofds v)) (v_fds v).
Definition set_content (ino : Z) (d : bytes) (v : fsv) : fsv :=
  Fsv (v_names v) (<[ino := d]> (v_data v)) (v_ofds v) (v_fds v).

(** The file [d] after [bs] was written at offset [off]; a gap reads as null bytes. *)
Definition overwrite (d : bytes) (off : nat) (bs : bytes) : bytes :=
  if decide (bs = []) then d
  else take off (d ++ replicate (off - length d) NUL) ++ bs ++ drop (off + length bs) d.

(** [bs] was read through the description [i]. *)
Definition v_read (i : Z) (o : ofd) (bs : bytes) (v : fsv) : fsv :=
  set_ofd i (Ofd (o_ino o) (o_off o + strlen bs) (o_flags o)) v.

(** [bs] was written through it: at its offset, or at the end in append mode. *)
Definition write_offset (o : ofd) (v : fsv) : Z :=
  if has_flag (o_flags o) O_APPEND then strlen (content v (o_ino o)) else o_off o.
Definition v_write (i : Z) (o : ofd) (bs : bytes) (v : fsv) : fsv :=
  let off := write_offset o v in
  set_ofd i (Ofd (o_ino o) (off + strlen bs) (o_flags o))
    (set_content (o_ino o) (overwrite (content v (o_ino o)) (Z.to_nat off) bs) v).

Definition v_seek (i : Z) (o : ofd) (off : Z) (v : fsv) : fsv :=
  set_ofd i (Ofd (o_ino o) off (o_flags o)) v.

Definition seek_target (o : ofd) (off whence : Z) (v : fsv) : Z :=
  if whence =? SEEK_SET then off
  else if whence =? SEEK_CUR then o_off o + off
  else strlen (content v (o_ino o)) + off.

(** [path] was opened as descriptor [fd] of a new description [i]; [ino] is the i-node of
    [path], a new one if [path] did not exist. *)
Definition v_open (path : bytes) (flags fd i ino : Z) (v : fsv) : fsv :=
  let d := if has_flag flags O_TRUNC then [] else content v ino in
  Fsv (<[path := ino]> (v_names v)) (<[ino := d]> (v_data v))
      (<[i := Ofd ino 0 flags]> (v_ofds v)) (<[fd := i]> (v_fds v)).

Definition may_open (path : bytes) (flags fd i ino : Z) (v : fsv) : Prop :=
  0 <= fd /\ v_fds v !! fd = None /\ v_ofds v !! i = None /\
  (v_names v !! path = Some ino \/
   v_names v !! path = None /\ has_flag flags O_CREAT = true /\ v_data v !! ino = None).

Definition v_close (fd : Z) (v : fsv) : fsv :=
  Fsv (v_names v) (v_data v) (v_ofds v) (delete fd (v_fds v)).

(** ** Laws *)

Class FileLaws (K : Type) `{!FileIO K} := {
  view : K -> fsv;
  open_law : forall k path flags mode,
    match k_open path flags mode k with
    | (inl fd, k') => exists i ino, may_open path flags fd i ino (view k) /\
                      view k' = v_open path flags fd i ino (view k)
    | (inr _, k') => view k' = view k
    end;
  close_law : forall k fd,
    match k_close fd k with
    | (inl r, k') => r = 0 /\ is_Some (v_fds (view k) !! fd) /\ view k' = v_close fd (view k)
    | (inr _, k') => view k' = view k \/ view k' = v_close fd (view k)
    end;
  read_law : forall k fd n,
    match k_read fd n k with
    | (inl bs, k') => exists i o, lookup_fd (view k) fd = Some (i, o) /\ readable o = true /\
        bs `prefix_of` drop (Z.to_nat (o_off o)) (content (view k) (o_ino o)) /\
        strlen bs <= n /\
        (bs = [] -> n = 0 \/ drop (Z.to_nat (o_off o)) (content (view k) (o_ino o)) = []) /\
        view k' = v_read i o bs (view k)
    | (inr _, k') => view k' = view k
    end;
  write_law : forall k fd data,
    match k_write fd data k with
    | (inl c, k') => 0 <= c <= strlen data /\
        exists i o, lookup_fd (view k) fd = Some (i, o) /\ writable o = true /\
        view k' = v_write i o (take (Z.to_nat c) data) (view k)
    | (inr _, k') => view k' = view k
    end;
  lseek_law : forall k fd off whence,
    match k_lseek fd off whence k with
    | (inl r, k') => exists i o, lookup_fd (view k) fd = Some (i, o) /\ 0 <= r /\
        r = seek_target o off whence (view k) /\ view k' = v_seek i o r (view k)
    | (inr _, k') => view k' = view k
    end
}.

(** No call fails that need not, and every transfer is complete. *)
Class ReliableLaws (K : Type) `{!FileIO K, !FileLaws K} := {
  open_full : forall k path flags mode,
    is_Some (v_names (view k) !! path) \/ has_flag flags O_CREAT = true ->
    exists fd k', k_open path flags mode k = (inl fd, k');
  close_full : forall k fd, is_Some (v_fds (view k) !! fd) -> exists k', k_close fd k = (inl 0, k');
  read_full : forall k fd n i o, 0 <= n -> lookup_fd (view k) fd = Some (i, o) -> readable o = true ->
    exists k', k_read fd n k
      = (inl (take (Z.to_nat n) (drop (Z.to_nat (o_off o)) (content (view k) (o_ino o)))), k');
  write_full : forall k fd data i o, lookup_fd (view k) fd = Some (i, o) -> writable o = true ->
    exists k', k_write fd data k = (inl (strlen data), k');
  lseek_full : forall k fd off whence i o, lookup_fd (view k) fd = Some (i, o) ->
    0 <= seek_target o off whence (view k) ->
    exists k', k_lseek fd off whence k = (inl (seek_target o off whence (view k)), k')
}.

(** ** The simulated kernel *)

(** The least number from [from] on that is not in use. *)
Fixpoint lowest {A} (m : gmap Z A) (fuel : nat) (from : Z) : Z :=
  match fuel with
  | O => from
  | S n => match m !! from with None => from | Some _ => lowest m n (from + 1) end
  end.
Definition unused {A} (m : gmap Z A) (from : Z) : Z := lowest m (S (size m)) from.

Definition fs_open (path : bytes) (flags mode : Z) (v : fsv) : (Z + Z) * fsv :=
  let fd := unused (v_fds v) 0 in
  let i := unused (v_ofds v) 0 in
  match v_names v !! path with
  | Some ino => (inl fd, v_open path flags fd i ino v)
  | None =>
      if has_flag flags O_CREAT then (inl fd, v_open path flags fd i (unused (v_data v) 1) v)
      else (inr ENOENT, v)
  end.

Definition fs_close (fd : Z) (v : fsv) : (Z + Z) * fsv :=
  match v_fds v !! fd with Some _ => (inl 0, v_close fd v) | None => (inr EBADF, v) end.

Definition fs_read (fd n : Z) (v : fsv) : (bytes + Z) * fsv :=
  match lookup_fd v fd with
  | Some (i, o) =>
      if readable o then
        if n <? 0 then (inr EINVAL, v)
        else
          let bs := take (Z.to_nat n) (drop (Z.to_nat (o_off o)) (content v (o_ino o))) in
          (inl bs, v_read i o bs v)
      else (inr EBADF, v)
  | None => (inr EBADF, v)
  end.

Definition fs_write (fd : Z) (data : bytes) (v : fsv) : (Z + Z) * fsv :=
  match lookup_fd v fd with
  | Some (i, o) => if writable o then (inl (strlen data), v_write i o data v) else (inr EBADF, v)
  | None => (inr EBADF, v)
  end.

Definition fs_lseek (fd off whence : Z) (v : fsv) : (Z + Z) * fsv :=
  match lookup_fd v fd with
  | Some (i, o) =>
      let r := seek_target o off whence v in
      if 0 <=? r then (inl r, v_seek i o r v) else (inr EINVAL, v)
  | None => (inr EBADF, v)
  end.

#[export] Instance fsv_io : FileIO fsv := {|
  k_open := fs_open; k_close := fs_close; k_read := fs_read; k_write := fs_write; k_lseek := fs_lseek
|}.

Lemma lowest_fresh {A} (m : gmap Z A) fuel from :
  (size (filter (fun p : Z * A => (from <= p.1)%Z) m) < fuel)%nat -> m !! (lowest m fuel from) = None /\ from <= lowest m fuel from.
Proof.
  revert from. induction fuel as [|fuel IH]; intros from Hs; [lia|]. simpl.
  destruct (m !! from) as [x|] eqn:E; [|by split].
  destruct (IH (from + 1)) as [? ?]; [|by split; [|lia]].
  assert (filter (fun p : Z * A => from <= p.1) m
          = <[from := x]> (filter (fun p : Z * A => from + 1 <= p.1) m)) as Heq.
  { apply map_eq. intros j. destruct (decide (j = from)) as [->|].
    - rewrite lookup_insert_eq. apply map_lookup_filter_Some. split; [done|simpl; lia].
    - rewrite lookup_insert_ne by done. apply option_eq. intros y.
      rewrite !map_lookup_filter_Some. simpl. split; intros [? ?]; split; try done; lia. }
  rewrite Heq, map_size_insert_None in Hs; [lia|].
  apply map_lookup_filter_None. right. intros ? _. simpl. lia.
Qed.

Lemma unused_fresh {A} (m : gmap Z A) from : m !! (unused m from) = None /\ from <= unused m from.
Proof.
  apply lowest_fresh. apply Nat.lt_succ_r, map_subseteq_size, map_filter_subseteq.
Qed.

#[export] Program Instance fsv_laws : FileLaws fsv := {| view := id |}.
Next Obligation.
  intros v path flags mode. simpl. unfold fs_open, may_open.
  destruct (unused_fresh (v_fds v) 0), (unused_fresh (v_ofds v) 0).
  destruct (v_names v !! path) as [ino|] eqn:E; [eauto 10|].
  destruct (has_flag flags O_CREAT) eqn:?; [|done].
  destruct (unused_fresh (v_data v) 1). eauto 12.
Qed.
Next Obligation. intros v fd. simpl. unfold fs_close. destruct (v_fds v !! fd) eqn:E; [|by left]. eauto. Qed.
Next Obligation.
  intros v fd n. simpl. unfold fs_read, strlen. destruct (lookup_fd v fd) as [[i o]|] eqn:E; [|done].
  destruct (readable o) eqn:?; [|done]. destruct (Z.ltb_spec n 0); [done|].
  exists i, o. split_and!; try done.
  - apply prefix_take.
  - rewrite length_take. lia.
  - intros Hnil%(f_equal length). rewrite length_take in Hnil. simpl in Hnil.
    destruct (decide (n = 0)); [by left|right]. apply nil_length_inv. lia.
Qed.
Next Obligation.
  intros v fd data. simpl. unfold fs_write, strlen. destruct (lookup_fd v fd) as [[i o]|] eqn:E; [|done].
  destruct (writable o) eqn:?; [|done]. split; [lia|].
  exists i, o. rewrite Nat2Z.id, firstn_all. done.
Qed.
Next Obligation.
  intros v fd off whence. simpl. unfold fs_lseek. destruct (lookup_fd v fd) as [[i o]|] eqn:E; [|done].
  cbv zeta. destruct (Z.leb_spec 0 (seek_target o off whence v)); [|done]. eauto 10.
Qed.

#[export] Instance fsv_reliable : ReliableLaws fsv.
Proof.
  split; simpl; unfold id.
  - intros v path flags mode H. unfold fs_open. destruct (v_names v !! path); [eauto|].
    destruct H as [[? ?]| ->]; [done|eauto].
  - intros v fd [? E]. unfold fs_close. rewrite E. eauto.
  - intros v fd n i o Hn E Hr. unfold fs_read. rewrite E, Hr.
    destruct (Z.ltb_spec n 0); [lia|eauto].
  - intros v fd data i o E Hw. unfold fs_write. rewrite E, Hw. eauto.
  - intros v fd off whence i o E Ht. unfold fs_lseek. rewrite E. cbv zeta.
    apply Z.leb_le in Ht. rewrite Ht. eauto.
Qed.

(** ** Rules for the calls *)

Section Rules.
Context {K : Type} `{!FileIO K, !FileLaws K}.
Implicit Types (p : proc K) (fd n : Z).

Lemma wp_fopen path flags mode p (Q : outcome Z -> proc K -> Prop) :
  (forall fd i ino k', may_open path flags fd i ino (view (kern p)) ->
     view k' = v_open path flags fd i ino (view (kern p)) ->
     Q (Ret fd) (Proc k' (errno p) (trace p))) ->
  (forall e k', view k' = view (kern p) -> Q (Ret (-1)) (Proc k' e (trace p))) ->
  wp (open_ path flags mode) p Q.
Proof.
  intros Hok Herr. unfold wp, open_, syscall. pose proof (open_law (kern p) path flags mode) as H.
  destruct (k_open _ _ _ _) as [[fd|e] k']; simpl; [|by auto].
  destruct H as (i & ino & ? & ?). eauto.
Qed.

Lemma wp_fclose fd p (Q : outcome Z -> proc K -> Prop) :
  (forall k', view k' = v_close fd (view (kern p)) -> Q (Ret 0) (Proc k' (errno p) (trace p))) ->
  (forall e k', view k' = view (kern p) \/ view k' = v_close fd (view (kern p)) ->
     Q (Ret (-1)) (Proc k' e (trace p))) ->
  wp (close fd) p Q.
Proof.
  intros Hok Herr. unfold wp, close, syscall. pose proof (close_law (kern p) fd) as H.
  destruct (k_close _ _) as [[r|e] k']; simpl; [|by auto]. destruct H as (-> & _ & ?). auto.
Qed.

Lemma wp_fread fd n p (Q : outcome (Z * bytes) -> proc K -> Prop) :
  (forall i o bs k', lookup_fd (view (kern p)) fd = Some (i, o) -> readable o = true ->
     bs `prefix_of` drop (Z.to_nat (o_off o)) (content (view (kern p)) (o_ino o)) ->
     strlen bs <= n ->
     (bs = [] -> n = 0 \/ drop (Z.to_nat (o_off o)) (content (view (kern p)) (o_ino o)) = []) ->
     view k' = v_read i o bs (view (kern p)) ->
     Q (Ret (strlen bs, bs)) (Proc k' (errno p) (trace p))) ->
  (forall e k', view k' = view (kern p) -> Q (Ret (-1, [])) (Proc k' e (trace p))) ->
  wp (read fd n) p Q.
Proof.
  intros Hok Herr. unfold wp, read, syscall. pose proof (read_law (kern p) fd n) as H.
  destruct (k_read _ _ _) as [[bs|e] k']; simpl; [|by auto].
  destruct H as (i & o & ? & ? & ? & ? & ? & ?). eauto.
Qed.

Lemma wp_fwrite fd data p (Q : outcome Z -> proc K -> Prop) :
  (forall i o c k', lookup_fd (view (kern p)) fd = Some (i, o) -> writable o = true ->
     0 <= c <= strlen data -> view k' = v_write i o (take (Z.to_nat c) data) (view (kern p)) ->
     Q (Ret c) (Proc k' (errno p) (trace p))) ->
  (forall e k', view k' = view (kern p) -> Q (Ret (-1)) (Proc k' e (trace p))) ->
  wp (write fd data) p Q.
Proof.
  intros Hok Herr. unfold wp, write, syscall. pose proof (write_law (kern p) fd data) as H.
  destruct (k_write _ _ _) as [[c|e] k']; simpl; [|by auto].
  destruct H as (? & i & o & ? & ? & ?). eauto.
Qed.

Lemma wp_flseek fd off whence p (Q : outcome Z -> proc K -> Prop) :
  (forall i o k', lookup_fd (view (kern p)) fd = Some (i, o) ->
     0 <= seek_target o off whence (view (kern p)) ->
     view k' = v_seek i o (seek_target o off whence (view (kern p))) (view (kern p)) ->
     Q (Ret (seek_target o off whence (view (kern p)))) (Proc k' (errno p) (trace p))) ->
  (forall e k', view k' = view (kern p) -> Q (Ret (-1)) (Proc k' e (trace p))) ->
  wp (lseek fd off whence) p Q.
Proof.
  intros Hok Herr. unfold wp, lseek, syscall. pose proof (lseek_law (kern p) fd off whence) as H.
  destruct (k_lseek _ _ _ _) as [[r|e] k']; simpl; [|by auto].
  destruct H as (i & o & ? & ? & -> & ?). eauto.
Qed.

Context `{!ReliableLaws K}.

Lemma wp_open_full path flags mode p (Q : outcome Z -> proc K -> Prop) :
  is_Some (v_names (view (kern p)) !! path) \/ has_flag flags O_CREAT = true ->
  (forall fd i ino k', may_open path flags fd i ino (view (kern p)) ->
     view k' = v_open path flags fd i ino (view (kern p)) ->
     Q (Ret fd) (Proc k' (errno p) (trace p))) ->
  wp (open_ path flags mode) p Q.
Proof.
  intros H Hok. unfold wp, open_, syscall. pose proof (open_law (kern p) path flags mode) as HL.
  destruct (open_full (kern p) path flags mode H) as (fd & k' & E). rewrite E in *. simpl.
  destruct HL as (i & ino & ? & ?). eauto.
Qed.

Lemma wp_close_full fd p (Q : outcome Z -> proc K -> Prop) :
  is_Some (v_fds (view (kern p)) !! fd) ->
  (forall k', view k' = v_close fd (view (kern p)) -> Q (Ret 0) (Proc k' (errno p) (trace p))) ->
  wp (close fd) p Q.
Proof.
  intros H Hok. unfold wp, close, syscall. pose proof (close_law (kern p) fd) as HL.
  destruct (close_full (kern p) fd H) as (k' & E). rewrite E in *. simpl.
  destruct HL as (_ & _ & ?). auto.
Qed.

Lemma wp_read_full fd n i o p (Q : outcome (Z * bytes) -> proc K -> Prop) :
  lookup_fd (view (kern p)) fd = Some (i, o) -> readable o = true -> 0 <= n ->
  (forall bs k', bs = take (Z.to_nat n) (drop (Z.to_nat (o_off o)) (content (view (kern p)) (o_ino o))) ->
     view k' = v_read i o bs (view (kern p)) ->
     Q (Ret (strlen bs, bs)) (Proc k' (errno p) (trace p))) ->
  wp (read fd n) p Q.
Proof.
  intros Hfd Hr Hn Hok. unfold wp, read, syscall. pose proof (read_law (kern p) fd n) as HL.
  destruct (read_full (kern p) fd n i o Hn Hfd Hr) as (k' & E). rewrite E in *. simpl.
  destruct HL as (i' & o' & Hfd' & _ & _ & _ & _ & Hv). rewrite Hfd in Hfd'. simplify_eq. eauto.
Qed.

Lemma wp_write_full fd data i o p (Q : outcome Z -> proc K -> Prop) :
  lookup_fd (view (kern p)) fd = Some (i, o) -> writable o = true ->
  (forall k', view k' = v_write i o data (view (kern p)) ->
     Q (Ret (strlen data)) (Proc k' (errno p) (trace p))) ->
  wp (write fd data) p Q.
Proof.
  intros Hfd Hw Hok. unfold wp, write, syscall. pose proof (write_law (kern p) fd data) as HL.
  destruct (write_full (kern p) fd data i o Hfd Hw) as (k' & E). rewrite E in *. simpl.
  destruct HL as (_ & i' & o' & Hfd' & _ & Hv). rewrite Hfd in Hfd'. simplify_eq.
  unfold strlen in Hv. rewrite Nat2Z.id, firstn_all in Hv. eauto.
Qed.

Lemma wp_lseek_full fd off whence i o p (Q : outcome Z -> proc K -> Prop) :
  lookup_fd (view (kern p)) fd = Some (i, o) -> 0 <= seek_target o off whence (view (kern p)) ->
  (forall k', view k' = v_seek i o (seek_target o off whence (view (kern p))) (view (kern p)) ->
     Q (Ret (seek_target o off whence (view (kern p)))) (Proc k' (errno p) (trace p))) ->
  wp (lseek fd off whence) p Q.
Proof.
  intros Hfd Ht Hok. unfold wp, lseek, syscall. pose proof (lseek_law (kern p) fd off whence) as HL.
  destruct (lseek_full (kern p) fd off whence i o Hfd Ht) as (k' & E). rewrite E in *. simpl.
  destruct HL as (i' & o' & Hfd' & _ & _ & Hv). rewrite Hfd in Hfd'. simplify_eq. eauto.
Qed.
End Rules.

(** ** Facts about the view *)

Lemma lookup_set_ofd v i o fd j o' :
  lookup_fd v fd = Some (j, o') ->
  lookup_fd (set_ofd i o v) fd = Some (j, if decide (i = j) then o else o').
Proof.
  unfold lookup_fd. simpl. intros (j' & -> & H)%bind_Some. simpl.
  apply bind_Some in H as (x & Hx & [= -> ->]).
  case_decide; subst; by simplify_map_eq.
Qed.

Lemma lookup_set_content v ino d fd : lookup_fd (set_content ino d v) fd = lookup_fd v fd.
Proof. done. Qed.

Lemma content_set_ofd v i o ino : content (set_ofd i o v) ino = content v ino.
Proof. done. Qed.

Lemma content_set v ino d : content (set_content ino d v) ino = d.
Proof. unfold content. simpl. by rewrite lookup_insert_eq. Qed.

Lemma content_set_ne v ino ino' d : ino <> ino' -> content (set_content ino d v) ino' = content v ino'.
Proof. intros. unfold content. simpl. by rewrite lookup_insert_ne. Qed.

Lemma lookup_v_open path flags fd i ino v :
  lookup_fd (v_open path flags fd i ino v) fd = Some (i, Ofd ino 0 flags).
Proof. unfold lookup_fd. simpl. rewrite lookup_insert_eq. simpl. by rewrite lookup_insert_eq. Qed.

Lemma lookup_v_open_ne path flags fd i ino v fd' j o :
  may_open path flags fd i ino v -> lookup_fd v fd' = Some (j, o) ->
  lookup_fd (v_open path flags fd i ino v) fd' = Some (j, o) /\ i <> j /\ fd <> fd'.
Proof.
  intros (_ & Hfd & Hi & _). unfold lookup_fd. simpl. intros (j' & Hj & H)%bind_Some.
  apply bind_Some in H as (x & Hx & [= -> ->]).
  assert (fd <> fd') by congruence. assert (i <> j) by congruence.
  rewrite lookup_insert_ne by done. rewrite Hj. simpl. rewrite lookup_insert_ne by done.
  by rewrite Hx.
Qed.

Lemma opened_content path fl fd i ino v :
  may_open path fl fd i ino v -> has_flag fl O_TRUNC = false ->
  content (v_open path fl fd i ino v) ino = default [] (ino ← v_names v !! path; v_data v !! ino) /\
  v_names (v_open path fl fd i ino v) !! path = Some ino.
Proof.
  intros (_ & _ & _ & Hn) Ht. unfold content, v_open. simpl. rewrite Ht, !lookup_insert_eq.
  split; [|done]. destruct Hn as [->|(-> & _ & Hd)]; [done|]. simpl. unfold content. by rewrite Hd.
Qed.

(** The contents of the file [path], if there is one. *)
Definition file_of (v : fsv) (path : bytes) : bytes := default [] (ino ← v_names v !! path; v_data v !! ino).

Lemma file_of_name v path ino : v_names v !! path = Some ino -> file_of v path = content v ino.
Proof. unfold file_of. by intros ->. Qed.

Lemma overwrite_end d bs : overwrite d (length d) bs = d ++ bs.
Proof.
  unfold overwrite. case_decide as E; [by rewrite E, app_nil_r|].
  rewrite Nat.sub_diag, app_nil_r, firstn_all, drop_ge by lia. by rewrite app_nil_r.
Qed.

Lemma overwrite_length d off bs :
  bs <> [] -> length (overwrite d off bs) = Nat.max (length d) (off + length bs).
Proof.
  intros. unfold overwrite. rewrite decide_False by done.
  rewrite !length_app, length_take, length_app, length_replicate, length_drop. lia.
Qed.

Lemma take_app_2 {A} (l1 l2 : list A) n :
  take (length l1 + n) (l1 ++ l2) = l1 ++ take n l2.
Proof. by rewrite take_app_ge, Nat.add_comm, Nat.add_sub by lia. Qed.

Lemma overwrite_ne d off bs : bs <> [] ->
  overwrite d off bs
  = take off (d ++ replicate (off - length d) NUL) ++ bs ++ drop (off + length bs) d.
Proof. intros. unfold overwrite. by rewrite decide_False. Qed.

Lemma overwrite_nil d off : overwrite d off [] = d.
Proof. done. Qed.

(** Two writes in a row are one write of both. *)
Lemma overwrite_twice d off a b :
  overwrite (overwrite d off a) (off + length a) b = overwrite d off (a ++ b).
Proof.
  destruct (decide (a = [])) as [->|Ha]; [by rewrite Nat.add_0_r|].
  destruct (decide (b = [])) as [->|Hb]; [by rewrite app_nil_r|].
  rewrite (overwrite_ne (overwrite _ _ _)), !overwrite_ne by (done || by destruct a).
  assert (length (take off (d ++ replicate (off - length d) NUL)) = off) as Hoff
    by (rewrite length_take, length_app, length_replicate; lia).
  set (pre := take off (d ++ replicate (off - length d) NUL)) in *.
  replace (off + length a - length (pre ++ a ++ drop (off + length a) d))%nat with 0%nat
    by (rewrite !length_app; lia).
  rewrite app_nil_r, (app_assoc pre a), take_app_le, take_ge by (rewrite length_app; lia).
  rewrite (drop_app_ge (pre ++ a)) by (rewrite length_app; lia).
  rewrite drop_drop, !length_app, <- !app_assoc. do 4 f_equal. lia.
Qed.

Definition S_IRUSR : Z := 256.
Definition S_IWUSR : Z := 128.
Definition S_IXUSR : Z := 64.
Definition S_IRGRP : Z := 32.
Definition S_IWGRP : Z := 16.
Definition S_IXGRP : Z := 8.
Definition S_IROTH : Z := 4.
Definition S_IWOTH : Z := 2.
Definition S_IXOTH : Z := 1.

(** The bitwise or of a list of flags. *)
Definition flags (l : list Z) : Z := foldr Z.lor 0 l.
