(* ===== verification/FileCopy.v ===== *)
(** * Programs that copy files

    The exercises copy.c (13-file-io-buffering) and cpholes.c (04-file-io-universal-io-model),
    each [main] as a function of its argument vector; [argc] is the length of the vector.
    copy.c, which tests what its calls return, is proved for any kernel that keeps to
    [FileLaws]; cpholes.c, which does not, for one on which calls do not fail. *)

From Stdlib Require Import ZArith Lia String Ascii.
From S2P Require Import Prelude CString Kernel Files.

Section Programs.
Context {K : Type} `{!FileIO K}.
Implicit Types (argv : list bytes).

Definition argc argv : Z := Z.of_nat (length argv).
Definition arg argv (n : nat) : M (proc K) bytes := the (argv !! n).

(** The test [argc != n || strcmp(argv[1], "--help") == 0]. *)
Definition bad_usage (n : Z) argv : bool :=
  negb (argc argv =? n) || (strcmp (default [] (argv !! 1%nat)) (str "--help") =? 0).

(** ** copy.c *)

Definition BUF_SIZE : Z := 1024.

Definition copy_loop (fuel : nat) (inputFd outputFd : Z) : M (proc K) Z :=
  loop fuel (fun _ =>
    r ← read inputFd BUF_SIZE;
    let '(numRead, buf) := r in
    if 0 <? numRead then
      w ← write outputFd buf;
      (if negb (w =? numRead) then printf (str "couldn't write whole buffer") else mret tt) ;;
      mret (inl tt)
    else mret (inr numRead)) tt.

Definition copy_main (fuel : nat) argv : M (proc K) Z :=
  if bad_usage 3 argv then
    a0 ← arg argv 0; printf (a0 ++ str " old-file new-file" ++ [NL]) ;; mret 0
  else
    src ← arg argv 1; dst ← arg argv 2;
    inputFd ← open_ src O_RDONLY 0;
    (if inputFd =? -1 then printf (str "opening file " ++ src) else mret tt) ;;
    outputFd ← open_ dst (flags [O_CREAT; O_WRONLY; O_TRUNC])
                     (flags [S_IRUSR; S_IWUSR; S_IRGRP; S_IWGRP; S_IROTH; S_IWOTH]);
    if outputFd =? -1 then printf (str "opening file " ++ dst) ;; mret 0
    else
      numRead ← copy_loop fuel inputFd outputFd;
      (if numRead =? -1 then printf (str "read") else mret tt) ;;
      c1 ← close inputFd;
      (if c1 =? -1 then printf (str "close input") else mret tt) ;;
      c2 ← close outputFd;
      (if c2 =? -1 then printf (str "close output") else mret tt) ;;
      mret 0.

End Programs.

(** ** cpholes.c *)

Section Holes.
Context {K : Type} `{!FileIO K}.

Definition usage_cpholes : M (proc K) unit :=
  printf (str "Usage: ./prog_cpholes <src> <dst>" ++ [NL]).

(** One byte of the input: null bytes are counted, and a byte that follows a hole is written
    after it. *)
Definition copy_byte (outputFd : Z) (holeSize : Z) (c : ascii) : M (proc K) Z :=
  if Ascii.eqb c NUL then mret (u64 (holeSize + 1))
  else if 0 <? holeSize then
    lseek outputFd holeSize SEEK_CUR ;; write outputFd [c] ;; mret 0
  else write outputFd [c] ;; mret holeSize.

Fixpoint copy_bytes (outputFd : Z) (holeSize : Z) (buf : bytes) : M (proc K) Z :=
  match buf with
  | [] => mret holeSize
  | c :: buf' => h ← copy_byte outputFd holeSize c; copy_bytes outputFd h buf'
  end.

Definition cpholes_loop (fuel : nat) (inputFd outputFd : Z) : M (proc K) Z :=
  loop fuel (fun holeSize =>
    r ← read inputFd BUF_SIZE;
    let '(numRead, buf) := r in
    if 0 <? numRead then h ← copy_bytes outputFd holeSize buf; mret (inl h)
    else mret (inr holeSize)) 0.

Definition cpholes_main (strerror : Z -> bytes) (fuel : nat) (argv : list bytes) : M (proc K) Z :=
  if bad_usage 3 argv then usage_cpholes ;; mret 1
  else
    a1 ← arg argv 1; a2 ← arg argv 2;
    inputFd ← open_ a1 O_RDONLY 0;
    if inputFd <? 0 then
      e ← get_errno;
      printf (str "Failed to open input file: " ++ strerror e ++ [NL]) ;; usage_cpholes ;; mret 1
    else
      outputFd ← open_ a2 (flags [O_CREAT; O_WRONLY; O_TRUNC])
                       (flags [S_IRUSR; S_IWUSR; S_IRGRP; S_IROTH; S_IWOTH]);
      if outputFd <? 0 then
        e ← get_errno;
        printf (str "Failed to open output file: " ++ strerror e ++ [NL]) ;; usage_cpholes ;; mret 1
      else
        cpholes_loop fuel inputFd outputFd ;;
        lastApparentByte ← lseek inputFd (-1) SEEK_END;
        lseek outputFd lastApparentByte SEEK_SET ;;
        write outputFd [NUL] ;;
        close inputFd ;;
        close outputFd ;;
        mret 0.
End Holes.

(** ** Copying *)

Lemma usage_ok n argv a :
  argc argv = n -> argv !! 1%nat = Some a -> strcmp a (str "--help") <> 0 -> bad_usage n argv = false.
Proof.
  intros Hn Ha Hh%Z.eqb_neq. unfold bad_usage. by rewrite Ha, Hn, Z.eqb_refl; simpl default; rewrite Hh.
Qed.

Section CopySpec.
Context {K : Type} `{!FileIO K, !FileLaws K}.
Implicit Types (p q : proc K) (v : fsv).

(** [out] is what was printed since [p]. *)
Definition printed p q (out : list event) : Prop := trace q = trace p ++ out.

Lemma printed_nil p q : trace q = trace p -> printed p q [].
Proof. unfold printed. by rewrite app_nil_r. Qed.

Lemma printed_silent p q out : printed p q out -> trace q = trace p -> out = [].
Proof. unfold printed. intros -> H. rewrite <- (app_nil_r (trace p)) in H at 2. by apply app_inv_head in H. Qed.

(** Two descriptors of different files, each with a description of its own. *)
Record copying (data : bytes) (inFd outFd ino_s ino_d off off' fl : Z) (v : fsv) : Prop := {
  cp_ino : ino_s <> ino_d;
  cp_data : content v ino_s = data;
  cp_off : 0 <= off <= strlen data;
  cp_fds : exists i j, i <> j /\ lookup_fd v inFd = Some (i, Ofd ino_s off O_RDONLY) /\
             lookup_fd v outFd = Some (j, Ofd ino_d off' fl)
}.

Lemma copying_read data inFd outFd ino_s ino_d off off' fl v i o bs v' :
  copying data inFd outFd ino_s ino_d off off' fl v ->
  lookup_fd v inFd = Some (i, o) -> bs `prefix_of` drop (Z.to_nat (o_off o)) (content v (o_ino o)) ->
  v' = v_read i o bs v ->
  copying data inFd outFd ino_s ino_d (off + strlen bs) off' fl v' /\
  take (Z.to_nat (off + strlen bs)) data = take (Z.to_nat off) data ++ bs /\
  content v' ino_d = content v ino_d /\ v_names v' = v_names v.
Proof.
  intros [Hino Hdata Hoff (i' & j & Hij & Hin & Hout)] Hin' Hpre ->.
  rewrite Hin in Hin'. simplify_eq. simpl in Hpre.
  assert (strlen bs <= strlen (content v ino_s) - off).
  { apply prefix_length in Hpre. rewrite length_drop in Hpre. unfold strlen in *. lia. }
  pose proof (strlen_nonneg bs). split_and!; try done.
  - split; [done|done|lia|]. exists i, j. split_and!; [done|..].
    + unfold v_read. erewrite lookup_set_ofd by done. by rewrite decide_True.
    + unfold v_read. erewrite lookup_set_ofd by done. by rewrite decide_False.
  - rewrite Z2Nat.inj_add by lia. rewrite <- take_take_drop. f_equal.
    destruct Hpre as [rest ->]. unfold strlen. by rewrite Nat2Z.id, take_app_length.
Qed.

Lemma copying_write data inFd outFd ino_s ino_d off off' fl v j o bs v' :
  copying data inFd outFd ino_s ino_d off off' fl v ->
  lookup_fd v outFd = Some (j, o) -> v' = v_write j o bs v ->
  has_flag fl O_APPEND = false ->
  copying data inFd outFd ino_s ino_d off (off' + strlen bs) fl v' /\
  content v' ino_d = overwrite (content v ino_d) (Z.to_nat off') bs /\ v_names v' = v_names v.
Proof.
  intros [Hino Hdata Hoff (i & j' & Hij & Hin & Hout)] Hout' -> Happ.
  rewrite Hout in Hout'. simplify_eq. unfold v_write, write_offset. simpl. rewrite Happ.
  split_and!; [|by rewrite content_set_ofd, content_set|done].
  split; [done| |done|].
  - by rewrite content_set_ofd, content_set_ne.
  - exists i, j. split_and!; [done|..].
    + erewrite lookup_set_ofd by done. by rewrite decide_False.
    + erewrite lookup_set_ofd by done. by rewrite decide_True.
Qed.

(** What is left to read from a descriptor of a file with contents [data]. *)
Definition unread (fd : Z) (data : bytes) v : nat :=
  match lookup_fd v fd with Some (_, o) => length data - Z.to_nat (o_off o) | None => 0 end.

Lemma unread_less data inFd outFd ino_s ino_d off off' fl v bs v' :
  copying data inFd outFd ino_s ino_d off off' fl v ->
  copying data inFd outFd ino_s ino_d (off + strlen bs) off' fl v' -> 0 < strlen bs ->
  (unread inFd data v' < unread inFd data v)%nat.
Proof.
  intros [_ _ Ho (i & j & _ & Hin & _)] [_ _ Ho' (i' & j' & _ & Hin' & _)] Hb.
  unfold unread. rewrite Hin, Hin'. simpl. unfold strlen in *. lia.
Qed.

Lemma unread_same data inFd outFd ino_s ino_d off off1 off2 fl v v' :
  copying data inFd outFd ino_s ino_d off off1 fl v ->
  copying data inFd outFd ino_s ino_d off off2 fl v' -> unread inFd data v' = unread inFd data v.
Proof.
  intros [_ _ Ho (i & j & _ & Hin & _)] [_ _ Ho' (i' & j' & _ & Hin' & _)].
  unfold unread. by rewrite Hin, Hin'.
Qed.

Lemma printed_snoc p q out k e x : printed p q out -> printed p (Proc k e (trace q ++ [x])) (out ++ [x]).
Proof. unfold printed. simpl. intros ->. by rewrite app_assoc. Qed.

(** The copying loop ends; unless it reports something, the output is all of the input. *)
Lemma copy_loop_spec fuel inFd outFd ino_s ino_d fl data p0 p out :
  has_flag fl O_APPEND = false -> printed p0 p out ->
  (length data < fuel)%nat ->
  copying data inFd outFd ino_s ino_d 0 0 fl (view (kern p)) ->
  content (view (kern p)) ino_d = [] ->
  wp (copy_loop fuel inFd outFd) p (fun o q => exists r out', o = Ret r /\ printed p0 q out' /\
    v_names (view (kern q)) = v_names (view (kern p)) /\
    (r <> -1 -> out' = [] -> content (view (kern q)) ino_d = data)).
Proof.
  intros Hfl Hp Hfuel Hc Hnil. apply (loop_wp
    (fun _ q => exists off off' out', copying data inFd outFd ino_s ino_d off off' fl (view (kern q)) /\
       printed p0 q out' /\ v_names (view (kern q)) = v_names (view (kern p)) /\
       (out' = [] -> content (view (kern q)) ino_d = take (Z.to_nat off) data /\ off' = off))
    (fun _ q => unread inFd data (view (kern q)))); [| |].
  2: { exists 0, 0, out. split_and!; try done. }
  2: { unfold unread. destruct Hc as [_ _ _ (i & j & _ & -> & _)]. simpl. lia. }
  intros _ q (off & off' & out' & Hcq & Hpq & Hn & Hsame).
  apply wp_bind, wp_fread.
  - intros i o bs k' Hin _ Hpre Hlen Heof Hv.
    destruct (copying_read _ _ _ _ _ _ _ _ _ _ _ _ _ Hcq Hin Hpre Hv) as (Hcq' & Htake & Hcont & Hnq).
    destruct (Z.ltb_spec 0 (strlen bs)) as [Hpos|Hneg].
    + assert (unread inFd data (view k') < unread inFd data (view (kern q)))%nat as Hdec.
      { eapply unread_less; eauto. }
      apply wp_bind, wp_fwrite.
      * intros j o' c k'' Hout _ Hc' Hv'. cbn [kern] in *.
        destruct (copying_write _ _ _ _ _ _ _ _ _ _ _ _ _ Hcq' Hout Hv' Hfl) as (Hcq'' & Hcont' & Hnq').
        assert (unread inFd data (view k'') < unread inFd data (view (kern q)))%nat.
        { by rewrite (unread_same _ _ _ _ _ _ _ _ _ _ _ Hcq' Hcq''). }
        destruct (Z.eqb_spec c (strlen bs)) as [->|Hshort]; cbn [negb].
        -- apply wp_bind, wp_ret, wp_ret. split; [|done].
           eexists _, _, out'. split_and!; [exact Hcq''|done|cbn; congruence|].
           intros E. destruct (Hsame E) as [Hsame' ->]. unfold strlen in *.
           rewrite Nat2Z.id, firstn_all in Hcont' |- *. split; [|done].
           rewrite Htake. cbn [kern]. rewrite Hcont', Hcont, Hsame'.
           rewrite <- (overwrite_end (take _ _)). f_equal. rewrite length_take.
           destruct Hcq as [_ _ Hoff _]. unfold strlen in Hoff. lia.
        -- apply wp_bind, wp_printf, wp_ret. split; [|cbn; lia].
           eexists _, _, _. split_and!; [exact Hcq''|by apply printed_snoc|cbn; congruence|].
           by intros [_ ?]%app_eq_nil.
      * intros e k'' Hv'. cbn [kern] in *. rewrite <- Hv' in *.
        destruct (Z.eqb_spec (-1) (strlen bs)) as [|_]; [lia|]. cbn [negb].
        apply wp_bind, wp_printf, wp_ret. split; [|cbn; lia].
        eexists _, _, _. split_and!; [exact Hcq'|by apply printed_snoc|cbn; congruence|].
        by intros [_ ?]%app_eq_nil.
    + assert (bs = []) as -> by (apply strlen_nil; pose proof (strlen_nonneg bs); lia).
      apply wp_ret. eexists _, out'. split_and!; [done|done|cbn; congruence|].
      intros _ E. destruct (Hsame E) as [Hsame' ->]. cbn [kern]. rewrite Hcont, Hsame'.
      apply take_ge. destruct (Heof eq_refl) as [|Hend]; [done|].
      destruct Hcq as [_ Hd _ (i' & j' & _ & Hin' & _)]. rewrite Hin' in Hin. simplify_eq.
      apply (f_equal length) in Hend. rewrite length_drop in Hend. simpl in Hend. lia.
  - intros e k' Hv. cbn. exists (-1), out'. split_and!; [done|done|cbn; congruence|done].
Qed.

(** Reporting appends to what was printed; saying nothing leaves it. *)
Lemma wp_report (b : bool) s p0 p out (Q : outcome unit -> proc K -> Prop) :
  printed p0 p out ->
  (forall q out', printed p0 q out' -> kern q = kern p -> (out' = [] -> b = false /\ out = []) ->
     Q (Ret tt) q) ->
  wp (if b then printf s else mret tt) p Q.
Proof.
  intros Hp HQ. destruct b.
  - apply wp_printf. eapply HQ; [by apply printed_snoc|done|]. by intros [_ ?]%app_eq_nil.
  - apply wp_ret. eapply HQ; done.
Qed.

Lemma wp_fclose_any fd p (Q : outcome Z -> proc K -> Prop) :
  (forall r q, trace q = trace p -> v_names (view (kern q)) = v_names (view (kern p)) ->
     v_data (view (kern q)) = v_data (view (kern p)) -> Q (Ret r) q) ->
  wp (close fd) p Q.
Proof.
  intros HQ. apply wp_fclose.
  - intros k' Hv. apply HQ; simpl; rewrite ?Hv; done.
  - intros e k' [Hv|Hv]; apply HQ; simpl; rewrite ?Hv; done.
Qed.

(** The end of [copy_main]: whatever closing says, the status is 0. *)
Lemma copy_close_spec inFd outFd p0 p out dst ino_d (data : bytes) :
  printed p0 p out ->
  (out = [] -> v_names (view (kern p)) !! dst = Some ino_d /\ content (view (kern p)) ino_d = data) ->
  wp (c1 ← close inFd;
      (if c1 =? -1 then printf (str "close input") else mret tt) ;;
      c2 ← close outFd;
      (if c2 =? -1 then printf (str "close output") else mret tt) ;;
      mret 0) p
    (fun o q => o = Ret 0 /\ exists out', printed p0 q out' /\
       (out' = [] -> v_names (view (kern q)) !! dst = Some ino_d /\ content (view (kern q)) ino_d = data)).
Proof.
  intros Hp Hdone. apply wp_bind, wp_fclose_any. intros c1 q1 Ht1 Hn1 Hd1.
  apply wp_bind. apply (wp_report _ _ p0 q1 out); [congruence|]. intros q2 out2 Hp2 Hk2 Hs2.
  apply wp_bind, wp_fclose_any. intros c2 q3 Ht3 Hn3 Hd3.
  apply wp_bind. apply (wp_report _ _ p0 q3 out2); [unfold printed in *; congruence|].
  intros q4 out4 Hp4 Hk4 Hs4. apply wp_ret. split; [done|]. exists out4. split; [done|].
  intros E. apply Hs4 in E as [_ E]. apply Hs2 in E as [_ E]. destruct (Hdone E) as [Hn Hc].
  unfold content in *. rewrite Hk4, Hn3, Hd3, Hk2, Hn1, Hd1. done.
Qed.

Lemma copying_opened src dst ino_s data v v1 v2 inFd outFd i j ino ino_d :
  v_names v !! src = Some ino_s -> v_data v !! ino_s = Some data -> v_names v !! dst <> Some ino_s ->
  may_open src O_RDONLY inFd i ino v -> v1 = v_open src O_RDONLY inFd i ino v ->
  may_open dst 577 outFd j ino_d v1 -> v2 = v_open dst 577 outFd j ino_d v1 ->
  copying data inFd outFd ino_s ino_d 0 0 577 v2 /\ content v2 ino_d = [] /\ v_names v2 !! dst = Some ino_d.
Proof.
  intros Hsrc Hdata Hdst Hmay -> Hmay' ->.
  assert (ino = ino_s) as ->.
  { destruct Hmay as (_ & _ & _ & [?|[? _]]); congruence. }
  assert (src <> dst) by congruence.
  assert (ino_s <> ino_d) as Hne.
  { destruct Hmay' as (_ & _ & _ & Hm). simpl in Hm. rewrite lookup_insert_ne in Hm by done.
    intros ->. destruct Hm as [?|(_ & _ & Hm)]; [congruence|]. by rewrite lookup_insert_eq in Hm. }
  destruct (lookup_v_open_ne _ _ _ _ _ _ inFd i (Ofd ino_s 0 O_RDONLY) Hmay') as (Hin & Hij & _);
    [apply lookup_v_open|].
  split_and!.
  - split; [done| |unfold strlen; lia|].
    + unfold content. simpl. rewrite lookup_insert_ne, lookup_insert_eq by done. simpl.
      unfold content. by rewrite Hdata.
    + exists i, j. split_and!; [done|done|apply lookup_v_open].
  - unfold content. simpl. by rewrite lookup_insert_eq.
  - simpl. by rewrite lookup_insert_eq.
Qed.

Lemma copy_loop_closed fuel inFd outFd p :
  (0 < fuel)%nat -> lookup_fd (view (kern p)) inFd = None ->
  wp (copy_loop fuel inFd outFd) p (fun o q => o = Ret (-1) /\ trace q = trace p).
Proof.
  intros Hf Hnone. destruct fuel as [|n]; [lia|]. unfold copy_loop. rewrite loop_S.
  apply wp_bind, wp_bind, wp_fread; [intros; congruence|]. intros e k' _. done.
Qed.

(** C37: copy.c always ends, with status 0 whatever happens, and its only sign of trouble is what
    it prints: if it prints nothing, then the file named by its second argument holds exactly the
    contents of the one named by its first, through any partial reads and writes. *)
Theorem copy_main_faithful fuel a0 src dst p ino_s data :
  strcmp src (str "--help") <> 0 ->
  v_names (view (kern p)) !! src = Some ino_s -> v_data (view (kern p)) !! ino_s = Some data ->
  v_names (view (kern p)) !! dst <> Some ino_s ->
  v_fds (view (kern p)) !! (-1) = None -> (length data < fuel)%nat ->
  exists p', copy_main fuel [a0; src; dst] p = (Ret 0, p') /\
    (trace p' = trace p ->
       exists ino_d, v_names (view (kern p')) !! dst = Some ino_d /\
                     content (view (kern p')) ino_d = data).
Proof.
  intros Hhelp Hsrc Hdata Hdst Hneg Hfuel.
  cut (wp (copy_main fuel [a0; src; dst]) p (fun o q => o = Ret 0 /\ exists out ino_d, printed p q out /\
    (out = [] -> v_names (view (kern q)) !! dst = Some ino_d /\ content (view (kern q)) ino_d = data))).
  { intros (o & p' & HR & -> & out & ino_d & Hp & H)%wp_elim. exists p'. split; [done|].
    intros Ht. exists ino_d. apply H. by eapply printed_silent. }
  unfold copy_main. rewrite (usage_ok 3 [a0; src; dst] src) by done.
  apply wp_bind, wp_ret, wp_bind, wp_ret, wp_bind, wp_fopen.
  - intros inFd i ino k1 Hmay Hv1. replace (inFd =? -1) with false by (destruct Hmay; lia).
    apply wp_bind, wp_ret, wp_bind, wp_fopen.
    + intros outFd j ino_d k2 Hmay2 Hv2. cbn [kern] in *.
      replace (outFd =? -1) with false by (destruct Hmay2; lia).
      destruct (copying_opened _ _ _ _ _ _ _ _ _ _ _ _ _ Hsrc Hdata Hdst Hmay Hv1 Hmay2 Hv2)
        as (Hc & Hnil & Hn).
      apply wp_bind. eapply wp_mono.
      { apply (copy_loop_spec fuel _ _ ino_s ino_d 577 data p _ []); try done. by apply printed_nil. }
      intros o q (r & out & -> & Hp & Hnq & Hdone). cbn -[close].
      apply wp_bind, (wp_report _ _ p q out); [done|]. intros q2 out2 Hp2 Hk2 Hs2.
      eapply wp_mono; [apply (copy_close_spec inFd outFd p q2 out2 dst ino_d data); [done|]|].
      * intros E. destruct (Hs2 E) as [Hr ->]. apply Z.eqb_neq in Hr. rewrite Hk2, Hnq. auto.
      * intros o q3 (-> & out3 & ? & ?). split; [done|]. by exists out3, ino_d.
    + intros e k2 Hv2. cbn. split; [done|].
      eexists _, 0. split; [apply printed_snoc; by apply printed_nil|]. done.
  - intros e k1 Hv1. change (-1 =? -1) with true.
    apply wp_bind, wp_printf, wp_bind, wp_fopen.
    + intros outFd j ino_d k2 Hmay2 Hv2. cbn [kern] in *.
      assert (lookup_fd (view k2) (-1) = None) as Hnone.
      { rewrite Hv2, Hv1. unfold lookup_fd. simpl.
        rewrite lookup_insert_ne by (destruct Hmay2; lia). by rewrite Hneg. }
      replace (outFd =? -1) with false by (destruct Hmay2; lia).
      apply wp_bind. eapply wp_mono; [apply copy_loop_closed; [lia|exact Hnone]|].
      intros o q (-> & Ht). cbn -[close].
      apply wp_bind, wp_printf. eapply wp_mono.
      * apply (copy_close_spec (-1) outFd p _ ([Out (str "opening file " ++ src)] ++ [Out (str "read")]) dst 0 data); [|done].
        apply printed_snoc. unfold printed. by rewrite Ht.
      * intros o q2 (-> & out2 & ? & ?). split; [done|]. by exists out2, 0.
    + intros e2 k2 Hv2. cbn. split; [done|].
      eexists _, 0. split; [do 2 apply printed_snoc; by apply printed_nil|]. done.
Qed.

(** ** Copying holes *)

Context `{!ReliableLaws K}.

Lemma copying_seek data inFd outFd ino_s ino_d off off' fl v r v' j o :
  copying data inFd outFd ino_s ino_d off off' fl v ->
  lookup_fd v outFd = Some (j, o) -> v' = v_seek j o r v ->
  copying data inFd outFd ino_s ino_d off r fl v' /\ content v' ino_d = content v ino_d /\
  v_names v' = v_names v.
Proof.
  intros [Hino Hdata Hoff (i & j' & Hij & Hin & Hout)] Hout' ->.
  rewrite Hout in Hout'. simplify_eq. split_and!; [|done|done]. split; [done|done|done|].
  exists i, j. split_and!; [done|..]; unfold v_seek.
  - erewrite lookup_set_ofd by done. by rewrite decide_False.
  - erewrite lookup_set_ofd by done. by rewrite decide_True.
Qed.

Lemma copying_seek_in data inFd outFd ino_s ino_d off off' fl v r v' i o :
  copying data inFd outFd ino_s ino_d off off' fl v ->
  lookup_fd v inFd = Some (i, o) -> v' = v_seek i o r v -> 0 <= r <= strlen data ->
  copying data inFd outFd ino_s ino_d r off' fl v' /\ content v' ino_d = content v ino_d /\
  v_names v' = v_names v.
Proof.
  intros [Hino Hdata Hoff (i' & j & Hij & Hin & Hout)] Hin' -> Hr.
  rewrite Hin in Hin'. simplify_eq. split_and!; [|done|done]. split; [done|done|done|].
  exists i, j. split_and!; [done|..]; unfold v_seek.
  - erewrite lookup_set_ofd by done. by rewrite decide_True.
  - erewrite lookup_set_ofd by done. by rewrite decide_False.
Qed.

(** The output holds [c], and [h] null bytes that followed have not been written. *)
Record behind (data : bytes) inFd outFd ino_s ino_d off fl (done : bytes) (h : Z) v : Prop := {
  bh_copying : copying data inFd outFd ino_s ino_d off (strlen (content v ino_d)) fl v;
  bh_hole : 0 <= h;
  bh_done : content v ino_d ++ replicate (Z.to_nat h) NUL = done
}.

Lemma behind_write_end data inFd outFd ino_s ino_d off fl v b v' j o :
  copying data inFd outFd ino_s ino_d off (strlen (content v ino_d)) fl v ->
  has_flag fl O_APPEND = false -> lookup_fd v outFd = Some (j, o) -> v' = v_write j o [b] v ->
  copying data inFd outFd ino_s ino_d off (strlen (content v' ino_d)) fl v' /\
  content v' ino_d = content v ino_d ++ [b] /\ v_names v' = v_names v.
Proof.
  intros Hc Hfl Hout Hv. destruct (copying_write _ _ _ _ _ _ _ _ _ _ _ _ _ Hc Hout Hv Hfl) as (Hc' & Hd & Hn).
  unfold strlen in Hd. rewrite Nat2Z.id, overwrite_end in Hd. split_and!; [|done|done].
  by rewrite Hd, strlen_app.
Qed.

Lemma copying_out_writable data inFd outFd ino_s ino_d off off' fl v :
  copying data inFd outFd ino_s ino_d off off' fl v -> access fl = O_WRONLY ->
  exists j o, lookup_fd v outFd = Some (j, o) /\ writable o = true /\ o_off o = off' /\ o_ino o = ino_d.
Proof.
  intros [_ _ _ (i & j & _ & _ & Hout)] Ha. exists j, (Ofd ino_d off' fl).
  unfold writable. simpl. by rewrite Ha.
Qed.

Lemma copy_byte_spec data inFd outFd ino_s ino_d off fl done_ h c p0 p :
  has_flag fl O_APPEND = false -> access fl = O_WRONLY -> h + 1 < 2 ^ 64 -> trace p = trace p0 ->
  behind data inFd outFd ino_s ino_d off fl done_ h (view (kern p)) ->
  wp (copy_byte outFd h c) p (fun o q => exists h', o = Ret h' /\ trace q = trace p0 /\
    v_names (view (kern q)) = v_names (view (kern p)) /\
    behind data inFd outFd ino_s ino_d off fl (done_ ++ [c]) h' (view (kern q))).
Proof.
  intros Hfl Hacc Hh Ht [Hc Hh0 Hdone]. unfold copy_byte. destruct (Ascii.eqb_spec c NUL) as [->|Hc0].
  - apply wp_ret. eexists. split_and!; [done|done|done|].
    rewrite wrap_u_id by (unfold in_u; lia). split; [done|lia|].
    rewrite Z2Nat.inj_add, Nat.add_comm by lia. simpl (Z.to_nat 1 + _)%nat.
    by rewrite <- Hdone, <- app_assoc, replicate_S_end.
  - destruct (Z.ltb_spec 0 h) as [Hpos|Hzero].
    + destruct (copying_out_writable _ _ _ _ _ _ _ _ _ Hc Hacc) as (j & o & Hj & Hw & Ho & Hi).
      apply wp_bind, (wp_lseek_full _ _ _ j o); [done|..].
      { unfold seek_target. simpl. rewrite Ho. pose proof (strlen_nonneg (content (view (kern p)) ino_d)). lia. }
      intros k' Hv. assert (seek_target o h SEEK_CUR (view (kern p)) = strlen (content (view (kern p)) ino_d) + h)
        as Htgt by (unfold seek_target; simpl; by rewrite Ho). rewrite Htgt in *.
      destruct (copying_seek _ _ _ _ _ _ _ _ _ _ _ _ _ Hc Hj Hv) as (Hc' & Hd' & Hn').
      destruct (copying_out_writable _ _ _ _ _ _ _ _ _ Hc' Hacc) as (j' & o' & Hj' & Hw' & Ho' & Hi').
      apply wp_bind, (wp_write_full _ _ j' o'); [done|done|]. intros k'' Hv''. cbn [kern] in *.
      destruct (copying_write _ _ _ _ _ _ _ _ _ _ _ _ _ Hc' Hj' Hv'' Hfl) as (Hc'' & Hd'' & Hn'').
      apply wp_ret. eexists. split_and!; [done|done|cbn; congruence|]. cbn [kern].
      assert (content (view k'') ino_d = done_ ++ [c]) as Hfinal.
      { rewrite Hd'', Hd', <- Hdone. set (d := content (view (kern p)) ino_d).
        rewrite overwrite_ne by done. unfold strlen.
        rewrite take_ge by (rewrite length_app, length_replicate; lia).
        rewrite drop_ge by (simpl; lia). rewrite app_nil_r. do 3 f_equal. lia. }
      split; [|lia|by rewrite Hfinal, app_nil_r].
      replace (strlen (content (view k'') ino_d))
        with (strlen (content (view (kern p)) ino_d) + h + strlen [c]); [done|].
      rewrite Hfinal, <- Hdone, !strlen_app. unfold strlen at 4. rewrite length_replicate. lia.
    + replace h with 0 in * by lia. rewrite app_nil_r in Hdone.
      destruct (copying_out_writable _ _ _ _ _ _ _ _ _ Hc Hacc) as (j & o & Hj & Hw & Ho & Hi).
      apply wp_bind, (wp_write_full _ _ j o); [done|done|]. intros k' Hv.
      destruct (behind_write_end _ _ _ _ _ _ _ _ _ _ _ _ Hc Hfl Hj Hv) as (Hc' & Hd' & Hn').
      apply wp_ret. eexists. split_and!; [done|done|done|]. split; [done|lia|].
      by rewrite app_nil_r; cbn [kern]; rewrite Hd', Hdone.
Qed.

Lemma copy_bytes_spec data inFd outFd ino_s ino_d off fl buf done_ h p0 p :
  has_flag fl O_APPEND = false -> access fl = O_WRONLY -> trace p = trace p0 ->
  strlen done_ + strlen buf < 2 ^ 64 ->
  behind data inFd outFd ino_s ino_d off fl done_ h (view (kern p)) ->
  wp (copy_bytes outFd h buf) p (fun o q => exists h', o = Ret h' /\ trace q = trace p0 /\
    v_names (view (kern q)) = v_names (view (kern p)) /\
    behind data inFd outFd ino_s ino_d off fl (done_ ++ buf) h' (view (kern q))).
Proof.
  intros Hfl Hacc. revert done_ h p. induction buf as [|c buf IH]; intros done_ h p Ht Hlen Hb; simpl.
  - apply wp_ret. exists h. by rewrite app_nil_r.
  - assert (h <= strlen done_).
    { destruct Hb as [_ ? <-]. rewrite strlen_app. unfold strlen. rewrite length_replicate. lia. }
    assert (strlen (c :: buf) = 1 + strlen buf) as Hcons by (unfold strlen; simpl; lia).
    pose proof (strlen_nonneg buf).
    apply wp_bind. eapply wp_mono; [apply (copy_byte_spec data inFd outFd ino_s ino_d off fl done_ h c p0); try done; lia|].
    intros o q (h' & -> & Htq & Hnq & Hbq). eapply wp_mono; [apply (IH (done_ ++ [c])); try done|].
    { rewrite strlen_app. unfold strlen at 2. simpl. lia. }
    intros o q' (h2 & -> & ? & ? & Hb2). exists h2. rewrite <- app_assoc in Hb2.
    split_and!; [done|done|congruence|done].
Qed.

Lemma behind_read data inFd outFd ino_s ino_d off fl done_ h v i o bs v' :
  behind data inFd outFd ino_s ino_d off fl done_ h v ->
  lookup_fd v inFd = Some (i, o) -> bs `prefix_of` drop (Z.to_nat (o_off o)) (content v (o_ino o)) ->
  v' = v_read i o bs v ->
  behind data inFd outFd ino_s ino_d (off + strlen bs) fl done_ h v' /\ v_names v' = v_names v /\
  take (Z.to_nat (off + strlen bs)) data = take (Z.to_nat off) data ++ bs.
Proof.
  intros [Hc Hh Hd] Hin Hpre Hv.
  destruct (copying_read _ _ _ _ _ _ _ _ _ _ _ _ _ Hc Hin Hpre Hv) as (Hc' & Ht & Hcont & Hn).
  split_and!; [|done|done]. split; [by rewrite Hcont|done|by rewrite Hcont].
Qed.

Lemma copying_input data inFd outFd ino_s ino_d off off' fl v :
  copying data inFd outFd ino_s ino_d off off' fl v ->
  exists i, lookup_fd v inFd = Some (i, Ofd ino_s off O_RDONLY).
Proof. intros [_ _ _ (i & j & _ & Hin & _)]. eauto. Qed.

Lemma cpholes_loop_spec fuel inFd outFd ino_s ino_d fl data p :
  has_flag fl O_APPEND = false -> access fl = O_WRONLY -> strlen data < 2 ^ 63 ->
  (length data < fuel)%nat -> copying data inFd outFd ino_s ino_d 0 0 fl (view (kern p)) ->
  content (view (kern p)) ino_d = [] ->
  wp (cpholes_loop fuel inFd outFd) p (fun o q => exists h, o = Ret h /\ trace q = trace p /\
    v_names (view (kern q)) = v_names (view (kern p)) /\
    behind data inFd outFd ino_s ino_d (strlen data) fl data h (view (kern q))).
Proof.
  intros Hfl Hacc Hbig Hfuel Hc Hnil. apply (loop_wp
    (fun h q => exists off, trace q = trace p /\ v_names (view (kern q)) = v_names (view (kern p)) /\
       behind data inFd outFd ino_s ino_d off fl (take (Z.to_nat off) data) h (view (kern q)))
    (fun _ q => unread inFd data (view (kern q)))).
  2: { exists 0. split_and!; [done|done|]. split; [|lia|by rewrite Hnil]. by rewrite Hnil. }
  2: { unfold unread. destruct (copying_input _ _ _ _ _ _ _ _ _ Hc) as [i ->]. simpl. lia. }
  intros h q (off & Ht & Hn & Hb). pose proof Hb as [Hcq _ _].
  destruct (copying_input _ _ _ _ _ _ _ _ _ Hcq) as [i Hin].
  assert (content (view (kern q)) ino_s = data) as Hdata by apply Hcq.
  assert (0 <= off <= strlen data) as Hoff by apply Hcq.
  apply wp_bind, (wp_read_full _ _ i (Ofd ino_s off O_RDONLY)); [done|done|done|].
  intros bs k' Hbs Hv. simpl in Hbs. rewrite Hdata in Hbs.
  destruct (behind_read _ _ _ _ _ _ _ _ _ _ _ _ bs (view k') Hb Hin)
    as (Hb' & Hn' & Htk); [simpl; rewrite Hdata, Hbs; apply prefix_take|done|].
  destruct (Z.ltb_spec 0 (strlen bs)) as [Hpos|Hzero].
  - apply wp_bind. eapply wp_mono.
    { apply (copy_bytes_spec data inFd outFd ino_s ino_d (off + strlen bs) fl bs (take (Z.to_nat off) data) h p); [done|done|done| |exact Hb'].
      rewrite <- strlen_app, <- Htk. unfold strlen in *. rewrite length_take. lia. }
    intros o q2 (h2 & -> & Ht2 & Hn2 & Hb2). apply wp_ret. split.
    + exists (off + strlen bs). rewrite Htk. split_and!; [done|cbn in *; congruence|done].
    + destruct Hb2 as [Hc2 _ _]. destruct (copying_input _ _ _ _ _ _ _ _ _ Hc2) as [i2 Hin2].
      destruct Hc2 as [_ _ Ho2 _]. unfold unread. rewrite Hin2, Hin. simpl. unfold strlen in *. lia.
  - assert (bs = []) as Hnil' by (apply strlen_nil; pose proof (strlen_nonneg bs); lia).
    rewrite Hnil' in Hb', Hbs. simpl in Hb'. rewrite Z.add_0_r in Hb'.
    assert (off = strlen data) as ->.
    { symmetry in Hbs. apply (f_equal length) in Hbs. rewrite length_take, length_drop in Hbs.
      unfold strlen in *. assert (0 < Z.to_nat BUF_SIZE)%nat by (unfold BUF_SIZE; lia). cbn [length] in Hbs. lia. }
    apply wp_ret. exists h.
    replace (take (Z.to_nat (strlen data)) data) with data in Hb'
      by (unfold strlen; by rewrite Nat2Z.id, firstn_all).
    split_and!; [done|done|cbn; congruence|done].
Qed.

(** What cpholes.c makes of the contents of a file. *)
Definition last_byte_nulled (data : bytes) : bytes := take (length data - 1) data ++ [NUL].

Lemma last_byte_nulled_spec c h data :
  c ++ replicate h NUL = data -> data <> [] ->
  overwrite c (length data - 1) [NUL] = last_byte_nulled data.
Proof.
  intros <- Hne. unfold last_byte_nulled. rewrite overwrite_ne by done.
  assert (0 < length c + h)%nat.
  { destruct c; [|simpl; lia]. destruct h; [done|simpl; lia]. }
  rewrite length_app, length_replicate in *. rewrite (drop_ge c) by (simpl; lia). rewrite app_nil_r.
  f_equal. destruct h as [|h].
  - rewrite !take_app_le by (simpl; lia). done.
  - rewrite !take_app_ge by lia. f_equal. rewrite !take_replicate. f_equal. lia.
Qed.

(** The end of [cpholes_main]: one null byte at the place of the last byte of the input. *)
Lemma cpholes_end_spec inFd outFd ino_s ino_d fl data h p :
  has_flag fl O_APPEND = false -> access fl = O_WRONLY ->
  behind data inFd outFd ino_s ino_d (strlen data) fl data h (view (kern p)) ->
  wp (lastApparentByte ← lseek inFd (-1) SEEK_END;
      lseek outFd lastApparentByte SEEK_SET ;;
      write outFd [NUL] ;; close inFd ;; close outFd ;; mret 0) p
    (fun o q => o = Ret 0 /\ trace q = trace p /\
       v_names (view (kern q)) = v_names (view (kern p)) /\
       content (view (kern q)) ino_d = last_byte_nulled data).
Proof.
  intros Hfl Hacc [Hc Hh Hd].
  assert (forall (k : K) e off1 off', copying data inFd outFd ino_s ino_d off1 off' fl (view k) ->
    v_names (view k) = v_names (view (kern p)) ->
    overwrite (content (view k) ino_d) (Z.to_nat off') [NUL] = last_byte_nulled data ->
    wp (write outFd [NUL] ;; close inFd ;; close outFd ;; (mret 0 : M (proc K) Z)) (Proc k e (trace p))
      (fun o q => o = Ret 0 /\ trace q = trace p /\
         v_names (view (kern q)) = v_names (view (kern p)) /\
         content (view (kern q)) ino_d = last_byte_nulled data)) as Hfinish.
  { intros k e off1 off' Hck Hn Hover.
    destruct (copying_out_writable _ _ _ _ _ _ _ _ _ Hck Hacc) as (j & o & Hj & Hw & _).
    apply wp_bind, (wp_write_full _ _ j o); [done|done|]. intros k2 Hv2. cbn [kern errno trace] in *.
    destruct (copying_write _ _ _ _ _ _ _ _ _ _ _ _ _ Hck Hj Hv2 Hfl) as (_ & Hcont & Hn2).
    apply wp_bind, wp_fclose_any. intros _ q1 Ht1 Hn1 Hd1.
    apply wp_bind, wp_fclose_any. intros _ q2 Ht2 Hn3 Hd2. apply wp_ret. cbn in *.
    unfold content in *. rewrite Hd2, Hd1. split_and!; congruence. }
  destruct (copying_input _ _ _ _ _ _ _ _ _ Hc) as [i Hin].
  assert (content (view (kern p)) ino_s = data) as Hdata by apply Hc.
  destruct (decide (data = [])) as [Hemp|Hne].
  - rewrite Hemp in *. destruct (app_eq_nil _ _ Hd) as [Hnil _]. simpl in Hin.
    apply wp_bind, wp_flseek.
    { intros i' o' k1 Hin' Htgt _. rewrite Hin in Hin'. simplify_eq.
      unfold seek_target in Htgt. simpl in Htgt. rewrite Hdata in Htgt. done. }
    intros e k1 Hv1. apply wp_bind, wp_flseek; [intros i' o' k2 _ Htgt _; done|].
    intros e2 k2 Hv2. cbn [kern trace errno] in *. apply (Hfinish k2 e2 0 0); rewrite ?Hv2, ?Hv1; try done.
    + by rewrite Hnil in Hc.
    + by rewrite Hnil.
  - assert (0 < strlen data) by (destruct data; [done|unfold strlen; simpl; lia]).
    apply wp_bind, (wp_lseek_full _ _ _ i (Ofd ino_s (strlen data) O_RDONLY)); [done|..].
    { unfold seek_target. simpl. rewrite Hdata. lia. }
    intros k1 Hv1.
    assert (seek_target (Ofd ino_s (strlen data) O_RDONLY) (-1) SEEK_END (view (kern p)) = strlen data - 1)
      as Htgt by (unfold seek_target; simpl; by rewrite Hdata). rewrite Htgt in *.
    destruct (copying_seek_in _ _ _ _ _ _ _ _ _ (strlen data - 1) (view k1) i _ Hc Hin Hv1)
      as (Hc1 & Hd1 & Hn1); [lia|].
    destruct (copying_out_writable _ _ _ _ _ _ _ _ _ Hc1 Hacc) as (j & o & Hj & Hw & Ho & _).
    apply wp_bind, (wp_lseek_full _ _ _ j o); [done|unfold seek_target; simpl; lia|].
    intros k2 Hv2. cbn [kern trace errno] in *.
    destruct (copying_seek _ _ _ _ _ _ _ _ _ _ _ _ _ Hc1 Hj Hv2) as (Hc2 & Hd2 & Hn2).
    eapply Hfinish; [exact Hc2|congruence|].
    rewrite Hd2, Hd1. unfold seek_target. simpl. unfold strlen.
    replace (Z.to_nat (Z.of_nat (length data) - 1)) with (length data - 1)%nat by lia.
    by eapply last_byte_nulled_spec.
Qed.

(** cpholes.c makes a copy whose reads differ from the original's in one place: holes or
    not, the copy holds the same bytes at the same places, except that its last byte is a null
    byte whatever it was, and that the copy of an empty file has one null byte. *)
Theorem cpholes_main_copies strerror fuel a0 src dst p ino_s data :
  strcmp src (str "--help") <> 0 ->
  v_names (view (kern p)) !! src = Some ino_s -> v_data (view (kern p)) !! ino_s = Some data ->
  v_names (view (kern p)) !! dst <> Some ino_s ->
  strlen data < 2 ^ 63 -> (length data < fuel)%nat ->
  exists p' ino_d, cpholes_main strerror fuel [a0; src; dst] p = (Ret 0, p') /\ trace p' = trace p /\
    v_names (view (kern p')) !! dst = Some ino_d /\
    content (view (kern p')) ino_d = last_byte_nulled data.
Proof.
  intros Hhelp Hsrc Hdata Hdst Hbig Hfuel.
  cut (wp (cpholes_main strerror fuel [a0; src; dst]) p (fun o q => o = Ret 0 /\ trace q = trace p /\
    exists ino_d, v_names (view (kern q)) !! dst = Some ino_d /\
      content (view (kern q)) ino_d = last_byte_nulled data)).
  { intros (o & p' & HR & -> & ? & ino_d & ? & ?)%wp_elim. by exists p', ino_d. }
  unfold cpholes_main. rewrite (usage_ok 3 [a0; src; dst] src) by done.
  apply wp_bind, wp_ret, wp_bind, wp_ret, wp_bind, wp_open_full; [left; by eexists|].
  intros inFd i ino k1 Hmay Hv1. replace (inFd <? 0) with false by (destruct Hmay; lia).
  apply wp_bind, wp_open_full; [by right|].
  intros outFd j ino_d k2 Hmay2 Hv2. cbn [kern trace errno] in *.
  replace (outFd <? 0) with false by (destruct Hmay2; lia).
  destruct (copying_opened _ _ _ _ _ _ _ _ _ _ _ _ _ Hsrc Hdata Hdst Hmay Hv1 Hmay2 Hv2)
    as (Hc & Hnil & Hn).
  apply wp_bind. eapply wp_mono.
  { apply (cpholes_loop_spec fuel _ _ ino_s ino_d 577 data); done. }
  intros o q (h & -> & Ht & Hnq & Hb). eapply wp_mono; [by apply (cpholes_end_spec inFd outFd ino_s ino_d 577 data h)|].
  intros o q2 (-> & Ht2 & Hn2 & Hc2). split_and!; [done|cbn in *; congruence|].
  exists ino_d. split; [|done]. cbn in *. by rewrite Hn2, Hnq.
Qed.
End CopySpec.

(** ** Witnesses *)

Definition disk (data : bytes) : proc fsv :=
  Proc (Fsv {[ str "src" := 1 ]} {[ 1 := data ]} ∅ ∅) 0 [].

Lemma copy_main_faithful_witness :
  exists p' ino_d, copy_main 20 [str "copy"; str "src"; str "dst"] (disk (str "hello")) = (Ret 0, p') /\
    v_names (kern p') !! str "dst" = Some ino_d /\ content (kern p') ino_d = str "hello".
Proof.
  destruct (copy_main_faithful 20 (str "copy") (str "src") (str "dst") (disk (str "hello")) 1 (str "hello"))
    as (p' & HR & H); [by vm_compute|done|done|done|done|by_decide|].
  destruct H as (ino_d & ? & ?).
  { assert (snd (copy_main 20 [str "copy"; str "src"; str "dst"] (disk (str "hello"))) = p') as <-
      by (by rewrite HR). by vm_compute. }
  exists p', ino_d. split; [exact HR|]. split; assumption.
Defined.

Definition holed : bytes := str "a" ++ [NUL; NUL] ++ str "bc".

Lemma cpholes_main_copies_witness :
  exists p' ino_d, cpholes_main (fun _ => []) 20 [str "cp"; str "src"; str "dst"] (disk holed) = (Ret 0, p') /\
    v_names (kern p') !! str "dst" = Some ino_d /\ content (kern p') ino_d = str "a" ++ [NUL; NUL] ++ str "b" ++ [NUL].
Proof.
  destruct (cpholes_main_copies (fun _ => []) 20 (str "cp") (str "src") (str "dst") (disk holed) 1 holed)
    as (p' & ino_d & HR & _ & ? & ?); [by vm_compute|done|done|done|by vm_compute|by_decide|].
  exists p', ino_d. split; [exact HR|]. split; [assumption|].
  etrans; [eassumption|]. vm_compute. reflexivity.
Defined.
