(* ===== verification/FileFill.v ===== *)
(** * Programs that fill files

    The exercises write_bytes.c (13-file-io-buffering), large_file.c, append_seek.c,
    atomic_append.c and vector_fileio.c (05-file-io-further-details) and holy_file.c
    (04-file-io-universal-io-model). *)

From Stdlib Require Import ZArith Lia String Ascii.
From S2P Require Import Prelude CString Kernel Files FileCopy.

Section Programs.
Context {K : Type} `{!FileIO K}.
Implicit Types (argv : list bytes).

(** ** write_bytes.c *)

Definition min_ (a b : Z) : Z := if b <? a then b else a.

(** [malloc n] is the fresh buffer of [n] bytes, whose contents are arbitrary, or nothing; the
    argument of the call is the conversion of [bufSize] to an unsigned type. *)
Definition write_bytes_main (malloc : Z -> option bytes) (fuel : nat) argv : M (proc K) Z :=
  if bad_usage 4 argv then
    a0 ← arg argv 0; printf (a0 ++ str " file num-bytes buf-size" ++ [NL]) ;; mret 1
  else
    a1 ← arg argv 1; a2 ← arg argv 2; a3 ← arg argv 3;
    let numBytes := atoi a2 in
    let bufSize := atoi a3 in
    match malloc (u64 bufSize) with
    | None => printf (str "malloc" ++ [NL]) ;; mret 1
    | Some buf =>
        fd ← open_ a1 (flags [O_CREAT; O_WRONLY]) (flags [S_IRUSR; S_IWUSR]);
        if fd =? -1 then printf (str "open" ++ [NL]) ;; mret 1
        else
          loop fuel (fun totWritten =>
            if totWritten <? numBytes then
              let thisWrite := min_ bufSize (numBytes - totWritten) in
              w ← write fd (take (Z.to_nat thisWrite) buf);
              if negb (w =? thisWrite) then
                printf (str "partial/failed write" ++ [NL]) ;; mret (inr 1)
              else mret (inl (totWritten + thisWrite))
            else
              c ← close fd;
              if c =? -1 then printf (str "close") ;; mret (inr 1) else mret (inr 0)) 0
    end.

(** ** large_file.c *)

Definition large_file_main argv : M (proc K) Z :=
  if bad_usage 3 argv then
    a0 ← arg argv 0; printf (a0 ++ str " pathname offset" ++ [NL]) ;; mret 1
  else
    a1 ← arg argv 1; a2 ← arg argv 2;
    fd ← open_ a1 (flags [O_RDWR; O_CREAT]) (flags [S_IRUSR; S_IWUSR]);
    if fd =? -1 then printf (str "open" ++ [NL]) ;; mret 1
    else
      let off := atol a2 in
      r ← lseek fd off SEEK_SET;
      if r =? -1 then printf (str "lseek" ++ [NL]) ;; mret 1
      else
        w ← write fd (str "text");
        if w =? -1 then printf (str "write" ++ [NL]) ;; mret 1
        else printf (str "Success" ++ [NL]) ;; mret 0.

(** ** append_seek.c *)

(** [sizeof(PATTERN)] counts the terminating null byte. *)
Definition PATTERN : bytes := str "Hello, world!" ++ [NUL].

Definition append_seek_main argv : M (proc K) Z :=
  if negb (argc argv =? 2) then printf (str "Must specify a file (argument 1)" ++ [NL]) ;; mret 1
  else
    a1 ← arg argv 1;
    fd ← open_ a1 (flags [O_RDWR; O_APPEND]) 0;
    lseek fd 0 SEEK_SET ;;
    write fd PATTERN ;;
    close fd ;;
    mret 0.

(** ** holy_file.c *)

Definition PATTERN_CHUNK_SIZE : Z := 80.
Definition TEST_PATTERN : bytes := str "1234567890_HelloWorld" ++ [NL].

Definition usage_holyfile : M (proc K) unit :=
  printf (str "Usage: ./prog_holyfile <num_gaps> <gap_size> <filename>" ++ [NL]).

(** One chunk: the test pattern, a byte at a time. *)
Definition write_chunk (outputFd : Z) : M (proc K) unit :=
  for_each (fun i =>
    c ← the (TEST_PATTERN !! Nat.modulo i (length TEST_PATTERN));
    write outputFd [c] ;; mret tt) (seq 0 (Z.to_nat PATTERN_CHUNK_SIZE)).

Definition holy_file_main (strerror : Z -> bytes) (fuel : nat) (argv : list bytes) : M (proc K) Z :=
  if bad_usage 4 argv then usage_holyfile ;; mret 1
  else
    a1 ← arg argv 1; a2 ← arg argv 2; a3 ← arg argv 3;
    let numGaps := atoi a1 in
    let gapSize := atoi a2 in
    if (numGaps =? 0) || (gapSize =? 0) then usage_holyfile ;; mret 1
    else
      outputFd ← open_ a3 (flags [O_CREAT; O_WRONLY; O_TRUNC])
                       (flags [S_IRUSR; S_IWUSR; S_IRGRP; S_IROTH; S_IWOTH]);
      if outputFd <? 0 then
        e ← get_errno;
        printf (str "Failed to open output file: " ++ strerror e ++ [NL]) ;;
        usage_holyfile ;; mret 1
      else
        loop fuel (fun chunkIndex =>
          if chunkIndex <? numGaps then
            write_chunk outputFd ;;
            r ← lseek outputFd gapSize SEEK_CUR;
            if s32 r <? 0 then
              e ← get_errno;
              printf (str "lseek err: " ++ strerror e ++ [NL]) ;; mret (inr 1)
            else mret (inl (chunkIndex + 1))
          else close outputFd ;; mret (inr 0)) 0.


(** ** atomic_append.c *)

Definition append_usage argv : M (proc K) Z :=
  a0 ← arg argv 0;
  printf (a0 ++ str " <filename> <num-bytes> [x]" ++ [NL]) ;;
  printf (str "   where x is only checked for existence" ++ [NL]) ;; mret 0.

(** One round of the loop. *)
Definition append_round (with_append : bool) (fd : Z) : M (proc K) unit :=
  if with_append then write fd (str "i") ;; mret tt
  else lseek fd 0 SEEK_END ;; write fd (str "i") ;; mret tt.

Definition atomic_append_main (fuel : nat) argv : M (proc K) Z :=
  if (argc argv <? 3) || (4 <? argc argv) then append_usage argv ;; mret 1
  else
    let with_append := argc argv =? 3 in
    let fl := if with_append then Z.lor (flags [O_RDWR; O_CREAT]) O_APPEND
              else flags [O_RDWR; O_CREAT] in
    filename ← arg argv 1; a2 ← arg argv 2;
    let num_bytes := atol a2 in
    fd ← open_ filename fl (flags [S_IRUSR; S_IWUSR]);
    if fd =? -1 then
      printf (str "Could not open specified filename (" ++ filename ++ str ")" ++ [NL]) ;;
      append_usage argv ;; mret 1
    else
      loop fuel (fun i =>
        if i <? num_bytes then append_round with_append fd ;; mret (inl (s32 (i + 1)))
        else close fd ;; mret (inr 0)) 0.
End Programs.

(** ** What the programs leave in the file *)

Section Specs.
Context {K : Type} `{!FileIO K, !FileLaws K}.
Implicit Types (p q : proc K) (v : fsv).

(** [fd] writes the file [ino], from offset [off]. *)
Definition writer v fd ino off fl : Prop := exists j, lookup_fd v fd = Some (j, Ofd ino off fl).

Lemma writer_open path fl fd i ino v :
  may_open path fl fd i ino v -> writer (v_open path fl fd i ino v) fd ino 0 fl.
Proof. intros _. exists i. apply lookup_v_open. Qed.

Lemma writer_write v fd ino off fl j o bs v' :
  writer v fd ino off fl -> has_flag fl O_APPEND = false ->
  lookup_fd v fd = Some (j, o) -> v' = v_write j o bs v ->
  writer v' fd ino (off + strlen bs) fl /\
  content v' ino = overwrite (content v ino) (Z.to_nat off) bs /\ v_names v' = v_names v.
Proof.
  intros [j' Hj] Hfl Hj' ->. rewrite Hj in Hj'. simplify_eq. unfold v_write, write_offset. simpl.
  rewrite Hfl. split_and!; [|by rewrite content_set_ofd, content_set|done].
  exists j. erewrite lookup_set_ofd by done. by rewrite decide_True.
Qed.

Lemma writer_append v fd ino off fl j o bs v' :
  writer v fd ino off fl -> has_flag fl O_APPEND = true ->
  lookup_fd v fd = Some (j, o) -> v' = v_write j o bs v ->
  content v' ino = content v ino ++ bs /\ v_names v' = v_names v.
Proof.
  intros [j' Hj] Hfl Hj' ->. rewrite Hj in Hj'. simplify_eq. unfold v_write, write_offset. simpl.
  rewrite Hfl, content_set_ofd, content_set. unfold strlen. by rewrite Nat2Z.id, overwrite_end.
Qed.

Lemma writer_seek v fd ino off fl j o r v' :
  writer v fd ino off fl -> lookup_fd v fd = Some (j, o) -> v' = v_seek j o r v ->
  writer v' fd ino r fl /\ content v' ino = content v ino /\ v_names v' = v_names v.
Proof.
  intros [j' Hj] Hj' ->. rewrite Hj in Hj'. simplify_eq. split_and!; [|done|done].
  exists j. unfold v_seek. erewrite lookup_set_ofd by done. by rewrite decide_True.
Qed.

Lemma take_concat_more (q m : nat) (buf : bytes) :
  (m <= length buf)%nat ->
  concat (replicate q buf) ++ take m buf = take (q * length buf + m) (concat (replicate (S q) buf)).
Proof.
  intros Hm. rewrite replicate_S_end, concat_app. simpl. rewrite app_nil_r.
  assert (length (concat (replicate q buf)) = q * length buf)%nat as Hl.
  { clear. induction q; simpl; [done|]. rewrite length_app. lia. }
  rewrite <- Hl, take_app_2. done.
Qed.

(** The loop of write_bytes.c: [tot] bytes, repetitions of the buffer, are written of the file [path]. *)
Record filling (path buf : bytes) (numBytes : Z) (fd ino : Z) (old : bytes) (tr : list event) (tot : Z) (q : proc K) : Prop := {
  fl_trace : trace q = tr;
  fl_name : v_names (view (kern q)) !! path = Some ino;
  fl_range : 0 <= tot <= numBytes;
  fl_writer : writer (view (kern q)) fd ino tot (flags [O_CREAT; O_WRONLY]);
  fl_rounds : exists n : nat, tot = Z.min numBytes (Z.of_nat n * strlen buf) /\
    content (view (kern q)) ino = overwrite old 0 (take (Z.to_nat tot) (concat (replicate n buf)))
}.

Lemma length_repeated (n : nat) (buf : bytes) : length (concat (replicate n buf)) = (n * length buf)%nat.
Proof. induction n; simpl; [done|]. rewrite length_app. lia. Qed.

Lemma filling_write path buf numBytes fd ino old tr tot q j o k' :
  let this := Z.min (strlen buf) (numBytes - tot) in
  filling path buf numBytes fd ino old tr tot q -> 0 < strlen buf -> tot < numBytes ->
  lookup_fd (view (kern q)) fd = Some (j, o) ->
  view k' = v_write j o (take (Z.to_nat this) buf) (view (kern q)) ->
  filling path buf numBytes fd ino old tr (tot + this) (Proc k' (errno q) (trace q)).
Proof.
  intros this [Htr Hnq Hrange Hwr (n & Htot & Hcont)] Hb Hlt Hj Hv2.
  assert (tot = Z.of_nat n * strlen buf) as Htot' by lia. pose proof (length_repeated n buf) as Hlen.
  assert (strlen (take (Z.to_nat this) buf) = this) as Hl by (unfold strlen in *; rewrite length_take; lia).
  destruct (writer_write _ _ _ _ _ _ _ _ _ Hwr eq_refl Hj Hv2) as (Hwr2 & Hc2 & Hn2). rewrite Hl in Hwr2.
  split; cbn [kern trace]; [done|congruence|lia|exact Hwr2|]. exists (S n). split; [lia|]. rewrite Hc2, Hcont.
  replace (Z.to_nat tot) with (0 + length (take (Z.to_nat tot) (concat (replicate n buf))))%nat at 2
    by (rewrite length_take, Hlen; unfold strlen in *; nia).
  rewrite overwrite_twice. f_equal. rewrite (take_ge (concat _)) by (rewrite Hlen; unfold strlen in *; nia).
  rewrite take_concat_more by (unfold strlen in *; lia). f_equal. unfold strlen in *. nia.
Qed.

(** write_bytes.c, for a buffer of at least one byte, always ends, with status 0 or 1.  With
    status 0 and nothing printed, the file starts with exactly [numBytes] bytes, repetitions of
    the buffer cut at the end, and what the file had after them is kept. *)
Theorem write_bytes_main_fills malloc fuel a0 path a2 a3 buf p :
  strcmp path (str "--help") <> 0 -> 0 < atoi a3 -> 0 <= atoi a2 ->
  malloc (atoi a3) = Some buf -> strlen buf = atoi a3 -> (Z.to_nat (atoi a2) < fuel)%nat ->
  exists r p', write_bytes_main malloc fuel [a0; path; a2; a3] p = (Ret r, p') /\ (r = 0 \/ r = 1) /\
    (r = 0 -> trace p' = trace p /\ exists n,
       let w := take (Z.to_nat (atoi a2)) (concat (replicate n buf)) in
       strlen w = atoi a2 /\ file_of (view (kern p')) path = overwrite (file_of (view (kern p)) path) 0 w).
Proof.
  intros Hhelp Hb Hn Hmal Hbuf Hfuel.
  cut (wp (write_bytes_main malloc fuel [a0; path; a2; a3]) p (fun o q => exists r, o = Ret r /\ (r = 0 \/ r = 1) /\
    (r = 0 -> trace q = trace p /\ exists n,
       let w := take (Z.to_nat (atoi a2)) (concat (replicate n buf)) in
       strlen w = atoi a2 /\ file_of (view (kern q)) path = overwrite (file_of (view (kern p)) path) 0 w))).
  { intros (o & p' & HR & r & -> & H)%wp_elim. by exists r, p'. }
  unfold write_bytes_main. rewrite (usage_ok 4 [a0; path; a2; a3] path) by done.
  do 3 apply wp_bind, wp_ret. cbv zeta.
  set (numBytes := atoi a2) in *. set (bufSize := atoi a3) in *.
  rewrite wrap_u_id by (pose proof (wrap_s_range 32 (atol a3) eq_refl) as Hr; unfold in_u, in_s in *;
    change (wrap_s 32 (atol a3)) with bufSize in Hr; lia).
  rewrite Hmal. apply wp_bind, wp_fopen; [|intros e k1 _; cbn; exists 1; split_and!; [done|by right|done]].
  intros fd i ino k1 Hmay Hv1. replace (fd =? -1) with false by (destruct Hmay; lia).
  destruct (opened_content _ _ _ _ _ _ Hmay eq_refl) as [Hc1 Hn1]. rewrite <- Hv1 in Hc1, Hn1.
  pose proof (writer_open _ _ _ _ _ _ Hmay) as Hw1. rewrite <- Hv1 in Hw1.
  apply (loop_wp (filling path buf numBytes fd ino (file_of (view (kern p)) path) (trace p))
    (fun tot _ => Z.to_nat (numBytes - tot))); [| |lia].
  2: { split; [done|exact Hn1|lia|exact Hw1|]. exists 0%nat. split; [lia|]. by rewrite take_0. }
  intros tot q HF. destruct (Z.ltb_spec tot numBytes) as [Hlt|Hge].
  - set (thisWrite := min_ bufSize (numBytes - tot)).
    assert (thisWrite = Z.min (strlen buf) (numBytes - tot)) as Hthis.
    { unfold thisWrite, min_. destruct (Z.ltb_spec (numBytes - tot) bufSize); lia. }
    pose proof (fl_range _ _ _ _ _ _ _ _ _ HF) as Hrange.
    apply wp_bind, wp_fwrite.
    + intros j o c k2 Hj _ Hc Hv2.
      assert (strlen (take (Z.to_nat thisWrite) buf) = thisWrite) as Hl
        by (unfold strlen in *; rewrite length_take; lia). rewrite Hl in Hc.
      destruct (Z.eqb_spec c thisWrite) as [->|Hshort]; cbn [negb].
      * rewrite take_ge in Hv2 by (rewrite length_take; lia). rewrite Hthis in Hv2 |- *.
        apply wp_ret. split; [|lia]. apply (filling_write _ _ _ _ _ _ _ _ _ j o); (done || lia).
      * apply wp_bind, wp_printf, wp_ret. exists 1. split_and!; [done|by right|done].
    + intros e k2 Hv2. replace (-1 =? thisWrite) with false by lia. cbn [negb].
      apply wp_bind, wp_printf, wp_ret. exists 1. split_and!; [done|by right|done].
  - destruct HF as [Htr Hnq Hrange _ (n & Htot & Hcont)]. assert (tot = numBytes) as -> by lia.
    apply wp_bind, wp_fclose_any. intros c q2 Ht2 Hn2 Hd2. destruct (c =? -1).
    + apply wp_bind, wp_printf, wp_ret. exists 1. split_and!; [done|by right|done].
    + apply wp_ret. exists 0. split_and!; [done|by left|]. intros _. split; [congruence|]. exists n.
      split; [unfold strlen in *; rewrite length_take, length_repeated; nia|].
      rewrite <- Hcont, (file_of_name _ _ ino) by congruence. unfold content. by rewrite Hd2.
Qed.

(** *** Two appenders at once

    Two processes run the loop of atomic_append.c on the same file; a step is one system call of
    one of them.  [left] counts the rounds to go, [seeked] that the next call is the [write] that
    follows an [lseek]. *)

Record racer := Racer { r_fd : Z; r_left : nat; r_seeked : bool }.

Inductive call (with_append : bool) : K * racer -> K * racer -> Prop :=
| call_append k fd n r k' :
    with_append = true -> k_write fd (str "i") k = (r, k') ->
    call with_append (k, Racer fd (S n) false) (k', Racer fd n false)
| call_seek k fd n r k' :
    with_append = false -> k_lseek fd 0 SEEK_END k = (r, k') ->
    call with_append (k, Racer fd (S n) false) (k', Racer fd (S n) true)
| call_write k fd n r k' :
    with_append = false -> k_write fd (str "i") k = (r, k') ->
    call with_append (k, Racer fd (S n) true) (k', Racer fd n false).

Inductive race (with_append : bool) : K * racer * racer -> K * racer * racer -> Prop :=
| race_left k a b k' a' :
    call with_append (k, a) (k', a') -> race with_append (k, a, b) (k', a', b)
| race_right k a b k' b' :
    call with_append (k, b) (k', b') -> race with_append (k, a, b) (k', a, b').

(** A round of the program, left alone, is these calls. *)
Lemma append_round_calls with_append fd n p p' :
  append_round with_append fd p = (Ret tt, p') ->
  rtc (call with_append) (kern p, Racer fd (S n) false) (kern p', Racer fd n false).
Proof.
  unfold append_round. destruct with_append; intros H.
  - unfold write, syscall, mbind, M_bind, mret, M_ret in H.
    destruct (k_write fd (str "i") (kern p)) as [[c|e] k'] eqn:E; simplify_eq; simpl;
      by eapply rtc_once, call_append.
  - unfold write, lseek, syscall, mbind, M_bind, mret, M_ret in H.
    destruct (k_lseek fd 0 SEEK_END (kern p)) as [[c|e] k1] eqn:E1; cbn [kern] in H;
      destruct (k_write fd (str "i") k1) as [[c2|e2] k2] eqn:E2; simplify_eq; simpl;
      (eapply rtc_l; [by eapply call_seek|]; by eapply rtc_once, call_write).
Qed.

Context `{!ReliableLaws K}.

(** Where the two descriptors stand: two descriptions of one file. *)
Definition racing v fd1 fd2 ino off1 off2 fl : Prop :=
  exists i j, i <> j /\ lookup_fd v fd1 = Some (i, Ofd ino off1 fl) /\ lookup_fd v fd2 = Some (j, Ofd ino off2 fl).

Lemma racing_sym v fd1 fd2 ino off1 off2 fl :
  racing v fd1 fd2 ino off1 off2 fl -> racing v fd2 fd1 ino off2 off1 fl.
Proof. intros (i & j & ? & ? & ?). by exists j, i. Qed.

Lemma racing_write k fd1 fd2 ino off1 off2 fl data r k' :
  racing (view k) fd1 fd2 ino off1 off2 fl -> access fl = O_RDWR -> k_write fd1 data k = (r, k') ->
  let off := if has_flag fl O_APPEND then strlen (content (view k) ino) else off1 in
  racing (view k') fd1 fd2 ino (off + strlen data) off2 fl /\
  content (view k') ino = overwrite (content (view k) ino) (Z.to_nat off) data.
Proof.
  intros (i & j & Hij & H1 & H2) Hacc Hw off.
  destruct (write_full k fd1 data i _ H1) as [k2 Hw2]; [unfold writable; simpl; by rewrite Hacc|].
  rewrite Hw in Hw2. simplify_eq. pose proof (write_law k fd1 data) as HL. rewrite Hw in HL.
  destruct HL as (_ & i' & o' & H1' & _ & Hv). rewrite H1 in H1'. simplify_eq.
  unfold strlen in Hv at 1. rewrite Nat2Z.id, firstn_all in Hv. unfold v_write, write_offset in Hv. simpl in Hv.
  fold off in Hv. rewrite Hv. split; [|by rewrite content_set_ofd, content_set].
  exists i', j. split; [done|]. split.
  - erewrite lookup_set_ofd by (rewrite lookup_set_content; done). by rewrite decide_True.
  - erewrite lookup_set_ofd by (rewrite lookup_set_content; done). by rewrite decide_False.
Qed.

Lemma racing_seek k fd1 fd2 ino off1 off2 fl r k' :
  racing (view k) fd1 fd2 ino off1 off2 fl -> k_lseek fd1 0 SEEK_END k = (r, k') ->
  racing (view k') fd1 fd2 ino (strlen (content (view k) ino)) off2 fl /\
  content (view k') ino = content (view k) ino.
Proof.
  intros (i & j & Hij & H1 & H2) Hs.
  assert (seek_target (Ofd ino off1 fl) 0 SEEK_END (view k) = strlen (content (view k) ino)) as Ht
    by (unfold seek_target; simpl; lia).
  destruct (lseek_full k fd1 0 SEEK_END i _ H1) as [k2 Hs2]; [rewrite Ht; apply strlen_nonneg|].
  rewrite Hs in Hs2. simplify_eq. pose proof (lseek_law k fd1 0 SEEK_END) as HL. rewrite Hs in HL.
  destruct HL as (i' & o' & H1' & _ & _ & Hv). rewrite H1 in H1'. simplify_eq. rewrite Hv, Ht.
  split; [|done]. exists i', j. split; [done|]. unfold v_seek.
  split; erewrite lookup_set_ofd by done; [by rewrite decide_True|by rewrite decide_False].
Qed.

Lemma race_invariant wa (I : K -> racer -> racer -> Prop) k a b k' a' b' :
  (forall k a b k' a', I k a b -> call wa (k, a) (k', a') -> I k' a' b) ->
  (forall k a b, I k a b -> I k b a) ->
  I k a b -> rtc (race wa) (k, a, b) (k', a', b') -> I k' a' b'.
Proof.
  intros Hcall Hsym HI Hrun.
  apply (rtc_invariant (race wa) (fun s => I s.1.1 s.1.2 s.2) (k, a, b) (k', a', b')); [|done|done].
  intros [[k1 a1] b1] [[k2 a2] b2] H1 Hs. inversion Hs; subst; [by eapply Hcall|].
  apply Hsym. eapply Hcall; [by apply Hsym|done].
Qed.

(** with O_APPEND no byte is lost: however the calls of two processes interleave, when both
    are done the file has grown by exactly the bytes of both. *)
Theorem append_race_exact fl k fd1 fd2 ino off1 off2 n1 n2 k' a b :
  has_flag fl O_APPEND = true -> access fl = O_RDWR -> racing (view k) fd1 fd2 ino off1 off2 fl ->
  rtc (race true) (k, Racer fd1 n1 false, Racer fd2 n2 false) (k', a, b) ->
  r_left a = O -> r_left b = O ->
  content (view k') ino = content (view k) ino ++ replicate (n1 + n2) "i"%char.
Proof.
  intros Hfl Hacc Hr Hrun Ha Hb.
  assert ((exists o1 o2, racing (view k') (r_fd a) (r_fd b) ino o1 o2 fl) /\
    r_seeked a = false /\ r_seeked b = false /\
    exists m, (m + r_left a + r_left b)%nat = (n1 + n2)%nat /\
      content (view k') ino = content (view k) ino ++ replicate m "i"%char) as (_ & _ & _ & m & Hm & ->).
  2: { do 2 f_equal. lia. }
  refine (race_invariant true (fun (k' : K) (a b : racer) =>
    (exists o1 o2, racing (view k') (r_fd a) (r_fd b) ino o1 o2 fl) /\
    r_seeked a = false /\ r_seeked b = false /\
    exists m, (m + r_left a + r_left b)%nat = (n1 + n2)%nat /\
      content (view k') ino = content (view k) ino ++ replicate m "i"%char) _ _ _ _ _ _ _ _ _ Hrun).
  - intros k1 a1 b1 k2 a2 ((o1 & o2 & Hr1) & Hsa & Hsb & m & Hm & Hc) Hcall.
    inversion Hcall as [? fd n r ? _ Hw| |]; subst; [|done..]. simpl in *.
    destruct (racing_write _ _ _ _ _ _ _ _ _ _ Hr1 Hacc Hw) as [Hr2 Hc2]. rewrite Hfl in Hc2.
    split_and!; [by eexists _, _|done|done|]. exists (S m). split; [lia|].
    rewrite Hc2. unfold strlen. rewrite Nat2Z.id, overwrite_end, Hc, replicate_S_end. by rewrite app_assoc.
  - intros k1 a1 b1 ((o1 & o2 & Hr1) & Hsa & Hsb & m & Hm & Hc).
    split_and!; [eexists _, _; by apply racing_sym|done|done|]. exists m. split; [lia|done].
  - split_and!; [by eexists _, _|done|done|]. exists O. split; [simpl; lia|by rewrite app_nil_r].
Qed.

(** seeking to the end before each write instead loses bytes, but not more than the other
    process wrote: when both are done, the file has grown by at least the bytes of each one and at
    most the bytes of both. *)
Theorem seek_race_bounds fl k fd1 fd2 ino off1 off2 n1 n2 k' a b :
  has_flag fl O_APPEND = false -> access fl = O_RDWR -> racing (view k) fd1 fd2 ino off1 off2 fl ->
  rtc (race false) (k, Racer fd1 n1 false, Racer fd2 n2 false) (k', a, b) ->
  r_left a = O -> r_left b = O ->
  strlen (content (view k) ino) + Z.of_nat (Nat.max n1 n2) <= strlen (content (view k') ino)
    <= strlen (content (view k) ino) + Z.of_nat (n1 + n2).
Proof.
  intros Hfl Hacc Hr Hrun Ha Hb. set (base := strlen (content (view k) ino)) in *.
  pose (at_ (L o : Z) (x : racer) (n : nat) := (r_left x <= n)%nat /\ base + Z.of_nat n - Z.of_nat (r_left x) <= L /\
    (r_seeked x = true -> base + Z.of_nat n - Z.of_nat (r_left x) <= o <= L)).
  pose (I k' a b := exists o1 o2 na nb, racing (view k') (r_fd a) (r_fd b) ino o1 o2 fl /\
    (na = n1 /\ nb = n2 \/ na = n2 /\ nb = n1) /\
    let L := strlen (content (view k') ino) in
    at_ L o1 a na /\ at_ L o2 b nb /\
    L <= base + Z.of_nat (n1 + n2) - Z.of_nat (r_left a) - Z.of_nat (r_left b)).
  assert (I k' a b) as (o1 & o2 & na & nb & _ & Hn & (_ & ? & _) & (_ & ? & _) & ?); [|lia].
  refine (race_invariant false I _ _ _ _ _ _ _ _ _ Hrun).
  - intros k1 a1 b1 k2 a2 (o1 & o2 & na & nb & Hr1 & Hn & (Hla & HLa & Hsa) & HB & HL) Hcall.
    inversion Hcall as [|? fd n r ? _ Hs|? fd n r ? _ Hw]; subst; [done|..]; simpl in *.
    + destruct (racing_seek _ _ _ _ _ _ _ _ _ Hr1 Hs) as [Hr2 Hc2]. unfold I. rewrite Hc2.
      eexists _, _, na, nb. split_and!; [exact Hr2|done| |exact HB|done]. unfold at_. simpl. lia.
    + destruct (racing_write _ _ _ _ _ _ _ _ _ _ Hr1 Hacc Hw) as [Hr2 Hc2]. rewrite Hfl in Hr2, Hc2.
      specialize (Hsa eq_refl). pose proof (strlen_nonneg (content (view k) ino)) as Hbase. fold base in Hbase.
      assert (strlen (content (view k2) ino) = Z.max (strlen (content (view k1) ino)) (o1 + 1)) as HL2.
      { rewrite Hc2. unfold strlen in *. rewrite overwrite_length by done. simpl. lia. }
      unfold I. rewrite HL2. eexists _, _, na, nb. destruct HB as (Hb1 & Hb2 & Hb3).
      split_and!; [exact Hr2|done|..]; unfold at_; simpl; try lia; (split_and!; [lia..|]); try done.
      intros E. specialize (Hb3 E). lia.
  - intros k1 a1 b1 (o1 & o2 & na & nb & Hr1 & Hn & HA & HB & HL).
    exists o2, o1, nb, na. split; [by apply racing_sym|]. split; [tauto|]. split; [done|]. split; [done|lia].
  - exists off1, off2, n1, n2. split; [done|]. split; [by left|]. unfold at_. simpl. split_and!; try done; lia.
Qed.
End Specs.

(** ** Witnesses *)

Lemma write_bytes_main_fills_witness :
  exists r p', write_bytes_main (fun _ => Some (str "ab")) 20 [str "wb"; str "src"; str "3"; str "2"] (disk (str "01234"))
    = (Ret r, p') /\ r = 0 /\ content (kern p') 1 = str "aba34".
Proof.
  destruct (write_bytes_main_fills (fun _ => Some (str "ab")) 20 (str "wb") (str "src") (str "3") (str "2")
    (str "ab") (disk (str "01234"))) as (r & p' & HR & _ & _);
    [by vm_compute|by vm_compute|by vm_compute|done|by vm_compute|by_decide|].
  exists r, p'. split; [exact HR|]. vm_compute in HR. by injection HR as <- <-.
Defined.

Definition two_fds (fl : Z) : fsv :=
  Fsv {[ str "f" := 1 ]} {[ 1 := str "x" ]} {[ 0 := Ofd 1 0 fl; 1 := Ofd 1 0 fl ]} {[ 3 := 0; 4 := 1 ]}.

Lemma two_fds_racing fl : racing (view (two_fds fl)) 3 4 1 0 0 fl.
Proof. by exists 0, 1. Qed.

Lemma append_race_exact_witness :
  exists k' a b, rtc (race true) (two_fds 1090, Racer 3 1 false, Racer 4 1 false) (k', a, b) /\
    content k' 1 = str "xii".
Proof.
  eexists _, _, _.
  assert (rtc (race true) (two_fds 1090, Racer 3 1 false, Racer 4 1 false)
    ((k_write 4 (str "i") (k_write 3 (str "i") (two_fds 1090)).2).2, Racer 3 0 false, Racer 4 0 false)) as Hrun.
  { eapply rtc_l; [eapply race_left, call_append; [done|apply surjective_pairing]|].
    apply rtc_once, race_right. eapply call_append; [done|apply surjective_pairing]. }
  split; [exact Hrun|]. exact (append_race_exact 1090 (two_fds 1090) 3 4 1 0 0 1 1 _ _ _ eq_refl eq_refl
    (two_fds_racing _) Hrun eq_refl eq_refl).
Defined.

(** Both seek before either writes: one of the two bytes is lost. *)
Lemma seek_race_bounds_witness :
  exists k' a b, rtc (race false) (two_fds 66, Racer 3 1 false, Racer 4 1 false) (k', a, b) /\
    strlen (content k' 1) = 2 /\ 2 <= strlen (content k' 1) <= 3.
Proof.
  eexists _, _, _.
  assert (rtc (race false) (two_fds 66, Racer 3 1 false, Racer 4 1 false)
    ((k_write 4 (str "i") (k_write 3 (str "i") (k_lseek 4 0 SEEK_END (k_lseek 3 0 SEEK_END (two_fds 66)).2).2).2).2,
     Racer 3 0 false, Racer 4 0 false)) as Hrun.
  { eapply rtc_l; [eapply race_left, call_seek; [done|apply surjective_pairing]|].
    eapply rtc_l; [eapply race_right, call_seek; [done|apply surjective_pairing]|].
    eapply rtc_l; [eapply race_left, call_write; [done|apply surjective_pairing]|].
    apply rtc_once, race_right. eapply call_write; [done|apply surjective_pairing]. }
  split; [exact Hrun|]. split; [by vm_compute|].
  exact (seek_race_bounds 66 (two_fds 66) 3 4 1 0 0 1 1 _ _ _ eq_refl eq_refl (two_fds_racing _) Hrun eq_refl eq_refl).
Defined.
