(* ===== verification/Tail.v ===== *)
(** * tail

    tail.c (13-file-io-buffering).  The file is read from its start, a buffer at a time, until more
    newlines have been counted than lines are wanted or it ends; then the program seeks, from the
    end, to what follows the newlines to be skipped, and copies the rest.  getopt is a parameter:
    the options it delivers and the operands it leaves.  [buf_addr] is the address of the buffer. *)

From Stdlib Require Import ZArith Lia String Ascii.
From S2P Require Import Prelude CString Kernel Files FileCopy.

(** An option with its argument, or the character of one that is unknown or lacks its argument. *)
Inductive opt := Opt (c : ascii) (optarg : bytes) | BadOpt (optopt : Z).

Definition BUFFER_SIZE : Z := 1024 * 5.
Definition DEFAULT_NUMBER_LINES : Z := 10.

(** An [int], where arithmetic that leaves the type is undefined. *)
Definition an_int {S} (z : Z) : M S Z := if (INT_MIN <=? z) && (z <=? INT_MAX) then mret z else undef_.

Section Program.
Context {K : Type} `{!FileIO K} (buf_addr : Z).

Definition print_usage (prog : bytes) : M (proc K) unit := eprintf (str "Usage: " ++ prog ++ str " [-n lines] <file>" ++ [NL]).

Definition bad_option (optopt : Z) : M (proc K) unit :=
  if optopt =? ord "n" then eprintf (str "Option -" ++ [chr optopt] ++ str " requires an argument" ++ [NL])
  else if (32 <=? optopt) && (optopt <=? 126) then eprintf (str "Unknown option  `-" ++ [chr optopt] ++ str "'." ++ [NL])
  else eprintf (str "Unknown option character `\x" ++ hex_number optopt ++ str "'." ++ [NL]).

(** The result is [number_lines] and the file name, or nothing for a status of 1. *)
Fixpoint parse_options (prog : bytes) (opts : list opt) (operands : list bytes) (number_lines : Z)
    : M (proc K) (option (Z * bytes)) :=
  match opts with
  | Opt c optarg :: opts' =>
      if Ascii.eqb c "n" then parse_options prog opts' operands (atoi optarg) else abort_
  | BadOpt optopt :: _ => bad_option optopt ;; mret None
  | [] =>
      match operands with
      | [filename] => mret (Some (number_lines, filename))
      | _ => eprintf (str "Positional argument filename not specified" ++ [NL]) ;; print_usage prog ;; mret None
      end
  end.

(** [strchr] in an array of bytes: the index of [c], none before a null byte, or a read past the end. *)
Fixpoint strchr_in (s : bytes) (c : ascii) : option (option nat) :=
  match s with
  | [] => None
  | x :: s' =>
      if Ascii.eqb x c then Some (Some 0%nat)
      else if Ascii.eqb x NUL then Some None
      else match strchr_in s' c with Some r => Some (S <$> r) | None => None end
  end.

Fixpoint str_occurrences (fuel : nat) (s : bytes) (c : ascii) (count : Z) : M (proc K) Z :=
  match fuel with
  | O => fun p => (NoFuel, p)
  | Datatypes.S fuel' =>
      pch ← the (strchr_in s c);
      match pch with
      | None => mret count
      | Some i => str_occurrences fuel' (drop (S i) s) c (count + 1)
      end
  end.

(** The offset in the array of what follows the [n]th [c], from [off] on; [pch] is what the last
    [strchr] delivered, nothing at first. *)
Fixpoint str_occurrence_offset (s : bytes) (c : ascii) (n : nat) (off : Z) (pch : option Z) : M (proc K) (option Z) :=
  match n with
  | O => pch ← the pch; mret (Some (pch + 1))
  | Datatypes.S n' =>
      r ← the (strchr_in s c);
      match r with
      | None => mret None
      | Some i => str_occurrence_offset (drop (S i) s) c n' (off + Z.of_nat i + 1) (Some (off + Z.of_nat i))
      end
  end.

Definition tail_file (fuel : nat) (fd : Z) : M (proc K) Z :=
  loop fuel (fun _ =>
    r ← read fd BUFFER_SIZE;
    let '(bytes_read, bs) := r in
    if 0 <? bytes_read then write STDOUT_FILENO bs ;; mret (inl tt) else mret (inr 0)) tt.

(** The loop that counts: the contents of the array, [offset] and [curline]. *)
Definition count_lines (fuel : nat) (fd number_lines : Z) : M (proc K) (bytes * Z * Z) :=
  loop fuel (fun '(buf, offset, curline) =>
    r ← read fd BUFFER_SIZE;
    let '(numbytes, bs) := r in
    let buf := bs ++ drop (length bs) buf in
    offset ← an_int (offset - numbytes);
    count ← str_occurrences (S (length buf)) buf NL 0;
    curline ← an_int (curline + count);
    mret (if negb (numbytes =? BUFFER_SIZE) then inr (buf, offset, curline)
          else if (curline <=? number_lines) && (numbytes =? BUFFER_SIZE) then inl (buf, offset, curline)
          else inr (buf, offset, curline))) (replicate (Z.to_nat BUFFER_SIZE) NUL, 0, 0).

Definition tail_main (fuel : nat) (prog : bytes) (opts : list opt) (operands : list bytes) : M (proc K) Z :=
  o ← parse_options prog opts operands DEFAULT_NUMBER_LINES;
  match o with
  | None => print_usage prog ;; mret 1
  | Some (number_lines, filename) =>
      fd ← open_ filename O_RDONLY 0;
      if fd =? -1 then eprintf (str "Unable to open '" ++ filename ++ str "'" ++ [NL]) ;; mret 1
      else
        c ← count_lines fuel fd number_lines;
        let '(buf, offset, curline) := c in
        if number_lines <=? curline then
          n ← an_int (curline - number_lines);
          nlptr ← str_occurrence_offset buf NL (Z.to_nat n) 0 None;
          let diff := match nlptr with Some i => i | None => s32 (0 - buf_addr) end in
          offset ← an_int (offset + diff);
          lseek fd offset SEEK_END ;;
          tail_file fuel fd
        else
          lseek fd 0 SEEK_SET ;;
          tail_file fuel fd
  end.
End Program.

(** ** What it prints *)

Fixpoint newlines (s : bytes) : Z :=
  match s with [] => 0 | c :: s' => (if Ascii.eqb c NL then 1 else 0) + newlines s' end.

Lemma newlines_nonneg s : 0 <= newlines s.
Proof. induction s as [|c s IH]; simpl; [lia|]. destruct (Ascii.eqb c NL); lia. Qed.

Lemma newlines_le s : newlines s <= strlen s.
Proof. unfold strlen. induction s as [|c s IH]; simpl; [done|]. destruct (Ascii.eqb c NL); lia. Qed.

Lemma newlines_line s s' : NL ∉ s -> newlines (s ++ NL :: s') = 1 + newlines s'.
Proof.
  induction s as [|c s IH]; [done|]. intros [Hc Hs]%not_elem_of_cons. cbn [newlines app].
  rewrite (proj2 (Ascii.eqb_neq c NL)), IH by congruence. lia.
Qed.

Lemma newlines_none s : NL ∉ s -> newlines s = 0.
Proof.
  induction s as [|c s IH]; [done|]. intros [Hc Hs]%not_elem_of_cons. cbn [newlines].
  by rewrite (proj2 (Ascii.eqb_neq c NL)), IH by congruence.
Qed.

(** Text ends its first line, or is a part of a line. *)
Lemma first_line s : NL ∉ s \/ exists s1 s2, s = s1 ++ NL :: s2 /\ NL ∉ s1.
Proof.
  destruct (decide (NL ∈ s)) as [Hin|]; [right|by left]. by apply list_elem_of_split_l in Hin.
Qed.

Lemma strchr_in_line s s' : NL ∉ s -> NUL ∉ s -> strchr_in (s ++ NL :: s') NL = Some (Some (length s)).
Proof.
  induction s as [|c s IH]; [done|]. intros [Hc Hs]%not_elem_of_cons [Hc' Hs']%not_elem_of_cons. cbn [strchr_in app].
  by rewrite !(proj2 (Ascii.eqb_neq c _)), IH by congruence.
Qed.

Lemma strchr_in_end s s' : NL ∉ s -> NUL ∉ s -> strchr_in (s ++ NUL :: s') NL = Some None.
Proof.
  induction s as [|c s IH]; [done|]. intros [Hc Hs]%not_elem_of_cons [Hc' Hs']%not_elem_of_cons. cbn [strchr_in app].
  by rewrite !(proj2 (Ascii.eqb_neq c _)), IH by congruence.
Qed.

Lemma strchr_in_past s : NL ∉ s -> NUL ∉ s -> strchr_in s NL = None.
Proof.
  induction s as [|c s IH]; [done|]. intros [Hc Hs]%not_elem_of_cons [Hc' Hs']%not_elem_of_cons. cbn [strchr_in].
  by rewrite !(proj2 (Ascii.eqb_neq c _)), IH by congruence.
Qed.

Section Correct.
Context {K : Type} `{!FileIO K, !FileLaws K, !ReliableLaws K}.
Implicit Types (p q : proc K).

Lemma drop_line {A} (s s' : list A) x : drop (S (length s)) (s ++ x :: s') = s'.
Proof. rewrite (cons_middle x), app_assoc. apply drop_app_length'. rewrite length_app. simpl. lia. Qed.

Lemma str_occurrences_ok fuel s rest count p :
  NUL ∉ s -> (length s < fuel)%nat -> str_occurrences fuel (s ++ NUL :: rest) NL count p = (Ret (count + newlines s), p).
Proof.
  revert s count. induction fuel as [|fuel IH]; intros s count Hs Hf; [lia|]. cbn [str_occurrences].
  destruct (first_line s) as [Hn|(s1 & s2 & -> & Hn)].
  - by rewrite strchr_in_end, newlines_none, Z.add_0_r by done.
  - rewrite not_elem_of_app, not_elem_of_cons in Hs. destruct Hs as (Hs1 & _ & Hs2).
    rewrite <- app_assoc, <- app_comm_cons, strchr_in_line, newlines_line by done.
    rewrite length_app in Hf. cbn in Hf. cbn [the]. unfold mbind, M_bind. cbn. 
    by rewrite drop_line, IH, Z.add_assoc by (done || lia).
Qed.

Lemma str_occurrences_past fuel s count p :
  NUL ∉ s -> (length s < fuel)%nat -> str_occurrences fuel s NL count p = (Undef, p).
Proof.
  revert s count. induction fuel as [|fuel IH]; intros s count Hs Hf; [lia|]. cbn [str_occurrences].
  destruct (first_line s) as [Hn|(s1 & s2 & -> & Hn)].
  - by rewrite strchr_in_past by done.
  - rewrite not_elem_of_app, not_elem_of_cons in Hs. destruct Hs as (Hs1 & _ & Hs2).
    rewrite strchr_in_line by done. rewrite length_app in Hf. cbn in Hf.
    unfold mbind, M_bind. cbn. by rewrite drop_line, IH by (done || lia).
Qed.

(** The offset of what follows the [n]th newline. *)
Lemma str_occurrence_offset_ok n s rest off pch p :
  NUL ∉ s -> (1 <= n)%nat -> Z.of_nat n <= newlines s ->
  exists s1 s2, s = s1 ++ NL :: s2 /\ newlines s2 = newlines s - Z.of_nat n /\
    str_occurrence_offset (s ++ NUL :: rest) NL n off pch p = (Ret (Some (off + Z.of_nat (length s1) + 1)), p).
Proof.
  revert s off pch. induction n as [|n IH]; intros s off pch Hs Hn Hle; [lia|]. cbn [str_occurrence_offset].
  destruct (first_line s) as [Hno|(s1 & s2 & -> & Hno)]; [rewrite newlines_none in Hle by done; lia|].
  rewrite not_elem_of_app, not_elem_of_cons in Hs. destruct Hs as (Hs1 & _ & Hs2).
  rewrite newlines_line in Hle |- * by done.
  rewrite <- app_assoc, <- app_comm_cons, strchr_in_line by done.
  unfold mbind, M_bind. cbn [the mret M_ret]. cbn. rewrite drop_line. destruct n as [|n].
  - exists s1, s2. split_and!; [done|lia|]. cbn. do 3 f_equal.
  - destruct (IH s2 (off + Z.of_nat (length s1) + 1) (Some (off + Z.of_nat (length s1)))) as (t1 & t2 & -> & Ht & E); [done|lia|lia|].
    exists (s1 ++ NL :: t1), t2. split_and!; [by rewrite <- app_assoc|lia|].
    rewrite E. do 3 f_equal. rewrite length_app. cbn. lia.
Qed.

(** The copy of what is left of the file, to a standard output that is a file too. *)
Lemma tail_file_spec fuel fd data ino_s ino_o start off0 fl p :
  copying data fd STDOUT_FILENO ino_s ino_o start off0 fl (view (kern p)) -> 0 <= off0 ->
  has_flag fl O_APPEND = false -> negb (access fl =? O_RDONLY) = true -> (length data < fuel)%nat ->
  wp (tail_file fuel fd) p (fun o q => o = Ret 0 /\ trace q = trace p /\
    content (view (kern q)) ino_o = overwrite (content (view (kern p)) ino_o) (Z.to_nat off0) (drop (Z.to_nat start) data)).
Proof.
  intros Hc Hoff0 Hfl Hw Hfuel. set (old := content (view (kern p)) ino_o).
  pose proof (cp_off _ _ _ _ _ _ _ _ _ Hc) as Hstart.
  apply (loop_wp
    (fun _ q => trace q = trace p /\ exists off, copying data fd STDOUT_FILENO ino_s ino_o off (off0 + (off - start)) fl (view (kern q)) /\
       start <= off /\ content (view (kern q)) ino_o = overwrite old (Z.to_nat off0) (drop (Z.to_nat start) (take (Z.to_nat off) data)))
    (fun _ q => unread fd data (view (kern q)))).
  2: { split; [done|]. exists start. rewrite Z.sub_diag, Z.add_0_r. split_and!; [done|lia|].
       rewrite drop_ge by (rewrite length_take; lia). done. }
  2: { unfold unread. destruct Hc as [_ _ _ (i & j & _ & -> & _)]. simpl. lia. }
  intros _ q (Ht & off & Hcq & Hle & Hcont).
  destruct (cp_fds _ _ _ _ _ _ _ _ _ Hcq) as (i & j & Hij & Hin & Hout). pose proof (cp_off _ _ _ _ _ _ _ _ _ Hcq) as Hoff.
  apply wp_bind. eapply wp_read_full; [exact Hin|done|done|]. intros bs k1 Ebs Hv1. cbn [o_off o_ino] in Ebs.
  rewrite (cp_data _ _ _ _ _ _ _ _ _ Hcq) in Ebs.
  assert (bs `prefix_of` drop (Z.to_nat off) (content (view (kern q)) ino_s)) as Hpre.
  { rewrite (cp_data _ _ _ _ _ _ _ _ _ Hcq), Ebs. apply prefix_take. }
  destruct (copying_read _ _ _ _ _ _ _ _ _ _ _ _ _ Hcq Hin Hpre Hv1) as (Hcq1 & Htake & Hcont1 & _).
  destruct (Z.ltb_spec 0 (strlen bs)) as [Hpos|Hneg].
  - destruct (cp_fds _ _ _ _ _ _ _ _ _ Hcq1) as (i1 & j1 & _ & _ & Hout1).
    apply wp_bind. eapply wp_write_full; [exact Hout1|exact Hw|]. intros k2 Hv2. cbn [kern] in Hv2.
    destruct (copying_write _ _ _ _ _ _ _ _ _ _ _ _ _ Hcq1 Hout1 Hv2 Hfl) as (Hcq2 & Hcont2 & _).
    apply wp_ret. cbn [kern trace]. split.
    + split; [done|]. exists (off + strlen bs). split_and!; [|lia|].
      * by replace (off0 + (off + strlen bs - start)) with (off0 + (off - start) + strlen bs) by lia.
      * rewrite Hcont2, Hcont1, Hcont, Htake, drop_app_le by (rewrite length_take; unfold strlen in *; lia).
        rewrite <- overwrite_twice. f_equal. rewrite length_drop, length_take. unfold strlen in *. lia.
    + rewrite (unread_same _ _ _ _ _ _ _ _ _ _ _ Hcq1 Hcq2). by eapply unread_less.
  - assert (bs = []) as E by (apply strlen_nil; pose proof (strlen_nonneg bs); lia).
    apply wp_ret. split_and!; [done|done|]. cbn [kern]. rewrite Hcont1, Hcont, take_ge; [done|].
    rewrite Ebs in E. apply (f_equal length) in E. rewrite length_take, length_drop in E. cbn in E. unfold BUFFER_SIZE in E. lia.
Qed.

(** The lines wanted: the argument of the last [-n]. *)
Definition wanted (nums : list bytes) : Z := from_option atoi DEFAULT_NUMBER_LINES (last nums).

Lemma parse_options_ok prog nums file n p :
  parse_options prog (Opt "n" <$> nums) [file] n p = (Ret (Some (from_option atoi n (last nums), file)), p).
Proof.
  revert n. induction nums as [|s nums IH]; intros n; [done|]. cbn [fmap list_fmap parse_options].
  change (Ascii.eqb "n" "n") with true. cbv iota. rewrite IH. destruct nums as [|s' nums]; [done|].
  change (last (s :: s' :: nums)) with (last (s' :: nums)).
  by destruct (last (s' :: nums)) eqn:E; [|apply last_None in E].
Qed.

(** A file to show and a standard output that is another file. *)
Record showing (file d : bytes) (ino_s ino_o off0 fl : Z) (v : fsv) : Prop := {
  sh_name : v_names v !! file = Some ino_s;
  sh_data : v_data v !! ino_s = Some d;
  sh_out : exists j, lookup_fd v STDOUT_FILENO = Some (j, Ofd ino_o off0 fl);
  sh_ino : ino_s <> ino_o;
  sh_off : 0 <= off0;
  sh_append : has_flag fl O_APPEND = false;
  sh_write : negb (access fl =? O_RDONLY) = true
}.

Lemma showing_opened file d ino_s ino_o off0 fl v fd i ino :
  showing file d ino_s ino_o off0 fl v -> may_open file O_RDONLY fd i ino v ->
  copying d fd STDOUT_FILENO ino_s ino_o 0 off0 fl (v_open file O_RDONLY fd i ino v) /\
  content (v_open file O_RDONLY fd i ino v) ino_o = content v ino_o.
Proof.
  intros [Hn Hd (j & Hj) Hi Ho _ _] Hmay. assert (ino = ino_s) as ->.
  { destruct Hmay as (_ & _ & _ & [?|[? _]]); congruence. }
  destruct (lookup_v_open_ne _ _ _ _ _ _ _ _ _ Hmay Hj) as (Hj' & Hij & _). split.
  - split; [done| |unfold strlen; lia|].
    + unfold content. simpl. rewrite lookup_insert_eq. simpl. unfold content. by rewrite Hd.
    + exists i, j. split_and!; [done|apply lookup_v_open|done].
  - unfold content. simpl. by rewrite lookup_insert_ne.
Qed.

(** The first buffer of the file. *)
Lemma count_lines_ok fuel fd n d ino_s ino_o off0 fl p :
  copying d fd STDOUT_FILENO ino_s ino_o 0 off0 fl (view (kern p)) -> NUL ∉ d -> (0 < fuel)%nat ->
  wp (count_lines fuel fd n) p (fun o q => trace q = trace p /\
    if BUFFER_SIZE <=? strlen d then o = Undef
    else o = Ret (d ++ replicate (Z.to_nat (BUFFER_SIZE - strlen d)) NUL, - strlen d, newlines d) /\
         copying d fd STDOUT_FILENO ino_s ino_o (strlen d) off0 fl (view (kern q)) /\
         content (view (kern q)) ino_o = content (view (kern p)) ino_o).
Proof.
  intros Hc Hnul Hf. destruct fuel as [|fuel]; [lia|]. unfold count_lines. rewrite loop_S.
  destruct (cp_fds _ _ _ _ _ _ _ _ _ Hc) as (i & j & Hij & Hin & Hout).
  apply wp_bind, wp_bind. eapply wp_read_full; [exact Hin|done|done|]. intros bs k1 Ebs Hv1. cbn [o_off o_ino] in Ebs.
  rewrite (cp_data _ _ _ _ _ _ _ _ _ Hc), drop_0 in Ebs.
  assert (bs `prefix_of` drop (Z.to_nat 0) (content (view (kern p)) ino_s)) as Hpre.
  { rewrite (cp_data _ _ _ _ _ _ _ _ _ Hc), Ebs, drop_0. apply prefix_take. }
  destruct (copying_read _ _ _ _ _ _ _ _ _ _ _ _ _ Hc Hin Hpre Hv1) as (Hc1 & _ & Hcont1 & _).
  assert (NUL ∉ bs) as Hnb.
  { rewrite Ebs. intros (x & Hx)%list_elem_of_lookup. apply Hnul. apply lookup_take_Some in Hx as [Hx _].
    by eapply list_elem_of_lookup_2. }
  assert (strlen bs = Z.min BUFFER_SIZE (strlen d)) as Hlen by (rewrite Ebs; unfold strlen, BUFFER_SIZE; rewrite length_take; lia).
  rewrite drop_replicate. replace (Z.to_nat BUFFER_SIZE - length bs)%nat with (Z.to_nat (BUFFER_SIZE - strlen bs)) by (unfold strlen; lia).
  unfold an_int. rewrite (proj2 (Z.leb_le INT_MIN _)), (proj2 (Z.leb_le _ INT_MAX)) by (unfold INT_MIN, INT_MAX, BUFFER_SIZE, strlen in *; lia).
  apply wp_bind, wp_ret, wp_bind. destruct (Z.leb_spec BUFFER_SIZE (strlen d)) as [Hbig|Hsmall].
  - replace (BUFFER_SIZE - strlen bs) with 0 by lia. rewrite app_nil_r.
    eapply wp_intro; [apply str_occurrences_past; [done|lia]|]. done.
  - assert (bs = d) as -> by (rewrite Ebs; apply take_ge; unfold strlen in *; lia).
    replace (Z.to_nat (BUFFER_SIZE - strlen d)) with (S (Z.to_nat (BUFFER_SIZE - strlen d - 1))) by lia. cbn [replicate].
    eapply wp_intro; [apply str_occurrences_ok; [done|rewrite length_app; lia]|].
    pose proof (newlines_nonneg d). pose proof (newlines_le d). cbv beta iota.
    rewrite (proj2 (Z.leb_le INT_MIN _)), (proj2 (Z.leb_le _ INT_MAX)) by (unfold INT_MIN, INT_MAX, BUFFER_SIZE, strlen in *; lia).
    apply wp_bind, wp_ret, wp_ret. rewrite (proj2 (Z.eqb_neq _ _)) by lia. cbn [negb]. apply wp_ret. split_and!; done.
Qed.

Lemma an_int_ok {S A} z (k : Z -> M S A) s Q : INT_MIN <= z <= INT_MAX -> wp (k z) s Q -> wp (z ← an_int z; k z) s Q.
Proof.
  intros Hz Hk. unfold an_int. rewrite (proj2 (Z.leb_le INT_MIN _)), (proj2 (Z.leb_le _ INT_MAX)) by lia. by apply wp_bind, wp_ret.
Qed.

Lemma seek_and_show fuel fd d ino_s ino_o off0 fl pos off whence p :
  copying d fd STDOUT_FILENO ino_s ino_o (strlen d) off0 fl (view (kern p)) -> 0 <= off0 ->
  has_flag fl O_APPEND = false -> negb (access fl =? O_RDONLY) = true -> (length d < fuel)%nat ->
  0 <= pos <= strlen d -> seek_target (Ofd ino_s (strlen d) O_RDONLY) off whence (view (kern p)) = pos ->
  wp (lseek fd off whence ;; tail_file fuel fd) p (fun o q => o = Ret 0 /\ trace q = trace p /\
    content (view (kern q)) ino_o = overwrite (content (view (kern p)) ino_o) (Z.to_nat off0) (drop (Z.to_nat pos) d)).
Proof.
  intros Hc Hoff Hfl Hw Hf Hpos Htgt. destruct (cp_fds _ _ _ _ _ _ _ _ _ Hc) as (i & j & _ & Hin & _).
  apply wp_bind. eapply wp_lseek_full; [exact Hin|rewrite Htgt; lia|]. intros k2 Hv2. rewrite Htgt in Hv2.
  destruct (copying_seek_in _ _ _ _ _ _ _ _ _ _ _ _ _ Hc Hin Hv2 Hpos) as (Hc2 & Hcont2 & _).
  eapply wp_mono; [by apply (tail_file_spec fuel fd d ino_s ino_o pos off0 fl)|].
  intros o q' (-> & Ht' & Hc'). cbn [kern trace] in *. split_and!; [done|done|]. by rewrite Hc', Hcont2.
Qed.

(** tail shows the last lines.  For a text file [d] of less than 5120 bytes without null bytes,
    shown on a standard output that is another file, and [n >= 0] lines wanted, when no call
    fails: with fewer newlines than [n], all of [d] is written; with more, what follows one of its
    newlines and has [n] of them itself; with exactly [n], the program reads a pointer that was
    not set.  A file of 5120 bytes or more without null bytes is searched past the end of the
    buffer. *)
Theorem tail_prints buf_addr fuel prog nums file d ino_s ino_o off0 fl p :
  showing file d ino_s ino_o off0 fl (view (kern p)) -> NUL ∉ d -> 0 <= wanted nums -> (length d < fuel)%nat ->
  exists o p', tail_main buf_addr fuel prog (Opt "n" <$> nums) [file] p = (o, p') /\ trace p' = trace p /\
    if (BUFFER_SIZE <=? strlen d) || (newlines d =? wanted nums) then o = Undef
    else o = Ret 0 /\ exists shown,
      content (view (kern p')) ino_o = overwrite (content (view (kern p)) ino_o) (Z.to_nat off0) shown /\
      (newlines d < wanted nums -> shown = d) /\
      (wanted nums < newlines d -> exists skipped, d = skipped ++ [NL] ++ shown /\ newlines shown = wanted nums).
Proof.
  intros Hsh Hnul Hn Hfuel.
  cut (wp (tail_main buf_addr fuel prog (Opt "n" <$> nums) [file]) p (fun o p' => trace p' = trace p /\
    if (BUFFER_SIZE <=? strlen d) || (newlines d =? wanted nums) then o = Undef
    else o = Ret 0 /\ exists shown,
      content (view (kern p')) ino_o = overwrite (content (view (kern p)) ino_o) (Z.to_nat off0) shown /\
      (newlines d < wanted nums -> shown = d) /\
      (wanted nums < newlines d -> exists skipped, d = skipped ++ [NL] ++ shown /\ newlines shown = wanted nums))).
  { intros (o & p' & E & H)%wp_elim. exists o, p'. by split. }
  unfold tail_main. apply wp_bind. eapply wp_intro; [apply parse_options_ok|]. fold (wanted nums). cbv iota.
  apply wp_bind, wp_open_full; [left; by rewrite (sh_name _ _ _ _ _ _ _ Hsh)|]. intros fd i ino k1 Hmay Hv1.
  replace (fd =? -1) with false by (destruct Hmay; lia).
  destruct (showing_opened _ _ _ _ _ _ _ _ _ _ Hsh Hmay) as [Hc Hold]. rewrite <- Hv1 in Hc, Hold.
  apply wp_bind. eapply wp_mono; [apply (count_lines_ok fuel fd (wanted nums) d ino_s ino_o off0 fl (Proc k1 (errno p) (trace p))); [done..|lia]|].
  intros o q [Ht Hq]. destruct (Z.leb_spec BUFFER_SIZE (strlen d)) as [Hbig|Hsmall]; cbn [orb].
  { by rewrite Hq. }
  destruct Hq as (-> & Hcq & Hcont). cbv beta iota. cbn [trace kern] in *. rewrite Hold in Hcont.
  destruct Hsh as [_ _ _ _ Hoff Happ Hwr]. pose proof (newlines_nonneg d). pose proof (newlines_le d).
  destruct (Z.leb_spec (wanted nums) (newlines d)) as [Hge|Hlt].
  - apply an_int_ok; [unfold INT_MIN, INT_MAX, BUFFER_SIZE in *; lia|].
    destruct (Z.eqb_spec (newlines d) (wanted nums)) as [->|Hne].
    { rewrite Z.sub_diag. apply wp_bind. by eapply wp_intro. }
    replace (Z.to_nat (BUFFER_SIZE - strlen d)) with (S (Z.to_nat (BUFFER_SIZE - strlen d - 1))) by lia. cbn [replicate].
    destruct (str_occurrence_offset_ok (Z.to_nat (newlines d - wanted nums)) d (replicate (Z.to_nat (BUFFER_SIZE - strlen d - 1)) NUL) 0 None q)
      as (s1 & s2 & Hd & Hs2 & E); [done|lia|lia|].
    apply wp_bind. eapply wp_intro; [exact E|]. cbv beta iota zeta.
    assert (strlen d = Z.of_nat (length s1) + 1 + strlen s2) as Hl by (rewrite Hd; unfold strlen; rewrite length_app; cbn; lia).
    pose proof (strlen_nonneg s2). apply an_int_ok; [unfold INT_MIN, INT_MAX, BUFFER_SIZE, strlen in *; lia|].
    eapply wp_mono; [apply (seek_and_show fuel fd d ino_s ino_o off0 fl (Z.of_nat (length s1) + 1)); try done; [lia|]|].
    + unfold seek_target. cbn. rewrite (cp_data _ _ _ _ _ _ _ _ _ Hcq). lia.
    + intros o q' (-> & Ht' & Hc'). split; [congruence|]. split; [done|]. exists s2. split_and!; [|lia|].
      * rewrite Hc', Hcont, Hd. f_equal. replace (Z.to_nat (Z.of_nat (length s1) + 1)) with (S (length s1)) by lia. apply drop_line.
      * intros _. exists s1. split; [done|lia].
  - rewrite (proj2 (Z.eqb_neq _ _)) by lia.
    eapply wp_mono; [apply (seek_and_show fuel fd d ino_s ino_o off0 fl 0); try done; unfold strlen; lia|].
    intros o q' (-> & Ht' & Hc'). split; [congruence|]. split; [done|]. exists d. split_and!; [by rewrite Hc', Hcont|done|lia].
Qed.
End Correct.

(** *** Runs *)

(** A disk with a text, whose standard output is a file. *)
Definition shown_disk (text : bytes) : proc fsv :=
  Proc (Fsv {[ str "notes" := 1; str "out" := 2 ]} {[ 1 := text; 2 := [] ]} {[ 0 := Ofd 2 0 O_WRONLY ]} {[ STDOUT_FILENO := 0 ]}) 0 [].

Definition three_lines : bytes := str "one" ++ [NL] ++ str "two" ++ [NL] ++ str "three" ++ [NL].

Lemma tail_prints_witness :
  exists p', tail_main 4096 20 (str "tail") [Opt "n" (str "1")] [str "notes"] (shown_disk three_lines) = (Ret 0, p') /\
    content (kern p') 2 = str "three" ++ [NL].
Proof.
  destruct (tail_prints 4096 20 (str "tail") [str "1"] (str "notes") three_lines 1 2 0 O_WRONLY (shown_disk three_lines))
    as (o & p' & E & _ & H); [|by_decide|by vm_compute|by_decide|].
  { split; try done. exists 0. done. }
  exists p'. destruct H as (-> & shown & Hc & _ & Hs). split; [exact E|].
  assert (snd (tail_main 4096 20 (str "tail") [Opt "n" (str "1")] [str "notes"] (shown_disk three_lines)) = p') as <- by (cbn [fmap list_fmap] in E; by rewrite E).
  by vm_compute.
Defined.
