(* ===== verification/Tee.v ===== *)
(** * tee

    tee.c (04-file-io-universal-io-model), over the streams of stdio.  What it copies is not its standard
    input but a file called tee.c.  getopt is a parameter: the options it delivers and the operands it
    leaves; so is stdio, of which [FileStreams] has the four functions that are used. *)

From Stdlib Require Import ZArith Lia String Ascii.
From S2P Require Import Prelude CString Kernel.
From S2P Require Tail.
Import Tail (opt, Opt, BadOpt).

(** A [FILE *] is a number; that of [stdout] is 1. *)
Class FileStreams (K : Type) := {
  k_fopen : bytes -> bytes -> K -> (Z + Z) * K;       (* path, mode; failure is a null pointer *)
  k_fread : Z -> Z -> K -> bytes * K;                 (* nmemb of size 1, stream *)
  k_fwrite : Z -> bytes -> K -> Z * K;
  k_fclose : Z -> K -> Z * K
}.
Definition stdout : Z := 1.

Section Program.
Context {K : Type} `{!FileStreams K}.

Definition fopen (path mode : bytes) : M (proc K) (option Z) :=
  syscall None (fun k => let '(r, k') := k_fopen path mode k in (match r with inl f => inl (Some f) | inr e => inr e end, k')).
Definition fread (n f : Z) : M (proc K) bytes := fun p => let '(bs, k') := k_fread n f (kern p) in (Ret bs, Proc k' (errno p) (trace p)).
Definition fwrite (f : Z) (data : bytes) : M (proc K) Z := fun p => let '(n, k') := k_fwrite f data (kern p) in (Ret n, Proc k' (errno p) (trace p)).
Definition fclose (f : Z) : M (proc K) Z := fun p => let '(r, k') := k_fclose f (kern p) in (Ret r, Proc k' (errno p) (trace p)).

(** [append_mode], or nothing when the status is to be 1. *)
Fixpoint parse_args (opts : list opt) (append_mode : bool) : M (proc K) (option bool) :=
  match opts with
  | [] => mret (Some append_mode)
  | Opt c _ :: opts' => if Ascii.eqb c "a" then parse_args opts' true else abort_
  | BadOpt optopt :: _ =>
      (if (32 <=? optopt) && (optopt <=? 126) then eprintf (str "Unkonw option `-" ++ [chr optopt] ++ str "'." ++ [NL])
       else eprintf (str "Unknown option character `\x" ++ hex_number optopt ++ str "'." ++ [NL])) ;;
      mret None
  end.

(** [FILE *files[20]], whose entries are indeterminate at first. *)
Definition NUM_FILES : nat := 20.
Definition no_files : list (option Z) := replicate NUM_FILES None.

(** The files from the [i]th operand on; [false] when one could not be opened. *)
Fixpoint open_files (file_mode : bytes) (operands : list bytes) (i : nat) (files : list (option Z)) : M (proc K) (bool * list (option Z)) :=
  match operands with
  | [] => mret (true, files)
  | path :: operands' =>
      pFile ← fopen path file_mode;
      match pFile with
      | None => eprintf (str "Unable to open file " ++ path ++ str " for mode " ++ file_mode) ;; mret (false, files)
      | Some f =>
          if (i <? NUM_FILES)%nat then open_files file_mode operands' (S i) (<[i := Some f]> files) else undef_
      end
  end.

(** [files[i]], for [i] from 0 to [num_files]. *)
Fixpoint each_file (n i : nat) (files : list (option Z)) (f : Z -> M (proc K) Z) : M (proc K) unit :=
  match n with
  | O => mret tt
  | S n' => pFile ← the (default None (files !! i)); f pFile ;; each_file n' (S i) files f
  end.

Definition BUF : Z := 100.

Definition copy_loop (fuel : nat) (not_stdin : Z) (num_files : nat) (files : list (option Z)) : M (proc K) unit :=
  loop fuel (fun _ =>
    buf ← fread BUF not_stdin;
    if 0 <? strlen buf then
      fwrite stdout buf ;;
      each_file num_files 0 files (fun f => fwrite f buf) ;;
      mret (inl tt)
    else mret (inr tt)) tt.

Definition tee_main (fuel : nat) (opts : list opt) (operands : list bytes) : M (proc K) Z :=
  a ← parse_args opts false;
  match a with
  | None => mret 1
  | Some append_mode =>
      let file_mode := if (append_mode : bool) then str "a" else str "w" in
      let num_files := length operands in
      r ← open_files file_mode operands 0 no_files;
      let '(opened, files) := r in
      (if (opened : bool) then
         f ← fopen (str "tee.c") (str "r");
         not_stdin ← the f;                    (* fread of a null pointer *)
         copy_loop fuel not_stdin num_files files
       else mret tt) ;;
      each_file num_files 0 files fclose ;;
      mret 0
  end.
End Program.

(** ** What it relies on

    Files on a disk, and streams: one that is read has the rest of its file, one that is written what it
    holds back until it is closed.  Only opening fails. *)
Inductive stream := Reading (rest : bytes) | Writing (path : bytes) (held : bytes).

Class StreamLaws (K : Type) `{!FileStreams K} := {
  disk : K -> gmap bytes bytes;
  streams_of : K -> gmap Z stream;
  screen : K -> bytes;
  fopen_read : forall path k, match k_fopen path (str "r") k with
    | (inl f, k') => f <> stdout /\ streams_of k !! f = None /\ exists c, disk k !! path = Some c /\
        disk k' = disk k /\ streams_of k' = <[f := Reading c]> (streams_of k) /\ screen k' = screen k
    | (inr _, k') => disk k !! path = None
    end;
  fopen_write : forall path (app : bool) k, match k_fopen path (if app then str "a" else str "w") k with
    | (inl f, k') => f <> stdout /\ streams_of k !! f = None /\
        disk k' = <[path := if app then default [] (disk k !! path) else []]> (disk k) /\
        streams_of k' = <[f := Writing path []]> (streams_of k) /\ screen k' = screen k
    | (inr _, k') => True
    end;
  fread_reads : forall n f k rest, 0 < n -> streams_of k !! f = Some (Reading rest) -> exists k', k_fread n f k = (take (Z.to_nat n) rest, k') /\
    disk k' = disk k /\ streams_of k' = <[f := Reading (drop (Z.to_nat n) rest)]> (streams_of k) /\ screen k' = screen k;
  fwrite_holds : forall f path held data k, f <> stdout -> streams_of k !! f = Some (Writing path held) -> exists k', k_fwrite f data k = (strlen data, k') /\
    disk k' = disk k /\ streams_of k' = <[f := Writing path (held ++ data)]> (streams_of k) /\ screen k' = screen k;
  fwrite_stdout : forall data k, exists k', k_fwrite stdout data k = (strlen data, k') /\
    disk k' = disk k /\ streams_of k' = streams_of k /\ screen k' = screen k ++ data;
  fclose_writes : forall f path held k, streams_of k !! f = Some (Writing path held) -> exists k', k_fclose f k = (0, k') /\
    disk k' = <[path := default [] (disk k !! path) ++ held]> (disk k) /\ streams_of k' = delete f (streams_of k) /\ screen k' = screen k
}.

Section Correct.
Context {K : Type} `{!FileStreams K, !StreamLaws K}.
Implicit Types (p q : proc K) (hs : list Z) (paths : list bytes).

(** The streams [hs] write to [paths], and each holds back [held]. *)
Definition writing hs paths (held : bytes) (k : K) : Prop := Forall2 (fun h path => streams_of k !! h = Some (Writing path held)) hs paths.

(** [files] after the streams [hs] were opened. *)
Definition stored hs : list (option Z) := (Some <$> hs) ++ replicate (NUM_FILES - length hs) None.

Lemma stored_snoc hs f : (length hs < NUM_FILES)%nat -> <[length hs := Some f]> (stored hs) = stored (hs ++ [f]).
Proof.
  intros Hl. unfold stored. rewrite insert_app_r_alt by (by rewrite length_fmap). rewrite length_fmap, Nat.sub_diag, length_app. cbn [length].
  replace (NUM_FILES - length hs)%nat with (S (NUM_FILES - (length hs + 1))) by lia. cbn. by rewrite fmap_app, <- app_assoc.
Qed.

(** A loop over all of the entries visits the streams in order. *)
Fixpoint in_order hs (f : Z -> M (proc K) Z) : M (proc K) unit :=
  match hs with [] => mret tt | h :: hs' => f h ;; in_order hs' f end.

Lemma each_stored f hs : forall pre rest p, each_file (length hs) (length pre) ((Some <$> (pre ++ hs)) ++ rest) f p = in_order hs f p.
Proof.
  induction hs as [|h hs IH]; intros pre rest p; [done|]. cbn [length each_file in_order].
  assert (((Some <$> pre ++ h :: hs) ++ rest) !! length pre = Some (Some h)) as E.
  { rewrite lookup_app_l by (rewrite length_fmap, length_app; cbn; lia). rewrite list_lookup_fmap, list_lookup_middle by done. done. }
  rewrite E. cbn [default from_option id the]. erewrite bind_Ret by reflexivity. unfold mbind, M_bind.
  destruct (f h p) as [[r| | | |] q]; try done. specialize (IH (pre ++ [h]) rest q). rewrite length_app, Nat.add_1_r, <- app_assoc in IH. exact IH.
Qed.

Lemma each_of_stored f hs p : each_file (length hs) 0 (stored hs) f p = in_order hs f p.
Proof. exact (each_stored f hs [] _ p). Qed.

(** An entry that was not set. *)
Lemma each_past f hs n : (length hs < n)%nat -> (forall h q, h ∈ hs -> exists r q', f h q = (Ret r, q') /\ trace q' = trace q) ->
  forall pre p, (length pre + length hs < NUM_FILES)%nat -> exists q, each_file n (length pre) (stored (pre ++ hs)) f p = (Undef, q) /\ trace q = trace p.
Proof.
  revert n. induction hs as [|h hs IH]; intros [|n] Hn Hf pre p Hl; cbn in Hn; try lia.
  - exists p. split; [|done]. cbn [each_file]. unfold stored. rewrite app_nil_r, lookup_app_r by (by rewrite length_fmap).
    rewrite length_fmap, Nat.sub_diag. cbn in Hl. destruct (NUM_FILES - length pre)%nat eqn:E; [lia|]. reflexivity.
  - destruct (Hf h p ltac:(by left)) as (r & q & Hr & Ht).
    destruct (IH n ltac:(lia) (fun h' q' Hin => Hf h' q' ltac:(by right)) (pre ++ [h]) q) as (q2 & H2 & Ht2).
    { rewrite length_app. cbn in *. lia. } exists q2. split; [|congruence]. cbn [each_file].
    assert (stored (pre ++ h :: hs) !! length pre = Some (Some h)) as E.
    { unfold stored. rewrite lookup_app_l by (rewrite length_fmap, length_app; cbn; lia). rewrite list_lookup_fmap, list_lookup_middle by done. done. }
    rewrite E. cbn [default from_option id the]. erewrite bind_Ret by reflexivity. rewrite (bind_Ret _ _ _ _ _ Hr).
    rewrite length_app, Nat.add_1_r, <- app_assoc in H2. exact H2.
Qed.

(** *** Writing to all, and closing all *)

Lemma writing_ext hs paths held k k' :
  writing hs paths held k -> (forall h, h ∈ hs -> streams_of k' !! h = streams_of k !! h) -> writing hs paths held k'.
Proof.
  unfold writing. induction 1 as [|h path hs paths Hh _ IH]; intros He; constructor.
  - rewrite He; [done|by left].
  - apply IH. intros h' Hin. apply He. by right.
Qed.

Lemma write_all data hs : forall paths held p, NoDup hs -> stdout ∉ hs -> writing hs paths held (kern p) ->
  exists q, in_order hs (fun f => fwrite f data) p = (Ret tt, q) /\ writing hs paths (held ++ data) (kern q) /\
    (forall h, h ∉ hs -> streams_of (kern q) !! h = streams_of (kern p) !! h) /\
    disk (kern q) = disk (kern p) /\ screen (kern q) = screen (kern p) /\ trace q = trace p.
Proof.
  induction hs as [|h hs IH]; intros paths held p Hnd Hout Hw.
  - apply Forall2_nil_inv_l in Hw as ->. exists p. split_and!; try done. by constructor.
  - apply NoDup_cons in Hnd as [Hnin Hnd]. apply not_elem_of_cons in Hout as [Hh1 Hout]. apply Forall2_cons_inv_l in Hw as (path & paths' & Hh & Hw & ->).
    destruct (fwrite_holds h path held data (kern p) (not_eq_sym Hh1) Hh) as (k1 & Hk & Hd & Hs & Hsc).
    assert (writing hs paths' held k1) as Hw1.
    { eapply writing_ext; [exact Hw|]. intros h' Hin. rewrite Hs, lookup_insert_ne; [done|]. intros <-. by apply Hnin. }
    destruct (IH paths' held (Proc k1 (errno p) (trace p)) Hnd Hout Hw1) as (q & Hrun & Hwq & Hfr & Hdq & Hsq & Htq).
    exists q. cbn [kern trace] in *. split_and!; try congruence.
    + cbn [in_order]. erewrite bind_Ret by (unfold fwrite; rewrite Hk; reflexivity). exact Hrun.
    + constructor; [|done]. rewrite Hfr, Hs by done. by rewrite lookup_insert_eq.
    + intros h' [Hne Hn]%not_elem_of_cons. rewrite Hfr, Hs by done. by rewrite lookup_insert_ne.
Qed.

Lemma close_all hs : forall paths held p, NoDup hs -> NoDup paths -> writing hs paths held (kern p) ->
  exists q, in_order hs fclose p = (Ret tt, q) /\
    (forall path, disk (kern q) !! path = if decide (path ∈ paths) then Some (default [] (disk (kern p) !! path) ++ held) else disk (kern p) !! path) /\
    screen (kern q) = screen (kern p) /\ trace q = trace p.
Proof.
  induction hs as [|h hs IH]; intros paths held p Hnd Hndp Hw.
  - apply Forall2_nil_inv_l in Hw as ->. exists p. split; [done|]. split; [|done]. intros path. by rewrite decide_False by (by intros ?%elem_of_nil).
  - apply NoDup_cons in Hnd as [Hnin Hnd]. apply Forall2_cons_inv_l in Hw as (path & paths' & Hh & Hw & ->).
    apply NoDup_cons in Hndp as [Hpn Hndp].
    destruct (fclose_writes h path held (kern p) Hh) as (k1 & Hk & Hd & Hs & Hsc).
    assert (writing hs paths' held k1) as Hw1.
    { eapply writing_ext; [exact Hw|]. intros h' Hin. rewrite Hs, lookup_delete_ne; [done|]. intros <-. by apply Hnin. }
    destruct (IH paths' held (Proc k1 (errno p) (trace p)) Hnd Hndp Hw1) as (q & Hrun & Hdq & Hsq & Htq).
    exists q. cbn [kern trace] in *. split_and!; try congruence.
    + cbn [in_order]. erewrite bind_Ret by (unfold fclose; rewrite Hk; reflexivity). exact Hrun.
    + intros path'. rewrite Hdq, Hd. destruct (decide (path' = path)) as [->|Hne].
      * rewrite decide_False, (decide_True (P := path ∈ path :: paths')), lookup_insert_eq by (done || by left). done.
      * rewrite lookup_insert_ne by done. destruct (decide (path' ∈ paths')) as [Hin|Hn].
        -- by rewrite decide_True by (by right).
        -- rewrite decide_False; [done|]. by intros [?|?]%elem_of_cons.
Qed.

(** *** Opening *)

Definition mode_of (app : bool) : bytes := if app then str "a" else str "w".
(** What a file has after it was opened. *)
Definition opened_as (app : bool) (old : option bytes) : bytes := if app then default [] old else [].
Definition cannot_open (app : bool) (path : bytes) : event := Err (str "Unable to open file " ++ path ++ str " for mode " ++ mode_of app).

(** The operands [paths] were opened as [hs], from [p] on. *)
Record opened app p hs paths q : Prop := {
  opened_writing : writing hs paths [] (kern q);
  opened_nodup : NoDup hs;
  opened_stdout : stdout ∉ hs;
  opened_disk : forall path, disk (kern q) !! path = if decide (path ∈ paths) then Some (opened_as app (disk (kern p) !! path)) else disk (kern p) !! path;
  opened_screen : screen (kern q) = screen (kern p);
  opened_trace : trace q = trace p
}.

Lemma opened_snoc app p hs paths q path : opened app p hs paths q -> path ∉ paths ->
  match k_fopen path (mode_of app) (kern q) with
  | (inl f, k') => opened app p (hs ++ [f]) (paths ++ [path]) (Proc k' (errno q) (trace q))
  | (inr _, _) => True
  end.
Proof.
  intros [Hw Hnd Hout Hd Hsc Ht] Hpath. pose proof (fopen_write path app (kern q)) as Hf. fold (mode_of app) in Hf.
  destruct (k_fopen path (mode_of app) (kern q)) as [[f|e] k']; [|done]. destruct Hf as (Hf & Hfresh & Hd' & Hs' & Hsc').
  assert (f ∉ hs) as Hnin.
  { intros Hin. clear -Hw Hfresh Hin. induction Hw as [|h path' hs' paths' Hh _ IH]; [by apply elem_of_nil in Hin|].
    apply elem_of_cons in Hin as [<-|Hin]; [congruence|auto]. }
  split; cbn [kern trace]; try congruence.
  - apply Forall2_app; [|repeat constructor; by rewrite Hs', lookup_insert_eq].
    eapply writing_ext; [exact Hw|]. intros h Hh. rewrite Hs', lookup_insert_ne; [done|]. intros <-. done.
  - apply NoDup_app. split_and!; [done| |apply NoDup_singleton]. intros h Hh ->%list_elem_of_singleton. done.
  - rewrite not_elem_of_app, list_elem_of_singleton. split; [done|congruence].
  - intros path'. rewrite Hd'. destruct (decide (path' = path)) as [->|Hne].
    + rewrite lookup_insert_eq, decide_True by (apply elem_of_app; right; by left). unfold opened_as. by rewrite Hd, decide_False by done.
    + rewrite lookup_insert_ne, Hd by done. destruct (decide (path' ∈ paths)) as [Hin|Hn].
      * by rewrite decide_True by (apply elem_of_app; by left).
      * rewrite decide_False; [done|]. by intros [?|?%list_elem_of_singleton]%elem_of_app.
Qed.

Lemma open_files_spec app p : forall paths done hs q, opened app p hs done q -> length hs = length done ->
  NoDup (done ++ paths) -> (length (done ++ paths) <= NUM_FILES)%nat ->
  (exists hs' q', open_files (mode_of app) paths (length hs) (stored hs) q = (Ret (true, stored hs'), q') /\
    length hs' = length (done ++ paths) /\ opened app p hs' (done ++ paths) q') \/
  (exists hs' done' path q' q2, open_files (mode_of app) paths (length hs) (stored hs) q = (Ret (false, stored hs'), q2) /\
    (length hs' < length (done ++ paths))%nat /\ opened app p hs' done' q' /\ length hs' = length done' /\ path ∈ paths /\ trace q2 = trace q' ++ [cannot_open app path]).
Proof.
  induction paths as [|path paths IH]; intros dn hs q Ho Hl Hnd Hmax.
  - left. exists hs, q. rewrite app_nil_r. by split_and!.
  - assert (path ∉ dn) as Hnew.
    { apply NoDup_app in Hnd as (_ & Hd & _). intros Hin. apply (Hd path Hin). by left. }
    pose proof (opened_snoc app p hs dn q path Ho Hnew) as Hs. cbn [open_files]. unfold fopen.
    destruct (k_fopen path (mode_of app) (kern q)) as [[f|e] k'] eqn:Hk.
    + rewrite length_app in Hmax. cbn [length] in Hmax.
      destruct (IH (dn ++ [path]) (hs ++ [f]) (Proc k' (errno q) (trace q)) Hs) as [(hs' & q' & Hrun & Hlen & Ho')|(hs' & dn' & path' & q' & q2 & Hrun & Hlen & Ho' & Hl' & Hin & Ht)].
      { rewrite !length_app. cbn. lia. } { by rewrite <- app_assoc. } { rewrite <- app_assoc, length_app. cbn. lia. }
      all: rewrite <- app_assoc in *; cbn [Datatypes.app] in *; rewrite length_app, Nat.add_1_r in Hrun.
      * left. exists hs', q'. split; [|done]. erewrite bind_Ret by (unfold syscall; rewrite Hk; reflexivity). cbv beta iota.
        rewrite (proj2 (Nat.ltb_lt _ _)), stored_snoc by lia. exact Hrun.
      * right. exists hs', dn', path', q', q2. split_and!; try done; [|by right]. erewrite bind_Ret by (unfold syscall; rewrite Hk; reflexivity).
        cbv beta iota. rewrite (proj2 (Nat.ltb_lt _ _)), stored_snoc by lia. exact Hrun.
    + right. exists hs, dn, path, (Proc (kern q) (errno q) (trace q)), (Proc k' e (trace q ++ [cannot_open app path])). split_and!; try done.
      * erewrite bind_Ret by (unfold syscall; rewrite Hk; reflexivity). cbv beta iota. by erewrite bind_Ret by reflexivity.
      * rewrite length_app. cbn. lia.
      * by destruct q.
      * by left.
Qed.

(** *** Copying *)

Lemma tee_copy_loop_spec f hs paths p0 fuel : forall rest held q, NoDup hs -> stdout ∉ hs -> f ∉ hs -> f <> stdout -> (length rest < fuel)%nat ->
  streams_of (kern q) !! f = Some (Reading rest) -> writing hs paths held (kern q) -> disk (kern q) = disk (kern p0) ->
  exists q', copy_loop fuel f (length hs) (stored hs) q = (Ret tt, q') /\ writing hs paths (held ++ rest) (kern q') /\
    disk (kern q') = disk (kern p0) /\ screen (kern q') = screen (kern q) ++ rest /\ trace q' = trace q.
Proof.
  induction fuel as [|fuel IH]; intros rest held q Hnd Hso Hf Hout Hfuel Hs Hw Hd; [lia|].
  destruct (fread_reads BUF f (kern q) rest ltac:(done) Hs) as (k1 & Hk & Hd1 & Hs1 & Hsc1).
  set (q1 := Proc k1 (errno q) (trace q)). assert (writing hs paths held (kern q1)) as Hw1.
  { eapply writing_ext; [exact Hw|]. intros h Hh. cbn. rewrite Hs1, lookup_insert_ne; [done|]. intros <-. done. }
  destruct rest as [|c rest].
  - exists q1. rewrite !app_nil_r. split_and!; try done; [|cbn; congruence].
    apply loop_done. erewrite bind_Ret by (unfold fread; rewrite Hk; reflexivity). rewrite take_nil. reflexivity.
  - assert ((0 <? strlen (take (Z.to_nat BUF) (c :: rest))) = true) as Hpos by (apply Z.ltb_lt; unfold strlen, BUF; rewrite length_take; cbn [length]; lia).
    destruct (fwrite_stdout (take (Z.to_nat BUF) (c :: rest)) k1) as (k2 & Hk2 & Hd2 & Hs2 & Hsc2).
    set (q2 := Proc k2 (errno q) (trace q)). assert (writing hs paths held (kern q2)) as Hw2 by (eapply writing_ext; [exact Hw1|]; intros h _; cbn; by rewrite Hs2).
    destruct (write_all (take (Z.to_nat BUF) (c :: rest)) hs paths held q2 Hnd Hso Hw2) as (q3 & Hrun & Hw3 & Hfr & Hd3 & Hsc3 & Ht3).
    destruct (IH (drop (Z.to_nat BUF) (c :: rest)) (held ++ take (Z.to_nat BUF) (c :: rest)) q3 Hnd Hso Hf Hout) as (q' & Hrun' & Hw' & Hd' & Hsc' & Ht').
    { rewrite length_drop. cbn [length] in *. unfold BUF. lia. }
    { rewrite Hfr by done. cbn. by rewrite Hs2, Hs1, lookup_insert_eq. }
    { done. } { cbn in Hd3. congruence. }
    rewrite <- app_assoc, take_drop in Hw'. exists q'. split_and!; try done.
    + unfold copy_loop. erewrite loop_next; [exact Hrun'|]. erewrite bind_Ret by (unfold fread; rewrite Hk; reflexivity). rewrite Hpos.
      erewrite bind_Ret by (unfold fwrite; cbn [kern]; rewrite Hk2; reflexivity). cbn [errno trace]. fold q2.
      rewrite (bind_Ret _ _ _ tt q3); [reflexivity|]. rewrite <- Hrun. apply each_of_stored.
    + rewrite Hsc', Hsc3. cbn [kern q2]. rewrite Hsc2, Hsc1, <- app_assoc. by rewrite take_drop.
    + rewrite Ht', Ht3. done.
Qed.

(** The only option is [-a]. *)
Definition is_a (o : opt) : Prop := match o with Opt c _ => c = "a"%char | BadOpt _ => False end.

Lemma parse_args_spec opts : forall app p, Forall is_a opts -> parse_args opts app p = (Ret (Some (app || bool_decide (opts <> []))), p).
Proof.
  induction opts as [|[c x|z] opts IH]; intros app p Ho; [by rewrite orb_false_r| |by apply Forall_cons in Ho as [[] _]].
  apply Forall_cons in Ho as [-> Ho]. cbn [parse_args]. rewrite Ascii.eqb_refl, IH by done. cbn [orb]. by rewrite orb_true_r.
Qed.

(** C25: with up to 20 different operands, and whether or not it is to append, tee copies the file tee.c, which is not among them,
    to its output and to each of the operands, whose contents are replaced unless it appends, and changes no other file; unless
    one of them cannot be opened: then it says so and closes a stream that was never opened, which is undefined. *)
Theorem tee_copies fuel opts operands c p : Forall is_a opts -> NoDup operands -> (length operands <= NUM_FILES)%nat ->
  str "tee.c" ∉ operands -> disk (kern p) !! str "tee.c" = Some c -> (length c < fuel)%nat ->
  let app := bool_decide (opts <> []) in
  exists o q, tee_main fuel opts operands p = (o, q) /\
    (o = Ret 0 /\ trace q = trace p /\ screen (kern q) = screen (kern p) ++ c /\
       (forall path, disk (kern q) !! path = if decide (path ∈ operands) then Some (opened_as app (disk (kern p) !! path) ++ c) else disk (kern p) !! path) \/
     o = Undef /\ exists path, path ∈ operands /\ trace q = trace p ++ [cannot_open app path]).
Proof.
  intros Hopts Hnd Hmax Hsrc Hc Hfuel app. unfold tee_main. rewrite (bind_Ret _ _ _ _ _ (parse_args_spec opts false p Hopts)). cbn [orb]. fold app.
  fold (mode_of app). assert (opened app p [] [] p) as Ho.
  { split; [by apply Forall2_nil|by apply NoDup_nil|by apply not_elem_of_nil| |done|done]. intros path. by rewrite decide_False by (by intros ?%elem_of_nil). }
  destruct (open_files_spec app p operands [] [] p Ho eq_refl Hnd Hmax) as [(hs & q1 & Hrun & Hl & Ho1)|(hs & dn & path & q1 & q2 & Hrun & Hl & Ho1 & Hl1 & Hin & Ht)];
    cbv zeta; rewrite (bind_Ret _ _ _ _ _ Hrun); cbv iota beta; cbn [Datatypes.app] in *.
  - destruct Ho1 as [Hw Hndh Hout Hd Hs Ht]. pose proof (fopen_read (str "tee.c") (kern q1)) as Hr.
    assert (disk (kern q1) !! str "tee.c" = Some c) as Hc1 by (by rewrite Hd, decide_False).
    destruct (k_fopen (str "tee.c") (str "r") (kern q1)) as [[f|e] k2] eqn:Hk; [|by rewrite Hr in Hc1].
    destruct Hr as (Hf & Hnew & c' & Hc' & Hd2 & Hs2 & Hsc2). rewrite Hc1 in Hc'. injection Hc' as <-.
    assert (f ∉ hs) as Hfh.
    { intros Hin. clear -Hw Hnew Hin. induction Hw as [|h path' hs' paths' Hh _ IH]; [by apply elem_of_nil in Hin|].
      apply elem_of_cons in Hin as [<-|Hin]; [congruence|auto]. }
    set (q2 := Proc k2 (errno q1) (trace q1)). assert (writing hs operands [] (kern q2)) as Hw2.
    { eapply writing_ext; [exact Hw|]. intros h Hh. cbn. rewrite Hs2, lookup_insert_ne; [done|]. intros <-. done. }
    destruct (tee_copy_loop_spec f hs operands q2 fuel c [] q2 Hndh Hout Hfh Hf Hfuel) as (q3 & Hcopy & Hw3 & Hd3 & Hsc3 & Ht3); [by cbn; rewrite Hs2, lookup_insert_eq|done|done|].
    destruct (close_all hs operands c q3 Hndh Hnd Hw3) as (q4 & Hclose & Hd4 & Hsc4 & Ht4). exists (Ret 0), q4. split.
    + rewrite (bind_Ret _ _ _ tt q3).
      2: { erewrite bind_Ret by (unfold fopen, syscall; rewrite Hk; reflexivity). cbn [the]. erewrite bind_Ret by reflexivity. fold q2. by rewrite <- Hl. }
      rewrite (bind_Ret _ _ _ tt q4); [done|]. rewrite <- Hclose, <- Hl. apply each_of_stored.
    + left. split_and!; [done|rewrite Ht4, Ht3; cbn; exact Ht|rewrite Hsc4, Hsc3; cbn; congruence|].
      intros path. rewrite Hd4, Hd3. cbn [kern q2]. rewrite Hd2, Hd. by case_decide.
  - rewrite (bind_Ret _ _ _ tt q2) by done.
    destruct (each_past fclose hs (length operands) Hl) with (pre := @nil Z) (p := q2) as (q3 & Hu & Ht3).
    { intros h q _. unfold fclose. destruct (k_fclose h (kern q)) as [r k']. by exists r, (Proc k' (errno q) (trace q)). }
    { cbn. lia. }
    exists Undef, q3. split; [by rewrite (bind_Undef _ _ _ _ Hu)|]. right. split; [done|]. exists path. split; [done|].
    rewrite Ht3, Ht. by rewrite (opened_trace _ _ _ _ _ Ho1).
Qed.
End Correct.

(** ** A small stdio

    A file whose name starts with a slash cannot be opened for writing. *)

Record small := Small { s_disk : gmap bytes bytes; s_streams : gmap Z stream; s_screen : bytes }.

Definition free_stream (m : gmap Z stream) : Z := foldr (fun x a => Z.max x.1 a) 1 (map_to_list m) + 1.

Lemma free_stream_free m : m !! free_stream m = None /\ free_stream m <> stdout.
Proof.
  assert (forall l : list (Z * stream), 1 <= foldr (fun x a => Z.max x.1 a) 1 l /\ forall x, x ∈ l -> x.1 <= foldr (fun x a => Z.max x.1 a) 1 l) as Hl.
  { induction l as [|y l [H1 IH]]; cbn; [split; [lia|by intros x ?%elem_of_nil]|]. split; [lia|]. intros x [->|Hx%IH]%elem_of_cons; lia. }
  destruct (Hl (map_to_list m)) as [H1 H2]. unfold free_stream, stdout. split; [|lia].
  destruct (m !! _) as [x|] eqn:E; [|done]. apply elem_of_map_to_list, H2 in E. cbn in E. lia.
Qed.

Definition small_fopen (path mode : bytes) (k : small) : (Z + Z) * small :=
  let f := free_stream (s_streams k) in
  if bool_decide (mode = str "r") then
    match s_disk k !! path with
    | Some c => (inl f, Small (s_disk k) (<[f := Reading c]> (s_streams k)) (s_screen k))
    | None => (inr ENOENT, k)
    end
  else if bool_decide (head path = Some "/"%char) then (inr EACCES, k)
  else (inl f, Small (<[path := if bool_decide (mode = str "a") then default [] (s_disk k !! path) else []]> (s_disk k))
                 (<[f := Writing path []]> (s_streams k)) (s_screen k)).

#[export] Instance small_streams : FileStreams small := {
  k_fopen := small_fopen;
  k_fread n f k := match s_streams k !! f with
                   | Some (Reading rest) => (take (Z.to_nat n) rest, Small (s_disk k) (<[f := Reading (drop (Z.to_nat n) rest)]> (s_streams k)) (s_screen k))
                   | _ => ([], k)
                   end;
  k_fwrite f data k := if f =? stdout then (strlen data, Small (s_disk k) (s_streams k) (s_screen k ++ data))
                       else match s_streams k !! f with
                            | Some (Writing path held) => (strlen data, Small (s_disk k) (<[f := Writing path (held ++ data)]> (s_streams k)) (s_screen k))
                            | _ => (0, k)
                            end;
  k_fclose f k := match s_streams k !! f with
                  | Some (Writing path held) => (0, Small (<[path := default [] (s_disk k !! path) ++ held]> (s_disk k)) (delete f (s_streams k)) (s_screen k))
                  | _ => (0, k)
                  end
}.

#[export] Program Instance small_laws : StreamLaws small := {|
  disk := s_disk; streams_of := s_streams; screen := s_screen
|}.
Next Obligation.
  intros path k. cbn -[free_stream]. unfold small_fopen. destruct (free_stream_free (s_streams k)) as [Hf Hn].
  rewrite bool_decide_eq_true_2 by done. destruct (s_disk k !! path) as [c|] eqn:E; [|done]. split_and!; try done. by exists c.
Qed.
Next Obligation.
  intros path a k. cbn -[free_stream]. unfold small_fopen. destruct (free_stream_free (s_streams k)) as [Hf Hn].
  destruct a; cbn [bool_decide]; rewrite (bool_decide_eq_false_2 (_ = str "r")) by done; case_bool_decide; try done; by split_and!.
Qed.
Next Obligation. intros n f k rest _ Hs. cbn. rewrite Hs. by eexists. Qed.
Next Obligation. intros f path held data k Hf Hs. cbn. rewrite (proj2 (Z.eqb_neq f stdout) Hf), Hs. by eexists. Qed.
Next Obligation. intros data k. by eexists. Qed.
Next Obligation. intros f path held k Hs. cbn. rewrite Hs. by eexists. Qed.

Definition a_disk : gmap bytes bytes := <[str "tee.c" := str "main"]> (<[str "log" := str "old "]> ∅).
Definition shell : proc small := Proc (Small a_disk ∅ []) 0 [].

(** The twenty-first operand is stored behind the end of the array. *)
Example tee_overflows : (tee_main 10 [] ((fun i => dec (Z.of_nat i)) <$> seq 0 21) shell).1 = Undef.
Proof. vm_compute. reflexivity. Qed.

Lemma tee_copies_witness : exists q, tee_main 10 [Opt "a" []] [str "log"; str "new"] shell = (Ret 0, q) /\
  screen (kern q) = str "main" /\ disk (kern q) !! str "log" = Some (str "old main") /\ disk (kern q) !! str "new" = Some (str "main").
Proof.
  destruct (tee_copies 10 [Opt "a" []] [str "log"; str "new"] (str "main") shell) as (o & q & Hrun & Hq).
  - by repeat constructor.
  - by_decide.
  - by_decide.
  - by_decide.
  - reflexivity.
  - by_decide.
  - exists q. assert ((tee_main 10 [Opt "a"%char []] [str "log"; str "new"] shell).1 = Ret 0) as E by (vm_compute; reflexivity).
    rewrite Hrun in E. cbn [fst] in E. subst o. destruct Hq as [(_ & _ & Hsc & Hd)|[? _]]; [|done].
    split; [done|]. split; [exact Hsc|]. rewrite !Hd. by split.
Defined.
