(* ===== verification/Vector.v ===== *)
(** * readv and writev

    vector_fileio.c (05-file-io-further-details): scatter and gather transfers made of [read] and
    [write], and the program that writes a hundred buffers and reads them back.  A buffer is its
    bytes and a length is a [size_t]; [readv] returns what it put into each one it reached. *)

From Stdlib Require Import ZArith Lia String Ascii.
From S2P Require Import Prelude CString Kernel Files FileCopy FileFill.

Record iovec := Iovec { iov_base : bytes; iov_len : Z }.

(** The test that the sum of the lengths fits; the sum is kept in 64 bits. *)
Fixpoint lengths_fit (cnt : Z) (iov : list iovec) : bool :=
  match iov with
  | [] => true
  | vec :: iov' =>
      let cnt := u64 (cnt + iov_len vec) in
      if SSIZE_MAX <? cnt then false else lengths_fit cnt iov'
  end.

Section Vector.
Context {K : Type} `{!FileIO K}.

Fixpoint write_vecs (fildes : Z) (iov : list iovec) (total_bytes_written : Z) : M (proc K) Z :=
  match iov with
  | [] => mret total_bytes_written
  | vec :: iov' =>
      w ← write fildes (take (Z.to_nat (iov_len vec)) (iov_base vec));
      let bytes_written := s32 w in
      if bytes_written <? 0 then mret bytes_written
      else
        let total := total_bytes_written + bytes_written in
        if bytes_written <? iov_len vec then mret total else write_vecs fildes iov' total
  end.

(** The count is an [int]. *)
Definition writev (fildes : Z) (iov : list iovec) (iovcnt : Z) : M (proc K) Z :=
  let iovcnt := s32 iovcnt in
  if iovcnt <? 0 then set_errno EINVAL ;; mret (-1)
  else if argc (iov_base <$> iov) <? iovcnt then undef_
  else
    let vecs := take (Z.to_nat iovcnt) iov in
    if lengths_fit 0 vecs then write_vecs fildes vecs 0 else set_errno EINVAL ;; mret (-1).

(** The result and the bytes stored, buffer by buffer. *)
Fixpoint read_vecs (fildes : Z) (iov : list iovec) (total_bytes_read : Z) (bufs : list bytes)
    : M (proc K) (Z * list bytes) :=
  match iov with
  | [] => mret (total_bytes_read, bufs)
  | vec :: iov' =>
      r ← read fildes (iov_len vec);
      let '(n, data) := r in
      let bytes_read := s32 n in
      if bytes_read <? 0 then mret (bytes_read, bufs)
      else
        let total := total_bytes_read + bytes_read in
        if bytes_read <? iov_len vec then mret (total, bufs ++ [data])
        else read_vecs fildes iov' total (bufs ++ [data])
  end.

Definition readv (fildes : Z) (iov : list iovec) (iovcnt : Z) : M (proc K) (Z * list bytes) :=
  let iovcnt := s32 iovcnt in
  if iovcnt <=? 0 then set_errno EINVAL ;; mret (-1, [])
  else if argc (iov_base <$> iov) <? iovcnt then undef_
  else
    let vecs := take (Z.to_nat iovcnt) iov in
    if lengths_fit 0 vecs then read_vecs fildes vecs 0 [] else set_errno EINVAL ;; mret (-1, []).

(** ** main *)

Definition NUMBER_VECS : Z := 100.
Definition CHUNK_SIZE : Z := 16.

Definition chunk (i : nat) : bytes := replicate (Z.to_nat CHUNK_SIZE) (chr (Z.of_nat i)).
Definition write_iovecs : list iovec :=
  (fun i => Iovec (chunk i) CHUNK_SIZE) <$> seq 0 (Z.to_nat NUMBER_VECS).
Definition read_iovecs : list iovec :=
  (fun _ => Iovec (chunk 0) CHUNK_SIZE) <$> seq 0 (Z.to_nat NUMBER_VECS).

Definition assert_ (b : bool) : M (proc K) unit := if b then mret tt else abort_.

(** [memcmp] of the buffers, which all were filled when this is reached. *)
Fixpoint compare_bufs (w : list iovec) (r : list bytes) : M (proc K) unit :=
  match w, r with
  | [], _ => mret tt
  | v :: w', b :: r' => assert_ (bool_decide (iov_base v = b)) ;; compare_bufs w' r'
  | _ :: _, [] => undef_
  end.

Definition vector_main (argv : list bytes) : M (proc K) Z :=
  a1 ← arg argv 1;
  fd ← open_ a1 (flags [O_WRONLY; O_CREAT]) (flags [S_IRUSR; S_IWUSR]);
  bytes_written ← writev fd write_iovecs NUMBER_VECS;
  assert_ (bytes_written =? NUMBER_VECS * CHUNK_SIZE) ;;
  close fd ;;
  fd ← open_ a1 O_RDONLY 0;
  r ← readv fd read_iovecs NUMBER_VECS;
  assert_ (r.1 =? NUMBER_VECS * CHUNK_SIZE) ;;
  compare_bufs write_iovecs r.2 ;;
  printf (str "Done... no assertion errors" ++ [NL]) ;;
  mret 0.
End Vector.

(** ** The check of the lengths *)

Definition sizes (iov : list iovec) : Z := foldr Z.add 0 (iov_len <$> iov).

Lemma sizes_nonneg iov : Forall (fun v => 0 <= iov_len v <= SSIZE_MAX) iov -> 0 <= sizes iov.
Proof.
  induction 1 as [|v iov Hv _ IH]; [done|].
  change (sizes (v :: iov)) with (iov_len v + sizes iov). lia.
Qed.

(** The check refuses the lengths when the sum of the first few, reduced to 64 bits, is too large. *)
Definition sum_refused (cnt : Z) (iov : list iovec) : Prop :=
  exists i, (0 < i <= length iov)%nat /\ SSIZE_MAX < u64 (cnt + sizes (take i iov)).

Lemma u64_add a b : u64 (u64 a + b) = u64 (a + b).
Proof. unfold wrap_u. apply Zplus_mod_idemp_l. Qed.

Lemma lengths_fit_refuses iov : forall cnt, lengths_fit cnt iov = false <-> sum_refused cnt iov.
Proof.
  unfold sum_refused. induction iov as [|vec iov IH]; intros cnt; cbn [lengths_fit].
  - split; [done|]. intros (i & Hi & _). cbn in Hi. lia.
  - destruct (Z.ltb_spec SSIZE_MAX (u64 (cnt + iov_len vec))) as [Hbig|Hok].
    + split; [intros _|done]. exists 1%nat. cbn [take length]. unfold sizes. cbn. rewrite Z.add_0_r. split; [lia|done].
    + rewrite IH. split.
      * intros (i & Hi & Hs). exists (S i). cbn [take length]. rewrite u64_add in Hs.
        change (sizes (vec :: take i iov)) with (iov_len vec + sizes (take i iov)). rewrite Z.add_assoc. split; [lia|done].
      * intros ([|i] & Hi & Hs); [lia|]. cbn [take length] in *.
        change (sizes (vec :: take i iov)) with (iov_len vec + sizes (take i iov)) in Hs. rewrite Z.add_assoc in Hs.
        destruct i as [|i]; [unfold sizes in Hs; cbn in Hs; rewrite Z.add_0_r in Hs; lia|].
        exists (S i). rewrite u64_add. split; [lia|done].
Qed.

(** With lengths an [ssize_t] can hold, the check accepts exactly the sums it can hold. *)
Lemma lengths_fit_exact iov cnt :
  0 <= cnt <= SSIZE_MAX -> Forall (fun v => 0 <= iov_len v <= SSIZE_MAX) iov ->
  lengths_fit cnt iov = (cnt + sizes iov <=? SSIZE_MAX).
Proof.
  assert (SSIZE_MAX = 2 ^ 63 - 1) as Hmax by done.
  revert cnt. induction iov as [|vec iov IH]; intros cnt Hc Hall; simpl.
  - unfold sizes. simpl. lia.
  - apply Forall_cons in Hall as [Hv Hall].
    rewrite wrap_u_id by (unfold in_u; lia).
    change (sizes (vec :: iov)) with (iov_len vec + sizes iov).
    pose proof (sizes_nonneg iov Hall).
    destruct (Z.ltb_spec SSIZE_MAX (cnt + iov_len vec)); [lia|].
    rewrite IH by (done || lia). f_equal. lia.
Qed.

Lemma sum_refused_exact iov :
  Forall (fun v => 0 <= iov_len v <= SSIZE_MAX) iov -> sum_refused 0 iov <-> SSIZE_MAX < sizes iov.
Proof.
  intros Hall. rewrite <- lengths_fit_refuses, lengths_fit_exact, Z.leb_gt by done. by rewrite Z.add_0_l.
Qed.

(** Without that bound the sum wraps round, and the check can be passed by any total. *)
Lemma lengths_fit_wraps : lengths_fit 0 [Iovec [] 1; Iovec [] (2 ^ 64 - 1)] = true.
Proof. done. Qed.

(** ** Transfers *)

Section Specs.
Context {K : Type} `{!FileIO K, !FileLaws K}.
Implicit Types (p q : proc K) (v : fsv).

Definition gathered (iov : list iovec) : bytes :=
  concat ((fun x : iovec => take (Z.to_nat (iov_len x)) (iov_base x)) <$> iov).

Definition sound_vec (x : iovec) : Prop := iov_len x = strlen (iov_base x) /\ iov_len x <= INT_MAX.

Lemma sound_base (x : iovec) : sound_vec x -> take (Z.to_nat (iov_len x)) (iov_base x) = iov_base x.
Proof. intros [H _]. apply take_ge. unfold strlen in H. lia. Qed.

(** How the writing of buffers ends that has put [c] bytes into the file: after the last of them, or
    with the [write] of one of them, the last call made, that took less than the buffer or failed. *)
Definition write_ended (fd : Z) (iov : list iovec) (total r : Z) (c : nat) (q : proc K) : Prop :=
  c = length (gathered iov) /\ r = total + Z.of_nat c \/
  exists i vec k, iov !! i = Some vec /\
    ((exists n, k_write fd (iov_base vec) k = (inl n, kern q) /\ 0 <= n < iov_len vec /\
        c = (length (gathered (take i iov)) + Z.to_nat n)%nat /\ r = total + Z.of_nat c) \/
     (exists e, k_write fd (iov_base vec) k = (inr e, kern q) /\ errno q = e /\
        c = length (gathered (take i iov)) /\ r = -1)).

Lemma gathered_cons vec iov : sound_vec vec -> gathered (vec :: iov) = iov_base vec ++ gathered iov.
Proof. intros Hv. unfold gathered. cbn [fmap list_fmap concat]. by rewrite (sound_base _ Hv). Qed.

Lemma write_ended_cons fd vec iov total r c q : sound_vec vec ->
  write_ended fd iov (total + iov_len vec) r c q -> write_ended fd (vec :: iov) total r (length (iov_base vec) + c) q.
Proof.
  intros Hv. pose proof Hv as [Hlen _]. unfold strlen in Hlen. unfold write_ended. rewrite (gathered_cons _ _ Hv), length_app.
  intros [[-> ->]|(i & v & k & Hi & Hend)]; [left; split; lia|right]. exists (S i), v, k. split; [done|].
  cbn [take]. rewrite (gathered_cons _ _ Hv), length_app.
  destruct Hend as [(n & Hk & Hn & -> & ->)|(e & Hk & He & -> & ->)]; [left; exists n|right; exists e]; split_and!; done || lia.
Qed.

Lemma write_vecs_spec fd ino off fl iov total p :
  has_flag fl O_APPEND = false -> 0 <= off -> 0 <= total ->
  writer (view (kern p)) fd ino off fl -> Forall sound_vec iov ->
  wp (write_vecs fd iov total) p (fun o q => exists r (c : nat), o = Ret r /\ trace q = trace p /\
    (c <= length (gathered iov))%nat /\
    writer (view (kern q)) fd ino (off + Z.of_nat c) fl /\
    content (view (kern q)) ino = overwrite (content (view (kern p)) ino) (Z.to_nat off) (take c (gathered iov)) /\
    write_ended fd iov total r c q).
Proof.
  intros Hfl. revert off total p. induction iov as [|vec iov IH]; intros off total p Ho Ht Hw Hall; cbn [write_vecs].
  - apply wp_ret. exists total, 0%nat. rewrite Z.add_0_r. split_and!; try done. left. split; [done|lia].
  - apply Forall_cons in Hall as [Hv Hall]. pose proof Hv as [Hlen Hmax]. rewrite (sound_base _ Hv).
    apply wp_bind. unfold write. apply wp_syscall. pose proof (write_law (kern p) fd (iov_base vec)) as Hlaw.
    destruct (k_write fd (iov_base vec) (kern p)) as [[c|e] k1] eqn:Hk.
    + destruct Hlaw as (Hc & j & o & Hj & _ & Hv1). rewrite <- Hlen in Hc.
      destruct (writer_write _ _ _ _ _ _ _ _ _ Hw Hfl Hj Hv1) as (Hw1 & Hc1 & _).
      assert (strlen (take (Z.to_nat c) (iov_base vec)) = c) as Hsl
        by (unfold strlen in *; rewrite length_take; lia). rewrite Hsl in Hw1.
      rewrite wrap_s_id by (unfold in_s, INT_MAX in *; lia).
      replace (c <? 0) with false by lia.
      destruct (Z.ltb_spec c (iov_len vec)) as [Hshort|Hfull].
      * apply wp_ret. exists (total + c), (Z.to_nat c). cbn [kern trace].
        rewrite (gathered_cons _ _ Hv), Z2Nat.id by lia. unfold strlen in Hlen.
        split_and!; try done; [rewrite length_app; lia| |].
        { rewrite Hc1. by rewrite take_app_le by lia. }
        right. exists 0%nat, vec, (kern p). split; [done|]. left. exists c. cbn [kern]. split_and!; try done || lia.
      * assert (c = iov_len vec) as -> by lia.
        eapply wp_mono; [apply (IH (off + iov_len vec) (total + iov_len vec)); done || lia|].
        cbn [kern trace]. intros o' q (r & c & -> & Htr & Hcl & Hwq & Hcq & Hr).
        exists r, (length (iov_base vec) + c)%nat. rewrite (gathered_cons _ _ Hv). pose proof Hlen as Hlen'. unfold strlen in Hlen.
        replace (off + Z.of_nat (length (iov_base vec) + c)) with (off + iov_len vec + Z.of_nat c) by lia.
        split_and!; [done|done|rewrite length_app; lia|done| |by apply write_ended_cons].
        rewrite Hcq, Hc1, take_app_2, take_ge by (rewrite ?Hlen; lia).
        rewrite Z2Nat.inj_add by lia. rewrite Hlen, Nat2Z.id. apply overwrite_twice.
    + change (s32 (-1)) with (-1). change (-1 <? 0) with true. apply wp_ret.
      exists (-1), 0%nat. cbn [kern trace]. rewrite Hlaw, Z.add_0_r. split_and!; try done; [lia|].
      right. exists 0%nat, vec, (kern p). split; [done|]. right. by exists e.
Qed.

(** C18: [writev] validates and then gathers.  A negative count, and lengths of which the first few
    add up (in 64 bits) to more than an [ssize_t] can hold, are refused with EINVAL and no effect;
    if each length is one an [ssize_t] can hold, these are exactly the sums it cannot hold.
    Otherwise, for buffers of at most [INT_MAX] bytes each, the file gets the concatenated buffers,
    in place, once, and the offset moves past them, up to where it ended: after all of them, with
    the number of bytes as the result; or with a [write] that took only a part of its buffer, with
    the number of bytes written so far; or with a [write] that failed, with -1 -- after which,
    unlike what the comment promises, the buffers before it have been written and the offset
    moved. *)
Theorem writev_gathers fd ino off fl iov iovcnt p :
  has_flag fl O_APPEND = false -> 0 <= off -> in_s 32 iovcnt -> iovcnt <= Z.of_nat (length iov) ->
  Forall (fun x => in_u 64 (iov_len x)) iov -> writer (view (kern p)) fd ino off fl ->
  let vecs := take (Z.to_nat iovcnt) iov in
  (iovcnt < 0 \/ sum_refused 0 vecs -> writev fd iov iovcnt p = (Ret (-1), Proc (kern p) EINVAL (trace p))) /\
  (Forall (fun x => iov_len x <= SSIZE_MAX) vecs -> sum_refused 0 vecs <-> SSIZE_MAX < sizes vecs) /\
  (0 <= iovcnt -> ~ sum_refused 0 vecs -> Forall sound_vec vecs ->
   exists r q (c : nat), writev fd iov iovcnt p = (Ret r, q) /\ trace q = trace p /\ (c <= length (gathered vecs))%nat /\
      writer (view (kern q)) fd ino (off + Z.of_nat c) fl /\
      content (view (kern q)) ino = overwrite (content (view (kern p)) ino) (Z.to_nat off) (take c (gathered vecs)) /\
      write_ended fd vecs 0 r c q).
Proof.
  intros Hfl Ho Hint Hcnt Hlens Hw vecs. unfold writev, argc. rewrite length_fmap, wrap_s_id by done. cbv zeta. fold vecs.
  replace (Z.of_nat (length iov) <? iovcnt) with false by lia. split_and!.
  - intros Hbad. destruct (Z.ltb_spec iovcnt 0); [done|]. destruct Hbad as [|Hbad%lengths_fit_refuses]; [lia|]. by rewrite Hbad.
  - intros Hmax. apply sum_refused_exact. assert (Forall (fun x => in_u 64 (iov_len x)) vecs) as Hv by by apply Forall_take.
    apply Forall_forall. intros x Hx. rewrite Forall_forall in Hv, Hmax. specialize (Hv x Hx). specialize (Hmax x Hx). unfold in_u in Hv. lia.
  - intros Hpos Hsum Hvecs. replace (iovcnt <? 0) with false by lia.
    destruct (lengths_fit 0 vecs) eqn:E; [|by destruct Hsum; apply lengths_fit_refuses].
    destruct (wp_elim _ _ _ (write_vecs_spec fd ino off fl vecs 0 p Hfl Ho ltac:(lia) Hw Hvecs))
      as (o & q & HR & r & c & -> & Ht & Hc & Hwq & Hcont & Hr).
    exists r, q, c. by split_and!.
Qed.

Lemma read_vecs_spec fd ino off fl iov total bufs p :
  0 <= off -> 0 <= total -> writer (view (kern p)) fd ino off fl -> Forall sound_vec iov ->
  wp (read_vecs fd iov total bufs) p (fun o q => exists r got,
    o = Ret (r, bufs ++ got) /\ trace q = trace p /\ v_names (view (kern q)) = v_names (view (kern p)) /\
    v_data (view (kern q)) = v_data (view (kern p)) /\
    writer (view (kern q)) fd ino (off + strlen (concat got)) fl /\
    concat got `prefix_of` drop (Z.to_nat off) (content (view (kern p)) ino) /\
    Forall2 (fun b (x : iovec) => strlen b <= iov_len x) got (take (length got) iov) /\
    (r = -1 \/ r = total + strlen (concat got))).
Proof.
  revert off total bufs p. induction iov as [|vec iov IH]; intros off total bufs p Ho Ht Hw Hall; simpl.
  - apply wp_ret. exists total, []. rewrite app_nil_r. unfold strlen. simpl. rewrite !Z.add_0_r.
    split_and!; try done; [apply prefix_nil|by right].
  - apply Forall_cons in Hall as [Hv Hall]. pose proof Hv as [Hlen Hmax].
    apply wp_bind, wp_fread.
    + intros j o bs k1 Hj _ Hpre Hbs _ Hv1. destruct Hw as [j' Hj']. rewrite Hj' in Hj. simplify_eq.
      simpl in Hpre.
      assert (writer (view k1) fd ino (off + strlen bs) fl) as Hw1.
      { rewrite Hv1. exists j. unfold v_read. erewrite lookup_set_ofd by done. by rewrite decide_True. }
      pose proof (strlen_nonneg bs). rewrite wrap_s_id by (unfold in_s, INT_MAX in *; lia).
      replace (strlen bs <? 0) with false by lia.
      destruct (Z.ltb_spec (strlen bs) (iov_len vec)) as [Hshort|Hfull].
      * apply wp_ret. exists (total + strlen bs), [bs]. cbn [kern trace concat]. rewrite app_nil_r.
        split_and!; try done; [by rewrite Hv1|by rewrite Hv1| |by right].
        simpl. rewrite take_0. constructor; [lia|constructor].
      * eapply wp_mono; [apply (IH (off + strlen bs) (total + strlen bs)); done || lia|].
        cbn [kern trace]. intros o' q (r & got & -> & Htr & Hn & Hd & Hwq & Hpq & Hf & Hr).
        exists r, (bs :: got). cbn [concat length take]. rewrite strlen_app, Z.add_assoc.
        split_and!; [by rewrite <- app_assoc|done|by rewrite Hn, Hv1|by rewrite Hd, Hv1|done| | |].
        -- rewrite Z2Nat.inj_add, <- drop_drop in Hpq by lia. unfold strlen in Hpq. rewrite Nat2Z.id in Hpq.
           assert (content (view k1) ino = content (view (kern p)) ino) as Hck by (by rewrite Hv1).
           rewrite Hck in Hpq. destruct Hpre as [rest Hrest]. rewrite Hrest, drop_app_length in Hpq.
           rewrite Hrest. by apply prefix_app.
        -- by constructor.
        -- destruct Hr; [by left|right; lia].
    + intros e k1 Hv1. change (s32 (-1)) with (-1). change (-1 <? 0) with true. apply wp_ret.
      exists (-1), []. cbn [kern trace concat]. rewrite Hv1, app_nil_r. unfold strlen. simpl. rewrite Z.add_0_r.
      split_and!; try done; [apply prefix_nil|by left].
Qed.

(** *** On a kernel without failures *)

Context `{!ReliableLaws K}.

Lemma write_vecs_full fd ino off fl iov total p :
  has_flag fl O_APPEND = false -> access fl = O_WRONLY -> 0 <= off ->
  writer (view (kern p)) fd ino off fl -> Forall sound_vec iov ->
  wp (write_vecs fd iov total) p (fun o q => o = Ret (total + strlen (gathered iov)) /\ trace q = trace p /\
    v_names (view (kern q)) = v_names (view (kern p)) /\
    content (view (kern q)) ino = overwrite (content (view (kern p)) ino) (Z.to_nat off) (gathered iov)).
Proof.
  intros Hfl Hacc. revert off total p. induction iov as [|vec iov IH]; intros off total p Ho Hw Hall; simpl.
  - apply wp_ret. unfold gathered, strlen. simpl. by rewrite Z.add_0_r.
  - apply Forall_cons in Hall as [Hv Hall]. pose proof Hv as [Hlen Hmax].
    change (gathered (vec :: iov)) with (take (Z.to_nat (iov_len vec)) (iov_base vec) ++ gathered iov).
    rewrite (sound_base _ Hv). pose proof Hw as [j Hj].
    apply wp_bind, (wp_write_full _ _ j (Ofd ino off fl)); [done|unfold writable; simpl; by rewrite Hacc|].
    intros k1 Hv1. destruct (writer_write _ _ _ _ _ _ _ _ _ Hw Hfl Hj Hv1) as (Hw1 & Hc1 & Hn1).
    pose proof (strlen_nonneg (iov_base vec)).
    rewrite wrap_s_id by (unfold in_s, INT_MAX in *; lia).
    replace (strlen (iov_base vec) <? 0) with false by lia.
    replace (strlen (iov_base vec) <? iov_len vec) with false by lia.
    eapply wp_mono; [apply (IH (off + strlen (iov_base vec))); done || lia|].
    cbn [kern trace]. intros o q (-> & Ht & Hn & Hc). rewrite strlen_app.
    split_and!; [f_equal; lia|done|congruence|].
    rewrite Hc, Hc1, Z2Nat.inj_add by lia. unfold strlen. rewrite Nat2Z.id. apply overwrite_twice.
Qed.

Lemma read_vecs_full fd ino off fl iov ds rest total bufs p :
  access fl = O_RDONLY -> 0 <= off -> writer (view (kern p)) fd ino off fl ->
  Forall2 (fun (x : iovec) d => iov_len x = strlen d /\ strlen d <= INT_MAX) iov ds ->
  drop (Z.to_nat off) (content (view (kern p)) ino) = concat ds ++ rest ->
  wp (read_vecs fd iov total bufs) p (fun o q => o = Ret (total + strlen (concat ds), bufs ++ ds) /\
    trace q = trace p).
Proof.
  intros Hacc. revert off ds total bufs p.
  induction iov as [|vec iov IH]; intros off ds total bufs p Ho Hw Hall Hdata; simpl.
  - inversion Hall; subst. apply wp_ret. unfold strlen. simpl. by rewrite Z.add_0_r, app_nil_r.
  - inversion Hall as [|? d ? ds' [Hlen Hmax] Hrest]; subst. destruct Hw as [j Hj].
    pose proof (strlen_nonneg d).
    apply wp_bind, (wp_read_full _ _ j (Ofd ino off fl)); [done|unfold readable; simpl; by rewrite Hacc|lia|].
    intros bs k1 Hbs Hv1. simpl in Hbs. rewrite Hdata in Hbs. cbn [concat] in Hbs.
    rewrite Hlen, <- app_assoc in Hbs. unfold strlen in Hbs. rewrite Nat2Z.id, take_app_length in Hbs. subst bs.
    rewrite wrap_s_id by (unfold in_s, INT_MAX in *; lia).
    replace (strlen d <? 0) with false by lia. replace (strlen d <? iov_len vec) with false by lia.
    eapply wp_mono; [apply (IH (off + strlen d) ds'); try done; [lia|..]|].
    + cbn [kern]. rewrite Hv1. exists j. unfold v_read. erewrite lookup_set_ofd by done. by rewrite decide_True.
    + cbn [kern]. rewrite Hv1. unfold v_read. rewrite content_set_ofd.
      rewrite Z2Nat.inj_add, <- drop_drop, Hdata by lia. cbn [concat]. rewrite <- app_assoc.
      unfold strlen. by rewrite Nat2Z.id, drop_app_length.
    + intros o q (-> & Ht). cbn [concat]. rewrite strlen_app, <- app_assoc. split; [|done].
      f_equal. f_equal. lia.
Qed.

Lemma overwrite_start d bs : exists rest, overwrite d 0 bs = bs ++ rest.
Proof.
  destruct (decide (bs = [])) as [->|H]; [by exists d|]. rewrite overwrite_ne by done. simpl. by eexists.
Qed.

Lemma compare_bufs_same (w : list iovec) p : compare_bufs w (iov_base <$> w) p = (Ret tt, p).
Proof.
  induction w as [|x w IH]; [done|]. cbn [compare_bufs fmap list_fmap].
  by rewrite bool_decide_true by done.
Qed.

Lemma write_iovecs_sound : Forall sound_vec write_iovecs.
Proof. apply Forall_fmap, Forall_true. intros i. split; by vm_compute. Qed.

Lemma gathered_write : gathered write_iovecs = concat (iov_base <$> write_iovecs).
Proof. by vm_compute. Qed.

Lemma read_matches : Forall2 (fun (x : iovec) d => iov_len x = strlen d /\ strlen d <= INT_MAX)
  read_iovecs (iov_base <$> write_iovecs).
Proof.
  unfold read_iovecs, write_iovecs. rewrite <- list_fmap_compose.
  apply Forall2_fmap_2, Forall_Forall2_diag, Forall_true. intros i. by vm_compute.
Qed.

Lemma writev_full fd ino off fl p :
  has_flag fl O_APPEND = false -> access fl = O_WRONLY -> 0 <= off -> writer (view (kern p)) fd ino off fl ->
  wp (writev fd write_iovecs NUMBER_VECS) p (fun o q => o = Ret (NUMBER_VECS * CHUNK_SIZE) /\ trace q = trace p /\
    v_names (view (kern q)) = v_names (view (kern p)) /\
    content (view (kern q)) ino = overwrite (content (view (kern p)) ino) (Z.to_nat off) (gathered write_iovecs)).
Proof.
  intros. eapply wp_mono; [by apply (write_vecs_full fd ino off fl write_iovecs 0), write_iovecs_sound|].
  intros o q (-> & ?). split; [|done]. by vm_compute.
Qed.

Lemma readv_full fd ino fl rest p :
  access fl = O_RDONLY -> writer (view (kern p)) fd ino 0 fl ->
  content (view (kern p)) ino = concat (iov_base <$> write_iovecs) ++ rest ->
  wp (readv fd read_iovecs NUMBER_VECS) p (fun o q =>
    o = Ret (NUMBER_VECS * CHUNK_SIZE, iov_base <$> write_iovecs) /\ trace q = trace p).
Proof.
  intros ? ? Hc. eapply wp_mono.
  - by apply (read_vecs_full fd ino 0 fl read_iovecs (iov_base <$> write_iovecs) rest 0 []); [..|exact read_matches|].
  - intros o q (-> & ?). split; [|done]. by vm_compute.
Qed.

(** what [writev] writes, [readv] reads back.  On a kernel without failures the program ends
    with status 0 after its success message: no assertion fails, so both transfers report all
    the bytes and every buffer read equals the buffer written, whatever the file held before. *)
Theorem vector_main_passes a0 path rest p :
  exists q, vector_main (a0 :: path :: rest) p = (Ret 0, q) /\
    trace q = trace p ++ [Out (str "Done... no assertion errors" ++ [NL])].
Proof.
  cut (wp (vector_main (a0 :: path :: rest)) p (fun o q => o = Ret 0 /\
    trace q = trace p ++ [Out (str "Done... no assertion errors" ++ [NL])])).
  { intros (o & q & HR & -> & ?)%wp_elim. by exists q. }
  unfold vector_main. apply wp_bind, wp_ret, wp_bind, wp_open_full; [by right|].
  intros fd i ino k1 Hmay Hv1.
  pose proof (writer_open _ _ _ _ _ _ Hmay) as Hw. rewrite <- Hv1 in Hw.
  apply wp_bind. eapply wp_mono; [by apply (writev_full fd ino 0 (flags [O_WRONLY; O_CREAT]))|].
  intros o q1 (-> & Ht1 & Hn1 & Hc1). rewrite Z.eqb_refl. apply wp_bind, wp_ret.
  apply wp_bind, wp_fclose_any. intros _ q2 Ht2 Hn2 Hd2.
  assert (v_names (view (kern q2)) !! path = Some ino) as Hname.
  { rewrite Hn2, Hn1. cbn [kern]. rewrite Hv1. simpl. apply lookup_insert_eq. }
  apply wp_bind, wp_open_full; [left; by eexists|]. intros fd2 i2 ino2 k3 Hmay2 Hv3.
  assert (ino2 = ino) as -> by (destruct Hmay2 as (_ & _ & _ & [?|[? _]]); congruence).
  destruct (overwrite_start (content (view k1) ino) (gathered write_iovecs)) as [tl Htl].
  pose proof (writer_open _ _ _ _ _ _ Hmay2) as Hw2. rewrite <- Hv3 in Hw2.
  apply wp_bind. eapply wp_mono.
  { apply (readv_full fd2 ino O_RDONLY tl); [done|exact Hw2|]. cbn [kern]. rewrite Hv3.
    unfold content at 1. simpl. rewrite lookup_insert_eq. simpl. unfold content at 1. rewrite Hd2.
    change (content (view (kern q1)) ino = concat (iov_base <$> write_iovecs) ++ tl).
    by rewrite Hc1, <- gathered_write. }
  intros o q4 (-> & Ht4). cbn [fst snd]. rewrite Z.eqb_refl. apply wp_bind, wp_ret.
  apply wp_bind. unfold wp at 1. rewrite compare_bufs_same. cbn [fst snd].
  apply wp_bind, wp_printf, wp_ret. split; [done|]. cbn in *. congruence.
Qed.
End Specs.

(** ** Witnesses *)

Definition writing : proc fsv :=
  Proc (Fsv {[ str "f" := 1 ]} {[ 1 := str "0123456" ]} {[ 0 := Ofd 1 1 O_WRONLY ]} {[ 3 := 0 ]}) 0 [].

Lemma writev_gathers_witness :
  (exists q, writev 3 [Iovec (str "ab") 2; Iovec (str "c") 1; Iovec (str "unused") 6] 2 writing = (Ret 3, q) /\
    content (kern q) 1 = str "0abc456") /\
  writev 3 [Iovec [] 1; Iovec [] (2 ^ 63 - 1)] 2 writing = (Ret (-1), Proc (kern writing) EINVAL []).
Proof.
  split.
  - destruct (writev_gathers 3 1 1 O_WRONLY [Iovec (str "ab") 2; Iovec (str "c") 1; Iovec (str "unused") 6] 2 writing)
      as (_ & Hexact & Hgo); [done|lia|by vm_compute|by vm_compute|repeat constructor; by vm_compute|by exists 0|].
    destruct Hgo as (r & q & c & HR & _); [lia| |repeat constructor; by vm_compute|].
    { rewrite Hexact; [by vm_compute|]. repeat constructor; by vm_compute. }
    exists q. vm_compute in HR. injection HR as <- <-. split; by vm_compute.
  - destruct (writev_gathers 3 1 1 O_WRONLY [Iovec [] 1; Iovec [] (2 ^ 63 - 1)] 2 writing)
      as (Hbad & Hexact & _); [done|lia|by vm_compute|by vm_compute|repeat constructor; by vm_compute|by exists 0|].
    apply Hbad. right. apply Hexact; [repeat constructor; by vm_compute|by vm_compute].
Defined.

Lemma vector_main_passes_witness :
  exists q, vector_main [str "v"; str "src"] (disk (str "0123456")) = (Ret 0, q).
Proof.
  destruct (vector_main_passes (str "v") (str "src") [] (disk (str "0123456"))) as (q & HR & _).
  exists q. exact HR.
Defined.
