(* ===== verification/Dup.v ===== *)
(** * dup and dup2

    dup.c (05-file-io-further-details) makes [dup] and [dup2] out of [fcntl] and [close].  The
    kernel's table of descriptors is observed through [fds]: which descriptions the descriptors
    of the process refer to.  The specification is that of POSIX: the copy is the lowest free
    descriptor, or the one asked for, which is closed first if need be. *)

From Stdlib Require Import ZArith Lia String Ascii.
From S2P Require Import Prelude CString Kernel.

Definition F_DUPFD : Z := 0.
Definition F_GETFD : Z := 1.
Definition EMFILE : Z := 24.

(** ** The kernel *)

Class Fcntl (K : Type) := {
  k_fcntl : Z -> Z -> Z -> K -> (Z + Z) * K;       (* descriptor, command, argument *)
  k_closefd : Z -> K -> (Z + Z) * K
}.

(** [n] is the lowest descriptor from [from] on that is not in use. *)
Definition lowest_free (t : gmap Z Z) (from n : Z) : Prop :=
  from <= n /\ t !! n = None /\ forall m, from <= m < n -> is_Some (t !! m).

Class FcntlLaws (K : Type) `{!Fcntl K} := {
  fds : K -> gmap Z Z;
  open_max : K -> Z;
  getfd_law : forall k fd a,
    match k_fcntl fd F_GETFD a k with
    | (inl r, k') => 0 <= r /\ is_Some (fds k !! fd) /\ fds k' = fds k /\ open_max k' = open_max k
    | (inr e, k') => e = EBADF /\ fds k !! fd = None /\ fds k' = fds k /\ open_max k' = open_max k
    end;
  dupfd_law : forall k fd a,
    match k_fcntl fd F_DUPFD a k with
    | (inl n, k') => exists d, fds k !! fd = Some d /\ 0 <= a < open_max k /\
                     lowest_free (fds k) a n /\ n < open_max k /\ fds k' = <[n := d]> (fds k)
    | (inr e, k') => fds k' = fds k /\
        (e = EBADF /\ fds k !! fd = None \/ e = EINVAL /\ ~ (0 <= a < open_max k) \/
         e = EMFILE /\ 0 <= a < open_max k /\ forall n, a <= n < open_max k -> is_Some (fds k !! n))
    end;
  closefd_law : forall k fd,
    match k_closefd fd k with
    | (inl r, k') => r = 0 /\ is_Some (fds k !! fd) /\ fds k' = delete fd (fds k) /\ open_max k' = open_max k
    | (inr e, k') => open_max k' = open_max k /\
        (e = EBADF /\ fds k !! fd = None /\ fds k' = fds k \/ e <> EBADF /\ fds k' = delete fd (fds k))
    end
}.

(** ** The functions *)

Section Dup.
Context {K : Type} `{!Fcntl K}.

Definition fcntl (fd cmd a : Z) : M (proc K) Z := syscall (-1) (k_fcntl fd cmd a).
Definition closefd (fd : Z) : M (proc K) Z := syscall (-1) (k_closefd fd).

Definition dup (oldfd : Z) : M (proc K) Z :=
  r ← fcntl oldfd F_GETFD 0;
  if r <? 0 then set_errno EBADF ;; mret (-1)
  else fcntl oldfd F_DUPFD 0.

Definition dup2 (oldfd newfd : Z) : M (proc K) Z :=
  r ← fcntl oldfd F_GETFD 0;
  if r <? 0 then set_errno EBADF ;; mret (-1)
  else if oldfd =? newfd then mret newfd
  else
    ret ← fcntl newfd F_GETFD 0;
    e ← get_errno;
    if (ret <? 0) && negb (e =? EBADF) then mret (-1)
    else
      (if 0 <=? ret then closefd newfd ;; mret tt else mret tt) ;;
      fcntl oldfd F_DUPFD newfd.
End Dup.

(** ** Correctness *)

Section Specs.
Context {K : Type} `{!Fcntl K, !FcntlLaws K}.
Implicit Types (p q : proc K).

Lemma wp_getfd fd a p (Q : outcome Z -> proc K -> Prop) :
  (forall r k', 0 <= r -> is_Some (fds (kern p) !! fd) -> fds k' = fds (kern p) ->
     open_max k' = open_max (kern p) -> Q (Ret r) (Proc k' (errno p) (trace p))) ->
  (forall k', fds (kern p) !! fd = None -> fds k' = fds (kern p) ->
     open_max k' = open_max (kern p) -> Q (Ret (-1)) (Proc k' EBADF (trace p))) ->
  wp (fcntl fd F_GETFD a) p Q.
Proof.
  intros Hok Herr. unfold wp, fcntl, syscall. pose proof (getfd_law (kern p) fd a) as H.
  destruct (k_fcntl _ _ _ _) as [[r|e] k']; simpl.
  - destruct H as (? & ? & ? & ?). auto.
  - destruct H as (-> & ? & ? & ?). auto.
Qed.

Lemma wp_dupfd fd a p (Q : outcome Z -> proc K -> Prop) :
  (forall n d k', fds (kern p) !! fd = Some d -> 0 <= a < open_max (kern p) ->
     lowest_free (fds (kern p)) a n -> n < open_max (kern p) -> fds k' = <[n := d]> (fds (kern p)) ->
     Q (Ret n) (Proc k' (errno p) (trace p))) ->
  (forall e k', fds k' = fds (kern p) ->
     (e = EBADF /\ fds (kern p) !! fd = None \/ e = EINVAL /\ ~ (0 <= a < open_max (kern p)) \/
      e = EMFILE /\ 0 <= a < open_max (kern p) /\
      forall n, a <= n < open_max (kern p) -> is_Some (fds (kern p) !! n)) ->
     Q (Ret (-1)) (Proc k' e (trace p))) ->
  wp (fcntl fd F_DUPFD a) p Q.
Proof.
  intros Hok Herr. unfold wp, fcntl, syscall. pose proof (dupfd_law (kern p) fd a) as H.
  destruct (k_fcntl _ _ _ _) as [[r|e] k']; simpl.
  - destruct H as (d & ? & ? & ? & ? & ?). eauto.
  - destruct H. auto.
Qed.

(** Closing a descriptor that is open closes it, whatever the call returns. *)
Lemma wp_closefd fd p (Q : outcome Z -> proc K -> Prop) :
  is_Some (fds (kern p) !! fd) ->
  (forall r e k', fds k' = delete fd (fds (kern p)) -> open_max k' = open_max (kern p) ->
     Q (Ret r) (Proc k' e (trace p))) ->
  wp (closefd fd) p Q.
Proof.
  intros [d Hd] HQ. unfold wp, closefd, syscall. pose proof (closefd_law (kern p) fd) as H.
  destruct (k_closefd _ _) as [[r|e] k']; simpl.
  - destruct H as (_ & _ & ? & ?). auto.
  - destruct H as (? & [(_ & ? & _)|(_ & ?)]); [congruence|auto].
Qed.

(** [dup] behaves as POSIX asks: on an open descriptor it returns the lowest free one, made
    to refer to the same description and leaving the others alone, or fails with EMFILE when
    there is none left; on any other it fails with EBADF.  A failure changes no descriptor. *)
Theorem dup_spec oldfd p :
  exists r q, dup oldfd p = (Ret r, q) /\ trace q = trace p /\
    match fds (kern p) !! oldfd with
    | None => r = -1 /\ errno q = EBADF /\ fds (kern q) = fds (kern p)
    | Some d =>
        (lowest_free (fds (kern p)) 0 r /\ r < open_max (kern p) /\ fds (kern q) = <[r := d]> (fds (kern p))) \/
        (r = -1 /\ fds (kern q) = fds (kern p) /\ (errno q = EMFILE \/ errno q = EINVAL /\ open_max (kern p) <= 0) /\
         forall n, 0 <= n < open_max (kern p) -> is_Some (fds (kern p) !! n))
    end.
Proof.
  cut (wp (dup oldfd) p (fun o q => exists r, o = Ret r /\ trace q = trace p /\
    match fds (kern p) !! oldfd with
    | None => r = -1 /\ errno q = EBADF /\ fds (kern q) = fds (kern p)
    | Some d =>
        (lowest_free (fds (kern p)) 0 r /\ r < open_max (kern p) /\ fds (kern q) = <[r := d]> (fds (kern p))) \/
        (r = -1 /\ fds (kern q) = fds (kern p) /\ (errno q = EMFILE \/ errno q = EINVAL /\ open_max (kern p) <= 0) /\
         forall n, 0 <= n < open_max (kern p) -> is_Some (fds (kern p) !! n))
    end)).
  { intros (o & q & HR & r & -> & H)%wp_elim. by exists r, q. }
  apply wp_bind, wp_getfd.
  - intros r k1 Hr [d Hd] H1 H2. rewrite Hd. replace (r <? 0) with false by lia.
    apply wp_dupfd; cbn [kern]; rewrite H1, H2.
    + intros n d' k2 Hd' _ Hlow Hn Hk2. simplify_eq. exists n. split_and!; [done..|by left].
    + intros e k2 Hk2 He. exists (-1). split_and!; [done..|]. right. cbn [kern errno].
      destruct He as [[_ ?]|[[-> ?]|(-> & _ & ?)]]; [congruence|..]; split_and!; try done; [right; split; [done|lia]| |by left].
      intros. lia.
  - intros k1 Hnone H1 H2. rewrite Hnone. change (-1 <? 0) with true.
    apply wp_bind, wp_set_errno. exists (-1). by split_and!.
Qed.

(** The outcome of [dup2]: the four cases of its description. *)
Definition dup2_outcome (t : gmap Z Z) (max oldfd newfd r e : Z) (t' : gmap Z Z) : Prop :=
  match t !! oldfd with
  | None => r = -1 /\ e = EBADF /\ t' = t
  | Some d =>
      if decide (oldfd = newfd) then r = newfd /\ t' = t
      else if decide (0 <= newfd < max) then r = newfd /\ t' = <[newfd := d]> t
      else r = -1 /\ e = EINVAL /\ t' = delete newfd t
  end.

Lemma dup2_last_step oldfd newfd d t p :
  fds (kern p) = delete newfd t -> t !! oldfd = Some d -> oldfd <> newfd ->
  wp (fcntl oldfd F_DUPFD newfd) p (fun o q => exists r, o = Ret r /\ trace q = trace p /\
    dup2_outcome t (open_max (kern p)) oldfd newfd r (errno q) (fds (kern q))).
Proof.
  intros Ht Hd Hne.
  assert (fds (kern p) !! oldfd = Some d) as Hd' by (by rewrite Ht, lookup_delete_ne).
  assert (fds (kern p) !! newfd = None) as Hn by (by rewrite Ht, lookup_delete_eq).
  apply wp_dupfd.
  - intros n d' k2 Hd2 Hin (Hle & _ & Hlow) _ Hk2. simplify_eq.
    assert (n = newfd) as ->.
    { destruct (decide (newfd < n)) as [Hlt|]; [|lia].
      destruct (Hlow newfd) as [x Hx]; [lia|congruence]. }
    exists newfd. split_and!; [done..|]. unfold dup2_outcome.
    rewrite Hd, decide_False, decide_True by done. cbn [kern].
    by rewrite Hk2, Ht, insert_delete_eq.
  - intros e k2 Hk2 [[_ ?]|[[-> Hout]|(_ & Hin & Hall)]]; [congruence|..].
    + exists (-1). split_and!; [done..|]. unfold dup2_outcome.
      rewrite Hd, decide_False, decide_False by done. cbn [kern errno]. rewrite Hk2, Ht. by split_and!.
    + destruct (Hall newfd) as [x Hx]; [lia|congruence].
Qed.

(** [dup2] behaves as its description says.  A closed [oldfd] is refused with EBADF and
    [newfd] stays open; [oldfd = newfd] is a no-op that returns it; otherwise [newfd], closed
    first if it was open, ends up referring to what [oldfd] refers to and is returned, other
    descriptors untouched; a [newfd] out of range gives -1 (with EINVAL, where POSIX has EBADF). *)
Theorem dup2_spec oldfd newfd p :
  exists r q, dup2 oldfd newfd p = (Ret r, q) /\ trace q = trace p /\
    dup2_outcome (fds (kern p)) (open_max (kern p)) oldfd newfd r (errno q) (fds (kern q)).
Proof.
  cut (wp (dup2 oldfd newfd) p (fun o q => exists r, o = Ret r /\ trace q = trace p /\
    dup2_outcome (fds (kern p)) (open_max (kern p)) oldfd newfd r (errno q) (fds (kern q)))).
  { intros (o & q & HR & r & -> & H)%wp_elim. by exists r, q. }
  apply wp_bind, wp_getfd.
  2: { intros k1 Hnone H1 H2. apply wp_bind, wp_set_errno. exists (-1). split_and!; [done..|].
       unfold dup2_outcome. by rewrite Hnone. }
  intros r k1 Hr [d Hd] H1 H2. replace (r <? 0) with false by lia.
  destruct (Z.eqb_spec oldfd newfd) as [->|Hne].
  { exists newfd. split_and!; [done..|]. unfold dup2_outcome. by rewrite Hd, decide_True. }
  apply wp_bind, wp_getfd; cbn [kern errno trace]; rewrite H1, H2.
  - intros r2 k2 Hr2 Hopen H3 H4. apply wp_bind, wp_get_errno.
    replace (r2 <? 0) with false by lia. replace (0 <=? r2) with true by lia. cbn [andb].
    apply wp_bind, wp_bind, wp_closefd; [cbn [kern]; by rewrite H3|].
    cbn [kern]. intros r3 e k3 H5 H6. apply wp_ret. rewrite <- H4, <- H6.
    eapply (dup2_last_step _ _ d _ (Proc k3 e _)); [|done|done]. cbn [kern]. congruence.
  - intros k2 Hclosed H3 H4. apply wp_bind, wp_get_errno. cbn [errno].
    change ((-1 <? 0) && negb (EBADF =? EBADF)) with false. change (0 <=? -1) with false.
    apply wp_bind, wp_ret. rewrite <- H4.
    eapply (dup2_last_step _ _ d _ (Proc k2 EBADF _)); [|done|done]. cbn [kern].
    by rewrite delete_id.
Qed.
End Specs.

(** ** A table of eight descriptors, and witnesses *)

Fixpoint first_free (t : gmap Z Z) (fuel : nat) (from : Z) : option Z :=
  match fuel with
  | O => None
  | S n => match t !! from with None => Some from | Some _ => first_free t n (from + 1) end
  end.

Lemma first_free_ok t fuel from :
  match first_free t fuel from with
  | Some n => lowest_free t from n /\ n < from + Z.of_nat fuel
  | None => forall n, from <= n < from + Z.of_nat fuel -> is_Some (t !! n)
  end.
Proof.
  revert from. induction fuel as [|fuel IH]; intros from; simpl; [lia|].
  destruct (t !! from) as [d|] eqn:E.
  - specialize (IH (from + 1)). destruct (first_free t fuel (from + 1)) as [n|].
    + destruct IH as [(Hle & Hn & Hlow) Hlt]. split; [|lia]. split_and!; [lia|done|].
      intros m Hm. destruct (decide (m = from)) as [->|]; [by eexists|]. apply Hlow. lia.
    + intros n Hn. destruct (decide (n = from)) as [->|]; [by eexists|]. apply IH. lia.
  - split; [|lia]. split_and!; [lia|done|lia].
Qed.

Definition table_fcntl (fd cmd a : Z) (t : gmap Z Z) : (Z + Z) * gmap Z Z :=
  match t !! fd with
  | None => (inr EBADF, t)
  | Some d =>
      if cmd =? F_GETFD then (inl 0, t)
      else if (0 <=? a) && (a <? 8) then
        match first_free t (Z.to_nat (8 - a)) a with
        | Some n => (inl n, <[n := d]> t)
        | None => (inr EMFILE, t)
        end
      else (inr EINVAL, t)
  end.

Definition table_close (fd : Z) (t : gmap Z Z) : (Z + Z) * gmap Z Z :=
  match t !! fd with Some _ => (inl 0, delete fd t) | None => (inr EBADF, t) end.

#[export] Instance table_kernel : Fcntl (gmap Z Z) := {| k_fcntl := table_fcntl; k_closefd := table_close |}.

#[export] Program Instance table_laws : FcntlLaws (gmap Z Z) := {| fds := id; open_max := fun _ => 8 |}.
Next Obligation.
  intros t fd a. simpl. unfold table_fcntl. destruct (t !! fd) eqn:E; simpl; [|done].
  by split_and!.
Qed.
Next Obligation.
  intros t fd a. simpl. unfold table_fcntl, id. destruct (t !! fd) as [d|] eqn:E; simpl; [|by auto].
  destruct (Z.leb_spec 0 a), (Z.ltb_spec a 8); cbn [andb]; try (split; [done|]; right; left; split; [done|lia]).
  pose proof (first_free_ok t (Z.to_nat (8 - a)) a) as H1.
  destruct (first_free t (Z.to_nat (8 - a)) a) as [n|].
  - destruct H1 as [? ?]. exists d. split_and!; try done; lia.
  - split; [done|]. right. right. split_and!; [done|lia|lia|]. intros n Hn. apply H1. lia.
Qed.
Next Obligation.
  intros t fd. simpl. unfold table_close, id. destruct (t !! fd) eqn:E; [|by auto]. by split_and!.
Qed.

Definition some_fds : proc (gmap Z Z) := Proc {[ 0 := 10; 1 := 11; 3 := 13 ]} 0 [].

Lemma dup_spec_witness : exists q, dup 3 some_fds = (Ret 2, q) /\ kern q !! 2 = Some 13.
Proof.
  destruct (dup_spec 3 some_fds) as (r & q & HR & _). exists q. split; [|by vm_compute in HR; injection HR as <- <-].
  vm_compute in HR. by injection HR as <- <-.
Defined.

Lemma dup2_spec_witness : exists q, dup2 3 1 some_fds = (Ret 1, q) /\ kern q !! 1 = Some 13.
Proof.
  destruct (dup2_spec 3 1 some_fds) as (r & q & HR & _). exists q.
  vm_compute in HR. by injection HR as <- <-.
Defined.
