(* ===== verification/Attr.v ===== *)
(** * File attributes and permissions

    chattr.c and exercise6_chmod.c (15-file-attributes), and filePermStr
    (tlpi-dist/files/file_perms.c). *)

From Stdlib Require Import ZArith Lia String Ascii.
From S2P Require Import Prelude CString Kernel Files.

(** ** The kernel

    [attrs] are the inode flags of each i-node, [modes] its type and permission bits; [named]
    finds the i-node of a path, [opened] that of a descriptor. *)

Class AttrIO (K : Type) := {
  k_openat : bytes -> K -> (Z + Z) * K;
  k_closeat : Z -> K -> (Z + Z) * K;
  k_getflags : Z -> K -> (Z + Z) * K;
  k_setflags : Z -> Z -> K -> (Z + Z) * K;
  k_stat : bytes -> K -> (Z + Z) * K;             (* st_mode *)
  k_chmod : bytes -> Z -> K -> (Z + Z) * K
}.

Class AttrLaws (K : Type) `{!AttrIO K} := {
  named : K -> bytes -> option Z;
  opened : K -> gmap Z Z;
  attrs : K -> gmap Z Z;
  open_attr : forall k path,
    match k_openat path k with
    | (inl fd, k') => 0 <= fd <= INT_MAX /\ exists ino, named k path = Some ino /\
        opened k' = <[fd := ino]> (opened k) /\ attrs k' = attrs k /\ named k' = named k
    | (inr _, k') => opened k' = opened k /\ attrs k' = attrs k /\ named k' = named k
    end;
  close_attr : forall k fd r k', k_closeat fd k = (r, k') ->
    attrs k' = attrs k /\ named k' = named k /\
    (opened k' = opened k \/ opened k' = delete fd (opened k));
  getflags_attr : forall k fd r k', k_getflags fd k = (r, k') ->
    opened k' = opened k /\ attrs k' = attrs k /\ named k' = named k /\
    match r with inl v => exists ino, opened k !! fd = Some ino /\ attrs k !! ino = Some v | inr _ => True end;
  setflags_attr : forall k fd v r k', k_setflags fd v k = (r, k') ->
    opened k' = opened k /\ named k' = named k /\
    match r with
    | inl _ => exists ino, opened k !! fd = Some ino /\ attrs k' = <[ino := v]> (attrs k)
    | inr _ => attrs k' = attrs k
    end
}.

(** ** chattr.c *)

Definition ACTION_ADD : ascii := "+".
Definition ACTION_REMOVE : ascii := "-".
Definition ACTION_ONLY : ascii := "=".

Definition ATTRS_LIST : bytes := str "acdeijstuADT".

(** The flags of linux/fs.h. *)
Definition FS_SECRM_FL : Z := 1.
Definition FS_UNRM_FL : Z := 2.
Definition FS_COMPR_FL : Z := 4.
Definition FS_IMMUTABLE_FL : Z := 16.
Definition FS_APPEND_FL : Z := 32.
Definition FS_NODUMP_FL : Z := 64.
Definition FS_NOATIME_FL : Z := 128.
Definition FS_JOURNAL_DATA_FL : Z := 16384.
Definition FS_NOTAIL_FL : Z := 32768.
Definition FS_DIRSYNC_FL : Z := 65536.
Definition FS_TOPDIR_FL : Z := 131072.
Definition FS_EXTENT_FL : Z := 524288.

Definition fs_attrs : list (ascii * Z) :=
  [("a", FS_APPEND_FL); ("c", FS_COMPR_FL); ("d", FS_NODUMP_FL); ("e", FS_EXTENT_FL);
   ("i", FS_IMMUTABLE_FL); ("j", FS_JOURNAL_DATA_FL); ("s", FS_SECRM_FL); ("t", FS_NOTAIL_FL);
   ("u", FS_UNRM_FL); ("A", FS_NOATIME_FL); ("D", FS_DIRSYNC_FL); ("T", FS_TOPDIR_FL)]%char.

Fixpoint lookup_attr_table_entry (table : list (ascii * Z)) (attr : ascii) : option (ascii * Z) :=
  match table with
  | [] => None
  | entry :: table' => if Ascii.eqb entry.1 attr then Some entry else lookup_attr_table_entry table' attr
  end.

Definition is_valid_attr (attr : ascii) : bool := existsb (fun c => Ascii.eqb c attr) ATTRS_LIST.

Definition transform_attrs_add (attrs mask : Z) : Z := Z.lor attrs mask.
Definition transform_attrs_remove (attrs mask : Z) : Z := Z.land attrs (Z.lnot mask).
Definition transform_attrs_only (attrs mask : Z) : Z := mask.

Section Chattr.
Context {K : Type} `{!AttrIO K}.

Definition print_usage {A} : M (proc K) A :=
  eprintf (str "Usage: ./prog_chattr [mode] files" ++ [NL]) ;; exit_ EXIT_FAILURE.

Definition validate_mode_string (mode_string : bytes) : M (proc K) unit :=
  (if s32 (strlen mode_string) <? 2 then
     eprintf (str "ERROR: Invalid mode string specified (too short)" ++ [NL]) ;; print_usage
   else mret tt) ;;
  for_each (fun attr =>
    if negb (is_valid_attr attr) then
      eprintf (str "ERROR: Attribute '" ++ [attr] ++ str "' is invalid" ++ [NL]) ;; print_usage
    else mret tt) (drop 1 mode_string).

Fixpoint mask_loop (mask : Z) (attrs : bytes) : M (proc K) Z :=
  match attrs with
  | [] => mret mask
  | attr :: attrs' =>
      match lookup_attr_table_entry fs_attrs attr with
      | None => eprintf (str "ERROR: Invalid Attr '" ++ [attr] ++ str "'" ++ [NL]) ;; exit_ EXIT_FAILURE
      | Some entry => mask_loop (Z.lor mask entry.2) attrs'
      end
  end.
Definition get_mask_for_attrs (attrs : bytes) : M (proc K) Z := mask_loop 0 attrs.

(** The descriptor is kept in a [size_t]; the calls get it back as an [int]. *)
Definition do_file (transform_attrs : Z -> Z -> Z) (mask : Z) (filename : bytes) : M (proc K) unit :=
  r ← syscall (-1) (k_openat filename);
  let fd := u64 r in
  if fd <? 0 then eprintf (str "ERROR: Unable to open " ++ filename ++ str ", skipping" ++ [NL])
  else
    g ← syscall None (fun k => let '(r, k') := k_getflags (s32 fd) k in
                               (match r with inl v => inl (Some v) | inr e => inr e end, k'));
    (match g with
     | None => eprintf (str "ERROR: Unable to get flags on " ++ filename ++ str ", skipping" ++ [NL])
     | Some current_attrs =>
         printf (str "cur attrs: 0x" ++ hex8 false current_attrs ++ str ", mask: 0x" ++ hex8 true mask ++ [NL]) ;;
         let new_attrs := transform_attrs current_attrs mask in
         printf (str "new attrs: 0x" ++ hex8 true new_attrs ++ [NL]) ;;
         s ← syscall (-1) (k_setflags (s32 fd) new_attrs);
         if s =? -1 then eprintf (str "ERROR: Unable to set flags on " ++ filename ++ str ", skipping" ++ [NL])
         else mret tt
     end) ;;
    syscall (-1) (k_closeat (s32 fd)) ;; mret tt.

Definition do_action (attrs : bytes) (files : list bytes) (transform_attrs : Z -> Z -> Z) : M (proc K) Z :=
  mask ← get_mask_for_attrs attrs;
  for_each (do_file transform_attrs mask) files ;;
  mret 0.

Definition chattr_main (argv : list bytes) : M (proc K) Z :=
  if Z.of_nat (length argv) <? 3 then print_usage
  else
    mode_string ← the (argv !! 1%nat);
    validate_mode_string mode_string ;;
    action ← the (char_at mode_string 0);
    let attrs := drop 1 mode_string in
    let files := drop 2 argv in
    if Ascii.eqb action ACTION_ADD then do_action attrs files transform_attrs_add
    else if Ascii.eqb action ACTION_REMOVE then do_action attrs files transform_attrs_remove
    else if Ascii.eqb action ACTION_ONLY then do_action attrs files transform_attrs_only
    else mret 0.
End Chattr.

(** *** What the letters mean *)

Definition flag_of (attr : ascii) : Z :=
  match lookup_attr_table_entry fs_attrs attr with Some e => e.2 | None => 0 end.
Definition mask_of (letters : bytes) : Z := foldl (fun m c => Z.lor m (flag_of c)) 0 letters.

(** Every letter the mode may use is in the table. *)
Lemma valid_attr_in_table c :
  is_valid_attr c = true -> exists e, lookup_attr_table_entry fs_attrs c = Some e /\ e.2 = flag_of c.
Proof.
  unfold is_valid_attr, flag_of. intros [d [Hin Hd]]%existsb_exists. apply Ascii.eqb_eq in Hd as ->.
  cbn in Hin. repeat destruct Hin as [<-|Hin]; [eexists; split; reflexivity..|done].
Qed.

(** The three operations, and what they do to a single flag. *)
Inductive operation := Add | Remove | Only.
Definition action_of (c : ascii) : option operation :=
  if Ascii.eqb c "+" then Some Add else if Ascii.eqb c "-" then Some Remove
  else if Ascii.eqb c "=" then Some Only else None.
Definition transform (op : operation) : Z -> Z -> Z :=
  match op with
  | Add => transform_attrs_add | Remove => transform_attrs_remove | Only => transform_attrs_only
  end.

Lemma transform_bit op v m i : 0 <= i ->
  Z.testbit (transform op v m) i =
  match op with
  | Add => Z.testbit v i || Z.testbit m i
  | Remove => Z.testbit v i && negb (Z.testbit m i)
  | Only => Z.testbit m i
  end.
Proof.
  intros Hi. destruct op; simpl; unfold transform_attrs_add, transform_attrs_remove.
  - by rewrite Z.lor_spec.
  - by rewrite Z.land_spec, Z.lnot_spec.
  - done.
Qed.

Lemma transform_twice op v m : transform op (transform op v m) m = transform op v m.
Proof.
  apply Z.bits_inj'. intros i Hi. rewrite !transform_bit by done.
  destruct op, (Z.testbit v i), (Z.testbit m i); done.
Qed.

Section ChattrSpec.
Context {K : Type} `{!AttrIO K, !AttrLaws K}.
Implicit Types (p q : proc K) (k : K).

Definition quiet (t : list event) : Prop := Forall (fun e => exists s, e = Out s) t.

Lemma quiet_app t t' : quiet (t ++ t') <-> quiet t /\ quiet t'.
Proof. apply Forall_app. Qed.

Lemma not_quiet_err s t : ~ quiet (t ++ [Err s]).
Proof. rewrite quiet_app. intros [_ H]. apply Forall_singleton in H as [? H]. done. Qed.

(** The i-node flags after the files [done] were handled. *)
Record handled (k0 : K) (f : Z -> Z) (done : list bytes) (silent : Prop) k : Prop := {
  h_named : named k = named k0;
  h_closed : opened k !! (-1) = None;
  h_each : forall ino, attrs k !! ino = attrs k0 !! ino \/
    exists path v, path ∈ done /\ named k0 path = Some ino /\ attrs k0 !! ino = Some v /\ attrs k !! ino = Some (f v);
  h_all : silent -> forall path, path ∈ done -> exists ino v, named k0 path = Some ino /\
    attrs k0 !! ino = Some v /\ attrs k !! ino = Some (f v)
}.

Lemma handled_same k0 f done P P' k k' path :
  handled k0 f done P k -> named k' = named k -> attrs k' = attrs k -> opened k' !! (-1) = None ->
  (P' -> P) -> (P' -> False) -> handled k0 f (done ++ [path]) P' k'.
Proof.
  intros [Hn _ He Ha] Hn' Ha' Ho HP HF. split; [congruence|done| |by intros []%HF].
  intros ino. rewrite Ha'. destruct (He ino) as [|(p & v & ? & ?)]; [by left|right].
  exists p, v. split; [set_solver|done].
Qed.

(** One more file was changed. *)
Lemma handled_set k0 f done P P' k k' path ino v :
  (forall x, f (f x) = f x) -> handled k0 f done P k -> named k0 path = Some ino -> attrs k !! ino = Some v ->
  named k' = named k -> attrs k' = <[ino := f v]> (attrs k) -> opened k' !! (-1) = None -> (P' -> P) ->
  handled k0 f (done ++ [path]) P' k'.
Proof.
  intros Hidem [Hn _ He Ha] Hpath Hv Hn' Ha' Ho HP.
  assert (exists v0, attrs k0 !! ino = Some v0 /\ f v = f v0) as (v0 & Hv0 & Hf).
  { destruct (He ino) as [Heq|(p & v0 & _ & _ & Hv0 & Hfv)]; [by exists v; rewrite <- Heq|].
    exists v0. rewrite Hfv in Hv. simplify_eq. by rewrite Hidem. }
  split; [congruence|done|..].
  - intros i. rewrite Ha'. destruct (decide (i = ino)) as [->|Hi].
    + right. exists path, v0. rewrite lookup_insert_eq, Hf. set_solver.
    + rewrite lookup_insert_ne by done. destruct (He i) as [|(p & v' & ? & ?)]; [by left|right].
      exists p, v'. split; [set_solver|done].
  - intros HP' p [Hp| ->%list_elem_of_singleton]%elem_of_app.
    + destruct (Ha (HP HP') p Hp) as (i & w & Hi & Hw & Hfw). exists i, w. split_and!; [done..|].
      rewrite Ha'. destruct (decide (i = ino)) as [->|Hne]; [|by rewrite lookup_insert_ne].
      rewrite lookup_insert_eq. congruence.
    + exists ino, v0. rewrite Ha', lookup_insert_eq, Hf. done.
Qed.

Lemma handled_close k0 f done P k k' :
  handled k0 f done P k -> named k' = named k -> attrs k' = attrs k -> opened k' !! (-1) = None ->
  handled k0 f done P k'.
Proof. intros [Hn _ He Ha] Hn' Ha' Ho. split; [congruence|done|by rewrite Ha'|by rewrite Ha']. Qed.

(** The invariant of the loop over the files: [t] is what was printed since [p]. *)
Definition loop_inv k0 f p (done : list bytes) q : Prop :=
  exists t, trace q = trace p ++ t /\ handled k0 f done (quiet t) (kern q).

Lemma close_step k0 f p done fd q :
  loop_inv k0 f p done q ->
  wp (syscall (-1) (k_closeat fd) ;; mret tt) q (fun o q' => o = Ret tt /\ loop_inv k0 f p done q').
Proof.
  intros (t & Ht & Hh). apply wp_bind, wp_syscall.
  destruct (k_closeat fd (kern q)) as [r k'] eqn:E. destruct (close_attr _ _ _ _ E) as (Ha & Hn & Ho).
  assert (loop_inv k0 f p done (Proc k' (errno q) (trace q)) /\ forall e, loop_inv k0 f p done (Proc k' e (trace q)))
    as [? ?].
  { assert (handled k0 f done (quiet t) k').
    { eapply handled_close; [exact Hh|done|done|]. pose proof (h_closed _ _ _ _ _ Hh).
      destruct Ho as [->|Ho]; [done|]. rewrite Ho. destruct (decide (fd = -1)) as [->|];
        [apply lookup_delete_eq|by rewrite lookup_delete_ne]. }
    split; [by exists t|by intros e; exists t]. }
  destruct r; simpl; (apply wp_ret; by split).
Qed.

Lemma s32_u64_fd r : -1 <= r <= INT_MAX -> s32 (u64 r) = r.
Proof.
  intros Hr. unfold wrap_s, wrap_u, INT_MAX in *. destruct (decide (r = -1)) as [->|]; [done|].
  rewrite (Z.mod_small r) by lia. rewrite Z.mod_small by lia. lia.
Qed.

(** The opening of a file leaves what was done so far as it was. *)
Lemma open_step k0 f done P path q :
  handled k0 f done P (kern q) ->
  exists r q1, syscall (-1) (k_openat path) q = (Ret r, q1) /\ trace q1 = trace q /\ -1 <= r <= INT_MAX /\
    handled k0 f done P (kern q1) /\ forall ino, opened (kern q1) !! r = Some ino -> named k0 path = Some ino.
Proof.
  intros Hh. unfold syscall. pose proof (open_attr (kern q) path) as HL.
  destruct (k_openat path (kern q)) as [[fd|e] k1]; eexists _, _.
  - destruct HL as (Hfd & ino & Hino & Ho & Ha & Hn). pose proof (h_closed _ _ _ _ _ Hh).
    split; [done|]. split_and!; [done|lia|lia| |].
    + eapply handled_close; [exact Hh|done|done|]. cbn. rewrite Ho. by rewrite lookup_insert_ne by lia.
    + cbn. rewrite Ho, lookup_insert_eq. intros ? [= <-]. by rewrite <- (h_named _ _ _ _ _ Hh).
  - destruct HL as (Ho & Ha & Hn). split; [done|]. split_and!; [done|lia|unfold INT_MAX; lia| |].
    + eapply handled_close; [exact Hh|done|done|]. cbn. rewrite Ho. apply Hh.
    + cbn. rewrite Ho. intros ino Hx. by rewrite (h_closed _ _ _ _ _ Hh) in Hx.
Qed.

Lemma do_file_spec k0 op mask p done path q :
  loop_inv k0 (fun v => transform op v mask) p done q ->
  wp (do_file (transform op) mask path) q (fun o q' => o = Ret tt /\
    loop_inv k0 (fun v => transform op v mask) p (done ++ [path]) q').
Proof.
  set (f := fun v => transform op v mask).
  assert (forall x, f (f x) = f x) as Hidem by (intros; apply transform_twice).
  intros (t & Ht & Hh). unfold do_file. apply wp_bind.
  destruct (open_step _ _ _ _ path _ Hh) as (r & q1 & Hop & Ht1 & Hr & Hh1 & Hp1).
  unfold wp at 1. rewrite Hop. cbn [fst snd].
  assert ((u64 r <? 0) = false) as -> by (pose proof (wrap_u_range 64 r); unfold in_u in *; lia).
  rewrite s32_u64_fd by done.
  assert (forall q2 t2 P, trace q2 = trace p ++ t2 -> handled k0 f (done ++ [path]) P (kern q2) -> (quiet t2 -> P) ->
    loop_inv k0 f p (done ++ [path]) q2) as Hfin.
  { intros q2 t2 P H1 [? ? ? Ha] H3. exists t2. split; [done|]. split; try done. intros. by apply Ha; [apply H3|]. }
  apply wp_bind, wp_syscall.
  destruct (k_getflags r (kern q1)) as [g k2] eqn:E2.
  destruct (getflags_attr _ _ _ _ E2) as (Ho2 & Ha2 & Hn2 & Hg).
  assert (opened k2 !! (-1) = None) as Hc2 by (rewrite Ho2; apply Hh1).
  destruct g as [v|e].
  2: { apply wp_bind, wp_eprintf, close_step.
       eapply (Hfin _ (t ++ [Err _]) (quiet (t ++ [Err _]))); [cbn; by rewrite Ht1, Ht, <- app_assoc| |done].
       eapply handled_same; [exact Hh1|done|done|done|..]; [by intros [? _]%quiet_app|by intros Hq; eapply not_quiet_err]. }
  destruct Hg as (ino & Hino & Hv). apply Hp1 in Hino as Hpath.
  apply wp_bind, wp_bind, wp_printf, wp_bind, wp_printf, wp_bind, wp_syscall. cbn [kern errno trace].
  destruct (k_setflags r (transform op v mask) k2) as [s k3] eqn:E3.
  destruct (setflags_attr _ _ _ _ _ E3) as (Ho3 & Hn3 & Hs). rewrite Ho2, Hino in Hs.
  assert (opened k3 !! (-1) = None) as Hc3 by congruence.
  destruct s as [s|e].
  - destruct Hs as (ino' & [= <-] & Ha3).
    assert (forall t', handled k0 f (done ++ [path]) (quiet (t ++ t')) k3) as Hset.
    { intros t'. eapply (handled_set _ _ _ (quiet t) _ (kern q1) _ _ ino v); try done; [congruence|by rewrite Ha3, Ha2|by intros [? _]%quiet_app]. }
    destruct (s =? -1).
    + apply wp_eprintf, close_step. eapply Hfin; [|eapply Hset|done].
      cbn. by rewrite Ht1, Ht, <- !app_assoc.
    + apply wp_ret, close_step. eapply Hfin; [|eapply Hset|done].
      cbn. by rewrite Ht1, Ht, <- !app_assoc.
  - simpl in Hs. change (-1 =? -1) with true. apply wp_eprintf, close_step.
    eapply (Hfin _ (((t ++ [_]) ++ [_]) ++ [Err _]) (quiet (((t ++ [_]) ++ [_]) ++ [Err _])));
      [cbn; by rewrite Ht1, Ht, <- !app_assoc| |done].
    eapply handled_same; [exact Hh1|cbn; congruence|cbn; congruence|done|..];
      [by intros [[[? ?]%quiet_app ?]%quiet_app ?]%quiet_app|by intros Hq; eapply not_quiet_err].
Qed.

Lemma validate_ok c letters p :
  letters <> [] -> strlen letters < INT_MAX -> Forall (fun a => is_valid_attr a = true) letters ->
  validate_mode_string (c :: letters) p = (Ret tt, p).
Proof.
  intros Hne Hlen Hall. unfold validate_mode_string.
  rewrite wrap_s_id by (unfold in_s, strlen, INT_MAX in *; cbn [length]; lia).
  destruct (Z.ltb_spec (strlen (c :: letters)) 2) as [Hlt|_].
  { destruct letters; [done|]. unfold strlen in Hlt. cbn [length] in Hlt. lia. }
  rewrite (bind_Ret _ _ _ tt p) by done. change (drop 1 (c :: letters)) with letters. clear Hne Hlen.
  induction Hall as [|a letters Ha _ IH]; [done|]. cbn [for_each]. rewrite Ha. cbn [negb].
  by rewrite (bind_Ret _ _ _ tt p).
Qed.

Lemma mask_loop_ok letters m p :
  Forall (fun a => is_valid_attr a = true) letters ->
  mask_loop m letters p = (Ret (foldl (fun m c => Z.lor m (flag_of c)) m letters), p).
Proof.
  intros Hall. revert m. induction Hall as [|a letters Ha _ IH]; intros m; [done|]. cbn [mask_loop foldl].
  destruct (valid_attr_in_table a Ha) as (e & -> & ->). apply IH.
Qed.

Lemma do_action_spec op letters files p :
  Forall (fun a => is_valid_attr a = true) letters -> opened (kern p) !! (-1) = None ->
  wp (do_action letters files (transform op)) p (fun o q => o = Ret 0 /\
    loop_inv (kern p) (fun v => transform op v (mask_of letters)) p files q).
Proof.
  intros Hall Hclosed. unfold do_action. apply wp_bind.
  unfold wp at 1, get_mask_for_attrs. rewrite mask_loop_ok by done. cbn [fst snd]. fold (mask_of letters).
  apply wp_bind, (for_each_wp (loop_inv (kern p) (fun v => transform op v (mask_of letters)) p)).
  - intros done x rest q _ Hinv. eapply wp_mono; [by apply do_file_spec|]. by intros o q' (-> & ?).
  - exists []. split; [by rewrite app_nil_r|]. split; [done|done|by left|]. intros _ path Hp. by apply not_elem_of_nil in Hp.
  - intros q Hq. by apply wp_ret.
Qed.

Lemma enough_args (a0 mode : bytes) files : files <> [] -> (Z.of_nat (length (a0 :: mode :: files)) <? 3) = false.
Proof. intros Hf. apply Z.ltb_ge. destruct files as [|b files]; [done|]. rewrite !length_cons. lia. Qed.

(** chattr.c, given an operator, letters it accepts and files, always returns 0.  The inode
    flags of every i-node are then either untouched or, for a file it was given, the old ones
    with the flags of the letters added, removed, or put in their place; if nothing was printed
    on standard error, that holds of all of them, a file named twice included. *)
Theorem chattr_main_changes a0 c op letters files p :
  files <> [] -> letters <> [] -> strlen letters < INT_MAX ->
  Forall (fun a => is_valid_attr a = true) letters -> action_of c = Some op ->
  opened (kern p) !! (-1) = None ->
  exists q t, chattr_main (a0 :: (c :: letters) :: files) p = (Ret 0, q) /\ trace q = trace p ++ t /\
    (forall ino, attrs (kern q) !! ino = attrs (kern p) !! ino \/
       exists path v, path ∈ files /\ named (kern p) path = Some ino /\ attrs (kern p) !! ino = Some v /\
         attrs (kern q) !! ino = Some (transform op v (mask_of letters))) /\
    (quiet t -> forall path, path ∈ files -> exists ino v, named (kern p) path = Some ino /\
       attrs (kern p) !! ino = Some v /\
       attrs (kern q) !! ino = Some (transform op v (mask_of letters))).
Proof.
  intros Hf Hne Hlen Hall Hop Hclosed.
  destruct (wp_elim _ _ _ (do_action_spec op letters files p Hall Hclosed)) as (o & q & HR & -> & t & Ht & Hh).
  exists q, t. split; [|split_and!; [done|apply Hh|apply Hh]].
  unfold chattr_main. rewrite enough_args by done.
  rewrite (bind_Ret _ _ _ (c :: letters) p) by done.
  rewrite (bind_Ret _ _ _ tt p) by by apply validate_ok.
  rewrite (bind_Ret _ _ _ c p) by done. cbv zeta.
  change (drop 1 (c :: letters)) with letters. change (drop 2 _) with files.
  unfold action_of, ACTION_ADD, ACTION_REMOVE, ACTION_ONLY in *.
  destruct (Ascii.eqb c "+"); [by simplify_eq|]. destruct (Ascii.eqb c "-"); [by simplify_eq|].
  destruct (Ascii.eqb c "="); by simplify_eq.
Qed.

(** A letter that is not accepted ends the program before any file is opened.  The letter S,
    which the description at the head of the file offers, is one of them. *)
Lemma chattr_main_rejects a0 c good bad rest files p :
  files <> [] -> strlen (good ++ bad :: rest) < INT_MAX ->
  Forall (fun a => is_valid_attr a = true) good -> is_valid_attr bad = false ->
  exists q, chattr_main (a0 :: (c :: good ++ bad :: rest) :: files) p = (Exit EXIT_FAILURE, q) /\
    kern q = kern p /\ trace q <> trace p.
Proof.
  intros Hf Hlen Hall Hbad. unfold chattr_main.
  rewrite enough_args by done.
  rewrite (bind_Ret _ _ _ (c :: good ++ bad :: rest) p) by done.
  assert (forall q, kern q = kern p -> trace q = trace p ->
    for_each (fun attr => if negb (is_valid_attr attr) then
      eprintf (str "ERROR: Attribute '" ++ [attr] ++ str "' is invalid" ++ [NL]) ;; print_usage
    else mret tt) (good ++ bad :: rest) q = (Exit EXIT_FAILURE, Proc (kern p) (errno q)
      ((trace p ++ [Err (str "ERROR: Attribute '" ++ [bad] ++ str "' is invalid" ++ [NL])]) ++
       [Err (str "Usage: ./prog_chattr [mode] files" ++ [NL])]))) as Hloop.
  { intros q <- <-. clear Hlen. induction Hall as [|a good Ha _ IH]; simpl app; cbn [for_each].
    - rewrite Hbad. reflexivity.
    - rewrite Ha. cbn [negb]. by rewrite (bind_Ret _ _ _ tt q). }
  exists (Proc (kern p) (errno p) ((trace p ++ [Err (str "ERROR: Attribute '" ++ [bad] ++ str "' is invalid" ++ [NL])]) ++
       [Err (str "Usage: ./prog_chattr [mode] files" ++ [NL])])).
  split; [|split; [done|]].
  - apply bind_Exit. unfold validate_mode_string.
    rewrite wrap_s_id by (unfold in_s, strlen, INT_MAX in *; cbn [length]; lia).
    assert ((strlen (c :: good ++ bad :: rest) <? 2) = false) as ->
      by (apply Z.ltb_ge; unfold strlen; rewrite length_cons, length_app, length_cons; lia).
    rewrite (bind_Ret _ _ _ tt p) by done. by apply Hloop.
  - cbn [trace]. intros H%(f_equal length). rewrite !length_app in H. simpl in H. lia.
Qed.

Lemma S_is_not_accepted : is_valid_attr "S" = false.
Proof. done. Qed.
End ChattrSpec.

(** ** exercise6_chmod.c *)

Definition S_IFMT : Z := 61440.
Definition S_IFDIR : Z := 16384.
Definition S_ISDIR (m : Z) : bool := Z.land m S_IFMT =? S_IFDIR.

Definition directory_mode (st_mode : Z) : Z :=
  Z.lor st_mode (flags [S_IRUSR; S_IRGRP; S_IROTH; S_IXUSR; S_IXGRP; S_IXOTH]).

Definition file_mode (st_mode : Z) : Z :=
  let st_mode := Z.lor st_mode (flags [S_IRUSR; S_IXUSR; S_IRGRP]) in
  let ixmask := flags [S_IXUSR; S_IXGRP; S_IXOTH] in
  if negb (Z.land st_mode ixmask =? 0) then Z.lor st_mode ixmask else st_mode.

Section Chmod.
Context {K : Type} `{!AttrIO K}.

Definition chmod_usage {A} : M (proc K) A :=
  eprintf (str "Usage: ./prog_chomod <filename/directory>" ++ [NL]) ;; exit_ EXIT_FAILURE.

Definition chmod_directory (path : bytes) (st_mode : Z) : M (proc K) Z :=
  syscall (-1) (k_chmod path (directory_mode st_mode)) ;; mret 0.
Definition chmod_file (path : bytes) (st_mode : Z) : M (proc K) Z :=
  syscall (-1) (k_chmod path (file_mode st_mode)) ;; mret 0.

Definition chmod_one (path : bytes) : M (proc K) unit :=
  st ← syscall None (fun k => let '(r, k') := k_stat path k in
                              (match r with inl m => inl (Some m) | inr e => inr e end, k'));
  match st with
  | None => eprintf (str "File/Directory " ++ path ++ str " does not exist" ++ [NL]) ;; chmod_usage
  | Some st_mode =>
      (if S_ISDIR st_mode then chmod_directory path st_mode else chmod_file path st_mode) ;; mret tt
  end.

Definition chmod_main (argv : list bytes) : M (proc K) Z :=
  (if Z.of_nat (length argv) <? 2 then chmod_usage else mret tt) ;;
  for_each chmod_one (drop 1 argv) ;;
  mret 0.
End Chmod.

Class ModeLaws (K : Type) `{!AttrIO K} := {
  node : K -> bytes -> option Z;
  modes : K -> gmap Z Z;
  stat_law : forall k path,
    match k_stat path k with
    | (inl m, k') => (exists ino, node k path = Some ino /\ modes k !! ino = Some m) /\
                     node k' = node k /\ modes k' = modes k
    | (inr _, k') => node k' = node k /\ modes k' = modes k
    end;
  chmod_law : forall k path mode,
    match k_chmod path mode k with
    | (inl _, k') => exists ino m, node k path = Some ino /\ modes k !! ino = Some m /\ node k' = node k /\
        modes k' = <[ino := Z.lor (Z.land m S_IFMT) (Z.land mode 4095)]> (modes k)
    | (inr _, k') => node k' = node k /\ modes k' = modes k
    end
}.

(** What [chmod a+rX] makes of a mode: read for everyone, and execute for everyone if it is a
    directory or someone may execute it already. *)
Definition a_plus_rX (m : Z) : Z :=
  let r := Z.lor m (flags [S_IRUSR; S_IRGRP; S_IROTH]) in
  let x := flags [S_IXUSR; S_IXGRP; S_IXOTH] in
  if S_ISDIR m || negb (Z.land m x =? 0) then Z.lor r x else r.

(** What the program makes of it. *)
Definition exercise6 (m : Z) : Z := if S_ISDIR m then directory_mode m else file_mode m.

Lemma land_lor_disjoint m a x : Z.land a x <> 0 -> 0 <= x -> Z.land (Z.lor m a) x <> 0.
Proof.
  intros Hax Hx H. apply Hax. apply Z.bits_inj'. intros i Hi. rewrite Z.bits_0.
  apply (f_equal (fun z => Z.testbit z i)) in H. rewrite Z.land_spec, Z.lor_spec, Z.bits_0 in H.
  rewrite Z.land_spec. destruct (Z.testbit m i), (Z.testbit a i), (Z.testbit x i); done.
Qed.

(** The program gives a file that is not a directory read permission for owner and group, and
    execute permission for everyone, whatever it had. *)
Lemma file_mode_eq m : file_mode m = Z.lor m (flags [S_IRUSR; S_IRGRP; S_IXUSR; S_IXGRP; S_IXOTH]).
Proof.
  unfold file_mode. rewrite (proj2 (Z.eqb_neq _ _)) by (apply land_lor_disjoint; by vm_compute).
  cbn [negb]. rewrite <- Z.lor_assoc. by f_equal.
Qed.

Lemma land_pow2 m n : 0 <= n -> Z.land m (2 ^ n) <> 0 <-> Z.testbit m n = true.
Proof.
  intros Hn. split.
  - intros H. destruct (Z.testbit m n) eqn:E; [done|]. exfalso. apply H, Z.bits_inj'. intros i Hi.
    rewrite Z.land_spec, Z.bits_0, Z.pow2_bits_eqb by done.
    destruct (Z.eqb_spec n i) as [<-|]; [by rewrite E|apply andb_false_r].
  - intros E H. apply (f_equal (fun z => Z.testbit z n)) in H.
    by rewrite Z.land_spec, Z.bits_0, Z.pow2_bits_true, E in H.
Qed.

Lemma lor_pow2_absorb m n : 0 <= n -> Z.testbit m n = true -> Z.lor m (2 ^ n) = m.
Proof.
  intros Hn E. apply Z.bits_inj'. intros i Hi. rewrite Z.lor_spec, Z.pow2_bits_eqb by done.
  destruct (Z.eqb_spec n i) as [<-|]; [by rewrite E|apply orb_false_r].
Qed.

(** Where the program agrees with [a+rX] on a file that is not a directory. *)
Lemma exercise6_file m : S_ISDIR m = false ->
  exercise6 m = a_plus_rX m <-> Z.land m S_IROTH <> 0 /\ Z.land m (flags [S_IXUSR; S_IXGRP; S_IXOTH]) <> 0.
Proof.
  intros Hd. unfold exercise6, a_plus_rX. rewrite Hd, file_mode_eq. cbn [orb].
  change S_IROTH with (2 ^ 2). rewrite land_pow2 by done.
  change (flags [S_IRUSR; S_IRGRP; S_IXUSR; S_IXGRP; S_IXOTH]) with 361.
  change (flags [S_IRUSR; S_IRGRP; 2 ^ 2]) with 292. change (flags [S_IXUSR; S_IXGRP; S_IXOTH]) with 73.
  destruct (Z.eqb_spec (Z.land m 73) 0) as [H0|H0]; cbn [negb]; split.
  - intros H. apply (f_equal (fun z => Z.testbit z 0)) in H. rewrite !Z.lor_spec in H.
    apply (f_equal (fun z => Z.testbit z 0)) in H0. rewrite Z.land_spec in H0.
    change (Z.testbit 361 0) with true in H. change (Z.testbit 292 0) with false in H.
    change (Z.testbit 73 0) with true in H0. destruct (Z.testbit m 0); done.
  - by intros [_ ?].
  - intros H. split; [|done]. apply (f_equal (fun z => Z.testbit z 2)) in H. rewrite !Z.lor_spec in H.
    change (Z.testbit 361 2) with false in H. change (Z.testbit 292 2) with true in H.
    destruct (Z.testbit m 2); done.
  - intros [H2 _]. rewrite <- (lor_pow2_absorb m 2) by done. rewrite <- !Z.lor_assoc. done.
Qed.

Lemma exercise6_directory m : S_ISDIR m = true -> exercise6 m = a_plus_rX m.
Proof.
  intros Hd. unfold exercise6, a_plus_rX. rewrite Hd. cbn [orb]. unfold directory_mode.
  by rewrite <- Z.lor_assoc.
Qed.

Section ChmodSpec.
Context {K : Type} `{!AttrIO K, !ModeLaws K}.
Implicit Types (p q : proc K).

(** exercise6_chmod.c, applied to one file, either ends with status 1 having changed
    nothing, or returns 0 and the permissions are untouched (the result of [chmod] is not
    tested) or those of [exercise6].  For a directory that is [a+rX]; for any other file it is
    not, unless the file could already be read by others and executed by someone. *)
Theorem chmod_main_one a0 path p :
  exists o q, chmod_main [a0; path] p = (o, q) /\
    ((o = Exit EXIT_FAILURE /\ modes (kern q) = modes (kern p)) \/
     (o = Ret 0 /\ exists ino m, node (kern p) path = Some ino /\ modes (kern p) !! ino = Some m /\
        (modes (kern q) = modes (kern p) \/
         modes (kern q) = <[ino := Z.lor (Z.land m S_IFMT) (Z.land (exercise6 m) 4095)]> (modes (kern p))) /\
        (S_ISDIR m = true -> exercise6 m = a_plus_rX m) /\
        (S_ISDIR m = false -> exercise6 m = a_plus_rX m <->
           Z.land m S_IROTH <> 0 /\ Z.land m (flags [S_IXUSR; S_IXGRP; S_IXOTH]) <> 0))).
Proof.
  unfold chmod_main. change (Z.of_nat (length [a0; path]) <? 2) with false.
  apply wp_elim. apply wp_bind, wp_ret, wp_bind, wp_bind, wp_bind, wp_syscall.
  pose proof (stat_law (kern p) path) as HS. destruct (k_stat path (kern p)) as [[m|e] k1].
  2: { apply wp_bind, wp_eprintf. left. split; [done|]. apply HS. }
  destruct HS as ((ino & Hino & Hm) & Hn1 & Hm1).
  assert ((if S_ISDIR m then chmod_directory path m else chmod_file path m)
    = (syscall (-1) (k_chmod path (exercise6 m)) ;; mret 0 : M (proc K) Z)) as ->
    by (unfold exercise6; by destruct (S_ISDIR m)).
  apply wp_bind, wp_bind, wp_syscall. cbn [kern].
  assert (forall q1, modes (kern q1) = modes (kern p) \/
      modes (kern q1) = <[ino := Z.lor (Z.land m S_IFMT) (Z.land (exercise6 m) 4095)]> (modes (kern p)) ->
    (Ret 0 : outcome Z) = Ret 0 /\ exists ino m, node (kern p) path = Some ino /\ modes (kern p) !! ino = Some m /\
        (modes (kern q1) = modes (kern p) \/
         modes (kern q1) = <[ino := Z.lor (Z.land m S_IFMT) (Z.land (exercise6 m) 4095)]> (modes (kern p))) /\
        (S_ISDIR m = true -> exercise6 m = a_plus_rX m) /\
        (S_ISDIR m = false -> exercise6 m = a_plus_rX m <->
           Z.land m S_IROTH <> 0 /\ Z.land m (flags [S_IXUSR; S_IXGRP; S_IXOTH]) <> 0)) as Hfin.
  { intros q1 Hq1. split; [done|]. exists ino, m.
    split_and!; [done..|by apply exercise6_directory|by apply exercise6_file]. }
  pose proof (chmod_law k1 path (exercise6 m)) as HC. destruct (k_chmod path (exercise6 m) k1) as [[r|e] k2].
  - destruct HC as (ino' & m' & Hino' & Hm' & _ & Hk2). rewrite Hn1, Hino in Hino'. rewrite Hm1 in Hm'. simplify_eq.
    do 4 apply wp_ret. right. apply Hfin. right. cbn. congruence.
  - destruct HC as [_ Hk2]. do 4 apply wp_ret. right. apply Hfin. left. cbn. congruence.
Qed.
End ChmodSpec.

(** ** file_perms.c *)

Definition S_ISUID : Z := 2048.
Definition S_ISGID : Z := 1024.
Definition S_ISVTX : Z := 512.
Definition FP_SPECIAL : Z := 1.

Definition bit_set (perm bit : Z) : bool := negb (Z.land perm bit =? 0).

(** One execute field: the execute bit, the special bit, and the letters for the two. *)
Definition exec_char (perm flags xbit sbit : Z) (lower upper : ascii) : ascii :=
  if bit_set perm xbit then
    if bit_set perm sbit && bit_set flags FP_SPECIAL then lower else "x"
  else
    if bit_set perm sbit && bit_set flags FP_SPECIAL then upper else "-".

Definition filePermStr (perm flags : Z) : bytes :=
  [ if bit_set perm S_IRUSR then "r" else "-"; if bit_set perm S_IWUSR then "w" else "-";
    exec_char perm flags S_IXUSR S_ISUID "s" "S";
    if bit_set perm S_IRGRP then "r" else "-"; if bit_set perm S_IWGRP then "w" else "-";
    exec_char perm flags S_IXGRP S_ISGID "s" "S";
    if bit_set perm S_IROTH then "r" else "-"; if bit_set perm S_IWOTH then "w" else "-";
    exec_char perm flags S_IXOTH S_ISVTX "t" "T" ]%char.

(** Reading such a string back. *)
Definition read_field (c : ascii) (bit special : Z) : Z :=
  if bool_decide (c ∈ ["r"; "w"; "x"]%char) then bit
  else if bool_decide (c ∈ ["s"; "t"]%char) then Z.lor bit special
  else if bool_decide (c ∈ ["S"; "T"]%char) then special
  else 0.

Definition read_perms (s : bytes) : Z :=
  foldr Z.lor 0 (zip_with (fun c b => read_field c b.1 b.2) s
    [(S_IRUSR, 0); (S_IWUSR, 0); (S_IXUSR, S_ISUID); (S_IRGRP, 0); (S_IWGRP, 0); (S_IXGRP, S_ISGID);
     (S_IROTH, 0); (S_IWOTH, 0); (S_IXOTH, S_ISVTX)]).

(** Only the twelve low bits of the mode and the one flag matter. *)
Lemma bit_set_low perm bit : Z.land 4095 bit = bit -> bit_set (Z.land perm 4095) bit = bit_set perm bit.
Proof. intros H. unfold bit_set. by rewrite <- Z.land_assoc, H. Qed.

Lemma filePermStr_low perm flags :
  filePermStr perm flags = filePermStr (Z.land perm 4095) (if bit_set flags FP_SPECIAL then 1 else 0).
Proof.
  unfold filePermStr, exec_char. rewrite !bit_set_low by done. by destruct (bit_set flags FP_SPECIAL).
Qed.

Definition perms_read_back (flags mask : Z) (n : nat) : bool :=
  read_perms (filePermStr (Z.of_nat n) flags) =? Z.land (Z.of_nat n) mask.

Lemma all_perms_read_back :
  forallb (perms_read_back 0 511) (seq 0 4096) && forallb (perms_read_back 1 4095) (seq 0 4096) = true.
Proof. by vm_compute. Qed.

(** the string loses nothing.  With FP_SPECIAL all twelve permission bits can be read back
    from it, set-user-ID, set-group-ID and sticky bits included, and without it the nine ordinary
    ones; so modes with equal strings have equal permissions. *)
Theorem filePermStr_roundtrip perm flags :
  read_perms (filePermStr perm flags) = Z.land perm (if bit_set flags FP_SPECIAL then 4095 else 511).
Proof.
  rewrite filePermStr_low. pose proof all_perms_read_back as [H0 H1]%andb_prop.
  rewrite forallb_forall in H0, H1.
  assert (0 <= Z.land perm 4095 < 4096) as Hr.
  { change 4095 with (Z.ones 12). rewrite Z.land_ones by done. by apply Z.mod_pos_bound. }
  assert (In (Z.to_nat (Z.land perm 4095)) (seq 0 4096)) as Hin by (apply in_seq; lia).
  destruct (bit_set flags FP_SPECIAL).
  - specialize (H1 _ Hin). apply Z.eqb_eq in H1. rewrite Z2Nat.id, <- Z.land_assoc in H1 by lia. exact H1.
  - specialize (H0 _ Hin). apply Z.eqb_eq in H0. rewrite Z2Nat.id, <- Z.land_assoc in H0 by lia. exact H0.
Qed.

(** ** A simulated kernel, and witnesses *)

Record attrfs := AttrFs { an : gmap bytes Z; ao : gmap Z Z; aa : gmap Z Z; am : gmap Z Z }.

#[export] Instance attrfs_io : AttrIO attrfs := {|
  k_openat := fun path k =>
    match an k !! path with Some ino => (inl 3, AttrFs (an k) (<[3 := ino]> (ao k)) (aa k) (am k)) | None => (inr ENOENT, k) end;
  k_closeat := fun fd k => (inl 0, AttrFs (an k) (delete fd (ao k)) (aa k) (am k));
  k_getflags := fun fd k =>
    match (ino ← ao k !! fd; aa k !! ino) with Some v => (inl v, k) | None => (inr EBADF, k) end;
  k_setflags := fun fd v k =>
    match ao k !! fd with Some ino => (inl 0, AttrFs (an k) (ao k) (<[ino := v]> (aa k)) (am k)) | None => (inr EBADF, k) end;
  k_stat := fun path k =>
    match (ino ← an k !! path; am k !! ino) with Some m => (inl m, k) | None => (inr ENOENT, k) end;
  k_chmod := fun path mode k =>
    match an k !! path with
    | Some ino => match am k !! ino with
        | Some m => (inl 0, AttrFs (an k) (ao k) (aa k) (<[ino := Z.lor (Z.land m S_IFMT) (Z.land mode 4095)]> (am k)))
        | None => (inr ENOENT, k) end
    | None => (inr ENOENT, k) end
|}.

#[export] Program Instance attrfs_laws : AttrLaws attrfs :=
  {| named := fun k p => an k !! p; opened := ao; attrs := aa |}.
Next Obligation. intros k path. simpl. destruct (an k !! path) as [ino|] eqn:E; simpl; [|done]. split; [unfold INT_MAX; lia|eauto]. Qed.
Next Obligation. intros k fd r k'. simpl. intros [= <- <-]. simpl. auto. Qed.
Next Obligation.
  intros k fd r k'. simpl. destruct (ao k !! fd) as [ino|] eqn:E; simpl; [|by intros [= <- <-]].
  destruct (aa k !! ino) as [v|] eqn:E2; intros [= <- <-]; split_and!; try done. by exists ino.
Qed.
Next Obligation.
  intros k fd v r k'. simpl. destruct (ao k !! fd) as [ino|] eqn:E; intros [= <- <-]; split_and!; try done. by exists ino.
Qed.

#[export] Program Instance attrfs_modes : ModeLaws attrfs := {| node := fun k p => an k !! p; modes := am |}.
Next Obligation.
  intros k path. simpl. destruct (an k !! path) as [ino|] eqn:E; simpl; [|done].
  destruct (am k !! ino) as [m|] eqn:E2; [|done]. split_and!; try done. by exists ino.
Qed.
Next Obligation.
  intros k path mode. simpl. destruct (an k !! path) as [ino|] eqn:E; simpl; [|done].
  destruct (am k !! ino) as [m|] eqn:E2; [|done]. by exists ino, m.
Qed.

Definition some_files : proc attrfs :=
  Proc (AttrFs {[ str "f" := 1; str "g" := 2 ]} ∅ {[ 1 := 16; 2 := 64 ]} {[ 1 := 33152; 2 := 16832 ]}) 0 [].

Lemma chattr_main_changes_witness :
  exists q, chattr_main [str "chattr"; str "-id"; str "f"; str "f"; str "g"] some_files = (Ret 0, q) /\
    aa (kern q) !! 1 = Some 0 /\ aa (kern q) !! 2 = Some 0.
Proof.
  destruct (chattr_main_changes (str "chattr") "-" Remove (str "id") [str "f"; str "f"; str "g"] some_files)
    as (q & t & HR & _); [done|done|by vm_compute|by repeat constructor|done|done|].
  exists q. split; [exact HR|]. vm_compute in HR. by injection HR as <-.
Defined.

Lemma chmod_main_one_witness :
  exists q, chmod_main [str "chmod"; str "f"] some_files = (Ret 0, q) /\
    am (kern q) !! 1 = Some (Z.lor 33152 361).
Proof.
  destruct (chmod_main_one (str "chmod") (str "f") some_files) as (o & q & HR & _).
  exists q. vm_compute in HR. by injection HR as <- <-.
Defined.
