(* ===== verification/ErrorFns.v ===== *)
(** * Diagnostics

    The error functions of the library (tlpi-dist/lib/error_functions.c), with the buffering of
    stdio that tells them apart: what a program has printed stays in the buffer of [stdout] until
    it is flushed, and [_exit] and [abort] lose it where [exit] writes it out.

    The texts of the errors and the environment are not part of the repository; class [Messages]
    stands for them.  The rest of the development, where only the order of the lines matters,
    uses [errExit], [fatal] and [usageErr] of the last section, which append the same text to the
    trace of [proc]. *)

From Stdlib Require Import ZArith Lia String Ascii.
From S2P Require Import Prelude CString Kernel.

Class Messages := {
  ename : Z -> bytes;                (* the table of ename.c.inc, made by the build *)
  MAX_ENAME : Z;
  strerror : Z -> bytes;
  EF_DUMPCORE : option bytes         (* getenv("EF_DUMPCORE") *)
}.

Record stdio := Stdio {
  out_buffer : bytes;                (* printed on stdout and not flushed *)
  out_file : bytes;                  (* arrived at the file behind stdout *)
  err_file : bytes;                  (* arrived at stderr *)
  io_errno : Z
}.

Definition flush_stdout : M stdio unit :=
  modify (fun s => Stdio [] (out_file s ++ out_buffer s) (err_file s) (io_errno s)).
(** [stderr] is flushed by every function after it writes to it. *)
Definition fput_err (msg : bytes) : M stdio unit :=
  modify (fun s => Stdio (out_buffer s) (out_file s) (err_file s ++ msg) (io_errno s)).
(** [exit] flushes what is buffered, [_exit] and [abort] do not. *)
Definition exit_flush {A} (status : Z) : M stdio A := flush_stdout ;; exit_ status.
Definition exit_now {A} (status : Z) : M stdio A := exit_ status.

Section Errors.
Context `{!Messages}.

Definition terminate {A} (useExit3 : bool) : M stdio A :=
  if match EF_DUMPCORE with Some (_ :: _) => true | _ => false end then abort_
  else if useExit3 then exit_flush EXIT_FAILURE
  else exit_now EXIT_FAILURE.

Definition ERR_BUF_SIZE : nat := 500.
(** What [snprintf] leaves in a buffer of that size. *)
Definition clip (s : bytes) : bytes := take (ERR_BUF_SIZE - 1) s.

Definition error_line (useErr : bool) (err : Z) (format : bytes) : bytes :=
  let userMsg := clip format in
  let errText :=
    if useErr then
      clip (str " [" ++ (if (0 <? err) && (err <=? MAX_ENAME) then ename err else str "?UNKNOWN?")
            ++ str " " ++ strerror err ++ str "]")
    else clip (str ":") in
  clip (str "ERROR" ++ errText ++ str " " ++ userMsg ++ [NL]).

(** [format] is the caller's message with its arguments put in. *)
Definition outputError (useErr : bool) (err : Z) (flushStdout : bool) (format : bytes) : M stdio unit :=
  (if flushStdout then flush_stdout else mret tt) ;;
  fput_err (error_line useErr err format).

Definition errMsg_ (format : bytes) : M stdio unit :=
  savedErrno ← gets io_errno;
  outputError true savedErrno true format ;;
  modify (fun s => Stdio (out_buffer s) (out_file s) (err_file s) savedErrno).

Definition errExit_ {A} (format : bytes) : M stdio A :=
  e ← gets io_errno; outputError true e true format ;; terminate true.
Definition err_exit_ {A} (format : bytes) : M stdio A :=
  e ← gets io_errno; outputError true e false format ;; terminate false.
Definition errExitEN_ {A} (errnum : Z) (format : bytes) : M stdio A :=
  outputError true errnum true format ;; terminate true.
Definition fatal_ {A} (format : bytes) : M stdio A :=
  outputError false 0 true format ;; terminate true.
Definition usageErr_ {A} (format : bytes) : M stdio A :=
  flush_stdout ;; fput_err (str "Usage: ") ;; fput_err format ;; exit_flush EXIT_FAILURE.
Definition cmdLineErr_ {A} (format : bytes) : M stdio A :=
  flush_stdout ;; fput_err (str "Command-line usage error: ") ;; fput_err format ;; exit_flush EXIT_FAILURE.

(** ** What they promise *)

Lemma error_line_bound b e s : (length (error_line b e s) < ERR_BUF_SIZE)%nat.
Proof. unfold error_line, clip. cbv zeta. rewrite length_take. unfold ERR_BUF_SIZE. lia. Qed.

(** how the fatal functions end a program that has [b] buffered and [errno] set.
    [errExit] first brings out what was printed, then its line, and ends with status 1; [err_exit]
    writes the line and ends with status 1 without ever writing what was buffered; and with a
    nonempty EF_DUMPCORE both abort.  The line, error name and text included, never has more than
    499 bytes, whatever the message. *)
Theorem fatal_endings (msg : bytes) (s : stdio) :
  let line := error_line true (io_errno s) msg in
  let dump := match EF_DUMPCORE with Some (_ :: _) => true | _ => false end in
  @errExit_ unit msg s = (if dump then Abort else Exit 1,
                          Stdio [] (out_file s ++ out_buffer s) (err_file s ++ line) (io_errno s)) /\
  @err_exit_ unit msg s = (if dump then Abort else Exit 1,
                           Stdio (out_buffer s) (out_file s) (err_file s ++ line) (io_errno s)) /\
  (length line <= 499)%nat.
Proof.
  intros line dump. subst line dump. split; [|split].
  - unfold errExit_, terminate, exit_flush, outputError, flush_stdout, fput_err, modify, gets, mbind, M_bind.
    destruct EF_DUMPCORE as [[|c e]|]; cbn -[error_line]; by rewrite ?app_nil_r.
  - unfold err_exit_, terminate. by destruct EF_DUMPCORE as [[|c e]|].
  - pose proof (error_line_bound true (io_errno s) msg) as Hb. unfold ERR_BUF_SIZE in Hb. lia.
Qed.

(** [errMsg] reports and returns, with [errno] as it was. *)
Lemma errMsg_returns msg s : exists s', errMsg_ msg s = (Ret tt, s') /\ io_errno s' = io_errno s.
Proof. by eexists. Qed.
End Errors.

(** ** As the programs use them *)

Section Trace.
Context `{!Messages} {K : Type}.

Definition stop {A} : M (proc K) A :=
  if match EF_DUMPCORE with Some (_ :: _) => true | _ => false end then abort_ else exit_ EXIT_FAILURE.

Definition errMsg (msg : bytes) : M (proc K) unit := e ← get_errno; eprintf (error_line true e msg).
Definition errExit {A} (msg : bytes) : M (proc K) A :=
  e ← get_errno; eprintf (error_line true e msg) ;; stop.
Definition errExitEN {A} (errnum : Z) (msg : bytes) : M (proc K) A :=
  eprintf (error_line true errnum msg) ;; stop.
Definition fatal {A} (msg : bytes) : M (proc K) A := eprintf (error_line false 0 msg) ;; stop.
Definition usageErr {A} (msg : bytes) : M (proc K) A := eprintf (str "Usage: " ++ msg) ;; exit_ EXIT_FAILURE.
Definition cmdLineErr {A} (msg : bytes) : M (proc K) A :=
  eprintf (str "Command-line usage error: " ++ msg) ;; exit_ EXIT_FAILURE.
End Trace.

(** The outcome of a run that was ended by one of them. *)
Definition stopped {A} (o : outcome A) : Prop := o = Exit EXIT_FAILURE \/ o = Abort.

Lemma wp_stop `{!Messages} {K A} (p : proc K) (Q : outcome A -> proc K -> Prop) :
  (forall o, stopped o -> Q o p) -> wp stop p Q.
Proof. intros HQ. unfold wp, stop. destruct EF_DUMPCORE as [[|c s]|]; apply HQ; by (left + right). Qed.

Lemma wp_errExit `{!Messages} {K A} msg (p : proc K) (Q : outcome A -> proc K -> Prop) :
  (forall o e, stopped o -> Q o (Proc (kern p) (errno p) (trace p ++ [Err e]))) -> wp (errExit msg) p Q.
Proof. intros HQ. apply wp_bind, wp_get_errno, wp_bind, wp_eprintf, wp_stop. intros. by apply HQ. Qed.

Lemma wp_fatal `{!Messages} {K A} msg (p : proc K) (Q : outcome A -> proc K -> Prop) :
  (forall o e, stopped o -> Q o (Proc (kern p) (errno p) (trace p ++ [Err e]))) -> wp (fatal msg) p Q.
Proof. intros HQ. apply wp_bind, wp_eprintf, wp_stop. auto. Qed.

Lemma wp_errMsg `{!Messages} {K} msg (p : proc K) (Q : outcome unit -> proc K -> Prop) :
  (forall e, Q (Ret tt) (Proc (kern p) (errno p) (trace p ++ [Err e]))) -> wp (errMsg msg) p Q.
Proof. intros HQ. apply wp_bind, wp_get_errno, wp_eprintf, HQ. Qed.

(** A program does not go on after it was stopped. *)
Lemma stopped_bind {S A B} (o : outcome A) (k : A -> M S B) s (Q : outcome B -> S -> Prop) :
  stopped o -> (forall o', stopped o' -> Q o' s) ->
  match o with Ret a => wp (k a) s Q | o => Q (recast o (fun _ => NoFuel)) s end.
Proof. intros [->| ->] HQ; apply HQ; by (left + right). Qed.
