(* ===== verification/Users.v ===== *)
(** * Users and groups

    The translation of names and IDs (tlpi-dist/users_groups/ugid_functions.c, and its copy
    [user_id_from_name] in 12-system-and-process-information/proclist.c), [po_getpwnam]
    (08-users-and-groups/getpwnam.c) and [po_initgroups] (09-process-credentials/initgroups.c).

    The user database is not part of the repository.  Looking a name up in it is a parameter;
    scanning it is a class: the state of the process has a cursor, and [getpwent] gives the next
    entry.  A null pointer as an argument is [None]. *)

From Stdlib Require Import ZArith Lia String Ascii.
From S2P Require Import Prelude CString Kernel.

Record passwd := Passwd { pw_name : bytes; pw_uid : Z; pw_gid : Z; pw_dir : bytes; pw_shell : bytes }.
Record group := Group { gr_name : bytes; gr_gid : Z; gr_mem : list bytes }.

(** ** ugid_functions.c *)

Class UserDb := {
  getpwuid : Z -> option passwd;
  getpwnam : bytes -> option passwd;
  getgrgid : Z -> option group;
  getgrnam : bytes -> option group
}.

(** -1 as an ID, which is unsigned. *)
Definition NO_ID : Z := u32 (-1).

Section Names.
Context `{!UserDb}.

Definition userNameFromId (uid : Z) : option bytes :=
  match getpwuid uid with None => None | Some pwd => Some (pw_name pwd) end.

Definition userIdFromName (name : option bytes) : Z :=
  match name with
  | None | Some [] => NO_ID
  | Some s =>
      let r := strtol s 10 in
      let u := u32 (st_value r) in
      if Nat.eqb (st_end r) (length s) then u
      else match getpwnam s with None => NO_ID | Some pwd => pw_uid pwd end
  end.

Definition groupNameFromId (gid : Z) : option bytes :=
  match getgrgid gid with None => None | Some grp => Some (gr_name grp) end.

Definition groupIdFromName (name : option bytes) : Z :=
  match name with
  | None | Some [] => NO_ID
  | Some s =>
      let r := strtol s 10 in
      let g := u32 (st_value r) in
      if Nat.eqb (st_end r) (length s) then g
      else match getgrnam s with None => NO_ID | Some grp => gr_gid grp end
  end.

(** proclist.c has its own copy. *)
Definition user_id_from_name (name : option bytes) : Z := userIdFromName name.
End Names.

(** ** getpwnam.c and initgroups.c *)

Class UserScan (K : Type) := {
  getpwent : K -> option passwd * K;
  getgrent : K -> option group * K;
  k_setgroups : list Z -> K -> (unit + Z) * K
}.

Section Scan.
Context {K : Type} `{!UserScan K}.

Definition next_pw : M (proc K) (option passwd) := fun p =>
  let '(r, k) := getpwent (kern p) in (Ret r, Proc k (errno p) (trace p)).
Definition next_gr : M (proc K) (option group) := fun p =>
  let '(r, k) := getgrent (kern p) in (Ret r, Proc k (errno p) (trace p)).

Definition po_getpwnam (fuel : nat) (name : bytes) : M (proc K) (option passwd) :=
  loop fuel (fun _ =>
    pwd ← next_pw;
    match pwd with
    | None => mret (inr None)
    | Some pwd => if strcmp name (pw_name pwd) =? 0 then mret (inr (Some pwd)) else mret (inl tt)
    end) tt.

Definition pprint_pwd (pwd : option passwd) : M (proc K) unit :=
  match pwd with
  | None => printf (str "passwd is NULL, not found" ++ [NL])
  | Some pwd =>
      printf (str "struct passwd {" ++ [NL]) ;;
      printf (str "  pw_name=" ++ ["034"%char] ++ pw_name pwd ++ ["034"%char] ++ str "," ++ [NL]) ;;
      printf (str "  pw_uid=" ++ dec (s32 (pw_uid pwd)) ++ str "," ++ [NL]) ;;
      printf (str "  pw_gid=" ++ dec (s32 (pw_gid pwd)) ++ str "," ++ [NL]) ;;
      printf (str "  pw_dir=" ++ ["034"%char] ++ pw_dir pwd ++ ["034"%char] ++ str "," ++ [NL]) ;;
      printf (str "  pw_shell=" ++ ["034"%char] ++ pw_shell pwd ++ ["034"%char] ++ [NL]) ;;
      printf (str "}" ++ [NL])
  end.

Definition getpwnam_main (fuel : nat) (argv : list bytes) : M (proc K) Z :=
  if negb (Z.of_nat (length argv) =? 2) then
    a0 ← the (argv !! 0%nat); printf (str "Usage: " ++ a0 ++ str " <name>" ++ [NL]) ;; mret 1
  else
    a1 ← the (argv !! 1%nat);
    pwd ← po_getpwnam fuel a1;
    pprint_pwd pwd ;;
    mret 0.

(** The array of groups has room for 1024; a store past it is undefined. *)
Definition MAX_GROUPS : nat := 1024.
Definition push_group (groups : list Z) (g : Z) : M (proc K) (list Z) :=
  if (length groups <? MAX_GROUPS)%nat then mret (groups ++ [g]) else undef_.

Fixpoint add_memberships (user : bytes) (gid : Z) (members : list bytes) (groups : list Z) : M (proc K) (list Z) :=
  match members with
  | [] => mret groups
  | username :: members' =>
      groups ← (if strcmp username user =? 0 then push_group groups gid else mret groups);
      add_memberships user gid members' groups
  end.

Definition po_initgroups (fuel : nat) (user : bytes) (group : Z) : M (proc K) Z :=
  groups ← push_group [] group;
  groups ← loop fuel (fun groups =>
    grp ← next_gr;
    match grp with
    | None => mret (inr groups)
    | Some grp => groups ← add_memberships user (gr_gid grp) (gr_mem grp) groups; mret (inl groups)
    end) groups;
  r ← syscall None (fun k => let '(r, k') := k_setgroups groups k in
                             (match r with inl _ => inl (Some tt) | inr e => inr e end, k'));
  match r with Some _ => mret 0 | None => mret (-1) end.
End Scan.

(** ** Laws of the scan *)

Class ScanLaws (K : Type) `{!UserScan K} := {
  users_left : K -> list passwd;
  groups_left : K -> list group;
  credentials : K -> list Z;
  getpwent_law : forall k, getpwent k = match users_left k with
    | [] => (None, (getpwent k).2) | u :: _ => (Some u, (getpwent k).2) end /\
    users_left (getpwent k).2 = tail (users_left k);
  getgrent_law : forall k, getgrent k = match groups_left k with
    | [] => (None, (getgrent k).2) | g :: _ => (Some g, (getgrent k).2) end /\
    groups_left (getgrent k).2 = tail (groups_left k) /\ credentials (getgrent k).2 = credentials k;
  setgroups_law : forall gs k, match k_setgroups gs k with
    | (inl _, k') => credentials k' = gs
    | (inr _, k') => credentials k' = credentials k
    end
}.

(** ** What they find *)

(** The groups a user is in, once for each time it is listed. *)
Definition memberships (user : bytes) (l : list group) : list Z :=
  concat ((fun g => replicate (length (filter (fun u => u = user) (gr_mem g))) (gr_gid g)) <$> l).

Definition named_in (l : list group) : Prop := Forall (fun g => Forall c_string (gr_mem g)) l.

Lemma memberships_cons user g l :
  memberships user (g :: l)
  = replicate (length (filter (fun u => u = user) (gr_mem g))) (gr_gid g) ++ memberships user l.
Proof. done. Qed.

Section Specs.
Context {K : Type} `{!UserScan K, !ScanLaws K}.
Implicit Types (p q : proc K).

Lemma push_group_ok groups g p :
  (length groups < MAX_GROUPS)%nat -> push_group groups g p = (Ret (groups ++ [g]), p).
Proof. intros H. unfold push_group. apply Nat.ltb_lt in H. by rewrite H. Qed.

Lemma push_group_full groups g p :
  (MAX_GROUPS <= length groups)%nat -> push_group groups g p = (Undef, p).
Proof. intros H. unfold push_group. apply Nat.ltb_ge in H. by rewrite H. Qed.

(** The inner loop adds the group once per occurrence of the user, until the array is full. *)
Lemma add_memberships_spec user gid members groups p :
  c_string user -> Forall c_string members -> (length groups <= MAX_GROUPS)%nat ->
  let new := groups ++ replicate (length (filter (fun u => u = user) members)) gid in
  add_memberships user gid members groups p
  = if decide (length new <= MAX_GROUPS)%nat then (Ret new, p) else (Undef, p).
Proof.
  intros Hu Hall. revert groups. induction Hall as [|u members Hcu Hall IH]; intros groups Hlen new; simpl.
  - subst new. simpl. rewrite app_nil_r, decide_True by done. done.
  - subst new. rewrite filter_cons. pose proof (strcmp_eq u user Hcu Hu) as Hcmp.
    destruct (Z.eqb_spec (strcmp u user) 0) as [E|E].
    + destruct (decide (u = user)) as [_|Hn]; [|by apply Hcmp in E]. cbn [length replicate].
      destruct (decide (length groups < MAX_GROUPS)%nat) as [Hlt|Hge].
      * rewrite (bind_Ret _ _ _ _ _ (push_group_ok groups gid p Hlt)).
        rewrite IH by (rewrite length_app; simpl; lia). by rewrite <- app_assoc.
      * rewrite (bind_Undef _ _ _ p) by (apply push_group_full; lia).
        rewrite decide_False; [done|]. rewrite length_app. simpl. lia.
    + destruct (decide (u = user)) as [Hy|_]; [by apply Hcmp in Hy|]. rewrite (bind_Ret _ _ _ groups p) by done. by apply IH.
Qed.

Lemma next_gr_cases p :
  (groups_left (kern p) = [] /\ exists q, next_gr p = (Ret None, q) /\ credentials (kern q) = credentials (kern p)) \/
  (exists g l, groups_left (kern p) = g :: l /\ exists q, next_gr p = (Ret (Some g), q) /\
     groups_left (kern q) = l /\ credentials (kern q) = credentials (kern p)).
Proof.
  unfold next_gr. destruct (getgrent_law (kern p)) as (H1 & H2 & H3).
  destruct (groups_left (kern p)) as [|g l]; [left|right]; rewrite H1.
  - split; [done|]. eexists. split; [done|]. exact H3.
  - exists g, l. split; [done|]. eexists. split; [done|]. by split.
Qed.

Lemma collect_groups user p groups fuel :
  c_string user -> named_in (groups_left (kern p)) -> (length (groups_left (kern p)) < fuel)%nat ->
  (length groups <= MAX_GROUPS)%nat ->
  let new := groups ++ memberships user (groups_left (kern p)) in
  exists q, credentials (kern q) = credentials (kern p) /\
    loop fuel (fun groups =>
      grp ← next_gr;
      match grp with
      | None => mret (inr groups)
      | Some grp => groups ← add_memberships user (gr_gid grp) (gr_mem grp) groups; mret (inl groups)
      end) groups p
    = (if decide (length new <= MAX_GROUPS)%nat then Ret new else Undef, q).
Proof.
  intros Hu. revert p groups. induction fuel as [|fuel IH]; intros p groups Hnamed Hfuel Hlen new; [lia|].
  rewrite loop_S. destruct (next_gr_cases p) as [(Hnil & q & Hq & Hc)|(g & l & Hcons & q & Hq & Hl & Hc)].
  - exists q. split; [done|]. rewrite (bind_Ret _ _ _ (inr groups) q) by by rewrite (bind_Ret _ _ _ _ _ Hq).
    subst new. rewrite Hnil. unfold memberships. simpl. by rewrite app_nil_r, decide_True.
  - subst new. rewrite Hcons in *. apply Forall_cons in Hnamed as [Hg Hnamed].
    pose proof (add_memberships_spec user (gr_gid g) (gr_mem g) groups q Hu Hg Hlen) as Hadd. cbv zeta in Hadd.
    rewrite memberships_cons, app_assoc.
    set (groups2 := groups ++ replicate _ (gr_gid g)) in *.
    destruct (decide (length groups2 <= MAX_GROUPS)%nat) as [Hok|Hfull].
    + destruct (IH q groups2) as (q2 & Hc2 & Hrun); [by rewrite Hl|rewrite Hl; simpl in Hfuel; lia|done|].
      exists q2. split; [congruence|]. rewrite Hl in Hrun.
      erewrite bind_Ret by (rewrite (bind_Ret _ _ _ _ _ Hq); rewrite (bind_Ret _ _ _ _ _ Hadd); apply ret_eq).
      exact Hrun.
    + exists q. split; [done|]. rewrite decide_False by (rewrite length_app; lia).
      apply bind_Undef. rewrite (bind_Ret _ _ _ _ _ Hq). by apply bind_Undef.
Qed.

(** [po_initgroups] gives the process the given group and every group that lists the user,
    in the order of the database and once per listing; if the kernel refuses, the result is -1
    and the groups stay as they were.  The array has no bound check: with more than 1024 groups
    the behaviour is undefined. *)
Theorem po_initgroups_spec fuel user g p :
  c_string user -> named_in (groups_left (kern p)) -> (length (groups_left (kern p)) < fuel)%nat ->
  let gs := g :: memberships user (groups_left (kern p)) in
  exists o q, po_initgroups fuel user g p = (o, q) /\
    if decide (length gs <= 1024)%nat
    then (o = Ret 0 /\ credentials (kern q) = gs) \/
         (o = Ret (-1) /\ credentials (kern q) = credentials (kern p))
    else o = Undef.
Proof.
  intros Hu Hn Hf gs.
  destruct (collect_groups user p [g] fuel) as (q & Hc & Hrun); [done|done|done|unfold MAX_GROUPS; simpl; lia|].
  unfold po_initgroups. rewrite (bind_Ret _ _ _ [g] p) by (apply (push_group_ok []); unfold MAX_GROUPS; simpl; lia).
  change ([g] ++ memberships user (groups_left (kern p))) with gs in Hrun. unfold MAX_GROUPS in Hrun.
  destruct (decide (length gs <= 1024)%nat) as [Hok|Hbig].
  - rewrite (bind_Ret _ _ _ _ _ Hrun).
    unfold mbind, M_bind, syscall. pose proof (setgroups_law gs (kern q)) as HL.
    destruct (k_setgroups gs (kern q)) as [[[]|e] k']; eexists _, _; (split; [reflexivity|]); [left|right];
      split; simpl; try done. congruence.
  - exists Undef, q. split; [by apply bind_Undef|done].
Qed.

(** [po_getpwnam] scans on from wherever the last scan stopped, since it never rewinds. *)
Lemma po_getpwnam_scans fuel name p :
  c_string name -> Forall (fun u => c_string (pw_name u)) (users_left (kern p)) ->
  (length (users_left (kern p)) < fuel)%nat ->
  exists q, po_getpwnam fuel name p
            = (Ret (head (filter (fun u => pw_name u = name) (users_left (kern p)))), q) /\
    users_left (kern q) `suffix_of` users_left (kern p) /\
    (Forall (fun u => pw_name u <> name) (users_left (kern p)) -> users_left (kern q) = []).
Proof.
  intros Hname. revert p. induction fuel as [|fuel IH]; intros p Hall Hfuel; [lia|].
  unfold po_getpwnam. rewrite loop_S. destruct (getpwent_law (kern p)) as [H1 H2].
  destruct (users_left (kern p)) as [|u l] eqn:E.
  - erewrite bind_Ret by (erewrite bind_Ret by (unfold next_pw; by rewrite H1); apply ret_eq).
    eexists. split; [reflexivity|]. simpl. rewrite H2. done.
  - apply Forall_cons in Hall as [Hu Hall]. rewrite filter_cons.
    pose proof (strcmp_eq name (pw_name u) Hname Hu) as Hcmp.
    set (q := Proc (getpwent (kern p)).2 (errno p) (trace p)).
    assert (next_pw p = (Ret (Some u), q)) as Hq by (unfold next_pw; by rewrite H1).
    destruct (Z.eqb_spec (strcmp name (pw_name u)) 0) as [Heq|Hne].
    + destruct (decide (pw_name u = name)) as [_|Hn]; [|exfalso; apply Hn; symmetry; by apply Hcmp].
      erewrite bind_Ret by (rewrite (bind_Ret _ _ _ _ _ Hq); rewrite (proj2 (Z.eqb_eq _ _) Heq); apply ret_eq).
      exists q. split; [done|]. split; [subst q; simpl; rewrite H2; by exists [u]|].
      intros [Hc _]%Forall_cons. exfalso. apply Hc. symmetry. by apply Hcmp.
    + destruct (decide (pw_name u = name)) as [Hy|_]; [exfalso; apply Hne; by apply Hcmp|].
      erewrite bind_Ret by (rewrite (bind_Ret _ _ _ _ _ Hq); rewrite (proj2 (Z.eqb_neq _ _) Hne); apply ret_eq).
      assert (users_left (kern q) = l) as Hl by (subst q; simpl; by rewrite H2).
      destruct (IH q) as (q2 & Hrun & Hsuf & Hend); [by rewrite Hl|rewrite Hl; simpl in Hfuel; lia|].
      rewrite Hl in *. exists q2. split; [exact Hrun|]. split; [by apply suffix_cons_r|].
      intros [_ Hc]%Forall_cons. by apply Hend.
Qed.
End Specs.

(** ** A database, and witnesses *)

Record scan := Scan { sc_users : list passwd; sc_groups : list group; sc_cred : list Z }.

#[export] Instance scan_db : UserScan scan := {|
  getpwent := fun k => (head (sc_users k), Scan (tail (sc_users k)) (sc_groups k) (sc_cred k));
  getgrent := fun k => (head (sc_groups k), Scan (sc_users k) (tail (sc_groups k)) (sc_cred k));
  k_setgroups := fun gs k => (inl tt, Scan (sc_users k) (sc_groups k) gs)
|}.

#[export] Program Instance scan_laws : ScanLaws scan :=
  {| users_left := sc_users; groups_left := sc_groups; credentials := sc_cred |}.
Next Obligation. intros k. split; [|done]. simpl. by destruct (sc_users k). Qed.
Next Obligation. intros k. split; [|done]. simpl. by destruct (sc_groups k). Qed.
Next Obligation. done. Qed.

Definition etc : proc scan :=
  Proc (Scan [Passwd (str "root") 0 0 (str "/root") (str "/bin/sh"); Passwd (str "ann") 7 7 (str "/") (str "/")]
             [Group (str "wheel") 10 [str "ann"; str "root"]; Group (str "nobody") 11 []; Group (str "www") 12 [str "ann"]] []) 0 [].

Lemma po_initgroups_spec_witness :
  exists q, po_initgroups 9 (str "ann") 7 etc = (Ret 0, q) /\ credentials (kern q) = [7; 10; 12].
Proof.
  destruct (po_initgroups_spec 9 (str "ann") 7 etc) as (o & q & HR & _);
    [by_decide|unfold named_in; by_decide|by_decide|].
  exists q. vm_compute in HR. by injection HR as <- <-.
Defined.

(** After a name that is found, a scan for an earlier one fails. *)
Lemma po_getpwnam_forgets :
  exists q q', po_getpwnam 9 (str "ann") etc = (Ret (Some (Passwd (str "ann") 7 7 (str "/") (str "/"))), q) /\
    po_getpwnam 9 (str "root") q = (Ret None, q').
Proof. eexists _, _. split; by vm_compute. Qed.
