(* ===== verification/Acl.v ===== *)
(** * Access control lists

    acl_update.c (tlpi-dist/acl): the parser of the command line's ACL text and the update of the
    ACLs of files.  libacl is not part of the repository: class [LibAcl] has the calls the
    program makes, over an abstract type of ACLs and one of handles to their entries, and
    [AclLaws] says what they do to the entries, in terms of [items]. *)

From Stdlib Require Import ZArith Lia String Ascii.
From S2P Require Import Prelude CString Kernel ErrorFns Users.

(** The constants of sys/acl.h. *)
Definition ACL_USER_OBJ : Z := 1.
Definition ACL_USER : Z := 2.
Definition ACL_GROUP_OBJ : Z := 4.
Definition ACL_GROUP : Z := 8.
Definition ACL_MASK : Z := 16.
Definition ACL_OTHER : Z := 32.
Definition ACL_READ : Z := 4.
Definition ACL_WRITE : Z := 2.
Definition ACL_EXECUTE : Z := 1.
Definition ACL_TYPE_ACCESS : Z := 32768.
Definition ACL_TYPE_DEFAULT : Z := 16384.

Definition MAX_ENTRIES : Z := 10000.

Record AccessControlEntry := Ace { tag : Z; qual : Z; perms : Z }.

#[export] Instance ace_eq_dec : EqDecision AccessControlEntry.
Proof. solve_decision. Defined.

(** ** The parser *)

Section Parse.
Context `{!UserDb} {K : Type}.

Definition has_name (s : bytes) (short long : string) : bool :=
  (strcmp s (str short) =? 0) || (strcmp s (str long) =? 0).

(** The tag, which depends on the presence of a qualifier. *)
Definition parse_tag (s : bytes) (hasQual : bool) : option Z :=
  if has_name s "u" "user" then Some (if hasQual then ACL_USER else ACL_USER_OBJ)
  else if has_name s "g" "group" then Some (if hasQual then ACL_GROUP else ACL_GROUP_OBJ)
  else if has_name s "o" "other" then Some ACL_OTHER
  else if has_name s "m" "mask" then Some ACL_MASK
  else None.

Fixpoint parse_perms (p : bytes) (perms : Z) : M (proc K) (option Z) :=
  match p with
  | [] => mret (Some perms)
  | c :: p' =>
      if Ascii.eqb c "r" then parse_perms p' (Z.lor perms ACL_READ)
      else if Ascii.eqb c "w" then parse_perms p' (Z.lor perms ACL_WRITE)
      else if Ascii.eqb c "x" then parse_perms p' (Z.lor perms ACL_EXECUTE)
      else if negb (Ascii.eqb c "-") then
        eprintf (str "Bad character in permissions string: " ++ [c] ++ [NL]) ;; mret None
      else parse_perms p' perms
  end.

(** The entry is filled in as the parse goes; [ace0] is what the array held before. *)
Definition parseEntrySpec (entryStr : bytes) (ace0 : AccessControlEntry) (permsReqd : bool)
    : M (proc K) (bool * AccessControlEntry) :=
  match strchr entryStr ":" with
  | None => eprintf (str "Missing initial colon in ACL entry: " ++ entryStr ++ [NL]) ;; mret (false, ace0)
  | Some colon1 =>
      let name := take colon1 entryStr in
      let after := drop (S colon1) entryStr in
      let hasQual := match after with [] => false | c :: _ => negb (Ascii.eqb c ":") end in
      let colon2 := strchr after ":" in
      let perm_str := match colon2 with None => [] | Some j => drop (S j) after end in
      let hasPerms := match perm_str with [] => false | _ => true end in
      if hasPerms && negb permsReqd then
        eprintf (str "Cannot specify permissions here" ++ [NL]) ;; mret (false, ace0)
      else if negb hasPerms && permsReqd then
        eprintf (str "Must specify permissions" ++ [NL]) ;; mret (false, ace0)
      else
        match parse_tag name hasQual with
        | None => eprintf (str "Bad tag: " ++ name ++ [NL]) ;; mret (false, ace0)
        | Some t =>
            let qualifier := match colon2 with None => after | Some j => take j after end in
            let q :=
              if t =? ACL_USER then userIdFromName (Some qualifier)
              else if t =? ACL_GROUP then groupIdFromName (Some qualifier)
              else 0 in
            if (t =? ACL_USER) && (q =? NO_ID) then
              eprintf (str "Bad user ID: " ++ qualifier ++ [NL]) ;; mret (false, Ace t q (perms ace0))
            else if (t =? ACL_GROUP) && (q =? NO_ID) then
              eprintf (str "Bad group ID: " ++ qualifier ++ [NL]) ;; mret (false, Ace t q (perms ace0))
            else if hasPerms then
              r ← parse_perms perm_str 0;
              match r with
              | Some m => mret (true, Ace t q m)
              | None => mret (false, Ace t q 0)
              end
            else mret (true, Ace t q (perms ace0))
        end
  end.

(** The number of entries, or -1, and the array; [garbage] is what it held. *)
Definition parseACL (garbage : nat -> AccessControlEntry) (aclStr : bytes) (permsReqd : bool)
    : M (proc K) (Z * list AccessControlEntry) :=
  loop (S (Z.to_nat MAX_ENTRIES)) (fun '(n, nextEntry, aclist) =>
    if MAX_ENTRIES <=? n then
      eprintf (str "Too many entries in ACL" ++ [NL]) ;; mret (inr (-1, aclist))
    else
      let comma := strchr nextEntry "," in
      let entry := match comma with None => nextEntry | Some i => take i nextEntry end in
      r ← parseEntrySpec entry (garbage (Z.to_nat n)) permsReqd;
      let '(ok, ace) := r in
      if negb ok then mret (inr (-1, aclist))
      else
        match comma with
        | None => mret (inr (n + 1, aclist ++ [ace]))
        | Some i => mret (inl (n + 1, drop (S i) nextEntry, aclist ++ [ace]))
        end) (0, aclStr, []).
End Parse.

(** ** libacl *)

(** [A] is an ACL, [E] a handle to an entry of one. *)
Class LibAcl (K A E : Type) := {
  acl_get_file : bytes -> Z -> K -> (A + Z) * K;
  acl_set_file : bytes -> Z -> A -> K -> (unit + Z) * K;
  acl_delete_def_file : bytes -> K -> (unit + Z) * K;
  acl_get_entry : A -> nat -> option E + Z;           (* the n-th call of an iteration *)
  acl_get_tag_type : A -> E -> Z + Z;
  acl_get_qualifier : A -> E -> Z + Z;
  acl_create_entry : A -> (A * E) + Z;
  acl_delete_entry : A -> E -> A + Z;
  acl_set_tag_type : A -> E -> Z -> A + Z;
  acl_set_qualifier : A -> E -> Z -> A + Z;
  acl_clear_perms : A -> E -> A + Z;                  (* on the permission set of the entry *)
  acl_add_perm : A -> E -> Z -> A + Z;
  acl_set_permset : A -> E -> A + Z;
  acl_calc_mask : A -> A + Z;
  acl_valid : A -> unit + Z
}.

Section Update.
Context `{!Messages} {K A E : Type} `{!LibAcl K A E}.

(** A library call whose failure ends the program. *)
Definition need {B} (what : string) (r : B + Z) : M (proc K) B :=
  match r with
  | inl b => mret b
  | inr e => set_errno e ;; errExit (str what)
  end.

(** The scan for an entry.  The copies of the qualifiers that are freed are not modelled. *)
Definition findEntry (fuel : nat) (acl : A) (t q : Z) : M (proc K) (option E) :=
  loop fuel (fun ent =>
    s ← need "acl_get_entry" (acl_get_entry acl ent);
    match s with
    | None => mret (inr None)
    | Some entry =>
        entryTag ← need "acl_get_tag_type" (acl_get_tag_type acl entry);
        if t =? entryTag then
          if (t =? ACL_USER) || (t =? ACL_GROUP) then
            id ← need "acl_get_qualifier" (acl_get_qualifier acl entry);
            if q =? id then mret (inr (Some entry)) else mret (inl (S ent))
          else mret (inr (Some entry))
        else mret (inl (S ent))
    end) O.

Definition add_if (perms bit : Z) (acl : A) (entry : E) : M (proc K) A :=
  if negb (Z.land perms bit =? 0) then need "acl_add_perm" (acl_add_perm acl entry bit) else mret acl.

Definition setPerms (acl : A) (entry : E) (perms : Z) : M (proc K) A :=
  acl ← need "acl_clear_perms" (acl_clear_perms acl entry);
  acl ← add_if perms ACL_READ acl entry;
  acl ← add_if perms ACL_WRITE acl entry;
  acl ← add_if perms ACL_EXECUTE acl entry;
  need "acl_set_permset" (acl_set_permset acl entry).

(** One entry of the command line applied to an ACL: the body of the inner loop up to the mask. *)
Definition apply_entry (fuel : nat) (removeACL : bool) (acl : A) (ace : AccessControlEntry) : M (proc K) A :=
  entry ← findEntry fuel acl (tag ace) (qual ace);
  if removeACL then
    match entry with
    | Some e => need "acl_delete_entry" (acl_delete_entry acl e)
    | None => mret acl
    end
  else
    ae ← match entry with
         | Some e => mret (acl, e)
         | None =>
             ae ← need "acl_create_entry" (acl_create_entry acl);
             let '(acl, e) := ae in
             acl ← need "acl_set_tag_type" (acl_set_tag_type acl e (tag ace));
             acl ← (if (tag ace =? ACL_USER) || (tag ace =? ACL_GROUP)
                    then need "acl_set_qualifier" (acl_set_qualifier acl e (qual ace)) else mret acl);
             mret (acl, e)
         end;
    let '(acl, e) := ae in
    setPerms acl e (perms ace).

(** The rest of the body: recompute the mask, check, and write the ACL to the file. *)
Definition store_acl (recalcMask : bool) (path : bytes) (type : Z) (acl : A) : M (proc K) A :=
  acl ← (if recalcMask then need "acl_calc_mask" (acl_calc_mask acl) else mret acl);
  need "acl_valid" (acl_valid acl) ;;
  r ← syscall None (fun k => let '(r, k') := acl_set_file path type acl k in
                             (match r with inl _ => inl (Some tt) | inr e => inr e end, k'));
  match r with Some _ => mret acl | None => errExit (str "acl_set_file") end.

Fixpoint apply_entries (fuel : nat) (removeACL recalcMask : bool) (path : bytes) (type : Z) (acl : A)
    (aclist : list AccessControlEntry) : M (proc K) A :=
  match aclist with
  | [] => mret acl
  | ace :: aclist' =>
      acl ← apply_entry fuel removeACL acl ace;
      acl ← store_acl recalcMask path type acl;
      apply_entries fuel removeACL recalcMask path type acl aclist'
  end.

Definition update_file (fuel : nat) (removeACL recalcMask : bool) (type : Z)
    (aclist : list AccessControlEntry) (path : bytes) : M (proc K) unit :=
  r ← syscall None (fun k => let '(r, k') := acl_get_file path type k in
                             (match r with inl a => inl (Some a) | inr e => inr e end, k'));
  match r with
  | None => errExit (str "acl_get_file")
  | Some acl => apply_entries fuel removeACL recalcMask path type acl aclist ;; mret tt
  end.
End Update.

(** ** main

    [getopt] belongs to the C library: [opts] are the options it delivers, each with its
    argument ([optarg]), and [operands] the arguments it leaves. *)

Record settings := Settings {
  recalcMask : bool; useDefaultACL : bool; modifyACL : bool; removeACL : bool;
  removeDefaultACL : bool; checkValidity : bool; optCnt : Z; aclSpec : option bytes
}.
Definition no_settings : settings := Settings true false false false false false 0 None.

Section Main.
Context `{!Messages, !UserDb} {K A E : Type} `{!LibAcl K A E}.

Definition usage_lines (progName : bytes) : list bytes :=
  [ str "Usage: " ++ progName ++ str " -m acl [-d] [-n] file..." ++ [NL];
    str "   or: " ++ progName ++ str " -x acl [-d] [-n] file..." ++ [NL];
    str "   or: " ++ progName ++ str " -k file..." ++ [NL; NL];
    str "   or: " ++ progName ++ str " -V acl" ++ [NL; NL];
    str "      -m  Modify/create ACL entries" ++ [NL];
    str "      -x  Remove ACL entries" ++ [NL];
    str "      -k  Remove default ACL" ++ [NL; NL];
    str "      -V  Check validity of 'acl'" ++ [NL; NL];
    str "      'acl' consists of one or more comma-separated entries of the form:" ++ [NL];
    str "      " ++ [NL] ++ str "            tag:[qualifier][:[perms]]" ++ [NL; NL];
    str "            'perms' are specified only for -m" ++ [NL; NL];
    str "      -d  Apply operation to default ACL" ++ [NL];
    str "      -n  Don't recalculate mask entry" ++ [NL];
    str "            NOTE: if you specify this option and have specified" ++ [NL];
    str "            the -m option, then you may encounter errors if the" ++ [NL];
    str "            file does not already have a mask entry." ++ [NL] ].

Definition usageError {B} (progName : bytes) (msg : option bytes) (shortUsage : bool) : M (proc K) B :=
  (match msg with Some m => eprintf (m ++ [NL]) | None => mret tt end) ;;
  (if shortUsage then
     eprintf (str "Type '" ++ progName ++ str " --help' for usage information" ++ [NL]) ;; exit_ EXIT_FAILURE
   else mret tt) ;;
  for_each eprintf (usage_lines progName) ;;
  exit_ EXIT_FAILURE.

Definition take_option (progName : bytes) (s : settings) (o : ascii * option bytes) : M (proc K) settings :=
  let '(opt, optarg) := o in
  let '(Settings rm ud mo re rd cv n spec) := s in
  if Ascii.eqb opt "m" then mret (Settings rm ud true re rd cv (n + 1) optarg)
  else if Ascii.eqb opt "x" then mret (Settings rm ud mo true rd cv (n + 1) optarg)
  else if Ascii.eqb opt "k" then mret (Settings rm ud mo re true cv (n + 1) spec)
  else if Ascii.eqb opt "V" then mret (Settings rm ud mo re rd true (n + 1) optarg)
  else if Ascii.eqb opt "d" then mret (Settings rm true mo re rd cv n spec)
  else if Ascii.eqb opt "n" then mret (Settings false ud mo re rd cv n spec)
  else usageError progName (Some (str "Bad option" ++ [NL])) true.

Fixpoint take_options (progName : bytes) (s : settings) (opts : list (ascii * option bytes)) : M (proc K) settings :=
  match opts with
  | [] => mret s
  | o :: opts' => s ← take_option progName s o; take_options progName s opts'
  end.

Definition one_file (fuel : nat) (s : settings) (type : Z) (aclist : list AccessControlEntry) (path : bytes)
    : M (proc K) unit :=
  if removeDefaultACL s then
    r ← syscall None (fun k => let '(r, k') := acl_delete_def_file path k in
                               (match r with inl _ => inl (Some tt) | inr e => inr e end, k'));
    match r with Some _ => mret tt | None => errExit (str "acl_delete_def_file: " ++ path) end
  else if modifyACL s || removeACL s then
    update_file fuel (removeACL s) (recalcMask s) type aclist path
  else fatal (str "Bad logic!").

Definition acl_main (garbage : nat -> AccessControlEntry) (fuel : nat) (argv : list bytes)
    (opts : list (ascii * option bytes)) (operands : list bytes) : M (proc K) Z :=
  a0 ← the (argv !! 0%nat);
  if (Z.of_nat (length argv) <? 2) || (strcmp (default [] (argv !! 1%nat)) (str "--help") =? 0) then
    usageError a0 None false
  else
    s ← take_options a0 no_settings opts;
    if negb (optCnt s =? 1) then usageError a0 (Some (str "Specify exactly one of -m, -x, -k, or -V" ++ [NL])) true
    else if checkValidity s && useDefaultACL s then
      usageError a0 (Some (str "Can't specify -d with -V" ++ [NL])) true
    else if checkValidity s then
      spec ← the (aclSpec s);
      r ← parseACL garbage spec true;
      if r.1 =? -1 then fatal (str "Bad ACL entry specification")
      else printf (str "ACL is valid" ++ [NL]) ;; exit_ EXIT_SUCCESS
    else
      aclist ← (if modifyACL s || removeACL s then
                  spec ← the (aclSpec s);
                  r ← parseACL garbage spec (modifyACL s);
                  if r.1 =? -1 then usageError a0 (Some (str "Bad ACL specification" ++ [NL])) true
                  else mret r.2
                else mret []);
      let type := if useDefaultACL s then ACL_TYPE_DEFAULT else ACL_TYPE_ACCESS in
      for_each (one_file fuel s type aclist) operands ;;
      exit_ EXIT_SUCCESS.
End Main.

(** ** The parser reads back what a printer of ACL text writes *)

Definition show_tag (t : Z) : bytes :=
  if (t =? ACL_USER) || (t =? ACL_USER_OBJ) then str "user"
  else if (t =? ACL_GROUP) || (t =? ACL_GROUP_OBJ) then str "group"
  else if t =? ACL_OTHER then str "other" else str "mask".
Definition show_perms (p : Z) : bytes :=
  [ if Z.testbit p 2 then "r" else "-"; if Z.testbit p 1 then "w" else "-"; if Z.testbit p 0 then "x" else "-" ]%char.
Definition qualified (t : Z) : bool := (t =? ACL_USER) || (t =? ACL_GROUP).
Definition show_ace (a : AccessControlEntry) : bytes :=
  show_tag (tag a) ++ ":"%char :: (if qualified (tag a) then dec (qual a) else []) ++ ":"%char :: show_perms (perms a).

Fixpoint show_acl (l : list AccessControlEntry) : bytes :=
  match l with
  | [] => []
  | [a] => show_ace a
  | a :: l' => show_ace a ++ ","%char :: show_acl l'
  end.

Record well_formed (a : AccessControlEntry) : Prop := {
  wf_tag : tag a ∈ [ACL_USER_OBJ; ACL_USER; ACL_GROUP_OBJ; ACL_GROUP; ACL_MASK; ACL_OTHER];
  wf_perms : 0 <= perms a < 8;
  wf_qual : if qualified (tag a) then 0 <= qual a < NO_ID else qual a = 0
}.

Lemma show_perms_read {K} m (p : proc K) : 0 <= m < 8 -> parse_perms (show_perms m) 0 p = (Ret (Some m), p).
Proof.
  intros Hm. assert (m = 0 \/ m = 1 \/ m = 2 \/ m = 3 \/ m = 4 \/ m = 5 \/ m = 6 \/ m = 7) as H by lia.
  destruct_or!; subst; reflexivity.
Qed.

Lemma numeric_id q : 0 <= q < NO_ID ->
  st_value (strtol (dec q) 10) = q /\ st_end (strtol (dec q) 10) = length (dec q) /\ u32 q = q.
Proof.
  intros Hq. change NO_ID with 4294967295 in Hq.
  rewrite strtol_dec_end by (unfold LONG_MIN, LONG_MAX; lia). split_and!; [done..|].
  apply wrap_u_id. unfold in_u. lia.
Qed.

Lemma userIdFromName_dec `{!UserDb} q : 0 <= q < NO_ID -> userIdFromName (Some (dec q)) = q.
Proof.
  intros Hq. destruct (numeric_id q Hq) as (H1 & H2 & H3). pose proof (dec_nonempty q).
  unfold userIdFromName. destruct (dec q) as [|c l] eqn:E; [done|]. by rewrite H1, H2, Nat.eqb_refl.
Qed.

Lemma groupIdFromName_dec `{!UserDb} q : 0 <= q < NO_ID -> groupIdFromName (Some (dec q)) = q.
Proof.
  intros Hq. destruct (numeric_id q Hq) as (H1 & H2 & H3). pose proof (dec_nonempty q).
  unfold groupIdFromName. destruct (dec q) as [|c l] eqn:E; [done|]. by rewrite H1, H2, Nat.eqb_refl.
Qed.

(** A number contains neither separator. *)
Lemma dec_no c q : c <> "-"%char -> ~ dec_char c -> c ∉ dec q.
Proof. intros H1 H2 Hin. pose proof (dec_chars q) as Hf. rewrite Forall_forall in Hf. destruct (Hf _ Hin); done. Qed.

Section RoundTrip.
Context `{!UserDb} {K : Type}.
Implicit Types (p : proc K).

Lemma drop_past (c : ascii) (s t : bytes) : drop (S (length s)) (s ++ c :: t) = t.
Proof. induction s; simpl; [by rewrite drop_0|done]. Qed.

Lemma strchr_here c s t : c <> NUL -> c ∉ s -> strchr (s ++ c :: t) c = Some (length s).
Proof. intros. by rewrite strchr_index, index_of_here. Qed.

(** A printed entry, cut at its colons. *)
Lemma parse_entry_cut name ql pm a0 p t :
  ":"%char ∉ name -> ":"%char ∉ ql -> pm <> [] ->
  parse_tag name (match ql with [] => false | _ => true end) = Some t ->
  parseEntrySpec (name ++ ":"%char :: ql ++ ":"%char :: pm) a0 true p =
  (let q := if t =? ACL_USER then userIdFromName (Some ql)
            else if t =? ACL_GROUP then groupIdFromName (Some ql) else 0 in
   if (t =? ACL_USER) && (q =? NO_ID) then
     eprintf (str "Bad user ID: " ++ ql ++ [NL]) ;; mret (false, Ace t q (perms a0))
   else if (t =? ACL_GROUP) && (q =? NO_ID) then
     eprintf (str "Bad group ID: " ++ ql ++ [NL]) ;; mret (false, Ace t q (perms a0))
   else
     r ← parse_perms pm 0;
     match r with Some m => mret (true, Ace t q m) | None => mret (false, Ace t q 0) end) p.
Proof.
  intros Hname Hql Hpm Htag. unfold parseEntrySpec. rewrite strchr_here by done.
  rewrite drop_past, take_app_length, strchr_here by done.
  rewrite drop_past, take_app_length.
  assert (match ql ++ ":"%char :: pm with [] => false | c :: _ => negb (Ascii.eqb c ":") end
          = match ql with [] => false | _ => true end) as ->.
  { destruct ql as [|c ql]; [done|]. simpl. destruct (Ascii.eqb_spec c ":") as [->|]; [set_solver|done]. }
  destruct pm as [|c pm]; [done|]. cbn [negb andb]. by rewrite Htag.
Qed.

Lemma parse_entry_show a a0 p :
  well_formed a -> parseEntrySpec (show_ace a) a0 true p = (Ret (true, a), p).
Proof.
  destruct a as [t q m]. intros [Ht Hm Hq]. cbn [tag qual perms] in *. unfold show_ace. cbn [tag qual perms].
  pose proof (dec_nonempty q) as Hne. pose proof (show_perms_read m p Hm) as Hread.
  assert (":"%char ∉ show_tag t) as Htag.
  { clear - Ht. repeat (apply elem_of_cons in Ht as [->|Ht]; [by_decide|]). by apply not_elem_of_nil in Ht. }
  assert (parse_tag (show_tag t) (qualified t) = Some t) as Hparse.
  { clear - Ht. repeat (apply elem_of_cons in Ht as [->|Ht]; [reflexivity|]). by apply not_elem_of_nil in Ht. }
  destruct (qualified t) eqn:Hqt.
  - assert (":"%char ∉ dec q) as Hdec.
    { apply dec_no; [done|]. rewrite dec_char_spec. ord_lia. }
    rewrite (parse_entry_cut _ _ _ a0 p t); [|done..|].
    2: { destruct (dec q); [done|exact Hparse]. }
    rewrite userIdFromName_dec, groupIdFromName_dec by done. cbv zeta.
    assert ((q =? NO_ID) = false) as Hid by lia.
    unfold qualified in Hqt. destruct (t =? ACL_USER); [|destruct (t =? ACL_GROUP); [|done]];
      rewrite Hid, ?andb_false_r; cbn [andb]; by rewrite (bind_Ret _ _ _ _ _ Hread).
  - rewrite (parse_entry_cut _ [] _ a0 p t); [|done|apply not_elem_of_nil|done|done].
    unfold qualified in Hqt. apply orb_false_elim in Hqt as [-> ->]. cbv zeta. cbn [andb].
    rewrite (bind_Ret _ _ _ _ _ Hread). by rewrite Hq.
Qed.

Lemma show_ace_no_comma a : well_formed a -> ","%char ∉ show_ace a.
Proof.
  destruct a as [t q m]. intros [Ht Hm _]. cbn [tag qual perms] in *. unfold show_ace. cbn [tag qual perms].
  assert (","%char ∉ show_tag t) as Htag.
  { clear - Ht. repeat (apply elem_of_cons in Ht as [->|Ht]; [by_decide|]). by apply not_elem_of_nil in Ht. }
  assert (","%char ∉ dec q) as Hdec by (apply dec_no; [done|]; rewrite dec_char_spec; ord_lia).
  assert (","%char ∉ show_perms m) as Hperms.
  { unfold show_perms. destruct (Z.testbit m 2), (Z.testbit m 1), (Z.testbit m 0); by_decide. }
  destruct (qualified t); set_solver.
Qed.

(** C28: the parser inverts the printer: the text of any list of up to ten thousand well-formed
    entries is accepted, without a diagnostic, and read as exactly those entries, with the IDs and
    permissions they had. *)
Theorem parseACL_show garbage l p :
  l <> [] -> Z.of_nat (length l) <= MAX_ENTRIES -> Forall well_formed l ->
  parseACL garbage (show_acl l) true p = (Ret (Z.of_nat (length l), l), p).
Proof.
  intros Hne Hlen Hall.
  assert (forall rest acc fuel, rest <> [] -> (length rest < fuel)%nat -> Forall well_formed rest ->
    Z.of_nat (length (acc ++ rest)) <= MAX_ENTRIES ->
    loop fuel (fun '(n, nextEntry, aclist) =>
      if MAX_ENTRIES <=? n then
        eprintf (str "Too many entries in ACL" ++ [NL]) ;; mret (inr (-1, aclist))
      else
        let comma := strchr nextEntry "," in
        let entry := match comma with None => nextEntry | Some i => take i nextEntry end in
        r ← parseEntrySpec entry (garbage (Z.to_nat n)) true;
        let '(ok, ace) := r in
        if negb ok then mret (inr (-1, aclist))
        else
          match comma with
          | None => mret (inr (n + 1, aclist ++ [ace]))
          | Some i => mret (inl (n + 1, drop (S i) nextEntry, aclist ++ [ace]))
          end) (Z.of_nat (length acc), show_acl rest, acc) p
    = (Ret (Z.of_nat (length (acc ++ rest)), acc ++ rest), p)) as Hloop.
  2: { apply (Hloop l []); try done. unfold MAX_ENTRIES in *. lia. }
  clear. induction rest as [|a rest IH]; intros acc fuel Hne Hfuel Hall Hlen; [done|].
  apply Forall_cons in Hall as [Ha Hall]. destruct fuel as [|fuel]; [lia|].
  rewrite length_app in Hlen. cbn [length] in *.
  pose proof (show_ace_no_comma a Ha) as Hcomma. rewrite loop_S.
  replace (MAX_ENTRIES <=? Z.of_nat (length acc)) with false by lia. cbv zeta.
  destruct rest as [|b rest].
  - cbn [show_acl]. assert (strchr (show_ace a) "," = None) as ->
      by (rewrite strchr_index by done; by apply index_of_None).
    erewrite bind_Ret by (rewrite (bind_Ret _ _ _ _ _ (parse_entry_show a _ p Ha)); apply ret_eq).
    unfold mret, M_ret. rewrite length_app. cbn [length]. do 3 f_equal. lia.
  - change (show_acl (a :: b :: rest)) with (show_ace a ++ ","%char :: show_acl (b :: rest)).
    rewrite strchr_here by done. rewrite take_app_length, drop_past.
    erewrite bind_Ret by (rewrite (bind_Ret _ _ _ _ _ (parse_entry_show a _ p Ha)); apply ret_eq).
    cbv beta iota. replace (Z.of_nat (length acc) + 1) with (Z.of_nat (length (acc ++ [a])))
      by (rewrite length_app; cbn [length]; lia).
    rewrite IH; [|done|cbn [length] in *; lia|done|rewrite !length_app; cbn [length] in *; lia].
    by rewrite <- app_assoc.
Qed.
End RoundTrip.

(** ** What an update does to the ACL of a file *)

(** An entry is known by its tag and, for named users and groups, its qualifier. *)
Definition key (x : AccessControlEntry) : Z * Z := (tag x, if qualified (tag x) then qual x else 0).
Definition keys (l : list AccessControlEntry) : list (Z * Z) := key <$> l.
Definition MASK_KEY : Z * Z := (ACL_MASK, 0).

(** The permissions an ACL gives, by key. *)
Definition rights (l : list AccessControlEntry) : gmap (Z * Z) Z :=
  list_to_map ((fun x => (key x, perms x)) <$> l).

Definition change {E} `{!EqDecision E} (e : E) (f : AccessControlEntry -> AccessControlEntry)
    (l : list (E * AccessControlEntry)) : list (E * AccessControlEntry) :=
  (fun p => if decide (p.1 = e) then (p.1, f p.2) else p) <$> l.

Class AclLaws (K A E : Type) `{!LibAcl K A E, !EqDecision E} := {
  items : A -> list (E * AccessControlEntry);
  file_acl : K -> bytes -> Z -> list AccessControlEntry;
  items_nodup : forall a, NoDup (items a).*1;
  get_file_law : forall k path type,
    match acl_get_file path type k with
    | (inl a, k') => (items a).*2 = file_acl k path type /\ NoDup (keys (items a).*2) /\ file_acl k' = file_acl k
    | (inr _, k') => file_acl k' = file_acl k
    end;
  set_file_law : forall k path type a,
    match acl_set_file path type a k with
    | (inl _, k') => file_acl k' path type = (items a).*2 /\
        forall path' type', (path', type') <> (path, type) -> file_acl k' path' type' = file_acl k path' type'
    | (inr _, k') => file_acl k' = file_acl k
    end;
  get_entry_law : forall a n r, acl_get_entry a n = inl r -> r = fst <$> items a !! n;
  tag_law : forall a e x t, (e, x) ∈ items a -> acl_get_tag_type a e = inl t -> t = tag x;
  qual_law : forall a e x q, (e, x) ∈ items a -> acl_get_qualifier a e = inl q -> q = qual x;
  create_law : forall a a' e, acl_create_entry a = inl (a', e) -> exists x, items a' = items a ++ [(e, x)];
  delete_law : forall a e a', acl_delete_entry a e = inl a' -> items a' = filter (fun p => p.1 <> e) (items a);
  set_tag_law : forall a e t a', acl_set_tag_type a e t = inl a' ->
    items a' = change e (fun x => Ace t (qual x) (perms x)) (items a);
  set_qual_law : forall a e q a', acl_set_qualifier a e q = inl a' ->
    items a' = change e (fun x => Ace (tag x) q (perms x)) (items a);
  clear_law : forall a e a', acl_clear_perms a e = inl a' ->
    items a' = change e (fun x => Ace (tag x) (qual x) 0) (items a);
  add_law : forall a e m a', acl_add_perm a e m = inl a' ->
    items a' = change e (fun x => Ace (tag x) (qual x) (Z.lor (perms x) m)) (items a);
  permset_law : forall a e a', acl_set_permset a e = inl a' -> items a' = items a;
  mask_law : forall a a', acl_calc_mask a = inl a' -> NoDup (keys (items a).*2) ->
    NoDup (keys (items a').*2) /\ delete MASK_KEY (rights (items a').*2) = delete MASK_KEY (rights (items a).*2)
}.

Section UpdateSpec.
Context `{!Messages} {K A E : Type} `{!LibAcl K A E, !EqDecision E, !AclLaws K A E}.
Implicit Types (p q : proc K) (a : A) (e : E).

Lemma wp_need {B} what (r : B + Z) p (Q : outcome B -> proc K -> Prop) :
  (forall b, r = inl b -> Q (Ret b) p) ->
  (forall o q, stopped o -> kern q = kern p -> Q o q) -> wp (need what r) p Q.
Proof.
  intros Hok Hbad. unfold need. destruct r as [b|err]; [by apply wp_ret, Hok|].
  apply wp_bind, wp_set_errno, wp_errExit. intros o e Ho. by apply Hbad.
Qed.

(** The postcondition of a step: it stops the program with the files as they were, or returns
    with them as they were and a result as described. *)
Definition post {B} p (P : B -> Prop) (o : outcome B) q : Prop :=
  kern q = kern p /\ (stopped o \/ exists b, o = Ret b /\ P b).

Lemma post_need {B} what (r : B + Z) p (P : B -> Prop) :
  (forall b, r = inl b -> P b) -> wp (need what r) p (post p P).
Proof.
  intros HP. apply wp_need.
  - intros b Hb. split; [done|]. right. eauto.
  - intros o q Ho Hq. split; [done|]. by left.
Qed.

Lemma post_bind {B C} (m : M (proc K) B) (k : B -> M (proc K) C) p (P : B -> Prop) (R : C -> Prop) :
  wp m p (post p P) -> (forall b q, P b -> kern q = kern p -> wp (k b) q (post q R)) ->
  wp (m ≫= k) p (post p R).
Proof.
  intros Hm Hk. apply wp_bind. eapply wp_mono; [exact Hm|]. intros o q [Hq [Ho|(b & -> & Hb)]].
  - destruct Ho as [-> | ->]; (split; [done|]; left; by (left + right)).
  - eapply wp_mono; [by apply Hk|]. intros o q2 [Hq2 H2]. split; [congruence|done].
Qed.

Lemma post_ret {B} p (P : B -> Prop) b : P b -> wp (mret b) p (post p P).
Proof. intros HP. apply wp_ret. split; [done|]. right. eauto. Qed.

Definition matches (t i : Z) (x : AccessControlEntry) : Prop := key x = (t, if qualified t then i else 0).

(** The scan finds the entry with the key, if there is one. *)
Lemma findEntry_spec fuel a t i p :
  (length (items a) < fuel)%nat ->
  wp (findEntry fuel a t i) p (post p (fun r =>
    match r with
    | Some e => exists x, (e, x) ∈ items a /\ matches t i x
    | None => Forall (fun x => ~ matches t i x) (items a).*2
    end)).
Proof.
  intros Hfuel.
  cut (forall n fuel, Forall (fun x => ~ matches t i x) (take n (items a)).*2 ->
    (n <= length (items a))%nat -> (length (items a) - n < fuel)%nat -> forall q,
    wp (loop fuel (fun ent =>
      s ← need "acl_get_entry" (acl_get_entry a ent);
      match s with
      | None => mret (inr None)
      | Some entry =>
          entryTag ← need "acl_get_tag_type" (acl_get_tag_type a entry);
          if t =? entryTag then
            if (t =? ACL_USER) || (t =? ACL_GROUP) then
              id ← need "acl_get_qualifier" (acl_get_qualifier a entry);
              if i =? id then mret (inr (Some entry)) else mret (inl (S ent))
            else mret (inr (Some entry))
          else mret (inl (S ent))
      end) n) q (post q (fun r =>
      match r with
      | Some e => exists x, (e, x) ∈ items a /\ matches t i x
      | None => Forall (fun x => ~ matches t i x) (items a).*2
      end))).
  { intros Hgen. apply (Hgen O); [by rewrite take_0|lia|lia]. }
  clear fuel Hfuel. intros n fuel. revert n. induction fuel as [|fuel IH]; intros n Hnone Hle Hfuel q; [lia|].
  rewrite loop_S. eapply (post_bind _ _ _ (fun r =>
    match r with
    | inr (Some e) => exists x, (e, x) ∈ items a /\ matches t i x
    | inr None => Forall (fun x => ~ matches t i x) (items a).*2
    | inl n' => n' = S n /\ (n < length (items a))%nat /\ Forall (fun x => ~ matches t i x) (take (S n) (items a)).*2
    end)).
  2: { intros [n'|r] q' HP _; [|by apply post_ret]. destruct HP as (-> & Hlt & HP). apply IH; [done|lia|lia]. }
  eapply post_bind; [apply (post_need _ _ _ (fun r => r = fst <$> items a !! n)), get_entry_law|].
  intros s q1 -> _. destruct (items a !! n) as [[e x]|] eqn:En; simpl.
  2: { apply post_ret. rewrite take_ge in Hnone; [done|]. by apply lookup_ge_None. }
  assert ((e, x) ∈ items a) as Hin by (by apply list_elem_of_lookup_2 in En).
  assert (n < length (items a))%nat as Hn by (by apply lookup_lt_Some in En).
  assert (~ matches t i x -> Forall (fun x => ~ matches t i x) (take (S n) (items a)).*2) as Hskip.
  { intros Hx. rewrite (take_S_r _ _ (e, x)) by done. rewrite fmap_app. apply Forall_app. split; [done|]. by constructor. }
  eapply post_bind; [apply (post_need _ _ _ (fun r => r = tag x)); intros; by eapply tag_law|].
  intros tg q2 -> _. unfold matches, key in *.
  destruct (Z.eqb_spec t (tag x)) as [->|Ht].
  2: { apply post_ret. split_and!; [done|done|]. apply Hskip. congruence. }
  unfold qualified in *. destruct ((tag x =? ACL_USER) || (tag x =? ACL_GROUP)) eqn:Hq.
  2: { apply post_ret. exists x. by rewrite Hq. }
  eapply post_bind; [apply (post_need _ _ _ (fun r => r = qual x)); intros; by eapply qual_law|].
  intros id q3 -> _. destruct (Z.eqb_spec i (qual x)) as [->|Hi]; apply post_ret.
  - exists x. by rewrite Hq.
  - split_and!; [done|done|]. apply Hskip. congruence.
Qed.

(** *** Changes to the entries, seen as changes to the rights *)

Lemma rights_lookup l k v : NoDup (keys l) ->
  rights l !! k = Some v <-> exists x, x ∈ l /\ key x = k /\ perms x = v.
Proof.
  intros Hnd. unfold rights. rewrite <- elem_of_list_to_map.
  - rewrite list_elem_of_fmap. split.
    + intros (x & [= -> ->] & Hx). eauto.
    + intros (x & Hx & <- & <-). eauto.
  - rewrite <- list_fmap_compose. exact Hnd.
Qed.

Lemma in_snd (e : E) x (l : list (E * AccessControlEntry)) : (e, x) ∈ l -> x ∈ l.*2.
Proof. intros Hin. apply list_elem_of_fmap. by exists (e, x). Qed.

Lemma keys_unique l x y : NoDup (keys l) -> x ∈ l -> y ∈ l -> key x = key y -> x = y.
Proof.
  intros Hnd [i Hi]%list_elem_of_lookup [j Hj]%list_elem_of_lookup Heq.
  assert (i = j) as ->; [|congruence]. eapply NoDup_lookup; [exact Hnd|..]; unfold keys; rewrite list_lookup_fmap.
  - by rewrite Hi.
  - rewrite Hj. simpl. by rewrite Heq.
Qed.

Lemma change_keys e f (l : list (E * AccessControlEntry)) :
  (forall x, key (f x) = key x) -> keys (change e f l).*2 = keys l.*2.
Proof.
  intros Hf. unfold keys, change. rewrite <- !list_fmap_compose. apply list_fmap_ext.
  intros i [e' x] _. simpl. case_decide; [apply Hf|done].
Qed.

Lemma change_rights e x f v (l : list (E * AccessControlEntry)) :
  NoDup l.*1 -> NoDup (keys l.*2) -> (e, x) ∈ l ->
  (forall y, key (f y) = key y) -> (forall y, perms (f y) = v) ->
  rights (change e f l).*2 = <[key x := v]> (rights l.*2).
Proof.
  intros Hnd Hk Hin Hf Hv. pose proof (change_keys e f l Hf) as Hck.
  apply map_eq. intros k. apply option_eq. intros w.
  rewrite rights_lookup by by rewrite Hck. unfold change.
  assert (forall y, (e, y) ∈ l -> y = x) as Huniq.
  { intros y Hy. apply list_elem_of_lookup in Hin as [i Hi]. apply list_elem_of_lookup in Hy as [j Hj].
    assert (i = j) as ->; [|congruence]. eapply NoDup_lookup; [exact Hnd|..]; rewrite list_lookup_fmap.
    - by rewrite Hi.
    - by rewrite Hj. }
  destruct (decide (k = key x)) as [->|Hne].
  - rewrite lookup_insert_eq. split.
    + intros (z & Hz & Hzk & <-). rewrite <- list_fmap_compose in Hz. apply list_elem_of_fmap in Hz as ([e' y] & -> & Hy).
      simpl in *. case_decide as He; simpl in *; [by rewrite Hv|]. exfalso. apply He.
      assert (y = x) as -> by (eapply keys_unique; [exact Hk|by eapply in_snd|by eapply in_snd|done]).
      apply list_elem_of_lookup in Hin as [i Hi]. apply list_elem_of_lookup in Hy as [j Hj].
      assert (i = j) as ->; [|congruence]. eapply NoDup_lookup; [exact Hk|..]; unfold keys; rewrite !list_lookup_fmap.
      * by rewrite Hi.
      * by rewrite Hj.
    + intros [= <-]. exists (f x). rewrite <- list_fmap_compose. split_and!; [|apply Hf|apply Hv].
      apply list_elem_of_fmap. exists (e, x). simpl. by rewrite decide_True.
  - rewrite lookup_insert_ne, rights_lookup by done. rewrite <- list_fmap_compose. split.
    + intros (z & Hz & Hzk & <-). apply list_elem_of_fmap in Hz as ([e' y] & -> & Hy). simpl in *.
      case_decide as He; simpl in *.
      * subst e'. rewrite (Huniq _ Hy), Hf in Hzk. congruence.
      * exists y. split_and!; [by eapply in_snd|done|done].
    + intros (y & Hy & Hyk & <-). apply list_elem_of_fmap in Hy as ([e' y'] & -> & Hy). simpl in *.
      exists y'. split_and!; [|done|done]. apply list_elem_of_fmap. exists (e', y'). simpl.
      rewrite decide_False; [done|]. intros ->. rewrite (Huniq _ Hy) in Hyk. congruence.
Qed.

Lemma change_change e f g (l : list (E * AccessControlEntry)) :
  change e f (change e g l) = change e (fun x => f (g x)) l.
Proof.
  unfold change. rewrite <- list_fmap_compose. apply list_fmap_ext. intros i [e' x] _. simpl.
  by destruct (decide (e' = e)); simpl; rewrite ?decide_True, ?decide_False by done.
Qed.

Lemma change_ext e f g (l : list (E * AccessControlEntry)) :
  (forall x, f x = g x) -> change e f l = change e g l.
Proof. intros Hfg. unfold change. apply list_fmap_ext. intros i [e' x] _. by rewrite Hfg. Qed.

Lemma filter_keys e (l : list (E * AccessControlEntry)) :
  NoDup (keys l.*2) -> NoDup (keys (filter (fun it : E * AccessControlEntry => it.1 <> e) l).*2).
Proof.
  unfold keys. rewrite <- !list_fmap_compose. intros Hk. eapply sublist_NoDup; [exact Hk|].
  apply fmap_sublist, sublist_filter.
Qed.

Lemma delete_rights e x (l : list (E * AccessControlEntry)) :
  NoDup l.*1 -> NoDup (keys l.*2) -> (e, x) ∈ l ->
  rights (filter (fun it : E * AccessControlEntry => it.1 <> e) l).*2 = delete (key x) (rights l.*2).
Proof.
  intros Hnd Hk Hin. apply map_eq. intros k. apply option_eq. intros w.
  rewrite rights_lookup by by apply filter_keys.
  rewrite lookup_delete_Some, rights_lookup by done. split.
  - intros (y & Hy & <- & <-). apply list_elem_of_fmap in Hy as ([e' y'] & -> & Hy).
    apply list_elem_of_filter in Hy as [He Hy]. simpl in *. split; [|exists y'; split_and!; try done; by eapply in_snd].
    intros Heq. assert (y' = x) as -> by (symmetry; eapply keys_unique; [exact Hk|by eapply in_snd|by eapply in_snd|done]).
    apply list_elem_of_lookup in Hin as [i Hi]. apply list_elem_of_lookup in Hy as [j Hj].
    assert (i = j) as ->; [|congruence]. eapply NoDup_lookup; [exact Hk|..]; unfold keys; rewrite !list_lookup_fmap.
    * by rewrite Hi.
    * by rewrite Hj.
  - intros [Hne (y & Hy & <- & <-)]. apply list_elem_of_fmap in Hy as ([e' y'] & -> & Hy). simpl in *.
    exists y'. split_and!; try done. apply (in_snd e'), list_elem_of_filter. split; [|done]. simpl. intros ->.
    apply list_elem_of_lookup in Hin as [i Hi]. apply list_elem_of_lookup in Hy as [j Hj].
    assert (i = j) as ->; [|congruence]. eapply NoDup_lookup; [exact Hnd|..]; rewrite list_lookup_fmap.
    * by rewrite Hi.
    * by rewrite Hj.
Qed.

Lemma append_rights l x : NoDup (keys (l ++ [x])) -> rights (l ++ [x]) = <[key x := perms x]> (rights l).
Proof.
  intros Hnd. unfold keys in Hnd. rewrite fmap_app in Hnd.
  apply NoDup_app in Hnd as (Hl & Hx & _). apply map_eq. intros k. apply option_eq. intros v.
  assert (key x ∉ keys l) as Hfresh by (intros Hin; by apply (Hx _ Hin), list_elem_of_singleton).
  rewrite rights_lookup.
  2: { unfold keys. rewrite fmap_app. apply NoDup_app. split_and!; [done|done|]. apply NoDup_singleton. }
  rewrite lookup_insert_Some, rights_lookup by done. split.
  - intros (y & [Hy| ->%list_elem_of_singleton]%elem_of_app & <- & <-); [right|by left].
    split; [|by exists y]. intros Heq. apply Hfresh. rewrite Heq. by apply list_elem_of_fmap_2.
  - intros [[<- <-]|[Hne (y & Hy & <- & <-)]].
    + exists x. split_and!; try done. apply elem_of_app. right. by apply list_elem_of_singleton.
    + exists y. split_and!; try done. apply elem_of_app. by left.
Qed.

(** [setPerms] leaves exactly the three bits it was asked for. *)
Lemma bit_part m n : 0 <= n -> (if negb (Z.land m (2 ^ n) =? 0) then 2 ^ n else 0) = Z.land m (2 ^ n).
Proof.
  intros Hn. apply Z.bits_inj'. intros i Hi. rewrite Z.land_spec, Z.pow2_bits_eqb by done.
  destruct (Z.eqb_spec (Z.land m (2 ^ n)) 0) as [H0|H0]; cbn [negb].
  - rewrite Z.bits_0. apply (f_equal (fun z => Z.testbit z i)) in H0.
    by rewrite Z.land_spec, Z.pow2_bits_eqb, Z.bits_0 in H0.
  - rewrite Z.pow2_bits_eqb by done. destruct (Z.eqb_spec n i) as [<-|]; [|by rewrite andb_false_r].
    rewrite andb_true_r. destruct (Z.testbit m n) eqn:Et; [done|]. exfalso. apply H0, Z.bits_inj'.
    intros j Hj. rewrite Z.land_spec, Z.pow2_bits_eqb, Z.bits_0 by done.
    destruct (Z.eqb_spec n j) as [<-|]; [by rewrite Et|apply andb_false_r].
Qed.

Lemma add_if_spec m n a e f l p :
  0 <= n -> items a = change e f l ->
  wp (add_if m (2 ^ n) a e) p (post p (fun a' => items a'
    = change e (fun x => Ace (tag (f x)) (qual (f x)) (Z.lor (perms (f x)) (Z.land m (2 ^ n)))) l)).
Proof.
  intros Hn Ha. unfold add_if. pose proof (bit_part m n Hn) as Hb.
  destruct (negb (Z.land m (2 ^ n) =? 0)).
  - apply post_need. intros a' Ha'%add_law. by rewrite Ha', Ha, change_change, <- Hb.
  - apply post_ret. rewrite Ha, <- Hb. apply change_ext. intros x. rewrite Z.lor_0_r. by destruct (f x).
Qed.

Lemma setPerms_spec a e m p :
  wp (setPerms a e m) p (post p (fun a' =>
    items a' = change e (fun x => Ace (tag x) (qual x) (Z.land m 7)) (items a))).
Proof.
  unfold setPerms. eapply post_bind.
  { apply (post_need _ _ _ (fun a1 => items a1 = change e (fun x => Ace (tag x) (qual x) 0) (items a))).
    intros a1. apply clear_law. }
  intros a1 q1 H1 _. eapply post_bind; [apply (add_if_spec m 2); [done|exact H1]|].
  intros a2 q2 H2 _. eapply post_bind; [apply (add_if_spec m 1); [done|exact H2]|].
  intros a3 q3 H3 _. eapply post_bind; [apply (add_if_spec m 0); [done|exact H3]|].
  intros a4 q4 H4 _. apply post_need. intros a5 H5%permset_law. rewrite H5, H4. apply change_ext.
  intros x. cbn [tag qual perms]. rewrite Z.lor_0_l, <- !Z.land_lor_distr_r. done.
Qed.

Lemma change_append e f x (l : list (E * AccessControlEntry)) :
  e ∉ l.*1 -> change e f (l ++ [(e, x)]) = l ++ [(e, f x)].
Proof.
  intros Hfresh. unfold change. rewrite fmap_app. f_equal; [|simpl; by rewrite decide_True].
  rewrite <- (list_fmap_id l) at 2. apply list_fmap_ext. intros i [e' y] Hi. simpl.
  rewrite decide_False; [done|]. intros ->. apply Hfresh, list_elem_of_fmap. exists (e, y).
  split; [done|]. by eapply list_elem_of_lookup_2.
Qed.

(** The rights after one entry of the command line. *)
Definition updated (removing : bool) (ace : AccessControlEntry) (r : gmap (Z * Z) Z) : gmap (Z * Z) Z :=
  if removing then delete (key ace) r else <[key ace := Z.land (perms ace) 7]> r.

Lemma create_spec a ace p :
  NoDup (keys (items a).*2) -> Forall (fun x => ~ matches (tag ace) (qual ace) x) (items a).*2 ->
  wp (ae ← need "acl_create_entry" (acl_create_entry a);
      let '(acl, e) := ae in
      acl ← need "acl_set_tag_type" (acl_set_tag_type acl e (tag ace));
      acl ← (if (tag ace =? ACL_USER) || (tag ace =? ACL_GROUP)
             then need "acl_set_qualifier" (acl_set_qualifier acl e (qual ace)) else mret acl);
      mret (acl, e)) p
    (post p (fun '(a', e) => exists x, (e ∉ (items a).*1) /\ key x = key ace /\ items a' = items a ++ [(e, x)])).
Proof.
  intros Hk Hnone. eapply post_bind.
  { apply (post_need _ _ _ (fun '(a1, e) => exists x, (e ∉ (items a).*1) /\ items a1 = items a ++ [(e, x)])).
    intros [a1 e] H1. destruct (create_law _ _ _ H1) as [x Hx]. exists x. split; [|done].
    pose proof (items_nodup a1) as Hnd. rewrite Hx, fmap_app in Hnd. apply NoDup_app in Hnd as (_ & Hd & _).
    intros Hin. by apply (Hd e Hin), list_elem_of_singleton. }
  intros [a1 e] q1 (x & Hfresh & H1) _. eapply post_bind.
  { apply (post_need _ _ _ (fun a2 => items a2 = items a ++ [(e, Ace (tag ace) (qual x) (perms x))])).
    intros a2 H2%set_tag_law. by rewrite H2, H1, change_append. }
  intros a2 q2 H2 _. eapply (post_bind _ _ _ (fun a3 => exists y, key y = key ace /\ items a3 = items a ++ [(e, y)])).
  - unfold key, qualified. destruct ((tag ace =? ACL_USER) || (tag ace =? ACL_GROUP)) eqn:Hq.
    + apply post_need. intros a3 H3%set_qual_law. exists (Ace (tag ace) (qual ace) (perms x)).
      cbn [tag qual perms]. rewrite Hq. split; [done|]. by rewrite H3, H2, change_append.
    + apply post_ret. exists (Ace (tag ace) (qual x) (perms x)). cbn [tag qual perms]. by rewrite Hq.
  - intros a3 q3 (y & Hy & H3) _. apply post_ret. by exists y.
Qed.

Lemma apply_entry_spec fuel removing a ace p :
  (length (items a) < fuel)%nat -> NoDup (keys (items a).*2) ->
  wp (apply_entry fuel removing a ace) p (post p (fun a' => NoDup (keys (items a').*2) /\
    rights (items a').*2 = updated removing ace (rights (items a).*2))).
Proof.
  intros Hfuel Hk. unfold apply_entry. eapply post_bind; [by apply findEntry_spec|].
  intros r q1 Hr _. pose proof (items_nodup a) as Hnd.
  assert (matches (tag ace) (qual ace) = fun x => key x = key ace) as Hm by done. rewrite Hm in Hr.
  unfold updated. destruct removing.
  - destruct r as [e|].
    + destruct Hr as (x & Hin & Hx). apply post_need. intros a' Ha'%delete_law. rewrite Ha'.
      split; [by apply filter_keys|]. rewrite <- Hx. by apply delete_rights.
    + apply post_ret. split; [done|]. rewrite delete_id; [done|].
      apply eq_None_not_Some. intros [v (x & Hx & Hkx & _)%rights_lookup]; [|done].
      rewrite Forall_forall in Hr. by apply (Hr x).
  - destruct r as [e|].
    + destruct Hr as (x & Hin & Hx). apply (post_bind _ _ _ (fun ae => ae = (a, e))); [by apply post_ret|].
      intros ae q2 -> _. eapply wp_mono; [apply setPerms_spec|]. intros o q3 [Hq [?|(a' & -> & Ha')]];
        (split; [done|]); [by left|right]. exists a'. split; [done|]. rewrite Ha'. split.
      * by rewrite change_keys.
      * rewrite <- Hx. by apply change_rights.
    + eapply post_bind; [by apply create_spec|]. intros [a1 e] q2 (x & Hfresh & Hx & H1) _.
      eapply wp_mono; [apply setPerms_spec|]. intros o q3 [Hq [?|(a' & -> & Ha')]];
        (split; [done|]); [by left|right]. exists a'. split; [done|]. rewrite Ha', H1, change_append by done.
      rewrite fmap_app. cbn [fmap list_fmap snd].
      assert (key ace ∉ keys (items a).*2) as Hnew.
      { intros (y & Hy & Hin)%list_elem_of_fmap. rewrite Forall_forall in Hr. by apply (Hr y Hin). }
      assert (NoDup (keys ((items a).*2 ++ [Ace (tag x) (qual x) (Z.land (perms ace) 7)]))) as Hnd2.
      { unfold keys. rewrite fmap_app. apply NoDup_app. split_and!; [done| |apply NoDup_singleton].
        intros k Hin ->%list_elem_of_singleton. apply Hnew. by rewrite <- Hx. }
      split; [done|]. rewrite append_rights by done. f_equal. exact Hx.
Qed.

Definition no_mask (r : gmap (Z * Z) Z) : gmap (Z * Z) Z := delete MASK_KEY r.

Lemma no_mask_updated removing ace r r' :
  no_mask r = no_mask r' -> no_mask (updated removing ace r) = no_mask (updated removing ace r').
Proof.
  unfold no_mask, updated. intros Heq. destruct removing.
  - by rewrite delete_delete, Heq, <- delete_delete.
  - destruct (decide (key ace = MASK_KEY)) as [->|Hne]; [by rewrite !delete_insert_eq|].
    by rewrite !delete_insert_ne, Heq.
Qed.

Lemma rights_size l : NoDup (keys l) -> size (rights l) = length l.
Proof.
  intros Hnd. unfold rights. rewrite map_size_list_to_map.
  - by rewrite length_fmap.
  - rewrite <- list_fmap_compose. exact Hnd.
Qed.

(** An ACL has at most one entry that [no_mask] does not count. *)
Lemma length_no_mask l : NoDup (keys l) -> (size (no_mask (rights l)) <= length l <= S (size (no_mask (rights l))))%nat.
Proof.
  intros Hnd. rewrite <- (rights_size l Hnd). unfold no_mask. rewrite map_size_delete.
  destruct (rights l !! MASK_KEY); unfold id; lia.
Qed.

Lemma size_updated removing ace r : (size (no_mask (updated removing ace r)) <= S (size (no_mask r)))%nat.
Proof.
  unfold no_mask, updated. destruct removing.
  - rewrite delete_delete, map_size_delete. destruct (_ !! key ace); unfold id; lia.
  - destruct (decide (key ace = MASK_KEY)) as [->|Hne]; [rewrite delete_insert_eq; lia|].
    rewrite delete_insert_ne by done. rewrite map_size_insert.
    destruct (_ !! key ace); unfold id; lia.
Qed.

(** The state of the loop: the ACL in hand has the rights [R], up to the mask if that is
    recomputed. *)
Definition has_rights (recalc : bool) a (R : gmap (Z * Z) Z) : Prop :=
  NoDup (keys (items a).*2) /\ no_mask (rights (items a).*2) = no_mask R /\
  (recalc = false -> rights (items a).*2 = R).

Lemma store_acl_spec recalc path type a R p :
  has_rights recalc a R ->
  wp (store_acl recalc path type a) p (fun o q =>
    (forall path' type', (path', type') <> (path, type) -> file_acl (kern q) path' type' = file_acl (kern p) path' type') /\
    (stopped o \/ exists a', o = Ret a' /\ has_rights recalc a' R /\ file_acl (kern q) path type = (items a').*2)).
Proof.
  intros HR. unfold store_acl.
  assert (wp (if recalc then need "acl_calc_mask" (acl_calc_mask a) else mret a) p
    (post p (fun a' => has_rights recalc a' R))) as Hmask.
  { destruct HR as (Hk & Hn & He). destruct recalc; [|by apply post_ret].
    apply post_need. intros a' Ha'. destruct (mask_law _ _ Ha' Hk) as [Hk' Hm]. split; [done|].
    unfold no_mask in *. split; [congruence|done]. }
  apply wp_bind. eapply wp_mono; [exact Hmask|]. intros o q [Hq [Ho|(a' & -> & Ha')]].
  { destruct Ho as [-> | ->]; (split; [by intros; rewrite Hq|left; by (left + right)]). }
  apply wp_bind, wp_need.
  2: { intros o q2 Ho Hq2. destruct Ho as [-> | ->]; (split; [by intros; rewrite Hq2, Hq|left; by (left + right)]). }
  intros [] _. apply wp_bind, wp_syscall. pose proof (set_file_law (kern q) path type a') as HS.
  destruct (acl_set_file path type a' (kern q)) as [[[]|e] k'].
  - destruct HS as [Hfile Hother]. apply wp_ret. split; [by intros; cbn; rewrite Hother, Hq|].
    right. by exists a'.
  - apply wp_errExit. intros o e' Ho. split; [|by left]. intros. cbn. by rewrite HS, Hq.
Qed.

Lemma apply_entries_spec fuel removing recalc path type aclist a R p :
  (S (size (no_mask R)) + length aclist < fuel)%nat -> has_rights recalc a R ->
  wp (apply_entries fuel removing recalc path type a aclist) p (fun o q =>
    (forall path' type', (path', type') <> (path, type) -> file_acl (kern q) path' type' = file_acl (kern p) path' type') /\
    (stopped o \/ exists a', o = Ret a' /\
       has_rights recalc a' (foldl (fun r ace => updated removing ace r) R aclist) /\
       (aclist = [] /\ a' = a /\ kern q = kern p \/ file_acl (kern q) path type = (items a').*2))).
Proof.
  revert a R p. induction aclist as [|ace aclist IH]; intros a R p Hfuel HR; cbn [apply_entries foldl].
  - apply wp_ret. split; [done|]. right. exists a. split_and!; try done. by left.
  - destruct HR as (Hk & Hn & He). cbn [length] in Hfuel.
    assert (length (items a) < fuel)%nat as Hlen.
    { pose proof (length_no_mask _ Hk) as Hl. rewrite Hn, length_fmap in Hl. lia. }
    apply wp_bind. eapply wp_mono; [by apply apply_entry_spec|].
    intros o q [Hq [Ho|(a' & -> & Hk' & Hr')]].
    { destruct Ho as [-> | ->]; (split; [by intros; rewrite Hq|left; by (left + right)]). }
    assert (has_rights recalc a' (updated removing ace R)) as HR'.
    { split; [done|]. rewrite Hr'. split; [by apply no_mask_updated|]. intros Hrc. by rewrite He. }
    apply wp_bind. eapply wp_mono; [by apply (store_acl_spec recalc path type a' (updated removing ace R))|].
    intros o q2 [Hother [Ho|(a2 & -> & HR2 & Hfile)]].
    { destruct Ho as [-> | ->]; (split; [by intros; rewrite Hother, Hq|left; by (left + right)]). }
    pose proof (size_updated removing ace R).
    eapply wp_mono; [by apply (IH a2 (updated removing ace R)); [lia|]|].
    intros o q3 [Hother3 Ho]. split; [by intros; rewrite Hother3, Hother, Hq|].
    destruct Ho as [Ho|(a3 & -> & HR3 & Hf3)]; [by left|right]. exists a3. split_and!; [done..|]. right.
    destruct Hf3 as [(-> & -> & Hk3)|Hf3]; [|exact Hf3]. by rewrite Hk3.
Qed.

(** C10: updating a file's ACL refines the update of a map from keys (tag, and ID for named users
    and groups) to permissions.  Unless the program stops with a diagnostic, every entry of the
    command line has been applied in order -- inserted or replaced for -m, removed for -x -- and
    what is stored in the file is the result; the mask entry is as asked for when it is not
    recomputed, and is left to libacl when it is.  ACLs of other files, and of the other type, are
    never touched. *)
Theorem update_file_refines fuel removing recalc type aclist path p :
  (length (file_acl (kern p) path type) + length aclist + 1 < fuel)%nat -> aclist <> [] ->
  exists o q, update_file fuel removing recalc type aclist path p = (o, q) /\
    (forall path' type', (path', type') <> (path, type) -> file_acl (kern q) path' type' = file_acl (kern p) path' type') /\
    (stopped o \/ o = Ret tt /\
       let R := foldl (fun r ace => updated removing ace r) (rights (file_acl (kern p) path type)) aclist in
       NoDup (keys (file_acl (kern q) path type)) /\
       no_mask (rights (file_acl (kern q) path type)) = no_mask R /\
       (recalc = false -> rights (file_acl (kern q) path type) = R)).
Proof.
  intros Hfuel Hne. apply wp_elim. unfold update_file. apply wp_bind, wp_syscall.
  pose proof (get_file_law (kern p) path type) as HG.
  destruct (acl_get_file path type (kern p)) as [[a|e] k1].
  2: { apply wp_errExit. intros o e' Ho. split; [|by left]. intros. cbn. by rewrite HG. }
  destruct HG as (Hitems & Hk & Hsame).
  assert (has_rights recalc a (rights (file_acl (kern p) path type))) as HR by (split; rewrite Hitems in *; done).
  apply wp_bind. eapply wp_mono.
  { apply (apply_entries_spec fuel removing recalc path type aclist a (rights (file_acl (kern p) path type))); [|exact HR].
    rewrite <- Hitems in *. pose proof (length_no_mask _ Hk). lia. }
  intros o q [Hother [Ho|(a' & -> & (Hk' & Hn' & He') & Hfile)]].
  { destruct Ho as [-> | ->]; (split; [by intros; rewrite Hother; cbn; rewrite ?Hsame|left; by (left + right)]). }
  apply wp_ret. split; [by intros; rewrite Hother; cbn; rewrite ?Hsame|]. right. split; [done|]. cbv zeta.
  destruct Hfile as [(-> & _)|Hfile]; [done|]. rewrite Hfile. by split_and!.
Qed.
End UpdateSpec.

(** ** A libacl on lists, and witnesses *)

(** Entries with numbers as handles; the mask is never recomputed. *)
Record acl_val := AclVal { av_items : list (nat * AccessControlEntry); av_ok : NoDup av_items.*1 }.
Abbreviation acl_files := (gmap (bytes * Z) (list AccessControlEntry)).

Definition mk (l : list (nat * AccessControlEntry)) : acl_val + Z :=
  match decide (NoDup l.*1) with left H => inl (AclVal l H) | right _ => inr EINVAL end.

Lemma mk_items l a : mk l = inl a -> av_items a = l.
Proof. unfold mk. case_decide; [|done]. by intros [= <-]. Qed.

Definition stored (k : acl_files) (path : bytes) (type : Z) : list AccessControlEntry := default [] (k !! (path, type)).
Definition next_handle (l : list (nat * AccessControlEntry)) : nat := S (foldr Nat.max O l.*1).

#[export] Instance list_acl : LibAcl acl_files acl_val nat := {|
  acl_get_file := fun path type k =>
    let l := stored k path type in
    if decide (NoDup (keys l)) then (mk (zip (seq 0 (length l)) l), k) else (inr EINVAL, k);
  acl_set_file := fun path type a k => (inl tt, <[(path, type) := (av_items a).*2]> k);
  acl_delete_def_file := fun path k => (inl tt, delete (path, ACL_TYPE_DEFAULT) k);
  acl_get_entry := fun a n => inl (fst <$> av_items a !! n);
  acl_get_tag_type := fun a e =>
    match list_find (fun p => p.1 = e) (av_items a) with Some (_, p) => inl (tag p.2) | None => inr EINVAL end;
  acl_get_qualifier := fun a e =>
    match list_find (fun p => p.1 = e) (av_items a) with Some (_, p) => inl (qual p.2) | None => inr EINVAL end;
  acl_create_entry := fun a =>
    let e := next_handle (av_items a) in
    match mk (av_items a ++ [(e, Ace 0 0 0)]) with inl a' => inl (a', e) | inr x => inr x end;
  acl_delete_entry := fun a e => mk (filter (fun p => p.1 <> e) (av_items a));
  acl_set_tag_type := fun a e t => mk (change e (fun x => Ace t (qual x) (perms x)) (av_items a));
  acl_set_qualifier := fun a e q => mk (change e (fun x => Ace (tag x) q (perms x)) (av_items a));
  acl_clear_perms := fun a e => mk (change e (fun x => Ace (tag x) (qual x) 0) (av_items a));
  acl_add_perm := fun a e m => mk (change e (fun x => Ace (tag x) (qual x) (Z.lor (perms x) m)) (av_items a));
  acl_set_permset := fun a e => inl a;
  acl_calc_mask := fun a => inl a;
  acl_valid := fun a => inl tt
|}.

Lemma find_item a e x : (e, x) ∈ av_items a ->
  exists i, list_find (fun p : nat * AccessControlEntry => p.1 = e) (av_items a) = Some (i, (e, x)).
Proof.
  intros Hin. destruct (list_find_elem_of (fun p : nat * AccessControlEntry => p.1 = e) (av_items a) (e, x))
    as [[i [e' x']] Hf]; [done|done|]. exists i. rewrite Hf.
  apply list_find_Some in Hf as (Hi & He & _). simpl in He. subst e'. do 3 f_equal.
  apply list_elem_of_lookup in Hin as [j Hj]. assert (i = j) as ->; [|congruence].
  eapply NoDup_lookup; [exact (av_ok a)|..]; rewrite list_lookup_fmap; [by rewrite Hi|by rewrite Hj].
Qed.

#[export] Program Instance list_acl_laws : AclLaws acl_files acl_val nat :=
  {| items := av_items; file_acl := stored |}.
Next Obligation. apply av_ok. Qed.
Next Obligation.
  intros k path type. simpl. case_decide as Hk; [|done].
  destruct (mk _) as [a|e] eqn:E; [|done]. apply mk_items in E. rewrite E, snd_zip by (by rewrite length_seq).
  done.
Qed.
Next Obligation.
  intros k path type a. simpl. unfold stored. rewrite lookup_insert_eq. split; [done|].
  intros path' type' Hne. by rewrite lookup_insert_ne.
Qed.
Next Obligation. by intros a n r [= <-]. Qed.
Next Obligation. intros a e x t Hin. simpl. destruct (find_item a e x Hin) as [i ->]. by intros [= <-]. Qed.
Next Obligation. intros a e x t Hin. simpl. destruct (find_item a e x Hin) as [i ->]. by intros [= <-]. Qed.
Next Obligation.
  intros a a' e. simpl. destruct (mk _) as [a2|] eqn:E; [|done]. intros [= <- <-]. apply mk_items in E.
  by exists (Ace 0 0 0).
Qed.
Next Obligation. intros a e a'. simpl. apply mk_items. Qed.
Next Obligation. intros a e t a'. simpl. apply mk_items. Qed.
Next Obligation. intros a e t a'. simpl. apply mk_items. Qed.
Next Obligation. intros a e a'. simpl. apply mk_items. Qed.
Next Obligation. intros a e t a'. simpl. apply mk_items. Qed.
Next Obligation. by intros a e a' [= <-]. Qed.
Next Obligation. by intros a a' [= <-]. Qed.

#[local] Instance plain_messages : Messages :=
  {| ename := fun _ => []; MAX_ENAME := 0; strerror := fun _ => []; EF_DUMPCORE := None |}.
#[local] Instance no_users : UserDb :=
  {| getpwuid := fun _ => None; getpwnam := fun _ => None; getgrgid := fun _ => None; getgrnam := fun _ => None |}.

Definition some_acl : list AccessControlEntry := [Ace ACL_USER_OBJ 0 6; Ace ACL_USER 1000 7; Ace ACL_OTHER 0 4].

Definition some_text : bytes := str "user::rw-,user:1000:rwx,other::r--".

Lemma parseACL_show_witness :
  parseACL (fun _ => Ace 0 0 0) some_text true (Proc tt 0 []) = (Ret (3, some_acl), Proc tt 0 []).
Proof.
  assert (some_text = show_acl some_acl) as -> by by vm_compute.
  apply (parseACL_show (fun _ => Ace 0 0 0) some_acl (Proc tt 0 [])); [done|by vm_compute|].
  repeat constructor; by_decide || (split; by vm_compute).
Defined.

Lemma update_file_refines_witness :
  exists q, update_file 20 false false ACL_TYPE_ACCESS [Ace ACL_USER 1000 4; Ace ACL_GROUP 7 5] (str "f")
    (Proc ({[ (str "f", ACL_TYPE_ACCESS) := some_acl ]} : acl_files) 0 []) = (Ret tt, q) /\
    rights (stored (kern q) (str "f") ACL_TYPE_ACCESS) !! (ACL_USER, 1000) = Some 4.
Proof.
  destruct (update_file_refines 20 false false ACL_TYPE_ACCESS [Ace ACL_USER 1000 4; Ace ACL_GROUP 7 5] (str "f")
    (Proc ({[ (str "f", ACL_TYPE_ACCESS) := some_acl ]} : acl_files) 0 [])) as (o & q & HR & _); [by_decide|done|].
  exists q. vm_compute in HR. by injection HR as <- <-.
Defined.
