(* ===== verification/Threads.v ===== *)
(** * Threads

    The part of POSIX threads the threaded programs use: threads that share the globals of the
    process and interleave at the level of single accesses to them, mutexes, condition variables
    and unnamed semaphores.  A program gives the local states of its threads and [exec], what the
    thread [self] does next; a call may be answered by an error number, and a wait on a condition
    variable may end spuriously. *)

From Stdlib Require Import ZArith Lia String Ascii.
From S2P Require Import Prelude CString Kernel.

Inductive answer := Fine | Fails (errnum : Z) | Spurious.

(** How the process ends: by [exit], by [errExitEN] (or [errExit]) after a failed call, or in
    undefined behaviour. *)
Inductive ending := Exited (status : Z) | Failed (errnum : Z) (call : string) | Undefined.

Inductive effect (G T : Type) :=
| Go (t : T) (g : G)                (* goes on, with new globals *)
| Create (t child : T)              (* pthread_create *)
| Say (t : T) (s : bytes)           (* printf *)
| Wait                              (* blocked *)
| Stop (e : ending).
Arguments Go {G T}.
Arguments Create {G T}.
Arguments Say {G T}.
Arguments Wait {G T}.
Arguments Stop {G T}.

Record sys (G T : Type) :=
  Sys { shared : G; threads : list T; printed : list bytes; ended : option ending }.
Arguments Sys {G T}.
Arguments shared {G T}.
Arguments threads {G T}.
Arguments printed {G T}.
Arguments ended {G T}.

(** A thread of a program whose other threads all run the same function. *)
Inductive thread (P W : Type) := Main (m : P) | Worker (w : W).
Arguments Main {P W}.
Arguments Worker {P W}.
#[export] Instance thread_eq_dec `{!EqDecision P, !EqDecision W} : EqDecision (thread P W).
Proof. solve_decision. Defined.

(** A program is run with answers of a type [A] to its calls: [answer] for threads. *)
Section Scheduler.
Context {G T A : Type} (exec : nat -> A -> list T -> T -> G -> effect G T).

Definition perform (i : nat) (e : effect G T) (s : sys G T) : option (sys G T) :=
  match e with
  | Go t g => Some (Sys g (<[i := t]> (threads s)) (printed s) (ended s))
  | Create t child => Some (Sys (shared s) (<[i := t]> (threads s) ++ [child]) (printed s) (ended s))
  | Say t out => Some (Sys (shared s) (<[i := t]> (threads s)) (printed s ++ [out]) (ended s))
  | Wait => None
  | Stop e => Some (Sys (shared s) (threads s) (printed s) (Some e))
  end.

(** Thread [i] makes a step, its call answered by [a]; nothing runs in a process that has ended. *)
Definition run_one (i : nat) (a : A) (s : sys G T) : option (sys G T) :=
  match ended s, threads s !! i with
  | None, Some t => perform i (exec i a (threads s) t (shared s)) s
  | _, _ => None
  end.

Definition step (ok : A -> Prop) (s s' : sys G T) : Prop :=
  exists i a, ok a /\ run_one i a s = Some s'.

(** A run along a given schedule. *)
Fixpoint run (sched : list (nat * A)) (s : sys G T) : option (sys G T) :=
  match sched with
  | [] => Some s
  | (i, a) :: sched' => s' ← run_one i a s; run sched' s'
  end.

Lemma run_rtc (ok : A -> Prop) sched s s' :
  Forall (fun x => ok x.2) sched -> run sched s = Some s' -> rtc (step ok) s s'.
Proof.
  revert s. induction sched as [|[i a] sched IH]; intros s Hok Hrun; simpl in Hrun.
  - injection Hrun as <-. apply rtc_refl.
  - inversion_clear Hok. destruct (run_one i a s) as [s1|] eqn:E; [|done].
    apply rtc_l with s1; [by exists i, a|auto].
Qed.

Lemma run_one_enabled i a t s :
  ended s = None -> threads s !! i = Some t -> exec i a (threads s) t (shared s) <> Wait ->
  exists s', run_one i a s = Some s'.
Proof.
  intros He Hi Hw. unfold run_one. rewrite He, Hi.
  destruct (exec i a (threads s) t (shared s)); try done; by eexists.
Qed.

Lemma step_inv ok s s' : step ok s s' ->
  ended s = None /\ exists i a t, ok a /\ threads s !! i = Some t /\
    perform i (exec i a (threads s) t (shared s)) s = Some s'.
Proof.
  intros (i & a & Hok & Hrun). unfold run_one in Hrun.
  destruct (ended s); [done|]. destruct (threads s !! i) as [t|] eqn:E; [|done]. eauto 10.
Qed.
End Scheduler.

(** Only successful calls; any answer. *)
Definition fine (a : answer) : Prop := a = Fine.
Definition any (a : answer) : Prop := True.

(** *** Exploration

    A program with finitely many states (when no call fails) is checked by visiting them all. *)
Section Exploration.
Context {G T : Type} `{!EqDecision G, !EqDecision T} (exec : nat -> answer -> list T -> T -> G -> effect G T).

#[export] Instance ending_eq_dec : EqDecision ending.
Proof. solve_decision. Defined.
#[export] Instance sys_eq_dec : EqDecision (sys G T).
Proof. solve_decision. Defined.

(** The states after one step. *)
Definition successors (s : sys G T) : list (sys G T) :=
  omap (fun i => run_one exec i Fine s) (seq 0 (length (threads s))).

(** [todo] are states still to expand, [seen] all those found. *)
Fixpoint explore (fuel : nat) (todo seen : list (sys G T)) : list (sys G T) :=
  match fuel, todo with
  | S fuel', _ :: _ =>
      let new := remove_dups (filter (fun s => s ∉ seen) (todo ≫= successors)) in
      explore fuel' new (new ++ seen)
  | _, _ => seen
  end.

Definition closed (l : list (sys G T)) : Prop := Forall (fun s => Forall (fun s' => s' ∈ l) (successors s)) l.

Lemma successors_spec s s' : step exec fine s s' <-> s' ∈ successors s.
Proof.
  unfold successors. rewrite list_elem_of_omap. split.
  - intros (i & a & -> & Hr). exists i. split; [|done]. apply elem_of_seq.
    unfold run_one in Hr. destruct (ended s); [done|]. destruct (threads s !! i) as [t|] eqn:E; [|done].
    apply lookup_lt_Some in E. lia.
  - intros (i & _ & Hr). by exists i, Fine.
Qed.

Lemma closed_reach l s0 s : s0 ∈ l -> closed l -> rtc (step exec fine) s0 s -> s ∈ l.
Proof.
  intros H0 Hc Hr. induction Hr as [|a b c Hab _ IH]; [done|]. apply IH.
  apply list_elem_of_lookup in H0 as [i Hi]. pose proof (Forall_lookup_1 _ _ _ _ Hc Hi) as Ha.
  apply successors_spec, list_elem_of_lookup in Hab as [k Hk]. exact (Forall_lookup_1 _ _ _ _ Ha Hk).
Qed.
End Exploration.

(** A call that answers with an error number and ends the program when it is not 0. *)
Definition check {G T} (a : answer) (call : string) (k : effect G T) : effect G T :=
  match a with Fails e => Stop (Failed e call) | _ => k end.

(** ** Mutexes and condition variables *)

(** A mutex: its owner. *)
Definition mutex := option nat.

Definition mutex_lock (self : nat) (m : mutex) : option mutex :=
  match m with None => Some (Some self) | Some _ => None end.

(** Unlocking a mutex one does not own is undefined. *)
Definition mutex_unlock (self : nat) (m : mutex) : option mutex :=
  match m with Some o => if (o =? self)%nat then Some None else None | None => None end.

(** The threads that wait on a condition variable; a signal wakes one of them. *)
Definition cond := list nat.
Definition cond_signal (c : cond) : cond := drop 1 c.

(** *** Mutual exclusion: the threads at a critical point are those that own the mutex *)

Section Exclusion.
Context {T : Type} (critical : T -> bool).

Definition excl (ts : list T) (m : mutex) : Prop :=
  (forall i t, ts !! i = Some t -> (critical t = true <-> m = Some i)) /\
  (forall i, m = Some i -> (i < length ts)%nat).

Lemma excl_same ts m i t t' :
  excl ts m -> ts !! i = Some t -> critical t' = critical t -> excl (<[i := t']> ts) m.
Proof.
  intros [He Hm] Hi Hc. split; [|by rewrite length_insert]. intros k t1 Hk. destruct (decide (k = i)) as [->|Hne].
  - rewrite list_lookup_insert_eq in Hk by (by eapply lookup_lt_Some). injection Hk as <-. rewrite Hc. by apply He.
  - rewrite list_lookup_insert_ne in Hk by done. by apply He.
Qed.

Lemma excl_lock ts m m' i t t' :
  excl ts m -> ts !! i = Some t -> mutex_lock i m = Some m' -> critical t' = true ->
  excl (<[i := t']> ts) m'.
Proof.
  intros [He Hm] Hi Hl Hc. destruct m; [done|]. injection Hl as <-. pose proof (lookup_lt_Some _ _ _ Hi) as Hlt.
  split; [|intros k [= <-]; by rewrite length_insert].
  intros k t1 Hk. destruct (decide (k = i)) as [->|Hne].
  - rewrite list_lookup_insert_eq in Hk by done. by injection Hk as <-.
  - rewrite list_lookup_insert_ne in Hk by done. rewrite (He _ _ Hk). split; congruence.
Qed.

Lemma excl_unlock ts m m' i t t' :
  excl ts m -> ts !! i = Some t -> mutex_unlock i m = Some m' -> critical t' = false ->
  excl (<[i := t']> ts) m'.
Proof.
  intros [He Hm] Hi Hl Hc. destruct m as [o|]; [|done]. simpl in Hl. case_match eqn:Ho; [|done].
  apply Nat.eqb_eq in Ho as ->. injection Hl as <-. split; [|done].
  intros k t1 Hk. destruct (decide (k = i)) as [->|Hne].
  - rewrite list_lookup_insert_eq in Hk by (by eapply lookup_lt_Some). injection Hk as <-. by rewrite Hc.
  - rewrite list_lookup_insert_ne in Hk by done. rewrite (He _ _ Hk). split; [congruence|done].
Qed.

Lemma excl_unlock_ok ts m i t :
  excl ts m -> ts !! i = Some t -> critical t = true -> mutex_unlock i m = Some None.
Proof. intros [He _] Hi Hc. apply (He _ _ Hi) in Hc as ->. simpl. by rewrite Nat.eqb_refl. Qed.

Lemma excl_app ts m t : excl ts m -> critical t = false -> excl (ts ++ [t]) m.
Proof.
  intros [He Hm] Hc. split; [|intros k Hk; rewrite length_app; apply Hm in Hk; lia].
  intros i t1 [Hi|[Hi E]]%lookup_app_Some; [by apply He|].
  apply list_lookup_singleton_Some in E as [E <-]. rewrite Hc. split; [done|].
  intros ?%Hm. lia.
Qed.

Lemma excl_owner ts i : excl ts (Some i) -> exists t, ts !! i = Some t /\ critical t = true.
Proof.
  intros [He Hm]. specialize (Hm i eq_refl). apply lookup_lt_is_Some in Hm as [t Ht]. exists t.
  split; [done|]. by apply (He _ _ Ht).
Qed.

Lemma excl_only ts m i k t t' :
  excl ts m -> ts !! i = Some t -> ts !! k = Some t' -> critical t = true -> critical t' = true -> i = k.
Proof.
  intros [He _] Hi Hk Hc Hc'. apply (He _ _ Hi) in Hc. apply (He _ _ Hk) in Hc'. congruence.
Qed.
End Exclusion.

(** ** Locks

    What the counting programs need of the primitive that guards their counter. *)
Class Lock (L : Type) := {
  lock_init : L;
  init_call : option string;       (* the call in main that initialises it, if there is one *)
  acquire_call : string;
  release_call : string;
  acquire : nat -> L -> option L;  (* None: the caller waits *)
  release : nat -> L -> option L   (* None: undefined *)
}.

Class LockLaws (L : Type) `{!Lock L} := {
  lock_free : L -> Prop;
  lock_held : L -> nat -> Prop;
  lock_init_free : lock_free lock_init;
  acquire_free : forall i l, lock_free l -> exists l', acquire i l = Some l' /\ lock_held l' i;
  acquire_held : forall i j l, lock_held l j -> acquire i l = None;
  release_held : forall i l, lock_held l i -> exists l', release i l = Some l' /\ lock_free l'
}.

#[export] Instance mutex_is_lock : Lock mutex := {|
  lock_init := None;
  init_call := None;
  acquire_call := "pthread_mutex_lock";
  release_call := "pthread_mutex_unlock";
  acquire := mutex_lock;
  release := mutex_unlock
|}.

#[export] Program Instance mutex_lock_laws : LockLaws mutex := {|
  lock_free := fun m => m = None;
  lock_held := fun m i => m = Some i
|}.
Next Obligation. done. Qed.
Next Obligation. intros i l ->. by eexists. Qed.
Next Obligation. by intros i j l ->. Qed.
Next Obligation. intros i l ->. simpl. rewrite Nat.eqb_refl. by eexists. Qed.

(** A semaphore: its value. *)
Inductive semaphore := Sem (value : Z).

#[export] Instance semaphore_is_lock : Lock semaphore := {|
  lock_init := Sem 1;
  init_call := Some "sem_init"%string;
  acquire_call := "sem_wait";
  release_call := "sem_post";
  acquire := fun _ '(Sem v) => if 0 <? v then Some (Sem (v - 1)) else None;
  release := fun _ '(Sem v) => Some (Sem (v + 1))
|}.

#[export] Program Instance semaphore_lock_laws : LockLaws semaphore := {|
  lock_free := fun s => s = Sem 1;
  lock_held := fun s _ => s = Sem 0
|}.
Next Obligation. done. Qed.
Next Obligation. intros i l ->. by eexists. Qed.
Next Obligation. by intros i j l ->. Qed.
Next Obligation. intros i l ->. by eexists. Qed.

(** ** Sums over the threads *)

Definition zsum {T} (f : T -> Z) (l : list T) : Z := foldr (fun t acc => f t + acc) 0 l.

Lemma zsum_app {T} (f : T -> Z) l l' : zsum f (l ++ l') = zsum f l + zsum f l'.
Proof. induction l as [|x l IH]; simpl in *; [done|]. rewrite IH. lia. Qed.

Lemma zsum_insert {T} (f : T -> Z) l i x y :
  l !! i = Some x -> zsum f (<[i := y]> l) = zsum f l - f x + f y.
Proof.
  revert i. induction l as [|z l IH]; intros [|i] E; simpl in *; try done.
  - injection E as ->. lia.
  - rewrite (IH i E). lia.
Qed.

Lemma zsum_nonneg {T} (f : T -> Z) l : (forall x, 0 <= f x) -> 0 <= zsum f l.
Proof. intros Hf. induction l as [|x l IH]; simpl; [done|]. specialize (Hf x). lia. Qed.

Lemma zsum_le {T} (f : T -> Z) l b : Forall (fun x => f x <= b) l -> zsum f l <= b * Z.of_nat (length l).
Proof. induction 1; simpl; lia. Qed.

Lemma zsum_eq {T} (f : T -> Z) l b : Forall (fun x => f x = b) l -> zsum f l = b * Z.of_nat (length l).
Proof. induction 1; simpl; lia. Qed.

Lemma forallb_false {A} (f : A -> bool) l : forallb f l = false -> exists x, x ∈ l /\ f x = false.
Proof.
  induction l as [|x l IH]; [done|]. cbn. intros [Hx|Hl]%andb_false_iff; [exists x; split; [by left|done]|].
  destruct (IH Hl) as (y & Hy & ?). exists y. split; [by right|done].
Qed.

Lemma sum_list_with_insert {T} (f : T -> nat) l i x y :
  l !! i = Some x -> (sum_list_with f (<[i := y]> l) + f x = sum_list_with f l + f y)%nat.
Proof.
  intros H. rewrite <- (take_drop_middle _ _ _ H) at 2. rewrite insert_take_drop by (by eapply lookup_lt_Some).
  rewrite !sum_list_with_app. cbn. lia.
Qed.

(** Runs of a program whose every step takes something from a nonnegative quantity, under an
    invariant. *)
Lemma nsteps_zbounded_inv {A} (R : A -> A -> Prop) (I : A -> Prop) (mu : A -> Z) n x y :
  (forall a, I a -> 0 <= mu a) -> (forall a b, I a -> R a b -> I b /\ mu b < mu a) ->
  I x -> nsteps R n x y -> Z.of_nat n <= mu x.
Proof.
  intros Hpos Hdec HI Hn. cut (Z.of_nat n + mu y <= mu x /\ I y).
  { intros [? ?%Hpos]. lia. }
  induction Hn as [|n x y z Hxy _ IH]; [split; [lia|done]|].
  destruct (Hdec _ _ HI Hxy) as [HIy ?]. destruct (IH HIy). split; [lia|done].
Qed.

Lemma nsteps_zbounded {A} (R : A -> A -> Prop) (mu : A -> Z) n x y :
  (forall a, 0 <= mu a) -> (forall a b, R a b -> mu b < mu a) ->
  nsteps R n x y -> Z.of_nat n <= mu x.
Proof. intros Hpos Hdec. apply (nsteps_zbounded_inv R (fun _ => True)); auto. Qed.
