(* ===== verification/Incr.v ===== *)
(** * Counting threads

    thread_incr.c and thread_incr_mutex.c (tlpi-dist/threads) and thread_incr_psem.c
    (tlpi-dist/psem): two threads that add to a counter, without a lock, under a mutex and under a
    semaphore.  The mains are the same but for the initialisation of the semaphore; the two
    guarded programs differ in the lock, the class [Lock] of Threads.  A step of a thread is one
    access to the counter or one call. *)

From Stdlib Require Import ZArith Lia String Ascii.
From S2P Require Import Prelude CString Kernel GetNum Threads.

(** The number of rounds: [argv[1]], or ten million. *)
Definition num_loops {K} (argv : list bytes) : M (proc K) Z :=
  if (1 <? Z.of_nat (length argv)) then getInt (argv !! 1%nat) GN_GT_0 (Some (str "num-loops"))
  else mret 10000000.

Lemma num_loops_pos {K} argv (p p' : proc K) loops :
  Forall c_string argv -> num_loops argv p = (Ret loops, p') -> 0 < loops.
Proof.
  intros Hargs. unfold num_loops. case_match eqn:Hn; [|by intros [= <- _]].
  destruct argv as [|a [|b argv]]; try done. inversion_clear Hargs as [|? ? _ Hb].
  inversion_clear Hb as [|? ? Hs _]. change ((a :: b :: argv) !! 1%nat) with (Some b).
  destruct (getInt_cases b GN_GT_0 (Some (str "num-loops")) p Hs) as [(v & [Hv _] & ->)|[_ Hf]].
  - intros [= <- _]. by apply Hv.
  - destruct Hf as (e & m & ms & ->). done.
Qed.

(** ** main *)

(** Where main is; it keeps the identifiers of the threads it has made. *)
Inductive main_pc :=
| Setup
| Create1
| Create2 (t1 : nat)
| Join1 (t1 t2 : nat)
| Join2 (t2 : nat)
| Report
| Leave.

Abbreviation thr := (thread main_pc).

Section Main.
Context {G W : Type} (init : option string) (start : W) (returned : W -> bool) (glob : G -> Z).

Definition has_returned (ts : list (thr W)) (tid : nat) : bool :=
  match ts !! tid with Some (Worker w) => returned w | _ => false end.

Definition report (v : Z) : bytes := str "glob = " ++ dec v ++ [NL].

Definition main_exec (a : answer) (ts : list (thr W)) (m : main_pc) (g : G) : effect G (thr W) :=
  match m with
  | Setup =>
      match init with
      | Some call => check a call (Go (Main Create1) g)
      | None => Go (Main Create1) g
      end
  | Create1 => check a "pthread_create" (Create (Main (Create2 (length ts))) (Worker start))
  | Create2 t1 => check a "pthread_create" (Create (Main (Join1 t1 (length ts))) (Worker start))
  | Join1 t1 t2 => check a "pthread_join" (if has_returned ts t1 then Go (Main (Join2 t2)) g else Wait)
  | Join2 t2 => check a "pthread_join" (if has_returned ts t2 then Go (Main Report) g else Wait)
  | Report => Say (Main Leave) (report (glob g))
  | Leave => Stop (Exited EXIT_SUCCESS)
  end.

(** The whole program, given what the thread function does. *)
Definition program (wexec : nat -> answer -> W -> G -> effect G (thr W))
    (self : nat) (a : answer) (ts : list (thr W)) (t : thr W) (g : G) : effect G (thr W) :=
  match t with
  | Main m => main_exec a ts m g
  | Worker w => wexec self a w g
  end.

(** *** What main adds to what the thread functions keep *)

Section Correct.
Context (wexec : nat -> answer -> W -> G -> effect G (thr W)) (J : list W -> G -> Prop).
Context (J_start : forall ws g, (length ws < 2)%nat -> J ws g -> J (ws ++ [start]) g).
Context (J_step : forall ws g i a w, J ws g -> ws !! i = Some w ->
  match wexec (S i) a w g with
  | Go (Worker w') g' => returned w = false /\ J (<[i := w']> ws) g'
  | Wait | Stop (Failed _ _) => True
  | _ => False
  end).

Definition main_ok (m : main_pc) (ws : list W) (out : list bytes) (v : Z) : Prop :=
  match m with
  | Setup | Create1 => ws = [] /\ out = []
  | Create2 t1 => t1 = 1%nat /\ length ws = 1%nat /\ out = []
  | Join1 t1 t2 => t1 = 1%nat /\ t2 = 2%nat /\ length ws = 2%nat /\ out = []
  | Join2 t2 => t2 = 2%nat /\ length ws = 2%nat /\ (returned <$> ws !! 0%nat) = Some true /\ out = []
  | Report => length ws = 2%nat /\ Forall (fun w => returned w = true) ws /\ out = []
  | Leave => length ws = 2%nat /\ Forall (fun w => returned w = true) ws /\ out = [report v]
  end.

Definition end_ok (m : main_pc) (e : option ending) : Prop :=
  match e with
  | None | Some (Failed _ _) => True
  | Some (Exited status) => status = 0 /\ m = Leave
  | Some Undefined => False
  end.

Definition sys_inv (s : sys G (thr W)) : Prop :=
  exists m ws, threads s = Main m :: (Worker <$> ws) /\
    main_ok m ws (printed s) (glob (shared s)) /\ J ws (shared s) /\ end_ok m (ended s).

Lemma main_ok_worker m ws out v v' i w w' :
  main_ok m ws out v -> ws !! i = Some w -> returned w = false -> main_ok m (<[i := w']> ws) out v'.
Proof.
  intros Hm Hi Hw.
  assert (~ Forall (fun w => returned w = true) ws) as Hno.
  { rewrite Forall_lookup. intros HF. specialize (HF _ _ Hi). congruence. }
  destruct m; simpl in *; rewrite ?length_insert; try tauto.
  - destruct Hm as [-> ->]. done.
  - destruct Hm as [-> ->]. done.
  - destruct Hm as (-> & ? & H0 & ->). split_and!; try done.
    destruct i; [rewrite Hi in H0; simpl in H0; congruence|]. by rewrite list_lookup_insert_ne.
Qed.

Lemma has_returned_worker m ws i :
  has_returned (Main m :: (Worker <$> ws)) (S i) = default false (returned <$> ws !! i).
Proof. unfold has_returned. simpl. rewrite list_lookup_fmap. by destruct (ws !! i). Qed.

Local Ltac pack m ws := solve [exists m, ws; simpl; split_and!; auto; done || congruence].

Lemma sys_inv_step ok s s' : step (program wexec) ok s s' -> sys_inv s -> sys_inv s'.
Proof.
  intros (Hend & i & a & t & _ & Hi & Hp)%step_inv (m & ws & Hts & Hm & HJ & _).
  destruct s as [g ts out e]; simpl in *. subst ts e. destruct i as [|i]; simpl in Hi.
  - injection Hi as <-. unfold program, main_exec, check in Hp.
    destruct m; simpl in Hm.
    + destruct Hm as [-> ->]. destruct init, a; injection Hp as <-; (pack Create1 (@nil W) || pack Setup (@nil W)).
    + destruct Hm as [-> ->]. specialize (J_start [] g Nat.lt_0_2 HJ).
      destruct a; injection Hp as <-; (pack (Create2 1) [start] || pack Create1 (@nil W)).
    + destruct Hm as (-> & Hl & ->). destruct ws as [|w [|]]; try done.
      specialize (J_start [w] g Nat.lt_1_2 HJ).
      destruct a; injection Hp as <-; (pack (Join1 1 2) [w; start] || pack (Create2 1) [w]).
    + destruct Hm as (-> & -> & Hl & ->). rewrite has_returned_worker in Hp.
      destruct (returned <$> ws !! 0%nat) as [[]|] eqn:E; simpl in Hp;
        destruct a; try discriminate; injection Hp as <-; (pack (Join2 2) ws || pack (Join1 1 2) ws).
    + destruct Hm as (-> & Hl & H0 & ->). rewrite has_returned_worker in Hp.
      destruct ws as [|w0 [|w1 [|]]]; try done. simpl in *. injection H0 as H0.
      destruct (returned w1) eqn:E; simpl in Hp; destruct a; try discriminate; injection Hp as <-;
        (pack Report [w0; w1] || pack (Join2 2) [w0; w1] || idtac).
    + destruct Hm as (Hl & HF & ->). injection Hp as <-. pack Leave ws.
    + destruct Hm as (Hl & HF & ->). injection Hp as <-. pack Leave ws.
  - rewrite list_lookup_fmap in Hi. destruct (ws !! i) as [w|] eqn:Ew; [|done]. injection Hi as <-.
    specialize (J_step _ _ _ a _ HJ Ew). unfold program in Hp.
    destruct (wexec (S i) a w g) as [[m'|w'] g'| | | |[]]; try done; simpl in Hp; injection Hp as <-.
    + destruct J_step. eexists m, _. simpl. rewrite list_fmap_insert.
      split_and!; try done. by eapply main_ok_worker.
    + by eexists m, ws.
Qed.

(** Main waits for nothing but its threads. *)
Lemma main_runs m ws out v g :
  main_ok m ws out v -> Forall (fun w => returned w = true) ws ->
  main_exec Fine (Main m :: (Worker <$> ws)) m g <> Wait.
Proof.
  intros Hm HF. unfold main_exec, check. destruct m; simpl in Hm; try done.
  - by destruct init.
  - destruct Hm as (-> & _ & Hl & _). rewrite has_returned_worker.
    destruct ws as [|w0 ws]; [done|]. simpl. inversion_clear HF. by rewrite H.
  - destruct Hm as (-> & Hl & _). rewrite has_returned_worker.
    destruct ws as [|w0 [|w1 ws]]; try done. inversion_clear HF. inversion_clear H0. simpl. by rewrite H1.
Qed.

End Correct.

Section Measure.
Context (wexec : nat -> answer -> W -> G -> effect G (thr W)) (mu : W -> Z).

(** What is left to do. *)
Definition main_mu (m : main_pc) : Z :=
  match m with
  | Setup => 7 + 2 * mu start
  | Create1 => 6 + 2 * mu start
  | Create2 _ => 5 + mu start
  | Join1 _ _ => 4
  | Join2 _ => 3
  | Report => 2
  | Leave => 1
  end.

Definition sys_mu (s : sys G (thr W)) : Z :=
  zsum (fun t => match t with Main m => main_mu m | Worker w => mu w end) (threads s)
  + match ended s with None => 1 | Some _ => 0 end.

Lemma sys_mu_step (Hmu : forall w, 0 <= mu w)
  (Hdec : forall i a w g, match wexec i a w g with
                          | Go (Worker w') _ => mu w' < mu w
                          | Wait | Stop _ => True
                          | _ => False
                          end) ok s s' :
  step (program wexec) ok s s' -> sys_mu s' < sys_mu s.
Proof.
  intros (Hend & i & a & t & _ & Hi & Hp)%step_inv.
  destruct s as [g ts out e]; simpl in *. subst e. unfold sys_mu.
  destruct t as [m|w]; unfold program in Hp.
  - unfold main_exec, check in Hp. pose proof (Hmu start).
    destruct m, a; try destruct init; try destruct (has_returned _ _); try discriminate;
      simpl in Hp; injection Hp as <-; simpl;
      rewrite ?zsum_app, ?(zsum_insert _ _ _ _ _ Hi); simpl; lia.
  - specialize (Hdec i a w g). destruct (wexec i a w g) as [[m'|w'] g'| | | |]; try done;
      simpl in Hp; injection Hp as <-; simpl; [|lia].
    rewrite (zsum_insert _ _ _ _ _ Hi). simpl. lia.
Qed.
End Measure.
End Main.

(** ** Without a lock *)

Module Race.

(** The round [j], and the value of [loc] after [loc = glob; loc++]. *)
Inductive pc := Start | For (j : Z) | Added (j loc : Z) | Returned.

Definition returned (w : pc) : bool := match w with Returned => true | _ => false end.

Definition threadFunc (loops : Z) (w : pc) (glob : Z) : effect Z (thr pc) :=
  match w with
  | Start => Go (Worker (For 0)) glob
  | For j =>
      if j <? loops then
        if glob =? INT_MAX then Stop Undefined else Go (Worker (Added j (glob + 1))) glob
      else Go (Worker Returned) glob
  | Added j loc => Go (Worker (For (j + 1))) loc
  | Returned => Wait
  end.

Definition exec (loops : Z) (self : nat) (a : answer) (ts : list (thr pc)) (t : thr pc) (glob : Z) :=
  program None Start returned id (fun _ _ => threadFunc loops) self a ts t glob.

Definition start_state : sys Z (thr pc) := Sys 0 [Main Setup] [] None.

(** *** What the thread function keeps *)

Section Correct.
Context (loops : Z).

Definition stored (w : pc) : Z :=
  match w with Start => 0 | For j | Added j _ => j | Returned => loops end.

(** All rounds are over. *)
Definition over (w : pc) : bool :=
  match w with For j => j =? loops | Returned => true | _ => false end.

(** [total] is the number of stores made, [v] the counter.  A thread that has stored keeps the
    counter positive. *)
Definition pc_ok (total v : Z) (w : pc) : Prop :=
  (0 < stored w -> 0 < v) /\
  match w with
  | For j => 0 <= j <= loops
  | Added j loc => 0 <= j < loops /\ 1 <= loc <= total + 1 /\ (0 < j -> 2 <= loc)
  | Start | Returned => True
  end.

Definition J (ws : list pc) (v : Z) : Prop :=
  (length ws <= 2)%nat /\ 0 <= v <= zsum stored ws /\
  Forall (pc_ok (zsum stored ws) v) ws /\
  (ws <> [] -> Forall (fun w => over w = true) ws -> Z.min 2 loops <= v).

Lemma stored_bound total v w : 0 < loops -> pc_ok total v w -> 0 <= stored w <= loops.
Proof. intros ? [_ ?]. destruct w; simpl in *; lia. Qed.

Lemma pc_ok_mono total total' v v' w :
  total <= total' -> (0 < v -> 0 < v') -> pc_ok total v w -> pc_ok total' v' w.
Proof. intros ? Hv [? ?]. split; [auto|]. destruct w; lia. Qed.

Lemma race_start (Hloops : 0 < loops) ws v : (length ws < 2)%nat -> J ws v -> J (ws ++ [Start]) v.
Proof.
  intros Hl (_ & Hv & HF & _). unfold J. rewrite zsum_app, length_app. simpl. rewrite !Z.add_0_r.
  split_and!; try lia.
  - apply Forall_app. split; [done|]. constructor; [|done]. split; [simpl; lia|done].
  - intros _ Ho. apply Forall_app in Ho as [_ Ho]. inversion_clear Ho. done.
Qed.

(** A step that leaves the counter alone. *)
Lemma race_local ws v i w w' :
  J ws v -> ws !! i = Some w -> stored w' = stored w -> (over w' = true -> over w = true) ->
  pc_ok (zsum stored ws) v w' -> J (<[i := w']> ws) v.
Proof.
  intros (Hl & Hv & HF & Ho) Hi Hst Hov Hpc. unfold J.
  rewrite length_insert, (zsum_insert _ _ _ _ _ Hi), Hst.
  replace (zsum stored ws - stored w + stored w) with (zsum stored ws) by lia.
  split_and!; try lia; [by apply Forall_insert|].
  intros Hne HF'. apply Ho; [by intros ->|]. apply Forall_lookup. intros k w1 Hk.
  destruct (decide (k = i)) as [->|Hki].
  - rewrite Hi in Hk. injection Hk as <-. apply Hov. rewrite Forall_lookup in HF'. apply (HF' i).
    apply list_lookup_insert_eq. by eapply lookup_lt_Some.
  - rewrite Forall_lookup in HF'. apply (HF' k). by rewrite list_lookup_insert_ne.
Qed.

Lemma race_step (Hloops : 0 < loops) (Hmax : 2 * loops <= INT_MAX) ws v i w :
  J ws v -> ws !! i = Some w ->
  match threadFunc loops w v with
  | Go (Worker w') v' => returned w = false /\ J (<[i := w']> ws) v'
  | Wait | Stop (Failed _ _) => True
  | _ => False
  end.
Proof.
  intros HJ Hi. pose proof HJ as (Hl & Hv & HF & Ho). pose proof HF as HF'. rewrite Forall_lookup in HF'.
  pose proof (HF' _ _ Hi) as Hpc. destruct w as [|j|j loc|]; simpl; try done.
  - split; [done|]. eapply race_local; [done|done|done|intros E; apply (proj1 (Z.eqb_eq 0 loops)) in E; lia|]. split; simpl; lia.
  - destruct Hpc as [Hpos Hj]. simpl in Hpos. destruct (j <? loops) eqn:E; z_bool.
    + assert (v < INT_MAX).
      { assert (zsum stored (<[i := For (j + 1)]> ws) <= loops * Z.of_nat (length (<[i := For (j + 1)]> ws))) as Hb.
        { apply zsum_le, Forall_insert; [|simpl; lia]. eapply Forall_impl; [exact HF|].
          intros w1 Hw1. apply (stored_bound _ _ _ Hloops) in Hw1. lia. }
        rewrite (zsum_insert _ _ _ _ _ Hi), length_insert in Hb. simpl in Hb. nia. }
      rewrite (proj2 (Z.eqb_neq _ _)) by lia. split; [done|].
      eapply race_local; [done|done|done|done|]. split; simpl; lia.
    + split; [done|]. assert (j = loops) as -> by lia.
      eapply race_local; [done|done|done|simpl; lia|]. split; simpl; [done|lia].
  - destruct Hpc as [Hpos (Hj & Hloc & H2)]. split; [done|]. unfold J.
    rewrite length_insert, (zsum_insert _ _ _ _ _ Hi). simpl.
    replace (zsum stored ws - j + (j + 1)) with (zsum stored ws + 1) by lia.
    split_and!; try lia.
    + apply Forall_insert; [|split; simpl; lia]. eapply Forall_impl; [exact HF|].
      intros w1. apply pc_ok_mono; lia.
    + intros _ Hov. rewrite Forall_lookup in Hov.
      specialize (Hov i (For (j + 1)) ltac:(apply list_lookup_insert_eq; by eapply lookup_lt_Some)).
      simpl in Hov. z_bool. lia.
Qed.

(** without a lock additions are lost, but not without limit.  For the [loops] of the command
    line, at most 2^30 - 1, and any interleaving, a run that exits has printed a value between 2
    (1 if there is one round) and [2 * loops]. *)
Theorem race_count_bounds {K} argv (p p' : proc K) s status :
  Forall c_string argv -> num_loops argv p = (Ret loops, p') -> 2 * loops <= INT_MAX ->
  rtc (step (exec loops) any) start_state s -> ended s = Some (Exited status) ->
  status = EXIT_SUCCESS /\ exists v, printed s = [report v] /\ Z.min 2 loops <= v <= 2 * loops.
Proof.
  intros Hargs Hloops%num_loops_pos Hmax Hs He; [|done].
  assert (sys_inv returned id J s) as (m & ws & _ & Hm & (Hl & Hv & HF & Ho) & Hend).
  { revert Hs. apply rtc_invariant.
    - intros s1 s2 Hi Hs.
      refine (sys_inv_step None Start returned id (fun _ _ => threadFunc loops) J (race_start Hloops) _ any s1 s2 Hs Hi).
      intros. by apply race_step.
    - exists Setup, []. split_and!; try done. unfold J. simpl. by split_and!; try lia. }
  rewrite He in Hend. destruct Hend as [-> ->]. destruct Hm as (Hlen & HR & ->). split; [done|].
  exists (shared s). split; [done|]. unfold id in *. split.
  - apply Ho; [by intros ->|]. eapply Forall_impl; [exact HR|]. by intros [].
  - rewrite (zsum_eq _ _ loops), Hlen in Hv; [lia|]. eapply Forall_impl; [exact HR|]. by intros [].
Qed.
End Correct.
End Race.

(** ** Under a lock *)

Module Guarded.
Section Guarded.
Context {L : Type} `{!Lock L}.

Inductive pc := Start | For (j : Z) | Locked (j : Z) | Added (j loc : Z) | Stored (j : Z) | Returned.

Definition returned (w : pc) : bool := match w with Returned => true | _ => false end.

Record vars := Vars { glob : Z; lk : L }.

Definition threadFunc (loops : Z) (self : nat) (a : answer) (w : pc) (g : vars) : effect vars (thr pc) :=
  match w with
  | Start => Go (Worker (For 0)) g
  | For j =>
      if j <? loops then
        check a acquire_call
          (match acquire self (lk g) with
           | Some l => Go (Worker (Locked j)) (Vars (glob g) l)
           | None => Wait
           end)
      else Go (Worker Returned) g
  | Locked j => if glob g =? INT_MAX then Stop Undefined else Go (Worker (Added j (glob g + 1))) g
  | Added j loc => Go (Worker (Stored j)) (Vars loc (lk g))
  | Stored j =>
      check a release_call
        (match release self (lk g) with
         | Some l => Go (Worker (For (j + 1))) (Vars (glob g) l)
         | None => Stop Undefined
         end)
  | Returned => Wait
  end.

Definition exec (loops : Z) (self : nat) (a : answer) (ts : list (thr pc)) (t : thr pc) (g : vars) :=
  program init_call Start returned glob (threadFunc loops) self a ts t g.

Definition start_state : sys vars (thr pc) := Sys (Vars 0 lock_init) [Main Setup] [] None.

(** *** What the thread function keeps *)

Section Correct.
Context `{!LockLaws L} (loops : Z).

Definition critical (w : pc) : bool :=
  match w with Locked _ | Added _ _ | Stored _ => true | _ => false end.

(** How many additions a thread has made. *)
Definition added (w : pc) : Z :=
  match w with
  | Start => 0
  | For j | Locked j | Added j _ => j
  | Stored j => j + 1
  | Returned => loops
  end.

Definition pc_ok (v : Z) (w : pc) : Prop :=
  match w with
  | For j => 0 <= j <= loops
  | Locked j | Stored j => 0 <= j < loops
  | Added j loc => 0 <= j < loops /\ loc = v + 1
  | Start | Returned => True
  end.

(** The counter is the number of additions made, and only the holder of the lock is in a round. *)
Definition J (ws : list pc) (g : vars) : Prop :=
  (length ws <= 2)%nat /\ glob g = zsum added ws /\
  exists holder : option nat,
    match holder with None => lock_free (lk g) | Some i => lock_held (lk g) (S i) /\ (i < length ws)%nat end /\
    forall i w, ws !! i = Some w -> pc_ok (glob g) w /\ (critical w = true <-> holder = Some i).

Definition mu (w : pc) : Z :=
  match w with
  | Start => 4 * Z.max 0 loops + 2
  | For j => 4 * Z.max 0 (loops - j) + 1
  | Locked j => 4 * Z.max 0 (loops - j - 1) + 4
  | Added j _ => 4 * Z.max 0 (loops - j - 1) + 3
  | Stored j => 4 * Z.max 0 (loops - j - 1) + 2
  | Returned => 0
  end.

Lemma guarded_mu_step i a w g :
  match threadFunc loops i a w g with
  | Go (Worker w') _ => mu w' < mu w
  | Wait | Stop _ => True
  | _ => False
  end.
Proof.
  unfold threadFunc, check. repeat case_match; simplify_eq; try done; z_bool; simpl; lia.
Qed.

Lemma guarded_init : J [] (Vars 0 lock_init).
Proof. split; [simpl; lia|]. split; [done|]. exists None. split; [apply lock_init_free|]. by intros i w. Qed.

Lemma guarded_start ws g : (length ws < 2)%nat -> J ws g -> J (ws ++ [Start]) g.
Proof.
  intros Hl (_ & Hv & h & Hh & Hw). split; [rewrite length_app; simpl; lia|].
  split; [rewrite zsum_app; simpl; lia|]. exists h.
  split; [destruct h; [rewrite length_app; simpl; intuition lia|done]|].
  intros i w [Hi|[Hi E]]%lookup_app_Some; [by apply Hw|]. apply list_lookup_singleton_Some in E as [E <-].
  split; [done|]. split; [done|]. destruct h as [k|]; [|done]. intros [= ->]. lia.
Qed.

(** Another worker's local claims survive a step that keeps the counter or that only the holder of
    the lock can make. *)
Lemma guarded_update ws g i w w' h' g' :
  J ws g -> ws !! i = Some w -> glob g' = glob g - added w + added w' -> pc_ok (glob g') w' ->
  match h' with None => lock_free (lk g') | Some k => lock_held (lk g') (S k) /\ (k < length ws)%nat end ->
  (critical w' = true <-> h' = Some i) ->
  (forall k w1, k <> i -> ws !! k = Some w1 -> pc_ok (glob g) w1 ->
     pc_ok (glob g') w1 /\ (critical w1 = true <-> h' = Some k)) ->
  J (<[i := w']> ws) g'.
Proof.
  intros (Hl & Hv & h & Hh & Hw) Hi Hv' Hpc Hh' Hc Hother. unfold J. rewrite length_insert.
  split; [done|]. split; [rewrite (zsum_insert _ _ _ _ _ Hi); lia|]. exists h'. split; [done|].
  intros k w1 Hk. destruct (decide (k = i)) as [->|Hne].
  - rewrite list_lookup_insert_eq in Hk by (by eapply lookup_lt_Some). by injection Hk as <-.
  - rewrite list_lookup_insert_ne in Hk by done. destruct (Hw _ _ Hk) as [? _]. by apply Hother.
Qed.

Lemma guarded_step (Hloops : 0 < loops) (Hmax : 2 * loops <= INT_MAX) ws g i a w :
  J ws g -> ws !! i = Some w ->
  match threadFunc loops (S i) a w g with
  | Go (Worker w') g' => returned w = false /\ J (<[i := w']> ws) g'
  | Wait | Stop (Failed _ _) => True
  | _ => False
  end.
Proof.
  intros HJ Hi. pose proof HJ as (Hl & Hv & h & Hh & Hw). destruct (Hw _ _ Hi) as [Hpc Hc].
  assert (forall k w1, k <> i -> ws !! k = Some w1 -> pc_ok (glob g) w1 ->
            pc_ok (glob g) w1 /\ (critical w1 = true <-> h = Some k)) as Hsame.
  { intros k w1 _ Hk ?. by split; [|apply Hw]. }
  assert (forall w', critical w' = critical w -> added w' = added w -> pc_ok (glob g) w' ->
            J (<[i := w']> ws) g) as Hlocal.
  { intros w' Hcw Haw Hpw. eapply (guarded_update _ _ _ _ _ h); try done; [lia|]. by rewrite Hcw. }
  assert (critical w = true -> forall k w1, k <> i -> ws !! k = Some w1 -> critical w1 = false) as Hexcl.
  { intros Hcw k w1 Hne Hk. destruct (Hw _ _ Hk) as [_ Hk']. apply Hc in Hcw.
    destruct (critical w1); [|done]. apply proj1 in Hk'. specialize (Hk' eq_refl). congruence. }
  unfold threadFunc, check. destruct w as [|j|j|j loc|j|]; simpl in Hpc, Hc; try done.
  - split; [done|]. apply Hlocal; simpl; try done. lia.
  - destruct (j <? loops) eqn:E; z_bool.
    + destruct a; try done; destruct (acquire (S i) (lk g)) as [l'|] eqn:Ea; try done; (split; [done|]).
      all: destruct h as [k|]; [destruct Hh as [Hh _]; by rewrite (acquire_held (S i) _ _ Hh) in Ea|].
      all: destruct (acquire_free (S i) _ Hh) as (l & El & Hlk); rewrite El in Ea; injection Ea as <-.
      all: eapply (guarded_update _ _ _ _ _ (Some i)); try done; simpl; [lia|lia|by split; [|eapply lookup_lt_Some]|].
      all: intros k w1 Hne Hk Hpk; split; [done|]; destruct (Hw _ _ Hk) as [_ Hk'];
        rewrite Hk'; split; congruence.
    + split; [done|]. apply Hlocal; simpl; try done. lia.
  - assert (glob g < INT_MAX).
    { assert (zsum added (<[i := Stored j]> ws) <= loops * Z.of_nat (length (<[i := Stored j]> ws))) as Hb.
      { apply zsum_le. apply Forall_insert; [|simpl; lia]. apply Forall_lookup. intros k w1 Hk.
        destruct (Hw _ _ Hk) as [Hp _]. destruct w1; simpl in *; lia. }
      rewrite (zsum_insert _ _ _ _ _ Hi), length_insert in Hb. simpl in Hb. nia. }
    rewrite (proj2 (Z.eqb_neq _ _)) by lia. split; [done|]. apply Hlocal; simpl; try done.
  - split; [done|]. destruct Hpc as [Hj ->].
    eapply (guarded_update _ _ _ _ _ h); try done; simpl; [lia|].
    intros k w1 Hne Hk Hpk. split; [|by apply Hw].
    specialize (Hexcl eq_refl _ _ Hne Hk). by destruct w1.
  - assert (h = Some i) as -> by (by apply Hc). destruct Hh as [Hh Hlt].
    destruct (release_held _ _ Hh) as (l' & El & Hfree). rewrite El.
    destruct a; try done; (split; [done|]);
      (eapply (guarded_update _ _ _ _ _ None); try done; simpl; [lia|lia|]);
      intros k w1 Hne Hk Hpk; (split; [done|]); rewrite (Hexcl eq_refl _ _ Hne Hk); done.
Qed.

Lemma reachable_inv (Hloops : 0 < loops) (Hmax : 2 * loops <= INT_MAX) s :
  rtc (step (exec loops) any) start_state s -> sys_inv returned glob J s.
Proof.
  apply rtc_invariant.
  - intros s1 s2 Hi Hs.
    refine (sys_inv_step init_call Start returned glob (threadFunc loops) J guarded_start _ any s1 s2 Hs Hi).
    intros. by apply guarded_step.
  - exists Setup, []. split_and!; try done. apply guarded_init.
Qed.

(** While the program has not ended, one of its threads can go on: the holder of the lock, any
    other thread that has not returned, or main. *)
Lemma guarded_progress s :
  sys_inv returned glob J s -> ended s = None -> exists i s', run_one (exec loops) i Fine s = Some s'.
Proof.
  intros (m & ws & Hts & Hm & (Hl & Hv & h & Hh & Hw) & _) He.
  assert (forall i w, ws !! i = Some w -> threads s !! S i = Some (Worker w)) as Hlook.
  { intros i w Hi. rewrite Hts. simpl. by rewrite list_lookup_fmap, Hi. }
  destruct h as [i|].
  - destruct Hh as [_ Hlt]. apply lookup_lt_is_Some in Hlt as [w Hi]. exists (S i).
    eapply run_one_enabled; [done|by apply Hlook|]. destruct (Hw _ _ Hi) as [_ [_ Hc]]. specialize (Hc eq_refl).
    unfold exec, program, threadFunc, check. destruct w; try done; by case_match.
  - destruct (decide (Forall (fun w => returned w = true) ws)) as [HF|HF].
    + exists 0%nat. eapply run_one_enabled; [done|by rewrite Hts|]. rewrite Hts. by eapply main_runs.
    + apply not_Forall_Exists in HF; [|apply _]. apply Exists_exists in HF as (w & Hin & Hr).
      apply list_elem_of_lookup in Hin as [i Hi]. exists (S i). eapply run_one_enabled; [done|by apply Hlook|].
      destruct (acquire_free (S i) _ Hh) as (l & El & _). destruct (Hw _ _ Hi) as [_ [Hc _]].
      unfold exec, program, threadFunc, check. destruct w; simpl in *; try done; try by discriminate Hc.
      case_match; [|done]. by rewrite El.
Qed.

(** C13: with the counter guarded by a lock (a mutex or a semaphore), no addition is lost.  For the
    [loops] of the command line, at most 2^30 - 1, whatever the interleaving and whichever calls
    fail: the program cannot get stuck, a run makes at most [8 * loops + 12] steps, and when it
    exits it has printed that the counter is [2 * loops], unless a call failed and ended it. *)
Theorem guarded_count_exact {K} argv (p p' : proc K) :
  Forall c_string argv -> num_loops argv p = (Ret loops, p') -> 2 * loops <= INT_MAX ->
  (forall s, rtc (step (exec loops) any) start_state s ->
     match ended s with
     | None => exists i s', run_one (exec loops) i Fine s = Some s'
     | Some (Exited status) => status = EXIT_SUCCESS /\ printed s = [report (2 * loops)]
     | Some (Failed _ _) => True
     | Some Undefined => False
     end) /\
  (forall n s, nsteps (step (exec loops) any) n start_state s -> Z.of_nat n <= 8 * loops + 12).
Proof.
  intros Hargs Hloops%num_loops_pos Hmax; [|done]. split.
  - intros s Hs%reachable_inv; [|done..]. destruct (ended s) as [[st| |]|] eqn:E; [..|by apply guarded_progress];
      destruct Hs as (m & ws & _ & Hm & (_ & Hv & _) & He); rewrite E in He; try done.
    destruct He as [-> ->]. destruct Hm as (Hl & HF & ->). split; [done|]. rewrite Hv.
    rewrite (zsum_eq _ _ loops), Hl; [do 2 f_equal; lia|].
    eapply Forall_impl; [exact HF|]. by intros [].
  - intros n s Hn. pose proof (nsteps_zbounded (step (exec loops) any) (sys_mu Start mu) n start_state s) as Hb.
    replace (8 * loops + 12) with (sys_mu Start mu start_state) by (unfold sys_mu; simpl; lia).
    apply Hb; [| |exact Hn].
    + intros s1. unfold sys_mu. pose proof (zsum_nonneg (fun t => match t with Main m => main_mu Start mu m | Worker w => mu w end) (threads s1)) as Hz.
      cut (0 <= zsum (fun t => match t with Main m => main_mu Start mu m | Worker w => mu w end) (threads s1)); [destruct (ended s1); lia|].
      apply Hz. intros [[]|[]]; simpl; lia.
    + intros s1 s2. apply sys_mu_step; [intros []; simpl; lia|]. intros. apply guarded_mu_step.
Qed.
End Correct.
End Guarded.
End Guarded.

(** ** Runs *)

(** Two rounds each.  The first thread reads 0 and is held up before its store; the second does
    one round; the first stores 1; the second reads it and is held up; the first does its last
    round; the second stores 2, and four additions have given 2. *)
Definition lossy : list (nat * answer) :=
  (fun i => (i, Fine)) <$>
    [0; 0; 0; 1; 2; 1; 2; 2; 1; 2; 1; 1; 1; 2; 2; 0; 0; 0; 0]%nat.

Lemma race_count_bounds_witness :
  exists s, rtc (step (Race.exec 2) any) Race.start_state s /\ ended s = Some (Exited 0) /\
    printed s = [str "glob = 2" ++ [NL]] /\
    exists v, printed s = [report v] /\ 2 <= v <= 4.
Proof.
  destruct (run (Race.exec 2) lossy Race.start_state) as [s|] eqn:E; [|vm_compute in E; discriminate E].
  assert (rtc (step (Race.exec 2) any) Race.start_state s) as Hrun.
  { refine (run_rtc _ any _ _ _ _ E). by apply Forall_true. }
  assert (ended s = Some (Exited 0)) as He by (vm_compute in E; by injection E as <-).
  exists s. split; [exact Hrun|]. split; [exact He|].
  split; [vm_compute in E; by injection E as <-|].
  refine (proj2 (Race.race_count_bounds 2 [str "thread_incr"; str "2"] (Proc tt 0 []) _ s 0 _ eq_refl _ Hrun He)); by_decide.
Defined.

(** The same number of rounds under a semaphore: one thread after the other. *)
Definition guarded_run : list (nat * answer) :=
  (fun i => (i, Fine)) <$>
    ([0; 0; 0] ++ repeat 1 10 ++ repeat 2 10 ++ [0; 0; 0; 0])%nat.

Lemma guarded_count_exact_witness :
  exists s : sys Guarded.vars (thr Guarded.pc),
    run (Guarded.exec 2) guarded_run (Guarded.start_state (L := semaphore)) = Some s /\
    ended s = Some (Exited 0) /\ printed s = [report 4].
Proof.
  destruct (run (Guarded.exec 2) guarded_run (Guarded.start_state (L := semaphore))) as [s|] eqn:E;
    [|vm_compute in E; discriminate E].
  exists s. split; [done|]. assert (ended s = Some (Exited 0)) as He by (vm_compute in E; by injection E as <-).
  split; [exact He|].
  assert (rtc (step (Guarded.exec 2) any) (Guarded.start_state (L := semaphore)) s) as Hrun.
  { refine (run_rtc _ any _ _ _ _ E). by apply Forall_true. }
  destruct (Guarded.guarded_count_exact (L := semaphore) 2 [str "thread_incr"; str "2"] (Proc tt 0 []) _
              ltac:(by_decide) eq_refl ltac:(by_decide)) as [Hall _].
  specialize (Hall s Hrun). rewrite He in Hall. exact (proj2 Hall).
Defined.
