(* ===== verification/Condvar.v ===== *)
(** * Producers and a consumer with a condition variable

    prod_condvar.c (tlpi-dist/threads).  Each command-line argument starts a producer of that many
    units; main consumes them.  A step is one call or one access to the variables under the
    mutex; the elapsed time in the lines main prints is a parameter. *)

From Stdlib Require Import ZArith Lia String Ascii.
From S2P Require Import Prelude CString Kernel Threads.

Record vars := Vars { avail : Z; mtx : mutex; waiters : cond }.

(** ** The producer

    [Returned] keeps the value of [cnt], for the statements below. *)
Inductive pc :=
| Start (arg : bytes)
| For (cnt j : Z)
| Locked (cnt j : Z)
| Added (cnt j : Z)
| Signal (cnt j : Z)
| Returned (cnt : Z).

(** ** The consumer *)

Record locals := Loc { totRequired : Z; numConsumed : Z; fin : bool }.
Inductive point := Lock | Test | Waiting | Consume | Tell | Unlock | Leave.
Inductive main_pc := Creating (j : nat) (tot : Z) | At (p : point) (l : locals).

Abbreviation thr := (thread main_pc pc).

Section Program.
Context (argv : list bytes) (elapsed : Z -> Z).

Definition threadFunc (self : nat) (a : answer) (w : pc) (g : vars) : effect vars thr :=
  match w with
  | Start arg => Go (Worker (For (atoi arg) 0)) g
  | For cnt j =>
      if j <? cnt then
        check a "pthread_mutex_lock"
          (match mutex_lock self (mtx g) with
           | Some m => Go (Worker (Locked cnt j)) (Vars (avail g) m (waiters g))
           | None => Wait
           end)
      else Go (Worker (Returned cnt)) g
  | Locked cnt j =>
      if avail g =? INT_MAX then Stop Undefined
      else Go (Worker (Added cnt j)) (Vars (avail g + 1) (mtx g) (waiters g))
  | Added cnt j =>
      check a "pthread_mutex_unlock"
        (match mutex_unlock self (mtx g) with
         | Some m => Go (Worker (Signal cnt j)) (Vars (avail g) m (waiters g))
         | None => Stop Undefined
         end)
  | Signal cnt j =>
      check a "pthread_cond_signal"
        (Go (Worker (For cnt (j + 1))) (Vars (avail g) (mtx g) (cond_signal (waiters g))))
  | Returned _ => Wait
  end.

Definition line (n : Z) : bytes :=
  str "T=" ++ dec (elapsed n) ++ str ": numConsumed=" ++ dec n ++ [NL].

Definition main_exec (self : nat) (a : answer) (m : main_pc) (g : vars) : effect vars thr :=
  match m with
  | Creating j tot =>
      match argv !! j with
      | Some arg =>
          let tot' := tot + atoi arg in
          if (tot' <? INT_MIN) || (INT_MAX <? tot') then Stop Undefined
          else check a "pthread_create" (Create (Main (Creating (S j) tot')) (Worker (Start arg)))
      | None => Go (Main (At Lock (Loc tot 0 false))) g
      end
  | At Lock l =>
      check a "pthread_mutex_lock"
        (match mutex_lock self (mtx g) with
         | Some m => Go (Main (At Test l)) (Vars (avail g) m (waiters g))
         | None => Wait
         end)
  | At Test l =>
      if avail g =? 0 then
        check a "pthread_cond_wait"
          (match mutex_unlock self (mtx g) with
           | Some m => Go (Main (At Waiting l)) (Vars (avail g) m (waiters g ++ [self]))
           | None => Stop Undefined
           end)
      else Go (Main (At Consume l)) g
  | At Waiting l =>
      if decide (self ∈ waiters g) then
        match a with
        | Spurious => Go (Main (At Waiting l)) (Vars (avail g) (mtx g) (filter (fun i => i <> self) (waiters g)))
        | _ => Wait
        end
      else
        match mutex_lock self (mtx g) with
        | Some m => Go (Main (At Test l)) (Vars (avail g) m (waiters g))
        | None => Wait
        end
  | At Consume l =>
      if 0 <? avail g then
        if numConsumed l =? INT_MAX then Stop Undefined
        else Go (Main (At Tell (Loc (totRequired l) (numConsumed l + 1) (fin l))))
                (Vars (avail g - 1) (mtx g) (waiters g))
      else Go (Main (At Unlock l)) g
  | At Tell l =>
      Say (Main (At Consume (Loc (totRequired l) (numConsumed l) (totRequired l <=? numConsumed l))))
          (line (numConsumed l))
  | At Unlock l =>
      check a "pthread_mutex_unlock"
        (match mutex_unlock self (mtx g) with
         | Some m => Go (Main (At (if fin l then Leave else Lock) l)) (Vars (avail g) m (waiters g))
         | None => Stop Undefined
         end)
  | At Leave l => Stop (Exited EXIT_SUCCESS)
  end.

Definition exec (self : nat) (a : answer) (ts : list thr) (t : thr) (g : vars) : effect vars thr :=
  match t with
  | Main m => main_exec self a m g
  | Worker w => threadFunc self a w g
  end.

Definition start_state : sys vars thr := Sys (Vars 0 None []) [Main (Creating 1 0)] [] None.
End Program.

(** ** The invariant *)

Section Correct.
Context (prog : bytes) (args : list bytes) (elapsed : Z -> Z).
Let total : Z := zsum atoi args.
Let ex := exec (prog :: args) elapsed.
Context (Hcounts : Forall (fun arg => 0 <= atoi arg) args) (Htotal : 0 < total <= INT_MAX).

Definition critical (t : thr) : bool :=
  match t with
  | Main (At (Test | Consume | Tell | Unlock) _) | Worker (Locked _ _ | Added _ _) => true
  | _ => false
  end.

(** The units a producer has to make, and those it has made. *)
Definition required (t : thr) : Z :=
  match t with
  | Main _ => 0
  | Worker (Start arg) => atoi arg
  | Worker (For cnt _ | Locked cnt _ | Added cnt _ | Signal cnt _ | Returned cnt) => cnt
  end.

Definition made (t : thr) : Z :=
  match t with
  | Main _ | Worker (Start _) => 0
  | Worker (For _ j | Locked _ j) => j
  | Worker (Added _ j | Signal _ j) => j + 1
  | Worker (Returned cnt) => cnt
  end.

Definition thr_ok (t : thr) : Prop :=
  match t with
  | Main _ => True
  | Worker (Start arg) => 0 <= atoi arg
  | Worker (For cnt j) => 0 <= j <= cnt
  | Worker (Locked cnt j | Added cnt j | Signal cnt j) => 0 <= j < cnt
  | Worker (Returned cnt) => 0 <= cnt
  end.

Definition consumed (m : main_pc) : Z := match m with Creating _ _ => 0 | At _ l => numConsumed l end.

Definition point_ok (p : point) (l : locals) : Prop :=
  match p with
  | Lock | Test | Waiting => numConsumed l < total /\ fin l = false
  | Consume | Unlock => fin l = (total <=? numConsumed l)
  | Tell => 1 <= numConsumed l
  | Leave => numConsumed l = total
  end.

Definition main_ok (m : main_pc) (ts : list thr) (w : cond) : Prop :=
  match m with
  | Creating j tot =>
      w = [] /\ exists k, j = S k /\ tot = zsum atoi (take k args) /\ zsum required ts = tot
  | At p l => totRequired l = total /\ zsum required ts = total /\ point_ok p l
  end.

(** The producer has announced a unit, but has still to signal. *)
Definition announcing (t : thr) : Prop :=
  match t with Worker (Added _ _ | Signal _ _) => True | _ => False end.

(** No wake-up is lost: main sleeps only while there is nothing to consume, unless a producer is
    about to wake it. *)
Definition sleep_ok (m : main_pc) (ts : list thr) (g : vars) : Prop :=
  waiters g = [] \/
  waiters g = [0%nat] /\ (exists l, m = At Waiting l) /\
  (0 < avail g -> exists i t, ts !! i = Some t /\ announcing t).

Definition lines (m : main_pc) : list bytes :=
  line elapsed <$> seqZ 1 (match m with At Tell l => numConsumed l - 1 | _ => consumed m end).

Definition end_ok (m : main_pc) (e : option ending) : Prop :=
  match e with
  | None | Some (Failed _ _) => True
  | Some (Exited status) => status = 0 /\ exists l, m = At Leave l
  | Some Undefined => False
  end.

Record inv_at (m : main_pc) (s : sys vars thr) : Prop := {
  inv_main : threads s !! 0%nat = Some (Main m);
  inv_one : forall i m', threads s !! i = Some (Main m') -> i = 0%nat;
  inv_thr : Forall thr_ok (threads s);
  inv_excl : excl critical (threads s) (mtx (shared s));
  inv_avail : 0 <= avail (shared s) /\ 0 <= consumed m /\
              zsum made (threads s) = avail (shared s) + consumed m;
  inv_main_ok : main_ok m (threads s) (waiters (shared s));
  inv_sleep : sleep_ok m (threads s) (shared s);
  inv_out : printed s = lines m;
  inv_end : end_ok m (ended s)
}.
Definition inv (s : sys vars thr) : Prop := exists m, inv_at m s.

Lemma made_required ts : Forall thr_ok ts -> zsum made ts <= zsum required ts.
Proof. induction 1 as [|[|[]] ts Hok _ IH]; simpl in *; lia. Qed.

Lemma required_le m ts w : main_ok m ts w -> zsum required ts <= total.
Proof.
  destruct m as [j tot|p l]; simpl; [|lia]. intros (_ & k & _ & -> & ->). unfold total.
  rewrite <- (take_drop k args) at 2. rewrite zsum_app.
  assert (Forall (fun arg => 0 <= atoi arg) (drop k args)) as Hd by by apply Forall_drop.
  cut (0 <= zsum atoi (drop k args)); [lia|]. induction Hd; simpl; lia.
Qed.

(** Two facts every step uses: main's units are bounded by what was asked for. *)
Lemma inv_bounds m s : inv_at m s -> avail (shared s) + consumed m <= total.
Proof.
  intros [_ _ Ht _ (_ & _ & <-) Hm _ _ _]. apply made_required in Ht. apply required_le in Hm. lia.
Qed.

Lemma sleep_update m ts g g' i t t' :
  sleep_ok m ts g -> ts !! i = Some t -> waiters g' = waiters g ->
  (announcing t -> announcing t') -> (0 < avail g' -> 0 < avail g \/ announcing t') ->
  sleep_ok m (<[i := t']> ts) g'.
Proof.
  intros [Hw|(Hw & Hm & Hs)] Hi Hw' Ht Ha; [left; congruence|right]. split; [congruence|]. split; [done|].
  intros Hpos. pose proof (lookup_lt_Some _ _ _ Hi) as Hlt.
  destruct (Ha Hpos) as [(k & t1 & Hk & Hann)%Hs|Hann].
  - destruct (decide (k = i)) as [->|Hne].
    + exists i, t'. rewrite list_lookup_insert_eq by done. split; [done|]. apply Ht. congruence.
    + exists k, t1. by rewrite list_lookup_insert_ne.
  - exists i, t'. by rewrite list_lookup_insert_eq.
Qed.

(** A producer goes from [w] to [w']. *)
Lemma worker_goes m g ts out i w w' g' :
  inv_at m (Sys g ts out None) -> ts !! i = Some (Worker w) ->
  thr_ok (Worker w') -> required (Worker w') = required (Worker w) ->
  avail g' = avail g + made (Worker w') - made (Worker w) -> 0 <= avail g' ->
  excl critical (<[i := Worker w']> ts) (mtx g') ->
  sleep_ok m (<[i := Worker w']> ts) g' -> (waiters g = [] -> waiters g' = []) ->
  inv_at m (Sys g' (<[i := Worker w']> ts) out None).
Proof.
  intros [H0 H1 Ht He (Ha & Hc & Hm) Hok Hs Ho Hend] Hi Hok' Hr Ha' Hpos He' Hs' Hw. cbn [shared threads printed ended] in *.
  assert (i <> 0%nat) as Hne by (intros ->; rewrite Hi in H0; discriminate).
  split; cbn [shared threads printed ended]; try done.
  - by rewrite list_lookup_insert_ne.
  - intros k m' Hk. destruct (decide (k = i)) as [->|].
    + rewrite list_lookup_insert_eq in Hk by (by eapply lookup_lt_Some). done.
    + rewrite list_lookup_insert_ne in Hk by done. by eapply H1.
  - by apply Forall_insert.
  - split; [done|]. split; [done|]. rewrite (zsum_insert _ _ _ _ _ Hi). lia.
  - destruct m as [j tot|p l]; cbn [main_ok] in *; rewrite (zsum_insert _ _ _ _ _ Hi), Hr.
    + destruct Hok as (? & k & ? & ? & ?). split; [auto|]. exists k. split_and!; try done. lia.
    + destruct Hok as (? & ? & ?). split_and!; try done. lia.
Qed.

Lemma worker_step m g ts out i a w s' :
  inv_at m (Sys g ts out None) -> ts !! i = Some (Worker w) ->
  perform i (threadFunc i a w g) (Sys g ts out None) = Some s' -> inv_at m s' \/
  exists e call, s' = Sys g ts out (Some (Failed e call)).
Proof.
  intros HI Hi. pose proof (inv_bounds _ _ HI) as Hb. simpl in Hb.
  pose proof HI as [H0 H1 Ht He (Ha & Hc & Hm) Hok Hs Ho Hend]. simpl in *.
  rewrite Forall_lookup in Ht. specialize (Ht _ _ Hi).
  unfold threadFunc, check. destruct w as [arg|cnt j|cnt j|cnt j|cnt j|cnt]; simpl in Ht.
  - intros [= <-]. left. eapply worker_goes; try done; simpl; [lia..| |].
    + by eapply excl_same.
    + by eapply sleep_update; eauto.
  - destruct (j <? cnt) eqn:E; z_bool.
    + destruct a as [|e|]; [|intros [= <-]; eauto|];
        destruct (mutex_lock i (mtx g)) as [m'|] eqn:El; simpl; intros [= <-]; left;
        (eapply worker_goes; try done; simpl; [lia..| |]; [by eapply excl_lock|by eapply sleep_update; eauto]).
    + intros [= <-]. left. eapply worker_goes; try done; simpl; [lia..| |].
      * by eapply excl_same.
      * by eapply sleep_update; eauto.
  - rewrite (proj2 (Z.eqb_neq _ _)).
    + intros [= <-]. left. eapply worker_goes; try done; simpl; [lia..| |].
      * by eapply excl_same.
      * by eapply sleep_update; eauto.
    + assert (zsum made (<[i := Worker (Added cnt j)]> ts) <= total) as Hlt.
      { etrans; [apply made_required, Forall_insert; [by apply HI|done]|].
        rewrite (zsum_insert _ _ _ _ _ Hi). apply required_le in Hok. simpl. lia. }
      rewrite (zsum_insert _ _ _ _ _ Hi) in Hlt. simpl in Hlt. lia.
  - destruct a as [|e|]; [|intros [= <-]; eauto|];
      rewrite (excl_unlock_ok critical ts (mtx g) i _ He Hi eq_refl); simpl; intros [= <-]; left;
      (eapply worker_goes; try done; simpl; [lia..| |];
       [eapply excl_unlock; try done; by apply (excl_unlock_ok critical ts (mtx g) i _ He Hi)|by eapply sleep_update; eauto]).
  - assert (sleep_ok m (<[i := Worker (For cnt (j + 1))]> ts) (Vars (avail g) (mtx g) (cond_signal (waiters g)))) as Hs'.
    { left. simpl. destruct Hs as [->|[-> _]]; done. }
    destruct a as [|e|]; [|intros [= <-]; eauto|]; intros [= <-]; left;
      (eapply worker_goes; try done; simpl; [lia..| |by intros ->]; by eapply excl_same).
  - done.
Qed.

Lemma required_main ts m m' :
  ts !! 0%nat = Some (Main m) -> zsum required (<[0%nat := Main m']> ts) = zsum required ts.
Proof. intros H0. rewrite (zsum_insert _ _ _ _ _ H0). simpl. lia. Qed.

(** Main goes from [m] to [m']. *)
Lemma main_goes m m' g g' ts out out' :
  inv_at m (Sys g ts out None) ->
  excl critical (<[0%nat := Main m']> ts) (mtx g') -> 0 <= avail g' -> 0 <= consumed m' ->
  avail g' + consumed m' = avail g + consumed m -> main_ok m' ts (waiters g') ->
  waiters g' = [] \/ (waiters g' = [0%nat] /\ (exists l, m' = At Waiting l) /\ avail g' = 0) ->
  out' = lines m' -> inv_at m' (Sys g' (<[0%nat := Main m']> ts) out' None).
Proof.
  intros [H0 H1 Ht He (Ha & Hc & Hm) Hok Hs Ho Hend] He' Ha' Hc' Heq Hok' Hw Hout.
  cbn [shared threads printed ended] in *. pose proof (lookup_lt_Some _ _ _ H0) as Hlt.
  split; cbn [shared threads printed ended]; try done.
  - by apply list_lookup_insert_eq.
  - intros i m1 Hi. destruct (decide (i = 0%nat)) as [->|]; [done|].
    rewrite list_lookup_insert_ne in Hi by done. by eapply H1.
  - by apply Forall_insert.
  - split; [done|]. split; [done|]. rewrite (zsum_insert _ _ _ _ _ H0). simpl. lia.
  - destruct m'; simpl in *; by rewrite (required_main _ _ _ H0).
  - destruct Hw as [Hw|(Hw & Hl & Hz)]; [by left|right]. split; [done|]. split; [done|]. lia.
Qed.

Lemma lines_snoc n : 0 <= n -> line elapsed <$> seqZ 1 (n + 1) = (line elapsed <$> seqZ 1 n) ++ [line elapsed (n + 1)].
Proof.
  intros Hn. rewrite seqZ_app by lia. rewrite fmap_app. f_equal. simpl. do 2 f_equal. lia.
Qed.

Lemma creating_step g ts out a j tot s' :
  inv_at (Creating j tot) (Sys g ts out None) ->
  perform 0 (main_exec (prog :: args) elapsed 0 a (Creating j tot) g) (Sys g ts out None) = Some s' ->
  inv s' \/ exists e call, s' = Sys g ts out (Some (Failed e call)).
Proof.
  intros HI. pose proof HI as [H0 H1 Ht He (Ha & Hc & Hm) Hok Hs Ho Hend].
  cbn [shared threads printed ended] in *. destruct Hok as (Hw & k & -> & -> & Hr).
  cbn [main_exec]. change ((prog :: args) !! S k) with (args !! k). destruct (args !! k) as [arg|] eqn:Ek.
  - assert (zsum atoi (take k args) + atoi arg = zsum atoi (take (S k) args)) as Hsum.
    { rewrite (take_S_r _ _ _ Ek), zsum_app. simpl. lia. }
    assert (0 <= atoi arg) as Harg by (rewrite Forall_lookup in Hcounts; by eapply Hcounts).
    assert (0 <= zsum atoi (take k args) <= total - atoi arg) as Hbound.
    { unfold total. rewrite <- (take_drop_middle _ _ _ Ek) at 3. rewrite zsum_app. simpl.
      assert (forall l, Forall (fun arg => 0 <= atoi arg) l -> 0 <= zsum atoi l) as Hnn.
      { induction 1; simpl; lia. }
      pose proof (Hnn _ (Forall_take _ k _ Hcounts)). pose proof (Hnn _ (Forall_drop _ (S k) _ Hcounts)). lia. }
    case_match eqn:Hov; [exfalso; unfold INT_MIN, INT_MAX in *; apply orb_true_iff in Hov; lia|].
    assert (inv (Sys g (<[0%nat := Main (Creating (S (S k)) (zsum atoi (take k args) + atoi arg))]> ts ++ [Worker (Start arg)]) out None)) as HI'.
    { eexists. pose proof (lookup_lt_Some _ _ _ H0) as Hlt.
      split; cbn [shared threads printed ended].
      - rewrite lookup_app_l by (by rewrite length_insert). by apply list_lookup_insert_eq.
      - intros i m1 [Hi|[_ Hi]]%lookup_app_Some; [|by apply list_lookup_singleton_Some in Hi as [_ ?]].
        destruct (decide (i = 0%nat)) as [->|]; [done|]. rewrite list_lookup_insert_ne in Hi by done. by eapply H1.
      - apply Forall_app. split; [by apply Forall_insert|]. by constructor.
      - apply excl_app; [|done]. by eapply excl_same.
      - rewrite zsum_app, (zsum_insert _ _ _ _ _ H0). simpl in *. lia.
      - split; [done|]. exists (S k). split; [done|]. split; [done|].
        rewrite zsum_app, (required_main _ _ _ H0). simpl. lia.
      - by left.
      - done.
      - done. }
    destruct a; simpl; intros [= <-]; [by left|right; eauto|by left].
  - intros [= <-]. left. eexists. apply lookup_ge_None in Ek.
    rewrite take_ge in * by done. eapply main_goes; try done; [by eapply excl_same| |by left].
    simpl. split_and!; try done; lia.
Qed.

Lemma at_step g ts out a p l s' :
  inv_at (At p l) (Sys g ts out None) ->
  perform 0 (main_exec (prog :: args) elapsed 0 a (At p l) g) (Sys g ts out None) = Some s' ->
  inv s' \/ exists e call, s' = Sys g ts out (Some (Failed e call)).
Proof.
  intros HI. pose proof (inv_bounds _ _ HI) as Hb. cbn [shared consumed] in Hb.
  pose proof HI as [H0 H1 Ht He (Ha & Hc & Hm) Hok Hs Ho Hend].
  cbn [shared threads printed ended main_ok consumed] in *. destruct Hok as (Htot & Hr & Hp).
  assert (p <> Waiting -> waiters g = []) as Hawake.
  { intros Hp'. destruct Hs as [|(_ & [l' [= -> _]] & _)]; done. }
  destruct p; cbn [main_exec point_ok] in *; unfold check.
  - specialize (Hawake ltac:(done)). destruct (mutex_lock 0 (mtx g)) as [m'|] eqn:El; destruct a; simpl;
      intros [= <-]; try (right; by eauto); left; eexists;
      (eapply main_goes; try done; [by eapply excl_lock|by left]).
  - specialize (Hawake ltac:(done)). destruct (avail g =? 0) eqn:Ez; z_bool.
    + rewrite (excl_unlock_ok critical ts (mtx g) 0 _ He H0 eq_refl), Hawake.
      destruct a; simpl; intros [= <-]; try (right; by eauto); left; eexists;
        (eapply main_goes; try done; [|right; by eauto]);
        (eapply excl_unlock; try done; by apply (excl_unlock_ok critical ts (mtx g) 0 _ He H0)).
    + intros [= <-]. left. eexists. eapply main_goes; try done; [by eapply excl_same| |by left].
      simpl. split_and!; try done. symmetry. destruct Hp as [? ->]. by apply Z.leb_gt.
  - destruct (decide (0%nat ∈ waiters g)) as [Hin|Hin].
    + destruct a; try done. simpl. intros [= <-]. left. eexists.
      eapply main_goes; try done; [by eapply excl_same|left].
      destruct Hs as [->|[-> _]]; by vm_compute.
    + assert (waiters g = []) as Hw. { destruct Hs as [|[Hw _]]; [done|]. rewrite Hw in Hin. set_solver. }
      destruct (mutex_lock 0 (mtx g)) as [m'|] eqn:El; simpl; [|done]. intros [= <-]. left. eexists.
      eapply main_goes; try done; [by eapply excl_lock|by left].
  - specialize (Hawake ltac:(done)). destruct (0 <? avail g) eqn:Ez; z_bool.
    + rewrite (proj2 (Z.eqb_neq _ _)) by lia. intros [= <-]. left. eexists.
      eapply main_goes; try done; simpl; [by eapply excl_same|lia|lia|lia|split_and!; try done; lia|by left|].
      rewrite Ho. unfold lines. simpl. do 2 f_equal. lia.
    + intros [= <-]. left. eexists. eapply main_goes; try done; [by eapply excl_same|by left].
  - specialize (Hawake ltac:(done)). intros [= <-]. left. eexists.
    eapply main_goes; try done; [by eapply excl_same| |by left|].
    + simpl. split_and!; try done. by rewrite Htot.
    + rewrite Ho. unfold lines. simpl. pose proof (lines_snoc (numConsumed l - 1)) as Hl.
      rewrite Z.sub_simpl_r in Hl. symmetry. apply Hl. lia.
  - specialize (Hawake ltac:(done)). rewrite (excl_unlock_ok critical ts (mtx g) 0 _ He H0 eq_refl).
    destruct a; simpl; intros [= <-]; try (right; by eauto); left; eexists;
      (eapply main_goes; try done;
       [eapply excl_unlock; try done; [by apply (excl_unlock_ok critical ts (mtx g) 0 _ He H0)|by destruct (fin l)]
       | |by left|by destruct (fin l)]);
      destruct (fin l) eqn:Ef; symmetry in Hp; z_bool; simpl; split_and!; try done; lia.
  - intros [= <-]. left. eexists (At Leave l). destruct HI. split; try done. simpl. eauto.
Qed.

Lemma inv_failed m g ts out e call :
  inv_at m (Sys g ts out None) -> inv_at m (Sys g ts out (Some (Failed e call))).
Proof. intros []. by split. Qed.

Lemma inv_step ok s s' : inv s -> step ex ok s s' -> inv s'.
Proof.
  intros [m HI] (Hend & i & a & t & _ & Hi & Hp)%step_inv.
  destruct s as [g ts out e]; simpl in Hend, Hi, Hp. subst e.
  assert (inv s' \/ exists e call, s' = Sys g ts out (Some (Failed e call))) as [|(e & call & ->)];
    [|done|exists m; by apply inv_failed].
  destruct t as [m'|w].
  - pose proof (inv_one _ _ HI _ _ Hi) as ->. pose proof (inv_main _ _ HI) as H0. simpl in H0.
    rewrite Hi in H0. injection H0 as ->.
    destruct m; [by eapply creating_step|by eapply at_step].
  - destruct (worker_step _ _ _ _ _ _ _ _ HI Hi Hp) as [|]; [left; by exists m|by right].
Qed.

Lemma inv_start : inv start_state.
Proof.
  exists (Creating 1 0). split; simpl; try done.
  - by intros [|i] m.
  - by repeat constructor.
  - split; [|done]. intros [|i] t; [|done]. by intros [= <-].
  - split; [done|]. by exists 0%nat.
  - by left.
Qed.

Definition idle (t : thr) : bool := match t with Worker (Returned _) | Main _ => true | _ => false end.

(** While the program has not ended, one of its threads can go on. *)
Lemma consumer_progress s : inv s -> ended s = None -> exists i s', run_one ex i Fine s = Some s'.
Proof.
  intros [m HI] He. pose proof HI as [H0 H1 Ht Hx (Ha & Hc & Hm) Hok Hs _ _].
  destruct (mtx (shared s)) as [o|] eqn:Eo.
  - destruct (excl_owner _ _ _ Hx) as (t & Hi & Hcr). exists o. eapply run_one_enabled; [done..|].
    unfold ex, exec, main_exec, threadFunc, check. rewrite Eo. simpl. rewrite Nat.eqb_refl.
    destruct t as [[|[] ?]|[]]; try done; by repeat case_match.
  - destruct (decide (Forall (fun t => idle t = true) (threads s))) as [HF|HF].
    + exists 0%nat. eapply run_one_enabled; [done|exact H0|]. unfold ex, exec, main_exec, check. rewrite Eo. simpl.
      destruct m as [j tot|[] l]; try done; try by repeat case_match.
      case_decide as Hin; [|done]. exfalso. destruct Hs as [Hw|(_ & _ & Hs)]; [rewrite Hw in Hin; set_solver|].
      assert (zsum made (threads s) = zsum required (threads s)) as Heq.
      { clear -HF. induction HF as [|[|[]] ts Ht _ IH]; simpl in *; try done; lia. }
      destruct Hok as (_ & Hr & Hp & _). destruct Hs as (k & t & Hk & Hann); [simpl in *; lia|].
      rewrite Forall_lookup in HF. specialize (HF _ _ Hk). by destruct t as [|[]].
    + apply not_Forall_Exists in HF; [|apply _]. apply Exists_exists in HF as (t & Hin & Hr).
      apply list_elem_of_lookup in Hin as [i Hi]. exists i. eapply run_one_enabled; [done..|].
      unfold ex, exec, threadFunc, check. rewrite Eo. simpl.
      destruct t as [|w]; [by destruct (Hr eq_refl)|]. 
      destruct w; try (by destruct (Hr eq_refl)); clear Hr; by repeat case_match.
Qed.

(** *** What is left to do *)

Definition mu_main (m : main_pc) (g : vars) : Z :=
  match m with
  | Creating j _ => zsum (fun arg => 6 * atoi arg + 3) (drop (Nat.pred j) args) + 12 * total + 7
  | At p l =>
      12 * (total - numConsumed l) +
      match p with
      | Lock => 6
      | Test => 5
      | Waiting => if decide (0%nat ∈ waiters g) then 4 else 6
      | Consume => if 0 <? avail g then 4 else 8
      | Tell => 9
      | Unlock => 7
      | Leave => 1
      end
  end.

Definition mu_thr (t : thr) : Z :=
  match t with
  | Main _ => 0
  | Worker (Start arg) => 6 * atoi arg + 2
  | Worker (For cnt j) => 6 * (cnt - j) + 1
  | Worker (Locked cnt j) => 6 * (cnt - j)
  | Worker (Added cnt j) => 6 * (cnt - j) - 1
  | Worker (Signal cnt j) => 6 * (cnt - j) - 2
  | Worker (Returned _) => 0
  end.

Definition mu (s : sys vars thr) : Z :=
  zsum mu_thr (threads s) + match ended s with None => 1 | Some _ => 0 end +
  match threads s !! 0%nat with Some (Main m) => mu_main m (shared s) | _ => 0 end.

Lemma mu_nonneg s : inv s -> 0 <= mu s.
Proof.
  intros [m HI]. unfold mu. rewrite (inv_main _ _ HI). pose proof (inv_bounds _ _ HI) as Hb.
  destruct HI as [_ _ Ht _ (Ha & Hc & _) _ _ _ _].
  assert (0 <= zsum mu_thr (threads s)).
  { induction Ht as [|[|[]] ts Hok _ IH]; simpl in *; lia. }
  assert (0 <= mu_main m (shared s)); [|destruct (ended s); lia].
  destruct m as [j tot|p l]; simpl in *.
  - assert (Forall (fun arg => 0 <= atoi arg) (drop (Nat.pred j) args)) as Hd by by apply Forall_drop.
    cut (0 <= zsum (fun arg => 6 * atoi arg + 3) (drop (Nat.pred j) args)); [lia|].
    induction Hd; simpl; lia.
  - destruct p; try lia; case_match; lia.
Qed.

Lemma mu_worker i w g :
  thr_ok (Worker w) ->
  match threadFunc i Fine w g with
  | Go (Worker w') g' =>
      waiters g' = waiters g /\ mu_thr (Worker w') < mu_thr (Worker w) \/
      waiters g' = cond_signal (waiters g) /\ mu_thr (Worker w') + 3 <= mu_thr (Worker w)
  | Wait | Stop _ => True
  | _ => False
  end.
Proof.
  unfold threadFunc, check. intros Hok. destruct w; repeat case_match; simplify_eq; try done; z_bool; simpl in *;
    first [left; split; [done|lia]|right; split; [done|lia]].
Qed.

Lemma mu_at p l g :
  (waiters g = [] \/ waiters g = [0%nat] /\ p = Waiting) -> 0 <= avail g -> avail g + numConsumed l <= total ->
  (p = Leave -> numConsumed l = total) -> (p = Unlock -> fin l = true -> numConsumed l = total) ->
  match main_exec (prog :: args) elapsed 0 Fine (At p l) g with
  | Go (Main m') g' => mu_main m' g' < mu_main (At p l) g
  | Say (Main m') _ => mu_main m' g < mu_main (At p l) g
  | Wait | Stop _ => True
  | _ => False
  end.
Proof.
  intros Hw Ha Hb Hl Hu. unfold main_exec, check.
  destruct p; repeat (case_match; simplify_eq; try done); z_bool; simpl; repeat case_match; z_bool; try lia; try done.
  exfalso. clear -n. set_solver.
Qed.

Lemma mu_main_change m g g' :
  (forall l, m = At Consume l -> avail g' = avail g) ->
  (waiters g' = waiters g -> mu_main m g' = mu_main m g) /\ mu_main m g' <= mu_main m g + 2.
Proof.
  intros Ha. destruct m as [j tot|[] l]; simpl; try lia.
  - split; [by intros ->|]. repeat case_decide; lia.
  - specialize (Ha _ eq_refl). rewrite Ha. split; [done|]. lia.
Qed.

Lemma consumer_mu_step s s' : inv s -> step ex fine s s' -> mu s' < mu s.
Proof.
  intros [m HI] (Hend & i & a & t & -> & Hi & Hp)%step_inv. pose proof (inv_bounds _ _ HI) as Hb.
  destruct HI as [H0 H1 Ht Hx (Ha & Hc & Hm) Hok Hs _ _].
  destruct s as [g ts out e]; cbn [shared threads printed ended] in *. subst e. unfold mu.
  cbn [shared threads printed ended]. rewrite H0. destruct t as [m'|w].
  - pose proof (H1 _ _ Hi) as ->. rewrite H0 in Hi. injection Hi as <-.
    pose proof (lookup_lt_Some _ _ _ H0) as Hlt. unfold ex, exec in Hp. destruct m as [j tot|p l].
    + destruct Hok as (_ & k & -> & _). unfold main_exec, check in Hp. change ((prog :: args) !! S k) with (args !! k) in Hp.
      destruct (args !! k) as [arg|] eqn:Ek.
      * case_match; injection Hp as <-; cbn [shared threads printed ended]; [rewrite H0; lia|].
        rewrite zsum_app, (zsum_insert _ _ _ _ _ H0), lookup_app_l by (by rewrite length_insert).
        rewrite list_lookup_insert_eq by done. simpl. rewrite (drop_S _ _ _ Ek). simpl. lia.
      * injection Hp as <-. cbn [shared threads printed ended]. rewrite (zsum_insert _ _ _ _ _ H0).
        rewrite list_lookup_insert_eq by done. simpl. apply lookup_ge_None in Ek. rewrite drop_ge by done. simpl. lia.
    + destruct Hok as (_ & _ & Hpt). simpl in Hb.
      assert (waiters g = [] \/ waiters g = [0%nat] /\ p = Waiting) as Hw.
      { destruct Hs as [|(? & [l' [= -> ->]] & _)]; auto. }
      assert (p = Leave -> numConsumed l = total) as Hl by (by intros ->).
      assert (p = Unlock -> fin l = true -> numConsumed l = total) as Hu.
      { intros -> Hf. simpl in Hpt. rewrite Hf in Hpt. symmetry in Hpt. z_bool. lia. }
      pose proof (mu_at p l g Hw Ha Hb Hl Hu) as Hat.
      destruct (main_exec _ _ _ _ (At p l) g) as [[m'|w'] g'|?|[m'|w'] out'| |en]; try done;
        injection Hp as <-; cbn [shared threads printed ended];
        rewrite ?(zsum_insert _ _ _ _ _ H0), ?list_lookup_insert_eq, ?H0 by done; cbn [mu_thr]; lia.
  - rewrite Forall_lookup in Ht. pose proof (mu_worker i w g (Ht _ _ Hi)) as Hw. unfold ex, exec in Hp.
    assert (i <> 0%nat) as Hne by (intros ->; rewrite H0 in Hi; discriminate).
    destruct (threadFunc i Fine w g) as [[m'|w'] g'| | | |ending] eqn:Ef; try done; injection Hp as <-;
      cbn [shared threads printed ended]; [|rewrite H0; lia].
    rewrite (zsum_insert _ _ _ _ _ Hi), list_lookup_insert_ne, H0 by done.
    cut (mu_main m g' + mu_thr (Worker w') < mu_main m g + mu_thr (Worker w)); [lia|].
    assert ((forall l, m = At Consume l -> avail g' = avail g)) as Hav.
    { intros l ->. destruct (critical (Worker w)) eqn:Ecr.
      - destruct (excl_only _ _ _ 0%nat i _ _ Hx H0 Hi eq_refl Ecr). done.
      - unfold threadFunc, check in Ef. destruct w; repeat case_match; by simplify_eq. }
    destruct (mu_main_change m g g' Hav) as [Hsame Hle]. destruct Hw as [[Hw ?]|[_ ?]]; [|lia].
    rewrite (Hsame Hw). lia.
Qed.

(** C9: the consumer gets every unit, once.  For counts that are not negative and whose sum is
    positive and at most [INT_MAX], whatever the interleaving, the spurious wake-ups and the calls
    that fail: no wake-up is lost, so the program is never stuck; without spurious wake-ups a run
    makes at most [18 * total + 3 * n + 8] steps for [n] producers; and when the program exits, it
    has printed the lines of the units [1 .. total], in order, unless a call failed and ended
    it. *)
Theorem consumer_gets_all :
  (forall s, rtc (step ex any) start_state s ->
     match ended s with
     | None => exists i s', run_one ex i Fine s = Some s'
     | Some (Exited status) => status = EXIT_SUCCESS /\ printed s = line elapsed <$> seqZ 1 total
     | Some (Failed _ _) => True
     | Some Undefined => False
     end) /\
  (forall n s, nsteps (step ex fine) n start_state s ->
     Z.of_nat n <= 18 * total + 3 * Z.of_nat (length args) + 8).
Proof.
  split.
  - intros s Hs. assert (inv s) as HI by (revert Hs; apply rtc_invariant; [intros ??; apply inv_step|apply inv_start]).
    destruct (ended s) as [[st| |]|] eqn:E; [..|by apply consumer_progress]; destruct HI as [m [_ _ _ _ _ Hok _ Ho Hend]];
      rewrite E in Hend; try done.
    destruct Hend as [-> [l ->]]. split; [done|]. rewrite Ho. unfold lines. simpl.
    destruct Hok as (_ & _ & Hl). simpl in Hl. by rewrite Hl.
  - intros n s Hn.
    assert (mu start_state = 18 * total + 3 * Z.of_nat (length args) + 8) as <-.
    { transitivity (0 + 1 + (zsum (fun arg => 6 * atoi arg + 3) args + 12 * total + 7)); [reflexivity|].
      assert (zsum (fun arg => 6 * atoi arg + 3) args = 6 * total + 3 * Z.of_nat (length args)) as ->; [|lia].
      unfold total. clear. induction args as [|x l IH]; simpl in *; lia. }
    refine (nsteps_zbounded_inv _ inv mu n start_state s mu_nonneg _ inv_start Hn).
    intros a b HI Hab. split; [by eapply inv_step|by apply consumer_mu_step].
Qed.
End Correct.

(** ** Runs *)

(** Two producers, of one unit and of two; main sleeps twice. *)
Definition consume_run : list (nat * answer) :=
  (fun i => (i, Fine)) <$>
    (repeat 0 5 ++ repeat 1 4 ++ [2; 2] ++ [1] ++ repeat 2 3 ++ repeat 0 8 ++ [0; 0] ++ repeat 2 4 ++ repeat 0 7)%nat.

Lemma consumer_gets_all_witness :
  exists s, run (exec [str "prod_condvar"; str "1"; str "2"] id) consume_run start_state = Some s /\
    ended s = Some (Exited 0) /\
    printed s = [str "T=1: numConsumed=1" ++ [NL]; str "T=2: numConsumed=2" ++ [NL]; str "T=3: numConsumed=3" ++ [NL]].
Proof.
  destruct (run (exec [str "prod_condvar"; str "1"; str "2"] id) consume_run start_state) as [s|] eqn:E;
    [|vm_compute in E; discriminate E].
  exists s. split; [done|]. assert (ended s = Some (Exited 0)) as He by (vm_compute in E; by injection E as <-).
  split; [exact He|].
  assert (rtc (step (exec [str "prod_condvar"; str "1"; str "2"] id) any) start_state s) as Hrun.
  { refine (run_rtc _ any _ _ _ _ E). by apply Forall_true. }
  destruct (consumer_gets_all (str "prod_condvar") [str "1"; str "2"] id) as [Hall _]; [by_decide|by_decide|].
  specialize (Hall s Hrun). rewrite He in Hall. rewrite (proj2 Hall). by vm_compute.
Defined.

(** With nothing to produce, main waits for ever. *)
Lemma nothing_produced_hangs :
  exists s, rtc (step (exec [str "prod_condvar"] id) fine) start_state s /\ ended s = None /\
    forall i, run_one (exec [str "prod_condvar"] id) i Fine s = None.
Proof.
  destruct (run (exec [str "prod_condvar"] id) (repeat (0%nat, Fine) 3) start_state) as [s|] eqn:E;
    [|vm_compute in E; discriminate E].
  exists s. split; [refine (run_rtc _ fine _ _ _ _ E); by repeat constructor|].
  vm_compute in E. injection E as <-. split; [done|]. by intros [|i].
Qed.
