(* ===== verification/Joining.v ===== *)
(** * Threads that are joined, and initialised once

    thread_multijoin.c and one_time_init.c (tlpi-dist/threads).  In the first, a thread is made for
    every command-line argument, sleeps that long, and main joins each as it ends; the time a sleep
    takes is any time.  A step is one call or one access to the variables under the mutex.  The
    counters never exceed the number of threads. *)

From Stdlib Require Import ZArith Lia String Ascii.
From S2P Require Import Prelude CString Kernel GetNum Threads.

(** ** thread_multijoin.c *)

Module Multi.

Inductive tstate := TS_ALIVE | TS_TERMINATED | TS_JOINED.
#[export] Instance tstate_eq_dec : EqDecision tstate.
Proof. solve_decision. Defined.

(** The array [thread], and the globals. *)
Record info := Info { tid : nat; state : tstate; sleepTime : Z }.
Record vars := Vars {
  totThreads : Z; numLive : Z; numUnjoined : Z; infos : list info; threadMutex : mutex; threadDied : cond }.

Definition set_infos (f : list info -> list info) (g : vars) : vars :=
  Vars (totThreads g) (numLive g) (numUnjoined g) (f (infos g)) (threadMutex g) (threadDied g).
Definition set_mutex (m : mutex) (g : vars) : vars :=
  Vars (totThreads g) (numLive g) (numUnjoined g) (infos g) m (threadDied g).
Definition set_died (c : cond) (g : vars) : vars :=
  Vars (totThreads g) (numLive g) (numUnjoined g) (infos g) (threadMutex g) c.
Definition set_state (idx : nat) (st : tstate) : list info -> list info :=
  alter (fun i => Info (tid i) st (sleepTime i)) idx.

(** Where the thread with the argument [idx] is. *)
Inductive wpoint := Sleep | Tell | Acquire | CountUp | Mark | Release | Signal | Returned.
#[export] Instance wpoint_eq_dec : EqDecision wpoint.
Proof. solve_decision. Defined.
Record pc := Wk { at_ : wpoint; idx : nat }.

Inductive point := Loop | Test | Waiting | Scan (idx : nat) | Join (idx : nat) | Reap (idx : nat) | Unlock | Leave.
Inductive main_pc :=
| Begin
| Fill (idx : nat)
| Spawn (idx : nat)
| Store (idx new : nat)
| At (p : point).

Abbreviation thr := (thread main_pc pc).

(** The argument of a thread; [getInt] ends the program when it is none. *)
Definition sleep_of (arg : bytes) : option Z :=
  match (getInt (Some arg) GN_NONNEG None (Proc tt 0 [])).1 with Ret v => Some v | _ => None end.

Definition terminating_line (idx : nat) : bytes :=
  str "Thread " ++ dec (Z.of_nat idx) ++ str " terminating" ++ [NL].
Definition reap_line (idx : nat) (live : Z) : bytes :=
  str "Reaped thread " ++ dec (Z.of_nat idx) ++ str " (numLive=" ++ dec live ++ str ")" ++ [NL].

Section Program.
Context (argv : list bytes).

Definition threadFunc (self : nat) (a : answer) (w : pc) (g : vars) : effect vars thr :=
  let go p := Worker (Wk p (idx w)) in
  match at_ w with
  | Sleep => match infos g !! idx w with Some _ => Go (go Tell) g | None => Stop Undefined end
  | Tell => Say (go Acquire) (terminating_line (idx w))
  | Acquire =>
      check a "pthread_mutex_lock"
        (match mutex_lock self (threadMutex g) with Some m => Go (go CountUp) (set_mutex m g) | None => Wait end)
  | CountUp =>
      Go (go Mark) (Vars (totThreads g) (numLive g) (numUnjoined g + 1) (infos g) (threadMutex g) (threadDied g))
  | Mark => Go (go Release) (set_infos (set_state (idx w) TS_TERMINATED) g)
  | Release =>
      check a "pthread_mutex_unlock"
        (match mutex_unlock self (threadMutex g) with
         | Some m => Go (go Signal) (set_mutex m g) | None => Stop Undefined end)
  | Signal => check a "pthread_cond_signal" (Go (go Returned) (set_died (cond_signal (threadDied g)) g))
  | Returned => Wait
  end.

Definition has_returned (ts : list thr) (t : nat) : bool :=
  match ts !! t with Some (Worker (Wk Returned _)) => true | _ => false end.

Definition bad_usage : bool :=
  (Z.of_nat (length argv) <? 2) || (strcmp (default [] (argv !! 1%nat)) (str "--help") =? 0).

Definition main_exec (self : nat) (a : answer) (ts : list thr) (m : main_pc) (g : vars) : effect vars thr :=
  match m with
  | Begin =>
      if bad_usage then Stop (Exited EXIT_FAILURE)
      else check a "calloc" (Go (Main (Fill 0)) (set_infos (fun _ => replicate (length argv - 1) (Info 0 TS_ALIVE 0)) g))
  | Fill idx =>
      match argv !! S idx with
      | Some arg =>
          match sleep_of arg with
          | Some v => Go (Main (Spawn idx)) (set_infos (alter (fun i => Info (tid i) TS_ALIVE v) idx) g)
          | None => Stop (Exited EXIT_FAILURE)
          end
      | None =>
          let n := Z.of_nat (length argv) - 1 in
          Go (Main (At Loop)) (Vars n n (numUnjoined g) (infos g) (threadMutex g) (threadDied g))
      end
  | Spawn idx => check a "pthread_create" (Create (Main (Store idx (length ts))) (Worker (Wk Sleep idx)))
  | Store idx new => Go (Main (Fill (S idx))) (set_infos (alter (fun i => Info new (state i) (sleepTime i)) idx) g)
  | At Loop =>
      if 0 <? numLive g then
        check a "pthread_mutex_lock"
          (match mutex_lock self (threadMutex g) with Some m => Go (Main (At Test)) (set_mutex m g) | None => Wait end)
      else Go (Main (At Leave)) g
  | At Test =>
      if numUnjoined g =? 0 then
        check a "pthread_cond_wait"
          (match mutex_unlock self (threadMutex g) with
           | Some m => Go (Main (At Waiting)) (set_died (threadDied g ++ [self]) (set_mutex m g))
           | None => Stop Undefined
           end)
      else Go (Main (At (Scan 0))) g
  | At Waiting =>
      if decide (self ∈ threadDied g) then
        match a with
        | Spurious => Go (Main (At Waiting)) (set_died (filter (fun i => i <> self) (threadDied g)) g)
        | _ => Wait
        end
      else
        match mutex_lock self (threadMutex g) with Some m => Go (Main (At Test)) (set_mutex m g) | None => Wait end
  | At (Scan idx) =>
      if Z.of_nat idx <? totThreads g then
        match infos g !! idx with
        | Some i => Go (Main (At (if decide (state i = TS_TERMINATED) then Join idx else Scan (S idx)))) g
        | None => Stop Undefined
        end
      else Go (Main (At Unlock)) g
  | At (Join idx) =>
      match infos g !! idx with
      | Some i =>
          check a "pthread_join"
            (if has_returned ts (tid i) then
               Go (Main (At (Reap idx))) (Vars (totThreads g) (numLive g - 1) (numUnjoined g - 1)
                                             (set_state idx TS_JOINED (infos g)) (threadMutex g) (threadDied g))
             else Wait)
      | None => Stop Undefined
      end
  | At (Reap idx) => Say (Main (At (Scan (S idx)))) (reap_line idx (numLive g))
  | At Unlock =>
      check a "pthread_mutex_unlock"
        (match mutex_unlock self (threadMutex g) with
         | Some m => Go (Main (At Loop)) (set_mutex m g) | None => Stop Undefined end)
  | At Leave => Stop (Exited EXIT_SUCCESS)
  end.

Definition exec (self : nat) (a : answer) (ts : list thr) (t : thr) (g : vars) : effect vars thr :=
  match t with
  | Main m => main_exec self a ts m g
  | Worker w => threadFunc self a w g
  end.

Definition start_state : sys vars thr := Sys (Vars 0 0 0 [] None []) [Main Begin] [] None.
End Program.
(** *** The invariant *)

Section Correct.
Context (prog : bytes) (args : list bytes).
Context (Husage : bad_usage (prog :: args) = false) (Hparse : Forall (fun arg => sleep_of arg <> None) args).
Let n : nat := length args.
Let ex := exec (prog :: args).

Definition critical (t : thr) : bool :=
  match t with
  | Main (At (Test | Scan _ | Join _ | Reap _ | Unlock)) => true
  | Worker (Wk (CountUp | Mark | Release) _) => true
  | _ => false
  end.

(** What the state of a thread says about where it is. *)
Definition state_ok (p : wpoint) (st : tstate) : Prop :=
  match p with
  | Sleep | Tell | Acquire | CountUp | Mark => st = TS_ALIVE
  | Release | Signal => st = TS_TERMINATED
  | Returned => st <> TS_ALIVE
  end.

Definition wk_ok (m : main_pc) (ws : list pc) (g : vars) : Prop :=
  forall i w, ws !! i = Some w -> idx w = i /\ exists inf, infos g !! i = Some inf /\
    state_ok (at_ w) (state inf) /\ (tid inf = S i \/ exists new, m = Store i new).

Definition terminated (i : info) : Z := match state i with TS_TERMINATED => 1 | _ => 0 end.
Definition joined (i : info) : Z := match state i with TS_JOINED => 1 | _ => 0 end.
(** Counted, but not marked yet. *)
Definition counted (w : pc) : Z := match at_ w with Mark => 1 | _ => 0 end.

(** A thread that main will be told of. *)
Definition announcing (w : pc) : Prop := match at_ w with Mark | Release | Signal => True | _ => False end.

Definition sleep_ok (m : main_pc) (ws : list pc) (g : vars) : Prop :=
  threadDied g = [] \/
  threadDied g = [0%nat] /\ m = At Waiting /\ (0 < numUnjoined g -> exists i w, ws !! i = Some w /\ announcing w).

(** None of the threads before [k] waits to be joined. *)
Definition scanned (k : nat) (g : vars) : Prop :=
  forall j inf, (j < k)%nat -> infos g !! j = Some inf -> state inf <> TS_TERMINATED.

Definition point_ok (p : point) (g : vars) : Prop :=
  match p with
  | Loop => True
  | Test | Waiting => 0 < numLive g
  | Scan k => scanned k g /\ (k <= n)%nat
  | Join k => scanned k g /\ exists inf, infos g !! k = Some inf /\ state inf = TS_TERMINATED
  | Reap k => scanned (S k) g /\ (k < n)%nat
  | Unlock => numUnjoined g = 0
  | Leave => numLive g = 0
  end.

Definition main_ok (m : main_pc) (k : nat) (g : vars) : Prop :=
  match m with
  | Begin => k = O /\ infos g = []
  | Fill i => k = i /\ length (infos g) = n /\ (i <= n)%nat /\ zsum joined (infos g) = 0
  | Spawn i => k = i /\ length (infos g) = n /\ (i < n)%nat /\ zsum joined (infos g) = 0
  | Store i new => k = S i /\ new = S i /\ length (infos g) = n /\ (i < n)%nat /\ zsum joined (infos g) = 0
  | At p => k = n /\ length (infos g) = n /\ totThreads g = Z.of_nat n /\
            numLive g = Z.of_nat n - zsum joined (infos g) /\ point_ok p g
  end.

(** Lines of threads that were joined, in the order [order]. *)
Definition is_reap (line : bytes) : bool := bool_decide (take 6 line = str "Reaped").
Definition reap_lines (order : list nat) : list bytes := imap (fun i k => reap_line k (Z.of_nat n - 1 - Z.of_nat i)) order.

(** [order] are the threads joined, and what was printed of them; the last line may be missing. *)
Record order_ok (m : main_pc) (g : vars) (out : list bytes) (order : list nat) : Prop := {
  order_nodup : NoDup order;
  order_joined : forall i, i ∈ order <-> exists inf, infos g !! i = Some inf /\ state inf = TS_JOINED;
  order_count : zsum joined (infos g) = Z.of_nat (length order);
  order_lines : match m with
    | At (Reap k) => exists order', order = order' ++ [k] /\ filter is_reap out = reap_lines order'
    | _ => filter is_reap out = reap_lines order
    end
}.

Definition end_ok (m : main_pc) (e : option ending) : Prop :=
  match e with
  | None | Some (Failed _ _) => True
  | Some (Exited status) => status = 0 /\ m = At Leave
  | Some Undefined => False
  end.

Record inv_at (m : main_pc) (ws : list pc) (s : sys vars thr) : Prop := {
  inv_threads : threads s = Main m :: (Worker <$> ws);
  inv_wk : wk_ok m ws (shared s);
  inv_alive : forall i inf, (length ws <= i)%nat -> infos (shared s) !! i = Some inf -> state inf = TS_ALIVE;
  inv_count : numUnjoined (shared s) = zsum terminated (infos (shared s)) + zsum counted ws;
  inv_excl : excl critical (threads s) (threadMutex (shared s));
  inv_main : main_ok m (length ws) (shared s);
  inv_sleep : sleep_ok m ws (shared s);
  inv_order : exists order, order_ok m (shared s) (printed s) order;
  inv_end : end_ok m (ended s)
}.
Definition inv (s : sys vars thr) : Prop := exists m ws, inv_at m ws s.

Lemma worker_insert m ws i w : <[S i := Worker w]> (Main m :: (Worker <$> ws)) = (Main m :: (Worker <$> <[i := w]> ws) : list thr).
Proof. simpl. by rewrite list_fmap_insert. Qed.

Lemma not_reap_terminating k : is_reap (terminating_line k) = false.
Proof. done. Qed.
Lemma is_reap_reap k l : is_reap (reap_line k l) = true.
Proof. done. Qed.

(** A worker goes on without a change of the states of the threads. *)
Lemma multi_worker_goes m ws g ts out i w w' g' out' :
  inv_at m ws (Sys g ts out None) -> ws !! i = Some w ->
  infos g' = infos g -> totThreads g' = totThreads g -> numLive g' = numLive g ->
  idx w' = idx w -> (forall st, state_ok (at_ w) st -> state_ok (at_ w') st) ->
  numUnjoined g' = numUnjoined g + counted w' - counted w ->
  (numUnjoined g' = numUnjoined g \/ exists t, ts !! S i = Some t /\ critical t = true) ->
  excl critical (<[S i := Worker w']> ts) (threadMutex g') ->
  sleep_ok m (<[i := w']> ws) g' ->
  filter is_reap out' = filter is_reap out ->
  inv_at m (<[i := w']> ws) (Sys g' (<[S i := Worker w']> ts) out' None).
Proof.
  intros [Hts Hwk Hal Hcnt Hex Hm Hsl [order Ho] Hend] Hi Einf Etot Elive Hidx Hst Hnum Hcr Hex' Hsl' Hout.
  cbn [shared threads printed ended] in *. split; cbn [shared threads printed ended]; try done.
  - by rewrite Hts, worker_insert.
  - intros j w1 Hj. rewrite Einf. destruct (decide (j = i)) as [->|Hne].
    + rewrite list_lookup_insert_eq in Hj by (by eapply lookup_lt_Some). injection Hj as <-.
      destruct (Hwk _ _ Hi) as (? & inf & ? & ? & ?). split; [congruence|]. exists inf. split_and!; auto.
    + rewrite list_lookup_insert_ne in Hj by done. by apply Hwk.
  - intros j inf. rewrite length_insert, Einf. apply Hal.
  - rewrite Hnum, Hcnt, Einf, (zsum_insert _ _ _ _ _ Hi). lia.
  - rewrite length_insert.
    assert (forall p, m = At p -> point_ok p g -> point_ok p g') as Hpt.
    { intros p -> Hp. destruct p; cbn [point_ok] in *; unfold scanned in *; rewrite ?Einf, ?Elive; try done.
      destruct Hcr as [->|(t & Ht & Hc)]; [done|]. exfalso.
      assert (0%nat = S i) as Habs; [|discriminate Habs].
      eapply (excl_only critical ts (threadMutex g) 0 (S i)); [done| |exact Ht| |exact Hc]; [by rewrite Hts|done]. }
    destruct m; cbn [main_ok] in *; rewrite ?Einf, ?Etot, ?Elive; try done.
    destruct Hm as (? & ? & ? & ? & Hp). split_and!; try done. by apply (Hpt _ eq_refl).
  - exists order. destruct Ho as [H1 H2 H3 H4]. split; rewrite ?Einf, ?Hout; done.
Qed.

Lemma multi_sleep_update m ws g g' i w w' :
  sleep_ok m ws g -> ws !! i = Some w -> threadDied g' = threadDied g ->
  (announcing w -> announcing w') -> (numUnjoined g' = numUnjoined g \/ announcing w') ->
  sleep_ok m (<[i := w']> ws) g'.
Proof.
  intros [Hd|(Hd & Hm & Hs)] Hi Hd' Ht Ha; [left; congruence|right]. split; [congruence|]. split; [done|].
  intros Hpos. pose proof (lookup_lt_Some _ _ _ Hi) as Hlt. destruct Ha as [Heq|Ha].
  - rewrite Heq in Hpos. destruct (Hs Hpos) as (j & w1 & Hj & Hann). destruct (decide (j = i)) as [->|Hne].
    + exists i, w'. rewrite list_lookup_insert_eq by done. split; [done|]. apply Ht. congruence.
    + exists j, w1. by rewrite list_lookup_insert_ne.
  - exists i, w'. by rewrite list_lookup_insert_eq.
Qed.
Lemma alter_insert {A} (f : A -> A) (l : list A) (i : nat) x : l !! i = Some x -> alter f i l = <[i := f x]> l.
Proof. revert i. induction l as [|y l IH]; intros [|i] E; simpl in *; try done; [by injection E as ->|f_equal; by apply IH]. Qed.

(** A worker marks its thread as terminated. *)
Lemma worker_marks m ws g ts out i w :
  inv_at m ws (Sys g ts out None) -> ws !! i = Some w -> at_ w = Mark ->
  inv_at m (<[i := Wk Release (idx w)]> ws)
    (Sys (set_infos (set_state (idx w) TS_TERMINATED) g) (<[S i := Worker (Wk Release (idx w))]> ts) out None).
Proof.
  intros [Hts Hwk Hal Hcnt Hex Hm Hsl [order Ho] Hend] Hi Hat. cbn [shared threads printed ended] in *.
  destruct (Hwk _ _ Hi) as (Hidx & inf & Hinf & Hst & Htid). rewrite Hat in Hst. cbn [state_ok] in Hst.
  pose proof (lookup_lt_Some _ _ _ Hinf) as Hlt. pose proof (lookup_lt_Some _ _ _ Hi) as Hltw.
  assert (ts !! S i = Some (Worker w)) as Hti by (by rewrite Hts; simpl; rewrite list_lookup_fmap, Hi).
  assert (critical (Worker w) = true) as Hcrit by (destruct w; cbn in Hat; by subst).
  assert (critical (Main m) = false) as Hmain.
  { destruct (critical (Main m)) eqn:E; [|done]. assert (0%nat = S i) as Habs; [|discriminate Habs].
    eapply (excl_only critical ts (threadMutex g) 0 (S i)); [done| |exact Hti|exact E|exact Hcrit]. by rewrite Hts. }
  set (inf' := Info (tid inf) TS_TERMINATED (sleepTime inf)).
  assert (set_state (idx w) TS_TERMINATED (infos g) = <[i := inf']> (infos g)) as Hset.
  { rewrite Hidx. unfold set_state. by rewrite (alter_insert _ _ _ _ Hinf). }
  assert (zsum joined (<[i := inf']> (infos g)) = zsum joined (infos g)) as Hj.
  { rewrite (zsum_insert _ _ _ _ _ Hinf). unfold joined. rewrite Hst. cbn. lia. }
  split; cbn [shared threads printed ended set_infos infos threadMutex numUnjoined]; rewrite ?Hset; try done.
  - by rewrite Hts, worker_insert.
  - intros j w1 Hj1. cbn [set_infos infos]. rewrite Hset. destruct (decide (j = i)) as [->|Hne].
    + rewrite list_lookup_insert_eq in Hj1 by done. injection Hj1 as <-. split; [done|].
      exists inf'. rewrite list_lookup_insert_eq by done. by split_and!.
    + rewrite list_lookup_insert_ne in Hj1 by done. rewrite list_lookup_insert_ne by done. by apply Hwk.
  - intros j inf1. rewrite length_insert. intros Hge. rewrite list_lookup_insert_ne by lia. by apply Hal.
  - rewrite Hcnt, (zsum_insert _ _ _ _ _ Hinf), (zsum_insert _ _ _ _ _ Hi). unfold terminated, counted. rewrite Hst, Hat. cbn. lia.
  - eapply excl_same; [done|exact Hti|by rewrite Hcrit].
  - rewrite length_insert. destruct m as [| | | |p]; cbn [main_ok set_infos infos totThreads numLive] in *; rewrite ?Hset, ?length_insert, ?Hj; try done.
    + destruct Hm as [E _]. lia.
    + destruct Hm as (? & ? & ? & ? & Hp). split_and!; try done. by destruct p.
  - eapply multi_sleep_update; [done|exact Hi|done|done|by left].
  - exists order. destruct Ho as [H1 H2 H3 H4]. split; cbn [set_infos infos]; rewrite ?Hset, ?Hj; try done.
    intros k. rewrite H2. destruct (decide (k = i)) as [->|Hne]; [|by rewrite list_lookup_insert_ne].
    rewrite list_lookup_insert_eq by done. split; intros (x & Hx & Hjx); [rewrite Hinf in Hx; injection Hx as <-; congruence|].
    by injection Hx as <-.
Qed.

Lemma multi_worker_step m ws g ts out i a w s' :
  inv_at m ws (Sys g ts out None) -> ws !! i = Some w ->
  perform (S i) (threadFunc (S i) a w g) (Sys g ts out None) = Some s' ->
  inv s' \/ exists e call, s' = Sys g ts out (Some (Failed e call)).
Proof.
  intros HI Hi Hp. pose proof HI as [Hts Hwk Hal Hcnt Hex Hm Hsl _ _]. cbn [shared threads printed ended] in *.
  assert (ts !! S i = Some (Worker w)) as Hti by (by rewrite Hts; simpl; rewrite list_lookup_fmap, Hi).
  destruct (Hwk _ _ Hi) as (Hidx & inf & Hinf & _). destruct w as [p k]. cbn [idx at_] in *. subst k.
  assert (forall m' ws' s1, inv_at m' ws' s1 -> s' = s1 -> inv s' \/ exists e call, s' = Sys g ts out (Some (Failed e call))) as Hdone.
  { intros m' ws' s1 H1 ->. left. by exists m', ws'. }
  destruct p; cbv beta iota zeta delta [threadFunc idx at_ check] in Hp.
  - rewrite Hinf in Hp. injection Hp as <-. eapply Hdone; [|done].
    eapply (multi_worker_goes _ _ _ _ _ _ _ (Wk Tell i) g); try done; [cbn; lia|by left|by eapply excl_same|by eapply multi_sleep_update; [..|left]].
  - injection Hp as <-. eapply Hdone; [|done].
    eapply (multi_worker_goes _ _ _ _ _ _ _ (Wk Acquire i) g); try done; [cbn; lia|by left|by eapply excl_same|by eapply multi_sleep_update; [..|left]|].
    rewrite filter_app. change (filter is_reap [terminating_line i]) with (@nil bytes). by rewrite app_nil_r.
  - destruct a; [|injection Hp as <-; right; by eauto|];
      (destruct (mutex_lock (S i) (threadMutex g)) as [mx|] eqn:El; [|discriminate Hp]; injection Hp as <-; eapply Hdone; [|done];
       eapply (multi_worker_goes _ _ _ _ _ _ _ (Wk CountUp i)); try done; cbn; [lia|by left|by eapply excl_lock|by eapply multi_sleep_update; [..|left]]).
  - injection Hp as <-. eapply Hdone; [|done].
    eapply (multi_worker_goes _ _ _ _ _ _ _ (Wk Mark i)); try done; cbn; [lia|right; eexists; split; [exact Hti|done]|by eapply excl_same|].
    eapply multi_sleep_update; [done|exact Hi|done|done|by right].
  - injection Hp as <-. eapply Hdone; [|done]. exact (worker_marks _ _ _ _ _ _ _ HI Hi eq_refl).
  - destruct a; [|injection Hp as <-; right; by eauto|];
      (pose proof (excl_unlock_ok critical ts (threadMutex g) (S i) _ Hex Hti eq_refl) as Hu;
       rewrite Hu in Hp; injection Hp as <-; eapply Hdone; [|done];
       eapply (multi_worker_goes _ _ _ _ _ _ _ (Wk Signal i)); try done; cbn; [lia|by left|by eapply excl_unlock|by eapply multi_sleep_update; [..|left]]).
  - assert (sleep_ok m (<[i := Wk Returned i]> ws) (set_died (cond_signal (threadDied g)) g)) as Hsl'.
    { left. cbn. by destruct Hsl as [->|[-> _]]. }
    destruct a; [|injection Hp as <-; right; by eauto|];
      (injection Hp as <-; eapply Hdone; [|done];
       eapply (multi_worker_goes _ _ _ _ _ _ _ (Wk Returned i)); try done; cbn; [by intros ? ->|lia|by left|by eapply excl_same]).
  - discriminate Hp.
Qed.
(** *** Steps of main *)

(** The states of the threads are the same in both. *)
Definition same_states (l l' : list info) : Prop := state <$> l' = state <$> l.

Lemma same_lookup l l' i inf' : same_states l l' -> l' !! i = Some inf' -> exists inf, l !! i = Some inf /\ state inf = state inf'.
Proof.
  intros E Hi. assert ((state <$> l') !! i = Some (state inf')) as H by (by rewrite list_lookup_fmap, Hi).
  rewrite E, list_lookup_fmap in H. destruct (l !! i) as [inf|]; [|done]. exists inf. by injection H.
Qed.

Lemma same_zsum l l' (f : tstate -> Z) : same_states l l' -> zsum (fun i => f (state i)) l' = zsum (fun i => f (state i)) l.
Proof.
  intros E. assert (forall l, zsum (fun i => f (state i)) l = zsum f (state <$> l)) as H.
  { induction l0 as [|x l0 IH]; simpl in *; [done|by rewrite IH]. }
  by rewrite !H, E.
Qed.

Lemma same_counts l l' : same_states l l' ->
  zsum terminated l' = zsum terminated l /\ zsum joined l' = zsum joined l /\ length l' = length l.
Proof.
  intros E. split; [|split].
  - exact (same_zsum l l' (fun st => match st with TS_TERMINATED => 1 | _ => 0 end) E).
  - exact (same_zsum l l' (fun st => match st with TS_JOINED => 1 | _ => 0 end) E).
  - by rewrite <- (length_fmap state l), <- (length_fmap state l'), E.
Qed.

Lemma same_alter l i f : (forall x, l !! i = Some x -> state (f x) = state x) -> same_states l (alter f i l).
Proof.
  intros Hf. unfold same_states. revert i Hf. induction l as [|x l IH]; intros [|i] Hf; simpl; try done.
  - f_equal. by apply Hf.
  - f_equal. apply IH. intros y Hy. by apply Hf.
Qed.

Lemma order_same m m' g g' out out' order :
  order_ok m g out order -> same_states (infos g) (infos g') ->
  match m' with
  | At (Reap k) => exists order', order = order' ++ [k] /\ filter is_reap out' = reap_lines order'
  | _ => filter is_reap out' = reap_lines order
  end -> order_ok m' g' out' order.
Proof.
  intros [H1 H2 H3 _] E Hl. destruct (same_counts _ _ E) as (_ & Ej & _). split; try done; [|congruence].
  intros i. rewrite H2. split; intros (inf & Hi & Hs).
  - destruct (same_lookup (infos g') (infos g) i inf) as (inf' & ? & ?); [by symmetry|done|]. exists inf'. split; congruence.
  - destruct (same_lookup _ _ i inf E Hi) as (inf' & ? & ?). exists inf'. split; congruence.
Qed.

Lemma multi_main_goes m m' ws g g' ts out out' :
  inv_at m ws (Sys g ts out None) ->
  same_states (infos g) (infos g') -> numUnjoined g' = numUnjoined g ->
  excl critical (<[0%nat := Main m']> ts) (threadMutex g') ->
  main_ok m' (length ws) g' -> wk_ok m' ws g' ->
  threadDied g' = [] \/ (threadDied g' = [0%nat] /\ m' = At Waiting /\ numUnjoined g' = 0) ->
  (forall order, order_ok m g out order -> match m' with
     | At (Reap k) => exists order', order = order' ++ [k] /\ filter is_reap out' = reap_lines order'
     | _ => filter is_reap out' = reap_lines order
     end) ->
  inv_at m' ws (Sys g' (<[0%nat := Main m']> ts) out' None).
Proof.
  intros [Hts Hwk Hal Hcnt Hex Hm Hsl [order Ho] Hend] E Hnum Hex' Hm' Hwk' Hsl' Hlines.
  cbn [shared threads printed ended] in *. destruct (same_counts _ _ E) as (Et & _ & _).
  split; cbn [shared threads printed ended]; try done.
  - by rewrite Hts.
  - intros i inf Hge Hi. destruct (same_lookup _ _ _ _ E Hi) as (inf' & Hi' & <-). by eapply Hal.
  - congruence.
  - destruct Hsl' as [|(? & ? & ?)]; [by left|right]. split_and!; try done. lia.
  - exists order. eapply order_same; [done..|]. by apply Hlines.
Qed.

(** Where main has not begun to wait, nobody waits. *)
Lemma nobody_waits m ws g : sleep_ok m ws g -> m <> At Waiting -> threadDied g = [].
Proof. by intros [|(_ & -> & _)]. Qed.

Lemma wk_ok_keep m m' ws g : wk_ok m ws g -> (forall i new, m = Store i new -> False) -> wk_ok m' ws g.
Proof.
  intros Hwk Hm i w Hi. destruct (Hwk i w Hi) as (? & inf & ? & ? & [?|(new & E)]); [|by destruct (Hm _ _ E)].
  split; [done|]. exists inf. auto.
Qed.
Lemma joined_bound l : 0 <= zsum joined l <= Z.of_nat (length l).
Proof.
  split; [apply zsum_nonneg; intros x; unfold joined; by destruct (state x)|].
  rewrite <- (Z.mul_1_l (Z.of_nat _)). apply zsum_le, Forall_forall. intros x _. unfold joined. by destruct (state x).
Qed.

(** No worker is between its count and its mark while main is in its critical region. *)
Lemma nobody_counts m ws g ts out e :
  inv_at m ws (Sys g ts out e) -> critical (Main m) = true -> zsum counted ws = 0.
Proof.
  intros [Hts _ _ _ Hex _ _ _ _] Hc. cbn [shared threads] in *. rewrite (zsum_eq counted ws 0); [lia|].
  apply Forall_lookup. intros i w Hi. unfold counted. destruct (at_ w) eqn:E; try done. exfalso.
  assert (0%nat = S i) as Habs; [|discriminate Habs].
  eapply (excl_only critical ts (threadMutex g) 0 (S i)); [done|by rewrite Hts| |exact Hc|].
  - rewrite Hts. simpl. by rewrite list_lookup_fmap, Hi.
  - destruct w as [p k]. cbn in E. by subst p.
Qed.

(** After a whole scan there is nobody left to join. *)
Lemma all_scanned m ws g ts out e :
  inv_at m ws (Sys g ts out e) -> critical (Main m) = true -> scanned (length (infos g)) g -> numUnjoined g = 0.
Proof.
  intros HI Hc Hs. pose proof (nobody_counts _ _ _ _ _ _ HI Hc) as H0. destruct HI as [_ _ _ Hcnt _ _ _ _ _].
  cbn [shared] in Hcnt. rewrite Hcnt, H0, (zsum_eq terminated (infos g) 0); [lia|].
  apply Forall_lookup. intros i inf Hi. specialize (Hs i inf (lookup_lt_Some _ _ _ Hi) Hi). unfold terminated.
  by destruct (state inf).
Qed.

Lemma reap_lines_snoc order k : reap_lines (order ++ [k]) = reap_lines order ++ [reap_line k (Z.of_nat n - 1 - Z.of_nat (length order))].
Proof. unfold reap_lines. rewrite imap_app. cbn. by rewrite Nat.add_0_r. Qed.

(** A step of main that leaves the array as it is. *)
Lemma at_goes p p' ws g g' ts out out' :
  inv_at (At p) ws (Sys g ts out None) ->
  infos g' = infos g -> totThreads g' = totThreads g -> numLive g' = numLive g -> numUnjoined g' = numUnjoined g ->
  excl critical (<[0%nat := Main (At p')]> ts) (threadMutex g') ->
  point_ok p' g' ->
  threadDied g' = [] \/ (threadDied g' = [0%nat] /\ p' = Waiting /\ numUnjoined g = 0) ->
  (forall order, order_ok (At p) g out order -> match p' with
     | Reap k => exists order', order = order' ++ [k] /\ filter is_reap out' = reap_lines order'
     | _ => filter is_reap out' = reap_lines order
     end) ->
  inv (Sys g' (<[0%nat := Main (At p')]> ts) out' None).
Proof.
  intros HI Ei Et El En Hex Hpt Hd Hl. exists (At p'), ws. pose proof HI as [_ Hwk _ _ _ Hm _ _ _].
  cbn [shared] in *. eapply multi_main_goes; [exact HI|by unfold same_states; rewrite Ei|done|done| | | |done].
  - destruct Hm as (? & ? & ? & ? & _). cbn [main_ok]. rewrite Ei, Et, El. by split_and!.
  - intros i w Hi. rewrite Ei. refine (wk_ok_keep (At p) (At p') ws g Hwk _ i w Hi). done.
  - destruct Hd as [|(? & -> & ?)]; [by left|right]. split_and!; congruence.
Qed.

Lemma multi_at_step p ws g ts out a s' :
  (forall k, p <> Join k) -> inv_at (At p) ws (Sys g ts out None) ->
  perform 0 (main_exec (prog :: args) 0 a ts (At p) g) (Sys g ts out None) = Some s' ->
  inv s' \/ exists e call, s' = Sys g ts out (Some (Failed e call)).
Proof.
  intros Hnj HI Hp. pose proof HI as [Hts Hwk Hal Hcnt Hex Hm Hsl _ _]. cbn [shared threads printed ended] in *.
  destruct Hm as (Hk & Hlen & Htot & Hlive & Hpt). pose proof (joined_bound (infos g)) as Hjb.
  assert (ts !! 0%nat = Some (Main (At p))) as H0 by (by rewrite Hts).
  assert (p <> Waiting -> threadDied g = []) as Hawake.
  { intros Hp'. eapply nobody_waits; [exact Hsl|]. by intros [= ->]. }
  assert (forall order, order_ok (At p) g out order -> (forall k, p <> Reap k) -> filter is_reap out = reap_lines order) as Hlines.
  { intros order [_ _ _ H4] Hnr. destruct p; try done. by destruct (Hnr idx0). }
  destruct p; cbv beta iota zeta delta [main_exec check] in Hp; cbn [point_ok] in Hpt.
  - specialize (Hawake ltac:(done)). destruct (0 <? numLive g) eqn:El; z_bool.
    + destruct a; [|injection Hp as <-; right; by eauto|];
        (destruct (mutex_lock 0 (threadMutex g)) as [mx|] eqn:Em; [|discriminate Hp]; injection Hp as <-; left;
         eapply at_goes; [exact HI|done..|by eapply excl_lock|done|by left|intros; by apply Hlines]).
    + injection Hp as <-. left. eapply at_goes; [exact HI|done..|by eapply excl_same| |by left|intros; by apply Hlines].
      cbn [point_ok]. rewrite Hlen in Hjb. lia.
  - specialize (Hawake ltac:(done)). destruct (numUnjoined g =? 0) eqn:Eu; z_bool.
    + pose proof (excl_unlock_ok critical ts (threadMutex g) 0 _ Hex H0 eq_refl) as Hu.
      destruct a; [|injection Hp as <-; right; by eauto|];
        (rewrite Hu in Hp; injection Hp as <-; left;
         eapply at_goes; [exact HI|done..|by eapply excl_unlock|done|right; cbn; by rewrite Hawake|intros; by apply Hlines]).
    + injection Hp as <-. left. eapply at_goes; [exact HI|done..|by eapply excl_same| |by left|intros; by apply Hlines].
      split; [intros j inf Hj; lia|lia].
  - destruct (decide (0%nat ∈ threadDied g)) as [Hin|Hin].
    + destruct a; [discriminate Hp|discriminate Hp|]. injection Hp as <-. left.
      eapply at_goes; [exact HI|done..|by eapply excl_same|done|left|intros; by apply Hlines].
      cbn. destruct Hsl as [->|[-> _]]; by vm_compute.
    + assert (threadDied g = []) as Hd. { destruct Hsl as [|[Hd _]]; [done|]. rewrite Hd in Hin. set_solver. }
      destruct (mutex_lock 0 (threadMutex g)) as [mx|] eqn:Em; [|discriminate Hp]. injection Hp as <-. left.
      eapply at_goes; [exact HI|done..|by eapply excl_lock|done|by left|intros; by apply Hlines].
  - specialize (Hawake ltac:(done)). destruct Hpt as [Hsc Hle]. destruct (Z.of_nat idx0 <? totThreads g) eqn:Ei; z_bool.
    + destruct (lookup_lt_is_Some_2 (infos g) idx0) as [inf Hinf]; [lia|]. rewrite Hinf in Hp.
      injection Hp as <-. left. destruct (decide (state inf = TS_TERMINATED)) as [Ht|Ht];
        (eapply at_goes; [exact HI|done..|by eapply excl_same| |by left|intros; by apply Hlines]); cbn [point_ok].
      * split; [done|]. by exists inf.
      * split; [|lia]. intros j inf' Hj Hj'. destruct (decide (j = idx0)) as [->|]; [congruence|]. apply (Hsc j inf'); [lia|done].
    + injection Hp as <-. left. eapply at_goes; [exact HI|done..|by eapply excl_same| |by left|intros; by apply Hlines].
      eapply all_scanned; [exact HI|done|]. replace (length (infos g)) with idx0 by lia. done.
  - by destruct (Hnj idx0).
  - specialize (Hawake ltac:(done)). destruct Hpt as [Hsc Hlt]. injection Hp as <-. left.
    eapply at_goes; [exact HI|done..|by eapply excl_same|done|by left|]. intros order [_ _ Hc (order' & -> & Hl)].
    rewrite filter_app, Hl, reap_lines_snoc. f_equal. rewrite length_app in Hc. cbn [length] in Hc.
    assert (numLive g = Z.of_nat n - 1 - Z.of_nat (length order')) as -> by lia. reflexivity.
  - specialize (Hawake ltac:(done)). pose proof (excl_unlock_ok critical ts (threadMutex g) 0 _ Hex H0 eq_refl) as Hu.
    destruct a; [|injection Hp as <-; right; by eauto|];
      (rewrite Hu in Hp; injection Hp as <-; left;
       eapply at_goes; [exact HI|done..|by eapply excl_unlock|done|by left|intros; by apply Hlines]).
  - injection Hp as <-. left. exists (At Leave), ws. destruct HI. by split.
Qed.

(** Main has joined the thread [k]. *)
Lemma main_joins k ws g ts out :
  inv_at (At (Join k)) ws (Sys g ts out None) -> ws !! k = Some (Wk Returned k) ->
  inv_at (At (Reap k)) ws
    (Sys (Vars (totThreads g) (numLive g - 1) (numUnjoined g - 1) (set_state k TS_JOINED (infos g)) (threadMutex g) (threadDied g))
         (<[0%nat := Main (At (Reap k))]> ts) out None).
Proof.
  intros [Hts Hwk Hal Hcnt Hex Hm Hsl [order [O1 O2 O3 O4]] _] Hw. cbn [shared threads printed ended] in *.
  destruct Hm as (Hk & Hlen & Htot & Hlive & Hsc & inf & Hinf & Hst).
  pose proof (lookup_lt_Some _ _ _ Hinf) as Hlt. set (inf' := Info (tid inf) TS_JOINED (sleepTime inf)).
  assert (set_state k TS_JOINED (infos g) = <[k := inf']> (infos g)) as -> by (unfold set_state; by rewrite (alter_insert _ _ _ _ Hinf)).
  assert (zsum joined (<[k := inf']> (infos g)) = zsum joined (infos g) + 1) as Hj.
  { rewrite (zsum_insert _ _ _ _ _ Hinf). unfold joined. rewrite Hst. cbn. lia. }
  assert (forall i x, (<[k := inf']> (infos g)) !! i = Some x <-> (i = k /\ x = inf') \/ (i <> k /\ infos g !! i = Some x)) as Hlook.
  { intros i x. destruct (decide (i = k)) as [->|Hne].
    - rewrite list_lookup_insert_eq by done. split; [intros [= <-]; auto|by intros [[_ ->]|[? _]]].
    - rewrite list_lookup_insert_ne by done. split; [auto|by intros [[? _]|[_ ?]]]. }
  split; cbn [shared threads printed ended infos numUnjoined threadMutex]; try done.
  - by rewrite Hts.
  - intros i w Hi. destruct (Hwk i w Hi) as (Hidx & x & Hx & Hso & [Ht|[? ?]]); [|done]. split; [done|].
    destruct (decide (i = k)) as [->|Hne].
    + exists inf'. rewrite Hlook. rewrite Hw in Hi. injection Hi as <-. rewrite Hinf in Hx. injection Hx as <-. split_and!; auto.
      by cbn.
    + exists x. cbn [infos]. rewrite Hlook. split_and!; auto.
  - intros i x Hge [[-> _]|[_ Hx]]%Hlook; [lia|by eapply Hal].
  - rewrite Hcnt, (zsum_insert _ _ _ _ _ Hinf). unfold terminated. rewrite Hst. cbn. lia.
  - eapply excl_same; [done|by rewrite Hts|done].
  - cbn [main_ok infos totThreads numLive]. rewrite length_insert, Hj. split_and!; try done; try lia. split; [|lia].
    intros i x Hi [[-> ->]|[Hne Hx]]%Hlook; [done|]. apply (Hsc i x); [lia|done].
  - left. cbn. by eapply nobody_waits.
  - exists (order ++ [k]). split; cbn [infos].
    + apply NoDup_app. split_and!; [done| |by repeat constructor; set_solver].
      intros i Hi ->%list_elem_of_singleton. apply O2 in Hi as (x & Hx & Hs). congruence.
    + intros i. rewrite elem_of_app, list_elem_of_singleton, O2. split.
      * intros [(x & Hx & Hs)| ->]; [exists x|exists inf']; rewrite Hlook; [|auto].
        split; [right|done]. split; [|done]. intros ->. congruence.
      * intros (x & [[-> _]|[_ Hx]]%Hlook & Hs); [by right|left; by exists x].
    + rewrite Hj, O3, length_app. cbn [length]. lia.
    + by exists order.
Qed.

Lemma join_step k ws g ts out a s' :
  inv_at (At (Join k)) ws (Sys g ts out None) ->
  perform 0 (main_exec (prog :: args) 0 a ts (At (Join k)) g) (Sys g ts out None) = Some s' ->
  inv s' \/ exists e call, s' = Sys g ts out (Some (Failed e call)).
Proof.
  intros HI Hp. pose proof HI as [Hts Hwk _ _ _ Hm _ _ _]. cbn [shared threads] in *.
  destruct Hm as (Hk & Hlen & _ & _ & _ & inf & Hinf & _).
  pose proof (lookup_lt_Some _ _ _ Hinf) as Hlt. destruct (lookup_lt_is_Some_2 ws k) as [w Hw]; [lia|].
  destruct (Hwk _ _ Hw) as (Hidx & inf1 & Hinf1 & _ & Htid). rewrite Hinf in Hinf1. injection Hinf1 as <-.
  destruct Htid as [Htid|[? ?]]; [|done]. cbv beta iota zeta delta [main_exec check] in Hp. rewrite Hinf in Hp.
  assert (has_returned ts (tid inf) = true -> ws !! k = Some (Wk Returned k)) as Hret.
  { unfold has_returned. rewrite Htid, Hts. simpl. rewrite list_lookup_fmap, Hw. simpl.
    destruct w as [[] iw]; try done. cbn [idx] in Hidx. by subst. }
  destruct a; [|injection Hp as <-; right; by eauto|]; (destruct (has_returned ts (tid inf)); [|discriminate Hp]);
    injection Hp as <-; left; exists (At (Reap k)), ws; exact (main_joins _ _ _ _ _ HI (Hret eq_refl)).
Qed.

(** *** Steps of main that make the threads *)

Lemma lookup_arg i : (prog :: args) !! S i = args !! i.
Proof. done. Qed.

Lemma zsum_replicate {A} (f : A -> Z) k x : f x = 0 -> zsum f (replicate k x) = 0.
Proof. intros H. induction k as [|k IH]; simpl; [done|]. by rewrite H, IH. Qed.

Lemma main_begins ws g ts out :
  inv_at Begin ws (Sys g ts out None) ->
  inv_at (Fill 0) ws (Sys (set_infos (fun _ => replicate n (Info 0 TS_ALIVE 0)) g) (<[0%nat := Main (Fill 0)]> ts) out None).
Proof.
  intros [Hts Hwk Hal Hcnt Hex Hm Hsl [order [O1 O2 O3 O4]] _]. cbn [shared threads printed ended] in *.
  destruct Hm as (Hk & Hinf). apply nil_length_inv in Hk as ->. rewrite Hinf in *. cbn in O3, Hcnt.
  assert (order = []) as -> by (apply nil_length_inv; lia). set (x := Info 0 TS_ALIVE 0).
  assert (forall i y, replicate n x !! i = Some y -> state y = TS_ALIVE) as Hrep by (by intros i y [-> _]%lookup_replicate).
  split; cbn [shared threads printed ended set_infos infos numUnjoined threadMutex]; try done.
  - by rewrite Hts.
  - intros i y _. apply Hrep.
  - by rewrite zsum_replicate.
  - eapply excl_same; [done|by rewrite Hts|done].
  - cbn [main_ok infos set_infos]. rewrite length_replicate, zsum_replicate by done. split_and!; try done. lia.
  - left. by eapply nobody_waits.
  - exists []. split; cbn [infos set_infos]; try done; [|by rewrite zsum_replicate].
    intros i. split; [set_solver|]. intros (y & Hy & Hs). apply Hrep in Hy. congruence.
Qed.

Lemma main_spawns i ws g ts out :
  inv_at (Spawn i) ws (Sys g ts out None) ->
  inv_at (Store i (length ts)) (ws ++ [Wk Sleep i])
    (Sys g (<[0%nat := Main (Store i (length ts))]> ts ++ [Worker (Wk Sleep i)]) out None).
Proof.
  intros [Hts Hwk Hal Hcnt Hex Hm Hsl [order Ho] _]. cbn [shared threads printed ended] in *.
  destruct Hm as (Hk & Hlen & Hlt & Hj). assert (length ts = S i) as El by (rewrite Hts; cbn; rewrite length_fmap; lia).
  split; cbn [shared threads printed ended]; try done.
  - rewrite Hts. cbn. by rewrite fmap_app.
  - intros k w [Hw|[Hge Hw]]%lookup_app_Some.
    + destruct (Hwk k w Hw) as (? & inf & ? & ? & [?|[? ?]]); [|done]. split; [done|]. exists inf. auto.
    + apply list_lookup_singleton_Some in Hw as [? <-]. assert (k = i) as -> by lia. split; [done|].
      destruct (lookup_lt_is_Some_2 (infos g) i) as [inf Hinf]; [lia|]. exists inf. split; [done|].
      split; [by eapply (Hal i); [lia|]|right; by exists (length ts)].
  - intros k inf. rewrite length_app. cbn. intros Hge. apply Hal. lia.
  - rewrite Hcnt, zsum_app. cbn. lia.
  - apply excl_app; [|done]. eapply excl_same; [done|by rewrite Hts|done].
  - cbn [main_ok]. rewrite length_app. cbn. split_and!; try done; lia.
  - left. by eapply nobody_waits.
  - exists order. destruct Ho as [O1 O2 O3 O4]. by split.
Qed.

Lemma main_fills i ws g ts out v :
  inv_at (Fill i) ws (Sys g ts out None) -> (i < n)%nat ->
  inv_at (Spawn i) ws (Sys (set_infos (alter (fun x => Info (tid x) TS_ALIVE v) i) g) (<[0%nat := Main (Spawn i)]> ts) out None).
Proof.
  intros HI Hlt. pose proof HI as [Hts Hwk Hal _ Hex Hm Hsl _ _]. cbn [shared threads] in *.
  destruct Hm as (Hk & Hlen & _ & Hj).
  assert (same_states (infos g) (alter (fun x => Info (tid x) TS_ALIVE v) i (infos g))) as Es.
  { apply same_alter. intros x Hx. symmetry. eapply (Hal i); [lia|done]. }
  destruct (same_counts _ _ Es) as (_ & Ej & El).
  eapply multi_main_goes; [exact HI|exact Es|done|eapply excl_same; [done|by rewrite Hts|done]| | | |].
  - cbn [main_ok infos set_infos]. rewrite Ej, El. by split_and!.
  - intros k w Hw. cbn [infos set_infos]. pose proof (lookup_lt_Some _ _ _ Hw).
    rewrite list_lookup_alter_ne by lia. by apply (wk_ok_keep (Fill i) (Spawn i) ws g Hwk).
  - left. by eapply nobody_waits.
  - by intros order [_ _ _ ?].
Qed.

Lemma main_stores i new ws g ts out :
  inv_at (Store i new) ws (Sys g ts out None) ->
  inv_at (Fill (S i)) ws (Sys (set_infos (alter (fun x => Info new (state x) (sleepTime x)) i) g) (<[0%nat := Main (Fill (S i))]> ts) out None).
Proof.
  intros HI. pose proof HI as [Hts Hwk Hal _ Hex Hm Hsl _ _]. cbn [shared threads] in *.
  destruct Hm as (Hk & -> & Hlen & Hlt & Hj).
  assert (same_states (infos g) (alter (fun x => Info (S i) (state x) (sleepTime x)) i (infos g))) as Es by by apply same_alter.
  destruct (same_counts _ _ Es) as (_ & Ej & El).
  eapply multi_main_goes; [exact HI|exact Es|done|eapply excl_same; [done|by rewrite Hts|done]| | | |].
  - cbn [main_ok infos set_infos]. rewrite Ej, El. split_and!; try done; lia.
  - intros k w Hw. cbn [infos set_infos]. destruct (Hwk k w Hw) as (Hidx & inf & Hinf & Hso & Ht). split; [done|].
    destruct (decide (k = i)) as [->|Hne].
    + exists (Info (S i) (state inf) (sleepTime inf)). rewrite list_lookup_alter_eq, Hinf. auto.
    + exists inf. rewrite list_lookup_alter_ne by done. split_and!; try done. left. destruct Ht as [|(? & [= ? ?])]; congruence.
  - left. by eapply nobody_waits.
  - by intros order [_ _ _ ?].
Qed.

Lemma main_starts ws g ts out :
  inv_at (Fill n) ws (Sys g ts out None) ->
  inv_at (At Loop) ws (Sys (Vars (Z.of_nat n) (Z.of_nat n) (numUnjoined g) (infos g) (threadMutex g) (threadDied g))
                           (<[0%nat := Main (At Loop)]> ts) out None).
Proof.
  intros HI. pose proof HI as [Hts Hwk Hal _ Hex Hm Hsl _ _]. cbn [shared threads] in *. destruct Hm as (Hk & Hlen & _ & Hj).
  eapply multi_main_goes; [exact HI|done|done|eapply excl_same; [done|by rewrite Hts|done]| | | |].
  - cbn [main_ok infos totThreads numLive]. rewrite Hj. split_and!; try done. lia.
  - intros k w Hw. by apply (wk_ok_keep (Fill n) (At Loop) ws g Hwk).
  - left. by eapply nobody_waits.
  - by intros order [_ _ _ ?].
Qed.

Lemma multi_creating_step m ws g ts out a s' :
  (forall p, m <> At p) -> inv_at m ws (Sys g ts out None) ->
  perform 0 (main_exec (prog :: args) 0 a ts m g) (Sys g ts out None) = Some s' ->
  inv s' \/ exists e call, s' = Sys g ts out (Some (Failed e call)).
Proof.
  intros Hm HI Hp. destruct m as [|i|i|i new|p]; cbv beta iota zeta delta [main_exec check] in Hp.
  - rewrite Husage in Hp. assert (length (prog :: args) - 1 = n)%nat as En by (cbn; lia). rewrite En in Hp.
    destruct a; [|injection Hp as <-; right; by eauto|]; (injection Hp as <-; left; eexists _, _; exact (main_begins _ _ _ _ HI)).
  - rewrite lookup_arg in Hp. destruct (args !! i) as [arg|] eqn:Ei.
    + rewrite Forall_lookup in Hparse. pose proof (Hparse i arg Ei) as Hs. destruct (sleep_of arg) as [v|]; [|done].
      injection Hp as <-. left. eexists _, _. refine (main_fills i ws g ts out v HI _). by eapply lookup_lt_Some.
    + assert (i = n) as ->.
      { apply lookup_ge_None in Ei. destruct HI as [_ _ _ _ _ (_ & _ & ? & _) _ _ _]. unfold n in *. lia. }
      assert (Z.of_nat (length (prog :: args)) - 1 = Z.of_nat n) as En by (cbn; lia). rewrite En in Hp.
      injection Hp as <-. left. eexists _, _. exact (main_starts _ _ _ _ HI).
  - destruct a; [|injection Hp as <-; right; by eauto|]; (injection Hp as <-; left; eexists _, _; exact (main_spawns _ _ _ _ _ HI)).
  - injection Hp as <-. left. eexists _, _. exact (main_stores _ _ _ _ _ _ HI).
  - by destruct (Hm p).
Qed.

Lemma multi_inv_step ok s s' : inv s -> step ex ok s s' -> inv s'.
Proof.
  intros (m & ws & HI) (Hend & i & a & t & _ & Hi & Hp)%step_inv.
  destruct s as [g ts out e]; cbn [shared threads printed ended] in *. subst e.
  assert (inv s' \/ exists e call, s' = Sys g ts out (Some (Failed e call))) as [|(e & call & ->)];
    [|done|exists m, ws; destruct HI; by split].
  pose proof (inv_threads _ _ _ HI) as Hts. cbn [threads] in Hts. destruct i as [|i]; rewrite Hts in Hi; simpl in Hi.
  - injection Hi as <-. destruct m as [| | | |p]; [by refine (multi_creating_step _ _ _ _ _ _ _ _ HI Hp)..|].
    assert ((exists k, p = Join k) \/ forall k, p <> Join k) as [[k ->]|Hn] by (destruct p; eauto; right; done);
      [exact (join_step _ _ _ _ _ _ _ HI Hp)|exact (multi_at_step _ _ _ _ _ _ _ Hn HI Hp)].
  - rewrite list_lookup_fmap in Hi. destruct (ws !! i) as [w|] eqn:Ew; [|done]. injection Hi as <-. exact (multi_worker_step _ _ _ _ _ _ _ _ _ HI Ew Hp).
Qed.

Lemma multi_inv_start : inv start_state.
Proof.
  exists Begin, []. split; cbn [shared threads printed ended start_state infos numUnjoined threadMutex]; try done.
  - split; [|done]. intros [|i] t; [|done]. by intros [= <-].
  - by left.
  - exists []. split; cbn; try done. by constructor. intros i. split; [set_solver|by intros (? & ? & _)].
Qed.

(** A worker that has not returned goes on, unless another thread owns the mutex. *)
Lemma worker_enabled m ws s i w :
  inv_at m ws s -> ended s = None -> ws !! i = Some w -> at_ w <> Returned ->
  at_ w = Signal \/ threadMutex (shared s) = None \/ threadMutex (shared s) = Some (S i) ->
  exists s', run_one ex (S i) Fine s = Some s'.
Proof.
  intros [Hts Hwk _ _ Hex _ _ _ _] He Hi Hr Ho.
  assert (threads s !! S i = Some (Worker w)) as Hti by (rewrite Hts; simpl; by rewrite list_lookup_fmap, Hi).
  pose proof (proj1 Hex _ _ Hti) as Hc.
  destruct (Hwk i w Hi) as (Hidx & inf & Hinf & _). eapply run_one_enabled; [done|exact Hti|].
  destruct w as [p k]. cbn [idx at_] in *. subst k. unfold ex, exec, threadFunc, check. cbn [idx at_].
  destruct p; rewrite ?Hinf; try done; destruct Ho as [Ho|[Ho|Ho]]; rewrite ?Ho; try done; cbn; rewrite ?Nat.eqb_refl; try done.
  all: exfalso; rewrite Ho in Hc; cbn in Hc; destruct Hc; naive_solver.
Qed.

(** When every thread has returned, those not joined are exactly those main knows of. *)
Lemma all_returned m ws s :
  inv_at m ws s -> (forall w, w ∈ ws -> at_ w = Returned) -> length ws = n -> length (infos (shared s)) = n ->
  zsum joined (infos (shared s)) + numUnjoined (shared s) = Z.of_nat n.
Proof.
  intros [_ Hwk _ Hcnt _ _ _ _ _] Hall Hk Hlen. rewrite Hcnt, (zsum_eq counted ws 0).
  - assert (zsum joined (infos (shared s)) + zsum terminated (infos (shared s)) = Z.of_nat (length (infos (shared s)))) as H; [|lia].
    assert (Forall (fun inf => state inf <> TS_ALIVE) (infos (shared s))) as HF.
    { apply Forall_lookup. intros i inf Hi. pose proof (lookup_lt_Some _ _ _ Hi).
      destruct (lookup_lt_is_Some_2 ws i) as [w Hw]; [lia|]. destruct (Hwk i w Hw) as (_ & inf' & Hinf & Hso & _).
      rewrite Hi in Hinf. injection Hinf as <-. rewrite (Hall w) in Hso; [done|by eapply list_elem_of_lookup_2]. }
    clear -HF. induction HF as [|x l Hx _ IH]; simpl in *; [done|]. unfold joined, terminated in *. destruct (state x); try done; lia.
  - apply Forall_lookup. intros i w Hw%list_elem_of_lookup_2. unfold counted. by rewrite (Hall w Hw).
Qed.

(** While the program has not ended, one of its threads can go on. *)
Lemma multijoin_progress s : inv s -> ended s = None -> exists i s', run_one ex i Fine s = Some s'.
Proof.
  intros (m & ws & HI) He. pose proof HI as [Hts Hwk _ _ Hex Hm Hsl _ _].
  assert (threads s !! 0%nat = Some (Main m)) as H0 by by rewrite Hts.
  assert (main_exec (prog :: args) 0 Fine (threads s) m (shared s) <> Wait -> exists i s', run_one ex i Fine s = Some s') as Hmain.
  { intros H. exists 0%nat. by eapply run_one_enabled. }
  destruct (threadMutex (shared s)) as [[|o]|] eqn:Eo.
  - pose proof (proj2 (proj1 Hex _ _ H0) eq_refl) as Hc. destruct m as [| | | |[]]; try done.
    + apply Hmain. unfold main_exec, check. rewrite Eo. by repeat case_match.
    + apply Hmain. unfold main_exec, check. by repeat case_match.
    + destruct Hm as (Hk & Hlen & _ & _ & _ & inf & Hinf & Hst). pose proof (lookup_lt_Some _ _ _ Hinf).
      destruct (lookup_lt_is_Some_2 ws idx0) as [w Hw]; [lia|]. 
      assert (threads s !! S idx0 = Some (Worker w)) as Hti by (rewrite Hts; simpl; by rewrite list_lookup_fmap, Hw).
      destruct (Hwk _ _ Hw) as (Hidx & inf1 & Hinf1 & Hso & [Htid|[? ?]]); [|done]. rewrite Hinf in Hinf1. injection Hinf1 as <-.
      destruct (decide (at_ w = Returned)) as [Hr|Hr].
      * apply Hmain. unfold main_exec, check. rewrite Hinf. unfold has_returned. rewrite Htid, Hti. destruct w as [p ?]. cbn in Hr. by subst p.
      * exists (S idx0). eapply worker_enabled; [done..|]. left. rewrite Hst in Hso. pose proof (proj1 (proj1 Hex _ _ Hti)) as Hcr.
        destruct w as [[] ?]; cbn in *; try done; by specialize (Hcr eq_refl).
    + apply Hmain. done.
    + apply Hmain. unfold main_exec, check. rewrite Eo. done.
  - destruct (excl_owner _ _ _ Hex) as (t & Hi & Hc). rewrite Hts in Hi. simpl in Hi. rewrite list_lookup_fmap in Hi.
    destruct (ws !! o) as [w|] eqn:Hw; [|done]. injection Hi as <-. exists (S o).
    eapply worker_enabled; [done..| |auto]. by destruct w as [[] ?].
  - destruct (decide (Forall (fun w => at_ w = Returned) ws)) as [HF|HF].
    + apply Hmain. unfold main_exec, check. rewrite Eo. destruct m as [| | | |[]]; try done; try by repeat case_match.
      * case_decide as Hin; [|done]. exfalso. assert (forall w, w ∈ ws -> at_ w = Returned) as HF' by (intros w [i Hi]%list_elem_of_lookup; by eapply Forall_lookup_1 in HF).
        destruct Hm as (Hk & Hlen & _ & Hl & Hp). cbn in Hp.
        pose proof (all_returned _ _ _ HI HF' Hk Hlen). destruct Hsl as [Hw|(_ & _ & Hs)]; [rewrite Hw in Hin; set_solver|].
        destruct Hs as (i & w & Hw & Ha); [lia|]. apply list_elem_of_lookup_2, HF' in Hw. unfold announcing in Ha. by rewrite Hw in Ha.
      * by discriminate (proj1 (proj1 Hex _ _ H0) eq_refl).
    + apply not_Forall_Exists in HF; [|apply _]. apply Exists_exists in HF as (w & Hin & Hr).
      apply list_elem_of_lookup in Hin as [i Hi]. exists (S i). eapply worker_enabled; [done..|auto].
Qed.

(** *** What is left to do *)

Let D : Z := 3 * Z.of_nat n + 20.
(** A scan that finds a thread to join pays for the next one. *)
Definition owed (g : vars) : Z := if 0 <? numUnjoined g then D else 0.

Definition mu_main (m : main_pc) (g : vars) : Z :=
  match m with
  | Begin => D * Z.of_nat n + 8 + 13 * Z.of_nat n
  | Fill i => D * Z.of_nat n + 7 + 13 * (Z.of_nat n - Z.of_nat i)
  | Spawn i => D * Z.of_nat n + 6 + 13 * (Z.of_nat n - Z.of_nat i)
  | Store i _ => D * Z.of_nat n - 4 + 13 * (Z.of_nat n - Z.of_nat i)
  | At p =>
      D * numLive g +
      match p with
      | Loop => 6
      | Test => 5
      | Waiting => if decide (0%nat ∈ threadDied g) then 4 else 6
      | Scan i => 3 * (Z.of_nat n - Z.of_nat i) + 8 - owed g
      | Join i => 3 * (Z.of_nat n - Z.of_nat i) + 7 - D
      | Reap i => 3 * (Z.of_nat n - Z.of_nat i) + 6 - owed g
      | Unlock => 7
      | Leave => 0
      end
  end.

Definition mu_wk (w : pc) : Z :=
  match at_ w with
  | Sleep => 9 | Tell => 8 | Acquire => 7 | CountUp => 6 | Mark => 5 | Release => 4 | Signal => 3 | Returned => 0
  end.

Definition mu_thr (t : thr) : Z := match t with Main _ => 0 | Worker w => mu_wk w end.

Definition mu (s : sys vars thr) : Z :=
  zsum mu_thr (threads s) + match ended s with None => 1 | Some _ => 0 end +
  match threads s !! 0%nat with Some (Main m) => mu_main m (shared s) | _ => 0 end.

Lemma some_terminated l k inf : l !! k = Some inf -> state inf = TS_TERMINATED -> 0 < zsum terminated l.
Proof.
  intros Hk Hs. rewrite <- (take_drop_middle l k inf Hk), zsum_app. simpl.
  assert (forall l, 0 <= zsum terminated l) as H. { intros l'. apply zsum_nonneg. intros x. unfold terminated. by destruct (state x). }
  pose proof (H (take k l)). pose proof (H (drop (S k) l)). unfold terminated in *. rewrite Hs. lia.
Qed.

Lemma owes_live m ws s :
  inv_at m ws s -> critical (Main m) = true -> owed (shared s) <= D * numLive (shared s) /\ 0 <= numLive (shared s).
Proof.
  intros HI Hc. pose proof HI as [_ _ _ Hcnt _ Hm _ _ _]. destruct s as [g ts out e]. cbn [shared] in *.
  rewrite (nobody_counts _ _ _ _ _ _ HI Hc) in Hcnt. destruct m as [| | | |p]; try done.
  destruct Hm as (_ & Hlen & _ & Hl & _).
  assert (zsum joined (infos g) + zsum terminated (infos g) <= Z.of_nat (length (infos g))) as H.
  { clear. induction (infos g) as [|x l IH]; simpl in *; [done|]. unfold joined at 1, terminated at 1. destruct (state x); lia. }
  assert (0 <= zsum terminated (infos g)). { apply zsum_nonneg. intros x. unfold terminated. by destruct (state x). }
  assert (0 <= numLive g) by lia. assert (0 < D) by (unfold D; lia). unfold owed.
  destruct (0 <? numUnjoined g) eqn:E; z_bool; split; try done; [|nia].
  assert (1 <= numLive g) by lia. nia.
Qed.

Lemma multi_mu_nonneg s : inv s -> 0 <= mu s.
Proof.
  intros (m & ws & HI). pose proof (inv_threads _ _ _ HI) as Hts. pose proof (inv_main _ _ _ HI) as Hm.
  unfold mu. assert (0 <= zsum mu_thr (threads s)) as H by (apply zsum_nonneg; intros [|[[] ?]]; cbn; lia).
  assert (threads s !! 0%nat = Some (Main m)) as -> by by rewrite Hts.
  assert (0 <= mu_main m (shared s)); [|destruct (ended s); lia]. clear H. pose proof (owes_live m ws s HI) as Ho.
  assert (0 < D) as HD by (unfold D; lia).
  destruct m as [|i|i|i new|p]; cbn [main_ok mu_main] in *; [unfold D; nia..|].
  destruct Hm as (_ & Hlen & _ & Hl & Hp). pose proof (joined_bound (infos (shared s))) as Hjb.
  assert (0 <= D * numLive (shared s)) by nia.
  destruct p; cbn [point_ok] in Hp; try specialize (Ho eq_refl); try case_decide; try lia.
  destruct Hp as (_ & inf & Hinf & Hst). pose proof (lookup_lt_Some _ _ _ Hinf).
  enough (owed (shared s) = D) by lia. unfold owed. rewrite (inv_count _ _ _ HI).
  pose proof (some_terminated _ _ _ Hinf Hst). assert (0 <= zsum counted ws).
  { apply zsum_nonneg. intros [[] ?]; cbn; lia. } by rewrite (proj2 (Z.ltb_lt _ _)) by lia.
Qed.

Lemma multi_mu_worker i w g :
  match threadFunc i Fine w g with
  | Go (Worker w') g' =>
      numLive g' = numLive g /\ (numUnjoined g' = numUnjoined g \/ at_ w = CountUp) /\
      (threadDied g' = threadDied g /\ mu_wk w' < mu_wk w \/ mu_wk w' + 3 <= mu_wk w)
  | Say (Worker w') _ => mu_wk w' < mu_wk w
  | Wait | Stop _ => True
  | _ => False
  end.
Proof.
  unfold threadFunc, check. destruct w as [[] k]; cbn [at_ idx]; repeat case_match; simplify_eq; try done; cbn; auto with lia.
Qed.

#[local] Ltac simp_mu := cbn [mu_main set_mutex set_died numLive threadDied numUnjoined].

Lemma multi_mu_at p ws s : inv_at (At p) ws s ->
  match main_exec (prog :: args) 0 Fine (threads s) (At p) (shared s) with
  | Go (Main m') g' => mu_main m' g' < mu_main (At p) (shared s)
  | Say (Main m') _ => mu_main m' (shared s) < mu_main (At p) (shared s)
  | Wait | Stop _ => True
  | _ => False
  end.
Proof.
  intros HI. pose proof HI as [_ _ _ Hcnt _ Hm Hsl _ _]. destruct Hm as (_ & Hlen & Htot & Hl & Hp).
  set (g := shared s) in *. pose proof (joined_bound (infos g)) as Hjb.
  assert (0 < D) as HD by (unfold D; lia). assert (0 <= numLive g) by lia.
  assert (0 <= numUnjoined g) as Hu.
  { rewrite Hcnt. assert (0 <= zsum terminated (infos g) /\ 0 <= zsum counted ws) as [? ?]; [|lia].
    split; apply zsum_nonneg; [intros x; unfold terminated; by destruct (state x)|intros [[] ?]; cbn; lia]. }
  destruct p; unfold main_exec, check; cbn match; cbn [point_ok] in Hp.
  - destruct (0 <? numLive g) eqn:E; [destruct (mutex_lock 0 (threadMutex g)); [simp_mu; lia|done]|simp_mu; lia].
  - destruct (numUnjoined g =? 0) eqn:E; z_bool; [destruct (mutex_unlock 0 (threadMutex g)); [|done]|].
    + simp_mu. case_decide as Hin; [lia|]. destruct Hin. set_solver.
    + simp_mu. unfold owed. rewrite (proj2 (Z.ltb_lt _ _)) by lia. unfold D. lia.
  - case_decide as Hin; [done|]. destruct (mutex_lock 0 (threadMutex g)); [|done]. simp_mu. rewrite decide_False by done. lia.
  - destruct (Z.of_nat idx0 <? totThreads g) eqn:E; z_bool.
    + destruct (infos g !! idx0) as [inf|] eqn:Ei; [|done]. case_decide as Ht; simp_mu; [|lia].
      unfold owed. rewrite (proj2 (Z.ltb_lt _ _)); [lia|]. rewrite Hcnt. pose proof (some_terminated _ _ _ Ei Ht).
      assert (0 <= zsum counted ws); [|lia]. apply zsum_nonneg. intros [[] ?]; cbn; lia.
    + simp_mu. destruct Hp as [Hsc Hle]. assert (numUnjoined g = 0) as H0.
      { destruct s as [g0 ts out e]. eapply all_scanned; [exact HI|done|]. cbn in g. unfold g in *. by replace (length (infos g0)) with idx0 by lia. }
      unfold owed. rewrite H0. change (0 <? 0) with false. cbn match. lia.
  - destruct (infos g !! idx0) as [inf|]; [|done]. destruct (has_returned _ _); [|done]. simp_mu. unfold owed. case_match; lia.
  - simp_mu. lia.
  - destruct (mutex_unlock 0 (threadMutex g)); [|done]. simp_mu. lia.
  - done.
Qed.

Lemma mu_creating m ws g ts out s' :
  (forall p, m <> At p) -> inv_at m ws (Sys g ts out None) ->
  perform 0 (main_exec (prog :: args) 0 Fine ts m g) (Sys g ts out None) = Some s' -> mu s' < mu (Sys g ts out None).
Proof.
  intros Hm HI Hp. pose proof HI as [Hts _ _ _ _ Hmain _ _ _]. cbn [shared threads] in *.
  assert (ts !! 0%nat = Some (Main m)) as H0 by (by rewrite Hts).
  unfold mu. cbn [shared threads ended]. rewrite H0.
  destruct m as [|i|i|i new|p]; cbv beta iota zeta delta [main_exec check] in Hp; cbn [main_ok] in Hmain.
  - rewrite Husage in Hp. injection Hp as <-. cbn [shared threads ended]. rewrite (zsum_insert _ _ _ _ _ H0).
    rewrite list_lookup_insert_eq by (by eapply lookup_lt_Some). cbn [mu_thr mu_main]. lia.
  - rewrite lookup_arg in Hp. destruct (args !! i) as [arg|] eqn:Ei.
    + destruct (sleep_of arg); injection Hp as <-; cbn [shared threads ended]; [|rewrite H0; lia].
      rewrite (zsum_insert _ _ _ _ _ H0), list_lookup_insert_eq by (by eapply lookup_lt_Some). cbn [mu_thr mu_main]. lia.
    + assert (Z.of_nat (length (prog :: args)) - 1 = Z.of_nat n) as En by (cbn; lia). rewrite En in Hp.
      injection Hp as <-. cbn [shared threads ended].
      rewrite (zsum_insert _ _ _ _ _ H0), list_lookup_insert_eq by (by eapply lookup_lt_Some). cbn [mu_thr mu_main numLive].
      destruct Hmain as (_ & _ & ? & _). lia.
  - injection Hp as <-. cbn [shared threads ended]. rewrite zsum_app, (zsum_insert _ _ _ _ _ H0), lookup_app_l by (rewrite length_insert; by eapply lookup_lt_Some).
    rewrite list_lookup_insert_eq by (by eapply lookup_lt_Some). cbn. unfold D. lia.
  - injection Hp as <-. cbn [shared threads ended].
    rewrite (zsum_insert _ _ _ _ _ H0), list_lookup_insert_eq by (by eapply lookup_lt_Some). cbn [mu_thr mu_main]. lia.
  - by destruct (Hm p).
Qed.

(** A step of a worker changes what main has to do only when it signals. *)
Lemma multi_mu_main_change m g g' :
  numLive g' = numLive g -> (critical (Main m) = true -> numUnjoined g' = numUnjoined g) ->
  (threadDied g' = threadDied g -> mu_main m g' = mu_main m g) /\ mu_main m g' <= mu_main m g + 2.
Proof.
  intros El Hu. assert (critical (Main m) = true -> owed g' = owed g) as Ho by (intros H; unfold owed; by rewrite Hu).
  destruct m as [| | | |[]]; cbn [mu_main]; rewrite ?El; try (rewrite Ho by done); try (split; [done|lia]).
  split; [by intros ->|]. repeat case_decide; lia.
Qed.

Lemma multijoin_mu_step s s' : inv s -> step ex fine s s' -> mu s' < mu s.
Proof.
  intros (m & ws & HI) (Hend & i & a & t & -> & Hi & Hp)%step_inv.
  destruct s as [g ts out e]; cbn [shared threads printed ended] in *. subst e.
  pose proof HI as [Hts Hwk _ _ Hex _ _ _ _]. cbn [shared threads] in *.
  assert (ts !! 0%nat = Some (Main m)) as H0 by (by rewrite Hts). pose proof (lookup_lt_Some _ _ _ H0) as Hlt.
  destruct i as [|i].
  - rewrite H0 in Hi. injection Hi as <-. unfold ex, exec in Hp. destruct m as [|?|?|? ?|p];
      [refine (mu_creating _ _ _ _ _ _ _ HI Hp); done..|].
    pose proof (multi_mu_at _ _ _ HI) as Hat. cbn [shared threads] in Hat. unfold mu. cbn [shared threads ended]. rewrite H0.
    destruct (main_exec _ _ _ _ (At p) g) as [[m'|w'] g'|?|[m'|w'] out'| |en]; try done;
      injection Hp as <-; cbn [shared threads printed ended];
      rewrite ?(zsum_insert _ _ _ _ _ H0), ?list_lookup_insert_eq, ?H0 by done; cbn [mu_thr]; lia.
  - pose proof Hi as Hi'. rewrite Hts in Hi'. simpl in Hi'. rewrite list_lookup_fmap in Hi'.
    destruct (ws !! i) as [w|] eqn:Hw; [|done]. injection Hi' as <-. unfold ex, exec in Hp.
    pose proof (multi_mu_worker (S i) w g) as Hmw. unfold mu. cbn [shared threads ended]. rewrite H0.
    destruct (threadFunc (S i) Fine w g) as [[m'|w'] g'|?|[m'|w'] out'| |en]; try done; injection Hp as <-;
      cbn [shared threads printed ended]; rewrite ?(zsum_insert _ _ _ _ _ Hi), ?list_lookup_insert_ne, ?H0 by done; cbn [mu_thr]; try lia.
    destruct Hmw as (El & Hu & Hd). destruct (multi_mu_main_change m g g' El) as [Hsame Hle].
    + intros Hc. destruct Hu as [|Hu]; [done|]. exfalso. assert (0%nat = S i) as Habs; [|discriminate Habs].
      eapply (excl_only critical ts (threadMutex g) 0 (S i)); [done|exact H0|exact Hi|exact Hc|]. destruct w as [p k]. cbn in Hu. by subst p.
    + destruct Hd as [[Hd ?]|?]; [rewrite (Hsame Hd)|]; lia.
Qed.

(** C14: thread_multijoin joins every thread, once, and in time.  For arguments that are numbers,
    whatever the interleaving, the spurious wake-ups and the calls that fail: the program is never
    stuck and never in undefined behaviour; without spurious wake-ups a run makes at most
    [3 * n * n + 33 * n + 9] steps for [n] threads; and when the program exits, it has exited with
    success and printed, among its lines, one "Reaped" line for every thread, in some order of the
    threads, with the number of those left falling from [n - 1] to 0. *)
Theorem multijoin_joins_all :
  (forall s, rtc (step ex any) start_state s ->
     match ended s with
     | None => exists i s', run_one ex i Fine s = Some s'
     | Some (Exited status) =>
         status = EXIT_SUCCESS /\ exists order, order ≡ₚ seq 0 n /\ filter is_reap (printed s) = reap_lines order
     | Some (Failed _ _) => True
     | Some Undefined => False
     end) /\
  (forall k s, nsteps (step ex fine) k start_state s ->
     Z.of_nat k <= 3 * Z.of_nat n * Z.of_nat n + 33 * Z.of_nat n + 9).
Proof.
  split.
  - intros s Hs. assert (inv s) as HI by (revert Hs; apply rtc_invariant; [intros ??; apply multi_inv_step|apply multi_inv_start]).
    destruct (ended s) as [[st| |]|] eqn:E; [..|by apply multijoin_progress]; destruct HI as (m & ws & [_ _ _ _ _ Hm _ [order Ho] Hend]);
      rewrite E in Hend; try done.
    destruct Hend as [-> ->]. split; [done|]. exists order. destruct Ho as [O1 O2 O3 O4]. split; [|done].
    destruct Hm as (_ & Hlen & _ & Hl & Hp). cbn in Hp.
    apply submseteq_length_Permutation; [|rewrite length_seq; lia]. apply NoDup_submseteq; [done|].
    intros i (inf & Hinf & _)%O2. apply elem_of_seq. apply lookup_lt_Some in Hinf. lia.
  - intros k s Hk.
    assert (mu start_state = 3 * Z.of_nat n * Z.of_nat n + 33 * Z.of_nat n + 9) as <-.
    { change (0 + 1 + (D * Z.of_nat n + 8 + 13 * Z.of_nat n) = 3 * Z.of_nat n * Z.of_nat n + 33 * Z.of_nat n + 9). unfold D. lia. }
    refine (nsteps_zbounded_inv _ inv mu k start_state s multi_mu_nonneg _ multi_inv_start Hk).
    intros a b HI Hab. split; [by eapply multi_inv_step|by apply multijoin_mu_step].
Qed.
End Correct.

(** *** A run

    The second thread ends first; main sleeps twice. *)
Definition multi_args : list bytes := [str "2"; str "0"].
Definition multi_run : list (nat * answer) :=
  (fun i => (i, Fine)) <$> (repeat 0 10 ++ repeat 2 7 ++ repeat 0 10 ++ repeat 1 7 ++ repeat 0 10)%nat.

Lemma multijoin_joins_all_witness :
  exists s, run (exec (str "thread_multijoin" :: multi_args)) multi_run start_state = Some s /\
    ended s = Some (Exited 0) /\
    printed s = [terminating_line 1; reap_line 1 1; terminating_line 0; reap_line 0 0] /\
    exists order, order ≡ₚ seq 0 2 /\ filter is_reap (printed s) = reap_lines multi_args order.
Proof.
  destruct (run (exec (str "thread_multijoin" :: multi_args)) multi_run start_state) as [s|] eqn:E; [|vm_compute in E; discriminate E].
  exists s. split; [done|]. assert (ended s = Some (Exited 0)) as He by (vm_compute in E; by injection E as <-).
  split; [exact He|]. split; [vm_compute in E; injection E as <-; by vm_compute|].
  assert (rtc (step (exec (str "thread_multijoin" :: multi_args)) any) start_state s) as Hrun.
  { refine (run_rtc _ any _ _ _ _ E). by apply Forall_true. }
  destruct (multijoin_joins_all (str "thread_multijoin") multi_args) as [Hall _]; [by vm_compute|by_decide|].
  specialize (Hall s Hrun). rewrite He in Hall. exact (proj2 Hall).
Defined.
End Multi.

(** ** one_time_init.c *)

Module Once.

Record vars := Vars { mtx : mutex; called : Z }.

(** Where a thread is in its call number [k] of [one_time_init], of two. *)
Inductive pc := Lock (k : nat) | Check (k : nat) | Init (k : nat) | SetCalled (k : nat) | Unlock (k : nat) | Returned.
Inductive main_pc := Create1 | Create2 (t1 : nat) | Join1 (t1 t2 : nat) | Tell1 (t2 : nat) | Join2 (t2 : nat) | Tell2 | Leave.

Abbreviation thr := (thread main_pc pc).

Definition called_line : bytes := str "Called init_func()" ++ [NL].
Definition first_line : bytes := str "First thread returned" ++ [NL].
Definition second_line : bytes := str "Second thread returned" ++ [NL].

(** The error check of one_time_init: against -1, where the call returns an error number. *)
Definition check_minus_1 {G T} (a : answer) (call : string) (k unnoticed : effect G T) : effect G T :=
  match a with Fails e => if e =? -1 then Stop (Failed e call) else unnoticed | _ => k end.

Definition one_time_init (self : nat) (a : answer) (w : pc) (g : vars) : effect vars thr :=
  match w with
  | Lock k =>
      check_minus_1 a "pthread_mutex_lock"
        (match mutex_lock self (mtx g) with
         | Some m => Go (Worker (Check k)) (Vars m (called g)) | None => Wait end)
        (Go (Worker (Check k)) g)
  | Check k => Go (Worker (if called g =? 0 then Init k else Unlock k)) g
  | Init k => Say (Worker (SetCalled k)) called_line
  | SetCalled k => Go (Worker (Unlock k)) (Vars (mtx g) 1)
  | Unlock k =>
      let next := match k with 1%nat => Lock 2 | _ => Returned end in
      check_minus_1 a "pthread_mutex_unlock"
        (match mutex_unlock self (mtx g) with
         | Some m => Go (Worker next) (Vars m (called g)) | None => Stop Undefined end)
        (Go (Worker next) g)
  | Returned => Wait
  end.

Definition has_returned (ts : list thr) (t : nat) : bool :=
  match ts !! t with Some (Worker Returned) => true | _ => false end.

Definition main_exec (a : answer) (ts : list thr) (m : main_pc) (g : vars) : effect vars thr :=
  let start := Worker (Lock 1) in
  match m with
  | Create1 => check a "pthread_create" (Create (Main (Create2 (length ts))) start)
  | Create2 t1 => check a "pthread_create" (Create (Main (Join1 t1 (length ts))) start)
  | Join1 t1 t2 => check a "pthread_join" (if has_returned ts t1 then Go (Main (Tell1 t2)) g else Wait)
  | Tell1 t2 => Say (Main (Join2 t2)) first_line
  | Join2 t2 => check a "pthread_join" (if has_returned ts t2 then Go (Main Tell2) g else Wait)
  | Tell2 => Say (Main Leave) second_line
  | Leave => Stop (Exited EXIT_SUCCESS)
  end.

Definition exec (self : nat) (a : answer) (ts : list thr) (t : thr) (g : vars) : effect vars thr :=
  match t with
  | Main m => main_exec a ts m g
  | Worker w => one_time_init self a w g
  end.

Definition start_state : sys vars thr := Sys (Vars None 0) [Main Create1] [] None.

(** *** All states

    Without calls that fail the states are finitely many: they are computed, and the properties
    checked on each. *)
#[export] Instance vars_eq_dec : EqDecision vars.
Proof. solve_decision. Defined.
#[export] Instance pc_eq_dec : EqDecision pc.
Proof. solve_decision. Defined.
#[export] Instance main_pc_eq_dec : EqDecision main_pc.
Proof. solve_decision. Defined.

Definition mu_thr (t : thr) : Z :=
  match t with
  | Main m => match m with Create1 => 30 | Create2 _ => 18 | Join1 _ _ => 6 | Tell1 _ => 5 | Join2 _ => 4 | Tell2 => 3 | Leave => 2 end
  | Worker w =>
      let after k := match k with 1%nat => 5 | _ => 0 end in
      match w with
      | Lock k => after k + 5 | Check k => after k + 4 | Init k => after k + 3 | SetCalled k => after k + 2
      | Unlock k => after k + 1 | Returned => 0
      end
  end.
Definition mu (s : sys vars thr) : Z := zsum mu_thr (threads s) + match ended s with None => 1 | Some _ => 0 end.

Definition state_good (s : sys vars thr) : bool :=
  match ended s with
  | None => existsb (fun i => match run_one exec i Fine s with Some _ => true | None => false end) (seq 0 (length (threads s)))
  | Some (Exited status) => (status =? 0) && bool_decide (printed s = [called_line; first_line; second_line])
  | Some _ => false
  end && (length (filter (fun l => l = called_line) (printed s)) <=? 1)%nat && (0 <=? mu s).

Definition all_states : list (sys vars thr) := Eval vm_compute in explore exec 60 [start_state] [start_state].

Lemma all_closed : closed exec all_states.
Proof. by_decide. Qed.

Lemma all_good : Forall (fun s => state_good s = true /\ Forall (fun s' => mu s' < mu s) (successors exec s)) all_states.
Proof. by_decide. Qed.

Lemma once_reach s : rtc (step exec fine) start_state s ->
  state_good s = true /\ Forall (fun s' => mu s' < mu s) (successors exec s).
Proof.
  intros Hs. assert (s ∈ all_states) as [i Hi]%list_elem_of_lookup.
  { refine (closed_reach exec _ _ _ _ all_closed Hs). by_decide. }
  exact (Forall_lookup_1 _ _ _ _ all_good Hi).
Qed.

(** the initialiser is called once, however often and by however many threads
    one_time_init is called.  While no call fails, in every interleaving: the line of [init_func]
    is never printed twice; the program is not stuck, takes at most 31 steps, and when it exits
    it has printed that line and then those of main. *)
Theorem one_time_init_once :
  (forall s, rtc (step exec fine) start_state s ->
     (length (filter (fun l => l = called_line) (printed s)) <= 1)%nat /\
     match ended s with
     | None => exists i s', run_one exec i Fine s = Some s'
     | Some (Exited status) => status = EXIT_SUCCESS /\ printed s = [called_line; first_line; second_line]
     | Some _ => False
     end) /\
  (forall k s, nsteps (step exec fine) k start_state s -> Z.of_nat k <= 31).
Proof.
  split.
  - intros s Hs. destruct (once_reach s Hs) as [Hg _]. unfold state_good in Hg.
    apply andb_true_iff in Hg as [[Hg Hn]%andb_true_iff _]. split; [by apply Nat.leb_le|].
    destruct (ended s) as [[st| |]|]; try done.
    + apply andb_true_iff in Hg as [Hst Hp]. split; [by apply Z.eqb_eq|by apply bool_decide_eq_true in Hp].
    + apply existsb_exists in Hg as (i & _ & Hi). destruct (run_one exec i Fine s) as [s'|] eqn:E; [eauto|done].
  - intros k s Hk. change 31 with (mu start_state).
    refine (nsteps_zbounded_inv _ (rtc (step exec fine) start_state) mu k start_state s _ _ _ Hk); [| |done].
    + intros a Ha. destruct (once_reach a Ha) as [Hg _]. unfold state_good in Hg. apply andb_true_iff in Hg as [_ Hg]. by apply Z.leb_le.
    + intros a b Ha Hab. split; [by eapply rtc_r|]. destruct (once_reach a Ha) as [_ Hd].
      apply successors_spec, list_elem_of_lookup in Hab as [i Hi]. exact (Forall_lookup_1 _ _ _ _ Hd Hi).
Qed.

(** A lock that fails goes unnoticed, since the error numbers of POSIX threads are positive: then
    the initialiser is called twice, and the unlocking is undefined. *)
Definition unlocked_run : list (nat * answer) :=
  [(0, Fine); (0, Fine); (1, Fails 35); (2, Fails 35); (1, Fine); (2, Fine); (1, Fine); (2, Fine); (1, Fine); (1, Fine)]%nat.
Lemma once_lock_error_unnoticed :
  exists s, run exec unlocked_run start_state = Some s /\ printed s = [called_line; called_line] /\ ended s = Some Undefined.
Proof. eexists. by split_and!; [vm_compute; reflexivity|..]. Qed.
End Once.
