(* ===== verification/ErrorText.v ===== *)
(** * Where strerror puts its text

    strerror.c, strerror_tsd.c, strerror_tls.c and the program strerror_test.c that tells them apart
    (tlpi-dist/threads).  The three functions write the same text into a buffer that is shared by all
    threads, found through a key of thread-specific data, or a thread-local variable.  The threads
    interleave on the scheduler of Threads.v; the text is copied a character at a step.  The error
    functions of the library call [strerror] for the text of the error they report, and that is the
    [strerror] the program is linked with: a call that fails inside [strerror] enters it again.  The
    stack is taken to be large enough for such calls. *)

From Stdlib Require Import ZArith Lia String Ascii.
From S2P Require Import Prelude CString Kernel.
From S2P Require Threads.
Import Threads (sys, Sys, shared, threads, printed, ended, effect, Go, Create, Say, Wait, Stop, run_one, step, run, thread, Main, Worker, ending, Exited, Failed, Undefined).

(** ** The buffers *)

Inductive storage := Static | Tsd | Tls.
#[export] Instance storage_eq_dec : EqDecision storage.
Proof. solve_decision. Defined.

(** What [strerror] returns: [buf] of the file, [buf] of a thread, or a block of the heap. *)
Inductive address := AStatic | ATls (thread : nat) | AHeap (block : nat).
#[export] Instance address_eq_dec : EqDecision address.
Proof. solve_decision. Defined.

Inductive once_state := Fresh | Running | Complete.

Record mem := Mem {
  static_buf : bytes;
  tls_buf : gmap nat bytes;
  heap : gmap nat bytes;
  once : once_state;
  strerrorKey : gmap nat nat          (* what each thread has stored under the key *)
}.

(** The answer to a call; that of [malloc] proposes a block. *)
Inductive answer := Done (k : nat) | Fails (errnum : Z).

Definition MAX_ERROR_LEN : nat := 256.
Definition zeros : bytes := replicate MAX_ERROR_LEN NUL.

Definition load (g : mem) (a : address) : option bytes :=
  match a with
  | AStatic => Some (static_buf g)
  | ATls i => Some (default zeros (tls_buf g !! i))
  | AHeap n => heap g !! n
  end.

Definition put (g : mem) (a : address) (b : bytes) : mem :=
  match a with
  | AStatic => Mem b (tls_buf g) (heap g) (once g) (strerrorKey g)
  | ATls i => Mem (static_buf g) (<[i := b]> (tls_buf g)) (heap g) (once g) (strerrorKey g)
  | AHeap n => Mem (static_buf g) (tls_buf g) (<[n := b]> (heap g)) (once g) (strerrorKey g)
  end.

Definition set_once (o : once_state) (g : mem) : mem := Mem (static_buf g) (tls_buf g) (heap g) o (strerrorKey g).

(** [%s] of a buffer: up to the first null byte, which there must be. *)
Definition shown (b : bytes) : option bytes := i ← index_of NUL b; Some (take i b).

Section Program.
Context (nerr : Z) (errlist : Z -> option bytes).   (* _sys_nerr, _sys_errlist *)
Context (garbage : nat -> ascii) (ptr : address -> bytes).
Context (st : storage).

(** ** strerror *)

(** The text without its null byte, and the bytes that are written: [strncpy] fills up with null
    bytes. *)
Definition message (err : Z) : bytes :=
  take (MAX_ERROR_LEN - 1)
    (if (err <? 0) || (nerr <=? err) then str "Unknown error " ++ dec err
     else match errlist err with None => str "Unknown error " ++ dec err | Some s => s end).
Definition text (err : Z) : bytes :=
  if (err <? 0) || (nerr <=? err) || bool_decide (errlist err = None) then message err ++ [NUL]
  else message err ++ replicate (MAX_ERROR_LEN - 1 - length (message err)) NUL ++ [NUL].

Inductive pc := COnce | CKey | CGet | CMalloc | CSet (n : nat) | CFill (a : address) (i : nat).
(** It goes on, reports a failed call with [errExitEN] or [errExit], returns, is blocked, or ends. *)
Inductive result := Goes (p : pc) (g : mem) | Errs (errnum : Z) (call : string) | Returns (a : address) | Blocks | Ends (e : ending).

Definition enter (self : nat) : pc :=
  match st with Static => CFill AStatic 0 | Tls => CFill (ATls self) 0 | Tsd => COnce end.

Definition checked (a : answer) (call : string) (k : nat -> result) : result :=
  match a with Done n => k n | Fails e => Errs e call end.

(** The contents of a block from [malloc]. *)
Definition new_block : bytes := garbage <$> seq 0 MAX_ERROR_LEN.

Definition block_of (k : nat) (g : mem) : nat :=
  match heap g !! k with None => k | Some _ => fresh (dom (heap g)) end.

Definition strerror (self : nat) (a : answer) (err : Z) (p : pc) (g : mem) : result :=
  match p with
  | COnce =>
      checked a "pthread_once" (fun _ =>
        match once g with Fresh => Goes CKey (set_once Running g) | Running => Blocks | Complete => Goes CGet g end)
  | CKey => checked a "pthread_key_create" (fun _ => Goes CGet (set_once Complete g))
  | CGet => match strerrorKey g !! self with Some n => Goes (CFill (AHeap n) 0) g | None => Goes CMalloc g end
  | CMalloc =>
      checked a "malloc" (fun k =>
        Goes (CSet (block_of k g)) (put g (AHeap (block_of k g)) new_block))
  | CSet n =>
      checked a "pthread_setspecific" (fun _ =>
        Goes (CFill (AHeap n) 0) (Mem (static_buf g) (tls_buf g) (heap g) (once g) (<[self := n]> (strerrorKey g))))
  | CFill b i =>
      match text err !! i with
      | Some c =>
          match load g b with
          | Some s => if decide (i < length s)%nat then Goes (CFill b (S i)) (put g b (<[i := c]> s)) else Ends Undefined
          | None => Ends Undefined
          end
      | None => Returns b
      end
  end.

(** The destructor of the key. *)
Definition destructor (self : nat) (g : mem) : mem :=
  match strerrorKey g !! self with
  | Some n => Mem (static_buf g) (tls_buf g) (delete n (heap g)) (once g) (delete self (strerrorKey g))
  | None => g
  end.

(** ** strerror_test.c *)

(** A call of [strerror]: its argument, the failed call it is made to report, if any, and where it is.
    Of calls inside each other the last is kept: when it returns, the error is printed and the
    process ends. *)
Record frame := Frame { f_err : Z; report : option string; f_pc : pc }.

Inductive main_pc := MCall (f : frame) | MSay (a : address) | MCreate (a : address) | MJoin (a : address) | MPrint (a : address) | MExit
| MFail (joining : bool) (f : frame).          (* reporting that pthread_create, or pthread_join, failed *)
Inductive thread_pc := TSay | TCall (f : frame) | TPrint (a : address) | TReturn | TEnd.
Definition thr : Type := thread main_pc thread_pc.

Definition called_line : bytes := str "Main thread has called strerror()" ++ [NL].
Definition about_line : bytes := str "Other thread about to call strerror()" ++ [NL].
Definition other_line (a : address) (s : bytes) : bytes := str "Other thread: str (" ++ ptr a ++ str ") = " ++ s ++ [NL].
Definition main_line (a : address) (s : bytes) : bytes := str "Main thread:  str (" ++ ptr a ++ str ") = " ++ s ++ [NL].

Definition call (self : nat) (a : answer) (f : frame) (g : mem) (at_ : frame -> thr) (ret : address -> thr) : effect mem thr :=
  match strerror self a (f_err f) (f_pc f) g with
  | Goes p' g' => Go (at_ (Frame (f_err f) (report f) p')) g'
  | Errs e c => Go (at_ (Frame e (Some c) (enter self))) g
  | Returns b => match report f with None => Go (ret b) g | Some c => Stop (Failed (f_err f) c) end
  | Blocks => Wait
  | Ends e => Stop e
  end.

Definition print_at (g : mem) (a : address) (line : bytes -> bytes) (next : thr) : effect mem thr :=
  match load g a ≫= shown with Some s => Say next (line s) | None => Stop Undefined end.

Definition threadFunc (self : nat) (a : answer) (t : thread_pc) (g : mem) : effect mem thr :=
  match t with
  | TSay => Say (Worker (TCall (Frame EPERM None (enter self)))) about_line
  | TCall f => call self a f g (fun f => Worker (TCall f)) (fun b => Worker (TPrint b))
  | TPrint b => print_at g b (other_line b) (Worker TReturn)
  | TReturn => Go (Worker TEnd) (destructor self g)
  | TEnd => Wait
  end.

Definition main_exec (self : nat) (a : answer) (ts : list thr) (m : main_pc) (g : mem) : effect mem thr :=
  match m with
  | MCall f => call self a f g (fun f => Main (MCall f)) (fun b => Main (MSay b))
  | MSay b => Say (Main (MCreate b)) called_line
  | MCreate b => match a with Fails e => Go (Main (MFail false (Frame e (Some "pthread_create"%string) (enter self)))) g | Done _ => Create (Main (MJoin b)) (Worker TSay) end
  | MJoin b =>
      match a with
      | Fails e => Go (Main (MFail true (Frame e (Some "pthread_join"%string) (enter self)))) g
      | Done _ => if ts !! 1%nat is Some (Worker TEnd) then Go (Main (MPrint b)) g else Wait
      end
  | MPrint b => print_at g b (main_line b) (Main MExit)
  | MExit => Stop (Exited EXIT_SUCCESS)
  | MFail j f => call self a f g (fun f => Main (MFail j f)) (fun _ => Main MExit)    (* there is a report, so it does not return *)
  end.

Definition exec (self : nat) (a : answer) (ts : list thr) (t : thr) (g : mem) : effect mem thr :=
  match t with Main m => main_exec self a ts m g | Worker w => threadFunc self a w g end.

Definition start_state : sys mem thr := Sys (Mem zeros ∅ ∅ Fresh ∅) [Main (MCall (Frame EINVAL None (enter 0)))] [] None.

(** ** What holds of the buffers *)

Definition full (b : bytes) : Prop := length b = MAX_ERROR_LEN.

(** All buffers have their length, and no two threads have the same block. *)
Record mem_ok (g : mem) : Prop := {
  static_full : full (static_buf g);
  tls_full : forall i b, tls_buf g !! i = Some b -> full b;
  heap_full : forall n b, heap g !! n = Some b -> full b;
  key_blocks : forall i n, strerrorKey g !! i = Some n -> is_Some (heap g !! n);
  key_inj : forall i j n, strerrorKey g !! i = Some n -> strerrorKey g !! j = Some n -> i = j
}.

Definition owns (self : nat) (g : mem) (a : address) : Prop :=
  match st with
  | Static => a = AStatic
  | Tls => a = ATls self
  | Tsd => exists n, a = AHeap n /\ strerrorKey g !! self = Some n
  end.

Definition holds (g : mem) (a : address) (err : Z) : Prop :=
  exists b, load g a = Some b /\ take (length (text err)) b = text err.

(** The key has been created, if there is to be one. *)
Definition once_done (g : mem) : Prop := st = Tsd -> once g = Complete.

Definition sub_ok (self : nat) (err : Z) (p : pc) (g : mem) : Prop :=
  match p with
  | COnce => st = Tsd /\ once g <> Running
  | CKey => st = Tsd /\ once g = Running
  | CGet => st = Tsd /\ once g = Complete
  | CMalloc => st = Tsd /\ once g = Complete /\ strerrorKey g !! self = None
  | CSet n => st = Tsd /\ strerrorKey g !! self = None /\ once g = Complete /\ is_Some (heap g !! n) /\
              forall j m, strerrorKey g !! j = Some m -> m <> n
  | CFill a i => owns self g a /\ once_done g /\ (i <= length (text err))%nat /\
                 exists b, load g a = Some b /\ take i b = take i (text err)
  end.

(** What a step of one thread leaves to the others. *)
Definition leaves (self : nat) (g g' : mem) : Prop :=
  (forall j, j <> self -> strerrorKey g' !! j = strerrorKey g !! j) /\
  forall j a err, j <> self -> st <> Static -> owns j g a -> holds g a err -> owns j g' a /\ holds g' a err.

Lemma length_message err : (length (message err) <= MAX_ERROR_LEN - 1)%nat.
Proof. unfold message. rewrite length_take. lia. Qed.

Lemma length_text err : (0 < length (text err) <= MAX_ERROR_LEN)%nat.
Proof.
  pose proof (length_message err) as H. unfold text. unfold MAX_ERROR_LEN in *.
  case_match; rewrite !length_app, ?length_replicate; cbn [length]; lia.
Qed.

Lemma load_put g a b : load (put g a b) a = Some b.
Proof. destruct a; cbn; rewrite ?lookup_insert_eq; done. Qed.

Lemma load_put_ne g a a' b : a <> a' -> load (put g a b) a' = load g a'.
Proof. intros Ha. destruct a, a'; cbn; try done; rewrite lookup_insert_ne; congruence. Qed.

Lemma load_full g a b : mem_ok g -> load g a = Some b -> full b.
Proof.
  intros [] Hl. destruct a; cbn in Hl; [by injection Hl as <-| |by eauto].
  injection Hl as <-. destruct (tls_buf g !! thread) eqn:E; [by eauto|]. exact (length_replicate MAX_ERROR_LEN NUL).
Qed.

Lemma put_ok g a b : mem_ok g -> full b -> mem_ok (put g a b).
Proof.
  intros [] Hb. destruct a; split; cbn; try done.
  - intros i b' [[_ <-]|[_ ?]]%lookup_insert_Some; [done|by eauto].
  - intros i b' [[_ <-]|[_ ?]]%lookup_insert_Some; [done|by eauto].
  - intros i n' Hi. destruct (decide (block = n')) as [->|]; [by rewrite lookup_insert_eq|]. rewrite lookup_insert_ne by done. by eauto.
Qed.

Lemma owns_apart i j g a b : mem_ok g -> st <> Static -> i <> j -> owns i g a -> owns j g b -> a <> b.
Proof.
  intros Hg Hst Hij Ha Hb. unfold owns in *. destruct st; [done| |congruence].
  destruct Ha as (n & -> & Hn), Hb as (m & -> & Hm). intros [= ->]. by apply Hij, (key_inj g Hg _ _ m).
Qed.

Lemma put_leaves self g a b : mem_ok g -> owns self g a -> leaves self g (put g a b).
Proof.
  intros Hg Ha. split; [by destruct a|]. intros j a' err Hj Hst Hown (s & Hs & Ht). split; [unfold owns in *; destruct st, a; done|].
  exists s. split; [|done]. rewrite load_put_ne; [done|]. by apply (owns_apart self j g).
Qed.

Lemma block_of_fresh k g : heap g !! block_of k g = None.
Proof.
  unfold block_of. destruct (heap g !! k) as [b|] eqn:E; [|done].
  apply not_elem_of_dom, is_fresh.
Qed.

Lemma key_apart g n : mem_ok g -> heap g !! n = None -> forall j m, strerrorKey g !! j = Some m -> m <> n.
Proof. intros Hg Hn j m Hj ->. destruct (key_blocks g Hg j n Hj) as [b Hb]. congruence. Qed.

(** *** A step of strerror *)

Lemma fill_step self err a b i g s : mem_ok g -> sub_ok self err (CFill b i) g -> load g b = Some s ->
  forall c, text err !! i = Some c ->
  strerror self a err (CFill b i) g = Goes (CFill b (S i)) (put g b (<[i := c]> s)) /\
  mem_ok (put g b (<[i := c]> s)) /\ sub_ok self err (CFill b (S i)) (put g b (<[i := c]> s)).
Proof.
  intros Hg (Hown & Honce & Hi & s' & Hs' & Ht) Hs c Hc. rewrite Hs in Hs'. injection Hs' as <-.
  pose proof (load_full _ _ _ Hg Hs) as Hf. unfold full in Hf. pose proof (length_text err) as Hl.
  pose proof (lookup_lt_Some _ _ _ Hc) as Hlt. split_and!.
  - cbn. rewrite Hc, Hs. by rewrite decide_True by lia.
  - apply put_ok; [done|]. unfold full. by rewrite length_insert.
  - cbn. split_and!; [by unfold owns in *; destruct st, b| by destruct b|lia|]. exists (<[i := c]> s). split; [apply load_put|].
    rewrite (take_S_r (text err) i c) by done. rewrite (take_S_r _ i c) by (apply list_lookup_insert_eq; lia).
    rewrite take_insert_ge by lia. by rewrite Ht.
Qed.

Definition step_ok (self : nat) (err : Z) (g : mem) (r : result) : Prop :=
  match r with
  | Goes p' g' => mem_ok g' /\ sub_ok self err p' g' /\ leaves self g g' /\ (once g = Complete -> once g' = Complete)
  | Errs _ _ => st = Tsd
  | Returns b => owns self g b /\ holds g b err /\ once_done g
  | Blocks | Ends _ => False
  end.

Lemma mem_ok_once o g : mem_ok g -> mem_ok (set_once o g).
Proof. by intros []. Qed.

Lemma strerror_step self a err p g : mem_ok g -> sub_ok self err p g -> step_ok self err g (strerror self a err p g).
Proof.
  intros Hg Hp. destruct p as [| | | |n|b i].
  - destruct Hp as (Hst & Ho). cbn. destruct a as [k|e]; cbn; [|done]. destruct (once g) eqn:E; cbn; [|done|].
    + split_and!; first [by apply mem_ok_once|done|cbn; congruence].
    + split_and!; done.
  - destruct Hp as (Hst & Ho). cbn. destruct a as [k|e]; cbn; [|done]. split_and!; [by apply mem_ok_once|done..].
  - destruct Hp as (Hst & Ho). cbn. destruct (strerrorKey g !! self) as [n|] eqn:Hk; cbn; [|by split_and!].
    destruct (key_blocks g Hg _ _ Hk) as [s Hs]. split_and!; try done; [| |lia|by exists s].
    + unfold owns. rewrite Hst. by exists n.
    + by intros _.
  - destruct Hp as (Hst & Ho & Hk). cbn -[new_block]. destruct a as [k|e]; cbn -[new_block]; [|done].
    pose proof (block_of_fresh k g) as Hn. pose proof (key_apart g _ Hg Hn) as Hne. split_and!; try done.
    + apply (put_ok g (AHeap (block_of k g))); [done|]. unfold full, new_block. by rewrite length_fmap, length_seq.
    + rewrite lookup_insert_eq. by eexists.
    + split; [intros j Hj; cbn; by rewrite ?lookup_insert_ne|]. intros j a' err' Hj _ Hown (s & Hs & Ht). unfold owns in *. rewrite Hst in *. destruct Hown as (m & -> & Hm).
      split; [by exists m|]. exists s. split; [|done]. cbn in *. rewrite lookup_insert_ne; [done|]. intros Habs. by apply (Hne _ _ Hm).
  - destruct Hp as (Hst & Hk & Ho & (s & Hs) & Hne). cbn. destruct a as [k|e]; cbn; [|done]. split_and!; try done.
    + destruct Hg. split; cbn; try done.
      * intros i m [[_ <-]|[_ ?]]%lookup_insert_Some; [by eexists|by eauto].
      * intros i j m [[E1 E2]|[Hi Hi']]%lookup_insert_Some [[E3 E4]|[Hj Hj']]%lookup_insert_Some;
          [congruence|by destruct (Hne _ _ Hj')|by destruct (Hne _ _ Hi')|by eauto].
    + unfold owns. rewrite Hst. exists n. cbn. by rewrite lookup_insert_eq.
    + by intros _.
    + lia.
    + by exists s.
    + split; [intros j Hj; cbn; by rewrite ?lookup_insert_ne|]. intros j a' err' Hj _ Hown Hh. split; [|done]. unfold owns in *. rewrite Hst in *. destruct Hown as (m & -> & Hm).
      exists m. split; [done|]. cbn. by rewrite lookup_insert_ne.
  - pose proof Hp as (Hown & Honce & Hi & s & Hs & Ht). destruct (text err !! i) as [c|] eqn:Hc.
    + destruct (fill_step self err a b i g s Hg Hp Hs c Hc) as (-> & H1 & H2). cbn [step_ok].
      split_and!; [done..|by apply put_leaves|by destruct b].
    + cbn. rewrite Hc. cbn. apply lookup_ge_None in Hc. assert (i = length (text err)) as -> by lia.
      split_and!; [done| |done]. exists s. split; [done|]. by rewrite Ht, firstn_all.
Qed.

(** *** What a buffer shows *)

Lemma holds_shown g a err : NUL ∉ message err -> holds g a err -> load g a ≫= shown = Some (message err).
Proof.
  intros Hm (b & Hl & Ht). rewrite Hl. cbn.
  assert (exists pad, text err = message err ++ NUL :: pad) as [pad Hp].
  { unfold text. case_match; [by exists []|].
    destruct (MAX_ERROR_LEN - 1 - length (message err))%nat as [|k]; [by exists []|]. by eexists. }
  unfold shown. rewrite <- (take_drop (length (text err)) b), Ht, Hp, <- app_assoc. cbn [app].
  rewrite index_of_here by done. cbn. by rewrite take_app_length.
Qed.

(** ** The program *)

Context (Htexts : forall e s, errlist e = Some s -> NUL ∉ s).

Lemma message_no_nul err : NUL ∉ message err.
Proof.
  assert (NUL ∉ str "Unknown error " ++ dec err) as Hu.
  { rewrite not_elem_of_app. split; [|apply dec_c_string]. by_decide. }
  unfold message. intros Hin%subseteq_take. revert Hin. case_match; [done|]. destruct (errlist err) eqn:E; [by eapply Htexts|done].
Qed.

(** What the other thread finds in [a] at the end, when it returned [b]. *)
Definition told (a b : address) (g : mem) : Prop :=
  (a = b <-> st = Static) /\ holds g a (if decide (st = Static) then EPERM else EINVAL).

Definition lines3 (b : address) : list bytes := [called_line; about_line; other_line b (message EPERM)].
Definition lines4 (a b : address) : list bytes :=
  lines3 b ++ [main_line a (message (if decide (st = Static) then EPERM else EINVAL))].

(** The key could not be created: the report of that waits for the creation to be over. *)
Definition waits_for_key (f : frame) (g : mem) : Prop :=
  st = Tsd /\ is_Some (report f) /\ f_pc f = COnce /\ once g = Running.

Definition frame_ok (self : nat) (err : Z) (f : frame) (g : mem) : Prop :=
  sub_ok self (f_err f) (f_pc f) g /\ (report f = None -> f_err f = err).

Definition main_alone (m : main_pc) (out : list bytes) (g : mem) : Prop :=
  match m with
  | MCall f => (frame_ok 0 EINVAL f g \/ waits_for_key f g) /\ out = []
  | MSay a => owns 0 g a /\ holds g a EINVAL /\ once_done g /\ out = []
  | MCreate a => owns 0 g a /\ holds g a EINVAL /\ once_done g /\ out = [called_line]
  | MFail false f => sub_ok 0 (f_err f) (f_pc f) g /\ once_done g /\ is_Some (report f)
  | _ => False
  end.

Definition both (m : main_pc) (w : thread_pc) (out : list bytes) (g : mem) : Prop :=
  match m, w with
  | MJoin a, TSay => out = [called_line] /\ once_done g /\ owns 0 g a /\ holds g a EINVAL
  | MJoin a, TCall f => out = [called_line; about_line] /\ frame_ok 1 EPERM f g /\ once_done g /\ owns 0 g a /\ (st <> Static -> holds g a EINVAL)
  | MJoin a, TPrint b => out = [called_line; about_line] /\ owns 0 g a /\ owns 1 g b /\ holds g b EPERM /\ told a b g
  | MJoin a, TReturn => exists b, out = lines3 b /\ owns 0 g a /\ told a b g
  | (MJoin a | MPrint a), TEnd => exists b, out = lines3 b /\ told a b g
  | MExit, TEnd => exists a b, out = lines4 a b /\ (a = b <-> st = Static)
  | _, _ => False
  end.

Definition inv (s : sys mem thr) : Prop :=
  mem_ok (shared s) /\
  ((exists m, threads s = [Main m] /\ main_alone m (printed s) (shared s)) \/
   (exists m w, threads s = [Main m; Worker w] /\ both m w (printed s) (shared s))) /\
  match ended s with
  | None | Some (Failed _ _) => True
  | Some (Exited status) => status = EXIT_SUCCESS /\ exists w, threads s = [Main MExit; Worker w]
  | Some Undefined => False
  end.

Lemma sub_enter self err g : (st = Tsd -> once g <> Running) -> sub_ok self err (enter self) g.
Proof.
  intros Ho. unfold enter. destruct st eqn:E; cbn; unfold owns, once_done; rewrite ?E; split_and!; try done; try lia; auto; by eexists.
Qed.

Lemma done_not_running g : once_done g -> st = Tsd -> once g <> Running.
Proof. intros Hd Hst. by rewrite (Hd Hst). Qed.

Lemma leaves_holds self g g' j a err : leaves self g g' -> j <> self -> st <> Static -> owns j g a -> holds g a err -> holds g' a err.
Proof. intros [_ Hl] Hj Hst Ho Hh. by apply (Hl j a err). Qed.

Lemma leaves_owns self g g' j a : leaves self g g' -> j <> self -> owns j g a -> (st <> Static -> exists err, holds g a err) -> owns j g' a.
Proof.
  intros [_ Hl] Hj Ho Hh. destruct (decide (st = Static)) as [E|E]; [unfold owns in *; by rewrite E in *|].
  destruct (Hh E) as [err He]. by apply (Hl j a err).
Qed.

(** The buffers of the two threads once the other thread has written its own. *)
Lemma told_of g a b : mem_ok g -> owns 0 g a -> owns 1 g b -> (st <> Static -> holds g a EINVAL) -> holds g b EPERM -> told a b g.
Proof.
  intros Hg Ha Hb Hm Hw. unfold told. destruct (decide (st = Static)) as [E|E].
  - unfold owns in *. rewrite E in *. subst. by split.
  - split; [split; [|done]|by auto]. intros Hab. destruct (owns_apart 0 1 g a b Hg E ltac:(lia) Ha Hb Hab).
Qed.

Lemma told_destructor g a b : mem_ok g -> owns 0 g a -> told a b g -> told a b (destructor 1 g).
Proof.
  intros Hg Ha [Hab Hh]. split; [done|]. unfold destructor. destruct (strerrorKey g !! 1%nat) as [n|] eqn:Hk; [|done].
  destruct Hh as (s & Hs & Ht). exists s. split; [|done]. destruct a as [| |m]; cbn in *; try done.
  rewrite lookup_delete_ne; [done|]. intros ->. unfold owns in Ha. destruct st; [done| |done].
  destruct Ha as (n & [= ->] & Hn). pose proof (key_inj g Hg _ _ _ Hk Hn). lia.
Qed.

Lemma destructor_ok self g : mem_ok g -> mem_ok (destructor self g).
Proof.
  intros Hg. unfold destructor. destruct (strerrorKey g !! self) as [n|] eqn:Hk; [|done]. destruct Hg. split; cbn; try done.
  - intros m b [_ ?]%lookup_delete_Some. by eauto.
  - intros i m [Hi Hm]%lookup_delete_Some. rewrite lookup_delete_ne; [by eauto|]. intros <-. apply Hi. by eauto.
  - intros i j m [_ Hi]%lookup_delete_Some [_ Hj]%lookup_delete_Some. by eauto.
Qed.

Lemma print_at_says g a err line next : holds g a err -> print_at g a line next = Say next (line (message err)).
Proof. intros Hh. unfold print_at. by rewrite (holds_shown _ _ _ (message_no_nul err) Hh). Qed.

Lemma strerror_inv_start : inv start_state.
Proof.
  split; [split; cbn; intros; try done; by apply (f_equal length (eq_refl zeros))|]. split; [|done]. left.
  eexists. split; [done|]. split; [|done]. left. split; [by apply sub_enter|done].
Qed.

Lemma inv_alone_intro m out g : mem_ok g -> main_alone m out g -> inv (Sys g [Main m] out None).
Proof. intros Hg Hm. split; [done|]. split; [|done]. left. by exists m. Qed.

Lemma inv_both_intro m w out g : mem_ok g -> both m w out g -> inv (Sys g [Main m; Worker w] out None).
Proof. intros Hg Hm. split; [done|]. split; [|done]. right. by exists m, w. Qed.

Lemma strerror_inv_failed g ts out errnum c : inv (Sys g ts out None) -> inv (Sys g ts out (Some (Failed errnum c))).
Proof. by intros (Hg & Hs & _). Qed.

(** A step of a call of [strerror]. *)
Lemma call_inv self a f g ts i out at_ ret s' :
  mem_ok g -> sub_ok self (f_err f) (f_pc f) g -> inv (Sys g ts out None) ->
  (forall p' g', mem_ok g' -> sub_ok self (f_err f) p' g' -> leaves self g g' -> (once g = Complete -> once g' = Complete) ->
     inv (Sys g' (<[i := at_ (Frame (f_err f) (report f) p')]> ts) out None)) ->
  (forall e c, st = Tsd -> inv (Sys g (<[i := at_ (Frame e (Some c) COnce)]> ts) out None)) ->
  (forall b, report f = None -> owns self g b -> holds g b (f_err f) -> once_done g -> inv (Sys g (<[i := ret b]> ts) out None)) ->
  Threads.perform i (call self a f g at_ ret) (Sys g ts out None) = Some s' -> inv s'.
Proof.
  intros Hg Hp Hs Hgo Herr Hret. unfold call. pose proof (strerror_step self a (f_err f) (f_pc f) g Hg Hp) as Hst.
  destruct (strerror self a (f_err f) (f_pc f) g) as [p' g'|e c|b| |e]; cbn in *; [| | |done|done].
  - intros [= <-]. destruct Hst as (? & ? & ? & ?). by apply Hgo.
  - intros [= <-]. assert (enter self = COnce) as -> by (unfold enter; by rewrite Hst). by apply Herr.
  - destruct Hst as (? & ? & ?). destruct (report f) eqn:E; intros [= <-]; [by apply strerror_inv_failed|by apply Hret].
Qed.

(** main in the state [MFail true]: no more is said of the run. *)
Definition join_failed (s : sys mem thr) : Prop := exists f, threads s !! 0%nat = Some (Main (MFail true f)) /\ is_Some (report f).

Lemma waits_step f g i a s' : mem_ok g -> waits_for_key f g ->
  run_one exec i a (Sys g [Main (MCall f)] [] None) = Some s' -> inv s'.
Proof.
  intros Hg (Hst & Hr & Hp & Ho) Hrun. destruct i as [|i]; [|done]. unfold run_one in Hrun.
  cbn [ended threads lookup list_lookup exec main_exec] in Hrun. unfold call in Hrun. rewrite Hp in Hrun. cbn in Hrun. rewrite Ho in Hrun.
  destruct a as [k|e]; [done|]. cbn in Hrun. injection Hrun as <-. apply inv_alone_intro; [done|]. split; [|done]. right.
  unfold enter. rewrite Hst. by split_and!.
Qed.

Lemma alone_step m out g i a s' : mem_ok g -> main_alone m out g ->
  run_one exec i a (Sys g [Main m] out None) = Some s' -> inv s'.
Proof.
  intros Hg Hm Hr. pose proof (inv_alone_intro m out g Hg Hm) as Hs. destruct i as [|i]; [|done].
  destruct m as [f|b|b| | | |[] f]; [| | |done..|].
  - destruct Hm as ([[Hp Herr]|Hw] & ->); [|by eapply waits_step]. unfold run_one in Hr. cbn [ended threads lookup list_lookup exec main_exec] in Hr.
    refine (call_inv 0 a f g _ _ _ _ _ s' Hg Hp Hs _ _ _ Hr).
    + intros p' g' Hg' Hp' _ _. apply inv_alone_intro; [done|]. split; [|done]. by left.
    + intros e c Hst. apply inv_alone_intro; [done|]. split; [|done]. destruct (once g) eqn:E.
      * left. split; [split; [done|congruence]|done].
      * right. by split_and!.
      * left. split; [split; [done|congruence]|done].
    + intros b Hrep Hb Hh Ho. rewrite (Herr Hrep) in Hh. by apply inv_alone_intro.
  - cbn in Hr. injection Hr as <-. destruct Hm as (? & ? & ? & ->). by apply inv_alone_intro.
  - destruct Hm as (? & ? & Ho & ->). unfold run_one in Hr. destruct a as [k|e]; cbn in Hr; injection Hr as <-; [by apply inv_both_intro|].
    apply inv_alone_intro; [done|]. split_and!; [by apply sub_enter, done_not_running|done|by eexists].
  - destruct Hm as (Hp & Ho & [c Hrep]). unfold run_one in Hr. cbn [ended threads lookup list_lookup exec main_exec] in Hr.
    refine (call_inv 0 a f g _ _ _ _ _ s' Hg Hp Hs _ _ _ Hr).
    + intros p' g' Hg' Hp' _ Hc. apply inv_alone_intro; [done|]. split_and!; [done| |by exists c]. intros Hst. by apply Hc, Ho.
    + intros e' c' Hst. apply inv_alone_intro; [done|]. split_and!; [|done|by eexists]. split; [done|by apply done_not_running].
    + intros b Hn. congruence.
Qed.

Lemma main_step m w out g a s' : mem_ok g -> both m w out g ->
  run_one exec 0 a (Sys g [Main m; Worker w] out None) = Some s' -> inv s' \/ join_failed s'.
Proof.
  intros Hg Hm Hr. pose proof (inv_both_intro m w out g Hg Hm) as Hs.
  unfold run_one in Hr. cbn [ended threads lookup list_lookup exec] in Hr. destruct m as [| | |b|b| |]; [done..| | | |done].
  - cbn [main_exec] in Hr. destruct a as [k|e]; [left|right; cbn in Hr; injection Hr as <-; eexists; split; [done|by eexists]].
    destruct w; cbn in Hr; try done. injection Hr as <-. by apply inv_both_intro.
  - left. destruct w; try done. destruct Hm as (c & -> & Ht & Hh). cbn [main_exec] in Hr.
    rewrite (print_at_says _ _ _ _ _ Hh) in Hr. injection Hr as <-. apply inv_both_intro; [done|]. by exists b, c.
  - left. destruct w; try done. cbn in Hr. injection Hr as <-. destruct Hs as (? & Hs & _). split; [done|]. split; [done|].
    split; [done|]. by exists TEnd.
Qed.

Lemma strerror_worker_step m w out g a s' : mem_ok g -> both m w out g ->
  run_one exec 1 a (Sys g [Main m; Worker w] out None) = Some s' -> inv s'.
Proof.
  intros Hg Hm Hr. pose proof (inv_both_intro m w out g Hg Hm) as Hs.
  unfold run_one in Hr. cbn [ended threads lookup list_lookup exec] in Hr. destruct w as [|f|b| |].
  - destruct m; try done. cbn in Hr. injection Hr as <-. destruct Hm as (-> & Ho & Ha & Hh). apply inv_both_intro; [done|].
    split_and!; [done| |done|done|done]. split; [by apply sub_enter, done_not_running|done].
  - destruct m as [| | |c| | |]; try done. destruct Hm as (-> & [Hp Herr] & Ho & Ha & Hh). cbn [threadFunc] in Hr.
    refine (call_inv 1 a f g _ _ _ _ _ s' Hg Hp Hs _ _ _ Hr).
    + intros p' g' Hg' Hp' Hl Hc. apply inv_both_intro; [done|]. split_and!; [done|done|intros Hst; by apply Hc, Ho| |].
      * eapply leaves_owns; [done|lia|done|]. intros E. eexists. by apply Hh.
      * intros E. eapply leaves_holds; [done| |done..|by apply Hh]. lia.
    + intros e c' Hst. apply inv_both_intro; [done|]. split_and!; try done. split; [|done]. split; [done|by apply done_not_running].
    + intros b Hrep Hb Hb' _. rewrite (Herr Hrep) in Hb'. apply inv_both_intro; [done|]. split_and!; [done..|]. by apply told_of.
  - destruct m as [| | |c| | |]; try done. destruct Hm as (-> & Ha & Hb & Hh & Ht). cbn [threadFunc] in Hr.
    rewrite (print_at_says _ _ _ _ _ Hh) in Hr. injection Hr as <-. apply inv_both_intro; [done|]. by exists b.
  - destruct m as [| | |c| | |]; try done. destruct Hm as (b & -> & Ha & Ht). cbn in Hr. injection Hr as <-.
    apply inv_both_intro; [by apply destructor_ok|]. exists b. split; [done|]. by apply told_destructor.
  - done.
Qed.

Lemma join_failed_step s s' : join_failed s -> step exec (fun _ => True) s s' -> join_failed s'.
Proof.
  intros (f & Hf & Hrep) (_ & i & a & t & _ & Ht & Hp)%Threads.step_inv. destruct i as [|i].
  - assert (t = Main (MFail true f)) as -> by (unfold thr in *; congruence). cbn [exec main_exec] in Hp. unfold call in Hp. destruct s as [g ts out e]. cbn in *.
    destruct ts as [|t0 ts]; [done|]. destruct Hrep as [c Hc]. rewrite Hc in Hp.
    destruct (strerror 0 a (f_err f) (f_pc f) g); cbn in Hp; try done; injection Hp as <-; eexists; (split; [done|by eexists]).
  - exists f. destruct s as [g ts out e]. cbn in *. destruct ts as [|t0 ts]; [done|].
    destruct (exec (S i) a (t0 :: ts) t g); cbn in Hp; try done; by injection Hp as <-.
Qed.

Definition always (a : answer) : Prop := True.

Lemma strerror_inv_step s s' : inv s \/ join_failed s -> step exec always s s' -> inv s' \/ join_failed s'.
Proof.
  intros [(Hg & Hs & _)|Hj] Hst; [|right; by eapply join_failed_step]. destruct Hst as (i & a & _ & Hr). destruct s as [g ts out e].
  assert (e = None) as -> by (unfold run_one in Hr; cbn in Hr; by destruct e).
  cbn [shared threads printed] in *. destruct Hs as [(m & -> & Hm)|(m & w & -> & Hm)].
  - left. by eapply alone_step.
  - destruct i as [|[|i]]; [by eapply main_step|left; by eapply strerror_worker_step|done].
Qed.

Lemma inv_reachable s : rtc (step exec always) start_state s -> inv s \/ join_failed s.
Proof.
  intros Hr. apply (rtc_invariant (step exec always) (fun s => inv s \/ join_failed s) start_state); [by eauto using strerror_inv_step|left; apply strerror_inv_start|done].
Qed.

(** *** It ends *)

Definition sub_left (p : pc) : nat :=
  match p with
  | COnce => 262 | CKey => 261 | CGet => 260 | CMalloc => 259 | CSet _ => 258
  | CFill _ i => 257 - i
  end.
Definition thr_left (t : thr) : nat :=
  match t with
  | Main (MCall f) => 900 + sub_left (f_pc f)
  | Main (MSay _) => 899 | Main (MCreate _) => 898 | Main (MJoin _) => 4 | Main (MPrint _) => 3 | Main MExit => 2
  | Main (MFail _ f) => 10 + sub_left (f_pc f)
  | Worker TSay => 300
  | Worker (TCall f) => 10 + sub_left (f_pc f)
  | Worker (TPrint _) => 3 | Worker TReturn => 2 | Worker TEnd => 1
  end.
(** How many calls fail in a run; each lets the program take up to 300 steps more. *)
Definition failures (sched : list (nat * answer)) : nat :=
  sum_list_with (fun x => match x.2 with Done _ => 0 | Fails _ => 1 end)%nat sched.
Definition extra (a : answer) : nat := match a with Done _ => 0 | Fails _ => 300 end%nat.
Definition left (s : sys mem thr) : nat := sum_list_with thr_left (threads s) + if ended s is Some _ then 0 else 1.

Lemma strerror_left self a err p g p' g' : strerror self a err p g = Goes p' g' -> (sub_left p' < sub_left p)%nat.
Proof.
  intros Hs. pose proof (length_text err) as Hl. unfold MAX_ERROR_LEN in *. destruct p; cbn [strerror checked] in Hs.
  - destruct a as [k|e]; [|done]. cbn in Hs. destruct (once g); [|done|]; injection Hs as <- <-; cbn; lia.
  - destruct a as [k|e]; [|done]. injection Hs as <- <-. cbn. lia.
  - case_match; injection Hs as <- <-; cbn; lia.
  - destruct a as [k|e]; [|done]. injection Hs as <- <-. cbn. lia.
  - destruct a as [k|e]; [|done]. injection Hs as <- <-. cbn. lia.
  - destruct (text err !! i) eqn:E; [|done]. apply lookup_lt_Some in E. repeat case_match; try done. injection Hs as <- <-.
    cbn. lia.
Qed.

Lemma sub_left_bound p : (sub_left p <= 262)%nat.
Proof. destruct p; cbn; lia. Qed.

Definition goes_down (a : answer) (t : thr) (e : effect mem thr) : Prop :=
  match e with
  | Go t' _ | Say t' _ => (thr_left t' < thr_left t + extra a)%nat
  | Create t' c => (thr_left t' + thr_left c < thr_left t + extra a)%nat
  | Wait | Stop _ => True
  end.

Lemma call_left self a f g at_ ret t :
  (forall f', (sub_left (f_pc f') < sub_left (f_pc f) + extra a)%nat -> (thr_left (at_ f') < thr_left t + extra a)%nat) ->
  (forall b, (thr_left (ret b) < thr_left t)%nat) -> goes_down a t (call self a f g at_ ret).
Proof.
  intros Hat Hret. unfold call. destruct (strerror self a (f_err f) (f_pc f) g) as [p' g'|e c|b| |e] eqn:E; cbn; try done.
  - apply Hat. cbn. apply strerror_left in E. lia.
  - apply Hat. cbn. destruct a as [k|e']; cbn; [|pose proof (sub_left_bound (enter self)); lia].
    exfalso. revert E. unfold strerror, checked. repeat case_match; done.
  - destruct (report f) eqn:Hr; [done|]. cbn. specialize (Hret b). lia.
Qed.

Lemma print_left x g a line next t : (thr_left next < thr_left t)%nat -> goes_down x t (print_at g a line next).
Proof. intros Hl. unfold print_at. case_match; [|done]. cbn. lia. Qed.

Lemma exec_left i a ts t g : goes_down a t (exec i a ts t g).
Proof.
  destruct t as [[f|b|b|b|b| |j f]|[|f|b| |]]; cbn [exec main_exec threadFunc].
  - apply call_left; intros; cbn in *; lia.
  - cbn. lia.
  - destruct a; cbn; [lia|]. pose proof (sub_left_bound (enter i)). lia.
  - destruct a as [k|e]; cbn; [repeat case_match; cbn; try done; lia|]. pose proof (sub_left_bound (enter i)). lia.
  - apply print_left. cbn. lia.
  - done.
  - apply call_left; intros; cbn in *; lia.
  - cbn. unfold enter. destruct st; cbn; lia.
  - apply call_left; intros; cbn in *; lia.
  - apply print_left. cbn. lia.
  - cbn. lia.
  - done.
Qed.

Lemma failures_sum sched : sum_list_with (fun x => extra x.2) sched = (300 * failures sched)%nat.
Proof. unfold failures. induction sched as [|[i []] sched IH]; cbn in *; lia. Qed.

Lemma step_left i a s s' : run_one exec i a s = Some s' -> (left s' < left s + extra a)%nat.
Proof.
  intros Hr. unfold run_one in Hr. unfold left. destruct (ended s) eqn:He; [done|]. destruct (threads s !! i) as [t|] eqn:Ht; [|done].
  pose proof (exec_left i a (threads s) t (shared s)) as Hd.
  destruct (exec i a (threads s) t (shared s)) as [t' g'|t' c|t' out| |e]; cbn in *; try done; injection Hr as <-; cbn in *;
    rewrite ?He, ?sum_list_with_app; cbn;
    try (pose proof (Threads.sum_list_with_insert thr_left (threads s) i t t' Ht)); lia.
Qed.

Lemma run_left sched : forall s s', run exec sched s = Some s' ->
  (length sched + left s' <= left s + sum_list_with (fun x => extra x.2) sched)%nat.
Proof.
  induction sched as [|[i a] sched IH]; intros s s' Hr; [injection Hr as ->; cbn; lia|]. cbn in *.
  destruct (run_one exec i a s) as [s1|] eqn:E; [|done]. pose proof (step_left _ _ _ _ E).
  pose proof (IH s1 s' Hr). lia.
Qed.

(** *** It does not stop before *)

Lemma call_goes self f g at_ ret : mem_ok g -> sub_ok self (f_err f) (f_pc f) g -> call self (Done 0) f g at_ ret <> Wait.
Proof.
  intros Hg Hp. unfold call. pose proof (strerror_step self (Done 0) (f_err f) (f_pc f) g Hg Hp) as Hs.
  destruct (strerror self (Done 0) (f_err f) (f_pc f) g); try done. by case_match.
Qed.

Lemma print_goes g a line next : print_at g a line next <> Wait.
Proof. unfold print_at. by case_match. Qed.

(** The key was not created, and the first thread waits for itself. *)
Definition key_failed (s : sys mem thr) : Prop := exists f, threads s = [Main (MCall f)] /\ waits_for_key f (shared s).

Lemma inv_goes s : inv s -> ended s = None -> (exists i s', run_one exec i (Done 0) s = Some s') \/ key_failed s.
Proof.
  intros (Hg & Hs & _) He.
  enough ((exists i t, threads s !! i = Some t /\ exec i (Done 0) (threads s) t (shared s) <> Wait) \/ key_failed s) as [(i & t & Ht & Hw)|Hk].
  { left. exists i. by eapply Threads.run_one_enabled. }
  { by right. }
  destruct Hs as [(m & Hts & Hm)|(m & w & -> & Hm)].
  - destruct m as [f|b|b|b|b| |[] f]; try done.
    + destruct Hm as ([[Hp _]|Hw] & _); [left|right; by exists f].
      exists 0%nat, (Main (MCall f)). rewrite Hts. split; [done|]. by apply call_goes.
    + left. exists 0%nat, (Main (MSay b)). by rewrite Hts.
    + left. exists 0%nat, (Main (MCreate b)). by rewrite Hts.
    + left. exists 0%nat, (Main (MFail false f)). rewrite Hts. split; [done|]. destruct Hm as [Hp _]. by apply call_goes.
  - left. destruct w as [|f|b| |].
    1-4: eexists 1%nat, _; split; [done|].
    + done.
    + destruct m; try done. destruct Hm as (_ & [Hp _] & _). by apply call_goes.
    + apply print_goes.
    + done.
    + exists 0%nat, (Main m). split; [done|]. destruct m; try done. apply print_goes.
Qed.

(** C36: strerror_test.c, whichever calls fail (inside [strerror], or pthread_create) and however the two threads
    interleave: it makes at most 1200 steps, and 300 more for each call that fails, since the report of an error
    enters [strerror] again.  Before its end it goes on with the next call that succeeds, except that with
    thread-specific data it waits for ever when pthread_key_create failed, since the report of that waits for
    the pthread_once it is made in.  It does not run into undefined behaviour.  When it ends with success it has
    printed its four lines: with thread-specific data and with a thread-local variable main still finds the
    text of its own error, at an address that is not the other thread's; with the static buffer it finds the
    text of the other thread's error at the same address.  Of a run in which pthread_join, which has no reason
    to, fails while the other thread may still be in [strerror], only the bound is stated. *)
Theorem strerror_test_tells sched s : run exec sched start_state = Some s ->
  (length sched <= 1200 + 300 * failures sched)%nat /\
  (join_failed s \/
   (ended s = None -> (exists i s', run_one exec i (Done 0) s = Some s') \/ key_failed s) /\
   ended s <> Some Undefined /\
   forall status, ended s = Some (Exited status) -> status = EXIT_SUCCESS /\
     exists a b, (a = b <-> st = Static) /\
       printed s = [called_line; about_line; other_line b (message EPERM);
                    main_line a (message (if decide (st = Static) then EPERM else EINVAL))]).
Proof.
  intros Hr. split.
  - pose proof (run_left sched _ _ Hr) as Hle. unfold left, start_state, enter in Hle. cbn in Hle.
    rewrite failures_sum in Hle. destruct st; cbn in Hle; lia.
  - destruct (inv_reachable s) as [Hs|Hj]; [|right|by left]; [refine (Threads.run_rtc exec always sched _ _ _ Hr); by apply Forall_true|].
    split_and!.
    + by apply inv_goes.
    + intros E. destruct Hs as (_ & _ & Hs). by rewrite E in Hs.
    + intros status E. destruct Hs as (_ & Hs & He). rewrite E in He. destruct He as (-> & w & Hts). split; [done|].
      destruct Hs as [(m & Hts' & _)|(m & w' & Hts' & Hm)]; rewrite Hts in Hts'; [done|]. injection Hts' as <- <-.
      destruct w; try done. destruct Hm as (a & b & Hout & Hab). by exists a, b.
Qed.

(** in every reachable state, unless pthread_join has failed, each buffer has its 256 bytes, every thread that
    has stored a block under the key has one that is allocated, and no two threads have the same. *)
Theorem strerror_buffers_ok s : rtc (step exec always) start_state s -> mem_ok (shared s) \/ join_failed s.
Proof. intros [(Hg & _)|Hj]%inv_reachable; [by left|by right]. Qed.
End Program.

(** ** A run

    The three programs with two texts, the answer 0 to all calls and the threads one after the other. *)

Definition texts (e : Z) : option bytes :=
  if e =? EPERM then Some (str "Operation not permitted") else if e =? EINVAL then Some (str "Invalid argument") else None.
Definition name_of (a : address) : bytes :=
  match a with AStatic => str "0x1" | ATls i => str "0x2" ++ dec (Z.of_nat i) | AHeap n => str "0x3" ++ dec (Z.of_nat n) end.

Lemma texts_no_nul e s : texts e = Some s -> NUL ∉ s.
Proof. unfold texts. repeat case_match; intros [= <-]; by_decide. Qed.

Definition test_exec : storage -> nat -> answer -> list thr -> thr -> mem -> effect mem thr := exec 134 texts (fun _ => "x"%char) name_of.

(** The first thread that can makes a step, at most [fuel] times. *)
Fixpoint drive (st : storage) (fuel : nat) (s : sys mem thr) : nat * sys mem thr :=
  match fuel with
  | O => (O, s)
  | S fuel' =>
      match run_one (test_exec st) 0 (Done 0) s with
      | Some s' => let '(n, s'') := drive st fuel' s' in (S n, s'')
      | None =>
          match run_one (test_exec st) 1 (Done 0) s with
          | Some s' => let '(n, s'') := drive st fuel' s' in (S n, s'')
          | None => (O, s)
          end
      end
  end.

Lemma drive_run st fuel s : exists sched, run (test_exec st) sched s = Some (drive st fuel s).2 /\ length sched = (drive st fuel s).1.
Proof.
  revert s. induction fuel as [|fuel IH]; intros s; cbn [drive]; [by exists []|].
  destruct (run_one (test_exec st) 0 (Done 0) s) as [s'|] eqn:E0.
  - destruct (IH s') as (sched & Hs & Hl). destruct (drive st fuel s') as [n s'']. exists ((0%nat, Done 0) :: sched). cbn. rewrite E0. cbn in *. auto.
  - destruct (run_one (test_exec st) 1 (Done 0) s) as [s'|] eqn:E1; [|by exists []].
    destruct (IH s') as (sched & Hs & Hl). destruct (drive st fuel s') as [n s'']. exists ((1%nat, Done 0) :: sched). cbn. rewrite E1. cbn in *. auto.
Qed.

(** A failed call enters [strerror] again: [malloc] that fails three times is reported once it succeeds;
    a key that cannot be created blocks the process for ever. *)
Definition run_tsd (answers : list answer) : option (sys mem thr) :=
  run (test_exec Tsd) ((fun a => (0%nat, a)) <$> answers) (start_state Tsd).
Example failed_malloc_recurses :
  ended <$> run_tsd ([Done 0; Done 0; Done 0] ++ concat (replicate 3 [Fails 12; Done 0; Done 0]) ++ replicate 20 (Done 0)) =
  Some (Some (Failed 12 "malloc")).
Proof. vm_compute. reflexivity. Qed.
Example failed_key_blocks : exists s, run_tsd [Done 0; Fails 11] = Some s /\ ended s = None /\ run_one (test_exec Tsd) 0 (Done 0) s = None.
Proof. eexists. split; [vm_compute; reflexivity|]. by split. Qed.

Lemma strerror_test_tells_witness :
  let last st := (drive st 1200 (start_state st)).2 in
  printed (last Static) = [called_line; about_line; other_line name_of AStatic (str "Operation not permitted");
                           main_line name_of AStatic (str "Operation not permitted")] /\
  (exists a b, a <> b /\ printed (last Tsd) =
    [called_line; about_line; other_line name_of b (str "Operation not permitted"); main_line name_of a (str "Invalid argument")]) /\
  ended (last Tls) = Some (Exited EXIT_SUCCESS).
Proof.
  intros last.
  assert (forall st, ended (last st) = Some (Exited EXIT_SUCCESS) -> join_failed (last st) \/ exists a b, (a = b <-> st = Static) /\
    printed (last st) = [called_line; about_line; other_line name_of b (message 134 texts EPERM);
      main_line name_of a (message 134 texts (if decide (st = Static) then EPERM else EINVAL))]) as Hgo.
  { intros st Hend. destruct (drive_run st 1200 (start_state st)) as (sched & Hs & _).
    destruct (strerror_test_tells 134 texts (fun _ => "x"%char) name_of st texts_no_nul sched _ Hs) as [_ [Hj|(_ & _ & He)]]; [by left|right].
    by destruct (He _ Hend) as (_ & a & b & Hab); exists a, b. }
  split_and!.
  - destruct (Hgo Static ltac:(vm_compute; reflexivity)) as [(f & Hf & _)|(a & b & Hab & Hout)]; [vm_compute in Hf; discriminate Hf|].
    vm_compute. reflexivity.
  - destruct (Hgo Tsd ltac:(vm_compute; reflexivity)) as [(f & Hf & _)|(a & b & Hab & Hout)]; [vm_compute in Hf; discriminate Hf|].
    exists a, b. split; [intros E; by apply Hab in E|]. rewrite (Hout : printed (last Tsd) = _). vm_compute. reflexivity.
  - vm_compute. reflexivity.
Defined.

Lemma strerror_buffers_ok_witness : mem_ok (shared (drive Tsd 600 (start_state Tsd)).2).
Proof.
  destruct (drive_run Tsd 600 (start_state Tsd)) as (sched & Hs & _).
  destruct (strerror_buffers_ok 134 texts (fun _ => "x"%char) name_of Tsd texts_no_nul (drive Tsd 600 (start_state Tsd)).2) as [Hok|(f & Hf & _)]; [|exact Hok|].
  - refine (Threads.run_rtc _ always sched _ _ _ Hs). by apply Forall_true.
  - exfalso. vm_compute in Hf. discriminate Hf.
Defined.
