(* ===== verification/Pipes.v ===== *)
(** * Processes and pipes

    simple_pipe.c, change_case.c and pipe_sync.c (tlpi-dist/pipes).  The processes interleave at the
    level of system calls, on the scheduler of Threads.v.  Each holds its own ends of the pipes: a
    fork copies them, an exit closes them, and a read delivers the end of file only when no process
    has a write end.  A call may be answered by an error number, and a write of more than
    [PIPE_BUF] bytes goes through in pieces of any size. *)

From Stdlib Require Import ZArith Lia String Ascii.
From S2P Require Import Prelude CString Kernel GetNum.
From S2P Require Threads.
Import Threads (sys, Sys, shared, threads, printed, ended, effect, Go, Create, Say, Wait, Stop, run_one, step, run).

(** The answer to a call: it is done, a large write for [k] bytes for now, or it fails. *)
Inductive answer := Done (k : nat) | Fails (errnum : Z).

(** How a process ended: by [exit], after a failed call, by [fatal], or by SIGPIPE. *)
Inductive fate := Exited (status : Z) | Failed (errnum : Z) (call : string) | Fatal (msg : string) | Broken_pipe.

Definition PIPE_BUF : nat := 4096.

(** The ends of a pipe a process has open. *)
Record ends := Ends { r_end : bool; w_end : bool }.
Definition no_ends : ends := Ends false false.

(** [read] of [n] bytes from a pipe that holds [b]: the bytes and what is left, or the caller waits. *)
Definition pipe_read (writers : bool) (n : nat) (b : bytes) : option (bytes * bytes) :=
  match b with
  | [] => if writers then None else Some ([], [])
  | _ => Some (take n b, drop n b)
  end.

Inductive wrote := Moved (b rest : bytes) | Blocked | Broken.

(** [write] of [data] into a pipe with room for [cap] bytes: at most [PIPE_BUF] bytes go at once, or
    wait for room; of more, some. *)
Definition pipe_write (cap : nat) (readers : bool) (k : nat) (data b : bytes) : wrote :=
  if negb readers then Broken
  else
    let free := (cap - length b)%nat in
    if (length data <=? PIPE_BUF)%nat then (if (length data <=? free)%nat then Moved (b ++ data) [] else Blocked)
    else if (free =? 0)%nat then Blocked
    else let m := Nat.min (Nat.max 1 k) free in Moved (b ++ take m data) (drop m data).

Lemma pipe_write_moved cap k readers data b b' rest :
  pipe_write cap readers k data b = Moved b' rest -> b ++ data = b' ++ rest /\ (rest = [] \/ length rest < length data)%nat.
Proof.
  unfold pipe_write. destruct readers; [|done]. cbn [negb]. destruct (Nat.leb_spec (length data) PIPE_BUF) as [|Hlong].
  - destruct (length data <=? cap - length b)%nat; [|done]. intros [= <- <-]. rewrite app_nil_r. auto.
  - destruct (Nat.eqb_spec (cap - length b) 0); [done|]. intros [= <- <-].
    rewrite <- app_assoc, take_drop. split; [done|right]. rewrite length_drop. unfold PIPE_BUF in *. lia.
Qed.

(** An empty pipe does not block a write. *)
Lemma pipe_write_blocked cap k data : (PIPE_BUF <= cap)%nat -> pipe_write cap true k data [] = Blocked -> False.
Proof.
  intros Hcap. unfold pipe_write. cbn [negb length]. rewrite Nat.sub_0_r. destruct (Nat.leb_spec (length data) PIPE_BUF).
  - by rewrite (proj2 (Nat.leb_le _ _)) by lia.
  - rewrite (proj2 (Nat.eqb_neq cap 0)); [done|]. unfold PIPE_BUF in *. lia.
Qed.

(** ** simple_pipe.c *)

Module Simple.

Definition BUF_SIZE : nat := 10.

(** The pipe, and the standard output. *)
Record vars := Vars { pipe : bytes; out : bytes }.

Inductive parent_pc := PPipe | PFork | PCloseRead | PWrite (rest : bytes) | PCloseWrite | PWait | PEnd (f : fate).
Inductive child_pc := CCloseWrite | CRead | CWrite (buf : bytes) | CNewline | CClose | CEnd (f : fate).
Inductive proc := Parent (p : parent_pc) (pfd : ends) | Child (c : child_pc) (pfd : ends).

Definition pfd (t : proc) : ends := match t with Parent _ e | Child _ e => e end.
Definition readers (ts : list proc) : bool := existsb (fun t => r_end (pfd t)) ts.
Definition writers (ts : list proc) : bool := existsb (fun t => w_end (pfd t)) ts.
Definition has_ended (t : proc) : bool := match t with Parent (PEnd _) _ | Child (CEnd _) _ => true | _ => false end.

Section Program.
Context (cap : nat) (argument : bytes).

Definition parent_exec (a : answer) (ts : list proc) (p : parent_pc) (fd : ends) (g : vars) : effect vars proc :=
  let leave f := Go (Parent (PEnd f) no_ends) g in
  let check call k := match a with Done _ => k | Fails e => leave (Failed e call) end in
  match p with
  | PPipe => check "pipe"%string (Go (Parent PFork (Ends true true)) g)
  | PFork => check "fork"%string (Create (Parent PCloseRead fd) (Child CCloseWrite fd))
  | PCloseRead => check "close - parent"%string (Go (Parent (PWrite argument) (Ends false (w_end fd))) g)
  | PWrite rest =>
      match a with
      | Fails _ => leave (Fatal "parent - partial/failed write")
      | Done k =>
          match pipe_write cap (readers ts) k rest (pipe g) with
          | Moved b [] => Go (Parent PCloseWrite fd) (Vars b (out g))
          | Moved b rest' => Go (Parent (PWrite rest') fd) (Vars b (out g))
          | Blocked => Wait
          | Broken => leave Broken_pipe
          end
      end
  | PCloseWrite => check "close"%string (Go (Parent PWait (Ends (r_end fd) false)) g)
  | PWait =>
      match a with
      | Fails _ => leave (Exited EXIT_SUCCESS)
      | Done _ => if forallb has_ended (drop 1 ts) then leave (Exited EXIT_SUCCESS) else Wait
      end
  | PEnd _ => Wait
  end.

Definition child_exec (a : answer) (ts : list proc) (c : child_pc) (fd : ends) (g : vars) : effect vars proc :=
  let leave f g := Go (Child (CEnd f) no_ends) g in
  let check call k := match a with Done _ => k | Fails e => leave (Failed e call) g end in
  match c with
  | CCloseWrite => check "close - child"%string (Go (Child CRead (Ends (r_end fd) false)) g)
  | CRead =>
      check "read"%string
        (match pipe_read (writers ts) BUF_SIZE (pipe g) with
         | None => Wait
         | Some ([], b) => Go (Child CNewline fd) (Vars b (out g))
         | Some (buf, b) => Go (Child (CWrite buf) fd) (Vars b (out g))
         end)
  | CWrite buf =>
      match a with
      | Fails _ => leave (Fatal "child - partial/failed write") g
      | Done k =>
          let g' := Vars (pipe g) (out g ++ take k buf) in
          if (k <? length buf)%nat then leave (Fatal "child - partial/failed write") g' else Go (Child CRead fd) g'
      end
  | CNewline =>
      Go (Child CClose fd) (match a with Done (Datatypes.S _) => Vars (pipe g) (out g ++ [NL]) | _ => g end)
  | CClose => check "close"%string (leave (Exited EXIT_SUCCESS) g)
  | CEnd _ => Wait
  end.

Definition exec (self : nat) (a : answer) (ts : list proc) (t : proc) (g : vars) : effect vars proc :=
  match t with
  | Parent p fd => parent_exec a ts p fd g
  | Child c fd => child_exec a ts c fd g
  end.

(** After the check of the arguments. *)
Definition start_state : sys vars proc := Sys (Vars [] []) [Parent PPipe no_ends] [] None.
End Program.

(** *** The invariant *)

Section Correct.
Context (cap : nat) (argument : bytes) (Hcap : (PIPE_BUF <= cap)%nat).
Let ex := exec cap argument.

(** Every call is done; a write to the standard output is whole. *)
Definition full (a : answer) : Prop := exists k, a = Done k /\ (BUF_SIZE <= k)%nat.

Definition parent_fds (p : parent_pc) : ends :=
  match p with
  | PPipe | PWait | PEnd _ => no_ends
  | PFork | PCloseRead => Ends true true
  | PWrite _ | PCloseWrite => Ends false true
  end.
Definition child_fds (c : child_pc) : ends :=
  match c with CCloseWrite => Ends true true | CEnd _ => no_ends | _ => Ends true false end.

(** What the parent has still to send; unknown when it gave up. *)
Definition unsent (p : parent_pc) (u : bytes) : Prop :=
  match p with
  | PPipe | PFork | PCloseRead => u = argument
  | PWrite rest => u = rest
  | PCloseWrite | PWait => u = []
  | PEnd (Exited st) => u = [] /\ st = 0
  | PEnd _ => True
  end.

Definition part_of_argument (o : bytes) : Prop := exists x, x `prefix_of` argument /\ (o = x \/ o = x ++ [NL]).

Lemma part_of_start o rest : argument = o ++ rest -> part_of_argument o.
Proof. intros H. exists o. split; [by exists rest|by left]. Qed.

(** The argument is what was printed, what the child holds, what the pipe holds and what is not sent
    yet; after the end of file the pipe is empty and nobody can write to it.  [strict] when no call
    has failed. *)
Definition child_ok (strict : bool) (p : parent_pc) (c : child_pc) (u : bytes) (g : vars) : Prop :=
  match c with
  | CCloseWrite | CRead => argument = out g ++ pipe g ++ u
  | CWrite buf => argument = out g ++ buf ++ pipe g ++ u /\ (0 < length buf <= BUF_SIZE)%nat
  | CNewline => argument = out g ++ u /\ pipe g = [] /\ w_end (parent_fds p) = false
  | CClose | CEnd (Exited _) =>
      pipe g = [] /\ w_end (parent_fds p) = false /\
      (argument = out g ++ u /\ strict = false \/ exists x, out g = x ++ [NL] /\ argument = x ++ u) /\
      match c with CEnd (Exited st) => st = 0 | _ => True end
  | CEnd _ => strict = false /\ part_of_argument (out g)
  end.

Definition parent_ok (strict : bool) (p : parent_pc) : Prop :=
  match p with PEnd (Failed _ _ | Fatal _ | Broken_pipe) => strict = false | _ => True end.

Inductive inv (strict : bool) (s : sys vars proc) : Prop :=
| inv_alone p :
    threads s = [Parent p (parent_fds p)] -> ended s = None -> pipe (shared s) = [] -> out (shared s) = [] ->
    parent_ok strict p -> match p with PPipe | PFork | PEnd (Failed _ _) => True | _ => False end -> inv strict s
| inv_both p c u :
    threads s = [Parent p (parent_fds p); Child c (child_fds c)] -> ended s = None ->
    parent_ok strict p -> match p with PPipe | PFork => False | _ => True end ->
    unsent p u -> child_ok strict p c u (shared s) -> inv strict s.

Definition allowed (strict : bool) : answer -> Prop := if strict then full else fun _ => True.

Lemma simple_allowed_fails strict e : allowed strict (Fails e) -> strict = false.
Proof. destruct strict; [|done]. by intros (k & ? & _). Qed.

Lemma child_ok_closing strict p p' c u g :
  (w_end (parent_fds p) = false -> w_end (parent_fds p') = false) -> child_ok strict p c u g -> child_ok strict p' c u g.
Proof. intros Hw. destruct c as [| | | | |[]]; cbn [child_ok]; naive_solver. Qed.

(** The child can be in the way of a large write only by closing its end, which it does when nobody
    can write any more. *)
Lemma child_reads p c u g : child_ok true p c u g -> w_end (parent_fds p) = true -> r_end (child_fds c) = true.
Proof. destruct c as [| | | | |[]]; cbn; naive_solver. Qed.

Definition after_parent (strict : bool) (c : child_pc) (e : effect vars proc) : Prop :=
  match e with
  | Go t g' => exists p' u', t = Parent p' (parent_fds p') /\ parent_ok strict p' /\
      match p' with PPipe | PFork => False | _ => True end /\ unsent p' u' /\ child_ok strict p' c u' g'
  | Wait => True
  | _ => False
  end.

Lemma simple_parent_step strict p c u g a :
  parent_ok strict p -> match p with PPipe | PFork => False | _ => True end -> unsent p u -> child_ok strict p c u g ->
  allowed strict a ->
  after_parent strict c (parent_exec cap argument a [Parent p (parent_fds p); Child c (child_fds c)] p (parent_fds p) g).
Proof.
  intros Hpok Hp0 Hu Hc Ha.
  assert (forall f, match f with Exited _ => False | Broken_pipe => r_end (child_fds c) = false /\ w_end (parent_fds p) = true | _ => strict = false end ->
    after_parent strict c (Go (Parent (PEnd f) no_ends) g)) as Hleave.
  { intros f Hf. exists (PEnd f), u. split_and!; try done; [|by destruct f|by eapply child_ok_closing].
    destruct f; try done. cbn. destruct strict; [|done]. destruct Hf as [Hr Hw]. by rewrite (child_reads _ _ _ _ Hc Hw) in Hr. }
  destruct p as [| | |rest| | |f]; try done; cbn [parent_exec unsent] in *.
  - destruct a as [k|e]; [|apply Hleave; by eapply simple_allowed_fails]. exists (PWrite argument), u. split_and!; (done || by eapply child_ok_closing).
  - destruct a as [k|e]; [|apply Hleave; by eapply simple_allowed_fails]. subst u.
    destruct (pipe_write cap _ k rest (pipe g)) as [b rest'| |] eqn:Ew; [|done|].
    + apply pipe_write_moved in Ew as [Ew _].
      assert (child_ok strict (PWrite rest) c rest' (Vars b (out g))) as Hc'.
      { destruct c as [| | | | |[]]; cbn [child_ok out pipe] in *; rewrite <- ?Ew; naive_solver. }
      destruct rest' as [|x rest']; [exists PCloseWrite, []|exists (PWrite (x :: rest')), (x :: rest')];
        (split_and!; (done || by eapply child_ok_closing)).
    + apply Hleave. unfold pipe_write in Ew. split; [|done]. cbn in Ew. destruct (r_end (child_fds c)); [|done].
      cbn in Ew. by repeat case_match.
  - destruct a as [k|e]; [|apply Hleave; by eapply simple_allowed_fails]. exists PWait, u. split_and!; (done || by eapply child_ok_closing).
  - assert (after_parent strict c (Go (Parent (PEnd (Exited EXIT_SUCCESS)) no_ends) g)) as Hexit.
    { exists (PEnd (Exited EXIT_SUCCESS)), u. split_and!; (done || by eapply child_ok_closing). }
    destruct a as [k|e]; [|done]. by destruct (forallb _ _).
Qed.

Lemma simple_child_step strict p c u g a :
  match p with PPipe | PFork => False | _ => True end -> unsent p u -> child_ok strict p c u g -> allowed strict a ->
  match child_exec a [Parent p (parent_fds p); Child c (child_fds c)] c (child_fds c) g with
  | Go t g' => exists c', t = Child c' (child_fds c') /\ child_ok strict p c' u g'
  | Wait => True
  | _ => False
  end.
Proof.
  intros Hp0 Hu Hc Ha. destruct c as [| |buf| | |f]; cbn [child_exec child_ok] in *; try done.
  - destruct a as [k|e]; [by exists CRead|]. eexists (CEnd _). split; [done|]. split; [by eapply simple_allowed_fails|].
    by eapply part_of_start.
  - destruct a as [k|e].
    + unfold pipe_read. destruct (pipe g) as [|x b] eqn:Eb.
      * destruct (writers _) eqn:Ew; [done|]. exists CNewline. split; [done|]. cbn in Ew.
        split_and!; try done. by destruct (w_end (parent_fds p)).
      * set (bs := take BUF_SIZE (x :: b)). assert (bs ++ drop BUF_SIZE (x :: b) = x :: b) as E by apply take_drop.
        assert (0 < length bs <= BUF_SIZE)%nat as Hl by (unfold bs; rewrite length_take; unfold BUF_SIZE; change (length (x :: b)) with (S (length b)); lia).
        destruct bs as [|y bs]; [cbn in Hl; lia|]. exists (CWrite (y :: bs)). split; [done|]. cbn [child_ok out pipe]. split; [|done].
        by rewrite Hc, (app_assoc (y :: bs)), E.
    + eexists (CEnd _). split; [done|]. split; [by eapply simple_allowed_fails|]. by eapply part_of_start.
  - destruct Hc as [Hc Hl]. destruct a as [k|e].
    + destruct (Nat.ltb_spec k (length buf)) as [Hk|Hk].
      * eexists (CEnd _). split; [done|]. split.
        { destruct strict; [|done]. destruct Ha as (k' & [= ->] & ?). lia. }
        apply (part_of_start _ (drop k buf ++ pipe g ++ u)). cbn [out]. by rewrite <- app_assoc, (app_assoc (take k buf)), take_drop.
      * exists CRead. split; [done|]. cbn [child_ok out pipe]. by rewrite take_ge, <- app_assoc.
    + eexists (CEnd _). split; [done|]. split; [by eapply simple_allowed_fails|]. by eapply part_of_start.
  - destruct Hc as (Hc & Hp & Hw). exists CClose. split; [done|].
    destruct a as [[|k]|e]; cbn [child_ok out pipe]; split_and!; try done.
    + left. split; [done|]. destruct strict; [|done]. destruct Ha as (k' & [= <-] & Hk). unfold BUF_SIZE in Hk. lia.
    + right. eauto.
    + left. split; [done|]. by eapply simple_allowed_fails.
  - destruct Hc as (Hp & Hw & Hc & _). destruct a as [k|e].
    + exists (CEnd (Exited EXIT_SUCCESS)). split; [done|]. by split_and!.
    + eexists (CEnd _). split; [done|]. split; [by eapply simple_allowed_fails|].
      destruct Hc as [[Hc _]|(x & Hx & Hc)]; [by eapply part_of_start|].
      exists x. split; [by exists u|by right].
Qed.

Lemma simple_inv_step strict s s' : inv strict s -> step ex (allowed strict) s s' -> inv strict s'.
Proof.
  intros HI (Hend & i & a & t & Ha & Hi & Hp)%Threads.step_inv.
  destruct s as [g ts pr e]; cbn [shared threads printed ended] in *. subst e.
  destruct HI as [p Hts _ Hpipe Hout Hpok Hp0|p c u Hts _ Hpok Hp0 Hu Hc]; cbn [shared threads printed ended] in *; subst ts.
  - destruct i as [|i]; [|done]. injection Hi as <-. unfold ex, exec in Hp.
    destruct p as [| | |rest| | |[]]; try done; cbn [parent_exec] in Hp; destruct a as [k|e']; injection Hp as <-.
    + by apply (inv_alone _ _ PFork).
    + apply (inv_alone _ _ (PEnd (Failed e' "pipe"))); try done. by eapply simple_allowed_fails.
    + apply (inv_both _ _ PCloseRead CCloseWrite argument); try done. cbn [shared child_ok]. by rewrite Hpipe, Hout.
    + apply (inv_alone _ _ (PEnd (Failed e' "fork"))); try done. by eapply simple_allowed_fails.
  - destruct i as [|[|i]]; [| |done]; injection Hi as <-; unfold ex, exec in Hp.
    + pose proof (simple_parent_step strict p c u g a Hpok Hp0 Hu Hc Ha) as H.
      destruct (parent_exec _ _ _ _ _ _ _) as [t g'| | | |]; try done. destruct H as (p' & u' & -> & ? & ? & ? & ?).
      injection Hp as <-. by apply (inv_both _ _ p' c u').
    + pose proof (simple_child_step strict p c u g a Hp0 Hu Hc Ha) as H.
      destruct (child_exec _ _ _ _ _) as [t g'| | | |]; try done. destruct H as (c' & -> & ?).
      injection Hp as <-. by apply (inv_both _ _ p c' u).
Qed.

Lemma simple_inv_start strict : inv strict start_state.
Proof. by apply (inv_alone _ _ PPipe). Qed.

(** As long as a process has not ended, one can go on, whatever the sizes of the transfers. *)
Lemma simple_progress strict s k :
  inv strict s -> forallb has_ended (threads s) = false -> exists i s', run_one ex i (Done k) s = Some s'.
Proof.
  intros [p Hts He Hpipe Hout _ Hp0|p c u Hts He _ Hp0 Hu Hc] Hlive; rewrite Hts in Hlive.
  - exists 0%nat. eapply Threads.run_one_enabled; [done|by rewrite Hts|]. by destruct p as [| | | | | |[]].
  - assert (exec cap argument 0 (Done k) (threads s) (Parent p (parent_fds p)) (shared s) <> Wait -> exists i s', run_one ex i (Done k) s = Some s') as Hpar.
    { intros H. exists 0%nat. by eapply Threads.run_one_enabled; [done|by rewrite Hts|]. }
    assert (exec cap argument 1 (Done k) (threads s) (Child c (child_fds c)) (shared s) <> Wait -> exists i s', run_one ex i (Done k) s = Some s') as Hchild.
    { intros H. exists 1%nat. by eapply Threads.run_one_enabled; [done|by rewrite Hts|]. }
    rewrite Hts in Hpar, Hchild. cbn [exec] in Hpar, Hchild.
    assert (has_ended (Child c (child_fds c)) = false -> (c = CRead -> w_end (parent_fds p) = true -> pipe (shared s) <> []) ->
      exists i s', run_one ex i (Done k) s = Some s') as Hrun.
    { intros Hn Hr. destruct c as [| |buf| | |f]; try done; apply Hchild; cbn [child_exec]; try done.
      - unfold pipe_read. destruct (pipe (shared s)) as [|x b]; [|by destruct (take _ _)].
        cbn. destruct (w_end (parent_fds p)) eqn:Ew; [by destruct Hr|done].
      - by destruct (k <? length buf)%nat. }
    destruct p as [| | |rest| | |f]; try done; try (by apply Hpar).
    + destruct (r_end (child_fds c)) eqn:Er.
      * destruct (pipe_write cap true k rest (pipe (shared s))) as [b r| |] eqn:Ew.
        -- apply Hpar. cbn [parent_exec]. unfold readers. cbn. rewrite Er. cbn [orb]. rewrite Ew. by destruct r.
        -- apply Hrun; [by destruct c as [| | | | |[]]|]. intros _ _ Hnil. rewrite Hnil in Ew. by apply pipe_write_blocked in Ew.
        -- apply Hpar. cbn [parent_exec]. unfold readers. cbn. rewrite Er. cbn [orb]. by rewrite Ew.
      * apply Hpar. cbn [parent_exec]. unfold readers. cbn. by rewrite Er.
    + destruct (has_ended (Child c (child_fds c))) eqn:Ec; [|by apply Hrun].
      apply Hpar. cbn [parent_exec drop forallb]. by rewrite Ec.
    + apply Hrun; [|done]. cbn in Hlive |- *. by rewrite andb_true_r in Hlive.
Qed.

(** *** What is left to do *)

Definition mu_proc (t : proc) : nat :=
  let n := length argument in
  match t with
  | Parent PPipe _ => 3 * n + 10
  | Parent PFork _ => 3 * n + 9
  | Parent PCloseRead _ => 3 * n + 4
  | Parent (PWrite rest) _ => 3 * length rest + 3
  | Parent PCloseWrite _ => 2
  | Parent PWait _ => 1
  | Child CCloseWrite _ | Child (CWrite _) _ => 4
  | Child CRead _ => 3
  | Child CNewline _ => 2
  | Child CClose _ => 1
  | Parent (PEnd _) _ | Child (CEnd _) _ => 0
  end.
Definition mu (s : sys vars proc) : nat := foldr Nat.add 0%nat (mu_proc <$> threads s) + 2 * length (pipe (shared s)).

Lemma simple_mu_step s s' : inv false s -> step ex (fun _ => True) s s' -> (mu s' < mu s)%nat.
Proof.
  intros HI (Hend & i & a & t & _ & Hi & Hp)%Threads.step_inv.
  destruct s as [g ts pr e]; cbn [shared threads printed ended] in *. subst e. unfold mu. cbn [threads shared].
  assert (forall p fd ts, match parent_exec cap argument a ts p fd g with
    | Go t' g' => (mu_proc t' + 2 * length (pipe g') < mu_proc (Parent p fd) + 2 * length (pipe g))%nat
    | Create t' c => (mu_proc t' + mu_proc c < mu_proc (Parent p fd))%nat
    | Wait => True
    | _ => False end) as Hpar.
  { clear. intros p fd ts. destruct p as [| | |rest| | |f]; cbn [parent_exec]; destruct a as [k|e]; cbn; try lia; try done.
    - destruct (pipe_write cap (readers ts) k rest (pipe g)) as [b r| |] eqn:Ew; cbn; try done; [|lia].
      apply pipe_write_moved in Ew as [Ew Hr]. apply (f_equal length) in Ew. rewrite !length_app in Ew.
      destruct r as [|x r]; cbn in *; [lia|]. destruct Hr; [done|]. lia.
    - destruct (forallb _ _); cbn; lia. }
  assert (forall c fd ts, match child_exec a ts c fd g with
    | Go t' g' => (mu_proc t' + 2 * length (pipe g') < mu_proc (Child c fd) + 2 * length (pipe g))%nat
    | Wait => True
    | _ => False end) as Hchild.
  { clear. intros c fd ts. destruct c as [| |buf| | |f]; cbn [child_exec]; destruct a as [k|e]; cbn [mu_proc pipe]; try lia; try done.
    - unfold pipe_read. destruct (pipe g) as [|x b]; [destruct (writers ts); [done|cbn; lia]|].
      cbn. rewrite length_drop. lia.
    - destruct (k <? length buf)%nat; cbn; lia.
    - destruct k; cbn [mu_proc pipe]; lia. }
  destruct HI as [p Hts _ _ _ _ Hp0|p c u Hts _ _ Hp0 _ _]; cbn [threads] in Hts; subst ts.
  - destruct i as [|i]; [|done]. injection Hi as <-. unfold ex, exec in Hp. specialize (Hpar p (parent_fds p) [Parent p (parent_fds p)]).
    destruct (parent_exec _ _ _ _ _ _ _) as [t g'|t c|t o| |en] eqn:E; try done; injection Hp as <-;
      cbn [threads shared fmap list_fmap foldr app insert list_insert] in *; lia.
  - destruct i as [|[|i]]; [| |done]; injection Hi as <-; unfold ex, exec in Hp.
    + specialize (Hpar p (parent_fds p) [Parent p (parent_fds p); Child c (child_fds c)]).
      destruct (parent_exec _ _ _ _ _ _ _) as [t g'|t c'|t o| |en] eqn:E; try done; injection Hp as <-;
        cbn [threads shared fmap list_fmap foldr app insert list_insert] in *; lia.
    + specialize (Hchild c (child_fds c) [Parent p (parent_fds p); Child c (child_fds c)]).
      destruct (child_exec _ _ _ _ _) as [t g'|t c'|t o| |en] eqn:E; try done; injection Hp as <-;
        cbn [threads shared fmap list_fmap foldr app insert list_insert] in *; lia.
Qed.

Definition fates (s : sys vars proc) : list fate :=
  omap (fun t => match t with Parent (PEnd f) _ | Child (CEnd f) _ => Some f | _ => None end) (threads s).

(** simple_pipe prints its argument.  Whatever the interleaving of parent and child, the sizes
    in which a large argument goes through the pipe and the calls that fail: the processes are
    never stuck, they make at most [3 * n + 10] steps for an argument of [n] bytes, and the output
    is a part of the argument from its start, with a newline after it at most.  When both exit
    with success, all of the argument was printed; while no call fails, they do, and the newline
    was printed too. *)
Theorem simple_pipe_echoes :
  (forall s, rtc (step ex (fun _ => True)) start_state s ->
     (forallb has_ended (threads s) = false -> forall k, exists i s', run_one ex i (Done k) s = Some s') /\
     part_of_argument (out (shared s)) /\
     (fates s = [Exited 0; Exited 0] -> out (shared s) = argument \/ out (shared s) = argument ++ [NL])) /\
  (forall n s, nsteps (step ex (fun _ => True)) n start_state s -> (n <= 3 * length argument + 10)%nat) /\
  (forall s, rtc (step ex full) start_state s -> forallb has_ended (threads s) = true ->
     fates s = [Exited 0; Exited 0] /\ out (shared s) = argument ++ [NL]).
Proof.
  assert (forall strict s, rtc (step ex (allowed strict)) start_state s -> inv strict s) as Hinv.
  { intros strict s. apply Prelude.rtc_invariant; [intros ??; apply simple_inv_step|apply simple_inv_start]. }
  split; [|split].
  - intros s HI%(Hinv false). split; [by intros; apply (simple_progress false)|].
    destruct HI as [p Hts _ _ Ho _ Hp0|p c u Hts _ _ _ Hu Hc].
    + rewrite Ho. split; [by apply (part_of_start _ argument)|]. unfold fates. rewrite Hts. by destruct p as [| | | | | |[]].
    + split.
      * assert (pipe (shared s) = [] /\ w_end (parent_fds p) = false /\
          (argument = out (shared s) ++ u /\ false = false \/ exists x, out (shared s) = x ++ [NL] /\ argument = x ++ u) ->
          part_of_argument (out (shared s))) as Hafter.
        { intros (_ & _ & [[Ha _]|(x & Hx & Ha)]); [by eapply part_of_start|]. exists x. split; [by exists u|by right]. }
        destruct c as [| | | | |[]]; cbn [child_ok] in Hc; destruct_and?; try done; try (by eapply part_of_start); by apply Hafter.
      * unfold fates. rewrite Hts. destruct p as [| | | | | |[]], c as [| | | | |[]]; try done. cbn.
        destruct Hu as [-> _], Hc as (_ & _ & [[Hc _]|(x & Hx & Hc)] & _); rewrite app_nil_r in Hc; [by left|right]. by rewrite Hx, Hc.
  - intros n s Hn. assert (mu start_state = 3 * length argument + 10)%nat as <- by (unfold mu; cbn; lia).
    refine (nsteps_bounded_inv _ (inv false) mu _ _ s _ _ _ Hn); [apply simple_inv_step|apply simple_mu_step|apply simple_inv_start].
  - intros s HI%(Hinv true) Hall. destruct HI as [p Hts _ _ _ Hpok Hp0|p c u Hts _ Hpok _ Hu Hc]; rewrite Hts in Hall.
    + by destruct p as [| | | | | |[]].
    + unfold fates. rewrite Hts. destruct p as [| | | | | |[]], c as [| | | | |[]]; try done; cbn in Hpok, Hc; try (by destruct_and?).
      destruct Hu as [-> ->], Hc as (_ & _ & [[_ ?]|(x & Hx & Hc)] & ->); [done|]. rewrite app_nil_r in Hc. by rewrite Hx, Hc.
Qed.
End Correct.

(** *** A run

    The argument goes through in two reads. *)
Definition echo_run : list (nat * answer) :=
  (fun i => (i, Done 10)) <$> ([0; 0; 0; 1; 0; 1; 1; 0; 1; 1; 1; 1; 1; 0])%nat.

Lemma simple_pipe_echoes_witness :
  exists s, run (exec 4096 (str "hello, world")) echo_run start_state = Some s /\ fates s = [Exited 0; Exited 0] /\
    out (shared s) = str "hello, world" ++ [NL].
Proof.
  destruct (run (exec 4096 (str "hello, world")) echo_run start_state) as [s|] eqn:E; [|vm_compute in E; discriminate E].
  exists s. split; [done|].
  assert (rtc (step (exec 4096 (str "hello, world")) full) start_state s) as Hrun.
  { refine (Threads.run_rtc _ full _ _ _ _ E). apply Forall_fmap, Forall_true. intros x. exists 10%nat. split; [done|]. unfold BUF_SIZE. cbn. lia. }
  destruct (simple_pipe_echoes 4096 (str "hello, world") (Nat.le_refl _)) as (_ & _ & Hfull).
  refine (Hfull s Hrun _). vm_compute in E. by injection E as <-.
Defined.
End Simple.
