(* ===== verification/ChangeCase.v ===== *)
(** * Text through two pipes

    change_case.c (tlpi-dist/pipes): the parent sends what it reads to a child, which sends it back
    in capitals.  The processes and pipes are those of Pipes.v; the standard input is what its
    reads deliver, one after the other. *)

From Stdlib Require Import ZArith Lia String Ascii.
From S2P Require Import Prelude CString Kernel Pipes.
From S2P Require Threads.
Import Threads (sys, Sys, shared, threads, printed, ended, effect, Go, Create, Say, Wait, Stop, run_one, step, run).

Definition BUF_SIZE : nat := 100.

Record vars := Vars { input : list bytes; outbound : bytes; inbound : bytes; out : bytes }.

(** The ends of both pipes. *)
Record fds := Fds { o_ends : ends; i_ends : ends }.
Definition no_fds : fds := Fds no_ends no_ends.

Inductive parent_pc :=
| PPipe1 | PPipe2 | PFork | PClose1 | PClose2
| PRead | PSend (buf : bytes) | PReadBack | PPrint (buf : bytes) | PEnd (f : fate).
Inductive child_pc := CClose1 | CClose2 | CRead | CSend (buf : bytes) | CEnd (f : fate).
Inductive proc := Parent (p : parent_pc) (fd : fds) | Child (c : child_pc) (fd : fds).

Definition fd_of (t : proc) : fds := match t with Parent _ fd | Child _ fd => fd end.
Definition has_ended (t : proc) : bool := match t with Parent (PEnd _) _ | Child (CEnd _) _ => true | _ => false end.
Definition any (f : fds -> bool) (ts : list proc) : bool := existsb (fun t => f (fd_of t)) ts.

(** [read] on the standard input. *)
Definition stdin_read (n : nat) (l : list bytes) : bytes * list bytes :=
  match l with
  | [] => ([], [])
  | c :: l' => if (length c <=? n)%nat then (c, l') else (take n c, drop n c :: l')
  end.

Section Program.
Context (cap : nat).

Definition parent_exec (a : answer) (ts : list proc) (p : parent_pc) (fd : fds) (g : vars) : effect vars proc :=
  let leave f := Go (Parent (PEnd f) no_fds) g in
  let check call k := match a with Done _ => k | Fails e => leave (Failed e call) end in
  match p with
  | PPipe1 => check "pipe"%string (Go (Parent PPipe2 (Fds (Ends true true) (i_ends fd))) g)
  | PPipe2 => check "pipe"%string (Go (Parent PFork (Fds (o_ends fd) (Ends true true))) g)
  | PFork => check "fork"%string (Create (Parent PClose1 fd) (Child CClose1 fd))
  | PClose1 => check "close"%string (Go (Parent PClose2 (Fds (Ends false (w_end (o_ends fd))) (i_ends fd))) g)
  | PClose2 => check "close"%string (Go (Parent PRead (Fds (o_ends fd) (Ends (r_end (i_ends fd)) false))) g)
  | PRead =>
      check "read"%string
        (match stdin_read BUF_SIZE (input g) with
         | ([], l) => Go (Parent (PEnd (Exited EXIT_SUCCESS)) no_fds) (Vars l (outbound g) (inbound g) (out g))
         | (buf, l) => Go (Parent (PSend buf) fd) (Vars l (outbound g) (inbound g) (out g))
         end)
  | PSend buf =>
      check "write"%string
        (match pipe_write cap (any (fun e => r_end (o_ends e)) ts) (length buf) buf (outbound g) with
         | Moved b _ => Go (Parent PReadBack fd) (Vars (input g) b (inbound g) (out g))
         | Blocked => Wait
         | Broken => leave Broken_pipe
         end)
  | PReadBack =>
      check "read"%string
        (match pipe_read (any (fun e => w_end (i_ends e)) ts) BUF_SIZE (inbound g) with
         | None => Wait
         | Some ([], b) => Go (Parent PRead fd) (Vars (input g) (outbound g) b (out g))
         | Some (buf, b) => Go (Parent (PPrint buf) fd) (Vars (input g) (outbound g) b (out g))
         end)
  | PPrint buf =>
      match a with
      | Done k => Go (Parent PRead fd) (Vars (input g) (outbound g) (inbound g) (out g ++ take k buf))
      | Fails e => leave (Failed e "write")
      end
  | PEnd _ => Wait
  end.

Definition child_exec (a : answer) (ts : list proc) (c : child_pc) (fd : fds) (g : vars) : effect vars proc :=
  let leave f := Go (Child (CEnd f) no_fds) g in
  let check call k := match a with Done _ => k | Fails e => leave (Failed e call) end in
  match c with
  | CClose1 => check "close"%string (Go (Child CClose2 (Fds (Ends (r_end (o_ends fd)) false) (i_ends fd))) g)
  | CClose2 => check "close"%string (Go (Child CRead (Fds (o_ends fd) (Ends false (w_end (i_ends fd))))) g)
  | CRead =>
      check "read"%string
        (match pipe_read (any (fun e => w_end (o_ends e)) ts) BUF_SIZE (outbound g) with
         | None => Wait
         | Some ([], b) => leave (Exited EXIT_SUCCESS)
         | Some (buf, b) => Go (Child (CSend (toupper <$> buf)) fd) (Vars (input g) b (inbound g) (out g))
         end)
  | CSend buf =>
      check "write"%string
        (match pipe_write cap (any (fun e => r_end (i_ends e)) ts) (length buf) buf (inbound g) with
         | Moved b _ => Go (Child CRead fd) (Vars (input g) (outbound g) b (out g))
         | Blocked => Wait
         | Broken => leave Broken_pipe
         end)
  | CEnd _ => Wait
  end.

Definition exec (self : nat) (a : answer) (ts : list proc) (t : proc) (g : vars) : effect vars proc :=
  match t with
  | Parent p fd => parent_exec a ts p fd g
  | Child c fd => child_exec a ts c fd g
  end.

Definition start_state (l : list bytes) : sys vars proc := Sys (Vars l [] [] []) [Parent PPipe1 no_fds] [] None.
End Program.

(** ** The invariant *)

Section Correct.
Context (cap : nat) (Hcap : (PIPE_BUF <= cap)%nat) (stdin : list bytes) (Hstdin : Forall (fun c => c <> []) stdin).
Let ex := exec cap.
Let text : bytes := toupper <$> concat stdin.

(** The writes to the standard output are whole; when [strict], no call fails. *)
Definition whole (a : answer) : Prop := match a with Done k => (BUF_SIZE <= k)%nat | Fails _ => True end.
Definition full (a : answer) : Prop := exists k, a = Done k /\ (BUF_SIZE <= k)%nat.
Definition allowed (strict : bool) : answer -> Prop := if strict then full else whole.

Definition parent_fds (p : parent_pc) : fds :=
  match p with
  | PPipe1 | PEnd _ => no_fds
  | PPipe2 => Fds (Ends true true) no_ends
  | PFork | PClose1 => Fds (Ends true true) (Ends true true)
  | PClose2 => Fds (Ends false true) (Ends true true)
  | _ => Fds (Ends false true) (Ends true false)
  end.
Definition child_fds (c : child_pc) : fds :=
  match c with
  | CClose1 => Fds (Ends true true) (Ends true true)
  | CClose2 => Fds (Ends true false) (Ends true true)
  | CRead | CSend _ => Fds (Ends true false) (Ends false true)
  | CEnd _ => no_fds
  end.

Definition idle (c : child_pc) : Prop := match c with CClose1 | CClose2 | CRead => True | _ => False end.
Definition bad (f : fate) : Prop := match f with Exited _ => False | _ => True end.
Definition dead (c : child_pc) : Prop := match c with CEnd f => bad f | _ => False end.
Definition early (p : parent_pc) : Prop := match p with PPipe1 | PPipe2 | PFork => True | _ => False end.

(** The text is what was printed, [x], and what is not read yet. *)
Definition chain (x : bytes) (g : vars) : Prop := text = out g ++ x ++ (toupper <$> concat (input g)).
Definition quiet (g : vars) : Prop := outbound g = [] /\ inbound g = [].
Definition piece (x : bytes) : Prop := (0 < length x <= BUF_SIZE)%nat.

(** Where the piece of text under way is; it is lost only when the child has failed. *)
Inductive flow (strict : bool) : parent_pc -> child_pc -> vars -> Prop :=
| f_idle p c g : match p with PClose1 | PClose2 | PRead => True | _ => False end -> idle c -> quiet g -> chain [] g -> flow strict p c g
| f_send buf c g : idle c -> quiet g -> piece buf -> chain (toupper <$> buf) g -> flow strict (PSend buf) c g
| f_out c g : idle c -> inbound g = [] -> piece (outbound g) -> chain (toupper <$> outbound g) g -> flow strict PReadBack c g
| f_child x g : quiet g -> piece x -> chain x g -> flow strict PReadBack (CSend x) g
| f_in c g : c = CRead \/ strict = false /\ dead c -> outbound g = [] -> piece (inbound g) -> chain (inbound g) g -> flow strict PReadBack c g
| f_print x c g : c = CRead \/ strict = false /\ dead c -> quiet g -> piece x -> chain x g -> flow strict (PPrint x) c g
| f_dead p c g : strict = false -> dead c -> match p with PPrint _ => False | _ => True end -> inbound g = [] -> out g `prefix_of` text -> flow strict p c g
| f_failed f c g : strict = false -> bad f -> out g `prefix_of` text -> flow strict (PEnd f) c g
| f_done c g : idle c \/ c = CEnd (Exited 0) -> quiet g -> out g = text -> flow strict (PEnd (Exited 0)) c g.

Inductive inv (strict : bool) (s : sys vars proc) : Prop :=
| inv_alone p :
    threads s = [Parent p (parent_fds p)] -> ended s = None -> quiet (shared s) -> out (shared s) = [] -> input (shared s) = stdin ->
    early p \/ strict = false /\ (exists f, p = PEnd f /\ bad f) -> inv strict s
| inv_both p c :
    threads s = [Parent p (parent_fds p); Child c (child_fds c)] -> ended s = None ->
    ~ early p -> Forall (fun c => c <> []) (input (shared s)) -> flow strict p c (shared s) -> inv strict s.

Lemma case_allowed_fails strict e : allowed strict (Fails e) -> strict = false.
Proof. destruct strict; [|done]. by intros (k & ? & _). Qed.

Lemma flow_prefix strict p c g : flow strict p c g -> out g `prefix_of` text.
Proof.
  destruct 1 as [| | | | | | | |c g _ _ E]; try done; try (by eexists; match goal with H : chain _ _ |- _ => exact H end).
  exists []. by rewrite app_nil_r.
Qed.

Lemma flow_fails strict p c g f : strict = false -> bad f -> flow strict p c g -> flow strict (PEnd f) c g.
Proof. intros Hs Hf HF. apply f_failed; [done|done|by eapply flow_prefix]. Qed.

(** A piece fits into an empty pipe, unless nobody can read it. *)
Lemma pipe_write_piece readers k x : (length x <= BUF_SIZE)%nat -> pipe_write cap readers k x [] = if readers then Moved x [] else Broken.
Proof.
  intros Hx. unfold pipe_write. destruct readers; [|done]. cbn [negb length].
  assert (length x <= PIPE_BUF)%nat by (unfold PIPE_BUF, BUF_SIZE in *; lia).
  rewrite (proj2 (Nat.leb_le _ _)) by lia. by rewrite (proj2 (Nat.leb_le _ _)) by lia.
Qed.

Lemma pipe_read_piece writers x : piece x -> pipe_read writers BUF_SIZE x = Some (x, []).
Proof.
  intros [H0 Hx]. unfold pipe_read. destruct x; [cbn in H0; lia|]. by rewrite take_ge, drop_ge.
Qed.

Lemma stdin_read_cases l :
  Forall (fun c => c <> []) l ->
  l = [] /\ stdin_read BUF_SIZE l = ([], []) \/
  exists x l', stdin_read BUF_SIZE l = (x, l') /\ piece x /\ concat l = x ++ concat l' /\ Forall (fun c => c <> []) l'.
Proof.
  intros Hl. destruct Hl as [|c l Hc Hl]; [by left|right]. unfold stdin_read.
  assert (0 < length c)%nat by (destruct c; [done|cbn; lia]).
  destruct (Nat.leb_spec (length c) BUF_SIZE).
  - exists c, l. by split_and!.
  - exists (take BUF_SIZE c), (drop BUF_SIZE c :: l). split_and!; try done.
    + split; rewrite length_take; unfold BUF_SIZE in *; lia.
    + cbn. by rewrite app_assoc, take_drop.
    + constructor; [|done]. intros E%(f_equal length). rewrite length_drop in E. unfold BUF_SIZE in *. cbn in E. lia.
Qed.

Lemma idle_ends c : idle c -> r_end (o_ends (child_fds c)) = true /\ w_end (i_ends (child_fds c)) = true.
Proof. by destruct c. Qed.
Lemma dead_ends c : dead c -> child_fds c = no_fds.
Proof. by destruct c. Qed.

Definition after_parent (strict : bool) (c : child_pc) (e : effect vars proc) : Prop :=
  match e with
  | Go t g' => exists p', t = Parent p' (parent_fds p') /\ ~ early p' /\ Forall (fun c => c <> []) (input g') /\ flow strict p' c g'
  | Wait => True
  | _ => False
  end.

Lemma case_parent_step strict p c g a :
  ~ early p -> Forall (fun c => c <> []) (input g) -> flow strict p c g -> allowed strict a ->
  after_parent strict c (parent_exec cap a [Parent p (parent_fds p); Child c (child_fds c)] p (parent_fds p) g).
Proof.
  intros Hp Hin HF Ha.
  assert (forall f, bad f -> strict = false -> after_parent strict c (Go (Parent (PEnd f) no_fds) g)) as Hleave.
  { intros f Hf Hs. exists (PEnd f). split_and!; try done; [by intros []|by eapply flow_fails]. }
  assert (forall p', ~ early p' -> flow strict p' c g -> after_parent strict c (Go (Parent p' (parent_fds p')) g)) as Hgo.
  { intros p' ? ?. by exists p'. }
  destruct p as [| | | | | |buf| |buf|f]; try (by destruct (Hp I)); cbn [parent_exec]; [| | | | | |done];
    try (destruct a as [k|e]; [|apply Hleave; [done|by eapply case_allowed_fails]]).
  - apply (Hgo PClose2); [by intros []|]. inversion HF; subst; [by apply f_idle|by apply f_dead].
  - apply (Hgo PRead); [by intros []|]. inversion HF; subst; [by apply f_idle|by apply f_dead].
  - destruct (stdin_read_cases _ Hin) as [[El E]|(x & l' & E & Hx & Hcat & Hl')]; rewrite E.
    + exists (PEnd (Exited EXIT_SUCCESS)). split_and!; [done|by intros []|by constructor|].
      inversion HF as [p0 c0 g0 _ Hi Hq Hch| | | | | |p0 c0 g0 Hs Hd _ Hinb Hpre| |]; subst.
      * apply f_done; [by left|done|]. unfold chain in Hch. rewrite El in Hch. cbn in Hch. by rewrite app_nil_r in Hch.
      * by apply f_dead.
    + destruct x as [|y x]; [by destruct Hx; cbn in *; lia|]. exists (PSend (y :: x)). split_and!; [done|by intros []|done|].
      inversion HF as [p0 c0 g0 _ Hi Hq Hch| | | | | |p0 c0 g0 Hs Hd _ Hinb Hpre| |]; subst.
      * apply f_send; try done. unfold chain in *. cbn [out input]. rewrite Hch, Hcat, fmap_app. done.
      * by apply f_dead.
  - inversion HF as [|b0 c0 g0 Hi [Ho Hn] Hb Hch| | | | |p0 c0 g0 Hs Hd _ Hinb Hpre| |]; subst; [done|..].
    + rewrite Ho, pipe_write_piece by apply Hb. cbn [any existsb fd_of]. rewrite (proj1 (idle_ends _ Hi)). cbn.
      exists PReadBack. split_and!; [done|by intros []|done|]. by apply f_out.
    + unfold any, pipe_write. cbn [existsb fd_of]. rewrite (dead_ends _ Hd). cbn. by apply Hleave.
  - inversion HF as [|  |c0 g0 Hi Hn Hb Hch|x c0 [Ho Hn] Hb Hch|c0 g0 Hc Ho Hb Hch| |p0 c0 g0 Hs Hd _ Hinb Hpre| |]; subst; [done|..].
    + unfold any. rewrite Hn. cbn [existsb fd_of pipe_read]. by rewrite (proj2 (idle_ends _ Hi)).
    + unfold any. by rewrite Hn.
    + rewrite pipe_read_piece by done. destruct (inbound g) as [|y x] eqn:Ex; [by destruct Hb; cbn in *; lia|].
      exists (PPrint (y :: x)). split_and!; [done|by intros []|done|]. apply f_print; try done.
    + unfold any. rewrite Hinb. cbn [existsb fd_of pipe_read]. rewrite (dead_ends _ Hd). cbn.
      exists PRead. split_and!; [done|by intros []|done|]. by apply f_dead.
  - inversion HF as [| | | | |x c0 g0 Hc [Ho Hn] Hb Hch| | |]; subst; [done| |done].
    assert (BUF_SIZE <= k)%nat as Hk by (destruct strict; [by destruct Ha as (? & [= <-] & ?)|done]).
    exists PRead. rewrite take_ge by (destruct Hb; lia). split_and!; [done|by intros []|done|].
    assert (chain [] (Vars (input g) (outbound g) (inbound g) (out g ++ buf))) as Hch'.
    { unfold chain in *. cbn [out input]. by rewrite Hch, <- app_assoc. }
    destruct Hc as [->|[Hs Hd]]; [by apply f_idle|]. apply f_dead; try done. by eexists.
Qed.

Lemma flow_idle strict p c c' g : idle c -> idle c' -> flow strict p c g -> (c <> CRead \/ c' = CRead) -> flow strict p c' g.
Proof.
  intros Hi Hi' HF Hc. inversion HF as [| | | |c0 g0 Hr| x c0 g0 Hr| |f c0 g0|c0 g0]; subst; try done.
  - by apply f_idle.
  - by apply f_send.
  - by apply f_out.
  - destruct Hr as [->|[_ Hd]]; [|by destruct c]. destruct Hc as [?| ->]; done.
  - destruct Hr as [->|[_ Hd]]; [|by destruct c]. destruct Hc as [?| ->]; done.
  - by destruct c.
  - by apply f_failed.
  - apply f_done; [by left|done..].
Qed.

(** A child that gives up may lose what it holds. *)
Lemma flow_dies strict p c g f : strict = false -> bad f -> idle c \/ (exists x, c = CSend x) -> flow strict p c g -> flow strict p (CEnd f) g.
Proof.
  intros Hs Hf Hc HF. pose proof (flow_prefix _ _ _ _ HF) as Hpre.
  inversion HF as [p0 c0 g0 Hp _ [_ Hn]|b c0 g0 _ [_ Hn]|c0 g0 _ Hn|x g0 [_ Hn]|c0 g0 _ Ho Hb Hch| x c0 g0 _ Hq Hb Hch|p0 c0 g0 _ Hd _ Hn|f' c0 g0|c0 g0 _ [_ Hn]];
    subst; try (by apply f_dead; try done; destruct p).
  - apply f_in; [right; by split|done..].
  - apply f_print; [right; by split|done..].
  - by destruct Hc as [?|[? ->]]; [destruct c|].
  - by apply f_failed.
Qed.

Definition after_child (strict : bool) (p : parent_pc) (e : effect vars proc) : Prop :=
  match e with
  | Go t g' => exists c', t = Child c' (child_fds c') /\ Forall (fun c => c <> []) (input g') /\ flow strict p c' g'
  | Wait => True
  | _ => False
  end.

Lemma parent_ends p : ~ early p -> (forall f, p <> PEnd f) -> w_end (o_ends (parent_fds p)) = true /\ r_end (i_ends (parent_fds p)) = true.
Proof. intros He Hn. destruct p; try done; try (by destruct (He I)). by destruct (Hn f). Qed.

Lemma case_child_step strict p c g a :
  ~ early p -> Forall (fun c => c <> []) (input g) -> flow strict p c g -> allowed strict a ->
  after_child strict p (child_exec cap a [Parent p (parent_fds p); Child c (child_fds c)] c (child_fds c) g).
Proof.
  intros Hp Hin HF Ha.
  assert (forall f, bad f -> strict = false -> idle c \/ (exists x, c = CSend x) -> after_child strict p (Go (Child (CEnd f) no_fds) g)) as Hleave.
  { intros f Hf Hs Hc. exists (CEnd f). split_and!; try done. by eapply flow_dies. }
  destruct c as [| | |x|f]; cbn [child_exec]; [| | | |done]; (destruct a as [k|e]; [|apply Hleave; [done|by eapply case_allowed_fails|first [by left|by right; eexists]]]).
  - exists CClose2. split_and!; try done. by apply (flow_idle _ _ CClose1); [..|left].
  - exists CRead. split_and!; try done. by apply (flow_idle _ _ CClose2); [..|left].
  - assert (outbound g = [] -> (forall f, p <> PEnd f) ->
      after_child strict p (match pipe_read (any (fun e => w_end (o_ends e)) [Parent p (parent_fds p); Child CRead (child_fds CRead)]) BUF_SIZE (outbound g) with
         | None => Wait
         | Some ([], b) => Go (Child (CEnd (Exited EXIT_SUCCESS)) no_fds) g
         | Some (buf, b) => Go (Child (CSend (toupper <$> buf)) (child_fds CRead)) (Vars (input g) b (inbound g) (out g))
         end)) as Hwait.
    { intros Ho Hn. unfold any. rewrite Ho. cbn [existsb fd_of pipe_read]. by rewrite (proj1 (parent_ends _ Hp Hn)). }
    inversion HF as [p0 c0 g0 Hp0 _ [Ho Hn]|b c0 g0 _ [Ho Hn]|c0 g0 _ Hn Hb Hch|x g0 [_ Hn]|c0 g0 _ Ho Hb Hch| x c0 g0 _ [Ho Hn]|p0 c0 g0 _ Hd|f' c0 g0 Hs Hf Hpre|c0 g0 Hc [Ho Hn] Ht];
      subst; try done; try (apply Hwait; [done|by intros f ->||done]).
    + rewrite pipe_read_piece by done. destruct (outbound g) as [|y b] eqn:Eb; [by destruct Hb; cbn in *; lia|].
      exists (CSend (toupper <$> (y :: b))). split_and!; try done. apply f_child; try done.
      unfold piece in *. by rewrite length_fmap.
    + destruct (pipe_read _ _ _) as [[[|y b] b']|]; [..|done].
      * exists (CEnd (Exited EXIT_SUCCESS)). split_and!; try done. by apply f_failed.
      * eexists (CSend _). split_and!; try done. by apply f_failed.
    + unfold any. rewrite Ho. cbn. exists (CEnd (Exited EXIT_SUCCESS)). split_and!; try done. apply f_done; [by right|done..].
  - inversion HF as [p0 c0 g0 Hp0 Hi|b c0 g0 Hi|c0 g0 Hi|x0 g0 [Ho Hn] Hb Hch|c0 g0 Hc| x0 c0 g0 Hc|p0 c0 g0 _ Hd|f' c0 g0 Hs Hf Hpre|c0 g0 Hc];
      subst; try done; try (by destruct Hc as [?|[_ ?]]); try (by destruct Hc).
    + rewrite Hn, pipe_write_piece by apply Hb. cbn. exists CRead. split_and!; try done. apply f_in; try done. by left.
    + destruct (pipe_write _ _ _ _ _) as [b r| |]; [|done|].
      * exists CRead. split_and!; try done. by apply f_failed.
      * apply Hleave; [done|done|by right; eexists].
Qed.

Lemma case_inv_step strict s s' : inv strict s -> step ex (allowed strict) s s' -> inv strict s'.
Proof.
  intros HI (Hend & i & a & t & Ha & Hi & Hp)%Threads.step_inv.
  destruct s as [g ts pr e]; cbn [shared threads printed ended] in *. subst e.
  destruct HI as [p Hts _ Hq Ho Hin Hp0|p c Hts _ Hp0 Hin HF]; cbn [shared threads printed ended] in *; subst ts.
  - destruct i as [|i]; [|done]. injection Hi as <-. unfold ex, exec in Hp.
    destruct Hp0 as [Hp0|(_ & f & -> & _)]; [|discriminate Hp].
    destruct p; try done; cbn [parent_exec] in Hp;
      (destruct a as [k|e]; injection Hp as <-;
       [|match goal with |- context [PEnd ?f] => apply (inv_alone _ _ (PEnd f)) end;
         try done; right; split; [by eapply case_allowed_fails|by eexists]]).
    + apply (inv_alone _ _ PPipe2); try done. by left.
    + apply (inv_alone _ _ PFork); try done. by left.
    + apply (inv_both _ _ PClose1 CClose1); try done; cbn [shared]; [by intros []|by rewrite Hin|].
      apply f_idle; try done. unfold chain. rewrite Ho, Hin. done.
  - destruct i as [|[|i]]; [| |done]; injection Hi as <-; unfold ex, exec in Hp.
    + pose proof (case_parent_step strict p c g a Hp0 Hin HF Ha) as H.
      destruct (parent_exec _ _ _ _ _ _) as [t g'| | | |]; try done. destruct H as (p' & -> & ? & ? & ?).
      injection Hp as <-. by apply (inv_both _ _ p' c).
    + pose proof (case_child_step strict p c g a Hp0 Hin HF Ha) as H.
      destruct (child_exec _ _ _ _ _ _) as [t g'| | | |]; try done. destruct H as (c' & -> & ? & ?).
      injection Hp as <-. by apply (inv_both _ _ p c').
Qed.

Lemma case_inv_start strict : inv strict (start_state stdin).
Proof. apply (inv_alone _ _ PPipe1); try done. by left. Qed.

(** As long as a process has not ended, one can go on. *)
Lemma case_progress s k :
  inv false s -> forallb has_ended (threads s) = false -> exists i s', run_one ex i (Done k) s = Some s'.
Proof.
  intros [p Hts He _ _ Hin Hp0|p c Hts He Hp0 Hin HF] Hlive; rewrite Hts in Hlive.
  - exists 0%nat. eapply Threads.run_one_enabled; [done|by rewrite Hts|]. destruct Hp0 as [Hp|(_ & f & -> & _)]; [|done].
    by destruct p.
  - destruct s as [g ts pr e]; cbn [threads ended shared] in *. subst ts e.
    set (ts := [Parent p (parent_fds p); Child c (child_fds c)]) in *.
    assert (parent_exec cap (Done k) ts p (parent_fds p) g <> Wait -> exists i s', run_one ex i (Done k) (Sys g ts pr None) = Some s') as Hpar.
    { intros H. exists 0%nat. by eapply Threads.run_one_enabled. }
    assert (child_exec cap (Done k) ts c (child_fds c) g <> Wait -> exists i s', run_one ex i (Done k) (Sys g ts pr None) = Some s') as Hchild.
    { intros H. exists 1%nat. by eapply Threads.run_one_enabled. }
    assert (forall b x r, pipe_write cap r k b x = Blocked -> r = true /\ x <> []) as Hb.
    { intros b x r E. destruct r; [|done]. split; [done|]. intros ->. by eapply pipe_write_blocked. }
    destruct p as [| | | | | |buf| |buf|f]; try (by destruct (Hp0 I)); try (by apply Hpar).
    + apply Hpar. cbn [parent_exec]. by destruct (stdin_read _ _) as [[|] ?].
    + apply Hpar. cbn [parent_exec]. destruct (pipe_write _ _ _ _ _) as [| |] eqn:Ew; try done. exfalso.
      unfold pipe_write in Ew. inversion HF as [|b0 c0 g0 Hi [Ho Hn] Hl| | | | |p0 c0 g0 Hs Hd| |]; subst; [done|..].
      * rewrite Ho in Ew. fold (pipe_write cap (any (fun e => r_end (o_ends e)) ts) (length buf) buf []) in Ew.
        rewrite pipe_write_piece in Ew by apply Hl. by destruct (any _ _).
      * unfold any, ts in Ew. cbn [existsb fd_of] in Ew. by rewrite (dead_ends _ Hd) in Ew.
    + destruct (pipe_read (any (fun e => w_end (i_ends e)) ts) BUF_SIZE (inbound g)) as [[[|y x] b]|] eqn:Er;
        [apply Hpar; cbn [parent_exec]; by rewrite Er..|]. apply Hchild.
      inversion HF as [|  |c0 g0 Hi Hn Hl Hch|x g0 [Ho Hn] Hl Hch|c0 g0 Hc Ho Hl Hch| |p0 c0 g0 Hs Hd _ Hinb Hpre| |]; subst; [done|..].
      * destruct c; try done. cbn [child_exec]. rewrite pipe_read_piece by done. destruct (outbound g) as [|y z]; [by destruct Hl; cbn in *; lia|done].
      * cbn [child_exec]. unfold any, ts. cbn [existsb fd_of]. by rewrite Hn, pipe_write_piece by apply Hl.
      * by rewrite pipe_read_piece in Er.
      * unfold any, ts in Er. cbn [existsb fd_of] in Er. rewrite (dead_ends _ Hd), Hinb in Er. done.
    + apply Hchild. assert (has_ended (Child c (child_fds c)) = false) as Hn by (cbn in Hlive |- *; by rewrite andb_true_r in Hlive).
      destruct c as [| | |x|]; try done. cbn [child_exec].
      unfold any, ts. cbn [existsb fd_of parent_fds no_fds o_ends w_end child_fds orb no_ends].
      unfold pipe_read. destruct (outbound g) as [|y z]; [done|]. by destruct (take _ _).
Qed.

(** ** What is left to do *)

Definition mu_proc (g : vars) (t : proc) : nat :=
  let n := length (concat (input g)) in
  match t with
  | Parent p _ =>
      match p with
      | PPipe1 => 7 * n + 9 | PPipe2 => 7 * n + 8 | PFork => 7 * n + 7 | PClose1 => 7 * n + 3 | PClose2 => 7 * n + 2
      | PRead => 7 * n + 1 | PSend buf => 7 * n + 4 + 3 * length buf | PReadBack => 7 * n + 3 | PPrint _ => 7 * n + 2
      | PEnd _ => 0
      end
  | Child c _ => match c with CClose1 => 3 | CClose2 | CSend _ => 2 | CRead => 1 | CEnd _ => 0 end
  end.
Definition mu (s : sys vars proc) : nat :=
  foldr Nat.add 0%nat (mu_proc (shared s) <$> threads s) + 2 * length (outbound (shared s)).

Lemma mu_parent p fd ts g a : Forall (fun c => c <> []) (input g) ->
  match parent_exec cap a ts p fd g with
  | Go t' g' => (mu_proc g' t' + 2 * length (outbound g') < mu_proc g (Parent p fd) + 2 * length (outbound g))%nat
  | Create t' c => (mu_proc g t' + mu_proc g c < mu_proc g (Parent p fd))%nat
  | Wait => True
  | _ => False end.
Proof.
  intros Hin. destruct p as [| | | | | |buf| |buf|f]; cbn [parent_exec]; destruct a as [k|e]; cbn [mu_proc outbound input]; try lia; try done.
  - destruct (stdin_read_cases _ Hin) as [[El E]|(x & l' & E & [Hx _] & Hcat & _)]; rewrite E; [cbn [mu_proc outbound]; lia|].
    destruct x as [|y x]; cbn [mu_proc outbound input]; [lia|]. rewrite Hcat, length_app. cbn [length] in *. lia.
  - destruct (pipe_write _ _ _ _ _) as [b r| |] eqn:Ew; cbn [mu_proc outbound input]; try done; [|lia].
    apply pipe_write_moved in Ew as [Ew _]. apply (f_equal length) in Ew. rewrite !length_app in Ew. lia.
  - destruct (pipe_read _ _ _) as [[[|y x] b]|]; cbn [mu_proc outbound input]; try done; lia.
Qed.

Lemma mu_child c fd ts g a :
  match child_exec cap a ts c fd g with
  | Go t' g' => (mu_proc g' t' + 2 * length (outbound g') < mu_proc g (Child c fd) + 2 * length (outbound g))%nat /\ input g' = input g
  | Wait => True
  | _ => False end.
Proof.
  destruct c as [| | |buf|f]; cbn [child_exec]; destruct a as [k|e]; cbn [mu_proc outbound input]; try (split; [lia|done]); try done.
  - unfold pipe_read. destruct (outbound g) as [|y z] eqn:Eo; [destruct (any _ ts); [done|]; rewrite Eo; cbn; split; [lia|done]|].
    change (take BUF_SIZE (y :: z)) with (y :: take 99 z). cbn [mu_proc outbound input length]. rewrite length_drop. cbn [length]. split; [unfold BUF_SIZE; lia|done].
  - destruct (pipe_write _ _ _ _ _) as [b r| |]; cbn [mu_proc outbound input]; try done; split; (lia || done).
Qed.

Lemma case_mu_step s s' : inv false s -> step ex whole s s' -> (mu s' < mu s)%nat.
Proof.
  intros HI (Hend & i & a & t & Ha & Hi & Hp)%Threads.step_inv.
  assert (Forall (fun c => c <> []) (input (shared s))) as Hin by (by destruct HI as [p _ _ _ _ ->|]).
  assert (exists p rest, threads s = Parent p (parent_fds p) :: rest /\
    (rest = [] \/ exists c, rest = [Child c (child_fds c)] /\ ~ early p)) as (p & rest & Hts & Hrest).
  { destruct HI as [p Hts|p c Hts _ He]; [exists p, []|exists p, [Child c (child_fds c)]]; eauto 6. }
  destruct s as [g ts pr e]; cbn [shared threads printed ended] in *. subst e ts. unfold mu. cbn [threads shared].
  destruct i as [|i].
  - injection Hi as <-. unfold ex, exec in Hp.
    pose proof (mu_parent p (parent_fds p) (Parent p (parent_fds p) :: rest) g a Hin) as Hmu.
    assert (forall g', foldr Nat.add 0%nat (mu_proc g' <$> rest) = foldr Nat.add 0%nat (mu_proc g <$> rest)) as Hsame.
    { intros g'. by destruct Hrest as [->|(c & -> & _)]. }
    destruct (parent_exec _ _ _ _ _ _) as [t g'|t c|t o| |en] eqn:E; try done; injection Hp as <-.
    + cbn [threads shared fmap list_fmap foldr insert list_insert]. rewrite Hsame. lia.
    + destruct Hrest as [->|(c1 & -> & He)]; [cbn [threads shared fmap list_fmap foldr insert list_insert app]; lia|].
      exfalso. destruct p; try (by destruct (He I)); cbn [parent_exec] in E; repeat case_match; done.
  - destruct Hrest as [->|(c & -> & _)]; [done|]. destruct i as [|i]; [|done]. injection Hi as <-. unfold ex, exec in Hp.
    pose proof (mu_child c (child_fds c) [Parent p (parent_fds p); Child c (child_fds c)] g a) as Hmu.
    destruct (child_exec _ _ _ _ _ _) as [t g'|t c'|t o| |en] eqn:E; try done. destruct Hmu as [Hmu Hi']. injection Hp as <-.
    cbn [threads shared fmap list_fmap foldr insert list_insert].
    assert (mu_proc g' (Parent p (parent_fds p)) = mu_proc g (Parent p (parent_fds p))) as -> by (cbn [mu_proc]; by rewrite Hi'). lia.
Qed.

Definition fates (s : sys vars proc) : list fate :=
  omap (fun t => match t with Parent (PEnd f) _ | Child (CEnd f) _ => Some f | _ => None end) (threads s).

(** C19: change_case prints the standard input in capitals.  Whatever the interleaving of parent and
    child, the sizes of the reads from the standard input and the calls that fail, as long as what
    is written to the standard output is written whole: neither process waits for ever, they make
    at most [7 * n + 9] steps for an input of [n] bytes, and the output is the start of the input
    in capitals, all of it when both exit with success; while no call fails, they do. *)
Theorem change_case_capitals :
  (forall s, rtc (step ex whole) (start_state stdin) s ->
     (forallb has_ended (threads s) = false -> forall k, exists i s', run_one ex i (Done k) s = Some s') /\
     out (shared s) `prefix_of` text /\ (fates s = [Exited 0; Exited 0] -> out (shared s) = text)) /\
  (forall n s, nsteps (step ex whole) n (start_state stdin) s -> (n <= 7 * length (concat stdin) + 9)%nat) /\
  (forall s, rtc (step ex full) (start_state stdin) s -> forallb has_ended (threads s) = true ->
     fates s = [Exited 0; Exited 0] /\ out (shared s) = text).
Proof.
  assert (forall strict s, rtc (step ex (allowed strict)) (start_state stdin) s -> inv strict s) as Hinv.
  { intros strict s. apply Prelude.rtc_invariant; [intros ??; apply case_inv_step|apply case_inv_start]. }
  split; [|split].
  - intros s HI%(Hinv false). split; [by intros; apply case_progress|].
    destruct HI as [p Hts _ _ Ho _ Hp0|p c Hts _ _ _ HF].
    + rewrite Ho. split; [by apply prefix_nil|]. unfold fates. rewrite Hts. by destruct p.
    + split; [by eapply flow_prefix|]. unfold fates. rewrite Hts. cbn.
      destruct HF as [p c g Hp Hi|b c g Hi|c g Hi|x g|c g Hi|x c g Hi|p c g _ Hd|f c g _ Hf|c g _ _ Ht]; try done.
      * by destruct p, c.
      * by destruct c.
      * by destruct c.
      * by destruct Hi as [->|[_ Hi]]; [|destruct c as [| | | |[]]].
      * by destruct Hi as [->|[_ Hi]]; [|destruct c as [| | | |[]]].
      * by destruct c as [| | | |[]], p as [| | | | | | | | |[]].
      * by destruct f, c.
  - intros n s Hn. assert (mu (start_state stdin) = 7 * length (concat stdin) + 9)%nat as <- by (unfold mu; cbn; lia).
    refine (nsteps_bounded_inv _ (inv false) mu _ _ s _ _ _ Hn); [apply case_inv_step|apply case_mu_step|apply case_inv_start].
  - intros s HI%(Hinv true) Hall. destruct HI as [p Hts _ _ _ _ Hp0|p c Hts _ _ _ HF]; rewrite Hts in Hall.
    + destruct Hp0 as [Hp0|[? _]]; [by destruct p|done].
    + unfold fates. rewrite Hts. clear Hts. destruct HF as [p c g Hp Hi|b c g Hi|c g Hi|x g|c g Hi|x c g Hi|p c g ?|f c g ?|c g Hc _ Ht]; try done.
      * by destruct p.
      * destruct Hc as [Hc| ->]; [by destruct c|]. by split.
Qed.
End Correct.

(** ** A run

    Two pieces, of which the child takes the first before it is waited for. *)
Definition capitals_run : list (nat * answer) :=
  (fun i => (i, Done 100)) <$> ([0; 0; 0; 0; 0; 0; 0; 1; 1; 1; 1; 0; 0; 0; 0; 1; 1; 0; 0; 0; 1])%nat.

Lemma change_case_capitals_witness :
  exists s, run (exec 4096) capitals_run (start_state [str "one "; str "two"]) = Some s /\
    fates s = [Exited 0; Exited 0] /\ out (shared s) = str "ONE TWO".
Proof.
  destruct (run (exec 4096) capitals_run (start_state [str "one "; str "two"])) as [s|] eqn:E; [|vm_compute in E; discriminate E].
  exists s. split; [done|].
  assert (rtc (step (exec 4096) full) (start_state [str "one "; str "two"]) s) as Hrun.
  { refine (Threads.run_rtc _ full _ _ _ _ E). apply Forall_fmap, Forall_true. intros x. exists 100%nat. by split. }
  destruct (change_case_capitals 4096 (Nat.le_refl _) [str "one "; str "two"]) as (_ & _ & Hfull); [by repeat constructor|].
  refine (Hfull s Hrun _). vm_compute in E. by injection E as <-.
Defined.
