(* ===== verification/PipeSync.v ===== *)
(** * Children that report by closing a pipe

    pipe_sync.c (tlpi-dist/pipes): a child for every command-line argument sleeps and then closes
    its write end; the parent goes on when it reads the end of file.  The processes and pipes are
    those of Pipes.v; the times and process IDs in the lines printed are parameters. *)

From Stdlib Require Import ZArith Lia String Ascii.
From S2P Require Import Prelude CString Kernel GetNum Pipes.
From S2P Require Threads.
Import Threads (sys, Sys, shared, threads, printed, ended, effect, Go, Create, Say, Wait, Stop, run_one, step, run).

Inductive parent_pc := PStart | PPipe | PFork (j : nat) | PClose | PRead | PReady | PEnd (f : fate).
Inductive child_pc := CClose | CSleep | CTell | CCloseWrite | CExit | CEnd (f : fate).
Inductive proc := Parent (p : parent_pc) (pfd : ends) | Child (j : nat) (c : child_pc) (pfd : ends).

Definition pfd (t : proc) : ends := match t with Parent _ e | Child _ _ e => e end.
Definition has_ended (t : proc) : bool := match t with Parent (PEnd _) _ | Child _ (CEnd _) _ => true | _ => false end.

(** The argument of a child; [getInt] ends it when it is none. *)
Definition sleep_of (arg : bytes) : option Z :=
  match (getInt (Some arg) GN_NONNEG (Some (str "sleep-time")) (Proc tt 0 [])).1 with Ret v => Some v | _ => None end.

Section Program.
Context (argv : list bytes) (start_time ready_time : bytes) (child_time : nat -> bytes) (pid : nat -> Z).

Definition started_line : bytes := start_time ++ str "  Parent started" ++ [NL].
Definition ready_line : bytes := ready_time ++ str "  Parent ready to go" ++ [NL].
Definition child_line (j : nat) : bytes :=
  child_time j ++ str "  Child " ++ dec (Z.of_nat j) ++ str " (PID=" ++ dec (pid j) ++ str ") closing pipe" ++ [NL].

Definition parent_exec (a : answer) (ts : list proc) (p : parent_pc) (fd : ends) : effect unit proc :=
  let leave f := Go (Parent (PEnd f) no_ends) tt in
  let check call k := match a with Done _ => k | Fails e => leave (Failed e call) end in
  match p with
  | PStart => Say (Parent PPipe fd) started_line
  | PPipe => check "pipe"%string (Go (Parent (PFork 1) (Ends true true)) tt)
  | PFork j =>
      if (j <? length argv)%nat then
        check "fork %d"%string (Create (Parent (PFork (S j)) fd) (Child j CClose fd))
      else Go (Parent PClose fd) tt
  | PClose => check "close"%string (Go (Parent PRead (Ends (r_end fd) false)) tt)
  | PRead =>
      match a with
      | Fails _ => leave (Fatal "parent didn't get EOF")
      | Done _ =>
          match pipe_read (existsb (fun t => w_end (pfd t)) ts) 1 [] with
          | None => Wait
          | Some ([], _) => Go (Parent PReady fd) tt
          | Some _ => leave (Fatal "parent didn't get EOF")
          end
      end
  | PReady => Say (Parent (PEnd (Exited EXIT_SUCCESS)) no_ends) ready_line
  | PEnd _ => Wait
  end.

Definition child_exec (a : answer) (j : nat) (c : child_pc) (fd : ends) : effect unit proc :=
  let leave f := Go (Child j (CEnd f) no_ends) tt in
  let check call k := match a with Done _ => k | Fails e => leave (Failed e call) end in
  match c with
  | CClose => check "close"%string (Go (Child j CSleep (Ends false (w_end fd))) tt)
  | CSleep =>
      match argv !! j with
      | Some arg => if sleep_of arg is Some _ then Go (Child j CTell fd) tt else leave (Exited EXIT_FAILURE)
      | None => Stop Threads.Undefined
      end
  | CTell => Say (Child j CCloseWrite fd) (child_line j)
  | CCloseWrite => check "close"%string (Go (Child j CExit (Ends (r_end fd) false)) tt)
  | CExit => leave (Exited EXIT_SUCCESS)
  | CEnd _ => Wait
  end.

Definition exec (self : nat) (a : answer) (ts : list proc) (t : proc) (g : unit) : effect unit proc :=
  match t with
  | Parent p fd => parent_exec a ts p fd
  | Child j c fd => child_exec a j c fd
  end.

(** After the check of the arguments. *)
Definition start_state : sys unit proc := Sys tt [Parent PStart no_ends] [] None.
End Program.

(** ** The invariant *)

Section Correct.
Context (prog : bytes) (args : list bytes) (start_time ready_time : bytes) (child_time : nat -> bytes) (pid : nat -> Z).
Let n : nat := length args.
Let ex := exec (prog :: args) start_time ready_time child_time pid.
Let line := child_line child_time pid.
Let started := started_line start_time.
Let ready := ready_line ready_time.

(** No call fails, and every argument is a number. *)
Definition full (a : answer) : Prop := match a with Done _ => True | Fails _ => False end.
Definition numbers : Prop := Forall (fun arg => sleep_of arg <> None) args.
Definition allowed (strict : bool) : answer -> Prop := if strict then full else fun _ => True.

Definition parent_fds (p : parent_pc) : ends :=
  match p with PStart | PPipe | PEnd _ => no_ends | PFork _ | PClose => Ends true true | PRead | PReady => Ends true false end.
Definition child_fds (c : child_pc) : ends :=
  match c with CClose => Ends true true | CSleep | CTell | CCloseWrite => Ends false true | CExit | CEnd _ => no_ends end.

(** The children made so far. *)
Definition made (p : parent_pc) (k : nat) : Prop :=
  match p with
  | PStart | PPipe => k = 0%nat
  | PFork j => j = S k /\ (k <= n)%nat
  | PClose | PRead | PReady => k = n
  | PEnd (Exited st) => k = n /\ st = 0
  | PEnd _ => (k <= n)%nat
  end.

Definition children (cs : list child_pc) : list proc := imap (fun i c => Child (S i) c (child_fds c)) cs.
Definition shut (c : child_pc) : Prop := match c with CExit | CEnd _ => True | _ => False end.
Definition passed (p : parent_pc) : Prop := match p with PReady | PEnd (Exited _) => True | _ => False end.

(** A child has told that it closes the pipe, or may have. *)
Definition told (c : child_pc) : Prop := match c with CCloseWrite | CExit | CEnd (Exited 0) => True | _ => False end.
Definition may_have_told (c : child_pc) : Prop := match c with CCloseWrite | CExit | CEnd _ => True | _ => False end.

Record lines_ok (p : parent_pc) (cs : list child_pc) (out : list bytes) (order : list nat) : Prop := {
  lines_out : out = match p with PStart => [] | _ => [started] end ++ (line <$> order) ++
                    match p with PEnd (Exited _) => [ready] | _ => [] end;
  lines_nodup : NoDup order;
  lines_made : forall j, j ∈ order -> exists i c, j = S i /\ cs !! i = Some c /\ may_have_told c;
  lines_told : forall i c, cs !! i = Some c -> told c -> S i ∈ order
}.

Definition fine_child (c : child_pc) : Prop := match c with CEnd f => f = Exited 0 | _ => True end.
Definition fine_parent (p : parent_pc) : Prop := match p with PEnd f => f = Exited 0 | _ => True end.

Record inv_at (strict : bool) (p : parent_pc) (cs : list child_pc) (s : sys unit proc) : Prop := {
  inv_threads : threads s = Parent p (parent_fds p) :: children cs;
  inv_ended : ended s = None;
  inv_made : made p (length cs);
  inv_shut : passed p -> Forall shut cs;
  inv_lines : exists order, lines_ok p cs (printed s) order;
  inv_strict : strict = true -> numbers -> Forall fine_child cs /\ fine_parent p
}.
Definition inv (strict : bool) (s : sys unit proc) : Prop := exists p cs, inv_at strict p cs s.

Lemma children_lookup cs i c : cs !! i = Some c -> children cs !! i = Some (Child (S i) c (child_fds c)).
Proof. intros H. unfold children. by rewrite list_lookup_imap, H. Qed.

Lemma children_insert cs i c : (i < length cs)%nat -> <[i := Child (S i) c (child_fds c)]> (children cs) = children (<[i := c]> cs).
Proof.
  intros Hi. unfold children. apply list_eq. intros k. rewrite list_lookup_imap. destruct (decide (k = i)) as [->|Hne].
  - rewrite !list_lookup_insert_eq by (rewrite ?length_imap; done). done.
  - rewrite !list_lookup_insert_ne, list_lookup_imap by done. done.
Qed.

Lemma children_snoc cs c : children (cs ++ [c]) = children cs ++ [Child (S (length cs)) c (child_fds c)].
Proof. unfold children. rewrite imap_app. cbn. by rewrite Nat.add_0_r. Qed.

Lemma sync_allowed_fails strict e : allowed strict (Fails e) -> strict = false.
Proof. by destruct strict. Qed.

(** A child goes on to [c'], having printed [new] (its line, or nothing). *)
Lemma child_goes strict p cs g ts out i c c' new :
  inv_at strict p cs (Sys g ts out None) -> cs !! i = Some c -> ~ shut c \/ shut c' ->
  (new = [] /\ (told c' -> told c) /\ (may_have_told c -> may_have_told c') \/
   new = [line (S i)] /\ ~ may_have_told c /\ may_have_told c' /\ ~ passed p) ->
  (strict = true -> numbers -> fine_child c -> fine_child c') -> (passed p -> shut c') ->
  inv_at strict p (<[i := c']> cs) (Sys g (<[S i := Child (S i) c' (child_fds c')]> ts) (out ++ new) None).
Proof.
  intros [Hts He Hm Hsh [order [L1 L2 L3 L4]] Hst] Hi Hs Hnew Hf Hp. cbn [threads printed ended] in *.
  pose proof (lookup_lt_Some _ _ _ Hi) as Hlt. split; cbn [threads printed ended]; try done.
  - rewrite Hts. cbn. by rewrite children_insert.
  - by rewrite length_insert.
  - intros Hpass. apply Forall_insert; auto.
  - assert (forall k c1, <[i := c']> cs !! k = Some c1 -> (k = i /\ c1 = c') \/ (k <> i /\ cs !! k = Some c1)) as Hlook.
    { intros k c1. destruct (decide (k = i)) as [->|Hne]; [rewrite list_lookup_insert_eq by done|rewrite list_lookup_insert_ne by done]; naive_solver. }
    destruct Hnew as [(-> & Htold & Hmay)|(-> & Hnot & Hmay & Hnp)].
    + exists order. rewrite app_nil_r. split; try done.
      * intros j Hj. destruct (L3 j Hj) as (k & c1 & -> & Hk & Hmc). destruct (decide (k = i)) as [->|Hne].
        -- exists i, c'. rewrite list_lookup_insert_eq by done. split_and!; try done. apply Hmay. congruence.
        -- exists k, c1. by rewrite list_lookup_insert_ne.
      * intros k c1 [[-> ->]|[_ Hk]]%Hlook Ht; [apply (L4 i c); auto|by eapply L4].
    + exists (order ++ [S i]). split.
      * rewrite L1, fmap_app. cbn. assert (match p with PEnd (Exited _) => [ready] | _ => [] end = []) as ->.
        { by destruct p as [| | | | | |[]]. }
        rewrite !app_nil_r. by rewrite <- app_assoc.
      * apply NoDup_app. split_and!; [done| |by repeat constructor; set_solver].
        intros j Hj ->%list_elem_of_singleton. destruct (L3 _ Hj) as (k & c1 & [= <-] & Hk & Hmc). apply Hnot. congruence.
      * intros j [Hj| ->%list_elem_of_singleton]%elem_of_app.
        -- destruct (L3 j Hj) as (k & c1 & -> & Hk & Hmc). destruct (decide (k = i)) as [->|Hne]; [exfalso; apply Hnot; congruence|].
           exists k, c1. by rewrite list_lookup_insert_ne.
        -- exists i, c'. by rewrite list_lookup_insert_eq.
      * intros k c1 [[-> ->]|[_ Hk]]%Hlook Ht; apply elem_of_app; [right; by left|left; by eapply L4].
  - intros Hs1 Hn. destruct (Hst Hs1 Hn) as [Hfc Hfp]. split; [|done]. apply Forall_insert; [done|].
    apply Hf; try done. by eapply Forall_lookup_1 in Hfc.
Qed.

Definition head (p : parent_pc) : list bytes := match p with PStart => [] | _ => [started] end.
Definition tail (p : parent_pc) : list bytes := match p with PEnd (Exited _) => [ready] | _ => [] end.

Lemma parent_goes strict p p' cs g ts out new :
  inv_at strict p cs (Sys g ts out None) -> made p' (length cs) -> (passed p' -> Forall shut cs) ->
  (forall ls : list bytes, (cs = [] -> ls = []) -> head p ++ ls ++ tail p ++ new = head p' ++ ls ++ tail p') ->
  (strict = true -> numbers -> fine_parent p') ->
  inv_at strict p' cs (Sys g (<[0%nat := Parent p' (parent_fds p')]> ts) (out ++ new) None).
Proof.
  intros [Hts He Hm Hsh [order [L1 L2 L3 L4]] Hst] Hm' Hsh' Hnew Hf. cbn [threads printed ended] in *.
  split; cbn [threads printed ended]; try done.
  - by rewrite Hts.
  - exists order. split; try done. rewrite L1, <- !app_assoc. apply (Hnew (line <$> order)). intros ->.
    destruct order as [|x order]; [done|]. destruct (L3 x) as (k & c & _ & Hk & _); [by left|done].
  - intros Hs Hn. destruct (Hst Hs Hn). auto.
Qed.

Lemma parent_spawns strict i cs g ts out :
  inv_at strict (PFork i) cs (Sys g ts out None) -> (i <= n)%nat ->
  inv_at strict (PFork (S i)) (cs ++ [CClose])
    (Sys g (<[0%nat := Parent (PFork (S i)) (parent_fds (PFork (S i)))]> ts ++ [Child i CClose (child_fds CClose)]) out None).
Proof.
  intros [Hts He [-> Hm] Hsh [order [L1 L2 L3 L4]] Hst] Hi. cbn [threads printed ended] in *.
  split; cbn [threads printed ended]; try done.
  - by rewrite Hts, children_snoc.
  - cbn. rewrite length_app. cbn. lia.
  - exists order. split; try done.
    + intros j Hj. destruct (L3 j Hj) as (k & c & -> & Hk & Hc). exists k, c. split_and!; try done. by apply lookup_app_l_Some.
    + intros k c [Hk|[_ Hk]]%lookup_app_Some Ht; [by eapply L4|]. by apply list_lookup_singleton_Some in Hk as [_ <-].
  - intros Hs Hn. destruct (Hst Hs Hn) as [Hfc _]. split; [|done]. apply Forall_app. split; [done|by constructor].
Qed.

Lemma shut_fds c : w_end (child_fds c) = false <-> shut c.
Proof. by destruct c. Qed.

Lemma existsb_shut cs : existsb (fun t => w_end (pfd t)) (children cs) = false <-> Forall shut cs.
Proof.
  rewrite <- not_true_iff_false, existsb_exists. rewrite Forall_lookup. split.
  - intros H i c Hi. apply shut_fds. destruct (w_end (child_fds c)) eqn:E; [|done]. destruct H.
    exists (Child (S i) c (child_fds c)). split; [|done]. apply list_elem_of_In. by eapply list_elem_of_lookup_2, children_lookup.
  - intros H (t & Hin & Ht). apply list_elem_of_In, list_elem_of_lookup in Hin as [i Hi]. unfold children in Hi.
    apply list_lookup_imap_Some in Hi as (c & Hc & ->). apply H, shut_fds in Hc. cbn in Ht. congruence.
Qed.

(** The cases of a step of the parent that ends it, or prints nothing. *)
Lemma same_lines p p' : head p' = head p -> tail p' = tail p ->
  forall cs : list child_pc, forall ls : list bytes, (cs = [] -> ls = []) -> head p ++ ls ++ tail p ++ [] = head p' ++ ls ++ tail p'.
Proof. intros -> -> cs ls _. by rewrite app_nil_r. Qed.

Lemma sync_parent_step strict p cs g ts out a s' :
  inv_at strict p cs (Sys g ts out None) -> allowed strict a ->
  Threads.perform 0 (parent_exec (prog :: args) start_time ready_time a ts p (parent_fds p)) (Sys g ts out None) = Some s' -> inv strict s'.
Proof.
  intros HI Ha Hp. pose proof HI as [Hts _ Hm Hsh _ _]. cbn [threads] in *. destruct g.
  assert (forall p' new, made p' (length cs) -> (passed p' -> Forall shut cs) ->
    (forall ls : list bytes, (cs = [] -> ls = []) -> head p ++ ls ++ tail p ++ new = head p' ++ ls ++ tail p') ->
    (strict = true -> numbers -> fine_parent p') ->
    s' = Sys tt (<[0%nat := Parent p' (parent_fds p')]> ts) (out ++ new) None -> inv strict s') as Hgo.
  { intros p' new H1 H2 H3 H4 ->. exists p', cs. by apply (parent_goes strict p). }
  assert (forall f, strict = false -> match f with Exited _ => False | _ => True end -> (length cs <= n)%nat -> head p = [started] -> tail p = [] ->
    s' = Sys tt (<[0%nat := Parent (PEnd f) no_ends]> ts) out None -> inv strict s') as Hleave.
  { intros f -> Hf Hl Hh Ht ->. apply (Hgo (PEnd f) []); try done; [by destruct f|by destruct f| |by rewrite app_nil_r].
    refine (same_lines p (PEnd f) _ _ cs); [by rewrite Hh|by rewrite Ht; destruct f]. }
  destruct p as [| |i| | | |f]; cbn [parent_exec] in Hp; cbn [made] in Hm; try discriminate Hp.
  - injection Hp as <-. eapply (Hgo PPipe [started]); try done. intros ls Hls. rewrite Hls by by apply nil_length_inv. done.
  - destruct a as [k|e]; injection Hp as <-; [|eapply Hleave; [..|reflexivity]; [by eapply sync_allowed_fails|done|lia|done..]].
    eapply (Hgo (PFork 1) []); try done; [cbn; rewrite Hm; split; lia|by rewrite app_nil_r].
  - destruct Hm as [-> Hm]. destruct (Nat.ltb_spec (S (length cs)) (length (prog :: args))) as [Hlt|Hge].
    + destruct a as [k|e]; injection Hp as <-; [|eapply Hleave; [..|reflexivity]; [by eapply sync_allowed_fails|done|lia|done..]].
      eexists _, _. apply (parent_spawns strict _ cs tt ts out HI). cbn in Hlt. unfold n. lia.
    + injection Hp as <-. eapply (Hgo PClose []); try done; [cbn in *; unfold n in *; lia|by rewrite app_nil_r].
  - destruct a as [k|e]; injection Hp as <-; [|eapply Hleave; [..|reflexivity]; [by eapply sync_allowed_fails|done|lia|done..]].
    eapply (Hgo PRead []); try done. by rewrite app_nil_r.
  - destruct a as [k|e]; [|injection Hp as <-; eapply Hleave; [..|reflexivity]; [by eapply sync_allowed_fails|done|lia|done..]].
    cbn [pipe_read] in Hp. destruct (existsb _ ts) eqn:Ew; [discriminate Hp|]. injection Hp as <-.
    eapply (Hgo PReady []); try done; [|by rewrite app_nil_r].
    intros _. rewrite Hts in Ew. cbn in Ew. by apply existsb_shut.
  - injection Hp as <-. eapply (Hgo (PEnd (Exited EXIT_SUCCESS)) [ready]); done.
Qed.

Lemma sync_child_step strict p cs g ts out i c a s' :
  inv_at strict p cs (Sys g ts out None) -> allowed strict a -> cs !! i = Some c ->
  Threads.perform (S i) (child_exec (prog :: args) child_time pid a (S i) c (child_fds c)) (Sys g ts out None) = Some s' ->
  inv strict s'.
Proof.
  intros HI Ha Hi Hp. pose proof HI as [_ _ Hm Hsh _ _]. destruct g.
  assert (passed p -> shut c) as Hpass. { intros H. eapply Forall_lookup_1; [by apply Hsh|done]. }
  assert (forall c' new, (~ shut c \/ shut c') -> 
    (new = [] /\ (told c' -> told c) /\ (may_have_told c -> may_have_told c') \/
     new = [line (S i)] /\ ~ may_have_told c /\ may_have_told c' /\ ~ passed p) ->
    (strict = true -> numbers -> fine_child c -> fine_child c') -> (passed p -> shut c') ->
    s' = Sys tt (<[S i := Child (S i) c' (child_fds c')]> ts) (out ++ new) None -> inv strict s') as Hgo.
  { intros c' new H1 H2 H3 H4 ->. exists p, (<[i := c']> cs). by apply (child_goes strict p cs tt ts out i c). }
  assert (forall f, strict = false -> f <> Exited 0 -> s' = Sys tt (<[S i := Child (S i) (CEnd f) no_ends]> ts) out None -> inv strict s') as Hleave.
  { intros f -> Hf ->. apply (Hgo (CEnd f) []); try done; [by right| |by rewrite app_nil_r]. left. split_and!; try done.
    destruct f as [[]| | |]; try done. }
  destruct c as [| | | | |f]; cbn [child_exec] in Hp; try discriminate Hp.
  - destruct a as [k|e]; injection Hp as <-; [|eapply Hleave; [..|reflexivity]; [by eapply sync_allowed_fails|done]].
    eapply (Hgo CSleep []); [by left; intros []|by left|done|by intros ?%Hpass|by rewrite app_nil_r].
  - change ((prog :: args) !! S i) with (args !! i) in Hp.
    destruct (lookup_lt_is_Some_2 args i) as [arg Harg].
    { apply lookup_lt_Some in Hi. destruct p as [| | | | | |[]]; cbn in Hm; unfold n in *; lia. }
    rewrite Harg in Hp. destruct (sleep_of arg) as [v|] eqn:Es; cbn in Hp; injection Hp as <-.
    + eapply (Hgo CTell []); [by left; intros []|by left|done|by intros ?%Hpass|by rewrite app_nil_r].
    + eapply (Hgo (CEnd (Exited EXIT_FAILURE)) []); [by right|by left| |done|by rewrite app_nil_r].
      intros _ Hn. by eapply Forall_lookup_1 in Hn.
  - injection Hp as <-. eapply (Hgo CCloseWrite [line (S i)]); [by left; intros []| |done|by intros ?%Hpass|done].
    right. split_and!; try done. by intros [].
  - destruct a as [k|e]; injection Hp as <-; [|eapply Hleave; [..|reflexivity]; [by eapply sync_allowed_fails|done]].
    eapply (Hgo CExit []); [by right|by left|done|done|by rewrite app_nil_r].
  - injection Hp as <-. eapply (Hgo (CEnd (Exited EXIT_SUCCESS)) []); [by right|by left|done|done|by rewrite app_nil_r].
Qed.

Lemma sync_inv_step strict s s' : inv strict s -> step ex (allowed strict) s s' -> inv strict s'.
Proof.
  intros (p & cs & HI) (Hend & i & a & t & Ha & Hi & Hp)%Threads.step_inv.
  destruct s as [g ts out e]; cbn [shared threads printed ended] in *. subst e.
  pose proof (inv_threads _ _ _ _ HI) as Hts. cbn [threads] in Hts. destruct i as [|i]; rewrite Hts in Hi; cbn in Hi.
  - injection Hi as <-. exact (sync_parent_step _ _ _ _ _ _ _ _ HI Ha Hp).
  - unfold children in Hi. apply list_lookup_imap_Some in Hi as (c & Hc & ->).
    exact (sync_child_step _ _ _ _ _ _ _ _ _ _ HI Ha Hc Hp).
Qed.

Lemma sync_inv_start strict : inv strict start_state.
Proof. exists PStart, []. split; try done. exists []. split; try done; [by constructor|by intros j ?%elem_of_nil]. Qed.

(** As long as a process has not ended, one can go on. *)
Lemma sync_progress s k :
  inv false s -> forallb has_ended (threads s) = false -> exists i s', run_one ex i (Done k) s = Some s'.
Proof.
  intros (p & cs & [Hts He Hm Hsh _ _]) Hlive. rewrite Hts in Hlive.
  assert (forall i c, cs !! i = Some c -> (forall f, c <> CEnd f) -> exists i s', run_one ex i (Done k) s = Some s') as Hchild.
  { intros i c Hi Hn. exists (S i). eapply Threads.run_one_enabled; [done|rewrite Hts; by apply children_lookup|].
    destruct c; try done; [|by destruct (Hn f)]. cbn [ex exec child_exec]. change ((prog :: args) !! S i) with (args !! i).
    destruct (args !! i) as [arg|]; [|done]. by destruct (sleep_of arg). }
  assert (exec (prog :: args) start_time ready_time child_time pid 0 (Done k) (threads s) (Parent p (parent_fds p)) (shared s) <> Wait ->
    exists i s', run_one ex i (Done k) s = Some s') as Hpar.
  { intros H. exists 0%nat. by eapply Threads.run_one_enabled; [|rewrite Hts|]. }
  rewrite Hts in Hpar. cbn [exec] in Hpar.
  destruct (existsb (fun t => w_end (pfd t)) (children cs)) eqn:Ew.
  - apply existsb_exists in Ew as (t & Hin & Ht). apply list_elem_of_In, list_elem_of_lookup in Hin as [i Hi].
    unfold children in Hi. apply list_lookup_imap_Some in Hi as (c & Hc & ->). apply (Hchild i c Hc). by intros f ->.
  - destruct p as [| |i| | | |f]; try (by apply Hpar).
    + apply Hpar. cbn [parent_exec]. by destruct (i <? _)%nat.
    + apply Hpar. cbn [parent_exec existsb pfd parent_fds w_end orb]. by rewrite Ew.
    + cbn [forallb has_ended andb] in Hlive. apply Threads.forallb_false in Hlive as (t & Hin & Ht).
      apply list_elem_of_lookup in Hin as [i Hi]. unfold children in Hi. apply list_lookup_imap_Some in Hi as (c & Hc & ->).
      apply (Hchild i c Hc). by intros g ->.
Qed.

(** *** What is left to do *)

Definition mu_proc (t : proc) : nat :=
  match t with
  | Parent p _ =>
      match p with
      | PStart => 7 * n + 6 | PPipe => 7 * n + 5 | PFork j => 7 * (S n - j) + 4 | PClose => 3 | PRead => 2 | PReady => 1 | PEnd _ => 0
      end
  | Child _ c _ => match c with CClose => 5 | CSleep => 4 | CTell => 3 | CCloseWrite => 2 | CExit => 1 | CEnd _ => 0 end
  end.
Definition mu (s : sys unit proc) : nat := sum_list_with mu_proc (threads s).

Definition lighter (t : proc) (e : effect unit proc) : Prop :=
  match e with
  | Go t' _ | Say t' _ => (mu_proc t' < mu_proc t)%nat
  | Create t' c => (mu_proc t' + mu_proc c < mu_proc t)%nat
  | Wait => True
  | Stop _ => False
  end.

Lemma sync_parent_lighter a ts p fd : lighter (Parent p fd) (parent_exec (prog :: args) start_time ready_time a ts p fd).
Proof.
  destruct p as [| |j| | | |f]; cbn [parent_exec]; try destruct a as [k|e]; cbn [lighter mu_proc]; try lia; try done.
  1, 2: destruct (Nat.ltb_spec j (length (prog :: args))); cbn [lighter mu_proc length] in *; unfold n in *; lia.
  unfold pipe_read. destruct (existsb _ ts); cbn [lighter mu_proc]; [done|lia].
Qed.

Lemma sync_child_lighter a j c fd : (j <= n)%nat -> lighter (Child j c fd) (child_exec (prog :: args) child_time pid a j c fd).
Proof.
  intros Hj. destruct c as [| | | | |f]; cbn [child_exec]; try destruct a as [k|e]; cbn [lighter mu_proc]; try lia; try done.
  all: destruct (lookup_lt_is_Some_2 (prog :: args) j) as [arg ->]; [cbn; unfold n in *; lia|]; destruct (sleep_of arg); cbn [lighter mu_proc]; lia.
Qed.

Lemma inv_children strict p cs s : inv_at strict p cs s -> (length cs <= n)%nat.
Proof. intros [_ _ Hm _ _ _]. destruct p as [| | | | | |[]]; cbn in Hm; lia. Qed.

Lemma sync_mu_step s s' : inv false s -> step ex (fun _ => True) s s' -> (mu s' < mu s)%nat.
Proof.
  intros (p & cs & HI) (Hend & i & a & t & _ & Hi & Hp)%Threads.step_inv. pose proof (inv_children _ _ _ _ HI) as Hn.
  destruct HI as [Hts _ _ _ _ _]. destruct s as [g ts pr e]; cbn [shared threads printed ended] in *. subst e. unfold mu. cbn [threads].
  assert (lighter t (ex i a ts t g)) as Hmu.
  { destruct t as [q fd|j c fd]; cbn [ex exec]; [apply sync_parent_lighter|]. apply sync_child_lighter.
    rewrite Hts in Hi. destruct i as [|i]; [done|]. cbn in Hi. unfold children in Hi.
    apply list_lookup_imap_Some in Hi as (c' & Hc%lookup_lt_Some & [= -> _ _]). lia. }
  destruct (ex i a ts t g) as [t' g'|t' c|t' o| |en]; try done; injection Hp as <-; cbn [threads lighter] in *.
  all: pose proof (Threads.sum_list_with_insert mu_proc ts i t t' Hi); rewrite ?sum_list_with_app; cbn [sum_list_with] in *; lia.
Qed.

Definition fates (ts : list proc) : list fate :=
  omap (fun t => match t with Parent (PEnd f) _ | Child _ (CEnd f) _ => Some f | _ => None end) ts.

Lemma fates_children cs k : forallb has_ended (imap (fun i c => Child (k + i) c (child_fds c)) cs) = true -> Forall fine_child cs ->
  fates (imap (fun i c => Child (k + i) c (child_fds c)) cs) = replicate (length cs) (Exited 0) /\ Forall (fun c => c = CEnd (Exited 0)) cs.
Proof.
  intros Hall Hf. revert k Hall. induction Hf as [|c cs Hc Hf IH]; intros k Hall; [by split|]. cbn in Hall |- *.
  apply andb_true_iff in Hall as [Hc' Hall]. destruct c as [| | | | |f]; try done. cbn in Hc. subst f.
  rewrite (imap_ext _ (fun i c => Child (S k + i) c (child_fds c))) in Hall |- * by (intros; cbn; by rewrite Nat.add_succ_r).
  destruct (IH (S k) Hall) as [H1 H2]. split; [f_equal; exact H1|by constructor].
Qed.

(** The children that told are all of them once all have ended well. *)
Lemma all_told p cs out order :
  lines_ok p cs out order -> Forall (fun c => c = CEnd (Exited 0)) cs -> order ≡ₚ seq 1 (length cs).
Proof.
  intros [_ Hnd Hmade Htold] Hall. apply NoDup_Permutation; [done|apply NoDup_ListNoDup, List.seq_NoDup|].
  intros j. rewrite elem_of_seq. split.
  - intros (i & c & -> & Hi%lookup_lt_Some & _)%Hmade. lia.
  - intros Hj. destruct j as [|i]; [lia|]. destruct (lookup_lt_is_Some_2 cs i) as [c Hc]; [lia|].
    apply (Htold i c Hc). eapply Forall_lookup_1 in Hall as ->; [done|exact Hc].
Qed.

(** C20: the parent of pipe_sync goes on when its children have closed the pipe, and not before.
    Whatever the interleaving and the calls that fail: no process waits for ever; when the parent
    has exited with success, every child was created and has closed its write end, and the output
    is the parent's first line, one line for each child that did not fail before its own, in the
    order they came, and the parent's last line; the processes make at most [7 * n + 6] steps for
    [n] children.  While no call fails and the arguments are numbers, all of them exit with
    success, and each child has its line. *)
Theorem pipe_sync_waits :
  (forall s, rtc (step ex (fun _ => True)) start_state s ->
     (forallb has_ended (threads s) = false -> forall k, exists i s', run_one ex i (Done k) s = Some s') /\
     (forall e ts, threads s = Parent (PEnd (Exited 0)) e :: ts ->
        length ts = n /\ (forall t, t ∈ ts -> w_end (pfd t) = false) /\
        exists order, NoDup order /\ printed s = started :: (line <$> order) ++ [ready] /\
          forall i c e', ts !! i = Some (Child (S i) c e') -> c = CExit \/ c = CEnd (Exited 0) -> S i ∈ order)) /\
  (forall m s, nsteps (step ex (fun _ => True)) m start_state s -> (m <= 7 * n + 6)%nat) /\
  (numbers -> forall s, rtc (step ex full) start_state s -> forallb has_ended (threads s) = true ->
     fates (threads s) = replicate (S n) (Exited 0) /\
     exists order, order ≡ₚ seq 1 n /\ printed s = started :: (line <$> order) ++ [ready]).
Proof.
  assert (forall strict s, rtc (step ex (allowed strict)) start_state s -> inv strict s) as Hinv.
  { intros strict s. apply Prelude.rtc_invariant; [intros ??; apply sync_inv_step|apply sync_inv_start]. }
  split; [|split].
  - intros s HI%(Hinv false). split; [by intros; apply sync_progress|]. intros e ts Hts.
    destruct HI as (p & cs & [Hts' _ Hm Hsh [order [L1 L2 L3 L4]] _]). rewrite Hts in Hts'. injection Hts' as <- -> ->.
    destruct Hm as [Hm _]. split_and!; [unfold children; by rewrite length_imap| |exists order; split_and!; [done|done|]].
    + intros t [i Hi]%list_elem_of_lookup. unfold children in Hi. apply list_lookup_imap_Some in Hi as (c & Hc & ->).
      apply shut_fds. eapply Forall_lookup_1; [by apply Hsh|done].
    + intros i c e' Hi Hc. unfold children in Hi. apply list_lookup_imap_Some in Hi as (c' & Hc' & [= -> _]).
      apply (L4 i c' Hc'). by destruct Hc as [-> | ->].
  - intros m s Hn. assert (mu start_state = 7 * n + 6)%nat as <- by (unfold mu; cbn; lia).
    refine (nsteps_bounded_inv _ (inv false) mu _ _ s _ _ _ Hn); [apply sync_inv_step|apply sync_mu_step|apply sync_inv_start].
  - intros Hnum s (p & cs & [Hts _ Hm _ [order HL] Hst])%(Hinv true) Hall. destruct (Hst eq_refl Hnum) as [Hfc Hfp].
    rewrite Hts in Hall |- *. cbn [forallb has_ended] in Hall. apply andb_true_iff in Hall as [Hp Hall].
    destruct p as [| | | | | |f]; try done. cbn in Hfp. subst f. destruct Hm as [Hm _].
    destruct (fates_children cs 1 Hall Hfc) as [Hfates Hcs]. split.
    + cbn. f_equal. rewrite <- Hm. exact Hfates.
    + exists order. rewrite <- Hm. split; [by apply (all_told _ _ _ _ HL)|]. by destruct HL as [-> _ _ _].
Qed.
End Correct.

(** ** A run

    Of three children the second is the first to tell. *)
Definition sync_args : list bytes := [str "2"; str "0"; str "1"].
Definition sync_exec := exec (str "pipe_sync" :: sync_args) (str "10:00:00") (str "10:00:02") (fun _ => str "10:00:01") (fun j => 100 + Z.of_nat j)%Z.
Definition sync_run : list (nat * answer) :=
  (fun i => (i, Done 0)) <$> ([0; 0; 0; 0; 0; 2; 1; 2; 2; 2; 1; 0; 0; 3; 3; 3; 3; 2; 1; 1; 0; 1; 3; 0])%nat.

Lemma pipe_sync_waits_witness :
  exists s, run sync_exec sync_run start_state = Some s /\ fates (threads s) = replicate 4 (Exited 0) /\
    exists order, order ≡ₚ seq 1 3 /\ printed s = started_line (str "10:00:00") ::
      (child_line (fun _ => str "10:00:01") (fun j => 100 + Z.of_nat j)%Z <$> order) ++ [ready_line (str "10:00:02")].
Proof.
  destruct (run sync_exec sync_run start_state) as [s|] eqn:E; [|vm_compute in E; discriminate E].
  exists s. split; [done|]. assert (rtc (step sync_exec full) start_state s) as Hrun.
  { refine (Threads.run_rtc _ full _ _ _ _ E). apply Forall_fmap, Forall_true. by intros x. }
  assert (forallb has_ended (threads s) = true) as Hall by (vm_compute in E; injection E as <-; vm_compute; reflexivity).
  destruct (pipe_sync_waits (str "pipe_sync") sync_args (str "10:00:00") (str "10:00:02") (fun _ => str "10:00:01")
    (fun j => 100 + Z.of_nat j)%Z) as (_ & _ & Hfull).
  refine (Hfull _ s Hrun Hall). unfold numbers, sync_args. repeat apply Forall_cons_2; try apply Forall_nil_2; vm_compute; discriminate.
Defined.
