(* ===== verification/MsgFile.v ===== *)
(** * A file server over message queues

    svmsg_file_server.c and svmsg_file_client.c (tlpi-dist/svmsg): the clients put requests into the
    queue of the server, which makes a child for each of them, and the child sends the file to the
    queue of its client.  The server, its children and any number of clients interleave at the level
    of system calls, on the scheduler of Threads.v.  The identifier of a client's queue is the number
    of the client; queues hold a limited number of bytes, and a send to a full queue waits.  What the
    server and its children print to the standard error is not kept. *)

From Stdlib Require Import ZArith Lia String Ascii.
From stdpp Require Import functions.
From S2P Require Import Prelude CString Kernel.
From S2P Require Threads.
From S2P Require Import Pipes.
Import Threads (sys, Sys, shared, threads, printed, ended, effect, Go, Create, Say, Wait, Stop, run_one, step, run).

Definition PATH_MAX : Z := 4096.
Definition REQ_MSG_SIZE : Z := 4 + PATH_MAX.
Definition RESP_MSG_SIZE : nat := Z.to_nat 8192.
Definition RESP_MT_FAILURE : Z := 1.
Definition RESP_MT_DATA : Z := 2.
Definition RESP_MT_END : Z := 3.

Definition E2BIG : Z := 7.
Definition EEXIST : Z := 17.

Record requestMsg := Req { clientId : nat; pathname : bytes }.
Record responseMsg := Resp { mtype : Z; data : bytes }.

(** The queue of the server, and those of the clients. *)
Record queues := Queues { server_q : option (list requestMsg); client_q : list (option (list responseMsg)) }.

(** How a process ends; [Undefined] is a second call of [exit], from the exit handler, after a
    failed call, and [Overflow] that of the counter of messages. *)
Inductive ending := Exited (status : Z) | Failed (errnum : Z) (call : string) | Undefined (errnum : Z) | Overflow.

Inductive server_pc := SGet | SSigaction | SRecv | SFork (req : requestMsg) | SRemove | SEnd (e : ending).
Inductive child_pc := KOpen | KSorry | KRead (rest : bytes) | KSend (buf rest : bytes) | KSendEnd | KEnd (status : Z).
Inductive client_pc :=
| CStart | CServer | CQueue | CAtexit | CSend | CFirst | CShow (text : bytes) | CRemove
| CRecv (totBytes numMsgs : Z) | CReport (totBytes numMsgs : Z) | CLeave (e : ending) | CEnd (e : ending).

(** A client has its standard output with it. *)
Inductive proc := Server (s : server_pc) | Client (j : nat) (c : client_pc) (out : list bytes) | Child (req : requestMsg) (k : child_pc).

Definition sorry_text : bytes := str "Couldn't open".
Definition received_line (totBytes numMsgs : Z) : bytes :=
  str "Received " ++ dec totBytes ++ str " bytes (" ++ dec numMsgs ++ str " messages)" ++ [NL].
Definition sorry : responseMsg := Resp RESP_MT_FAILURE (sorry_text ++ [NUL]).
Definition the_end : responseMsg := Resp RESP_MT_END [].

Section Program.
(** The limit of bytes in a queue, the contents of the files that can be opened, and the argument
    of each client. *)
Context (qbytes : Z) (files : bytes -> option bytes) (argument : nat -> bytes).

(** *** Messages *)

Definition room {M} (size : M -> Z) (q : list M) (m : M) : bool :=
  (foldr Z.add 0 (size <$> q) + size m <=? qbytes) && (Z.of_nat (length q) <? qbytes).
Definition size_of (m : responseMsg) : Z := strlen (data m).

Inductive sending := Sent (g : queues) | Refused (errnum : Z) | Full.

Definition msgsnd (a : answer) (j : nat) (m : responseMsg) (g : queues) : sending :=
  match a, client_q g !! j with
  | Fails e, _ => Refused e
  | Done _, Some (Some q) =>
      if room size_of q m then Sent (Queues (server_q g) (<[j := Some (q ++ [m])]> (client_q g))) else Full
  | Done _, _ => Refused EINVAL
  end.

Definition send_request (a : answer) (r : requestMsg) (g : queues) : sending :=
  match a, server_q g with
  | Fails e, _ => Refused e
  | Done _, Some q => if room (fun _ => REQ_MSG_SIZE) q r then Sent (Queues (Some (q ++ [r])) (client_q g)) else Full
  | Done _, None => Refused EINVAL
  end.

Inductive receiving := Got (m : responseMsg) (g : queues) | Not_got (errnum : Z) | Empty.

Definition msgrcv (a : answer) (j : nat) (g : queues) : receiving :=
  match a, client_q g !! j with
  | Fails e, _ => Not_got e
  | Done _, Some (Some (m :: q)) =>
      if Z.of_nat RESP_MSG_SIZE <? strlen (data m) then Not_got E2BIG
      else Got m (Queues (server_q g) (<[j := Some q]> (client_q g)))
  | Done _, Some (Some []) => Empty
  | Done _, _ => Not_got EINVAL
  end.

(** [msgctl] with [IPC_RMID] on a client's queue. *)
Definition remove_queue (a : answer) (j : nat) (g : queues) : queues + Z :=
  match a, client_q g !! j with
  | Fails e, _ => inr e
  | Done _, Some (Some _) => inl (Queues (server_q g) (<[j := None]> (client_q g)))
  | Done _, _ => inr EINVAL
  end.

(** *** The server *)

Definition server_exec (a : answer) (s : server_pc) (g : queues) : effect queues proc :=
  let go s := Go (Server s) g in
  match s with
  | SGet =>
      match a, server_q g with
      | Fails e, _ => go (SEnd (Failed e "msgget"))
      | Done _, Some _ => go (SEnd (Failed EEXIST "msgget"))
      | Done _, None => Go (Server SSigaction) (Queues (Some []) (client_q g))
      end
  | SSigaction => match a with Done _ => go SRecv | Fails e => go (SEnd (Failed e "sigaction")) end
  | SRecv =>
      match a, server_q g with
      | Fails e, _ => go (if e =? EINTR then SRecv else SRemove)
      | Done _, None => go SRemove
      | Done _, Some [] => Wait
      | Done _, Some (req :: q) => Go (Server (SFork req)) (Queues (Some q) (client_q g))
      end
  | SFork req => match a with Done _ => Create (Server SRecv) (Child req KOpen) | Fails _ => go SRemove end
  | SRemove =>
      match a, server_q g with
      | Fails e, _ => go (SEnd (Failed e "msgctl"))
      | Done _, None => go (SEnd (Failed EINVAL "msgctl"))
      | Done _, Some _ => Go (Server (SEnd (Exited EXIT_SUCCESS))) (Queues None (client_q g))
      end
  | SEnd _ => Wait
  end.

(** [serveRequest], and the end of the child. *)
Definition serveRequest (a : answer) (req : requestMsg) (k : child_pc) (g : queues) : effect queues proc :=
  let go k := Go (Child req k) in
  let send m k sent failed :=
    match msgsnd a (clientId req) m g with Sent g' => go sent g' | Refused _ => go failed g | Full => Wait end in
  match k with
  | KOpen => match a, files (pathname req) with Done _, Some f => go (KRead f) g | _, _ => go KSorry g end
  | KSorry => send sorry k (KEnd EXIT_FAILURE) (KEnd EXIT_FAILURE)
  | KRead rest =>
      match a with
      | Fails _ => go KSendEnd g
      | Done n =>
          let n := Nat.max 1 (Nat.min n RESP_MSG_SIZE) in
          match take n rest with [] => go KSendEnd g | buf => go (KSend buf (drop n rest)) g end
      end
  | KSend buf rest => send (Resp RESP_MT_DATA buf) k (KRead rest) KSendEnd
  | KSendEnd => send the_end k (KEnd EXIT_SUCCESS) (KEnd EXIT_SUCCESS)
  | KEnd _ => Wait
  end.

(** *** The client *)

(** What [%s] prints of a buffer. *)
Definition c_str (s : bytes) : bytes := (span (fun c => negb (Ascii.eqb c NUL)) s).1.

(** The test of the loop. *)
Definition next_message (m : responseMsg) (totBytes numMsgs : Z) : client_pc :=
  if mtype m =? RESP_MT_DATA then CRecv totBytes numMsgs else CReport totBytes numMsgs.

Definition client_exec (a : answer) (j : nat) (c : client_pc) (out : list bytes) (g : queues) : effect queues proc :=
  let go c := Go (Client j c out) in
  let check call ended k := match a with Done _ => k | Fails e => go (ended (Failed e call)) g end in
  match c with
  | CStart => go (if PATH_MAX - 1 <? strlen (argument j) then CEnd (Exited EXIT_FAILURE) else CServer) g
  | CServer =>
      check "msgget - server message queue"%string CEnd
        (go (match server_q g with Some _ => CQueue | None => CEnd (Failed ENOENT "msgget - server message queue") end) g)
  | CQueue =>
      check "msgget - client message queue"%string CEnd
        (go CAtexit (Queues (server_q g) (<[j := Some []]> (client_q g))))
  | CAtexit => check "atexit"%string CEnd (go CSend g)
  | CSend =>
      match send_request a (Req j (argument j)) g with
      | Sent g' => go CFirst g'
      | Refused e => go (CLeave (Failed e "msgsnd")) g
      | Full => Wait
      end
  | CFirst =>
      match msgrcv a j g with
      | Got m g' =>
          if mtype m =? RESP_MT_FAILURE then go (CShow (c_str (data m))) g'
          else go (next_message m (strlen (data m)) 1) g'
      | Not_got e => go (CLeave (Failed e "msgrcv")) g
      | Empty => Wait
      end
  | CShow text => Go (Client j CRemove (out ++ [text ++ [NL]])) g
  | CRemove =>
      match remove_queue a j g with
      | inl g' => go (CLeave (Exited EXIT_FAILURE)) g'
      | inr e => go (CLeave (Failed e "msgctl")) g
      end
  | CRecv totBytes numMsgs =>
      match msgrcv a j g with
      | Got m g' =>
          if numMsgs =? INT_MAX then go (CEnd Overflow) g'
          else go (next_message m (totBytes + strlen (data m)) (numMsgs + 1)) g'
      | Not_got e => go (CLeave (Failed e "msgrcv")) g
      | Empty => Wait
      end
  | CReport totBytes numMsgs => Go (Client j (CLeave (Exited EXIT_SUCCESS)) (out ++ [received_line totBytes numMsgs])) g
  | CLeave e => (* removeQueue *)
      match remove_queue a j g with inl g' => go (CEnd e) g' | inr errnum => go (CEnd (Undefined errnum)) g end
  | CEnd _ => Wait
  end.

Definition exec (self : nat) (a : answer) (ts : list proc) (t : proc) (g : queues) : effect queues proc :=
  match t with
  | Server s => server_exec a s g
  | Client j c out => client_exec a j c out g
  | Child req k => serveRequest a req k g
  end.

(** A server and [n] clients. *)
Definition start_state (n : nat) : sys queues proc :=
  Sys (Queues None (replicate n None)) (Server SGet :: imap (fun j c => Client j c []) (replicate n CStart)) [] None.
End Program.

(** ** The conversation of a client with its child *)

Section Correct.
Context (qbytes : Z) (files : bytes -> option bytes) (argument : nat -> bytes) (n : nat).
Context (Hqbytes : REQ_MSG_SIZE <= qbytes /\ Z.of_nat RESP_MSG_SIZE <= qbytes).
Context (Hfiles : forall path f, files path = Some f -> strlen f < INT_MAX).
Let ex := exec qbytes files argument.

(** When [strict], no call fails; opening a file that is not there does. *)
Definition full (a : answer) : Prop := exists k, a = Done k.
Definition allowed (strict : bool) : answer -> Prop := if strict then full else fun _ => True.

Definition piece (x : bytes) : Prop := (0 < length x <= RESP_MSG_SIZE)%nat.
Definition data_msgs (q : list responseMsg) (x : bytes) : Prop :=
  Forall (fun m => mtype m = RESP_MT_DATA /\ piece (data m)) q /\ concat (data <$> q) = x.

(** [k] messages with the text [x]. *)
Definition counts (x : bytes) (k : Z) : Prop := k <= strlen x <= Z.of_nat RESP_MSG_SIZE * k.

(** The client has received [k] messages of data, [x] together. *)
Definition got (c : client_pc) (x : bytes) (k : Z) : Prop :=
  match c with
  | CFirst => x = [] /\ k = 0
  | CRecv totBytes numMsgs => totBytes = strlen x /\ numMsgs = k /\ 1 <= k
  | _ => False
  end.

(** What a child has left to send. *)
Definition left_of (k : child_pc) (rest : bytes) : Prop :=
  match k with KRead r => rest = r | KSend buf r => rest = buf ++ r /\ piece buf | _ => False end.

Inductive place := Unsent | Waiting | With (k : child_pc).

Definition bad (e : ending) : Prop := match e with Exited st => st <> 0 | _ => True end.
Definition broken (c : client_pc) : Prop :=
  match c with CShow _ | CRemove => True | CLeave e | CEnd e => bad e | _ => False end.

(** The result of a client whose request went through. *)
Definition result (strict : bool) (path : bytes) (e : ending) (out : list bytes) : Prop :=
  e = Exited 0 /\ exists f x k, files path = Some f /\ x `prefix_of` f /\ (strict = true -> x = f) /\ counts x k /\
    out = [received_line (strlen x) (k + 1)].
Definition early (path : bytes) (e : ending) : Prop :=
  e = Exited EXIT_FAILURE /\ PATH_MAX - 1 < strlen path \/ e = Failed ENOENT "msgget - server message queue".

(** [conv path p c out q]: the request for [path] is at [p], the client is at [c], having printed
    [out], and its queue is [q]. *)
Inductive conv (strict : bool) (path : bytes) : place -> client_pc -> list bytes -> option (list responseMsg) -> Prop :=
| v_unsent c q :
    match c with CStart | CServer | CQueue => True | CAtexit | CSend => q = Some [] | CEnd e => early path e | _ => False end ->
    conv strict path Unsent c [] q
| v_waiting p : p = Waiting \/ p = With KOpen -> conv strict path p CFirst [] (Some [])
| v_sorry p q :
    (strict = true -> files path = None) ->
    p = With KSorry /\ q = [] \/ p = With (KEnd EXIT_FAILURE) /\ (q = [sorry] \/ strict = false /\ q = []) ->
    conv strict path p CFirst [] (Some q)
| v_data f x y rest k num c q :
    files path = Some f -> left_of k rest -> f = x ++ y ++ rest -> got c x num -> data_msgs q y ->
    counts (x ++ y) (num + Z.of_nat (length q)) -> conv strict path (With k) c [] (Some q)
| v_end f x y k num c q tl :
    files path = Some f -> (x ++ y) `prefix_of` f -> (strict = true -> f = x ++ y) -> got c x num -> data_msgs q y ->
    counts (x ++ y) (num + Z.of_nat (length q)) ->
    k = KSendEnd /\ tl = [] \/ k = KEnd EXIT_SUCCESS /\ (tl = [the_end] \/ strict = false /\ tl = []) ->
    conv strict path (With k) c [] (Some (q ++ tl))
| v_report f x num :
    files path = Some f -> x `prefix_of` f -> (strict = true -> x = f) -> counts x num ->
    conv strict path (With (KEnd EXIT_SUCCESS)) (CReport (strlen x) (num + 1)) [] (Some [])
| v_result e out : result strict path e out -> conv strict path (With (KEnd EXIT_SUCCESS)) (CLeave e) out (Some [])
| v_done e out q : result strict path e out -> conv strict path (With (KEnd EXIT_SUCCESS)) (CEnd e) out q
| v_failure c out q :
    (strict = true -> files path = None) ->
    match c with
    | CShow text => text = sorry_text /\ q = Some [] /\ out = []
    | CRemove => q = Some [] /\ out = [sorry_text ++ [NL]]
    | CLeave e => e = Exited EXIT_FAILURE /\ q = None /\ out = [sorry_text ++ [NL]]
    | CEnd e => e = Undefined EINVAL /\ out = [sorry_text ++ [NL]]
    | _ => False
    end -> conv strict path (With (KEnd EXIT_FAILURE)) c out q
| v_broken p c out q : strict = false -> broken c -> conv strict path p c out q.

Lemma msg_allowed_fails strict e : allowed strict (Fails e) -> strict = false.
Proof. destruct strict; [|done]. by intros [? ?]. Qed.

Lemma room_empty {M} (size : M -> Z) m : size m <= qbytes -> room qbytes size [] m = true.
Proof. intros H. unfold room. cbn. destruct Hqbytes. unfold REQ_MSG_SIZE, PATH_MAX in *. rewrite (proj2 (Z.leb_le _ _)), (proj2 (Z.ltb_lt _ _)) by lia. done. Qed.

(** *** The steps of a child *)

Definition after_child (strict : bool) (path : bytes) (r : requestMsg) (c : client_pc) (out : list bytes) (g : queues)
    (e : effect queues proc) : Prop :=
  match e with
  | Go t g' => exists k' q', t = Child r k' /\ g' = Queues (server_q g) (<[clientId r := q']> (client_q g)) /\
      conv strict path (With k') c out q'
  | Wait => True
  | _ => False
  end.

(** Nothing but the place changes. *)
Lemma child_keeps strict path r c out g q k' :
  client_q g !! clientId r = Some q -> conv strict path (With k') c out q ->
  after_child strict path r c out g (Go (Child r k') g).
Proof. intros Hq Hc. exists k', q. rewrite list_insert_id by done. by destruct g. Qed.

Lemma send_cases a r m g q :
  client_q g !! clientId r = Some q ->
  match msgsnd qbytes a (clientId r) m g with
  | Sent g' => exists l, q = Some l /\ g' = Queues (server_q g) (<[clientId r := Some (l ++ [m])]> (client_q g))
  | Refused e => a = Fails e \/ q = None
  | Full => exists l, q = Some l /\ room qbytes size_of l m = false
  end.
Proof.
  intros Hq. unfold msgsnd. rewrite Hq. destruct a as [k|e]; [|by left]. destruct q as [l|]; [|by right].
  destruct (room _ _ _ _) eqn:E; eauto.
Qed.

Lemma counts_snoc x y z k : counts (x ++ y) k -> piece z -> counts (x ++ y ++ z) (k + 1).
Proof. unfold counts, piece. rewrite !strlen_app. unfold strlen. lia. Qed.

Lemma data_msgs_snoc q x y : data_msgs q x -> piece y -> data_msgs (q ++ [Resp RESP_MT_DATA y]) (x ++ y).
Proof.
  intros [Hq <-] Hy. split; [apply Forall_app; split; [done|by apply Forall_singleton]|].
  rewrite fmap_app, concat_app. cbn. by rewrite app_nil_r.
Qed.

(** What the places of a child share: its client has failed. *)
Lemma child_step strict r c out g q a k :
  client_q g !! clientId r = Some q -> allowed strict a -> conv strict (pathname r) (With k) c out q ->
  after_child strict (pathname r) r c out g (serveRequest qbytes files a r k g).
Proof.
  intros Hq Ha HC.
  assert (strict = false -> broken c -> after_child strict (pathname r) r c out g (serveRequest qbytes files a r k g)) as Hbroken.
  { intros Hs Hb. assert (forall m k1 k2, after_child strict (pathname r) r c out g
      (match msgsnd qbytes a (clientId r) m g with Sent g' => Go (Child r k1) g' | Refused _ => Go (Child r k2) g | Full => Wait end)) as Hsend.
    { intros m k1 k2. pose proof (send_cases a r m g q Hq) as H. destruct (msgsnd _ _ _ _ _) as [g'|e|]; [| |done].
      - destruct H as (l & -> & ->). eexists _, _. split_and!; try done. by apply v_broken.
      - by eapply child_keeps, v_broken. }
    destruct k; cbn [serveRequest]; try apply Hsend; try done; repeat case_match; by eapply child_keeps, v_broken. }
  inversion HC as [|p Hp Ep Ec Eo Eq|p q0 Hfile Hp Ep Ec Eo Eq|f x y rest k0 num c0 q0 Hf Hl Hcat Hg Hd Hcnt Ep Ec Eo Eq
    |f x y k0 num c0 q0 tl Hf Hpre Hst Hg Hd Hcnt Hk Ep Ec Eo Eq| | | | |]; subst; try done; try by apply Hbroken.
  - destruct Hp as [|[= ->]]; [done|]. cbn [serveRequest].
    assert ((strict = true -> files (pathname r) = None) -> after_child strict (pathname r) r CFirst [] g (Go (Child r KSorry) g)) as Hno.
    { intros Hno. eapply child_keeps; [done|]. apply v_sorry; [done|by left]. }
    destruct a as [m|e]; [|apply Hno; intros ->; by destruct Ha]. destruct (files (pathname r)) as [f|] eqn:Ef; [|by apply Hno].
    eapply child_keeps; [done|]. by eapply (v_data _ _ f [] [] f _ 0 _ []).
  - destruct Hp as [[[= ->] ->]|[[= ->] _]]; [|done]. cbn [serveRequest].
    pose proof (send_cases a r sorry g _ Hq) as H. destruct (msgsnd _ _ _ _ _) as [g'|e|]; [| |done].
    + destruct H as (l & [= <-] & ->). eexists _, _. split_and!; try done. apply v_sorry; [done|]. right. split; [done|by left].
    + destruct H as [-> |?]; [|done]. apply msg_allowed_fails in Ha. eapply child_keeps; [done|]. apply v_sorry; [done|]. right. by auto.
  - destruct k as [| |r0|buf r0| |]; try done; cbn in Hl; cbn [serveRequest].
    + subst rest. assert (forall n0, (1 <= n0 <= RESP_MSG_SIZE)%nat -> after_child strict (pathname r) r c [] g
        (match take n0 r0 with [] => Go (Child r KSendEnd) g | buf => Go (Child r (KSend buf (drop n0 r0))) g end)) as Hread.
      { intros n0 Hn0. destruct (take n0 r0) as [|b buf] eqn:Et; (eapply child_keeps; [done|]).
        - assert (r0 = []) as -> by (destruct r0; [done|]; destruct n0; [lia|done]). rewrite app_nil_r in Hf.
          rewrite <- (app_nil_r q0). eapply (v_end _ _ (x ++ y) x y); try done. by left.
        - eapply (v_data _ _ (x ++ y ++ r0) x y r0); try done. split; [by rewrite <- Et, take_drop|].
          rewrite <- Et. split; [rewrite Et; cbn; lia|rewrite length_take; lia]. }
      destruct a as [m|e].
      * apply Hread. unfold RESP_MSG_SIZE. lia.
      * apply msg_allowed_fails in Ha. eapply child_keeps; [done|]. rewrite <- (app_nil_r q0).
        eapply (v_end _ _ (x ++ y ++ r0) x y); try done; [exists r0; by rewrite <- app_assoc|by rewrite Ha|by left].
    + destruct Hl as [-> Hb]. pose proof (send_cases a r (Resp RESP_MT_DATA buf) g _ Hq) as H.
      destruct (msgsnd _ _ _ _ _) as [g'|e|]; [| |done].
      * destruct H as (l & [= <-] & ->). eexists _, _. split_and!; try done.
        eapply (v_data _ _ _ x (y ++ buf) r0); try done; [by rewrite <- !app_assoc|by apply data_msgs_snoc|].
        rewrite length_app. cbn [length]. replace (num + _) with (num + Z.of_nat (length q0) + 1) by lia. by apply counts_snoc.
      * destruct H as [-> |?]; [|done]. apply msg_allowed_fails in Ha. eapply child_keeps; [done|]. rewrite <- (app_nil_r q0).
        eapply (v_end _ _ _ x y); try done; [exists (buf ++ r0); by rewrite <- app_assoc|by rewrite Ha|by left].
  - destruct Hk as [[-> ->]|[-> _]]; [|done]. cbn [serveRequest]. rewrite app_nil_r in *.
    pose proof (send_cases a r the_end g _ Hq) as H. destruct (msgsnd _ _ _ _ _) as [g'|e|]; [| |done].
    + destruct H as (l & [= <-] & ->). eexists _, _. split_and!; try done. eapply (v_end _ _ f x y); try done. right. split; [done|by left].
    + destruct H as [-> |?]; [|done]. apply msg_allowed_fails in Ha. eapply child_keeps; [done|]. rewrite <- (app_nil_r q0).
      eapply (v_end _ _ f x y); try done. right. by auto.
Qed.

(** *** The steps of a client *)

Definition past (c : client_pc) : Prop := match c with CStart | CServer | CEnd _ => False | _ => True end.

Definition after_client (strict : bool) (j : nat) (p : place) (c : client_pc) (g : queues) (e : effect queues proc) : Prop :=
  match e with
  | Go t g' => exists c' out' q', t = Client j c' out' /\ g' = Queues (server_q g) (<[j := q']> (client_q g)) /\
      conv strict (argument j) p c' out' q' /\ (server_q g = None -> past c' -> past c)
  | Wait => True
  | _ => False
  end.

Lemma client_keeps strict j p c g q c' out' :
  client_q g !! j = Some q -> conv strict (argument j) p c' out' q -> (server_q g = None -> past c' -> past c) ->
  after_client strict j p c g (Go (Client j c' out') g).
Proof. intros Hq Hc Hp. exists c', out', q. rewrite list_insert_id by done. by destruct g. Qed.

Lemma rcv_cases a j g q :
  client_q g !! j = Some q ->
  match msgrcv a j g with
  | Got m g' => exists l, q = Some (m :: l) /\ g' = Queues (server_q g) (<[j := Some l]> (client_q g))
  | Not_got e => a = Fails e \/ q = None \/ exists m l, q = Some (m :: l) /\ Z.of_nat RESP_MSG_SIZE < strlen (data m)
  | Empty => q = Some []
  end.
Proof.
  intros Hq. unfold msgrcv. rewrite Hq. destruct a as [k|e]; [|by left]. destruct q as [[|m l]|]; [done| |by auto].
  destruct (Z.ltb_spec (Z.of_nat RESP_MSG_SIZE) (strlen (data m))); eauto 6.
Qed.

Lemma rmid_cases a j g q :
  client_q g !! j = Some q ->
  match remove_queue a j g with
  | inl g' => is_Some q /\ g' = Queues (server_q g) (<[j := None]> (client_q g))
  | inr e => a = Fails e \/ q = None /\ e = EINVAL
  end.
Proof. intros Hq. unfold remove_queue. rewrite Hq. destruct a as [k|e]; [|by left]. destruct q as [l|]; [by eauto|by right]. Qed.

Lemma next_got m c x k : mtype m = RESP_MT_DATA -> got c x k -> 0 <= k -> got (next_message m (strlen x + strlen (data m)) (k + 1)) (x ++ data m) (k + 1).
Proof. intros Hm Hg Hk. unfold next_message. rewrite Hm. cbn. rewrite strlen_app. destruct c; cbn in Hg; lia. Qed.

Lemma data_msgs_cons m q y : data_msgs (m :: q) y -> exists y', y = data m ++ y' /\ mtype m = RESP_MT_DATA /\ piece (data m) /\ data_msgs q y'.
Proof. intros [[[Hm Hp] Hq]%Forall_cons <-]. by exists (concat (data <$> q)). Qed.

Definition receives (c : client_pc) : Prop := match c with CFirst | CRecv _ _ => True | _ => False end.

(** The client takes the message [m] out of its queue, and [l] is left. *)
Definition takes (strict : bool) (j : nat) (p : place) (c : client_pc) (m : responseMsg) (l : list responseMsg) : Prop :=
  match c with
  | CFirst =>
      conv strict (argument j) p (if mtype m =? RESP_MT_FAILURE then CShow (c_str (data m)) else next_message m (strlen (data m)) 1) [] (Some l)
  | CRecv totBytes numMsgs =>
      numMsgs <> INT_MAX /\ conv strict (argument j) p (next_message m (totBytes + strlen (data m)) (numMsgs + 1)) [] (Some l)
  | _ => True
  end.

Lemma takes_next strict j p c x k m l :
  got c x k -> 0 <= k < INT_MAX -> mtype m <> RESP_MT_FAILURE ->
  conv strict (argument j) p (next_message m (strlen x + strlen (data m)) (k + 1)) [] (Some l) -> takes strict j p c m l.
Proof.
  intros Hg Hk Hm HC. destruct c; try done; cbn in Hg |- *.
  - destruct Hg as [-> ->]. by rewrite (proj2 (Z.eqb_neq _ _) Hm).
  - destruct Hg as (-> & -> & _). split; [lia|done].
Qed.

Lemma conv_takes strict j p c out m l : conv strict (argument j) p c out (Some (m :: l)) -> receives c ->
  takes strict j p c m l /\ strlen (data m) <= Z.of_nat RESP_MSG_SIZE.
Proof.
  intros HC Hrc. inversion HC as [c0 q0 Hc| |p0 q0 Hfile Hp Ep Ec Eo Eq|f x y rest k0 num c0 q0 Hf Hl Hcat Hg Hd Hcnt Ep Ec Eo Eq
    |f x y k0 num c0 q0 tl Hf Hpre Hst Hg Hd Hcnt Hk Ep Ec Eo Eq| | |e out0 q0 [-> _]|c0 out0 q0 Hfile Hc|]; subst; try done.
  - by destruct c.
  - destruct Hp as [[_ ?]|[-> [Eq|[_ ?]]]]; [done| |done]. injection Eq as -> ->. split; [|by vm_compute]. cbn. by apply v_failure.
  - destruct (data_msgs_cons _ _ _ Hd) as (y' & -> & Hm & Hpc & Hd'). split; [|destruct Hpc; unfold strlen; lia].
    assert (strlen (x ++ (data m ++ y') ++ rest) < INT_MAX) as Hlt by by eapply Hfiles.
    assert (0 <= num) by (destruct c; cbn in Hg; lia). cbn [length] in Hcnt. rewrite !strlen_app in Hlt. unfold counts in Hcnt. rewrite !strlen_app in Hcnt.
    pose proof (strlen_nonneg rest). eapply takes_next; [done|lia|by rewrite Hm|].
    eapply (v_data _ _ _ (x ++ data m) y' rest _ (num + 1)); try done; [by rewrite <- !app_assoc|by apply (next_got m c)|].
    unfold counts. rewrite !strlen_app. lia.
  - assert (strlen (x ++ y) < INT_MAX) as Hlt.
    { destruct Hpre as [z ->]. pose proof (Hfiles _ _ Hf) as Hz. rewrite strlen_app in Hz. pose proof (strlen_nonneg z). lia. }
    assert (0 <= num) by (destruct c; cbn in Hg; lia). unfold counts in Hcnt. rewrite !strlen_app in *.
    destruct q0 as [|m0 q0].
    + destruct Hk as [[_ ->]|[-> [-> |[_ ->]]]]; [done| |done]. injection Eq as <- <-. split; [|by vm_compute].
      destruct Hd as [_ <-]. cbn in *. rewrite app_nil_r in *. eapply takes_next; [done|lia|done|]. cbn. rewrite Z.add_0_r.
      eapply v_report; [done|done|by intros ->%Hst|]. unfold counts. change (strlen []) with 0 in Hcnt. by rewrite !Z.add_0_r in Hcnt.
    + injection Eq as -> <-. destruct (data_msgs_cons _ _ _ Hd) as (y' & -> & Hm & Hpc & Hd').
      split; [|destruct Hpc; unfold strlen; lia]. cbn [length] in Hcnt. rewrite !strlen_app in *.
      pose proof (strlen_nonneg y'). eapply takes_next; [done|destruct Hpc; unfold strlen in *; lia|by rewrite Hm|].
      eapply (v_end _ _ f (x ++ data m) y' _ (num + 1)); try done; [by rewrite <- app_assoc|by rewrite <- app_assoc|by apply (next_got m c)|].
      unfold counts. rewrite !strlen_app. lia.
  - by destruct c.
  - by destruct c.
Qed.

Lemma conv_queue strict j p c out q : conv strict (argument j) p c out q -> receives c -> is_Some q.
Proof. intros HC Hc. inversion HC as [c0 ? H| | | | | | | |? ? ? ? H|? ? ? ? ? H]; subst; try done; by destruct c. Qed.

Lemma client_receives strict j p c out g q a :
  client_q g !! j = Some q -> allowed strict a -> conv strict (argument j) p c out q -> receives c ->
  after_client strict j p c g (client_exec qbytes argument a j c [] g).
Proof.
  intros Hq Ha HC Hrc. pose proof (rcv_cases a j g q Hq) as H. pose proof (conv_queue _ _ _ _ _ _ HC Hrc) as [l0 Hl0].
  assert (forall e, a = Fails e \/ q = None \/ (exists m l, q = Some (m :: l) /\ Z.of_nat RESP_MSG_SIZE < strlen (data m)) ->
    after_client strict j p c g (Go (Client j (CLeave (Failed e "msgrcv")) []) g)) as Hno.
  { intros e [-> |[Hn|(m & l & Hm & Hlong)]]; [|congruence|].
    - apply msg_allowed_fails in Ha. eapply client_keeps; [done|by apply v_broken|by destruct c].
    - rewrite Hm in HC. apply conv_takes in HC as [_ ?]; [lia|done]. }
  destruct c; try done; cbn [client_exec]; destruct (msgrcv a j g) as [m g'|e|]; try done; try by apply Hno.
  - destruct H as (l & -> & ->). apply conv_takes in HC as [HT _]; [|done]. cbn in HT.
    destruct (mtype m =? RESP_MT_FAILURE); eexists _, _, _; by split_and!.
  - destruct H as (l & -> & ->). apply conv_takes in HC as [[Hmax HT] _]; [|done].
    rewrite (proj2 (Z.eqb_neq _ _) Hmax). eexists _, _, _; by split_and!.
Qed.

Lemma conv_out strict j p c out q : conv strict (argument j) p c out q -> receives c -> out = [].
Proof. intros HC Hc. inversion HC as [| | | | | | | |? ? ? ? H|? ? ? ? ? H]; subst; try done; by destruct c. Qed.

(** The client leaves through its exit handler. *)
Lemma client_leaves strict j p e out g q a :
  client_q g !! j = Some q -> allowed strict a -> conv strict (argument j) p (CLeave e) out q ->
  after_client strict j p (CLeave e) g (client_exec qbytes argument a j (CLeave e) out g).
Proof.
  intros Hq Ha HC. pose proof (rmid_cases a j g q Hq) as H. cbn [client_exec].
  assert (strict = false -> after_client strict j p (CLeave e) g (Go (Client j (CEnd (Undefined EINVAL)) out) g)) as Hfail.
  { intros Hs. eapply client_keeps; [done|by apply v_broken|done]. }
  inversion HC as [| | | | | |e0 out0 Hr| |c0 out0 q0 Hfile Hc|p0 c0 out0 q0 Hs Hb]; subst; try done.
  - destruct (remove_queue a j g) as [g'|err].
    + destruct H as [_ ->]. eexists _, _, _. split_and!; [done|done|by apply v_done|done].
    + destruct H as [-> |[? _]]; [|done]. apply msg_allowed_fails in Ha. eapply client_keeps; [done|by apply v_broken|done].
  - destruct Hc as (-> & -> & ->). destruct (remove_queue a j g) as [g'|err]; [by destruct H as [[? ?] _]|].
    destruct H as [-> |[_ ->]]; (eapply client_keeps; [done| |done]).
    + apply msg_allowed_fails in Ha. by apply v_broken.
    + by apply v_failure.
  - destruct (remove_queue a j g) as [g'|err]; [destruct H as [_ ->]|]; [eexists _, _, _; split_and!; [done|done|by apply v_broken|done]|].
    eapply client_keeps; [done|by apply v_broken|done].
Qed.

(** [msgget] and [atexit]. *)
Lemma client_starts strict j p c out g q a :
  client_q g !! j = Some q -> allowed strict a -> conv strict (argument j) p c out q ->
  match c with CStart | CServer | CQueue | CAtexit => True | _ => False end ->
  after_client strict j p c g (client_exec qbytes argument a j c out g).
Proof.
  intros Hq Ha HC Hc. assert (p = Unsent /\ out = [] /\ (c = CAtexit -> q = Some [])) as (-> & -> & Hq').
  { inversion HC as [| | | | | | | |? ? ? ? H|? ? ? ? ? H]; subst; try done; by destruct c. }
  assert (forall e call, a = Fails e -> (past (CEnd (Failed e call)) -> past c) ->
    after_client strict j Unsent c g (Go (Client j (CEnd (Failed e call)) []) g)) as Hfail.
  { intros e call -> Hp. apply msg_allowed_fails in Ha. eapply client_keeps; [done|by apply v_broken|done]. }
  destruct c; try done; cbn [client_exec]; try (destruct a as [k|e]; [|by apply Hfail]).
  - eapply client_keeps; [done| |by destruct (_ <? _)]. apply v_unsent.
    destruct (Z.ltb_spec (PATH_MAX - 1) (strlen (argument j))); [by left|done].
  - eapply client_keeps; [done| |by destruct (server_q g)]. apply v_unsent. destruct (server_q g); [done|by right].
  - eexists _, _, _. split_and!; [done|done| |done]. by apply v_unsent.
  - eapply client_keeps; [done| |done]. apply v_unsent. auto.
Qed.

Lemma client_step strict j p c out g q a :
  client_q g !! j = Some q -> allowed strict a -> conv strict (argument j) p c out q -> c <> CSend ->
  after_client strict j p c g (client_exec qbytes argument a j c out g).
Proof.
  intros Hq Ha HC Hc. destruct c; try (by eapply client_starts); try done.
  - pose proof (conv_out _ _ _ _ _ _ HC I) as ->. by eapply client_receives.
  - cbn [client_exec]. eapply client_keeps; [done| |done].
    inversion HC as [| | | | | | | |c0 out0 q0 Hfile Hc0|p0 c0 out0 q0 Hs Hb]; subst; try done; [|by apply v_broken].
    destruct Hc0 as (-> & -> & ->). by apply v_failure.
  - cbn [client_exec]. pose proof (rmid_cases a j g q Hq) as H. destruct (remove_queue a j g) as [g'|err].
    + destruct H as [_ ->]. eexists _, _, _. split_and!; [done|done| |done].
      inversion HC as [| | | | | | | |c0 out0 q0 Hfile Hc0|p0 c0 out0 q0 Hs Hb]; subst; try done; [|by apply v_broken].
      destruct Hc0 as (-> & ->). by apply v_failure.
    + inversion HC as [| | | | | | | |c0 out0 q0 Hfile Hc0|p0 c0 out0 q0 Hs Hb]; subst; try done.
      * destruct Hc0 as (-> & ->). destruct H as [-> |[? _]]; [|done]. apply msg_allowed_fails in Ha. eapply client_keeps; [done|by apply v_broken|done].
      * eapply client_keeps; [done|by apply v_broken|done].
  - pose proof (conv_out _ _ _ _ _ _ HC I) as ->. by eapply client_receives.
  - cbn [client_exec]. eapply client_keeps; [done| |done].
    inversion HC as [| | | | |f x num Hf Hpre Hst Hcnt| | |c0 out0 q0 Hfile Hb|p0 c0 out0 q0 Hs Hb]; subst; try done.
    apply v_result. split; [done|]. by exists f, x, num.
  - by eapply client_leaves.
Qed.

(** *** The whole system *)

Definition clients (cs : list (client_pc * list bytes)) : list proc := imap (fun j c => Client j c.1 c.2) cs.
Definition children (ks : list (requestMsg * child_pc)) : list proc := (fun k => Child k.1 k.2) <$> ks.
Definition procs (sp : server_pc) cs ks : list proc := Server sp :: clients cs ++ children ks.

Lemma procs_client sp cs ks j c : cs !! j = Some c -> procs sp cs ks !! S j = Some (Client j c.1 c.2).
Proof. intros H. cbn. apply lookup_app_l_Some. unfold clients. by rewrite list_lookup_imap, H. Qed.

Lemma procs_child sp cs ks i k : ks !! i = Some k -> procs sp cs ks !! S (length cs + i) = Some (Child k.1 k.2).
Proof.
  intros H. unfold procs. rewrite lookup_cons. rewrite lookup_app_r; unfold clients; rewrite length_imap; [|lia].
  replace (length cs + i - length cs)%nat with i by lia. unfold children. by rewrite list_lookup_fmap, H.
Qed.

Lemma procs_lookup sp cs ks i t : procs sp cs ks !! i = Some t ->
  i = 0%nat /\ t = Server sp \/ (exists j c, i = S j /\ cs !! j = Some c /\ t = Client j c.1 c.2) \/
  exists i' k, i = S (length cs + i') /\ ks !! i' = Some k /\ t = Child k.1 k.2.
Proof.
  destruct i as [|i]; cbn; [intros [= <-]; by left|]. intros [H|[Hl H]]%lookup_app_Some; right.
  - left. unfold clients in H. apply list_lookup_imap_Some in H as (c & Hc & ->). eauto.
  - right. unfold clients in *. rewrite length_imap in *. unfold children in H. rewrite list_lookup_fmap in H.
    destruct (ks !! _) as [k|] eqn:Ek; [|done]. injection H as <-. exists (i - length cs)%nat, k. split; [lia|done].
Qed.

Lemma procs_set_client sp cs ks j c : (j < length cs)%nat ->
  <[S j := Client j c.1 c.2]> (procs sp cs ks) = procs sp (<[j := c]> cs) ks.
Proof.
  intros Hj. change (<[S j := Client j c.1 c.2]> (procs sp cs ks)) with (Server sp :: <[j := Client j c.1 c.2]> (clients cs ++ children ks)).
  unfold procs. f_equal. rewrite insert_app_l by (unfold clients; rewrite length_imap; done). f_equal.
  apply list_eq. intros k. unfold clients. rewrite list_lookup_imap. destruct (decide (k = j)) as [->|Hne].
  - by rewrite !list_lookup_insert_eq by (rewrite ?length_imap; done).
  - by rewrite !list_lookup_insert_ne, list_lookup_imap by done.
Qed.

Lemma procs_set_child sp cs ks i k :
  <[S (length cs + i) := Child k.1 k.2]> (procs sp cs ks) = procs sp cs (<[i := k]> ks).
Proof.
  change (<[S (length cs + i) := Child k.1 k.2]> (procs sp cs ks)) with (Server sp :: <[(length cs + i)%nat := Child k.1 k.2]> (clients cs ++ children ks)).
  unfold procs. f_equal. replace (length cs) with (length (clients cs)) by (unfold clients; by rewrite length_imap).
  rewrite insert_app_r. f_equal. unfold children. by rewrite list_fmap_insert.
Qed.

(** Requests that are not with a child yet. *)
Definition in_server (sp : server_pc) (g : queues) : list requestMsg :=
  default [] (server_q g) ++ match sp with SFork r => [r] | _ => [] end.

Definition server_ok (strict : bool) (sp : server_pc) (g : queues) : Prop :=
  match sp with
  | SGet => server_q g = None
  | SSigaction | SRecv | SFork _ => is_Some (server_q g)
  | SRemove => strict = false /\ is_Some (server_q g)
  | SEnd _ => strict = false
  end.

Record inv_at (strict : bool) sp cs ks (at_ : nat -> place) (s : sys queues proc) : Prop := {
  inv_procs : threads s = procs sp cs ks;
  inv_ended : ended s = None;
  inv_length : length cs = n /\ length (client_q (shared s)) = n;
  inv_server : server_ok strict sp (shared s);
  inv_up : strict = true -> server_q (shared s) = None -> forall j c, cs !! j = Some c -> ~ past c.1;
  inv_nodup : NoDup (clientId <$> in_server sp (shared s) ++ ks.*1);
  inv_request : forall r, r ∈ in_server sp (shared s) ++ ks.*1 -> (clientId r < n)%nat /\ pathname r = argument (clientId r);
  inv_wait : forall r, r ∈ in_server sp (shared s) -> at_ (clientId r) = Waiting;
  inv_with : forall r k, (r, k) ∈ ks -> at_ (clientId r) = With k;
  inv_found : forall j, (j < n)%nat ->
    match at_ j with
    | Unsent => True
    | Waiting => strict = true -> exists r, r ∈ in_server sp (shared s) /\ clientId r = j
    | With k => exists r, (r, k) ∈ ks /\ clientId r = j
    end;
  inv_conv : forall j c q, cs !! j = Some c -> client_q (shared s) !! j = Some q -> conv strict (argument j) (at_ j) c.1 c.2 q
}.
Definition inv (strict : bool) (s : sys queues proc) : Prop := exists sp cs ks at_, inv_at strict sp cs ks at_ s.

Lemma msg_inv_start strict : inv strict (start_state n).
Proof.
  exists SGet, (replicate n (CStart, [])), [], (fun _ => Unsent). split; cbn; try done.
  - unfold procs, clients, children. cbn. rewrite app_nil_r. f_equal. apply list_eq. intros j. rewrite !list_lookup_imap.
    destruct (decide (j < n)%nat); [by rewrite !lookup_replicate_2|].
    by rewrite !(proj1 (lookup_replicate_None _ _ _)) by lia.
  - by rewrite !length_replicate.
  - intros _ _ j c [-> _]%lookup_replicate. by intros [].
  - by constructor.
  - by intros r ?%elem_of_nil.
  - by intros r ?%elem_of_nil.
  - by intros r k ?%elem_of_nil.
  - intros j c q [-> _]%lookup_replicate _. by apply v_unsent.
Qed.

Lemma submseteq_NoDup {A} (l k : list A) : l ⊆+ k -> NoDup k -> NoDup l.
Proof. intros [k' Hk]%submseteq_Permutation. rewrite Hk. by intros [? _]%NoDup_app. Qed.

Lemma server_goes strict sp sp' cs ks at_ g g' ts out :
  inv_at strict sp cs ks at_ (Sys g ts out None) -> client_q g' = client_q g -> server_ok strict sp' g' ->
  in_server sp' g' ⊆+ in_server sp g -> (strict = true -> in_server sp g ⊆+ in_server sp' g') ->
  (strict = true -> server_q g' = None -> server_q g = None) ->
  inv strict (Sys g' (<[0%nat := Server sp']> ts) out None).
Proof.
  intros [Hp He [Hn1 Hn2] Hs Hup Hnd Hr Hw Hwi Hf Hc] Hq Hs' Hsub Hsup Hup'. cbn [shared threads ended] in *.
  assert (forall r, r ∈ in_server sp' g' -> r ∈ in_server sp g) as Hin by (intros r Hr0; by eapply elem_of_submseteq).
  exists sp', cs, ks, at_. split; cbn [shared threads ended]; try done.
  - by rewrite Hp.
  - by rewrite Hq.
  - intros Hst Hnone. by apply Hup, Hup'.
  - eapply submseteq_NoDup; [|exact Hnd]. by apply fmap_submseteq, submseteq_skips_r.
  - intros r Hr0. apply Hr. revert Hr0. rewrite !elem_of_app. naive_solver.
  - auto.
  - intros j Hj. specialize (Hf j Hj). destruct (at_ j); try done. intros Hst. destruct (Hf Hst) as (r & Hr0 & <-).
    exists r. split; [|done]. eapply elem_of_submseteq; [exact Hr0|by apply Hsup].
  - by rewrite Hq.
Qed.

(** The request that the server holds is handed to a child. *)
Lemma server_forks strict r cs ks at_ g ts out :
  inv_at strict (SFork r) cs ks at_ (Sys g ts out None) ->
  inv strict (Sys g (<[0%nat := Server SRecv]> ts ++ [Child r KOpen]) out None).
Proof.
  intros [Hp He [Hn1 Hn2] Hs Hup Hnd Hr Hw Hwi Hf Hc]. cbn [shared threads ended] in *.
  assert (in_server (SFork r) g = in_server SRecv g ++ [r]) as Ein by (unfold in_server; by rewrite app_nil_r).
  rewrite Ein in *. assert (r ∈ in_server SRecv g ++ [r]) as Hrin by (apply elem_of_app; right; by left).
  assert (forall r', r' ∈ in_server SRecv g ++ ks.*1 -> clientId r' <> clientId r) as Hne.
  { intros r' Hr' E. rewrite <- app_assoc, !fmap_app in Hnd. cbn in Hnd.
    rewrite <- Permutation_middle in Hnd. apply NoDup_cons in Hnd as [Hnot _]. apply Hnot. rewrite <- fmap_app, <- E.
    by apply list_elem_of_fmap_2. }
  exists SRecv, cs, (ks ++ [(r, KOpen)]), (<[clientId r := With KOpen]> at_). split; cbn [shared threads ended]; try done.
  - rewrite Hp. unfold procs. cbn. f_equal. unfold children. rewrite fmap_app. by rewrite app_assoc.
  - eapply submseteq_NoDup; [|exact Hnd]. apply fmap_submseteq. rewrite fmap_app. cbn.
    rewrite <- (app_assoc _ [r]). apply submseteq_skips_l. by rewrite (Permutation_app_comm [r]).
  - intros r'. rewrite fmap_app. cbn. intros Hr'. apply Hr. revert Hr'. rewrite !elem_of_app. tauto.
  - intros r' Hr'. rewrite fn_lookup_insert_ne; [|intros E; by eapply Hne; [apply elem_of_app; left|]].
    apply Hw, elem_of_app. by left.
  - intros r' k [Hk|[= -> ->]%list_elem_of_singleton]%elem_of_app; [|by rewrite fn_lookup_insert].
    rewrite fn_lookup_insert_ne; [by apply Hwi|]. intros E. apply (Hne r'); [|done].
    apply elem_of_app. right. by apply (list_elem_of_fmap_2 fst _ (r', k)).
  - intros j Hj. specialize (Hf j Hj). destruct (decide (j = clientId r)) as [->|Hj'].
    + rewrite fn_lookup_insert. exists r. split; [apply elem_of_app; right; by left|done].
    + rewrite fn_lookup_insert_ne by done. destruct (at_ j).
      * done.
      * intros Hst. destruct (Hf Hst) as (r' & [Hr'| ->%list_elem_of_singleton]%elem_of_app & <-); [by exists r'|done].
      * destruct Hf as (r' & Hr' & <-). exists r'. split; [|done]. apply elem_of_app. by left.
  - intros j c q Hcj Hq. destruct (decide (j = clientId r)) as [->|Hj'].
    + rewrite fn_lookup_insert. specialize (Hc _ _ _ Hcj Hq). rewrite (Hw r Hrin) in Hc.
      inversion Hc as [|p Hp0|p q0 ? [[? _]|[? _]]| | | | | | |]; subst; try done; [apply v_waiting; by right|by apply v_broken].
    + rewrite fn_lookup_insert_ne by done. by apply Hc.
Qed.

Lemma msg_server_step strict sp cs ks at_ g ts out a s' :
  inv_at strict sp cs ks at_ (Sys g ts out None) -> allowed strict a ->
  Threads.perform 0 (server_exec a sp g) (Sys g ts out None) = Some s' -> inv strict s'.
Proof.
  intros HI Ha Hp. pose proof (inv_server _ _ _ _ _ _ HI) as Hs. cbn [shared] in Hs.
  assert (forall e, a = Fails e -> strict = false) as Hfail by (intros e ->; by apply msg_allowed_fails in Ha).
  assert (forall sp', server_ok strict sp' g -> in_server sp' g = in_server sp g ->
    s' = Sys g (<[0%nat := Server sp']> ts) out None -> inv strict s') as Hgo.
  { intros sp' H1 H2 ->. eapply server_goes; [exact HI|done|done|by rewrite H2|by rewrite H2|done]. }
  assert (forall sp', strict = false -> server_ok strict sp' g -> in_server sp' g ⊆+ in_server sp g ->
    s' = Sys g (<[0%nat := Server sp']> ts) out None -> inv strict s') as Hlose.
  { intros sp' -> H1 H2 ->. by eapply server_goes; [exact HI|..]. }
  destruct sp as [| | |r| |e]; cbn [server_exec] in Hp; cbn [server_ok] in Hs; try discriminate Hp.
  - destruct a as [k|e]; [rewrite Hs in Hp|injection Hp as <-; by eapply (Hgo (SEnd _)); [by eapply Hfail|..]].
    injection Hp as <-. eapply server_goes; [exact HI|done|by eexists|..]; unfold in_server; by rewrite ?Hs.
  - destruct a as [k|e]; injection Hp as <-; [by apply (Hgo SRecv)|]. by eapply (Hgo (SEnd _)); [by eapply Hfail|..].
  - destruct a as [k|e].
    + destruct Hs as [[|r q] Hq]; rewrite Hq in Hp; [discriminate Hp|injection Hp as <-].
      assert (in_server (SFork r) (Queues (Some q) (client_q g)) ≡ₚ in_server SRecv g) as Hperm.
      { unfold in_server. rewrite Hq. cbn. rewrite app_nil_r. by rewrite Permutation_app_comm. }
      eapply server_goes; [exact HI|done|by eexists|by rewrite Hperm|by rewrite Hperm|by rewrite Hq].
    + destruct (e =? EINTR); injection Hp as <-; [by apply (Hgo SRecv)|]. apply (Hgo SRemove); try done. by split; [eapply Hfail|].
  - destruct a as [k|e]; injection Hp as <-; [by eapply server_forks|].
    apply (Hlose SRemove); try done; [by eapply Hfail|by split; [eapply Hfail|]|]. unfold in_server. rewrite app_nil_r.
    by apply submseteq_inserts_r.
  - destruct Hs as [Hs Hq]. destruct a as [k|e].
    + destruct Hq as [q Hq]. rewrite Hq in Hp. injection Hp as <-. subst strict.
      eapply server_goes; [exact HI|done|done| |done|done]. unfold in_server. apply submseteq_nil_l.
    + injection Hp as <-. by apply (Hgo (SEnd (Failed e "msgctl"))).
Qed.

(** A step of client [j] that keeps its request where it is. *)
Lemma client_goes strict sp cs ks at_ g ts out j c c' out' q' :
  inv_at strict sp cs ks at_ (Sys g ts out None) -> cs !! j = Some c -> conv strict (argument j) (at_ j) c' out' q' ->
  (strict = true -> server_q g = None -> past c' -> past c.1) ->
  inv strict (Sys (Queues (server_q g) (<[j := q']> (client_q g))) (<[S j := Client j c' out']> ts) out None).
Proof.
  intros [Hp He [Hn1 Hn2] Hs Hup Hnd Hr Hw Hwi Hf Hc] Hj HC Hpast. cbn [shared threads ended] in *.
  pose proof (lookup_lt_Some _ _ _ Hj) as Hlt.
  exists sp, (<[j := (c', out')]> cs), ks, at_. split; cbn [shared threads ended server_q client_q]; try done.
  - rewrite Hp. by apply (procs_set_client _ _ _ _ (c', out')).
  - by rewrite !length_insert.
  - intros Hst Hnone i ci [(<- & <- & _)|[_ Hi]]%list_lookup_insert_Some; [|by apply (Hup Hst Hnone i)].
    intros Hc'. by apply (Hup Hst Hnone j c Hj), Hpast.
  - intros i ci q Hci Hqi. destruct (decide (i = j)) as [->|Hne].
    + rewrite list_lookup_insert_eq in Hci by lia. rewrite list_lookup_insert_eq in Hqi by lia.
      injection Hci as <-. by injection Hqi as <-.
    + rewrite list_lookup_insert_ne in Hci by done. rewrite list_lookup_insert_ne in Hqi by done. by apply Hc.
Qed.

Lemma client_requests strict sp cs ks at_ g ts out j o rs :
  inv_at strict sp cs ks at_ (Sys g ts out None) -> cs !! j = Some (CSend, o) -> server_q g = Some rs ->
  inv strict (Sys (Queues (Some (rs ++ [Req j (argument j)])) (client_q g)) (<[S j := Client j CFirst o]> ts) out None).
Proof.
  intros [Hp He [Hn1 Hn2] Hs Hup Hnd Hr Hw Hwi Hf Hc] Hj Hrs. cbn [shared threads ended] in *.
  pose proof (lookup_lt_Some _ _ _ Hj) as Hlt. set (r := Req j (argument j)).
  destruct (lookup_lt_is_Some_2 (client_q g) j) as [q Hq]; [lia|].
  assert (at_ j = Unsent /\ o = [] /\ q = Some []) as (Hat & -> & ->).
  { specialize (Hc _ _ _ Hj Hq). inversion Hc as [| | | | | | | |? ? ? ? H|? ? ? ? ? H]; subst; try done. }
  assert (in_server sp (Queues (Some (rs ++ [r])) (client_q g)) ≡ₚ r :: in_server sp g) as Hperm.
  { unfold in_server. rewrite Hrs. cbn. rewrite <- app_assoc. symmetry. apply Permutation_middle. }
  assert (forall r', r' ∈ in_server sp g ++ ks.*1 -> clientId r' <> j) as Hne.
  { intros r' [Hr'|Hr']%elem_of_app E; [apply Hw in Hr'; congruence|].
    apply list_elem_of_fmap in Hr' as ([r0 k] & -> & Hk). apply Hwi in Hk. cbn in E. congruence. }
  exists sp, (<[j := (CFirst, [])]> cs), ks, (<[j := Waiting]> at_). split; cbn [shared threads ended server_q client_q]; try done.
  - rewrite Hp. by apply (procs_set_client _ _ _ _ (CFirst, [])).
  - by rewrite length_insert.
  - destruct sp; cbn in Hs |- *; rewrite ?Hrs in Hs; try done; destruct Hs; eauto.
  - rewrite Hperm. cbn [app]. rewrite fmap_cons. apply NoDup_cons. split; [|done]. intros (r' & E & Hr')%list_elem_of_fmap. by apply (Hne r').
  - intros r'. rewrite Hperm. cbn [app]. intros [-> |Hr']%elem_of_cons; [split; [cbn; lia|done]|by apply Hr].
  - intros r'. rewrite Hperm. intros [-> |Hr']%elem_of_cons; [cbn; by rewrite fn_lookup_insert|].
    rewrite fn_lookup_insert_ne; [by apply Hw|]. intros E. apply (Hne r'); [|done]. apply elem_of_app. by left.
  - intros r' k Hk. rewrite fn_lookup_insert_ne; [by apply Hwi|]. intros E. apply (Hne r'); [|done]. apply elem_of_app. right.
    by apply (list_elem_of_fmap_2 fst _ (r', k)).
  - intros i Hi. destruct (decide (i = j)) as [->|Hij].
    + rewrite fn_lookup_insert. intros _. exists r. rewrite Hperm. split; [by left|done].
    + rewrite fn_lookup_insert_ne by done. specialize (Hf i Hi). destruct (at_ i); try done. intros Hst.
      destruct (Hf Hst) as (r' & Hr' & E). exists r'. rewrite Hperm. split; [by right|done].
  - intros i ci qi Hci Hqi. destruct (decide (i = j)) as [->|Hij].
    + rewrite list_lookup_insert_eq in Hci by lia. injection Hci as <-. rewrite Hq in Hqi. injection Hqi as <-.
      rewrite fn_lookup_insert. apply v_waiting. by left.
    + rewrite list_lookup_insert_ne in Hci by done. rewrite fn_lookup_insert_ne by done. by apply Hc.
Qed.

Lemma msg_client_step strict sp cs ks at_ g ts out j c a s' :
  inv_at strict sp cs ks at_ (Sys g ts out None) -> allowed strict a -> cs !! j = Some c ->
  Threads.perform (S j) (client_exec qbytes argument a j c.1 c.2 g) (Sys g ts out None) = Some s' -> inv strict s'.
Proof.
  intros HI Ha Hj Hp. pose proof HI as [_ _ [Hn1 Hn2] _ Hup _ _ _ _ _ Hc]. cbn [shared] in *.
  destruct (lookup_lt_is_Some_2 (client_q g) j) as [q Hq]; [apply lookup_lt_Some in Hj; lia|].
  specialize (Hc _ _ _ Hj Hq). destruct c as [c o]. cbn [fst snd] in *.
  assert (c = CSend \/ c <> CSend) as [->|Hns] by (destruct c; auto).
  - cbn [client_exec] in Hp. unfold send_request in Hp.
    assert (forall e, strict = false -> s' = Sys g (<[S j := Client j (CLeave (Failed e "msgsnd")) o]> ts) out None -> inv strict s') as Hno.
    { intros e Hs ->. apply (client_goes strict sp cs ks at_ g ts out j (CSend, o) (CLeave (Failed e "msgsnd")) o q) in HI; [|done|by apply v_broken|done].
      rewrite list_insert_id in HI by done. by destruct g. }
    destruct a as [k|e]; [|injection Hp as <-; by eapply Hno; [eapply msg_allowed_fails|]].
    destruct (server_q g) as [rs|] eqn:Hrs.
    + destruct (room _ _ _ _); [|discriminate Hp]. injection Hp as <-. eapply client_requests; [exact HI|exact Hj|exact Hrs].
    + injection Hp as <-. destruct strict; [|by eapply Hno]. destruct (Hup eq_refl eq_refl _ _ Hj). exact I.
  - pose proof (client_step strict j (at_ j) c o g q a Hq Ha Hc Hns) as H.
    destruct (client_exec _ _ _ _ _ _ _) as [t g'| | | |]; try done. destruct H as (c' & o' & q' & -> & -> & HC & Hpast).
    injection Hp as <-. eapply client_goes; [exact HI|exact Hj|exact HC|by intros _].
Qed.

Lemma msg_child_step strict sp cs ks at_ g ts out i r k a s' :
  inv_at strict sp cs ks at_ (Sys g ts out None) -> allowed strict a -> ks !! i = Some (r, k) ->
  Threads.perform (S (length cs + i)) (serveRequest qbytes files a r k g) (Sys g ts out None) = Some s' -> inv strict s'.
Proof.
  intros [Hp He [Hn1 Hn2] Hs Hup Hnd Hr Hw Hwi Hf Hc] Ha Hi Hperf. cbn [shared threads ended] in *.
  assert ((r, k) ∈ ks) as Hin by by eapply list_elem_of_lookup_2. pose proof (Hwi _ _ Hin) as Hat.
  destruct (Hr r) as [Hlt Hpath]. { apply elem_of_app. right. by apply (list_elem_of_fmap_2 fst _ (r, k)). }
  destruct (lookup_lt_is_Some_2 (client_q g) (clientId r)) as [q Hq]; [lia|].
  destruct (lookup_lt_is_Some_2 cs (clientId r)) as [c Hcr]; [lia|].
  pose proof (Hc _ _ _ Hcr Hq) as HC. rewrite Hat, <- Hpath in HC.
  pose proof (child_step strict r c.1 c.2 g q a k Hq Ha HC) as H.
  destruct (serveRequest _ _ _ _ _ _) as [t g'| | | |]; try done. destruct H as (k' & q' & -> & -> & HC'). rewrite Hpath in HC'.
  injection Hperf as <-. assert ((<[i := (r, k')]> ks).*1 = ks.*1) as Hfst.
  { rewrite list_fmap_insert. apply list_insert_id. by rewrite list_lookup_fmap, Hi. }
  assert (forall r0 k0 i0, ks !! i0 = Some (r0, k0) -> i0 <> i -> clientId r0 <> clientId r) as Hne.
  { intros r0 k0 i0 Hi0 Hii E. rewrite fmap_app in Hnd. apply NoDup_app in Hnd as (_ & _ & Hnd). apply Hii.
    eapply NoDup_lookup; [exact Hnd| |]; rewrite !list_lookup_fmap; [by rewrite Hi0|]. rewrite Hi. cbn. by rewrite E. }
  exists sp, cs, (<[i := (r, k')]> ks), (<[clientId r := With k']> at_). split; cbn [shared threads ended server_q client_q]; try done.
  - rewrite Hp. by apply (procs_set_child _ _ _ _ (r, k')).
  - by rewrite length_insert.
  - by rewrite Hfst.
  - by rewrite Hfst.
  - intros r0 Hr0. rewrite fn_lookup_insert_ne; [by apply Hw|]. intros E. apply Hw in Hr0. congruence.
  - intros r0 k0 [i0 Hi0]%list_elem_of_lookup. destruct (decide (i0 = i)) as [->|Hii].
    + rewrite list_lookup_insert_eq in Hi0 by (by eapply lookup_lt_Some). injection Hi0 as <- <-. by rewrite fn_lookup_insert.
    + rewrite list_lookup_insert_ne in Hi0 by done. rewrite fn_lookup_insert_ne; [by eapply Hwi, list_elem_of_lookup_2|].
      intros E. by apply (Hne _ _ _ Hi0 Hii).
  - intros j Hj. destruct (decide (j = clientId r)) as [->|Hjr].
    + rewrite fn_lookup_insert. exists r. split; [|done]. eapply list_elem_of_lookup_2, list_lookup_insert_eq. by eapply lookup_lt_Some.
    + rewrite fn_lookup_insert_ne by done. specialize (Hf j Hj). destruct (at_ j) as [| |k0]; try done.
      destruct Hf as (r0 & [i0 Hi0]%list_elem_of_lookup & E). exists r0. split; [|done]. apply (list_elem_of_lookup_2 _ i0).
      rewrite list_lookup_insert_ne; [done|]. intros <-. rewrite Hi in Hi0. injection Hi0 as <- _. by destruct Hjr.
  - intros j cj qj Hcj Hqj. destruct (decide (j = clientId r)) as [->|Hjr].
    + rewrite list_lookup_insert_eq in Hqj by lia. injection Hqj as <-. rewrite Hcr in Hcj. injection Hcj as <-. by rewrite fn_lookup_insert.
    + rewrite list_lookup_insert_ne in Hqj by done. rewrite fn_lookup_insert_ne by done. by apply Hc.
Qed.

Lemma msg_inv_step strict s s' : inv strict s -> step ex (allowed strict) s s' -> inv strict s'.
Proof.
  intros (sp & cs & ks & at_ & HI) (Hend & i & a & t & Ha & Hi & Hp)%Threads.step_inv.
  destruct s as [g ts out e]; cbn [shared threads printed ended] in *. subst e.
  pose proof (inv_procs _ _ _ _ _ _ HI) as Hts. cbn [threads] in Hts. rewrite Hts in Hi.
  apply procs_lookup in Hi as [[-> ->]|[(j & c & -> & Hj & ->)|(i' & [r k] & -> & Hi & ->)]]; unfold ex, exec in Hp.
  - by eapply msg_server_step.
  - by eapply msg_client_step.
  - by eapply msg_child_step.
Qed.

(** *** Nobody waits for ever *)

Definition client_ended (t : proc) : bool := match t with Client _ (CEnd _) _ => true | Client _ _ _ => false | _ => true end.

Lemma server_busy sp cs ks at_ s k :
  inv_at true sp cs ks at_ s -> in_server sp (shared s) <> [] -> exists i s', run_one ex i (Done k) s = Some s'.
Proof.
  intros [Hp He _ Hs _ _ _ _ _ _ _] Hne. exists 0%nat. eapply Threads.run_one_enabled; [done|by rewrite Hp|]. unfold in_server in Hne.
  destruct sp; cbn [ex exec server_exec server_ok] in *; try done.
  - by rewrite Hs in Hne.
  - destruct (server_q (shared s)) as [[|r q]|]; [done|done|by destruct Hs].
  - by destruct Hs.
Qed.

Lemma child_busy sp cs ks at_ s j k kp l :
  inv_at true sp cs ks at_ s -> at_ j = With kp -> (j < n)%nat -> client_q (shared s) !! j = Some (Some []) ->
  match kp with KEnd _ => False | KSend buf _ => piece buf | _ => True end -> l = kp ->
  exists i s', run_one ex i (Done k) s = Some s'.
Proof.
  intros [Hp He _ _ _ _ _ _ _ Hf _] Hat Hj Hq Hk ->. specialize (Hf j Hj). rewrite Hat in Hf.
  destruct Hf as (r & [i Hi]%list_elem_of_lookup & <-). exists (S (length cs + i)).
  eapply Threads.run_one_enabled; [done|rewrite Hp; by apply procs_child|]. cbn [ex exec fst snd].
  assert (forall m, size_of m <= Z.of_nat RESP_MSG_SIZE -> exists g', msgsnd qbytes (Done k) (clientId r) m (shared s) = Sent g') as Hsend.
  { intros m Hm. unfold msgsnd. rewrite Hq, room_empty by (destruct Hqbytes; lia). by eexists. }
  destruct kp; cbn [serveRequest]; try done.
  - by destruct (files (pathname r)).
  - destruct (Hsend sorry) as [g' ->]; [by vm_compute|done].
  - by destruct (take _ _).
  - destruct (Hsend (Resp RESP_MT_DATA buf)) as [g' ->]; [|done]. destruct Hk. unfold size_of, strlen. cbn [data]. lia.
  - destruct (Hsend the_end) as [g' ->]; [by vm_compute|done].
Qed.

Lemma msg_progress s k :
  inv true s -> forallb client_ended (threads s) = false -> exists i s', run_one ex i (Done k) s = Some s'.
Proof.
  intros (sp & cs & ks & at_ & HI) Hlive. pose proof HI as [Hp He [Hn1 Hn2] _ _ _ _ _ _ Hf Hc].
  apply Threads.forallb_false in Hlive as (t & [i Hi]%list_elem_of_lookup & Ht). rewrite Hp in Hi.
  apply procs_lookup in Hi as [[_ ->]|[(j & [c o] & -> & Hj & ->)|(i' & r & _ & _ & ->)]]; [done| |done]. cbn [fst snd] in *.
  pose proof (lookup_lt_Some _ _ _ Hj) as Hlt. destruct (lookup_lt_is_Some_2 (client_q (shared s)) j) as [q Hq]; [lia|].
  specialize (Hc _ _ _ Hj Hq). specialize (Hf j). cbn [fst snd] in Hc. rewrite Hn1 in Hlt.
  assert (client_exec qbytes argument (Done k) j c o (shared s) <> Wait -> exists i s', run_one ex i (Done k) s = Some s') as Hgo.
  { intros H. exists (S j). eapply Threads.run_one_enabled; [done|rewrite Hp; by apply (procs_client _ _ _ _ (c, o))|done]. }
  assert (receives c -> exists i s', run_one ex i (Done k) s = Some s') as Hrecv.
  { intros Hr. pose proof (conv_queue _ _ _ _ _ _ Hc Hr) as [[|m l] ->].
    - inversion Hc as [|p Hp0 Ep|p q0 Hfile Hp0 Ep Ec Eo Eq|f x y rest k0 num c0 q0 Hf0 Hl Hcat Hg Hd Hcnt Ep Ec Eo Eq
        |f x y k0 num c0 q0 tl Hf0 Hpre Hst Hg Hd Hcnt Hk Ep Ec Eo Eq| | | |? ? ? ? H|]; subst; try done; try by destruct c.
      + destruct Hp0 as [Ew|Ew]; [|by eapply (child_busy _ _ _ _ _ _ _ _ _ HI Ew Hlt Hq)].
        rewrite Ew in Hf. destruct Hf as (r & Hr0 & _); [lia|done|]. eapply server_busy; [exact HI|]. intros E. rewrite E in Hr0. by apply elem_of_nil in Hr0.
      + destruct Hp0 as [[Ew _]|[_ [?|[? _]]]]; [by eapply (child_busy _ _ _ _ _ _ _ _ _ HI Ew Hlt Hq)|done|done].
      + symmetry in Ep. eapply (child_busy _ _ _ _ _ _ _ _ _ HI Ep Hlt Hq); [|done]. destruct k0; try done. by destruct Hl.
      + apply app_eq_nil in Eq as [-> ->]. symmetry in Ep. destruct Hk as [[-> _]|[_ [?|[? _]]]]; [|done|done]. by eapply (child_busy _ _ _ _ _ _ _ _ _ HI Ep Hlt Hq).
    - apply Hgo. destruct c; try done; cbn [client_exec]; unfold msgrcv; rewrite Hq; by repeat case_match. }
  destruct c; try (by apply Hgo); try (by apply Hrecv).
  - destruct (client_exec qbytes argument (Done k) j CSend o (shared s)) eqn:E; try (by apply Hgo).
    cbn [client_exec] in E. unfold send_request in E. destruct (server_q (shared s)) as [rs|] eqn:Hrs; [|done].
    destruct (room _ _ _ _) eqn:Er; [done|]. eapply server_busy; [exact HI|]. unfold in_server. rewrite Hrs. destruct rs; [|done].
    rewrite room_empty in Er; [done|]. by destruct Hqbytes.
  - apply Hgo. cbn [client_exec]. by destruct (remove_queue _ _ _).
  - apply Hgo. cbn [client_exec]. by destruct (remove_queue _ _ _).
Qed.

(** *** What is left to do *)

Definition cost (path : bytes) : nat := 3 * length (default [] (files path)) + 4.
Definition mu_proc (t : proc) : nat :=
  match t with
  | Server s => match s with SGet => 4 | SSigaction => 3 | SRecv => 2 | SFork r => 3 + cost (pathname r) | SRemove => 1 | SEnd _ => 0 end
  | Child r k =>
      match k with
      | KOpen => cost (pathname r) | KSorry | KSendEnd => 2 | KRead rest => 3 * length rest + 3
      | KSend buf rest => 3 * (length buf + length rest) + 2 | KEnd _ => 0
      end
  | Client j c _ =>
      match c with
      | CStart => cost (argument j) + 12 | CServer => cost (argument j) + 11 | CQueue => cost (argument j) + 10
      | CAtexit => cost (argument j) + 9 | CSend => cost (argument j) + 8
      | CFirst | CRecv _ _ => 5 | CShow _ => 4 | CRemove => 3 | CReport _ _ => 2 | CLeave _ => 1 | CEnd _ => 0
      end
  end.
Definition mu_queues (g : queues) : nat :=
  sum_list_with (fun r => cost (pathname r) + 2)%nat (default [] (server_q g)) +
  sum_list_with (fun q => length (default [] q)) (client_q g).
Definition mu (s : sys queues proc) : nat := (sum_list_with mu_proc (threads s) + mu_queues (shared s))%nat.

Definition lighter (t : proc) (g : queues) (e : effect queues proc) : Prop :=
  match e with
  | Go t' g' => (mu_proc t' + mu_queues g' < mu_proc t + mu_queues g)%nat
  | Create t' c => (mu_proc t' + mu_proc c < mu_proc t)%nat
  | Wait => True
  | _ => False
  end.

(** The weight of the queues when that of client [j] changes. *)
Lemma mu_queues_set sq cq j q q' : cq !! j = Some q ->
  (mu_queues (Queues sq (<[j := q']> cq)) + length (default [] q) = mu_queues (Queues sq cq) + length (default [] q'))%nat.
Proof.
  intros H. unfold mu_queues. cbn [server_q client_q].
  pose proof (Threads.sum_list_with_insert (fun q : option (list responseMsg) => length (default [] q)) cq j q q' H). cbn beta in *. lia.
Qed.

Lemma server_lighter k s g : lighter (Server s) g (server_exec (Done k) s g).
Proof.
  destruct s; cbn [server_exec lighter mu_proc]; try (unfold cost; lia); try done.
  - destruct (server_q g) as [q|] eqn:E; cbn [lighter mu_proc]; unfold mu_queues; rewrite ?E; cbn [from_option id server_q client_q sum_list_with]; lia.
  - destruct (server_q g) as [[|r q]|] eqn:E; cbn [lighter mu_proc]; unfold mu_queues; rewrite ?E; cbn [from_option id server_q client_q sum_list_with]; try done; lia.
  - destruct (server_q g) as [q|] eqn:E; cbn [lighter mu_proc]; unfold mu_queues; rewrite ?E; cbn [from_option id server_q client_q sum_list_with]; lia.
Qed.

Lemma send_lighter j m g k : match msgsnd qbytes (Done k) j m g with Sent g' => mu_queues g' = S (mu_queues g) | _ => True end.
Proof.
  unfold msgsnd. destruct (client_q g !! j) as [[q|]|] eqn:E; try done. destruct (room _ _ _ _); [|done].
  pose proof (mu_queues_set (server_q g) (client_q g) j _ (Some (q ++ [m])) E) as H. cbn [from_option id] in H. rewrite length_app in H. cbn [length] in H.
  destruct g as [sq cq]. cbn [server_q client_q] in *. lia.
Qed.

Lemma child_lighter k r kp g : match kp with KSend buf _ => buf <> [] | _ => True end ->
  lighter (Child r kp) g (serveRequest qbytes files (Done k) r kp g).
Proof.
  intros Hb. destruct kp as [| |rest|buf rest| |]; cbn [serveRequest].
  - destruct (files (pathname r)) as [f|] eqn:E; cbn [lighter mu_proc]; unfold cost; rewrite ?E; cbn [from_option id]; lia.
  - pose proof (send_lighter (clientId r) sorry g k). destruct (msgsnd _ _ _ _ _); cbn [lighter mu_proc]; try done; lia.
  - set (n0 := Nat.max 1 (Nat.min k RESP_MSG_SIZE)). pose proof (take_drop n0 rest) as H. apply (f_equal length) in H. rewrite length_app in H.
    destruct (take n0 rest); cbn [lighter mu_proc length] in *; lia.
  - pose proof (send_lighter (clientId r) (Resp RESP_MT_DATA buf) g k). destruct buf as [|b buf]; [done|].
    destruct (msgsnd _ _ _ _ _); cbn [lighter mu_proc length]; try done; lia.
  - pose proof (send_lighter (clientId r) the_end g k). destruct (msgsnd _ _ _ _ _); cbn [lighter mu_proc]; try done; lia.
  - done.
Qed.

Lemma rcv_lighter j g k : match msgrcv (Done k) j g with Got _ g' => (mu_queues g' < mu_queues g)%nat | _ => True end.
Proof.
  unfold msgrcv. destruct (client_q g !! j) as [[[|m q]|]|] eqn:E; try done. destruct (_ <? _); [done|].
  pose proof (mu_queues_set (server_q g) (client_q g) j _ (Some q) E) as H. destruct g as [sq cq]. cbn [server_q client_q from_option id length] in *.
  cbn [length] in H. lia.
Qed.

Lemma rmid_lighter j g k : match remove_queue (Done k) j g with inl g' => (mu_queues g' <= mu_queues g)%nat | _ => True end.
Proof.
  unfold remove_queue. destruct (client_q g !! j) as [[q|]|] eqn:E; try done.
  pose proof (mu_queues_set (server_q g) (client_q g) j _ None E) as H. destruct g as [sq cq]. cbn [server_q client_q from_option id length] in *. lia.
Qed.

Lemma client_lighter k j c o g : (j < length (client_q g))%nat -> lighter (Client j c o) g (client_exec qbytes argument (Done k) j c o g).
Proof.
  intros Hj. pose proof (rcv_lighter j g k). pose proof (rmid_lighter j g k).
  assert (forall m tot num, (mu_proc (Client j (next_message m tot num) o) <= 5)%nat) as Hnext.
  { intros m tot num. unfold next_message. destruct (_ =? _); cbn; lia. }
  destruct c; cbn [client_exec]; try done; try (cbn [lighter mu_proc]; lia).
  - destruct (PATH_MAX - 1 <? _); cbn [lighter mu_proc]; lia.
  - destruct (server_q g); cbn [lighter mu_proc]; lia.
  - cbn [lighter mu_proc]. destruct (lookup_lt_is_Some_2 _ _ Hj) as [q Hq].
    pose proof (mu_queues_set (server_q g) (client_q g) j _ (Some []) Hq) as H1. destruct g as [sq cq]. cbn [server_q client_q] in *.
    change (length (default [] (Some []))) with 0%nat in H1. lia.
  - unfold send_request. destruct (server_q g) as [q|] eqn:E; [|cbn [lighter mu_proc]; lia]. destruct (room _ _ _ _); [|done].
    cbn [lighter mu_proc]. unfold mu_queues. rewrite E. cbn [server_q client_q from_option id]. 
    rewrite sum_list_with_app. cbn [sum_list_with pathname]. lia.
  - destruct (msgrcv _ _ _) as [m g'| |]; try done; [|cbn [lighter mu_proc]; lia].
    pose proof (Hnext m (strlen (data m)) 1). destruct (mtype m =? _); cbn [lighter] in *; cbn [mu_proc] in *; lia.
  - destruct (remove_queue _ _ _); cbn [lighter mu_proc]; lia.
  - destruct (msgrcv _ _ _) as [m g'| |]; try done; [|cbn [lighter mu_proc]; lia].
    pose proof (Hnext m (totBytes + strlen (data m)) (numMsgs + 1)). destruct (numMsgs =? _); cbn [lighter] in *; cbn [mu_proc] in *; lia.
  - destruct (remove_queue _ _ _); cbn [lighter mu_proc]; lia.
Qed.

Lemma conv_piece path buf rest c out q : conv true path (With (KSend buf rest)) c out q -> buf <> [].
Proof.
  intros HC. inversion HC as [|p Hp|p q0 Hfile Hp|f x y r0 k0 num c0 q0 Hf Hl|f x y k0 num c0 q0 tl Hf Hpre Hst Hg Hd Hcnt Hk| | | | |];
    subst; try done.
  - by destruct Hp.
  - by destruct Hp as [[? _]|[? _]].
  - destruct Hl as [_ [Hb _]]. intros ->. cbn in Hb. lia.
  - by destruct Hk as [[? _]|[? _]].
Qed.

Lemma msg_mu_step s s' : inv true s -> step ex full s s' -> (mu s' < mu s)%nat.
Proof.
  intros (sp & cs & ks & at_ & [Hp _ [Hn1 Hn2] _ _ _ Hr _ Hwi _ Hc]) (Hend & i & a & t & [k ->] & Hi & Hperf)%Threads.step_inv.
  assert (lighter t (shared s) (ex i (Done k) (threads s) t (shared s))) as Hl.
  { rewrite Hp in Hi. apply procs_lookup in Hi as [[_ ->]|[(j & c & _ & Hj & ->)|(i' & [r kp] & _ & Hi & ->)]]; cbn [ex exec fst snd].
    - apply server_lighter.
    - apply client_lighter. apply lookup_lt_Some in Hj. lia.
    - apply child_lighter. apply list_elem_of_lookup_2 in Hi. pose proof (Hwi _ _ Hi) as Hat.
      destruct (Hr r) as [Hlt Hpath]. { apply elem_of_app. right. by apply (list_elem_of_fmap_2 fst _ (r, kp)). }
      destruct (lookup_lt_is_Some_2 cs (clientId r)) as [c Hcr]; [lia|].
      destruct (lookup_lt_is_Some_2 (client_q (shared s)) (clientId r)) as [q Hq]; [lia|].
      specialize (Hc _ _ _ Hcr Hq). rewrite Hat in Hc. destruct kp; try done.
      by eapply conv_piece. }
  destruct s as [g ts pr e]; cbn [shared threads printed ended] in *. subst e. unfold mu.
  destruct (ex i (Done k) ts t g) as [t' g'|t' c|t' o| |en]; try done; injection Hperf as <-; cbn [threads shared lighter] in *.
  all: pose proof (Threads.sum_list_with_insert mu_proc ts i t t' Hi); rewrite ?sum_list_with_app; cbn [sum_list_with] in *; lia.
Qed.

Lemma mu_start : mu (start_state n) = (4 + sum_list_with (fun j => 3 * length (default [] (files (argument j))) + 16) (seq 0 n))%nat.
Proof.
  unfold mu, start_state, mu_queues. cbn [threads shared sum_list_with mu_proc server_q client_q from_option].
  replace (imap (fun j c => Client j c []) (replicate n CStart)) with ((fun j => Client j CStart []) <$> seq 0 n).
  - assert (sum_list_with (fun q : option (list responseMsg) => length (default [] q)) (replicate n None) = 0%nat) as ->.
    { clear. induction n; [done|]. cbn in *. done. }
    clear. induction (seq 0 n) as [|j l IH]; [done|]. rewrite fmap_cons. cbn [sum_list_with mu_proc] in *. unfold cost in *. lia.
  - apply list_eq. intros j. rewrite list_lookup_fmap, list_lookup_imap. destruct (decide (j < n)%nat).
    + by rewrite lookup_seq_lt, lookup_replicate_2.
    + by rewrite lookup_seq_ge, (proj1 (lookup_replicate_None _ _ _)) by lia.
Qed.

(** What a client that has ended was told, when no call failed. *)
Definition delivered (path : bytes) (e : ending) (out : list bytes) : Prop :=
  (exists f k, files path = Some f /\ counts f k /\ e = Exited EXIT_SUCCESS /\ out = [received_line (strlen f) (k + 1)]) \/
  files path = None /\ e = Undefined EINVAL /\ out = [sorry_text ++ [NL]].

Lemma conv_ended strict p path e out q : conv strict path p (CEnd e) out q ->
  early path e /\ out = [] \/ result strict path e out \/ (strict = true -> files path = None) /\ e = Undefined EINVAL /\ out = [sorry_text ++ [NL]] \/
  strict = false /\ bad e.
Proof.
  intros HC. inversion HC as [c0 q0 He|? Hp|? ? ? Hp|? ? ? ? ? ? ? ? ? ? ? Hg|? ? ? ? ? ? ? ? ? ? ? Hg| | |e0 out0 q0 Hr|c0 out0 q0 Hfile He|p0 c0 out0 q0 Hs Hb];
    subst; try done; auto 6.
Qed.

(** C2: the clients of the message queue file server get their files.  Whatever the interleaving
    of server, children and clients and the calls that fail, a client that exits with success has
    counted the bytes of a start of its file, and the messages that they came in.  While no call
    fails, no client waits for ever and the steps are bounded; a client that found the queue of the
    server counts its whole file, or, when the file cannot be opened, prints the text of the server
    and then runs into undefined behaviour: its exit handler removes the queue a second time, and
    the failure makes it call [exit] within [exit]. *)
Theorem file_server_delivers :
  (forall s, rtc (step ex (fun _ => True)) (start_state n) s ->
     forall j out, (j < n)%nat -> Client j (CEnd (Exited EXIT_SUCCESS)) out ∈ threads s ->
       exists f x k, files (argument j) = Some f /\ x `prefix_of` f /\ counts x k /\ out = [received_line (strlen x) (k + 1)]) /\
  (forall s, rtc (step ex full) (start_state n) s ->
     (forallb client_ended (threads s) = false -> forall k, exists i s', run_one ex i (Done k) s = Some s') /\
     forall j e out, (j < n)%nat -> Client j (CEnd e) out ∈ threads s ->
       early (argument j) e /\ out = [] \/ delivered (argument j) e out) /\
  (forall m s, nsteps (step ex full) m (start_state n) s ->
     (m <= 4 + sum_list_with (fun j => 3 * length (default [] (files (argument j))) + 16) (seq 0 n))%nat).
Proof.
  assert (forall strict s, rtc (step ex (allowed strict)) (start_state n) s -> inv strict s) as Hinv.
  { intros strict s. apply Prelude.rtc_invariant; [intros ??; apply msg_inv_step|apply msg_inv_start]. }
  assert (forall strict s j e out, inv strict s -> Client j (CEnd e) out ∈ threads s -> exists p q, conv strict (argument j) p (CEnd e) out q) as Hconv.
  { intros strict s j e out (sp & cs & ks & at_ & [Hp _ [Hn1 Hn2] _ _ _ _ _ _ _ Hc]) [i Hi]%list_elem_of_lookup. rewrite Hp in Hi.
    apply procs_lookup in Hi as [[_ ?]|[(j' & [c o] & _ & Hj & [= -> <- ->])|(? & ? & _ & _ & ?)]]; [done| |done].
    destruct (lookup_lt_is_Some_2 (client_q (shared s)) j') as [q Hq]; [apply lookup_lt_Some in Hj; lia|]. by eexists _, _; apply (Hc _ _ _ Hj). }
  split; [|split].
  - intros s HI%(Hinv false) j out Hj Hin. destruct (Hconv _ _ _ _ _ HI Hin) as (p & q & HC).
    destruct (conv_ended _ _ _ _ _ _ HC) as [[[[? _]|?] _]|[(_ & f & x & k & Hf & Hpre & _ & Hcnt & Ho)|[(_ & ? & _)|[_ []]]]]; try done. by exists f, x, k.
  - intros s HI%(Hinv true). split; [by intros; apply msg_progress|]. intros j e out Hj Hin. destruct (Hconv _ _ _ _ _ HI Hin) as (p & q & HC).
    destruct (conv_ended _ _ _ _ _ _ HC) as [?|[(-> & f & x & k & Hf & Hpre & Hx & Hcnt & Ho)|[(Hfile & -> & ->)|[? _]]]]; [by left|right; left|right; right|done].
    + rewrite (Hx eq_refl) in *. by exists f, k.
    + split_and!; auto.
  - intros m s Hn. rewrite <- mu_start.
    refine (nsteps_bounded_inv _ (inv true) mu _ _ s _ _ _ Hn); [apply msg_inv_step|apply msg_mu_step|apply msg_inv_start].
Qed.
End Correct.

(** ** A run

    Two clients, one of which asks for a file that is not there. *)
Definition motd : bytes := str "No queue is for ever." ++ [NL].
Definition one_file (path : bytes) : option bytes := if bool_decide (path = str "/etc/motd") then Some motd else None.
Definition two_paths (j : nat) : bytes := if (j =? 0)%nat then str "/etc/motd" else str "/etc/mtod".
Definition msg_run : list (nat * answer) :=
  (fun i => (i, Done 10)) <$> ([0; 0; 1; 1; 1; 1; 2; 2; 2; 2; 2; 0; 0; 1; 0; 3; 3; 2; 2; 2; 2; 0; 4; 4; 4; 1; 4; 4; 4; 4; 4; 4; 1; 1; 1; 1; 1])%nat.

Lemma file_server_delivers_witness :
  exists s, run (exec 16384 one_file two_paths) msg_run (start_state 2) = Some s /\
    exists e0 out0 e1 out1, threads s !! 1%nat = Some (Client 0 (CEnd e0) out0) /\ threads s !! 2%nat = Some (Client 1 (CEnd e1) out1) /\
      (early (two_paths 0) e0 /\ out0 = [] \/ delivered one_file (two_paths 0) e0 out0) /\
      (early (two_paths 1) e1 /\ out1 = [] \/ delivered one_file (two_paths 1) e1 out1).
Proof.
  destruct (run (exec 16384 one_file two_paths) msg_run (start_state 2)) as [s|] eqn:E; [|vm_compute in E; discriminate E].
  exists s. split; [done|].
  assert (rtc (step (exec 16384 one_file two_paths) full) (start_state 2) s) as Hrun.
  { refine (Threads.run_rtc _ full _ _ _ _ E). apply Forall_fmap, Forall_true. intros x. by exists 10%nat. }
  assert (exists e0 out0 e1 out1, threads s !! 1%nat = Some (Client 0 (CEnd e0) out0) /\ threads s !! 2%nat = Some (Client 1 (CEnd e1) out1))
    as (e0 & o0 & e1 & o1 & H0 & H1).
  { vm_compute in E. injection E as <-. by eexists _, _, _, _. }
  exists e0, o0, e1, o1. split; [done|]. split; [done|].
  destruct (file_server_delivers 16384 one_file two_paths 2) as (_ & Hfull & _).
  { unfold REQ_MSG_SIZE, PATH_MAX, RESP_MSG_SIZE. lia. }
  { intros path f. unfold one_file. case_bool_decide; [|done]. intros [= <-]. by vm_compute. }
  split; (apply (proj2 (Hfull s Hrun)); [lia|]); by eapply list_elem_of_lookup_2.
Defined.
