(* ===== verification/SemInit.v ===== *)
(** * Who initialises a semaphore

    svsem_good_init.c and svsem_bad_init.c (tlpi-dist/svsem): of any number of processes that share
    a System V semaphore, one creates it and gives it its first value, and each performs an
    operation on it.  The processes interleave at the level of system calls, on the scheduler of
    Threads.v; the value of a new semaphore is not determined, and the time of the last [semop],
    which the good version watches, matters only as zero or not. *)

From Stdlib Require Import ZArith Lia String Ascii.
From S2P Require Import Prelude CString Kernel GetNum Pipes.
From S2P Require Threads.
Import Threads (sys, Sys, shared, threads, printed, ended, effect, Go, Create, Say, Wait, Stop, run_one, step, run, zsum).

Definition EEXIST : Z := 17.
Definition SEMVMX : Z := 32767.

(** A set of one semaphore; [operated] is [sem_otime != 0]. *)
Record semset := Sem { value : Z; operated : bool }.

Inductive semop_result := Operated (s : semset) | Blocked | Error (errnum : Z).

Definition semop (a : answer) (op : Z) (g : option semset) : semop_result :=
  match a, g with
  | Fails e, _ => Error e
  | Done _, None => Error EINVAL
  | Done _, Some s =>
      if op =? 0 then (if value s =? 0 then Operated (Sem (value s) true) else Blocked)
      else if SEMVMX <? value s + op then Error ERANGE
      else if value s + op <? 0 then Blocked
      else Operated (Sem (value s + op) true)
  end.

(** ** svsem_good_init.c *)

Module Good.

Definition MAX_TRIES : nat := 10.

Inductive pc :=
| PGet | PCreated | PSet | PInit | PDummy | PDone
| PGet2 | PGot | PTry (j : nat) | PStat (j : nat)
| POp | PEnd (f : fate).

(** A process, with the number that makes its argument and its ID. *)
Inductive proc := Proc (i : nat) (p : pc).

Section Program.
Context (garbage : Z) (argument : nat -> bytes) (pid : nat -> Z).

Definition says (i : nat) (what : string) : bytes := dec (pid i) ++ str ": " ++ str what ++ [NL].

(** [sops[0].sem_op], a [short]; [getInt] ends a process whose argument is no number. *)
Definition sem_op (i : nat) : option Z :=
  match (getInt (Some (argument i)) 0 (Some (str "sem-op")) (Kernel.Proc tt 0 [])).1 with Ret v => Some (wrap_s 16 v) | _ => None end.

Definition exec (self : nat) (a : answer) (ts : list proc) (t : proc) (g : option semset) : effect (option semset) proc :=
  let '(Proc i p) := t in
  let go p := Go (Proc i p) in
  let say p what := Say (Proc i p) (says i what) in
  let fail e call := go (PEnd (Failed e call)) g in
  match p with
  | PGet =>
      match a, g with
      | Done _, None => go PCreated (Some (Sem garbage false))
      | Done _, Some _ => go PGet2 g
      | Fails e, _ => if e =? EEXIST then go PGet2 g else fail e "semget 1"%string
      end
  | PCreated => say PSet "created semaphore"%string
  | PSet =>
      match a, g with
      | Done _, Some s => go PInit (Some (Sem 0 (operated s)))
      | Done _, None => fail EINVAL "semctl 1"%string
      | Fails e, _ => fail e "semctl 1"%string
      end
  | PInit => say PDummy "initialized semaphore"%string
  | PDummy =>
      match semop a 0 g with
      | Operated s => go PDone (Some s)
      | Blocked => Wait
      | Error e => fail e "semop"%string
      end
  | PDone => say POp "completed dummy semop()"%string
  | PGet2 =>
      match a, g with
      | Done _, Some _ => go PGot g
      | Done _, None => fail ENOENT "semget 2"%string
      | Fails e, _ => fail e "semget 2"%string
      end
  | PGot => say (PTry 0) "got semaphore key"%string
  | PTry j =>
      if (j <? MAX_TRIES)%nat then Say (Proc i (PStat j)) (str "Try " ++ dec (Z.of_nat j) ++ [NL])
      else go (PEnd (Fatal "Existing semaphore not initialized")) g
  | PStat j =>
      match a, g with
      | Done _, Some s => go (if operated s then POp else PTry (S j)) g
      | Done _, None => fail EINVAL "semctl 2"%string
      | Fails e, _ => fail e "semctl 2"%string
      end
  | POp =>
      match sem_op i with
      | None => go (PEnd (Exited EXIT_FAILURE)) g
      | Some op =>
          match semop a op g with
          | Operated s => go (PEnd (Exited EXIT_SUCCESS)) (Some s)
          | Blocked => Wait
          | Error e => fail e "semop"%string
          end
      end
  | PEnd _ => Wait
  end.

Definition start_state (n : nat) : sys (option semset) proc := Sys None ((fun i => Proc i PGet) <$> seq 0 n) [] None.
End Program.

(** *** The invariant *)

Section Correct.
Context (garbage : Z) (argument : nat -> bytes) (pid : nat -> Z) (n : nat).
Let ex := exec garbage argument pid.

(** The process has made the semaphore and has not shown that it is ready. *)
Definition creating (p : pc) : bool := match p with PCreated | PSet | PInit | PDummy => true | _ => false end.
Definition seeking (p : pc) : bool :=
  match p with PGet | PGet2 | PGot | PTry _ => true | PStat j => (j <? MAX_TRIES)%nat | PEnd (Exited 0) => false | PEnd _ => true | _ => false end.
Definition ready (p : pc) : bool := match p with PDone | POp | PEnd (Exited 0) => true | _ => false end.

(** Where a process can be when the semaphore is [g]. *)
Definition pc_ok (g : option semset) (p : pc) : Prop :=
  match g with
  | None => p = PGet \/ p = PGet2 \/ exists f, p = PEnd f /\ f <> Exited EXIT_SUCCESS
  | Some (Sem v false) => creating p = true /\ (p = PInit \/ p = PDummy -> v = 0) \/ seeking p = true
  | Some (Sem v true) => ready p = true \/ seeking p = true
  end.

(** What a process has added to the semaphore. *)
Definition added (t : proc) : Z :=
  match t with Proc i (PEnd (Exited 0)) => default 0 (sem_op argument i) | _ => 0 end.
Definition total (g : option semset) : Z := match g with Some (Sem v true) => v | _ => 0 end.

Record inv (s : sys (option semset) proc) : Prop := {
  inv_ended : ended s = None;
  inv_procs : forall i t, threads s !! i = Some t -> exists p, t = Proc i p /\ pc_ok (shared s) p;
  inv_length : length (threads s) = n;
  inv_one : forall i j p q, threads s !! i = Some (Proc i p) -> threads s !! j = Some (Proc j q) ->
    creating p = true -> creating q = true -> i = j;
  inv_sum : total (shared s) = zsum added (threads s) /\ 0 <= total (shared s) <= SEMVMX
}.

Lemma good_inv_start : inv (start_state n).
Proof.
  assert (forall i t, ((fun i => Proc i PGet) <$> seq 0 n) !! i = Some t -> t = Proc i PGet) as Hstart.
  { intros i t Hi. rewrite list_lookup_fmap in Hi. destruct (seq 0 n !! i) as [j|] eqn:Ej; [|done]. injection Hi as <-.
    by apply lookup_seq in Ej as [-> _]. }
  split; cbn [ended threads shared start_state]; try done.
  - intros i t ->%Hstart. eexists. split; [done|by left].
  - by rewrite length_fmap, length_seq.
  - by intros i j p q [= ->]%Hstart _.
  - split; [|done]. cbn [total]. generalize (seq 0 n). intros l. by induction l.
Qed.

(** A step of process [i], from [p] to [p'], that makes [g] into [g']. *)
Lemma good_moves g ts out i p g' p' out' :
  inv (Sys g ts out None) -> ts !! i = Some (Proc i p) -> pc_ok g' p' ->
  (forall q, pc_ok g q -> creating p = true /\ creating q = true \/ pc_ok g' q) ->
  (creating p' = true -> creating p = true \/ g = None) ->
  total g' = total g - added (Proc i p) + added (Proc i p') -> 0 <= total g' <= SEMVMX ->
  inv (Sys g' (<[i := Proc i p']> ts) out' None).
Proof.
  intros [He Hps Hn Hone [Hsum _]] Hi Hp' Hothers Hcr Htot Hb. cbn [ended threads shared] in *.
  pose proof (lookup_lt_Some _ _ _ Hi) as Hlt.
  split; cbn [ended threads shared]; try done.
  - intros j t [(<- & <- & _)|[Hne Hj]]%list_lookup_insert_Some; [by eexists|]. destruct (Hps _ _ Hj) as (q & -> & Hq).
    exists q. split; [done|]. destruct (Hothers q Hq) as [[Hc1 Hc2]|]; [|done]. by destruct (Hne (Hone _ _ _ _ Hi Hj Hc1 Hc2)).
  - by rewrite length_insert.
  - assert (forall j q, i <> j -> ts !! j = Some (Proc j q) -> creating p' = true -> creating q = true -> False) as Hno.
    { intros j q Hne Hj Hc Hq. destruct (Hcr Hc) as [Hc'| ->]; [by apply Hne; apply (Hone i j p q)|].
      destruct (Hps _ _ Hj) as (q' & [= <-] & [->|[->|(f & -> & _)]]); done. }
    intros j k q r [(<- & [= <-] & _)|[Hj1 Hj]]%list_lookup_insert_Some [(<- & [= <-] & _)|[Hk1 Hk]]%list_lookup_insert_Some Hcq Hcr'; try done.
    + by destruct (Hno k r).
    + by destruct (Hno j q).
    + by apply (Hone j k q r).
  - split; [|done]. rewrite (Threads.zsum_insert _ _ _ _ _ Hi), <- Hsum. done.
Qed.

(** A step that does not touch the semaphore. *)
Lemma good_keeps g ts out i p p' out' :
  inv (Sys g ts out None) -> ts !! i = Some (Proc i p) -> pc_ok g p' -> (creating p' = true -> creating p = true) ->
  added (Proc i p) = 0 -> added (Proc i p') = 0 -> inv (Sys g (<[i := Proc i p']> ts) out' None).
Proof.
  intros HI Hi Hp Hc H1 H2. pose proof (inv_sum _ HI) as [_ Hb]. cbn [shared] in Hb. eapply good_moves; try done; auto; lia.
Qed.

Lemma seeking_ok g p : seeking p = true -> match p with PEnd _ | PGet | PGet2 => True | _ => g <> None end -> pc_ok g p.
Proof.
  intros Hs Hn. destruct g as [[v []]|]; [by right|by right|]. destruct p; try done; [by left|by right; left|].
  right. right. eexists. split; [done|]. intros ->. discriminate Hs.
Qed.

Lemma good_inv_step s s' : inv s -> step ex (fun _ => True) s s' -> inv s'.
Proof.
  intros HI (Hend & i & a & t & _ & Hi & Hp)%Threads.step_inv.
  destruct s as [g ts out e]; cbn [shared threads printed ended] in *. subst e.
  destruct (inv_procs _ HI _ _ Hi) as (p & -> & Hok). cbn [shared] in Hok. pose proof (inv_sum _ HI) as [_ Hb]. cbn [shared] in Hb.
  assert (forall f, f <> Exited EXIT_SUCCESS -> added (Proc i p) = 0 -> s' = Sys g (<[i := Proc i (PEnd f)]> ts) out None -> inv s') as Hdie.
  { intros f Hf Hadd ->. eapply good_keeps; [exact HI|exact Hi| |done|done|].
    - apply seeking_ok; [|done]. destruct f as [[]| | |]; try done.
    - destruct f as [[]| | |]; done. }
  assert (forall e call, added (Proc i p) = 0 -> s' = Sys g (<[i := Proc i (PEnd (Failed e call))]> ts) out None -> inv s') as Hfail.
  { intros e call. by apply Hdie. }
  assert (forall p' out', pc_ok g p' -> (creating p' = true -> creating p = true) -> added (Proc i p) = 0 -> added (Proc i p') = 0 ->
    s' = Sys g (<[i := Proc i p']> ts) out' None -> inv s') as Hgo.
  { intros p' out' H1 H2 H3 H4 ->. by eapply good_keeps. }
  destruct p as [| | | | | | | |j|j| |f]; cbn [ex exec] in Hp; try discriminate Hp.
  - destruct a as [k|e].
    + destruct g as [[v o]|]; injection Hp as <-.
      * eapply (Hgo PGet2 out); [by apply seeking_ok|done..].
      * eapply good_moves; [exact HI|exact Hi|left; split; [done|by intros [?|?]]| |by right|done|done].
        intros q [->|[->|(f & -> & Hf)]]; right; right; [done..|]. destruct f as [[]| | |]; done.
    + destruct (e =? EEXIST); injection Hp as <-; [|by eapply Hfail]. eapply (Hgo PGet2 out); [by apply seeking_ok|done..].
  - injection Hp as <-. eapply (Hgo PSet); [|done..]. destruct g as [[v []]|]; [by destruct Hok|by left; split; [done|intros [?|?]]|].
    by destruct Hok as [?|[?|(? & ? & _)]].
  - destruct a as [k|e]; [|injection Hp as <-; by eapply Hfail]. destruct g as [[v []]|]; injection Hp as <-; [by destruct Hok| |by eapply Hfail].
    eapply good_moves; [exact HI|exact Hi|by left; split; [done|intros [?|?]]| |by left|done|done].
    intros q [[Hc _]|Hs]; [by left|right; by right].
  - injection Hp as <-. eapply (Hgo PDummy); [|done..]. destruct g as [[v []]|]; [by destruct Hok| |by destruct Hok as [?|[?|(? & ? & _)]]].
    left. split; [done|]. intros _. destruct Hok as [[_ Hv]|?]; [by apply Hv; left|done].
  - unfold semop in Hp. destruct a as [k|e]; [|injection Hp as <-; by eapply Hfail].
    destruct g as [[v []]|]; [by destruct Hok| |injection Hp as <-; by eapply Hfail].
    assert (v = 0) as -> by (destruct Hok as [[_ Hv]|?]; [by apply Hv; right|done]). cbn in Hp. injection Hp as <-.
    eapply good_moves; [exact HI|exact Hi|by left| |done|done|done].
    intros q [[Hc _]|Hs]; [by left|right; by right].
  - injection Hp as <-. eapply (Hgo POp); [|done..]. destruct g as [[v []]|]; [by left|by destruct Hok as [[? _]|?]|by destruct Hok as [?|[?|(? & ? & _)]]].
  - destruct a as [k|e]; [|injection Hp as <-; by eapply Hfail].
    destruct g as [[v o]|]; injection Hp as <-; [|by eapply Hfail]. eapply (Hgo PGot out); [by apply seeking_ok|done..].
  - injection Hp as <-. eapply (Hgo (PTry 0)); [|done..]. destruct g as [[v o]|]; [by apply seeking_ok|]. by destruct Hok as [?|[?|(? & ? & _)]].
  - destruct (j <? MAX_TRIES)%nat eqn:Ej; injection Hp as <-; [|by eapply (Hdie (Fatal _))].
    eapply (Hgo (PStat j)); [|done..]. destruct g as [[v o]|]; [by apply seeking_ok|]. by destruct Hok as [?|[?|(? & ? & _)]].
  - destruct a as [k|e]; [|injection Hp as <-; by eapply Hfail].
    destruct g as [[v []]|]; injection Hp as <-; [by eapply (Hgo POp out); [left|..]|by eapply (Hgo (PTry (S j)) out); [apply seeking_ok|..]|by eapply Hfail].
  - destruct (sem_op argument i) as [op|] eqn:Eop; [|injection Hp as <-; by eapply (Hdie (Exited EXIT_FAILURE))].
    destruct g as [[v []]|]; [|by destruct Hok as [[? _]|?]|by destruct Hok as [?|[?|(? & ? & _)]]].
    assert (forall v', v' = v + op -> 0 <= v' <= SEMVMX ->
      inv (Sys (Some (Sem v' true)) (<[i := Proc i (PEnd (Exited EXIT_SUCCESS))]> ts) out None)) as Hdone.
    { intros v' -> Hb'. eapply good_moves; [exact HI|exact Hi|by left|by intros q Hq; right|done| |done]. cbn. rewrite Eop. cbn. lia. }
    cbn [total] in Hb. unfold semop in Hp. destruct a as [k|e]; [|injection Hp as <-; by eapply Hfail].
    cbn [value] in Hp. destruct (Z.eqb_spec op 0) as [->|Hop].
    + destruct (v =? 0); [|discriminate Hp]. injection Hp as <-. apply Hdone; lia.
    + destruct (Z.ltb_spec SEMVMX (v + op)); [injection Hp as <-; by eapply Hfail|].
      destruct (Z.ltb_spec (v + op) 0); [discriminate Hp|]. injection Hp as <-. by apply Hdone.
Qed.

(** *** What is left to do *)

Definition mu_proc (t : proc) : nat :=
  match t with
  | Proc _ p =>
      match p with
      | PGet => 26 | PGet2 => 25 | PGot => 24 | PTry j => 2 * (MAX_TRIES - j) + 3 | PStat j => 2 * (MAX_TRIES - j) + 2
      | PCreated => 6 | PSet => 5 | PInit => 4 | PDummy => 3 | PDone => 2 | POp => 1 | PEnd _ => 0
      end
  end.
Definition mu (s : sys (option semset) proc) : nat := sum_list_with mu_proc (threads s).

Lemma good_mu_step s s' : inv s -> step ex (fun _ => True) s s' -> (mu s' < mu s)%nat.
Proof.
  intros HI (Hend & i & a & t & _ & Hi & Hp)%Threads.step_inv. destruct (inv_procs _ HI _ _ Hi) as (p & -> & Hok).
  destruct s as [g ts out e]; cbn [shared threads printed ended] in *. subst e. unfold mu. cbn [threads].
  assert (match ex i a ts (Proc i p) g with
    | Go t' _ | Say t' _ => (mu_proc t' < mu_proc (Proc i p))%nat | Wait => True | _ => False end) as Hmu.
  { destruct p as [| | | | | | | |j|j| |f]; cbn [ex exec]; try (cbn [mu_proc]; unfold MAX_TRIES; lia); try done.
    - destruct a as [k|e]; [destruct g|destruct (e =? EEXIST)]; cbn [mu_proc]; lia.
    - destruct a as [k|e]; [destruct g|]; cbn [mu_proc]; lia.
    - destruct (semop _ _ _); cbn [mu_proc]; try done; lia.
    - destruct a as [k|e]; [destruct g|]; cbn [mu_proc]; lia.
    - destruct (Nat.ltb_spec j MAX_TRIES); cbn [mu_proc]; lia.
    - assert (j < MAX_TRIES)%nat as Hj.
      { apply Nat.ltb_lt. destruct g as [[v []]|]; [by destruct Hok|by destruct Hok as [[? _]|?]|by destruct Hok as [?|[?|(? & ? & _)]]]. }
      destruct a as [k|e]; [destruct g as [[v []]|]|]; cbn [operated mu_proc]; lia.
    - destruct (sem_op _ _); [destruct (semop _ _ _)|]; cbn [mu_proc]; try done; lia. }
  destruct (ex i a ts (Proc i p) g) as [t' g'|t' c|t' o| |en]; try done; injection Hp as <-; cbn [threads].
  all: pose proof (Threads.sum_list_with_insert mu_proc ts i _ t' Hi); lia.
Qed.

Definition blocked_by (g : option semset) (i : nat) : Prop :=
  exists v op, g = Some (Sem v true) /\ sem_op argument i = Some op /\ (op = 0 /\ v <> 0 \/ v + op < 0).

(** Only the operation on the semaphore waits. *)
Lemma good_progress s i p k :
  inv s -> threads s !! i = Some (Proc i p) -> match p with PEnd _ => False | _ => True end ->
  (exists s', run_one ex i (Done k) s = Some s') \/ p = POp /\ blocked_by (shared s) i.
Proof.
  intros HI Hi Hp. destruct (inv_procs _ HI _ _ Hi) as (p' & [= <-] & Hok).
  assert (ex i (Done k) (threads s) (Proc i p) (shared s) <> Wait -> exists s', run_one ex i (Done k) s = Some s') as Hgo.
  { intros H. by eapply Threads.run_one_enabled; [apply HI|..]. }
  destruct p as [| | | | | | | |j|j| |f]; try done; try (by left; apply Hgo).
  - left. apply Hgo. cbn [ex exec]. by destruct (shared s).
  - left. apply Hgo. cbn [ex exec]. by destruct (shared s).
  - left. apply Hgo. cbn [ex exec]. destruct (shared s) as [[v []]|]; [by destruct Hok| |done].
    assert (v = 0) as -> by (destruct Hok as [[_ Hv]|?]; [by apply Hv; right|done]). done.
  - left. apply Hgo. cbn [ex exec]. by destruct (shared s).
  - left. apply Hgo. cbn [ex exec]. by destruct (j <? MAX_TRIES)%nat.
  - left. apply Hgo. cbn [ex exec]. by destruct (shared s).
  - destruct (ex i (Done k) (threads s) (Proc i POp) (shared s)) eqn:E; try (by left; apply Hgo). right. split; [done|].
    cbn [ex exec] in E. destruct (sem_op argument i) as [op|] eqn:Eop; [|done].
    destruct (shared s) as [[v []]|]; [|by destruct Hok as [[? _]|?]|by destruct Hok as [?|[?|(? & ? & _)]]].
    exists v, op. split_and!; [done|done|]. cbn [semop value] in E. destruct (Z.eqb_spec op 0) as [->|Hop].
    + left. split; [done|]. destruct (Z.eqb_spec v 0); done.
    + right. destruct (SEMVMX <? v + op); [done|]. destruct (Z.ltb_spec (v + op) 0); done.
Qed.

(** C7: nobody uses the semaphore of svsem_good_init before it has its first value, and no operation
    is lost.  Whatever the interleaving of [n] processes and the calls that fail: a process that is
    about to perform its operation finds an initialised semaphore; its value is always the sum of
    the operations of the processes that have ended with success; a process only ever waits for
    the value its own operation needs, and makes at most 26 steps. *)
Theorem good_init_keeps_operations :
  (forall s, rtc (step ex (fun _ => True)) (start_state n) s ->
     (forall i, Proc i POp ∈ threads s -> exists v, shared s = Some (Sem v true)) /\
     match shared s with
     | Some (Sem v true) => v = zsum added (threads s) /\ 0 <= v <= SEMVMX
     | _ => forall i, Proc i (PEnd (Exited EXIT_SUCCESS)) ∉ threads s
     end /\
     (forall i p k, threads s !! i = Some (Proc i p) -> match p with PEnd _ => False | _ => True end ->
        (exists s', run_one ex i (Done k) s = Some s') \/ p = POp /\ blocked_by (shared s) i)) /\
  (forall m s, nsteps (step ex (fun _ => True)) m (start_state n) s -> (m <= 26 * n)%nat).
Proof.
  split.
  - intros s Hr. assert (inv s) as HI by (apply (Prelude.rtc_invariant _ inv _ _ good_inv_step good_inv_start Hr)).
    assert (forall i p, Proc i p ∈ threads s -> pc_ok (shared s) p) as Hpc.
    { intros i p [j Hj]%list_elem_of_lookup. by destruct (inv_procs _ HI _ _ Hj) as (p' & [= _ ->] & ?). }
    split; [|split].
    + intros i Hin%Hpc. destruct (shared s) as [[v []]|]; [by exists v|by destruct Hin as [[? _]|?]|by destruct Hin as [?|[?|(? & ? & _)]]].
    + pose proof (inv_sum _ HI) as [Hsum Hb]. destruct (shared s) as [[v []]|]; [done|..]; intros i Hin%Hpc.
      * by destruct Hin as [[? _]|?].
      * by destruct Hin as [?|[?|(? & [= <-] & ?)]].
    + intros i p k. by apply good_progress.
  - intros m s Hn. assert (mu (start_state n) = 26 * n)%nat as <-.
    { unfold mu. cbn [threads start_state]. rewrite <- (length_seq n 0) at 2. generalize (seq 0 n). intros l.
      induction l as [|j l IH]; [done|]. rewrite fmap_cons. cbn [sum_list_with mu_proc length]. lia. }
    refine (nsteps_bounded_inv _ inv mu _ _ s _ _ _ Hn); [apply good_inv_step|apply good_mu_step|apply good_inv_start].
Qed.
End Correct.
End Good.

(** ** svsem_bad_init.c *)

Module Bad.

Inductive pc := BGet | BSet | BGet2 | BOp | BEnd (f : fate).

Definition exec (garbage : Z) (self : nat) (a : answer) (ts : list pc) (p : pc) (g : option semset) : effect (option semset) pc :=
  let fail e call := Go (BEnd (Failed e call)) g in
  match p with
  | BGet =>
      match a, g with
      | Done _, None => Go BSet (Some (Sem garbage false))
      | Done _, Some _ => Go BGet2 g
      | Fails e, _ => if e =? EEXIST then Go BGet2 g else fail e "semget 1"%string
      end
  | BSet =>
      match a, g with
      | Done _, Some s => Go BOp (Some (Sem 0 (operated s)))
      | Done _, None => fail EINVAL "semctl"%string
      | Fails e, _ => fail e "semctl"%string
      end
  | BGet2 =>
      match a, g with
      | Done _, Some _ => Go BOp g
      | Done _, None => fail ENOENT "semget 2"%string
      | Fails e, _ => fail e "semget 2"%string
      end
  | BOp =>
      match semop a 1 g with
      | Operated s => Go (BEnd (Exited EXIT_SUCCESS)) (Some s)
      | Blocked => Wait
      | Error e => fail e "semop"%string
      end
  | BEnd _ => Wait
  end.

Definition start_state (n : nat) : sys (option semset) pc := Sys None (replicate n BGet) [] None.

(** What the program shows to be wrong: two processes add 1 each, and the second to come is first
    to add; the creator then sets the value to 0. *)
Theorem bad_init_loses garbage : 0 <= garbage < SEMVMX ->
  exists s, rtc (step (exec garbage) (fun _ => True)) (start_state 2) s /\
    threads s = replicate 2 (BEnd (Exited EXIT_SUCCESS)) /\ shared s = Some (Sem 1 true).
Proof.
  intros Hg. set (sched := (fun i => (i, Done 0)) <$> [0; 1; 1; 1; 0; 0]%nat).
  assert (exists s, run (exec garbage) sched (start_state 2) = Some s /\ threads s = replicate 2 (BEnd (Exited EXIT_SUCCESS)) /\
    shared s = Some (Sem 1 true)) as (s & Hrun & Hs).
  { cbn. rewrite (proj2 (Z.ltb_ge SEMVMX (garbage + 1))) by lia. rewrite (proj2 (Z.ltb_ge (garbage + 1) 0)) by lia. by eexists. }
  exists s. split; [|done]. refine (Threads.run_rtc _ (fun _ => True) _ _ _ _ Hrun). by apply Forall_true.
Qed.
End Bad.
