(* ===== verification/Semops.v ===== *)
(** * Semaphore operations spelt on the command line, and event flags

    svsem_op.c and event_flags.c (tlpi-dist/svsem).  [parseOps] reads operations like
    [0+1,1-2un]; event flags are semaphores of value 0 (set) and 1 (clear).  The calls on semaphore
    sets are a type class. *)

From Stdlib Require Import ZArith Lia String Ascii.
From S2P Require Import Prelude CString Kernel GetNum ErrorFns.

Definition MAX_SEMOPS : nat := Z.to_nat 1000.
Definition IPC_NOWAIT : Z := 2048.
Definition SEM_UNDO : Z := 4096.
Abbreviation u16 := (wrap_u 16).
Abbreviation s16 := (wrap_s 16).

Record sembuf := Sembuf { sem_num : Z; sem_op : Z; sem_flg : Z }.

(** The calls: [semop], and [semctl] with SETVAL and GETVAL. *)
Class SemCalls (K : Type) := {
  k_semop : Z -> list sembuf -> K -> (Z + Z) * K;
  k_setval : Z -> Z -> Z -> K -> (Z + Z) * K;
  k_getval : Z -> Z -> K -> (Z + Z) * K;
  k_getpid : K -> Z;
  k_currTime : K -> bytes
}.

(** ** svsem_op.c *)

Section Program.
Context `{!Messages} {K : Type}.

Definition quoted (s : bytes) : bytes := [chr 34] ++ s ++ [chr 34].

(** The letters after an operation. *)
Fixpoint parse_flags (flags : bytes) (sem_flg : Z) : Z * bytes :=
  match flags with
  | c :: flags' =>
      if Ascii.eqb c "n" then parse_flags flags' (Z.lor sem_flg IPC_NOWAIT)
      else if Ascii.eqb c "u" then parse_flags flags' (Z.lor sem_flg SEM_UNDO)
      else (sem_flg, flags)
  | [] => (sem_flg, flags)
  end.

Definition starts_with_digit (s : bytes) : bool := match s with c :: _ => isdigit c | [] => false end.

(** One operation at the start of [remaining]. *)
Definition parse_one (arg remaining : bytes) : M (proc K) sembuf :=
  match remaining with
  | [] => fatal (str "Trailing comma or empty argument: " ++ quoted arg)
  | _ =>
      if negb (starts_with_digit remaining) then cmdLineErr (str "Expected initial digit: " ++ quoted arg ++ [NL])
      else
        let r := strtol remaining 10 in
        let sem_num := u16 (st_value r) in
        match drop (st_end r) remaining with
        | [] => cmdLineErr (str "Expected '+', '-', or '=' in " ++ quoted arg ++ [NL])
        | sign :: s =>
            if negb (bool_decide (sign ∈ str "+-=")) then cmdLineErr (str "Expected '+', '-', or '=' in " ++ quoted arg ++ [NL])
            else if negb (starts_with_digit s)
            then cmdLineErr (str "Expected digit after '" ++ [sign] ++ str "' in " ++ quoted arg ++ [NL])
            else
              let r := strtol s 10 in
              let op := s16 (st_value r) in
              let op := if Ascii.eqb sign "-" then s16 (- op) else op in
              if Ascii.eqb sign "=" && negb (op =? 0) then cmdLineErr (str "Expected " ++ quoted (str "=0") ++ str " in " ++ quoted arg ++ [NL])
              else
                let '(flg, flags) := parse_flags (drop (st_end r) s) 0 in
                match flags with
                | c :: _ =>
                    if negb (Ascii.eqb c ",") then cmdLineErr (str "Bad trailing character (" ++ [c] ++ str ") in " ++ quoted arg ++ [NL])
                    else mret (Sembuf sem_num op flg)
                | [] => mret (Sembuf sem_num op flg)
                end
        end
  end.

(** [room] operations still fit into the array. *)
Fixpoint parse_from (room : nat) (arg remaining : bytes) : M (proc K) (list sembuf) :=
  match room with
  | O => cmdLineErr (str "Too many operations (maximum=" ++ dec (Z.of_nat MAX_SEMOPS) ++ str "): " ++ quoted arg ++ [NL])
  | S room' =>
      op ← parse_one arg remaining;
      match strchr remaining "," with
      | None => mret [op]
      | Some comma => ops ← parse_from room' arg (drop (S comma) remaining); mret (op :: ops)
      end
  end.

Definition parseOps (arg : bytes) : M (proc K) (list sembuf) := parse_from MAX_SEMOPS arg arg.

Definition usageError {A} (progName : bytes) : M (proc K) A :=
  eprintf (str "Usage: " ++ progName ++ str " semid op[,op...] ..." ++ [NL; NL]) ;;
  eprintf (str "'op' is either: <sem#>{+|-}<value>[n][u]" ++ [NL]) ;;
  eprintf (str "            or: <sem#>=0[n]" ++ [NL]) ;;
  eprintf (str "       " ++ quoted (str "n") ++ str " means include IPC_NOWAIT in 'op'" ++ [NL]) ;;
  eprintf (str "       " ++ quoted (str "u") ++ str " means include SEM_UNDO in 'op'" ++ [NL; NL]) ;;
  eprintf (str "The operations in each argument are performed in a single semop() call" ++ [NL; NL]) ;;
  eprintf (str "e.g.: " ++ progName ++ str " 12345 0+1,1-2un" ++ [NL]) ;;
  eprintf (str "      " ++ progName ++ str " 12345 0=0n 1+1,2-1u 1=0" ++ [NL]) ;;
  exit_ EXIT_FAILURE.

Context `{!SemCalls K}.

(** [%5ld]. *)
Definition dec5 (z : Z) : bytes := let s := dec z in replicate (5 - length s) " "%char ++ s.

Definition progress_line (what : string) (arg : bytes) : M (proc K) unit :=
  pid ← gets (fun p => k_getpid (kern p));
  now ← gets (fun p => k_currTime (kern p));
  printf (dec5 pid ++ str ", " ++ now ++ str ": " ++ str what ++ str "[" ++ arg ++ str "]" ++ [NL]).

Definition semop_or_exit (semid : Z) (sops : list sembuf) : M (proc K) unit :=
  r ← syscall (-1) (k_semop semid sops);
  if r =? -1 then pid ← gets (fun p => k_getpid (kern p)); errExit (str "semop (PID=" ++ dec pid ++ str ")") else mret tt.

Fixpoint perform_args (semid_arg : bytes) (args : list bytes) : M (proc K) unit :=
  match args with
  | [] => mret tt
  | arg :: args' =>
      sops ← parseOps arg;
      progress_line "about to semop()  " arg ;;
      semid ← getInt (Some semid_arg) 0 (Some (str "semid"));
      semop_or_exit semid sops ;;
      progress_line "semop() completed " arg ;;
      perform_args semid_arg args'
  end.

Definition svsem_op_main (argv : list bytes) : M (proc K) unit :=
  match argv with
  | a0 :: a1 :: args =>
      (if strcmp a1 (str "--help") =? 0 then usageError a0 else mret tt) ;;
      perform_args a1 args ;;
      exit_ EXIT_SUCCESS
  | _ => usageError (default [] (argv !! 0%nat))
  end.
End Program.

(** ** The language of the arguments *)

Section Parser.
Context `{!Messages} {K : Type}.

(** The text of an operation: two numbers in decimal digits, a sign between them, and letters. *)
Record op_text := Text { num_digits : bytes; sign : ascii; val_digits : bytes; letters : bytes }.

Definition show (t : op_text) : bytes := num_digits t ++ sign t :: val_digits t ++ letters t.
Definition number (ds : bytes) : Z := Z.min LONG_MAX (digits_val 10 ds).
Definition flag_of (c : ascii) : Z := if Ascii.eqb c "n" then IPC_NOWAIT else SEM_UNDO.
Definition flags_of (l : bytes) : Z := fold_left (fun f c => Z.lor f (flag_of c)) l 0.

Definition denote (t : op_text) : sembuf :=
  let op := s16 (number (val_digits t)) in
  Sembuf (u16 (number (num_digits t))) (if Ascii.eqb (sign t) "-" then s16 (- op) else op) (flags_of (letters t)).

Definition digits (ds : bytes) : Prop := ds <> [] /\ Forall dec_char ds.
Definition letter (c : ascii) : Prop := c = "n"%char \/ c = "u"%char.

Record wf (t : op_text) : Prop := {
  wf_num : digits (num_digits t);
  wf_sign : sign t ∈ str "+-=";
  wf_val : digits (val_digits t);
  wf_letters : Forall letter (letters t);
  wf_zero : sign t = "="%char -> s16 (number (val_digits t)) = 0
}.

Fixpoint show_ops (l : list op_text) : bytes :=
  match l with [] => [] | [t] => show t | t :: l' => show t ++ ","%char :: show_ops l' end.

Lemma is_digit_10 c : is_digit 10 c = isdigit c.
Proof.
  unfold is_digit, digit_val. destruct (isdigit c) eqn:E; unfold isdigit, islower, isupper in *.
  - apply andb_true_iff in E as [H1 H2]. apply Z.leb_le in H1, H2. apply Z.ltb_lt. lia.
  - destruct ((97 <=? ord c) && _) eqn:E1.
    + apply andb_true_iff in E1 as [H1 H2]. apply Z.leb_le in H1, H2. apply Z.ltb_ge. lia.
    + destruct ((65 <=? ord c) && _) eqn:E2; [|done].
      apply andb_true_iff in E2 as [H1 H2]. apply Z.leb_le in H1, H2. apply Z.ltb_ge. lia.
Qed.

Lemma strtol_digits ds rest :
  digits ds -> no_digit rest ->
  st_value (strtol (ds ++ rest) 10) = number ds /\ st_end (strtol (ds ++ rest) 10) = length ds.
Proof.
  intros [Hne Hds] Hrest. destruct ds as [|c ds]; [done|]. inversion Hds as [|? ? Hc Hds']; subst.
  unfold strtol. rewrite (span_none isspace) by (by apply dec_char_nospace).
  assert (split_sign ((c :: ds) ++ rest) = (false, (c :: ds) ++ rest)) as ->.
  { cbn. apply dec_char_spec in Hc. rewrite !ascii_neq; [done| |]; ord_lia. }
  rewrite split_prefix_10, span_app; [|by eapply Forall_impl; [exact Hds|apply dec_char_digit]|done].
  rewrite decide_False by done. unfold number.
  assert (LONG_MIN <= digits_val 10 (c :: ds)) as Hmin.
  { assert (forall l acc, 0 <= acc -> Forall dec_char l -> 0 <= fold_left (fun a c => a * 10 + digit_val c) l acc) as Hfold.
    { intros l. induction l as [|x l IH]; intros acc Ha Hl; [done|]. inversion Hl as [|? ? Hx Hl']; subst. cbn. apply IH; [|done].
      apply dec_char_spec in Hx as Hr. unfold digit_val. rewrite Hx. lia. }
    specialize (Hfold (c :: ds) 0 ltac:(lia) Hds). unfold digits_val, LONG_MIN. lia. }
  destruct (Z.ltb_spec LONG_MAX (digits_val 10 (c :: ds))); [cbn [st_value st_end]; split; [lia|rewrite length_app; lia]|].
  destruct (Z.ltb_spec (digits_val 10 (c :: ds)) LONG_MIN); [lia|]. cbn [st_value st_end]. split; [lia|rewrite length_app; lia].
Qed.

(** Text that starts with a digit, cut after its digits. *)
Lemma take_digits s : starts_with_digit s = true -> exists ds rest, s = ds ++ rest /\ digits ds /\ no_digit rest.
Proof.
  intros Hs. pose proof (span_eq isdigit s) as Hspan. destruct (span isdigit s) as [ds rest] eqn:E. destruct Hspan as (Heq & Hd & Hr).
  exists ds, rest. split; [done|]. split.
  - split; [|done]. intros ->. cbn in Heq. subst s. destruct rest as [|c r]; [done|]. cbn in Hs. congruence.
  - destruct rest as [|c r]; [done|]. cbn. by rewrite is_digit_10.
Qed.

Lemma digits_start ds rest : digits ds -> starts_with_digit (ds ++ rest) = true.
Proof. intros [Hne Hds]. destruct Hds; done. Qed.

Lemma parse_flags_spec s f : exists l rest, s = l ++ rest /\ Forall letter l /\
  parse_flags s f = (fold_left (fun f c => Z.lor f (flag_of c)) l f, rest).
Proof.
  revert f. induction s as [|c s IH]; intros f; [by exists [], []|]. cbn.
  destruct (Ascii.eqb_spec c "n") as [->|H1]; [|destruct (Ascii.eqb_spec c "u") as [->|H2]]; [..|by exists [], (c :: s)].
  - destruct (IH (Z.lor f IPC_NOWAIT)) as (l & rest & -> & Hl & ->). exists ("n"%char :: l), rest. split_and!; [done|by constructor; [left|]|done].
  - destruct (IH (Z.lor f SEM_UNDO)) as (l & rest & -> & Hl & ->). exists ("u"%char :: l), rest. split_and!; [done|by constructor; [right|]|done].
Qed.

Lemma parse_flags_ok l rest f : Forall letter l -> match rest with [] => True | c :: _ => ~ letter c end ->
  parse_flags (l ++ rest) f = (fold_left (fun f c => Z.lor f (flag_of c)) l f, rest).
Proof.
  intros Hl Hr. revert f. induction Hl as [|c l [-> | ->] _ IH]; intros f; cbn; [|by rewrite IH..].
  destruct rest as [|c r]; [done|]. cbn. destruct (Ascii.eqb_spec c "n") as [->|]; [by destruct Hr; left|].
  destruct (Ascii.eqb_spec c "u") as [->|]; [by destruct Hr; right|done].
Qed.

(** What may follow an operation. *)
Definition ends (rest : bytes) : Prop := rest = [] \/ exists r, rest = ","%char :: r.

Lemma sign_no_digit c s : c ∈ str "+-=" -> no_digit (c :: s).
Proof. intros Hc. cbn in Hc. by repeat (apply elem_of_cons in Hc as [->|Hc]); [..|apply elem_of_nil in Hc]. Qed.

Lemma letters_no_digit l rest : Forall letter l -> ends rest -> no_digit (l ++ rest).
Proof. intros Hl Hr. destruct Hl as [|c l [-> | ->] _]; [|done..]. by destruct Hr as [->|[r ->]]. Qed.

Lemma parse_one_ok arg t rest (p : proc K) : wf t -> ends rest -> parse_one arg (show t ++ rest) p = (Ret (denote t), p).
Proof.
  intros [Hn Hs Hv Hl Hz] Hr. unfold show. rewrite <- app_assoc. cbn [app]. rewrite <- app_assoc. unfold parse_one.
  pose proof (digits_start (num_digits t) (sign t :: val_digits t ++ letters t ++ rest) Hn) as Hd.
  destruct (strtol_digits (num_digits t) (sign t :: val_digits t ++ letters t ++ rest) Hn) as [E1 E2]; [by apply sign_no_digit|].
  destruct (strtol_digits (val_digits t) (letters t ++ rest) Hv) as [E3 E4]; [by apply letters_no_digit|].
  destruct (num_digits t ++ sign t :: val_digits t ++ letters t ++ rest) as [|c s] eqn:Etext; [done|].
  rewrite Hd. cbn [negb]. rewrite E1, E2, <- Etext, drop_app_length. rewrite bool_decide_true by done. cbn [negb].
  rewrite digits_start by done. cbn [negb]. rewrite E3, E4, drop_app_length.
  assert (forall o, sign t = "="%char -> o = s16 (number (val_digits t)) -> o = 0) as Hzero by (intros o ? ->; auto).
  rewrite parse_flags_ok; [|done|by destruct Hr as [->|[r ->]]; [|intros [?|?]]].
  destruct (Ascii.eqb_spec (sign t) "=") as [Eeq|Eeq]; cbn [andb].
  - rewrite Eeq. cbn [Ascii.eqb Bool.eqb]. rewrite (Hz Eeq). cbn [Z.eqb negb].
    unfold denote. rewrite Eeq, (Hz Eeq). by destruct Hr as [->|[r ->]].
  - unfold denote. by destruct Hr as [->|[r ->]].
Qed.

(** A run that ends in a message stops the process and leaves the kernel alone. *)
Definition refused {A} (p : proc K) (o : outcome A) (q : proc K) : Prop := stopped o /\ kern q = kern p.

Lemma wp_cmdLineErr {A} msg (p : proc K) (Q : outcome A -> proc K -> Prop) :
  (forall o q, refused p o q -> Q o q) -> wp (cmdLineErr msg) p Q.
Proof. intros HQ. apply wp_bind, wp_eprintf. apply HQ. by split; [left|]. Qed.

Lemma wp_refusal {A} msg (p : proc K) (Q : outcome A -> proc K -> Prop) :
  (forall o q, refused p o q -> Q o q) -> wp (fatal msg) p Q.
Proof. intros HQ. apply wp_fatal. intros o e Ho. by apply HQ. Qed.

(** What [parse_one] takes is an operation, or nothing. *)
Lemma parse_one_cases arg s (p : proc K) :
  wp (parse_one arg s) p (fun o q =>
    (exists t rest, o = Ret (denote t) /\ q = p /\ wf t /\ ends rest /\ s = show t ++ rest) \/ refused p o q).
Proof.
  assert (forall msg, wp (cmdLineErr (A := sembuf) msg) p (fun o q =>
    (exists t rest, o = Ret (denote t) /\ q = p /\ wf t /\ ends rest /\ s = show t ++ rest) \/ refused p o q)) as Hno.
  { intros msg. apply wp_cmdLineErr. auto. }
  unfold parse_one. destruct s as [|c0 s0] eqn:Es; [apply wp_refusal; auto|]. rewrite <- Es in *. clear c0 s0 Es.
  destruct (starts_with_digit s) eqn:Hd; cbn [negb]; [|apply Hno].
  apply take_digits in Hd as (num & s1 & -> & Hnum & Hnd). destruct (strtol_digits num s1 Hnum Hnd) as [E1 E2]. rewrite E1, E2, drop_app_length.
  destruct s1 as [|sg s1]; [apply Hno|]. destruct (bool_decide_reflect (sg ∈ str "+-=")) as [Hsg|]; cbn [negb]; [|apply Hno].
  destruct (starts_with_digit s1) eqn:Hd; cbn [negb]; [|apply Hno].
  apply take_digits in Hd as (val & s2 & -> & Hval & Hnd2). destruct (strtol_digits val s2 Hval Hnd2) as [E3 E4]. rewrite E3, E4, drop_app_length.
  destruct (parse_flags_spec s2 0) as (ls & rest & -> & Hls & ->). set (t := Text num sg val ls).
  assert (ends rest -> (sg = "="%char -> s16 (number val) = 0) ->
    wp (mret (denote t) : M (proc K) sembuf) p (fun o q =>
      (exists t rest0, o = Ret (denote t) /\ q = p /\ wf t /\ ends rest0 /\ num ++ sg :: val ++ ls ++ rest = show t ++ rest0) \/ refused p o q)) as Hret.
  { intros Hr Hz. apply wp_ret. left. exists t, rest. split_and!; [done|done|by split|done|].
    unfold show. cbn. by rewrite <- app_assoc, <- app_comm_cons, <- app_assoc. }
  destruct (Ascii.eqb sg "=" && negb ((if Ascii.eqb sg "-" then s16 (- s16 (number val)) else s16 (number val)) =? 0)) eqn:Hz; [apply Hno|].
  assert (sg = "="%char -> s16 (number val) = 0) as Hzero.
  { intros ->. cbn in Hz. by apply negb_false_iff, Z.eqb_eq in Hz. }
  destruct rest as [|c rest]; [by apply Hret; [left|]|]. destruct (Ascii.eqb_spec c ",") as [->|]; cbn [negb]; [|apply Hno].
  apply Hret; [right; by eexists|done].
Qed.

Lemma show_no_comma t : wf t -> ","%char ∉ show t.
Proof.
  intros [[_ Hn] Hs [_ Hv] Hl _]. unfold show.
  assert (forall ds, Forall dec_char ds -> ","%char ∉ ds) as Hdig.
  { intros ds Hds Hin. eapply Forall_forall in Hds; [|exact Hin]. done. }
  intros [Hin|[Heq|[Hin|Hin]%elem_of_app]%elem_of_cons]%elem_of_app; [exact (Hdig _ Hn Hin)|..|exact (Hdig _ Hv Hin)|].
  - rewrite <- Heq in Hs. cbn in Hs. by repeat (apply elem_of_cons in Hs as [?|Hs]); [..|apply elem_of_nil in Hs].
  - eapply Forall_forall in Hl; [|exact Hin]. by destruct Hl.
Qed.

Lemma comma_after t rest : wf t -> strchr (show t ++ rest) "," = match rest with [] => None | _ => (Nat.add (length (show t))) <$> strchr rest "," end.
Proof.
  intros Ht%show_no_comma. rewrite !strchr_index by done. rewrite index_of_app by done. by destruct rest.
Qed.

(** Operations with their commas, [room] of them at most. *)
Lemma parse_from_ok arg room l (p : proc K) : l <> [] -> (length l <= room)%nat -> Forall wf l ->
  parse_from room arg (show_ops l) p = (Ret (denote <$> l), p).
Proof.
  intros Hne Hlen Hl. revert room Hlen. induction Hl as [|t l Ht Hl IH]; intros room Hlen; [done|].
  destruct room as [|room]; [cbn in Hlen; lia|]. cbn [parse_from]. destruct l as [|t2 l].
  - cbn [show_ops]. rewrite <- (app_nil_r (show t)). erewrite bind_Ret by (apply parse_one_ok; [done|by left]).
    by rewrite comma_after.
  - change (show_ops (t :: t2 :: l)) with (show t ++ ","%char :: show_ops (t2 :: l)).
    erewrite bind_Ret by (apply parse_one_ok; [done|right; by eexists]).
    rewrite comma_after by done. rewrite strchr_index by done. cbn [index_of]. rewrite Ascii.eqb_refl. cbn [fmap option_fmap option_map].
    rewrite Nat.add_0_r. replace (drop (S (length (show t))) _) with (show_ops (t2 :: l)).
    2: { rewrite <- Nat.add_1_r, <- drop_drop, drop_app_length. done. }
    erewrite bind_Ret by (apply IH; [done|cbn in *; lia]). done.
Qed.

Lemma parse_from_cases arg room s (p : proc K) :
  wp (parse_from room arg s) p (fun o q =>
    (exists l, o = Ret (denote <$> l) /\ q = p /\ l <> [] /\ (length l <= room)%nat /\ Forall wf l /\ s = show_ops l) \/ refused p o q).
Proof.
  revert s. induction room as [|room IH]; intros s; [apply wp_cmdLineErr; auto|]. cbn [parse_from]. apply wp_bind.
  eapply wp_mono; [apply parse_one_cases|]. intros o q [(t & rest & -> & -> & Ht & Hr & ->)|[Ho Hq]].
  2: { destruct Ho as [-> | ->]; right; (split; [by (left + right)|done]). }
  destruct Hr as [->|[r ->]].
  - rewrite comma_after by done. apply wp_ret. left. exists [t]. split_and!; [done|done|done|cbn; lia|by apply Forall_singleton|].
    cbn. by rewrite app_nil_r.
  - rewrite comma_after by done. rewrite strchr_index by done. cbn [index_of]. rewrite Ascii.eqb_refl. cbn [fmap option_fmap option_map].
    rewrite Nat.add_0_r. replace (drop (S (length (show t))) _) with r.
    2: { rewrite <- Nat.add_1_r, <- drop_drop, drop_app_length. done. }
    apply wp_bind. eapply wp_mono; [apply IH|]. intros o q [(l & -> & -> & Hne & Hlen & Hl & ->)|[Ho Hq]].
    + apply wp_ret. left. exists (t :: l). split_and!; [done|done|done|cbn; lia|by constructor|]. by destruct l.
    + destruct Ho as [-> | ->]; right; (split; [by (left + right)|done]).
Qed.

(** What the usage text allows: the letters at most once each, and after [=] only the digit 0 and at
    most the letter [n]. *)
Record usage_form (t : op_text) : Prop := {
  us_num : digits (num_digits t);
  us_sign : sign t ∈ str "+-=";
  us_val : if Ascii.eqb (sign t) "=" then val_digits t = str "0" else digits (val_digits t);
  us_letters : Forall letter (letters t) /\ NoDup (letters t);
  us_equal : sign t = "="%char -> "u"%char ∉ letters t
}.

Lemma usage_wf t : usage_form t -> wf t.
Proof.
  intros [Hn Hs Hv [Hl _] _]. destruct (Ascii.eqb_spec (sign t) "=") as [E|E].
  - split; [done|done| |done|]; rewrite Hv; [by split; [|repeat constructor]|by vm_compute].
  - split; done.
Qed.

(** C30: [parseOps] accepts exactly the texts of 1 to 1000 operations with commas between them, where
    an operation is a semaphore number, a sign, a value and any number of letters [n] and [u] in any
    order, and the value after [=], narrowed to 16 bits, is 0.  It returns what they denote, with
    both numbers narrowed to the 16 bits of [struct sembuf], and changes nothing; on any other
    argument it ends the process with a message.  This is more than the usage text says, which has
    each letter at most once and only [n] after [=0] ([accepts_more]): what the text allows is
    accepted. *)
Theorem parseOps_accepts arg (p : proc K) :
  (forall ops q, parseOps arg p = (Ret ops, q) <->
     q = p /\ exists l, l <> [] /\ (length l <= MAX_SEMOPS)%nat /\ Forall wf l /\ arg = show_ops l /\ ops = denote <$> l) /\
  (forall o q, parseOps arg p = (o, q) -> (exists ops, o = Ret ops) \/ refused p o q) /\
  (forall l, l <> [] -> (length l <= MAX_SEMOPS)%nat -> Forall usage_form l -> arg = show_ops l -> exists ops, parseOps arg p = (Ret ops, p)).
Proof.
  pose proof (parse_from_cases arg MAX_SEMOPS arg p) as Hcases. unfold wp in Hcases. change (parse_from MAX_SEMOPS arg arg p) with (parseOps arg p) in Hcases.
  destruct (parseOps arg p) as [o0 q0] eqn:E. cbn [fst snd] in Hcases. split_and!.
  - intros ops q. split.
    + intros [= -> ->]. destruct Hcases as [(l & [= ->] & -> & ?)|[[?|?] _]]; [|done..]. split; [done|]. exists l. naive_solver.
    + intros (-> & l & Hne & Hlen & Hl & -> & ->). rewrite <- E. by apply parse_from_ok.
  - intros o q [= <- <-]. destruct Hcases as [(l & -> & _)|Hr]; [left; by eexists|by right].
  - intros l Hne Hlen Hl ->. exists (denote <$> l). rewrite <- E. apply parse_from_ok; [done|done|].
    eapply Forall_impl; [exact Hl|apply usage_wf].
Qed.

(** Texts the usage text does not have. *)
Example accepts_more (p : proc K) :
  parseOps (str "0=0u") p = (Ret [Sembuf 0 0 SEM_UNDO], p) /\
  parseOps (str "0+1nn") p = (Ret [Sembuf 0 1 IPC_NOWAIT], p) /\
  ~ usage_form (Text (str "0") "=" (str "0") (str "u")) /\ ~ usage_form (Text (str "0") "+" (str "1") (str "nn")).
Proof.
  split_and!; [by vm_compute|by vm_compute|..].
  - intros [_ _ _ _ Hu]. apply (Hu eq_refl). by left.
  - intros [_ _ _ [_ Hl] _]. apply NoDup_cons in Hl as [Hn _]. apply Hn. by left.
Qed.

(** *** The texts of operations *)

Definition text_of (s : sembuf) : op_text :=
  Text (dec (sem_num s)) (if sem_op s <? 0 then "-"%char else if sem_op s =? 0 then "="%char else "+"%char) (dec (Z.abs (sem_op s)))
    (if sem_flg s =? 0 then [] else if sem_flg s =? IPC_NOWAIT then str "n" else if sem_flg s =? SEM_UNDO then str "u" else str "nu").

Definition fits (s : sembuf) : Prop :=
  0 <= sem_num s < 2 ^ 16 /\ - 2 ^ 15 < sem_op s < 2 ^ 15 /\ sem_flg s ∈ [0; IPC_NOWAIT; SEM_UNDO; Z.lor IPC_NOWAIT SEM_UNDO].

Lemma dec_is_digits z : 0 <= z -> digits (dec z) /\ digits_val 10 (dec z) = z.
Proof.
  intros Hz. unfold dec. rewrite (proj2 (Z.ltb_ge z 0)) by done. split; [split; [apply dec_nat_nonempty|by apply dec_nat_chars]|by apply dec_nat_val].
Qed.

Lemma text_of_ok s : fits s -> wf (text_of s) /\ denote (text_of s) = s.
Proof.
  destruct s as [n op f]. intros (Hn & Hop & Hf). cbn [sem_num sem_op sem_flg] in *.
  destruct (dec_is_digits n) as [Hdn Hvn]; [lia|]. destruct (dec_is_digits (Z.abs op)) as [Hdo Hvo]; [lia|].
  assert (number (dec n) = n /\ number (dec (Z.abs op)) = Z.abs op) as [En Eo] by (unfold number, LONG_MAX; lia).
  assert (s16 (Z.abs op) = Z.abs op) as Es by (apply wrap_s_id; [done|]; unfold in_s; lia).
  assert (s16 (- Z.abs op) = - Z.abs op) as Es' by (apply wrap_s_id; [done|]; unfold in_s; lia).
  assert (Forall letter (letters (text_of (Sembuf n op f))) /\ flags_of (letters (text_of (Sembuf n op f))) = f) as [Hl Ef].
  { cbn. repeat (apply elem_of_cons in Hf as [->|Hf]); [..|by apply elem_of_nil in Hf]; cbn; (split; [|done]);
      repeat constructor; (by left) || by right. }
  split; [split; cbn [text_of num_digits sign val_digits letters sem_num sem_op]; try done|].
  - destruct (op <? 0); [set_solver|]. destruct (op =? 0); set_solver.
  - destruct (Z.ltb_spec op 0); [done|]. destruct (Z.eqb_spec op 0) as [->|]; [|done]. by rewrite Eo.
  - unfold denote. rewrite Ef. cbn [text_of num_digits sign val_digits sem_num sem_op]. rewrite En, Eo, Es. f_equal.
    + by apply wrap_u_id.
    + destruct (Z.ltb_spec op 0); [cbn; rewrite Es'; lia|]. destruct (Z.eqb_spec op 0) as [->|]; [done|]. cbn. lia.
Qed.

(** What is printed is read back. *)
Lemma parseOps_show ops (p : proc K) : ops <> [] -> (length ops <= MAX_SEMOPS)%nat -> Forall fits ops ->
  parseOps (show_ops (text_of <$> ops)) p = (Ret ops, p).
Proof.
  intros Hne Hlen Hops. replace ops with (denote <$> (text_of <$> ops)) at 2.
  - apply parse_from_ok; [by destruct ops|by rewrite length_fmap|]. apply Forall_fmap. eapply Forall_impl; [exact Hops|].
    intros s Hs. by apply text_of_ok.
  - clear Hne Hlen. induction Hops as [|s ops Hs _ IH]; [done|]. rewrite !fmap_cons. f_equal; [by apply text_of_ok|exact IH].
Qed.
End Parser.

(** ** Performing the operations of the arguments *)

Section Perform.
Context `{!Messages} {K : Type} `{!SemCalls K}.

(** The calls for groups of operations, up to the first that fails. *)
Fixpoint perform (semid : Z) (groups : list (list sembuf)) (k : K) : bool * K :=
  match groups with
  | [] => (true, k)
  | ops :: groups' =>
      match k_semop semid ops k with
      | (inl r, k') => if r =? -1 then (false, k') else perform semid groups' k'
      | (inr _, k') => (false, k')
      end
  end.

Definition performed (ok : bool) (o : outcome unit) (k : K) (q : proc K) : Prop :=
  kern q = k /\ if ok then o = Ret tt else stopped o.

Lemma wp_progress what arg (p : proc K) (Q : outcome unit -> proc K -> Prop) :
  (forall l, Q (Ret tt) (Proc (kern p) (errno p) (trace p ++ [Out l]))) -> wp (progress_line what arg) p Q.
Proof. intros HQ. apply HQ. Qed.

Lemma wp_semop_or_exit semid ops (p : proc K) (Q : outcome unit -> proc K -> Prop) :
  (forall ok o q, perform semid [ops] (kern p) = (ok, kern q) -> (if ok then o = Ret tt else stopped o) -> Q o q) ->
  wp (semop_or_exit semid ops) p Q.
Proof.
  intros HQ. apply wp_bind, wp_syscall. cbn [perform] in HQ. destruct (k_semop semid ops (kern p)) as [[r|e] k'].
  - destruct (r =? -1); [|apply wp_ret; by apply (HQ true)].
    apply wp_bind, wp_errExit. intros o m Ho. by apply (HQ false).
  - apply wp_bind, wp_errExit. intros o m Ho. by apply (HQ false).
Qed.

Lemma perform_args_ok id groups (p : proc K) :
  INT_MIN <= id <= INT_MAX -> Forall (fun ops => ops <> [] /\ (length ops <= MAX_SEMOPS)%nat /\ Forall fits ops) groups ->
  wp (perform_args (dec id) ((fun ops => show_ops (text_of <$> ops)) <$> groups)) p
     (fun o q => performed (perform id groups (kern p)).1 o (perform id groups (kern p)).2 q).
Proof.
  intros Hid Hg. revert p. induction Hg as [|ops groups (Hne & Hlen & Hops) _ IH]; intros p; [done|].
  rewrite fmap_cons. cbn [perform_args]. apply wp_bind. unfold wp. rewrite parseOps_show by done. cbn [fst snd].
  apply wp_bind, wp_progress. intros l1.
  apply wp_bind. unfold wp.
  assert (forall q : proc K, getInt (Some (dec id)) 0 (Some (str "semid")) q = (Ret id, Proc (kern q) 0 (trace q))) as Hget.
  { intros q. rewrite <- (app_nil_r (dec id)).
    apply (getInt_decimal id [] (Some (str "semid")) q); [unfold LONG_MIN, LONG_MAX, INT_MIN, INT_MAX in *; lia|by intros []%elem_of_nil|done|done]. }
  rewrite Hget. cbn [fst snd kern trace]. 
  apply wp_bind, wp_semop_or_exit. cbn [kern perform]. intros ok o q Hone Ho.
  destruct (k_semop id ops (kern p)) as [[r|e] k']; [destruct (r =? -1)|]; injection Hone as <- ->; try (by destruct Ho as [-> | ->]; (split; [done|by (left + right)])).
  rewrite Ho. apply wp_bind, wp_progress. intros l2. apply (IH (Proc (kern q) _ _)).
Qed.

(** [svsem_op] performs the operations of each argument in one [semop] call, argument after
    argument, and ends with status 0 when all succeeded; it stops after the first call that fails.
    The operations are those the argument spells: any list of at most 1000 operations whose numbers
    fit [struct sembuf] can be given. *)
Theorem svsem_op_performs prog id groups (p : proc K) :
  0 <= id <= INT_MAX -> Forall (fun ops => ops <> [] /\ (length ops <= MAX_SEMOPS)%nat /\ Forall fits ops) groups ->
  let '(o, q) := svsem_op_main (prog :: dec id :: ((fun ops => show_ops (text_of <$> ops)) <$> groups)) p in
  let '(ok, k) := perform id groups (kern p) in
  kern q = k /\ if ok then o = Exit EXIT_SUCCESS else stopped o.
Proof.
  intros Hid Hg.
  enough (wp (svsem_op_main (prog :: dec id :: ((fun ops => show_ops (text_of <$> ops)) <$> groups))) p
    (fun o q => kern q = (perform id groups (kern p)).2 /\ if (perform id groups (kern p)).1 then o = Exit EXIT_SUCCESS else stopped o)) as Hwp.
  { unfold wp in Hwp. destruct (svsem_op_main _ p) as [o q], (perform id groups (kern p)) as [ok k]. exact Hwp. }
  unfold svsem_op_main. apply wp_bind.
  destruct (Z.eqb_spec (strcmp (dec id) (str "--help")) 0) as [E|_].
  { exfalso. apply strcmp_eq in E; [|apply dec_c_string|by_decide]. pose proof (dec_is_digits id) as [[_ Hd] _]; [lia|]. rewrite E in Hd. by inversion Hd. }
  apply wp_ret, wp_bind. eapply wp_mono; [apply perform_args_ok; [unfold INT_MIN; lia|done]|].
  intros o q [Hk Ho]. destruct (perform id groups (kern p)) as [ok k]. cbn [fst snd] in *. destruct ok; [by rewrite Ho; split|].
  destruct Ho as [-> | ->]; (split; [done|by (left + right)]).
Qed.
End Perform.

(** ** event_flags.c *)

Section EventFlags.
Context {K : Type} `{!SemCalls K}.

(** [while (semop(...) == -1) if (errno != EINTR) return -1; return 0;] *)
Fixpoint waitForEventFlag (fuel : nat) (semId semNum : Z) : M (proc K) Z :=
  match fuel with
  | O => fun p => (NoFuel, p)
  | S fuel' =>
      r ← syscall (-1) (k_semop semId [Sembuf (u16 semNum) 0 0]);
      if r =? -1 then
        e ← get_errno;
        if negb (e =? EINTR) then mret (-1) else waitForEventFlag fuel' semId semNum
      else mret 0
  end.

Definition clearEventFlag (semId semNum : Z) : M (proc K) Z := syscall (-1) (k_setval semId semNum 1).
Definition setEventFlag (semId semNum : Z) : M (proc K) Z := syscall (-1) (k_setval semId semNum 0).

(** [None]: [*isSet] is not written. *)
Definition getFlagState (semId semNum : Z) : M (proc K) (Z * option bool) :=
  sem_val ← syscall (-1) (k_getval semId semNum);
  if sem_val =? -1 then mret (-1, None) else mret (0, Some (sem_val =? 0)).
End EventFlags.

(** What System V semaphores promise to them: [semval] is the value of a semaphore; [sem_delays]
    counts the signals that will still interrupt a wait. *)
Class SemLaws (K : Type) `{!SemCalls K} := {
  semval : K -> Z -> Z -> Z;
  sem_delays : K -> nat;
  semop_zero : forall id n k r k', k_semop id [Sembuf n 0 0] k = (inl r, k') -> r = 0 /\ semval k' id n = 0;
  semop_delay : forall id ops k k', k_semop id ops k = (inr EINTR, k') -> (sem_delays k' < sem_delays k)%nat;
  setval_sets : forall id n v k r k', k_setval id n v k = (inl r, k') ->
    r = 0 /\ forall id' n', semval k' id' n' = if decide (id' = id /\ n' = n) then v else semval k id' n';
  setval_fails : forall id n v k e k', k_setval id n v k = (inr e, k') -> semval k' = semval k;
  getval_gets : forall id n k r k', k_getval id n k = (inl r, k') -> r = semval k id n /\ 0 <= r /\ semval k' = semval k;
  getval_fails : forall id n k e k', k_getval id n k = (inr e, k') -> semval k' = semval k
}.

Section EventFlagLaws.
Context {K : Type} `{!SemCalls K, !SemLaws K}.

(** The abstract flags: which are set. *)
Definition flag_set (k : K) (id n : Z) : Prop := semval k id n = 0.

Lemma waitForEventFlag_run fuel id n (p : proc K) : 0 <= n < 2 ^ 16 -> (sem_delays (kern p) < fuel)%nat ->
  wp (waitForEventFlag fuel id n) p (fun o q =>
    (o = Ret 0 /\ flag_set (kern q) id n) \/ (o = Ret (-1) /\ errno q <> EINTR)).
Proof.
  intros Hn. assert (u16 n = n) as Hu by (by apply wrap_u_id).
  revert p. induction fuel as [|fuel IH]; intros p Hfuel; [lia|]. cbn [waitForEventFlag]. rewrite Hu.
  apply wp_bind, wp_syscall. destruct (k_semop id [Sembuf n 0 0] (kern p)) as [[r|e] k'] eqn:E.
  - apply semop_zero in E as [-> Hz]. apply wp_ret. by left.
  - apply wp_bind, wp_get_errno. cbn [errno]. destruct (Z.eqb_spec e EINTR) as [->|He]; cbn [negb].
    + apply semop_delay in E. apply IH. cbn [kern]. lia.
    + apply wp_ret. by right.
Qed.

(** C31: event flags over System V semaphores behave as flags.  A wait that succeeds ends with the
    flag set, any number of signals notwithstanding, and otherwise it reports an error that is not
    an interruption; setting and clearing a flag do that to this flag and to no other;
    the state read is whether the flag is set, and reading changes no flag. *)
Theorem event_flags_refine id n (p : proc K) : 0 <= n < 2 ^ 16 ->
  (forall fuel, (sem_delays (kern p) < fuel)%nat ->
     exists r q, waitForEventFlag fuel id n p = (Ret r, q) /\ (r = 0 /\ flag_set (kern q) id n \/ r = -1 /\ errno q <> EINTR)) /\
  (exists r q, setEventFlag id n p = (Ret r, q) /\
     forall id' n', flag_set (kern q) id' n' <-> (r = 0 /\ id' = id /\ n' = n) \/ flag_set (kern p) id' n') /\
  (exists r q, clearEventFlag id n p = (Ret r, q) /\
     forall id' n', flag_set (kern q) id' n' <-> ~ (r = 0 /\ id' = id /\ n' = n) /\ flag_set (kern p) id' n') /\
  (exists r q, getFlagState id n p = (r, q) /\ semval (kern q) = semval (kern p) /\
     (r = Ret (-1, None) \/ exists b, r = Ret (0, Some b) /\ (b = true <-> flag_set (kern p) id n))).
Proof.
  intros Hn. split_and!.
  - intros fuel Hf. pose proof (waitForEventFlag_run fuel id n p Hn Hf) as Hwp. unfold wp in Hwp.
    destruct (waitForEventFlag fuel id n p) as [o q]. cbn [fst snd] in Hwp. destruct Hwp as [[-> ?]|[-> ?]]; eexists _, q; eauto.
  - unfold setEventFlag, syscall. destruct (k_setval id n 0 (kern p)) as [[r|e] k'] eqn:E.
    + apply setval_sets in E as [-> Hset]. do 2 eexists. split; [done|]. intros id' n'. unfold flag_set. cbn [kern]. rewrite Hset. case_decide; naive_solver.
    + apply setval_fails in E. do 2 eexists. split; [done|]. intros id' n'. unfold flag_set. cbn [kern]. rewrite E. naive_solver lia.
  - unfold clearEventFlag, syscall. destruct (k_setval id n 1 (kern p)) as [[r|e] k'] eqn:E.
    + apply setval_sets in E as [-> Hset]. do 2 eexists. split; [done|]. intros id' n'. unfold flag_set. cbn [kern]. rewrite Hset. case_decide; naive_solver.
    + apply setval_fails in E. do 2 eexists. split; [done|]. intros id' n'. unfold flag_set. cbn [kern]. rewrite E. naive_solver lia.
  - unfold getFlagState. unfold mbind, M_bind, syscall. destruct (k_getval id n (kern p)) as [[r|e] k'] eqn:E.
    + apply getval_gets in E as (-> & Hr & Hk). destruct (Z.eqb_spec (semval (kern p) id n) (-1)); [lia|].
      do 2 eexists. split; [done|]. split; [exact Hk|]. right. eexists. split; [done|]. by rewrite Z.eqb_eq.
    + apply getval_fails in E. do 2 eexists. split; [done|]. split; [exact E|]. by left.
Qed.
End EventFlagLaws.

(** ** A kernel *)

(** Values, and a number of signals to come; a wait for zero ends when somebody sets the value. *)
Record sems := Sems { values : Z -> Z -> Z; signals : nat }.

Definition set_value (id n v : Z) (k : sems) : sems :=
  Sems (fun id' n' => if decide (id' = id /\ n' = n) then v else values k id' n') (signals k).

Fixpoint sems_ops (id : Z) (ops : list sembuf) (k : sems) : (Z + Z) * sems :=
  match ops with
  | [] => (inl 0, k)
  | Sembuf n op _ :: ops' =>
      let v := if op =? 0 then 0 else values k id n + op in
      if v <? 0 then (inr EAGAIN, k)
      else match sems_ops id ops' (set_value id n v k) with (inr e, _) => (inr e, k) | r => r end
  end.

Definition sems_semop (id : Z) (ops : list sembuf) (k : sems) : (Z + Z) * sems :=
  match signals k with
  | O => sems_ops id ops k
  | S n => (inr EINTR, Sems (values k) n)
  end.

#[export] Instance sems_calls : SemCalls sems := {
  k_semop := sems_semop;
  k_setval id n v k := if v <? 0 then (inr ERANGE, k) else (inl 0, set_value id n v k);
  k_getval id n k := if values k id n <? 0 then (inr EINVAL, k) else (inl (values k id n), k);
  k_getpid _ := 100;
  k_currTime _ := str "12:00:00"
}.

Lemma sems_ops_no_signal id ops k e k' : sems_ops id ops k = (inr e, k') -> e = EAGAIN.
Proof.
  revert k k'. induction ops as [|[n op f] ops IH]; intros k k'; cbn; [done|]. destruct (_ <? 0); [by intros [= <- _]|].
  destruct (sems_ops id ops _) as [[r|e'] k2] eqn:E; [done|]. intros [= <- _]. by eapply IH.
Qed.

#[export] Instance sems_laws : SemLaws sems.
Proof.
  refine {| semval := values; sem_delays := signals |}.
  - intros id n k r k'. cbn. unfold sems_semop. destruct (signals k); [|done]. cbn. intros [= <- <-].
    split; [done|]. cbn. by rewrite decide_True.
  - intros id ops k k'. cbn. unfold sems_semop. destruct (signals k) as [|s]; [|intros [= <-]; cbn; lia].
    by intros E%sems_ops_no_signal.
  - intros id n v k r k'. cbn. destruct (v <? 0); [done|]. intros [= <- <-]. by split.
  - intros id n v k e k'. cbn. destruct (v <? 0); [|done]. by intros [= _ <-].
  - intros id n k r k'. cbn. destruct (Z.ltb_spec (values k id n) 0); [done|]. by intros [= <- <-].
  - intros id n k e k'. cbn. destruct (values k id n <? 0); [|done]. by intros [= _ <-].
Defined.

Lemma event_flags_refine_witness :
  exists r q, waitForEventFlag 4 1 2 (Proc (Sems (fun _ _ => 1) 3) 0 []) = (Ret r, q) /\ r = 0 /\ flag_set (kern q) 1 2.
Proof.
  destruct (event_flags_refine 1 2 (Proc (Sems (fun _ _ => 1) 3) 0 [])) as [Hwait _]; [lia|].
  destruct (Hwait 4%nat) as (r & q & Hrun & Hr); [cbn; lia|]. exists r, q. split; [exact Hrun|].
  destruct Hr as [Hr|[-> _]]; [exact Hr|]. vm_compute in Hrun. congruence.
Defined.

#[local] Instance op_messages : Messages := Build_Messages (fun _ => []) 0 (fun _ => []) None.

Lemma svsem_op_performs_witness :
  let '(o, q) := svsem_op_main [str "svsem_op"; str "7"; str "0+2,1=0n"; str "0-1u"] (Proc (Sems (fun _ _ => 0) 0) 0 []) in
  o = Exit EXIT_SUCCESS /\ values (kern q) 7 0 = 1.
Proof.
  pose proof (svsem_op_performs (str "svsem_op") 7 [[Sembuf 0 2 0; Sembuf 1 0 IPC_NOWAIT]; [Sembuf 0 (-1) SEM_UNDO]]
    (Proc (Sems (fun _ _ => 0) 0) 0 [])) as Hrun.
  change (str "svsem_op" :: dec 7 :: _) with [str "svsem_op"; str "7"; str "0+2,1=0n"; str "0-1u"] in Hrun.
  destruct (svsem_op_main _ _) as [o q]. destruct Hrun as [Hk Ho].
  - unfold INT_MAX. lia.
  - repeat constructor; cbn; try lia; try discriminate; set_solver.
  - split; [exact Ho|]. rewrite Hk. reflexivity.
Defined.

(** The numbers are narrowed without a check: the number after semaphore 65535 is semaphore 0, and
    a value that does not fit is taken for 0. *)
Example narrowed_silently `{!Messages} (p : proc unit) : parseOps (str "65536=65536") p = (Ret [Sembuf 0 0 0], p).
Proof. vm_compute. done. Qed.
