(* ===== verification/Reaper.v ===== *)
(** * A handler that reaps children

    print_wait_status.c and multi_SIGCHLD.c (tlpi-dist/procexec).  The second starts a child for each
    of its arguments and waits in [sigsuspend]; a SIGCHLD, which is not queued while its
    handler runs, makes the handler reap every child that has ended by then.  The processes
    interleave on the scheduler of Threads.v, at the level of single calls, and the signal is a bit
    of the state of the parent.  What goes to the standard error is left out. *)

From Stdlib Require Import ZArith Lia String Ascii.
From S2P Require Import Prelude CString Kernel GetNum Pipes.
From S2P Require Threads.
Import Threads (sys, Sys, shared, threads, printed, ended, effect, Go, Create, Say, Wait, Stop, run_one, step, run, zsum).

Definition ECHILD : Z := 10.

(** ** print_wait_status.c

    The macros are those of Linux: the low 7 bits of a status are 0 after an exit, 127 for a
    stopped child, otherwise the number of the signal that killed it; bit 7 tells of a core dump; the
    next 8 bits are the exit status or the number of the signal that stopped it. *)

Definition WTERMSIG (status : Z) : Z := Z.land status 127.
Definition WEXITSTATUS (status : Z) : Z := Z.land (Z.shiftr status 8) 255.
Definition WSTOPSIG (status : Z) : Z := WEXITSTATUS status.
Definition WIFEXITED (status : Z) : bool := WTERMSIG status =? 0.
Definition WIFSIGNALED (status : Z) : bool := negb (WTERMSIG status =? 0) && negb (WTERMSIG status =? 127).
Definition WIFSTOPPED (status : Z) : bool := Z.land status 255 =? 127.
Definition WIFCONTINUED (status : Z) : bool := status =? 65535.
Definition WCOREDUMP (status : Z) : bool := negb (Z.land status 128 =? 0).

Section Status.
Context {K : Type} (strsignal : Z -> bytes).

Definition printWaitStatus (msg : option bytes) (status : Z) : M (Kernel.proc K) unit :=
  (if msg is Some m then printf m else mret tt) ;;
  if WIFEXITED status then printf (str "child exited, status=" ++ dec (WEXITSTATUS status) ++ [NL])
  else if WIFSIGNALED status then
    printf (str "child killed by signal " ++ dec (WTERMSIG status) ++ str " (" ++ strsignal (WTERMSIG status) ++ str ")") ;;
    (if WCOREDUMP status then printf (str " (core dumped)") else mret tt) ;;
    printf [NL]
  else if WIFSTOPPED status then
    printf (str "child stopped by signal " ++ dec (WSTOPSIG status) ++ str " (" ++ strsignal (WSTOPSIG status) ++ str ")" ++ [NL])
  else if WIFCONTINUED status then printf (str "child continued" ++ [NL])
  else printf (str "what happened to this child? (status=" ++ hex_number status ++ str ")" ++ [NL]).
End Status.

(** What can happen to a child, and the status [wait] reports for it. *)
Inductive change := ChExited (st : Z) | ChKilled (sig : Z) (core : bool) | ChStopped (sig : Z) | ChContinued.

Definition wait_status (c : change) : Z :=
  match c with
  | ChExited st => Z.shiftl (Z.land st 255) 8
  | ChKilled sig core => Z.lor sig (if core then 128 else 0)
  | ChStopped sig => Z.lor (Z.shiftl sig 8) 127
  | ChContinued => 65535
  end.

(** ** multi_SIGCHLD.c *)

Inductive parent_pc :=
| RAction | RMask | RFork (j : nat) | RLoop | RSuspend
| HCaught | HWait | HReaped (j : nat) (status : Z) | HStatus (status : Z) | HDec | HReturn
| RCount | RAll | REnd (f : fate).
Inductive child_pc := CSleep | CTell | CExit | CEnd (status : Z).
Inductive proc := Parent (p : parent_pc) | Child (j : nat) (c : child_pc).

(** The globals of the parent, and what the kernel keeps for it: whether a SIGCHLD is pending, and the
    children that have ended and were not waited for. *)
Record vars := Vars { pending : bool; zombies : list (nat * Z); numLiveChildren : Z; sigCnt : Z }.

Definition has_ended (t : proc) : bool := match t with Parent (REnd _) | Child _ (CEnd _) => true | _ => false end.

Definition sleep_of (arg : bytes) : option Z :=
  match (getInt (Some arg) GN_NONNEG (Some (str "child-sleep-time")) (Kernel.Proc tt 0 [])).1 with Ret v => Some v | _ => None end.

(** One of the elements, the [k]th if there are so many, and the others. *)
Definition pick {A} (k : nat) (l : list A) : option (A * list A) :=
  match l !! k, l with
  | Some x, _ => Some (x, delete k l)
  | None, x :: l' => Some (x, l')
  | None, [] => None
  end.

Section Program.
Context (argv : list bytes) (clock : nat -> bytes) (pid : nat -> Z).

(** The time of a line is that of the answer to its call. *)
Definition currTime (a : answer) : bytes := match a with Done k => clock k | Fails _ => clock 0 end.

Definition caught_line (t : bytes) : bytes := t ++ str " handler: Caught SIGCHLD" ++ [NL].
Definition reap_line (t : bytes) (j : nat) : bytes := t ++ str " handler: Reaped child " ++ dec (pid j) ++ str " - ".
Definition status_line (status : Z) : bytes := str "child exited, status=" ++ dec (WEXITSTATUS status) ++ [NL].
Definition returning_line (t : bytes) : bytes := t ++ str " handler: returning" ++ [NL].
Definition exiting_line (t : bytes) (j : nat) : bytes :=
  t ++ str " Child " ++ dec (Z.of_nat j) ++ str " (PID=" ++ dec (pid j) ++ str ") exiting" ++ [NL].
Definition all_line (t : bytes) (cnt : Z) : bytes :=
  t ++ str " All " ++ dec (Z.of_nat (length argv) - 1) ++ str " children have terminated; SIGCHLD was caught " ++ dec cnt ++ str " times" ++ [NL].

(** [sigsuspend] returns after the handler; the signal is blocked everywhere else. *)
Definition parent_exec (a : answer) (p : parent_pc) (g : vars) : effect vars proc :=
  let go p g := Go (Parent p) g in
  let check call k := match a with Done _ => k | Fails e => go (REnd (Failed e call)) g end in
  match p with
  | RAction => check "sigaction"%string (go RMask g)
  | RMask => check "sigprocmask"%string (go (RFork 1) g)
  | RFork j =>
      if (j <? length argv)%nat then check "fork"%string (Create (Parent (RFork (S j))) (Child j CSleep))
      else go RLoop g
  | RLoop => go (if 0 <? numLiveChildren g then RSuspend else RAll) g
  | RSuspend =>
      match a with
      | Fails e => if negb (e =? EINTR) then go (REnd (Failed e "sigsuspend")) g else Wait
      | Done _ => if pending g then go HCaught (Vars false (zombies g) (numLiveChildren g) (sigCnt g)) else Wait
      end
  | HCaught => Say (Parent HWait) (caught_line (currTime a))
  | HWait =>
      match a with
      | Done k =>
          match pick k (zombies g) with
          | Some ((j, status), rest) => go (HReaped j status) (Vars (pending g) rest (numLiveChildren g) (sigCnt g))
          | None => go HReturn g
          end
      | Fails _ => go HReturn g
      end
  | HReaped j status => Say (Parent (HStatus status)) (reap_line (currTime a) j)
  | HStatus status => Say (Parent HDec) (status_line status)
  | HDec => go HWait (Vars (pending g) (zombies g) (numLiveChildren g - 1) (sigCnt g))
  | HReturn => Say (Parent RCount) (returning_line (currTime a))
  | RCount => go RLoop (Vars (pending g) (zombies g) (numLiveChildren g) (sigCnt g + 1))
  | RAll => Say (Parent (REnd (Exited EXIT_SUCCESS))) (all_line (currTime a) (sigCnt g))
  | REnd _ => Wait
  end.

Definition child_exec (a : answer) (j : nat) (c : child_pc) (g : vars) : effect vars proc :=
  let die st :=
    let status := wait_status (ChExited st) in
    Go (Child j (CEnd status)) (Vars true (zombies g ++ [(j, status)]) (numLiveChildren g) (sigCnt g)) in
  match c with
  | CSleep =>
      match argv !! j with
      | Some arg => if sleep_of arg is Some _ then Go (Child j CTell) g else die EXIT_FAILURE
      | None => Stop Threads.Undefined
      end
  | CTell => Say (Child j CExit) (exiting_line (currTime a) j)
  | CExit => die EXIT_SUCCESS
  | CEnd _ => Wait
  end.

Definition exec (self : nat) (a : answer) (ts : list proc) (t : proc) (g : vars) : effect vars proc :=
  match t with
  | Parent p => parent_exec a p g
  | Child j c => child_exec a j c g
  end.

Definition start_state : sys vars proc :=
  Sys (Vars false [] (Z.of_nat (length argv) - 1) 0) [Parent RAction] [] None.
End Program.

(** ** What printWaitStatus says *)

Section Describe.
Context {K : Type} (strsignal : Z -> bytes).

Definition valid_change (c : change) : Prop :=
  match c with ChExited _ | ChContinued => True | ChKilled sig _ | ChStopped sig => 1 <= sig <= 64 end.

Definition change_text (c : change) : bytes :=
  match c with
  | ChExited st => str "child exited, status=" ++ dec (st mod 256)
  | ChKilled sig core => str "child killed by signal " ++ dec sig ++ str " (" ++ strsignal sig ++ str ")" ++ (if core then str " (core dumped)" else [])
  | ChStopped sig => str "child stopped by signal " ++ dec sig ++ str " (" ++ strsignal sig ++ str ")"
  | ChContinued => str "child continued"
  end.

(** All numbers from 0 to 255 pass a test that all of them pass. *)
Lemma bytes_ind (P : Z -> bool) : forallb P (Z.of_nat <$> seq 0 256) = true -> forall z, 0 <= z < 256 -> P z = true.
Proof.
  rewrite forallb_forall. intros H z Hz. apply H, list_elem_of_In, list_elem_of_fmap. exists (Z.to_nat z).
  split; [lia|]. apply elem_of_seq. lia.
Qed.

Lemma wait_status_exited st :
  WIFEXITED (wait_status (ChExited st)) = true /\ WEXITSTATUS (wait_status (ChExited st)) = st mod 256.
Proof.
  assert (Z.land st 255 = st mod 256) as E by exact (Z.land_ones st 8 ltac:(lia)). cbn [wait_status]. rewrite E.
  pose proof (bytes_ind (fun z => WIFEXITED (Z.shiftl z 8) && (WEXITSTATUS (Z.shiftl z 8) =? z)) ltac:(vm_compute; done) (st mod 256)) as H.
  apply andb_true_iff in H as [H1 H2%Z.eqb_eq]; [done|]. apply Z.mod_pos_bound. lia.
Qed.

Lemma wait_status_killed sig core : 1 <= sig <= 64 ->
  let s := wait_status (ChKilled sig core) in
  WIFEXITED s = false /\ WIFSIGNALED s = true /\ WTERMSIG s = sig /\ WCOREDUMP s = core.
Proof.
  intros Hs. pose proof (bytes_ind (fun z => (z <? 1) || (64 <? z) ||
    forallb (fun c => let s := wait_status (ChKilled z c) in
       negb (WIFEXITED s) && WIFSIGNALED s && (WTERMSIG s =? z) && Bool.eqb (WCOREDUMP s) c) [true; false]) ltac:(vm_compute; done) sig ltac:(lia)) as H. cbv beta zeta in H.
  rewrite (proj2 (Z.ltb_ge sig 1)), (proj2 (Z.ltb_ge 64 sig)) in H by lia. cbn [orb forallb] in H.
  rewrite !andb_true_iff in H. destruct H as (H1 & H2 & _).
  destruct core; [destruct H1 as [[[Ha Hb] Hc] Hd]|destruct H2 as [[[Ha Hb] Hc] Hd]];
    apply negb_true_iff in Ha; apply Z.eqb_eq in Hc; apply eqb_prop in Hd; by split_and!.
Qed.

Lemma wait_status_stopped sig : 1 <= sig <= 64 ->
  let s := wait_status (ChStopped sig) in
  WIFEXITED s = false /\ WIFSIGNALED s = false /\ WIFSTOPPED s = true /\ WSTOPSIG s = sig.
Proof.
  intros Hs. pose proof (bytes_ind (fun z => let s := wait_status (ChStopped z) in
    negb (WIFEXITED s) && negb (WIFSIGNALED s) && WIFSTOPPED s && (WSTOPSIG s =? z)) ltac:(vm_compute; done) sig ltac:(lia)) as H. cbv beta zeta in H.
  rewrite !andb_true_iff, !negb_true_iff, Z.eqb_eq in H. naive_solver.
Qed.

(** for every change of a child that [wait] can report, [printWaitStatus] prints the message, then
    one line that names the kind of the change with its exit status or signal. *)
Theorem printWaitStatus_describes msg c (p : Kernel.proc K) : valid_change c ->
  exists pieces, printWaitStatus strsignal msg (wait_status c) p = (Ret tt, Kernel.Proc (kern p) (errno p) (trace p ++ (Out <$> pieces))) /\
    concat pieces = default [] msg ++ change_text c ++ [NL].
Proof.
  intros Hc. set (first := match msg with Some m => [m] | None => [] end).
  enough (exists pieces, concat pieces = change_text c ++ [NL] /\ forall q : Kernel.proc K,
    printWaitStatus strsignal None (wait_status c) q = (Ret tt, Kernel.Proc (kern q) (errno q) (trace q ++ (Out <$> pieces)))) as (pieces & Hcat & Hrun).
  { exists (first ++ pieces). split.
    - specialize (Hrun (Kernel.Proc (kern p) (errno p) (trace p ++ (Out <$> first)))).
      cbn [kern errno trace] in Hrun. rewrite <- app_assoc, <- fmap_app in Hrun. rewrite <- Hrun. unfold first. destruct msg; [done|].
      cbn [fmap list_fmap]. rewrite app_nil_r. by destruct p.
    - rewrite concat_app, Hcat. unfold first. destruct msg; cbn; [by rewrite app_nil_r|done]. }
  destruct c as [st|sig core|sig|]; cbn [valid_change change_text] in *.
  - destruct (wait_status_exited st) as [H1 H2]. eexists [_]. split; [|intros q; unfold printWaitStatus; rewrite H1, H2; reflexivity].
    cbn. rewrite app_nil_r. done.
  - destruct (wait_status_killed sig core Hc) as (H1 & H2 & H3 & H4). destruct core.
    + exists [str "child killed by signal " ++ dec sig ++ str " (" ++ strsignal sig ++ str ")"; str " (core dumped)"; [NL]].
      split; [cbn -[str dec]; by rewrite <- !app_assoc|]. intros [k e t]. unfold printWaitStatus. rewrite H1, H2, H3, H4.
      change (Out <$> [?a; ?b; ?c]) with ([Out a] ++ [Out b] ++ [Out c]). rewrite !app_assoc. reflexivity.
    + exists [str "child killed by signal " ++ dec sig ++ str " (" ++ strsignal sig ++ str ")"; [NL]].
      split; [cbn -[str dec]; by rewrite <- !app_assoc|]. intros [k e t]. unfold printWaitStatus. rewrite H1, H2, H3, H4.
      change (Out <$> [?a; ?b]) with ([Out a] ++ [Out b]). rewrite !app_assoc. reflexivity.
  - destruct (wait_status_stopped sig Hc) as (H1 & H2 & H3 & H4). eexists [_].
    split; [|intros q; unfold printWaitStatus; rewrite H1, H2, H3, H4; reflexivity]. cbn -[str dec]. rewrite <- !app_assoc. done.
  - eexists [_]. split; [|intros q; reflexivity]. done.
Qed.
End Describe.

(** The second half of a line of the handler is what [printWaitStatus] prints. *)
Lemma status_line_printed {K} (strsignal : Z -> bytes) st (q : Kernel.proc K) :
  printWaitStatus strsignal None (wait_status (ChExited st)) q = printf (status_line (wait_status (ChExited st))) q.
Proof. unfold printWaitStatus. rewrite (proj1 (wait_status_exited st)). reflexivity. Qed.

(** ** The handler and the loop *)

Section Correct.
Context (prog : bytes) (args : list bytes) (clock : nat -> bytes) (pid : nat -> Z).
Let n : nat := length args.
Let ex := exec (prog :: args) clock pid.

(** No call fails. *)
Definition full (a : answer) : Prop := match a with Done _ => True | Fails _ => False end.
Definition allowed (strict : bool) : answer -> Prop := if strict then full else fun _ => True.

Definition made (p : parent_pc) (k : nat) : Prop :=
  match p with
  | RAction | RMask => k = 0%nat
  | RFork j => j = S k /\ (k <= n)%nat
  | REnd (Exited st) => k = n /\ st = 0
  | REnd _ => (k <= n)%nat
  | _ => k = n
  end.
Definition children (cs : list child_pc) : list proc := imap (fun i c => Child (S i) c) cs.

Definition dead (c : child_pc) : Z := match c with CEnd _ => 1 | _ => 0 end.
(** A child was reaped that is still counted; the handler runs; it still looks for children. *)
Definition owed (p : parent_pc) : Z := match p with HReaped _ _ | HStatus _ | HDec => 1 | _ => 0 end.
Definition handling (p : parent_pc) : Z := match p with HCaught | HWait | HReaped _ _ | HStatus _ | HDec | HReturn | RCount => 1 | _ => 0 end.
Definition draining (p : parent_pc) : bool := match p with HCaught | HWait | HReaped _ _ | HStatus _ | HDec => true | _ => false end.
Definition finished (p : parent_pc) : Prop := p = RAll \/ p = REnd (Exited EXIT_SUCCESS).

Record facts (strict : bool) (p : parent_pc) (cs : list child_pc) (g : vars) (out : list bytes) : Prop := {
  f_made : made p (length cs);
  f_count : numLiveChildren g = Z.of_nat n - zsum dead cs + Z.of_nat (length (zombies g)) + owed p;
  f_sigs : 0 <= sigCnt g /\ sigCnt g + handling p + (if pending g then 1 else 0) <= zsum dead cs /\
           (numLiveChildren g < Z.of_nat n + owed p -> 1 <= sigCnt g + handling p);
  f_zombies : forall j st, (j, st) ∈ zombies g -> exists i, j = S i /\ cs !! i = Some (CEnd st);
  f_told : forall i st, cs !! i = Some (CEnd st) ->
    S i ∈ (zombies g).*1 \/ p = HReaped (S i) st \/ exists t, reap_line pid t (S i) ∈ out;
  f_pending : strict = true -> draining p = false -> zombies g <> [] -> pending g = true;
  f_suspended : p = RSuspend -> 0 < numLiveChildren g;
  f_finished : finished p -> numLiveChildren g <= 0;
  f_last : p = REnd (Exited EXIT_SUCCESS) -> exists t, last out = Some (all_line (prog :: args) t (sigCnt g));
  f_fine : strict = true -> forall f, p = REnd f -> f = Exited EXIT_SUCCESS
}.

Definition inv (strict : bool) (s : sys vars proc) : Prop :=
  exists p cs, threads s = Parent p :: children cs /\ ended s = None /\ facts strict p cs (shared s) (printed s).

Lemma reap_children_lookup cs i c : cs !! i = Some c -> children cs !! i = Some (Child (S i) c).
Proof. intros H. unfold children. by rewrite list_lookup_imap, H. Qed.

Lemma reap_children_lookup_Some cs i t : children cs !! i = Some t -> exists c, t = Child (S i) c /\ cs !! i = Some c.
Proof. unfold children. intros (c & Hc & ->)%list_lookup_imap_Some. eauto. Qed.

Lemma reap_children_insert cs i c : <[i := Child (S i) c]> (children cs) = children (<[i := c]> cs).
Proof. 
  unfold children. apply list_eq. intros k. destruct (decide (i < length cs)%nat) as [Hi|Hi].
  - rewrite list_lookup_imap. destruct (decide (k = i)) as [->|Hne].
    + rewrite !list_lookup_insert_eq by (rewrite ?length_imap; done). done.
    + rewrite !list_lookup_insert_ne, list_lookup_imap by done. done.
  - rewrite !list_insert_ge by (rewrite ?length_imap; lia). done.
Qed.

Lemma reap_children_snoc cs c : children (cs ++ [c]) = children cs ++ [Child (S (length cs)) c].
Proof. unfold children. rewrite imap_app. cbn. by rewrite Nat.add_0_r. Qed.

Lemma dead_bounds cs : 0 <= zsum dead cs <= Z.of_nat (length cs).
Proof.
  split; [apply Threads.zsum_nonneg; by intros []|].
  pose proof (Threads.zsum_le dead cs 1) as H. rewrite Z.mul_1_l in H. apply H, Forall_true. by intros [].
Qed.

Lemma made_le p k : made p k -> (k <= n)%nat.
Proof. destruct p as [| | | | | | | | | | | | |[]]; cbn; lia. Qed.

(** A step of the parent that reaps nothing and prints nothing of importance. *)
Lemma reap_parent_goes strict p p' cs g g' out new :
  facts strict p cs g out -> made p' (length cs) ->
  zombies g' = zombies g -> numLiveChildren g' - owed p' = numLiveChildren g - owed p ->
  0 <= sigCnt g' -> sigCnt g' + handling p' + (if pending g' then 1 else 0) <= sigCnt g + handling p + (if pending g then 1 else 0) ->
  sigCnt g + handling p <= sigCnt g' + handling p' ->
  (forall j st, p = HReaped j st -> exists t, new = [reap_line pid t j]) -> (forall j st, p' <> HReaped j st) ->
  (strict = true -> draining p' = false -> zombies g <> [] -> draining p = false /\ (pending g = true -> pending g' = true)) ->
  (p' = RSuspend -> 0 < numLiveChildren g') -> (finished p' -> numLiveChildren g' <= 0) ->
  (p' = REnd (Exited EXIT_SUCCESS) -> exists t, new = [all_line (prog :: args) t (sigCnt g')]) ->
  (strict = true -> forall f, p' = REnd f -> f = Exited EXIT_SUCCESS) ->
  facts strict p' cs g' (out ++ new).
Proof.
  intros [F1 F2 (F3 & F4 & F5) F6 F7 F8 FS F9 F10 F11] Hm Hz Hl H0 Hs Hs' Hr Hr' Hp HS Hf Ha He. split; try done.
  - rewrite Hz. lia.
  - split_and!; [done|lia|]. intros Hlt. assert (1 <= sigCnt g + handling p) by (apply F5; lia). lia.
  - by rewrite Hz.
  - intros i st Hi. rewrite Hz. destruct (F7 i st Hi) as [?|[Heq|[t Ht]]]; [by left|right; right..].
    + destruct (Hr _ _ Heq) as [t ->]. exists t. apply elem_of_app. right. by left.
    + exists t. apply elem_of_app. by left.
  - intros Hst Hd Hne. rewrite Hz in Hne. destruct (Hp Hst Hd Hne) as [Hd' Hpe]. apply Hpe. by apply F8.
  - intros Hq. destruct (Ha Hq) as [t ->]. exists t. by rewrite last_snoc.
Qed.

Lemma allowed_fails strict e : allowed strict (Fails e) -> strict = false.
Proof. by destruct strict. Qed.

Lemma pick_spec {A} k (l : list A) x rest : pick k l = Some (x, rest) -> l ≡ₚ x :: rest.
Proof.
  unfold pick. destruct (l !! k) as [y|] eqn:E.
  - intros [= <- <-]. by apply delete_Permutation.
  - destruct l; [done|]. by intros [= <- <-].
Qed.

Lemma pick_None {A} k (l : list A) : pick k l = None -> l = [].
Proof. unfold pick. destruct (l !! k); [done|]. by destruct l. Qed.

(** The handler reaps a child. *)
Lemma parent_reaps strict cs g out k j st rest :
  facts strict HWait cs g out -> pick k (zombies g) = Some ((j, st), rest) ->
  facts strict (HReaped j st) cs (Vars (pending g) rest (numLiveChildren g) (sigCnt g)) out.
Proof.
  intros [F1 F2 (F3 & F4 & F5) F6 F7 F8 FS F9 F10 F11] Hz%pick_spec. cbn in *. split; cbn [pending zombies numLiveChildren sigCnt owed handling draining made]; try done.
  - rewrite Hz in F2. cbn in F2. lia.
  - split_and!; try done. lia.
  - intros j' st' Hin. apply F6. rewrite Hz. by right.
  - intros i st' Hi. destruct (F7 i st' Hi) as [Hin|[?|Ht]]; [|done|by right; right].
    rewrite Hz in Hin. cbn in Hin. apply elem_of_cons in Hin as [<-|Hin]; [|by left]. right. left. f_equal.
    destruct (F6 (S i) st) as (i' & [= <-] & Hi'); [rewrite Hz; by left|]. congruence.
  - intros [?|?]; done.
Qed.

Lemma reap_parent_spawns strict cs g out :
  facts strict (RFork (S (length cs))) cs g out -> (length cs < n)%nat ->
  facts strict (RFork (S (S (length cs)))) (cs ++ [CSleep]) g out.
Proof.
  intros [F1 F2 (F3 & F4 & F5) F6 F7 F8 FS F9 F10 F11] Hn. split; try done.
  - cbn. rewrite length_app. cbn. lia.
  - rewrite Threads.zsum_app. cbn in *. lia.
  - split_and!; [done| |done]. rewrite Threads.zsum_app. cbn in *. lia.
  - intros j st (i & -> & Hi)%F6. exists i. split; [done|]. by apply lookup_app_l_Some.
  - intros i st [Hi|[_ Hi]]%lookup_app_Some; [destruct (F7 i st Hi) as [?|[?|?]]; [by left|done|by right; right]|].
    by apply list_lookup_singleton_Some in Hi as [_ ?].
  - by intros [?|?].
Qed.

(** Facts about the parent's position that need no more than its constructor. *)
Ltac by_pc := solve [done | cbn; lia | by intros [?|?] | by intros ? ? ?; discriminate].

Lemma reap_parent_step strict p cs g ts out a s' :
  ts = Parent p :: children cs -> facts strict p cs g out -> allowed strict a ->
  Threads.perform 0 (parent_exec (prog :: args) clock pid a p g) (Sys g ts out None) = Some s' -> inv strict s'.
Proof.
  intros Hts HF Ha Hp. pose proof (f_made _ _ _ _ _ HF) as Hm. pose proof (f_sigs _ _ _ _ _ HF) as (H0 & _ & _).
  assert (forall p' g' out', facts strict p' cs g' out' -> s' = Sys g' (<[0%nat := Parent p']> ts) out' None -> inv strict s') as Hinv.
  { intros p' g' out' HF' ->. exists p', cs. by rewrite Hts. }
  assert (forall e call, a = Fails e -> s' = Sys g (<[0%nat := Parent (REnd (Failed e call))]> ts) out None ->
    (forall j st, p <> HReaped j st) -> owed p = 0 -> handling p = 0 -> inv strict s') as Hfail.
  { intros e call -> -> Hnr Ho Hh. eapply Hinv; [|reflexivity]. rewrite <- (app_nil_r out). apply allowed_fails in Ha as ->.
    eapply reap_parent_goes; [exact HF|exact (made_le _ _ Hm)|done|cbn; lia|done|cbn; lia|cbn; lia|by intros j st ?%Hnr|done|done|done|by intros [?|?]|done|done]. }
  assert (forall p' g', s' = Sys g' (<[0%nat := Parent p']> ts) out None -> made p' (length cs) -> zombies g' = zombies g -> numLiveChildren g' - owed p' = numLiveChildren g - owed p ->
    0 <= sigCnt g' -> sigCnt g' + handling p' + (if pending g' then 1 else 0) <= sigCnt g + handling p + (if pending g then 1 else 0) ->
    sigCnt g + handling p <= sigCnt g' + handling p' -> (forall j st, p <> HReaped j st) -> (forall j st, p' <> HReaped j st) ->
    (strict = true -> draining p' = false -> zombies g <> [] -> draining p = false /\ (pending g = true -> pending g' = true)) ->
    (p' = RSuspend -> 0 < numLiveChildren g') -> (finished p' -> numLiveChildren g' <= 0) -> (forall f, p' <> REnd f) -> inv strict s') as Hgo.
  { intros p' g' Hs' ? ? ? ? ? ? Hnr ? ? ? ? Hne. eapply Hinv; [|exact Hs']. rewrite <- (app_nil_r out).
    eapply reap_parent_goes; [exact HF|done..| | | | | | |]; try done; [by intros j st ?%Hnr|by intros ?%Hne|by intros _ f ?%Hne]. }
  destruct p as [| |j| | | | |j st|st| | | | |f]; cbn [parent_exec] in Hp; try discriminate Hp.
  - destruct a as [k|e]; injection Hp as <-; [|by eapply Hfail]. eapply (Hgo RMask _ eq_refl); by_pc.
  - destruct a as [k|e]; injection Hp as <-; [|by eapply Hfail]. eapply (Hgo (RFork 1) _ eq_refl); [cbn in Hm |- *; rewrite Hm; split; lia|by_pc..].
  - destruct Hm as [-> Hm]. destruct (Nat.ltb_spec (S (length cs)) (length (prog :: args))) as [Hlt|Hge].
    + destruct a as [k|e]; injection Hp as <-; [|by eapply Hfail]. cbn in Hlt.
      exists (RFork (S (S (length cs)))), (cs ++ [CSleep]). cbn [threads ended shared printed]. split_and!; [by rewrite Hts, reap_children_snoc|done|].
      apply reap_parent_spawns; [done|unfold n; lia].
    + injection Hp as <-. cbn in Hge. eapply (Hgo RLoop _ eq_refl); [cbn; unfold n in *; lia|by_pc..].
  - destruct (Z.ltb_spec 0 (numLiveChildren g)); injection Hp as <-; [eapply (Hgo RSuspend _ eq_refl)|eapply (Hgo RAll _ eq_refl)]; by_pc.
  - destruct a as [k|e]; [|destruct (negb (e =? EINTR)); [injection Hp as <-; by eapply Hfail|done]].
    destruct (pending g) eqn:Ep; [|done]. injection Hp as <-. eapply (Hgo HCaught _ eq_refl); by_pc.
  - injection Hp as <-. eapply Hinv; [|reflexivity]. eapply (reap_parent_goes strict HCaught HWait); [exact HF|by_pc..].
  - assert (forall b, (b = true -> zombies g = []) -> s' = Sys g (<[0%nat := Parent HReturn]> ts) out None -> b = strict -> inv strict s') as Hret.
    { intros b Hz -> <-. eapply (Hgo HReturn _ eq_refl); try by_pc. intros Hs _ Hne. by destruct Hne, (Hz Hs). }
    destruct a as [k|e]; [|injection Hp as <-; by eapply (Hret false); [..|apply allowed_fails in Ha]].
    destruct (pick k (zombies g)) as [[[j st] rest]|] eqn:Ek; injection Hp as <-.
    + eapply Hinv; [|reflexivity]. by eapply parent_reaps.
    + apply pick_None in Ek. by eapply (Hret strict).
  - injection Hp as <-. eapply Hinv; [|reflexivity]. eapply (reap_parent_goes strict (HReaped j st) (HStatus st)); [exact HF|try by_pc..].
    intros j' st' [= <- _]. by eexists.
  - injection Hp as <-. eapply Hinv; [|reflexivity]. eapply (reap_parent_goes strict (HStatus st) HDec); [exact HF|by_pc..].
  - injection Hp as <-. eapply (Hgo HWait _ eq_refl); by_pc.
  - injection Hp as <-. eapply Hinv; [|reflexivity]. eapply (reap_parent_goes strict HReturn RCount); [exact HF|by_pc..].
  - injection Hp as <-. eapply (Hgo RLoop _ eq_refl); by_pc.
  - injection Hp as <-. eapply Hinv; [|reflexivity]. eapply (reap_parent_goes strict RAll); [exact HF|done..| | | | | |]; try done.
    + intros _. apply (f_finished _ _ _ _ _ HF). by left.
    + intros _. by eexists.
    + by intros _ f [= <-].
Qed.

Lemma reap_child_goes strict p cs g out i c c' new :
  facts strict p cs g out -> cs !! i = Some c -> dead c = 0 -> dead c' = 0 -> (p <> REnd (Exited EXIT_SUCCESS)) ->
  facts strict p (<[i := c']> cs) g (out ++ new).
Proof.
  intros [F1 F2 (F3 & F4 & F5) F6 F7 F8 FS F9 F10 F11] Hi Hc Hc' Hp. pose proof (Threads.zsum_insert dead cs i c c' Hi) as Hsum.
  pose proof (lookup_lt_Some _ _ _ Hi) as Hlt. split; try done.
  - by rewrite length_insert.
  - lia.
  - split_and!; try done. lia.
  - intros j st (k & -> & Hk)%F6. exists k. split; [done|]. destruct (decide (k = i)) as [->|Hne]; [|by rewrite list_lookup_insert_ne].
    assert (c = CEnd st) as -> by congruence. done.
  - intros k st [(<- & -> & _)|[Hne Hk]]%list_lookup_insert_Some; [done|]. destruct (F7 k st Hk) as [?|[?|[t Ht]]]; [by left|by right; left|right; right].
    exists t. apply elem_of_app. by left.
Qed.

(** While a child lives, the parent is not finished. *)
Lemma not_finished strict p cs g out i c :
  facts strict p cs g out -> cs !! i = Some c -> dead c = 0 -> ~ finished p.
Proof.
  intros HF Hi Hc Hfin. pose proof (f_finished _ _ _ _ _ HF Hfin) as Hle. rewrite (f_count _ _ _ _ _ HF) in Hle.
  pose proof (made_le _ _ (f_made _ _ _ _ _ HF)) as Hlen.
  pose proof (Threads.zsum_insert dead cs i c (CEnd 0) Hi) as Hsum. pose proof (dead_bounds (<[i:=CEnd 0]> cs)) as [_ Hb].
  rewrite length_insert in Hb. cbn in Hsum. destruct Hfin as [-> | ->]; cbn in Hle; lia.
Qed.

Lemma reap_child_dies strict p cs g out i c st :
  facts strict p cs g out -> cs !! i = Some c -> dead c = 0 ->
  facts strict p (<[i := CEnd st]> cs) (Vars true (zombies g ++ [(S i, st)]) (numLiveChildren g) (sigCnt g)) out.
Proof.
  intros HF Hi Hc. pose proof (not_finished _ _ _ _ _ _ _ HF Hi Hc) as Hnf.
  destruct HF as [F1 F2 (F3 & F4 & F5) F6 F7 F8 FS F9 F10 F11].
  pose proof (Threads.zsum_insert dead cs i c (CEnd st) Hi) as Hsum. pose proof (lookup_lt_Some _ _ _ Hi) as Hlt. cbn [dead] in Hsum.
  split; cbn [pending zombies numLiveChildren sigCnt]; try done.
  - by rewrite length_insert.
  - rewrite length_app. cbn. lia.
  - split_and!; [done| |done]. destruct (pending g); lia.
  - intros j st' [Hin|Heq%list_elem_of_singleton]%elem_of_app.
    + destruct (F6 j st' Hin) as (k & -> & Hk). exists k. split; [done|]. destruct (decide (k = i)) as [->|Hne]; [|by rewrite list_lookup_insert_ne].
      assert (c = CEnd st') as -> by congruence. done.
    + injection Heq as -> ->. exists i. by rewrite list_lookup_insert_eq.
  - intros k st' [(<- & [= <-] & _)|[Hne Hk]]%list_lookup_insert_Some; rewrite fmap_app; [left; apply elem_of_app; right; by left|].
    destruct (F7 k st' Hk) as [?|[?|?]]; [left; apply elem_of_app; by left|by right; left|by right; right].
Qed.

Lemma reap_child_step strict p cs g ts out i c a s' :
  ts = Parent p :: children cs -> facts strict p cs g out -> cs !! i = Some c ->
  Threads.perform (S i) (child_exec (prog :: args) clock pid a (S i) c g) (Sys g ts out None) = Some s' -> inv strict s'.
Proof.
  intros Hts HF Hi Hp.
  assert (forall c' g' out', facts strict p (<[i := c']> cs) g' out' -> s' = Sys g' (<[S i := Child (S i) c']> ts) out' None -> inv strict s') as Hinv.
  { intros c' g' out' HF' ->. exists p, (<[i := c']> cs). rewrite Hts. cbn. by rewrite reap_children_insert. }
  assert (dead c = 0 -> p <> REnd (Exited EXIT_SUCCESS)) as Hnf.
  { intros Hc ->. eapply not_finished; [exact HF|exact Hi|exact Hc|by right]. }
  destruct c as [| | |st]; cbn [child_exec] in Hp; try discriminate Hp.
  - change ((prog :: args) !! S i) with (args !! i) in Hp. pose proof (made_le _ _ (f_made _ _ _ _ _ HF)) as Hlen.
    destruct (lookup_lt_is_Some_2 args i) as [arg Harg]; [apply lookup_lt_Some in Hi; unfold n in *; lia|]. rewrite Harg in Hp.
    destruct (sleep_of arg); injection Hp as <-; (eapply Hinv; [|reflexivity]); [|by eapply reap_child_dies].
    rewrite <- (app_nil_r out). by eapply reap_child_goes; [..|apply Hnf].
  - injection Hp as <-. eapply Hinv; [|reflexivity]. by eapply reap_child_goes; [..|apply Hnf].
  - injection Hp as <-. eapply Hinv; [|reflexivity]. by eapply reap_child_dies.
Qed.

Lemma reap_inv_step strict s s' : inv strict s -> step ex (allowed strict) s s' -> inv strict s'.
Proof.
  intros (p & cs & Hts & He & HF) (Hend & i & a & t & Ha & Hi & Hp)%Threads.step_inv.
  destruct s as [g ts out e]; cbn [shared threads printed ended] in *. subst e. destruct i as [|i]; rewrite Hts in Hi; cbn in Hi.
  - injection Hi as <-. exact (reap_parent_step _ _ _ _ _ _ _ _ Hts HF Ha Hp).
  - apply reap_children_lookup_Some in Hi as (c & -> & Hc). exact (reap_child_step _ _ _ _ _ _ _ _ _ _ Hts HF Hc Hp).
Qed.

Lemma reap_inv_start strict : inv strict (start_state (prog :: args)).
Proof.
  exists RAction, []. split; [done|]. split; [done|].
  split; cbn [made length pending zombies numLiveChildren sigCnt zsum foldr start_state shared owed handling]; try done.
  - unfold n. cbn. lia.
  - split_and!; [done..|]. unfold n. cbn. lia.
  - by intros j st ?%elem_of_nil.
  - by intros [?|?].
Qed.

(** No signal is lost: as long as a process has not ended, one can go on. *)
Lemma reap_progress s k :
  inv true s -> forallb has_ended (threads s) = false -> exists i s', run_one ex i (Done k) s = Some s'.
Proof.
  intros (p & cs & Hts & He & HF) Hlive.
  assert (forall i c, cs !! i = Some c -> dead c = 0 -> exists i s', run_one ex i (Done k) s = Some s') as Hchild.
  { intros i c Hi Hn. exists (S i). eapply Threads.run_one_enabled; [done|rewrite Hts; by apply reap_children_lookup|].
    destruct c; try done. cbn [ex exec child_exec]. destruct ((prog :: args) !! S i) as [arg|]; [|done]. by destruct (sleep_of arg). }
  destruct (forallb (fun c => dead c =? 1) cs) eqn:Hall.
  2: { apply Threads.forallb_false in Hall as (c & [i Hi]%list_elem_of_lookup & Hc). apply (Hchild i c Hi). by destruct c. }
  assert (Hdead : Forall (fun c => dead c = 1) cs).
  { apply Forall_forall. intros c Hc. rewrite forallb_forall in Hall. by apply Z.eqb_eq, Hall, list_elem_of_In. }
  assert (exec (prog :: args) clock pid 0 (Done k) (threads s) (Parent p) (shared s) <> Wait -> exists i s', run_one ex i (Done k) s = Some s') as Hpar.
  { intros H. exists 0%nat. by eapply Threads.run_one_enabled; [|rewrite Hts|]. }
  cbn [exec] in Hpar. destruct p as [| |j| | | | |j st|st| | | | |f]; try (by apply Hpar); cbn [parent_exec] in Hpar.
  - destruct (j <? _)%nat; by apply Hpar.
  - apply Hpar. destruct (pending (shared s)) eqn:Ep; [done|]. exfalso.
    pose proof (f_suspended _ _ _ _ _ HF eq_refl) as Hlt. rewrite (f_count _ _ _ _ _ HF) in Hlt.
    assert (zombies (shared s) = []) as Hz.
    { destruct (decide (zombies (shared s) = [])) as [|Hne]; [done|]. by rewrite (f_pending _ _ _ _ _ HF eq_refl eq_refl Hne) in Ep. }
    pose proof (f_made _ _ _ _ _ HF) as Hm. cbn in Hm. rewrite Hz, (Threads.zsum_eq dead cs 1) in Hlt by done. cbn in Hlt. lia.
  - apply Hpar. by destruct (pick k _) as [[[]]|].
  - exfalso. rewrite Hts in Hlive. cbn in Hlive. apply Threads.forallb_false in Hlive as (t & Hin & Ht).
    apply list_elem_of_lookup in Hin as [i Hi]. apply reap_children_lookup_Some in Hi as (c & -> & Hc).
    eapply Forall_lookup_1 in Hdead; [|exact Hc]. by destruct c.
Qed.

(** *** What is left to do *)

Definition mu_proc (t : proc) : nat :=
  match t with
  | Parent p =>
      match p with
      | RAction => 15 * n + 5 | RMask => 15 * n + 4 | RFork j => 15 * (S n - j) + 3
      | RLoop => 2 | RSuspend => 1 | RAll => 1 | REnd _ => 0
      | HCaught => 6 | HWait => 5 | HReaped _ _ => 8 | HStatus _ => 7 | HDec => 6 | HReturn => 4 | RCount => 3
      end
  | Child _ c => match c with CSleep => 14 | CTell => 13 | CExit => 12 | CEnd _ => 0 end
  end.
Definition mu_vars (g : vars) : nat := 4 * length (zombies g) + (if pending g then 6 else 0).
Definition mu (s : sys vars proc) : nat := mu_vars (shared s) + sum_list_with mu_proc (threads s).

Definition lighter (t : proc) (g : vars) (e : effect vars proc) : Prop :=
  match e with
  | Go t' g' => (mu_proc t' + mu_vars g' < mu_proc t + mu_vars g)%nat
  | Say t' _ => (mu_proc t' < mu_proc t)%nat
  | Create t' c => (mu_proc t' + mu_proc c < mu_proc t)%nat
  | Wait => True
  | Stop _ => False
  end.

Lemma reap_parent_lighter a p g : lighter (Parent p) g (parent_exec (prog :: args) clock pid a p g).
Proof.
  destruct p as [| |j| | | | |j st|st| | | | |f]; cbn [parent_exec]; try destruct a as [k|e]; cbn [lighter mu_proc]; try (unfold mu_vars; cbn [zombies pending]; lia); try done.
  1, 2: destruct (Nat.ltb_spec j (length (prog :: args))); cbn [lighter mu_proc length] in *; unfold n in *; lia.
  1, 2: destruct (0 <? _); cbn [mu_proc]; lia.
  - destruct (pending g) eqn:Ep; cbn [lighter mu_proc]; [unfold mu_vars; rewrite Ep; cbn [zombies pending]; lia|done].
  - destruct (negb (e =? EINTR)); cbn [lighter mu_proc]; [lia|done].
  - destruct (pick k (zombies g)) as [[[j st] rest]|] eqn:Ek; cbn [lighter mu_proc]; [|lia].
    apply pick_spec in Ek. unfold mu_vars. rewrite Ek. cbn [zombies pending]. cbn [length]. lia.
Qed.

Lemma reap_child_lighter a j c g : (j <= n)%nat -> lighter (Child j c) g (child_exec (prog :: args) clock pid a j c g).
Proof.
  intros Hj. assert (forall st, lighter (Child j CExit) g (Go (Child j (CEnd st)) (Vars true (zombies g ++ [(j, st)]) (numLiveChildren g) (sigCnt g)))) as Hdie.
  { intros st. unfold lighter, mu_vars. cbn [mu_proc zombies pending]. rewrite length_app. cbn [length]. destruct (pending g); lia. }
  destruct c as [| | |st]; cbn [child_exec]; [|cbn; lia|apply Hdie|done].
  destruct (lookup_lt_is_Some_2 (prog :: args) j) as [arg ->]; [cbn; unfold n in *; lia|]. destruct (sleep_of arg); cbn [lighter].
  - cbn [mu_proc]. lia.
  - pose proof (Hdie (wait_status (ChExited EXIT_FAILURE))) as H. cbn [lighter mu_proc] in *. lia.
Qed.

Lemma reap_mu_step s s' : inv false s -> step ex (fun _ => True) s s' -> (mu s' < mu s)%nat.
Proof.
  intros (p & cs & Hts & He & HF) (_ & i & a & t & _ & Hi & Hp)%Threads.step_inv.
  pose proof (made_le _ _ (f_made _ _ _ _ _ HF)) as Hn.
  destruct s as [g ts pr e]; cbn [shared threads printed ended] in *. subst e. unfold mu. cbn [threads].
  assert (lighter t g (ex i a ts t g)) as Hmu.
  { destruct t as [q|j c]; cbn [ex exec]; [apply reap_parent_lighter|]. apply reap_child_lighter.
    rewrite Hts in Hi. destruct i as [|i]; [done|]. cbn in Hi. apply reap_children_lookup_Some in Hi as (c' & [= -> _] & Hc%lookup_lt_Some). lia. }
  destruct (ex i a ts t g) as [t' g'|t' c|t' o| |en]; try done; injection Hp as <-; cbn [threads shared lighter] in *.
  all: pose proof (Threads.sum_list_with_insert mu_proc ts i t t' Hi); rewrite ?sum_list_with_app; cbn [sum_list_with] in *; lia.
Qed.

(** The state in which the parent has exited with success. *)
Lemma reap_finished s cs strict : args <> [] ->
  threads s = Parent (REnd (Exited EXIT_SUCCESS)) :: children cs -> facts strict (REnd (Exited EXIT_SUCCESS)) cs (shared s) (printed s) ->
  (exists sts, length sts = n /\ threads s = Parent (REnd (Exited EXIT_SUCCESS)) :: children (CEnd <$> sts)) /\ zombies (shared s) = [] /\
  (forall j, (1 <= j <= n)%nat -> exists t, reap_line pid t j ∈ printed s) /\
  exists t m, last (printed s) = Some (all_line (prog :: args) t m) /\ 1 <= m <= Z.of_nat n.
Proof.
  intros Hargs Hts HF. destruct (f_last _ _ _ _ _ HF eq_refl) as [t Ht].
  pose proof (f_made _ _ _ _ _ HF) as [Hlen _]. pose proof (f_finished _ _ _ _ _ HF (or_intror eq_refl)) as Hle.
  pose proof (dead_bounds cs) as [_ Hb]. rewrite (f_count _ _ _ _ _ HF) in Hle. cbn [owed] in Hle.
  assert (zombies (shared s) = []) as Hz by (apply nil_length_inv; lia).
  assert (exists sts, length sts = n /\ cs = CEnd <$> sts) as (sts & Hsts & ->).
  { exists ((fun c => match c with CEnd st => st | _ => 0 end) <$> cs). rewrite length_fmap. split; [done|].
    rewrite <- list_fmap_compose. rewrite <- (list_fmap_id cs) at 1. apply list_fmap_ext. intros i c Hi. cbn.
    assert (dead c <> 0) as Hc by (intros Hc; eapply not_finished; [exact HF|exact Hi|exact Hc|by right]). by destruct c. }
  split_and!; [by exists sts|done| |].
  - intros j Hj. destruct j as [|i]; [lia|]. destruct (lookup_lt_is_Some_2 sts i) as [st Hi]; [lia|].
    destruct (f_told _ _ _ _ _ HF i st) as [Hin|[?|?]]; [by rewrite list_lookup_fmap, Hi| |done..].
    rewrite Hz in Hin. by apply elem_of_nil in Hin.
  - exists t, (sigCnt (shared s)). split; [done|]. pose proof (f_sigs _ _ _ _ _ HF) as (H0 & H1 & H2). cbn [handling owed] in *.
    rewrite (f_count _ _ _ _ _ HF), Hz in H2. cbn [owed length] in H2.
    assert (n <> 0)%nat by (by intros ?%nil_length_inv). split; [apply Z.le_trans with (sigCnt (shared s) + 0); [apply H2|]; lia|]. destruct (pending (shared s)); lia.
Qed.

(** C4: multi_SIGCHLD loses no child, although signals that arrive while the handler runs are merged.
    Whatever the interleaving and the calls that fail: when the parent has exited with success, every
    child was started, has ended and was reaped, with a line of its own, and the last line counts
    at least one and at most [n] signals; the processes make at most [15 * n + 5] steps.  While no
    call fails, no process waits for ever, and in the end the parent has exited with
    success. *)
Theorem multi_SIGCHLD_reaps : args <> [] ->
  (forall s, rtc (step ex (fun _ => True)) (start_state (prog :: args)) s ->
     threads s !! 0%nat = Some (Parent (REnd (Exited EXIT_SUCCESS))) ->
     (exists sts, length sts = n /\ threads s = Parent (REnd (Exited EXIT_SUCCESS)) :: children (CEnd <$> sts)) /\ zombies (shared s) = [] /\
     (forall j, (1 <= j <= n)%nat -> exists t, reap_line pid t j ∈ printed s) /\
     exists t m, last (printed s) = Some (all_line (prog :: args) t m) /\ 1 <= m <= Z.of_nat n) /\
  (forall m s, nsteps (step ex (fun _ => True)) m (start_state (prog :: args)) s -> (m <= 15 * n + 5)%nat) /\
  (forall s, rtc (step ex full) (start_state (prog :: args)) s ->
     if forallb has_ended (threads s) then threads s !! 0%nat = Some (Parent (REnd (Exited EXIT_SUCCESS)))
     else forall k, exists i s', run_one ex i (Done k) s = Some s').
Proof.
  intros Hargs. split_and!.
  - intros s Hr Hend. assert (inv false s) as (p & cs & Hts & He & HF) by (apply (Prelude.rtc_invariant _ (inv false) _ _ (reap_inv_step false) (reap_inv_start false) Hr)).
    rewrite Hts in Hend. injection Hend as ->. by apply (reap_finished s cs false).
  - intros m s Hn. assert (mu (start_state (prog :: args)) = 15 * n + 5)%nat as <- by (cbn; lia).
    refine (nsteps_bounded_inv _ (inv false) mu _ _ s _ _ _ Hn); [apply (reap_inv_step false)|apply reap_mu_step|apply (reap_inv_start false)].
  - intros s Hr. assert (inv true s) as HI by (apply (Prelude.rtc_invariant _ (inv true) _ _ (reap_inv_step true) (reap_inv_start true) Hr)).
    destruct (forallb has_ended (threads s)) eqn:Ee; [|intros k; by apply reap_progress].
    destruct HI as (p & cs & Hts & He & HF). rewrite Hts in Ee |- *. cbn in Ee. destruct p; try done.
    by rewrite (f_fine _ _ _ _ _ HF eq_refl _ eq_refl).
Qed.
End Correct.

(** Two children, and one signal for both. *)
Lemma multi_SIGCHLD_reaps_witness :
  let argv := [str "multi_SIGCHLD"; str "1"; str "2"] in
  let s0 := start_state argv in
  exists s, rtc (step (exec argv (fun _ => str "12:00:00") (fun j => 100 + Z.of_nat j)) full) s0 s /\
    threads s !! 0%nat = Some (Parent (REnd (Exited EXIT_SUCCESS))) /\ zombies (shared s) = [].
Proof.
  intros argv s0. set (sched := (fun i => (i, Done 0)) <$> [0; 0; 0; 0; 0; 0; 2; 2; 2; 1; 1; 1; 0; 0; 0; 0; 0; 0; 0; 0; 0; 0; 0; 0; 0; 0; 0]%nat).
  assert ((fun s => threads s !! 0%nat) <$> run (exec argv (fun _ => str "12:00:00") (fun j => 100 + Z.of_nat j)) sched s0 =
    Some (Some (Parent (REnd (Exited EXIT_SUCCESS))))) as Hrun by (vm_compute; reflexivity).
  destruct (run (exec argv (fun _ => str "12:00:00") (fun j => 100 + Z.of_nat j)) sched s0) as [s|] eqn:Erun; [|discriminate Hrun].
  injection Hrun as Hend.
  assert (rtc (step (exec argv (fun _ => str "12:00:00") (fun j => 100 + Z.of_nat j)) full) s0 s) as Hrtc.
  { eapply Threads.run_rtc; [|exact Erun]. by repeat constructor. }
  exists s. split; [exact Hrtc|]. split; [exact Hend|].
  destruct (multi_SIGCHLD_reaps (str "multi_SIGCHLD") [str "1"; str "2"] (fun _ => str "12:00:00") (fun j => 100 + Z.of_nat j) ltac:(discriminate)) as [Hsafe _].
  apply (Hsafe s); [|exact Hend]. eapply rtc_subrel; [|exact Hrtc]. intros x y (i & a & _ & Hxy). exists i, a. split; [exact I|exact Hxy].
Defined.

Lemma printWaitStatus_describes_witness :
  exists pieces, printWaitStatus (fun _ => str "Killed") (Some (str "wait: ")) 137 (Kernel.Proc tt 0 []) = (Ret tt, Kernel.Proc tt 0 (Out <$> pieces)) /\
    concat pieces = str "wait: child killed by signal 9 (Killed) (core dumped)" ++ [NL].
Proof.
  destruct (printWaitStatus_describes (fun _ => str "Killed") (Some (str "wait: ")) (ChKilled 9 true) (Kernel.Proc tt 0 [])) as (pieces & Hrun & Hcat); [cbn; lia|].
  exists pieces. split; [exact Hrun|]. rewrite Hcat. reflexivity.
Defined.
