(* ===== verification/Signals.v ===== *)
(** * Sets of signals, and signals that are counted

    signal_functions.c, sig_sender.c and sig_receiver.c (tlpi-dist/signals): a process sends a signal a number
    of times and then SIGINT, another counts what arrives.  The two are scheduled as the threads of Threads.v.
    A standard signal that is pending is not queued again, a realtime signal is, up to a limit.  A signal
    that is not blocked is delivered before the receiver goes on; the handler, which nothing it does can
    be seen halfway, is one step.  The model starts when the receiver has installed its handlers, which
    [install] computes: a signal for which signal() failed has none, and takes the receiver down. *)

From Stdlib Require Import ZArith Lia String Ascii.
From S2P Require Import Prelude CString Kernel.
From S2P Require Threads Pipes.
Import Threads (sys, Sys, shared, threads, printed, ended, effect, Go, Wait, run_one, step, run).
Import Pipes (answer, Done, Fails, fate, Exited, Failed).

Definition NSIG : nat := 65.
Definition SIGINT : Z := 2.
(** SIGKILL, SIGSTOP, and the two realtime signals the C library keeps for itself: signal() refuses
    to set a handler for them, and no signal mask holds them. *)
Definition SIGKILL : Z := 9.
Definition SIGSTOP : Z := 19.
Definition SIGRTMIN : Z := 34.
Definition signal_refused (sig : Z) : bool := bool_decide (sig ∈ [SIGKILL; SIGSTOP; 32; 33]).

(** ** signal_functions.c *)

Abbreviation sigset := (gset Z).

Class SigCalls (K : Type) := {
  k_sigprocmask : K -> (sigset + Z) * K;       (* the current mask, which SIG_BLOCK without a set does not change *)
  k_sigpending : K -> (sigset + Z) * K
}.

(** The signals from 1 to [NSIG - 1]. *)
Definition all_signals : list Z := Z.of_nat <$> seq 1 (NSIG - 1).

Section Functions.
Context {K : Type} `{!SigCalls K} (strsignal : Z -> bytes).

Definition signal_line (prefix : bytes) (sig : Z) : bytes := prefix ++ dec sig ++ str " (" ++ strsignal sig ++ str ")" ++ [NL].
Definition empty_line (prefix : bytes) : bytes := prefix ++ str "<empty signal set>" ++ [NL].

(** The stream is the standard output.  The result of the loop is [cnt]. *)
Fixpoint sigset_loop (prefix : bytes) (set : sigset) (sigs : list Z) (cnt : Z) : M (proc K) Z :=
  match sigs with
  | [] => mret cnt
  | sig :: sigs' =>
      if bool_decide (sig ∈ set) then printf (signal_line prefix sig) ;; sigset_loop prefix set sigs' (cnt + 1)
      else sigset_loop prefix set sigs' cnt
  end.

Definition printSigset (prefix : bytes) (set : sigset) : M (proc K) unit :=
  cnt ← sigset_loop prefix set all_signals 0;
  if cnt =? 0 then printf (empty_line prefix) else mret tt.

Definition two_tabs : bytes := [chr 9; chr 9].

Definition print_set (call : K -> (sigset + Z) * K) (msg : option bytes) : M (proc K) Z :=
  (if msg is Some m then printf m else mret tt) ;;
  r ← syscall None (fun k => let '(r, k') := call k in (match r with inl s => inl (Some s) | inr e => inr e end, k'));
  match r with
  | None => mret (-1)
  | Some set => printSigset two_tabs set ;; mret 0
  end.
Definition printSigMask (msg : option bytes) : M (proc K) Z := print_set k_sigprocmask msg.
Definition printPendingSigs (msg : option bytes) : M (proc K) Z := print_set k_sigpending msg.

(** What it prints. *)
Definition sigset_lines (prefix : bytes) (set : sigset) : list bytes :=
  match filter (fun sig => sig ∈ set) all_signals with [] => [empty_line prefix] | l => signal_line prefix <$> l end.

Lemma sigset_loop_prints prefix set sigs : forall cnt p,
  sigset_loop prefix set sigs cnt p = (Ret (cnt + Z.of_nat (length (filter (fun sig => sig ∈ set) sigs))),
    Proc (kern p) (errno p) (trace p ++ (Out <$> (signal_line prefix <$> filter (fun sig => sig ∈ set) sigs)))).
Proof.
  induction sigs as [|sig sigs IH]; intros cnt p; [cbn; rewrite app_nil_r, Z.add_0_r; by destruct p|].
  cbn [sigset_loop]. rewrite filter_cons. destruct (decide (sig ∈ set)) as [Hin|Hn].
  - rewrite bool_decide_eq_true_2 by done. erewrite bind_Ret by reflexivity. rewrite IH. cbn [kern errno trace length fmap list_fmap].
    rewrite <- app_assoc. do 2 f_equal. lia.
  - rewrite bool_decide_eq_false_2 by done. apply IH.
Qed.

(** printSigset prints the signals of the set, each once, in the order of their numbers and with its
    description, or that the set is empty. *)
Theorem printSigset_prints prefix set p :
  printSigset prefix set p = (Ret tt, Proc (kern p) (errno p) (trace p ++ (Out <$> sigset_lines prefix set))).
Proof.
  unfold printSigset, sigset_lines. rewrite (bind_Ret _ _ _ _ _ (sigset_loop_prints prefix set all_signals 0 p)).
  destruct (filter (fun sig => sig ∈ set) all_signals) as [|sig l]; [cbn; by rewrite app_nil_r|].
  rewrite (proj2 (Z.eqb_neq _ _)) by (cbn; lia). reflexivity.
Qed.
End Functions.

(** ** The two processes *)

Inductive sender_pc := SSending | SSend (j : Z) | SSend2 | SExiting | SEnd (f : fate).
Inductive receiver_pc :=
| RPid | RBlock | RSleeping | RSleep | RPending | RHead (set : sigset) | RShow (rest : list bytes) | RUnblock
| RSpin | RCount (n : nat)
| RDown (sig : Z)                              (* ended or stopped by a signal without a handler *)
| REnd (f : fate).
(** Each with what it has printed. *)
Inductive proc := Receiver (c : receiver_pc) (out : list bytes) | Sender (c : sender_pc) (out : list bytes).

(** Of the receiver: whether all signals are blocked, which are pending and how often; its variables. *)
Record vars := Vars { blocked : bool; pending : gmap Z nat; gotSigint : bool; sigCnt : gmap Z Z }.

Definition pend (g : vars) (sig : Z) : nat := default O (pending g !! sig).
Definition count (g : vars) (sig : Z) : Z := default 0 (sigCnt g !! sig).

(** [kill]: an instance of a realtime signal is queued as long as there is room, one of another only
    if none is pending; [limit] is what RLIMIT_SIGPENDING leaves for it.  It fails in neither case. *)
Definition room (limit : nat) (sig : Z) : nat := if SIGRTMIN <=? sig then Nat.max 1 limit else 1.
Definition post (limit : nat) (sig : Z) (g : vars) : vars :=
  if (pend g sig <? room limit sig)%nat
  then Vars (blocked g) (<[sig := S (pend g sig)]> (pending g)) (gotSigint g) (sigCnt g) else g.

(** The loop that installs the handlers, and those it installs. *)
Fixpoint install (ns : list Z) (handlers : gset Z) : gset Z :=
  match ns with
  | [] => handlers
  | n :: ns' => install ns' (if signal_refused n then handlers else {[n]} ∪ handlers)
  end.
Definition handlers : gset Z := install all_signals ∅.

Definition handler (sig : Z) (g : vars) : vars :=
  if sig =? SIGINT then Vars (blocked g) (pending g) true (sigCnt g)
  else Vars (blocked g) (pending g) (gotSigint g) (<[sig := s32 (count g sig + 1)]> (sigCnt g)).
Definition deliver (sig : Z) (g : vars) : vars :=
  handler sig (Vars (blocked g) (<[sig := pred (pend g sig)]> (pending g)) (gotSigint g) (sigCnt g)).

Definition pending_set (g : vars) : sigset := dom (filter (fun x => x.2 <> O) (pending g)).

(** The signal that is delivered next: the [k]th of those that can be. *)
Definition deliverable (g : vars) : sigset := filter (fun sig => blocked g = false \/ signal_refused sig = true) (pending_set g).
Definition next_signal (k : nat) (g : vars) : option Z :=
  let l := elements (deliverable g) in match l !! k with Some sig => Some sig | None => head l end.

Definition off (c : receiver_pc) : bool := match c with RDown _ | REnd _ => true | _ => false end.

Section Program.
Context (strsignal : Z -> bytes).
(** sig_receiver: its name, its process ID, and the seconds it is told to sleep. *)
Context (rprog : bytes) (rpid : Z) (numSecs : option Z).
(** sig_sender: its name and its arguments. *)
Context (sprog : bytes) (numSigs sig : Z) (sig2 : option Z).
(** How many instances of a realtime signal can be queued for the receiver. *)
Context (limit : nat).

Definition sending_line : bytes :=
  sprog ++ str ": sending signal " ++ dec sig ++ str " to process " ++ dec rpid ++ str " " ++ dec numSigs ++ str " times" ++ [NL].
Definition exiting_line : bytes := sprog ++ str ": exiting" ++ [NL].
Definition pid_line : bytes := rprog ++ str ": PID is " ++ dec rpid ++ [NL].
Definition sleeping_line (secs : Z) : bytes := rprog ++ str ": sleeping for " ++ dec secs ++ str " seconds" ++ [NL].
Definition pending_line : bytes := rprog ++ str ": pending signals are: " ++ [NL].
Definition count_line (n : Z) (cnt : Z) : bytes :=
  rprog ++ str ": signal " ++ dec n ++ str " caught " ++ dec cnt ++ str " time" ++ (if cnt =? 1 then [] else str "s") ++ [NL].

Definition sender_exec (a : answer) (c : sender_pc) (out : list bytes) (g : vars) : effect vars proc :=
  let go c g := Go (Sender c out) g in
  let kill s next := match a with Fails e => go (SEnd (Failed e "kill")) g | Done _ => go next (post limit s g) end in
  match c with
  | SSending => Go (Sender (SSend 0) (out ++ [sending_line])) g
  | SSend j => if j <? numSigs then kill sig (SSend (j + 1)) else go SSend2 g
  | SSend2 => match sig2 with Some s => kill s SExiting | None => go SExiting g end
  | SExiting => Go (Sender (SEnd (Exited EXIT_SUCCESS)) (out ++ [exiting_line])) g
  | SEnd _ => Wait
  end.

Definition receiver_user (a : answer) (c : receiver_pc) (out : list bytes) (g : vars) : effect vars proc :=
  let go c g := Go (Receiver c out) g in
  let say c line := Go (Receiver c (out ++ [line])) g in
  let check call k := match a with Fails e => go (REnd (Failed e call)) g | Done _ => k end in
  let masked b := Vars b (pending g) (gotSigint g) (sigCnt g) in
  match c with
  | RPid => say (if numSecs is Some _ then RBlock else RSpin) pid_line
  | RBlock => check "sigprocmask"%string (go RSleeping (masked true))
  | RSleeping => say RSleep (sleeping_line (default 0 numSecs))
  | RSleep => go RPending g
  | RPending => check "sigpending"%string (go (RHead (pending_set g)) g)
  | RHead set => say (RShow (sigset_lines strsignal two_tabs set)) pending_line
  | RShow (line :: rest) => say (RShow rest) line
  | RShow [] => go RUnblock g
  | RUnblock => check "sigprocmask"%string (go RSpin (masked false))
  | RSpin => if gotSigint g then go (RCount 1) g else Wait        (* the loop that waits has no effect *)
  | RCount n =>
      if (n <? NSIG)%nat then
        if negb (count g (Z.of_nat n) =? 0) then say (RCount (S n)) (count_line (Z.of_nat n) (count g (Z.of_nat n))) else go (RCount (S n)) g
      else go (REnd (Exited EXIT_SUCCESS)) g
  | RDown _ | REnd _ => Wait
  end.

Definition receiver_exec (a : answer) (c : receiver_pc) (out : list bytes) (g : vars) : effect vars proc :=
  if off c then Wait
  else match next_signal (match a with Done k => k | Fails _ => O end) g with
       | Some s => if bool_decide (s ∈ handlers) then Go (Receiver c out) (deliver s g) else Go (Receiver (RDown s) out) g
       | None => receiver_user a c out g
       end.

Definition exec (self : nat) (a : answer) (ts : list proc) (t : proc) (g : vars) : effect vars proc :=
  match t with Receiver c out => receiver_exec a c out g | Sender c out => sender_exec a c out g end.

Definition start_state : sys vars proc := Sys (Vars false ∅ false ∅) [Receiver RPid []; Sender SSending []] [] None.
End Program.

(** *** Delivery *)

Lemma pend_post limit s g n :
  pend (post limit s g) n = if decide (n = s) then Nat.max (pend g s) (Nat.min (S (pend g s)) (room limit s)) else pend g n.
Proof.
  unfold post. destruct (Nat.ltb_spec (pend g s) (room limit s)).
  - unfold pend at 1. cbn [pending]. destruct (decide (n = s)) as [->|Hne]; [rewrite lookup_insert_eq; cbn [default]; unfold default, id; lia|by rewrite lookup_insert_ne].
  - destruct (decide (n = s)) as [->|Hne]; [lia|done].
Qed.

Lemma post_keeps limit s g : sigCnt (post limit s g) = sigCnt g /\ gotSigint (post limit s g) = gotSigint g /\ blocked (post limit s g) = blocked g.
Proof. unfold post. by destruct (_ <? _)%nat. Qed.

Lemma count_post limit s g n : count (post limit s g) n = count g n.
Proof. unfold count. by rewrite (proj1 (post_keeps limit s g)). Qed.

Lemma room_pos limit s : (1 <= room limit s)%nat.
Proof. unfold room. destruct (_ <=? _); lia. Qed.

Lemma elem_of_install n ns : forall h, n ∈ install ns h <-> n ∈ h \/ n ∈ ns /\ signal_refused n = false.
Proof.
  induction ns as [|m ns IH]; intros h; cbn [install]; [set_solver|]. rewrite IH.
  rewrite elem_of_cons. destruct (signal_refused m) eqn:E.
  - split; [intros [?|[? ?]]; auto|]. intros [?|[[->|?] ?]]; [by left|congruence|by right].
  - rewrite elem_of_union, elem_of_singleton. split.
    + intros [[->|?]|[? ?]]; auto.
    + intros [?|[[->|?] ?]]; auto.
Qed.

Lemma elem_of_handlers n : 1 <= n <= 64 -> signal_refused n = false -> n ∈ handlers.
Proof.
  intros Hn Hr. apply elem_of_install. right. split; [|done]. apply list_elem_of_fmap. exists (Z.to_nat n). split; [lia|].
  apply elem_of_seq. unfold NSIG. lia.
Qed.

Lemma pend_deliver s g n : pend (deliver s g) n = if decide (n = s) then pred (pend g s) else pend g n.
Proof.
  assert (pend (deliver s g) n = default O (<[s := pred (pend g s)]> (pending g) !! n)) as -> by (unfold deliver, handler; by destruct (s =? SIGINT)).
  destruct (decide (n = s)) as [->|Hne]; [by rewrite lookup_insert_eq|by rewrite lookup_insert_ne].
Qed.

Lemma count_deliver s g n : count (deliver s g) n = if decide (n = s /\ s <> SIGINT) then s32 (count g s + 1) else count g n.
Proof.
  unfold deliver, handler. destruct (Z.eqb_spec s SIGINT) as [->|Hs]; [by rewrite decide_False by (by intros [_ ?])|].
  unfold count at 1. cbn [sigCnt]. destruct (decide (n = s)) as [->|Hne].
  - by rewrite lookup_insert_eq, decide_True by done.
  - rewrite lookup_insert_ne, decide_False by naive_solver. done.
Qed.

Lemma got_deliver s g : gotSigint (deliver s g) = gotSigint g || (s =? SIGINT).
Proof. unfold deliver, handler. destruct (s =? SIGINT); cbn; by rewrite ?orb_true_r, ?orb_false_r. Qed.

Lemma blocked_deliver s g : blocked (deliver s g) = blocked g.
Proof. unfold deliver, handler. by destruct (s =? SIGINT). Qed.

Lemma elem_of_pending_set s g : s ∈ pending_set g <-> pend g s <> O.
Proof.
  unfold pending_set, pend. rewrite elem_of_dom. split.
  - intros [n Hn]. apply map_lookup_filter_Some in Hn as [-> Hne]. exact Hne.
  - destruct (pending g !! s) as [n|] eqn:E; [|done]. intros Hn. exists n. by apply map_lookup_filter_Some.
Qed.

Lemma elem_of_deliverable s g : s ∈ deliverable g <-> (blocked g = false \/ signal_refused s = true) /\ pend g s <> O.
Proof. unfold deliverable. by rewrite elem_of_filter, elem_of_pending_set. Qed.

Lemma next_signal_Some k g s : next_signal k g = Some s -> s ∈ deliverable g.
Proof.
  unfold next_signal. intros Hs. apply elem_of_elements.
  destruct (elements (deliverable g) !! k) as [s'|] eqn:E; [injection Hs as ->; by eapply list_elem_of_lookup_2|].
  destruct (elements (deliverable g)); [done|]. injection Hs as ->. by left.
Qed.

Lemma next_signal_None k g : next_signal k g = None -> blocked g = true \/ forall s, pend g s = O.
Proof.
  unfold next_signal. intros Hs. destruct (blocked g) eqn:Hb; [by left|right]. intros s. destruct (decide (pend g s = O)) as [|Hn]; [done|].
  assert (s ∈ elements (deliverable g)) as Hin by (apply elem_of_elements, elem_of_deliverable; auto).
  destruct (elements (deliverable g) !! k); [done|]. by destruct (elements (deliverable g)); [apply elem_of_nil in Hin|].
Qed.

(** *** The invariant *)

Section Correct.
Context (strsignal : Z -> bytes) (rprog : bytes) (rpid : Z) (numSecs : option Z) (sprog : bytes) (numSigs sig : Z) (limit : nat).
Context (Hnum : 0 < numSigs <= INT_MAX) (Hsig : 1 <= sig <= 64) (Hcatch : sig <> SIGINT /\ signal_refused sig = false).
Let ex := exec strsignal rprog rpid numSecs sprog numSigs sig (Some SIGINT) limit.

Definition works (a : answer) : Prop := match a with Done _ => True | Fails _ => False end.

(** How often the signal was sent, and whether SIGINT was. *)
Definition sent (c : sender_pc) : Z := match c with SSending => 0 | SSend j => j | _ => numSigs end.
Definition sent_int (c : sender_pc) : bool := match c with SExiting | SEnd _ => true | _ => false end.
Definition sender_ok (c : sender_pc) : Prop := match c with SSend j => 0 <= j <= numSigs | SEnd f => f = Exited EXIT_SUCCESS | _ => True end.

(** How often the signal is caught when it was sent [n] times and is not pending. *)
Definition caught_of (n c : Z) : Prop := Z.min n (Z.of_nat (room limit sig)) <= c <= n.

Definition counted (j : Z) (g : vars) : Prop := 0 <= count g sig /\ caught_of j (Z.of_nat (pend g sig) + count g sig).

Record signals_ok (c : sender_pc) (g : vars) : Prop := {
  others_pend : forall n, n <> sig -> n <> SIGINT -> pend g n = O;
  others_count : forall n, n <> sig -> count g n = 0;
  int_pend : if sent_int c then pend g SIGINT = 1%nat /\ gotSigint g = false \/ pend g SIGINT = O /\ gotSigint g = true
             else pend g SIGINT = O /\ gotSigint g = false;
  sig_counted : counted (sent c) g
}.

(** What the receiver prints before the count. *)
Definition intro_lines (secs : Z) (set : sigset) : list bytes :=
  [pid_line rprog rpid; sleeping_line rprog secs; pending_line rprog] ++ sigset_lines strsignal two_tabs set.
Definition is_intro (out : list bytes) : Prop :=
  match numSecs with
  | None => out = [pid_line rprog rpid]
  | Some secs => exists set : sigset, (forall s, s ∈ set -> s = sig \/ s = SIGINT) /\ out = intro_lines secs set
  end.
Definition final_count (c : Z) : Prop := caught_of numSigs c.

Definition receiver_ok (c : receiver_pc) (out : list bytes) (g : vars) : Prop :=
  let line := pid_line rprog rpid in
  match c with
  | RPid => blocked g = false /\ out = []
  | RBlock => blocked g = false /\ is_Some numSecs /\ out = [line]
  | RSleeping => blocked g = true /\ is_Some numSecs /\ out = [line]
  | RSleep | RPending => blocked g = true /\ exists secs, numSecs = Some secs /\ out = [line; sleeping_line rprog secs]
  | RHead set => blocked g = true /\ (exists secs, numSecs = Some secs /\ out = [line; sleeping_line rprog secs]) /\ forall s, s ∈ set -> s = sig \/ s = SIGINT
  | RShow rest => blocked g = true /\ (length rest <= 65)%nat /\ is_intro (out ++ rest)
  | RUnblock => blocked g = true /\ is_intro out
  | RSpin => blocked g = false /\ is_intro out
  | RCount n => blocked g = false /\ gotSigint g = true /\ (1 <= n <= NSIG)%nat /\
      if Z.of_nat n <=? sig then is_intro out else exists o c, is_intro o /\ final_count c /\ out = o ++ [count_line rprog sig c]
  | RDown _ => False
  | REnd f => f = Exited EXIT_SUCCESS /\ exists o c, is_intro o /\ final_count c /\ out = o ++ [count_line rprog sig c]
  end.

Record inv_at (rc : receiver_pc) (ro : list bytes) (sc : sender_pc) (so : list bytes) (s : sys vars proc) : Prop := {
  inv_threads : threads s = [Receiver rc ro; Sender sc so];
  inv_running : ended s = None;
  inv_sender : sender_ok sc;
  inv_signals : signals_ok sc (shared s);
  inv_receiver : receiver_ok rc ro (shared s)
}.
Definition inv (s : sys vars proc) : Prop := exists rc ro sc so, inv_at rc ro sc so s.

Lemma counted_post j g : counted j g -> 0 <= j -> counted (j + 1) (post limit sig g).
Proof.
  unfold counted, caught_of. intros [H0 Hc] Hj. rewrite count_post, pend_post, decide_True by done.
  pose proof (room_pos limit sig). split; [done|]. lia.
Qed.

Lemma signals_deliver c g s : sender_ok c -> signals_ok c g -> pend g s <> O -> signals_ok c (deliver s g).
Proof.
  intros Hsc [Hp Hc Hi [H0 Hs]] Hn.
  assert (sig <> SIGINT) as Hsi by apply Hcatch.
  assert (sent c <= INT_MAX) as Hmax by (destruct c; cbn in *; unfold INT_MAX in *; lia).
  destruct (decide (s = sig)) as [->|Hne].
  - assert (count (deliver sig g) sig = count g sig + 1) as Hcount.
    { rewrite count_deliver, decide_True by (split; [done|apply Hcatch]). apply wrap_s_id; [done|]. unfold in_s.
      change (2 ^ (32 - 1)) with (INT_MAX + 1). unfold INT_MAX, caught_of in *. lia. }
    split.
    + intros n H1 H2. rewrite pend_deliver, decide_False by done. by apply Hp.
    + intros n H1. rewrite count_deliver, decide_False by (by intros [? _]). by apply Hc.
    + rewrite got_deliver, pend_deliver, decide_False by (intros E; by apply Hsi). rewrite (proj2 (Z.eqb_neq sig SIGINT) Hsi), orb_false_r. done.
    + split; rewrite Hcount; [lia|]. unfold caught_of in *. rewrite pend_deliver, decide_True by done. lia.
  - destruct (decide (s = SIGINT)) as [->|Hne2]; [|by destruct Hn; apply Hp].
    assert (forall n, count (deliver SIGINT g) n = count g n) as Hcount by (intros n; by rewrite count_deliver, decide_False by (by intros [_ ?])).
    split.
    + intros n H1 H2. rewrite pend_deliver, decide_False by done. by apply Hp.
    + intros n H1. rewrite Hcount. by apply Hc.
    + rewrite got_deliver, pend_deliver, decide_True by done. rewrite Z.eqb_refl, orb_true_r.
      destruct (sent_int c); [|by destruct Hi as [Hi _]]. right. split; [|done]. destruct Hi as [[-> _]|[Hi _]]; done.
    + split; rewrite Hcount; [done|]. rewrite pend_deliver, decide_False by done. done.
Qed.

Lemma receiver_ok_ext rc ro g g' : receiver_ok rc ro g -> blocked g' = blocked g -> (gotSigint g = true -> gotSigint g' = true) -> receiver_ok rc ro g'.
Proof. intros H Hb Hg. destruct rc; cbn in *; rewrite ?Hb; intuition. Qed.

Lemma sender_step rc ro sc so g out a s' : inv_at rc ro sc so (Sys g [Receiver rc ro; Sender sc so] out None) -> works a ->
  Threads.perform 1 (sender_exec rpid sprog numSigs sig (Some SIGINT) limit a sc so g) (Sys g [Receiver rc ro; Sender sc so] out None) = Some s' -> inv s'.
Proof.
  intros [_ _ Hsc Hsig' Hrc] Ha Hp. cbn [shared] in *. destruct a as [k|e]; [|done].
  assert (forall sc' so' g', s' = Sys g' [Receiver rc ro; Sender sc' so'] out None -> sender_ok sc' -> signals_ok sc' g' -> receiver_ok rc ro g' -> inv s') as Hgo.
  { intros sc' so' g' -> H1 H2 H3. by exists rc, ro, sc', so'. }
  pose proof Hsig' as [Hpd Hct Hint [H0 Hcnt]]. assert (sig <> SIGINT) as Hsi by apply Hcatch.
  destruct sc as [|j| | |f]; cbn [sender_exec] in Hp; [..|done].
  - injection Hp as <-. eapply Hgo; [reflexivity|cbn; lia| |done]. by split.
  - cbn in Hsc. destruct (Z.ltb_spec j numSigs) as [Hlt|Hge]; injection Hp as <-; (eapply Hgo; [reflexivity| |
      |first [done|apply (receiver_ok_ext rc ro g (post limit sig g)); [done|apply post_keeps|by intros ?; rewrite (proj1 (proj2 (post_keeps limit sig g)))]]]); [cbn; lia| |done|].
    + split.
      * intros n H1 H2. rewrite pend_post, decide_False by done. by apply Hpd.
      * intros n H1. rewrite count_post. by apply Hct.
      * cbn in *. rewrite (proj1 (proj2 (post_keeps limit sig g))),  pend_post, decide_False by congruence. done.
      * apply counted_post; [by split|lia].
    + assert (j = numSigs) as -> by lia. by split.
  - injection Hp as <-. eapply Hgo; [reflexivity|done| |apply (receiver_ok_ext rc ro g (post limit SIGINT g)); [done|apply post_keeps|by intros ?; rewrite (proj1 (proj2 (post_keeps limit SIGINT g)))]]. split.
    + intros n H1 H2. rewrite pend_post, decide_False by done. by apply Hpd.
    + intros n H1. rewrite count_post. by apply Hct.
    + cbn in *. left. rewrite (proj1 (proj2 (post_keeps limit SIGINT g))), pend_post, decide_True by done. destruct Hint as [-> ->].
      pose proof (room_pos limit SIGINT). split; [lia|done].
    + cbn [sent]. unfold counted. rewrite count_post, pend_post, decide_False by done. by split.
  - injection Hp as <-. eapply Hgo; [reflexivity|done| |done]. by split.
Qed.

Lemma pending_only sc g s : signals_ok sc g -> s ∈ pending_set g -> s = sig \/ s = SIGINT.
Proof.
  intros [Hp _ _ _] Hs%elem_of_pending_set. destruct (decide (s = sig)) as [|H1]; [by left|]. destruct (decide (s = SIGINT)) as [|H2]; [by right|].
  by destruct Hs; apply Hp.
Qed.

Lemma sigset_lines_length prefix set : (length (sigset_lines strsignal prefix set) <= 65)%nat.
Proof.
  unfold sigset_lines. assert (length (filter (fun s => s ∈ set) all_signals) <= 64)%nat as Hl by (etrans; [apply length_filter|done]).
  destruct (filter (fun s => s ∈ set) all_signals) as [|x l] eqn:E; [cbn; lia|]. rewrite length_fmap. lia.
Qed.

(** When SIGINT was caught and nothing is pending, all has been counted. *)
Lemma all_counted sc g : sender_ok sc -> signals_ok sc g -> gotSigint g = true -> (forall s, pend g s = O) -> final_count (count g sig) /\ count g sig <> 0.
Proof.
  intros Hsc [_ _ Hint [H0 Hcnt]] Hgot Hnone. rewrite Hnone in Hcnt. unfold final_count, caught_of in *.
  assert (sent sc = numSigs) as Hs by (destruct sc; cbn in *; try done; by destruct Hint as [_ ?]; congruence). rewrite Hs in Hcnt.
  pose proof (room_pos limit sig). lia.
Qed.

Lemma receiver_user_step rc ro sc so g out a s' : inv_at rc ro sc so (Sys g [Receiver rc ro; Sender sc so] out None) -> works a ->
  blocked g = true \/ (forall s, pend g s = O) ->
  Threads.perform 0 (receiver_user strsignal rprog rpid numSecs a rc ro g) (Sys g [Receiver rc ro; Sender sc so] out None) = Some s' -> inv s'.
Proof.
  intros [_ _ Hsc Hsg Hrc] Ha Hnone Hp. cbn [shared] in *. destruct a as [k|e]; [|done].
  assert (forall rc' ro' b, s' = Sys (Vars b (pending g) (gotSigint g) (sigCnt g)) [Receiver rc' ro'; Sender sc so] out None ->
    receiver_ok rc' ro' (Vars b (pending g) (gotSigint g) (sigCnt g)) -> inv s') as Hgo.
  { intros rc' ro' b -> H1. exists rc', ro', sc, so. split; try done. destruct Hsg as [H2 H3 H4 H5]. by split. }
  assert (forall rc' ro', s' = Sys g [Receiver rc' ro'; Sender sc so] out None -> receiver_ok rc' ro' g -> inv s') as Hstay.
  { intros rc' ro' -> H1. by exists rc', ro', sc, so. }
  destruct rc as [| | | | |set|[|line rest]| | |n|d|f]; cbn [receiver_user] in Hp; [..|done|done].
  - injection Hp as <-. destruct Hrc as [Hb ->]. eapply Hstay; [reflexivity|]. destruct numSecs eqn:E; cbn; unfold is_intro; rewrite ?E; by eauto.
  - injection Hp as <-. destruct Hrc as (_ & ? & ->). by eapply Hgo.
  - injection Hp as <-. destruct Hrc as (Hb & [secs Hsecs] & ->). eapply Hstay; [reflexivity|]. cbn. rewrite Hsecs. by eauto.
  - injection Hp as <-. eapply Hstay; [reflexivity|]. exact Hrc.
  - injection Hp as <-. eapply Hstay; [reflexivity|]. destruct Hrc as [Hb Hs]. split_and!; [done|done|]. intros s. by eapply pending_only.
  - injection Hp as <-. eapply Hstay; [reflexivity|]. destruct Hrc as (Hb & (secs & Hs & ->) & Hset). split_and!; [done|apply sigset_lines_length|].
    unfold is_intro. rewrite Hs. by exists set.
  - injection Hp as <-. eapply Hstay; [reflexivity|]. destruct Hrc as (Hb & _ & Hi). rewrite app_nil_r in Hi. by split.
  - injection Hp as <-. eapply Hstay; [reflexivity|]. destruct Hrc as (Hb & Hl & Hi). split_and!; [done|cbn in Hl; lia|]. by rewrite <- app_assoc.
  - injection Hp as <-. destruct Hrc as (_ & Hi). by eapply Hgo.
  - destruct (gotSigint g) eqn:Hg; [|done]. injection Hp as <-. destruct Hrc as (Hb & Hi).
    eapply Hstay; [reflexivity|]. split_and!; [done|cbn; congruence|lia|unfold NSIG; lia|].
    change (Z.of_nat 1) with 1. by rewrite (proj2 (Z.leb_le 1 sig)) by lia.
  - destruct Hrc as (Hb & Hg & Hn & Hi). assert (forall s, pend g s = O) as Hp0 by (destruct Hnone as [Hbt|]; [congruence|done]).
    destruct (all_counted sc g Hsc Hsg Hg Hp0) as [Hfin Hne]. destruct (Nat.ltb_spec n NSIG) as [Hlt|Hge].
    + destruct (decide (Z.of_nat n = sig)) as [E|E].
      * rewrite E in Hp, Hi. rewrite (proj2 (Z.eqb_neq _ _) Hne) in Hp. cbn [negb] in Hp. injection Hp as <-. eapply Hstay; [reflexivity|].
        split_and!; [done|done|lia|lia|]. rewrite (proj2 (Z.leb_gt _ _)) by lia. rewrite (proj2 (Z.leb_le sig sig)) in Hi by lia. by exists ro, (count g sig).
      * rewrite (others_count _ _ Hsg _ E) in Hp. cbn [negb Z.eqb] in Hp. injection Hp as <-. eapply Hstay; [reflexivity|].
        split_and!; [done|done|lia|lia|]. destruct (Z.leb_spec (Z.of_nat n) sig); [rewrite (proj2 (Z.leb_le _ _)) by lia|rewrite (proj2 (Z.leb_gt _ _)) by lia]; done.
    + injection Hp as <-. eapply Hstay; [reflexivity|]. split; [done|]. rewrite (proj2 (Z.leb_gt _ _)) in Hi by (unfold NSIG in *; lia). done.
Qed.

(** The only signals that are pending have a handler. *)
Lemma delivers_handled sc g k s : signals_ok sc g -> next_signal k g = Some s -> (s = sig \/ s = SIGINT) /\ pend g s <> O /\ s ∈ handlers.
Proof.
  intros Hsg Hn. apply next_signal_Some, elem_of_deliverable in Hn as [_ Hp].
  assert (s = sig \/ s = SIGINT) as Hs by (by eapply pending_only, elem_of_pending_set). split_and!; [done|done|].
  destruct Hcatch. destruct Hs as [->| ->]; by apply elem_of_handlers.
Qed.

Lemma receiver_step rc ro sc so g out a s' : inv_at rc ro sc so (Sys g [Receiver rc ro; Sender sc so] out None) -> works a ->
  Threads.perform 0 (receiver_exec strsignal rprog rpid numSecs a rc ro g) (Sys g [Receiver rc ro; Sender sc so] out None) = Some s' -> inv s'.
Proof.
  intros HI Ha Hp. unfold receiver_exec in Hp. set (k := match a with Done k => k | Fails _ => O end) in Hp.
  destruct (off rc); [done|]. destruct (next_signal k g) as [s|] eqn:Hn.
  - pose proof HI as [_ _ Hsc Hsg Hrc]. cbn [shared] in *. destruct (delivers_handled _ _ _ _ Hsg Hn) as (_ & Hpend & Hh).
    rewrite (bool_decide_eq_true_2 _ Hh) in Hp. clear Hh. injection Hp as <-.
    exists rc, ro, sc, so. split; cbn [shared]; try done; [by apply signals_deliver|].
    apply (receiver_ok_ext rc ro g); [done|apply blocked_deliver|]. rewrite got_deliver. by intros ->.
  - apply next_signal_None in Hn. by eapply receiver_user_step.
Qed.

Lemma signals_start : inv (start_state).
Proof.
  exists RPid, [], SSending, []. split; cbn; try done. split; cbn; try done. split; cbn; [done|]. unfold caught_of, pend, count; cbn; rewrite !lookup_empty; cbn; lia.
Qed.

Lemma signals_step s s' : inv s -> step ex works s s' -> inv s'.
Proof.
  intros (rc & ro & sc & so & HI) (i & a & Ha & Hr). destruct s as [g ts out e].
  pose proof (inv_threads _ _ _ _ _ HI) as Hts. pose proof (inv_running _ _ _ _ _ HI) as He. cbn [threads ended] in Hts, He. subst ts e.
  unfold run_one in Hr. cbn [ended threads shared] in Hr. destruct i as [|[|i]]; [by eapply receiver_step|by eapply sender_step|done].
Qed.

(** *** It ends *)

Definition sender_left (c : sender_pc) : Z :=
  match c with SSending => 3 * numSigs + 8 | SSend j => 3 * (numSigs - j) + 7 | SSend2 => 6 | SExiting => 2 | SEnd _ => 0 end.
Definition receiver_left (c : receiver_pc) : Z :=
  match c with
  | RPid => 160 | RBlock => 159 | RSleeping => 158 | RSleep => 157 | RPending => 156 | RHead _ => 155
  | RShow rest => 80 + Z.of_nat (length rest) | RUnblock => 79 | RSpin => 78
  | RCount n => 77 - Z.of_nat n | RDown _ | REnd _ => 0
  end.
Definition proc_left (t : proc) : Z := match t with Receiver c _ => receiver_left c | Sender c _ => sender_left c end.
Definition left (s : sys vars proc) : Z :=
  Threads.zsum proc_left (threads s) + Z.of_nat (pend (shared s) sig) + Z.of_nat (pend (shared s) SIGINT).

Lemma left_nonneg s : inv s -> 0 <= left s.
Proof.
  intros (rc & ro & sc & so & [Hts _ Hsc _ Hrc]). unfold left. rewrite Hts. cbn.
  assert (0 <= sender_left sc) by (destruct sc; cbn in *; lia). assert (0 <= receiver_left rc) by (destruct rc; cbn in *; unfold NSIG in *; lia). lia.
Qed.

Lemma pend_deliver_less s g : s = sig \/ s = SIGINT -> pend g s <> O ->
  Z.of_nat (pend (deliver s g) sig) + Z.of_nat (pend (deliver s g) SIGINT) < Z.of_nat (pend g sig) + Z.of_nat (pend g SIGINT).
Proof.
  assert (sig <> SIGINT) as Hsi by apply Hcatch. intros [->| ->] Hn; rewrite !pend_deliver; [rewrite decide_True, decide_False by congruence|rewrite decide_False, decide_True by congruence]; lia.
Qed.

Lemma pend_post_more s g : s = sig \/ s = SIGINT ->
  Z.of_nat (pend (post limit s g) sig) + Z.of_nat (pend (post limit s g) SIGINT) <= Z.of_nat (pend g sig) + Z.of_nat (pend g SIGINT) + 1.
Proof.
  assert (sig <> SIGINT) as Hsi by apply Hcatch. intros [->| ->]; rewrite !pend_post; [rewrite decide_True, decide_False by congruence|rewrite decide_False, decide_True by congruence]; lia.
Qed.

Lemma user_left a rc ro g : forall rc' ro' g', receiver_user strsignal rprog rpid numSecs a rc ro g = Go (Receiver rc' ro') g' -> works a ->
  receiver_ok rc ro g -> receiver_left rc' < receiver_left rc /\ pending g' = pending g.
Proof.
  intros rc' ro' g' Hp Ha Hrc. destruct a as [k|e]; [|done].
  destruct rc as [| | | | |set|[|line rest]| | |n|d|f]; cbn [receiver_user] in Hp; try done.
  1-9: injection Hp as <- <- <-; split; [|done]; cbn; try lia.
  - destruct numSecs; cbn; lia.
  - pose proof (sigset_lines_length two_tabs set). lia.
  - destruct (gotSigint g); [|done]. injection Hp as <- <- <-. split; [cbn; lia|done].
  - destruct Hrc as (_ & _ & Hn & _). unfold NSIG in *. destruct (Nat.ltb_spec n 65); [destruct (negb _)|]; injection Hp as <- <- <-; (split; [cbn; lia|done]).
Qed.

Lemma signals_left s s' : inv s -> step ex works s s' -> inv s' /\ left s' < left s.
Proof.
  intros Hs Hst. split; [by eapply signals_step|]. destruct Hs as (rc & ro & sc & so & HI). destruct Hst as (i & a & Ha & Hr). destruct s as [g ts out e].
  destruct HI as [Hts He Hsc Hsg Hrc]. cbn [threads ended shared] in *. subst ts e. unfold run_one in Hr. cbn [ended threads shared] in Hr.
  destruct i as [|[|i]]; cbn [lookup list_lookup] in Hr; [| |done].
  - cbn [ex exec] in Hr. unfold receiver_exec in Hr.
    set (k := match a with Done k => k | Fails _ => O end) in Hr. destruct (off rc); [done|]. destruct (next_signal k g) as [s|] eqn:Hn.
    + destruct (delivers_handled _ _ _ _ Hsg Hn) as (Hs & Hpend & Hh). rewrite (bool_decide_eq_true_2 _ Hh) in Hr. clear Hh. injection Hr as <-.
      unfold left. cbn [threads shared Threads.zsum foldr proc_left]. pose proof (pend_deliver_less s g Hs Hpend). lia.
    + rename Hr into Hp.
      destruct (receiver_user strsignal rprog rpid numSecs a rc ro g) as [[rc' ro'|] g'| | | |] eqn:E; try done.
      * destruct (user_left _ _ _ _ _ _ _ E Ha Hrc) as [Hlt Hpd]. injection Hp as <-. unfold left, pend. cbn [threads shared Threads.zsum foldr proc_left]. rewrite Hpd.
        unfold pend. cbn. lia.
      * destruct a; [|done]. destruct rc as [| | | | |set|[|line rest]| | |n|d|f]; cbn in E; repeat case_match; done.
      * destruct a; [|done]. destruct rc as [| | | | |set|[|line rest]| | |n|d|f]; cbn in E; repeat case_match; done.
      * destruct a; [|done]. destruct rc as [| | | | |set|[|line rest]| | |n|d|f]; cbn in E; repeat case_match; done.
      * destruct a; [|done]. destruct rc as [| | | | |set|[|line rest]| | |n|d|f]; cbn in E; repeat case_match; done.
  - destruct a as [k|e]; [|done]. cbn [ex exec] in Hr. unfold left. pose proof (pend_post_more sig g ltac:(by left)). pose proof (pend_post_more SIGINT g ltac:(by right)).
    destruct sc as [|j| | |f]; cbn [sender_exec] in Hr; [..|done]; try (destruct (Z.ltb_spec j numSigs)); injection Hr as <-; cbn -[pend]; cbn in Hsc; lia.
Qed.

Lemma signals_goes s : inv s -> (exists s', step ex works s s') \/
  exists ro so, threads s = [Receiver (REnd (Exited EXIT_SUCCESS)) ro; Sender (SEnd (Exited EXIT_SUCCESS)) so].
Proof.
  intros (rc & ro & sc & so & [Hts He Hsc Hsg Hrc]).
  assert (forall i t, threads s !! i = Some t -> ex i (Done 0) (threads s) t (shared s) <> Wait -> exists s', step ex works s s') as Hgo.
  { intros i t Ht Hw. destruct (Threads.run_one_enabled ex i (Done 0) t s He Ht Hw) as [s' Hs']. by exists s', i, (Done 0). }
  rewrite Hts in Hgo |- *. assert ((exists f, sc = SEnd f) \/ forall f, sc <> SEnd f) as [[f ->]|Hne] by (destruct sc; eauto).
  2: { left. apply (Hgo 1%nat (Sender sc so)); [done|]. destruct sc; cbn; try (by destruct (_ <? _)); try done. by destruct (Hne f). }
  cbn in Hsc. subst f. assert ((exists f, rc = REnd f) \/ forall f, rc <> REnd f) as [[f ->]|Hne] by (destruct rc; eauto).
  { right. destruct Hrc as [-> _]. by eexists _, _. }
  left. apply (Hgo 0%nat (Receiver rc ro)); [done|]. cbn [ex exec]. unfold receiver_exec.
  assert (off rc = false) as -> by (destruct rc; try done; by destruct (Hne f)).
  destruct (next_signal 0 (shared s)) as [x|] eqn:Hn; [by destruct (bool_decide _)|].
  apply next_signal_None in Hn. destruct rc as [| | | | |set|[|line rest]| | |n|d|f]; cbn [receiver_user]; try done; [|by repeat case_match|by destruct (Hne f)].
  destruct Hrc as [Hb _]. destruct Hn as [Hb'|Hn]; [congruence|]. destruct (int_pend _ _ Hsg) as [[Hp _]|[_ ->]]; [|done]. by rewrite Hn in Hp.
Qed.

(** C6: a process that sends a signal [numSigs] times and then SIGINT, and sig_receiver, with or without the time in which it
    blocks all signals, when no call of either fails and the signal is one for which signal() accepts a handler (not SIGKILL,
    SIGSTOP, 32 or 33): they make a bounded number of steps between them, however they interleave and whenever the signals are
    delivered, and neither is stuck before both have ended.  The receiver has then printed, last, how often it caught the
    signal: at most as often as it was sent, and at least as often as it was sent or as its instances can be queued, whichever
    is less.  So a standard signal is caught at least once, and a realtime signal as often as it was sent unless
    RLIMIT_SIGPENDING leaves no room for all of them. *)
Theorem sig_receiver_counts n s : nsteps (step ex works) n start_state s ->
  Z.of_nat n <= 3 * numSigs + 168 /\
  ((exists s', step ex works s s') \/
   exists out so c, threads s = [Receiver (REnd (Exited EXIT_SUCCESS)) (out ++ [count_line rprog sig c]); Sender (SEnd (Exited EXIT_SUCCESS)) so] /\
     is_intro out /\ Z.min numSigs (Z.of_nat (room limit sig)) <= c <= numSigs /\ (SIGRTMIN <= sig -> numSigs <= Z.of_nat limit -> c = numSigs)).
Proof.
  intros Hn. split.
  - pose proof (Threads.nsteps_zbounded_inv (step ex works) inv left n start_state s left_nonneg signals_left signals_start Hn) as Hle.
    unfold left, pend in Hle. cbn in Hle. rewrite !lookup_empty in Hle. cbn in Hle. lia.
  - assert (inv s) as Hs by (apply (rtc_invariant (step ex works) inv start_state); [by eauto using signals_step|apply signals_start|by eapply rtc_nsteps_2]).
    destruct (signals_goes s Hs) as [|(ro & so & Hts)]; [by left|right]. destruct Hs as (rc & ro' & sc & so' & [Hts' _ _ _ Hrc]).
    rewrite Hts in Hts'. injection Hts' as <- <- <- <-. destruct Hrc as (_ & out & c & Hi & Hc & ->). exists out, so, c.
    split_and!; try done; try apply Hc. unfold final_count, caught_of, room in Hc. intros Hrt Hl. rewrite (proj2 (Z.leb_le _ _) Hrt) in Hc. lia.
Qed.
End Correct.

(** *** A run: SIGUSR1, which is sent three times while it is blocked, is caught once *)

Definition demo_exec : nat -> answer -> list proc -> proc -> vars -> effect vars proc :=
  exec (fun _ => str "User defined signal 1") (str "sig_receiver") 100 (Some 5) (str "sig_sender") 3 10 (Some SIGINT) 1000.
Definition demo_schedule : list nat := replicate 3 0%nat ++ replicate 8 1%nat ++ replicate 80 0%nat.

(** The steps of a schedule that can be made. *)
Fixpoint follow (sched : list nat) (s : sys vars proc) : nat * sys vars proc :=
  match sched with
  | [] => (O, s)
  | i :: sched' => match run_one demo_exec i (Done 0) s with
                   | Some s' => let '(n, s'') := follow sched' s' in (S n, s'')
                   | None => follow sched' s
                   end
  end.

Lemma follow_steps sched : forall s, nsteps (step demo_exec works) (follow sched s).1 s (follow sched s).2.
Proof.
  induction sched as [|i sched IH]; intros s; cbn [follow]; [apply nsteps_O|]. destruct (run_one demo_exec i (Done 0) s) as [s'|] eqn:E; [|apply IH].
  specialize (IH s'). destruct (follow sched s') as [n s'']. eapply nsteps_l; [|exact IH]. by exists i, (Done 0).
Qed.

Example blocked_signals_merge : (fun t => match t with Receiver _ out => last out | Sender _ out => last out end) <$> threads (follow demo_schedule start_state).2 =
  [Some (str "sig_receiver: signal 10 caught 1 time" ++ [NL]); Some (str "sig_sender: exiting" ++ [NL])].
Proof. vm_compute. reflexivity. Qed.

(** The signals signal() refuses are not caught: the receiver is down although it has blocked all. *)
Example refused_signal_ends : forall n, n ∈ [SIGKILL; SIGSTOP; 32; 33] ->
  receiver_exec (fun _ => []) [] 100 (Some 5) (Done 0) RSleep [] (post 1000 n (Vars true ∅ false ∅)) =
  Go (Receiver (RDown n) []) (post 1000 n (Vars true ∅ false ∅)).
Proof. intros n Hn. repeat (apply elem_of_cons in Hn as [->|Hn]; [by vm_compute|]). by apply elem_of_nil in Hn. Qed.

(** Of three instances of a realtime signal, with room for two, two are pending. *)
Example realtime_limit : pend (Nat.iter 3 (post 2 40) (Vars true ∅ false ∅)) 40 = 2%nat.
Proof. by vm_compute. Qed.

Lemma sig_receiver_counts_witness : exists c, 1 <= c <= 3 /\
  (fun t => match t with Receiver _ out => last out | Sender _ _ => None end) <$> threads (follow demo_schedule start_state).2 =
  [Some (count_line (str "sig_receiver") 10 c); None].
Proof.
  destruct (sig_receiver_counts (fun _ => str "User defined signal 1") (str "sig_receiver") 100 (Some 5) (str "sig_sender") 3 10 1000
    ltac:(by_decide) ltac:(by_decide) ltac:(by_decide) _ _ (follow_steps demo_schedule start_state)) as [_ [(s' & i & a & _ & Hr)|(out & so & c & Hts & _ & Hc & _)]].
  - exfalso. unfold run_one in Hr. destruct i as [|[|i]]; vm_compute in Hr; discriminate Hr.
  - exists c. split; [exact Hc|]. rewrite Hts. cbn. by rewrite last_snoc.
Defined.
