(* ===== verification/SigSync.v ===== *)
(** * A parent that waits for a signal from its child

    fork_sig_sync.c (tlpi-dist/procexec).  The signal is blocked before the fork and let through by
    sigsuspend only.  A step of either process is one call; the environment answers it and gives the time
    of day for the lines that are printed.  A signal that is not blocked runs the handler, which does
    nothing, or, before there is one, kills the process. *)

From Stdlib Require Import ZArith Lia String Ascii.
From S2P Require Import Prelude CString Kernel Threads.

(** What the kernel knows of the parent. *)
Record sigs := Sigs { blocked : bool; installed : bool; pending : bool; killed : bool }.

Inductive parent_pc := PMask | PAction | PFork | PAbout | PSuspend | PGot | PRestore | PEnd (status : Z).
Inductive child_pc := CStarted | CTell | CKill | CEnd (status : Z).
Inductive proc := Parent (c : parent_pc) | Child (d : child_pc).

Section Program.
Context (parent_pid child_pid : Z).

Definition line (now : bytes) (pid : Z) (what : string) : bytes := str "[" ++ now ++ str " " ++ dec pid ++ str "] " ++ str what ++ [NL].
Definition started (now : bytes) : bytes := line now child_pid "Child started - doing some work".
Definition telling (now : bytes) : bytes := line now child_pid "Child about to signal parent".
Definition waiting (now : bytes) : bytes := line now parent_pid "Parent about to wait for signal".
Definition got (now : bytes) : bytes := line now parent_pid "Parent got signal".

(** A failed call ends the process that made it. *)
Definition parent_exec (a : answer) (now : bytes) (c : parent_pc) (g : sigs) : effect sigs proc :=
  let failing := fun k => match a with Fails _ => Go (Parent (PEnd EXIT_FAILURE)) g | _ => k end in
  if killed g then Wait
  else match c with
  | PMask => failing (Go (Parent PAction) (Sigs true (installed g) (pending g) (killed g)))
  | PAction => failing (Go (Parent PFork) (Sigs (blocked g) true (pending g) (killed g)))
  | PFork => failing (Create (Parent PAbout) (Child CStarted))
  | PAbout => Say (Parent PSuspend) (waiting now)
  | PSuspend => if pending g then Go (Parent PGot) (Sigs (blocked g) (installed g) false (killed g)) else Wait
  | PGot => Say (Parent PRestore) (got now)
  | PRestore => failing (Go (Parent (PEnd EXIT_SUCCESS)) (Sigs false (installed g) (pending g) (killed g)))
  | PEnd _ => Wait
  end.

(** [kill(getppid(), SYNC_SIG)] reaches the parent unless it has ended. *)
Definition signal_parent (g : sigs) : sigs :=
  if blocked g then Sigs (blocked g) (installed g) true (killed g)
  else if installed g then g else Sigs (blocked g) (installed g) (pending g) true.

Definition ended_proc (t : proc) : bool := match t with Parent (PEnd _) | Child (CEnd _) => true | _ => false end.

Definition child_exec (a : answer) (now : bytes) (ts : list proc) (d : child_pc) (g : sigs) : effect sigs proc :=
  match d with
  | CStarted => Say (Child CTell) (started now)
  | CTell => Say (Child CKill) (telling now)
  | CKill =>
      match a with
      | Fails _ => Go (Child (CEnd EXIT_FAILURE)) g
      | _ => Go (Child (CEnd EXIT_SUCCESS)) (match ts !! 0%nat with Some t => if ended_proc t then g else signal_parent g | None => g end)
      end
  | CEnd _ => Wait
  end.

Definition exec (self : nat) (a : answer * bytes) (ts : list proc) (t : proc) (g : sigs) : effect sigs proc :=
  match t with Parent c => parent_exec a.1 a.2 c g | Child d => child_exec a.1 a.2 ts d g end.

Definition start_state : sys sigs proc := Sys (Sigs false false false false) [Parent PMask] [] None.

(** ** What is printed when *)

(** The parent before the fork, and after it with its child. *)
Definition before_fork (c : parent_pc) (g : sigs) : Prop :=
  killed g = false /\ pending g = false /\
  match c with PMask => True | PAction => blocked g = true | PFork => blocked g = true | PEnd s => s = EXIT_FAILURE | _ => False end.

Definition child_lines (d : child_pc) (out : list bytes) : Prop :=
  match d with
  | CStarted => True
  | CTell => exists t1, [started t1] `sublist_of` out
  | CKill | CEnd _ => exists t1 t2, [started t1; telling t2] `sublist_of` out
  end.

Definition after_fork (c : parent_pc) (d : child_pc) (g : sigs) (out : list bytes) : Prop :=
  killed g = false /\ child_lines d out /\
  (match c with PRestore | PEnd _ => True | _ => blocked g = true end) /\
  match c with
  | PAbout | PSuspend => pending g = true <-> d = CEnd EXIT_SUCCESS
  | PGot => d = CEnd EXIT_SUCCESS
  | PRestore | PEnd _ => d = CEnd EXIT_SUCCESS /\ exists t1 t2 t3, [started t1; telling t2; got t3] `sublist_of` out
  | _ => False
  end.

Definition inv (s : sys sigs proc) : Prop :=
  ended s = None /\
  ((exists c, threads s = [Parent c] /\ before_fork c (shared s)) \/
   (exists c d, threads s = [Parent c; Child d] /\ after_fork c d (shared s) (printed s))).

Lemma sublist_snoc (l out : list bytes) x : l `sublist_of` out -> l ++ [x] `sublist_of` out ++ [x].
Proof. intros Hl. by apply sublist_app. Qed.
Lemma sublist_more (l out : list bytes) x : l `sublist_of` out -> l `sublist_of` out ++ [x].
Proof. intros Hl. by apply sublist_inserts_r. Qed.

Lemma child_lines_more d out x : child_lines d out -> child_lines d (out ++ [x]).
Proof.
  destruct d; cbn; [done| | |]; [intros (t1 & Hl); exists t1; by apply sublist_more| |];
    (intros (t1 & t2 & Hl); exists t1, t2; by apply sublist_more).
Qed.

Lemma sigsync_inv_step ok s s' : inv s -> step exec ok s s' -> inv s'.
Proof.
  intros [He Hinv] (_ & i & [a now] & t & _ & Hi & Hp)%step_inv. destruct s as [g ts out e]. cbn [threads shared printed ended] in *. subst e.
  destruct Hinv as [(c & -> & Hk & Hpe & Hc)|(c & d & -> & Hk & Hl & Hb & Hc)].
  - destruct i as [|i]; [|done]. injection Hi as <-. unfold exec, parent_exec in Hp. cbn [fst snd] in Hp. rewrite Hk in Hp.
    destruct c; cbn in Hc; try done; destruct a; cbn in Hp; injection Hp as <-; split; try done;
      first [left; eexists; split; [reflexivity|]; by split_and!
            |right; do 2 eexists; split; [reflexivity|]; split_and!; try done; cbn; rewrite Hpe; done].
  - destruct i as [|[|i]]; [| |done]; injection Hi as <-.
    + unfold exec, parent_exec in Hp. cbn [fst snd] in Hp. rewrite Hk in Hp. destruct c; cbn in Hc; try done.
      * cbn in Hp. injection Hp as <-. split; [done|]. right. do 2 eexists. split; [reflexivity|]. split_and!; try done. by apply child_lines_more.
      * destruct (pending g) eqn:Ep; [|done]. cbn in Hp. injection Hp as <-. split; [done|]. right. do 2 eexists. split; [reflexivity|].
        split_and!; try done. by apply Hc.
      * cbn in Hp. injection Hp as <-. split; [done|]. right. do 2 eexists. split; [reflexivity|]. subst d.
        split_and!; try done; [by apply child_lines_more|]. destruct Hl as (t1 & t2 & Hl). exists t1, t2, now. by apply (sublist_snoc [started t1; telling t2]).
      * destruct Hc as [-> Hout]. destruct a; cbn in Hp; injection Hp as <-; (split; [done|]); right; do 2 eexists; (split; [reflexivity|]); by split_and!.
    + unfold exec, child_exec in Hp. cbn [fst snd] in Hp. assert (d <> CEnd EXIT_SUCCESS -> c = PAbout \/ c = PSuspend) as Hwait.
      { intros Hd. destruct c; cbn in Hc; try done; [by left|by right|by destruct Hc|by destruct Hc]. }
      destruct d as [| | |z]; [| | |done].
      * destruct (Hwait ltac:(done)) as [-> | ->]; cbn in Hp; injection Hp as <-; (split; [done|]); right; do 2 eexists; (split; [reflexivity|]);
          split_and!; try done; try (exists now; by apply sublist_inserts_l); cbn in *; naive_solver.
      * destruct (Hwait ltac:(done)) as [-> | ->]; cbn in Hp; injection Hp as <-; (split; [done|]); right; do 2 eexists; (split; [reflexivity|]);
          destruct Hl as (t1 & Hl); split_and!; try done;
          try (exists t1, now; by apply (sublist_snoc [started t1])); cbn in *; naive_solver.
      * destruct (Hwait ltac:(done)) as [-> | ->]; cbn in Hb, Hc; destruct a; cbn [perform] in Hp; injection Hp as <-; (split; [done|]); right; do 2 eexists;
          (split; [reflexivity|]); cbn [threads lookup list_lookup ended_proc]; unfold signal_parent; try rewrite Hb; split_and!; try done; cbn in *; naive_solver.
Qed.

Lemma inv_reach s : rtc (step exec (fun _ => True)) start_state s -> inv s.
Proof.
  intros Hr. apply rtc_nsteps in Hr as [n Hn]. assert (inv start_state) as H0.
  { split; [done|]. left. exists PMask. split; [done|]. by split_and!. }
  revert H0 Hn. generalize start_state. induction n as [|n IH]; intros s0 H0 Hn; inversion Hn; subst; [done|]. eapply IH; [by eapply sigsync_inv_step|done].
Qed.

(** *** It comes to an end *)

Definition left_to_do (t : proc) : Z :=
  match t with
  | Parent c => match c with PMask => 11 | PAction => 10 | PFork => 9 | PAbout => 5 | PSuspend => 4 | PGot => 3 | PRestore => 2 | PEnd _ => 1 end
  | Child d => match d with CStarted => 3 | CTell => 2 | CKill => 1 | CEnd _ => 0 end
  end.

Lemma step_decreases ok s s' : step exec ok s s' -> zsum left_to_do (threads s') < zsum left_to_do (threads s).
Proof.
  intros (_ & i & [a now] & t & _ & Hi & Hp)%step_inv. destruct s as [g ts out e]. cbn [threads shared] in *.
  destruct t as [c|d]; unfold exec, parent_exec, child_exec in Hp; cbn [fst snd] in Hp.
  - destruct (killed g); [done|]. destruct c; try done; try destruct (pending g); try done; try destruct a; cbn [perform] in Hp; injection Hp as <-;
      cbn [threads]; rewrite ?zsum_app, (zsum_insert _ _ _ _ _ Hi); cbn; lia.
  - destruct d; try done; try destruct a; cbn [perform] in Hp; injection Hp as <-; cbn [threads]; rewrite (zsum_insert _ _ _ _ _ Hi); cbn; lia.
Qed.

(** The calls do not fail. *)
Definition works (a : answer * bytes) : Prop := a.1 = Fine.

Definition succeeding (t : proc) : Prop := match t with Parent (PEnd s) | Child (CEnd s) => s = EXIT_SUCCESS | _ => True end.

Lemma step_succeeds s s' : Forall succeeding (threads s) -> step exec works s s' -> Forall succeeding (threads s').
Proof.
  intros Hs (_ & i & [a now] & t & Ha & Hi & Hp)%step_inv. unfold works in Ha. cbn [fst] in Ha. subst a. destruct s as [g ts out e]. cbn [threads shared] in *.
  destruct t as [c|d]; unfold exec, parent_exec, child_exec in Hp; cbn [fst snd] in Hp.
  - destruct (killed g); [done|]. destruct c; try done; try destruct (pending g); try done; cbn [perform] in Hp; injection Hp as <-;
      cbn [threads]; try (apply Forall_app; split; [|by repeat constructor]); by apply Forall_insert.
  - destruct d; try done; cbn [perform] in Hp; injection Hp as <-; by apply Forall_insert.
Qed.

(** Where nothing can go on any more. *)
Lemma stuck_ends s : inv s -> (forall s', ~ step exec works s s') ->
  (exists c d, threads s = [Parent (PEnd c); Child (CEnd d)]) \/ threads s = [Parent (PEnd EXIT_FAILURE)] \/
  (exists d, threads s = [Parent PSuspend; Child (CEnd d)] /\ d <> EXIT_SUCCESS).
Proof.
  intros [He Hinv] Hstuck. assert (forall i t, threads s !! i = Some t -> exec i (Fine, []) (threads s) t (shared s) = Wait) as Hwait.
  { intros i t Hi. destruct (exec i (Fine, []) (threads s) t (shared s)) eqn:E; try done;
      (destruct (run_one_enabled exec i (Fine, []) t s He Hi) as [s' Hs']; [by rewrite E|]; destruct (Hstuck s'); by exists i, (Fine, [])). }
  destruct s as [g ts out e]. cbn [threads shared printed ended] in *. destruct Hinv as [(c & -> & Hk & Hpe & Hc)|(c & d & -> & Hk & Hl & Hb & Hc)].
  - specialize (Hwait 0%nat _ eq_refl). unfold exec, parent_exec in Hwait. cbn [fst snd] in Hwait. rewrite Hk in Hwait.
    destruct c; try done. cbn in Hc. subst. auto.
  - pose proof (Hwait 0%nat _ eq_refl) as H0. pose proof (Hwait 1%nat _ eq_refl) as H1. unfold exec, parent_exec, child_exec in H0, H1. cbn [fst snd] in H0, H1.
    rewrite Hk in H0. destruct d as [| | |z]; try done. destruct c; try done; cbn in Hc.
    + right. right. exists z. split; [done|]. intros ->. rewrite (proj2 Hc eq_refl) in H0. done.
    + left. by do 2 eexists.
Qed.

(** C21: fork_sig_sync never misses the signal.  Whatever the calls answer, a run has at most ten steps, and when the parent has gone
    beyond its wait the child has ended its work with a signal, and the lines of the child that it works and that it is about to
    signal come before the line of the parent that it got the signal.  When no call fails, a run that cannot go on has both
    processes ended with status 0. *)
Theorem fork_sig_sync_waits n s : nsteps (step exec (fun _ => True)) n start_state s ->
  Z.of_nat n <= 10 /\
  (forall c d, threads s = [Parent c; Child d] -> c = PRestore \/ (exists z, c = PEnd z) ->
     d = CEnd EXIT_SUCCESS /\ exists t1 t2 t3, [started t1; telling t2; got t3] `sublist_of` printed s) /\
  (rtc (step exec works) start_state s -> (forall s', ~ step exec works s s') -> threads s = [Parent (PEnd EXIT_SUCCESS); Child (CEnd EXIT_SUCCESS)]).
Proof.
  intros Hn. assert (rtc (step exec (fun _ => True)) start_state s) as Hr by (apply rtc_nsteps; by exists n).
  pose proof (inv_reach s Hr) as HI. split_and!.
  - pose proof (nsteps_zbounded_inv (step exec (fun _ => True)) inv (fun s => zsum left_to_do (threads s) - 1) n start_state s) as Hm.
    transitivity (zsum left_to_do (threads start_state) - 1); [|done]. apply Hm; [| |apply inv_reach, rtc_refl|done].
    + intros a [_ [(c & -> & _)|(c & d & -> & _)]]; [destruct c; cbn; lia|destruct c, d; cbn; lia].
    + intros a b Ha Hab. split; [by eapply sigsync_inv_step|]. apply step_decreases in Hab. lia.
  - intros c d Ht Hc. destruct HI as [_ [(c' & Ht' & _)|(c' & d' & Ht' & _ & _ & _ & Ha)]]; rewrite Ht in Ht'; [done|].
    injection Ht' as <- <-. by destruct Hc as [-> | [z ->]].
  - intros Hw Hstuck. assert (Forall succeeding (threads s)) as Hs.
    { apply rtc_nsteps in Hw as [m Hm]. assert (Forall succeeding (threads start_state)) as H0 by by repeat constructor.
      revert H0 Hm. clear -s. generalize start_state. induction m as [|m IH]; intros s0 H0 Hm; inversion Hm; subst; [done|]. eapply IH; [by eapply step_succeeds|done]. }
    destruct (stuck_ends s HI Hstuck) as [(c & d & E)|[E|(d & E & Hd)]]; rewrite E in *; rewrite !Forall_cons in Hs; cbn in Hs; naive_solver.
Qed.
End Program.

(** *** A run *)

Definition a_schedule : list (nat * (answer * bytes)) :=
  let f := (Fine, str "17:59:02") in [(0, f); (0, f); (0, f); (1, f); (1, f); (1, f); (0, f); (0, f); (0, f); (0, f)]%nat.

Lemma fork_sig_sync_waits_witness : exists s, run (exec 100 101) a_schedule start_state = Some s /\
  threads s = [Parent (PEnd EXIT_SUCCESS); Child (CEnd EXIT_SUCCESS)] /\
  exists t1 t2 t3, [started 101 t1; telling 101 t2; got 100 t3] `sublist_of` printed s.
Proof.
  destruct (run (exec 100 101) a_schedule start_state) as [s|] eqn:E; [|by vm_compute in E].
  exists s. split; [done|]. assert (rtc (step (exec 100 101) (fun _ => True)) start_state s) as [n Hn]%rtc_nsteps.
  { eapply run_rtc; [|exact E]. by apply Forall_true. }
  destruct (fork_sig_sync_waits 100 101 n s Hn) as (_ & Hd & _).
  assert (threads s = [Parent (PEnd EXIT_SUCCESS); Child (CEnd EXIT_SUCCESS)]) as Ht by (vm_compute in E; injection E as <-; reflexivity).
  split; [done|]. destruct (Hd _ _ Ht) as [_ Hl]; [right; by eexists|exact Hl].
Defined.
