(* ===== verification/Process.v ===== *)
(** * Processes, sessions and descriptors

    The part of the state of a process that becoming a daemon and starting a program on a pseudoterminal
    change, for Daemon.v and Pty.v: the calls of [ProcCalls], and in [ProcLaws] what they do to the view
    [pstate] that a kernel gives of the calling process. *)

From Stdlib Require Import ZArith Lia String Ascii.
From S2P Require Import Prelude CString Kernel.

Class ProcCalls (K : Type) := {
  k_fork : K -> (Z + Z) * K;
  k_setsid : K -> (Z + Z) * K;
  k_close_fd : Z -> K -> (Z + Z) * K;
  k_open_file : bytes -> Z -> K -> (Z + Z) * K;
  k_dup2 : Z -> Z -> K -> (Z + Z) * K
}.

(** A process: whether it leads a process group and a session, its controlling terminal, its file mode
    creation mask, its directory, its limit of open files, and what its descriptors refer to. *)
Record pstate := PState {
  group_leader : bool; session_leader : bool; tty : option bytes; mask : Z; cwd : bytes; open_max : Z; fds : gmap Z bytes
}.

Definition child_of (p : pstate) : pstate := PState false false (tty p) (mask p) (cwd p) (open_max p) (fds p).
Definition new_session (p : pstate) : pstate := PState true true None (mask p) (cwd p) (open_max p) (fds p).
Definition with_mask (m : Z) (p : pstate) : pstate := PState (group_leader p) (session_leader p) (tty p) m (cwd p) (open_max p) (fds p).
Definition with_cwd (d : bytes) (p : pstate) : pstate := PState (group_leader p) (session_leader p) (tty p) (mask p) d (open_max p) (fds p).
Definition with_fds (f : gmap Z bytes) (p : pstate) : pstate := PState (group_leader p) (session_leader p) (tty p) (mask p) (cwd p) (open_max p) f.
Definition with_tty (t : option bytes) (p : pstate) : pstate := PState (group_leader p) (session_leader p) t (mask p) (cwd p) (open_max p) (fds p).

(** A session leader without a terminal gets the first terminal it opens. *)
Definition opened (is_tty : bytes -> bool) (path : bytes) (fd : Z) (p : pstate) : pstate :=
  let p' := with_fds (<[fd := path]> (fds p)) p in
  if session_leader p && is_tty path && bool_decide (tty p = None) then with_tty (Some path) p' else p'.

Class ProcLaws (K : Type) `{!ProcCalls K} := {
  view : K -> pstate;
  is_tty : bytes -> bool;
  null_no_tty : is_tty (str "/dev/null") = false;
  fork_child : forall k k', k_fork k = (inl 0, k') -> view k' = child_of (view k);
  fork_parent : forall k r k', k_fork k = (inl r, k') -> r <> 0 -> 0 < r /\ view k' = view k;
  fork_fails : forall k e k', k_fork k = (inr e, k') -> view k' = view k;
  setsid_new : forall k r k', k_setsid k = (inl r, k') -> 0 < r /\ group_leader (view k) = false /\ view k' = new_session (view k);
  setsid_fails : forall k e k', k_setsid k = (inr e, k') -> group_leader (view k) = true /\ view k' = view k;
  close_closes : forall fd k, view (k_close_fd fd k).2 = with_fds (delete fd (fds (view k))) (view k);
  open_opens : forall path k r k', k_open_file path O_RDWR k = (inl r, k') ->
    0 <= r /\ fds (view k) !! r = None /\ view k' = opened is_tty path r (view k);
  open_fails : forall path k e k', k_open_file path O_RDWR k = (inr e, k') -> view k' = view k;
  dup2_dups : forall fd fd' k r k', k_dup2 fd fd' k = (inl r, k') ->
    r = fd' /\ exists f, fds (view k) !! fd = Some f /\ view k' = with_fds (<[fd' := f]> (fds (view k))) (view k);
  dup2_fails : forall fd fd' k e k', k_dup2 fd fd' k = (inr e, k') -> view k' = view k
}.

Section Rules.
Context {K : Type} `{!ProcCalls K, !ProcLaws K}.

(** Whatever [close] answers, the descriptor is closed. *)
Lemma wp_close fd (p : proc K) (Q : outcome Z -> proc K -> Prop) :
  (forall o k' e, view k' = with_fds (delete fd (fds (view (kern p)))) (view (kern p)) -> Q (Ret o) (Proc k' e (trace p))) ->
  wp (syscall (-1) (k_close_fd fd)) p Q.
Proof.
  intros HQ. apply wp_syscall. pose proof (close_closes fd (kern p)) as Hc.
  destruct (k_close_fd fd (kern p)) as [[r|e] k']; by apply HQ.
Qed.

(** [dup2] returns the descriptor it was given, or fails. *)
Lemma wp_dup2 fd fd' (p : proc K) (Q : outcome Z -> proc K -> Prop) :
  (forall f q, fds (view (kern p)) !! fd = Some f -> view (kern q) = with_fds (<[fd' := f]> (fds (view (kern p)))) (view (kern p)) -> trace q = trace p -> Q (Ret fd') q) ->
  (forall q, view (kern q) = view (kern p) -> trace q = trace p -> Q (Ret (-1)) q) ->
  wp (syscall (-1) (k_dup2 fd fd')) p Q.
Proof.
  intros HQ Hno. apply wp_syscall. destruct (k_dup2 fd fd' (kern p)) as [[r|e] k'] eqn:E.
  - apply dup2_dups in E as (-> & f & Hf & Hv). by eapply HQ.
  - apply dup2_fails in E. by apply Hno.
Qed.
End Rules.

Definition standard (fd : Z) : bool := (0 <=? fd) && (fd <=? 2).

(** A descriptor put over the three standard ones. *)
Lemma lookup_standard (f : gmap Z bytes) x fd :
  <[STDERR_FILENO := x]> (<[STDOUT_FILENO := x]> (<[STDIN_FILENO := x]> f)) !! fd = if standard fd then Some x else f !! fd.
Proof.
  rewrite !lookup_insert. unfold standard, STDIN_FILENO, STDOUT_FILENO, STDERR_FILENO.
  destruct (Z.leb_spec 0 fd), (Z.leb_spec fd 2); cbn [andb]; repeat case_decide; try done; lia.
Qed.

(** ** A kernel

    The answers to the forks are given; every other call that can succeed does. *)

Record machine := Machine { state : pstate; forks : list Z }.

Definition on_state (f : pstate -> pstate) (k : machine) : machine := Machine (f (state k)) (forks k).

(** The lowest free descriptor from [fd] on, of [fuel] ones. *)
Fixpoint lowest_fd (fuel : nat) (fd : Z) (f : gmap Z bytes) : option Z :=
  match fuel with
  | O => None
  | S fuel' => if f !! fd is None then Some fd else lowest_fd fuel' (fd + 1) f
  end.

Lemma lowest_fd_spec fuel fd f r : lowest_fd fuel fd f = Some r -> fd <= r /\ f !! r = None.
Proof.
  revert fd. induction fuel as [|fuel IH]; intros fd; cbn; [done|]. destruct (f !! fd) eqn:E.
  - intros (H1 & H2)%IH. split; [lia|done].
  - intros [= <-]. split; [lia|done].
Qed.

(** The terminals are the files under /dev/pts. *)
Definition under_pts (path : bytes) : bool := bool_decide (take 9 path = str "/dev/pts/").

Definition machine_open (path : bytes) (k : machine) : (Z + Z) * machine :=
  match lowest_fd (S (size (fds (state k)))) 0 (fds (state k)) with
  | Some r => (inl r, on_state (opened under_pts path r) k)
  | None => (inr ENOMEM, k)
  end.

#[export] Instance machine_calls : ProcCalls machine := {
  k_fork k :=
    match forks k with
    | 0 :: l => (inl 0, Machine (child_of (state k)) l)
    | pid :: l => if 0 <? pid then (inl pid, Machine (state k) l) else (inr EAGAIN, Machine (state k) l)
    | [] => (inr EAGAIN, k)
    end;
  k_setsid k := if group_leader (state k) then (inr EPERM, k) else (inl 1, on_state new_session k);
  k_close_fd fd k := (if fds (state k) !! fd is Some _ then inl 0 else inr EBADF, on_state (fun s => with_fds (delete fd (fds s)) s) k);
  k_open_file path flags k := machine_open path k;
  k_dup2 fd fd' k :=
    match fds (state k) !! fd with
    | Some f => (inl fd', on_state (fun s => with_fds (<[fd' := f]> (fds s)) s) k)
    | None => (inr EBADF, k)
    end
}.

#[export] Instance machine_laws : ProcLaws machine.
Proof.
  refine {| view := state; is_tty := under_pts |}; try (by intros; cbn -[lowest_fd size] in *; unfold machine_open in *; repeat case_match; simplify_eq/=).
  - intros path k r k'. cbn -[lowest_fd size]. unfold machine_open. destruct (lowest_fd (S (size (fds (state k)))) 0 (fds (state k))) as [r'|] eqn:E; [|done].
    intros [= <- <-]. apply lowest_fd_spec in E as (H1 & H2). by split_and!.
  - intros fd fd' k r k'. cbn. destruct (fds (state k) !! fd) as [f|]; [|done]. intros [= <- <-]. split; [done|]. by exists f.
Defined.
