(* ===== verification/Daemon.v ===== *)
(** * Becoming a daemon

    become_daemon.c (tlpi-dist/daemons).  [becomeDaemon] is followed through both its forks; the state
    of the process that the calls change is that of Process.v. *)

From Stdlib Require Import ZArith Lia String Ascii.
From S2P Require Import Prelude CString Kernel Process.

Definition BD_NO_CHDIR : Z := 1.
Definition BD_NO_CLOSE_FILES : Z := 2.
Definition BD_NO_REOPEN_STD_FDS : Z := 4.
Definition BD_NO_UMASK0 : Z := 8.
Definition BD_MAX_CLOSE : Z := 8192.

(** More calls; [k_open_max] is [sysconf(_SC_OPEN_MAX)]. *)
Class DaemonCalls (K : Type) `{!ProcCalls K} := {
  k_umask : Z -> K -> Z * K;
  k_chdir : bytes -> K -> (Z + Z) * K;
  k_open_max : K -> Z
}.

Section Program.
Context {K : Type} `{!ProcCalls K, !DaemonCalls K}.

Definition flag (flags bit : Z) : bool := negb (Z.land flags bit =? 0).

Definition umask (m : Z) : M (proc K) Z := fun p => let '(old, k) := k_umask m (kern p) in (Ret old, Proc k (errno p) (trace p)).

(** [switch (fork())]: the parent ends, the child goes on. *)
Definition fork_and_go_on (k : M (proc K) Z) : M (proc K) Z :=
  r ← syscall (-1) k_fork;
  if r =? -1 then mret (-1) else if r =? 0 then k else exit_ EXIT_SUCCESS.

Fixpoint close_from (fd : Z) (count : nat) : M (proc K) unit :=
  match count with
  | O => mret tt
  | S count' => syscall (-1) (k_close_fd fd) ;; close_from (fd + 1) count'
  end.

(** Closes the descriptors below the limit, or below a guess. *)
Definition close_files : M (proc K) unit :=
  maxfd ← gets (fun p => s32 (k_open_max (kern p)));
  let maxfd := if maxfd =? -1 then BD_MAX_CLOSE else maxfd in
  close_from 0 (Z.to_nat maxfd).

Definition reopen_std_fds : M (proc K) Z :=
  syscall (-1) (k_close_fd STDIN_FILENO) ;;
  fd ← syscall (-1) (k_open_file (str "/dev/null") O_RDWR);
  if negb (fd =? STDIN_FILENO) then mret (-1)
  else
    r ← syscall (-1) (k_dup2 STDIN_FILENO STDOUT_FILENO);
    if negb (r =? STDOUT_FILENO) then mret (-1)
    else
      r ← syscall (-1) (k_dup2 STDIN_FILENO STDERR_FILENO);
      if negb (r =? STDERR_FILENO) then mret (-1) else mret 0.

Definition becomeDaemon (flags : Z) : M (proc K) Z :=
  fork_and_go_on (
    r ← syscall (-1) k_setsid;
    if r =? -1 then mret (-1)
    else
      fork_and_go_on (
        (if negb (flag flags BD_NO_UMASK0) then umask 0 ;; mret tt else mret tt) ;;
        (if negb (flag flags BD_NO_CHDIR) then syscall (-1) (k_chdir (str "/")) ;; mret tt else mret tt) ;;
        (if negb (flag flags BD_NO_CLOSE_FILES) then close_files else mret tt) ;;
        (if negb (flag flags BD_NO_REOPEN_STD_FDS) then reopen_std_fds else mret 0))).
End Program.

(** ** What a kernel promises *)

Class DaemonLaws (K : Type) `{!ProcCalls K, !DaemonCalls K, !ProcLaws K} := {
  open_max_is : forall k, k_open_max k = open_max (view k);
  umask_sets : forall m k old k', k_umask m k = (old, k') -> view k' = with_mask m (view k);
  chdir_moves : forall d k r k', k_chdir d k = (inl r, k') -> view k' = with_cwd d (view k);
  chdir_fails : forall d k e k', k_chdir d k = (inr e, k') -> view k' = view k
}.

Section Correct.
Context {K : Type} `{!ProcCalls K, !DaemonCalls K, !ProcLaws K, !DaemonLaws K}.

(** The limit that [close_files] takes. *)
Definition limit (s : pstate) : Z := let m := s32 (open_max s) in if m =? -1 then BD_MAX_CLOSE else m.

Lemma wp_fork_and_go_on (m : M (proc K) Z) (p : proc K) (Q : outcome Z -> proc K -> Prop) :
  (forall k', view k' = child_of (view (kern p)) -> wp m (Proc k' (errno p) (trace p)) Q) ->
  (forall k', view k' = view (kern p) -> Q (Exit EXIT_SUCCESS) (Proc k' (errno p) (trace p))) ->
  (forall k' e, view k' = view (kern p) -> Q (Ret (-1)) (Proc k' e (trace p))) ->
  wp (fork_and_go_on m) p Q.
Proof.
  intros Hchild Hparent Hfail. apply wp_bind, wp_syscall. destruct (k_fork (kern p)) as [[r|e] k'] eqn:E.
  - destruct (Z.eqb_spec r (-1)) as [->|]; [by apply fork_parent in E as [? _]|].
    destruct (Z.eqb_spec r 0) as [->|]; [apply Hchild; by eapply fork_child|]. apply Hparent. by eapply fork_parent.
  - apply Hfail. by eapply fork_fails.
Qed.

Lemma close_from_closes count fd (p : proc K) : wp (close_from fd count) p (fun o q => o = Ret tt /\
  exists f, view (kern q) = with_fds f (view (kern p)) /\
    forall i, f !! i = if (fd <=? i) && (i <? fd + Z.of_nat count) then None else fds (view (kern p)) !! i).
Proof.
  revert fd p. induction count as [|count IH]; intros fd p.
  - apply wp_ret. split; [done|]. exists (fds (view (kern p))). split; [by destruct (view (kern p))|]. intros i.
    destruct (Z.leb_spec fd i), (Z.ltb_spec i (fd + Z.of_nat 0)); cbn [andb]; try done. lia.
  - cbn [close_from]. apply wp_bind, wp_close. intros o k' e Hv. eapply wp_mono; [apply IH|]. cbn [kern].
    intros o' q [-> (f & Hf & Hl)]. split; [done|]. exists f. rewrite Hf, Hv. split; [done|]. intros i. rewrite Hl, Hv. cbn [with_fds fds].
    rewrite lookup_delete.
    destruct (Z.leb_spec (fd + 1) i), (Z.leb_spec fd i), (Z.ltb_spec i (fd + 1 + Z.of_nat count)), (Z.ltb_spec i (fd + Z.of_nat (S count)));
      cbn [andb]; try case_decide; try done; lia.
Qed.

Lemma wp_close_files (p : proc K) (Q : outcome unit -> proc K -> Prop) :
  (forall q f, view (kern q) = with_fds f (view (kern p)) ->
     (forall i, f !! i = if (0 <=? i) && (i <? limit (view (kern p))) then None else fds (view (kern p)) !! i) -> Q (Ret tt) q) ->
  wp close_files p Q.
Proof.
  intros HQ. unfold close_files. apply wp_bind, wp_gets. rewrite open_max_is. change (wp (close_from 0 (Z.to_nat (limit (view (kern p))))) p Q).
  eapply wp_mono; [apply close_from_closes|]. intros o q [-> (f & Hf & Hl)]. apply (HQ q f Hf).
  intros i. rewrite Hl. destruct (Z.leb_spec 0 i); cbn [andb]; [|done].
  destruct (Z.ltb_spec i (0 + Z.of_nat (Z.to_nat (limit (view (kern p)))))), (Z.ltb_spec i (limit (view (kern p)))); try done; lia.
Qed.

Lemma wp_reopen_std_fds (p : proc K) (Q : outcome Z -> proc K -> Prop) :
  (forall q f, view (kern q) = with_fds f (view (kern p)) ->
     (forall i, f !! i = if standard i then Some (str "/dev/null") else fds (view (kern p)) !! i) -> Q (Ret 0) q) ->
  (forall q, Q (Ret (-1)) q) -> wp reopen_std_fds p Q.
Proof.
  intros HQ Hno. unfold reopen_std_fds. apply wp_bind, wp_close. intros _ k1 e1 Hv1.
  apply wp_bind, wp_syscall. cbn [kern errno trace]. destruct (k_open_file (str "/dev/null") O_RDWR k1) as [[r|e] k2] eqn:E2; [|apply Hno].
  apply open_opens in E2 as (_ & _ & Hv2). unfold opened in Hv2. rewrite null_no_tty, andb_false_r in Hv2. cbn [andb] in Hv2.
  destruct (Z.eqb_spec r STDIN_FILENO) as [->|]; cbn [negb]; [|apply Hno].
  apply wp_bind, wp_dup2; [|by intros; apply Hno]. cbn [kern]. rewrite Hv2. intros f3 q3 Hf3 Hv3 _.
  cbn [with_fds fds] in Hf3. rewrite lookup_insert_eq in Hf3. injection Hf3 as <-. cbn [Z.eqb negb STDOUT_FILENO].
  apply wp_bind, wp_dup2; [|by intros; apply Hno]. rewrite Hv3. intros f4 q4 Hf4 Hv4 _.
  cbn [with_fds fds] in Hf4. rewrite lookup_insert_ne, lookup_insert_eq in Hf4 by done. injection Hf4 as <-. cbn [Z.eqb negb STDERR_FILENO].
  apply wp_ret. eapply HQ; [rewrite Hv4, Hv1; reflexivity|]. intros i. cbn [with_fds fds].
  rewrite lookup_standard, lookup_delete. unfold standard, STDIN_FILENO. destruct (Z.leb_spec 0 i), (Z.leb_spec i 2); cbn [andb]; try case_decide; try done; lia.
Qed.

(** What the process is when [becomeDaemon] has succeeded: in no session it could take a terminal for, and
    with the files that the flags ask for. *)
Definition is_daemon (flags : Z) (k : K) (s : pstate) : Prop :=
  group_leader s = false /\ session_leader s = false /\ tty s = None /\
  mask s = (if flag flags BD_NO_UMASK0 then mask (view k) else 0) /\
  (cwd s = cwd (view k) \/ flag flags BD_NO_CHDIR = false /\ cwd s = str "/") /\
  forall fd, fds s !! fd =
    if negb (flag flags BD_NO_REOPEN_STD_FDS) && standard fd then Some (str "/dev/null")
    else if negb (flag flags BD_NO_CLOSE_FILES) && (0 <=? fd) && (fd <? limit (view k)) then None
    else fds (view k) !! fd.

(** The four steps that a flag can suppress. *)
Lemma wp_unless {A} (b : bool) (m : M (proc K) A) (a : A) (p : proc K) Q :
  (b = false -> wp m p Q) -> (b = true -> Q (Ret a) p) -> wp (if negb b then m else mret a) p Q.
Proof. destruct b; cbn; [intros _ H; by apply H|intros H _; by apply H]. Qed.

Lemma wp_umask_step (b : bool) (p : proc K) (Q : outcome unit -> proc K -> Prop) :
  (forall q : proc K, view (kern q) = with_mask (if b then mask (view (kern p)) else 0) (view (kern p)) -> Q (Ret tt) q) ->
  wp (if negb b then umask 0 ;; mret tt else mret tt) p Q.
Proof.
  intros HQ. apply wp_unless; intros ->; [|apply HQ; by destruct (view (kern p))].
  apply wp_bind. unfold wp, umask. destruct (k_umask 0 (kern p)) as [old k'] eqn:E. apply HQ. cbn. by eapply umask_sets.
Qed.

Lemma wp_chdir_step (b : bool) (p : proc K) (Q : outcome unit -> proc K -> Prop) :
  (forall (q : proc K) d, view (kern q) = with_cwd d (view (kern p)) -> (d = cwd (view (kern p)) \/ b = false /\ d = str "/") -> Q (Ret tt) q) ->
  wp (if negb b then syscall (-1) (k_chdir (str "/")) ;; mret tt else mret tt) p Q.
Proof.
  intros HQ. assert (forall k, k = with_cwd (cwd k) k) as Hsame by by intros [].
  apply wp_unless; intros ->; [|apply (HQ _ (cwd (view (kern p)))); auto].
  apply wp_bind, wp_syscall. destruct (k_chdir (str "/") (kern p)) as [[r|e] k'] eqn:E.
  - apply chdir_moves in E. eapply HQ; [exact E|by right].
  - apply chdir_fails in E. eapply HQ; [|by left]. cbn. rewrite E. apply Hsame.
Qed.

Lemma wp_close_step (b : bool) (p : proc K) (Q : outcome unit -> proc K -> Prop) :
  (forall (q : proc K) f, view (kern q) = with_fds f (view (kern p)) ->
     (forall i, f !! i = if negb b && (0 <=? i) && (i <? limit (view (kern p))) then None else fds (view (kern p)) !! i) -> Q (Ret tt) q) ->
  wp (if negb b then close_files else mret tt) p Q.
Proof.
  intros HQ. apply wp_unless; intros ->; [by apply wp_close_files|].
  apply (HQ _ (fds (view (kern p)))); [by destruct (view (kern p))|done].
Qed.

Lemma wp_reopen_step (b : bool) (p : proc K) (Q : outcome Z -> proc K -> Prop) :
  (forall (q : proc K) f, view (kern q) = with_fds f (view (kern p)) ->
     (forall i, f !! i = if negb b && standard i then Some (str "/dev/null") else fds (view (kern p)) !! i) -> Q (Ret 0) q) ->
  (forall q, Q (Ret (-1)) q) -> wp (if negb b then reopen_std_fds else mret 0) p Q.
Proof.
  intros HQ Hno. apply wp_unless; intros ->; [by apply wp_reopen_std_fds|].
  apply (HQ _ (fds (view (kern p)))); [by destruct (view (kern p))|done].
Qed.

(** a process in which [becomeDaemon] has returned 0 is a daemon: it leads neither a process group nor
    a session and has no controlling terminal, so that it cannot get one; and unless a
    flag says otherwise, its mask is 0, its directory the root, its standard descriptors are
    /dev/null and the other descriptors below the limit are closed.  Every other process that comes out of the
    call is a parent, which exits with success and keeps its state, or one in which a call
    failed, which gets -1. *)
Theorem becomeDaemon_daemon flags (p : proc K) :
  let '(o, q) := becomeDaemon flags p in
  (o = Ret 0 /\ is_daemon flags (kern p) (view (kern q))) \/
  (o = Exit EXIT_SUCCESS /\ (view (kern q) = view (kern p) \/ view (kern q) = new_session (child_of (view (kern p))))) \/
  o = Ret (-1).
Proof.
  set (Q := fun (o : outcome Z) (q : proc K) => (o = Ret 0 /\ is_daemon flags (kern p) (view (kern q))) \/
    (o = Exit EXIT_SUCCESS /\ (view (kern q) = view (kern p) \/ view (kern q) = new_session (child_of (view (kern p))))) \/ o = Ret (-1)).
  enough (wp (becomeDaemon flags) p Q) as Hwp by (unfold wp in Hwp; by destruct (becomeDaemon flags p)).
  apply wp_fork_and_go_on; [|by right; left; auto|by right; right]. intros k1 Hv1.
  apply wp_bind, wp_syscall. cbn [kern errno trace]. destruct (k_setsid k1) as [[r|e] k2] eqn:Es; [|by right; right].
  apply setsid_new in Es as (Hr & _ & Hv2). destruct (Z.eqb_spec r (-1)); [lia|]. rewrite Hv1 in Hv2.
  apply wp_fork_and_go_on; cbn [kern errno trace]; [|intros k' Hk; right; left; split; [done|right; cbn; by rewrite Hk]|by right; right]. intros k3 Hv3. rewrite Hv2 in Hv3. clear k1 k2 Hv1 Hv2.
  apply wp_bind, wp_umask_step. intros q1 H1. apply wp_bind, wp_chdir_step. intros q2 d H2 Hd.
  apply wp_bind, wp_close_step. intros q3 f3 H3 Hf3. apply wp_reopen_step; [|by right; right]. intros q4 f4 H4 Hf4.
  left. split; [done|]. cbn [kern] in H1. rewrite H3, H2, H1, Hv3 in H4, Hf4. rewrite H2, H1, Hv3 in Hf3. rewrite H1, Hv3 in Hd.
  cbn [child_of new_session with_mask with_cwd with_fds cwd mask fds open_max] in *. rewrite H4. split_and!; try done.
  intros fd. cbn [with_fds fds]. by rewrite Hf4, Hf3.
Qed.
End Correct.

(** ** The kernel of Process.v *)

#[export] Instance machine_daemon : DaemonCalls machine := {
  k_umask m k := (mask (state k), on_state (with_mask m) k);
  k_chdir d k := (inl 0, on_state (with_cwd d) k);
  k_open_max k := open_max (state k)
}.

#[export] Instance machine_daemon_laws : DaemonLaws machine.
Proof. split; intros; cbn in *; by simplify_eq/=. Qed.

Lemma becomeDaemon_daemon_witness :
  let p := Proc (Machine (PState true true (Some (str "tty")) 18 (str "/home") 8 {[ 0 := str "tty"; 1 := str "tty"; 2 := str "tty"; 5 := str "log"; 9 := str "kept" ]}) [0; 0]) 0 [] in
  exists q, becomeDaemon 0 p = (Ret 0, q) /\ is_daemon 0 (kern p) (state (kern q)).
Proof.
  intros p. pose proof (becomeDaemon_daemon 0 p) as H. destruct (becomeDaemon 0 p) as [o q] eqn:E.
  assert ((becomeDaemon 0 p).1 = Ret 0) as Ho by (vm_compute; reflexivity). rewrite E in Ho. cbn in Ho. subst o.
  exists q. split; [reflexivity|]. destruct H as [[_ H]|[[H _]|H]]; [exact H|discriminate H|discriminate H].
Defined.
