(* ===== verification/Pty.v ===== *)
(** * Pseudoterminals

    pty_master_open.c and pty_fork.c (tlpi-dist/pty), over the processes of Process.v: opening a master,
    and a child whose terminal is the slave. *)

From Stdlib Require Import ZArith Lia String Ascii.
From S2P Require Import Prelude CString Kernel ErrorFns Process.

Definition EOVERFLOW : Z := 75.
Definition MAX_SNAME : Z := 1000.

(** The calls on terminals; [k_ptsname] is null or the name of the slave, [k_controlling] the ioctl
    TIOCSCTTY. *)
Class PtyCalls (K : Type) `{!ProcCalls K} := {
  k_posix_openpt : K -> (Z + Z) * K;
  k_grantpt : Z -> K -> (Z + Z) * K;
  k_unlockpt : Z -> K -> (Z + Z) * K;
  k_ptsname : Z -> K -> (bytes + Z) * K;
  k_controlling : Z -> K -> (Z + Z) * K;
  k_tcsetattr : Z -> K -> (Z + Z) * K;
  k_setwinsz : Z -> K -> (Z + Z) * K
}.

Section Program.
Context `{!Messages} {K : Type} `{!ProcCalls K, !PtyCalls K}.

(** [close], which might change [errno]. *)
Definition fail_closing (fd : Z) : M (proc K) (Z * bytes) :=
  savedErrno ← get_errno;
  syscall (-1) (k_close_fd fd) ;;
  set_errno savedErrno ;;
  mret (-1, []).

(** The result is the descriptor and what was stored in [slaveName]. *)
Definition ptyMasterOpen (snLen : Z) : M (proc K) (Z * bytes) :=
  masterFd ← syscall (-1) k_posix_openpt;
  if masterFd =? -1 then mret (-1, [])
  else
    r ← syscall (-1) (k_grantpt masterFd);
    if r =? -1 then fail_closing masterFd
    else
      r ← syscall (-1) (k_unlockpt masterFd);
      if r =? -1 then fail_closing masterFd
      else
        p ← syscall None (fun k => match k_ptsname masterFd k with (inl name, k') => (inl (Some name), k') | (inr e, k') => (inr e, k') end);
        match p with
        | None => fail_closing masterFd
        | Some p =>
            if strlen p <? snLen then mret (masterFd, p)
            else syscall (-1) (k_close_fd masterFd) ;; set_errno EOVERFLOW ;; mret (-1, [])
        end.

(** [err_exit] ends the child without flushing its buffers. *)
Definition check_child (fail : bool) (msg : string) : M (proc K) unit :=
  if fail then errExit (str msg) else mret tt.

(** The child: [has_termios] and [has_ws] tell whether [slaveTermios] and [slaveWS] are not null. *)
Definition pty_child (mfd : Z) (slname : bytes) (has_termios has_ws : bool) : M (proc K) (Z * Z * bytes) :=
  r ← syscall (-1) k_setsid;
  check_child (r =? -1) "ptyFork:setsid" ;;
  syscall (-1) (k_close_fd mfd) ;;
  slaveFd ← syscall (-1) (k_open_file slname O_RDWR);
  check_child (slaveFd =? -1) "ptyFork:open-slave" ;;
  r ← syscall (-1) (k_controlling slaveFd);
  check_child (r =? -1) "ptyFork:ioctl-TIOCSCTTY" ;;
  r ← (if has_termios then syscall (-1) (k_tcsetattr slaveFd) else mret 0);
  check_child (r =? -1) "ptyFork:tcsetattr" ;;
  r ← (if has_ws then syscall (-1) (k_setwinsz slaveFd) else mret 0);
  check_child (r =? -1) "ptyFork:ioctl-TIOCSWINSZ" ;;
  r ← syscall (-1) (k_dup2 slaveFd STDIN_FILENO);
  check_child (negb (r =? STDIN_FILENO)) "ptyFork:dup2-STDIN_FILENO" ;;
  r ← syscall (-1) (k_dup2 slaveFd STDOUT_FILENO);
  check_child (negb (r =? STDOUT_FILENO)) "ptyFork:dup2-STDOUT_FILENO" ;;
  r ← syscall (-1) (k_dup2 slaveFd STDERR_FILENO);
  check_child (negb (r =? STDERR_FILENO)) "ptyFork:dup2-STDERR_FILENO" ;;
  (if STDERR_FILENO <? slaveFd then syscall (-1) (k_close_fd slaveFd) ;; mret tt else mret tt) ;;
  mret (0, -1, slname).

(** The result of [ptyFork] with what it stored in [*masterFd] ([-1]: nothing) and [slaveName];
    [snLen] is [None] for a null [slaveName]. *)
Definition ptyFork (snLen : option Z) (has_termios has_ws : bool) : M (proc K) (Z * Z * bytes) :=
  m ← ptyMasterOpen MAX_SNAME;
  let '(mfd, slname) := m in
  if mfd =? -1 then mret (-1, -1, [])
  else if match snLen with Some n => negb (strlen slname <? n) | None => false end then
    syscall (-1) (k_close_fd mfd) ;; set_errno EOVERFLOW ;; mret (-1, -1, [])
  else
    childPid ← syscall (-1) k_fork;
    if childPid =? -1 then r ← fail_closing mfd; mret (-1, -1, slname)
    else if negb (childPid =? 0) then mret (childPid, mfd, slname)
    else pty_child mfd slname has_termios has_ws.
End Program.

(** ** What a kernel promises of terminals *)

Class PtyLaws (K : Type) `{!ProcCalls K, !PtyCalls K, !ProcLaws K} := {
  master_name : bytes;
  openpt_opens : forall k r k', k_posix_openpt k = (inl r, k') ->
    0 <= r /\ fds (view k) !! r = None /\ view k' = with_fds (<[r := master_name]> (fds (view k))) (view k);
  openpt_fails : forall k e k', k_posix_openpt k = (inr e, k') -> view k' = view k;
  grantpt_same : forall fd k, view (k_grantpt fd k).2 = view k;
  grantpt_zero : forall fd k r k', k_grantpt fd k = (inl r, k') -> r = 0;
  unlockpt_same : forall fd k, view (k_unlockpt fd k).2 = view k;
  unlockpt_zero : forall fd k r k', k_unlockpt fd k = (inl r, k') -> r = 0;
  ptsname_same : forall fd k, view (k_ptsname fd k).2 = view k;
  ptsname_tty : forall fd k name k', k_ptsname fd k = (inl name, k') -> is_tty name = true;
  controlling_sets : forall fd k r k', k_controlling fd k = (inl r, k') ->
    exists f, fds (view k) !! fd = Some f /\ view k' = with_tty (Some f) (view k);
  controlling_fails : forall fd k e k', k_controlling fd k = (inr e, k') -> view k' = view k;
  tcsetattr_same : forall fd k, view (k_tcsetattr fd k).2 = view k;
  setwinsz_same : forall fd k, view (k_setwinsz fd k).2 = view k
}.

Section Correct.
Context `{!Messages} {K : Type} `{!ProcCalls K, !PtyCalls K, !ProcLaws K, !PtyLaws K}.

(** A call that leaves the view alone. *)
Lemma wp_same {A} (fail : A) (f : K -> (A + Z) * K) (p : proc K) (Q : outcome A -> proc K -> Prop) :
  (forall k, view (f k).2 = view k) ->
  (forall o q, view (kern q) = view (kern p) -> trace q = trace p ->
     (exists k', f (kern p) = (inl o, k')) \/ (o = fail /\ exists k', f (kern p) = (inr (errno q), k')) -> Q (Ret o) q) ->
  wp (syscall fail f) p Q.
Proof.
  intros Hs HQ. apply wp_syscall. specialize (Hs (kern p)). destruct (f (kern p)) as [[a|e] k'] eqn:E; cbn in Hs; apply HQ; cbn; eauto.
Qed.

(** An error of one of the calls, or a name that is too long. *)
Definition an_error (e : Z) : Prop :=
  e = EOVERFLOW \/ exists k k', k_posix_openpt k = (inr e, k') \/ k_fork k = (inr e, k') \/
    exists fd, k_grantpt fd k = (inr e, k') \/ k_unlockpt fd k = (inr e, k') \/ k_ptsname fd k = (inr e, k').

(** The descriptors are those of [s] with [fd], which was free, for [x]. *)
Definition adds (fd : Z) (x : bytes) (s s' : pstate) : Prop := 0 <= fd /\ fds s !! fd = None /\ s' = with_fds (<[fd := x]> (fds s)) s.

Lemma adds_delete fd x s s' : adds fd x s s' -> with_fds (delete fd (fds s')) s' = s.
Proof. intros (_ & Hn & ->). cbn. rewrite delete_insert_id by done. by destruct s. Qed.

Lemma wp_fail_closing fd x s (p : proc K) (Q : outcome (Z * bytes) -> proc K -> Prop) : adds fd x s (view (kern p)) ->
  (forall q, view (kern q) = s -> errno q = errno p -> trace q = trace p -> Q (Ret (-1, [])) q) -> wp (fail_closing fd) p Q.
Proof.
  intros Ha HQ. apply wp_bind, wp_get_errno, wp_bind, wp_close. intros o k' e Hv. rewrite (adds_delete _ _ _ _ Ha) in Hv.
  apply wp_bind, wp_set_errno, wp_ret. by apply HQ.
Qed.

(** [ptyMasterOpen] gives a new descriptor and the name of the slave, which fits, or nothing, with the error
    in [errno]. *)
Lemma wp_ptyMasterOpen snLen (p : proc K) (Q : outcome (Z * bytes) -> proc K -> Prop) :
  (forall fd name q, adds fd master_name (view (kern p)) (view (kern q)) -> strlen name < snLen -> is_tty name = true -> trace q = trace p -> Q (Ret (fd, name)) q) ->
  (forall q, view (kern q) = view (kern p) -> trace q = trace p -> an_error (errno q) -> Q (Ret (-1, [])) q) ->
  wp (ptyMasterOpen snLen) p Q.
Proof.
  intros HQ Hno. apply wp_bind, wp_syscall. destruct (k_posix_openpt (kern p)) as [[fd|e] k1] eqn:E1.
  2: { apply openpt_fails in E1 as Hv1. apply wp_ret, Hno; [done|done|]. right. eauto. }
  apply openpt_opens in E1 as (H0 & Hfree & Hv1). assert (adds fd master_name (view (kern p)) (view k1)) as Ha by done.
  destruct (Z.eqb_spec fd (-1)) as [|_]; [lia|].
  assert (forall q, view (kern q) = view k1 -> trace q = trace p -> an_error (errno q) -> wp (fail_closing fd) q Q) as Hfail.
  { intros q Hq Ht He. rewrite <- Hq in Ha. eapply wp_fail_closing; [exact Ha|]. intros q' Hv' He' Ht'. apply Hno; [done|by rewrite Ht'|by rewrite He']. }
  apply wp_bind, wp_same; [apply grantpt_same|]. cbn [kern trace]. intros o2 q2 Hv2 Ht2 Hc2. destruct (Z.eqb_spec o2 (-1)) as [->|_].
  { apply Hfail; [done..|]. destruct Hc2 as [[k' Hk%grantpt_zero]|[_ [k' Hk]]]; [done|right]. eauto 8. }
  apply wp_bind, wp_same; [apply unlockpt_same|]. intros o3 q3 Hv3 Ht3 Hc3. destruct (Z.eqb_spec o3 (-1)) as [->|_].
  { apply Hfail; [by rewrite Hv3|by rewrite Ht3|]. destruct Hc3 as [[k' Hk%unlockpt_zero]|[_ [k' Hk]]]; [done|right]. eauto 9. }
  apply wp_bind, wp_same.
  { intros k. pose proof (ptsname_same fd k) as Hk. by destruct (k_ptsname fd k) as [[]]. }
  intros o4 q4 Hv4 Ht4 Hcase.
  assert (view (kern q4) = view k1) as Hv by (by rewrite Hv4, Hv3). assert (trace q4 = trace p) as Ht by (by rewrite Ht4, Ht3).
  destruct (k_ptsname fd (kern q3)) as [[nm|e] k4] eqn:E4.
  - apply ptsname_tty in E4. destruct Hcase as [[k' [= <- _]]|[_ [k' ?]]]; [|done]. destruct (Z.ltb_spec (strlen nm) snLen).
    + apply wp_ret. apply HQ; [by rewrite Hv|done..].
    + apply wp_bind, wp_close. intros o k5 e Hk. rewrite Hv, (adds_delete _ _ _ _ Ha) in Hk. apply wp_bind, wp_set_errno, wp_ret.
      apply Hno; [done|done|by left].
  - destruct Hcase as [[k' ?]|[-> [k' Hk]]]; [done|]. injection Hk as -> _. apply Hfail; [done|done|]. right. eauto 10.
Qed.

(** What the child is: it leads a new session whose terminal is the slave, which its standard descriptors
    refer to; its other descriptors are those the caller had. *)
Definition on_slave (s s' : pstate) (name : bytes) : Prop :=
  session_leader s' = true /\ tty s' = Some name /\
  forall fd, fds s' !! fd = if standard fd then Some name else fds s !! fd.

Lemma wp_check_child fail msg (p : proc K) (Q : outcome unit -> proc K -> Prop) :
  (fail = false -> Q (Ret tt) p) -> (forall o q, fail = true -> stopped o -> kern q = kern p -> Q o q) -> wp (check_child fail msg) p Q.
Proof. intros HQ Hno. destruct fail; [|by apply wp_ret, HQ]. apply wp_errExit. intros o e Ho. by apply Hno. Qed.

(** The child is on the slave, or a call failed and it was stopped. *)
Definition child_done (s : pstate) (name : bytes) (o : outcome (Z * Z * bytes)) (q : proc K) : Prop :=
  (o = Ret (0, -1, name) /\ on_slave s (view (kern q)) name) \/ stopped o.

Lemma wp_child_check {A} fail msg (k : unit -> M (proc K) A) (p : proc K) (Q : outcome A -> proc K -> Prop) :
  (fail = false -> wp (k tt) p Q) -> (forall o q, stopped o -> Q o q) -> wp (check_child fail msg ≫= k) p Q.
Proof.
  intros HQ Hno. apply wp_bind, wp_check_child; [done|]. intros o q _ Ho _. destruct Ho as [-> | ->]; apply Hno; by (left + right).
Qed.

(** The slave put over a standard descriptor. *)
Lemma wp_dup_slave {A} slaveFd fd msg name s (k : unit -> M (proc K) A) (p : proc K) (Q : outcome A -> proc K -> Prop) :
  0 <= fd -> view (kern p) = s -> fds s !! slaveFd = Some name ->
  (forall q, view (kern q) = with_fds (<[fd := name]> (fds s)) s -> wp (k tt) q Q) -> (forall o q, stopped o -> Q o q) ->
  wp (r ← syscall (-1) (k_dup2 slaveFd fd); check_child (negb (r =? fd)) msg ≫= k) p Q.
Proof.
  intros H0 Hv Hs HQ Hno. apply wp_bind, wp_dup2; rewrite Hv.
  - intros f q Hf Hq _. rewrite Hs in Hf. injection Hf as <-. apply wp_child_check; [intros _; by apply HQ|done].
  - intros q _ _. apply wp_child_check; [|done]. destruct (Z.eqb_spec (-1) fd); [lia|done].
Qed.

Lemma wp_pty_child mfd name ht hw s (p : proc K) : adds mfd master_name s (view (kern p)) -> is_tty name = true -> 
  wp (pty_child mfd name ht hw) p (child_done s name).
Proof.
  intros Ha Htty. assert (forall (o : outcome (Z * Z * bytes)) (q : proc K), stopped o -> child_done s name o q) as Hno by (by right).
  unfold pty_child. apply wp_bind, wp_syscall. destruct (k_setsid (kern p)) as [[r|e] k1] eqn:E1; [|by apply wp_child_check].
  apply setsid_new in E1 as (Hr & _ & Hv1). apply wp_child_check; [intros _|done].
  apply wp_bind, wp_close. cbn [kern errno trace]. intros _ k2 e2 Hv2.
  assert (view k2 = new_session s) as Hv2'.
  { rewrite Hv2, Hv1. destruct Ha as (_ & Hn & ->). cbn. by rewrite delete_insert_id. }
  apply wp_bind, wp_syscall. cbn [kern errno trace]. destruct (k_open_file name O_RDWR k2) as [[slaveFd|e] k3] eqn:E3; [|by apply wp_child_check].
  apply open_opens in E3 as (H0 & Hfree & Hv3). rewrite Hv2' in Hfree, Hv3. unfold opened in Hv3. rewrite Htty in Hv3. cbn in Hfree, Hv3.
  apply wp_child_check; [intros _|done].
  set (s3 := with_tty (Some name) (with_fds (<[slaveFd := name]> (fds (new_session s))) (new_session s))) in Hv3.
  apply wp_bind, wp_syscall. cbn [kern errno trace]. destruct (k_controlling slaveFd k3) as [[r4|e] k4] eqn:E4.
  2: { by apply wp_child_check. }
  apply controlling_sets in E4 as (f & Hf & Hv4). rewrite Hv3 in Hf, Hv4. cbn in Hf. rewrite lookup_insert_eq in Hf. injection Hf as <-.
  assert (view k4 = s3) as Hv4' by exact Hv4. clear Hv4.
  apply wp_child_check; [intros _|done].
  apply wp_bind. assert (forall q b f, view (kern q) = s3 -> (forall k, view (f k).2 = view k) -> forall (Q : outcome Z -> proc K -> Prop),
    (forall o q', view (kern q') = s3 -> Q (Ret o) q') -> wp (if b : bool then syscall (-1) f else mret 0) q Q) as Hsame.
  { intros q b f' Hq Hf' Q HQ. destruct b; [|by apply wp_ret, HQ]. apply wp_same; [done|]. intros o q' Hq' _ _. apply HQ. by rewrite Hq'. }
  apply Hsame; [done|apply tcsetattr_same|]. intros o5 q5 Hv5. apply wp_child_check; [intros _|done].
  apply wp_bind, Hsame; [done|apply setwinsz_same|]. intros o6 q6 Hv6. apply wp_child_check; [intros _|done].
  assert (fds s3 !! slaveFd = Some name) as Hs3 by (cbn; apply lookup_insert_eq).
  eapply wp_dup_slave; [done|exact Hv6|done| |done]. intros q7 Hv7.
  eapply wp_dup_slave; [done|exact Hv7| | |done]; [cbn; rewrite lookup_insert; by case_decide|]. intros q8 Hv8.
  eapply wp_dup_slave; [done|exact Hv8| | |done]; [cbn; rewrite !lookup_insert; by repeat case_decide|]. intros q9 Hv9.
  assert (forall q, view (kern q) = (if STDERR_FILENO <? slaveFd then with_fds (delete slaveFd (fds (view (kern q9)))) (view (kern q9)) else view (kern q9)) ->
    child_done s name (Ret (0, -1, name)) q) as Hend.
  { intros q Hq. left. split; [done|]. rewrite Hv9 in Hq. unfold on_slave. rewrite Hq. cbn in Hfree.
    split_and!; [by destruct (STDERR_FILENO <? slaveFd)|by destruct (STDERR_FILENO <? slaveFd)|]. intros fd.
    destruct (Z.ltb_spec STDERR_FILENO slaveFd) as [Hgt|Hle]; cbn [with_fds fds].
    - rewrite lookup_delete. case_decide as Hd; [subst fd; unfold standard, STDERR_FILENO in *|].
      + rewrite (proj2 (Z.leb_gt slaveFd 2)), andb_false_r by lia. done.
      + rewrite lookup_standard. cbn. by rewrite lookup_insert_ne.
    - rewrite lookup_standard. cbn. unfold standard, STDERR_FILENO in *. destruct (Z.leb_spec 0 fd), (Z.leb_spec fd 2); cbn [andb]; [done|..];
        rewrite lookup_insert_ne by lia; done. }
  apply wp_bind. destruct (STDERR_FILENO <? slaveFd) eqn:Egt.
  - apply wp_bind, wp_close. intros _ k' e' Hk. apply wp_ret, wp_ret, Hend. exact Hk.
  - apply wp_ret, wp_ret, Hend. done.
Qed.

(** [ptyFork] returns three times.  To the parent, with the child's ID, a new descriptor for the master and
    a name that fits into the caller's array; to the child, which leads a new session with the slave as its
    terminal and standard descriptors and otherwise has the descriptors of the caller (so neither the master nor
    the slave leaks); or with -1, and then no descriptor is left open and [errno] is the error of
    the call that failed, not one of [close]'s.  A child in which a call fails is stopped. *)
Theorem ptyFork_spec snLen ht hw (p : proc K) :
  let '(o, q) := ptyFork snLen ht hw p in
  (exists pid fd name, o = Ret (pid, fd, name) /\ 0 < pid /\ adds fd master_name (view (kern p)) (view (kern q)) /\
     strlen name < MAX_SNAME /\ forall n, snLen = Some n -> strlen name < n) \/
  (exists name, o = Ret (0, -1, name) /\ on_slave (view (kern p)) (view (kern q)) name) \/
  (exists name, o = Ret (-1, -1, name) /\ view (kern q) = view (kern p) /\ an_error (errno q)) \/
  stopped o.
Proof.
  set (Q := fun (o : outcome (Z * Z * bytes)) (q : proc K) =>
    (exists pid fd name, o = Ret (pid, fd, name) /\ 0 < pid /\ adds fd master_name (view (kern p)) (view (kern q)) /\
     strlen name < MAX_SNAME /\ forall n, snLen = Some n -> strlen name < n) \/
    (exists name, o = Ret (0, -1, name) /\ on_slave (view (kern p)) (view (kern q)) name) \/
    (exists name, o = Ret (-1, -1, name) /\ view (kern q) = view (kern p) /\ an_error (errno q)) \/ stopped o).
  enough (wp (ptyFork snLen ht hw) p Q) as Hwp by (unfold wp in Hwp; by destruct (ptyFork snLen ht hw p)).
  apply wp_bind, wp_ptyMasterOpen.
  2: { intros q Hv _ He. apply wp_ret. right. right. left. by exists []. }
  intros mfd name q1 Ha Hlen Htty _. pose proof Ha as (H0 & _ & _). destruct (Z.eqb_spec mfd (-1)) as [|_]; [lia|].
  assert (forall n, snLen = Some n -> (match snLen with Some n => negb (strlen name <? n) | None => false end) = false -> strlen name < n) as Hfit.
  { intros n -> Hf. apply negb_false_iff in Hf. by apply Z.ltb_lt in Hf. }
  destruct (match snLen with Some n => negb (strlen name <? n) | None => false end).
  { apply wp_bind, wp_close. intros o k' e Hk. rewrite (adds_delete _ _ _ _ Ha) in Hk. apply wp_bind, wp_set_errno, wp_ret.
    right. right. left. exists []. split_and!; [done|done|by left]. }
  apply wp_bind, wp_syscall. destruct (k_fork (kern q1)) as [[pid|e] k2] eqn:E2.
  - destruct (decide (pid = 0)) as [->|Hpid].
    + cbn [Z.eqb negb]. apply fork_child in E2. assert (adds mfd master_name (child_of (view (kern p))) (view k2)) as Ha'.
      { destruct Ha as (? & ? & Hv). by rewrite E2, Hv. }
      eapply wp_mono; [by apply wp_pty_child|]. intros o q [[-> (Hl & Ht & Hf)]|Ho]; [|by right; right; right]. right. left. exists name. split; [done|]. by split.
    + apply fork_parent in E2 as [Hpos Hv2]; [|done]. destruct (Z.eqb_spec pid (-1)); [lia|]. destruct (Z.eqb_spec pid 0); [done|]. cbn [negb].
      apply wp_ret. left. exists pid, mfd, name. cbn [kern]. rewrite Hv2. split_and!; [done|done|done|done|]. intros n' Hn'. by apply Hfit.
  - apply fork_fails in E2 as Hv2. cbn [Z.eqb]. rewrite <- Hv2 in Ha. apply wp_bind. eapply wp_fail_closing; [exact Ha|].
    intros q3 Hv3 He3 _. apply wp_ret. right. right. left. exists name. split_and!; [done|done|]. rewrite He3. right. cbn. eauto.
Qed.
End Correct.

(** ** The kernel of Process.v with pseudoterminals *)

#[export] Instance machine_pty : PtyCalls machine := {
  k_posix_openpt k :=
    match lowest_fd (S (size (fds (state k)))) 0 (fds (state k)) with
    | Some r => (inl r, on_state (fun s => with_fds (<[r := str "/dev/ptmx"]> (fds s)) s) k)
    | None => (inr ENOMEM, k)
    end;
  k_grantpt fd k := (inl 0, k);
  k_unlockpt fd k := (inl 0, k);
  k_ptsname fd k := (inl (str "/dev/pts/7"), k);
  k_controlling fd k := match fds (state k) !! fd with Some f => (inl 0, on_state (with_tty (Some f)) k) | None => (inr EBADF, k) end;
  k_tcsetattr fd k := (inl 0, k);
  k_setwinsz fd k := (inl 0, k)
}.

#[export] Instance machine_pty_laws : PtyLaws machine.
Proof.
  refine {| master_name := str "/dev/ptmx" |}; try (by intros; cbn -[lowest_fd size] in *; repeat case_match; simplify_eq/=).
  - intros k r k'. cbn -[lowest_fd size]. destruct (lowest_fd (S (size (fds (state k)))) 0 (fds (state k))) as [r'|] eqn:E; [|done].
    intros [= <- <-]. apply lowest_fd_spec in E as (H1 & H2). by split_and!.
  - intros fd k r k'. cbn. destruct (fds (state k) !! fd) as [f|]; [|done]. intros [= _ <-]. by exists f.
Defined.
