(* ===== verification/Tty.v ===== *)
(** * Terminal modes

    tty_functions.c (tlpi-dist/tty): cbreak and raw mode.  The attributes of a terminal are the record
    [termios]; the flags have their Linux values. *)

From Stdlib Require Import ZArith Lia String Ascii.
From S2P Require Import Prelude CString Kernel.

Definition ISIG : Z := 1.
Definition ICANON : Z := 2.
Definition ECHO : Z := 8.
Definition IEXTEN : Z := 32768.
Definition IGNBRK : Z := 1.
Definition BRKINT : Z := 2.
Definition PARMRK : Z := 8.
Definition INPCK : Z := 16.
Definition ISTRIP : Z := 32.
Definition INLCR : Z := 64.
Definition IGNCR : Z := 128.
Definition ICRNL : Z := 256.
Definition IXON : Z := 1024.
Definition OPOST : Z := 1.
Definition VTIME : nat := 5.
Definition VMIN : nat := 6.

Record termios := Termios { c_iflag : Z; c_oflag : Z; c_cflag : Z; c_lflag : Z; c_cc : list Z }.

(** [tcgetattr], and [tcsetattr] with any of its actions. *)
Class TtyCalls (K : Type) := {
  k_tcgetattr : Z -> K -> (termios + Z) * K;
  k_tcsetattr_to : Z -> termios -> K -> (Z + Z) * K
}.

Definition any_of (l : list Z) : Z := fold_right Z.lor 0 l.
Definition clear (x : Z) (l : list Z) : Z := Z.land x (Z.lnot (any_of l)).

Section Program.
Context {K : Type} `{!TtyCalls K}.

(** The changes of the modes. *)
Definition cbreak (t : termios) : termios :=
  Termios (clear (c_iflag t) [ICRNL]) (c_oflag t) (c_cflag t) (Z.lor (clear (c_lflag t) [ICANON; ECHO]) ISIG)
    (<[VTIME := 0]> (<[VMIN := 1]> (c_cc t))).

Definition raw (t : termios) : termios :=
  Termios (clear (c_iflag t) [BRKINT; ICRNL; IGNBRK; IGNCR; INLCR; INPCK; ISTRIP; IXON; PARMRK]) (clear (c_oflag t) [OPOST]) (c_cflag t)
    (clear (c_lflag t) [ICANON; ISIG; IEXTEN; ECHO]) (<[VTIME := 0]> (<[VMIN := 1]> (c_cc t))).

(** The result, and what was stored in [*prevTermios] (nothing if the call for it fails). *)
Definition ttySet (mode : termios -> termios) (fd : Z) : M (proc K) (Z * option termios) :=
  t ← syscall None (fun k => match k_tcgetattr fd k with (inl t, k') => (inl (Some t), k') | (inr e, k') => (inr e, k') end);
  match t with
  | None => mret (-1, None)
  | Some t =>
      r ← syscall (-1) (k_tcsetattr_to fd (mode t));
      if r =? -1 then mret (-1, Some t) else mret (0, Some t)
  end.

Definition ttySetCbreak (fd : Z) : M (proc K) (Z * option termios) := ttySet cbreak fd.
Definition ttySetRaw (fd : Z) : M (proc K) (Z * option termios) := ttySet raw fd.
End Program.

(** [attrs k fd] are the attributes of the terminal that [fd] refers to. *)
Class TtyLaws (K : Type) `{!TtyCalls K} := {
  attrs : K -> Z -> termios;
  tcgetattr_gets : forall fd k t k', k_tcgetattr fd k = (inl t, k') -> t = attrs k fd /\ attrs k' = attrs k;
  tcgetattr_fails : forall fd k e k', k_tcgetattr fd k = (inr e, k') -> attrs k' = attrs k;
  tcsetattr_sets : forall fd t k r k', k_tcsetattr_to fd t k = (inl r, k') -> r = 0 /\ attrs k' fd = t;
  tcsetattr_fails : forall fd t k e k', k_tcsetattr_to fd t k = (inr e, k') -> attrs k' = attrs k
}.

(** ** Modes bit by bit *)

Lemma testbit_clear x l i : 0 <= i -> Z.testbit (clear x l) i = Z.testbit x i && negb (Z.testbit (any_of l) i).
Proof. intros Hi. unfold clear. rewrite Z.land_spec, Z.lnot_spec by done. done. Qed.

(** The flags of [l] are cleared and no others change. *)
Definition cleared (l : list Z) (x y : Z) : Prop := forall i, 0 <= i -> Z.testbit y i = Z.testbit x i && negb (Z.testbit (any_of l) i).

Definition in_raw_mode (t t' : termios) : Prop :=
  cleared [BRKINT; ICRNL; IGNBRK; IGNCR; INLCR; INPCK; ISTRIP; IXON; PARMRK] (c_iflag t) (c_iflag t') /\
  cleared [OPOST] (c_oflag t) (c_oflag t') /\ c_cflag t' = c_cflag t /\
  cleared [ICANON; ISIG; IEXTEN; ECHO] (c_lflag t) (c_lflag t') /\
  length (c_cc t') = length (c_cc t) /\
  forall i c, c_cc t !! i = Some c -> c_cc t' !! i = Some (if decide (i = VMIN) then 1 else if decide (i = VTIME) then 0 else c).

Definition in_cbreak_mode (t t' : termios) : Prop :=
  cleared [ICRNL] (c_iflag t) (c_iflag t') /\ c_oflag t' = c_oflag t /\ c_cflag t' = c_cflag t /\
  (forall i, 0 <= i -> Z.testbit (c_lflag t') i = (i =? 0) || Z.testbit (c_lflag t) i && negb (Z.testbit (any_of [ICANON; ECHO]) i)) /\
  length (c_cc t') = length (c_cc t) /\
  forall i c, c_cc t !! i = Some c -> c_cc t' !! i = Some (if decide (i = VMIN) then 1 else if decide (i = VTIME) then 0 else c).

Lemma min_time_lookup (cc : list Z) i c : cc !! i = Some c ->
  (<[VTIME := 0]> (<[VMIN := 1]> cc)) !! i = Some (if decide (i = VMIN) then 1 else if decide (i = VTIME) then 0 else c).
Proof.
  intros Hi. pose proof (lookup_lt_Some _ _ _ Hi). unfold VMIN, VTIME in *.
  destruct (decide (i = 6%nat)) as [->|H6]; [rewrite list_lookup_insert_ne, list_lookup_insert_eq by done; done|].
  destruct (decide (i = 5%nat)) as [->|H5]; [rewrite list_lookup_insert_eq; [done|by rewrite length_insert]|].
  rewrite !list_lookup_insert_ne by done. done.
Qed.

Lemma raw_is_raw t : in_raw_mode t (raw t).
Proof.
  split_and!; try (intros i Hi; by apply testbit_clear); try done.
  - cbn. by rewrite !length_insert.
  - intros i c. apply min_time_lookup.
Qed.

Lemma cbreak_is_cbreak t : in_cbreak_mode t (cbreak t).
Proof.
  split_and!; try (intros i Hi; by apply testbit_clear); try done.
  - intros i Hi. cbn [cbreak c_lflag]. rewrite Z.lor_spec, testbit_clear by done. rewrite orb_comm. f_equal.
  - cbn. by rewrite !length_insert.
  - intros i c. apply min_time_lookup.
Qed.

Section Correct.
Context {K : Type} `{!TtyCalls K, !TtyLaws K}.

Lemma wp_ttySet mode fd (p : proc K) (Q : outcome (Z * option termios) -> proc K -> Prop) :
  (forall q, attrs (kern q) fd = mode (attrs (kern p) fd) -> trace q = trace p -> Q (Ret (0, Some (attrs (kern p) fd))) q) ->
  (forall q prev, attrs (kern q) = attrs (kern p) -> trace q = trace p -> (prev = None \/ prev = Some (attrs (kern p) fd)) -> Q (Ret (-1, prev)) q) ->
  wp (ttySet mode fd) p Q.
Proof.
  intros HQ Hno. apply wp_bind, wp_syscall. destruct (k_tcgetattr fd (kern p)) as [[t|e] k1] eqn:E1.
  - apply tcgetattr_gets in E1 as [-> Ha]. apply wp_bind, wp_syscall. cbn [kern errno trace].
    destruct (k_tcsetattr_to fd (mode (attrs (kern p) fd)) k1) as [[r|e] k2] eqn:E2.
    + apply tcsetattr_sets in E2 as [-> Hs]. by apply wp_ret, HQ.
    + apply tcsetattr_fails in E2. apply wp_ret, Hno; [by cbn; rewrite E2|done|by right].
  - apply tcgetattr_fails in E1. apply wp_ret, Hno; [done|done|by left].
Qed.

(** [ttySetRaw] and [ttySetCbreak] either return 0 and have put the terminal into their mode, which
    clears (and in cbreak mode sets) the flags of the mode and no other, for single characters without a
    time-out, and have stored the attributes from before, or return -1 and have changed
    nothing. *)
Theorem tty_modes fd (p : proc K) :
  (exists r prev q, ttySetRaw fd p = (Ret (r, prev), q) /\
     (r = 0 /\ prev = Some (attrs (kern p) fd) /\ in_raw_mode (attrs (kern p) fd) (attrs (kern q) fd) \/ r = -1 /\ attrs (kern q) = attrs (kern p))) /\
  (exists r prev q, ttySetCbreak fd p = (Ret (r, prev), q) /\
     (r = 0 /\ prev = Some (attrs (kern p) fd) /\ in_cbreak_mode (attrs (kern p) fd) (attrs (kern q) fd) \/ r = -1 /\ attrs (kern q) = attrs (kern p))).
Proof.
  assert (forall mode (P : termios -> termios -> Prop), (forall t, P t (mode t)) -> exists r prev q, ttySet mode fd p = (Ret (r, prev), q) /\
    (r = 0 /\ prev = Some (attrs (kern p) fd) /\ P (attrs (kern p) fd) (attrs (kern q) fd) \/ r = -1 /\ attrs (kern q) = attrs (kern p))) as H.
  { intros mode P HP. set (Q := fun (o : outcome (Z * option termios)) (q : proc K) => exists r prev, o = Ret (r, prev) /\
      (r = 0 /\ prev = Some (attrs (kern p) fd) /\ P (attrs (kern p) fd) (attrs (kern q) fd) \/ r = -1 /\ attrs (kern q) = attrs (kern p))).
    assert (wp (ttySet mode fd) p Q) as Hwp.
    { apply wp_ttySet; [intros q Ha _; exists 0; eexists; split; [done|left; by rewrite Ha]|intros q prev Ha _ _; exists (-1); eexists; split; [done|by right]]. }
    unfold wp in Hwp. destruct (ttySet mode fd p) as [o q]. destruct Hwp as (r & prev & Ho & Hcase). cbn in Ho. subst o. by exists r, prev, q. }
  split; [apply H, raw_is_raw|apply H, cbreak_is_cbreak].
Qed.
End Correct.
