(* ===== verification/Ttyname.v ===== *)
(** * The name of a terminal

    ttyname.c (tlpi-dist/tty), which looks for the device of a descriptor among those of /dev/pts and /dev.  The two
    static variables of ttynameCheckDir are state, with the block that the pointer points to; whether an allocation
    succeeds is a script, and what the directories hold and stat reports are functions. *)

From Stdlib Require Import ZArith Lia String Ascii.
From S2P Require Import Prelude CString.

(** What stat reports: the mode and the device that a special file stands for. *)
Record stat := Stat { st_mode : Z; st_rdev : Z }.
Definition S_ISCHR (mode : Z) : bool := Z.land mode 61440 =? 8192.

(** A block of memory: its size and the string in it. *)
Record block := Block { room : Z; text : bytes }.

(** The statics, the answers of malloc and realloc to come (none left: success), and the open directory streams. *)
Record state := State { ttyPath : option block; ttyLen : Z; allocs : list bool; streams : Z }.

Definition set_path (b : option block) (s : state) : state := State b (ttyLen s) (allocs s) (streams s).
Definition set_len (n : Z) (s : state) : state := State (ttyPath s) n (allocs s) (streams s).
Definition set_streams (n : Z) (s : state) : state := State (ttyPath s) (ttyLen s) (allocs s) n.

(** [malloc] and, what the block held being kept, [realloc]; the pointer is overwritten in both cases. *)
Definition allocate (size : Z) : M state bool := fun s =>
  let ok := match allocs s with b :: _ => b | [] => true end in
  let held := match ttyPath s with Some b => text b | None => [] end in
  (Ret ok, State (if ok then Some (Block size held) else None) (ttyLen s) (drop 1 (allocs s)) (streams s)).

(** [snprintf] into the block: beyond its end, or with no block, it is undefined. *)
Definition snprintf (size : Z) (s : bytes) : M state unit := fun st =>
  match ttyPath st with
  | Some b => let out := take (Z.to_nat (size - 1)) s in
              if strlen out <? room b then (Ret tt, set_path (Some (Block (room b) out)) st) else (Undef, st)
  | None => (Undef, st)
  end.

(** The string the pointer points to. *)
Definition path_text : M state bytes := fun st =>
  match ttyPath st with Some b => (Ret (text b), st) | None => (Undef, st) end.

Section Program.
Context (dir : bytes -> option (list bytes)) (stat_ : bytes -> option stat) (isatty : Z -> bool) (fstat : Z -> option stat).

(** The loop over the entries; the result is [found]. *)
Fixpoint search (rdev : Z) (devDir : bytes) (ents : list bytes) : M state bool :=
  match ents with
  | [] => mret false
  | name :: ents' =>
      let requiredLen := strlen devDir + 1 + strlen name + 1 in
      len ← gets ttyLen;
      go ← (if len <? requiredLen then
              ok ← allocate requiredLen;
              if ok : bool then modify (set_len requiredLen) ;; mret true else mret false
            else mret true);
      if negb go then mret false
      else
        len ← gets ttyLen;
        snprintf len (devDir ++ str "/" ++ name) ;;
        path ← path_text;
        match stat_ path with
        | None => search rdev devDir ents'
        | Some devStat => if S_ISCHR (st_mode devStat) && (rdev =? st_rdev devStat) then mret true else search rdev devDir ents'
        end
  end.

Definition ttynameCheckDir (rdev : Z) (devDir : bytes) : M state (option bytes) :=
  len ← gets ttyLen;
  ready ← (if len =? 0 then
             ok ← allocate 50;
             if ok : bool then modify (set_len 50) ;; mret true else mret false
           else mret true);
  if negb ready then mret None
  else
    match dir devDir with
    | None => mret None
    | Some ents =>
        modify (fun s => set_streams (streams s + 1) s) ;;
        found ← search rdev devDir ents;
        modify (fun s => set_streams (streams s - 1) s) ;;
        if found : bool then path ← path_text; mret (Some path) else mret None
    end.

Definition ttyname (fd : Z) : M state (option bytes) :=
  if negb (isatty fd) then mret None
  else
    match fstat fd with
    | None => mret None
    | Some fdStat =>
        if negb (S_ISCHR (st_mode fdStat)) then mret None
        else
          d ← ttynameCheckDir (st_rdev fdStat) (str "/dev/pts");
          match d with
          | Some path => mret (Some path)
          | None => ttynameCheckDir (st_rdev fdStat) (str "/dev")
          end
    end.

(** ** What it is to find *)

Definition entry_path (devDir name : bytes) : bytes := devDir ++ str "/" ++ name.

(** The device: a character device with that number. *)
Definition is_device (rdev : Z) (path : bytes) : bool :=
  match stat_ path with Some st => S_ISCHR (st_mode st) && (rdev =? st_rdev st) | None => false end.

Fixpoint first_match (rdev : Z) (paths : list bytes) : option bytes :=
  match paths with [] => None | path :: paths' => if is_device rdev path then Some path else first_match rdev paths' end.

Definition in_dir (rdev : Z) (devDir : bytes) : option bytes := first_match rdev (entry_path devDir <$> default [] (dir devDir)).

Definition name_of (fd : Z) : option bytes :=
  match fstat fd with
  | Some st =>
      if isatty fd && S_ISCHR (st_mode st)
      then match in_dir (st_rdev st) (str "/dev/pts") with Some path => Some path | None => in_dir (st_rdev st) (str "/dev") end
      else None
  | None => None
  end.

(** ** It is found *)

(** No allocation fails. *)
Definition plenty (s : state) : Prop := Forall (fun b => b = true) (allocs s).
(** The block is as long as [ttyLen] says. *)
Definition sound (s : state) : Prop := ttyLen s = 0 \/ 0 < ttyLen s /\ exists t, ttyPath s = Some (Block (ttyLen s) t).

Lemma allocate_plenty size s : plenty s ->
  exists t s', allocate size s = (Ret true, s') /\ ttyPath s' = Some (Block size t) /\ ttyLen s' = ttyLen s /\ streams s' = streams s /\ plenty s'.
Proof.
  intros Hp. unfold allocate. assert (match allocs s with b :: _ => b | [] => true end = true) as Hok by (unfold plenty in Hp; by destruct Hp).
  rewrite Hok. eexists _, _. split; [reflexivity|]. split_and!; try done. unfold plenty in *. cbn [allocs]. by apply Forall_drop.
Qed.

Lemma search_finds rdev devDir ents : forall s, sound s -> 0 < ttyLen s -> plenty s ->
  exists s', search rdev devDir ents s = (Ret (match first_match rdev (entry_path devDir <$> ents) with Some _ => true | None => false end), s') /\
    sound s' /\ 0 < ttyLen s' /\ plenty s' /\ streams s' = streams s /\
    (forall path, first_match rdev (entry_path devDir <$> ents) = Some path -> exists r, ttyPath s' = Some (Block r path)).
Proof.
  induction ents as [|name ents IH]; intros s Hs Hl Hp; [by exists s|]. cbn [search fmap list_fmap first_match].
  erewrite bind_Ret by reflexivity. cbv zeta. set (req := strlen devDir + 1 + strlen name + 1).
  assert (0 < req) as Hreq by (unfold req, strlen; lia).
  assert (exists t n s1, (if ttyLen s <? req then ok ← allocate req; if ok : bool then modify (set_len req) ;; mret true else mret false else mret true) s = (Ret true, s1) /\
    ttyPath s1 = Some (Block n t) /\ ttyLen s1 = n /\ req <= n /\ streams s1 = streams s /\ plenty s1) as (t & n & s1 & Hgo & Hpath & Hlen & Hle & Hst & Hp1).
  { destruct (ttyLen s <? req) eqn:E; z_bool.
    - destruct (allocate_plenty req s Hp) as (t & s1 & Ha & Hpa & Hla & Hsa & Hp1). exists t, req, (set_len req s1).
      erewrite bind_Ret by exact Ha. cbn iota. erewrite bind_Ret by reflexivity. by split_and!.
    - destruct Hs as [Hs|[_ [t Ht]]]; [lia|]. exists t, (ttyLen s), s. by split_and!. }
  erewrite bind_Ret by exact Hgo. cbn [negb]. erewrite bind_Ret by reflexivity. rewrite Hlen.
  assert (snprintf n (devDir ++ str "/" ++ name) s1 = (Ret tt, set_path (Some (Block n (entry_path devDir name))) s1)) as Hsn.
  { unfold snprintf. rewrite Hpath. cbn [room]. unfold entry_path. rewrite take_ge; [|rewrite !length_app; unfold req, strlen in *; cbn [length str]; cbn; lia].
    replace (strlen (devDir ++ str "/" ++ name) <? n) with true; [done|]. symmetry. apply Z.ltb_lt. unfold strlen in *. rewrite !length_app. unfold req in *. cbn. lia. }
  rewrite (bind_Ret _ _ _ _ _ Hsn). set (s2 := set_path (Some (Block n (entry_path devDir name))) s1).
  assert (path_text s2 = (Ret (entry_path devDir name), s2)) as Hpt by done. rewrite (bind_Ret _ _ _ _ _ Hpt).
  assert (sound s2 /\ 0 < ttyLen s2 /\ plenty s2 /\ streams s2 = streams s) as (Hs2 & Hl2 & Hp2 & Hst2).
  { subst s2. cbn. rewrite Hlen. split_and!; [|lia|done|done]. right. cbn. rewrite Hlen. split; [lia|]. by eexists. }
  unfold is_device. destruct (stat_ (entry_path devDir name)) as [st|].
  - destruct (S_ISCHR (st_mode st) && (rdev =? st_rdev st)).
    + exists s2. split_and!; try done. intros path [= <-]. by eexists.
    + destruct (IH s2 Hs2 Hl2 Hp2) as (s' & H1 & H2 & H3 & H4 & H5 & H6). exists s'. rewrite H5. by split_and!.
  - destruct (IH s2 Hs2 Hl2 Hp2) as (s' & H1 & H2 & H3 & H4 & H5 & H6). exists s'. rewrite H5. by split_and!.
Qed.

Lemma check_dir_finds rdev devDir s : sound s -> plenty s ->
  exists s', ttynameCheckDir rdev devDir s = (Ret (in_dir rdev devDir), s') /\ sound s' /\ plenty s' /\ streams s' = streams s.
Proof.
  intros Hs Hp. unfold ttynameCheckDir. erewrite bind_Ret by reflexivity.
  assert (exists s1, (if ttyLen s =? 0 then ok ← allocate 50; if ok : bool then modify (set_len 50) ;; mret true else mret false else mret true) s = (Ret true, s1) /\
    sound s1 /\ 0 < ttyLen s1 /\ streams s1 = streams s /\ plenty s1) as (s1 & Hgo & Hs1 & Hl1 & Hst1 & Hp1).
  { destruct (ttyLen s =? 0) eqn:E; z_bool.
    - destruct (allocate_plenty 50 s Hp) as (t & s1 & Ha & Hpa & Hla & Hsa & Hp1). exists (set_len 50 s1). erewrite bind_Ret by exact Ha. cbn iota.
      erewrite bind_Ret by reflexivity. split_and!; try done. right. split; [done|]. exists t. exact Hpa.
    - exists s. split_and!; try done. destruct Hs as [Hs|[Hs _]]; [done|done]. }
  erewrite bind_Ret by exact Hgo. cbn [negb]. unfold in_dir. destruct (dir devDir) as [ents|]; [|by exists s1]. change (default [] (Some ents)) with ents.
  erewrite bind_Ret by reflexivity. set (s2 := set_streams (streams s1 + 1) s1).
  destruct (search_finds rdev devDir ents s2) as (s3 & Hse & Hs3 & Hl3 & Hp3 & Hst3 & Hpath); [exact Hs1|exact Hl1|exact Hp1|].
  rewrite (bind_Ret _ _ _ _ _ Hse). erewrite bind_Ret by reflexivity. set (s4 := set_streams (streams s3 - 1) s3).
  assert (sound s4 /\ plenty s4 /\ streams s4 = streams s) as (Hs4 & Hp4 & Hst4) by (subst s4; cbn; split_and!; [exact Hs3|exact Hp3|rewrite Hst3; cbn; lia]).
  destruct (first_match rdev (entry_path devDir <$> ents)) as [path|]; [|by exists s4].
  destruct (Hpath path eq_refl) as [r Hr]. exists s4. erewrite bind_Ret; [split_and!; try done|]. unfold path_text, s4. cbn. by rewrite Hr.
Qed.

(** as long as memory lasts, ttyname returns the first entry of /dev/pts, or if there is none of /dev, that is a character device with the
    number of the terminal, and nothing for what is no terminal.  The block is grown as the names ask for: each path fits it with its null
    byte, so nothing is cut off and nothing written outside of it; and every directory that was opened is closed. *)
Theorem ttyname_finds fd s : sound s -> plenty s ->
  exists s', ttyname fd s = (Ret (name_of fd), s') /\ sound s' /\ plenty s' /\ streams s' = streams s.
Proof.
  intros Hs Hp. unfold ttyname, name_of. destruct (isatty fd); cbn [negb andb]; [|destruct (fstat fd); by exists s].
  destruct (fstat fd) as [st|]; [|by exists s]. destruct (S_ISCHR (st_mode st)); cbn [negb]; [|by exists s].
  destruct (check_dir_finds (st_rdev st) (str "/dev/pts") s Hs Hp) as (s1 & H1 & Hs1 & Hp1 & Hst1). rewrite (bind_Ret _ _ _ _ _ H1).
  destruct (in_dir (st_rdev st) (str "/dev/pts")); [by exists s1|].
  destruct (check_dir_finds (st_rdev st) (str "/dev") s1 Hs1 Hp1) as (s2 & H2 & Hs2 & Hp2 & Hst2). exists s2. rewrite Hst2. by split_and!.
Qed.
End Program.

(** ** A system with two directories *)

Definition some_dir (path : bytes) : option (list bytes) :=
  if bool_decide (path = str "/dev/pts") then Some [str "0"; str "1"; str "a-name-that-does-not-fit-into-the-first-fifty-bytes"]
  else if bool_decide (path = str "/dev") then Some [str "null"; str "tty1"] else None.
Definition some_stat (path : bytes) : option stat :=
  if bool_decide (path = str "/dev/pts/1") then Some (Stat 8592 34817) else if bool_decide (path = str "/dev/tty1") then Some (Stat 8592 1025) else None.
Definition some_fd (fd : Z) : option stat := if fd =? 0 then Some (Stat 8592 34817) else if fd =? 3 then Some (Stat 8592 1025) else None.
Definition fresh (l : list bool) : state := State None 0 l 0.

Lemma ttyname_finds_witness : exists s', ttyname some_dir some_stat (fun _ => true) some_fd 3 (fresh []) = (Ret (Some (str "/dev/tty1")), s') /\ streams s' = 0.
Proof.
  destruct (ttyname_finds some_dir some_stat (fun _ => true) some_fd 3 (fresh [])) as (s' & Hr & _ & _ & Hst); [by left|constructor|].
  exists s'. split; [exact Hr|exact Hst].
Defined.

(** When realloc fails the pointer is null but the length is not: the search of /dev then writes through the null pointer. *)
Example ttyname_after_failure : (ttyname some_dir some_stat (fun _ => true) some_fd 3 (fresh [true; false])).1 = Undef.
Proof. vm_compute. reflexivity. Qed.
