(* ===== verification/Relay.v ===== *)
(** * Relaying a terminal to a pseudoterminal

    script.c and unbuffer.c (tlpi-dist/pty): a program runs on a slave (Pty.v), and its parent puts the
    terminal into raw mode (Tty.v) and copies in both directions what [select] says is there, script.c also
    into a file.  The end of either side ends the relay with success; the terminal is reset by a
    function registered with [atexit]. *)

From Stdlib Require Import ZArith Lia String Ascii.
From S2P Require Import Prelude CString Kernel ErrorFns Files FileCopy Process Pty Tty.

(** [k_select fds]: those of [fds] that are ready; [k_winsize] the ioctl TIOCGWINSZ; [k_exec] runs the program
    and returns only when it cannot. *)
Class RelayCalls (K : Type) := {
  k_select : list Z -> K -> (list Z + Z) * K;
  k_winsize : Z -> K -> (Z + Z) * K;
  k_execvp : list bytes -> K -> Z * K
}.

(** The functions registered with [atexit] run when [exit] is called; an [exit] in one of them is undefined. *)
Definition run_handler {S A} (handler : M S unit) (status : Z) : M S A := fun s =>
  match handler s with
  | (Ret _, s') => (Exit status, s')
  | (Exit _, s') => (Undef, s')
  | (o, s') => (recast o (fun _ => NoFuel), s')
  end.

Definition at_exit {S A} (handler : M S unit) (m : M S A) : M S A := fun s =>
  match m s with
  | (Exit status, s') => run_handler handler status s'
  | r => r
  end.

Section Program.
Context `{!Messages} {K : Type} `{!FileIO K, !RelayCalls K, !ProcCalls K, !PtyCalls K, !TtyCalls K} (atexit_ok : bool).

Definition BUF_SIZE : Z := 256.

Definition ttyReset (ttyOrig : termios) : M (proc K) unit :=
  r ← syscall (-1) (k_tcsetattr_to STDIN_FILENO ttyOrig);
  if r =? -1 then errExit (str "tcsetattr") else mret tt.

(** What was read goes to each of the [outs]; a short write is fatal. *)
Fixpoint write_all (outs : list (Z * string)) (numRead : Z) (buf : bytes) : M (proc K) unit :=
  match outs with
  | [] => mret tt
  | (fd, what) :: outs' =>
      w ← write fd buf;
      (if negb (w =? numRead) then fatal (str "partial/failed write (" ++ str what ++ str ")") else mret tt) ;;
      write_all outs' numRead buf
  end.

Definition pass (from : Z) (outs : list (Z * string)) : M (proc K) unit :=
  r ← read from BUF_SIZE;
  let '(numRead, buf) := r in
  if numRead <=? 0 then exit_ EXIT_SUCCESS else write_all outs numRead buf.

Definition relay (fuel : nat) (masterFd : Z) (outs : list (Z * string)) : M (proc K) unit :=
  loop fuel (fun _ =>
    r ← syscall None (fun k => match k_select [STDIN_FILENO; masterFd] k with (inl l, k') => (inl (Some l), k') | (inr e, k') => (inr e, k') end);
    match r with
    | None => errExit (str "select")
    | Some inFds =>
        (if bool_decide (STDIN_FILENO ∈ inFds) then pass STDIN_FILENO [(masterFd, "masterFd"%string)] else mret tt) ;;
        (if bool_decide (masterFd ∈ inFds) then pass masterFd outs else mret tt) ;;
        mret (inl tt)
    end) tt.

(** From the raw mode on.  [ttySetRaw] stores the attributes it finds in the variable [ttyOrig], unless
    it cannot get them, and its result is ignored. *)
Definition raw_relay (fuel : nat) (ttyOrig : termios) (masterFd : Z) (outs : list (Z * string)) : M (proc K) unit :=
  r ← ttySetRaw STDIN_FILENO;
  let ttyOrig := default ttyOrig r.2 in
  if negb atexit_ok then errExit (str "atexit") else at_exit (ttyReset ttyOrig) (relay fuel masterFd outs).

Definition get_terminal (winsize_msg : string) : M (proc K) termios :=
  t ← syscall None (fun k => match k_tcgetattr STDIN_FILENO k with (inl t, k') => (inl (Some t), k') | (inr e, k') => (inr e, k') end);
  ttyOrig ← match t with None => errExit (str "tcgetattr") | Some t => mret t end;
  r ← syscall (-1) (k_winsize STDIN_FILENO);
  (if r <? 0 then errExit (str winsize_msg) else mret tt) ;;
  mret ttyOrig.

Definition exec_or_exit (argv : list bytes) (what : string) : M (proc K) unit :=
  (fun p => let '(e, k) := k_execvp argv (kern p) in (Ret tt, Proc k e (trace p))) ;;
  errExit (str what).

(** [shell] is the environment variable. *)
Definition script_main (fuel : nat) (shell : option bytes) (argv : list bytes) : M (proc K) unit :=
  ttyOrig ← get_terminal "ioctl-TIOCGWINSZ";
  f ← ptyFork (Some MAX_SNAME) true true;
  let '(childPid, masterFd, _) := f in
  (if childPid =? -1 then errExit (str "ptyFork") else mret tt) ;;
  if childPid =? 0 then
    exec_or_exit [match shell with Some ((_ :: _) as s) => s | _ => str "/bin/sh" end] "execlp"
  else
    scriptFd ← open_ (default (str "typescript") (argv !! 1%nat)) (flags [O_WRONLY; O_CREAT; O_TRUNC])
      (flags [S_IRUSR; S_IWUSR; S_IRGRP; S_IWGRP; S_IROTH; S_IWOTH]);
    (if scriptFd =? -1 then errExit (str "open typescript") else mret tt) ;;
    raw_relay fuel ttyOrig masterFd [(STDOUT_FILENO, "STDOUT_FILENO"%string); (scriptFd, "scriptFd"%string)].

Definition unbuffer_main (fuel : nat) (argv : list bytes) : M (proc K) unit :=
  ttyOrig ← get_terminal "TIOCGWINSZ error";
  f ← ptyFork (Some MAX_SNAME) true true;
  let '(childPid, masterFd, _) := f in
  if childPid =? -1 then errExit (str "ptyFork")
  else if childPid =? 0 then exec_or_exit (drop 1 argv) "execvp"
  else raw_relay fuel ttyOrig masterFd [(STDOUT_FILENO, "STDOUT_FILENO"%string)].
End Program.

(** ** What a kernel promises of them

    What is to come from a descriptor is not changed by a call on another one, nor what another has taken. *)

Class RelayLaws (K : Type) `{!FileIO K, !SourceLaws K, !SinkLaws K, !DuplexLaws K, !RelayCalls K, !TtyCalls K, !TtyLaws K} := {
  select_ready : forall l k ready k', k_select l k = (inl ready, k') -> ready <> [] /\ forall fd, fd ∈ ready -> fd ∈ l;
  select_same : forall l k, let k' := (k_select l k).2 in pending k' = pending k /\ sunk k' = sunk k /\ attrs k' = attrs k;
  read_others : forall fd n k fd', fd' <> fd -> pending (k_read fd n k).2 fd' = pending k fd';
  write_others : forall fd data k fd', fd' <> fd -> sunk (k_write fd data k).2 fd' = sunk k fd';
  tty_same : forall fd t k, let k' := (k_tcsetattr_to fd t k).2 in pending k' = pending k /\ sunk k' = sunk k;
  tcget_same : forall fd k, let k' := (k_tcgetattr fd k).2 in pending k' = pending k /\ sunk k' = sunk k
}.

Section Correct.
Context `{!Messages} {K : Type} `{!FileIO K, !SourceLaws K, !SinkLaws K, !DuplexLaws K, !RelayCalls K, !TtyCalls K, !TtyLaws K, !RelayLaws K}.

(** [q] differs from [p] in that [bs] was read from [from] and, as [taken] says, passed to the [outs]. *)
Record passed (from : Z) (outs : list Z) (taken : bytes -> bytes -> Prop) (bs : bytes) (p q : proc K) : Prop := {
  ps_from : pending (kern p) from = bs ++ pending (kern q) from;
  ps_pending : forall fd, fd <> from -> pending (kern q) fd = pending (kern p) fd;
  ps_outs : forall fd, fd ∈ outs -> exists b, taken b bs /\ sunk (kern q) fd = sunk (kern p) fd ++ b;
  ps_sunk : forall fd, fd ∉ outs -> sunk (kern q) fd = sunk (kern p) fd
}.







Lemma passed_none from outs fd0 p q : passed from outs eq [] p q ->
  pending (kern q) fd0 = pending (kern p) fd0 /\ forall fd, sunk (kern q) fd = sunk (kern p) fd.
Proof.
  intros [H1 H2 H3 H4]. split.
  - destruct (decide (fd0 = from)) as [->|Hne]; [by rewrite H1|by apply H2].
  - intros fd. destruct (decide (fd ∈ outs)) as [Hin|Hnin]; [|by apply H4]. destruct (H3 fd Hin) as (b & -> & ->). by rewrite app_nil_r.
Qed.
















End Correct.

(** ** A kernel: streams with a terminal *)

Record desk := Desk { lines : streams; screen : termios }.

Definition on_lines {A} (f : streams -> A * streams) (k : desk) : A * desk :=
  let '(r, s) := f (lines k) in (r, Desk s (screen k)).

#[export] Instance desk_io : FileIO desk := {|
  k_open path fl mode := on_lines (k_open path fl mode);
  k_close fd := on_lines (k_close fd);
  k_read fd n := on_lines (k_read fd n);
  k_write fd data := on_lines (k_write fd data);
  k_lseek fd off wh := on_lines (k_lseek fd off wh)
|}.

Lemma on_lines_inv {A} (f : streams -> A * streams) k r k' : on_lines f k = (r, k') -> f (lines k) = (r, lines k').
Proof. unfold on_lines. destruct (f (lines k)) as [r' s]. by intros [= <- <-]. Qed.

#[export] Instance desk_source : SourceLaws desk.
Proof.
  refine {| pending k := pending (lines k); rdelays k := rdelays (lines k) |}.
  - intros k fd n bs k' Hn E%on_lines_inv. by eapply k_read_ok.
  - intros k fd n e k' Hn E%on_lines_inv. by eapply k_read_err.
Defined.

#[export] Instance desk_sink : SinkLaws desk.
Proof.
  refine {| sunk k := sunk (lines k); wdelays k := wdelays (lines k) |}.
  - intros k fd data c k' Hd E%on_lines_inv. by eapply k_write_ok.
  - intros k fd data e k' Hd E%on_lines_inv. by eapply k_write_err.
Defined.

#[export] Instance desk_duplex : DuplexLaws desk.
Proof.
  split.
  - intros k fd n r k' fd' E%on_lines_inv. exact (k_read_sunk _ _ _ _ _ fd' E).
  - intros k fd data r k' fd' E%on_lines_inv. exact (k_write_pending _ _ _ _ _ fd' E).
Qed.

#[export] Instance desk_relay : RelayCalls desk := {|
  k_select l k := if l is [] then (inr EINVAL, k) else (inl l, k);
  k_winsize fd k := (inl 0, k);
  k_execvp argv k := (ENOENT, k)
|}.

#[export] Instance desk_tty : TtyCalls desk := {|
  k_tcgetattr fd k := (inl (screen k), k);
  k_tcsetattr_to fd t k := (inl 0, Desk (lines k) t)
|}.

#[export] Instance desk_tty_laws : TtyLaws desk.
Proof. refine {| attrs k fd := screen k |}; intros; cbn in *; by simplify_eq/=. Defined.

#[export] Instance desk_relay_laws : RelayLaws desk.
Proof.
  split.
  - intros l k ready k'. cbn. destruct l; [done|]. intros [= <- <-]. split; [done|]. by intros fd.
  - intros l k. cbn. by destruct l.
  - intros fd n k fd' Hne. cbn. unfold on_lines, streams_read. destruct (default [] (s_in (lines k) !! fd)) as [|[c cs|e] rs]; cbn; [done|..]; by rewrite lookup_insert_ne.
  - intros fd data k fd' Hne. cbn. unfold on_lines, streams_write. destruct (default [] (s_script (lines k) !! fd)) as [|[n|e] ws]; cbn; [by rewrite lookup_insert_ne..|done].
  - intros fd t k. done.
  - intros fd k. done.
Qed.

#[local] Instance relay_messages : Messages := Build_Messages (fun _ => []) 0 (fun _ => []) None.

