(* ===== verification/SeekIo.v ===== *)
(** * A file, command by command

    seek_io.c (tlpi-dist/fileio): the arguments read, write and move in a file.  The program is
    proved to be the interpreter of its commands over the contents and an offset, on a kernel whose
    calls do not fail without a reason. *)

From Stdlib Require Import ZArith Lia String Ascii.
From S2P Require Import Prelude CString Kernel GetNum ErrorFns Files FileCopy.

Section Program.
Context `{!Messages} {K : Type} `{!FileIO K} (malloc_ok : Z -> bool).

Definition isprint (c : ascii) : bool := (32 <=? ord c) && (ord c <=? 126).

(** [%02x] of a [char], which is signed. *)
Definition hex2 (c : ascii) : bytes :=
  let ds := hex_number (wrap_u 32 (wrap_s 8 (ord c))) in replicate (2 - length ds) "0"%char ++ ds.

Fixpoint show_bytes (as_text : bool) (buf : bytes) : M (proc K) unit :=
  match buf with
  | [] => mret tt
  | c :: buf' =>
      (if as_text then printf [if isprint c then c else "?"%char] else printf (hex2 c ++ str " ")) ;;
      show_bytes as_text buf'
  end.

Definition read_command (fd : Z) (arg : bytes) (as_text : bool) : M (proc K) unit :=
  len ← getLong (Some (drop 1 arg)) GN_ANY_BASE (Some arg);
  let len := u64 len in
  (if malloc_ok len then mret tt else set_errno ENOMEM ;; errExit (str "malloc")) ;;
  r ← read fd len;
  let '(numRead, buf) := r in
  if numRead =? -1 then errExit (str "read")
  else if numRead =? 0 then printf (arg ++ str ": end-of-file" ++ [NL])
  else printf (arg ++ str ": ") ;; show_bytes as_text buf ;; printf [NL].

Definition write_command (fd : Z) (arg : bytes) : M (proc K) unit :=
  numWritten ← write fd (drop 1 arg);
  if numWritten =? -1 then errExit (str "write")
  else printf (arg ++ str ": wrote " ++ dec numWritten ++ str " bytes" ++ [NL]).

Definition seek_command (fd : Z) (arg : bytes) : M (proc K) unit :=
  offset ← getLong (Some (drop 1 arg)) GN_ANY_BASE (Some arg);
  r ← lseek fd offset SEEK_SET;
  if r =? -1 then errExit (str "lseek") else printf (arg ++ str ": seek succeeded" ++ [NL]).

Definition command (fd : Z) (arg : bytes) : M (proc K) unit :=
  match arg with
  | c :: _ =>
      if Ascii.eqb c "r" then read_command fd arg true
      else if Ascii.eqb c "R" then read_command fd arg false
      else if Ascii.eqb c "w" then write_command fd arg
      else if Ascii.eqb c "s" then seek_command fd arg
      else cmdLineErr (str "Argument must start with [rRws]: " ++ arg ++ [NL])
  | [] => cmdLineErr (str "Argument must start with [rRws]: " ++ arg ++ [NL])
  end.

Fixpoint commands (fd : Z) (args : list bytes) : M (proc K) unit :=
  match args with
  | [] => mret tt
  | arg :: args' => command fd arg ;; commands fd args'
  end.

Definition seek_io_main (argv : list bytes) : M (proc K) unit :=
  match argv with
  | a0 :: a1 :: a2 :: args =>
      if strcmp a1 (str "--help") =? 0 then usageErr (a0 ++ str " file {r<length>|R<length>|w<string>|s<offset>}..." ++ [NL])
      else
        fd ← open_ a1 (flags [O_RDWR; O_CREAT]) (flags [S_IRUSR; S_IWUSR; S_IRGRP; S_IWGRP; S_IROTH; S_IWOTH]);
        (if fd =? -1 then errExit (str "open") else mret tt) ;;
        commands fd (a2 :: args) ;;
        exit_ EXIT_SUCCESS
  | _ => usageErr (default [] (argv !! 0%nat) ++ str " file {r<length>|R<length>|w<string>|s<offset>}..." ++ [NL])
  end.
End Program.

(** ** The commands as an interpreter *)

Section Spec.
Context (malloc_ok : Z -> bool).

(** The number an argument spells, in any base of C. *)
Definition number (s : bytes) : option Z :=
  let r := strtol s 0 in
  if negb (st_erange r) && (st_end r =? length s)%nat && bool_decide (s <> []) then Some (st_value r) else None.

Inductive cmd := CRead (as_text : bool) (len : Z) | CWrite (s : bytes) | CSeek (off : Z).

Definition decode (arg : bytes) : option cmd :=
  match arg with
  | c :: s =>
      if Ascii.eqb c "r" then CRead true ∘ u64 <$> number s
      else if Ascii.eqb c "R" then CRead false ∘ u64 <$> number s
      else if Ascii.eqb c "w" then Some (CWrite s)
      else if Ascii.eqb c "s" then CSeek <$> number s
      else None
  | [] => None
  end.

(** The contents of the file, and the offset. *)
Record fstate := FState { contents : bytes; offset : Z }.

Definition shown (as_text : bool) (buf : bytes) : bytes :=
  concat ((fun c => if as_text then [if isprint c then c else "?"%char] else hex2 c ++ str " ") <$> buf).

(** What a command does and prints, if it can be performed. *)
Definition perform (arg : bytes) (c : cmd) (f : fstate) : option (fstate * bytes) :=
  match c with
  | CRead as_text len =>
      if malloc_ok len then
        let buf := take (Z.to_nat len) (drop (Z.to_nat (offset f)) (contents f)) in
        Some (FState (contents f) (offset f + strlen buf),
              match buf with [] => arg ++ str ": end-of-file" ++ [NL] | _ => arg ++ str ": " ++ shown as_text buf ++ [NL] end)
      else None
  | CWrite s =>
      Some (FState (overwrite (contents f) (Z.to_nat (offset f)) s) (offset f + strlen s), arg ++ str ": wrote " ++ dec (strlen s) ++ str " bytes" ++ [NL])
  | CSeek off => if 0 <=? off then Some (FState (contents f) off, arg ++ str ": seek succeeded" ++ [NL]) else None
  end.

Definition interpret_one (arg : bytes) (f : fstate) : option (fstate * bytes) := c ← decode arg; perform arg c f.

(** All commands, or those before the first that cannot be performed. *)
Fixpoint interpret (args : list bytes) (f : fstate) : bool * fstate * bytes :=
  match args with
  | [] => (true, f, [])
  | arg :: args' =>
      match interpret_one arg f with
      | None => (false, f, [])
      | Some (f', out) => let '(ok, f2, out2) := interpret args' f' in (ok, f2, out ++ out2)
      end
  end.
End Spec.

Section Refine.
Context `{!Messages} {K : Type} `{!FileIO K, !FileLaws K, !ReliableLaws K} (malloc_ok : Z -> bool).
Context (fd i ino fl : Z) (v0 : fsv).
Hypothesis Hread : readable (Ofd ino 0 fl) = true.
Hypothesis Hwrite : writable (Ofd ino 0 fl) = true.
Hypothesis Happend : has_flag fl O_APPEND = false.

(** The descriptor is where [f] says, and no other file differs from [v0]. *)
Record at_state (f : fstate) (v : fsv) : Prop := {
  at_fd : lookup_fd v fd = Some (i, Ofd ino (offset f) fl);
  at_off : 0 <= offset f;
  at_data : content v ino = contents f;
  at_others : forall ino', ino' <> ino -> content v ino' = content v0 ino';
  at_names : v_names v = v_names v0
}.

(** [q] has printed [out] since [p], and then perhaps [rest]. *)
Definition prints (p q : proc K) (out : bytes) (rest : list event) : Prop :=
  exists pieces, trace q = trace p ++ (Out <$> pieces) ++ rest /\ concat pieces = out.

Lemma prints_none p q rest : trace q = trace p ++ rest -> prints p q [] rest.
Proof. by exists []. Qed.

Lemma prints_one p q s : trace q = trace p ++ [Out s] -> prints p q s [].
Proof. exists [s]. split; [done|]. cbn. by rewrite app_nil_r. Qed.

Lemma prints_trans p q r out out' rest : prints p q out [] -> prints q r out' rest -> prints p r (out ++ out') rest.
Proof.
  intros (ps & H1 & <-) (ps' & H2 & <-). exists (ps ++ ps'). split; [|by rewrite concat_app].
  rewrite H2, H1, fmap_app, app_nil_r, <- !app_assoc. done.
Qed.

(** A command was performed, or the process was stopped with the file as it was. *)
Definition commanded (r : option (fstate * bytes)) (f : fstate) (p : proc K) (o : outcome unit) (q : proc K) : Prop :=
  match r with
  | Some (f', out) => o = Ret tt /\ at_state f' (view (kern q)) /\ prints p q out []
  | None => stopped o /\ at_state f (view (kern q)) /\ exists rest, prints p q [] rest
  end.

Lemma number_accepted s v : number s = Some v <-> accepted s GN_ANY_BASE v.
Proof.
  unfold number, accepted. change (base_of GN_ANY_BASE) with 0. destruct (strtol s 0) as [z e r]. cbn [st_erange st_end st_value].
  split.
  - destruct r; [done|]. cbn [negb andb]. destruct (Nat.eqb_spec e (length s)) as [->|]; [|done]. cbn [andb].
    case_bool_decide; [|done]. by intros [= ->].
  - intros ([= -> -> ->] & Hs & _). cbn [negb andb]. rewrite Nat.eqb_refl, bool_decide_true by done. done.
Qed.

Lemma wp_getLong s arg (p : proc K) (Q : outcome Z -> proc K -> Prop) : c_string s ->
  (forall v, number s = Some v -> Q (Ret v) (Proc (kern p) 0 (trace p))) ->
  (number s = None -> forall o q rest, stopped o -> kern q = kern p -> trace q = trace p ++ rest -> Q o q) ->
  wp (getLong (Some s) GN_ANY_BASE (Some arg)) p Q.
Proof.
  intros Hs Hok Hno. unfold wp, getLong. destruct (getNum_cases (str "getLong") s GN_ANY_BASE (Some arg) p Hs) as [(v & Hv & ->)|[Hnone (e & m & ms & ->)]].
  - apply Hok. by apply number_accepted.
  - apply Hno with (rest := Err m :: ms); [|by left|done|done]. destruct (number s) as [v|] eqn:E; [|done]. apply number_accepted in E. by destruct (Hnone v).
Qed.

Lemma show_bytes_shown as_text buf (p : proc K) : exists q,
  show_bytes as_text buf p = (Ret tt, q) /\ kern q = kern p /\ prints p q (shown as_text buf) [].
Proof.
  revert p. induction buf as [|c buf IH]; intros p; [exists p; split_and!; [done|done|apply prints_none; by rewrite app_nil_r]|].
  cbn [show_bytes]. unfold shown. cbn [fmap list_fmap concat].
  set (s := if as_text then [if isprint c then c else "?"%char] else hex2 c ++ str " ").
  destruct (IH (Proc (kern p) (errno p) (trace p ++ [Out s]))) as (q & Hrun & Hk & Hp).
  exists q. split_and!; [|done|].
  - rewrite <- Hrun. unfold s. destruct as_text; done.
  - eapply prints_trans; [|exact Hp]. by apply prints_one.
Qed.

Lemma at_readable f v : at_state f v -> readable (Ofd ino (offset f) fl) = true.
Proof. done. Qed.

Lemma at_state_read f v bs : at_state f v -> at_state (FState (contents f) (offset f + strlen bs)) (v_read i (Ofd ino (offset f) fl) bs v).
Proof.
  intros [H1 H2 H3 H4 H5]. split; cbn [offset contents]; try done.
  - unfold v_read. erewrite lookup_set_ofd by done. by rewrite decide_True.
  - pose proof (strlen_nonneg bs). lia.
Qed.

Lemma at_state_write f v bs : at_state f v ->
  at_state (FState (overwrite (contents f) (Z.to_nat (offset f)) bs) (offset f + strlen bs)) (v_write i (Ofd ino (offset f) fl) bs v).
Proof.
  intros [H1 H2 H3 H4 H5]. unfold v_write, write_offset. cbn [o_flags o_off o_ino]. rewrite Happend. split; cbn [offset contents].
  - erewrite lookup_set_ofd by exact H1. by rewrite decide_True.
  - pose proof (strlen_nonneg bs). lia.
  - by rewrite content_set_ofd, content_set, H3.
  - intros ino' Hne. rewrite content_set_ofd, content_set_ne by done. by apply H4.
  - done.
Qed.

Lemma at_state_seek f v off : at_state f v -> 0 <= off -> at_state (FState (contents f) off) (v_seek i (Ofd ino (offset f) fl) off v).
Proof.
  intros [H1 H2 H3 H4 H5] Ho. split; cbn [offset contents]; try done.
  unfold v_seek. erewrite lookup_set_ofd by done. by rewrite decide_True.
Qed.

(** After an error nothing is printed but messages, and the file is as before. *)
Lemma commanded_stopped f p o q rest : at_state f (view (kern q)) -> stopped o -> trace q = trace p ++ rest -> commanded None f p o q.
Proof. intros Hf Ho Ht. split_and!; [done|done|]. exists rest. by apply prints_none. Qed.

Lemma wp_stopped_errExit f msg (p q : proc K) rest : at_state f (view (kern q)) -> trace q = trace p ++ rest ->
  wp (errExit msg) q (commanded None f p).
Proof.
  intros Hf Ht. apply wp_errExit. intros o e Ho. eapply commanded_stopped; [done|done|]. cbn. rewrite Ht. by rewrite <- app_assoc.
Qed.

Lemma wp_read_command arg as_text f (p : proc K) : c_string (drop 1 arg) -> at_state f (view (kern p)) ->
  wp (read_command malloc_ok fd arg as_text) p (commanded (c ← CRead as_text ∘ u64 <$> number (drop 1 arg); perform malloc_ok arg c f) f p).
Proof.
  intros Hs Hf. apply wp_bind, wp_getLong; [done| |].
  2: { intros -> o q rest Ho Hk Ht. destruct Ho as [-> | ->]; (eapply commanded_stopped; [by rewrite Hk|by (left + right)|done]). }
  intros v ->. cbn [fmap option_fmap option_map mbind option_bind compose perform]. set (len := u64 v). apply wp_bind.
  destruct (malloc_ok len).
  2: { apply wp_bind, wp_set_errno. cbn [kern errno trace]. eapply wp_mono; [apply (wp_stopped_errExit f (str "malloc") p _ []); [done|by rewrite app_nil_r]|].
    intros o q (Ho & Hq & Hp). by destruct Ho as [-> | ->]; (split; [by (left + right)|]). }
  apply wp_ret, wp_bind. cbn [kern].
  assert (0 <= len) as Hlen by (apply (wrap_u_range 64 v); lia).
  eapply wp_read_full; [by apply at_fd|by apply Hread|done|]. cbn [kern o_off o_ino trace errno]. rewrite (at_data _ _ Hf).
  intros bs k' -> Hk. set (buf := take (Z.to_nat len) (drop (Z.to_nat (offset f)) (contents f))) in *.
  pose proof (at_state_read f _ buf Hf) as Hf'. rewrite <- Hk in Hf'.
  pose proof (strlen_nonneg buf) as Hb. destruct (Z.eqb_spec (strlen buf) (-1)); [lia|].
  destruct (Z.eqb_spec (strlen buf) 0) as [E|E].
  - apply strlen_nil in E. rewrite E in *. apply wp_printf. split_and!; [done|done|]. by apply prints_one.
  - destruct (show_bytes_shown as_text buf (Proc k' 0 (trace p ++ [Out (arg ++ str ": ")]))) as (q & Hrun & Hkq & Hpq).
    apply wp_bind, wp_printf. cbn [kern errno trace]. apply wp_bind. unfold wp. rewrite Hrun. cbn [fst snd].
    unfold printf, modify. cbn [fst snd]. split_and!; [done|cbn; by rewrite Hkq|].
    destruct buf as [|c buf']; [done|].
    rewrite (app_assoc arg). eapply prints_trans; [by apply (prints_one p (Proc k' 0 (trace p ++ [Out (arg ++ str ": ")])))|]. eapply prints_trans; [exact Hpq|]. by apply prints_one.
Qed.

Lemma wp_write_command arg f (p : proc K) : at_state f (view (kern p)) ->
  wp (write_command fd arg) p (commanded (perform malloc_ok arg (CWrite (drop 1 arg)) f) f p).
Proof.
  intros Hf. apply wp_bind. eapply wp_write_full; [by apply at_fd|by apply Hwrite|]. intros k' Hk.
  pose proof (at_state_write f _ (drop 1 arg) Hf) as Hf'. rewrite <- Hk in Hf'.
  pose proof (strlen_nonneg (drop 1 arg)). destruct (Z.eqb_spec (strlen (drop 1 arg)) (-1)); [lia|].
  apply wp_printf. split_and!; [done|done|]. by apply prints_one.
Qed.

Lemma wp_seek_command arg f (p : proc K) : c_string (drop 1 arg) -> at_state f (view (kern p)) ->
  wp (seek_command fd arg) p (commanded (c ← CSeek <$> number (drop 1 arg); perform malloc_ok arg c f) f p).
Proof.
  intros Hs Hf. apply wp_bind, wp_getLong; [done| |].
  2: { intros -> o q rest Ho Hk Ht. destruct Ho as [-> | ->]; (eapply commanded_stopped; [by rewrite Hk|by (left + right)|done]). }
  intros v ->. cbn [fmap option_fmap option_map mbind option_bind perform]. apply wp_bind.
  destruct (Z.leb_spec 0 v) as [Hv|Hv].
  - eapply wp_lseek_full; [by apply at_fd|done|]. cbn [kern trace errno seek_target Z.eqb SEEK_SET]. intros k' Hk.
    pose proof (at_state_seek f _ v Hf Hv) as Hf'. rewrite <- Hk in Hf'. destruct (Z.eqb_spec v (-1)); [lia|].
    apply wp_printf. split_and!; [done|done|]. by apply prints_one.
  - apply wp_flseek; cbn [kern trace errno].
    + intros i' o k' _ Ht _. unfold seek_target in Ht. cbn in Ht. lia.
    + intros e k' Hk. change (-1 =? -1) with true. cbv iota. apply (wp_stopped_errExit f (str "lseek") p _ []); [cbn; by rewrite Hk|by rewrite app_nil_r].
Qed.

Lemma wp_command arg f (p : proc K) : c_string arg -> at_state f (view (kern p)) ->
  wp (command malloc_ok fd arg) p (commanded (interpret_one malloc_ok arg f) f p).
Proof.
  intros Hs Hf.
  assert (forall msg, wp (cmdLineErr msg) p (commanded None f p)) as Hno.
  { intros msg. apply wp_bind, wp_eprintf. eapply commanded_stopped; [exact Hf|by left|done]. }
  destruct arg as [|c s]; [apply Hno|]. unfold interpret_one, command, decode.
  assert (c_string s) as Hs' by (intros Hin; apply Hs; by right).
  destruct (Ascii.eqb c "r"); [by apply wp_read_command|]. destruct (Ascii.eqb c "R"); [by apply wp_read_command|].
  destruct (Ascii.eqb c "w"); [by apply wp_write_command|]. destruct (Ascii.eqb c "s"); [by apply wp_seek_command|]. apply Hno.
Qed.

Lemma wp_commands args f (p : proc K) : Forall c_string args -> at_state f (view (kern p)) ->
  wp (commands malloc_ok fd args) p (fun o q =>
    let '(ok, f', out) := interpret malloc_ok args f in
    at_state f' (view (kern q)) /\ (if ok then o = Ret tt else stopped o) /\ exists rest, prints p q out rest /\ (ok = true -> rest = [])).
Proof.
  intros Hargs. revert f p. induction Hargs as [|arg args Harg _ IH]; intros f p Hf.
  - apply wp_ret. cbn. split_and!; [done|done|]. exists []. split; [|done]. apply prints_none. by rewrite app_nil_r.
  - cbn [commands interpret]. apply wp_bind. eapply wp_mono; [by apply wp_command|]. intros o q Hc.
    destruct (interpret_one malloc_ok arg f) as [[f1 out1]|].
    + destruct Hc as (-> & Hf1 & Hp1). eapply wp_mono; [by apply IH|]. intros o2 q2. destruct (interpret malloc_ok args f1) as [[ok f2] out2].
      intros (Hf2 & Ho & rest & Hp2 & Hr). split_and!; [done|done|]. exists rest. split; [by eapply prints_trans|done].
    + destruct Hc as (Ho & Hf1 & rest & Hp). destruct Ho as [-> | ->]; (split_and!; [done|by (left + right)|by exists rest]).
Qed.
End Refine.

Section Main.
Context `{!Messages} {K : Type} `{!FileIO K, !FileLaws K, !ReliableLaws K} (malloc_ok : Z -> bool).

(** C35: seek_io performs its commands as the interpreter of them does, on the contents of the file and an
    offset that starts at 0, for any list of commands: it prints what they print and leaves the file
    with the contents they give, other files as they were.  When all can be performed it
    exits with success and prints nothing else; at the first that cannot (it has no letter or number, its length
    cannot be allocated, its offset is negative) it stops with a failure, the commands
    before it performed. *)
Theorem seek_io_interprets prog file args (p : proc K) :
  strcmp file (str "--help") <> 0 -> args <> [] -> Forall c_string args ->
  let '(o, q) := seek_io_main malloc_ok (prog :: file :: args) p in
  let '(ok, f, out) := interpret malloc_ok args (FState (file_of (view (kern p)) file) 0) in
  (if ok then o = Exit EXIT_SUCCESS else stopped o) /\
  (exists ino, v_names (view (kern q)) !! file = Some ino /\ content (view (kern q)) ino = contents f /\
     forall ino', ino' <> ino -> content (view (kern q)) ino' = content (view (kern p)) ino') /\
  exists rest, prints p q out rest /\ (ok = true -> rest = []).
Proof.
  intros Hh Hargs Hc. destruct args as [|a2 args]; [done|].
  enough (wp (seek_io_main malloc_ok (prog :: file :: a2 :: args)) p (fun o q =>
    let '(ok, f, out) := interpret malloc_ok (a2 :: args) (FState (file_of (view (kern p)) file) 0) in
    (if ok then o = Exit EXIT_SUCCESS else stopped o) /\
    (exists ino, v_names (view (kern q)) !! file = Some ino /\ content (view (kern q)) ino = contents f /\
       forall ino', ino' <> ino -> content (view (kern q)) ino' = content (view (kern p)) ino') /\
    exists rest, prints p q out rest /\ (ok = true -> rest = []))) as Hwp.
  { unfold wp in Hwp. by destruct (seek_io_main malloc_ok (prog :: file :: a2 :: args) p) as [o q]. }
  unfold seek_io_main. rewrite (proj2 (Z.eqb_neq _ _) Hh). apply wp_bind. apply wp_open_full; [by right|].
  intros fd i ino k' Hmay Hk. cbn [kern errno trace]. set (fl := flags [O_RDWR; O_CREAT]) in *.
  assert (fd <> -1) as Hfd by (destruct Hmay; lia). rewrite (proj2 (Z.eqb_neq _ _) Hfd).
  apply wp_bind, wp_ret, wp_bind.
  destruct (opened_content _ _ _ _ _ _ Hmay eq_refl) as [Hd Hn]. rewrite <- Hk in Hd, Hn.
  assert (forall ino', ino' <> ino -> content (view k') ino' = content (view (kern p)) ino') as Hothers.
  { intros ino' Hne. rewrite Hk. unfold content, v_open. cbn. by rewrite lookup_insert_ne. }
  eapply wp_mono.
  { apply (wp_commands malloc_ok fd i ino fl (view k') eq_refl eq_refl eq_refl (a2 :: args) (FState (file_of (view (kern p)) file) 0)); [done|].
    split; cbn [offset contents kern]; try done. rewrite Hk. apply lookup_v_open. }
  intros o q. destruct (interpret malloc_ok (a2 :: args) _) as [[ok f] out]. intros ([_ _ Hq Ho Hnames] & Hres & rest & Hp & Hrest).
  assert ((exists ino, v_names (view (kern q)) !! file = Some ino /\ content (view (kern q)) ino = contents f /\
    forall ino', ino' <> ino -> content (view (kern q)) ino' = content (view (kern p)) ino') /\
    exists rest, prints p q out rest /\ (ok = true -> rest = [])) as Hfinal.
  { split; [|by exists rest]. exists ino. split_and!; [by rewrite Hnames|done|]. intros ino' Hne. by rewrite Ho, Hothers. }
  destruct ok; [subst o; by apply (conj eq_refl)|]. destruct Hres as [-> | ->]; (split; [by (left + right)|exact Hfinal]).
Qed.
End Main.

#[local] Instance seek_messages : Messages := Build_Messages (fun _ => []) 0 (fun _ => []) None.

Lemma seek_io_interprets_witness :
  let v := Fsv {[ str "f" := 1 ]} {[ 1 := str "hello" ]} ∅ ∅ in
  let '(o, q) := seek_io_main (fun _ => true) [str "seek_io"; str "f"; str "s1"; str "wEL"; str "R2"] (Proc v 0 []) in
  o = Exit EXIT_SUCCESS /\ (exists ino, v_names (kern q) !! str "f" = Some ino /\ content (kern q) ino = str "hELlo") /\
  prints (Proc v 0 []) q (str "s1: seek succeeded" ++ [NL] ++ str "wEL: wrote 2 bytes" ++ [NL] ++ str "R2: 6c 6f " ++ [NL]) [].
Proof.
  intros v. pose proof (seek_io_interprets (fun _ => true) (str "seek_io") (str "f") [str "s1"; str "wEL"; str "R2"] (Proc v 0 [])) as H.
  destruct (seek_io_main (fun _ => true) [str "seek_io"; str "f"; str "s1"; str "wEL"; str "R2"] (Proc v 0 [])) as [o q].
  assert (interpret (fun _ => true) [str "s1"; str "wEL"; str "R2"] (FState (file_of (view (kern (Proc v 0 []))) (str "f")) 0) =
    (true, FState (str "hELlo") 5, str "s1: seek succeeded" ++ [NL] ++ str "wEL: wrote 2 bytes" ++ [NL] ++ str "R2: 6c 6f " ++ [NL])) as E by (vm_compute; reflexivity).
  rewrite E in H. destruct H as (Ho & (ino & Hn & Hc & _) & rest & Hp & Hr); [by_decide|discriminate|by_decide|].
  split; [exact Ho|]. split; [by exists ino|]. by rewrite (Hr eq_refl) in Hp.
Defined.

(** A byte above 127 is a negative [char], and [%02x] shows the [unsigned int] it converts to. *)
Example high_byte_shown : hex2 (chr 233) = str "ffffffe9".
Proof. reflexivity. Qed.
