(* ===== verification/Sendfile.v ===== *)
(** * sendfile by hand

    sendfile.c (tlpi-dist/sockets), which implements the system call with read, write and lseek, over
    the regular files of Files.v. *)

From Stdlib Require Import ZArith Lia String Ascii.
From S2P Require Import Prelude CString Kernel ErrorFns Files.

Section Program.
Context `{!Messages} {K : Type} `{!FileIO K}.

Definition BUF_SIZE : Z := 8192.

(** The loop; its result is [totSent], or nothing after an error.  The sizes are unsigned. *)
Definition send_loop (fuel : nat) (out_fd in_fd : Z) (count : Z) : M (proc K) (option Z) :=
  loop fuel (fun '(count, totSent) =>
    if 0 <? count then
      r ← read in_fd (Z.min BUF_SIZE count);
      let '(numRead, buf) := r in
      if numRead =? -1 then mret (inr None)
      else if numRead =? 0 then mret (inr (Some totSent))
      else
        numSent ← write out_fd buf;
        if numSent =? -1 then mret (inr None)
        else if numSent =? 0 then fatal (str "sendfile: write() transferred 0 bytes")
        else mret (inl (u64 (count - numSent), u64 (totSent + numSent)))
    else mret (inr (Some totSent))) (count, 0).

(** The result, and what is stored in [*offset] when it is not null. *)
Definition sendfile (fuel : nat) (out_fd in_fd : Z) (offset : option Z) (count : Z) : M (proc K) (Z * option Z) :=
  match offset with
  | None => r ← send_loop fuel out_fd in_fd count; mret (default (-1) r, None)
  | Some off =>
      orig ← lseek in_fd 0 SEEK_CUR;
      if orig =? -1 then mret (-1, Some off)
      else
        r ← lseek in_fd off SEEK_SET;
        if r =? -1 then mret (-1, Some off)
        else
          r ← send_loop fuel out_fd in_fd count;
          match r with
          | None => mret (-1, Some off)
          | Some totSent =>
              off' ← lseek in_fd 0 SEEK_CUR;
              if off' =? -1 then mret (-1, Some off')
              else
                r ← lseek in_fd orig SEEK_SET;
                if r =? -1 then mret (-1, Some off') else mret (totSent, Some off')
          end
  end.
End Program.

(** A short write loses the bytes that were read and not taken: the next round reads what follows them. *)
Example short_write_loses `{!Messages} :
  let k := Streams {[ 3 := [Chunk "a" (str "bcdef"); Chunk "g" []] ]} ∅ {[ 4 := [Accept 2] ]} in
  let '(o, q) := sendfile 10 4 3 None 7 (Proc k 0 []) in o = Ret (3, None) /\ sunk (kern q) 4 = str "abg".
Proof. vm_compute. done. Qed.

(** ** Where calls do not fail and transfers are whole *)

Section Correct.
Context `{!Messages} {K : Type} `{!FileIO K, !FileLaws K, !ReliableLaws K}.
Context (in_fd out_fd i j ino_s ino_d fl_s fl_d : Z) (src : bytes).
Hypothesis Hij : i <> j.
Hypothesis Hino : ino_s <> ino_d.
Hypothesis Hread : readable (Ofd ino_s 0 fl_s) = true.
Hypothesis Hwrite : writable (Ofd ino_d 0 fl_d) = true.
Hypothesis Happend : has_flag fl_d O_APPEND = false.

(** The two descriptors, at [off] of the source [src] and at [off'] of the target [dst]. *)
Record sending (off off' : Z) (dst : bytes) (v : fsv) : Prop := {
  sd_in : lookup_fd v in_fd = Some (i, Ofd ino_s off fl_s);
  sd_out : lookup_fd v out_fd = Some (j, Ofd ino_d off' fl_d);
  sd_off : 0 <= off /\ 0 <= off';
  sd_src : content v ino_s = src;
  sd_dst : content v ino_d = dst
}.

Lemma sending_read off off' dst v bs v' : sending off off' dst v -> v' = v_read i (Ofd ino_s off fl_s) bs v ->
  sending (off + strlen bs) off' dst v'.
Proof.
  intros [H1 H2 [H3 H4] H5 H6] ->. pose proof (strlen_nonneg bs). unfold v_read. split; try done; [..|lia].
  - erewrite lookup_set_ofd by done. by rewrite decide_True.
  - erewrite lookup_set_ofd by done. by rewrite decide_False.
Qed.

Lemma sending_seek off off' dst v r v' : sending off off' dst v -> 0 <= r -> v' = v_seek i (Ofd ino_s off fl_s) r v -> sending r off' dst v'.
Proof.
  intros [H1 H2 [H3 H4] H5 H6] Hr ->. unfold v_seek. split; try done.
  - erewrite lookup_set_ofd by done. by rewrite decide_True.
  - erewrite lookup_set_ofd by done. by rewrite decide_False.
Qed.

Lemma sending_write off off' dst v bs v' : sending off off' dst v -> v' = v_write j (Ofd ino_d off' fl_d) bs v ->
  sending off (off' + strlen bs) (overwrite dst (Z.to_nat off') bs) v'.
Proof.
  intros [H1 H2 [H3 H4] H5 H6] ->. pose proof (strlen_nonneg bs). unfold v_write, write_offset. cbn [o_flags o_off o_ino]. rewrite Happend.
  split; [..|lia| |].
  - erewrite lookup_set_ofd by exact H1. by rewrite decide_False.
  - erewrite lookup_set_ofd by exact H2. by rewrite decide_True.
  - by rewrite content_set_ofd, content_set_ne.
  - by rewrite content_set_ofd, content_set, H6.
Qed.

(** One round takes the next piece of the source; when it is empty, everything asked for has been sent. *)
Lemma piece tot c off bs : 0 <= tot -> 0 <= c -> 0 <= off -> strlen (take (Z.to_nat tot) (drop (Z.to_nat off) src)) = tot ->
  bs = take (Z.to_nat (Z.min BUF_SIZE c)) (drop (Z.to_nat (off + tot)) src) ->
  strlen bs <= c /\ take (Z.to_nat tot) (drop (Z.to_nat off) src) ++ bs = take (Z.to_nat (tot + strlen bs)) (drop (Z.to_nat off) src) /\
  (strlen bs = 0 -> take (Z.to_nat tot) (drop (Z.to_nat off) src) = take (Z.to_nat (c + tot)) (drop (Z.to_nat off) src)).
Proof.
  intros Ht Hc Hoff Hlen Hbs. rewrite Z2Nat.inj_add, <- drop_drop in Hbs by lia. unfold strlen in *.
  set (d := drop (Z.to_nat off) src) in *. pose proof (f_equal length Hbs) as Hl. rewrite length_take in Hl.
  split; [lia|split].
  - rewrite Z2Nat.inj_add, Nat2Z.id, <- take_take_drop by lia. f_equal. rewrite Hl, <- take_take, (take_ge (drop _ d)) by lia. done.
  - intros Hz. rewrite length_take in Hlen. rewrite length_drop in Hl. unfold BUF_SIZE in Hl.
    destruct (decide (c = 0)) as [->|Hc0]; [by rewrite Z.add_0_l|]. rewrite !take_ge by lia. done.
Qed.

Lemma send_loop_sends fuel off off' dst count (p : proc K) :
  sending off off' dst (view (kern p)) -> 0 <= count < 2 ^ 64 -> (length src < fuel)%nat ->
  wp (send_loop fuel out_fd in_fd count) p (fun o q =>
    let sent := take (Z.to_nat count) (drop (Z.to_nat off) src) in
    o = Ret (Some (strlen sent)) /\ trace q = trace p /\
    sending (off + strlen sent) (off' + strlen sent) (overwrite dst (Z.to_nat off') sent) (view (kern q))).
Proof.
  intros Hs Hc Hf. unfold send_loop.
  refine (loop_wp (fun '(c, tot) q => 0 <= c /\ 0 <= tot /\ c + tot = count /\ trace q = trace p /\
      let sent := take (Z.to_nat tot) (drop (Z.to_nat off) src) in strlen sent = tot /\
      sending (off + tot) (off' + tot) (overwrite dst (Z.to_nat off') sent) (view (kern q)))
    (fun '(c, tot) q => (length src - Z.to_nat tot)%nat) _ _ _ fuel (count, 0) p _ _).
  2: { rewrite !Z.add_0_r. split_and!; try done; lia. }
  2: { lia. }
  intros [c tot] q (Hc0 & Ht0 & Hct & Htr & Hlen & Hsend). set (sent := take (Z.to_nat tot) (drop (Z.to_nat off) src)) in *.
  pose proof (sd_off _ _ _ _ Hs) as [Hoff Hoff']. pose proof (sd_src _ _ _ _ Hsend) as Hsrc.
  destruct (Z.ltb_spec 0 c) as [Hpos|Hz].
  2: { apply wp_ret. cbn. assert (c = 0) as -> by lia. rewrite Z.add_0_l in Hct. subst tot. fold sent. rewrite Hlen. done. }
  apply wp_bind. eapply wp_read_full; [exact (sd_in _ _ _ _ Hsend)|exact Hread|unfold BUF_SIZE; lia|].
  cbn [o_off o_ino]. rewrite Hsrc. intros bs k' Hbs Hk.
  pose proof (strlen_nonneg bs) as Hbs0. cbn beta iota. destruct (Z.eqb_spec (strlen bs) (-1)); [lia|].
  pose proof (sending_read _ _ _ _ bs _ Hsend Hk) as Hsend'.
  destruct (piece tot c off bs) as (Hle & Happ & Hend); [lia..|exact Hlen|exact Hbs|]. fold sent in Happ.
  destruct (Z.eqb_spec (strlen bs) 0) as [Hzero|Hne].
  { apply wp_ret. cbn. rewrite <- Hct, <- (Hend Hzero). fold sent. rewrite Hlen. rewrite Hzero, Z.add_0_r in Hsend'. done. }
  apply wp_bind. eapply wp_write_full; [exact (sd_out _ _ _ _ Hsend')|exact Hwrite|].
  intros k'' Hk''. cbn beta iota. pose proof (sending_write _ _ _ _ bs _ Hsend' Hk'') as Hsend''.
  destruct (Z.eqb_spec (strlen bs) (-1)); [lia|]. destruct (Z.eqb_spec (strlen bs) 0); [lia|]. apply wp_ret. cbn.
  assert (u64 (c - strlen bs) = c - strlen bs /\ u64 (tot + strlen bs) = tot + strlen bs) as [-> ->].
  { unfold u64. rewrite !Z.mod_small; lia. }
  rewrite <- Happ, strlen_app, Hlen. split; [split_and!; try lia; try done|].
  - rewrite <- !Z.add_assoc in Hsend''. replace (overwrite dst (Z.to_nat off') (sent ++ bs)) with
      (overwrite (overwrite dst (Z.to_nat off') sent) (Z.to_nat (off' + tot)) bs); [exact Hsend''|].
    rewrite <- overwrite_twice. f_equal. unfold strlen in Hlen. lia.
  - pose proof (f_equal length Happ) as Hl. rewrite length_app, length_take, length_drop in Hl. unfold strlen in *. lia.
Qed.

(** sendfile() sends the next [count] bytes of the source, as many as there are, to the target's
    descriptor, where they land at its offset, and returns how many.  With an offset, the source is read from there,
    the descriptor's own offset is what it was, and the offset stored is that of the byte after the last
    one sent; without one, the descriptor's offset moves past them. *)
Theorem sendfile_copies fuel off off' dst (offset : option Z) count (p : proc K) :
  sending off off' dst (view (kern p)) -> 0 <= default 0 offset -> 0 <= count < 2 ^ 64 -> (length src < fuel)%nat ->
  wp (sendfile fuel out_fd in_fd offset count) p (fun o q =>
    let sent := take (Z.to_nat count) (drop (Z.to_nat (default off offset)) src) in
    o = Ret (strlen sent, (fun o => o + strlen sent) <$> offset) /\ trace q = trace p /\
    sending (if offset is Some _ then off else off + strlen sent) (off' + strlen sent) (overwrite dst (Z.to_nat off') sent) (view (kern q))).
Proof.
  intros Hs Ho Hc Hf. destruct offset as [o|]; cbn in *.
  2: { apply wp_bind. eapply wp_mono; [by eapply send_loop_sends|]. intros r q (-> & Htr & Hs'). by apply wp_ret. }
  pose proof (sd_off _ _ _ _ Hs) as [Hoff _].
  apply wp_bind. eapply wp_lseek_full; [exact (sd_in _ _ _ _ Hs)|cbn; lia|]. cbn. rewrite Z.add_0_r. intros k1 Hk1.
  pose proof (sending_seek _ _ _ _ off _ Hs Hoff Hk1) as Hs1. destruct (Z.eqb_spec off (-1)); [lia|].
  apply wp_bind. eapply wp_lseek_full; [exact (sd_in _ _ _ _ Hs1)|cbn; lia|]. cbn. intros k2 Hk2.
  pose proof (sending_seek _ _ _ _ o _ Hs1 Ho Hk2) as Hs2. destruct (Z.eqb_spec o (-1)); [lia|].
  apply wp_bind. eapply wp_mono; [by eapply send_loop_sends|]. cbn. set (sent := take _ _).
  intros r q (-> & Htr & Hs3). pose proof (strlen_nonneg sent) as Hn.
  apply wp_bind. eapply wp_lseek_full; [exact (sd_in _ _ _ _ Hs3)|cbn; lia|]. cbn. rewrite Z.add_0_r. intros k4 Hk4.
  pose proof (sending_seek _ _ _ _ (o + strlen sent) _ Hs3 ltac:(lia) Hk4) as Hs4. destruct (Z.eqb_spec (o + strlen sent) (-1)); [lia|].
  apply wp_bind. eapply wp_lseek_full; [exact (sd_in _ _ _ _ Hs4)|cbn; lia|]. cbn. intros k5 Hk5.
  destruct (Z.eqb_spec off (-1)); [lia|]. apply wp_ret. by eapply sending_seek in Hk5.
Qed.
End Correct.

#[local] Instance sendfile_messages : Messages := Build_Messages (fun _ => []) 0 (fun _ => []) None.

Lemma sendfile_copies_witness :
  let v := Fsv ∅ {[ 1 := str "hello"; 2 := [] ]} {[ 10 := Ofd 1 4 O_RDONLY; 11 := Ofd 2 0 O_WRONLY ]} {[ 3 := 10; 4 := 11 ]} in
  let '(o, q) := sendfile 9 4 3 (Some 1) 3 (Proc v 0 []) in
  o = Ret (3, Some 4) /\ lookup_fd (kern q) 3 = Some (10, Ofd 1 4 O_RDONLY) /\ content (kern q) 2 = str "ell".
Proof.
  intros v. pose proof (sendfile_copies 3 4 10 11 1 2 O_RDONLY O_WRONLY (str "hello") ltac:(done) ltac:(done) eq_refl eq_refl eq_refl
    9 4 0 [] (Some 1) 3 (Proc v 0 [])) as Hs.
  unfold wp in Hs. destruct (sendfile 9 4 3 (Some 1) 3 (Proc v 0 [])) as [o q].
  destruct Hs as (Ho & _ & [H1 _ _ _ H2]); [split; try (vm_compute; reflexivity); lia|done|done|cbn; lia|].
  split; [exact Ho|]. split; [exact H1|exact H2].
Defined.
