(* ===== verification/Bench.v ===== *)
(** * The file creation benchmark

    benchmarkwrites.c (14-file-systems): creates a number of files in a directory, in a random order if wanted,
    and removes them in numerical order.  The numbers that rand() delivers, what getopt delivers, the success of malloc
    and the text of a difference of times (computed in floating point) are parameters. *)

From Stdlib Require Import ZArith Lia String Ascii.
From S2P Require Import Prelude CString Kernel Files.

Definition FILE_CONTENTS : bytes := str "z".
Definition DEFAULT_NUMBER_FILES : Z := 10000.
Definition MAX_NUMBER_FILES : Z := 1000000.
Definition MODE_777 : Z := 511.
Definition RAND_MAX : Z := 2 ^ 31 - 1.
Definition S_IFMT : Z := 61440.
Definition S_IFDIR : Z := 16384.

(** ** shuffle *)

Section Shuffle.
(** [rand i] is what the call of round [i] returns. *)
Context (rand : nat -> Z).

Definition swap (array : list Z) (i j : nat) : option (list Z) :=
  t ← array !! j; x ← array !! i; Some (<[i := t]> (<[j := x]> array)).

(** The index drawn in round [i]; the sizes are unsigned. *)
Definition draw (n i : nat) : nat := Z.to_nat (Z.of_nat i + rand i / (RAND_MAX / (Z.of_nat n - Z.of_nat i) + 1)).

(** [k] more rounds; an access outside the array is nothing. *)
Fixpoint shuffle_rounds (n k i : nat) (array : list Z) : option (list Z) :=
  match k with
  | O => Some array
  | S k' => array' ← swap array i (draw n i); shuffle_rounds n k' (S i) array'
  end.

Definition shuffle (array : list Z) (n : nat) : option (list Z) :=
  if (1 <? n)%nat then shuffle_rounds n (n - 1) 0 array else Some array.
End Shuffle.

(** ** The options *)

Record options := Options { number_files : Z; randomize : bool; dirname : bytes }.

(** What getopt delivers: an option with its argument; another character is an error. *)
Fixpoint take_options (opts : list (ascii * bytes)) (number : Z) (random : bool) : option (Z * bool) :=
  match opts with
  | [] => Some (number, random)
  | (c, optarg) :: opts' =>
      if Ascii.eqb c "n" then take_options opts' (atoi optarg) random
      else if Ascii.eqb c "r" then take_options opts' number true
      else None
  end.

Section Program.
Context {K : Type}.

(** [argv] as getopt leaves it, with [optind]; nothing when the program is to print its usage. *)
Definition parse_options (opts : list (ascii * bytes)) (argv : list bytes) (optind : nat) : M (proc K) (option options) :=
  match take_options opts DEFAULT_NUMBER_FILES false with
  | None => mret None
  | Some (number, random) =>
      if negb (bool_decide (S optind = length argv)) then mret None
      else
        dir ← the (last argv);
        if strlen dir <? 1028 then mret (Some (Options number random dir)) else undef_
  end.
End Program.

(** More calls: stat, of which the mode is used, mkdir, unlink and gettimeofday. *)
Class DirCalls (K : Type) := {
  k_stat : bytes -> K -> (Z + Z) * K;
  k_mkdir : bytes -> Z -> K -> (Z + Z) * K;
  k_unlink : bytes -> K -> (Z + Z) * K;
  k_time : K -> (Z * Z) * K
}.

Section Benchmark.
Context {K : Type} `{!FileIO K, !DirCalls K} (strerror : Z -> bytes) (malloc_ok : Z -> bool) (rand : nat -> Z).
Context (elapsed : Z * Z -> Z * Z -> bytes).

Definition gettimeofday : M (proc K) (Z * Z) := fun p => let '(t, k') := k_time (kern p) in (Ret t, Proc k' (errno p) (trace p)).
Definition perror : M (proc K) unit := e ← get_errno; eprintf (strerror e ++ [NL]).

Definition quoted (s : bytes) : bytes := chr 34 :: s ++ [chr 34].

(** [sprintf] into an array of 1024 bytes; the number is not negative. *)
Definition file_name (dir : bytes) (i : Z) : bytes := dir ++ str "/x" ++ replicate (6 - length (dec i)) "0"%char ++ dec i.
Definition filepath (dir : bytes) (i : Z) : M (proc K) bytes :=
  if strlen (file_name dir i) <? 1024 then mret (file_name dir i) else undef_.

Fixpoint create_files (dir : bytes) (l : list Z) : M (proc K) bool :=
  match l with
  | [] => mret true
  | i :: l' =>
      path ← filepath dir i;
      fd ← open_ path O_CREAT MODE_777;
      if fd =? -1 then eprintf (str "Unable to open file " ++ quoted path ++ str " - ") ;; perror ;; mret false
      else write fd FILE_CONTENTS ;; close fd ;; create_files dir l'
  end.

Fixpoint delete_files (dir : bytes) (l : list Z) : M (proc K) bool :=
  match l with
  | [] => mret true
  | i :: l' =>
      path ← filepath dir i;
      r ← syscall (-1) (k_unlink path);
      if negb (r =? 0) then eprintf (str "Unable to unlink " ++ quoted path ++ str " - ") ;; perror ;; mret false
      else delete_files dir l'
  end.

(** Makes sure that the directory is there. *)
Definition prepare (dir : bytes) : M (proc K) bool :=
  s ← syscall (-1) (k_stat dir);
  if s =? -1 then
    m ← syscall (-1) (k_mkdir dir MODE_777);
    if negb (m =? 0) then eprintf (str "Unable to make directory " ++ dir ++ str ", unable to continue" ++ [NL]) ;; mret false else mret true
  else if negb (Z.land s S_IFMT =? S_IFDIR)
  then eprintf (quoted dir ++ str " exists but is not a directory, unable to continue" ++ [NL]) ;; mret false
  else mret true.

Definition runbenchmark (o : options) : M (proc K) Z :=
  let n := number_files o in
  if negb (malloc_ok (u64 (4 * n))) then eprintf (str "Unable to allocate buffer for numbers" ++ [NL]) ;; mret 1
  else
    ok ← prepare (dirname o);
    if negb ok then mret 1
    else
      let ordered := Z.of_nat <$> seq 0 (Z.to_nat n) in
      numbers ← (if randomize o then the (shuffle rand ordered (Z.to_nat (u64 n))) else mret ordered);
      st ← gettimeofday;
      ok ← create_files (dirname o) numbers;
      if negb ok then mret 1
      else
        ok ← delete_files (dirname o) ordered;
        if negb ok then mret 1
        else
          en ← gettimeofday;
          printf (str "== Write/Delete Benchmark ==" ++ [NL]) ;;
          printf (str "NF = " ++ dec n ++ [NL]) ;;
          printf (str "randomized = " ++ (if randomize o then str "true" else str "false") ++ [NL]) ;;
          printf (str "time: " ++ elapsed st en ++ str " secs" ++ [NL]) ;;
          mret 0.

Definition print_usage (prog : bytes) : M (proc K) unit :=
  eprintf (str "Usage: " ++ prog ++ str " [options] <directory>" ++ [NL]) ;;
  eprintf (str "Options:" ++ [NL]) ;;
  eprintf (str "  -n <number_files> (Set the number of files to use in the test)" ++ [NL]) ;;
  eprintf (str "  -r                (Create random files and delete in a different order)" ++ [NL]).

Definition benchmark_main (opts : list (ascii * bytes)) (argv : list bytes) (optind : nat) : M (proc K) Z :=
  r ← parse_options opts argv optind;
  match r with
  | None => eprintf (str "Error: Invalid options specified" ++ [NL]) ;; print_usage (default [] (argv !! 0%nat)) ;; mret 1
  | Some o => runbenchmark o
  end.
End Benchmark.

Example shuffle_runs : shuffle (fun i => if decide (i = 0%nat) then RAND_MAX else 0) [0; 1; 2; 3] 4 = Some [3; 1; 2; 0].
Proof. vm_compute. reflexivity. Qed.

(** ** The order of creation *)

Lemma draw_in_range rand n i : (forall i, 0 <= rand i <= RAND_MAX) -> (i < n)%nat -> (i <= draw rand n i < n)%nat.
Proof.
  intros Hr Hi. unfold draw. set (m := Z.of_nat n - Z.of_nat i). assert (0 < m) as Hm by (unfold m; lia).
  set (q := RAND_MAX / m + 1). assert (0 <= RAND_MAX / m) as Hd by (apply Z.div_pos; [done|lia]).
  assert (RAND_MAX < q * m) as Hq. { unfold q. pose proof (Z.mul_succ_div_gt RAND_MAX m Hm). lia. }
  assert (0 <= rand i / q < m) as [H1 H2].
  { specialize (Hr i). split; [apply Z.div_pos; lia|]. apply Z.div_lt_upper_bound; lia. }
  unfold m in H2. lia.
Qed.

Lemma swap_permutes array i j : (i < length array)%nat -> (j < length array)%nat -> exists array', swap array i j = Some array' /\ array' ≡ₚ array.
Proof.
  intros [x Hx]%lookup_lt_is_Some_2 [t Ht]%lookup_lt_is_Some_2. unfold swap. rewrite Hx, Ht. cbn. eexists. split; [done|].
  by apply Permutation_insert_swap.
Qed.

(** However rand() draws, shuffle stays in the array and only reorders it. *)
Lemma shuffle_permutes rand array : (forall i, 0 <= rand i <= RAND_MAX) ->
  exists array', shuffle rand array (length array) = Some array' /\ array' ≡ₚ array.
Proof.
  intros Hr. unfold shuffle. destruct (1 <? length array)%nat; [|by eexists].
  set (n := length array). assert (0 + (n - 1) <= n)%nat as Hle by lia. revert Hle. generalize (n - 1)%nat as k, 0%nat as i.
  assert (length array = n) as Hn by done. clearbody n. revert array Hn.
  enough (forall k i array, length array = n -> (i + k <= n)%nat -> exists array', shuffle_rounds rand n k i array = Some array' /\ array' ≡ₚ array) as H by auto.
  induction k as [|k IH]; intros i array Hn Hk; [by eexists|].
  pose proof (draw_in_range rand n i Hr ltac:(lia)) as Hd. destruct (swap_permutes array i (draw rand n i)) as (a1 & E1 & P1); [lia..|].
  destruct (IH (S i) a1) as (a2 & E2 & P2); [by rewrite (Permutation_length P1)|lia|].
  exists a2. cbn [shuffle_rounds]. rewrite E1. cbn [mbind option_bind]. split; [done|by rewrite P2].
Qed.

(** ** What a run leaves behind *)

Class DirLaws (K : Type) `{!FileIO K, !FileLaws K, !DirCalls K} := {
  stat_view : forall path k, view (k_stat path k).2 = view k;
  mkdir_view : forall path m k, view (k_mkdir path m k).2 = view k;
  time_view : forall k, view (k_time k).2 = view k;
  unlink_view : forall path k, match k_unlink path k with
    | (inl r, k') => r = 0 /\ v_names (view k') = delete path (v_names (view k)) /\ v_fds (view k') = v_fds (view k)
    | (inr _, k') => view k' = view k end
}.

Section Correct.
Context {K : Type} `{!FileIO K, !FileLaws K, !DirCalls K, !DirLaws K}.
Context (strerror : Z -> bytes) (malloc_ok : Z -> bool) (rand : nat -> Z) (elapsed : Z * Z -> Z * Z -> bytes).
Implicit Types (p q : proc K).

(** Outside the files of the benchmark, the names are those of [v]. *)
Definition apart (names : list bytes) (v v' : fsv) : Prop := forall x, x ∉ names -> v_names v' !! x = v_names v !! x.

Lemma wp_filepath dir i p (Q : outcome bytes -> proc K -> Prop) : strlen (file_name dir i) < 1024 -> Q (Ret (file_name dir i)) p -> wp (filepath dir i) p Q.
Proof. intros Hl HQ. unfold filepath. rewrite (proj2 (Z.ltb_lt _ _) Hl). by apply wp_ret. Qed.

Definition complains p q : Prop := exists pre e, trace q = trace p ++ pre ++ [Err e].

(** A diagnostic with the text for [errno]. *)
Lemma wp_complain msg e k t (Q : outcome bool -> proc K -> Prop) :
  (forall q, kern q = k -> (forall p, trace p = t -> complains p q) -> Q (Ret false) q) ->
  wp (eprintf msg ;; perror strerror ;; mret false) (Proc k e t) Q.
Proof.
  intros HQ. apply wp_bind, wp_eprintf, wp_bind, wp_bind, wp_get_errno, wp_eprintf, wp_ret, HQ; [done|].
  intros p <-. exists [Err msg], (strerror e ++ [NL]). cbn. by rewrite <- app_assoc.
Qed.

(** What the call of [write] answers does not matter: the descriptor is only open for reading. *)
Lemma wp_write_refused fd i o data p (Q : outcome Z -> proc K -> Prop) :
  lookup_fd (view (kern p)) fd = Some (i, o) -> writable o = false ->
  (forall e k', view k' = view (kern p) -> Q (Ret (-1)) (Proc k' e (trace p))) -> wp (write fd data) p Q.
Proof.
  intros Hfd Hw HQ. apply wp_fwrite; [|done]. intros i' o' c k' Hfd' Hw' _ _. rewrite Hfd in Hfd'. injection Hfd' as <- <-. congruence.
Qed.

Lemma create_files_spec names dir l p : Forall (fun i => file_name dir i ∈ names /\ strlen (file_name dir i) < 1024) l ->
  wp (create_files strerror dir l) p (fun o q => apart names (view (kern p)) (view (kern q)) /\
    (o = Ret true /\ trace q = trace p \/ o = Ret false /\ complains p q)).
Proof.
  revert p. induction l as [|i l IH]; intros p Hl; [apply wp_ret; split; [done|by left]|].
  apply Forall_cons in Hl as [[Hin Hlen] Hl]. apply wp_bind, wp_filepath; [done|]. apply wp_bind, wp_fopen.
  - intros fd ofd ino k1 (Hfd & _) Hk1. destruct (Z.eqb_spec fd (-1)); [lia|].
    apply wp_bind, (wp_write_refused _ ofd (Ofd ino 0 O_CREAT)); cbn [kern]; [rewrite Hk1; apply lookup_v_open|done|].
    intros e k2 Hk2. cbn [trace]. 
    assert (forall k3 e, v_names (view k3) = v_names (view k2) -> wp (create_files strerror dir l) (Proc k3 e (trace p)) (fun o q => apart names (view (kern p)) (view (kern q)) /\
      (o = Ret true /\ trace q = trace p \/ o = Ret false /\ complains p q))) as Hnext.
    { intros k3 e' H3. eapply wp_mono; [by apply IH|]. intros o q [Ha Ho]. split; [|done]. intros x Hx. cbn [kern] in Ha.
      rewrite (Ha x Hx), H3, Hk2, Hk1. cbn. rewrite lookup_insert_ne; [done|]. by intros <-. }
    apply wp_bind, wp_fclose; cbn [kern trace].
    + intros k3 Hk3. apply Hnext. by rewrite Hk3.
    + intros e' k3 [Hk3|Hk3]; apply Hnext; by rewrite Hk3.
  - intros e k1 Hk1. change (-1 =? -1) with true. cbv iota. apply wp_complain. intros q Hq Hc. rewrite Hq, Hk1. split; [done|right; auto].
Qed.

Lemma delete_files_spec names dir l p : Forall (fun i => file_name dir i ∈ names /\ strlen (file_name dir i) < 1024) l ->
  wp (delete_files strerror dir l) p (fun o q => apart names (view (kern p)) (view (kern q)) /\
    (o = Ret true /\ trace q = trace p /\ (forall x, x ∈ file_name dir <$> l \/ v_names (view (kern p)) !! x = None -> v_names (view (kern q)) !! x = None) \/
     o = Ret false /\ complains p q)).
Proof.
  revert p. induction l as [|i l IH]; intros p Hl.
  { apply wp_ret. split; [done|]. left. split_and!; try done. intros x [Hx|Hx]; [|done]. by apply elem_of_nil in Hx. }
  apply Forall_cons in Hl as [[Hin Hlen] Hl]. apply wp_bind, wp_filepath; [done|]. apply wp_bind, wp_syscall.
  pose proof (unlink_view (file_name dir i) (kern p)) as Hu. destruct (k_unlink (file_name dir i) (kern p)) as [[r|e] k1].
  - destruct Hu as (-> & Hnames & _). cbn [recast]. change (negb (0 =? 0)) with false. cbv iota. eapply wp_mono; [by apply IH|].
    cbn [kern trace]. intros o q [Ha Ho]. split.
    + intros x Hx. rewrite (Ha x Hx), Hnames, lookup_delete_ne; [done|]. by intros <-.
    + destruct Ho as [(-> & Ht & Hgone)|[-> Hc]]; [left|right; by split]. split_and!; [done|done|]. intros x Hx. apply Hgone. rewrite Hnames, lookup_delete.
      case_decide; [by right|]. rewrite fmap_cons, elem_of_cons in Hx. naive_solver.
  - change (negb (-1 =? 0)) with true. cbv iota. apply wp_complain. intros q Hq Hc. rewrite Hq, Hu. split; [done|right; auto].
Qed.

Lemma prepare_spec dir p : wp (prepare dir) p (fun o q => view (kern q) = view (kern p) /\ (o = Ret true /\ trace q = trace p \/ o = Ret false /\ complains p q)).
Proof.
  assert (forall msg k e t, view k = view (kern p) -> t = trace p -> wp (eprintf msg ;; mret false) (Proc k e t) (fun o q =>
    view (kern q) = view (kern p) /\ (o = Ret true /\ trace q = trace p \/ o = Ret false /\ complains p q))) as Hno.
  { intros msg k e t Hk ->. apply wp_bind, wp_eprintf, wp_ret. split; [done|]. right. split; [done|]. by exists [], msg. }
  apply wp_bind, wp_syscall. pose proof (stat_view dir (kern p)) as Hs.
  assert (forall k1 e, view k1 = view (kern p) -> forall s, wp (if negb (Z.land s S_IFMT =? S_IFDIR)
    then eprintf (quoted dir ++ str " exists but is not a directory, unable to continue" ++ [NL]) ;; mret false else mret true) (Proc k1 e (trace p)) (fun o q =>
    view (kern q) = view (kern p) /\ (o = Ret true /\ trace q = trace p \/ o = Ret false /\ complains p q))) as Hmode.
  { intros k1 e Hk1 s. destruct (negb _); [by apply Hno|]. apply wp_ret. auto. }
  assert (forall k1 e, view k1 = view (kern p) -> wp (m ← syscall (-1) (k_mkdir dir MODE_777);
    if negb (m =? 0) then eprintf (str "Unable to make directory " ++ dir ++ str ", unable to continue" ++ [NL]) ;; mret false else mret true)
    (Proc k1 e (trace p)) (fun o q => view (kern q) = view (kern p) /\ (o = Ret true /\ trace q = trace p \/ o = Ret false /\ complains p q))) as Hmk.
  { intros k1 e Hk1. apply wp_bind, wp_syscall. pose proof (mkdir_view dir MODE_777 k1) as Hm. cbn [kern].
    destruct (k_mkdir dir MODE_777 k1) as [[m|e'] k2]; cbn [snd recast errno trace] in *; (destruct (negb _); [apply Hno; [congruence|done]|apply wp_ret; split; [cbn; congruence|by left]]). }
  destruct (k_stat dir (kern p)) as [[s|e] k1]; cbn [snd recast] in *; [|by apply Hmk].
  destruct (s =? -1); [by apply Hmk|by apply Hmode].
Qed.

Lemma wp_gettimeofday p (Q : outcome (Z * Z) -> proc K -> Prop) :
  (forall t k', view k' = view (kern p) -> Q (Ret t) (Proc k' (errno p) (trace p))) -> wp gettimeofday p Q.
Proof. intros HQ. unfold wp, gettimeofday. pose proof (time_view (kern p)) as Ht. destruct (k_time (kern p)) as [t k']. by apply HQ. Qed.

Lemma dec_digits_length k fuel n : 0 <= n < 10 ^ Z.of_nat (S k) -> (length (dec_digits fuel n) <= S k)%nat.
Proof.
  revert fuel n. induction k as [|k IH]; intros [|fuel] n Hn; cbn; try lia.
  - rewrite (proj2 (Z.ltb_lt n 10)) by (cbn in Hn; lia). done.
  - destruct (Z.ltb_spec n 10); [cbn; lia|]. rewrite length_app. cbn.
    rewrite Nat2Z.inj_succ, Z.pow_succ_r in Hn by lia. assert (length (dec_digits fuel (n / 10)) <= S k)%nat; [|lia].
    apply IH. split; [apply Z.div_pos; lia|apply Z.div_lt_upper_bound; lia].
Qed.

Lemma file_name_fits dir i : strlen dir <= 1000 -> 0 <= i < MAX_NUMBER_FILES -> strlen (file_name dir i) < 1024.
Proof.
  intros Hd Hi. assert (length (dec i) <= 6)%nat as Hl.
  { unfold dec. rewrite (proj2 (Z.ltb_ge i 0)) by lia. apply dec_digits_length. unfold MAX_NUMBER_FILES in Hi. cbn. lia. }
  unfold file_name. rewrite !strlen_app. unfold strlen in *. rewrite length_replicate. cbn. lia.
Qed.

(** The lines of a run that succeeds. *)
Definition report (o : options) (st en : Z * Z) : list event :=
  [Out (str "== Write/Delete Benchmark ==" ++ [NL]); Out (str "NF = " ++ dec (number_files o) ++ [NL]);
   Out (str "randomized = " ++ (if randomize o then str "true" else str "false") ++ [NL]); Out (str "time: " ++ elapsed st en ++ str " secs" ++ [NL])].

Definition bench_names (o : options) : list bytes := file_name (dirname o) <$> (Z.of_nat <$> seq 0 (Z.to_nat (number_files o))).

(** the benchmark, whatever calls fail and however the numbers are drawn, stays within its arrays and ends
    with status 0 or 1.  With 0 its report is printed and the directory has the files it had before, in whatever order they were
    created; with 1 there is a diagnostic, and only files of the benchmark's own names may be left. *)
Theorem benchmark_leaves_nothing o p :
  0 <= number_files o <= MAX_NUMBER_FILES -> strlen (dirname o) <= 1000 -> (forall i, 0 <= rand i <= RAND_MAX) ->
  (forall x, x ∈ bench_names o -> v_names (view (kern p)) !! x = None) ->
  wp (runbenchmark strerror malloc_ok rand elapsed o) p (fun out q => apart (bench_names o) (view (kern p)) (view (kern q)) /\
    (out = Ret 0 /\ v_names (view (kern q)) = v_names (view (kern p)) /\ (exists st en, trace q = trace p ++ report o st en) \/
     out = Ret 1 /\ complains p q)).
Proof.
  intros Hn Hdir Hrand Hfree. set (names := bench_names o). unfold runbenchmark. set (ordered := Z.of_nat <$> seq 0 (Z.to_nat (number_files o))).
  assert (Forall (fun i => file_name (dirname o) i ∈ names /\ strlen (file_name (dirname o) i) < 1024) ordered) as Hordered.
  { apply Forall_forall. intros i Hi. split; [by apply list_elem_of_fmap_2|]. apply list_elem_of_fmap in Hi as (j & -> & Hj%elem_of_seq).
    apply file_name_fits; [done|]. lia. }
  destruct (malloc_ok _); cbn [negb].
  2: { apply wp_bind, wp_eprintf, wp_ret. split; [done|]. right. split; [done|]. by exists [], (str "Unable to allocate buffer for numbers" ++ [NL]). }
  apply wp_bind. eapply wp_mono; [apply prepare_spec|]. intros r p1 [Hv1 [[-> Ht1]|[-> Hc]]]; cbn [negb].
  2: { apply wp_ret. rewrite Hv1. split; [done|]. by right. }
  assert (exists numbers, numbers ≡ₚ ordered /\ forall (Q : outcome (list Z) -> proc K -> Prop), Q (Ret numbers) p1 ->
    wp (if randomize o then the (shuffle rand ordered (Z.to_nat (u64 (number_files o)))) else mret ordered) p1 Q) as (numbers & Hperm & Hnumbers).
  { destruct (shuffle_permutes rand ordered Hrand) as (l & El & Hl). destruct (randomize o); [|by exists ordered].
    exists l. split; [done|]. intros Q HQ. assert (Z.to_nat (u64 (number_files o)) = length ordered) as ->.
    { unfold ordered. rewrite length_fmap, length_seq. unfold wrap_u. rewrite Z.mod_small; [done|]. unfold MAX_NUMBER_FILES in Hn. lia. }
    by rewrite El. }
  apply wp_bind, Hnumbers, wp_bind, wp_gettimeofday. intros st k2 Hk2. apply wp_bind.
  eapply wp_mono; [apply (create_files_spec names); by rewrite Hperm|]. cbn [kern trace]. rewrite Hk2, Hv1, Ht1.
  intros r p3 [Ha3 [[-> Ht3]|[-> Hc]]]; cbn [negb]; [|apply wp_ret; split; [done|right; split; [done|]]; destruct Hc as (pre & e & Hc); exists pre, e; by rewrite Hc].
  apply wp_bind. eapply wp_mono; [by apply (delete_files_spec names)|].
  intros r p4 [Ha4 Ho]. assert (apart names (view (kern p)) (view (kern p4))) as Ha by (intros x Hx; rewrite (Ha4 x Hx); by apply Ha3).
  destruct Ho as [(-> & Ht4 & Hgone)|[-> (pre & e & Hc)]]; cbn [negb].
  2: { apply wp_ret. split; [done|]. right. split; [done|]. exists pre, e. by rewrite Hc, Ht3. }
  apply wp_bind, wp_gettimeofday. intros en k5 Hk5. do 4 apply wp_bind, wp_printf. apply wp_ret. cbn [kern trace]. rewrite Hk5. split; [done|]. left.
  split; [done|]. split; [|exists st, en; by rewrite Ht4, Ht3, <- !app_assoc]. apply map_eq. intros x. destruct (decide (x ∈ names)) as [Hx|Hx]; [|by apply Ha].
  rewrite (Hfree x Hx). apply Hgone. by left.
Qed.

(** The files are empty: [open] is asked for reading only, and the write that follows is refused. *)
Lemma created_file_is_empty dir i p : strlen (file_name dir i) < 1024 -> v_names (view (kern p)) !! file_name dir i = None ->
  wp (create_files strerror dir [i]) p (fun o q => o = Ret true -> exists ino, v_names (view (kern q)) !! file_name dir i = Some ino /\ (v_data (view (kern p)) !! ino = None) /\ content (view (kern q)) ino = []).
Proof.
  intros Hlen Hnew. apply wp_bind, wp_filepath; [done|]. apply wp_bind, wp_fopen.
  - intros fd ofd ino k1 (Hfd & _ & _ & Hino) Hk1. destruct (Z.eqb_spec fd (-1)); [lia|]. rewrite Hnew in Hino. destruct Hino as [?|(_ & _ & Hino)]; [done|].
    apply wp_bind, (wp_write_refused _ ofd (Ofd ino 0 O_CREAT)); cbn [kern]; [rewrite Hk1; apply lookup_v_open|done|]. intros e k2 Hk2.
    assert (forall k3, v_names (view k3) = v_names (view k2) -> v_data (view k3) = v_data (view k2) -> exists ino, v_names (view k3) !! file_name dir i = Some ino /\ v_data (view (kern p)) !! ino = None /\ content (view k3) ino = []) as Hend.
    { intros k3 H1 H2. exists ino. unfold content. rewrite H1, H2, Hk2, Hk1. cbn. rewrite !lookup_insert_eq. unfold content. rewrite Hino. done. }
    apply wp_bind, wp_fclose; cbn [kern trace]; [intros k3 Hk3|intros e' k3 [Hk3|Hk3]]; apply wp_ret; intros _; cbn [kern]; apply Hend; by rewrite Hk3.
  - intros e k1 Hk1. apply wp_complain. by intros.
Qed.
End Correct.

(** ** A simulated file system with directories that are always there *)

#[export] Instance fsv_dirs : DirCalls fsv := {|
  k_stat := fun path v => (if v_names v !! path is Some _ then inl 33188 else inr ENOENT, v);
  k_mkdir := fun _ _ v => (inl 0, v);
  k_unlink := fun path v => match v_names v !! path with
    | Some _ => (inl 0, Fsv (delete path (v_names v)) (v_data v) (v_ofds v) (v_fds v))
    | None => (inr ENOENT, v) end;
  k_time := fun v => ((0, 0), v)
|}.

#[export] Instance fsv_dir_laws : DirLaws fsv.
Proof. split; intros; cbn; repeat case_match; by simplify_eq. Qed.

Lemma benchmark_leaves_nothing_witness :
  let v := Fsv {[ str "keep" := 7 ]} {[ 7 := str "k" ]} ∅ ∅ in let o := Options 3 true (str "d") in
  let '(out, q) := runbenchmark (fun _ => []) (fun _ => true) (fun _ => 2000000000) (fun _ _ => str "0.000") o (Proc v 0 []) in
  out = Ret 0 /\ v_names (kern q) = {[ str "keep" := 7 ]}.
Proof.
  intros v o. pose proof (benchmark_leaves_nothing (fun _ => []) (fun _ => true) (fun _ => 2000000000) (fun _ _ => str "0.000") o (Proc v 0 [])
    ltac:(by_decide) ltac:(by_decide) ltac:(intros; by_decide)) as Hs. unfold wp in Hs.
  assert ((runbenchmark (fun _ => []) (fun _ => true) (fun _ => 2000000000) (fun _ _ => str "0.000") o (Proc v 0 [])).1 = Ret 0) as Ho by (vm_compute; reflexivity).
  specialize (Hs ltac:(intros x Hx; change (bench_names o) with [str "d/x000000"; str "d/x000001"; str "d/x000002"] in Hx;
    rewrite !elem_of_cons in Hx; destruct Hx as [->|[->|[->|[]%elem_of_nil]]]; done)).
  destruct (runbenchmark (fun _ => []) (fun _ => true) (fun _ => 2000000000) (fun _ _ => str "0.000") o (Proc v 0 [])) as [out q].
  cbn [fst snd] in *. destruct Hs as (_ & [(_ & Hn & _)|[E _]]); [split; [exact Ho|exact Hn]|rewrite Ho in E; discriminate E].
Defined.
