(* ===== verification/Svshm.v ===== *)
(** * Transfer through shared memory

    svshm_xfr_writer.c and svshm_xfr_reader.c (tlpi-dist/svshm) with the binary semaphores they
    use (svsem/binary_sems.c): two processes over one kernel.  A step is one system call or one
    access to the shared segment; it may be interrupted or fail.  The byte streams at the two ends
    are those of the classes of Kernel: [ifd] is the writer's standard input and [ofd] the
    reader's standard output. *)

From Stdlib Require Import ZArith Lia String Ascii.
From S2P Require Import Prelude CString Kernel Threads.

Definition BUF_SIZE : Z := 1024.

Record shmseg := Shm { cnt : Z; buf : bytes }.

(** The two semaphores, WRITE_SEM and READ_SEM, if the set exists, and the segment. *)
Record ipc (K : Type) := Ipc { io : K; sems : option (Z * Z); seg : option shmseg }.
Arguments Ipc {K}.
Arguments io {K}.
Arguments sems {K}.
Arguments seg {K}.

Inductive sem_num := WRITE_SEM | READ_SEM.

(** Where the writer is, with [xfrs] and [bytes]. *)
Inductive writer :=
| WSemget | WInitWrite | WInitRead | WShmget | WShmat
| WReserve (xfrs bytes : Z) | WRead (xfrs bytes : Z) | WRelease (xfrs bytes : Z) | WTest (xfrs bytes : Z)
| WLast (xfrs bytes : Z) | WRmSem (xfrs bytes : Z) | WShmdt (xfrs bytes : Z) | WRmShm (xfrs bytes : Z)
| WReport (xfrs bytes : Z) | WGone (status : Z).

Inductive reader :=
| RSemget | RShmget | RShmat
| RReserve (xfrs bytes : Z) | RTest (xfrs bytes : Z) | RWrite (xfrs bytes : Z) | RRelease (xfrs bytes : Z)
| RShmdt (xfrs bytes : Z) | RLast (xfrs bytes : Z) | RReport (xfrs bytes : Z) | RGone (status : Z).

Abbreviation process := (thread writer reader).

(** ** Binary semaphores *)

Section Sems.
Context {K : Type}.

Definition sem_val (v : Z * Z) (n : sem_num) : Z := match n with WRITE_SEM => v.1 | READ_SEM => v.2 end.
Definition sem_set (v : Z * Z) (n : sem_num) (z : Z) : Z * Z :=
  match n with WRITE_SEM => (z, v.2) | READ_SEM => (v.1, z) end.

(** semctl(SETVAL) and semop of one operation on an existing set; [inr] is an error number. *)
Definition setval (n : sem_num) (z : Z) (g : ipc K) : ipc K + Z :=
  match sems g with Some v => inl (Ipc (io g) (Some (sem_set v n z)) (seg g)) | None => inr EINVAL end.

Definition initSemAvailable (n : sem_num) : ipc K -> ipc K + Z := setval n 1.
Definition initSemInUse (n : sem_num) : ipc K -> ipc K + Z := setval n 0.

(** One attempt of the loop of [reserveSem]: it returns, goes round again or blocks. *)
Inductive attempt := Done (g : ipc K) | Again | Error (e : Z) | Blocked.

Definition bsRetryOnEintr : bool := true.

Definition reserveSem (a : answer) (n : sem_num) (g : ipc K) : attempt :=
  match a, sems g with
  | Fails e, _ => if negb (e =? EINTR) || negb bsRetryOnEintr then Error e else Again
  | _, None => Error EINVAL
  | _, Some v =>
      if 0 <? sem_val v n then Done (Ipc (io g) (Some (sem_set v n (sem_val v n - 1))) (seg g))
      else Blocked
  end.

Definition releaseSem (n : sem_num) (g : ipc K) : ipc K + Z :=
  match sems g with
  | Some v => inl (Ipc (io g) (Some (sem_set v n (sem_val v n + 1))) (seg g))
  | None => inr EINVAL
  end.
End Sems.
Arguments attempt : clear implicits.

(** ** The two programs *)

Section Programs.
Context {K : Type} `{!FileIO K} (ifd ofd : Z).

Abbreviation eff := (effect (ipc K) process).

Definition wgo (w : writer) (g : ipc K) : eff := Go (Main w) g.
Definition rgo (r : reader) (g : ipc K) : eff := Go (Worker r) g.

(** A call that must succeed, else [errExit]. *)
Definition must (a : answer) (r : ipc K + Z) (k : ipc K -> eff) (fail : eff) : eff :=
  match a, r with
  | Fails _, _ | _, inr _ => fail
  | _, inl g' => k g'
  end.

Definition adds (n c : Z) (k : Z -> eff) : eff :=
  if (INT_MAX <? n + c) || (n + c <? INT_MIN) then Stop Undefined else k (n + c).

Definition sent_line (xfrs n : Z) : bytes :=
  str "Sent " ++ dec n ++ str " bytes (" ++ dec xfrs ++ str " xfrs)" ++ [NL].
Definition received_line (xfrs n : Z) : bytes :=
  str "Received " ++ dec n ++ str " bytes (" ++ dec xfrs ++ str " xfrs)" ++ [NL].

Definition writer_main (a : answer) (w : writer) (g : ipc K) : eff :=
  let fail := wgo (WGone EXIT_FAILURE) g in
  let wait_for n x b next :=
    match reserveSem a n g with
    | Done g' => wgo (next x b) g'
    | Again => wgo w g
    | Error _ => fail
    | Blocked => Wait
    end in
  match w with
  | WSemget =>
      must a (inl (Ipc (io g) (match sems g with Some v => Some v | None => Some (0, 0) end) (seg g))) (wgo WInitWrite) fail
  | WInitWrite => must a (initSemAvailable WRITE_SEM g) (wgo WInitRead) fail
  | WInitRead => must a (initSemInUse READ_SEM g) (wgo WShmget) fail
  | WShmget =>
      must a (inl (Ipc (io g) (sems g) (match seg g with Some m => Some m | None => Some (Shm 0 []) end))) (wgo WShmat) fail
  | WShmat => must a (inl g) (wgo (WReserve 0 0)) fail
  | WReserve x b => wait_for WRITE_SEM x b WRead
  | WRead x b =>
      match seg g with
      | None => Stop Undefined
      | Some m =>
          let '(r, k') := k_read ifd BUF_SIZE (io g) in
          match r with
          | inl bs => wgo (WRelease x b) (Ipc k' (sems g) (Some (Shm (strlen bs) (bs ++ drop (length bs) (buf m)))))
          | inr e => wgo (WGone EXIT_FAILURE) (Ipc k' (sems g) (Some (Shm (-1) (buf m))))
          end
      end
  | WRelease x b => must a (releaseSem READ_SEM g) (wgo (WTest x b)) fail
  | WTest x b =>
      match seg g with
      | None => Stop Undefined
      | Some m =>
          if cnt m =? 0 then wgo (WLast x b) g
          else adds x 1 (fun x' => adds b (cnt m) (fun b' => wgo (WReserve x' b') g))
      end
  | WLast x b => wait_for WRITE_SEM x b WRmSem
  | WRmSem x b =>
      must a (match sems g with Some _ => inl (Ipc (io g) None (seg g)) | None => inr EINVAL end) (wgo (WShmdt x b)) fail
  | WShmdt x b => must a (inl g) (wgo (WRmShm x b)) fail
  | WRmShm x b => must a (inl (Ipc (io g) (sems g) None)) (wgo (WReport x b)) fail
  | WReport x b => Say (Main (WGone EXIT_SUCCESS)) (sent_line x b)
  | WGone _ => Wait
  end.

Definition reader_main (a : answer) (r : reader) (g : ipc K) : eff :=
  let fail := rgo (RGone EXIT_FAILURE) g in
  match r with
  | RSemget => must a (match sems g with Some _ => inl g | None => inr ENOENT end) (rgo RShmget) fail
  | RShmget => must a (match seg g with Some _ => inl g | None => inr ENOENT end) (rgo RShmat) fail
  | RShmat => must a (inl g) (rgo (RReserve 0 0)) fail
  | RReserve x b =>
      match reserveSem a READ_SEM g with
      | Done g' => rgo (RTest x b) g'
      | Again => rgo r g
      | Error _ => fail
      | Blocked => Wait
      end
  | RTest x b =>
      match seg g with
      | None => Stop Undefined
      | Some m => if cnt m =? 0 then rgo (RShmdt x b) g else adds b (cnt m) (fun b' => rgo (RWrite x b') g)
      end
  | RWrite x b =>
      match seg g with
      | None => Stop Undefined
      | Some m =>
          let '(r, k') := k_write ofd (take (Z.to_nat (cnt m)) (buf m)) (io g) in
          let n := match r with inl n => n | inr _ => -1 end in
          rgo (if negb (n =? cnt m) then RGone EXIT_FAILURE else RRelease x b) (Ipc k' (sems g) (seg g))
      end
  | RRelease x b => must a (releaseSem WRITE_SEM g) (fun g' => adds x 1 (fun x' => rgo (RReserve x' b) g')) fail
  | RShmdt x b => must a (inl g) (rgo (RLast x b)) fail
  | RLast x b => must a (releaseSem WRITE_SEM g) (rgo (RReport x b)) fail
  | RReport x b => Say (Worker (RGone EXIT_SUCCESS)) (received_line x b)
  | RGone _ => Wait
  end.

Definition exec (self : nat) (a : answer) (ts : list process) (t : process) (g : ipc K) : eff :=
  match t with
  | Main w => writer_main a w g
  | Worker r => reader_main a r g
  end.

(** Both programs are started and no IPC object is left over from earlier. *)
Definition start_state (k : K) : sys (ipc K) process :=
  Sys (Ipc k None None) [Main WSemget; Worker RSemget] [] None.
End Programs.

(** ** Using the segment

    The writer's next step changes what is in the segment; the reader's next step does not depend
    on what is in it.  Neither is said of program points: both are about what [writer_main] and
    [reader_main] do. *)

Section Races.
Context {K : Type} `{!FileIO K} (ifd ofd : Z).

Definition writer_changes (a : answer) (w : writer) (g : ipc K) : Prop :=
  exists w' g' m m', writer_main ifd a w g = Go (Main w') g' /\ seg g = Some m /\ seg g' = Some m' /\ m <> m'.

Definition reseg (m : shmseg) (g : ipc K) : ipc K := Ipc (io g) (sems g) (Some m).

Definition reader_blind (a : answer) (r : reader) (g : ipc K) : Prop :=
  forall m, reader_main ofd a r (reseg m g) =
            match reader_main ofd a r g with Go t g' => Go t (reseg m g') | e => e end.

Definition reader_keeps (a : answer) (r : reader) (g : ipc K) : Prop :=
  match reader_main ofd a r g with Go _ g' => seg g' = seg g | _ => True end.
End Races.

(** ** The invariant

    One token goes round: it is in one of the semaphores or with the process that took it from
    there ([w_turn], [r_turn]: between the reserve and the release of a turn).  What the writer has taken from its input is what the reader has put out, followed, when
    the buffer is full, by what the buffer holds. *)

Section Correct.
Context {K : Type} `{!FileIO K, !SourceLaws K, !SinkLaws K, !DuplexLaws K} (ifd ofd : Z) (k0 : K).
Let all : bytes := pending k0 ifd.
Context (Hsize : strlen all <= INT_MAX).

Definition w_turn (w : writer) : Z := match w with WRead _ _ | WRelease _ _ => 1 | _ => 0 end.
Definition r_turn (r : reader) : Z :=
  match r with RTest _ _ | RWrite _ _ | RRelease _ _ | RShmdt _ _ | RLast _ _ => 1 | _ => 0 end.

Definition is_full (v : Z) (w : writer) (r : reader) : bool :=
  (v =? 1) || match w with WRelease _ _ => true | _ => false end
           || match r with RTest _ _ | RWrite _ _ => true | _ => false end.

Definition early (r : reader) : Prop := r = RSemget \/ r = RShmget.
Definition idle (r : reader) : Prop := early r \/ r = RShmat \/ r = RReserve 0 0.
Definition finished (r : reader) : bool :=
  match r with RShmdt _ _ | RLast _ _ | RReport _ _ | RGone _ => true | _ => false end.
Definition past (r : reader) : bool := match r with RReport _ _ | RGone _ => true | _ => false end.

Definition chunk (c : Z) : Z := if c =? 0 then 0 else 1.

(** [n] transfers and [d] bytes sent, as the writer's variables have it with [c] in the buffer. *)
Definition w_counts (w : writer) (n d c : Z) (out : list bytes) : Prop :=
  match w with
  | WReserve x b | WRead x b | WLast x b | WRmSem x b | WShmdt x b | WRmShm x b | WReport x b => x = n /\ b = d
  | WRelease x b | WTest x b => x + chunk c = n /\ b + c = d
  | WGone _ => sent_line n d ∈ out
  | _ => False
  end.

Definition r_counts (r : reader) (n d c : Z) (out : list bytes) : Prop :=
  match r with
  | RSemget | RShmget | RShmat => n = 0 /\ d = 0
  | RReserve x b | RTest x b | RShmdt x b | RLast x b | RReport x b => x = n /\ b = d
  | RWrite x b => x = n /\ b - c = d /\ c <> 0
  | RRelease x b => x + 1 = n /\ b = d
  | RGone _ => received_line n d ∈ out
  end.

Record flow (w : writer) (r : reader) (g : ipc K) (out : list bytes)
    (v1 v2 : Z) (m : shmseg) (nw nr : Z) (sent received : bytes) : Prop := {
  fl_sems : sems g = Some (v1, v2);
  fl_token : 0 <= v1 /\ 0 <= v2 /\ v1 + v2 + w_turn w + r_turn r = 1;
  fl_seg : seg g = Some m;
  fl_cnt : 0 <= cnt m <= strlen (buf m);
  fl_sent : all = sent ++ pending (io g) ifd;
  fl_received : sunk (io g) ofd = sunk k0 ofd ++ received;
  fl_buffer : if is_full v2 w r
              then sent = received ++ take (Z.to_nat (cnt m)) (buf m) /\ nw = nr + chunk (cnt m) /\
                   (cnt m = 0 -> pending (io g) ifd = [])
              else sent = received /\ nw = nr;
  fl_w : w_counts w nw (strlen sent) (cnt m) out;
  fl_r : r_counts r nr (strlen received) (cnt m) out;
  fl_n : 0 <= nw <= strlen sent /\ 0 <= nr <= strlen received;
  fl_finished : finished r = true -> v2 = 0 /\ cnt m = 0 /\ pending (io g) ifd = [];
  fl_writer : match w with
              | WReserve _ _ => finished r = false /\ (is_full v2 w r = true -> cnt m <> 0)
              | WRead _ _ | WRelease _ _ => finished r = false
              | WTest _ _ => cnt m = 0 -> pending (io g) ifd = [] /\ (is_full v2 w r || finished r)
              | WLast _ _ => cnt m = 0 /\ pending (io g) ifd = [] /\ (is_full v2 w r || finished r)
              | _ => False
              end
}.

Definition inv (w : writer) (r : reader) (g : ipc K) (out : list bytes) : Prop :=
  match w with
  | WSemget => g = Ipc k0 None None /\ r = RSemget
  | WInitWrite => g = Ipc k0 (Some (0, 0)) None /\ early r
  | WInitRead | WShmget => g = Ipc k0 (Some (1, 0)) None /\ early r
  | WShmat => g = Ipc k0 (Some (1, 0)) (Some (Shm 0 [])) /\ idle r
  | WReserve _ _ | WRead _ _ | WRelease _ _ | WTest _ _ | WLast _ _ =>
      exists v1 v2 m nw nr sent received, flow w r g out v1 v2 m nw nr sent received
  | WRmSem _ _ | WShmdt _ _ | WRmShm _ _ | WReport _ _ | WGone _ =>
      past r = true /\ pending (io g) ifd = [] /\ sunk (io g) ofd = sunk k0 ofd ++ all /\
      (match w with WRmSem _ _ => sems g = Some (0, 0) | _ => True end) /\
      exists n, w_counts w n (strlen all) 0 out /\ r_counts r n (strlen all) 0 out
  end.

Definition failed (w : writer) (r : reader) : Prop :=
  (exists st, w = WGone st /\ st <> 0) \/ (exists st, r = RGone st /\ st <> 0).

Lemma strlen_take_le n (l : bytes) : 0 <= n <= strlen l -> strlen (take (Z.to_nat n) l) = n.
Proof. unfold strlen. rewrite length_take. lia. Qed.

Lemma adds_ok n c k : INT_MIN <= n + c <= INT_MAX -> adds (K := K) n c k = k (n + c).
Proof. intros. unfold adds. case_match eqn:E; [|done]. apply orb_true_iff in E. lia. Qed.

Lemma sent_le l l' : all = l ++ l' -> strlen l <= INT_MAX.
Proof. intros E. rewrite E, strlen_app in Hsize. pose proof (strlen_nonneg l'). lia. Qed.

Lemma chunk_bounds c : 0 <= c -> 0 <= chunk c <= c.
Proof. unfold chunk. intros. case_match; z_bool; lia. Qed.

Lemma full_release v x b r : is_full v (WRelease x b) r = true.
Proof. unfold is_full. by rewrite orb_true_r. Qed.

Lemma writer_read a x b r g out :
  inv (WRead x b) r g out ->
  match writer_main ifd a (WRead x b) g with
  | Go (Main w') g' => failed w' r \/ inv w' r g' out
  | _ => False
  end.
Proof.
  intros (v1 & v2 & m & nw & nr & sent & received & [Hs Ht Hg Hc HS HR HB Hw Hr Hn Hf Hwr]).
  unfold writer_main. rewrite Hg. destruct (k_read ifd BUF_SIZE (io g)) as [[bs|e] k'] eqn:E; simpl;
    [right|left; left; by eexists].
  destruct (k_read_ok _ _ BUF_SIZE _ _ eq_refl E) as (Hp & Hlen & Heof & _).
  destruct (k_read_sunk _ _ _ _ _ ofd E) as [Hsunk _]. simpl in Ht, Hw.
  assert (is_full v2 (WRead x b) r = false) as Hfull by (unfold is_full; destruct r; simpl in *; lia).
  rewrite Hfull in HB. destruct HB as [-> ->]. destruct Hw as [-> ->].
  pose proof (strlen_nonneg bs). pose proof (chunk_bounds (strlen bs) ltac:(done)).
  exists v1, v2, (Shm (strlen bs) (bs ++ drop (length bs) (buf m))), (nr + chunk (strlen bs)), nr,
    (received ++ bs), received.
  split; simpl; rewrite ?strlen_app; try done.
  - pose proof (strlen_nonneg (drop (length bs) (buf m))). lia.
  - by rewrite <- app_assoc, <- Hp.
  - by rewrite Hsunk.
  - rewrite full_release. unfold strlen. rewrite Nat2Z.id, take_app_length. split_and!; try done.
    intros E0. assert (bs = []) as -> by (apply nil_length_inv; lia). rewrite (Heof eq_refl) in Hp. done.
  - destruct r; simpl in *; try done; lia.
  - lia.
  - by rewrite Hwr.
Qed.

Definition writer_post (r : reader) (g : ipc K) (out : list bytes) (e : effect (ipc K) process) : Prop :=
  match e with
  | Go (Main w') g' => failed w' r \/ inv w' r g' out
  | Say (Main w') l => inv w' r g (out ++ [l])
  | Wait => True
  | _ => False
  end.

Local Ltac writer_fails := solve [left; left; by eexists].

Lemma reserve_cases a n (g : ipc K) v1 v2 :
  sems g = Some (v1, v2) ->
  match reserveSem a n g with
  | Done g' => match n with
               | WRITE_SEM => 0 < v1 /\ g' = Ipc (io g) (Some (v1 - 1, v2)) (seg g)
               | READ_SEM => 0 < v2 /\ g' = Ipc (io g) (Some (v1, v2 - 1)) (seg g)
               end
  | _ => True
  end.
Proof.
  intros Hs. unfold reserveSem. rewrite Hs.
  destruct a, n; simpl; repeat case_match; z_bool; simplify_eq; auto.
Qed.

Lemma writer_setup a w r g out :
  match w with WSemget | WInitWrite | WInitRead | WShmget | WShmat => True | _ => False end ->
  inv w r g out -> writer_post r g out (writer_main ifd a w g).
Proof.
  intros Hw HI. destruct w; try done; destruct HI as [-> Hi].
  - destruct a; simpl; try writer_fails; right; (split; [done|by left]).
  - destruct a; simpl; try writer_fails; by right.
  - destruct a; simpl; try writer_fails; by right.
  - destruct a; simpl; try writer_fails; right; (split; [done|by left]).
  - assert (inv (WReserve 0 0) r (Ipc k0 (Some (1, 0)) (Some (Shm 0 []))) out) as HI'.
    { exists 1, 0, (Shm 0 []), 0, 0, [], []. split; simpl; try done; try lia; rewrite ?app_nil_r; try done;
        destruct Hi as [[-> | ->]|[-> | ->]]; try done; split; try done; lia. }
    destruct a; simpl; try writer_fails; by right.
Qed.

Lemma writer_reserves a x b r g out : inv (WReserve x b) r g out -> writer_post r g out (writer_main ifd a (WReserve x b) g).
Proof.
  intros (v1 & v2 & m & nw & nr & sent & received & [Hs Ht Hg Hc HS HR HB Hw Hr Hn Hf Hwr]).
  pose proof (reserve_cases a WRITE_SEM g v1 v2 Hs) as Ha. unfold writer_main.
  destruct (reserveSem a WRITE_SEM g) as [g'| |e|]; [right|right|writer_fails|done].
  - destruct Ha as [Hv ->]. exists (v1 - 1), v2, m, nw, nr, sent, received. split; simpl in *; try done; [lia|by apply Hwr].
  - by exists v1, v2, m, nw, nr, sent, received.
Qed.

Lemma writer_releases a x b r g out : inv (WRelease x b) r g out -> writer_post r g out (writer_main ifd a (WRelease x b) g).
Proof.
  intros (v1 & v2 & m & nw & nr & sent & received & [Hs Ht Hg Hc HS HR HB Hw Hr Hn Hf Hwr]).
  simpl in Ht. rewrite full_release in HB.
  assert (inv (WTest x b) r (Ipc (io g) (Some (v1, v2 + 1)) (seg g)) out) as HI'.
  { exists v1, (v2 + 1), m, nw, nr, sent, received.
    assert (v2 + 1 = 1) as E2 by (destruct r; simpl in Ht; lia).
    assert (is_full (v2 + 1) (WTest x b) r = true) as Hfull' by (by rewrite E2).
    split; simpl in *; try done; try lia; [by rewrite Hfull'|congruence|rewrite Hfull'; intuition]. }
  simpl. unfold releaseSem. rewrite Hs. destruct a; simpl; try writer_fails; by right.
Qed.

Lemma writer_tests a x b r g out : inv (WTest x b) r g out -> writer_post r g out (writer_main ifd a (WTest x b) g).
Proof.
  intros (v1 & v2 & m & nw & nr & sent & received & [Hs Ht Hg Hc HS HR HB [Hx Hb] Hr Hn Hf Hwr]).
  pose proof (sent_le _ _ HS) as Hmax. pose proof (chunk_bounds _ (proj1 Hc)). pose proof (strlen_nonneg sent).
  assert (chunk (cnt m) = if cnt m =? 0 then 0 else 1) as Hch by done.
  simpl. rewrite Hg. destruct (cnt m =? 0) eqn:Ec; z_bool.
  - right. exists v1, v2, m, nw, nr, sent, received. split; simpl; try done; [lia|auto].
  - rewrite adds_ok by (unfold INT_MIN, INT_MAX in *; lia).
    rewrite adds_ok by (unfold INT_MIN, INT_MAX in *; lia). right.
    exists v1, v2, m, nw, nr, sent, received. split; simpl; try done; [lia|].
    split; [|lia]. destruct (finished r); [|done]. destruct (Hf eq_refl) as (_ & E & _). lia.
Qed.

(** The last turn of the writer comes when the reader has seen the end. *)
Lemma writer_last a x b r g out : inv (WLast x b) r g out -> writer_post r g out (writer_main ifd a (WLast x b) g).
Proof.
  intros (v1 & v2 & m & nw & nr & sent & received & [Hs Ht Hg Hc HS HR HB Hw Hr Hn Hf (Hc0 & Hp0 & Hfin)]).
  pose proof (reserve_cases a WRITE_SEM g v1 v2 Hs) as Ha. unfold writer_main.
  destruct (reserveSem a WRITE_SEM g) as [g'| |e|]; [right|right|writer_fails|done].
  - destruct Ha as [Hv ->]. simpl in Ht. rewrite Hp0, app_nil_r in HS. rewrite Hc0 in Hr, Hw.
    assert (is_full v2 (WLast x b) r = false) as Hfull by (unfold is_full; destruct r; simpl in *; lia).
    rewrite Hfull in HB, Hfin. destruct HB as [-> ->].
    assert (past r = true) as Hpast by (destruct r; simpl in *; try done; lia).
    assert (0 <= r_turn r) by (by destruct r).
    simpl. rewrite HS. split_and!; try done; [do 2 f_equal; lia|]. by exists nr.
  - by exists v1, v2, m, nw, nr, sent, received.
Qed.

Lemma writer_cleans a w r g out :
  match w with WRmSem _ _ | WShmdt _ _ | WRmShm _ _ | WReport _ _ | WGone _ => True | _ => False end ->
  inv w r g out -> writer_post r g out (writer_main ifd a w g).
Proof.
  intros Hpc HI. destruct w; try done; destruct HI as (Hpast & Hp & HR & Hs & n & Hw & Hr); simpl.
  - rewrite Hs. destruct a; simpl; try writer_fails; right; eauto 10.
  - destruct a; simpl; try writer_fails; right; eauto 10.
  - destruct a; simpl; try writer_fails; right; eauto 10.
  - destruct Hw as [-> ->]. split_and!; try done. exists n.
    split; [apply elem_of_app; right; by constructor|]. destruct r; simpl in *; try done.
    apply elem_of_app. by left.
Qed.

Lemma writer_ok a w r g out : inv w r g out -> writer_post r g out (writer_main ifd a w g).
Proof.
  intros HI. destruct w; try (by apply writer_setup); try (by apply writer_cleans).
  - by apply writer_reserves.
  - apply (writer_read a) in HI. by unfold writer_post; case_match.
  - by apply writer_releases.
  - by apply writer_tests.
  - by apply writer_last.
Qed.

Definition flowing (w : writer) : bool :=
  match w with WReserve _ _ | WRead _ _ | WRelease _ _ | WTest _ _ | WLast _ _ => true | _ => false end.

Lemma flowing_inv w r g out :
  flowing w = true ->
  inv w r g out <-> exists v1 v2 m nw nr sent received, flow w r g out v1 v2 m nw nr sent received.
Proof. by destruct w. Qed.

Lemma w_counts_out w n d c out out' : flowing w = true -> w_counts w n d c out -> w_counts w n d c out'.
Proof. by destruct w. Qed.

Definition reader_post (w : writer) (g : ipc K) (out : list bytes) (e : effect (ipc K) process) : Prop :=
  match e with
  | Go (Worker r') g' => failed w r' \/ inv w r' g' out
  | Say (Worker r') l => inv w r' g (out ++ [l])
  | Wait => True
  | _ => False
  end.

Local Ltac reader_fails := solve [left; right; by eexists].

Lemma reader_setup a w r g out :
  flowing w = false -> past r = false -> inv w r g out -> reader_post w g out (reader_main ofd a r g).
Proof.
  intros Hfl Hpast HI.
  destruct w; try done; simpl in HI; try (destruct HI as (H & _); congruence).
  - destruct HI as [-> ->]. destruct a; simpl; reader_fails.
  - destruct HI as [-> [-> | ->]]; destruct a; simpl; (reader_fails || (right; split; [done|by right])).
  - destruct HI as [-> [-> | ->]]; destruct a; simpl; (reader_fails || (right; split; [done|by right])).
  - destruct HI as [-> [-> | ->]]; destruct a; simpl; (reader_fails || (right; split; [done|by right])).
  - destruct HI as [-> [[-> | ->]|[-> | ->]]]; destruct a as [|e|]; simpl; try done;
      try (right; split; [done|unfold idle, early; by auto]); try reader_fails.
    destruct (negb (e =? EINTR) || false); [reader_fails|right; split; [done|unfold idle; by auto]].
Qed.

Lemma reader_late a w r g out :
  past r = true -> inv w r g out -> reader_post w g out (reader_main ofd a r g).
Proof.
  intros Hpast HI. destruct r as [| | | | | | | | |x b|st]; try done.
  destruct (flowing w) eqn:Efl.
  - apply flowing_inv in HI; [|done].
    destruct HI as (v1 & v2 & m & nw & nr & sent & received & [Hs Ht Hg Hc HS HR HB Hw Hr Hn Hf Hwr]).
    apply flowing_inv; [done|]. exists v1, v2, m, nw, nr, sent, received. split; try done.
    + by eapply w_counts_out.
    + destruct Hr as [-> ->]. apply elem_of_app. right. by constructor.
  - destruct w; try done; simpl in HI; try (destruct HI as [_ Hi]; by repeat destruct Hi as [Hi|Hi]).
    all: destruct HI as (_ & Hp & HR & Hs & n & Hw & Hr & Hr'); subst; simpl; split_and!; try done; exists n;
      split; [|apply elem_of_app; right; by constructor].
    all: try done. apply elem_of_app. by left.
Qed.

(** A step of the reader that only moves it on, or takes or gives the token. *)
Lemma reader_moves w r r' g out v1 v2 v1' v2' m nw nr sent received :
  flow w r g out v1 v2 m nw nr sent received ->
  0 <= v1' /\ 0 <= v2' /\ v1' + v2' + w_turn w + r_turn r' = 1 ->
  (is_full v2' w r' = is_full v2 w r \/
   cnt m = 0 /\ is_full v2 w r = true /\ is_full v2' w r' = false /\ finished r' = true) ->
  r_counts r' nr (strlen received) (cnt m) out ->
  (finished r = true -> finished r' = true) ->
  (finished r' = true -> v2' = 0 /\ cnt m = 0 /\ pending (io g) ifd = []) ->
  (finished r' = true -> match w with WReserve _ _ | WRead _ _ | WRelease _ _ => False | _ => True end) ->
  exists v1 v2 m nw nr sent received,
    flow w r' (Ipc (io g) (Some (v1', v2')) (seg g)) out v1 v2 m nw nr sent received.
Proof.
  intros [Hs Ht Hg Hc HS HR HB Hw Hr Hn Hf Hwr] Ht' Hfull Hr' Hfin Hf' Hw'.
  exists v1', v2', m, nw, nr, sent, received. split; try done.
  - destruct Hfull as [-> |(Hc0 & Hf1 & Hf2 & _)]; [done|]. rewrite Hf1, Hc0 in HB. rewrite Hf2.
    destruct HB as (-> & -> & _). rewrite app_nil_r. split; [done|]. unfold chunk. simpl. lia.
  - assert (is_full v2 w r || finished r -> is_full v2' w r' || finished r') as Himp.
    { destruct Hfull as [-> |(_ & _ & _ & ->)]; [|by rewrite orb_true_r].
      destruct (is_full v2 w r); [done|]. simpl. destruct (finished r); [|done]. by rewrite Hfin. }
    assert (finished r' = false \/ finished r' = true) as [E|E] by (destruct (finished r'); auto);
      destruct w; try done; try by destruct (Hw' E).
    + split; [done|]. destruct Hfull as [-> |(_ & _ & _ & ?)]; [apply Hwr|congruence].
    + intros E0. destruct (Hwr E0). auto.
    + destruct Hwr as (? & ? & ?). auto.
    + intros E0. destruct (Hwr E0). auto.
    + destruct Hwr as (? & ? & ?). auto.
Qed.

Section Flowing.
Context (w : writer) (g : ipc K) (out : list bytes) (v1 v2 : Z) (m : shmseg) (nw nr : Z) (sent received : bytes).
Context (Hw : flowing w = true).

Lemma flow_turn : 0 <= w_turn w.
Proof. by destruct w. Qed.

(** What [reader_moves] says, for the reader at [r]. *)
Definition may_move (r r' : reader) (v1' v2' : Z) : Prop :=
  0 <= v1' /\ 0 <= v2' /\ v1' + v2' + w_turn w + r_turn r' = 1 /\
  (is_full v2' w r' = is_full v2 w r \/
   cnt m = 0 /\ is_full v2 w r = true /\ is_full v2' w r' = false /\ finished r' = true) /\
  r_counts r' nr (strlen received) (cnt m) out /\
  (finished r = true -> finished r' = true) /\
  (finished r' = true -> v2' = 0 /\ cnt m = 0 /\ pending (io g) ifd = []) /\
  (finished r' = true -> match w with WReserve _ _ | WRead _ _ | WRelease _ _ => False | _ => True end).

Lemma reader_goes r r' v1' v2' :
  flow w r g out v1 v2 m nw nr sent received -> may_move r r' v1' v2' ->
  inv w r' (Ipc (io g) (Some (v1', v2')) (seg g)) out.
Proof.
  intros HF (H1 & H2 & H3 & H4 & H5 & H6 & H7 & H8). apply flowing_inv; [done|]. by eapply reader_moves; [exact HF|..].
Qed.

Lemma reader_stays r r' :
  flow w r g out v1 v2 m nw nr sent received -> may_move r r' v1 v2 -> inv w r' g out.
Proof.
  intros HF Hm. pose proof (fl_sems _ _ _ _ _ _ _ _ _ _ _ HF) as Hs. apply (reader_goes r) in Hm; [|done].
  destruct g. simpl in *. by subst.
Qed.

Lemma reader_attaches a r :
  match r with RSemget | RShmget | RShmat => True | _ => False end ->
  flow w r g out v1 v2 m nw nr sent received -> reader_post w g out (reader_main ofd a r g).
Proof.
  intros Hpc HF. pose proof HF as [Hs Ht Hg Hc HS HR HB Hwc Hr Hn Hf Hwr]. pose proof flow_turn.
  destruct r; try done; simpl in Hr, Ht; simpl; rewrite ?Hs, ?Hg; destruct a; simpl; try reader_fails; right;
    (apply (reader_stays _ _ HF); split_and!; try done; try (by left); simpl; try lia; destruct Hr; lia).
Qed.

Lemma reader_reserves a x b :
  flow w (RReserve x b) g out v1 v2 m nw nr sent received ->
  reader_post w g out (reader_main ofd a (RReserve x b) g).
Proof.
  intros HF. pose proof HF as [Hs Ht Hg Hc HS HR HB Hwc Hr Hn Hf Hwr]. pose proof flow_turn. simpl in Ht.
  pose proof (reserve_cases a READ_SEM g v1 v2 Hs) as Ha. unfold reader_main.
  destruct (reserveSem a READ_SEM g) as [g'| |e|]; [right|right|reader_fails|done].
  - destruct Ha as [Hv ->]. apply (reader_goes _ _ _ _ HF). split_and!; try done; try (simpl; lia).
    left. unfold is_full. replace v2 with 1 by lia. simpl. by rewrite orb_true_r.
  - apply flowing_inv; [done|]. by exists v1, v2, m, nw, nr, sent, received.
Qed.

Lemma reader_tests a x b :
  flow w (RTest x b) g out v1 v2 m nw nr sent received -> reader_post w g out (reader_main ofd a (RTest x b) g).
Proof.
  intros HF. pose proof HF as [Hs Ht Hg Hc HS HR HB Hwc Hr Hn Hf Hwr]. pose proof flow_turn. simpl in Ht.
  assert (is_full v2 w (RTest x b) = true) as Hfull by (unfold is_full; by rewrite !orb_true_r).
  rewrite Hfull in HB. destruct HB as (Hsent & Hnw & Heof). destruct Hr as [-> ->].
  simpl. rewrite Hg. destruct (cnt m =? 0) eqn:Ec; z_bool.
  - right. apply (reader_stays _ _ HF). split_and!; try done; try (simpl; lia).
    + right. split_and!; try done. unfold is_full. destruct w; simpl in *; try done; lia.
    + intros _. split_and!; [lia|done|auto].
    + intros _. destruct w; try done; [by apply Hwr|simpl in *; lia..].
  - assert (strlen sent = strlen received + cnt m) as Hlen by (by rewrite Hsent, strlen_app, strlen_take_le).
    pose proof (sent_le _ _ HS). pose proof (strlen_nonneg received).
    rewrite adds_ok by (unfold INT_MIN, INT_MAX in *; lia).
    right. apply (reader_stays _ _ HF). split_and!; try done; try (simpl; lia).
    left. unfold is_full. by rewrite !orb_true_r.
Qed.

Lemma reader_writes a x b :
  flow w (RWrite x b) g out v1 v2 m nw nr sent received -> reader_post w g out (reader_main ofd a (RWrite x b) g).
Proof.
  intros [Hs Ht Hg Hc HS HR HB Hwc Hr Hn Hf Hwr]. pose proof flow_turn. simpl in Ht.
  assert (is_full v2 w (RWrite x b) = true) as Hfull by (unfold is_full; by rewrite !orb_true_r).
  rewrite Hfull in HB. destruct HB as (Hsent & Hnw & Heof). destruct Hr as (-> & Hb & Hne).
  simpl. rewrite Hg. set (data := take (Z.to_nat (cnt m)) (buf m)) in *.
  assert (strlen data = cnt m) as Hdata by by apply strlen_take_le.
  destruct (k_write ofd data (io g)) as [[n|e] k'] eqn:E.
  2: { rewrite (proj2 (Z.eqb_neq (-1) (cnt m))) by lia. simpl. reader_fails. }
  simpl. destruct (negb (n =? cnt m)) eqn:En; [reader_fails|]. z_bool. subst n. right.
  assert (data <> []) as Hdn by (intros E0; rewrite E0 in Hdata; unfold strlen in Hdata; simpl in Hdata; lia).
  destruct (k_write_ok _ _ _ _ _ Hdn E) as (_ & Hsunk & _).
  destruct (k_write_pending _ _ _ _ _ ifd E) as [Hpend _].
  rewrite take_ge in Hsunk by (unfold strlen in Hdata; lia).
  assert (chunk (cnt m) = 1) as Hch by (unfold chunk; by rewrite (proj2 (Z.eqb_neq _ _))).
  apply flowing_inv; [done|]. exists v1, v2, m, nw, (nr + 1), sent, sent.
  assert (is_full v2 w (RRelease nr b) = false) as Hnf by (unfold is_full; destruct w; simpl in *; lia).
  pose proof (strlen_nonneg received).
  assert (strlen sent = strlen received + cnt m) as Hlen by (by rewrite Hsent, strlen_app, Hdata).
  split; simpl; rewrite ?Hpend; try done; try lia.
  - rewrite Hsunk, HR, Hsent. by rewrite app_assoc.
  - rewrite Hnf. split; [done|]. lia.
  - destruct w; try done. by destruct Hwr.
Qed.

Lemma reader_releases a x b :
  flow w (RRelease x b) g out v1 v2 m nw nr sent received -> reader_post w g out (reader_main ofd a (RRelease x b) g).
Proof.
  intros HF. pose proof HF as [Hs Ht Hg Hc HS HR HB Hwc Hr Hn Hf Hwr]. pose proof flow_turn. simpl in Ht.
  assert (is_full v2 w (RRelease x b) = false) as Hnf by (unfold is_full; destruct w; simpl in *; lia).
  destruct Hr as [Hx ->]. pose proof (sent_le _ _ HS) as Hmax. rewrite Hnf in HB. destruct HB as [Hsent _]. rewrite Hsent in Hmax.
  assert (inv w (RReserve (x + 1) (strlen received)) (Ipc (io g) (Some (v1 + 1, v2)) (seg g)) out) as HI'.
  { apply (reader_goes _ _ _ _ HF). split_and!; try done; try (simpl; lia). by left. }
  simpl. unfold releaseSem. rewrite Hs. destruct a; simpl; try reader_fails;
    rewrite adds_ok by (unfold INT_MIN, INT_MAX in *; lia); by right.
Qed.

Lemma reader_leaves a r :
  match r with RShmdt _ _ | RLast _ _ => True | _ => False end ->
  flow w r g out v1 v2 m nw nr sent received -> reader_post w g out (reader_main ofd a r g).
Proof.
  intros Hpc HF. pose proof HF as [Hs Ht Hg Hc HS HR HB Hwc Hr Hn Hf Hwr]. pose proof flow_turn.
  assert (finished r = true -> match w with WReserve _ _ | WRead _ _ | WRelease _ _ => False | _ => True end) as Hlate.
  { intros Hfin. destruct w; try done; [by destruct Hwr; congruence|congruence..]. }
  destruct r as [| | | | | | |x b|x b| |]; try done; simpl in Hr, Ht.
  - destruct a; simpl; try reader_fails; right; apply (reader_stays _ _ HF); split_and!; try done; try (simpl; lia); auto.
  - assert (inv w (RReport x b) (Ipc (io g) (Some (v1 + 1, v2)) (seg g)) out) as HI'.
    { apply (reader_goes _ _ _ _ HF). split_and!; try done; try (simpl; lia); auto. }
    simpl. unfold releaseSem. rewrite Hs. destruct a; simpl; try reader_fails; by right.
Qed.
End Flowing.

Lemma reader_flow a w r g out :
  flowing w = true -> past r = false -> inv w r g out -> reader_post w g out (reader_main ofd a r g).
Proof.
  intros Hw Hpast HI. apply flowing_inv in HI as (v1 & v2 & m & nw & nr & sent & received & HF); [|done].
  destruct r; try done.
  1-3: by eapply reader_attaches.
  - by eapply reader_reserves.
  - by eapply reader_tests.
  - by eapply reader_writes.
  - by eapply reader_releases.
  - by eapply reader_leaves.
  - by eapply reader_leaves.
Qed.

Lemma reader_ok a w r g out : inv w r g out -> reader_post w g out (reader_main ofd a r g).
Proof.
  intros HI. destruct (past r) eqn:Ep; [by apply reader_late|].
  destruct (flowing w) eqn:Ef; [by apply reader_flow|by apply reader_setup].
Qed.

(** ** The property *)

Lemma writer_shape a w g :
  match writer_main ifd a w g with Go (Main _) _ | Say (Main _) _ | Wait | Stop _ => True | _ => False end.
Proof. unfold writer_main, must, adds, wgo. destruct w; repeat (case_match; simplify_eq; try done); done. Qed.

Lemma reader_shape a r g :
  match reader_main ofd a r g with Go (Worker _) _ | Say (Worker _) _ | Wait | Stop _ => True | _ => False end.
Proof. unfold reader_main, must, adds, rgo. destruct r; repeat (case_match; simplify_eq; try done); done. Qed.

Definition reached (s : sys (ipc K) process) : Prop :=
  exists w r, threads s = [Main w; Worker r] /\
    (failed w r \/ ended s = None /\ inv w r (shared s) (printed s)).

Lemma reached_step s s' : reached s -> step (exec ifd ofd) any s s' -> reached s'.
Proof.
  intros (w & r & Hts & HI) (Hend & i & a & t & _ & Hi & Hp)%step_inv.
  destruct s as [g ts out e]; simpl in *. subst ts e. destruct i as [|[|i]]; simpl in Hi; try done; injection Hi as <-.
  - simpl in Hp. pose proof (writer_shape a w g) as Hsh.
    assert (failed w r -> writer_main ifd a w g <> Wait -> exists st, r = RGone st /\ st <> 0) as Hfail.
    { intros [(st & -> & _)|?]; done. }
    destruct HI as [HF|[_ HI%(writer_ok a)]]; destruct (writer_main ifd a w g) as [[w'|r'] g'| |[w'|r'] l| |en];
      try done; injection Hp as <-; simpl.
    1-3: destruct (Hfail HF ltac:(done)) as (st & -> & Hst); eexists _, _; split; [done|left; right; by exists st].
    + exists w', r. split; [done|]. destruct HI; auto.
    + exists w', r. split; [done|]. auto.
  - simpl in Hp. pose proof (reader_shape a r g) as Hsh.
    assert (failed w r -> reader_main ofd a r g <> Wait -> exists st, w = WGone st /\ st <> 0) as Hfail.
    { intros [?|(st & -> & _)]; done. }
    destruct HI as [HF|[_ HI%(reader_ok a)]]; destruct (reader_main ofd a r g) as [[w'|r'] g'| |[w'|r'] l| |en];
      try done; injection Hp as <-; simpl.
    1-3: destruct (Hfail HF ltac:(done)) as (st & -> & Hst); eexists _, _; split; [done|left; left; by exists st].
    + exists w, r'. split; [done|]. destruct HI; auto.
    + exists w, r'. split; [done|]. auto.
Qed.

Lemma writer_enabled w g :
  match w with WReserve _ _ | WLast _ _ | WGone _ => False | _ => True end -> writer_main ifd Fine w g <> Wait.
Proof. unfold writer_main, must, adds, wgo. destruct w; try done; repeat (case_match; simplify_eq; try done); done. Qed.

Lemma reader_enabled r g :
  match r with RReserve _ _ | RGone _ => False | _ => True end -> reader_main ofd Fine r g <> Wait.
Proof. unfold reader_main, must, adds, rgo. destruct r; try done; repeat (case_match; simplify_eq; try done); done. Qed.

Lemma transfer_progress w r g out :
  inv w r g out ->
  writer_main ifd Fine w g <> Wait \/ reader_main ofd Fine r g <> Wait \/
  exists st st', w = WGone st /\ r = RGone st'.
Proof.
  intros HI. destruct (flowing w) eqn:Efl.
  - apply flowing_inv in HI; [|done].
    destruct HI as (v1 & v2 & m & nw & nr & sent & received & [Hs Ht Hg Hc HS HR HB Hw Hr Hn Hf Hwr]).
    assert (w_turn w = 0 -> 0 < v1 \/ reader_main ofd Fine r g <> Wait) as Hor.
    { intros H0. destruct (decide (0 < v1)) as [|Hv]; [by left|right].
      assert (finished r = true -> r_turn r = 1) as Hfin by (intros E; specialize (Hf E); lia).
      destruct r; try by apply reader_enabled.
      - simpl. rewrite Hs. simpl in *. rewrite (proj2 (Z.ltb_lt 0 v2)) by lia. done.
      - specialize (Hfin eq_refl). done. }
    destruct w; try done; try (left; by apply writer_enabled); destruct (Hor eq_refl) as [Hv|]; auto; left;
      simpl; rewrite Hs; simpl; by rewrite (proj2 (Z.ltb_lt 0 v1)) by lia.
  - destruct w; try done; try (left; by apply writer_enabled).
    destruct HI as (Hpast & _). destruct r; try done; [right; left; by apply reader_enabled|].
    right; right. by eexists _, _.
Qed.

Lemma turns_exclude w r g out : inv w r g out -> w_turn w + r_turn r <= 1.
Proof.
  intros HI. destruct (flowing w) eqn:Efl.
  - apply flowing_inv in HI; [|done].
    destruct HI as (v1 & v2 & m & nw & nr & sent & received & [_ Ht _ _ _ _ _ _ _ _ _ _]). lia.
  - destruct w; try done; by destruct r.
Qed.

Lemma reader_keeps_segment a r g : reader_keeps ofd a r g.
Proof.
  unfold reader_keeps, reader_main, must, adds, rgo, reserveSem, releaseSem.
  destruct r; repeat (case_match; simplify_eq/=; try done); done.
Qed.

Lemma writer_changes_turn a w g : writer_changes ifd a w g -> w_turn w = 1.
Proof.
  intros (w' & g' & m & m' & E & Hm & Hm' & Hne).
  assert (match w with WRead _ _ => True | _ => seg g' = Some m \/ seg g' = None end) as Hkeeps.
  { revert E. unfold writer_main, must, adds, wgo, reserveSem, releaseSem, initSemAvailable, initSemInUse, setval.
    destruct w; repeat (case_match; simplify_eq/=; try done); intros; simplify_eq/=; auto. }
  destruct w; try done; destruct Hkeeps; congruence.
Qed.

Lemma reader_waits_blind a r g m : r_turn r = 0 -> seg g = Some m -> reader_blind ofd a r g.
Proof.
  intros Ht Hg m'. destruct g as [k v sg]; simpl in *; subst sg.
  destruct r; try done; simpl; unfold must, rgo, reserveSem, reseg; simpl;
    repeat (case_match; simplify_eq/=; try done); done.
Qed.

Lemma no_race w r g out a a' : inv w r g out -> writer_changes ifd a w g -> reader_blind ofd a' r g.
Proof.
  intros HI HW. pose proof (turns_exclude _ _ _ _ HI). pose proof (writer_changes_turn _ _ _ HW).
  destruct HW as (_ & _ & m & _ & _ & Hm & _).
  apply (reader_waits_blind _ _ _ m); [|done]. assert (0 <= r_turn r) by (by destruct r). lia.
Qed.

(** C3: the transfer through shared memory.  Both programs are started, in any order and with any
    interleaving, over a kernel whose input is at most [INT_MAX] bytes and comes in pieces of any
    size; a semaphore operation may be interrupted any number of times.  As long as neither program
    has ended with an error: the accesses to the segment do not race, that is, the reader never
    changes the segment, and whenever the writer's next step would change it, what the reader's next
    step does depends on nothing in it (the writer itself still reads [cnt] after it has given the
    turn away, when the reader may be reading too); one of them can go on; and when both have
    ended, the reader's output has received exactly the bytes of the writer's input, and both
    report that number of bytes and the same number of transfers. *)
Theorem transfer_copies s :
  rtc (step (exec ifd ofd) any) (start_state k0) s ->
  exists w r, threads s = [Main w; Worker r] /\
    (failed w r \/
     ended s = None /\
     (forall a', reader_keeps ofd a' r (shared s)) /\
     (forall a a', writer_changes ifd a w (shared s) -> reader_blind ofd a' r (shared s)) /\
     match w, r with
     | WGone _, RGone _ =>
         sunk (io (shared s)) ofd = sunk k0 ofd ++ pending k0 ifd /\
         exists n, sent_line n (strlen all) ∈ printed s /\ received_line n (strlen all) ∈ printed s
     | _, _ => exists i s', run_one (exec ifd ofd) i Fine s = Some s'
     end).
Proof.
  intros Hs. assert (reached s) as (w & r & Hts & HI).
  { revert Hs. apply rtc_invariant; [intros ??; apply reached_step|].
    exists WSemget, RSemget. split; [done|]. right. done. }
  exists w, r. split; [done|]. destruct HI as [|[He HI]]; [by left|right].
  split; [done|]. split; [intros a; apply reader_keeps_segment|]. split; [intros a a'; by eapply no_race|].
  assert ((exists i s', run_one (exec ifd ofd) i Fine s = Some s') \/ exists st st', w = WGone st /\ r = RGone st')
    as [Hgo|(st & st' & -> & ->)].
  { destruct (transfer_progress _ _ _ _ HI) as [Hw|[Hr|Hend]]; [left..|by right].
    - exists 0%nat. eapply run_one_enabled; [done|by rewrite Hts|done].
    - exists 1%nat. eapply run_one_enabled; [done|by rewrite Hts|done]. }
  - destruct w; try done. destruct r; try done. by destruct HI as (_ & _ & HR & _ & n & Hw & Hr); split; [|exists n].
  - destruct HI as (_ & _ & HR & _ & n & Hw & Hr). split; [done|]. by exists n.
Qed.
End Correct.

(** ** A run

    The writer's input comes in two pieces; each program runs until it has to wait. *)

Definition demo_streams : streams :=
  Streams {[0 := [Chunk "a" (str "bc"); Chunk "d" []]]} ∅ ∅.

Definition demo_schedule : list (nat * answer) :=
  (fun i => (i, Fine)) <$>
    (repeat 0 9 ++ repeat 1 7 ++ repeat 0 4 ++ repeat 1 4 ++ repeat 0 4 ++ repeat 1 5 ++ repeat 0 5)%nat.

Lemma transfer_copies_witness :
  exists s, run (exec 0 1) demo_schedule (start_state demo_streams) = Some s /\
    threads s = [Main (WGone 0); Worker (RGone 0)] /\ sunk (io (shared s)) 1 = str "abcd" /\
    printed s = [str "Received 4 bytes (2 xfrs)" ++ [NL]; str "Sent 4 bytes (2 xfrs)" ++ [NL]].
Proof.
  destruct (run (exec 0 1) demo_schedule (start_state demo_streams)) as [s|] eqn:E; [|vm_compute in E; discriminate E].
  exists s. split; [done|].
  assert (threads s = [Main (WGone 0); Worker (RGone 0)]) as Hts by (vm_compute in E; by injection E as <-).
  split; [done|].
  assert (rtc (step (exec 0 1) any) (start_state demo_streams) s) as Hrun.
  { refine (run_rtc _ any _ _ _ _ E). by apply Forall_true. }
  destruct (transfer_copies 0 1 demo_streams ltac:(by_decide) s Hrun) as (w & r & Hts' & Hor).
  rewrite Hts in Hts'. injection Hts' as <- <-.
  destruct Hor as [[(st & [= <-] & Hne)|(st & [= <-] & Hne)]|(_ & _ & _ & HR & _)]; [by destruct (Hne eq_refl)..|].
  rewrite HR. split; [by vm_compute|]. vm_compute in E. by injection E as <-.
Defined.
