(* ===== verification/SvMsg.v ===== *)
(** * System V message queues from the command line

    svmsg_send.c and svmsg_receive.c (tlpi-dist/svmsg).  The queues are the kernel's: [MsgCalls] has the
    two calls, [MsgLaws] what their manual pages promise to a process that may use the queue.  getopt is
    a parameter: the options it delivers and the operands it leaves. *)

From Stdlib Require Import ZArith Lia String Ascii.
From S2P Require Import Prelude CString Kernel GetNum ErrorFns.
From S2P Require Tail.
Import Tail (opt, Opt, BadOpt).

Definition IPC_NOWAIT : Z := 2048.
Definition MSG_NOERROR : Z := 4096.
Definition MSG_EXCEPT : Z := 8192.
Definition E2BIG : Z := 7.
Definition ENOMSG : Z := 42.

Definition MAX_MTEXT : Z := 1024.

(** A [struct mbuf] of which the first bytes of the array are in use. *)
Record mbuf := Mbuf { mtype : Z; mtext : bytes }.

Class MsgCalls (K : Type) := {
  k_msgsnd : Z -> mbuf -> Z -> K -> (Z + Z) * K;          (* queue, message, flags *)
  k_msgrcv : Z -> Z -> Z -> Z -> K -> (mbuf + Z) * K      (* queue, size, type, flags *)
}.

Section Programs.
Context `{!Messages} {K : Type} `{!MsgCalls K}.

(** ** svmsg_send.c *)

Definition send_usageError {A} (progName : bytes) (msg : option bytes) : M (proc K) A :=
  match msg with Some m => eprintf m | None => mret tt end ;;
  eprintf (str "Usage: " ++ progName ++ str " [-n] msqid msg-type [msg-text]" ++ [NL]) ;;
  eprintf (str "    -n       Use IPC_NOWAIT flag" ++ [NL]) ;;
  exit_ EXIT_FAILURE.

Fixpoint send_options (progName : bytes) (opts : list opt) (flags : Z) : M (proc K) Z :=
  match opts with
  | [] => mret flags
  | Opt c _ :: opts' =>
      if Ascii.eqb c "n" then send_options progName opts' (Z.lor flags IPC_NOWAIT)
      else send_usageError progName None
  | BadOpt _ :: _ => send_usageError progName None
  end.

(** The body of the message, from the operands after the type. *)
Definition message_body (texts : list bytes) : M (proc K) bytes :=
  match texts with
  | text :: _ =>
      let msgLen := strlen text + 1 in
      if MAX_MTEXT <? msgLen
      then cmdLineErr (str "msg-text too long (max: " ++ dec MAX_MTEXT ++ str " characters)" ++ [NL])
      else mret (text ++ [NUL])
  | [] => mret []
  end.

Definition send_main (progName : bytes) (opts : list opt) (operands : list bytes) : M (proc K) unit :=
  flags ← send_options progName opts 0;
  match operands with
  | a0 :: a1 :: texts =>
      if (1 <? length texts)%nat then send_usageError progName (Some (str "Wrong number of arguments" ++ [NL]))
      else
        msqid ← getInt (Some a0) 0 (Some (str "msqid"));
        mtype ← getInt (Some a1) 0 (Some (str "msg-type"));
        body ← message_body texts;
        r ← syscall (-1) (k_msgsnd msqid (Mbuf mtype body) flags);
        if r =? -1 then errExit (str "msgsnd") else exit_ EXIT_SUCCESS
  | _ => send_usageError progName (Some (str "Wrong number of arguments" ++ [NL]))
  end.

(** ** svmsg_receive.c *)

Definition receive_usageError {A} (progName : bytes) (msg : option bytes) : M (proc K) A :=
  match msg with Some m => eprintf m | None => mret tt end ;;
  eprintf (str "Usage: " ++ progName ++ str " [options] msqid [max-bytes]" ++ [NL]) ;;
  eprintf (str "Permitted options are:" ++ [NL]) ;;
  eprintf (str "    -e       Use MSG_NOERROR flag" ++ [NL]) ;;
  eprintf (str "    -t type  Select message of given type" ++ [NL]) ;;
  eprintf (str "    -n       Use IPC_NOWAIT flag" ++ [NL]) ;;
  eprintf (str "    -x       Use MSG_EXCEPT flag" ++ [NL]) ;;
  exit_ EXIT_FAILURE.

(** [flags] and [type]. *)
Fixpoint receive_options (progName : bytes) (opts : list opt) (flags type : Z) : M (proc K) (Z * Z) :=
  match opts with
  | [] => mret (flags, type)
  | Opt c optarg :: opts' =>
      if Ascii.eqb c "e" then receive_options progName opts' (Z.lor flags MSG_NOERROR) type
      else if Ascii.eqb c "n" then receive_options progName opts' (Z.lor flags IPC_NOWAIT) type
      else if Ascii.eqb c "t" then receive_options progName opts' flags (atoi optarg)
      else if Ascii.eqb c "x" then receive_options progName opts' (Z.lor flags MSG_EXCEPT) type
      else receive_usageError progName None
  | BadOpt _ :: _ => receive_usageError progName None
  end.

(** What is printed of a message.  The kernel has stored it in an array of [MAX_MTEXT] bytes, and [%s]
    needs a null byte among those it stored: the rest of the array is not initialised. *)
Definition show_message (msg : mbuf) : M (proc K) unit :=
  (if MAX_MTEXT <? strlen (mtext msg) then undef_ else mret tt) ;;
  printf (str "Received: type=" ++ dec (mtype msg) ++ str "; length=" ++ dec (strlen (mtext msg))) ;;
  (if 0 <? strlen (mtext msg) then
     i ← the (index_of NUL (mtext msg)); printf (str "; body=" ++ take i (mtext msg))
   else mret tt) ;;
  printf [NL].

Definition receive_main (progName : bytes) (opts : list opt) (operands : list bytes) : M (proc K) unit :=
  o ← receive_options progName opts 0 0;
  let '(flags, type) := o in
  match operands with
  | a0 :: rest =>
      if (1 <? length rest)%nat then receive_usageError progName (Some (str "Wrong number of arguments" ++ [NL]))
      else
        msqid ← getInt (Some a0) 0 (Some (str "msqid"));
        maxBytes ← match rest with
                   | a1 :: _ => n ← getInt (Some a1) 0 (Some (str "max-bytes")); mret (u64 n)
                   | [] => mret MAX_MTEXT
                   end;
        msg ← syscall None (fun k => let '(r, k') := k_msgrcv msqid maxBytes type flags k in
                                     (match r with inl m => inl (Some m) | inr e => inr e end, k'));
        match msg with
        | None => errExit (str "msgrcv")
        | Some msg => show_message msg ;; exit_ EXIT_SUCCESS
        end
  | [] => receive_usageError progName (Some (str "Wrong number of arguments" ++ [NL]))
  end.
End Programs.

(** ** What the calls promise *)

(** The message [msgrcv] takes: its place in the queue. *)
Definition pick (type flags : Z) (q : list mbuf) : option nat :=
  if type =? 0 then fst <$> list_find (fun _ => True) q
  else if 0 <? type then
    if has flags MSG_EXCEPT then fst <$> list_find (fun m => mtype m <> type) q
    else fst <$> list_find (fun m => mtype m = type) q
  else
    match filter (fun t => t <= - type) (mtype <$> q) with
    | [] => None
    | t :: ts => fst <$> list_find (fun m => mtype m = foldr Z.min t ts) q
    end.

Class MsgLaws (K : Type) `{!MsgCalls K} := {
  queue : K -> Z -> option (list mbuf);
  msgsnd_law : forall id m flags k,
    match k_msgsnd id m flags k with
    | (inl r, k') => 0 <= r /\ 0 < mtype m /\ exists q, queue k id = Some q /\ queue k' id = Some (q ++ [m]) /\
                     forall id', id' <> id -> queue k' id' = queue k id'
    | (inr _, k') => forall id', queue k' id' = queue k id'
    end;
  msgrcv_law : forall id size type flags k,
    match k_msgrcv id size type flags k with
    | (inl m, k') => exists q i m0, queue k id = Some q /\ pick type flags q = Some i /\ q !! i = Some m0 /\
        m = Mbuf (mtype m0) (take (Z.to_nat size) (mtext m0)) /\ (strlen (mtext m0) <= size \/ has flags MSG_NOERROR = true) /\
        queue k' id = Some (delete i q) /\ forall id', id' <> id -> queue k' id' = queue k id'
    | (inr _, k') => forall id', queue k' id' = queue k id'
    end;
  (* A message that is there and fits is delivered. *)
  msgrcv_delivers : forall id size type flags k q i m,
    queue k id = Some q -> pick type flags q = Some i -> q !! i = Some m -> strlen (mtext m) <= size -> size <= LONG_MAX ->
    exists m' k', k_msgrcv id size type flags k = (inl m', k')
}.

(** ** Sending and receiving *)

Section Correct.
Context `{!Messages} {K : Type} `{!MsgCalls K, !MsgLaws K}.
Implicit Types (p q : proc K).

Lemma getInt_dec z name p : INT_MIN <= z <= INT_MAX ->
  getInt (Some (dec z)) 0 name p = (Ret z, Proc (kern p) 0 (trace p)).
Proof.
  intros Hz. assert (base_of 0 = 10) as Hb by reflexivity.
  destruct (getInt_cases (dec z) 0 name p (dec_c_string z)) as [(v & [(Hv & _) _] & ->)|[Hno _]].
  - rewrite Hb, strtol_dec_end in Hv by (unfold INT_MIN, INT_MAX, LONG_MIN, LONG_MAX in *; lia). by injection Hv as <-.
  - destruct (Hno z). split; [|done]. split_and!; [|apply dec_nonempty|done|done].
    rewrite Hb. apply strtol_dec_end. unfold INT_MIN, INT_MAX, LONG_MIN, LONG_MAX in *; lia.
Qed.

(** The text that is stored for an operand. *)
Definition stored_text (text : option bytes) : bytes := from_option (fun t => t ++ [NUL]) [] text.

(** The lines of a message that was received. *)
Definition received (type : Z) (text : option bytes) : list event :=
  [Out (str "Received: type=" ++ dec type ++ str "; length=" ++ dec (strlen (stored_text text)))] ++
  (match text with Some t => [Out (str "; body=" ++ t)] | None => [] end) ++ [Out [NL]].

Lemma show_message_text type text p : from_option c_string True text -> strlen (stored_text text) <= MAX_MTEXT ->
  show_message (Mbuf type (stored_text text)) p = (Ret tt, Proc (kern p) (errno p) (trace p ++ received type text)).
Proof.
  intros Ht Hl. destruct p as [k e tr]. unfold show_message. cbn [mtext mtype].
  rewrite (proj2 (Z.ltb_ge MAX_MTEXT _)) by done. erewrite bind_Ret by reflexivity. erewrite bind_Ret by reflexivity.
  destruct text as [t|]; cbn [stored_text from_option] in *.
  - rewrite (proj2 (Z.ltb_lt _ _)) by (rewrite strlen_app; change (strlen [NUL]) with 1; pose proof (strlen_nonneg t); lia).
    rewrite index_of_here by done. cbn [the]. erewrite bind_Ret by (erewrite bind_Ret by reflexivity; rewrite take_app_length; reflexivity).
    unfold received, printf, modify. cbn -[str]. by rewrite <- !app_assoc.
  - erewrite bind_Ret by reflexivity. unfold received, printf, modify. cbn -[str]. by rewrite <- !app_assoc.
Qed.

(** The messages of other types are passed over. *)
Lemma pick_type type flags (q : list mbuf) m post : 0 < type -> has flags MSG_EXCEPT = false -> mtype m = type ->
  Forall (fun x => mtype x <> type) q -> pick type flags (q ++ m :: post) = Some (length q).
Proof.
  intros Ht Hx Hm Hq. unfold pick. rewrite (proj2 (Z.eqb_neq _ _)), (proj2 (Z.ltb_lt _ _)), Hx by lia.
  destruct (list_find _ _) as [[i y]|] eqn:E.
  - apply list_find_Some in E as (Hi & Hy & Hlt). cbn. f_equal. destruct (Nat.lt_trichotomy i (length q)) as [Hl|[Hl|Hl]]; [|done|].
    + rewrite lookup_app_l in Hi by done. rewrite Forall_lookup in Hq. by destruct (Hq _ _ Hi).
    + specialize (Hlt (length q) m). rewrite list_lookup_middle in Hlt by done. by destruct Hlt.
  - apply list_find_None in E. rewrite Forall_app, Forall_cons in E. tauto.
Qed.

(** Only [-n]. *)
Definition is_n (o : opt) : Prop := match o with Opt c _ => c = "n"%char | BadOpt _ => False end.

Lemma send_options_ok prog opts : forall flags p, Forall is_n opts -> exists fl, send_options prog opts flags p = (Ret fl, p).
Proof.
  induction opts as [|[c x|z] opts IH]; intros flags p Ho; [by eexists| |by apply Forall_cons in Ho as [[] _]].
  apply Forall_cons in Ho as [-> Ho]. cbn [send_options Ascii.eqb]. apply IH, Ho.
Qed.

Lemma send_main_spec prog opts id type text p : Forall is_n opts -> INT_MIN <= id <= INT_MAX -> INT_MIN <= type <= INT_MAX ->
  strlen (stored_text text) <= MAX_MTEXT ->
  exists o q, send_main prog opts ([dec id; dec type] ++ option_list text) p = (o, q) /\
    (stopped o /\ (forall id', queue (kern q) id' = queue (kern p) id') \/
     o = Exit EXIT_SUCCESS /\ trace q = trace p /\ 0 < type /\ (exists ms, queue (kern p) id = Some ms /\
       queue (kern q) id = Some (ms ++ [Mbuf type (stored_text text)])) /\ forall id', id' <> id -> queue (kern q) id' = queue (kern p) id').
Proof.
  intros Ho Hid Hty Hl. destruct (send_options_ok prog opts 0 p Ho) as [fl Hfl]. unfold send_main.
  rewrite (bind_Ret _ _ _ _ _ Hfl). cbn [Datatypes.app].
  rewrite (proj2 (Nat.ltb_ge _ _)) by (destruct text; cbn; lia).
  rewrite (bind_Ret _ _ _ _ _ (getInt_dec id _ _ Hid)), (bind_Ret _ _ _ _ _ (getInt_dec type _ _ Hty)). cbn [kern trace].
  assert (forall q, message_body (K := K) (option_list text) q = (Ret (stored_text text), q)) as Hb.
  { intros q. destruct text as [t|]; [|done]. cbn -[Z.add]. cbn in Hl. rewrite strlen_app in Hl. by rewrite (proj2 (Z.ltb_ge _ _)). }
  rewrite (bind_Ret _ _ _ _ _ (Hb _)). pose proof (msgsnd_law id (Mbuf type (stored_text text)) fl (kern p)) as Hs.
  destruct (k_msgsnd id _ fl (kern p)) as [[r|e] k'] eqn:Hk.
  - destruct Hs as (Hr & Hpos & ms & Hq & Hq' & Hf). eexists (Exit EXIT_SUCCESS), (Proc k' 0 (trace p)). split.
    + erewrite bind_Ret by (unfold syscall; cbn [kern]; rewrite Hk; reflexivity). by rewrite (proj2 (Z.eqb_neq _ _)) by lia.
    + right. split_and!; try done. by exists ms.
  - erewrite bind_Ret by (unfold syscall; cbn [kern]; rewrite Hk; reflexivity). cbn [Z.eqb Pos.eqb].
    destruct (wp_elim _ _ _ (wp_errExit (A := unit) (str "msgsnd") (Proc k' e (trace p))
      (fun o q => stopped o /\ kern q = k') ltac:(by intros))) as (o & q & Hrun & Ho' & Hkq).
    exists o, q. split; [done|]. left. by rewrite Hkq.
Qed.

(** C26: what svmsg_send puts into a queue svmsg_receive brings out again.  With a numeric identifier and type and a text of at
    most 1023 characters, or none, a run of svmsg_send either reports that the kernel refused the message and leaves every queue
    as it was, or ends with status 0; then a run of svmsg_receive that asks for the type, when no earlier message of the queue
    has it, prints the type, the length with its null byte and the text, ends with status 0 and leaves every queue as it was
    before both. *)
Theorem svmsg_roundtrip prog opts id type text p : Forall is_n opts -> INT_MIN <= id <= INT_MAX -> INT_MIN <= type <= INT_MAX ->
  strlen (stored_text text) <= MAX_MTEXT -> from_option c_string True text ->
  exists o q, send_main prog opts ([dec id; dec type] ++ option_list text) p = (o, q) /\
    (stopped o /\ (forall id', queue (kern q) id' = queue (kern p) id') \/
     o = Exit EXIT_SUCCESS /\ trace q = trace p /\
     (forall ms, queue (kern p) id = Some ms -> Forall (fun m => mtype m <> type) ms -> forall e t prog', exists e' k',
        receive_main prog' [Opt "t" (dec type)] [dec id] (Proc (kern q) e t) = (Exit EXIT_SUCCESS, Proc k' e' (t ++ received type text)) /\
        forall id', queue k' id' = queue (kern p) id')).
Proof.
  intros Ho Hid Hty Hl Ht. destruct (send_main_spec prog opts id type text p Ho Hid Hty Hl) as (o & q & Hrun & Hq).
  exists o, q. split; [done|]. destruct Hq as [Hq|(-> & Htr & Hpos & (ms & Hms & Hq) & Hf)]; [by left|right]. split_and!; [done..|].
  intros ms' Hms' Hno e t prog'. rewrite Hms in Hms'. injection Hms' as <-.
  pose proof (pick_type type 0 ms (Mbuf type (stored_text text)) [] Hpos eq_refl eq_refl Hno) as Hpick.
  assert ((ms ++ [Mbuf type (stored_text text)]) !! length ms = Some (Mbuf type (stored_text text))) as Hlk by by rewrite list_lookup_middle.
  destruct (msgrcv_delivers id MAX_MTEXT type 0 (kern q) _ _ _ Hq Hpick Hlk Hl) as (m' & k' & Hk); [by vm_compute|].
  pose proof (msgrcv_law id MAX_MTEXT type 0 (kern q)) as Hlaw. rewrite Hk in Hlaw.
  destruct Hlaw as (ms2 & i & m0 & Hq2 & Hi & Hm0 & -> & _ & Hq' & Hf'). simplify_eq. cbn [mtype mtext] in *.
  rewrite take_ge in Hk by (unfold strlen, MAX_MTEXT in *; lia).
  exists 0, k'. split.
  - unfold receive_main. cbn [receive_options Ascii.eqb Bool.eqb].
    assert (atoi (dec type) = type) as -> by (rewrite <- (app_nil_r (dec type)) at 1; by apply atoi_dec).
    erewrite bind_Ret by reflexivity. cbv beta iota. cbn [length Nat.ltb Nat.leb].
    rewrite (bind_Ret _ _ _ _ _ (getInt_dec id _ _ Hid)). cbn [kern trace].
    erewrite bind_Ret by reflexivity. erewrite bind_Ret by (unfold syscall; cbn [kern]; rewrite Hk; reflexivity).
    cbv iota.     rewrite (bind_Ret _ _ _ _ _ (show_message_text type text _ Ht Hl)). done.
  - intros id'. destruct (decide (id' = id)) as [->|Hne]; [|by rewrite Hf', Hf].
    rewrite Hq', Hms. f_equal. by rewrite delete_middle, app_nil_r.
Qed.
End Correct.

(** ** A simulated kernel

    A queue holds at most 16384 bytes, a message at most 8192; a call that would block fails. *)

Abbreviation k_queues := (gmap Z (list mbuf)).

Definition sim_msgsnd (id : Z) (m : mbuf) (flags : Z) (k : k_queues) : (Z + Z) * k_queues :=
  match k !! id with
  | None => (inr EINVAL, k)
  | Some q =>
      if (mtype m <? 1) || (8192 <? strlen (mtext m)) then (inr EINVAL, k)
      else if 16384 <? foldr Z.add (strlen (mtext m)) (strlen ∘ mtext <$> q) then (inr EAGAIN, k)
      else (inl 0, <[id := q ++ [m]]> k)
  end.

Definition sim_msgrcv (id size type flags : Z) (k : k_queues) : (mbuf + Z) * k_queues :=
  match k !! id with
  | None => (inr EINVAL, k)
  | Some q =>
      if LONG_MAX <? size then (inr EINVAL, k)
      else match i ← pick type flags q; m ← q !! i; Some (i, m) with
           | None => (inr ENOMSG, k)
           | Some (i, m) =>
               if (size <? strlen (mtext m)) && negb (has flags MSG_NOERROR) then (inr E2BIG, k)
               else (inl (Mbuf (mtype m) (take (Z.to_nat size) (mtext m))), <[id := delete i q]> k)
           end
  end.

#[export] Instance sim_msg : MsgCalls k_queues := {| k_msgsnd := sim_msgsnd; k_msgrcv := sim_msgrcv |}.

#[export] Program Instance sim_msg_laws : MsgLaws k_queues := {| queue := fun k id => k !! id |}.
Next Obligation.
  intros id m flags k. cbn. unfold sim_msgsnd. destruct (k !! id) as [q|] eqn:E; [|done].
  destruct (_ || _) eqn:Hb; [done|]. apply orb_false_iff in Hb as [Hb%Z.ltb_ge _]. destruct (_ <? _); [done|].
  split_and!; [done|lia|]. exists q. split_and!; [done|by simplify_map_eq|]. intros id' Hne. by simplify_map_eq.
Qed.
Next Obligation.
  intros id size type flags k. cbn. unfold sim_msgrcv. destruct (k !! id) as [q|] eqn:E; [|done].
  destruct (_ <? size); [done|]. destruct (pick type flags q) as [i|] eqn:Hi; [|done]. cbn [mbind option_bind]. destruct (q !! i) as [m|] eqn:Hm; [|done]. cbn [mbind option_bind].
  destruct ((size <? strlen (mtext m)) && negb (has flags MSG_NOERROR)) eqn:Hb; [done|]. exists q, i, m. split_and!; try done.
  - apply andb_false_iff in Hb as [Hb|Hb]; [left; by apply Z.ltb_ge|right; by apply negb_false_iff].
  - by rewrite lookup_insert_eq.
  - intros id' Hne. by rewrite lookup_insert_ne.
Qed.
Next Obligation.
  intros id size type flags k q i m E Hi Hm Hl Hs. cbn. unfold sim_msgrcv. rewrite E, (proj2 (Z.ltb_ge _ _)) by done. rewrite Hi. cbn.
  rewrite Hm. cbn. rewrite (proj2 (Z.ltb_ge _ _)) by done. cbn. by do 2 eexists.
Qed.

Section Runs.
Local Instance no_messages : Messages := {| ename _ := []; MAX_ENAME := 133; strerror _ := []; EF_DUMPCORE := None |}.

Definition two_queues : k_queues := <[7 := [Mbuf 5 (str "five")]]> (<[8 := [Mbuf 1 (replicate 2000 "x"%char)]]> ∅).
Definition shell_with (k : k_queues) : proc k_queues := Proc k 0 [].

(** A body without a null byte, as [-e] with a small size leaves it, is printed beyond its end. *)
Example receive_unterminated : (receive_main (str "svmsg_receive") [Opt "e" []] [str "7"; str "3"] (shell_with two_queues)).1 = Undef.
Proof. vm_compute. reflexivity. Qed.

(** A size above 1024 lets the kernel store past the end of the array. *)
Example receive_overflows : (receive_main (str "svmsg_receive") [] [str "8"; str "4096"] (shell_with two_queues)).1 = Undef.
Proof. vm_compute. reflexivity. Qed.

Lemma svmsg_roundtrip_witness : exists q, send_main (str "svmsg_send") [] [dec 7; dec 3; str "hello"] (shell_with two_queues) = (Exit 0, q) /\
  exists e' k', receive_main (str "svmsg_receive") [Opt "t" (dec 3)] [dec 7] (Proc (kern q) 0 []) =
    (Exit 0, Proc k' e' [Out (str "Received: type=3; length=6"); Out (str "; body=hello"); Out [NL]]) /\ k' !! 7 = Some [Mbuf 5 (str "five")].
Proof.
  destruct (svmsg_roundtrip (str "svmsg_send") [] 7 3 (Some (str "hello")) (shell_with two_queues)) as (o & q & Hrun & Hq);
    [by constructor|by_decide|by_decide|by_decide|by_decide|].
  assert ((send_main (str "svmsg_send") [] ([dec 7; dec 3] ++ option_list (Some (str "hello"))) (shell_with two_queues)).1 = Exit 0) as E by (vm_compute; reflexivity).
  rewrite Hrun in E. cbn [fst] in E. subst o. exists q. split; [exact Hrun|].
  destruct Hq as [[[? | ?] _]|(_ & _ & Hq)]; [done|done|].
  destruct (Hq [Mbuf 5 (str "five")] eq_refl ltac:(by repeat constructor) 0 [] (str "svmsg_receive")) as (e' & k' & Hr & Hk).
  exists e', k'. split; [exact Hr|]. exact (Hk 7).
Defined.
End Runs.
