(* ===== verification/PMsg.v ===== *)
(** * POSIX message queues from the command line

    pmsg_create.c, pmsg_send.c and pmsg_receive.c (tlpi-dist/pmsg).  [MqCalls] has the calls on queues,
    [MqLaws] what their manual pages promise to a process that may use the queue and open it.  getopt is a
    parameter: the options it delivers and the operands it leaves; [malloc_ok] tells which requests malloc
    grants. *)

From Stdlib Require Import ZArith Lia String Ascii Sorted Permutation.
From S2P Require Import Prelude CString Kernel GetNum ErrorFns.
From S2P Require Tail.
Import Tail (opt, Opt, BadOpt).

Definition O_EXCL : Z := 128.
Definition O_NONBLOCK : Z := 2048.
Definition S_IRUSR : Z := 256.
Definition S_IWUSR : Z := 128.
Definition MQ_PRIO_MAX : Z := 32768.

(** A [struct mq_attr], of its fields those that are used. *)
Record mq_attr := Attr { mq_maxmsg : Z; mq_msgsize : Z }.

Class MqCalls (K : Type) := {
  k_mq_open : bytes -> Z -> Z -> option mq_attr -> K -> (Z + Z) * K;   (* name, flags, mode, attributes *)
  k_mq_getattr : Z -> K -> (mq_attr + Z) * K;
  k_mq_send : Z -> bytes -> Z -> K -> (Z + Z) * K;                     (* queue, message, priority *)
  k_mq_receive : Z -> Z -> K -> ((bytes * Z) + Z) * K                  (* queue, size *)
}.

Section Programs.
Context `{!Messages} {K : Type} `{!FileIO K, !MqCalls K} (malloc_ok : Z -> bool).

(** A call with a result of its own kind; nothing when it fails. *)
Definition attempt {A} (f : K -> (A + Z) * K) : M (proc K) (option A) :=
  syscall None (fun k => let '(r, k') := f k in (match r with inl a => inl (Some a) | inr e => inr e end, k')).

(** ** pmsg_create.c *)

Definition create_usageError {A} (progName : bytes) : M (proc K) A :=
  eprintf (str "Usage: " ++ progName ++ str " [-cx] [-m maxmsg] [-s msgsize] mq-name [octal-perms]" ++ [NL]) ;;
  eprintf (str "    -c          Create queue (O_CREAT)" ++ [NL]) ;;
  eprintf (str "    -m maxmsg   Set maximum # of messages" ++ [NL]) ;;
  eprintf (str "    -s msgsize  Set maximum message size" ++ [NL]) ;;
  eprintf (str "    -x          Create exclusively (O_EXCL)" ++ [NL]) ;;
  exit_ EXIT_FAILURE.

(** [flags], [attr] and whether [attrp] points to it. *)
Fixpoint create_options (progName : bytes) (opts : list opt) (flags : Z) (attr : mq_attr) (attrp : bool)
    : M (proc K) (Z * option mq_attr) :=
  match opts with
  | [] => mret (flags, if attrp then Some attr else None)
  | Opt c optarg :: opts' =>
      if Ascii.eqb c "c" then create_options progName opts' (Z.lor flags O_CREAT) attr attrp
      else if Ascii.eqb c "m" then create_options progName opts' flags (Attr (atoi optarg) (mq_msgsize attr)) true
      else if Ascii.eqb c "s" then create_options progName opts' flags (Attr (mq_maxmsg attr) (atoi optarg)) true
      else if Ascii.eqb c "x" then create_options progName opts' (Z.lor flags O_EXCL) attr attrp
      else create_usageError progName
  | BadOpt _ :: _ => create_usageError progName
  end.

Definition create_main (progName : bytes) (opts : list opt) (operands : list bytes) : M (proc K) unit :=
  o ← create_options progName opts O_RDWR (Attr 50 2048) false;
  let '(flags, attrp) := o in
  match operands with
  | [] => create_usageError progName
  | name :: rest =>
      perms ← match rest with
              | [] => mret (Z.lor S_IRUSR S_IWUSR)
              | a :: _ => n ← getInt (Some a) GN_BASE_8 (Some (str "octal-perms")); mret (u32 n)
              end;
      mqd ← syscall (-1) (k_mq_open name flags perms attrp);
      if mqd =? -1 then errExit (str "mq_open") else exit_ EXIT_SUCCESS
  end.

(** ** pmsg_send.c *)

Definition send_usageError {A} (progName : bytes) : M (proc K) A :=
  eprintf (str "Usage: " ++ progName ++ str " [-n] mq-name msg [prio]" ++ [NL]) ;;
  eprintf (str "    -n           Use O_NONBLOCK flag" ++ [NL]) ;;
  exit_ EXIT_FAILURE.

(** The options of pmsg_send and of pmsg_receive. *)
Fixpoint nonblock_options (usageError : M (proc K) Z) (opts : list opt) (flags : Z) : M (proc K) Z :=
  match opts with
  | [] => mret flags
  | Opt c _ :: opts' => if Ascii.eqb c "n" then nonblock_options usageError opts' (Z.lor flags O_NONBLOCK) else usageError
  | BadOpt _ :: _ => usageError
  end.

Definition send_main (progName : bytes) (opts : list opt) (operands : list bytes) : M (proc K) unit :=
  flags ← nonblock_options (send_usageError progName) opts O_WRONLY;
  match operands with
  | name :: msg :: rest =>
      mqd ← syscall (-1) (k_mq_open name flags 0 None);
      if mqd =? -1 then errExit (str "mq_open")
      else
        let prio := match rest with a :: _ => u32 (atoi a) | [] => 0 end in
        r ← syscall (-1) (k_mq_send mqd msg prio);
        if r =? -1 then errExit (str "mq_send") else exit_ EXIT_SUCCESS
  | _ => send_usageError progName
  end.

(** ** pmsg_receive.c *)

Definition receive_usageError {A} (progName : bytes) : M (proc K) A :=
  eprintf (str "Usage: " ++ progName ++ str " [-n] mq-name" ++ [NL]) ;;
  eprintf (str "    -n           Use O_NONBLOCK flag" ++ [NL]) ;;
  exit_ EXIT_FAILURE.

Definition receive_main (progName : bytes) (opts : list opt) (operands : list bytes) : M (proc K) unit :=
  flags ← nonblock_options (receive_usageError progName) opts O_RDONLY;
  match operands with
  | [] => receive_usageError progName
  | name :: _ =>
      mqd ← syscall (-1) (k_mq_open name flags 0 None);
      if mqd =? -1 then errExit (str "mq_open")
      else
        attr ← attempt (k_mq_getattr mqd);
        match attr with
        | None => errExit (str "mq_getattr")
        | Some attr =>
            if negb (malloc_ok (u64 (mq_msgsize attr))) then errExit (str "malloc")
            else
              r ← attempt (k_mq_receive mqd (u64 (mq_msgsize attr)));
              match r with
              | None => errExit (str "mq_receive")
              | Some (buffer, prio) =>
                  printf (str "Read " ++ dec (strlen buffer) ++ str " bytes; priority = " ++ dec prio ++ [NL]) ;;
                  w ← write STDOUT_FILENO buffer;
                  (if w =? -1 then errExit (str "write") else mret tt) ;;
                  write STDOUT_FILENO [NL] ;;
                  exit_ EXIT_SUCCESS
              end
        end
  end.
End Programs.

(** ** What the calls promise

    A queue is the list of its messages in the order of their arrival. *)

Class MqLaws (K : Type) `{!FileIO K, !MqCalls K} := {
  contents : K -> bytes -> option (list (bytes * Z));
  limits : K -> bytes -> mq_attr;
  opened : K -> Z -> option bytes;
  screen : K -> bytes;
  (* A queue that exists is opened; one that does not is created when that is asked for and possible. *)
  mq_open_existing : forall name flags mode attr k q, contents k name = Some q -> has flags O_EXCL = false ->
    exists d k', k_mq_open name flags mode attr k = (inl d, k') /\ 0 <= d /\ opened k' d = Some name /\
      contents k' = contents k /\ limits k' = limits k /\ screen k' = screen k;
  mq_open_new : forall name flags mode attr k, contents k name = None -> has flags O_CREAT = true ->
    match k_mq_open name flags mode attr k with
    | (inl d, k') => 0 <= d /\ contents k' name = Some [] /\ (forall name', name' <> name -> contents k' name' = contents k name') /\
        (forall a, attr = Some a -> limits k' name = a /\ 0 < mq_maxmsg a /\ 0 < mq_msgsize a) /\ screen k' = screen k
    | (inr _, k') => contents k' = contents k /\ screen k' = screen k
    end;
  mq_getattr_law : forall d name k q, opened k d = Some name -> contents k name = Some q ->
    exists k', k_mq_getattr d k = (inl (limits k name), k') /\ contents k' = contents k /\ limits k' = limits k /\
      opened k' = opened k /\ screen k' = screen k;
  mq_send_law : forall d name text prio k q, opened k d = Some name -> contents k name = Some q ->
    Z.of_nat (length q) < mq_maxmsg (limits k name) -> strlen text <= mq_msgsize (limits k name) -> 0 <= prio < MQ_PRIO_MAX ->
    exists r k', k_mq_send d text prio k = (inl r, k') /\ 0 <= r /\ contents k' name = Some (q ++ [(text, prio)]) /\
      (forall name', name' <> name -> contents k' name' = contents k name') /\ limits k' = limits k /\ screen k' = screen k;
  (* The oldest of the messages of the highest priority. *)
  mq_receive_law : forall d name size k q, opened k d = Some name -> contents k name = Some q -> q <> [] ->
    mq_msgsize (limits k name) <= size ->
    exists q1 m q2 k', k_mq_receive d size k = (inl m, k') /\ q = q1 ++ m :: q2 /\
      Forall (fun x => x.2 < m.2) q1 /\ Forall (fun x => x.2 <= m.2) q2 /\ contents k' name = Some (q1 ++ q2) /\
      (forall name', name' <> name -> contents k' name' = contents k name') /\ limits k' = limits k /\ screen k' = screen k;
  (* A write to the terminal is complete. *)
  write_screen : forall data k, exists k', k_write STDOUT_FILENO data k = (inl (strlen data), k') /\
    screen k' = screen k ++ data /\ contents k' = contents k /\ limits k' = limits k
}.

(** ** Messages by priority *)

(** [out] has the messages of [q], those of higher priority first and those of one priority in the order of [q]. *)
Definition urgent_first (q out : list (bytes * Z)) : Prop :=
  q ≡ₚ out /\ StronglySorted (fun a b => b.2 <= a.2) out /\
  forall prio, filter (fun m => m.2 = prio) out = filter (fun m => m.2 = prio) q.

Lemma urgent_first_nil : urgent_first [] [].
Proof. split_and!; [done|constructor|done]. Qed.

Lemma urgent_first_cons q1 m q2 out : Forall (fun x => x.2 < m.2) q1 -> Forall (fun x => x.2 <= m.2) q2 ->
  urgent_first (q1 ++ q2) out -> urgent_first (q1 ++ m :: q2) (m :: out).
Proof.
  intros H1 H2 (Hp & Hs & Hf). split_and!.
  - by rewrite <- Permutation_middle, Hp.
  - constructor; [done|]. rewrite <- Hp. apply Forall_app. split; [|done].
    eapply Forall_impl; [exact H1|]. cbn. lia.
  - intros prio. rewrite filter_cons, Hf, !filter_app, filter_cons. case_decide as E; [|done].
    assert (filter (fun x : bytes * Z => x.2 = prio) q1 = []) as ->; [|done].
    clear -H1 E. induction H1 as [|x l Hx _ IH]; [done|]. by rewrite filter_cons, decide_False by (cbn in *; lia).
Qed.

Section Correct.
Context `{!Messages} {K : Type} `{!FileIO K, !MqCalls K, !MqLaws K} (malloc_ok : Z -> bool).
Implicit Types (k : K).

(** Programs that run one after the other: how each ended and what it printed. *)
Fixpoint run_all (ms : list (M (proc K) unit)) (k : K) : list (outcome unit * list event) * K :=
  match ms with
  | [] => ([], k)
  | m :: ms' => let '(o, p) := m (Proc k 0 []) in let '(r, k') := run_all ms' (kern p) in ((o, trace p) :: r, k')
  end.

Definition send_one (name : bytes) (m : bytes * Z) : M (proc K) unit := send_main (str "pmsg_send") [] [name; m.1; dec m.2].
Definition receive_one (name : bytes) : M (proc K) unit := receive_main malloc_ok (str "pmsg_receive") [] [name].

(** The line that is printed of a message, and what is written of it. *)
Definition announced (m : bytes * Z) : list event :=
  [Out (str "Read " ++ dec (strlen m.1) ++ str " bytes; priority = " ++ dec m.2 ++ [NL])].
Definition shown (m : bytes * Z) : bytes := m.1 ++ [NL].

(** A message the queue takes. *)
Definition sendable (a : mq_attr) (m : bytes * Z) : Prop := strlen m.1 <= mq_msgsize a /\ 0 <= m.2 < MQ_PRIO_MAX.

Lemma atoi_prio z : 0 <= z < MQ_PRIO_MAX -> u32 (atoi (dec z)) = z.
Proof.
  intros Hz. rewrite <- (app_nil_r (dec z)), atoi_dec by (done || unfold INT_MIN, INT_MAX, MQ_PRIO_MAX in *; lia).
  unfold wrap_u. apply Z.mod_small. unfold MQ_PRIO_MAX in Hz. lia.
Qed.

Lemma send_one_spec name m k q : contents k name = Some q -> Z.of_nat (length q) < mq_maxmsg (limits k name) -> sendable (limits k name) m ->
  exists e k', send_one name m (Proc k 0 []) = (Exit 0, Proc k' e []) /\ contents k' name = Some (q ++ [m]) /\
    limits k' = limits k /\ screen k' = screen k.
Proof.
  intros Hq Hroom [Hlen Hprio]. destruct m as [text prio]. cbn [fst snd] in *.
  destruct (mq_open_existing name O_WRONLY 0 None k q Hq eq_refl) as (d & k1 & Hk1 & Hd & Ho & Hc & Hl & Hs).
  destruct (mq_send_law d name text prio k1 q Ho) as (r & k2 & Hk2 & Hr & Hc2 & _ & Hl2 & Hs2); [by rewrite Hc|by rewrite Hl..|done|].
  exists 0, k2. split; [|split_and!; congruence]. unfold send_one, send_main. cbn [nonblock_options fst snd]. erewrite bind_Ret by reflexivity.
  erewrite bind_Ret by (unfold syscall; cbn [kern]; rewrite Hk1; reflexivity). rewrite (proj2 (Z.eqb_neq d _)) by lia. cbv zeta iota.
  rewrite atoi_prio by done. erewrite bind_Ret by (unfold syscall; cbn [kern]; rewrite Hk2; reflexivity).
  by rewrite (proj2 (Z.eqb_neq r _)) by lia.
Qed.

Lemma write_run data k e t : exists k', write STDOUT_FILENO data (Proc k e t) = (Ret (strlen data), Proc k' e t) /\
  screen k' = screen k ++ data /\ contents k' = contents k /\ limits k' = limits k.
Proof. destruct (write_screen data k) as (k' & Hk & H'). exists k'. split; [|done]. unfold write, syscall. cbn [kern]. by rewrite Hk. Qed.

Lemma receive_one_spec name k q : (forall n, malloc_ok n = true) -> contents k name = Some q -> q <> [] ->
  0 <= mq_msgsize (limits k name) <= INT_MAX ->
  exists q1 m q2 e k', q = q1 ++ m :: q2 /\ Forall (fun x => x.2 < m.2) q1 /\ Forall (fun x => x.2 <= m.2) q2 /\
    receive_one name (Proc k 0 []) = (Exit 0, Proc k' e (announced m)) /\ contents k' name = Some (q1 ++ q2) /\
    limits k' = limits k /\ screen k' = screen k ++ shown m.
Proof.
  intros Hm Hq Hne Hsize. assert (u64 (mq_msgsize (limits k name)) = mq_msgsize (limits k name)) as Hu.
  { unfold wrap_u. apply Z.mod_small. unfold INT_MAX in Hsize. lia. }
  destruct (mq_open_existing name O_RDONLY 0 None k q Hq eq_refl) as (d & k1 & Hk1 & Hd & Ho & Hc & Hl & Hs).
  destruct (mq_getattr_law d name k1 q Ho) as (k2 & Hk2 & Hc2 & Hl2 & Ho2 & Hs2); [by rewrite Hc|].
  rewrite Hl in Hk2. destruct (mq_receive_law d name (mq_msgsize (limits k name)) k2 q) as (q1 & m & q2 & k3 & Hk3 & Heq & H1 & H2 & Hc3 & _ & Hl3 & Hs3);
    [by rewrite Ho2|by rewrite Hc2, Hc|done|by rewrite Hl2, Hl|].
  destruct m as [text prio]. destruct (write_run text k3 0 (announced (text, prio))) as (k4 & Hk4 & Hs4 & Hc4 & Hl4).
  destruct (write_run [NL] k4 0 (announced (text, prio))) as (k5 & Hk5 & Hs5 & Hc5 & Hl5).
  exists q1, (text, prio), q2, 0, k5. split_and!; try done.
  - unfold receive_one, receive_main. cbn [nonblock_options]. erewrite bind_Ret by reflexivity.
    erewrite bind_Ret by (unfold syscall; cbn [kern]; rewrite Hk1; reflexivity). rewrite (proj2 (Z.eqb_neq d _)) by lia.
    erewrite bind_Ret by (unfold attempt, syscall; cbn [kern]; rewrite Hk2; reflexivity). cbv iota beta. rewrite Hm, Hu. cbn [negb].
    erewrite bind_Ret by (unfold attempt, syscall; cbn [kern]; rewrite Hk3; reflexivity). cbv iota beta.
    erewrite bind_Ret by reflexivity. rewrite (bind_Ret _ _ _ _ _ Hk4).
    rewrite (proj2 (Z.eqb_neq (strlen text) _)) by (pose proof (strlen_nonneg text); lia). erewrite bind_Ret by reflexivity.
    by rewrite (bind_Ret _ _ _ _ _ Hk5).
  - congruence.
  - congruence.
  - rewrite Hs5, Hs4, Hs3, Hs2, Hs, <- app_assoc. done.
Qed.

Lemma sends_spec name msgs : forall k q, contents k name = Some q -> Z.of_nat (length (q ++ msgs)) <= mq_maxmsg (limits k name) ->
  Forall (sendable (limits k name)) msgs ->
  exists k', run_all (send_one name <$> msgs) k = (replicate (length msgs) (Exit 0, []), k') /\ contents k' name = Some (q ++ msgs) /\
    limits k' = limits k /\ screen k' = screen k.
Proof.
  induction msgs as [|m msgs IH]; intros k q Hq Hroom Hok; [exists k; by rewrite app_nil_r|].
  apply Forall_cons in Hok as [Hm Hok]. rewrite length_app in Hroom. cbn [length] in Hroom.
  destruct (send_one_spec name m k q Hq) as (e & k1 & Hrun & Hq1 & Hl1 & Hs1); [lia|done|].
  destruct (IH k1 (q ++ [m]) Hq1) as (k' & Hall & Hq' & Hl' & Hs').
  { rewrite !length_app, Hl1. cbn. lia. } { by rewrite Hl1. }
  exists k'. rewrite <- app_assoc in Hq'. split_and!; [|done|congruence..].
  cbn [fmap list_fmap run_all]. rewrite Hrun. cbn [kern trace]. by rewrite Hall.
Qed.

Lemma receives_spec name n : forall k q, (forall n, malloc_ok n = true) -> contents k name = Some q -> length q = n ->
  0 <= mq_msgsize (limits k name) <= INT_MAX ->
  exists out k', run_all (replicate n (receive_one name)) k = ((fun m => (Exit 0, announced m)) <$> out, k') /\ urgent_first q out /\
    contents k' name = Some [] /\ screen k' = screen k ++ concat (shown <$> out).
Proof.
  induction n as [|n IH]; intros k q Hm Hq Hn Hsize.
  { destruct q; [|done]. exists [], k. rewrite app_nil_r. split_and!; try done. apply urgent_first_nil. }
  destruct (receive_one_spec name k q Hm Hq) as (q1 & m & q2 & e & k1 & -> & H1 & H2 & Hrun & Hq1 & Hl1 & Hs1); [by destruct q|done|].
  destruct (IH k1 (q1 ++ q2) Hm Hq1) as (out & k' & Hall & Hu & Hq' & Hs'); [rewrite length_app in *; cbn in Hn; lia|by rewrite Hl1|].
  exists (m :: out), k'. split_and!; try done.
  - cbn [replicate run_all]. rewrite Hrun. cbn [kern trace]. by rewrite Hall.
  - by apply urgent_first_cons.
  - rewrite Hs', Hs1. cbn. by rewrite <- app_assoc.
Qed.

(** C24: the life of a message queue.  pmsg_create with -c, -m and -s and a name that no queue has either reports that the queue
    cannot be created, and none is, or ends with status 0; then any messages that the queue has room for, sent by as many runs of
    pmsg_send, all arrive: as many runs of pmsg_receive all end with status 0 and print and write them with their lengths and
    priorities, those of higher priority first and those of one priority in the order they were sent, and the queue is empty. *)
Theorem pmsg_by_priority prog name maxmsg msgsize p : (forall n, malloc_ok n = true) -> contents (kern p) name = None ->
  INT_MIN <= maxmsg <= INT_MAX -> INT_MIN <= msgsize <= INT_MAX ->
  exists o q, create_main prog [Opt "c" []; Opt "m" (dec maxmsg); Opt "s" (dec msgsize)] [name] p = (o, q) /\
    (stopped o /\ contents (kern q) = contents (kern p) \/
     o = Exit 0 /\ trace q = trace p /\ forall msgs, Z.of_nat (length msgs) <= maxmsg -> Forall (sendable (Attr maxmsg msgsize)) msgs ->
       exists k1 k2 out, run_all (send_one name <$> msgs) (kern q) = (replicate (length msgs) (Exit 0, []), k1) /\
         run_all (replicate (length msgs) (receive_one name)) k1 = ((fun m => (Exit 0, announced m)) <$> out, k2) /\
         urgent_first msgs out /\ contents k2 name = Some [] /\ screen k2 = screen (kern p) ++ concat (shown <$> out)).
Proof.
  intros Hm Hnew Hmax Hsize. unfold create_main. cbn [create_options Ascii.eqb Bool.eqb mq_maxmsg mq_msgsize].
  assert (forall z, INT_MIN <= z <= INT_MAX -> atoi (dec z) = z) as Hatoi by (intros z Hz; rewrite <- (app_nil_r (dec z)); by apply atoi_dec).
  rewrite !Hatoi by done. erewrite bind_Ret by reflexivity. cbv beta iota. erewrite bind_Ret by reflexivity.
  pose proof (mq_open_new name (Z.lor O_RDWR O_CREAT) (Z.lor S_IRUSR S_IWUSR) (Some (Attr maxmsg msgsize)) (kern p) Hnew eq_refl) as Hopen.
  destruct (k_mq_open _ _ _ _ (kern p)) as [[d|e] k'] eqn:Hk.
  - destruct Hopen as (Hd & Hc & _ & Hl & Hs). destruct (Hl _ eq_refl) as (Hlim & _ & Hpos). cbn in Hpos.
    exists (Exit 0), (Proc k' (errno p) (trace p)). split.
    { erewrite bind_Ret by (unfold syscall; rewrite Hk; reflexivity). by rewrite (proj2 (Z.eqb_neq d _)) by lia. }
    right. split_and!; [done..|]. intros msgs Hlen Hok. cbn [kern].
    destruct (sends_spec name msgs k' [] Hc) as (k1 & Hsend & Hc1 & Hl1 & Hs1); [by rewrite Hlim|by rewrite Hlim|].
    destruct (receives_spec name (length msgs) k1 msgs Hm Hc1 eq_refl) as (out & k2 & Hrecv & Hu & Hc2 & Hs2); [rewrite Hl1, Hlim; cbn; lia|].
    exists k1, k2, out. split_and!; try done. by rewrite Hs2, Hs1, Hs.
  - destruct Hopen as [Hc _]. erewrite bind_Ret by (unfold syscall; rewrite Hk; reflexivity). cbn [Z.eqb Pos.eqb].
    destruct (wp_elim _ _ _ (wp_errExit (A := unit) (str "mq_open") (Proc k' e (trace p)) (fun o q => stopped o /\ kern q = k') ltac:(by intros)))
      as (o & q & Hrun & Ho & Hq). exists o, q. split; [done|]. left. by rewrite Hq.
Qed.
End Correct.

(** ** A simulated kernel *)

Record sim := Sim { s_queues : gmap bytes (list (bytes * Z)); s_limits : gmap bytes mq_attr; s_fds : list bytes; s_screen : bytes }.

Definition default_attr : mq_attr := Attr 10 8192.
Definition EEXIST : Z := 17.
Definition EMSGSIZE : Z := 90.

Definition sim_open (name : bytes) (flags mode : Z) (attr : option mq_attr) (k : sim) : (Z + Z) * sim :=
  let d := Z.of_nat (length (s_fds k)) in
  match s_queues k !! name with
  | Some _ => if has flags O_EXCL then (inr EEXIST, k) else (inl d, Sim (s_queues k) (s_limits k) (s_fds k ++ [name]) (s_screen k))
  | None =>
      let a := default default_attr attr in
      if negb (has flags O_CREAT) then (inr ENOENT, k)
      else if (mq_maxmsg a <? 1) || (mq_msgsize a <? 1) then (inr EINVAL, k)
      else (inl d, Sim (<[name := []]> (s_queues k)) (<[name := a]> (s_limits k)) (s_fds k ++ [name]) (s_screen k))
  end.

(** The queue of a descriptor. *)
Definition sim_queue (d : Z) (k : sim) : option (bytes * list (bytes * Z)) :=
  name ← (if d <? 0 then None else s_fds k !! Z.to_nat d); q ← s_queues k !! name; Some (name, q).

Definition sim_limits (k : sim) (name : bytes) : mq_attr := default default_attr (s_limits k !! name).
Definition with_queue (name : bytes) (q : list (bytes * Z)) (k : sim) : sim := Sim (<[name := q]> (s_queues k)) (s_limits k) (s_fds k) (s_screen k).

Definition sim_send (d : Z) (text : bytes) (prio : Z) (k : sim) : (Z + Z) * sim :=
  match sim_queue d k with
  | None => (inr EBADF, k)
  | Some (name, q) =>
      if MQ_PRIO_MAX <=? prio then (inr EINVAL, k)
      else if mq_msgsize (sim_limits k name) <? strlen text then (inr EMSGSIZE, k)
      else if mq_maxmsg (sim_limits k name) <=? Z.of_nat (length q) then (inr EAGAIN, k)
      else (inl 0, with_queue name (q ++ [(text, prio)]) k)
  end.

(** The most urgent message, with those before and those behind it. *)
Fixpoint urgent (q : list (bytes * Z)) : option (list (bytes * Z) * (bytes * Z) * list (bytes * Z)) :=
  match q with
  | [] => None
  | m :: q' =>
      match urgent q' with
      | None => Some ([], m, [])
      | Some (q1, m', q2) => if m'.2 <=? m.2 then Some ([], m, q') else Some (m :: q1, m', q2)
      end
  end.

Definition sim_receive (d size : Z) (k : sim) : ((bytes * Z) + Z) * sim :=
  match sim_queue d k with
  | None => (inr EBADF, k)
  | Some (name, q) =>
      if size <? mq_msgsize (sim_limits k name) then (inr EMSGSIZE, k)
      else match urgent q with
           | None => (inr EAGAIN, k)
           | Some (q1, m, q2) => (inl m, with_queue name (q1 ++ q2) k)
           end
  end.

#[export] Instance sim_files : FileIO sim := {|
  k_open _ _ _ k := (inr ENOENT, k);
  k_close _ k := (inl 0, k);
  k_read _ _ k := (inr EBADF, k);
  k_write fd data k := if fd =? STDOUT_FILENO then (inl (strlen data), Sim (s_queues k) (s_limits k) (s_fds k) (s_screen k ++ data)) else (inr EBADF, k);
  k_lseek _ _ _ k := (inr EINVAL, k)
|}.

#[export] Instance sim_mq : MqCalls sim := {|
  k_mq_open := sim_open;
  k_mq_getattr d k := match sim_queue d k with Some (name, _) => (inl (sim_limits k name), k) | None => (inr EBADF, k) end;
  k_mq_send := sim_send;
  k_mq_receive := sim_receive
|}.

Lemma urgent_spec q : q <> [] -> exists q1 m q2, urgent q = Some (q1, m, q2) /\ q = q1 ++ m :: q2 /\
  Forall (fun x => x.2 < m.2) q1 /\ Forall (fun x => x.2 <= m.2) q2.
Proof.
  induction q as [|m q IH]; intros Hne; [done|]. destruct q as [|m1 q].
  { exists [], m, []. split_and!; constructor || done. }
  destruct IH as (q1 & m' & q2 & Hu & Heq & H1 & H2); [done|]. cbn [urgent] in *. rewrite Hu. destruct (m'.2 <=? m.2) eqn:E; z_bool.
  - exists [], m, (m1 :: q). split_and!; try done. rewrite Heq. apply Forall_app. split; [|constructor; [done|]].
    + eapply Forall_impl; [exact H1|]. cbn. lia.
    + eapply Forall_impl; [exact H2|]. cbn. lia.
  - exists (m :: q1), m', q2. split_and!; [done|by rewrite Heq|by constructor|done].
Qed.

Definition sim_opened (k : sim) (d : Z) : option bytes := if d <? 0 then None else s_fds k !! Z.to_nat d.

Lemma sim_queue_opened d name q k : sim_opened k d = Some name -> s_queues k !! name = Some q -> sim_queue d k = Some (name, q).
Proof. unfold sim_opened, sim_queue. intros Hd Hq. destruct (d <? 0); [done|]. rewrite Hd. cbn. by rewrite Hq. Qed.

Lemma sim_opened_new (fds : list bytes) name : (if Z.of_nat (length fds) <? 0 then None else (fds ++ [name]) !! Z.to_nat (Z.of_nat (length fds))) = Some name.
Proof. rewrite (proj2 (Z.ltb_ge _ _)) by lia. by rewrite Nat2Z.id, list_lookup_middle. Qed.

#[export] Program Instance sim_mq_laws : MqLaws sim := {|
  contents k name := s_queues k !! name; limits := sim_limits; opened := sim_opened; screen := s_screen
|}.
Next Obligation.
  intros name flags mode attr k q Hq Hx. cbn. unfold sim_open. rewrite Hq, Hx. do 2 eexists. split_and!; try done; [lia|].
  apply sim_opened_new.
Qed.
Next Obligation.
  intros name flags mode attr k Hq Hc. cbn. unfold sim_open. rewrite Hq, Hc. cbn [negb]. destruct (_ || _) eqn:Hb; [done|].
  apply orb_false_iff in Hb as [H1%Z.ltb_ge H2%Z.ltb_ge]. cbn. split_and!; [lia|by rewrite lookup_insert_eq| | |done].
  - intros name' Hne. by rewrite lookup_insert_ne.
  - intros a ->. cbn in *. unfold sim_limits. cbn. rewrite lookup_insert_eq. cbn. split_and!; [done|lia..].
Qed.
Next Obligation. intros d name k q Hd Hq. cbn. rewrite (sim_queue_opened _ _ _ _ Hd Hq). by eexists. Qed.
Next Obligation.
  intros d name text prio k q Hd Hq Hroom Hlen Hprio. cbn. unfold sim_send. rewrite (sim_queue_opened _ _ _ _ Hd Hq).
  rewrite (proj2 (Z.leb_gt MQ_PRIO_MAX _)), (proj2 (Z.ltb_ge (mq_msgsize _) _)), (proj2 (Z.leb_gt (mq_maxmsg _) _)) by (done || lia).
  do 2 eexists. split_and!; try done; cbn; [by rewrite lookup_insert_eq|]. intros name' Hne. by rewrite lookup_insert_ne.
Qed.
Next Obligation.
  intros d name size k q Hd Hq Hne Hsize. cbn. unfold sim_receive. rewrite (sim_queue_opened _ _ _ _ Hd Hq).
  rewrite (proj2 (Z.ltb_ge _ _)) by done. destruct (urgent_spec q Hne) as (q1 & m & q2 & -> & Heq & H1 & H2).
  exists q1, m, q2. eexists. split_and!; try done; cbn; [by rewrite lookup_insert_eq|]. intros name' Hn. by rewrite lookup_insert_ne.
Qed.
Next Obligation. intros data k. by eexists. Qed.

Section Runs.
Local Instance no_messages : Messages := {| ename _ := []; MAX_ENAME := 133; strerror _ := []; EF_DUMPCORE := None |}.

Lemma pmsg_by_priority_witness : exists q, create_main (str "pmsg_create") [Opt "c" []; Opt "m" (dec 5); Opt "s" (dec 100)] [str "/mq"] (Proc (Sim ∅ ∅ [] []) 0 []) = (Exit 0, q) /\
  let msgs := [(str "msg-a", 5); (str "msg-b", 0); (str "msg-c", 10)] in
  exists k1 k2 out, run_all (send_one (str "/mq") <$> msgs) (kern q) = (replicate 3 (Exit 0, []), k1) /\
    run_all (replicate 3 (receive_one (fun _ => true) (str "/mq"))) k1 = ((fun m => (Exit 0, announced m)) <$> out, k2) /\ urgent_first msgs out.
Proof.
  destruct (pmsg_by_priority (fun _ => true) (str "pmsg_create") (str "/mq") 5 100 (Proc (Sim ∅ ∅ [] []) 0 [])) as (o & q & Hrun & Hq);
    [done|done|by_decide|by_decide|].
  assert ((create_main (str "pmsg_create") [Opt "c" []; Opt "m" (dec 5); Opt "s" (dec 100)] [str "/mq"] (Proc (Sim ∅ ∅ [] []) 0 [])).1 = Exit 0) as E by (vm_compute; reflexivity).
  rewrite Hrun in E. cbn [fst] in E. subst o. exists q. split; [exact Hrun|].
  destruct Hq as [[[?|?] _]|(_ & _ & Hq)]; [done|done|].
  destruct (Hq [(str "msg-a", 5); (str "msg-b", 0); (str "msg-c", 10)]) as (k1 & k2 & out & H1 & H2 & H3 & _); [by_decide| |by exists k1, k2, out].
  repeat constructor; by_decide.
Defined.
End Runs.
