(* ===== verification/IpcCreate.v ===== *)
(** * Creating System V objects from the command line

    svmsg_create.c (tlpi-dist/svmsg), svshm_create.c (tlpi-dist/svshm) and svsem_create.c
    (tlpi-dist/svsem), which share their options: a message queue, a segment or a set of semaphores is
    asked for by a key, from a path, a number or IPC_PRIVATE.  getopt is a parameter: the options it
    delivers and the operands it leaves. *)

From Stdlib Require Import ZArith Lia String Ascii.
From S2P Require Import Prelude CString Kernel GetNum ErrorFns.
From S2P Require Tail.
Import Tail (opt, Opt, BadOpt).

Definition IPC_PRIVATE : Z := 0.
Definition IPC_CREAT : Z := 512.
Definition IPC_EXCL : Z := 1024.
Definition S_IRUSR : Z := 256.
Definition S_IWUSR : Z := 128.

Class IpcCalls (K : Type) := {
  k_ftok : bytes -> Z -> K -> (Z + Z) * K;
  k_msgget : Z -> Z -> K -> (Z + Z) * K;           (* key, flags *)
  k_shmget : Z -> Z -> Z -> K -> (Z + Z) * K;      (* key, size, flags *)
  k_semget : Z -> Z -> Z -> K -> (Z + Z) * K       (* key, number, flags *)
}.

Section Programs.
Context `{!Messages} {K : Type} `{!IpcCalls K}.

(** [operands_text] is what the usage line has after the options. *)
Definition usageError {A} (operands_text progName : bytes) (msg : option bytes) : M (proc K) A :=
  match msg with Some m => eprintf m | None => mret tt end ;;
  eprintf (str "Usage: " ++ progName ++ str " [-cx] {-f pathname | -k key | -p} " ++ operands_text ++ [NL]) ;;
  eprintf (str "    -c           Use IPC_CREAT flag" ++ [NL]) ;;
  eprintf (str "    -x           Use IPC_EXCL flag" ++ [NL]) ;;
  eprintf (str "    -f pathname  Generate key using ftok()" ++ [NL]) ;;
  eprintf (str "    -k key       Use 'key' as key" ++ [NL]) ;;
  eprintf (str "    -p           Use IPC_PRIVATE key" ++ [NL]) ;;
  exit_ EXIT_FAILURE.

(** [sscanf(s, "%li", ...)]: a number of any base at the start of [s], whatever follows. *)
Definition scan_li (s : bytes) : option Z :=
  let r := strtol s 0 in if (st_end r =? 0)%nat then None else Some (st_value r).

(** What the options leave: [numKeyFlags], [flags] and [key], which is not initialised. *)
Record choice := Choice { numKeyFlags : Z; flags : Z; key : option Z }.

Definition with_flag (c : choice) (f : Z) : choice := Choice (numKeyFlags c) (Z.lor (flags c) f) (key c).
Definition with_key (c : choice) (k : Z) : choice := Choice (numKeyFlags c + 1) (flags c) (Some k).

Fixpoint key_options (bad : M (proc K) choice) (opts : list opt) (c : choice) : M (proc K) choice :=
  match opts with
  | [] => mret c
  | Opt o optarg :: opts' =>
      if Ascii.eqb o "c" then key_options bad opts' (with_flag c IPC_CREAT)
      else if Ascii.eqb o "f" then
        key ← syscall (-1) (k_ftok optarg 1);
        if key =? -1 then errExit (str "ftok") else key_options bad opts' (with_key c key)
      else if Ascii.eqb o "k" then
        match scan_li optarg with
        | None => cmdLineErr (str "-k option requires a numeric argument" ++ [NL])
        | Some lkey => key_options bad opts' (with_key c (s32 lkey))
        end
      else if Ascii.eqb o "p" then key_options bad opts' (with_key c IPC_PRIVATE)
      else if Ascii.eqb o "x" then key_options bad opts' (with_flag c IPC_EXCL)
      else bad
  | BadOpt _ :: _ => bad
  end.

Definition one_key_only : bytes := str "Exactly one of the options -f, -k, or -p must be supplied" ++ [NL].

Definition octal_perms (operands : list bytes) : M (proc K) Z :=
  match operands with
  | [] => mret (Z.lor S_IRUSR S_IWUSR)
  | a :: _ => n ← getInt (Some a) GN_BASE_8 (Some (str "octal-perms")); mret (u32 n)
  end.

(** The identifier a call delivered. *)
Definition show_id (call : string) (id : Z) : M (proc K) unit :=
  if id =? -1 then errExit (str call) else printf (dec id ++ [NL]) ;; exit_ EXIT_SUCCESS.

Definition svmsg_create_main (progName : bytes) (opts : list opt) (operands : list bytes) : M (proc K) unit :=
  let usage := str "[octal-perms]" in
  c ← key_options (usageError usage progName (Some (str "Bad option" ++ [NL]))) opts (Choice 0 0 None);
  (if negb (numKeyFlags c =? 1) then usageError usage progName (Some one_key_only) else mret tt) ;;
  perms ← octal_perms operands;
  key ← the (key c);
  msqid ← syscall (-1) (k_msgget key (Z.lor (flags c) perms));
  show_id "msgget" msqid.

Definition svshm_create_main (progName : bytes) (opts : list opt) (operands : list bytes) : M (proc K) unit :=
  let usage := str "seg-size [octal-perms]" in
  c ← key_options (usageError usage progName None) opts (Choice 0 0 None);
  (if negb (numKeyFlags c =? 1) then usageError usage progName (Some one_key_only) else mret tt) ;;
  match operands with
  | [] => usageError usage progName (Some (str "Size of segment must be specified" ++ [NL]))
  | a :: operands' =>
      segSize ← getLong (Some a) GN_ANY_BASE (Some (str "seg-size"));
      perms ← octal_perms operands';
      key ← the (key c);
      shmid ← syscall (-1) (k_shmget key (u64 (s32 segSize)) (Z.lor (flags c) perms));
      show_id "shmget" shmid
  end.

Definition svsem_create_main (progName : bytes) (opts : list opt) (operands : list bytes) : M (proc K) unit :=
  let usage := str "num-sems [octal-perms]" in
  c ← key_options (usageError usage progName None) opts (Choice 0 0 None);
  (if negb (numKeyFlags c =? 1) then usageError usage progName (Some one_key_only) else mret tt) ;;
  match operands with
  | [] => usageError usage progName (Some (str "Must specify number of semaphores" ++ [NL]))
  | a :: operands' =>
      numSems ← getInt (Some a) 0 (Some (str "num-sems"));
      perms ← octal_perms operands';
      key ← the (key c);
      semid ← syscall (-1) (k_semget key numSems (Z.lor (flags c) perms));
      show_id "semget" semid
  end.
End Programs.

(** ** The key *)

(** [ftok] looks at the file and changes nothing; a key is not -1, which is its failure. *)
Class FtokLaws (K : Type) `{!IpcCalls K} := {
  ftok_pure : forall path id k, match k_ftok path id k with (inl key, k') => key <> -1 /\ k' = k | (inr _, k') => k' = k end
}.

(** An option that asks for a key: the key, or nothing when there is none. *)
Definition key_of {K} `{!IpcCalls K} (k : K) (o : opt) : option (option Z) :=
  match o with
  | Opt c optarg =>
      if Ascii.eqb c "f" then Some (match k_ftok optarg 1 k with (inl key, _) => Some key | _ => None end)
      else if Ascii.eqb c "k" then Some (s32 <$> scan_li optarg)
      else if Ascii.eqb c "p" then Some (Some IPC_PRIVATE) else None
  | BadOpt _ => None
  end.

Definition known (o : opt) : bool := match o with Opt c _ => bool_decide (c ∈ str "cfkpx") | BadOpt _ => false end.

(** The flags the other options ask for. *)
Definition flag_of (o : opt) : Z :=
  match o with Opt c _ => if Ascii.eqb c "c" then IPC_CREAT else if Ascii.eqb c "x" then IPC_EXCL else 0 | BadOpt _ => 0 end.
Definition flags_of (opts : list opt) : Z := foldr (fun o f => Z.lor (flag_of o) f) 0 opts.

Section Correct.
Context `{!Messages} {K : Type} `{!IpcCalls K, !FtokLaws K}.
Implicit Types (p q : proc K).

(** The options that ask for a key, in their order. *)
Definition keys (k : K) (opts : list opt) : list (option Z) := omap (key_of k) opts.

(** The run ends in failure, the kernel as it was. *)
Definition refused (p : proc K) {A} (o : outcome A) (q : proc K) : Prop := stopped o /\ kern q = kern p.

Lemma usageError_refused {A} u prog msg p : wp (usageError (A := A) u prog msg) p (refused p).
Proof.
  unfold usageError. apply wp_bind. destruct msg as [m|]; [apply wp_eprintf|apply wp_ret];
    repeat (apply wp_bind, wp_eprintf); unfold wp; cbn; (split; [by left|done]).
Qed.

Definition well_chosen (k : K) (opts : list opt) (ks : list Z) : Prop := forallb known opts = true /\ keys k opts = Some <$> ks.

Lemma key_options_spec bad opts : forall c p, (forall q, wp bad q (refused q)) ->
  wp (key_options bad opts c) p (fun o q =>
    refused p o q /\ (forall ks, ~ well_chosen (kern p) opts ks) \/
    exists ks, well_chosen (kern p) opts ks /\ kern q = kern p /\ trace q = trace p /\
      o = Ret (Choice (numKeyFlags c + Z.of_nat (length ks)) (Z.lor (flags c) (flags_of opts)) (last ks ∪ key c))).
Proof.
  unfold well_chosen. induction opts as [|o opts IH]; intros c p Hbad.
  { apply wp_ret. right. exists []. split_and!; try done. f_equal. destruct c as [n f k]. cbn. rewrite Z.add_0_r, Z.lor_0_r. by destruct k. }
  assert (forall c' ks0, known o = true -> omap (key_of (kern p)) [o] = Some <$> ks0 ->
    numKeyFlags c' = numKeyFlags c + Z.of_nat (length ks0) -> flags c' = Z.lor (flags c) (flag_of o) -> key c' = last ks0 ∪ key c -> (length ks0 <= 1)%nat ->
    forall e, wp (key_options bad opts c') (Proc (kern p) e (trace p)) (fun o' q =>
      refused p o' q /\ (forall ks, ~ (forallb known (o :: opts) = true /\ keys (kern p) (o :: opts) = Some <$> ks)) \/
      exists ks, (forallb known (o :: opts) = true /\ keys (kern p) (o :: opts) = Some <$> ks) /\ kern q = kern p /\ trace q = trace p /\
      o' = Ret (Choice (numKeyFlags c + Z.of_nat (length ks)) (Z.lor (flags c) (flags_of (o :: opts))) (last ks ∪ key c)))) as Hgo.
  { intros c' ks0 Hkn Hks Hn Hf Hk Hlen e. assert (keys (kern p) (o :: opts) = (Some <$> ks0) ++ keys (kern p) opts) as Hkeys.
    { unfold keys. change (o :: opts) with ([o] ++ opts). by rewrite omap_app, Hks. }
    rewrite Hkeys. cbn [forallb]. rewrite Hkn. cbn [andb]. eapply wp_mono; [apply (IH c' (Proc (kern p) e (trace p)) Hbad)|].
    intros o' q [[Hr Hno]|(ks & [Hall Hks'] & Hkq & Ht & ->)]; [left|right].
    - split; [done|]. intros ks [Hall Hks']. apply (Hno (drop (length ks0) ks)). split; [done|]. cbn [kern].
      rewrite fmap_drop, <- Hks', drop_app_length'; [done|]. by rewrite length_fmap.
    - exists (ks0 ++ ks). split_and!; try done; [by rewrite fmap_app, <- Hks'|].
      rewrite Hn, Hf, Hk, length_app, Nat2Z.inj_add, Z.add_assoc, <- Z.lor_assoc. do 2 f_equal.
      destruct ks0 as [|k0 [|]]; [cbn; by destruct (last ks), (key c)| |cbn in Hlen; lia].
      cbn [Datatypes.app]. rewrite (last_cons k0 ks). by destruct (last ks), (key c). }
  destruct o as [ch optarg|z]; [|cbn [key_options]; eapply wp_mono; [apply Hbad|]; intros o q Hr; left; split; [done|]; by intros ks [? _]].
  cbn [key_options]. destruct (Ascii.eqb_spec ch "c") as [->|Hc].
  { destruct p as [k e t]. apply (fun A B C D E F => Hgo (with_flag c IPC_CREAT) [] A B C D E F e); try done; cbn; [lia|by destruct (key c)|lia]. }
  destruct (Ascii.eqb_spec ch "f") as [->|Hf].
  { apply wp_bind, wp_syscall. pose proof (ftok_pure optarg 1 (kern p)) as Hft. destruct (k_ftok optarg 1 (kern p)) as [[fk|e] k'] eqn:Hk.
    - destruct Hft as [Hne ->]. rewrite (proj2 (Z.eqb_neq _ _)) by done.
      apply (fun A B C D E F => Hgo (with_key c fk) [fk] A B C D E F (errno p)); try done; cbn; [by rewrite Hk|by rewrite Z.lor_0_r|by destruct (key c)].
    - cbn [Z.eqb Pos.eqb]. apply wp_errExit. intros o e' Ho. left. split; [by split|]. intros [|ks0 ks] [_ Hks]; cbn in Hks; by rewrite Hk in Hks. }
  destruct (Ascii.eqb_spec ch "k") as [->|Hk].
  { destruct (scan_li optarg) as [lkey|] eqn:E.
    - destruct p as [k e t]. apply (fun A B C D E' F => Hgo (with_key c (s32 lkey)) [s32 lkey] A B C D E' F e); try done; cbn; [by rewrite E|by rewrite Z.lor_0_r|by destruct (key c)].
    - unfold cmdLineErr. apply wp_bind, wp_eprintf. left. split; [split; [by left|done]|]. intros [|ks0 ks] [_ Hks]; cbn in Hks; by rewrite E in Hks. }
  destruct (Ascii.eqb_spec ch "p") as [->|Hp].
  { destruct p as [k e t]. apply (fun A B C D E F => Hgo (with_key c IPC_PRIVATE) [IPC_PRIVATE] A B C D E F e); try done; cbn; [by rewrite Z.lor_0_r|by destruct (key c)]. }
  destruct (Ascii.eqb_spec ch "x") as [->|Hx].
  { destruct p as [k e t]. apply (fun A B C D E F => Hgo (with_flag c IPC_EXCL) [] A B C D E F e); try done; cbn; [lia|by destruct (key c)|lia]. }
  eapply wp_mono; [apply Hbad|]. intros o q Hr. left. split; [done|]. intros ks [Hkn _]. cbn [forallb known] in Hkn.
  rewrite bool_decide_eq_false_2 in Hkn; [done|]. cbn. rewrite !elem_of_cons, elem_of_nil. naive_solver.
Qed.

(** The program [m] asks for an object by [get], once, when the options are right and one of them is for a key: it prints
    the identifier, or reports the failure.  With any other options it asks for nothing. *)
Definition asks (opts : list opt) (get : Z -> Z -> K -> (Z + Z) * K) (m : M (proc K) unit) (p : proc K) : Prop :=
  exists o q, m p = (o, q) /\
    (refused p o q /\ (forall key, ~ well_chosen (kern p) opts [key]) \/
     exists key, well_chosen (kern p) opts [key] /\
       match get key (Z.lor (flags_of opts) (Z.lor S_IRUSR S_IWUSR)) (kern p) with
       | (inl id, k') => id <> -1 -> o = Exit 0 /\ kern q = k' /\ trace q = trace p ++ [Out (dec id ++ [NL])]
       | (inr _, k') => stopped o /\ kern q = k'
       end).

Lemma asks_one opts get call bad usage rest p : (forall q, wp bad q (refused q)) -> (forall q, wp usage q (refused (A := unit) q)) ->
  (forall k f e, exists e', rest (Choice 1 f (Some k)) (Proc (kern p) e (trace p)) =
     (r ← syscall (-1) (get k (Z.lor f (Z.lor S_IRUSR S_IWUSR))); show_id call r) (Proc (kern p) e' (trace p))) ->
  asks opts get (c ← key_options bad opts (Choice 0 0 None); (if negb (numKeyFlags c =? 1) then usage else mret tt) ;; rest c) p.
Proof.
  intros Hbad Husage Hrest. apply wp_elim. apply wp_bind. eapply wp_mono; [by apply key_options_spec|].
  intros o [k e t] [[[Ho Hk] Hno]|(ks & Hks & Hk & Ht & ->)].
  { cbn in Hk. destruct o as [c| | | | ]; try (by destruct Ho); left; (split; [split; [by destruct Ho as [[= ->]|]; (left + right)|done]|auto]). }
  cbn [kern trace] in *. subst k t. cbn [numKeyFlags flags key]. destruct (decide (length ks = 1%nat)) as [H1|H1].
  - destruct ks as [|k [|]]; [done| |done]. cbn [length numKeyFlags]. apply wp_bind, wp_ret. cbn [last].
    destruct (Hrest k (flags_of opts) e) as (e' & Hr). cut (wp (rest (Choice 1 (flags_of opts) (Some k))) (Proc (kern p) e (trace p)) (fun o q => refused p o q /\ (forall key, ~ well_chosen (kern p) opts [key]) \/
      exists key, well_chosen (kern p) opts [key] /\ match get key (Z.lor (flags_of opts) (Z.lor S_IRUSR S_IWUSR)) (kern p) with
       | (inl id, k') => id <> -1 -> o = Exit 0 /\ kern q = k' /\ trace q = trace p ++ [Out (dec id ++ [NL])]
       | (inr _, k') => stopped o /\ kern q = k' end)); [done|]. unfold wp. rewrite Hr.
    right. exists k. split; [done|]. unfold syscall, show_id, mbind, M_bind. cbn [kern].
    destruct (get k _ (kern p)) as [[id|er] k'].
    + intros Hid. by rewrite (proj2 (Z.eqb_neq _ _)).
    + cbn [Z.eqb Pos.eqb]. apply (wp_errExit (A := unit) (str call) (Proc k' er (trace p)) (fun o q => stopped o /\ kern q = k')). by intros.
  - rewrite (proj2 (Z.eqb_neq _ _)) by lia. cbn [negb]. apply wp_bind. eapply wp_mono; [apply Husage|].
    intros o q [Ho Hq]. cbn in Hq. assert (forall k, ~ well_chosen (kern p) opts [k]) as Hno.
    { intros k [_ Hk]. destruct Hks as [_ Hks]. rewrite Hks in Hk. apply (f_equal length) in Hk. by rewrite !length_fmap in Hk. }
    destruct o as [c| | | | ]; try (by destruct Ho); left; (split; [split; [by destruct Ho as [[= ->]|]; (left + right)|done]|done]).
Qed.

(** svmsg_create, svshm_create and svsem_create with the default permissions and, the last two, a numeral for the size or
    the number: when every option is known and just one of them asks for a key that there is, each makes one call with that key,
    the size or number as a C int and the flags of -c and -x with the permissions of reading and writing for the owner, prints the
    identifier and ends with status 0, or reports the failure of the call; with any other options it ends in failure and the kernel
    has been asked for nothing. *)
Theorem create_programs_ask prog opts a n p : c_string a ->
  asks opts k_msgget (svmsg_create_main prog opts []) p /\
  (accepted a 0 n -> INT_MIN <= n <= INT_MAX -> asks opts (fun key => k_semget key n) (svsem_create_main prog opts [a]) p) /\
  (accepted a GN_ANY_BASE n -> asks opts (fun key => k_shmget key (u64 (s32 n))) (svshm_create_main prog opts [a]) p).
Proof.
  intros Ha. split_and!.
  - apply (asks_one opts k_msgget "msgget"); [intros q; apply usageError_refused..|]. intros k f e. exists e.
    cbn [octal_perms key the]. by erewrite bind_Ret by reflexivity.
  - intros Hn Hr. apply (asks_one opts (fun key => k_semget key n) "semget"); [intros q; apply usageError_refused..|]. intros k f e. exists 0.
    destruct (getInt_cases a 0 (Some (str "num-sems")) (Proc (kern p) e (trace p)) Ha) as [(v & [Hv _] & Hrun)|[Hno _]]; [|by destruct (Hno n)].
    assert (v = n) as -> by (destruct Hv, Hn; congruence). by rewrite (bind_Ret _ _ _ _ _ Hrun).
  - intros Hn. apply (asks_one opts (fun key => k_shmget key (u64 (s32 n))) "shmget"); [intros q; apply usageError_refused..|]. intros k f e. exists 0.
    destruct (getNum_cases (str "getLong") a GN_ANY_BASE (Some (str "seg-size")) (Proc (kern p) e (trace p)) Ha) as [(v & Hv & Hrun)|[Hno _]]; [|by destruct (Hno n)].
    assert (v = n) as -> by (destruct Hv, Hn; congruence). unfold getLong. by rewrite (bind_Ret _ _ _ _ _ Hrun).
Qed.
End Correct.

(** ** Two surprises, and a run *)

(** Objects with their keys; the last identifier given. *)
Record sim := Sim { s_keys : list (Z * Z); s_last : Z; s_size : Z }.

Definition sim_get (size key flags : Z) (k : sim) : (Z + Z) * sim :=
  match list_find (fun x => x.1 = key) (s_keys k) with
  | Some (_, x) => if negb (key =? IPC_PRIVATE) then (if has flags IPC_EXCL && has flags IPC_CREAT then (inr 17, k) else (inl x.2, k))
                   else (inl (s_last k + 1), Sim ((key, s_last k + 1) :: s_keys k) (s_last k + 1) size)
  | None => if (key =? IPC_PRIVATE) || has flags IPC_CREAT
            then (inl (s_last k + 1), Sim ((key, s_last k + 1) :: s_keys k) (s_last k + 1) size) else (inr ENOENT, k)
  end.

#[export] Instance sim_ipc : IpcCalls sim := {|
  k_ftok path _ k := (match path with c :: _ => inl (ord c) | [] => inr ENOENT end, k);
  k_msgget := sim_get 0; k_shmget key size := sim_get size key; k_semget key n := sim_get n key
|}.

#[export] Instance sim_ftok : FtokLaws sim.
Proof. constructor. intros [|c path] id k; cbn; [done|]. split; [|done]. pose proof (ord_range c). lia. Qed.

Section Runs.
Local Instance no_messages : Messages := {| ename _ := []; MAX_ENAME := 133; strerror _ := []; EF_DUMPCORE := None |}.
Definition fresh : proc sim := Proc (Sim [] 40 0) 0 [].

(** A key of 2 to the 32 is IPC_PRIVATE, and what follows the digits of a key is ignored. *)
Example key_truncated : s_keys (kern (svmsg_create_main (str "svmsg_create") [Opt "k" (str "4294967296")] [] fresh).2) = [(IPC_PRIVATE, 41)] /\
  s_keys (kern (svmsg_create_main (str "svmsg_create") [Opt "c" []; Opt "k" (str "12 apples")] [] fresh).2) = [(12, 41)].
Proof. split; vm_compute; reflexivity. Qed.

(** A segment of 4 gigabytes and 100 bytes is asked for: one of 100 bytes is created. *)
Example size_truncated : s_size (kern (svshm_create_main (str "svshm_create") [Opt "p" []] [str "4294967396"] fresh).2) = 100.
Proof. vm_compute. reflexivity. Qed.

Lemma create_programs_ask_witness : exists q, svmsg_create_main (str "svmsg_create") [Opt "c" []; Opt "f" (str "/")] [] fresh = (Exit 0, q) /\
  trace q = [Out (str "41" ++ [NL])].
Proof.
  destruct (create_programs_ask (str "svmsg_create") [Opt "c" []; Opt "f" (str "/")] (str "3") 3 fresh) as ((o & q & Hrun & Hq) & _); [by_decide|].
  exists q. destruct Hq as [[_ Hno]|(key & [_ Hkey] & Hq)]; [by destruct (Hno 47)|].
  injection Hkey as <-. destruct Hq as (-> & _ & Ht); [done|]. by split.
Defined.
End Runs.
