(* ===== verification/ProcFs.v ===== *)
(** * Programs over /proc

    proclib.c, proclist.c, pstree.c and sherlock.c (12-system-and-process-information).  The
    kernel's /proc is a class: opening a directory gives the entries [readdir] will deliver,
    opening a file the bytes its reads will deliver (none, for a process that ends in between), and
    either may fail.  A local array that was never written to is [None]; using it is undefined, and
    so is a string too long for its array. *)

From Stdlib Require Import ZArith Lia String Ascii.
From S2P Require Import Prelude CString Kernel Users.

Definition DT_DIR : Z := 4.
Definition DT_LNK : Z := 10.

Class ProcFS (K : Type) := {
  k_opendir : bytes -> K -> (list (Z * bytes) + Z) * K;   (* d_type and d_name *)
  k_fopen : bytes -> K -> (bytes + Z) * K;
  k_readlink : bytes -> Z -> K -> (bytes + Z) * K;
  k_malloc : K -> bool * K                                (* whether malloc gives memory *)
}.

(** ** Strings *)

(** One [fgets] into an array of [n] bytes: the line, and what is left. *)
Fixpoint fgets (n : nat) (s : bytes) : bytes * bytes :=
  match n, s with
  | Datatypes.S n', c :: s' =>
      if Ascii.eqb c NL then ([c], s') else let '(l, r) := fgets n' s' in (c :: l, r)
  | _, _ => ([], s)
  end.

(** What [while (fgets(buf, n, f) != NULL)] sees. *)
Fixpoint fgets_lines (fuel n : nat) (s : bytes) : list bytes :=
  match fuel, s with
  | Datatypes.S fuel', _ :: _ => let '(l, r) := fgets (n - 1) s in l :: fgets_lines fuel' n r
  | _, _ => []
  end.
Definition lines_of (n : nat) (s : bytes) : list bytes := fgets_lines (length s) n s.

(** [strtok] on a string with the delimiter ":": how many delimiters it skips, the token, and what
    the next call continues with. *)
Fixpoint skip_colons (s : bytes) : nat * bytes :=
  match s with
  | c :: s' => if Ascii.eqb c ":" then let '(n, r) := skip_colons s' in (Datatypes.S n, r) else (O, s)
  | [] => (O, [])
  end.

Definition strtok_colon (s : bytes) : option (nat * bytes * bytes) :=
  let '(n, s') := skip_colons s in
  match s' with
  | [] => None
  | _ => let '(tok, r) := span (fun c => negb (Ascii.eqb c ":")) s' in Some (n, tok, drop 1 r)
  end.

Definition strip (s : bytes) : bytes := (span isspace s).2.

(** [trim]: in a string of blanks the first loop goes on to the byte before the string, [before],
    which is outside the array when there is none. *)
Definition trim (before : option ascii) (s : bytes) : option bytes :=
  match strip (rev s) with
  | [] => match before with Some c => if isspace c then None else Some [] | None => None end
  | r => Some (strip (rev r))
  end.

(** The two calls of [strtok] on a line, and [trim] on what they give. *)
Definition key_value {S} (linebuf : bytes) : M S (option (bytes * bytes)) :=
  match strtok_colon linebuf with
  | None => mret None
  | Some (n, key, rest) =>
      match strtok_colon rest with
      | None => mret None
      | Some (n', value, _) =>
          key' ← the (trim (match n with O => None | _ => Some ":"%char end) key);
          value' ← the (trim (Some (match n' with O => NUL | _ => ":"%char end)) value);
          mret (Some (key', value'))
      end
  end.

(** Whether [t] occurs in [s]. *)
Fixpoint strstr (s t : bytes) : bool :=
  (strncmp s t (length t) =? 0) ||
  match s with [] => false | _ :: s' => strstr s' t end.

Definition QUOTE : ascii := ascii_of_nat 34.

Definition is_key (key : bytes) (k : string) : bool := strcmp key (str k) =? 0.

Section Programs.
Context {K : Type} `{!ProcFS K} `{!UserDb}.

Definition opendir (path : bytes) : M (proc K) (option (list (Z * bytes))) :=
  syscall None (fun k => let '(r, k') := k_opendir path k in
    (match r with inl es => inl (Some es) | inr e => inr e end, k')).
Definition fopen (path : bytes) : M (proc K) (option bytes) :=
  syscall None (fun k => let '(r, k') := k_fopen path k in
    (match r with inl c => inl (Some c) | inr e => inr e end, k')).
Definition readlink (path : bytes) (n : Z) : M (proc K) (Z * bytes) :=
  syscall (-1, []) (fun k => let '(r, k') := k_readlink path n k in
    (match r with inl t => inl (strlen t, t) | inr e => inr e end, k')).

(** A string that is written to an array of [n] bytes. *)
Definition fits (n : Z) (s : bytes) : M (proc K) bytes :=
  if strlen s <? n then mret s else undef_.

Definition PROCFS_ROOT : bytes := str "/proc".
Definition dirname_of (d_name : bytes) : M (proc K) bytes := fits 256 (PROCFS_ROOT ++ str "/" ++ d_name).

(** The loop over the lines of a status file: [upd] handles a key and its value. *)
Fixpoint scan_lines {St} (upd : St -> bytes -> bytes -> M (proc K) St) (ls : list bytes) (st : St) : M (proc K) St :=
  match ls with
  | [] => mret st
  | l :: ls' =>
      kv ← key_value l;
      st' ← match kv with Some (key, value) => upd st key value | None => mret st end;
      scan_lines upd ls' st'
  end.

(** *** proclist *)

Record fields := Fields { keepme : bool; procname : option bytes; pid : option bytes; ppid : option bytes }.
Definition no_fields : fields := Fields false None None None.

Definition check_line (uidstr : bytes) (f : fields) (key value : bytes) : M (proc K) fields :=
  let f1 := if is_key key "Uid" && strstr value uidstr then Fields true (procname f) (pid f) (ppid f) else f in
  f2 ← (if is_key key "Name" then v ← fits 256 value; mret (Fields (keepme f1) (Some v) (pid f1) (ppid f1))
        else mret f1);
  if is_key key "Pid" then v ← fits 32 value; mret (Fields (keepme f2) (procname f2) (Some v) (ppid f2))
  else mret f2.

Definition check_dir (dirname : bytes) (uid : Z) : M (proc K) Z :=
  let uidstr := dec (s32 uid) in
  filename ← fits 256 (dirname ++ str "/status");
  p_file ← fopen filename;
  match p_file with
  | None => mret 1
  | Some content =>
      f ← scan_lines (check_line uidstr) (lines_of 256 content) no_fields;
      (if keepme f then
         p ← the (pid f); n ← the (procname f);
         printf (p ++ str ": " ++ n ++ [NL])
       else mret tt) ;;
      mret 0
  end.

Definition list_entry (uid : Z) (entry : Z * bytes) : M (proc K) unit :=
  if (entry.1 =? DT_DIR) || (entry.1 =? DT_LNK) then
    dirname ← dirname_of entry.2; check_dir dirname uid ;; mret tt
  else mret tt.

Definition proclist_main (argv : list bytes) : M (proc K) Z :=
  if negb (Nat.eqb (length argv) 2) then
    prog ← the (argv !! O); printf (str "Usage: " ++ prog ++ str " <username>" ++ [NL]) ;; mret 1
  else
    let uid := user_id_from_name (argv !! 1%nat) in
    if uid =? NO_ID then printf (str "Invalid username specified (not found)" ++ [NL]) ;; mret 1
    else
      dirp ← opendir PROCFS_ROOT;
      match dirp with
      | None => eprintf (str "Unabled to open /proc") ;; mret 1
      | Some entries => for_each (list_entry uid) entries ;; mret 0
      end.

(** *** sherlock *)

Definition proc_line (f : fields) (key value : bytes) : M (proc K) fields :=
  if is_key key "Pid" then v ← fits 32 value; mret (Fields (keepme f) (procname f) (Some v) (ppid f))
  else if is_key key "Name" then v ← fits 256 value; mret (Fields (keepme f) (Some v) (pid f) (ppid f))
  else mret f.

Definition print_proc (dirname : bytes) : M (proc K) Z :=
  filename ← fits 256 (dirname ++ str "/status");
  p_file ← fopen filename;
  match p_file with
  | None => mret 1
  | Some content =>
      f ← scan_lines proc_line (lines_of 256 content) no_fields;
      n ← the (procname f); p ← the (pid f);
      printf (n ++ str " (pid: " ++ p ++ str ")" ++ [NL]) ;; mret 0
  end.

(** The loop over the links of a process; 0 when one of them is [match_]. *)
Fixpoint check_links (dirname match_ : bytes) (entries : list (Z * bytes)) : M (proc K) Z :=
  match entries with
  | [] => mret 1
  | (t, d_name) :: entries' =>
      if t =? DT_LNK then
        linkpath ← fits 256 (dirname ++ str "/fd/" ++ d_name);
        r ← readlink linkpath 1023;
        if (0 <? r.1) && (strcmp r.2 match_ =? 0) then mret 0 else check_links dirname match_ entries'
      else check_links dirname match_ entries'
  end.

Definition check_process (dirname match_ : bytes) : M (proc K) Z :=
  linkpath ← fits 256 (dirname ++ str "/fd");
  dirp ← opendir linkpath;
  match dirp with
  | None => mret 1
  | Some entries => check_links dirname match_ entries
  end.

Definition sherlock_entry (match_ : bytes) (entry : Z * bytes) : M (proc K) unit :=
  if entry.1 =? DT_DIR then
    dirname ← dirname_of entry.2;
    r ← check_process dirname match_;
    if r =? 0 then print_proc dirname ;; mret tt else mret tt
  else mret tt.

Definition sherlock_main (argv : list bytes) : M (proc K) Z :=
  if negb (Nat.eqb (length argv) 2) then
    prog ← the (argv !! O); eprintf (str "Usage: " ++ prog ++ str " <filepath>") ;; mret 1
  else
    m ← the (argv !! 1%nat);
    printf (str "Processes with handles to " ++ [QUOTE] ++ m ++ [QUOTE] ++ str ":" ++ [NL]) ;;
    dirp ← opendir PROCFS_ROOT;
    match dirp with
    | None => eprintf (str "Unabled to open /proc") ;; mret 1
    | Some entries => for_each (sherlock_entry m) entries ;; mret 0
    end.

(** *** pstree

    The nodes, in the order of the list (the head first); a pointer to a node is its position.
    [children] are the pointers before the null pointer that ends the array. *)

Record pstree_node :=
  Node { name : bytes; n_pid : Z; n_ppid : Z; parent : option nat; children : list nat }.

Definition MAX_CHILDREN : Z := 128.

Definition ll_create_and_insert (ll : list pstree_node) (procname : bytes) (pid ppid : Z)
    : M (proc K) (Z * list pstree_node) :=
  ok ← syscall false (fun k => let '(b, k') := k_malloc k in (if b : bool then inl true else inr ENOMEM, k'));
  if negb ok then printf (str "Unable to allocate memory for node" ++ [NL]) ;; mret (1, ll)
  else n ← fits 128 procname; mret (0, Node n pid ppid None [] :: ll).

Definition catalog_line (f : fields) (key value : bytes) : M (proc K) fields :=
  if is_key key "Pid" then v ← fits 32 value; mret (Fields (keepme f) (procname f) (Some v) (ppid f))
  else if is_key key "PPid" then v ← fits 32 value; mret (Fields (keepme f) (procname f) (pid f) (Some v))
  else if is_key key "Name" then v ← fits 256 value; mret (Fields (keepme f) (Some v) (pid f) (ppid f))
  else mret f.

Definition catalog_process (ll : list pstree_node) (dirname : bytes) : M (proc K) (Z * list pstree_node) :=
  filename ← fits 256 (dirname ++ str "/status");
  p_file ← fopen filename;
  match p_file with
  | None => mret (1, ll)
  | Some content =>
      f ← scan_lines catalog_line (lines_of 256 content) no_fields;
      n ← the (procname f); p ← the (pid f); pp ← the (ppid f);
      ll_create_and_insert ll n (atoi p) (atoi pp)
  end.

Fixpoint find_from (i : nat) (ll : list pstree_node) (pid : Z) : option nat :=
  match ll with
  | [] => None
  | node :: ll' => if n_pid node =? pid then Some i else find_from (Datatypes.S i) ll' pid
  end.
Definition find_node_with_pid (ll : list pstree_node) (pid : Z) : option nat := find_from O ll pid.

(** One round of [make_tree]: the child goes where the null pointer was, and the null pointer after
    it; past the end of the array that is undefined. *)
Definition link_node (ll : list pstree_node) (i : nat) : option (list pstree_node) :=
  node ← ll !! i;
  match find_node_with_pid ll (n_ppid node) with
  | None => Some ll
  | Some p =>
      let ll1 := <[i := Node (name node) (n_pid node) (n_ppid node) (Some p) (children node)]> ll in
      pnode ← ll1 !! p;
      let k := length (children pnode) in
      if Z.of_nat k + 1 <? MAX_CHILDREN then
        Some (<[p := Node (name pnode) (n_pid pnode) (n_ppid pnode) (parent pnode) (children pnode ++ [i])]> ll1)
      else None
  end.

Definition make_tree (ll : list pstree_node) : option (list pstree_node) :=
  foldl (fun r i => r ≫= (fun ll => link_node ll i)) (Some ll) (seq 0 (length ll)).

Definition node_line (node : pstree_node) : bytes :=
  name node ++ str " (pid: " ++ dec (n_pid node) ++ str ", ppid: " ++ dec (n_ppid node) ++ str ")" ++ [NL].

Fixpoint print_tree (fuel : nat) (ll : list pstree_node) (root level : nat) : M (proc K) unit :=
  match fuel with
  | O => fun s => (NoFuel, s)
  | Datatypes.S fuel' =>
      for_each (fun _ => printf (str "  ")) (seq 0 level) ;;
      node ← the (ll !! root);
      printf (node_line node) ;;
      for_each (fun child => print_tree fuel' ll child (Datatypes.S level)) (children node)
  end.

Fixpoint catalog_entries (ll : list pstree_node) (entries : list (Z * bytes)) : M (proc K) (list pstree_node) :=
  match entries with
  | [] => mret ll
  | (t, d_name) :: entries' =>
      if t =? DT_DIR then
        dirname ← dirname_of d_name;
        r ← catalog_process ll dirname;
        catalog_entries r.2 entries'
      else catalog_entries ll entries'
  end.

(** The tree, and its printing from the nodes without a parent. *)
Definition print_roots (fuel : nat) (ll : list pstree_node) : M (proc K) unit :=
  for_each (fun i => node ← the (ll !! i);
                     match parent node with None => print_tree fuel ll i 0 | Some _ => mret tt end)
           (seq 0 (length ll)).

Definition show_tree (fuel : nat) (ll : list pstree_node) : M (proc K) unit :=
  ll' ← the (make_tree ll); print_roots fuel ll'.

Definition pstree_main (fuel : nat) : M (proc K) Z :=
  dirp ← opendir PROCFS_ROOT;
  match dirp with
  | None => eprintf (str "Unabled to open /proc") ;; mret 1
  | Some entries => ll ← catalog_entries [] entries; show_tree fuel ll ;; mret 0
  end.
End Programs.

(** ** The tree *)

Section Tree.
Context (nodes : list pstree_node).

Definition parent_of (j : nat) : option nat := node ← nodes !! j; find_node_with_pid nodes (n_ppid node).

(** The children of [i] among the first [k] nodes. *)
Definition kids (k i : nat) : list nat := filter (fun j => parent_of j = Some i) (seq 0 k).

(** The nodes when the first [k] have been linked. *)
Definition linked (k : nat) : list pstree_node :=
  imap (fun j node => Node (name node) (n_pid node) (n_ppid node)
                           (if decide (j < k)%nat then parent_of j else None) (kids k j)) nodes.

Lemma find_from_same i l l' pid : n_pid <$> l = n_pid <$> l' -> find_from i l pid = find_from i l' pid.
Proof.
  revert i l'. induction l as [|x l IH]; intros i [|y l']; try done. simpl. intros [= -> E].
  case_match; [done|by apply IH].
Qed.

Lemma find_from_bound i l pid p : find_from i l pid = Some p -> (i <= p < i + length l)%nat.
Proof.
  revert i. induction l as [|x l IH]; intros i; [done|]. simpl. case_match; [intros [= <-]; lia|].
  intros ?%IH. lia.
Qed.

Lemma parent_of_bound j p : parent_of j = Some p -> (j < length nodes)%nat /\ (p < length nodes)%nat.
Proof.
  unfold parent_of. destruct (nodes !! j) as [node|] eqn:Ej; [|done]. simpl.
  intros ?%find_from_bound. apply lookup_lt_Some in Ej. lia.
Qed.

Lemma linked_length k : length (linked k) = length nodes.
Proof. apply length_imap. Qed.

Lemma linked_lookup k j node :
  nodes !! j = Some node ->
  linked k !! j = Some (Node (name node) (n_pid node) (n_ppid node)
                             (if decide (j < k)%nat then parent_of j else None) (kids k j)).
Proof. intros Hj. unfold linked. by rewrite list_lookup_imap, Hj. Qed.

Lemma linked_find k pid : find_node_with_pid (linked k) pid = find_node_with_pid nodes pid.
Proof.
  apply find_from_same. apply list_eq. intros j. rewrite !list_lookup_fmap. unfold linked.
  rewrite list_lookup_imap. by destruct (nodes !! j).
Qed.

Lemma kids_S k i : kids (S k) i = kids k i ++ (if decide (parent_of k = Some i) then [k] else []).
Proof. unfold kids. rewrite seq_S, filter_app, filter_cons, filter_nil. simpl. by case_decide. Qed.

Lemma kids_mono k k' i : (k <= k')%nat -> (length (kids k i) <= length (kids k' i))%nat.
Proof. induction 1 as [|k' _ IH]; [done|]. rewrite kids_S, length_app. lia. Qed.

Lemma link_node_ok k :
  (k < length nodes)%nat -> (forall p, Z.of_nat (length (kids (length nodes) p)) < MAX_CHILDREN) ->
  link_node (linked k) k = Some (linked (S k)).
Proof.
  intros Hk Hmax. destruct (lookup_lt_is_Some_2 _ _ Hk) as [node Hn].
  unfold link_node. rewrite (linked_lookup _ _ _ Hn). simpl. rewrite linked_find.
  assert (parent_of k = find_node_with_pid nodes (n_ppid node)) as Hp by (unfold parent_of; by rewrite Hn).
  rewrite <- Hp. destruct (parent_of k) as [p|] eqn:Ep.
  - destruct (parent_of_bound _ _ Ep) as [_ Hpl]. destruct (lookup_lt_is_Some_2 _ _ Hpl) as [pn Hpn].
    set (ll1 := <[k := _]> (linked k)).
    assert (exists q, ll1 !! p = Some (Node (name pn) (n_pid pn) (n_ppid pn) q (kids k p)) /\
              q = if decide (p < S k)%nat then parent_of p else None) as (q & Hl1 & Hq).
    { unfold ll1. destruct (decide (p = k)) as [->|Hne].
      - rewrite list_lookup_insert_eq by (by rewrite linked_length). rewrite Hn in Hpn. injection Hpn as <-.
        eexists. split; [done|]. rewrite decide_True by lia. done.
      - rewrite list_lookup_insert_ne, (linked_lookup _ _ _ Hpn) by done. eexists. split; [done|].
        destruct (decide (p < k)%nat), (decide (p < S k)%nat); done || lia. }
    rewrite Hl1. simpl. rewrite (proj2 (Z.ltb_lt _ _)).
    2: { specialize (Hmax p). pose proof (kids_mono (S k) (length nodes) p) as Hm. rewrite kids_S, decide_True, length_app in Hm by done.
         simpl in Hm. lia. }
    f_equal. apply list_eq. intros j. unfold ll1.
    destruct (nodes !! j) as [nd|] eqn:Ej.
    + rewrite (linked_lookup (S k) _ _ Ej), kids_S, Ep. destruct (decide (p = j)) as [->|Hpj].
      * rewrite list_lookup_insert_eq by (by rewrite length_insert, linked_length).
        rewrite Hpn in Ej. injection Ej as <-.
        rewrite <- Hq. simpl. by rewrite (decide_True (P := Some j = Some j)) by done.
      * rewrite list_lookup_insert_ne by done. rewrite (decide_False (P := Some p = Some j)), app_nil_r by congruence.
        destruct (decide (k = j)) as [->|Hkj].
        -- rewrite list_lookup_insert_eq by (by rewrite linked_length). rewrite Hn in Ej. injection Ej as <-.
           rewrite decide_True by lia. by rewrite Ep.
        -- rewrite list_lookup_insert_ne, (linked_lookup _ _ _ Ej) by done. do 2 f_equal.
           destruct (decide (j < k)%nat), (decide (j < S k)%nat); done || lia.
    + apply lookup_ge_None in Ej.
      rewrite !lookup_ge_None_2; [done|by rewrite linked_length|by rewrite !length_insert, linked_length].
  - f_equal. apply list_eq. intros j. destruct (nodes !! j) as [nd|] eqn:Ej.
    + rewrite !(linked_lookup _ _ _ Ej), kids_S, Ep. simpl. rewrite app_nil_r. do 2 f_equal.
      destruct (decide (j < k)%nat), (decide (j < S k)%nat); try done; try lia. assert (j = k) as -> by lia. done.
    + apply lookup_ge_None in Ej. by rewrite !lookup_ge_None_2 by (by rewrite linked_length).
Qed.

Lemma make_tree_ok :
  Forall (fun node => parent node = None /\ children node = []) nodes ->
  (forall p, Z.of_nat (length (kids (length nodes) p)) < MAX_CHILDREN) ->
  make_tree nodes = Some (linked (length nodes)).
Proof.
  intros Hfresh Hmax. unfold make_tree.
  assert (linked 0 = nodes) as H0.
  { apply list_eq. intros j. destruct (nodes !! j) as [nd|] eqn:Ej.
    - rewrite (linked_lookup _ _ _ Ej). rewrite Forall_lookup in Hfresh. destruct (Hfresh _ _ Ej) as [Hp Hc].
      destruct nd. simpl in *. by subst.
    - apply lookup_ge_None in Ej. apply lookup_ge_None_2. by rewrite linked_length. }
  assert (forall k, (k <= length nodes)%nat ->
            foldl (fun r i => r ≫= (fun ll => link_node ll i)) (Some nodes) (seq 0 k) = Some (linked k)) as Hk.
  { induction k as [|k IH]; intros Hle; [by rewrite H0|]. rewrite seq_S, foldl_app, IH by lia. simpl.
    by apply link_node_ok. }
  by apply Hk.
Qed.

(** *** The order of printing

    From a node, it and then its children in turn, each with its depth. *)
Fixpoint preorder (fuel level i : nat) : list (nat * nat) :=
  match fuel with
  | O => []
  | Datatypes.S fuel' => (i, level) :: (kids (length nodes) i ≫= preorder fuel' (Datatypes.S level))
  end.

Definition roots : list nat := filter (fun j => parent_of j = None) (seq 0 (length nodes)).
Definition tree_order (fuel : nat) : list (nat * nat) := roots ≫= preorder fuel 0.

(** What is printed of a node. *)
Definition shown (x : nat * nat) : list event :=
  match nodes !! x.1 with
  | Some node => replicate x.2 (Out (str "  ")) ++ [Out (node_line node)]
  | None => []
  end.

Lemma elem_of_kids i j : j ∈ kids (length nodes) i <-> parent_of j = Some i.
Proof.
  unfold kids. rewrite list_elem_of_filter, elem_of_seq. split; [by intros [? _]|].
  intros Hj. split; [done|]. apply parent_of_bound in Hj. lia.
Qed.

Lemma elem_of_roots j : j ∈ roots <-> parent_of j = None /\ (j < length nodes)%nat.
Proof. unfold roots. rewrite list_elem_of_filter, elem_of_seq. split; intros [? ?]; split; done || lia. Qed.

(** The depth of a node; it bounds the recursion, and there is none when the parents go round in a
    circle. *)
Context (dep : nat -> nat) (fuel : nat)
  (Hdep : forall j, (j < length nodes)%nat ->
     (dep j < fuel)%nat /\ match parent_of j with Some p => dep j = S (dep p) | None => dep j = O end).

Lemma dep_child j p : parent_of j = Some p -> dep j = S (dep p) /\ (dep j < fuel)%nat.
Proof. intros Hj. destruct (parent_of_bound _ _ Hj) as [Hl _]. destruct (Hdep j Hl) as [? Hd]. by rewrite Hj in Hd. Qed.

(** A node is in the preorder from [i] if [i] is so many levels above it. *)
Fixpoint above (k j : nat) : option nat :=
  match k with O => Some j | Datatypes.S k' => parent_of j ≫= above k' end.

Lemma above_S k j : above (S k) j = above k j ≫= parent_of.
Proof.
  revert j. induction k as [|k IH]; intros j; [simpl; by destruct (parent_of j)|].
  change (above (S (S k)) j) with (parent_of j ≫= above (S k)). change (above (S k) j) with (parent_of j ≫= above k).
  destruct (parent_of j); [apply IH|done].
Qed.

Lemma above_dep k j i : above k j = Some i -> (j < length nodes)%nat -> dep j = (k + dep i)%nat /\ (i < length nodes)%nat.
Proof.
  revert j. induction k as [|k IH]; intros j; simpl; [by intros [= ->]|].
  destruct (parent_of j) as [p|] eqn:Ep; [|done]. simpl. intros Hi Hj.
  destruct (parent_of_bound _ _ Ep) as [_ Hp]. destruct (dep_child _ _ Ep). destruct (IH p Hi Hp). lia.
Qed.

Lemma elem_of_preorder f l i j d :
  (j, d) ∈ preorder f l i <-> exists k, (k < f)%nat /\ above k j = Some i /\ d = (l + k)%nat.
Proof.
  revert l i d. induction f as [|f IH]; intros l i d; simpl.
  - split; [by intros ?%elem_of_nil|intros (? & ? & _); lia].
  - rewrite elem_of_cons, list_elem_of_bind. split.
    + intros [[= -> ->]|(c & (k & Hk & Ha & ->)%IH & Hc%elem_of_kids)]; [exists 0%nat; split_and!; done || lia|].
      exists (S k). split; [lia|]. split; [rewrite above_S, Ha; done|lia].
    + intros ([|k] & Hk & Ha & ->); [left; simpl in Ha; injection Ha as ->; f_equal; lia|right].
      rewrite above_S in Ha. destruct (above k j) as [c|] eqn:Ec; [|done]. exists c. rewrite elem_of_kids.
      split; [|done]. apply IH. exists k. split_and!; done || lia.
Qed.

Lemma NoDup_kids k i : NoDup (kids k i).
Proof. apply NoDup_filter, NoDup_seq. Qed.

(** Two subtrees at the same depth share nothing. *)
Lemma preorder_disjoint f f' l i1 i2 x :
  x ∈ preorder f l i1 -> x ∈ preorder f' l i2 -> i1 = i2.
Proof.
  destruct x as [j d]. intros (k1 & _ & H1 & E1)%elem_of_preorder (k2 & _ & H2 & E2)%elem_of_preorder.
  assert (k1 = k2) as -> by lia. congruence.
Qed.

Lemma NoDup_preorder f l i : NoDup (preorder f l i).
Proof.
  revert l i. induction f as [|f IH]; intros l i; simpl; [constructor|]. constructor.
  - intros (c & (k & _ & _ & ?)%elem_of_preorder & _)%list_elem_of_bind. lia.
  - apply NoDup_bind; [|by auto|apply NoDup_kids]. intros c1 c2 x _ _. apply preorder_disjoint.
Qed.

Lemma elem_of_tree_order j d : (j, d) ∈ tree_order fuel <-> (j < length nodes)%nat /\ d = dep j.
Proof.
  unfold tree_order. rewrite list_elem_of_bind. split.
  - intros (r & (k & Hk & Ha & ->)%elem_of_preorder & [Hr Hl]%elem_of_roots).
    assert (dep r = O) as Hr0 by (destruct (Hdep r Hl) as [_ Hd]; by rewrite Hr in Hd).
    assert (j < length nodes)%nat as Hj.
    { destruct k; simpl in Ha; [by injection Ha as ->|]. destruct (parent_of j) eqn:Ep; [|done].
      by destruct (parent_of_bound _ _ Ep). }
    destruct (above_dep _ _ _ Ha Hj). split; [done|lia].
  - intros [Hj ->]. cut (exists r, above (dep j) j = Some r /\ parent_of r = None /\ (r < length nodes)%nat).
    { intros (r & Ha & Hr). exists r. split; [|by apply elem_of_roots]. apply elem_of_preorder.
      exists (dep j). destruct (Hdep j Hj). split_and!; done. }
    remember (dep j) as k eqn:Ek. revert j Hj Ek. induction k as [|k IH]; intros j Hj Ek; simpl;
      destruct (Hdep j Hj) as [_ Hd]; destruct (parent_of j) as [p|] eqn:Ep; try lia; [by exists j|].
    destruct (parent_of_bound _ _ Ep) as [_ Hp]. simpl. apply IH; [done|lia].
Qed.

Lemma tree_order_all : (tree_order fuel).*1 ≡ₚ seq 0 (length nodes).
Proof.
  assert (NoDup (tree_order fuel)) as Hnd.
  { unfold tree_order. apply NoDup_bind; [|intros; apply NoDup_preorder|apply NoDup_filter, NoDup_seq].
    intros r1 r2 x _ _. apply preorder_disjoint. }
  apply NoDup_Permutation; [|apply NoDup_seq|].
  - apply NoDup_fmap_2_strong; [|done]. intros [j1 d1] [j2 d2] [_ ->]%elem_of_tree_order [_ ->]%elem_of_tree_order.
    simpl. by intros ->.
  - intros j. rewrite elem_of_seq, list_elem_of_fmap. split.
    + intros ([j' d] & -> & [Hj _]%elem_of_tree_order). simpl. lia.
    + intros Hj. exists (j, dep j). split; [done|]. apply elem_of_tree_order. split; [lia|done].
Qed.

(** *** The output *)

Context {K : Type}.

(** The program prints and returns. *)
Definition says {A} (m : M (proc K) A) (a : A) (evs : list event) : Prop :=
  forall p, m p = (Ret a, Proc (kern p) (errno p) (trace p ++ evs)).

Lemma says_bind {A B} (m : M (proc K) A) (k : A -> M (proc K) B) a b evs evs' :
  says m a evs -> says (k a) b evs' -> says (m ≫= k) b (evs ++ evs').
Proof. intros Hm Hk p. rewrite (bind_Ret _ _ _ _ _ (Hm p)), (Hk _). simpl. by rewrite app_assoc. Qed.

Lemma says_printf s : says (printf s) tt [Out s].
Proof. by intros p. Qed.

Lemma says_each {A} (body : A -> M (proc K) unit) (ev : A -> list event) l :
  (forall x, x ∈ l -> says (body x) tt (ev x)) -> says (for_each body l) tt (l ≫= ev).
Proof.
  induction l as [|x l IH]; intros Hb; simpl.
  - intros p. destruct p. simpl. by rewrite app_nil_r.
  - eapply says_bind; [apply Hb; by left|]. apply IH. intros y Hy. apply Hb. by right.
Qed.

Lemma indent_says level : says (for_each (fun _ => printf (str "  ")) (seq 0 level)) tt (replicate level (Out (str "  "))).
Proof.
  assert (replicate level (Out (str "  ")) = seq 0 level ≫= (fun _ => [Out (str "  ")])) as ->.
  { generalize 0%nat. induction level as [|l IHl]; intros s; [done|]. simpl. f_equal. apply IHl. }
  apply says_each. intros _ _. apply says_printf.
Qed.

Lemma bind_bind {A B C} (f : A -> list B) (g : B -> list C) l : (l ≫= f) ≫= g = l ≫= (fun x => f x ≫= g).
Proof. induction l as [|x l IH]; [done|]. by rewrite !bind_cons, bind_app, IH. Qed.

Lemma print_tree_says f level i :
  (i < length nodes)%nat -> (fuel <= f + dep i)%nat ->
  says (print_tree f (linked (length nodes)) i level) tt (preorder f level i ≫= shown).
Proof.
  revert level i. induction f as [|f IH]; intros level i Hi Hf.
  - destruct (Hdep i Hi). lia.
  - destruct (lookup_lt_is_Some_2 _ _ Hi) as [node Hn]. simpl. unfold shown at 1. simpl. rewrite Hn.
    rewrite <- app_assoc. eapply says_bind; [apply indent_says|].
    rewrite (linked_lookup _ _ _ Hn). simpl.
    eapply (says_bind _ _ tt tt [Out (node_line node)]); [by intros p|].
    rewrite bind_bind. apply says_each. intros c Hc%elem_of_kids.
    destruct (dep_child _ _ Hc). destruct (parent_of_bound _ _ Hc). apply IH; [done|lia].
Qed.

(** C16: pstree draws the whole forest.  For process nodes whose parents, found by their process
    ID, do not go round in a circle, with at most 127 children each, [make_tree] and the printing
    from the roots come to an end and print every process exactly once, in the preorder of the
    forest, each line indented by the number of the process's ancestors. *)
Theorem show_tree_prints (p : proc K) :
  Forall (fun node => parent node = None /\ children node = []) nodes ->
  (forall i, Z.of_nat (length (kids (length nodes) i)) < MAX_CHILDREN) ->
  show_tree fuel nodes p = (Ret tt, Proc (kern p) (errno p) (trace p ++ (tree_order fuel ≫= shown))) /\
  (tree_order fuel).*1 ≡ₚ seq 0 (length nodes) /\ (forall i d, (i, d) ∈ tree_order fuel -> d = dep i).
Proof.
  intros Hfresh Hmax. split; [|split; [apply tree_order_all|by intros i d [_ ->]%elem_of_tree_order]].
  unfold show_tree. rewrite (make_tree_ok Hfresh Hmax). rewrite (bind_Ret _ _ _ (linked (length nodes)) p) by done.
  unfold print_roots. rewrite linked_length.
  assert (tree_order fuel ≫= shown = seq 0 (length nodes) ≫= (fun i => match parent_of i with None => preorder fuel 0 i ≫= shown | Some _ => [] end)) as ->.
  { unfold tree_order, roots. rewrite bind_bind. induction (seq 0 (length nodes)) as [|i l IH]; [done|].
    rewrite bind_cons, <- IH, filter_cons. destruct (parent_of i); [by rewrite decide_False by done|].
    rewrite decide_True by done. by rewrite bind_cons. }
  refine (says_each _ _ _ _ p). intros i [_ Hi]%elem_of_seq. simpl in Hi.
  destruct (lookup_lt_is_Some_2 _ _ Hi) as [node Hn]. intros q.
  rewrite (bind_Ret _ _ q _ q (f_equal (fun o => the o q) (linked_lookup (length nodes) _ _ Hn))).
  simpl. rewrite decide_True by done. destruct (Hdep i Hi) as [Hlt Hd]. destruct (parent_of i) eqn:Ep.
  - destruct q. simpl. by rewrite app_nil_r.
  - apply print_tree_says; [done|lia].
Qed.
End Tree.

(** ** Status files *)

Definition TAB : ascii := ascii_of_nat 9.

(** A field as the kernel prints it. *)
Definition render_field (f : bytes * bytes) : bytes := f.1 ++ ":"%char :: TAB :: f.2 ++ [NL].
Definition render_status (fs : list (bytes * bytes)) : bytes := concat (render_field <$> fs).

(** No blank at either end. *)
Definition trimmed (s : bytes) : Prop := strip s = s /\ strip (rev s) = rev s.

Definition field_ok (f : bytes * bytes) : Prop :=
  f.1 <> [] /\ trimmed f.1 /\ trimmed f.2 /\ Forall (fun c => c <> ":"%char /\ c <> NL /\ c <> NUL) (f.1 ++ f.2) /\
  (length f.1 + length f.2 + 3 <= 255)%nat.

Lemma fgets_line n body rest :
  Forall (fun c => c <> NL) body -> (length body < n)%nat ->
  fgets n (body ++ NL :: rest) = (body ++ [NL], rest).
Proof.
  intros HF. revert n. induction HF as [|c body Hc _ IH]; intros [|n] Hn; simpl in *; try lia; [done|].
  rewrite (proj2 (Ascii.eqb_neq c NL)) by done. by rewrite IH by lia.
Qed.

Lemma lines_of_render fs :
  Forall field_ok fs -> forall fuel, (length (render_status fs) <= fuel)%nat ->
  fgets_lines fuel 256 (render_status fs) = render_field <$> fs.
Proof.
  induction 1 as [|[k v] fs (Hk & _ & _ & Hc & Hl) _ IH]; intros fuel Hf; [by destruct fuel|].
  unfold render_status in *. rewrite fmap_cons in *. cbn [concat] in *. rewrite length_app in Hf.
  assert (render_field (k, v) ++ concat (render_field <$> fs) = (k ++ ":"%char :: TAB :: v) ++ NL :: concat (render_field <$> fs)) as E.
  { unfold render_field. simpl. rewrite <- !app_assoc. simpl. by rewrite <- app_assoc. }
  assert (0 < length (render_field (k, v)))%nat as Hpos.
  { unfold render_field. simpl. rewrite length_app. simpl. lia. }
  destruct fuel as [|fuel]; [lia|]. rewrite E. destruct k as [|c k]; [done|]. cbn [app fgets_lines].
  change (256 - 1)%nat with 255%nat.
  assert (fgets 255 (c :: (k ++ ":"%char :: TAB :: v) ++ NL :: concat (render_field <$> fs))
          = (render_field (c :: k, v), concat (render_field <$> fs))) as ->.
  { change (c :: (k ++ ":"%char :: TAB :: v) ++ NL :: concat (render_field <$> fs))
      with (((c :: k) ++ ":"%char :: TAB :: v) ++ NL :: concat (render_field <$> fs)).
    rewrite fgets_line; [|..].
    - unfold render_field. cbn [fst snd]. by rewrite <- app_assoc.
    - apply Forall_app in Hc as [Hc1 Hc2]. apply Forall_app. split; [eapply Forall_impl; [exact Hc1|by intros ? (_ & ? & _)]|].
      constructor; [done|]. constructor; [done|]. eapply Forall_impl; [exact Hc2|by intros ? (_ & ? & _)].
    - rewrite length_app. simpl in *. lia. }
  f_equal. apply IH. lia.
Qed.

Lemma strip_blank c s : isspace c = true -> strip (c :: s) = strip s.
Proof. intros Hc. unfold strip. simpl. rewrite Hc. by destruct (span isspace s). Qed.

Lemma strip_app s t : strip s = s -> s <> [] -> strip (s ++ t) = s ++ t.
Proof.
  destruct s as [|c s]; [done|]. intros Hs _. unfold strip in *. simpl in *.
  destruct (isspace c) eqn:Ec; [|done]. exfalso. destruct (span isspace s) as [l r] eqn:Es. simpl in Hs.
  pose proof (span_eq isspace s) as Heq. rewrite Es in Heq. destruct Heq as [Heq _].
  apply (f_equal length) in Heq. rewrite length_app in Heq. rewrite Hs in Heq. simpl in Heq. lia.
Qed.

Lemma trim_nonempty before s r : strip (rev s) = r -> r <> [] -> trim before s = Some (strip (rev r)).
Proof. intros <- Hne. unfold trim. by destruct (strip (rev s)). Qed.

Lemma rev_nonempty (s : bytes) : s <> [] -> rev s <> [].
Proof. intros Hs E. apply Hs. rewrite <- (rev_involutive s), E. done. Qed.

Lemma trim_key k : k <> [] -> trimmed k -> trim None k = Some k.
Proof.
  intros Hk [H1 H2]. rewrite (trim_nonempty _ _ _ H2) by by apply rev_nonempty.
  by rewrite rev_involutive, H1.
Qed.

Lemma trim_value v : trimmed v -> trim (Some NUL) (TAB :: v ++ [NL]) = Some v.
Proof.
  intros [H1 H2]. destruct v as [|c v]; [by vm_compute|].
  pose proof (rev_nonempty (c :: v) ltac:(done)) as Hne. generalize dependent (c :: v). clear c v. intros v H1 H2 Hne.
  rewrite (trim_nonempty _ _ (rev v ++ [TAB])).
  - by rewrite rev_app_distr, rev_involutive; simpl; rewrite strip_blank, H1.
  - change (TAB :: v ++ [NL]) with ((TAB :: v) ++ [NL]). rewrite rev_app_distr. simpl. rewrite strip_blank by done.
    by apply strip_app.
  - by destruct (rev v).
Qed.

Lemma span_until (P : ascii -> bool) l c r :
  Forall (fun x => P x = true) l -> P c = false -> span P (l ++ c :: r) = (l, c :: r).
Proof. induction 1 as [|x l Hx _ IH]; intros Hc; simpl; [by rewrite Hc|]. rewrite Hx. by rewrite IH. Qed.

Lemma span_all (P : ascii -> bool) l : Forall (fun x => P x = true) l -> span P l = (l, []).
Proof. induction 1 as [|x l Hx _ IH]; simpl; [done|]. rewrite Hx. by rewrite IH. Qed.

Lemma skip_colons_none c s : c <> ":"%char -> skip_colons (c :: s) = (O, c :: s).
Proof. intros Hc. simpl. by rewrite (proj2 (Ascii.eqb_neq c ":")). Qed.

(** The line of a field is read back. *)
Lemma key_value_render {S} f (s : S) : field_ok f -> key_value (render_field f) s = (Ret (Some f), s).
Proof.
  destruct f as [k v]. intros (Hk & Hkt & Hvt & Hc & _). apply Forall_app in Hc as [Hck Hcv].
  assert (forall l, Forall (fun c => c <> ":"%char /\ c <> NL /\ c <> NUL) l -> Forall (fun c => negb (Ascii.eqb c ":") = true) l) as Hno.
  { intros l Hl. eapply Forall_impl; [exact Hl|]. intros c (Hcc & _ & _). by rewrite (proj2 (Ascii.eqb_neq c ":")). }
  unfold key_value, render_field, strtok_colon. simpl in *.
  assert (skip_colons (k ++ ":"%char :: TAB :: v ++ [NL]) = (O, k ++ ":"%char :: TAB :: v ++ [NL])) as ->.
  { destruct k; [done|]. apply skip_colons_none. inversion_clear Hck. tauto. }
  rewrite (span_until _ k ":" (TAB :: v ++ [NL])); [|by apply Hno|done].
  assert (exists c l, k ++ ":"%char :: TAB :: v ++ [NL] = c :: l) as (c & l & ->) by (destruct k; eauto).
  cbn [drop]. rewrite skip_colons_none by done. rewrite span_all.
  2: { constructor; [done|]. apply Forall_app. split; [by apply Hno|]. by repeat constructor. }
  unfold the. rewrite (trim_key _ Hk Hkt), (trim_value _ Hvt). done.
Qed.

(** ** What proclist prints *)

(** The value of a key (the last one, should a key come twice). *)
Definition value_of (fs : list (bytes * bytes)) (key : string) : option bytes :=
  foldl (fun o f => if is_key f.1 key then Some f.2 else o) None fs.

Definition of_user (uid : Z) (fs : list (bytes * bytes)) : bool :=
  existsb (fun f => is_key f.1 "Uid" && strstr f.2 (dec (s32 uid))) fs.

Definition status_ok (fs : list (bytes * bytes)) : Prop :=
  Forall field_ok fs /\ Forall (fun f => is_key f.1 "Pid" = true -> (length f.2 < 32)%nat) fs /\
  is_Some (value_of fs "Name") /\ is_Some (value_of fs "Pid").

Section Scan.
Context {K : Type}.

Definition check_pure (uidstr : bytes) (f : fields) (x : bytes * bytes) : fields :=
  let f1 := if is_key x.1 "Uid" && strstr x.2 uidstr then Fields true (procname f) (pid f) (ppid f) else f in
  let f2 := if is_key x.1 "Name" then Fields (keepme f1) (Some x.2) (pid f1) (ppid f1) else f1 in
  if is_key x.1 "Pid" then Fields (keepme f2) (procname f2) (Some x.2) (ppid f2) else f2.

Lemma fits_ok n s (p : proc K) : strlen s < n -> fits n s p = (Ret s, p).
Proof. intros Hs. unfold fits. by rewrite (proj2 (Z.ltb_lt _ _)). Qed.

Lemma store_if {A} (b : bool) n v (F : bytes -> A) (x : A) (p : proc K) :
  (b = true -> strlen v < n) ->
  (if b then w ← fits n v; mret (F w) else mret x) p = (Ret (if b then F v else x), p).
Proof. intros Hb. destruct b; [|done]. by rewrite (bind_Ret _ _ _ _ _ (fits_ok n v p (Hb eq_refl))). Qed.

Lemma scan_render uidstr fs st (p : proc K) :
  Forall field_ok fs -> Forall (fun f => is_key f.1 "Pid" = true -> (length f.2 < 32)%nat) fs ->
  scan_lines (check_line uidstr) (render_field <$> fs) st p = (Ret (foldl (check_pure uidstr) st fs), p).
Proof.
  intros Hok Hpid. revert st. induction Hok as [|[k v] fs Hf _ IH]; intros st; [done|].
  inversion_clear Hpid as [|? ? Hp Hpid']. simpl in Hp. cbn [fmap list_fmap scan_lines foldl].
  rewrite (bind_Ret _ _ _ _ _ (key_value_render _ p Hf)).
  assert (check_line uidstr st k v p = (Ret (check_pure uidstr st (k, v)), p)) as Hcl.
  { destruct Hf as (_ & _ & _ & _ & Hl). simpl in Hl. unfold check_line, check_pure. simpl fst. simpl snd. cbv zeta.
    set (f1 := if is_key k "Uid" && strstr v uidstr then _ else st).
    rewrite (bind_Ret _ _ _ _ _ (store_if (is_key k "Name") 256 v
      (fun w => Fields (keepme f1) (Some w) (pid f1) (ppid f1)) f1 p ltac:(intros; unfold strlen; lia))).
    set (f2 := if is_key k "Name" then _ else f1).
    apply (store_if (is_key k "Pid") 32 v (fun w => Fields (keepme f2) (procname f2) (Some w) (ppid f2))).
    intros Hk. specialize (Hp Hk). unfold strlen. lia. }
  rewrite (bind_Ret _ _ _ _ _ Hcl). by apply IH.
Qed.

Lemma pid_fold uidstr fs st :
  pid (foldl (check_pure uidstr) st fs) = foldl (fun o f => if is_key f.1 "Pid" then Some f.2 else o) (pid st) fs.
Proof.
  revert st. induction fs as [|[k v] fs IH]; intros st; [done|]. simpl. rewrite IH. f_equal.
  unfold check_pure. simpl. by repeat case_match.
Qed.

Lemma procname_fold uidstr fs st :
  procname (foldl (check_pure uidstr) st fs) = foldl (fun o f => if is_key f.1 "Name" then Some f.2 else o) (procname st) fs.
Proof.
  revert st. induction fs as [|[k v] fs IH]; intros st; [done|]. simpl. rewrite IH. f_equal.
  unfold check_pure. simpl. by repeat case_match.
Qed.

Lemma keepme_fold uidstr fs st :
  keepme (foldl (check_pure uidstr) st fs) = keepme st || existsb (fun f => is_key f.1 "Uid" && strstr f.2 uidstr) fs.
Proof.
  revert st. induction fs as [|[k v] fs IH]; intros st; simpl; [by rewrite orb_false_r|]. rewrite IH.
  rewrite orb_assoc. f_equal. unfold check_pure. simpl.
  destruct (is_key k "Uid" && strstr v uidstr), (is_key k "Name"), (is_key k "Pid"); simpl;
    by rewrite ?orb_true_r, ?orb_false_r.
Qed.
End Scan.

(** A /proc that does not change while it is read: what opening a directory or a file gives is
    fixed. *)
Class ProcSnapshot (K : Type) `{!ProcFS K} := {
  snap_dir : bytes -> option (list (Z * bytes));
  snap_file : bytes -> option bytes;
  k_opendir_snap : forall path k, match snap_dir path with
    | Some es => (k_opendir path k).1 = inl es | None => exists e, (k_opendir path k).1 = inr e end;
  k_fopen_snap : forall path k, match snap_file path with
    | Some c => (k_fopen path k).1 = inl c | None => exists e, (k_fopen path k).1 = inr e end
}.

Section Proclist.
Context {K : Type} `{!ProcFS K, !ProcSnapshot K, !UserDb}.

(** The program prints, may change the kernel's state and [errno], and returns. *)
Definition reports {A} (m : M (proc K) A) (a : A) (evs : list event) : Prop :=
  forall p, exists k e, m p = (Ret a, Proc k e (trace p ++ evs)).

Lemma reports_ret {A} (a : A) : reports (mret a) a [].
Proof. intros [k e t]. exists k, e. simpl. by rewrite app_nil_r. Qed.

Lemma reports_bind {A B} (m : M (proc K) A) (k : A -> M (proc K) B) a b evs evs' :
  reports m a evs -> reports (k a) b evs' -> reports (m ≫= k) b (evs ++ evs').
Proof.
  intros Hm Hk p. destruct (Hm p) as (k1 & e1 & E1). rewrite (bind_Ret _ _ _ _ _ E1).
  destruct (Hk (Proc k1 e1 (trace p ++ evs))) as (k2 & e2 & E2). exists k2, e2. rewrite E2. simpl. by rewrite app_assoc.
Qed.

Lemma reports_quiet {A B} (m : M (proc K) A) (k : A -> M (proc K) B) a b evs :
  reports m a [] -> reports (k a) b evs -> reports (m ≫= k) b evs.
Proof. intros Hm Hk. by apply (reports_bind m k a b [] evs). Qed.

Lemma reports_each {A} (body : A -> M (proc K) unit) (ev : A -> list event) l :
  (forall x, x ∈ l -> reports (body x) tt (ev x)) -> reports (for_each body l) tt (l ≫= ev).
Proof.
  induction l as [|x l IH]; intros Hb; [apply reports_ret|].
  eapply reports_bind; [apply Hb; by left|]. apply IH. intros y Hy. apply Hb. by right.
Qed.

Lemma reports_fits n s : strlen s < n -> reports (fits n s) s [].
Proof. intros Hs [k e t]. exists k, e. rewrite fits_ok by done. simpl. by rewrite app_nil_r. Qed.

Lemma reports_printf s : reports (printf s) tt [Out s].
Proof. intros [k e t]. by exists k, e. Qed.

Lemma reports_fopen path : reports (fopen path) (snap_file path) [].
Proof.
  intros [k e t]. unfold fopen, syscall. simpl. pose proof (k_fopen_snap path k) as Hs.
  destruct (k_fopen path k) as [r k']. rewrite app_nil_r. destruct (snap_file path); simpl in Hs.
  - rewrite Hs. by eexists _, _.
  - destruct Hs as [e' ->]. by eexists _, _.
Qed.

Lemma reports_opendir path : reports (opendir path) (snap_dir path) [].
Proof.
  intros [k e t]. unfold opendir, syscall. simpl. pose proof (k_opendir_snap path k) as Hs.
  destruct (k_opendir path k) as [r k']. rewrite app_nil_r. destruct (snap_dir path); simpl in Hs.
  - rewrite Hs. by eexists _, _.
  - destruct Hs as [e' ->]. by eexists _, _.
Qed.

Definition status_path (d_name : bytes) : bytes := PROCFS_ROOT ++ str "/" ++ d_name ++ str "/status".

(** An entry of /proc that is not a process, one whose process has gone (its file cannot be opened,
    or it has no bytes to give any more), and a process. *)
Inductive entry_is (e : Z * bytes) : option (list (bytes * bytes)) -> Prop :=
| entry_skipped : e.1 <> DT_DIR -> e.1 <> DT_LNK -> entry_is e None
| entry_gone : e.1 = DT_DIR \/ e.1 = DT_LNK -> (length e.2 <= 200)%nat ->
    snap_file (status_path e.2) = None \/ snap_file (status_path e.2) = Some [] -> entry_is e None
| entry_process fs : e.1 = DT_DIR \/ e.1 = DT_LNK -> (length e.2 <= 200)%nat -> status_ok fs ->
    snap_file (status_path e.2) = Some (render_status fs) -> entry_is e (Some fs).

Definition listed (uid : Z) (fs : list (bytes * bytes)) : list event :=
  if of_user uid fs
  then [Out (default [] (value_of fs "Pid") ++ str ": " ++ default [] (value_of fs "Name") ++ [NL])] else [].

Lemma list_entry_reports uid e o :
  entry_is e o -> reports (list_entry uid e) tt (match o with Some fs => listed uid fs | None => [] end).
Proof.
  assert (forall fs r, e.1 = DT_DIR \/ e.1 = DT_LNK -> (length e.2 <= 200)%nat ->
    reports (check_dir (PROCFS_ROOT ++ str "/" ++ e.2) uid) r fs -> reports (list_entry uid e) tt fs) as Hgo.
  { intros fs r Ht Hl Hc. unfold list_entry.
    assert ((e.1 =? DT_DIR) || (e.1 =? DT_LNK) = true) as -> by (destruct Ht as [-> | ->]; done).
    eapply reports_quiet; [apply reports_fits; unfold strlen; rewrite !length_app; simpl; lia|].
    rewrite <- (app_nil_r fs). eapply reports_bind; [exact Hc|apply reports_ret]. }
  assert ((length e.2 <= 200)%nat -> forall r evs,
    reports (match snap_file (status_path e.2) with
             | None => mret 1
             | Some content =>
                 f ← scan_lines (check_line (dec (s32 uid))) (lines_of 256 content) no_fields;
                 (if keepme f then p ← the (pid f); n ← the (procname f); printf (p ++ str ": " ++ n ++ [NL])
                  else mret tt) ;; mret 0
             end) r evs ->
    reports (check_dir (PROCFS_ROOT ++ str "/" ++ e.2) uid) r evs) as Hfile.
  { intros Hl r evs Hc. unfold check_dir.
    eapply reports_quiet; [apply reports_fits; unfold strlen; rewrite !length_app; simpl; lia|].
    rewrite <- !app_assoc. eapply reports_quiet; [apply reports_fopen|exact Hc]. }
  intros [H1 H2|Ht Hl Hgone|fs Ht Hl (Hf & Hpid & [n Hn] & [pd Hp]) Hsnap].
  - unfold list_entry. rewrite (proj2 (Z.eqb_neq _ _) H1), (proj2 (Z.eqb_neq _ _) H2). apply reports_ret.
  - destruct Hgone as [Hs|Hs].
    + apply (Hgo _ 1 Ht Hl), (Hfile Hl). rewrite Hs. apply reports_ret.
    + apply (Hgo _ 0 Ht Hl), (Hfile Hl). rewrite Hs. apply reports_ret.
  - apply (Hgo _ 0 Ht Hl), (Hfile Hl). rewrite Hsnap. unfold lines_of. rewrite lines_of_render by done.
    set (r := foldl (check_pure (dec (s32 uid))) no_fields fs).
    assert (reports (scan_lines (check_line (dec (s32 uid))) (render_field <$> fs) no_fields) r []) as Hscan.
    { intros [k e0 t]. exists k, e0. rewrite scan_render by done. simpl. by rewrite app_nil_r. }
    eapply reports_quiet; [exact Hscan|].
    assert (keepme r = of_user uid fs) as -> by apply keepme_fold.
    assert (pid r = Some pd) as -> by (rewrite <- Hp; apply pid_fold).
    assert (procname r = Some n) as -> by (rewrite <- Hn; apply procname_fold).
    unfold listed. rewrite Hn, Hp. destruct (of_user uid fs); [|apply reports_ret].
    rewrite <- (app_nil_r [Out _]). eapply reports_bind; [|apply reports_ret].
    eapply reports_quiet; [apply reports_ret|]. eapply reports_quiet; [apply reports_ret|]. apply reports_printf.
Qed.

(** proclist on a /proc that does not change while it is read.  For a user that is known,
    directories of processes that have gone are passed over, and for every other process whose
    Uid: field contains the user's number in decimal, and for no others, "pid: name" is printed,
    in the order of the directory, and the program returns 0.  The status files are those the
    kernel prints: what the program reads from the lines is what was printed there. *)
Theorem proclist_lists prog user entries infos (p : proc K) :
  let uid := user_id_from_name (Some user) in
  uid <> NO_ID -> snap_dir PROCFS_ROOT = Some entries -> Forall2 entry_is entries infos ->
  exists k e, proclist_main [prog; user] p
    = (Ret 0, Proc k e (trace p ++ (infos ≫= from_option (listed uid) []))).
Proof.
  intros uid Huid Hdir Hall.
  assert (reports (proclist_main [prog; user]) 0 (infos ≫= from_option (listed uid) [])) as Hr; [|apply (Hr p)].
  unfold proclist_main. simpl length. cbn [Nat.eqb negb].
  change ([prog; user] !! 1%nat) with (Some user). fold uid. rewrite (proj2 (Z.eqb_neq _ _) Huid).
  eapply reports_quiet; [apply reports_opendir|]. rewrite Hdir.
  rewrite <- (app_nil_r (infos ≫= _)). eapply reports_bind; [|apply reports_ret].
  clear Hdir. induction Hall as [|e o entries infos He _ IH]; [apply reports_ret|].
  rewrite bind_cons. simpl. eapply reports_bind; [|exact IH]. apply (list_entry_reports uid) in He. by destruct o.
Qed.
End Proclist.

(** ** Examples *)

Definition demo_status (n p pp u : string) : list (bytes * bytes) :=
  [(str "Name", str n); (str "Pid", str p); (str "PPid", str pp);
   (str "Uid", str u ++ TAB :: str u ++ TAB :: str u ++ TAB :: str u); (str "Groups", [])].

Definition demo_infos : list (option (list (bytes * bytes))) :=
  [None; Some (demo_status "init" "1" "0" "0"); Some (demo_status "bash" "42" "1" "1000"); None].

Definition demo_file (path : bytes) : option bytes :=
  if bool_decide (path = status_path (str "1")) then Some (render_status (demo_status "init" "1" "0" "0"))
  else if bool_decide (path = status_path (str "42")) then Some (render_status (demo_status "bash" "42" "1" "1000"))
  else None.

Definition demo_dir (path : bytes) : option (list (Z * bytes)) :=
  if bool_decide (path = PROCFS_ROOT)
  then Some [(8, str "cpuinfo"); (DT_DIR, str "1"); (DT_DIR, str "42"); (DT_DIR, str "77")] else None.

#[export] Instance demo_procfs : ProcFS unit := {|
  k_opendir := fun path k => (match demo_dir path with Some es => inl es | None => inr ENOENT end, k);
  k_fopen := fun path k => (match demo_file path with Some c => inl c | None => inr ENOENT end, k);
  k_readlink := fun _ _ k => (inr ENOENT, k);
  k_malloc := fun k => (true, k)
|}.

#[export] Program Instance demo_snapshot : ProcSnapshot unit := {| snap_dir := demo_dir; snap_file := demo_file |}.
Next Obligation. intros path []. simpl. destruct (demo_dir path); [done|by eexists]. Qed.
Next Obligation. intros path []. simpl. destruct (demo_file path); [done|by eexists]. Qed.

#[export] Instance demo_users : UserDb := {|
  getpwuid := fun _ => None; getpwnam := fun _ => None; getgrgid := fun _ => None; getgrnam := fun _ => None
|}.

#[export] Instance status_ok_dec fs : Decision (status_ok fs).
Proof. unfold status_ok, field_ok, trimmed. apply _. Defined.

(** The user with number 100 is shown the process of the user with number 1000. *)
Lemma proclist_lists_witness :
  exists k e, proclist_main [str "proclist"; str "100"] (Proc tt 0 [])
    = (Ret 0, Proc k e [Out (str "42: bash" ++ [NL])]).
Proof.
  refine (proclist_lists (str "proclist") (str "100") _ demo_infos (Proc tt 0 []) _ eq_refl _); [by_decide|].
  constructor; [by apply entry_skipped|]. constructor; [|constructor; [|constructor; [|constructor]]].
  - apply entry_process; [by left|by_decide|by_decide|by vm_compute].
  - apply entry_process; [by left|by_decide|by_decide|by vm_compute].
  - apply entry_gone; [by left|by_decide|left; by vm_compute].
Defined.

Definition demo_nodes : list pstree_node :=
  [Node (str "ls") 43 42 None []; Node (str "bash") 42 1 None []; Node (str "cron") 7 1 None []; Node (str "init") 1 0 None []].

Lemma show_tree_prints_witness :
  show_tree 3 demo_nodes (Proc tt 0 []) = (Ret tt, Proc tt 0
    [Out (str "init (pid: 1, ppid: 0)" ++ [NL]);
     Out (str "  "); Out (str "bash (pid: 42, ppid: 1)" ++ [NL]);
     Out (str "  "); Out (str "  "); Out (str "ls (pid: 43, ppid: 42)" ++ [NL]);
     Out (str "  "); Out (str "cron (pid: 7, ppid: 1)" ++ [NL])]).
Proof.
  destruct (show_tree_prints demo_nodes (fun j => nth j [2; 1; 1; 0]%nat 0%nat) 3) with (p := Proc tt 0 []) as [E _].
  - intros j Hj. simpl in Hj. do 4 (destruct j as [|j]; [vm_compute; split; [lia|done]|]). lia.
  - by repeat constructor.
  - intros i. unfold kids. pose proof (length_filter (fun j => parent_of demo_nodes j = Some i) (seq 0 (length demo_nodes))) as Hl.
    rewrite length_seq in Hl. simpl in *. unfold MAX_CHILDREN. lia.
  - rewrite E. by vm_compute.
Defined.

(** A process that ends between [fopen] and the first [fgets]: pstree goes on with arrays it has
    not written to. *)
Lemma pstree_vanished {K} `{!ProcFS K} ll dirname (p : proc K) k' :
  (length dirname <= 248)%nat -> k_fopen (dirname ++ str "/status") (kern p) = (inl [], k') ->
  catalog_process ll dirname p = (Undef, Proc k' (errno p) (trace p)).
Proof.
  intros Hl Hk. unfold catalog_process.
  rewrite (bind_Ret _ _ _ _ _ (fits_ok 256 (dirname ++ str "/status") p ltac:(unfold strlen; rewrite length_app; simpl; lia))).
  rewrite (bind_Ret _ _ _ (Some []) (Proc k' (errno p) (trace p))); [done|].
  unfold fopen, syscall. by rewrite Hk.
Qed.

(** What pstree collects is what [show_tree_prints] starts from. *)
Lemma catalogued_fresh {K} `{!ProcFS K} entries ll ll' (p p' : proc K) :
  Forall (fun node => parent node = None /\ children node = []) ll ->
  catalog_entries ll entries p = (Ret ll', p') ->
  Forall (fun node => parent node = None /\ children node = []) ll'.
Proof.
  revert ll p. induction entries as [|[t d] entries IH]; intros ll p Hll; simpl; [by intros [= <- <-]|].
  destruct (t =? DT_DIR); [|by apply IH]. unfold mbind at 1, M_bind at 1.
  destruct (dirname_of d p) as [[dn| | | |] p1]; try done. unfold mbind at 1, M_bind at 1.
  destruct (catalog_process ll dn p1) as [[[r ll1]| | | |] p2] eqn:Ec; try done. apply IH. simpl. clear IH.
  revert Ec. unfold catalog_process, ll_create_and_insert, mbind, M_bind, the, fits, syscall.
  repeat (case_match; simplify_eq; try done); intros [= <- <-]; simplify_eq; by repeat constructor.
Qed.
