(* ===== verification/Sockets.v ===== *)
(** * Sockets

    inet_sockets.c and unix_sockets.c (tlpi-dist/sockets): making a connected, a bound or a
    listening socket.  The calls on sockets and getaddrinfo are a class of the kernel; its laws say
    what the calls do to the descriptors of the process and which address a socket is connected or
    bound to. *)

From Stdlib Require Import ZArith Lia String Ascii.
From stdpp Require Import sets gmap.
From S2P Require Import Prelude CString Kernel.

Definition AF_UNSPEC : Z := 0.
Definition AF_UNIX : Z := 1.
Definition SOCK_STREAM : Z := 1.
Definition AI_PASSIVE : Z := 1.
Definition SOL_SOCKET : Z := 1.
Definition SO_REUSEADDR : Z := 2.

(** An address structure, by its bytes, and what getaddrinfo makes of a host and a service. *)
Record addrinfo := Addrinfo { ai_family : Z; ai_socktype : Z; ai_protocol : Z; ai_addr : bytes; ai_addrlen : Z }.
Record hints := Hints { h_family : Z; h_socktype : Z; h_flags : Z }.

Class SocketOps (K : Type) := {
  k_getaddrinfo : option bytes -> option bytes -> hints -> K -> (list addrinfo + Z) * K;
  k_getnameinfo : bytes -> K -> (bytes * bytes + Z) * K;
  k_socket : Z -> Z -> Z -> K -> (Z + Z) * K;
  k_connect : Z -> bytes -> K -> (Z + Z) * K;
  k_bind : Z -> bytes -> K -> (Z + Z) * K;
  k_listen : Z -> Z -> K -> (Z + Z) * K;
  k_setsockopt : Z -> Z -> Z -> Z -> K -> (Z + Z) * K;
  k_sclose : Z -> K -> (Z + Z) * K
}.

Section Sockets.
Context {K : Type} `{!SocketOps K}.

Definition socket (f t p : Z) : M (proc K) Z := syscall (-1) (k_socket f t p).
Definition connect (fd : Z) (addr : bytes) : M (proc K) Z := syscall (-1) (k_connect fd addr).
Definition bind (fd : Z) (addr : bytes) : M (proc K) Z := syscall (-1) (k_bind fd addr).
Definition listen (fd backlog : Z) : M (proc K) Z := syscall (-1) (k_listen fd backlog).
Definition setsockopt (fd level opt val : Z) : M (proc K) Z := syscall (-1) (k_setsockopt fd level opt val).
Definition sclose (fd : Z) : M (proc K) Z := syscall (-1) (k_sclose fd).
(** getaddrinfo reports its errors by its result, not in [errno]. *)
Definition getaddrinfo (host service : option bytes) (h : hints) : M (proc K) (list addrinfo + Z) := fun p =>
  let '(r, k') := k_getaddrinfo host service h (kern p) in (Ret r, Proc k' (errno p) (trace p)).
Definition getnameinfo (addr : bytes) : M (proc K) (bytes * bytes + Z) := fun p =>
  let '(r, k') := k_getnameinfo addr (kern p) in (Ret r, Proc k' (errno p) (trace p)).

(** ** inet_sockets.c *)

(** The walk over the addresses; it gives the descriptor and the address it was made for. *)
Fixpoint connect_first (rps : list addrinfo) : M (proc K) (option (Z * addrinfo)) :=
  match rps with
  | [] => mret None
  | rp :: rps' =>
      sfd ← socket (ai_family rp) (ai_socktype rp) (ai_protocol rp);
      if sfd =? -1 then connect_first rps'
      else
        c ← connect sfd (ai_addr rp);
        if negb (c =? -1) then mret (Some (sfd, rp))
        else sclose sfd ;; connect_first rps'
  end.

Definition inetConnect (host service : option bytes) (type : Z) : M (proc K) Z :=
  s ← getaddrinfo host service (Hints AF_UNSPEC type 0);
  match s with
  | inr _ => set_errno ENOSYS ;; mret (-1)
  | inl result =>
      r ← connect_first result;
      mret (match r with None => -1 | Some (sfd, _) => sfd end)
  end.

(** The walk of [inetPassiveSocket]; [inr] when it gives up on a failed setsockopt. *)
Fixpoint bind_first (doListen : bool) (rps : list addrinfo) : M (proc K) (option (Z * addrinfo) + unit) :=
  match rps with
  | [] => mret (inl None)
  | rp :: rps' =>
      sfd ← socket (ai_family rp) (ai_socktype rp) (ai_protocol rp);
      if sfd =? -1 then bind_first doListen rps'
      else
        o ← (if doListen then setsockopt sfd SOL_SOCKET SO_REUSEADDR 1 else mret 0);
        if o =? -1 then sclose sfd ;; mret (inr tt)
        else
          b ← bind sfd (ai_addr rp);
          if b =? 0 then mret (inl (Some (sfd, rp)))
          else sclose sfd ;; bind_first doListen rps'
  end.

(** The descriptor, and the length stored through [addrlen]. *)
Definition inetPassiveSocket (service : option bytes) (type : Z) (addrlen : bool) (doListen : bool) (backlog : Z)
    : M (proc K) (Z * option Z) :=
  s ← getaddrinfo None service (Hints AF_UNSPEC type AI_PASSIVE);
  match s with
  | inr _ => mret (-1, None)
  | inl result =>
      r ← bind_first doListen result;
      match r with
      | inr _ => mret (-1, None)
      | inl None => mret (-1, None)
      | inl (Some (sfd, rp)) =>
          l ← (if doListen then listen sfd backlog else mret 0);
          if l =? -1 then mret (-1, None)
          else mret (sfd, if addrlen then Some (ai_addrlen rp) else None)
      end
  end.

Definition inetListen (service : option bytes) (backlog : Z) (addrlen : bool) : M (proc K) (Z * option Z) :=
  inetPassiveSocket service SOCK_STREAM addrlen true backlog.
Definition inetBind (service : option bytes) (type : Z) (addrlen : bool) : M (proc K) (Z * option Z) :=
  inetPassiveSocket service type addrlen false 0.

(** snprintf into an array of [addrStrLen] bytes. *)
Definition inetAddressStr (addr : bytes) (addrStrLen : Z) : M (proc K) bytes :=
  r ← getnameinfo addr;
  let s := match r with
           | inl (host, service) => str "(" ++ host ++ str ", " ++ service ++ str ")"
           | inr _ => str "(?UNKNOWN?)"
           end in
  mret (take (Z.to_nat (addrStrLen - 1)) s).

(** ** unix_sockets.c *)

Definition SUN_PATH : Z := 108.

(** The address structure: the path, with zeros to the end of the array. *)
Definition unixBuildAddress (path : option bytes) : M (proc K) (Z * bytes) :=
  match path with
  | None => set_errno EINVAL ;; mret (-1, [])
  | Some s =>
      if SUN_PATH - 1 <=? strlen s then set_errno EINVAL ;; mret (-1, [])
      else if strlen s <? SUN_PATH
      then mret (0, take (Z.to_nat (SUN_PATH - 1)) s ++ replicate (Z.to_nat SUN_PATH - length s) NUL)
      else set_errno ENAMETOOLONG ;; mret (-1, [])
  end.

(** Close, with [errno] as it was. *)
Definition close_quietly (sd : Z) : M (proc K) Z :=
  savedErrno ← get_errno; sclose sd ;; set_errno savedErrno ;; mret (-1).

Definition unixConnect (path : option bytes) (type : Z) : M (proc K) Z :=
  a ← unixBuildAddress path;
  if a.1 =? -1 then mret (-1)
  else
    sd ← socket AF_UNIX type 0;
    if sd =? -1 then mret (-1)
    else
      c ← connect sd a.2;
      if c =? -1 then close_quietly sd else mret sd.

Definition unixPassiveSocket (path : option bytes) (type : Z) (doListen : bool) (backlog : Z) : M (proc K) Z :=
  a ← unixBuildAddress path;
  if a.1 =? -1 then mret (-1)
  else
    sd ← socket AF_UNIX type 0;
    if sd =? -1 then mret (-1)
    else
      b ← bind sd a.2;
      if b =? -1 then close_quietly sd
      else
        l ← (if doListen then listen sd backlog else mret 0);
        if l =? -1 then close_quietly sd else mret sd.

Definition unixListen (path : option bytes) (backlog : Z) : M (proc K) Z :=
  unixPassiveSocket path SOCK_STREAM true backlog.
Definition unixBind (path : option bytes) (type : Z) : M (proc K) Z := unixPassiveSocket path type false 0.
End Sockets.

(** ** Laws

    [open_fds] are the descriptors of the process, [peer] the address a socket is connected to,
    [local] the one it is bound to. *)
Class SocketLaws (K : Type) `{!SocketOps K} := {
  open_fds : K -> gset Z;
  peer : K -> Z -> option bytes;
  local : K -> Z -> option bytes;
  k_getaddrinfo_fds : forall h s hi k, open_fds (k_getaddrinfo h s hi k).2 = open_fds k;
  k_socket_fds : forall f t p k, match k_socket f t p k with
    | (inl fd, k') => 0 <= fd /\ (fd ∉ open_fds k) /\ open_fds k' = {[fd]} ∪ open_fds k
    | (inr _, k') => open_fds k' = open_fds k end;
  k_connect_fds : forall fd a k, match k_connect fd a k with
    | (inl r, k') => r = 0 /\ open_fds k' = open_fds k /\ peer k' fd = Some a
    | (inr _, k') => open_fds k' = open_fds k end;
  k_bind_fds : forall fd a k, match k_bind fd a k with
    | (inl r, k') => r = 0 /\ open_fds k' = open_fds k /\ local k' fd = Some a
    | (inr _, k') => open_fds k' = open_fds k end;
  k_listen_fds : forall fd b k, match k_listen fd b k with
    | (inl r, k') => r = 0 /\ open_fds k' = open_fds k /\ local k' fd = local k fd
    | (inr _, k') => open_fds k' = open_fds k end;
  k_setsockopt_fds : forall fd l o v k, open_fds (k_setsockopt fd l o v k).2 = open_fds k /\
    (forall r, (k_setsockopt fd l o v k).1 = inl r -> r = 0);
  k_sclose_fds : forall fd k, open_fds (k_sclose fd k).2 = open_fds k ∖ {[fd]}
}.

Section Correct.
Context {K : Type} `{!SocketOps K, !SocketLaws K}.
Implicit Types (p : proc K) (fd : Z).

(** [k'] has the descriptors of [k], or those and [fd]. *)
Definition same_fds (k k' : K) : Prop := open_fds k' = open_fds k.
Definition one_more (k k' : K) (fd : Z) : Prop :=
  0 <= fd /\ (fd ∉ open_fds k) /\ open_fds k' = {[fd]} ∪ open_fds k.

Lemma one_more_same k k1 k2 fd : one_more k k1 fd -> same_fds k1 k2 -> one_more k k2 fd.
Proof. unfold one_more, same_fds. intros (? & ? & <-) ->. done. Qed.

Lemma same_more k k1 k2 fd : same_fds k k1 -> one_more k1 k2 fd -> one_more k k2 fd.
Proof. unfold one_more, same_fds. by intros ->. Qed.

Lemma wp_socket f t pr p (Q : outcome Z -> proc K -> Prop) :
  (forall fd k', one_more (kern p) k' fd -> Q (Ret fd) (Proc k' (errno p) (trace p))) ->
  (forall e k', same_fds (kern p) k' -> Q (Ret (-1)) (Proc k' e (trace p))) -> wp (socket f t pr) p Q.
Proof.
  intros H1 H2. apply wp_syscall. pose proof (k_socket_fds f t pr (kern p)) as Hs.
  destruct (k_socket f t pr (kern p)) as [[fd|e] k']; auto.
Qed.

(** The calls that leave the descriptors alone. *)
Lemma wp_connect k0 fd a p (Q : outcome Z -> proc K -> Prop) :
  one_more k0 (kern p) fd ->
  (forall k', one_more k0 k' fd -> peer k' fd = Some a -> Q (Ret 0) (Proc k' (errno p) (trace p))) ->
  (forall e k', one_more k0 k' fd -> Q (Ret (-1)) (Proc k' e (trace p))) -> wp (connect fd a) p Q.
Proof.
  intros H0 H1 H2. apply wp_syscall. pose proof (k_connect_fds fd a (kern p)) as Hs.
  destruct (k_connect fd a (kern p)) as [[r|e] k'].
  - destruct Hs as (-> & ? & ?). apply H1; [by eapply one_more_same|done].
  - apply H2. by eapply one_more_same.
Qed.

Lemma wp_bind_call k0 fd a p (Q : outcome Z -> proc K -> Prop) :
  one_more k0 (kern p) fd ->
  (forall k', one_more k0 k' fd -> local k' fd = Some a -> Q (Ret 0) (Proc k' (errno p) (trace p))) ->
  (forall e k', one_more k0 k' fd -> Q (Ret (-1)) (Proc k' e (trace p))) -> wp (bind fd a) p Q.
Proof.
  intros H0 H1 H2. apply wp_syscall. pose proof (k_bind_fds fd a (kern p)) as Hs.
  destruct (k_bind fd a (kern p)) as [[r|e] k'].
  - destruct Hs as (-> & ? & ?). apply H1; [by eapply one_more_same|done].
  - apply H2. by eapply one_more_same.
Qed.

Lemma wp_listen k0 fd b p (Q : outcome Z -> proc K -> Prop) :
  one_more k0 (kern p) fd ->
  (forall k', one_more k0 k' fd -> local k' fd = local (kern p) fd -> k_listen fd b (kern p) = (inl 0, k') ->
     Q (Ret 0) (Proc k' (errno p) (trace p))) ->
  (forall e k', one_more k0 k' fd -> k_listen fd b (kern p) = (inr e, k') -> Q (Ret (-1)) (Proc k' e (trace p))) ->
  wp (listen fd b) p Q.
Proof.
  intros H0 H1 H2. apply wp_syscall. pose proof (k_listen_fds fd b (kern p)) as Hs.
  destruct (k_listen fd b (kern p)) as [[r|e] k'].
  - destruct Hs as (-> & ? & ?). apply H1; [by eapply one_more_same|done|done].
  - apply H2; [by eapply one_more_same|done].
Qed.

Lemma wp_setsockopt k0 fd l o v p (Q : outcome Z -> proc K -> Prop) :
  one_more k0 (kern p) fd ->
  (forall k', one_more k0 k' fd -> Q (Ret 0) (Proc k' (errno p) (trace p))) ->
  (forall e k', one_more k0 k' fd -> Q (Ret (-1)) (Proc k' e (trace p))) -> wp (setsockopt fd l o v) p Q.
Proof.
  intros H0 H1 H2. apply wp_syscall. destruct (k_setsockopt_fds fd l o v (kern p)) as [Hs Hr].
  destruct (k_setsockopt fd l o v (kern p)) as [[r|e] k']; simpl in *.
  - rewrite (Hr r eq_refl). apply H1. by eapply one_more_same.
  - apply H2. by eapply one_more_same.
Qed.

Lemma wp_sclose k0 fd p (Q : outcome Z -> proc K -> Prop) :
  one_more k0 (kern p) fd ->
  (forall r e k', same_fds k0 k' -> Q (Ret r) (Proc k' e (trace p))) -> wp (sclose fd) p Q.
Proof.
  intros (_ & Hf & Ho) HQ. apply wp_syscall. pose proof (k_sclose_fds fd (kern p)) as Hs.
  assert (same_fds k0 (k_sclose fd (kern p)).2) as Hsame.
  { unfold same_fds. rewrite Hs, Ho. set_solver. }
  destruct (k_sclose fd (kern p)) as [[r|e] k']; by apply HQ.
Qed.

Lemma fd_not_minus_1 k k' fd : one_more k k' fd -> (fd =? -1) = false.
Proof. intros [? _]. apply Z.eqb_neq. lia. Qed.

Lemma connect_first_spec rps p :
  wp (connect_first rps) p (fun o p' => match o with
    | Ret None => same_fds (kern p) (kern p')
    | Ret (Some (fd, rp)) => rp ∈ rps /\ one_more (kern p) (kern p') fd /\ peer (kern p') fd = Some (ai_addr rp)
    | _ => False end).
Proof.
  revert p. induction rps as [|rp rps IH]; intros p; [by apply wp_ret|].
  assert (forall p1, same_fds (kern p) (kern p1) -> wp (connect_first rps) p1 (fun o p' => match o with
    | Ret None => same_fds (kern p) (kern p')
    | Ret (Some (fd, rp')) => rp' ∈ rp :: rps /\ one_more (kern p) (kern p') fd /\ peer (kern p') fd = Some (ai_addr rp')
    | _ => False end)) as Hnext.
  { intros p1 H1. eapply wp_mono; [apply IH|]. intros [[[fd rp']|]| | | |] p2; try done.
    - intros (? & ? & ?). split_and!; [by right|by eapply same_more|done].
    - unfold same_fds in *. congruence. }
  cbn [connect_first]. apply wp_bind, wp_socket; [|intros e k' Hs; by apply Hnext].
  intros fd k1 H1. cbn [recast]. rewrite (fd_not_minus_1 _ _ _ H1).
  apply wp_bind, (wp_connect (kern p)); cbn [kern]; [done| |]; intros.
  - apply wp_ret. split_and!; [by left|done|done].
  - apply wp_bind, (wp_sclose (kern p)); [done|]. intros. by apply Hnext.
Qed.

Lemma bind_first_spec doListen rps p :
  wp (bind_first doListen rps) p (fun o p' => match o with
    | Ret (inl None) | Ret (inr _) => same_fds (kern p) (kern p')
    | Ret (inl (Some (fd, rp))) => rp ∈ rps /\ one_more (kern p) (kern p') fd /\ local (kern p') fd = Some (ai_addr rp)
    | _ => False end).
Proof.
  revert p. induction rps as [|rp rps IH]; intros p; [by apply wp_ret|].
  assert (forall p1, same_fds (kern p) (kern p1) -> wp (bind_first doListen rps) p1 (fun o p' => match o with
    | Ret (inl None) | Ret (inr _) => same_fds (kern p) (kern p')
    | Ret (inl (Some (fd, rp'))) =>
        rp' ∈ rp :: rps /\ one_more (kern p) (kern p') fd /\ local (kern p') fd = Some (ai_addr rp')
    | _ => False end)) as Hnext.
  { intros p1 H1. eapply wp_mono; [apply IH|]. intros [[[[fd rp']|]|]| | | |] p2; try done.
    - intros (? & ? & ?). split_and!; [by right|by eapply same_more|done].
    - unfold same_fds in *. congruence.
    - unfold same_fds in *. congruence. }
  cbn [bind_first]. apply wp_bind, wp_socket; [|intros e k' Hs; by apply Hnext].
  intros fd k1 H1. cbn [recast]. rewrite (fd_not_minus_1 _ _ _ H1).
  assert (forall k2 e2 t2, one_more (kern p) k2 fd ->
    wp (b ← bind fd (ai_addr rp); if b =? 0 then mret (inl (Some (fd, rp))) else sclose fd ;; bind_first doListen rps)
       (Proc k2 e2 t2) (fun o p' => match o with
      | Ret (inl None) | Ret (inr _) => same_fds (kern p) (kern p')
      | Ret (inl (Some (fd, rp'))) =>
          rp' ∈ rp :: rps /\ one_more (kern p) (kern p') fd /\ local (kern p') fd = Some (ai_addr rp')
      | _ => False end)) as Hbind.
  { intros k2 e2 t2 H2. apply wp_bind, (wp_bind_call (kern p)); cbn [kern]; [done| |]; intros.
    - apply wp_ret. split_and!; [by left|done|done].
    - apply wp_bind, (wp_sclose (kern p)); [done|]. intros. by apply Hnext. }
  destruct doListen; [|by apply wp_bind, wp_ret, Hbind].
  apply wp_bind, (wp_setsockopt (kern p)); cbn [kern]; [done|intros; by apply Hbind|].
  intros. apply wp_bind, (wp_sclose (kern p)); [done|]. by intros.
Qed.

(** A function returns -1 and leaves the descriptors as they were, or returns a new descriptor that
    satisfies [R]. *)
Definition makes (R : K -> Z -> Prop) (p : proc K) (o : outcome Z) (p' : proc K) : Prop :=
  exists fd, o = Ret fd /\
    (fd = -1 /\ same_fds (kern p) (kern p') \/ one_more (kern p) (kern p') fd /\ R (kern p') fd).

Lemma makes_none R p p' : same_fds (kern p) (kern p') -> makes R p (Ret (-1)) p'.
Proof. intros. exists (-1). auto. Qed.

Lemma makes_one (R : K -> Z -> Prop) p p' fd : one_more (kern p) (kern p') fd -> R (kern p') fd -> makes R p (Ret fd) p'.
Proof. intros. exists fd. auto. Qed.

Lemma wp_getaddrinfo h s hi p (Q : outcome (list addrinfo + Z) -> proc K -> Prop) :
  (forall r k', (k_getaddrinfo h s hi (kern p)).1 = r -> same_fds (kern p) k' -> Q (Ret r) (Proc k' (errno p) (trace p))) ->
  wp (getaddrinfo h s hi) p Q.
Proof.
  intros HQ. unfold wp, getaddrinfo. pose proof (k_getaddrinfo_fds h s hi (kern p)) as Hs.
  destruct (k_getaddrinfo h s hi (kern p)) as [r k']. by apply HQ.
Qed.

(** The addresses that getaddrinfo gives. *)
Definition addresses (h s : option bytes) (hi : hints) (k : K) : list addrinfo :=
  match (k_getaddrinfo h s hi k).1 with inl l => l | inr _ => [] end.

Lemma inetConnect_makes host service type p :
  wp (inetConnect host service type) p
     (makes (fun k fd => exists rp, rp ∈ addresses host service (Hints AF_UNSPEC type 0) (kern p) /\
                                    peer k fd = Some (ai_addr rp)) p).
Proof.
  unfold inetConnect, addresses. apply wp_bind, wp_getaddrinfo. intros r k1 Hr H1. cbn [recast]. rewrite Hr.
  destruct r as [result|e]; [|by apply wp_bind, wp_set_errno, wp_ret, makes_none].
  apply wp_bind. eapply wp_mono; [apply connect_first_spec|].
  intros [[[fd rp]|]| | | |] p2; try done; cbn [kern].
  - intros (? & ? & ?). apply wp_ret, makes_one; [by eapply same_more|eauto].
  - intros. apply wp_ret, makes_none. unfold same_fds in *. congruence.
Qed.

(** [listen] was the last call made, on a socket that is the one more of [k0] and bound to the address
    of [rp], with the result [r]. *)
Definition listened (k0 k' : K) (backlog : Z) (fd : Z) (addr : bytes) (r : Z + Z) : Prop :=
  exists k1, one_more k0 k1 fd /\ local k1 fd = Some addr /\ k_listen fd backlog k1 = (r, k').

(** The descriptors after [inetPassiveSocket]: one more when listen fails, too, though the function
    returns -1. *)
Lemma inetPassiveSocket_makes service type addrlen doListen backlog p :
  let infos := addresses None service (Hints AF_UNSPEC type AI_PASSIVE) (kern p) in
  wp (inetPassiveSocket service type addrlen doListen backlog) p (fun o p' =>
    exists r, o = Ret r /\
      (r.1 = -1 /\ (same_fds (kern p) (kern p') \/
                    doListen = true /\ exists fd rp e, rp ∈ infos /\ listened (kern p) (kern p') backlog fd (ai_addr rp) (inr e)) \/
       one_more (kern p) (kern p') r.1 /\
       exists rp, rp ∈ infos /\ local (kern p') r.1 = Some (ai_addr rp) /\
                  r.2 = (if addrlen then Some (ai_addrlen rp) else None) /\
                  (doListen = true -> listened (kern p) (kern p') backlog r.1 (ai_addr rp) (inl 0)))).
Proof.
  unfold inetPassiveSocket, addresses. apply wp_bind, wp_getaddrinfo. intros r k1 Hr H1. cbn [recast]. rewrite Hr.
  destruct r as [result|e]; [|apply wp_ret; exists (-1, None); eauto].
  apply wp_bind. eapply wp_mono; [apply bind_first_spec|].
  intros [[[[fd rp]|]|]| | | |] p2; try done; cbn [kern].
  - intros (Hin & H2 & Hl). apply (same_more _ _ _ _ H1) in H2.
    destruct doListen.
    + apply wp_bind, (wp_listen (kern p)); [done| |]; intros; apply wp_ret.
      * exists (fd, if addrlen then Some (ai_addrlen rp) else None). split; [done|]. right. split; [done|].
        exists rp. split_and!; try done; [simpl; congruence|]. intros _. by exists (kern p2).
      * exists (-1, None). split; [done|]. left. split; [done|]. right. split; [done|]. exists fd, rp, e. split; [done|].
        by exists (kern p2).
    + apply wp_bind, wp_ret, wp_ret. exists (fd, if addrlen then Some (ai_addrlen rp) else None).
      split; [done|]. right. split; [done|]. by exists rp.
  - intros. apply wp_ret. exists (-1, None). split; [done|]. left. split; [done|]. left. unfold same_fds in *. congruence.
  - intros. apply wp_ret. exists (-1, None). split; [done|]. left. split; [done|]. left. unfold same_fds in *. congruence.
Qed.

(** The address of a path. *)
Definition sun_path (s : bytes) : bytes := s ++ replicate (Z.to_nat SUN_PATH - length s) NUL.

Lemma unixBuildAddress_spec path p :
  wp (unixBuildAddress path) p (fun o p' => kern p' = kern p /\
    ((exists s, path = Some s /\ strlen s < SUN_PATH - 1 /\ o = Ret (0, sun_path s) /\ errno p' = errno p) \/
     o = Ret (-1, []) /\ errno p' = EINVAL)).
Proof.
  unfold unixBuildAddress. destruct path as [s|]; [|apply wp_bind, wp_set_errno, wp_ret; by auto].
  destruct (SUN_PATH - 1 <=? strlen s) eqn:E; z_bool.
  - apply wp_bind, wp_set_errno, wp_ret. auto.
  - rewrite (proj2 (Z.ltb_lt _ _)) by lia. apply wp_ret. split; [done|]. left. exists s.
    split_and!; try done. unfold sun_path. unfold strlen in E. rewrite take_ge; [done|].
    unfold SUN_PATH in *. lia.
Qed.

Lemma wp_close_quietly k0 fd R p :
  one_more k0 (kern p) fd ->
  wp (close_quietly fd) p (fun o p' => makes R (Proc k0 0 []) o p' /\ errno p' = errno p).
Proof.
  intros H1. unfold close_quietly. apply wp_bind, wp_get_errno, wp_bind, (wp_sclose k0); [done|].
  intros. apply wp_bind, wp_set_errno, wp_ret. split; [by apply makes_none|done].
Qed.

Lemma unixConnect_makes path type p :
  wp (unixConnect path type) p
     (makes (fun k fd => exists s, path = Some s /\ peer k fd = Some (sun_path s)) p).
Proof.
  unfold unixConnect. apply wp_bind. eapply wp_mono; [apply unixBuildAddress_spec|].
  intros o p1 (Hk & [(s & -> & Hl & -> & _)|[-> _]]); cbn [fst snd]; [|by apply wp_ret, makes_none; unfold same_fds; rewrite Hk].
  apply wp_bind, wp_socket; rewrite Hk; intros; [|by apply wp_ret, makes_none].
  cbn [recast]. rewrite (fd_not_minus_1 _ _ _ H).
  apply wp_bind, (wp_connect (kern p)); cbn [kern]; [done| |]; intros.
  - apply wp_ret, makes_one; eauto.
  - eapply wp_mono; [apply (wp_close_quietly (kern p) _ (fun _ _ => False)); done|].
    intros o p2 [(fd' & -> & [[-> ?]|[_ []]]) _]. by apply makes_none.
Qed.

Lemma unixPassiveSocket_makes path type doListen backlog p :
  wp (unixPassiveSocket path type doListen backlog) p
     (fun o p' => makes (fun k fd => exists s, path = Some s /\ local k fd = Some (sun_path s) /\
        (doListen = true -> listened (kern p) k backlog fd (sun_path s) (inl 0))) p o p').
Proof.
  unfold unixPassiveSocket. apply wp_bind. eapply wp_mono; [apply unixBuildAddress_spec|].
  intros o p1 (Hk & [(s & -> & Hl & -> & _)|[-> _]]); cbn [fst snd]; [|by apply wp_ret, makes_none; unfold same_fds; rewrite Hk].
  apply wp_bind, wp_socket; rewrite Hk; intros; [|by apply wp_ret, makes_none].
  cbn [recast]. rewrite (fd_not_minus_1 _ _ _ H).
  assert (forall p2, one_more (kern p) (kern p2) fd ->
    wp (close_quietly fd) p2 (makes (fun k fd => exists s0, Some s = Some s0 /\ local k fd = Some (sun_path s0) /\ (doListen = true -> listened (kern p) k backlog fd (sun_path s0) (inl 0))) p)) as Hclose.
  { intros p2 H2. eapply wp_mono; [apply (wp_close_quietly (kern p) _ (fun _ _ => False)); done|].
    intros o p3 [(fd' & -> & [[-> ?]|[_ []]]) _]. by apply makes_none. }
  apply wp_bind, (wp_bind_call (kern p)); cbn [kern]; [done| |]; intros; [|by apply Hclose].
  destruct doListen; [|apply wp_bind, wp_ret, wp_ret, makes_one; [done|by exists s]].
  apply wp_bind, (wp_listen (kern p)); cbn [kern]; [done| |]; intros; [|by apply Hclose].
  apply wp_ret, makes_one; [done|]. cbn [kern]. exists s. split_and!; [done|congruence|]. intros _. eexists. split_and!; [| |done]; done.
Qed.

(** C38: descriptors.  [inetConnect], [inetBind], [unixConnect], [unixBind] and [unixListen] either
    return -1 with the process's descriptors as they were, whatever failed on the way, or return
    one new descriptor, connected or bound to an address that getaddrinfo gave for the arguments
    (to the given path).  So does [inetListen], whose address is bound to, too, except in one case:
    when listen was the last call it made, on a new socket bound to such an address, and failed, it
    returns -1 and leaves that socket open.  The sockets of the two functions that listen are those
    on which listen succeeded. *)
Theorem sockets_leak_nothing host service path type backlog addrlen p :
  let infos h t fl := addresses h service (Hints AF_UNSPEC t fl) (kern p) in
  wp (inetConnect host service type) p
     (makes (fun k fd => exists rp, rp ∈ infos host type 0 /\ peer k fd = Some (ai_addr rp)) p) /\
  wp (inetBind service type addrlen) p (fun o p' => exists r, o = Ret r /\
     makes (fun k fd => exists rp, rp ∈ infos None type AI_PASSIVE /\ local k fd = Some (ai_addr rp)) p (Ret r.1) p') /\
  wp (unixConnect path type) p (makes (fun k fd => exists s, path = Some s /\ peer k fd = Some (sun_path s)) p) /\
  wp (unixBind path type) p (makes (fun k fd => exists s, path = Some s /\ local k fd = Some (sun_path s)) p) /\
  wp (unixListen path backlog) p (makes (fun k fd => exists s, path = Some s /\ local k fd = Some (sun_path s) /\
     listened (kern p) k backlog fd (sun_path s) (inl 0)) p) /\
  wp (inetListen service backlog addrlen) p (fun o p' => exists r, o = Ret r /\
     (makes (fun k fd => exists rp, rp ∈ infos None SOCK_STREAM AI_PASSIVE /\ local k fd = Some (ai_addr rp) /\
               r.2 = (if addrlen then Some (ai_addrlen rp) else None) /\
               listened (kern p) k backlog fd (ai_addr rp) (inl 0)) p (Ret r.1) p' \/
      r.1 = -1 /\ exists fd rp e, rp ∈ infos None SOCK_STREAM AI_PASSIVE /\
               listened (kern p) (kern p') backlog fd (ai_addr rp) (inr e))).
Proof.
  cbv zeta. split_and!.
  - apply inetConnect_makes.
  - eapply wp_mono; [apply inetPassiveSocket_makes|].
    intros o p' (r & -> & [(E & [Hs|[[=] _]])|(H1 & rp & Hin & Hl & _)]); exists r; (split; [done|]).
    + rewrite E. by apply makes_none.
    + apply makes_one; eauto.
  - apply unixConnect_makes.
  - eapply wp_mono; [apply unixPassiveSocket_makes|]. intros o p' (fd & -> & [Hf|(Hf & s & ? & ? & _)]); exists fd; eauto 6.
  - eapply wp_mono; [apply unixPassiveSocket_makes|]. intros o p' (fd & -> & [Hf|(Hf & s & ? & ? & Hl)]); exists fd; eauto 8.
  - eapply wp_mono; [apply inetPassiveSocket_makes|].
    intros o p' (r & -> & [(E & [Hs|[_ Hs]])|(H1 & rp & Hin & Hl & Hr & Hlis)]); exists r; (split; [done|]).
    + left. rewrite E. by apply makes_none.
    + by right.
    + left. apply makes_one; [done|]. exists rp. auto.
Qed.
End Correct.

(** ** A simulated kernel

    One address for every service; [s_refuse] says whether listen fails. *)
Record socks := Socks { s_open : gset Z; s_peer : gmap Z bytes; s_local : gmap Z bytes; s_refuse : bool }.

Definition new_fd (k : socks) : Z := set_fold Z.max 2 (s_open k) + 1.

Lemma new_fd_fresh k : 0 <= new_fd k /\ (new_fd k ∉ s_open k).
Proof.
  unfold new_fd.
  assert (2 <= set_fold Z.max 2 (s_open k) /\ forall x, x ∈ s_open k -> x <= set_fold Z.max 2 (s_open k)) as [H1 H2].
  { apply (set_fold_ind_L (fun b X => 2 <= b /\ forall x, x ∈ X -> x <= b)); [set_solver|].
    intros x X b Hx [Hb IH]. split; [lia|]. intros y [->%elem_of_singleton|Hy]%elem_of_union; [lia|].
    specialize (IH y Hy). lia. }
  split; [lia|]. intros Hin%H2. lia.
Qed.

#[export] Instance socks_ops : SocketOps socks := {|
  k_getaddrinfo := fun h s hi k => (inl [Addrinfo 2 (h_socktype hi) 6 (str "0.0.0.0:50000") 16], k);
  k_getnameinfo := fun a k => (inr 1, k);
  k_socket := fun _ _ _ k => (inl (new_fd k), Socks ({[new_fd k]} ∪ s_open k) (s_peer k) (s_local k) (s_refuse k));
  k_connect := fun fd a k => (inl 0, Socks (s_open k) (<[fd := a]> (s_peer k)) (s_local k) (s_refuse k));
  k_bind := fun fd a k => (inl 0, Socks (s_open k) (s_peer k) (<[fd := a]> (s_local k)) (s_refuse k));
  k_listen := fun _ _ k => (if s_refuse k then inr EINVAL else inl 0, k);
  k_setsockopt := fun _ _ _ _ k => (inl 0, k);
  k_sclose := fun fd k => (inl 0, Socks (s_open k ∖ {[fd]}) (s_peer k) (s_local k) (s_refuse k))
|}.

#[export] Program Instance socks_laws : SocketLaws socks := {|
  open_fds := s_open; peer := fun k fd => s_peer k !! fd; local := fun k fd => s_local k !! fd
|}.
Next Obligation. done. Qed.
Next Obligation. intros f t p k. simpl. by destruct (new_fd_fresh k). Qed.
Next Obligation. intros fd a k. simpl. by rewrite lookup_insert_eq. Qed.
Next Obligation. intros fd a k. simpl. by rewrite lookup_insert_eq. Qed.
Next Obligation. intros fd b k. simpl. by destruct (s_refuse k). Qed.
Next Obligation. intros fd l o v k. simpl. split; [done|]. by intros r [= <-]. Qed.
Next Obligation. done. Qed.

(** When listen fails, [inetListen] leaves the socket behind. *)
Lemma inetListen_leaks :
  exists k, open_fds k = ∅ /\
    let '(o, p') := inetListen (Some (str "50000")) 5 false (Proc k 0 []) in
    o = Ret (-1, None) /\ open_fds (kern p') <> ∅.
Proof. exists (Socks ∅ ∅ ∅ true). split; [done|]. vm_compute. split; [done|]. by intros [=]. Qed.

Lemma sockets_leak_nothing_witness :
  exists fd k', inetConnect (Some (str "localhost")) (Some (str "50000")) SOCK_STREAM (Proc (Socks ∅ ∅ ∅ false) 0 [])
                = (Ret fd, Proc k' 0 []) /\ one_more (Socks ∅ ∅ ∅ false) k' fd /\ peer k' fd = Some (str "0.0.0.0:50000").
Proof.
  destruct (sockets_leak_nothing (Some (str "localhost")) (Some (str "50000")) None SOCK_STREAM 0 false
              (Proc (Socks ∅ ∅ ∅ false) 0 [])) as (Hc & _).
  destruct Hc as (fd & E & [[-> _]|[H1 (rp & Hin & Hp)]]); [by vm_compute in E|].
  exists fd, (Socks {[3]} {[3 := str "0.0.0.0:50000"]} ∅ false).
  apply list_elem_of_singleton in Hin as ->. vm_compute in E. injection E as <-.
  split; [by vm_compute|]. split; [exact H1|exact Hp].
Defined.
