(* ===== verification/Seqnum.v ===== *)
(** * Sequence-number servers

    is_seqnum_sv.c and is_seqnum_cl.c (tlpi-dist/sockets), over connections, with their version 2, and
    fifo_seqnum_server.c and fifo_seqnum_client.c (tlpi-dist/pipes), over FIFOs.  A client asks for
    a number of sequence numbers and gets the first of them.  The servers never end: what they do
    is described for any number of rounds of their loop.  The walks over the addresses, [readLine]
    and [getInt] are those of the other files. *)

From Stdlib Require Import ZArith Lia String Ascii.
From S2P Require Import Prelude CString Kernel GetNum Transfer ErrorFns Sockets.

Definition PORT_NUM : bytes := str "50000".
Definition INT_LEN : Z := 30.
Definition BACKLOG : Z := 50.
Definition ADDRSTRLEN : Z := 1025 + 32 + 10.
Definition AI_NUMERICSERV : Z := 1024.
Definition SIGPIPE : Z := 13.

Definition HELP : bytes := str "--help".
Definition asks_help (argv : list bytes) : bool :=
  match argv !! 1%nat with Some a => strcmp a HELP =? 0 | None => false end.

Class Acceptor (K : Type) := {
  k_accept : Z -> K -> (Z * bytes + Z) * K;      (* the new socket and the client's address *)
  k_ignore : Z -> K -> (unit + Z) * K            (* signal(sig, SIG_IGN) *)
}.

(** ** is_seqnum_sv.c *)

Section Server.
Context {K : Type} `{!Messages, !FileIO K, !SocketOps K, !Acceptor K}.

Definition accept (lfd : Z) : M (proc K) (option (Z * bytes)) :=
  syscall None (fun k => let '(r, k') := k_accept lfd k in (match r with inl c => inl (Some c) | inr e => inr e end, k')).
Definition ignore_signal (sig : Z) : M (proc K) bool :=
  syscall false (fun k => let '(r, k') := k_ignore sig k in (match r with inl _ => inl true | inr e => inr e end, k')).

(** The walk of the server: a failed setsockopt ends the program. *)
Fixpoint sv_bind_first (rps : list addrinfo) : M (proc K) (option Z) :=
  match rps with
  | [] => mret None
  | rp :: rps' =>
      lfd ← socket (ai_family rp) (ai_socktype rp) (ai_protocol rp);
      if lfd =? -1 then sv_bind_first rps'
      else
        o ← setsockopt lfd SOL_SOCKET SO_REUSEADDR 1;
        if o =? -1 then errExit (str "setsockopt")
        else
          b ← bind lfd (ai_addr rp);
          if b =? 0 then mret (Some lfd) else sclose lfd ;; sv_bind_first rps'
  end.

(** Up to the loop: the listening socket and the first number. *)
Definition sv_setup (argv : list bytes) : M (proc K) (Z * Z) :=
  (if asks_help argv then usageErr (default [] (argv !! 0%nat) ++ str " [init-seq-num]" ++ [NL]) else mret tt) ;;
  seqNum ← match argv !! 1%nat with
           | Some a => n ← getInt (Some a) 0 (Some (str "init-seq-num")); mret (u32 n)
           | None => mret 0
           end;
  ok ← ignore_signal SIGPIPE;
  if negb ok then errExit (str "signal")
  else
    s ← getaddrinfo None (Some PORT_NUM) (Hints AF_UNSPEC SOCK_STREAM (Z.lor AI_PASSIVE AI_NUMERICSERV));
    match s with
    | inr _ => errExit (str "getaddrinfo")
    | inl result =>
        r ← sv_bind_first result;
        match r with
        | None => fatal (str "Could not bind socket to any address")
        | Some lfd =>
            l ← listen lfd BACKLOG;
            if l =? -1 then errExit (str "listen") else mret (lfd, seqNum)
        end
    end.

(** One round of the loop; the result is the next number. *)
Definition sv_round (fuel : nat) (lfd seqNum : Z) : M (proc K) Z :=
  r ← accept lfd;
  match r with
  | None => errMsg (str "accept") ;; mret seqNum
  | Some (cfd, claddr) =>
      addrStr ← inetAddressStr claddr ADDRSTRLEN;
      printf (str "Connection from " ++ addrStr ++ [NL]) ;;
      r ← readLine fuel cfd true INT_LEN;
      let '(numRead, reqLenStr) := r in
      if numRead <=? 0 then sclose cfd ;; mret seqNum
      else
        let reqLen := atoi reqLenStr in
        if reqLen <=? 0 then sclose cfd ;; mret seqNum
        else
          let seqNumStr := take (Z.to_nat (INT_LEN - 1)) (dec (s32 seqNum) ++ [NL]) in
          w ← write cfd seqNumStr;
          (if negb (w =? strlen seqNumStr) then eprintf (str "Error on write") else mret tt) ;;
          c ← sclose cfd;
          (if c =? -1 then errMsg (str "close") else mret tt) ;;
          mret (u32 (seqNum + reqLen))
  end.

Fixpoint sv_rounds (n fuel : nat) (lfd seqNum : Z) : M (proc K) Z :=
  match n with
  | O => mret seqNum
  | Datatypes.S n' => seqNum ← sv_round fuel lfd seqNum; sv_rounds n' fuel lfd seqNum
  end.

Definition sv_main (argv : list bytes) (n fuel : nat) : M (proc K) Z :=
  s ← sv_setup argv; let '(lfd, seqNum) := s in sv_rounds n fuel lfd seqNum.

(** Version 2 makes its socket with [inetListen]; [malloc_ok] says whether there is room for an address of this length. *)
Definition sv_setup_v2 (malloc_ok : Z -> bool) (argv : list bytes) : M (proc K) (Z * Z) :=
  (if asks_help argv then usageErr (default [] (argv !! 0%nat) ++ str " [init-seq-num]" ++ [NL]) else mret tt) ;;
  seqNum ← match argv !! 1%nat with
           | Some a => n ← getInt (Some a) 0 (Some (str "init-seq-num")); mret (u32 n)
           | None => mret 0
           end;
  ok ← ignore_signal SIGPIPE;
  if negb ok then errExit (str "signal")
  else
    r ← inetListen (Some PORT_NUM) 5 true;
    let '(lfd, addrlen) := r in
    if lfd =? -1 then fatal (str "inetListen() failed")
    else if malloc_ok (default 0 addrlen) then mret (lfd, seqNum) else errExit (str "malloc").

Definition sv_main_v2 (malloc_ok : Z -> bool) (argv : list bytes) (n fuel : nat) : M (proc K) Z :=
  s ← sv_setup_v2 malloc_ok argv; let '(lfd, seqNum) := s in sv_rounds n fuel lfd seqNum.

(** ** is_seqnum_cl.c *)

(** What printf prints of an array that holds a string. *)
Definition c_str (buf : bytes) : bytes := (span (fun c => negb (Ascii.eqb c NUL)) buf).1.

Definition cl_talk (fuel : nat) (cfd : Z) (reqLenStr : bytes) : M (proc K) unit :=
  w ← write cfd reqLenStr;
  (if negb (w =? strlen reqLenStr) then fatal (str "Partial/failed write (reqLenStr)") else mret tt) ;;
  w ← write cfd [NL];
  (if negb (w =? 1) then fatal (str "Partial/failed write (newline)") else mret tt) ;;
  r ← readLine fuel cfd true INT_LEN;
  let '(numRead, seqNumStr) := r in
  (if numRead =? -1 then errExit (str "readLine") else mret tt) ;;
  (if numRead =? 0 then fatal (str "Unexpected EOF from server") else mret tt) ;;
  printf (str "Sequence number: " ++ c_str seqNumStr) ;;
  exit_ EXIT_SUCCESS.

Definition cl_main (argv : list bytes) (fuel : nat) : M (proc K) unit :=
  (if bool_decide (length argv < 2)%nat || asks_help argv
   then usageErr (default [] (argv !! 0%nat) ++ str " server-host [sequence-len]" ++ [NL]) else mret tt) ;;
  s ← getaddrinfo (argv !! 1%nat) (Some PORT_NUM) (Hints AF_UNSPEC SOCK_STREAM AI_NUMERICSERV);
  match s with
  | inr _ => errExit (str "getaddrinfo")
  | inl result =>
      r ← connect_first result;
      match r with
      | None => fatal (str "Could not connect socket to any address")
      | Some (cfd, _) => cl_talk fuel cfd (default (str "1") (argv !! 2%nat))
      end
  end.

Definition cl_main_v2 (argv : list bytes) (fuel : nat) : M (proc K) unit :=
  (if bool_decide (length argv < 2)%nat || asks_help argv
   then usageErr (default [] (argv !! 0%nat) ++ str " server-host [sequence-len]" ++ [NL]) else mret tt) ;;
  cfd ← inetConnect (argv !! 1%nat) (Some PORT_NUM) SOCK_STREAM;
  if cfd =? -1 then fatal (str "inetConnect() failed") else cl_talk fuel cfd (default (str "1") (argv !! 2%nat)).
End Server.

(** *** The numbers that are granted *)

(** A connection that has been served: what the client sent, what it was sent, and whether reading
    from it could fail. *)
Record conn := Conn { asked : bytes; sent : bytes; faulty : bool }.

(** [asked_on] and [faulty_on] belong to an open connection, [closed] are those that are over, in
    order.  Every client sends, and is interrupted, less than [conn_size]. *)
Class ServerLaws (K : Type) `{!FileIO K, !SourceLaws K, !SinkLaws K, !SocketOps K, !Acceptor K} := {
  conn_size : nat;
  asked_on : K -> Z -> bytes;
  faulty_on : K -> Z -> bool;
  closed : K -> list conn;
  k_accept_conn : forall k lfd, match k_accept lfd k with
    | (inl (cfd, _), k') => sunk k' cfd = [] /\ asked_on k' cfd = pending k' cfd /\ closed k' = closed k /\
                            (length (pending k' cfd) + rdelays k' cfd < conn_size)%nat
    | (inr _, k') => closed k' = closed k end;
  k_getnameinfo_conn : forall a k fd, let k' := (k_getnameinfo a k).2 in
    (closed k', asked_on k' fd, faulty_on k' fd, sunk k' fd, pending k' fd, rdelays k' fd)
    = (closed k, asked_on k fd, faulty_on k fd, sunk k fd, pending k fd, rdelays k fd);
  k_read_conn : forall fd n k fd', let k' := (k_read fd n k).2 in
    (closed k', asked_on k' fd', faulty_on k' fd', sunk k' fd') = (closed k, asked_on k fd', faulty_on k fd', sunk k fd');
  k_read_faulty : forall fd n k e k', k_read fd n k = (inr e, k') -> e <> EINTR -> faulty_on k fd = true;
  k_write_conn : forall fd data k, let k' := (k_write fd data k).2 in
    (closed k', asked_on k' fd, faulty_on k' fd) = (closed k, asked_on k fd, faulty_on k fd);
  k_sclose_conn : forall fd k,
    closed (k_sclose fd k).2 = closed k ++ [Conn (asked_on k fd) (sunk k fd) (faulty_on k fd)]
}.

(** The length a client asks for. *)
Definition request (a : bytes) : Z := atoi (take (Z.to_nat (INT_LEN - 1)) (line_of a) ++ [NUL]).

(** [served seq cs gs seq']: from [seq], the connections [cs] are granted [gs], each as its first
    number and its length, and [seq'] is left.  A refused client is sent nothing: it sent nothing,
    or no positive number, or could not be read from. *)
Inductive served : Z -> list conn -> list (Z * Z) -> Z -> Prop :=
| served_none seq : served seq [] [] seq
| served_grant seq a b f cs gs seq' :
    0 < request a -> b `prefix_of` dec (s32 seq) ++ [NL] ->
    served (u32 (seq + request a)) cs gs seq' ->
    served seq (Conn a b f :: cs) ((seq, request a) :: gs) seq'
| served_refuse seq a f cs gs seq' :
    f = true \/ a = [] \/ request a <= 0 -> served seq cs gs seq' ->
    served seq (Conn a [] f :: cs) gs seq'.

Lemma served_app seq cs gs seq1 cs' gs' seq2 :
  served seq cs gs seq1 -> served seq1 cs' gs' seq2 -> served seq (cs ++ cs') (gs ++ gs') seq2.
Proof. induction 1; intros; simpl; try constructor; auto. Qed.

Definition total_granted (gs : list (Z * Z)) : Z := foldr (fun g acc => g.2 + acc) 0 gs.

Lemma served_positive seq cs gs seq' : served seq cs gs seq' -> Forall (fun g => 0 < g.2) gs.
Proof. induction 1; auto. Qed.

Lemma u32_add a b : u32 (u32 a + b) = u32 (a + b).
Proof. unfold wrap_u. apply Zplus_mod_idemp_l. Qed.

Lemma served_start seq cs gs seq' i g :
  served seq cs gs seq' -> in_u 32 seq -> gs !! i = Some g -> g.1 = u32 (seq + total_granted (take i gs)).
Proof.
  intros Hs. revert i. induction Hs as [|seq a b f cs gs seq' _ _ _ IH|]; intros i Hseq Hi; [done| |auto].
  destruct i as [|i]; simpl in *; [injection Hi as <-; simpl; by rewrite Z.add_0_r, wrap_u_id|].
  rewrite (IH i) by (done || by apply wrap_u_range). rewrite u32_add. f_equal. lia.
Qed.

Lemma total_granted_app gs gs' : total_granted (gs ++ gs') = total_granted gs + total_granted gs'.
Proof. unfold total_granted. induction gs as [|g gs IH]; simpl in *; [done|]. rewrite IH. lia. Qed.

Lemma total_granted_nonneg gs : Forall (fun g => 0 < g.2) gs -> 0 <= total_granted gs.
Proof. unfold total_granted. induction 1; simpl; lia. Qed.

(** The first [i] grants and the [i]-th come to no more than the first [j], for [i < j]. *)
Lemma total_granted_take gs i j g :
  Forall (fun g => 0 < g.2) gs -> (i < j)%nat -> gs !! i = Some g ->
  total_granted (take i gs) + g.2 <= total_granted (take j gs).
Proof.
  intros Hpos Hij Hi. rewrite <- (take_drop (S i) (take j gs)), take_take, Nat.min_l, total_granted_app by lia.
  rewrite (take_S_r _ _ _ Hi), total_granted_app. cbn [total_granted foldr].
  assert (0 <= total_granted (drop (S i) (take j gs))); [|simpl; lia].
  apply total_granted_nonneg. by apply Forall_drop, Forall_take.
Qed.

Lemma u32_apart s a b : 0 <= a -> a < b -> b < 2 ^ 32 -> u32 (s + a) <> u32 (s + b).
Proof.
  intros Ha Hab Hb. unfold wrap_u. intros E.
  assert ((b - a) mod 2 ^ 32 = 0) as H0.
  { replace (b - a) with ((s + b) - (s + a)) by lia. by rewrite Zminus_mod, E, Z.sub_diag. }
  rewrite Z.mod_small in H0 by lia. lia.
Qed.

(** Two grants have no number in common. *)
Definition disjoint_grants (gs : list (Z * Z)) : Prop :=
  forall i j g h x y, (i < j)%nat -> gs !! i = Some g -> gs !! j = Some h ->
    0 <= x < g.2 -> 0 <= y < h.2 -> u32 (g.1 + x) <> u32 (h.1 + y).

Lemma served_disjoint seq cs gs seq' :
  served seq cs gs seq' -> in_u 32 seq -> total_granted gs <= 2 ^ 32 -> disjoint_grants gs.
Proof.
  intros Hs Hseq Htot i j g h x y Hij Hg Hh Hx Hy.
  rewrite (served_start _ _ _ _ _ _ Hs Hseq Hg), (served_start _ _ _ _ _ _ Hs Hseq Hh), !u32_add, <- !Z.add_assoc.
  apply served_positive in Hs as Hpos.
  pose proof (total_granted_take gs i j g Hpos Hij Hg).
  pose proof (lookup_lt_Some _ _ _ Hh).
  pose proof (total_granted_take gs j (length gs) h Hpos ltac:(lia) Hh) as Hj. rewrite firstn_all in Hj.
  pose proof (total_granted_nonneg (take i gs) ltac:(by apply Forall_take)).
  apply u32_apart; lia.
Qed.

Lemma line_of_nil a : line_of a = [] -> a = [].
Proof.
  unfold line_of. destruct (index_of NL a) as [i|] eqn:E; [|done]. by destruct a.
Qed.

Section ServerCorrect.
Context `{!Messages} {K : Type} `{!FileIO K, !SourceLaws K, !SinkLaws K, !SocketOps K, !Acceptor K, !ServerLaws K}.
Implicit Types (p : proc K).

(** What the calls on a connection leave as it was. *)
Definition about (cfd : Z) (k : K) : list conn * bytes * bool := (closed k, asked_on k cfd, faulty_on k cfd).

Lemma sv_readLine fuel cfd p :
  (length (pending (kern p) cfd) + rdelays (kern p) cfd < fuel)%nat -> asked_on (kern p) cfd = pending (kern p) cfd ->
  wp (readLine fuel cfd true INT_LEN) p (fun o p' => exists r buf, o = Ret (r, buf) /\
    about cfd (kern p') = about cfd (kern p) /\ sunk (kern p') cfd = sunk (kern p) cfd /\
    (0 < r /\ atoi buf = request (asked_on (kern p) cfd) \/
     r <= 0 /\ (faulty_on (kern p) cfd = true \/ asked_on (kern p) cfd = []))).
Proof.
  intros Hfuel Hasked.
  pose proof (readLine_frame (fun k => (about cfd k, sunk k cfd)) fuel cfd INT_LEN p) as Hframe.
  destruct (readLine_spec fuel cfd INT_LEN p eq_refl Hfuel) as (r & buf & p' & HR & _ & Hcases).
  unfold wp in *. rewrite HR in *. destruct Hframe as [Hsame Hfail]; [|done|].
  { intros fd m k. pose proof (k_read_conn fd m k cfd) as Hk. unfold about. simpl in Hk. by injection Hk as -> -> -> ->. }
  apply pair_eq in Hsame as [Habout Hs]. exists r, buf. do 3 (split; [done|]).
  rewrite Hasked in *. destruct Hcases as [(-> & _ & ->)|(-> & _)].
  - destruct (decide _) as [[E _]|Hne].
    + right. rewrite E. split; [done|]. right. apply line_of_nil.
      destruct (line_of _); [done|]. by vm_compute in E.
    + destruct (take (Z.to_nat (INT_LEN - 1)) (line_of (pending (kern p) cfd))) as [|c s] eqn:E.
      * right. split; [done|]. right. apply line_of_nil. destruct (line_of _); [done|]. by vm_compute in E.
      * left. split; [unfold strlen; simpl; lia|]. unfold request. by rewrite E.
  - right. split; [done|]. left. destruct (Hfail buf eq_refl) as (m & k & e & k' & Hr & He & Hk).
    apply k_read_faulty in Hr; [|done]. apply pair_eq in Hk as [Hk _]. unfold about in Hk. by injection Hk as _ _ <-.
Qed.

Lemma wp_sclose_conn cfd p (Q : outcome Z -> proc K -> Prop) :
  (forall r p', closed (kern p') = closed (kern p) ++
     [Conn (asked_on (kern p) cfd) (sunk (kern p) cfd) (faulty_on (kern p) cfd)] -> Q (Ret r) p') ->
  wp (sclose cfd) p Q.
Proof.
  intros HQ. apply wp_syscall. pose proof (k_sclose_conn cfd (kern p)) as Hc.
  destruct (k_sclose cfd (kern p)) as [[r|e] k']; by apply HQ.
Qed.

Lemma wp_getnameinfo addr p (Q : outcome (bytes * bytes + Z) -> proc K -> Prop) :
  (forall r, Q (Ret r) (Proc (k_getnameinfo addr (kern p)).2 (errno p) (trace p))) -> wp (getnameinfo addr) p Q.
Proof. intros HQ. unfold wp, getnameinfo. specialize (HQ (k_getnameinfo addr (kern p)).1). by destruct (k_getnameinfo addr (kern p)). Qed.

Lemma sv_write cfd seq p :
  sunk (kern p) cfd = [] ->
  wp (write cfd (take (Z.to_nat (INT_LEN - 1)) (dec (s32 seq) ++ [NL]))) p (fun o p' => exists w, o = Ret w /\
    about cfd (kern p') = about cfd (kern p) /\ sunk (kern p') cfd `prefix_of` dec (s32 seq) ++ [NL]).
Proof.
  intros Hs. set (data := take _ _).
  assert (data `prefix_of` dec (s32 seq) ++ [NL]) as Hpre by apply prefix_take.
  assert (data <> []) as Hne by (unfold data; by destruct (dec (s32 seq))).
  pose proof (k_write_conn cfd data (kern p)) as Hk. apply wp_syscall.
  destruct (k_write cfd data (kern p)) as [[c|e] k'] eqn:E; cbn [snd] in Hk; injection Hk as H1 H2 H3;
    eexists; (split; [done|]); unfold about; cbn [kern]; rewrite H1, H2, H3; (split; [done|]).
  - destruct (k_write_ok _ _ _ _ _ Hne E) as (_ & -> & _). rewrite Hs. cbn [app].
    etrans; [apply prefix_take|done].
  - destruct (k_write_err _ _ _ _ _ Hne E) as [-> _]. rewrite Hs. apply prefix_nil.
Qed.

Lemma sv_round_spec fuel lfd seq p :
  (conn_size <= fuel)%nat ->
  wp (sv_round fuel lfd seq) p (fun o p' => exists cs gs seq', o = Ret seq' /\
    closed (kern p') = closed (kern p) ++ cs /\ served seq cs gs seq').
Proof.
  intros Hfuel. unfold sv_round. apply wp_bind, wp_syscall. pose proof (k_accept_conn (kern p) lfd) as Hacc.
  destruct (k_accept lfd (kern p)) as [[[cfd addr]|e] k1]; cbn [recast].
  2: { apply wp_bind, wp_errMsg. intros ?. apply wp_ret. exists [], [], seq. cbn [kern]. rewrite app_nil_r.
       split_and!; [done|done|constructor]. }
  destruct Hacc as (Hsunk & Hasked & Hclosed & Hsize).
  pose proof (k_getnameinfo_conn addr k1 cfd) as Hk. apply wp_bind, wp_bind, wp_getnameinfo. intros r.
  cbn [kern errno trace]. set (k2 := (k_getnameinfo addr k1).2) in *. clearbody k2.
  injection Hk as H1 H2 H3 H4 H5 H6. apply wp_ret, wp_bind, wp_printf. cbn [kern errno trace].
  apply wp_bind. eapply wp_mono; [apply sv_readLine; cbn [kern]; [rewrite H5, H6; lia|congruence]|].
  intros o p3 (n & buf & -> & Habout & Hsunk3 & Hcases). cbn [kern] in *. unfold about in Habout. injection Habout as Hc Ha Hf.
  assert (closed (kern p3) = closed (kern p)) as Hp by congruence.
  assert (sunk (kern p3) cfd = []) as Hs3 by congruence.
  assert (asked_on k2 cfd = asked_on (kern p3) cfd) as Ha' by congruence.
  assert (faulty_on k2 cfd = faulty_on (kern p3) cfd) as Hf' by congruence. rewrite Ha', Hf' in Hcases.
  assert (wp (sclose cfd ;; mret seq) p3 (fun o p' => o = Ret seq /\
    closed (kern p') = closed (kern p) ++ [Conn (asked_on (kern p3) cfd) [] (faulty_on (kern p3) cfd)])) as Hrefuse.
  { apply wp_bind, wp_sclose_conn. intros r' p4 H'. apply wp_ret. by rewrite Hs3, Hp in H'. }
  assert (forall bad : faulty_on (kern p3) cfd = true \/ asked_on (kern p3) cfd = [] \/ request (asked_on (kern p3) cfd) <= 0,
    wp (sclose cfd ;; mret seq) p3 (fun o p' => exists cs gs seq', o = Ret seq' /\
      closed (kern p') = closed (kern p) ++ cs /\ served seq cs gs seq')) as Hbad.
  { intros bad. eapply wp_mono; [exact Hrefuse|]. intros o p' [-> H']. eexists _, [], seq.
    split_and!; [done|exact H'|]. apply served_refuse; [done|constructor]. }
  destruct (n <=? 0) eqn:En; z_bool.
  { apply Hbad. destruct Hcases as [[? _]|[_ []]]; [lia|auto..]. }
  destruct Hcases as [[_ Hreq]|[? _]]; [|lia]. rewrite Hreq.
  destruct (request (asked_on (kern p3) cfd) <=? 0) eqn:Er; z_bool; [apply Hbad; auto|].
  apply wp_bind. eapply wp_mono; [by apply sv_write|]. intros o p4 (w & -> & Habout & Hpre).
  unfold about in Habout. injection Habout as Hc4 Ha4 Hf4.
  apply wp_bind. eapply (wp_mono _ _ (fun o p5 => o = Ret tt /\ kern p5 = kern p4)).
  { destruct (negb _); [by apply wp_eprintf|by apply wp_ret]. }
  intros o p5 [-> H5']. apply wp_bind, wp_sclose_conn. intros r' p6 H'. rewrite H5' in H'.
  apply wp_bind. eapply (wp_mono _ _ (fun o p7 => o = Ret tt /\ kern p7 = kern p6)).
  { destruct (r' =? -1); [by apply wp_errMsg|by apply wp_ret]. }
  intros o p7 [-> H7]. apply wp_ret. eexists _, _, _. split; [done|]. split; [rewrite H7, H', Hc4, Hp; reflexivity|].
  rewrite Ha4. apply served_grant; [done|done|constructor].
Qed.

(** C8: the server over connections.  Whatever clients do, in every number of rounds each
    connection gets its answer in turn: a client that asks for a positive number gets the next
    number, of which a part may be lost when writing fails, and the count goes on by what it asked;
    a client that does not is sent nothing and costs nothing.  As long as no more than 2^32 numbers
    have been granted, no number is granted twice. *)
Theorem server_grants_disjoint n fuel lfd seq p :
  (conn_size <= fuel)%nat -> in_u 32 seq ->
  exists cs gs seq' p', sv_rounds n fuel lfd seq p = (Ret seq', p') /\
    closed (kern p') = closed (kern p) ++ cs /\ served seq cs gs seq' /\
    (total_granted gs <= 2 ^ 32 -> disjoint_grants gs).
Proof.
  intros Hfuel Hseq.
  cut (exists cs gs seq' p', sv_rounds n fuel lfd seq p = (Ret seq', p') /\
    closed (kern p') = closed (kern p) ++ cs /\ served seq cs gs seq').
  { intros (cs & gs & seq' & p' & ? & ? & Hs). exists cs, gs, seq', p'. split_and!; try done. by eapply served_disjoint. }
  clear Hseq. revert seq p. induction n as [|n IH]; intros seq p.
  - exists [], [], seq, p. rewrite app_nil_r. split_and!; [done|done|constructor].
  - destruct (wp_elim _ _ _ (sv_round_spec fuel lfd seq p Hfuel)) as (o & p1 & E & cs & gs & seq1 & -> & Hc & Hs).
    destruct (IH seq1 p1) as (cs' & gs' & seq2 & p2 & E2 & Hc2 & Hs2).
    exists (cs ++ cs'), (gs ++ gs'), seq2, p2. cbn [sv_rounds]. rewrite (bind_Ret _ _ _ _ _ E).
    split_and!; [done|by rewrite Hc2, Hc, <- app_assoc|by eapply served_app].
Qed.
End ServerCorrect.

(** *** The client *)

Section ClientCorrect.
Context `{!Messages} {K : Type} `{!FileIO K, !SourceLaws K, !SinkLaws K, !DuplexLaws K}.
Implicit Types (p : proc K).

(** A write that must be whole: the program goes on with everything accepted, or is stopped. *)
Lemma wp_write_whole {A} cfd data n msg (next : M (proc K) A) p (Q : outcome A -> proc K -> Prop) :
  data <> [] -> n = strlen data ->
  (forall p', sunk (kern p') cfd = sunk (kern p) cfd ++ data -> pending (kern p') cfd = pending (kern p) cfd ->
     rdelays (kern p') cfd = rdelays (kern p) cfd -> trace p' = trace p -> wp next p' Q) ->
  (forall o p', stopped o -> Q o p') ->
  wp (w ← write cfd data; (if negb (w =? n) then fatal msg else mret tt) ;; next) p Q.
Proof.
  intros Hne -> Hnext Hstop. apply wp_bind, (wp_write_duplex cfd cfd); [done| |].
  - intros c k' Hc Hsunk Hpend Hdel. apply wp_bind. destruct (Z.eqb_spec c (strlen data)) as [->|]; cbn [negb].
    + apply wp_ret, Hnext; cbn [kern trace]; [|done..]. rewrite Hsunk, take_ge; [done|]. unfold strlen. lia.
    + apply wp_fatal. intros o e Ho. apply stopped_bind; auto.
  - intros e k' _ _ _. apply wp_bind. rewrite (proj2 (Z.eqb_neq _ _)) by (pose proof (strlen_nonneg data); lia).
    apply wp_fatal. intros o e' Ho. apply stopped_bind; auto.
Qed.

(** The client sends its request, a line, and prints the line it is answered, up to 29 bytes of it;
    or it is stopped with a diagnostic. *)
Lemma cl_talk_spec fuel cfd reqLenStr p :
  reqLenStr <> [] -> (length (pending (kern p) cfd) + rdelays (kern p) cfd < fuel)%nat ->
  wp (cl_talk fuel cfd reqLenStr) p (fun o p' => stopped o \/
    o = Exit EXIT_SUCCESS /\ sunk (kern p') cfd = sunk (kern p) cfd ++ reqLenStr ++ [NL] /\
    trace p' = trace p ++ [Out (str "Sequence number: " ++
      c_str (take (Z.to_nat (INT_LEN - 1)) (line_of (pending (kern p) cfd)) ++ [NUL]))]).
Proof.
  intros Hne Hfuel. match goal with |- wp _ _ ?Q0 => set (Q := Q0) end.
  assert (forall o s, stopped o -> Q o s) as Hstop by (intros; by left).
  unfold cl_talk. apply wp_write_whole; [done..| |auto]. intros p1 Hs1 Hp1 Hd1 Ht1.
  apply wp_write_whole; [done..| |auto]. intros p2 Hs2 Hp2 Hd2 Ht2. apply wp_bind.
  assert (forall fd m k, sunk (k_read fd m k).2 cfd = sunk k cfd) as Hkeep.
  { intros fd m k. destruct (k_read fd m k) as [r k'] eqn:E. by destruct (k_read_sunk _ _ _ _ _ cfd E). }
  pose proof (readLine_frame (fun k => sunk k cfd) fuel cfd INT_LEN p2 Hkeep eq_refl) as Hframe.
  destruct (readLine_spec fuel cfd INT_LEN p2 eq_refl) as (r & buf & p3 & HR & Ht3 & Hcases); [rewrite Hp2, Hd2, Hp1, Hd1; lia|].
  unfold wp in Hframe. rewrite HR in Hframe. destruct Hframe as [Hs3 _]. cbn [fst snd] in Hs3. apply (wp_intro _ _ _ _ _ HR).
  set (stored := take _ _) in Hcases. assert (stored = take (Z.to_nat (INT_LEN - 1)) (line_of (pending (kern p) cfd))) as Hst.
  { unfold stored. by rewrite Hp2, Hp1. }
  clearbody stored. destruct Hcases as [(-> & _ & ->)|(-> & _)].
  - rewrite (proj2 (Z.eqb_neq (strlen stored) (-1))) by (pose proof (strlen_nonneg stored); lia).
    destruct (Z.eqb_spec (strlen stored) 0) as [E|E].
    + apply wp_bind, wp_ret, wp_bind, wp_fatal. intros o e Ho. apply stopped_bind; auto.
    + rewrite decide_False by (intros [-> _]; done). apply wp_bind, wp_ret, wp_bind, wp_ret, wp_bind, wp_printf.
      cbn [recast]. eapply wp_intro; [reflexivity|]. right. rewrite <- Hst. cbn [kern trace]. split; [done|]. split; [by rewrite Hs3, Hs2, Hs1, <- app_assoc|].
      by rewrite <- Ht1, <- Ht2, <- Ht3.
  - change (-1 =? -1) with true. cbv iota. apply wp_bind, wp_errExit. intros o e Ho. apply stopped_bind; auto.
Qed.
End ClientCorrect.

(** *** A simulated host

    One connection at a time: what clients will send, with the number of bytes of the answer that
    each takes. *)
Record host := Host { h_clients : list (bytes * nat); h_room : nat; h_in : bytes; h_out : bytes; h_asked : bytes; h_closed : list conn }.

#[export] Instance host_io : FileIO host := {|
  k_open := fun _ _ _ k => (inr ENOENT, k);
  k_close := fun _ k => (inl 0, k);
  k_read := fun fd n k => (inl (take (Z.to_nat n) (h_in k)),
              Host (h_clients k) (h_room k) (drop (Z.to_nat n) (h_in k)) (h_out k) (h_asked k) (h_closed k));
  k_write := fun fd data k => (inl (Z.of_nat (Nat.min (h_room k) (length data))),
              Host (h_clients k) (h_room k) (h_in k) (h_out k ++ take (h_room k) data) (h_asked k) (h_closed k));
  k_lseek := fun _ _ _ k => (inr EINVAL, k)
|}.

#[export] Instance host_sockets : SocketOps host := {|
  k_getaddrinfo := fun h s hi k => (inl [Addrinfo 2 (h_socktype hi) 6 [] 16], k);
  k_getnameinfo := fun a k => (inl (str "localhost", str "9"), k);
  k_socket := fun _ _ _ k => (inl 3, k);
  k_connect := fun _ _ k => (inl 0, k);
  k_bind := fun _ _ k => (inl 0, k);
  k_listen := fun _ _ k => (inl 0, k);
  k_setsockopt := fun _ _ _ _ k => (inl 0, k);
  k_sclose := fun fd k => (inl 0, Host (h_clients k) (h_room k) (h_in k) (h_out k) (h_asked k)
                                    (h_closed k ++ [Conn (h_asked k) (h_out k) false]))
|}.

#[export] Instance host_acceptor : Acceptor host := {|
  k_accept := fun _ k => match h_clients k with
    | [] => (inr EINTR, k)
    | (a, n) :: cs => (inl (4, []), Host cs n (take 99 a) [] (take 99 a) (h_closed k)) end;
  k_ignore := fun _ k => (inl tt, k)
|}.

#[export] Program Instance host_source : SourceLaws host := {| pending := fun k _ => h_in k; rdelays := fun _ _ => O |}.
Next Obligation.
  intros k fd n bs k' Hn [= <- <-]. simpl. rewrite take_drop. split_and!; [done|unfold strlen; rewrite length_take; lia| |done].
  intros E. destruct (h_in k); [done|]. destruct (Z.to_nat n) eqn:En; [lia|done].
Qed.
Next Obligation. done. Qed.

#[export] Program Instance host_sink : SinkLaws host := {| sunk := fun k _ => h_out k; wdelays := fun _ _ => O |}.
Next Obligation.
  intros k fd data c k' Hd [= <- <-]. simpl. unfold strlen. split_and!; [lia|lia| |done].
  rewrite Nat2Z.id. f_equal. destruct (Nat.min_spec (h_room k) (length data)) as [[? ->]|[? ->]]; [done|].
  rewrite !take_ge; done.
Qed.
Next Obligation. done. Qed.

#[export] Program Instance host_server : ServerLaws host := {|
  conn_size := 100; asked_on := fun k _ => h_asked k; faulty_on := fun _ _ => false; closed := h_closed |}.
Next Obligation. intros [[|[a n] cs] ? ? ? ? ?] lfd; simpl; [done|]. rewrite length_take. split_and!; done || lia. Qed.
Solve All Obligations with done.

(** Two clients that ask properly, one that does not, and one that goes away while it is answered. *)
Definition four_clients : host :=
  Host [(str "3" ++ [NL], 9%nat); (str "-1" ++ [NL], 9%nat); (str "40" ++ [NL], 0%nat); (str "1" ++ [NL], 9%nat)]
    0 [] [] [] [].

Definition quiet : Messages := Build_Messages (fun _ => []) 0 (fun _ => []) None.

Lemma server_grants_disjoint_witness :
  exists gs p', @sv_rounds host quiet _ _ _ 5 100 3 7 (Proc four_clients 0 []) = (Ret 51, p') /\
    closed (kern p') = [Conn (str "3" ++ [NL]) (str "7" ++ [NL]) false; Conn (str "-1" ++ [NL]) [] false;
                        Conn (str "40" ++ [NL]) [] false; Conn (str "1" ++ [NL]) (str "50" ++ [NL]) false] /\
    (total_granted gs <= 2 ^ 32 -> disjoint_grants gs).
Proof.
  destruct (@server_grants_disjoint quiet host _ _ _ _ _ _ 5 100 3 7 (Proc four_clients 0 []))
    as (cs & gs & seq' & p' & E & Hc & Hs & Hd); [vm_compute; lia|unfold in_u; lia|].
  exists gs, p'. vm_compute in E. injection E as <- <-. split; [by vm_compute|]. split; [by vm_compute|exact Hd].
Defined.

(** ** fifo_seqnum.h *)

Definition SERVER_FIFO : bytes := str "/tmp/seqnum_sv".
(** The template, in an array with room for 20 more bytes than the template has. *)
Definition CLIENT_FIFO_NAME_LEN : Z := strlen (str "/tmp/seqnum_cl.%ld") + 1 + 20.
Definition client_fifo (pid : Z) : bytes :=
  take (Z.to_nat (CLIENT_FIFO_NAME_LEN - 1)) (str "/tmp/seqnum_cl." ++ dec pid).

(** An int in memory, least significant byte first. *)
Definition int_bytes (z : Z) : bytes := (fun i => chr (Z.shiftr z (8 * i))) <$> seqZ 0 4.
Definition bytes_int (bs : bytes) : Z := s32 (foldr (fun c acc => ord c + 256 * acc) 0 bs).

(** struct request: pid and seqLen; struct response: seqNum. *)
Definition request_bytes (pid seqLen : Z) : bytes := int_bytes pid ++ int_bytes seqLen.
Definition req_pid (bs : bytes) : Z := bytes_int (take 4 bs).
Definition req_seqLen (bs : bytes) : Z := bytes_int (drop 4 bs).
Definition SIZEOF_REQUEST : Z := 8.
Definition SIZEOF_RESPONSE : Z := 4.

Definition EEXIST : Z := 17.
(** S_IRUSR | S_IWUSR | S_IWGRP *)
Definition FIFO_MODE : Z := 400.

Class FifoOps (K : Type) := {
  k_umask : Z -> K -> K;
  k_mkfifo : bytes -> Z -> K -> (Z + Z) * K;
  k_unlink : bytes -> K -> (Z + Z) * K;
  k_getpid : K -> Z
}.

Section Fifo.
Context {K : Type} `{!Messages, !FileIO K, !Acceptor K, !FifoOps K}.

Definition umask (m : Z) : M (proc K) unit := modify (fun p => Proc (k_umask m (kern p)) (errno p) (trace p)).
Definition getpid : M (proc K) Z := gets (fun p => k_getpid (kern p)).
Definition unlink (path : bytes) : M (proc K) Z := syscall (-1) (k_unlink path).

(** mkfifo, for which a FIFO that is there already is as good. *)
Definition make_fifo (path : bytes) : M (proc K) unit :=
  r ← syscall (-1) (k_mkfifo path FIFO_MODE);
  e ← get_errno;
  if (r =? -1) && negb (e =? EEXIST) then errExit (str "mkfifo " ++ path) else mret tt.

Definition open_or_exit (path : bytes) (flags : Z) : M (proc K) Z :=
  fd ← open_ path flags 0; if fd =? -1 then errExit (str "open " ++ path) else mret fd.

(** *** fifo_seqnum_server.c *)

(** Up to the loop; the second descriptor keeps the FIFO from coming to an end. *)
Definition fifo_setup : M (proc K) Z :=
  umask 0 ;;
  make_fifo SERVER_FIFO ;;
  serverFd ← open_or_exit SERVER_FIFO O_RDONLY;
  open_or_exit SERVER_FIFO O_WRONLY ;;
  ok ← ignore_signal SIGPIPE;
  if ok : bool then mret serverFd else errExit (str "signal").

(** One round of the loop; the result is the next number, an int. *)
Definition fifo_round (serverFd seqNum : Z) : M (proc K) Z :=
  r ← read serverFd SIZEOF_REQUEST;
  let '(n, req) := r in
  if negb (n =? SIZEOF_REQUEST) then eprintf (str "Error reading request; discarding" ++ [NL]) ;; mret seqNum
  else
    let clientFifo := client_fifo (req_pid req) in
    clientFd ← open_ clientFifo O_WRONLY 0;
    if clientFd =? -1 then errMsg (str "open " ++ clientFifo) ;; mret seqNum
    else
      w ← write clientFd (int_bytes seqNum);
      (if negb (w =? SIZEOF_RESPONSE) then eprintf (str "Error writing to FIFO " ++ clientFifo ++ [NL]) else mret tt) ;;
      c ← close clientFd;
      (if c =? -1 then errMsg (str "close") else mret tt) ;;
      let next := seqNum + req_seqLen req in
      if (INT_MAX <? next) || (next <? INT_MIN) then undef_ else mret next.

Fixpoint fifo_rounds (n : nat) (serverFd seqNum : Z) : M (proc K) Z :=
  match n with
  | O => mret seqNum
  | Datatypes.S n' => seqNum ← fifo_round serverFd seqNum; fifo_rounds n' serverFd seqNum
  end.

Definition fifo_sv_main (n : nat) : M (proc K) Z := serverFd ← fifo_setup; fifo_rounds n serverFd 0.

(** *** fifo_seqnum_client.c *)

(** A handler registered with atexit: it runs when the program exits, not when it aborts. *)
Definition at_exit {A} (handler : M (proc K) unit) (m : M (proc K) A) : M (proc K) A := fun p =>
  match m p with
  | (Exit z, p') => (Exit z, (handler p').2)
  | r => r
  end.

Definition removeFifo (clientFifo : bytes) : M (proc K) unit := unlink clientFifo ;; mret tt.

(** The client after its FIFO was made; [ok] says whether atexit could register the handler. *)
Definition fifo_ask (argv : list bytes) (clientFifo : bytes) : M (proc K) unit :=
  pid ← getpid;
  seqLen ← match argv !! 1%nat with
           | Some a => getInt (Some a) GN_GT_0 (Some (str "seq-len"))
           | None => mret 1
           end;
  serverFd ← open_or_exit SERVER_FIFO O_WRONLY;
  w ← write serverFd (request_bytes pid seqLen);
  if negb (w =? SIZEOF_REQUEST) then fatal (str "Can't write to server")
  else
    clientFd ← open_or_exit clientFifo O_RDONLY;
    r ← read clientFd SIZEOF_RESPONSE;
    let '(n, resp) := r in
    if negb (n =? SIZEOF_RESPONSE) then fatal (str "Can't read response from server")
    else printf (dec (bytes_int resp) ++ [NL]) ;; exit_ EXIT_SUCCESS.

Definition fifo_cl_main (argv : list bytes) (ok : bool) : M (proc K) unit :=
  (if asks_help argv then usageErr (default [] (argv !! 0%nat) ++ str " [seq-len...]" ++ [NL]) else mret tt) ;;
  umask 0 ;;
  pid ← getpid;
  let clientFifo := client_fifo pid in
  make_fifo clientFifo ;;
  if negb ok then errExit (str "atexit") else at_exit (removeFifo clientFifo) (fifo_ask argv clientFifo).

(** *** What they agree on *)

Lemma bytes_int_int_bytes z : in_s 32 z -> bytes_int (int_bytes z) = z.
Proof.
  intros Hz. unfold bytes_int.
  assert (foldr (fun c acc => ord c + 256 * acc) 0 (int_bytes z) = z mod 2 ^ 32) as ->.
  { unfold int_bytes. change (seqZ 0 4) with [0; 1; 2; 3]. cbn [fmap list_fmap foldr].
    assert (forall x, ord (chr x) = x mod 256) as Hb.
    { intros x. unfold chr, ord. rewrite nat_ascii_embedding, Z2Nat.id; pose proof (Z.mod_pos_bound x 256); lia. }
    rewrite !Hb, !Z.shiftr_div_pow2 by lia. change (8 * 0) with 0. change (8 * 1) with 8. change (8 * 2) with 16. change (8 * 3) with 24.
    rewrite Z.pow_0_r, Z.div_1_r. change (2 ^ 8) with 256. change (2 ^ 16) with (256 * 256). change (2 ^ 24) with (256 * 256 * 256).
    rewrite <- !Z.div_div by lia. change (2 ^ 32) with (256 * (256 * (256 * 256))).
    rewrite !Z.rem_mul_r by lia. lia. }
  unfold wrap_s. unfold in_s in Hz. rewrite Zplus_mod_idemp_l. fold (wrap_s 32 z). apply wrap_s_id; [lia|done].
Qed.

Lemma request_fields pid seqLen :
  in_s 32 pid -> in_s 32 seqLen ->
  req_pid (request_bytes pid seqLen) = pid /\ req_seqLen (request_bytes pid seqLen) = seqLen.
Proof.
  intros Hp Hs. unfold req_pid, req_seqLen, request_bytes.
  rewrite take_app_length', drop_app_length' by done. by rewrite !bytes_int_int_bytes.
Qed.

(** A whole request of a client whose FIFO can be opened: the client is sent the next number there,
    and the count goes on by what was asked, whatever became of the answer.  No length is refused,
    as the other server refuses lengths that are not positive. *)
Lemma fifo_round_reply serverFd seq pid len p k1 fd k2 :
  in_s 32 pid -> in_s 32 len -> in_s 32 (seq + len) -> 0 <= fd ->
  k_read serverFd SIZEOF_REQUEST (kern p) = (inl (request_bytes pid len), k1) ->
  k_open (client_fifo pid) O_WRONLY 0 k1 = (inl fd, k2) ->
  exists p', fifo_round serverFd seq p = (Ret (seq + len), p') /\
    kern p' = (k_close fd (k_write fd (int_bytes seq) k2).2).2.
Proof.
  intros Hp Hl Hr Hfd Hread Hopen. destruct (request_fields pid len Hp Hl) as [E1 E2].
  cut (wp (fifo_round serverFd seq) p (fun o p' => o = Ret (seq + len) /\ kern p' = (k_close fd (k_write fd (int_bytes seq) k2).2).2)).
  { intros (o & p' & HR & -> & Hk)%wp_elim. eauto. }
  unfold fifo_round. apply wp_bind, wp_syscall. rewrite Hread. change (strlen (request_bytes pid len) =? SIZEOF_REQUEST) with true.
  cbn [negb]. rewrite E1, E2. apply wp_bind, wp_syscall. cbn [kern]. rewrite Hopen, (proj2 (Z.eqb_neq _ _)) by lia.
  assert (forall p' : proc K, wp (let next := seq + len in if (INT_MAX <? next) || (next <? INT_MIN) then undef_ else mret next) p'
    (fun o q => o = Ret (seq + len) /\ q = p')) as Hnext.
  { intros p'. cbv zeta. unfold in_s, INT_MAX, INT_MIN in *. rewrite (proj2 (Z.ltb_ge _ _)), (proj2 (Z.ltb_ge _ _)) by lia. by apply wp_ret. }
  apply wp_bind. eapply (wp_mono _ _ (fun o q => exists w, o = Ret w /\ kern q = (k_write fd (int_bytes seq) k2).2)).
  { apply wp_syscall. cbn [kern]. destruct (k_write fd (int_bytes seq) k2) as [[w|e] k3]; eauto. }
  intros o q (w & -> & Hq). apply wp_bind. eapply (wp_mono _ _ (fun o q' => o = Ret tt /\ kern q' = kern q)).
  { destruct (negb _); [by apply wp_eprintf|by apply wp_ret]. }
  intros o' q' [-> Hq']. apply wp_bind. eapply (wp_mono _ _ (fun o q2 => exists c, o = Ret c /\ kern q2 = (k_close fd (kern q')).2)).
  { apply wp_syscall. destruct (k_close fd (kern q')) as [[c|e] k3]; eauto. }
  intros o2 q2 (c & -> & Hq2). apply wp_bind. eapply (wp_mono _ _ (fun o q3 => o = Ret tt /\ kern q3 = kern q2)).
  { destruct (c =? -1); [by apply wp_errMsg|by apply wp_ret]. }
  intros o3 q3 [-> Hq3]. eapply wp_mono; [apply Hnext|]. intros o4 q4 [-> ->]. split; [done|]. congruence.
Qed.
End Fifo.
