(* ===== verification/Flags.v ===== *)
(** * Flags from letters

    chiflag.c (tlpi-dist/files), which changes the inode flags of files, over the kernel of Attr.v; and t_mount.c
    (tlpi-dist/filesys), which mounts a file system, and whose getopt is a parameter: the options it delivers, each
    with its argument, and the operands it leaves. *)

From Stdlib Require Import ZArith Lia String Ascii.
From S2P Require Import Prelude CString Kernel ErrorFns Seqnum Files Attr.

(** ** chiflag.c *)

Section Chiflag.
Context `{!Messages} {K : Type} `{!AttrIO K}.

Definition usage_lines : list string :=
  ["'attrib-chars' contains one or more of:";
   "    a   Force open() to include O_APPEND (privilege required)";
   "    A   Do not update last access time";
   "    c   Compress (requires e2compr package)";
   "    d   Do not backup with dump(8)";
   "    D   Synchronous directory updates";
   "    i   Immutable (privilege required)";
   "    j   Enable ext3/ext4 data journaling";
   "    s   Secure deletion (not implemented)";
   "    S   Synchronous file updates";
   "    t   Disable tail-packing (Reiserfs only)";
   "    T   Mark as top-level directory for Orlov algorithm";
   "    u   Undelete (not implemented)"]%string.

Definition usageError {A} (progName : bytes) : M (proc K) A :=
  eprintf (str "Usage: " ++ progName ++ str " {+-=}{attrib-chars} file..." ++ [NL; NL]) ;;
  eprintf (str "    + add attribute; - remove attribute; = set attributes absolutely" ++ [NL; NL]) ;;
  for_each (fun l => eprintf (str "    " ++ str l ++ [NL])) usage_lines ;;
  exit_ EXIT_FAILURE.

Definition FS_SYNC_FL : Z := 8.

Definition flag_letters : list (ascii * Z) :=
  [("a", FS_APPEND_FL); ("A", FS_NOATIME_FL); ("c", FS_COMPR_FL); ("d", FS_NODUMP_FL); ("D", FS_DIRSYNC_FL); ("i", FS_IMMUTABLE_FL);
   ("j", FS_JOURNAL_DATA_FL); ("s", FS_SECRM_FL); ("S", FS_SYNC_FL); ("t", FS_NOTAIL_FL); ("T", FS_TOPDIR_FL); ("u", FS_UNRM_FL)]%char.

(** A switch on a letter. *)
Definition case_of (table : list (ascii * Z)) (c : ascii) : option Z := snd <$> lookup_attr_table_entry table c.

Fixpoint build_mask (prog : bytes) (letters : bytes) (attr : Z) : M (proc K) Z :=
  match letters with
  | [] => mret attr
  | c :: letters' => match case_of flag_letters c with Some f => build_mask prog letters' (Z.lor attr f) | None => usageError prog end
  end.

(** The loop over the files, with [attr] as it is carried from one to the next. *)
Fixpoint change_files (op : ascii) (attr : Z) (files : list bytes) : M (proc K) unit :=
  match files with
  | [] => mret tt
  | path :: files' =>
      fd ← syscall (-1) (k_openat path);
      if fd =? -1 then errMsg (str "open: " ++ path) ;; change_files op attr files'
      else
        attr' ← (if Ascii.eqb op "+" || Ascii.eqb op "-" then
                   g ← syscall None (fun k => let '(r, k') := k_getflags fd k in (match r with inl v => inl (Some v) | inr e => inr e end, k'));
                   match g with
                   | None => errExit (str "ioctl1: " ++ path)
                   | Some oldAttr => mret (if Ascii.eqb op "-" then Z.land oldAttr (Z.lnot attr) else Z.lor oldAttr attr)
                   end
                 else mret attr);
        s ← syscall (-1) (k_setflags fd attr');
        (if s =? -1 then errExit (str "ioctl2: " ++ path) else mret tt) ;;
        r ← syscall (-1) (k_closeat fd);
        (if r =? -1 then errExit (str "close") else mret tt) ;;
        change_files op attr' files'
  end.

Definition chiflag_main (argv : list bytes) : M (proc K) unit :=
  let prog := default [] (argv !! 0%nat) in
  match argv with
  | _ :: mode :: (_ :: _) as files =>
      c ← the (char_at mode 0);
      if bool_decide (strchr (str "+-=") c = None) || asks_help argv then usageError prog
      else
        match mode with
        | [] => undef_                    (* strchr finds the null byte too; what follows it is not the string's *)
        | _ :: letters =>
            attr ← build_mask prog letters 0;
            change_files c attr (drop 2 argv) ;;
            exit_ EXIT_SUCCESS
        end
  | _ => usageError prog
  end.
End Chiflag.

(** *** What it does to the files *)

Definition letters_mask (letters : bytes) : Z := foldl (fun m c => Z.lor m (default 0 (case_of flag_letters c))) 0 letters.
Definition letter_ok (table : list (ascii * Z)) (c : ascii) : Prop := is_Some (case_of table c).

(** The new flags of each file: what was put in one is what is taken for the letters at the next. *)
Fixpoint carried (op : operation) (attr : Z) (vs : list Z) : list Z :=
  match vs with [] => [] | v :: vs' => transform op v attr :: carried op (transform op v attr) vs' end.

Section ChiflagSpec.
Context `{!Messages} {K : Type} `{!AttrIO K, !AttrLaws K}.
Implicit Types (p q : proc K).

Lemma build_mask_ok prog letters : forall m p, Forall (letter_ok flag_letters) letters ->
  build_mask prog letters m p = (Ret (foldl (fun m c => Z.lor m (default 0 (case_of flag_letters c))) m letters), p).
Proof.
  induction letters as [|c letters IH]; intros m p Hl; [done|]. inversion Hl as [|? ? [f Hf] Hl']; subst. cbn [build_mask foldl]. rewrite Hf. by apply IH.
Qed.

(** The state of the files against that before: [inos] are those to be changed. *)
Definition same_others (k k' : K) (inos : list Z) : Prop := named k' = named k /\ forall i, i ∉ inos -> attrs k' !! i = attrs k !! i.

Definition lines_of (p : proc K) : nat := length (trace p).

Definition outcome_of (op : operation) (attr : Z) (files : list bytes) (p : proc K) (o : outcome unit) (q : proc K) : Prop :=
  stopped o \/ o = Ret tt /\ (lines_of p <= lines_of q)%nat /\ ((lines_of q <= lines_of p)%nat ->
    forall inos vs, Forall2 (fun path ino => named (kern p) path = Some ino) files inos -> NoDup inos ->
      Forall2 (fun ino v => attrs (kern p) !! ino = Some v) inos vs ->
      Forall2 (fun ino v => attrs (kern q) !! ino = Some v) inos (carried op attr vs) /\ same_others (kern p) (kern q) inos).

(** One file was given its flags, and the rest follow. *)
Lemma outcome_step op attr path files p p1 ino new o q :
  named (kern p) path = Some ino -> named (kern p1) = named (kern p) -> attrs (kern p1) = <[ino := new]> (attrs (kern p)) ->
  (forall v, attrs (kern p) !! ino = Some v -> new = transform op v attr) ->
  lines_of p1 = lines_of p -> outcome_of op new files p1 o q -> outcome_of op attr (path :: files) p o q.
Proof.
  intros Hp Hn Ha Hv Hl [Hs|(-> & Hle & Hq)]; [by left|right]. split; [done|]. split; [lia|]. intros Hle' inos vs Hf Hnd Hvs.
  inversion Hf as [|? ino' ? inos' Hp' Hf']; subst. assert (ino' = ino) as -> by congruence. apply NoDup_cons in Hnd as [Hni Hnd].
  inversion Hvs as [|? v ? vs' Hv0 Hvs']; subst. cbn [carried]. rewrite <- (Hv v Hv0).
  destruct (Hq ltac:(lia) inos' vs') as [Hres [Hn2 Ho]]; [|done| |].
  - eapply Forall2_impl; [exact Hf'|]. intros ?? E. by rewrite Hn.
  - clear -Hvs' Hni Ha. induction Hvs' as [|i v l l' Hi _ IH]; [constructor|]. apply not_elem_of_cons in Hni as [Hne Hni].
    constructor; [by rewrite Ha, lookup_insert_ne|by apply IH].
  - split.
    + constructor; [|done]. rewrite (Ho ino Hni), Ha. apply lookup_insert_eq.
    + split; [congruence|]. intros i [Hi1 Hi2]%not_elem_of_cons. rewrite (Ho i Hi2), Ha. by apply lookup_insert_ne.
Qed.

Lemma stopped_outcome op attr files p q o : stopped o -> outcome_of op attr files p o q.
Proof. by left. Qed.

(** The end of one round: setting the flags, closing, and the rest. *)
Lemma set_and_go op c attr path files p p1 fd ino new :
  action_of c = Some op -> (forall a p, wp (change_files c a files) p (outcome_of op a files p)) ->
  named (kern p) path = Some ino -> named (kern p1) = named (kern p) -> attrs (kern p1) = attrs (kern p) -> opened (kern p1) !! fd = Some ino ->
  (forall v, attrs (kern p) !! ino = Some v -> new = transform op v attr) -> lines_of p1 = lines_of p ->
  wp (s ← syscall (-1) (k_setflags fd new);
      (if s =? -1 then errExit (str "ioctl2: " ++ path) else mret tt) ;;
      r ← syscall (-1) (k_closeat fd);
      (if r =? -1 then errExit (str "close") else mret tt) ;;
      change_files c new files) p1 (outcome_of op attr (path :: files) p).
Proof.
  intros Hop IH Hp Hn Ha Hfd Hv Hl. apply wp_bind, wp_syscall.
  assert (forall (k : bytes) q, wp (errExit (A := unit) k) q (fun o q2 => match o with Ret a => False | o => outcome_of op attr (path :: files) p (recast o (fun _ => NoFuel)) q2 end)) as Hfail.
  { intros k q. apply wp_errExit. intros o e [-> | ->]; cbn; apply stopped_outcome; [by left|by right]. }
  assert (forall (k : bytes) q (next : unit -> M (proc K) unit), wp (errExit k ≫= next) q (outcome_of op attr (path :: files) p)) as Hstop.
  { intros k q next. apply wp_bind. eapply wp_mono; [apply (Hfail k q)|]. by intros [] ?. }
  destruct (k_setflags fd new (kern p1)) as [[r|e] k2] eqn:E2; [|apply Hstop].
  destruct (setflags_attr _ _ _ _ _ E2) as (Ho2 & Hn2 & ino' & Hi & Ha2). assert (ino' = ino) as -> by congruence.
  destruct (r =? -1); [apply Hstop|]. apply wp_bind, wp_ret, wp_bind, wp_syscall. cbn [kern errno trace].
  destruct (k_closeat fd k2) as [[r3|e] k3] eqn:E3; [|apply Hstop]. destruct (close_attr _ _ _ _ E3) as (Ha3 & Hn3 & _).
  destruct (r3 =? -1); [apply Hstop|]. apply wp_bind, wp_ret. eapply wp_mono; [apply IH|]. intros o q Hq.
  eapply (outcome_step op attr path files p (Proc k3 (errno p1) (trace p1)) ino new); cbn [kern]; [done|congruence|congruence|done|done|exact Hq].
Qed.

Lemma change_files_carries op c files : action_of c = Some op -> forall attr p, wp (change_files c attr files) p (outcome_of op attr files p).
Proof.
  intros Hop. induction files as [|path files IH]; intros attr p; cbn [change_files].
  { apply wp_ret. right. split; [done|]. split; [done|]. intros _ inos vs Hf _ Hvs. inversion Hf; subst. inversion Hvs; subst. by split; [constructor|split]. }
  apply wp_bind, wp_syscall. pose proof (open_attr (kern p) path) as Ho. destruct (k_openat path (kern p)) as [[fd|e] k1].
  2: { cbn [Z.eqb Pos.eqb]. apply wp_bind, wp_errMsg. intros e2. eapply wp_mono; [apply IH|]. intros o q [Hs|(-> & Hle & _)]; [by left|right].
       unfold lines_of in *. cbn [trace] in Hle. rewrite length_app in Hle. cbn [length] in Hle. split; [done|]. split; [lia|]. intros; lia. }
  destruct Ho as (Hfd & ino & Hino & Hop1 & Ha1 & Hn1). replace (fd =? -1) with false by lia. apply wp_bind.
  assert (opened k1 !! fd = Some ino) as Hfd1 by (by rewrite Hop1, lookup_insert_eq).
  destruct (Ascii.eqb c "+" || Ascii.eqb c "-") eqn:Ec.
  - apply wp_bind, wp_syscall. cbn [kern errno trace]. destruct (k_getflags fd k1) as [[old|e] k2] eqn:E2.
    2: { apply wp_errExit. intros o e2 [-> | ->]; cbn; apply stopped_outcome; [by left|by right]. }
    destruct (getflags_attr _ _ _ _ E2) as (Ho2 & Ha2 & Hn2 & ino' & Hi' & Hold). assert (ino' = ino) as -> by congruence.
    apply wp_ret. eapply set_and_go; [done|done|done|cbn [kern]; congruence|cbn [kern]; congruence|cbn [kern]; congruence| |done].
    intros v Hv. assert (v = old) as -> by congruence. unfold action_of in Hop.
    destruct (Ascii.eqb c "+") eqn:E1; [injection Hop as <-; apply Ascii.eqb_eq in E1 as ->; reflexivity|]. cbn [orb] in Ec. rewrite Ec in Hop |- *. by injection Hop as <-.
  - apply orb_false_elim in Ec as [E1 E3]. apply wp_ret. eapply set_and_go; [done|done|done|cbn [kern]; congruence|cbn [kern]; congruence|cbn [kern]; congruence| |done].
    intros v Hv. unfold action_of in Hop. rewrite E1, E3 in Hop. destruct (Ascii.eqb c "="); [|done]. by injection Hop as <-.
Qed.

Lemma carried_alike op m vs : op = Only \/ (length vs <= 1)%nat -> carried op m vs = (fun v => transform op v m) <$> vs.
Proof.
  intros [->|Hl].
  - assert (forall m, carried Only m vs = (fun v => transform Only v m) <$> vs) as H0; [|apply H0].
    induction vs as [|v vs IH]; intros m'; [done|]. cbn. f_equal. apply IH.
  - destruct vs as [|v [|w vs]]; [done|done|]. cbn in Hl. lia.
Qed.

(** C33: chiflag, given an operator, letters it knows and files: it either stops at a call that fails or exits with success; if it said nothing on
    standard error and the files are different ones, each has its old flags with those of the letters added, removed or put in
    their place, when the operator is = or there is one file.  With + and - a later file is changed not by the letters but by what the
    file before it was given ([carried]), and no other file is changed. *)
Theorem chiflag_carries a0 c letters op files p : action_of c = Some op -> Forall (letter_ok flag_letters) letters -> files <> [] ->
  asks_help (a0 :: (c :: letters) :: files) = false ->
  wp (chiflag_main (a0 :: (c :: letters) :: files)) p (fun o q => stopped o \/ o = Exit EXIT_SUCCESS /\
    ((lines_of q <= lines_of p)%nat -> forall inos vs, Forall2 (fun path ino => named (kern p) path = Some ino) files inos -> NoDup inos ->
      Forall2 (fun ino v => attrs (kern p) !! ino = Some v) inos vs ->
      Forall2 (fun ino v => attrs (kern q) !! ino = Some v) inos (carried op (letters_mask letters) vs) /\ same_others (kern p) (kern q) inos /\
      (op = Only \/ (length files <= 1)%nat -> carried op (letters_mask letters) vs = (fun v => transform op v (letters_mask letters)) <$> vs))).
Proof.
  intros Hop Hl Hne Hh. unfold chiflag_main. destruct files as [|f files]; [done|]. cbn [lookup list_lookup].
  change (char_at (c :: letters) 0) with (Some c). unfold the. apply wp_bind, wp_ret. rewrite Hh, orb_false_r.
  rewrite bool_decide_eq_false_2.
  2: { unfold action_of in Hop. destruct (Ascii.eqb_spec c "+") as [->|]; [done|]. destruct (Ascii.eqb_spec c "-") as [->|]; [done|]. by destruct (Ascii.eqb_spec c "=") as [->|]. }
  apply wp_bind. eapply wp_intro; [by apply build_mask_ok|]. change (drop 2 (a0 :: (c :: letters) :: f :: files)) with (f :: files).
  apply wp_bind. eapply wp_mono; [by apply change_files_carries|]. intros o q [Hs|(-> & Hle & Hq)].
  - destruct Hs as [-> | ->]; cbn; left; [by left|by right].
  - right. split; [done|]. intros Hle' inos vs Hf Hnd Hvs. destruct (Hq Hle' inos vs Hf Hnd Hvs) as [H1 H2]. split; [exact H1|]. split; [exact H2|].
    intros Hc. apply carried_alike. destruct Hc as [->|Hc]; [by left|right]. apply Forall2_length in Hf, Hvs. lia.
Qed.
End ChiflagSpec.

(** ** t_mount.c *)

Definition MS_RDONLY : Z := 1.
Definition MS_NOSUID : Z := 2.
Definition MS_NODEV : Z := 4.
Definition MS_NOEXEC : Z := 8.
Definition MS_SYNCHRONOUS : Z := 16.
Definition MS_REMOUNT : Z := 32.
Definition MS_MANDLOCK : Z := 64.
Definition MS_DIRSYNC : Z := 128.
Definition MS_NOATIME : Z := 1024.
Definition MS_NODIRATIME : Z := 2048.
Definition MS_BIND : Z := 4096.
Definition MS_MOVE : Z := 8192.
Definition MS_REC : Z := 16384.
Definition MS_UNBINDABLE : Z := Z.shiftl 1 17.
Definition MS_PRIVATE : Z := Z.shiftl 1 18.
Definition MS_SLAVE : Z := Z.shiftl 1 19.
Definition MS_SHARED : Z := Z.shiftl 1 20.

Definition mount_letters : list (ascii * Z) :=
  [("b", MS_BIND); ("d", MS_DIRSYNC); ("l", MS_MANDLOCK); ("m", MS_MOVE); ("A", MS_NOATIME); ("V", MS_NODEV); ("D", MS_NODIRATIME);
   ("E", MS_NOEXEC); ("S", MS_NOSUID); ("p", MS_PRIVATE); ("r", MS_RDONLY); ("c", MS_REC); ("R", MS_REMOUNT); ("h", MS_SHARED);
   ("v", MS_SLAVE); ("s", MS_SYNCHRONOUS); ("u", MS_UNBINDABLE)]%char.

(** mount: source, target, type, flags and data. *)
Record request := Request { source : bytes; target : bytes; fstype : option bytes; flags : Z; data : option bytes }.

Class MountCall (K : Type) := { k_mount : request -> K -> (Z + Z) * K }.

Section Mount.
Context `{!Messages} {K : Type} `{!MountCall K}.

Definition mount_usage_lines : list bytes :=
  ((fun l => str "    " ++ str l ++ [NL]) <$>
    ["-t fstype        [e.g., 'ext2' or 'reiserfs']"; "-o data          [file system-dependent options,"; "                 e.g., 'bsdgroups' for ext2]";
     "-f mountflags    can include any of:"]%string) ++
  ((fun l => str "            " ++ str l ++ [NL]) <$>
    ["b - MS_BIND         create a bind mount"; "d - MS_DIRSYNC      synchronous directory updates"; "l - MS_MANDLOCK     permit mandatory locking";
     "m - MS_MOVE         atomically move subtree"; "A - MS_NOATIME      don't update atime (last access time)"; "V - MS_NODEV        don't permit device access";
     "D - MS_NODIRATIME   don't update atime on directories"; "E - MS_NOEXEC       don't allow executables"; "S - MS_NOSUID       disable set-user/group-ID programs";
     "p - MS_PRIVATE      mark as private"; "r - MS_RDONLY       read-only mount"; "c - MS_REC          recursive mount"; "R - MS_REMOUNT      remount";
     "h - MS_SHARED       mark as shared"; "v - MS_SLAVE        mark as slave"; "s - MS_SYNCHRONOUS  make writes synchronous"; "u - MS_UNBINDABLE   mark as unbindable"]%string).

Definition mount_usageError {A} (progName : bytes) (msg : option bytes) : M (proc K) A :=
  (match msg with Some m => eprintf m | None => mret tt end) ;;
  eprintf (str "Usage: " ++ progName ++ str " [options] source target" ++ [NL; NL]) ;;
  eprintf (str "Available options:" ++ [NL]) ;;
  for_each eprintf mount_usage_lines ;;
  exit_ EXIT_FAILURE.

Fixpoint mount_flags (prog : bytes) (optarg : bytes) (flags : Z) : M (proc K) Z :=
  match optarg with
  | [] => mret flags
  | c :: optarg' => match case_of mount_letters c with Some f => mount_flags prog optarg' (Z.lor flags f) | None => mount_usageError prog None end
  end.

(** The loop over the options: the type, the flags and the data so far. *)
Fixpoint mount_opts (prog : bytes) (opts : list (ascii * bytes)) (fstype : option bytes) (flags : Z) (data : option bytes)
    : M (proc K) (option bytes * Z * option bytes) :=
  match opts with
  | [] => mret (fstype, flags, data)
  | (opt, optarg) :: opts' =>
      if Ascii.eqb opt "o" then mount_opts prog opts' fstype flags (Some optarg)
      else if Ascii.eqb opt "t" then mount_opts prog opts' (Some optarg) flags data
      else if Ascii.eqb opt "f" then f ← mount_flags prog optarg flags; mount_opts prog opts' fstype f data
      else mount_usageError prog None
  end.

Definition t_mount_main (prog : bytes) (opts : list (ascii * bytes)) (operands : list bytes) : M (proc K) unit :=
  r ← mount_opts prog opts None 0 None;
  let '(fstype, flags, data) := r in
  match operands with
  | [source; target] =>
      s ← syscall (-1) (k_mount (Request source target fstype flags data));
      (if s =? -1 then errExit (str "mount") else mret tt) ;;
      exit_ EXIT_SUCCESS
  | _ => mount_usageError prog (Some (str "Wrong number of arguments" ++ [NL]))
  end.

(** *** What it asks for *)

(** The last argument of an option, and the letters of all [-f]. *)
Definition last_of (c : ascii) (opts : list (ascii * bytes)) : option bytes := last (snd <$> filter (fun o => o.1 = c) opts).
Definition all_letters (opts : list (ascii * bytes)) : bytes := concat (snd <$> filter (fun o => o.1 = "f"%char) opts).

Definition asked (opts : list (ascii * bytes)) (source target : bytes) : request :=
  Request source target (last_of "t" opts) (foldl (fun m c => Z.lor m (default 0 (case_of mount_letters c))) 0 (all_letters opts)) (last_of "o" opts).

Definition opts_fit (opts : list (ascii * bytes)) : Prop :=
  Forall (fun o => (o.1 = "o" \/ o.1 = "t" \/ o.1 = "f")%char) opts /\ Forall (letter_ok mount_letters) (all_letters opts).

Lemma mount_flags_ok prog letters : forall m (p : proc K), Forall (letter_ok mount_letters) letters ->
  mount_flags prog letters m p = (Ret (foldl (fun m c => Z.lor m (default 0 (case_of mount_letters c))) m letters), p).
Proof.
  induction letters as [|c letters IH]; intros m p Hl; [done|]. inversion Hl as [|? ? [f Hf] Hl']; subst. cbn [mount_flags foldl]. rewrite Hf. by apply IH.
Qed.

Lemma mount_usage_ends {A} prog msg (p : proc K) : exists q, mount_usageError (A := A) prog msg p = (Exit EXIT_FAILURE, q) /\ kern q = kern p.
Proof.
  assert (forall l (p1 : proc K), exists q, for_each eprintf l p1 = (Ret tt, q) /\ kern q = kern p1) as Hall.
  { induction l as [|x l IH]; intros p1; [by eexists|]. destruct (IH (Proc (kern p1) (errno p1) (trace p1 ++ [Err x]))) as (q & Hq & Hk). exists q. split; [|done].
    cbn [for_each]. by erewrite bind_Ret by reflexivity. }
  assert (exists p1, (match msg with Some m => eprintf m | None => mret tt end) p = (Ret tt, p1) /\ kern p1 = kern p) as (p1 & H1 & Hk1) by (destruct msg; by eexists).
  unfold mount_usageError. rewrite (bind_Ret _ _ _ _ _ H1). do 2 (erewrite bind_Ret by reflexivity).
  match goal with |- context [(for_each eprintf mount_usage_lines ;; _) ?p2] => destruct (Hall mount_usage_lines p2) as (q & Hq & Hk2) end.
  rewrite (bind_Ret _ _ _ _ _ Hq). exists q. split; [done|]. rewrite Hk2. exact Hk1.
Qed.

Definition or_last (c : ascii) (opts : list (ascii * bytes)) (d : option bytes) : option bytes := match last_of c opts with Some x => Some x | None => d end.

Lemma or_last_cons c o a opts d : or_last c ((o, a) :: opts) d = or_last c opts (if Ascii.eqb o c then Some a else d).
Proof.
  unfold or_last, last_of. rewrite filter_cons. cbn [fst]. destruct (Ascii.eqb_spec o c) as [->|Hne]; case_decide; try done.
  cbn [fmap list_fmap snd]. destruct (snd <$> filter (fun o => o.1 = c) opts) as [|x l]; [done|]. rewrite last_cons_cons. by destruct (last (x :: l)) eqn:E; [|apply last_None in E].
Qed.

Lemma mount_opts_ok prog opts : forall t m d (p : proc K), opts_fit opts ->
  mount_opts prog opts t m d p =
  (Ret (or_last "t" opts t, foldl (fun m c => Z.lor m (default 0 (case_of mount_letters c))) m (all_letters opts), or_last "o" opts d), p).
Proof.
  induction opts as [|[o a] opts IH]; intros t m d p [Ho Hl]; [done|]. inversion Ho as [|? ? Hh Ho']; subst. cbn [fst] in Hh. cbn [mount_opts]. rewrite !or_last_cons.
  unfold all_letters in *. rewrite filter_cons in Hl |- *. cbn [fst] in Hl |- *. destruct Hh as [->|[->| ->]]; cbn [Ascii.eqb Bool.eqb] in *; case_decide as Hd; try done.
  - by rewrite IH.
  - by rewrite IH.
  - cbn [fmap list_fmap snd concat] in Hl |- *. apply Forall_app in Hl as [Hl1 Hl2]. rewrite (bind_Ret _ _ _ _ _ (mount_flags_ok prog a m p Hl1)), IH by done.
    by rewrite foldl_app.
Qed.

Lemma mask_bit (f : ascii -> Z) l i : forall m, Z.testbit (foldl (fun m c => Z.lor m (f c)) m l) i = Z.testbit m i || existsb (fun c => Z.testbit (f c) i) l.
Proof. induction l as [|c l IH]; intros m; cbn [foldl existsb]; [by rewrite orb_false_r|]. by rewrite IH, Z.lor_spec, orb_assoc. Qed.

(** t_mount with options it knows asks once, for the source and the target it names, the type and the data of the last -t and -o, and
    the flags that the letters of all -f stand for, each of them and no other; it succeeds when the kernel does, and stops when it
    does not.  With another number of operands it asks for nothing. *)
Theorem t_mount_asks prog opts source target operands (p : proc K) : opts_fit opts ->
  (forall i, Z.testbit (flags (asked opts source target)) i = existsb (fun c => Z.testbit (default 0 (case_of mount_letters c)) i) (all_letters opts)) /\
  match k_mount (asked opts source target) (kern p) with
  | (inl r, k') => r <> -1 -> t_mount_main prog opts [source; target] p = (Exit EXIT_SUCCESS, Proc k' (errno p) (trace p))
  | (inr e, k') => stopped (t_mount_main prog opts [source; target] p).1 /\ kern (t_mount_main prog opts [source; target] p).2 = k'
  end /\
  (length operands <> 2%nat -> exists q, t_mount_main prog opts operands p = (Exit EXIT_FAILURE, q) /\ kern q = kern p).
Proof.
  intros Hf. split_and!.
  - intros i. cbn [asked flags]. rewrite mask_bit, Z.bits_0. done.
  - unfold t_mount_main. rewrite (bind_Ret _ _ _ _ _ (mount_opts_ok prog opts None 0 None p Hf)). cbv beta iota.
    assert (forall c, or_last c opts None = last_of c opts) as Hor by (intros c; unfold or_last; by destruct (last_of c opts)). rewrite !Hor.
    change (Request source target (last_of "t" opts) (foldl (fun m c => Z.lor m (default 0 (case_of mount_letters c))) 0 (all_letters opts)) (last_of "o" opts)) with (asked opts source target).
    destruct (k_mount (asked opts source target) (kern p)) as [[r|e] k'] eqn:Hk.
    + intros Hr. erewrite bind_Ret by (unfold syscall; rewrite Hk; reflexivity). cbv beta. rewrite (proj2 (Z.eqb_neq r (-1))) by done. by erewrite bind_Ret by reflexivity.
    + erewrite bind_Ret by (unfold syscall; rewrite Hk; reflexivity). cbv beta. change (-1 =? -1) with true. cbv iota.
      assert (wp (errExit (A := unit) (str "mount") ;; exit_ EXIT_SUCCESS) (Proc k' e (trace p)) (fun o q => stopped (A := unit) o /\ kern q = k')) as Hw; [|exact Hw].
      apply wp_bind, wp_errExit. intros o e2 [-> | ->]; (split; [|done]); [by left|by right].
  - intros Hn. unfold t_mount_main. rewrite (bind_Ret _ _ _ _ _ (mount_opts_ok prog opts None 0 None p Hf)). cbv beta iota.
    destruct operands as [|a [|b [|c l]]]; try apply mount_usage_ends. done.
Qed.
End Mount.

(** ** Witnesses *)

#[local] Instance no_messages : Messages := {| ename _ := []; MAX_ENAME := 133; strerror _ := []; EF_DUMPCORE := None |}.

(** Two files with the flags 16 and 64: the second is to get the flag A too, and gets the flag i of the first as well. *)
Definition flagged : proc attrfs := (chiflag_main [str "chiflag"; str "+A"; str "f"; str "g"] some_files).2.

Lemma chiflag_carries_witness : aa (kern flagged) !! 1 = Some (Z.lor 16 FS_NOATIME_FL) /\
  aa (kern flagged) !! 2 = Some (Z.lor 64 (Z.lor 16 FS_NOATIME_FL)).
Proof.
  pose proof (chiflag_carries (str "chiflag") "+" (str "A") Add [str "f"; str "g"] some_files eq_refl ltac:(constructor; [by eexists|constructor]) ltac:(done) eq_refl) as H.
  assert ((chiflag_main [str "chiflag"; str "+A"; str "f"; str "g"] some_files).1 = Exit EXIT_SUCCESS) as Ho by (vm_compute; reflexivity).
  unfold wp in H. change (chiflag_main (str "chiflag" :: ("+"%char :: str "A") :: [str "f"; str "g"]) some_files) with (chiflag_main [str "chiflag"; str "+A"; str "f"; str "g"] some_files) in H.
  rewrite Ho in H. destruct H as [[E|E]|[_ H]]; [discriminate E|discriminate E|].
  destruct (H ltac:(vm_compute; lia) [1; 2] [16; 64]) as [Hres _]; [by repeat constructor|by by_decide|by repeat constructor|].
  split; [exact (Forall2_lookup_lr _ _ _ 0%nat _ _ Hres eq_refl eq_refl)|exact (Forall2_lookup_lr _ _ _ 1%nat _ _ Hres eq_refl eq_refl)].
Defined.

(** chattr of 15-file-attributes gives the second file its own flags and A. *)
Example chattr_does_not_carry : aa (kern (chattr_main [str "chattr"; str "+A"; str "f"; str "g"] some_files).2) !! 2 = Some (Z.lor 64 FS_NOATIME_FL).
Proof. vm_compute. reflexivity. Qed.

(** A first argument that is empty passes the test. *)
Example chiflag_empty : (chiflag_main [str "chiflag"; []; str "f"] some_files).1 = Undef.
Proof. vm_compute. reflexivity. Qed.

#[local] Instance mount_log : MountCall (list request) := { k_mount r k := (inl 0, k ++ [r]) }.

Lemma t_mount_asks_witness :
  t_mount_main (str "t_mount") [("t", str "ext2"); ("f", str "rs"); ("o", str "x"); ("f", str "b"); ("o", str "nogrpid")]%char [str "/dev/sda9"; str "/mydir"] (Proc [] 0 []) =
  (Exit EXIT_SUCCESS, Proc [Request (str "/dev/sda9") (str "/mydir") (Some (str "ext2")) (1 + 16 + 4096) (Some (str "nogrpid"))] 0 []).
Proof.
  refine (proj1 (proj2 (t_mount_asks (str "t_mount") [("t", str "ext2"); ("f", str "rs"); ("o", str "x"); ("f", str "b"); ("o", str "nogrpid")]%char
    (str "/dev/sda9") (str "/mydir") [] (Proc [] 0 []) _)) _); [|done].
  split; [by repeat constructor; auto|by repeat (constructor; [by eexists|]); constructor].
Defined.
