(* ===== verification/Serve.v ===== *)
(** * Servers that copy a stream

    us_xfr_sv.c and us_xfr_cl.c (and their version 2, over unix_sockets.c): clients send their standard
    input to a server that copies one connection after the other to its standard output.  is_echo_sv.c,
    is_echo_v2_sv.c, is_echo_inetd_sv.c and is_echo_cl.c: a server that forks a child for each
    connection, and a client with two processes (tlpi-dist/sockets).  The handler of the echo server is
    that of Transfer.v, the sockets are made by Sockets.v, the process is made a daemon by Daemon.v. *)

From Stdlib Require Import ZArith Lia String Ascii.
From stdpp Require Import sets gmap.
From S2P Require Import Prelude CString Kernel Transfer ErrorFns Sockets Seqnum Process Daemon.

Definition SV_SOCK_PATH : bytes := str "/tmp/us_xfr".
Definition SV_SOCK_PATH_v2 : bytes := str "us_xfr_v2".
Definition BUF_SIZE : Z := 100.
Definition XFR_BACKLOG : Z := 5.
Definition SERVICE : bytes := str "echo".
Definition SIGCHLD : Z := 17.
Definition SHUT_WR : Z := 1.

(** More calls: [remove], [sigaction] for a handler, [waitpid] of any child without waiting, [shutdown]. *)
Class ServeCalls (K : Type) := {
  k_remove : bytes -> K -> (Z + Z) * K;
  k_sigaction : Z -> K -> (Z + Z) * K;
  k_reap : K -> (Z + Z) * K;
  k_shutdown : Z -> Z -> K -> (Z + Z) * K
}.

(** ** The loop that all of them have *)

Section Pump.
Context {K : Type} `{!FileIO K}.

(** [while ((numRead = read(fin, buf, size)) > 0) if (write(fout, buf, numRead) != numRead) on_write;] and what follows it. *)
Definition pump (fuel : nat) (size fin fout : Z) (on_write : M (proc K) unit) (on_end : Z -> M (proc K) unit) : M (proc K) unit :=
  loop fuel (fun _ =>
    r ← read fin size;
    let '(numRead, buf) := r in
    if 0 <? numRead then
      w ← write fout buf;
      (if negb (w =? numRead) then on_write else mret tt) ;; mret (inl tt)
    else on_end numRead ;; mret (inr tt)) tt.
End Pump.

Section Programs.
Context `{!Messages} {K : Type} `{!FileIO K, !SocketOps K, !Acceptor K, !ProcCalls K, !DaemonCalls K, !ServeCalls K}.

Definition xfr_copy (fuel : nat) (fin fout : Z) : M (proc K) unit :=
  pump fuel BUF_SIZE fin fout (fatal (str "partial/failed write"))
    (fun numRead => if numRead =? -1 then errExit (str "read") else mret tt).

(** *** us_xfr_sv.c *)

Definition xfr_sv_setup : M (proc K) Z :=
  sfd ← socket AF_UNIX SOCK_STREAM 0;
  if sfd =? -1 then errExit (str "socket")
  else
    r ← syscall (-1) (k_remove SV_SOCK_PATH);
    e ← get_errno;
    if (r =? -1) && negb (e =? ENOENT) then errExit (str "remove-" ++ SV_SOCK_PATH)
    else
      b ← bind sfd (sun_path SV_SOCK_PATH);
      if b =? -1 then errExit (str "bind")
      else
        l ← listen sfd XFR_BACKLOG;
        if l =? -1 then errExit (str "listen") else mret sfd.

Definition xfr_sv_round (fuel : nat) (sfd : Z) : M (proc K) unit :=
  r ← accept sfd;
  match r with
  | None => errExit (str "accept")
  | Some (cfd, _) =>
      xfr_copy fuel cfd STDOUT_FILENO ;;
      c ← sclose cfd;
      if c =? -1 then errMsg (str "close") else mret tt
  end.

(** The loop never ends; this is a number of its rounds. *)
Fixpoint rounds (n : nat) (round : M (proc K) unit) : M (proc K) unit :=
  match n with O => mret tt | S n' => round ;; rounds n' round end.

Definition us_xfr_sv (n fuel : nat) : M (proc K) unit := sfd ← xfr_sv_setup; rounds n (xfr_sv_round fuel sfd).

Definition us_xfr_v2_sv (n fuel : nat) : M (proc K) unit :=
  sfd ← unixListen (Some SV_SOCK_PATH_v2) XFR_BACKLOG;
  if sfd =? -1 then errExit (str "unixListen") else rounds n (xfr_sv_round fuel sfd).

(** *** us_xfr_cl.c *)

Definition us_xfr_cl (fuel : nat) : M (proc K) unit :=
  sfd ← socket AF_UNIX SOCK_STREAM 0;
  if sfd =? -1 then errExit (str "socket")
  else
    c ← connect sfd (sun_path SV_SOCK_PATH);
    if c =? -1 then errExit (str "connect") else xfr_copy fuel STDIN_FILENO sfd ;; exit_ EXIT_SUCCESS.

Definition us_xfr_v2_cl (fuel : nat) : M (proc K) unit :=
  sfd ← unixConnect (Some SV_SOCK_PATH_v2) SOCK_STREAM;
  if sfd =? -1 then errExit (str "unixConnect") else xfr_copy fuel STDIN_FILENO sfd ;; exit_ EXIT_SUCCESS.

(** *** is_echo_sv.c and is_echo_v2_sv.c *)

Context (strerror : Z -> bytes).

(** The handler of SIGCHLD, which keeps [errno]. *)
Definition grimReaper (fuel : nat) : M (proc K) unit :=
  savedErrno ← get_errno;
  loop fuel (fun _ => r ← syscall (-1) k_reap; if 0 <? r then mret (inl tt) else mret (inr tt)) tt ;;
  set_errno savedErrno.

Definition syslog_errno (msg : bytes) : M (proc K) unit := e ← get_errno; eprintf (msg ++ str " (" ++ strerror e ++ str ")").

(** One round: [retry] in version 2, which goes on when accept fails. *)
Definition echo_round (retry : bool) (fuel : nat) (lfd : Z) : M (proc K) unit :=
  r ← accept lfd;
  match r with
  | None =>
      e ← get_errno; eprintf (str "Failure in accept(): " ++ strerror e) ;;
      (if retry then mret tt else exit_ EXIT_FAILURE)
  | Some (cfd, _) =>
      pid ← syscall (-1) k_fork;
      if pid =? -1 then syslog_errno (str "Can't create child") ;; sclose cfd ;; mret tt
      else if pid =? 0 then sclose lfd ;; handleRequest strerror fuel cfd ;; exit_ EXIT_SUCCESS
      else sclose cfd ;; mret tt
  end.

Definition echo_setup : M (proc K) Z :=
  d ← becomeDaemon 0;
  if d =? -1 then errExit (str "becomeDaemon")
  else
    s ← syscall (-1) (k_sigaction SIGCHLD);
    if s =? -1 then e ← get_errno; eprintf (str "Error from sigaction(): " ++ strerror e) ;; exit_ EXIT_FAILURE
    else
      r ← inetListen (Some SERVICE) 10 false;
      if r.1 =? -1 then syslog_errno (str "Could not create server socket") ;; exit_ EXIT_FAILURE
      else mret r.1.

Definition is_echo_sv (n fuel : nat) : M (proc K) unit := lfd ← echo_setup; rounds n (echo_round false fuel lfd).

Definition from_inetd (argv : list bytes) : bool :=
  match argv !! 1%nat with Some a => strcmp a (str "-i") =? 0 | None => false end.

Definition is_echo_v2_sv (argv : list bytes) (n fuel : nat) : M (proc K) unit :=
  if from_inetd argv then handleRequest strerror fuel STDIN_FILENO ;; exit_ EXIT_SUCCESS
  else lfd ← echo_setup; rounds n (echo_round true fuel lfd).

(** *** is_echo_inetd_sv.c *)

Definition log_and_exit {A} (msg : bytes) : M (proc K) A := e ← get_errno; eprintf (msg ++ strerror e) ;; exit_ EXIT_FAILURE.

Definition is_echo_inetd_sv (fuel : nat) : M (proc K) unit :=
  pump fuel 4096 STDIN_FILENO STDOUT_FILENO (log_and_exit (str "write() failed: "))
    (fun numRead => if numRead =? -1 then log_and_exit (str "Error from read(): ") else mret tt) ;;
  exit_ EXIT_SUCCESS.

(** *** is_echo_cl.c *)

(** The child prints what the server answers: each piece up to its first null byte, as [%.*s] does. *)
Definition echo_cl_child (fuel : nat) (sfd : Z) : M (proc K) unit :=
  loop fuel (fun _ =>
    r ← read sfd BUF_SIZE;
    let '(numRead, buf) := r in
    if numRead <=? 0 then mret (inr tt) else printf (c_str buf) ;; mret (inl tt)) tt ;;
  exit_ EXIT_SUCCESS.

(** The parent sends its standard input; an error of [read] ends it like the end of the file. *)
Definition echo_cl_parent (fuel : nat) (sfd : Z) : M (proc K) unit :=
  pump fuel BUF_SIZE STDIN_FILENO sfd (fatal (str "write() failed")) (fun _ => mret tt) ;;
  s ← syscall (-1) (k_shutdown sfd SHUT_WR);
  if s =? -1 then errExit (str "shutdown") else exit_ EXIT_SUCCESS.

Definition is_echo_cl (argv : list bytes) (fuel : nat) : M (proc K) unit :=
  (if negb (bool_decide (length argv = 2%nat)) || asks_help argv
   then usageErr (default [] (argv !! 0%nat) ++ str " host" ++ [NL]) else mret tt) ;;
  sfd ← inetConnect (argv !! 1%nat) (Some SERVICE) SOCK_STREAM;
  if sfd =? -1 then errExit (str "inetConnect")
  else
    pid ← syscall (-1) k_fork;
    if pid =? -1 then errExit (str "fork") else if pid =? 0 then echo_cl_child fuel sfd else echo_cl_parent fuel sfd.
End Programs.

(** ** The copying loop *)

(** A first part that returns, or is stopped and with it the whole. *)
Lemma wp_bind_stopped {S A B} (m : M S A) (k : A -> M S B) s P (Q : outcome B -> S -> Prop) :
  wp m s P -> (forall a s', P (Ret a) s' -> wp (k a) s' Q) ->
  (forall o s', P o s' -> (exists a, o = Ret a) \/ stopped o /\ forall o', stopped o' -> Q o' s') -> wp (m ≫= k) s Q.
Proof.
  intros Hm Hret Hstop. apply wp_bind. eapply wp_mono; [exact Hm|]. intros o s' HP.
  destruct (Hstop o s' HP) as [[a ->]|[Ho HQ]]; [by apply Hret|]. by apply stopped_bind.
Qed.

Section PumpCorrect.
Context {K : Type} `{!FileIO K, !SourceLaws K, !SinkLaws K, !DuplexLaws K}.

(** What was taken from the source went to the sink, in order; what was not is [rest]. *)
Definition pumped (fin fout : Z) (p q : proc K) (c rest : bytes) : Prop :=
  pending (kern p) fin = c ++ rest /\ sunk (kern q) fout = sunk (kern p) fout ++ c.

Lemma wp_pump {G} (F : K -> G) (good : Z -> Prop) fuel size fin fout on_write on_end (p : proc K) :
  (forall n k, F (k_read fin n k).2 = F k) -> (forall d k, F (k_write fout d k).2 = F k) ->
  (forall q, wp on_write q (fun o q' => stopped o /\ kern q' = kern q)) ->
  (forall n q, wp (on_end n) q (fun o q' => kern q' = kern q /\ (o = Ret tt /\ good n \/ stopped o))) ->
  0 < size -> (length (pending (kern p) fin) < fuel)%nat ->
  wp (pump fuel size fin fout on_write on_end) p (fun o q => exists c rest, pumped fin fout p q c rest /\
    F (kern q) = F (kern p) /\ (stopped o \/ exists n, o = Ret tt /\ good n /\ (rest = [] \/ n = -1))).
Proof.
  intros HFr HFw Hw He Hsize Hfuel. unfold pump.
  apply (loop_wp (fun _ q => F (kern q) = F (kern p) /\ exists c, pumped fin fout p q c (pending (kern q) fin))
    (fun _ q => length (pending (kern q) fin))); [|by split; [done|exists []; split; [|by rewrite app_nil_r]]|done].
  intros _ q (HF & c & Hpend & Hsunk). apply wp_bind, wp_syscall.
  assert (forall c' rest q', pumped fin fout p q' c' rest -> F (kern q') = F (kern p) -> forall (o : outcome unit), stopped o ->
    exists c rest, pumped fin fout p q' c rest /\ F (kern q') = F (kern p) /\ (stopped o \/ exists n, o = Ret tt /\ good n /\ (rest = [] \/ n = -1))) as Hstop by eauto 10.
  pose proof (HFr size (kern q)) as HF1. destruct (k_read fin size (kern q)) as [[bs|e] k'] eqn:E; cbn [snd] in HF1;
    destruct (k_read_sunk _ _ _ _ _ fout E) as [Hs1 _]; cbn [recast].
  2: { destruct (k_read_err _ _ _ _ _ Hsize E) as [Hp1 _]. apply wp_bind. eapply wp_mono; [apply He|]. cbn [kern].
       intros o q' [Hk Ho]. assert (pumped fin fout p q' c (pending (kern q) fin)) as Hpu by (unfold pumped; by rewrite Hk, Hs1).
       rewrite <- Hk in HF1. destruct Ho as [[-> Hg]|[-> | ->]]; [apply wp_ret; eauto 10 with congruence|..];
         (eapply Hstop; [exact Hpu|congruence|unfold stopped; auto]). }
  destruct (k_read_ok _ _ _ _ _ Hsize E) as (Hp1 & _ & Heof & _). destruct (Z.ltb_spec 0 (strlen bs)) as [Hpos|Hneg].
  2: { assert (bs = []) as -> by (apply strlen_nil; pose proof (strlen_nonneg bs); lia). apply wp_bind. eapply wp_mono; [apply He|]. cbn [kern].
       intros o q' [Hk Ho]. assert (pumped fin fout p q' c []) as Hpu by (unfold pumped; by rewrite Hk, Hs1, Hpend, (Heof eq_refl)).
       rewrite <- Hk in HF1. destruct Ho as [[-> Hg]|[-> | ->]]; [apply wp_ret; eauto 10 with congruence|..];
         (eapply Hstop; [exact Hpu|congruence|unfold stopped; auto]). }
  assert (bs <> []) as Hne by (intros ->; done). apply wp_bind, wp_syscall. cbn [kern errno trace].
  pose proof (HFw bs k') as HF2. destruct (k_write fout bs k') as [[w|e] k''] eqn:E2; cbn [snd] in HF2;
    destruct (k_write_pending _ _ _ _ _ fin E2) as [Hp2 _].
  - destruct (k_write_ok _ _ _ _ _ Hne E2) as (Hw0 & Hs2 & _).
    destruct (Z.eqb_spec w (strlen bs)) as [->|Hshort]; cbn [negb].
    + apply wp_bind, wp_ret, wp_ret. cbn [kern]. rewrite take_ge in Hs2 by (unfold strlen; lia). split; [split; [by rewrite HF2, HF1|]|].
      * exists (c ++ bs). unfold pumped. cbn [kern]. by rewrite Hp2, Hpend, Hp1, Hs2, Hs1, Hsunk, <- !app_assoc.
      * rewrite Hp2, Hp1, length_app. destruct bs; [done|]. cbn. lia.
    + apply wp_bind. eapply wp_mono; [apply Hw|]. cbn [kern]. intros o q' [Ho Hk].
      assert (pumped fin fout p q' (c ++ take (Z.to_nat w) bs) (drop (Z.to_nat w) bs ++ pending k' fin)) as Hpu.
      { unfold pumped. by rewrite Hk, Hs2, Hs1, Hsunk, Hpend, Hp1, <- !app_assoc, (app_assoc (take _ _)), take_drop. }
      rewrite <- Hk in HF2. destruct Ho as [-> | ->]; (eapply Hstop; [exact Hpu|congruence|unfold stopped; auto]).
  - destruct (k_write_err _ _ _ _ _ Hne E2) as [Hs2 _]. rewrite (proj2 (Z.eqb_neq (-1) (strlen bs))) by lia. cbn [negb].
    apply wp_bind. eapply wp_mono; [apply Hw|]. cbn [kern]. intros o q' [Ho Hk].
    assert (pumped fin fout p q' c (bs ++ pending k' fin)) as Hpu by (unfold pumped; by rewrite Hk, Hs2, Hs1, Hpend, Hp1).
    rewrite <- Hk in HF2. destruct Ho as [-> | ->]; (eapply Hstop; [exact Hpu|congruence|unfold stopped; auto]).
Qed.
End PumpCorrect.

(** ** What the kernel promises of connections

    [clients] are the bytes that each accepted client sends, in order.  No client sends [conn_limit] of them. *)
Class ConnLaws (K : Type) `{!FileIO K, !SourceLaws K, !SinkLaws K, !SocketOps K, !SocketLaws K, !Acceptor K, !ProcCalls K} := {
  conn_limit : nat;
  clients : K -> list bytes;
  conn_accept : forall k lfd, match k_accept lfd k with
    | (inl (cfd, _), k') => one_more k k' cfd /\ clients k' = clients k ++ [pending k' cfd] /\ sunk k' cfd = [] /\
        (length (pending k' cfd) < conn_limit)%nat /\ (forall fd, fd <> cfd -> sunk k' fd = sunk k fd)
    | (inr _, k') => same_fds k k' /\ clients k' = clients k /\ forall fd, sunk k' fd = sunk k fd end;
  conn_read : forall fd n k, let k' := (k_read fd n k).2 in (open_fds k', clients k') = (open_fds k, clients k);
  conn_write : forall fd d k, let k' := (k_write fd d k).2 in (open_fds k', clients k') = (open_fds k, clients k);
  conn_close : forall fd k, let k' := (k_sclose fd k).2 in
    clients k' = clients k /\ forall fd', fd' <> fd -> sunk k' fd' = sunk k fd' /\ pending k' fd' = pending k fd';
  conn_fork : forall k, let k' := (k_fork k).2 in
    (open_fds k', clients k') = (open_fds k, clients k) /\ forall fd, sunk k' fd = sunk k fd /\ pending k' fd = pending k fd;
  conn_fork_pid : forall k r, (k_fork k).1 = inl r -> 0 <= r
}.

Section ServersCorrect.
Context `{!Messages} {K : Type} `{!FileIO K, !SourceLaws K, !SinkLaws K, !DuplexLaws K, !SocketOps K, !SocketLaws K, !Acceptor K, !ProcCalls K, !ConnLaws K}.
Implicit Types (p q : proc K).

Definition kept (k : K) : gset Z * list bytes := (open_fds k, clients k).

Lemma wp_sclose_any fd p (Q : outcome Z -> proc K -> Prop) :
  (forall r e k', open_fds k' = open_fds (kern p) ∖ {[fd]} -> clients k' = clients (kern p) ->
     (forall fd', fd' <> fd -> sunk k' fd' = sunk (kern p) fd' /\ pending k' fd' = pending (kern p) fd') -> Q (Ret r) (Proc k' e (trace p))) ->
  wp (sclose fd) p Q.
Proof.
  intros HQ. apply wp_syscall. pose proof (k_sclose_fds fd (kern p)) as Hf. destruct (conn_close fd (kern p)) as [Hc Hs].
  destruct (k_sclose fd (kern p)) as [[r|e] k']; by apply HQ.
Qed.

(** *** us_xfr *)

Lemma wp_xfr_copy fuel fin fout p : (length (pending (kern p) fin) < fuel)%nat ->
  wp (xfr_copy fuel fin fout) p (fun o q => exists c rest, pumped fin fout p q c rest /\ kept (kern q) = kept (kern p) /\
    (stopped o \/ o = Ret tt /\ rest = [])).
Proof.
  intros Hf. eapply wp_mono.
  - apply (wp_pump kept (fun n => n <> -1)); [apply conn_read|apply conn_write|..|done|exact Hf].
    + intros q. apply wp_fatal. by intros.
    + intros n q. destruct (Z.eqb_spec n (-1)); [apply wp_errExit; by auto|]. apply wp_ret. auto.
  - intros o q (c & rest & Hp & Hk & [Ho|(n & -> & Hn & Hr)]); exists c, rest; (split; [done|split; [done|]]); [by left|].
    right. by destruct Hr.
Qed.

(** [c] is all that the clients [ds] sent, but perhaps for the end of what the last of them sent. *)
Definition collected (ds : list bytes) (c : bytes) : Prop :=
  exists whole l c', ds = whole ++ l /\ (length l <= 1)%nat /\ c = concat whole ++ c' /\ c' `prefix_of` concat l.

Lemma collected_next d ds c : collected ds c -> collected (d :: ds) (d ++ c).
Proof. intros (whole & l & c' & -> & Hl & -> & Hc). exists (d :: whole), l, c'. split_and!; try done. cbn. by rewrite app_assoc. Qed.

Lemma collected_one d c rest : d = c ++ rest -> collected [d] c.
Proof. intros ->. exists [], [c ++ rest], c. split_and!; try done. cbn. rewrite app_nil_r. by apply prefix_app_r. Qed.

Lemma xfr_sv_round_copies fuel sfd p : STDOUT_FILENO ∈ open_fds (kern p) -> (conn_limit <= fuel)%nat ->
  wp (xfr_sv_round fuel sfd) p (fun o q =>
    (exists d, o = Ret tt /\ same_fds (kern p) (kern q) /\ clients (kern q) = clients (kern p) ++ [d] /\ sunk (kern q) STDOUT_FILENO = sunk (kern p) STDOUT_FILENO ++ d) \/
    (exists ds c, stopped o /\ clients (kern q) = clients (kern p) ++ ds /\ collected ds c /\ sunk (kern q) STDOUT_FILENO = sunk (kern p) STDOUT_FILENO ++ c)).
Proof.
  intros Hopen Hf. apply wp_bind, wp_syscall. pose proof (conn_accept (kern p) sfd) as Ha.
  destruct (k_accept sfd (kern p)) as [[[cfd addr]|e] k1]; cbn [recast].
  2: { destruct Ha as (_ & Hc & Hs). apply wp_errExit. intros o e' Ho. right. exists [], []. cbn [kern].
       rewrite Hc, Hs, !app_nil_r. split_and!; try done. exists [], [], []. split_and!; try done. cbn. lia. }
  destruct Ha as ((H0 & Hnew & Hfds) & Hc & _ & Hl & Hs). assert (STDOUT_FILENO <> cfd) as Hne by (intros <-; done).
  eapply wp_bind_stopped; [apply (wp_xfr_copy fuel cfd STDOUT_FILENO); cbn [kern]; lia| |].
  - intros [] q (c & rest & [Hd Hq] & Hk & Ho). cbn [kern] in *. apply pair_eq in Hk as [Hk1 Hk2]. destruct Ho as [[]|[_ ->]]; [done..|].
    apply wp_bind, wp_sclose_any. intros r e k' Ho' Hc' Hs'. rewrite app_nil_r in Hd.
    assert (forall t, wp (if r =? -1 then errMsg (str "close") else mret tt) (Proc k' e t) (fun o q => o = Ret tt /\ kern q = k')) as Hend.
    { intros t. destruct (r =? -1); [apply wp_errMsg|apply wp_ret]; done. }
    eapply wp_mono; [apply Hend|]. intros o q' [-> Hkq]. left. exists c. rewrite Hkq. split; [done|].
    split; [|split; [congruence|by rewrite (proj1 (Hs' _ Hne)), Hq, (Hs _ Hne)]]. unfold same_fds. rewrite Ho', Hk1, Hfds. set_solver.
  - intros o q (c & rest & [Hd Hq] & Hk & [Ho|[-> ->]]); [right|by left; exists tt]. cbn [kern] in *. apply pair_eq in Hk as [Hk1 Hk2].
    split; [done|]. intros o' Ho'. right. exists [pending k1 cfd], c. split_and!; [done|congruence|by eapply collected_one|by rewrite Hq, (Hs _ Hne)].
Qed.

(** the server of us_xfr never ends by itself.  Over any number of its rounds, its standard output gets
    what the clients sent, one after the other, whole and in the order in which they were accepted, and no descriptor
    is left open; when an error stops it, the end of what the last client sent is what may be missing. *)
Theorem us_xfr_sv_collects n fuel sfd p : STDOUT_FILENO ∈ open_fds (kern p) -> (conn_limit <= fuel)%nat ->
  wp (rounds n (xfr_sv_round fuel sfd)) p (fun o q => exists ds c, clients (kern q) = clients (kern p) ++ ds /\
    sunk (kern q) STDOUT_FILENO = sunk (kern p) STDOUT_FILENO ++ c /\
    (o = Ret tt /\ length ds = n /\ c = concat ds /\ same_fds (kern p) (kern q) \/ stopped o /\ collected ds c)).
Proof.
  intros Hopen Hf. revert p Hopen. induction n as [|n IH]; intros p Hopen; cbn [rounds].
  - apply wp_ret. exists [], []. rewrite !app_nil_r. split_and!; try done. by left.
  - eapply wp_bind_stopped; [by apply xfr_sv_round_copies| |].
    + intros [] q [(d & _ & Hfd & Hc & Hs)|(ds & c & [] & _)]; [|done..].
      eapply wp_mono; [apply IH; by rewrite Hfd|]. intros o q' (ds & c & Hc' & Hs' & Ho). exists (d :: ds), (d ++ c).
      rewrite Hc', Hc, Hs', Hs, <- !app_assoc. split; [done|]. split; [done|].
      destruct Ho as [(-> & <- & -> & Hfd')|[Ho Hds]]; [left|right; split; [done|by apply collected_next]].
      split_and!; try done. unfold same_fds in *. congruence.
    + intros o q [(d & -> & _)|(ds & c & Ho & Hc & Hds & Hs)]; [left; by exists tt|right]. split; [done|]. intros o' Ho'. exists ds, c. auto.
Qed.

(** Its client sends its whole standard input, or is stopped having sent a start of it. *)
Lemma us_xfr_cl_sends fuel sfd p : (length (pending (kern p) STDIN_FILENO) < fuel)%nat ->
  wp (xfr_copy fuel STDIN_FILENO sfd ;; exit_ EXIT_SUCCESS : M (proc K) unit) p (fun o q => exists c rest, pumped STDIN_FILENO sfd p q c rest /\
    (o = Exit EXIT_SUCCESS /\ rest = [] \/ stopped o)).
Proof.
  intros Hf. eapply wp_bind_stopped; [by apply wp_xfr_copy| |].
  - intros [] q (c & rest & Hp & _ & [[]|[_ ->]]); [done..|]. by exists c, []; auto.
  - intros o q (c & rest & Hp & _ & [Ho|[-> _]]); [right|by left; exists tt]. split; [done|]. intros o' Ho'. exists c, rest. auto.
Qed.

(** *** The echo servers *)

Section Echo.
Context (strerror : Z -> bytes).

Lemma loop_ext {S St A} (b1 b2 : St -> M S (St + A)) : (forall st s, b1 st s = b2 st s) -> forall fuel st s, loop fuel b1 st s = loop fuel b2 st s.
Proof.
  intros Hb. induction fuel as [|fuel IH]; intros st s; [done|]. rewrite !loop_S. unfold mbind, M_bind. rewrite Hb.
  destruct (b2 st s) as [[[st'|a]| | | |] s']; cbn; try done.
Qed.

(** The handler of Transfer.v is the copying loop with the connection on both sides. *)
Definition handler (fuel : nat) (cfd : Z) : M (proc K) unit :=
  pump fuel 4096 cfd cfd (log_and_exit strerror (str "write() failed: "))
    (fun numRead => if numRead =? -1 then log_and_exit strerror (str "Error from read(): ") else mret tt).

Lemma handleRequest_is_pump fuel cfd p : handleRequest strerror fuel cfd p = handler fuel cfd p.
Proof.
  apply loop_ext. intros [] s. unfold mbind, M_bind. destruct (read cfd 4096 s) as [[[r bs]| | | |] s1]; try done.
  destruct (0 <? r).
  - destruct (write cfd bs s1) as [[w| | | |] s2]; try done. by destruct (w =? r).
  - by destruct (r =? -1).
Qed.

Lemma wp_log_and_exit {A} msg q (Q : outcome A -> proc K -> Prop) :
  (forall e, Q (Exit EXIT_FAILURE) (Proc (kern q) (errno q) (trace q ++ [Err e]))) -> wp (log_and_exit strerror msg) q Q.
Proof. intros HQ. apply wp_bind, wp_get_errno, wp_bind, wp_eprintf, HQ. Qed.

Lemma wp_handleRequest fuel cfd p : (length (pending (kern p) cfd) < fuel)%nat ->
  wp (handleRequest strerror fuel cfd) p (fun o q => exists c rest, pumped cfd cfd p q c rest /\ kept (kern q) = kept (kern p) /\
    (stopped o \/ o = Ret tt /\ rest = [])).
Proof.
  intros Hf. unfold wp. rewrite handleRequest_is_pump. eapply wp_mono.
  - apply (wp_pump kept (fun n => n <> -1)); [apply conn_read|apply conn_write|..|done|exact Hf].
    + intros q. apply wp_log_and_exit. intros ?. split; [by left|done].
    + intros n q. destruct (Z.eqb_spec n (-1)); [apply wp_log_and_exit; intros ?; split; [done|by right; left]|]. apply wp_ret. auto.
  - intros o q (c & rest & Hp & Hk & [Ho|(n & -> & Hn & Hr)]); exists c, rest; (split; [done|split; [done|]]); [by left|].
    right. by destruct Hr.
Qed.

(** [q] is a child that has ended: it was given the last client [d] and sent it back [d], or a start of it after
    a failure; it held its connection and not the listening socket. *)
Definition child_served (lfd : Z) (o : outcome unit) (q : proc K) : Prop := exists before d cfd c rest,
  clients (kern q) = before ++ [d] /\ d = c ++ rest /\ sunk (kern q) cfd = c /\ cfd ∈ open_fds (kern q) /\ (lfd ∉ open_fds (kern q)) /\
  (o = Exit EXIT_SUCCESS /\ rest = [] \/ stopped o).

Lemma echo_round_serves retry fuel lfd p : lfd ∈ open_fds (kern p) -> (conn_limit <= fuel)%nat ->
  wp (echo_round strerror retry fuel lfd) p (fun o q => child_served lfd o q \/
    same_fds (kern p) (kern q) /\ (o = Ret tt \/ o = Exit EXIT_FAILURE /\ retry = false)).
Proof.
  intros Hopen Hf. apply wp_bind, wp_syscall. pose proof (conn_accept (kern p) lfd) as Ha.
  destruct (k_accept lfd (kern p)) as [[[cfd addr]|e] k1]; cbn [recast].
  2: { destruct Ha as (Hs & _). apply wp_bind, wp_get_errno, wp_bind, wp_eprintf. right. destruct retry; (split; [exact Hs|]); auto. }
  destruct Ha as ((H0 & Hnew & Hfds) & Hc & Hs & Hl & _). assert (lfd <> cfd) as Hne by (intros <-; done).
  apply wp_bind, wp_syscall. cbn [kern errno trace]. destruct (conn_fork k1) as [Hk2 Hk2']. pose proof (conn_fork_pid k1) as Hpid.
  destruct (k_fork k1) as [r k2]. cbn [fst snd] in *. apply pair_eq in Hk2 as [Hf2 Hc2].
  assert (forall e t, wp (sclose cfd ;; mret tt : M (proc K) unit) (Proc k2 e t) (fun o q => child_served lfd o q \/
    same_fds (kern p) (kern q) /\ (o = Ret tt \/ o = Exit EXIT_FAILURE /\ retry = false))) as Hparent.
  { intros e t. apply wp_bind, wp_sclose_any. cbn [kern]. intros r' e' k3 Ho _ _. apply wp_ret. right. split; [|by left].
    unfold same_fds. cbn [kern]. rewrite Ho, Hf2, Hfds. set_solver. }
  destruct r as [r|e]; cbn [recast].
  2: { change (-1 =? -1) with true. apply wp_bind, wp_bind, wp_get_errno, wp_eprintf, Hparent. }
  specialize (Hpid r eq_refl). destruct (Z.eqb_spec r (-1)); [lia|]. destruct (Z.eqb_spec r 0); [|apply Hparent].
  apply wp_bind, wp_sclose_any. cbn [kern]. intros r' e' k3 Ho Hc3 Hs3. destruct (Hs3 cfd) as [Hs3' Hp3]; [done|].
  destruct (Hk2' cfd) as [Hs2 Hp2]. eapply wp_bind_stopped; [apply wp_handleRequest; cbn [kern]; rewrite Hp3, Hp2; lia|..].
  all: intros o q (c & rest & [Hd Hq] & Hk & Hend); cbn [kern] in *; apply pair_eq in Hk as [Hfq Hcq];
    rewrite Hp3, Hp2 in Hd; rewrite Hs3', Hs2, Hs in Hq.
  all: assert (forall o', (o' = Exit EXIT_SUCCESS /\ rest = [] \/ stopped o') -> child_served lfd o' q) as Hchild
    by (intros o' Ho'; exists (clients (kern p)), (pending k1 cfd), cfd, c, rest; split_and!; [congruence|done|done|rewrite Hfq, Ho, Hf2, Hfds; set_solver..|done]).
  - destruct Hend as [[]|[_ ->]]; [done..|]. left. apply Hchild. by left.
  - destruct Hend as [Hst|[-> _]]; [right|left; by exists tt]. split; [done|]. intros o' Ho'. left. apply Hchild. by right.
Qed.

(** C40: the echo servers, over any number of rounds of the loop.  The parent comes back to accept with the
    descriptors it had, whatever failed in between; only version 1, when accept fails, ends.  A child gets one client,
    sends back to it all that it sends, and ends with success, or, after an error, has sent a start of it; it does
    not hold the listening socket. *)
Theorem echo_sv_serves retry n fuel lfd p : lfd ∈ open_fds (kern p) -> (conn_limit <= fuel)%nat ->
  wp (rounds n (echo_round strerror retry fuel lfd)) p (fun o q => child_served lfd o q \/
    same_fds (kern p) (kern q) /\ (o = Ret tt \/ o = Exit EXIT_FAILURE /\ retry = false)).
Proof.
  intros Hopen Hf. revert p Hopen. induction n as [|n IH]; intros p Hopen; cbn [rounds]; [apply wp_ret; right; split; [done|by left]|].
  apply wp_bind. eapply wp_mono; [by apply echo_round_serves|]. intros o q [Hc|[Hs [->|[-> Hr]]]].
  - destruct Hc as (b & d & cfd & c & rest & H1 & H2 & H3 & H4 & H5 & Hend).
    destruct Hend as [[-> Hr]|[-> | ->]]; left; exists b, d, cfd, c, rest; (do 5 (split; [done|])); unfold stopped; auto.
  - eapply wp_mono; [apply IH; by rewrite Hs|]. intros o q' [Hc|[Hs' Ho]]; [by left|right]. split; [|done]. unfold same_fds in *. congruence.
  - right. auto.
Qed.
End Echo.
End ServersCorrect.

(** ** The handler of SIGCHLD *)

(** [zombies] are the children that ended and were not waited for. *)
Class ReapLaws (K : Type) `{!ServeCalls K} := {
  zombies : K -> nat;
  reap_takes : forall k, match k_reap k with
    | (inl r, k') => if 0 <? r then zombies k = S (zombies k') else zombies k' = O
    | (inr _, k') => zombies k' = O end
}.

Lemma grimReaper_reaps {K} `{!ServeCalls K, !ReapLaws K} fuel (p : proc K) : (zombies (kern p) < fuel)%nat ->
  wp (grimReaper fuel) p (fun o q => o = Ret tt /\ zombies (kern q) = O /\ errno q = errno p /\ trace q = trace p).
Proof.
  intros Hf. apply wp_bind, wp_get_errno, wp_bind.
  apply (loop_wp (fun _ q => trace q = trace p) (fun _ q => zombies (kern q))); [|done|done].
  intros _ q Hq. apply wp_bind, wp_syscall. pose proof (reap_takes (kern q)) as Hr.
  destruct (k_reap (kern q)) as [[r|e] k']; [|by apply wp_ret, wp_set_errno].
  destruct (0 <? r); apply wp_ret; cbn [kern trace]; [|by apply wp_set_errno]. split; [done|]. lia.
Qed.

(** ** The echo client *)

Section EchoClient.
Context `{!Messages} {K : Type} `{!FileIO K, !SourceLaws K}.

Lemma c_str_whole s : NUL ∉ s -> c_str s = s.
Proof.
  unfold c_str. induction s as [|c s IH]; intros Hs; [done|]. apply not_elem_of_cons in Hs as [Hc Hs]. cbn.
  destruct (Ascii.eqb_spec c NUL) as [->|_]; [done|]. cbn. specialize (IH Hs). destruct (span _ s). cbn in *. by rewrite IH.
Qed.

(** Without null bytes in it, the child prints what the server sends, all of it when no read fails. *)
Lemma echo_cl_child_prints fuel sfd (p : proc K) : NUL ∉ pending (kern p) sfd -> (length (pending (kern p) sfd) < fuel)%nat ->
  wp (echo_cl_child fuel sfd) p (fun o q => o = Exit EXIT_SUCCESS /\ exists pieces rest, trace q = trace p ++ (Out <$> pieces) /\
    pending (kern p) sfd = concat pieces ++ rest /\ ((forall n k e, (k_read sfd n k).1 <> inr e) -> rest = [])).
Proof.
  intros Hnul Hf. apply wp_bind.
  apply (loop_wp (fun _ q => exists pieces, trace q = trace p ++ (Out <$> pieces) /\ pending (kern p) sfd = concat pieces ++ pending (kern q) sfd)
    (fun _ q => length (pending (kern q) sfd))); [|exists []; split; [by rewrite app_nil_r|done]|done].
  intros _ q (pieces & Ht & Hp). apply wp_bind, wp_syscall.
  destruct (k_read sfd BUF_SIZE (kern q)) as [[bs|e] k'] eqn:E.
  - destruct (k_read_ok _ sfd BUF_SIZE _ _ eq_refl E) as (Hbs & _ & Heof & _). destruct (Z.leb_spec (strlen bs) 0) as [Hle|Hpos].
    + assert (bs = []) as -> by (apply strlen_nil; pose proof (strlen_nonneg bs); lia). apply wp_ret. split; [done|].
      exists pieces, []. by rewrite Hp, (Heof eq_refl), app_nil_r.
    + apply wp_bind, wp_printf, wp_ret. cbn [kern trace]. split.
      * exists (pieces ++ [bs]). rewrite Ht, fmap_app, <- app_assoc, c_str_whole by (rewrite Hp, Hbs in Hnul; set_solver). split; [done|].
        rewrite Hp, Hbs, concat_app. cbn. by rewrite app_nil_r, <- app_assoc.
      * rewrite Hbs, length_app. unfold strlen in Hpos. lia.
  - apply wp_ret. split; [done|]. exists pieces, (pending (kern q) sfd). split_and!; try done. intros Hno. exfalso. apply (Hno BUF_SIZE (kern q) e). by rewrite E.
Qed.

(** What follows a null byte is lost. *)
Example null_byte_hides : c_str (str "ab" ++ NUL :: str "cd") = str "ab".
Proof. reflexivity. Qed.
End EchoClient.

(** ** A simulated host

    Clients arrive with what they will send; reads and writes are whole; the answers to the forks are given. *)
Record hostk := Hostk {
  hk_open : gset Z; hk_arriving : list bytes; hk_in : gmap Z bytes; hk_out : gmap Z bytes; hk_clients : list bytes; hk_forks : list Z
}.

Definition hostk_accept (k : hostk) : (Z * bytes + Z) * hostk :=
  let cfd := new_fd (Socks (hk_open k) ∅ ∅ false) in
  match hk_arriving k with
  | d :: ds =>
      if (length d <? 100)%nat
      then (inl (cfd, []), Hostk ({[cfd]} ∪ hk_open k) ds (<[cfd := d]> (hk_in k)) (<[cfd := []]> (hk_out k)) (hk_clients k ++ [d]) (hk_forks k))
      else (inr EINVAL, k)
  | [] => (inr EINVAL, k)
  end.

#[export] Instance hostk_io : FileIO hostk := {|
  k_open := fun _ _ _ k => (inr ENOENT, k);
  k_close := fun _ k => (inl 0, k);
  k_read := fun fd n k => let d := default [] (hk_in k !! fd) in (inl (take (Z.to_nat n) d),
    Hostk (hk_open k) (hk_arriving k) (<[fd := drop (Z.to_nat n) d]> (hk_in k)) (hk_out k) (hk_clients k) (hk_forks k));
  k_write := fun fd data k => (inl (strlen data),
    Hostk (hk_open k) (hk_arriving k) (hk_in k) (<[fd := default [] (hk_out k !! fd) ++ data]> (hk_out k)) (hk_clients k) (hk_forks k));
  k_lseek := fun _ _ _ k => (inr EINVAL, k)
|}.

#[export] Instance hostk_sockets : SocketOps hostk := {|
  k_getaddrinfo := fun _ _ _ k => (inr 1, k);
  k_getnameinfo := fun _ k => (inr 1, k);
  k_socket := fun _ _ _ k => (inr EACCES, k);
  k_connect := fun _ _ k => (inr EACCES, k);
  k_bind := fun _ _ k => (inr EACCES, k);
  k_listen := fun _ _ k => (inr EACCES, k);
  k_setsockopt := fun _ _ _ _ k => (inr EACCES, k);
  k_sclose := fun fd k => (inl 0, Hostk (hk_open k ∖ {[fd]}) (hk_arriving k) (hk_in k) (hk_out k) (hk_clients k) (hk_forks k))
|}.

#[export] Instance hostk_acceptor : Acceptor hostk := {| k_accept := fun _ => hostk_accept; k_ignore := fun _ k => (inl tt, k) |}.

#[export] Instance hostk_proc : ProcCalls hostk := {|
  k_fork := fun k => match hk_forks k with
    | pid :: l => (if 0 <=? pid then inl pid else inr EAGAIN, Hostk (hk_open k) (hk_arriving k) (hk_in k) (hk_out k) (hk_clients k) l)
    | [] => (inr EAGAIN, k) end;
  k_setsid := fun k => (inr EPERM, k);
  k_close_fd := fun _ k => (inr EBADF, k);
  k_open_file := fun _ _ k => (inr ENOENT, k);
  k_dup2 := fun _ _ k => (inr EBADF, k)
|}.

#[export] Program Instance hostk_source : SourceLaws hostk := {| pending := fun k fd => default [] (hk_in k !! fd); rdelays := fun _ _ => O |}.
Next Obligation.
  intros k fd n bs k' Hn [= <- <-]. cbn. rewrite lookup_insert_eq. cbn. rewrite take_drop. split_and!; [done|unfold strlen; rewrite length_take; lia| |done].
  destruct (default [] (hk_in k !! fd)); [done|]. destruct (Z.to_nat n) eqn:E; [lia|done].
Qed.
Next Obligation. done. Qed.

#[export] Program Instance hostk_sink : SinkLaws hostk := {| sunk := fun k fd => default [] (hk_out k !! fd); wdelays := fun _ _ => O |}.
Next Obligation.
  intros k fd data c k' Hd [= <- <-]. cbn. rewrite lookup_insert_eq. cbn. unfold strlen. rewrite Nat2Z.id, firstn_all. split_and!; done || lia.
Qed.
Next Obligation. done. Qed.

#[export] Instance hostk_duplex : DuplexLaws hostk.
Proof. split; intros k fd x r k' fd' [= <- <-]; done. Qed.

#[export] Program Instance hostk_slaws : SocketLaws hostk := {| open_fds := hk_open; peer := fun _ _ => None; local := fun _ _ => None |}.
Solve All Obligations with done.

#[export] Program Instance hostk_conn : ConnLaws hostk := {| conn_limit := 100; clients := hk_clients |}.
Next Obligation.
  intros k lfd. cbn. unfold hostk_accept. destruct (hk_arriving k) as [|d ds]; [done|]. destruct (Nat.ltb_spec (length d) 100); [|done].
  destruct (new_fd_fresh (Socks (hk_open k) ∅ ∅ false)) as [H1 H2]. cbn [s_open] in H2. cbn. rewrite !lookup_insert_eq. cbn.
  split_and!; try done. intros fd Hne. by rewrite lookup_insert_ne.
Qed.
Next Obligation. done. Qed.
Next Obligation. done. Qed.
Next Obligation. done. Qed.
Next Obligation. intros k. cbn. by destruct (hk_forks k). Qed.
Next Obligation. intros k r. cbn. destruct (hk_forks k) as [|pid l]; [done|]. cbn. destruct (Z.leb_spec 0 pid); [|done]. by intros [= <-]. Qed.

#[local] Instance serve_messages : Messages := Build_Messages (fun _ => []) 0 (fun _ => []) None.

Definition busy : proc hostk := Proc (Hostk {[0; 1; 2; 3]} [str "hello "; str "world"] ∅ ∅ [] [7; 0]) 0 [].

Lemma us_xfr_sv_collects_witness :
  let '(o, q) := rounds 2 (xfr_sv_round 100 3) busy in o = Ret tt /\ sunk (kern q) STDOUT_FILENO = str "hello world".
Proof.
  pose proof (us_xfr_sv_collects 2 100 3 busy ltac:(by_decide) ltac:(by_decide)) as Hs. unfold wp in Hs.
  assert (hk_clients (kern (rounds 2 (xfr_sv_round 100 3) busy).2) = [str "hello "; str "world"]) as Hc by (vm_compute; reflexivity).
  assert ((rounds 2 (xfr_sv_round 100 3) busy).1 = Ret tt) as Ho by (vm_compute; reflexivity).
  destruct (rounds 2 (xfr_sv_round 100 3) busy) as [o q]. cbn [fst snd] in *. destruct Hs as (ds & c & Hcl & Hs & [(_ & _ & -> & _)|[Hst _]]).
  - split; [exact Ho|]. change (hk_clients (kern q) = ds) in Hcl. rewrite <- Hcl, Hc in Hs. exact Hs.
  - destruct Hst as [E|E]; rewrite Ho in E; discriminate E.
Defined.

(** The parent of the first client, the child of the second. *)
Lemma echo_sv_serves_witness :
  let '(o, q) := rounds 2 (echo_round (fun _ => []) false 100 3) busy in o = Exit EXIT_SUCCESS /\ child_served 3 o q.
Proof.
  pose proof (echo_sv_serves (fun _ => []) false 2 100 3 busy ltac:(by_decide) ltac:(by_decide)) as Hs. unfold wp in Hs.
  assert ((rounds 2 (echo_round (fun _ => []) false 100 3) busy).1 = Exit EXIT_SUCCESS) as Ho by (vm_compute; reflexivity).
  destruct (rounds 2 (echo_round (fun _ => []) false 100 3) busy) as [o q]. cbn [fst snd] in *.
  split; [exact Ho|]. destruct Hs as [Hs|[_ [E|[E _]]]]; [exact Hs|rewrite Ho in E; discriminate E..].
Defined.
