(* ===== verification/Ucase.v ===== *)
(** * Upper case by datagrams

    ud_ucase_sv.c and ud_ucase_cl.c (tlpi-dist/sockets): a server that sends back each message of at most
    10 bytes in upper case, and any number of clients that each send their arguments, one at a time, and
    print the responses; i6d_ucase_sv.c and i6d_ucase_cl.c are the same over UDP, where a message may be lost.
    The processes are scheduled like those of Threads.v.  What the server prints is the output of the
    system, what a client prints is part of the client. *)

From Stdlib Require Import ZArith Lia String Ascii.
From S2P Require Import Prelude CString Kernel ErrorFns Pipes Sockets Seqnum Serve.
From S2P Require Threads.
Import Threads (sys, Sys, shared, threads, printed, ended, effect, Go, Say, Wait, run_one, step, run).

Definition BUF_SIZE : nat := 10.

(** ** Making the sockets *)

Section Setup.
Context `{!Messages} {K : Type} `{!SocketOps K, !ServeCalls K}.

Definition SOCK_DGRAM : Z := 2.
Definition AF_INET6 : Z := 10.
Definition SV_SOCK_PATH : bytes := str "/tmp/ud_ucase".

Definition bound_socket (domain : Z) (addr : bytes) (first : M (Kernel.proc K) unit) : M (Kernel.proc K) Z :=
  sfd ← socket domain SOCK_DGRAM 0;
  (if sfd =? -1 then errExit (str "socket") else mret tt) ;;
  first ;;
  b ← bind sfd addr;
  (if b =? -1 then errExit (str "bind") else mret tt) ;;
  mret sfd.

Definition ud_ucase_sv_setup : M (Kernel.proc K) Z :=
  bound_socket AF_UNIX (sun_path SV_SOCK_PATH)
    (r ← syscall (-1) (k_remove SV_SOCK_PATH);
     e ← get_errno;
     if (r =? -1) && negb (e =? ENOENT) then errExit (str "remove-" ++ SV_SOCK_PATH) else mret tt).

(** The name is cut to the room in the address. *)
Definition client_path (pid : Z) : bytes := take (Z.to_nat (SUN_PATH - 1)) (str "/tmp/ud_ucase_cl." ++ dec pid).

Definition ud_ucase_cl_setup (argv : list bytes) (pid : Z) : M (Kernel.proc K) Z :=
  (if bool_decide (length argv < 2)%nat || asks_help argv then usageErr (default [] (argv !! 0%nat) ++ str " msg..." ++ [NL]) else mret tt) ;;
  bound_socket AF_UNIX (sun_path (client_path pid)) (mret tt).

(** [any_addr] is the address of port 50002 on all interfaces. *)
Definition i6d_ucase_sv_setup (any_addr : bytes) : M (Kernel.proc K) Z := bound_socket AF_INET6 any_addr (mret tt).

Definition i6d_ucase_cl_setup (inet_pton : bytes -> option bytes) (argv : list bytes) : M (Kernel.proc K) (Z * bytes) :=
  (if bool_decide (length argv < 3)%nat || asks_help argv
   then usageErr (default [] (argv !! 0%nat) ++ str " host-address msg..." ++ [NL]) else mret tt) ;;
  sfd ← socket AF_INET6 SOCK_DGRAM 0;
  if sfd =? -1 then errExit (str "socket")
  else
    match inet_pton (default [] (argv !! 1%nat)) with
    | Some addr => mret (sfd, addr)
    | None => fatal (str "inet_pton failed for address '" ++ default [] (argv !! 1%nat) ++ str "'")
    end.
End Setup.

(** A call succeeds; or it sends a message that is lost; or it fails. *)
Inductive answer := Done | Lost | Fails (errnum : Z).

(** The sockets' queues: what the server has not received, with the client it is from, and what each client has not. *)
Record queues := Queues { inbox : list (nat * bytes); replies : gmap nat (list bytes) }.
Definition replies_to (i : nat) (g : queues) : list bytes := default [] (replies g !! i).
Definition set_replies (i : nat) (l : list bytes) (g : queues) : queues := Queues (inbox g) (<[i := l]> (replies g)).

Inductive sv_pc := SvRecv | SvLog (from : nat) (buf : bytes) | SvSend (from : nat) (buf : bytes) | SvEnd (f : fate).
(** [j] counts the messages from 0. *)
Inductive cl_pc := ClSend (j : nat) | ClRecv (j : nat) | ClPrint (j : nat) (resp : bytes) | ClRemove | ClEnd (f : fate).
Inductive proc := Server (c : sv_pc) | Client (c : cl_pc) (out : list bytes).

Definition capitals (buf : bytes) : bytes := toupper <$> buf.
Definition response_line (j : nat) (resp : bytes) : bytes := str "Response " ++ dec (Z.of_nat (S j)) ++ str ": " ++ c_str resp ++ [NL].

Section Program.
(** The messages of each client; how many messages a queue takes; the name of a client in the server's log. *)
Context (msgs : list (list bytes)) (qlen : nat) (name : nat -> bytes).

Definition log_line (from : nat) (numBytes : nat) : bytes :=
  str "Server received " ++ dec (Z.of_nat numBytes) ++ str " bytes from " ++ name from ++ [NL].

Definition server_exec (a : answer) (c : sv_pc) (g : queues) : effect queues proc :=
  match c with
  | SvRecv =>
      match a, inbox g with
      | Fails e, _ => Go (Server (SvEnd (Failed e "recvfrom"))) g
      | _, [] => Wait
      | _, (from, m) :: rest => Go (Server (SvLog from (take BUF_SIZE m))) (Queues rest (replies g))
      end
  | SvLog from buf => Say (Server (SvSend from (capitals buf))) (log_line from (length buf))
  | SvSend from buf =>
      match a with
      | Fails _ => Go (Server (SvEnd (Fatal "sendto"))) g
      | Lost => Go (Server SvRecv) g
      | Done => if (qlen <=? length (replies_to from g))%nat then Wait
                else Go (Server SvRecv) (set_replies from (replies_to from g ++ [buf]) g)
      end
  | SvEnd _ => Wait
  end.

(** [self] is the client's place among the processes, the server being the first. *)
Definition client_exec (self : nat) (a : answer) (c : cl_pc) (out : list bytes) (g : queues) : effect queues proc :=
  match c with
  | ClSend j =>
      match default [] (msgs !! pred self) !! j with
      | None => Go (Client ClRemove out) g
      | Some m =>
          match a with
          | Fails _ => Go (Client (ClEnd (Fatal "sendto")) out) g
          | Lost => Go (Client (ClRecv j) out) g
          | Done => if (qlen <=? length (inbox g))%nat then Wait
                    else Go (Client (ClRecv j) out) (Queues (inbox g ++ [(self, m)]) (replies g))
          end
      end
  | ClRecv j =>
      match a, replies_to self g with
      | Fails e, _ => Go (Client (ClEnd (Failed e "recvfrom")) out) g
      | _, [] => Wait
      | _, r :: rest => Go (Client (ClPrint j (take BUF_SIZE r)) out) (set_replies self rest g)
      end
  | ClPrint j resp => Go (Client (ClSend (S j)) (out ++ [response_line j resp])) g
  | ClRemove => Go (Client (ClEnd (Exited EXIT_SUCCESS)) out) g
  | ClEnd _ => Wait
  end.

Definition exec (self : nat) (a : answer) (ts : list proc) (t : proc) (g : queues) : effect queues proc :=
  match t with
  | Server c => server_exec a c g
  | Client c out => client_exec self a c out g
  end.

(** After the sockets were made. *)
Definition start_state : sys queues proc := Sys (Queues [] ∅) (Server SvRecv :: ((fun _ => Client (ClSend 0) []) <$> msgs)) [] None.
End Program.

(** Two clients, the first with a message that is cut. *)
Example ucase_runs :
  let s := start_state [[str "long message"]; [str "b"]] in
  let sched := [(1, Done); (2, Done); (0, Done); (0, Done); (0, Done); (0, Done); (0, Done); (0, Done); (2, Done); (2, Done); (1, Done); (1, Done)]%nat in
  (fun s => threads s) <$> run (exec [[str "long message"]; [str "b"]] 5 (fun _ => [])) sched s =
  Some [Server SvRecv; Client (ClSend 1) [str "Response 1: LONG MESSA" ++ [NL]]; Client (ClSend 1) [str "Response 1: B" ++ [NL]]].
Proof. vm_compute. reflexivity. Qed.

(** ** The invariant *)

Section Correct.
Context (msgs : list (list bytes)) (qlen : nat) (name : nat -> bytes).
Let ex := exec msgs qlen name.
Implicit Types (g : queues) (sv : sv_pc) (i : nat).

(** Nothing fails or is lost; anything may happen. *)
Definition allowed (strict : bool) (a : answer) : Prop := strict = true -> a = Done.

Definition messages (i : nat) : list bytes := default [] (msgs !! i).
(** What a client is sent back, and what it prints. *)
Definition echo (m : bytes) : bytes := capitals (take BUF_SIZE m).
Definition lines (ms : list bytes) : list bytes := imap (fun j m => response_line j (echo m)) ms.

(** The responses that are under way to the process [i]: from its messages in the server's queue, of
    the one the server is handling, and those in its own queue. *)
Definition held (i : nat) (sv : sv_pc) : list bytes :=
  match sv with
  | SvLog from buf => if decide (from = i) then [capitals buf] else []
  | SvSend from buf => if decide (from = i) then [buf] else []
  | _ => []
  end.
Definition queued (i : nat) (l : list (nat * bytes)) : list bytes := (fun x => echo x.2) <$> filter (fun x => x.1 = i) l.
Definition transit (i : nat) (sv : sv_pc) (g : queues) : list bytes := queued i (inbox g) ++ held i sv ++ replies_to i g.

(** The client [i] (from 0), with [t] under way to it. *)
Definition client_ok (strict : bool) (i : nat) (c : cl_pc) (out t : list bytes) : Prop :=
  match c with
  | ClSend j => out = lines (take j (messages i)) /\ (j <= length (messages i))%nat /\ t = []
  | ClRecv j => out = lines (take j (messages i)) /\ exists m, messages i !! j = Some m /\ (t = [echo m] \/ strict = false /\ t = [])
  | ClPrint j resp => out = lines (take j (messages i)) /\ exists m, messages i !! j = Some m /\ resp = echo m /\ t = []
  | ClRemove => out = lines (messages i) /\ t = []
  | ClEnd (Exited z) => z = EXIT_SUCCESS /\ out = lines (messages i) /\ t = []
  | ClEnd _ => strict = false /\ exists j, out = lines (take j (messages i))
  end.

Definition client_proc (x : cl_pc * list bytes) : proc := Client x.1 x.2.

Record inv_at (strict : bool) (sv : sv_pc) (cls : list (cl_pc * list bytes)) (s : sys queues proc) : Prop := {
  inv_threads : threads s = Server sv :: (client_proc <$> cls);
  inv_ended : ended s = None;
  inv_count : length cls = length msgs;
  inv_clients : forall i c out, cls !! i = Some (c, out) -> client_ok strict i c out (transit (S i) sv (shared s));
  inv_server : strict = true -> match sv with SvEnd _ => False | _ => True end;
  inv_from : forall i x, x ∈ transit i sv (shared s) -> (0 < i <= length msgs)%nat
}.
Definition inv (strict : bool) (s : sys queues proc) : Prop := exists sv cls, inv_at strict sv cls s.

Lemma echo_fits m : take BUF_SIZE (echo m) = echo m.
Proof. apply take_ge. unfold echo, capitals. rewrite length_fmap, length_take. lia. Qed.

Lemma ucase_lines_snoc ms j m : ms !! j = Some m -> lines (take (S j) ms) = lines (take j ms) ++ [response_line j (echo m)].
Proof.
  intros Hj. pose proof (lookup_lt_Some _ _ _ Hj). rewrite (take_S_r _ _ m) by done. unfold lines. rewrite imap_app. cbn.
  by rewrite length_take, Nat.min_l, Nat.add_0_r by lia.
Qed.

Lemma queued_cons i from m l : queued i ((from, m) :: l) = (if decide (from = i) then [echo m] else []) ++ queued i l.
Proof. unfold queued. rewrite filter_cons. cbn. by destruct (decide (from = i)). Qed.

Lemma queued_snoc i from m l : queued i (l ++ [(from, m)]) = queued i l ++ (if decide (from = i) then [echo m] else []).
Proof. unfold queued. rewrite filter_app, fmap_app, filter_cons. cbn. by destruct (decide (from = i)). Qed.

Lemma replies_to_set i i' l g : replies_to i (set_replies i' l g) = if decide (i' = i) then l else replies_to i g.
Proof. unfold replies_to, set_replies. cbn. rewrite lookup_insert. by case_decide. Qed.

(** The order of what is under way does not matter. *)
Lemma client_ok_perm strict i c out t t' : t ≡ₚ t' -> client_ok strict i c out t -> client_ok strict i c out t'.
Proof.
  intros Ht. assert (t = [] -> t' = []) as H0 by (intros ->; by apply Permutation_nil).
  assert (forall x, t = [x] -> t' = [x]) as H1 by (intros x ->; by apply Permutation_length_1_inv in Ht). destruct c as [j|j|j resp| |[]]; cbn; naive_solver.
Qed.

(** Fewer are under way when messages may be lost. *)
Lemma client_ok_less i c out x t t' : t ≡ₚ x ++ t' -> client_ok false i c out t -> client_ok false i c out t'.
Proof.
  intros Ht. assert (t = [] -> t' = []) as H0 by (intros ->; by apply Permutation_nil, app_nil in Ht as [_ ?]).
  assert (forall y, t = [y] -> t' = [y] \/ t' = []) as H1.
  { intros y ->. apply Permutation_length_1_inv in Ht. destruct x as [|z x]; [by left|]. right. by destruct x, t'. }
  destruct c as [j|j|j resp| |[]]; cbn; try naive_solver.
Qed.

(** *** Steps of the server *)

(** The server goes to [sv'] with queues [g']; what is under way to a client stays, or less when something may be lost. *)
Lemma ucase_server_goes strict sv sv' cls g g' ts out out' :
  inv_at strict sv cls (Sys g ts out None) -> (strict = true -> match sv' with SvEnd _ => False | _ => True end) ->
  (forall i, exists lost, transit i sv g ≡ₚ lost ++ transit i sv' g' /\ (strict = true -> lost = [])) ->
  inv_at strict sv' cls (Sys g' (<[0%nat := Server sv']> ts) out' None).
Proof.
  intros [Hts He Hn Hcl Hsv Hfrom] Hsv' Htr. cbn [shared threads ended] in *. split; cbn [shared threads ended]; try done.
  - by rewrite Hts.
  - intros i c o Hi. destruct (Htr (S i)) as (lost & Hp & Hl). destruct strict.
    + rewrite (Hl eq_refl) in Hp. eapply client_ok_perm; [exact Hp|by apply Hcl].
    + eapply client_ok_less; [exact Hp|by apply Hcl].
  - intros i x Hx. destruct (Htr i) as (lost & Hp & _). apply (Hfrom i x). rewrite Hp. apply elem_of_app. by right.
Qed.

Lemma ucase_server_step strict sv cls g ts out a s' : inv_at strict sv cls (Sys g ts out None) -> allowed strict a ->
  Threads.perform 0 (server_exec qlen name a sv g) (Sys g ts out None) = Some s' -> inv strict s'.
Proof.
  intros HI Ha Hp.
  assert (forall sv' g' out', s' = Sys g' (<[0%nat := Server sv']> ts) out' None -> (strict = true -> match sv' with SvEnd _ => False | _ => True end) ->
    (forall i, exists lost, transit i sv g ≡ₚ lost ++ transit i sv' g' /\ (strict = true -> lost = [])) -> inv strict s') as Hgo.
  { intros sv' g' out' -> H1 H2. exists sv', cls. by eapply ucase_server_goes. }
  assert (strict = true -> forall e, a <> Fails e) as Hnf by (intros Hs e ->; by specialize (Ha Hs)).
  destruct sv as [|from buf|from buf|f]; cbn [server_exec] in Hp; [..|done].
  - destruct a as [| |e]; [..|injection Hp as <-; eapply Hgo; [reflexivity|intros Hs; by destruct (Hnf Hs e)|intros i; by exists []]].
    all: destruct g as [[|[from m] rest] rs]; cbn [inbox] in Hp; [done|]; injection Hp as <-; (eapply Hgo; [reflexivity|done|]).
    all: intros i; exists []; split; [|done]; unfold transit; cbn [inbox held]; rewrite queued_cons; cbn [app].
    all: rewrite (Permutation_app_comm (if decide (from = i) then _ else _)), <- !app_assoc; done.
  - injection Hp as <-. eapply Hgo; [reflexivity|done|]. intros i. by exists [].
  - destruct a as [| |e]; [..|injection Hp as <-; eapply Hgo; [reflexivity|intros Hs; by destruct (Hnf Hs e)|]].
    + destruct (qlen <=? length (replies_to from g))%nat; [done|]. injection Hp as <-. eapply Hgo; [reflexivity|done|].
      intros i. exists []. split; [|done]. unfold transit. rewrite replies_to_set. cbn [held set_replies inbox app].
      case_decide; subst; [|done]. by rewrite (Permutation_app_comm [buf]).
    + injection Hp as <-. eapply Hgo; [reflexivity|done|]. intros i. exists (held i (SvSend from buf)). split; [|intros Hs; by specialize (Ha Hs)].
      unfold transit. cbn [held app]. by rewrite (Permutation_app_swap_app (queued _ _)).
    + intros i. exists (held i (SvSend from buf)). split; [|intros Hs; by destruct (Hnf Hs e)]. unfold transit. cbn [held app].
      by rewrite (Permutation_app_swap_app (queued _ _)).
Qed.

(** *** Steps of a client *)

Lemma ucase_client_goes strict sv cls g g' ts out k c o c' o' :
  inv_at strict sv cls (Sys g ts out None) -> cls !! k = Some (c, o) ->
  (forall i, i <> S k -> transit i sv g' = transit i sv g) ->
  (client_ok strict k c o (transit (S k) sv g) -> client_ok strict k c' o' (transit (S k) sv g')) ->
  inv_at strict sv (<[k := (c', o')]> cls) (Sys g' (<[S k := Client c' o']> ts) out None).
Proof.
  intros [Hts He Hn Hcl Hsv Hfrom] Hk Hother Hok. pose proof (lookup_lt_Some _ _ _ Hk) as Hlt. cbn [shared threads ended] in *.
  split; cbn [shared threads ended]; try done.
  - rewrite Hts. cbn. by rewrite list_fmap_insert.
  - by rewrite length_insert.
  - intros i c1 o1. destruct (decide (i = k)) as [->|Hne].
    + rewrite list_lookup_insert_eq by done. intros [= <- <-]. by apply Hok, Hcl.
    + rewrite list_lookup_insert_ne by done. intros Hi. rewrite Hother by lia. by apply Hcl.
  - intros i x. destruct (decide (i = S k)) as [->|Hne]; [lia|]. rewrite Hother by done. apply Hfrom.
Qed.

Lemma ucase_client_step strict sv cls g ts out k c o a s' : inv_at strict sv cls (Sys g ts out None) -> allowed strict a -> cls !! k = Some (c, o) ->
  Threads.perform (S k) (client_exec msgs qlen (S k) a c o g) (Sys g ts out None) = Some s' -> inv strict s'.
Proof.
  intros HI Ha Hk Hp.
  assert (forall c' o' g', s' = Sys g' (<[S k := Client c' o']> ts) out None -> (forall i, i <> S k -> transit i sv g' = transit i sv g) ->
    (client_ok strict k c o (transit (S k) sv g) -> client_ok strict k c' o' (transit (S k) sv g')) -> inv strict s') as Hgo.
  { intros c' o' g' -> H1 H2. exists sv, (<[k := (c', o')]> cls). by eapply ucase_client_goes. }
  assert (forall e, a = Fails e -> strict = false) as Hnf by (intros e ->; destruct strict; [by specialize (Ha eq_refl)|done]).
  destruct c as [j|j|j resp| |f]; cbn [client_exec pred] in Hp; [..|done].
  - change (default [] (msgs !! k)) with (messages k) in Hp. destruct (messages k !! j) as [m|] eqn:Em.
    + destruct a as [| |e].
      * destruct (qlen <=? length (inbox g))%nat; [done|]. injection Hp as <-. eapply Hgo; [reflexivity|..].
        -- intros i Hi. unfold transit. cbn [inbox replies_to replies]. rewrite queued_snoc, decide_False, app_nil_r by done. done.
        -- intros (-> & _ & Ht). split; [done|]. exists m. split; [done|]. left. unfold transit in *. cbn [inbox].
           rewrite queued_snoc, decide_True by done. apply app_nil in Ht as [-> Ht]. exact (f_equal (app [echo m]) Ht).
      * injection Hp as <-. eapply Hgo; [reflexivity|done|]. intros (-> & _ & Ht). split; [done|]. exists m. split; [done|]. right.
        split; [|done]. destruct strict; [by specialize (Ha eq_refl)|done].
      * injection Hp as <-. eapply Hgo; [reflexivity|done|]. intros (-> & _ & _). split; [by eapply Hnf|by exists j].
    + injection Hp as <-. eapply Hgo; [reflexivity|done|]. intros (-> & _ & Ht). apply lookup_ge_None in Em. by rewrite take_ge.
  - assert (forall r rest, replies_to (S k) g = r :: rest -> s' = Sys (set_replies (S k) rest g) (<[S k := Client (ClPrint j (take BUF_SIZE r)) o]> ts) out None ->
      inv strict s') as Hrecv.
    { intros r rest Hr ->. eapply Hgo; [reflexivity|..].
      - intros i Hi. unfold transit. rewrite replies_to_set, decide_False by done. done.
      - intros (-> & m & Hm & Ht). split; [done|]. exists m. split; [done|]. unfold transit in *. rewrite replies_to_set, decide_True by done. cbn [set_replies inbox].
        rewrite Hr, app_assoc in Ht. assert (queued (S k) (inbox g) ++ held (S k) sv = [] /\ r = echo m /\ rest = []) as (Hq & -> & ->).
        { destruct Ht as [Ht|[_ Ht]]; [|by apply app_nil in Ht as [_ ?]]. by destruct (queued (S k) (inbox g) ++ held (S k) sv) as [|x [|y l]]; [injection Ht|..]. }
        rewrite echo_fits. split; [done|]. by rewrite app_assoc, Hq. }
    destruct a as [| |e]; [..|injection Hp as <-; eapply Hgo; [reflexivity|done|intros (-> & _); split; [by eapply Hnf|by exists j]]].
    all: destruct (replies_to (S k) g) as [|r rest] eqn:Er; [done|]; injection Hp as <-; by eapply Hrecv.
  - injection Hp as <-. eapply Hgo; [reflexivity|done|]. intros (-> & m & Hm & -> & Ht). split; [by rewrite (ucase_lines_snoc _ _ m)|].
    split; [|done]. by eapply lookup_lt_Some.
  - injection Hp as <-. eapply Hgo; [reflexivity|done|]. done.
Qed.

Lemma ucase_inv_step strict s s' : inv strict s -> step ex (allowed strict) s s' -> inv strict s'.
Proof.
  intros (sv & cls & HI) (He & i & a & t & Ha & Ht & Hp)%Threads.step_inv. destruct s as [g ts out e]. cbn [shared threads printed ended] in *. subst e.
  pose proof (inv_threads _ _ _ _ HI) as Hts. cbn [threads] in Hts. subst ts. destruct i as [|k]; cbn in Ht.
  - injection Ht as <-. by eapply ucase_server_step.
  - apply list_lookup_fmap_Some in Ht as ([c o] & -> & Hk). by eapply ucase_client_step.
Qed.

Lemma ucase_inv_start strict : inv strict (start_state msgs).
Proof.
  exists SvRecv, ((fun _ => (ClSend 0, [])) <$> msgs). split; cbn [start_state shared threads ended]; try done.
  - by rewrite <- list_fmap_compose.
  - by rewrite length_fmap.
  - intros i c out Hi. apply list_lookup_fmap_Some in Hi as (ms & [= -> ->] & _). cbn. split_and!; [done|lia|].
    unfold transit, replies_to. cbn. by rewrite lookup_empty.
  - intros i x. unfold transit, replies_to. cbn. by rewrite lookup_empty; intros ?%elem_of_nil.
Qed.

Lemma ucase_inv_reach strict s : rtc (step ex (allowed strict)) (start_state msgs) s -> inv strict s.
Proof. intros H. eapply rtc_ind_r with (P := inv strict); [apply ucase_inv_start| |exact H]. intros. by eapply ucase_inv_step. Qed.

(** ** Progress *)

Definition has_ended (t : proc) : bool := match t with Client (ClEnd _) _ => true | Client _ _ => false | Server _ => true end.

(** What is under way to a client is one message. *)
Lemma nonempty_waiting k c out t : client_ok true k c out t -> t <> [] -> exists y, t = [y].
Proof.
  intros Hcl Hne. destruct c as [j|j|j r| |f]; cbn in Hcl.
  - by destruct Hcl as (_ & _ & ?).
  - destruct Hcl as (_ & m & _ & [->|[? _]]); [by eexists|done].
  - by destruct Hcl as (_ & m & _ & _ & ?).
  - by destruct Hcl as [_ ?].
  - by destruct f; [destruct Hcl as (_ & _ & ?)|destruct Hcl..].
Qed.

(** While nothing fails or is lost, the server or a client can go on until all clients have ended. *)
Lemma ucase_progress s : (0 < qlen)%nat -> inv true s -> forallb has_ended (threads s) = false -> exists i s', run_one ex i Done s = Some s'.
Proof.
  intros Hq (sv & cls & HI) Hlive. pose proof HI as [Hts He Hn Hcl Hsv Hfrom].
  assert (server_exec qlen name Done sv (shared s) <> Wait -> exists i s', run_one ex i Done s = Some s') as Hserver.
  { intros Hne. exists 0%nat. eapply Threads.run_one_enabled; [done|by rewrite Hts|done]. }
  assert (forall k c out, cls !! k = Some (c, out) -> client_exec msgs qlen (S k) Done c out (shared s) <> Wait -> exists i s', run_one ex i Done s = Some s') as Hclient.
  { intros k c out Hk Hne. exists (S k). apply (Threads.run_one_enabled ex _ _ (Client c out)); [done| |exact Hne]. rewrite Hts. change ((client_proc <$> cls) !! k = Some (Client c out)). by rewrite list_lookup_fmap, Hk. }
  destruct sv as [|from buf|from buf|f]; [|by apply Hserver| |by specialize (Hsv eq_refl)].
  - destruct (inbox (shared s)) as [|[from m] rest] eqn:Ei; [|apply Hserver; cbn; by rewrite Ei].
    assert (exists t, t ∈ threads s /\ has_ended t = false) as (t & Hin & Ht).
    { clear -Hlive. induction (threads s) as [|t l IH]; [done|]. cbn in Hlive. destruct (has_ended t) eqn:E; [|exists t; split; [by left|done]].
      destruct (IH Hlive) as (t' & ? & ?). exists t'. split; [by right|done]. }
    rewrite Hts in Hin. apply elem_of_cons in Hin as [->|Hin]; [done|]. apply list_elem_of_fmap in Hin as ([c out] & -> & [k Hk]%list_elem_of_lookup).
    apply (Hclient k c out Hk). specialize (Hcl _ _ _ Hk). destruct c as [j|j|j r| |f]; cbn in *; try done.
    + destruct (default [] (msgs !! k) !! j); [|done]. rewrite Ei. cbn [length]. by destruct (Nat.leb_spec qlen 0); [lia|].
    + destruct Hcl as (_ & m & _ & [Ht'|[? _]]); [|done]. unfold transit in Ht'. rewrite Ei in Ht'. cbn in Ht'. by rewrite Ht'.
  - assert (transit from (SvSend from buf) (shared s) = [buf] /\ replies_to from (shared s) = []) as [Ht Hr].
    { assert (buf ∈ transit from (SvSend from buf) (shared s)) as Hin by (unfold transit; cbn; rewrite decide_True by done; set_solver).
      destruct (Hfrom _ _ Hin) as [Hi Hle]. destruct from as [|k]; [lia|]. destruct (lookup_lt_is_Some_2 cls k) as [[c out] Hk]; [lia|].
      specialize (Hcl _ _ _ Hk). assert (exists y, transit (S k) (SvSend (S k) buf) (shared s) = [y]) as [y Hy].
      { by apply (nonempty_waiting _ _ _ _ Hcl), (elem_of_not_nil buf _ Hin). }
      rewrite Hy in Hin |- *. apply list_elem_of_singleton in Hin as <-. split; [done|]. unfold transit in Hy. cbn in Hy. rewrite decide_True in Hy by done.
      destruct (queued (S k) (inbox (shared s))) as [|z l]; [by injection Hy|]. by destruct l. }
    apply Hserver. cbn [server_exec]. rewrite Hr. cbn [length]. by destruct (Nat.leb_spec qlen 0); [lia|].
Qed.

(** *** The number of steps *)

Definition cost (i : nat) (c : cl_pc) : nat :=
  let left j := (6 * (length (messages i) - j))%nat in
  match c with ClSend j => left j + 3 | ClRecv j => left (S j) + 5 | ClPrint j _ => left (S j) + 4 | ClRemove => 2 | ClEnd _ => 0 end%nat.
Definition cost_at (ts : list proc) (i : nat) : nat := match ts !! S i with Some (Client c _) => cost i c | _ => 0 end.
Definition sv_cost (ts : list proc) : nat := match ts !! 0%nat with Some (Server SvRecv) => 1 | Some (Server (SvLog _ _)) => 3 | Some (Server (SvSend _ _)) => 2 | _ => 0 end.
Definition mu (s : sys queues proc) : nat :=
  (sum_list_with (cost_at (threads s)) (seq 0 (length msgs)) + sv_cost (threads s) + 3 * length (inbox (shared s)))%nat.

Lemma sum_list_ext {A} (f f' : A -> nat) l : (forall x, x ∈ l -> f' x = f x) -> sum_list_with f' l = sum_list_with f l.
Proof. induction l as [|x l IH]; intros H; [done|]. cbn. rewrite H by by left. rewrite IH; [done|]. intros y Hy. apply H. by right. Qed.

Lemma sum_seq_change (f f' : nat -> nat) k a n : (forall i, i <> k -> f' i = f i) -> (a <= k < a + n)%nat ->
  (sum_list_with f' (seq a n) + f k = sum_list_with f (seq a n) + f' k)%nat.
Proof.
  intros Hf. revert a. induction n as [|n IH]; intros a Hk; [lia|]. cbn. destruct (decide (a = k)) as [->|Hne].
  - rewrite (sum_list_ext f f' (seq (S k) n)); [lia|]. intros i [Hi _]%elem_of_seq. apply Hf. lia.
  - specialize (IH (S a) ltac:(lia)). rewrite (Hf a Hne). lia.
Qed.

Lemma sum_seq_lookup {A} (f : A -> nat) l a :
  sum_list_with (fun i => match l !! (i - a)%nat with Some x => f x | None => 0%nat end) (seq a (length l)) = sum_list_with f l.
Proof.
  revert a. induction l as [|x l IH]; intros a; [done|]. cbn [length seq sum_list_with]. rewrite Nat.sub_diag. cbn [lookup list_lookup].
  f_equal. rewrite <- (IH (S a)). apply sum_list_ext. intros i [Hi _]%elem_of_seq. by replace (i - a)%nat with (S (i - S a)) by lia.
Qed.

Lemma ucase_mu_client ts g out k c c' o o' g' : ts !! S k = Some (Client c o) -> (k < length msgs)%nat ->
  (cost k c' + 3 * length (inbox g') < cost k c + 3 * length (inbox g))%nat ->
  (mu (Sys g' (<[S k := Client c' o']> ts) out None) < mu (Sys g ts out None))%nat.
Proof.
  intros Hk Hlt Hcost. unfold mu. cbn [threads shared]. pose proof (lookup_lt_Some _ _ _ Hk) as Hlen.
  pose proof (sum_seq_change (cost_at ts) (cost_at (<[S k := Client c' o']> ts)) k 0 (length msgs)) as Hsum.
  assert (sv_cost (<[S k := Client c' o']> ts) = sv_cost ts) as ->.
  { unfold sv_cost. by rewrite list_lookup_insert_ne. }
  assert (cost_at ts k = cost k c /\ cost_at (<[S k := Client c' o']> ts) k = cost k c') as [H1 H2].
  { unfold cost_at. by rewrite Hk, list_lookup_insert_eq. }
  rewrite H1, H2 in Hsum. rewrite Nat.add_0_l in Hsum. specialize (Hsum ltac:(intros i Hi; unfold cost_at; by rewrite list_lookup_insert_ne by lia) ltac:(lia)). lia.
Qed.

Lemma ucase_mu_step strict s s' : inv strict s -> step ex (allowed strict) s s' -> (mu s' < mu s)%nat.
Proof.
  intros (sv & cls & HI) (He & i & a & t & Ha & Ht & Hp)%Threads.step_inv. destruct s as [g ts out e]. cbn [shared threads printed ended] in *. subst e.
  pose proof (inv_threads _ _ _ _ HI) as Hts. pose proof (inv_count _ _ _ _ HI) as Hn. cbn [threads] in Hts.
  destruct i as [|k].
  - rewrite Hts in Ht. injection Ht as <-.
    assert (forall sv' g' out', s' = Sys g' (<[0%nat := Server sv']> ts) out' None -> 
      (sv_cost [Server sv'] + 3 * length (inbox g') < sv_cost [Server sv] + 3 * length (inbox g))%nat -> (mu s' < mu (Sys g ts out None))%nat) as Hgo.
    { intros sv' g' out' -> Hlt. unfold mu. cbn [threads shared]. rewrite Hts. cbn [insert list_insert alter list_alter].
      change (cost_at (Server sv' :: (client_proc <$> cls))) with (cost_at (Server sv :: (client_proc <$> cls))).
      change (sv_cost (Server sv' :: (client_proc <$> cls))) with (sv_cost [Server sv']). change (sv_cost (Server sv :: (client_proc <$> cls))) with (sv_cost [Server sv]). lia. }
    destruct sv as [|from buf|from buf|f]; cbn [ex exec server_exec] in Hp; [..|done].
    + destruct a as [| |e]; [..|injection Hp as <-; eapply Hgo; [reflexivity|cbn; lia]].
      all: destruct g as [[|[from m] rest] rs]; cbn [inbox] in Hp; [done|]; injection Hp as <-; eapply Hgo; [reflexivity|cbn; lia].
    + injection Hp as <-. eapply Hgo; [reflexivity|cbn; lia].
    + destruct a as [| |e]; [destruct (qlen <=? length (replies_to from g))%nat; [done|]|..]; injection Hp as <-;
        (eapply Hgo; [reflexivity|cbn; lia]).
  - rewrite Hts in Ht. change ((client_proc <$> cls) !! k = Some t) in Ht. apply list_lookup_fmap_Some in Ht as ([c o] & -> & Hk).
    assert (ts !! S k = Some (Client c o)) as Hlk by (rewrite Hts; change ((client_proc <$> cls) !! k = Some (Client c o)); by rewrite list_lookup_fmap, Hk).
    pose proof (lookup_lt_Some _ _ _ Hk) as Hlt. rewrite Hn in Hlt.
    assert (forall c' o' g', s' = Sys g' (<[S k := Client c' o']> ts) out None ->
      (cost k c' + 3 * length (inbox g') < cost k c + 3 * length (inbox g))%nat -> (mu s' < mu (Sys g ts out None))%nat) as Hgo.
    { intros c' o' g' -> Hc. by eapply ucase_mu_client. }
    destruct c as [j|j|j r| |f]; cbn [ex exec client_exec client_proc fst snd pred] in Hp; [..|done].
    + change (default [] (msgs !! k)) with (messages k) in Hp. destruct (messages k !! j) as [m|] eqn:Em.
      * apply lookup_lt_Some in Em. destruct a as [| |e]; [destruct (qlen <=? length (inbox g))%nat; [done|]|..]; injection Hp as <-;
          (eapply Hgo; [reflexivity|cbn [cost inbox]; rewrite ?length_app; cbn [length]; lia]).
      * injection Hp as <-. eapply Hgo; [reflexivity|cbn [cost]; lia].
    + destruct a as [| |e]; [destruct (replies_to (S k) g) as [|r rest]; [done|]..|]; injection Hp as <-;
        (eapply Hgo; [reflexivity|cbn [cost set_replies inbox]; lia]).
    + injection Hp as <-. eapply Hgo; [reflexivity|cbn [cost]; lia].
    + injection Hp as <-. eapply Hgo; [reflexivity|cbn [cost]; lia].
Qed.

Lemma ucase_mu_start : mu (start_state msgs) = (sum_list_with (fun ms => 6 * length ms + 3) msgs + 1)%nat.
Proof.
  unfold mu, start_state. cbn [threads shared inbox length]. rewrite <- (sum_seq_lookup _ msgs 0), Nat.mul_0_r, Nat.add_0_r. f_equal.
  apply sum_list_ext. intros i _. rewrite Nat.sub_0_r. unfold cost_at. change ((?x :: ?l) !! S i) with (l !! i). rewrite list_lookup_fmap.
  destruct (msgs !! i) as [ms|] eqn:E; [|done]. cbn [fmap option_fmap option_map cost]. unfold messages. rewrite E. cbn [from_option default id]. lia.
Qed.

Lemma lines_prefix ms j : lines (take j ms) `prefix_of` lines ms.
Proof. unfold lines. rewrite <- (take_drop j ms) at 2. rewrite imap_app. by apply prefix_app_r. Qed.

Lemma client_ok_prefix strict i c out t : client_ok strict i c out t -> out `prefix_of` lines (messages i).
Proof.
  destruct c as [j|j|j r| |f]; cbn; [intros (-> & _); apply lines_prefix..|by intros (-> & _)|].
  destruct f; [by intros (_ & -> & _)|intros (_ & j & ->); apply lines_prefix..].
Qed.

(** the upper-case service over datagrams, with any number of clients and whatever the interleaving.
    A client prints the responses to a start of its messages, in their order, each the first ten bytes of the message in upper
    case, and a client that ends with success has printed all of them, also when calls fail or messages are lost.
    The number of steps is bounded.  While nothing fails or is lost, no client waits for ever, and each ends with success. *)
Theorem ucase_answers : (0 < qlen)%nat ->
  (forall s, rtc (step ex (allowed false)) (start_state msgs) s -> forall i c out, threads s !! S i = Some (Client c out) ->
     out `prefix_of` lines (messages i) /\ (c = ClEnd (Exited EXIT_SUCCESS) -> out = lines (messages i))) /\
  (forall n s, nsteps (step ex (allowed false)) n (start_state msgs) s -> (n <= sum_list_with (fun ms => 6 * length ms + 3) msgs + 1)%nat) /\
  (forall s, rtc (step ex (allowed true)) (start_state msgs) s ->
     (forallb has_ended (threads s) = false -> exists i s', run_one ex i Done s = Some s') /\
     forall i f out, threads s !! S i = Some (Client (ClEnd f) out) -> f = Exited EXIT_SUCCESS).
Proof.
  intros Hq.
  assert (forall strict s i c out, inv strict s -> threads s !! S i = Some (Client c out) -> exists t, client_ok strict i c out t) as Hok.
  { intros strict s i c out (sv & cls & [Hts _ _ Hcl _ _]) Hi. rewrite Hts in Hi. change ((client_proc <$> cls) !! i = Some (Client c out)) in Hi.
    apply list_lookup_fmap_Some in Hi as ([c' o'] & [= -> ->] & Hk). eauto. }
  split_and!.
  - intros s Hs i c out Hi. destruct (Hok false s i c out) as [t Ht]; [by apply ucase_inv_reach|done|]. split.
    + by apply client_ok_prefix in Ht.
    + intros ->. by destruct Ht as (_ & ? & _).
  - intros n s Hn. rewrite <- ucase_mu_start. refine (nsteps_bounded_inv _ (inv false) mu _ _ s _ _ _ Hn); [apply ucase_inv_step|apply ucase_mu_step|apply ucase_inv_start].
  - intros s Hs%ucase_inv_reach. split; [by apply ucase_progress|]. intros i f out Hi. destruct (Hok true s i _ out Hs Hi) as [t Ht].
    destruct f; cbn in Ht; destruct_and?; try done. by subst.
Qed.
End Correct.

Lemma ucase_answers_witness :
  let msgs := [[str "long message"]; [str "b"]] in let ex := exec msgs 5 (fun _ => []) in
  let sched := [(1, Done); (2, Done); (0, Done); (0, Done); (0, Done); (0, Done); (0, Done); (0, Done); (2, Done); (2, Done); (2, Done); (2, Done)]%nat in
  exists s, run ex sched (start_state msgs) = Some s /\ threads s !! 2%nat = Some (Client (ClEnd (Exited EXIT_SUCCESS)) [str "Response 1: B" ++ [NL]]) /\
    lines (messages msgs 1) = [str "Response 1: B" ++ [NL]] /\ exists i s', run_one ex i Done s = Some s'.
Proof.
  intros msgs ex sched. destruct (run ex sched (start_state msgs)) as [s|] eqn:E; [|vm_compute in E; discriminate].
  exists s. split; [done|]. destruct (ucase_answers msgs 5 (fun _ => []) ltac:(lia)) as (H1 & _ & H3).
  assert (rtc (step ex (allowed true)) (start_state msgs) s) as Hs.
  { eapply Threads.run_rtc; [|exact E]. repeat constructor; by intros _. }
  assert (rtc (step ex (allowed false)) (start_state msgs) s) as Hs'.
  { eapply Threads.run_rtc; [|exact E]. repeat constructor; by intros _. }
  assert (threads s !! 2%nat = Some (Client (ClEnd (Exited EXIT_SUCCESS)) [str "Response 1: B" ++ [NL]])) as Hc by (vm_compute in E; injection E as <-; reflexivity).
  split; [exact Hc|]. split; [symmetry; exact (proj2 (H1 s Hs' 1%nat _ _ Hc) eq_refl)|].
  apply (proj1 (H3 s Hs)). vm_compute in E. injection E as <-. reflexivity.
Defined.
