(* ===== verification/Password.v ===== *)
(** * Checking a password

    check_password.c (tlpi-dist/users_groups) and check_password_caps.c (tlpi-dist/cap): a user name and a
    password are asked for, the password is encrypted and its clear text erased at once, and the result is
    compared with the record of the user.  The second program raises one capability to read the shadow
    passwords and gives up all of them before it asks for the password. *)

From Stdlib Require Import ZArith Lia String Ascii.
From S2P Require Import Prelude CString Kernel ErrorFns Seqnum.

Record passwd := Passwd { pw_passwd : bytes; pw_uid : Z }.

(** The C library: the terminal, the databases, and the buffer that [getpass] returns. *)
Class LoginCalls (K : Type) := {
  k_login_name_max : K -> Z * K;                        (* sysconf *)
  k_malloc : Z -> K -> (unit + Z) * K;
  k_fgets : Z -> K -> option bytes * K;                 (* what it stores, without the null byte; None: end of file *)
  k_getpwnam : bytes -> K -> option passwd * K;
  k_getspnam : bytes -> K -> (bytes + Z) * K;           (* sp_pwdp, or what [errno] is left at *)
  k_getpass : K -> option bytes * K;
  k_set_getpass_buffer : bytes -> K -> K;
  k_crypt : bytes -> bytes -> K -> (bytes + Z) * K
}.

(** Capabilities, by their numbers. *)
Record cap_t := Caps { effective : gset Z; permitted : gset Z; inheritable : gset Z }.
Definition no_caps : cap_t := Caps ∅ ∅ ∅.
Inductive cap_flag_value := CAP_CLEAR | CAP_SET.
Definition CAP_DAC_READ_SEARCH : Z := 2.

Class CapCalls (K : Type) := {
  k_cap_get_proc : K -> (cap_t + Z) * K;
  k_cap_set_flag : cap_t -> Z -> cap_flag_value -> K -> (cap_t + Z) * K;   (* in the effective set *)
  k_cap_set_proc : cap_t -> K -> (unit + Z) * K;
  k_cap_init : K -> (cap_t + Z) * K;
  k_cap_free : K -> (unit + Z) * K
}.

(** A call that may fail, as an option. *)
Definition attempt {K A} (f : K -> (A + Z) * K) : M (proc K) (option A) :=
  syscall None (fun k => let '(r, k') := f k in (match r with inl a => inl (Some a) | inr e => inr e end, k')).
Definition calling {K A} (f : K -> A * K) : M (proc K) A := fun p =>
  let '(a, k') := f (kern p) in (Ret a, Proc k' (errno p) (trace p)).

Section Programs.
Context `{!Messages} {K : Type} `{!LoginCalls K}.

(** The name that was typed: up to a null byte, and without the newline. *)
Definition name_of_line (username : bytes) : option bytes :=
  match last username with
  | None => None                                  (* username[len - 1] with len = 0 *)
  | Some c => Some (if Ascii.eqb c NL then take (length username - 1) username else username)
  end.

Definition ask_username : M (proc K) bytes :=
  lnmax ← calling k_login_name_max;
  let lnmax := if lnmax =? -1 then 256 else lnmax in
  m ← attempt (k_malloc lnmax);
  match m with
  | None => errExit (str "malloc")
  | Some _ =>
      printf (str "Username: ") ;;
      l ← calling (k_fgets lnmax);
      match l with
      | None => exit_ EXIT_FAILURE
      | Some username => the (name_of_line (c_str username))
      end
  end.

Definition get_record (username : bytes) : M (proc K) passwd :=
  pwd ← calling (k_getpwnam username);
  match pwd with Some pwd => mret pwd | None => fatal (str "couldn't get password record") end.

(** The password of the shadow record, if there is one. *)
Definition get_shadow (username : bytes) : M (proc K) (option bytes) :=
  spwd ← attempt (k_getspnam username);
  e ← get_errno;
  if bool_decide (spwd = None) && (e =? EACCES) then fatal (str "no permission to read shadow password file") else mret spwd.

(** [for (p = password; *p != '\0'; ) *p++ = '\0';] *)
Fixpoint erase (password : bytes) : bytes :=
  match password with
  | [] => []
  | c :: rest => if Ascii.eqb c NUL then c :: rest else NUL :: erase rest
  end.

Definition authenticate (pwd : passwd) (spwd : option bytes) : M (proc K) unit :=
  let stored := match spwd with Some sp_pwdp => sp_pwdp | None => pw_passwd pwd end in
  password ← calling k_getpass;
  password ← the password;                        (* a null pointer is passed on to [crypt] *)
  encrypted ← attempt (k_crypt (c_str password) stored);
  calling (fun k => (tt, k_set_getpass_buffer (erase password) k)) ;;
  match encrypted with
  | None => errExit (str "crypt")
  | Some encrypted =>
      let authOk := strcmp encrypted stored =? 0 in
      if negb authOk then printf (str "Incorrect password" ++ [NL]) ;; exit_ EXIT_FAILURE
      else
        printf (str "Successfully authenticated: UID=" ++ dec (pw_uid pwd) ++ [NL]) ;;
        exit_ EXIT_SUCCESS
  end.

(** ** check_password.c *)

Definition check_password_main : M (proc K) unit :=
  username ← ask_username;
  pwd ← get_record username;
  spwd ← get_shadow username;
  authenticate pwd spwd.

(** ** check_password_caps.c *)

Context `{!CapCalls K}.

Definition cap_free_ : M (proc K) Z := r ← attempt k_cap_free; mret (if r is Some _ then 0 else -1).

Definition modifyCap (capability : Z) (setting : cap_flag_value) : M (proc K) Z :=
  caps ← attempt k_cap_get_proc;
  match caps with
  | None => mret (-1)
  | Some caps =>
      caps' ← attempt (k_cap_set_flag caps capability setting);
      match caps' with
      | None => cap_free_ ;; mret (-1)
      | Some caps' =>
          s ← attempt (k_cap_set_proc caps');
          match s with
          | None => cap_free_ ;; mret (-1)
          | Some _ => f ← cap_free_; mret (if f =? -1 then -1 else 0)
          end
      end
  end.

Definition raiseCap (capability : Z) : M (proc K) Z := modifyCap capability CAP_SET.

Definition dropAllCaps : M (proc K) Z :=
  empty ← attempt k_cap_init;
  match empty with
  | None => mret (-1)
  | Some empty =>
      s ← attempt (k_cap_set_proc empty);
      f ← cap_free_;
      mret (if f =? -1 then -1 else if s is Some _ then 0 else -1)
  end.

Definition check_password_caps_main : M (proc K) unit :=
  username ← ask_username;
  pwd ← get_record username;
  r ← raiseCap CAP_DAC_READ_SEARCH;
  (if r =? -1 then fatal (str "raiseCap() failed") else mret tt) ;;
  spwd ← get_shadow username;
  d ← dropAllCaps;
  (if d =? -1 then fatal (str "dropAllCaps() failed") else mret tt) ;;
  authenticate pwd spwd.
End Programs.

(** ** What they rely on

    [typed_name] and [typed] are the line and the password that will be typed, [buffer] is the buffer of
    [getpass]; [account] and [shadow] are the
    databases, and [encrypt] is the function behind [crypt].  A call may fail. *)
Class LoginLaws (K : Type) `{!LoginCalls K, !CapCalls K} := {
  buffer : K -> bytes;
  typed_name : K -> bytes;
  typed : K -> option bytes;
  account : K -> bytes -> option passwd;
  shadow : K -> bytes -> option bytes;
  encrypt : bytes -> bytes -> bytes;
  caps : K -> cap_t;
  but_buffer (k k' : K) : Prop := typed_name k' = typed_name k /\ typed k' = typed k /\ account k' = account k /\ shadow k' = shadow k /\ caps k' = caps k;
  same (k k' : K) : Prop := but_buffer k k' /\ buffer k' = buffer k;
  name_max_same : forall k, same k (k_login_name_max k).2;
  malloc_same : forall n k, same k (k_malloc n k).2;
  fgets_ok : forall n k, same k (k_fgets n k).2 /\
    match (k_fgets n k).1 with Some l => l = take (Z.to_nat (n - 1)) (typed_name k) | None => True end;
  getpwnam_ok : forall name k, same k (k_getpwnam name k).2 /\
    match (k_getpwnam name k).1 with Some pwd => account k name = Some pwd | None => True end;
  getspnam_ok : forall name k, same k (k_getspnam name k).2 /\
    match (k_getspnam name k).1 with inl sp => shadow k name = Some sp | inr e => e = EACCES \/ shadow k name = None end;
  getpass_ok : forall k, but_buffer k (k_getpass k).2 /\
    match (k_getpass k).1 with Some pw => typed k = Some pw /\ buffer (k_getpass k).2 = pw | None => True end;
  crypt_ok : forall key salt k, same k (k_crypt key salt k).2 /\
    match (k_crypt key salt k).1 with inl e => e = encrypt key salt | inr _ => True end;
  set_buffer_ok : forall b k, but_buffer k (k_set_getpass_buffer b k) /\ buffer (k_set_getpass_buffer b k) = b;
  cap_get_ok : forall k, same k (k_cap_get_proc k).2;
  cap_flag_ok : forall c n v k, same k (k_cap_set_flag c n v k).2;
  cap_init_ok : forall k, same k (k_cap_init k).2 /\ match (k_cap_init k).1 with inl c => c = no_caps | inr _ => True end;
  cap_free_ok : forall k, same k (k_cap_free k).2;
  cap_set_ok : forall c k, let k' := (k_cap_set_proc c k).2 in typed_name k' = typed_name k /\ typed k' = typed k /\ account k' = account k /\ shadow k' = shadow k /\ buffer k' = buffer k /\
    caps k' = match (k_cap_set_proc c k).1 with inl _ => c | inr _ => caps k end
}.

Section Rules.
Context {K : Type} (I : K -> K -> Prop).

Lemma wp_calling {A} (f : K -> A * K) (p : proc K) (Q : outcome A -> proc K -> Prop) :
  Q (Ret (f (kern p)).1) (Proc (f (kern p)).2 (errno p) (trace p)) -> wp (calling f) p Q.
Proof. unfold wp, calling. by destruct (f (kern p)). Qed.

Lemma wp_attempt {A} (f : K -> (A + Z) * K) (p : proc K) (Q : outcome (option A) -> proc K -> Prop) :
  match (f (kern p)).1 with
  | inl a => Q (Ret (Some a)) (Proc (f (kern p)).2 (errno p) (trace p))
  | inr e => Q (Ret None) (Proc (f (kern p)).2 e (trace p))
  end -> wp (attempt f) p Q.
Proof. intros HQ. apply wp_syscall. by destruct (f (kern p)) as [[a|e] k']. Qed.
End Rules.

(** The buffer after the password was erased: null bytes up to the one that ends it. *)
Lemma erase_spec pw : erase pw = replicate (length (c_str pw)) NUL ++ drop (length (c_str pw)) pw.
Proof.
  unfold c_str. induction pw as [|c pw IH]; [done|]. cbn. destruct (Ascii.eqb c NUL); [done|]. cbn.
  destruct (span (fun c => negb (Ascii.eqb c NUL)) pw). cbn in *. by rewrite IH.
Qed.

Section Correct.
Context `{!Messages} {K : Type} `{!LoginCalls K, !CapCalls K, !LoginLaws K}.
Implicit Types (p q : proc K) (k : K).

Lemma same_trans k1 k2 k3 : same k1 k2 -> same k2 k3 -> same k1 k3.
Proof. unfold same, but_buffer. intuition congruence. Qed.
Lemma but_buffer_trans k1 k2 k3 : but_buffer k1 k2 -> but_buffer k2 k3 -> but_buffer k1 k3.
Proof. unfold but_buffer. intuition congruence. Qed.

(** How [authenticate] ends once there was a password [pw], in a process that had printed [t]. *)
Definition judged (o : outcome unit) (t t' : list event) (pwd : passwd) (stored pw : bytes) : Prop :=
  let ok := strcmp (encrypt (c_str pw) stored) stored =? 0 in
  ok = true /\ o = Exit EXIT_SUCCESS /\ t' = t ++ [Out (str "Successfully authenticated: UID=" ++ dec (pw_uid pwd) ++ [NL])] \/
  ok = false /\ o = Exit EXIT_FAILURE /\ t' = t ++ [Out (str "Incorrect password" ++ [NL])] \/
  stopped o /\ exists e, t' = t ++ [Err e].     (* [crypt] failed *)

Definition erased (pw : bytes) k : Prop := buffer k = replicate (length (c_str pw)) NUL ++ drop (length (c_str pw)) pw.

Lemma authenticate_wp pwd spwd p :
  wp (authenticate pwd spwd) p (fun o q => (o = Undef \/ exists pw, typed (kern p) = Some pw /\ erased pw (kern q) /\
    judged o (trace p) (trace q) pwd (match spwd with Some sp => sp | None => pw_passwd pwd end) pw) /\ caps (kern q) = caps (kern p)).
Proof.
  unfold authenticate. set (stored := match spwd with Some sp => sp | None => pw_passwd pwd end).
  apply wp_bind, wp_calling. destruct (getpass_ok (kern p)) as [Hs1 Ht1]. destruct (k_getpass (kern p)) as [[pw|] k1]; cbn [fst snd] in *.
  2: { apply wp_bind. split; [by left|apply Hs1]. }
  destruct Ht1 as [Ht1 Hb1]. apply wp_bind, wp_ret, wp_bind, wp_attempt. cbn [kern errno trace].
  destruct (crypt_ok (c_str pw) stored k1) as ([Hs2 Hb2] & Hc2). destruct (k_crypt (c_str pw) stored k1) as [r k2]; cbn [fst snd] in *.
  destruct (set_buffer_ok (erase pw) k2) as [Hs3 Hb3]. pose proof (but_buffer_trans _ _ _ (but_buffer_trans _ _ _ Hs1 Hs2) Hs3) as Hs.
  assert (erased pw (k_set_getpass_buffer (erase pw) k2)) as He by (unfold erased; by rewrite Hb3, erase_spec). destruct r as [enc|e]; apply wp_bind, wp_calling; cbn [kern errno trace fst snd].
  - subst enc. destruct (strcmp (encrypt (c_str pw) stored) stored =? 0) eqn:E; cbn [negb].
    + apply wp_bind, wp_printf. split; [right|apply Hs]. exists pw. split_and!; [done..|].
      left. by rewrite E.
    + apply wp_bind, wp_printf. split; [right|apply Hs]. exists pw. split_and!; [done..|]. right. left. by rewrite E.
  - apply wp_errExit. intros o m Ho. split; [right|apply Hs]. exists pw. split_and!; [done..|]. right. right. split; [done|]. by exists m.
Qed.

(** The parts before the password do not end with status 0, and keep what will be typed and the databases. *)
Definition before {A} p (Q : A -> proc K -> Prop) (o : outcome A) q : Prop :=
  buffer (kern q) = buffer (kern p) /\ match o with Ret a => Q a q | Exit z => z <> EXIT_SUCCESS | NoFuel => False | _ => True end.

Lemma before_stopped {A} p (Q : A -> proc K -> Prop) o q : stopped o -> buffer (kern q) = buffer (kern p) -> before p Q o q.
Proof. by intros [->| ->]. Qed.

Lemma before_ret {A} p (Q : A -> proc K -> Prop) a q : same (kern p) (kern q) -> Q a q -> before p Q (Ret a) q.
Proof. by intros [_ ?]. Qed.

Definition name_typed k (name : bytes) : Prop := exists n, name_of_line (c_str (take n (typed_name k))) = Some name.

(** An ending in a process whose buffer is still that of [p]. *)
Ltac same_buffer := cbn [kern fst snd] in *; unfold same in *; intuition congruence.

Lemma ask_username_wp p : wp ask_username p (before p (fun name q => same (kern p) (kern q) /\ name_typed (kern p) name)).
Proof.
  unfold ask_username. apply wp_bind, wp_calling. pose proof (name_max_same (kern p)) as H1.
  destruct (k_login_name_max (kern p)) as [lnmax k1]. cbn [fst snd kern] in *. set (n := if lnmax =? -1 then 256 else lnmax).
  apply wp_bind, wp_attempt. cbn [kern errno trace]. pose proof (malloc_same n k1) as H2.
  destruct (k_malloc n k1) as [[u|e] k2]; cbn [fst snd] in *; [|apply wp_errExit; intros; apply before_stopped; [done|same_buffer]].
  apply wp_bind, wp_printf, wp_bind, wp_calling. cbn [kern errno trace]. pose proof (fgets_ok n k2) as [H3 Hl].
  pose proof (same_trans _ _ _ H1 H2) as H12. pose proof (same_trans _ _ _ H12 H3) as H13.
  destruct (k_fgets n k2) as [[l|] k3]; cbn [fst snd] in *; [|split; [same_buffer|done]]. subst l.
  destruct (name_of_line (c_str (take (Z.to_nat (n - 1)) (typed_name k2)))) as [name|] eqn:E; [|split; [same_buffer|done]]. cbn.
  apply before_ret; [done|]. split; [done|]. exists (Z.to_nat (n - 1)). by destruct H12 as [(<- & _) _].
Qed.

Lemma get_record_wp name p : wp (get_record name) p (before p (fun pwd q => same (kern p) (kern q) /\ account (kern p) name = Some pwd)).
Proof.
  unfold get_record. apply wp_bind, wp_calling. pose proof (getpwnam_ok name (kern p)) as [H1 Ha].
  destruct (k_getpwnam name (kern p)) as [[pwd|] k1]; cbn [fst snd] in *; [by apply before_ret|].
  apply wp_fatal. intros. apply before_stopped; [done|same_buffer].
Qed.

Lemma get_shadow_wp name p : wp (get_shadow name) p (before p (fun spwd q => same (kern p) (kern q) /\ spwd = shadow (kern p) name)).
Proof.
  unfold get_shadow. apply wp_bind, wp_attempt. pose proof (getspnam_ok name (kern p)) as [H1 Ha].
  destruct (k_getspnam name (kern p)) as [[sp|e] k1]; cbn [fst snd] in *; apply wp_bind, wp_get_errno; cbn [kern errno trace].
  - rewrite bool_decide_eq_false_2 by done. by apply before_ret.
  - rewrite bool_decide_eq_true_2 by done. destruct (Z.eqb_spec e EACCES) as [->|Hne]; cbn [andb].
    + apply wp_fatal. intros. apply before_stopped; [done|same_buffer].
    + apply before_ret; [done|]. split; [done|]. by destruct Ha.
Qed.

(** Calls that change the capabilities keep the rest. *)
Definition but_caps k k' : Prop :=
  typed_name k' = typed_name k /\ typed k' = typed k /\ account k' = account k /\ shadow k' = shadow k /\ buffer k' = buffer k.

Lemma same_but k k' : same k k' -> but_caps k k'.
Proof. unfold same, but_buffer, but_caps. intuition. Qed.
Lemma but_trans k1 k2 k3 : but_caps k1 k2 -> but_caps k2 k3 -> but_caps k1 k3.
Proof. unfold but_caps. intuition congruence. Qed.

Lemma cap_free_wp p : wp cap_free_ p (fun o q => exists r, o = Ret r /\ same (kern p) (kern q)).
Proof.
  unfold cap_free_. apply wp_bind, wp_attempt. pose proof (cap_free_ok (kern p)) as Hf.
  destruct (k_cap_free (kern p)) as [[u|e] k1]; cbn [fst snd] in *; by eexists.
Qed.

Lemma modifyCap_wp c v p : wp (modifyCap c v) p (fun o q => exists r, o = Ret r /\ but_caps (kern p) (kern q)).
Proof.
  assert (forall p1 r, but_caps (kern p) (kern p1) -> wp (cap_free_ ;; mret r) p1 (fun (o : outcome Z) q => exists r, o = Ret r /\ but_caps (kern p) (kern q))) as Hfree.
  { intros p1 r Hb. apply wp_bind. eapply wp_mono; [apply cap_free_wp|]. intros o q (r' & -> & Hs). exists r. split; [done|].
    eapply but_trans; [exact Hb|by apply same_but]. }
  unfold modifyCap. apply wp_bind, wp_attempt. pose proof (same_but _ _ (cap_get_ok (kern p))) as H1.
  destruct (k_cap_get_proc (kern p)) as [[cp|e] k1]; cbn [fst snd] in *; [|by eexists].
  apply wp_bind, wp_attempt. cbn [kern errno trace]. pose proof (same_but _ _ (cap_flag_ok cp c v k1)) as H2.
  destruct (k_cap_set_flag cp c v k1) as [[cp'|e] k2]; cbn [fst snd] in *; [|apply Hfree; by eapply but_trans].
  apply wp_bind, wp_attempt. cbn [kern errno trace]. destruct (cap_set_ok cp' k2) as (N3 & T3 & A3 & S3 & B3 & _).
  assert (but_caps k2 (k_cap_set_proc cp' k2).2) as H3 by done. clear N3 T3 A3 S3 B3.
  destruct (k_cap_set_proc cp' k2) as [[u|e] k3]; cbn [fst snd] in *; [|apply Hfree; by eapply but_trans, but_trans].
  apply wp_bind. eapply wp_mono; [apply cap_free_wp|]. intros o q (r' & -> & Hs). eexists. split; [done|].
  eapply but_trans; [|by apply same_but]. by eapply but_trans, but_trans.
Qed.

Lemma dropAllCaps_wp p : wp dropAllCaps p (fun o q => exists r, o = Ret r /\ but_caps (kern p) (kern q) /\ (r <> -1 -> caps (kern q) = no_caps)).
Proof.
  unfold dropAllCaps. apply wp_bind, wp_attempt. destruct (cap_init_ok (kern p)) as [H1%same_but Hc].
  destruct (k_cap_init (kern p)) as [[cp|e] k1]; cbn [fst snd] in *; [|by eexists]. subst cp.
  apply wp_bind, wp_attempt. cbn [kern errno trace]. destruct (cap_set_ok no_caps k1) as (N2 & T2 & A2 & S2 & B2 & C2).
  assert (but_caps k1 (k_cap_set_proc no_caps k1).2) as H2 by done. clear N2 T2 A2 S2 B2.
  destruct (k_cap_set_proc no_caps k1) as [[u|e] k2]; cbn [fst snd] in *; apply wp_bind; (eapply wp_mono; [apply cap_free_wp|]);
    intros o q (r & -> & Hs); eexists; (split; [done|]); (split; [eapply but_trans; [|by apply same_but]; by eapply but_trans|]).
  - intros _. destruct Hs as [(_ & _ & _ & _ & Hq) _]. change (caps (kern q) = no_caps). by rewrite Hq.
  - by destruct (r =? -1).
Qed.

(** How both programs end: with another status than 0, and the buffer as it was, before they ask for the password; in undefined
    behaviour when [getpass] fails; otherwise the account is the one whose name was typed, they judge by its shadow record, or
    its record where there is none, and the clear text is gone. *)
Definition checked p (held : cap_t) (o : outcome unit) q : Prop :=
  before p (fun _ _ => False) o q \/ o = Undef \/
  exists t name pwd pw, name_typed (kern p) name /\ account (kern p) name = Some pwd /\ typed (kern p) = Some pw /\
    erased pw (kern q) /\ caps (kern q) = held /\ judged o t (trace q) pwd (default (pw_passwd pwd) (shadow (kern p) name)) pw.

Lemma checked_bind {A} (m : M (proc K) A) (f : A -> M (proc K) unit) p p0 held Q : buffer (kern p) = buffer (kern p0) ->
  wp m p (before p Q) -> (forall a q, buffer (kern q) = buffer (kern p0) -> Q a q -> wp (f a) q (checked p0 held)) -> wp (m ≫= f) p (checked p0 held).
Proof.
  intros Hb Hm Hf. apply wp_bind. eapply wp_mono; [exact Hm|]. intros o q [Hb' Ho]. rewrite Hb in Hb'.
  destruct o as [a|z| | |]; cbn in *; [by apply Hf|by left; split..|done].
Qed.

Lemma authenticate_checked name pwd p p0 : but_caps (kern p0) (kern p) -> name_typed (kern p0) name -> account (kern p0) name = Some pwd ->
  wp (authenticate pwd (shadow (kern p0) name)) p (checked p0 (caps (kern p))).
Proof.
  intros (N & T & A & S & B) Hn Ha. eapply wp_mono; [apply authenticate_wp|]. intros o q [Hj Hc]. right.
  destruct Hj as [->|(pw & Ht & He & Hj)]; [by left|right]. exists (trace p), name, pwd, pw. split_and!; try done. congruence.
Qed.

(** check_password reports success, with the user's ID, only for the account whose name was typed and only if encrypting
    the password that was typed gives the stored one: the one in the shadow record if there is one.  Before it says anything it
    has overwritten the clear text; where it ends without having asked for the password the status is not 0.  *)
Theorem check_password_authenticates p : wp check_password_main p (checked p (caps (kern p))).
Proof.
  unfold check_password_main. eapply checked_bind; [done|apply ask_username_wp|]. intros name q1 B1 [S1 Hn].
  eapply checked_bind; [done|apply get_record_wp|]. intros pwd q2 B2 [S2 Ha].
  eapply checked_bind; [done|apply get_shadow_wp|]. intros spwd q3 B3 [S3 ->].
  pose proof (same_trans _ _ _ S1 S2) as S12. pose proof (same_trans _ _ _ S12 S3) as S13.
  destruct S13 as [(N & T & A & S & C) B]. destruct S12 as [(_ & _ & _ & -> & _) _]. destruct S1 as [(_ & _ & A1 & _ & _) _].
  rewrite <- C. apply authenticate_checked; [done|done|]. by rewrite <- A1.
Qed.

(** C34: so does check_password_caps, which besides holds no capability in any of its sets from before it asks for the password. *)
Theorem check_password_caps_authenticates p : wp check_password_caps_main p (checked p no_caps).
Proof.
  unfold check_password_caps_main. eapply checked_bind; [done|apply ask_username_wp|]. intros name q1 B1 [S1 Hn].
  eapply checked_bind; [done|apply get_record_wp|]. intros pwd q2 B2 [S2 Ha].
  apply wp_bind. eapply wp_mono; [apply modifyCap_wp|]. intros o q3 (r & -> & S3). cbn [recast].
  pose proof (but_trans _ _ _ (same_but _ _ (same_trans _ _ _ S1 S2)) S3) as S13.
  assert (forall msg q, but_caps (kern p) (kern q) -> wp (@fatal _ K unit msg) q (before q (fun _ _ => False))) as Hfatal.
  { intros msg q Hb. apply wp_fatal. intros. by apply before_stopped. }
  assert (forall msg (b : bool) q (k : unit -> M (proc K) unit), but_caps (kern p) (kern q) -> (b = false -> wp (k tt) q (checked p no_caps)) ->
    wp ((if b then fatal msg else mret tt) ≫= k) q (checked p no_caps)) as Hif.
  { intros msg b q k Hb Hk. destruct b; [|apply wp_bind, wp_ret; by apply Hk].
    eapply checked_bind; [by destruct Hb as (_ & _ & _ & _ & ?)|by apply (Hfatal msg)|done]. }
  apply Hif; [done|]. intros _. eapply checked_bind; [by destruct S13 as (_ & _ & _ & _ & ?)|apply get_shadow_wp|]. intros spwd q4 B4 [S4 ->].
  pose proof (but_trans _ _ _ S13 (same_but _ _ S4)) as S14.
  apply wp_bind. eapply wp_mono; [apply dropAllCaps_wp|]. intros o q5 (d & -> & S5 & Hcaps). cbn [recast].
  pose proof (but_trans _ _ _ S14 S5) as S15. apply Hif; [done|]. intros Hd%Z.eqb_neq. rewrite <- (Hcaps Hd).
  destruct S13 as (_ & _ & _ & -> & _). apply authenticate_checked; [done|done|]. by destruct S1 as [(_ & _ & <- & _) _].
Qed.
End Correct.

(** ** A machine with a terminal *)

Record desk := Desk {
  d_line : bytes;                                   (* what is typed as the name *)
  d_typed : option bytes;
  d_buffer : bytes;
  d_accounts : list (bytes * passwd);
  d_shadow : list (bytes * bytes);
  d_caps : cap_t
}.

Definition find_name {A} (name : bytes) (l : list (bytes * A)) : option A := snd <$> head (filter (fun x => x.1 = name) l).
(** A toy cipher. *)
Definition toy_crypt (key salt : bytes) : bytes := take 2 salt ++ reverse key.
Definition may_read_shadow (c : cap_t) : bool := bool_decide (CAP_DAC_READ_SEARCH ∈ effective c).

#[export] Instance desk_login : LoginCalls desk := {
  k_login_name_max k := (-1, k);
  k_malloc n k := (inl tt, k);
  k_fgets n k := (Some (take (Z.to_nat (n - 1)) (d_line k)), k);
  k_getpwnam name k := (find_name name (d_accounts k), k);
  k_getspnam name k := (if may_read_shadow (d_caps k) then match find_name name (d_shadow k) with Some s => inl s | None => inr ENOENT end else inr EACCES, k);
  k_getpass k := match d_typed k with
                 | Some pw => (Some pw, Desk (d_line k) (d_typed k) pw (d_accounts k) (d_shadow k) (d_caps k))
                 | None => (None, k)
                 end;
  k_set_getpass_buffer b k := Desk (d_line k) (d_typed k) b (d_accounts k) (d_shadow k) (d_caps k);
  k_crypt key salt k := (inl (toy_crypt key salt), k)
}.

(** A capability that is permitted can be made effective. *)
#[export] Instance desk_caps : CapCalls desk := {
  k_cap_get_proc k := (inl (d_caps k), k);
  k_cap_set_flag c n v k := (inl (Caps (match v with CAP_SET => {[n]} ∪ effective c | CAP_CLEAR => effective c ∖ {[n]} end) (permitted c) (inheritable c)), k);
  k_cap_set_proc c k := if decide (effective c ⊆ permitted c /\ permitted c ⊆ permitted (d_caps k))
                        then (inl tt, Desk (d_line k) (d_typed k) (d_buffer k) (d_accounts k) (d_shadow k) c) else (inr EPERM, k);
  k_cap_init k := (inl no_caps, k);
  k_cap_free k := (inl tt, k)
}.

#[export] Program Instance desk_laws : LoginLaws desk := {|
  buffer := d_buffer; typed_name := d_line; typed := d_typed; caps := d_caps; encrypt := toy_crypt;
  account := fun k name => find_name name (d_accounts k);
  shadow := fun k name => find_name name (d_shadow k)
|}.
Solve All Obligations with (try (by intros)).
Next Obligation. intros name k. split; [done|]. cbn. by destruct (find_name name (d_accounts k)). Qed.
Next Obligation.
  intros name k. split; [done|]. cbn. destruct (may_read_shadow (d_caps k)); [|by left]. destruct (find_name name (d_shadow k)) eqn:E; [done|by right].
Qed.
Next Obligation. intros k. cbn. destruct (d_typed k) eqn:E; cbn; by rewrite ?E. Qed.
Next Obligation. intros c k. cbn. by case_decide. Qed.

#[local] Instance password_messages : Messages := Build_Messages (fun _ => []) 0 (fun _ => []) None.

Definition a_desk (pw : bytes) : proc desk :=
  Proc (Desk (str "ann" ++ [NL]) (Some pw) [] [(str "ann", Passwd (str "x") 1000)] [(str "ann", str "abterces")]
          (Caps ∅ {[CAP_DAC_READ_SEARCH]} ∅)) 0 [].

Definition a_login : proc desk := a_desk (str "secret").
Definition a_wrong_login : proc desk :=
  Proc (Desk (str "ann" ++ [NL]) (Some (str "wrong")) [] [(str "ann", Passwd (str "x") 1000)] [(str "ann", str "abterces")]
          (Caps {[CAP_DAC_READ_SEARCH]} ∅ ∅)) 0 [].

(** The right password; then a wrong one. *)
Lemma check_password_caps_authenticates_witness :
  (check_password_caps_main a_login).1 = Exit EXIT_SUCCESS /\
  checked a_login no_caps (Exit EXIT_SUCCESS) (check_password_caps_main a_login).2 /\
  last (trace (check_password_caps_main a_login).2) = Some (Out (str "Successfully authenticated: UID=1000" ++ [NL])).
Proof.
  assert ((check_password_caps_main a_login).1 = Exit EXIT_SUCCESS) as E by (vm_compute; reflexivity).
  split; [exact E|]. split; [|vm_compute; reflexivity]. rewrite <- E. exact (check_password_caps_authenticates a_login).
Defined.

Lemma check_password_authenticates_witness :
  (check_password_main a_wrong_login).1 = Exit EXIT_FAILURE /\ d_buffer (kern (check_password_main a_wrong_login).2) = replicate 5 NUL /\
  checked a_wrong_login (caps (kern a_wrong_login)) (Exit EXIT_FAILURE) (check_password_main a_wrong_login).2.
Proof.
  assert ((check_password_main a_wrong_login).1 = Exit EXIT_FAILURE) as E by (vm_compute; reflexivity).
  split; [exact E|]. split; [vm_compute; reflexivity|]. rewrite <- E. exact (check_password_authenticates a_wrong_login).
Defined.
