(* ===== verification/Timers.v ===== *)
(** * Timers

    itimerspec_from_str.c and demo_timerfd.c (tlpi-dist/timers): the parser of the times of a timer, and
    a program that reads the expirations of one until there were enough. *)

From Stdlib Require Import ZArith Lia String Ascii.
From S2P Require Import Prelude CString Kernel GetNum ErrorFns Seqnum.

Record timespec := Timespec { tv_sec : Z; tv_nsec : Z }.
Record itimerspec := Itimerspec { it_interval : timespec; it_value : timespec }.

(** ** itimerspec_from_str.c *)

(** What stands before and after the first [c]; the function puts a null byte in the place of [c]. *)
Definition cut (c : ascii) (s : bytes) : bytes * option bytes :=
  match strchr s c with Some i => (take i s, Some (drop (S i) s)) | None => (s, None) end.

Definition time_of (s : bytes) : timespec :=
  let '(sec, nsec) := cut "/" s in Timespec (atoi sec) (match nsec with Some n => atoi n | None => 0 end).

Definition itimerspecFromStr (s : bytes) : itimerspec :=
  let '(value, interval) := cut ":" s in
  Itimerspec (match interval with Some i => time_of i | None => Timespec 0 0 end) (time_of value).

(** The string that the caller is left with. *)
Definition str_after (s : bytes) : bytes := (cut "/" (cut ":" s).1).1.

(** ** demo_timerfd.c *)

Class TimerCalls (K : Type) := {
  k_timerfd_create : K -> (Z + Z) * K;
  k_timerfd_settime : Z -> itimerspec -> K -> (Z + Z) * K;
  k_read_expirations : Z -> K -> (option Z + Z) * K;    (* the 8 bytes read as a number, or a short read *)
  k_monotonic : K -> (timespec + Z) * K
}.

Section Program.
Context `{!Messages} {K : Type} `{!TimerCalls K}.

Definition clock_gettime : M (proc K) timespec :=
  r ← syscall None (fun k => let '(r, k') := k_monotonic k in (match r with inl t => inl (Some t) | inr e => inr e end, k'));
  match r with Some t => mret t | None => errExit (str "clock_gettime") end.

(** [%03d] *)
Definition three_digits (n : Z) : bytes := replicate (3 - length (dec n)) "0"%char ++ dec n.

(** The line for [numExp] more expirations at time [now], [totalExp] with them. *)
Definition elapsed (start now : timespec) : Z * Z :=
  let secs := s32 (tv_sec now - tv_sec start) in
  let nanosecs := s32 (tv_nsec now - tv_nsec start) in
  if nanosecs <? 0 then (secs - 1, nanosecs + 1000000000) else (secs, nanosecs).
Definition expiration_line (start now : timespec) (numExp totalExp : Z) : bytes :=
  let '(secs, nanosecs) := elapsed start now in
  dec secs ++ str "." ++ three_digits (Z.quot (nanosecs + 500000) 1000000) ++ str ": expirations read: " ++ dec numExp ++
  str "; total=" ++ dec totalExp ++ [NL].

Definition read_loop (fuel : nat) (fd maxExp : Z) (start : timespec) : M (proc K) unit :=
  loop fuel (fun totalExp =>
    if totalExp <? u64 maxExp then
      r ← syscall None (k_read_expirations fd);
      match r with
      | None => errExit (str "read")
      | Some numExp =>
          let totalExp := u64 (totalExp + numExp) in
          now ← clock_gettime;
          printf (expiration_line start now numExp totalExp) ;;
          mret (inl totalExp)
      end
    else mret (inr tt)) 0.

Definition timerfd_main (fuel : nat) (argv : list bytes) : M (proc K) unit :=
  (if bool_decide (length argv < 2)%nat || asks_help argv
   then usageErr (default [] (argv !! 0%nat) ++ str " secs[/nsecs][:int-secs[/int-nsecs]] [max-exp]" ++ [NL]) else mret tt) ;;
  let ts := itimerspecFromStr (default [] (argv !! 1%nat)) in
  maxExp ← (match argv !! 2%nat with Some a => getInt (Some a) GN_GT_0 (Some (str "max-exp")) | None => mret 1 end);
  fd ← syscall (-1) k_timerfd_create;
  if fd =? -1 then errExit (str "timerfd_create")
  else
    s ← syscall (-1) (k_timerfd_settime fd ts);
    if s =? -1 then errExit (str "timerfd_settime")
    else
      start ← clock_gettime;
      read_loop fuel fd maxExp start ;;
      exit_ EXIT_SUCCESS.
End Program.

(** Half a millisecond before a full second, the milliseconds are rounded up to four digits. *)
Example rounded_to_a_thousand : expiration_line (Timespec 5 0) (Timespec 5 999600000) 1 1 = str "0.1000: expirations read: 1; total=1" ++ [NL].
Proof. vm_compute. reflexivity. Qed.

(** The parser leaves its caller with a string cut short. *)
Example argument_cut : str_after (str "2/500:1") = str "2".
Proof. reflexivity. Qed.

(** ** The parser *)

Definition render_time (sec : Z) (nsec : option Z) : bytes := dec sec ++ from_option (fun n => str "/" ++ dec n) [] nsec.
Definition render (value : Z * option Z) (interval : option (Z * option Z)) : bytes :=
  render_time value.1 value.2 ++ from_option (fun i : Z * option Z => str ":" ++ render_time i.1 i.2) [] interval.
Definition an_int (z : Z) : Prop := INT_MIN <= z <= INT_MAX.
Definition ints (t : Z * option Z) : Prop := an_int t.1 /\ from_option an_int True t.2.
Definition meant (t : Z * option Z) : timespec := Timespec t.1 (default 0 t.2).

Lemma dec_without c z : c <> "-"%char -> ~ dec_char c -> c ∉ dec z.
Proof. intros H1 H2 Hin. pose proof (dec_chars z) as Hd. rewrite Forall_forall in Hd. destruct (Hd c Hin); done. Qed.

Lemma cut_none c s : c <> NUL -> c ∉ s -> cut c s = (s, None).
Proof. intros Hc Hs. unfold cut. rewrite strchr_index by done. by rewrite (proj2 (index_of_None c s) Hs). Qed.

Lemma cut_here c s t : c <> NUL -> c ∉ s -> cut c (s ++ c :: t) = (s, Some t).
Proof.
  intros Hc Hs. unfold cut. rewrite strchr_index, index_of_here by done. rewrite take_app_length.
  by rewrite drop_app_ge, Nat.sub_succ_l, Nat.sub_diag by lia.
Qed.

Lemma not_dec_char c : (ord c <? 48) || (57 <? ord c) = true -> ~ dec_char c.
Proof. intros H Hd%dec_char_spec. apply orb_true_iff in H as [H|H]; z_bool; lia. Qed.

Lemma atoi_of_dec z : an_int z -> atoi (dec z) = z.
Proof. intros H. rewrite <- (app_nil_r (dec z)). by apply atoi_dec. Qed.

Lemma time_of_render t : ints t -> time_of (render_time t.1 t.2) = meant t.
Proof.
  destruct t as [sec [nsec|]]; intros [H1 H2]; unfold time_of, render_time, meant; cbn [fst snd from_option default id] in *.
  - change (str "/" ++ dec nsec) with ("/"%char :: dec nsec). rewrite cut_here by (done || by apply dec_without, not_dec_char). by rewrite !atoi_of_dec.
  - rewrite app_nil_r, cut_none by (done || by apply dec_without, not_dec_char). by rewrite atoi_of_dec.
Qed.

Lemma render_time_without c t : c <> "-"%char -> c <> "/"%char -> ~ dec_char c -> c ∉ render_time t.1 t.2.
Proof.
  intros H1 H2 H3. pose proof (dec_without c t.1 H1 H3) as Hs. unfold render_time. destruct t.2 as [nsec|]; cbn [from_option]; [|by rewrite app_nil_r].
  pose proof (dec_without c nsec H1 H3) as Hn. change (str "/" ++ dec nsec) with ("/"%char :: dec nsec). rewrite elem_of_app, elem_of_cons. naive_solver.
Qed.

(** itimerspecFromStr reads back any times printed in its format, with zeros for what is left out. *)
Theorem itimerspec_roundtrip value interval : ints value -> from_option ints True interval ->
  itimerspecFromStr (render value interval) = Itimerspec (from_option meant (Timespec 0 0) interval) (meant value).
Proof.
  intros Hv Hi. unfold itimerspecFromStr, render. assert (":"%char ∉ render_time value.1 value.2) as Hno by by apply render_time_without, not_dec_char.
  destruct interval as [i|]; cbn [from_option] in *.
  - change (str ":" ++ render_time i.1 i.2) with (":"%char :: render_time i.1 i.2). rewrite cut_here by done. by rewrite !time_of_render.
  - rewrite app_nil_r, cut_none by done. by rewrite time_of_render.
Qed.

Lemma itimerspec_roundtrip_witness : itimerspecFromStr (str "2/500:1") = Itimerspec (Timespec 1 0) (Timespec 2 500).
Proof. exact (itimerspec_roundtrip (2, Some 500) (Some (1, None)) ltac:(by_decide) ltac:(by_decide)). Defined.

(** ** The expirations *)

Definition BILLION : Z := 10 ^ 9.
Definition at_ns (t : Z) : timespec := Timespec (t / BILLION) (t mod BILLION).

(** [now] is the time of the clock in nanoseconds, which fits the types for 68 years; a read of a timer waits for an expiration. *)
Class TimerLaws (K : Type) `{!TimerCalls K} := {
  now : K -> Z;
  now_small : forall k, 0 <= now k < 2 ^ 31 * BILLION;
  monotonic_tells : forall k, match k_monotonic k with
    | (inl t, k') => t = at_ns (now k') /\ now k <= now k' | (inr _, k') => now k <= now k' end;
  read_counts : forall fd k, match k_read_expirations fd k with
    | (inl (Some n), k') => 1 <= n < 2 ^ 63 /\ now k <= now k' | (_, k') => now k <= now k' end
}.

(** The line for [n] expirations, [total] with them, [d] nanoseconds after the start. *)
Definition line_after (d n total : Z) : bytes :=
  dec (d / BILLION) ++ str "." ++ three_digits ((d mod BILLION + 500000) / 1000000) ++ str ": expirations read: " ++ dec n ++
  str "; total=" ++ dec total ++ [NL].
Fixpoint lines_after (total : Z) (l : list (Z * Z)) : list event :=
  match l with [] => [] | (d, n) :: l' => Out (line_after d n (total + n)) :: lines_after (total + n) l' end.
Definition expirations (l : list (Z * Z)) : Z := foldr (fun x acc => x.2 + acc) 0 l.

Lemma expirations_app l l' : expirations (l ++ l') = expirations l + expirations l'.
Proof. unfold expirations. induction l as [|x l IH]; [done|]. cbn [app foldr]. rewrite IH. lia. Qed.

Lemma lines_after_app total l l' : lines_after total (l ++ l') = lines_after total l ++ lines_after (total + expirations l) l'.
Proof.
  revert total. induction l as [|[d n] l IH]; intros total; cbn [app lines_after]; [by rewrite Z.add_0_r|]. rewrite IH. do 3 f_equal. unfold expirations. cbn [foldr snd]. lia.
Qed.

Lemma s32_small z : - 2 ^ 31 <= z < 2 ^ 31 -> s32 z = z.
Proof. intros H. apply wrap_s_id; [done|]. exact H. Qed.

(** The two fields of the times make the quotient and the remainder of the difference. *)
Lemma elapsed_is t0 t1 : 0 <= t0 -> t0 <= t1 -> t1 < 2 ^ 31 * BILLION ->
  elapsed (at_ns t0) (at_ns t1) = ((t1 - t0) / BILLION, (t1 - t0) mod BILLION).
Proof.
  intros H0 H01 H1. unfold elapsed, at_ns. cbn [tv_sec tv_nsec].
  assert (0 < BILLION < 2 ^ 31) as [HB HB'] by (unfold BILLION; lia).
  pose proof (Z.mod_pos_bound t0 BILLION HB). pose proof (Z.mod_pos_bound t1 BILLION HB).
  pose proof (Z.div_mod t0 BILLION ltac:(lia)) as E0. pose proof (Z.div_mod t1 BILLION ltac:(lia)) as E1.
  assert (t1 / BILLION < 2 ^ 31) by (apply Z.div_lt_upper_bound; lia). assert (0 <= t0 / BILLION) by (by apply Z.div_pos).
  assert (t0 / BILLION <= t1 / BILLION) by (apply Z.div_le_mono; lia).
  rewrite !s32_small by lia. change 1000000000 with BILLION.
  destruct (Z.ltb_spec (t1 mod BILLION - t0 mod BILLION) 0).
  - assert (t1 - t0 = BILLION * (t1 / BILLION - t0 / BILLION - 1) + (t1 mod BILLION - t0 mod BILLION + BILLION)) as E by lia.
    f_equal; [by apply Z.div_unique with (t1 mod BILLION - t0 mod BILLION + BILLION); [left; lia|]|].
    apply Z.mod_unique with (t1 / BILLION - t0 / BILLION - 1); [left; lia|done].
  - assert (t1 - t0 = BILLION * (t1 / BILLION - t0 / BILLION) + (t1 mod BILLION - t0 mod BILLION)) as E by lia.
    f_equal; [by apply Z.div_unique with (t1 mod BILLION - t0 mod BILLION); [left; lia|]|].
    apply Z.mod_unique with (t1 / BILLION - t0 / BILLION); [left; lia|done].
Qed.

Section Correct.
Context `{!Messages} {K : Type} `{!TimerCalls K, !TimerLaws K}.

Lemma wp_clock_gettime (p : proc K) (Q : outcome timespec -> proc K -> Prop) :
  (forall k', now (kern p) <= now k' -> Q (Ret (at_ns (now k'))) (Proc k' (errno p) (trace p))) -> (forall o q, stopped o -> Q o q) -> wp clock_gettime p Q.
Proof.
  intros Hok Hno. apply wp_bind, wp_syscall. pose proof (monotonic_tells (kern p)) as Hm. destruct (k_monotonic (kern p)) as [[t|e] k'].
  - destruct Hm as [-> Hle]. by apply wp_ret, Hok.
  - apply wp_errExit. auto.
Qed.

Lemma line_is t0 t1 n total : 0 <= t0 -> t0 <= t1 -> t1 < 2 ^ 31 * BILLION -> expiration_line (at_ns t0) (at_ns t1) n total = line_after (t1 - t0) n total.
Proof.
  intros H0 H01 H1. unfold expiration_line, line_after. rewrite elapsed_is by done.
  pose proof (Z.mod_pos_bound (t1 - t0) BILLION ltac:(done)). by rewrite Z.quot_div_nonneg by lia.
Qed.

(** the loop of demo_timerfd ends.  Unless a call fails, it prints a line for each read, with the time since the
    start, to the millisecond, and the expirations so far, and goes on exactly until there were as many as wanted. *)
Theorem timerfd_counts fuel fd maxExp t0 (p : proc K) : 0 < maxExp <= INT_MAX -> 0 <= t0 <= now (kern p) -> (Z.to_nat maxExp < fuel)%nat ->
  wp (read_loop fuel fd maxExp (at_ns t0)) p (fun o q => stopped o \/
    o = Ret tt /\ exists l last, trace q = trace p ++ lines_after 0 (l ++ [last]) /\
      expirations l < maxExp <= expirations (l ++ [last]) /\ Forall (fun x => 0 <= x.1 /\ 1 <= x.2) (l ++ [last])).
Proof.
  intros HM Ht0 Hf. unfold read_loop.
  apply (loop_wp (fun total q => t0 <= now (kern q) /\ exists l, total = expirations l /\ trace q = trace p ++ lines_after 0 l /\
      Forall (fun x => 0 <= x.1 /\ 1 <= x.2) l /\ (l = [] \/ exists l' last, l = l' ++ [last] /\ expirations l' < maxExp) /\ 0 <= total < 2 ^ 64)
    (fun total q => Z.to_nat (maxExp - total))); [| |lia].
  2: { split; [lia|]. exists []. rewrite app_nil_r. split_and!; try done. by left. }
  intros total q (Hnow & l & -> & Htr & Hall & Hlast & Htot).
  assert (u64 maxExp = maxExp) as -> by (unfold wrap_u; apply Z.mod_small; unfold INT_MAX in HM; lia).
  destruct (Z.ltb_spec (expirations l) maxExp) as [Hlt|Hge].
  - apply wp_bind, wp_syscall. pose proof (read_counts fd (kern q)) as Hr. destruct (k_read_expirations fd (kern q)) as [[[n|]|e] k1].
    2-3: apply wp_errExit; intros o e' [-> | ->]; left; by (left + right).
    destruct Hr as [Hn Hk1]. apply wp_bind, wp_clock_gettime; [|intros o q' [-> | ->]; left; by (left + right)].
    cbn [kern errno trace]. intros k2 Hk2. apply wp_bind, wp_printf, wp_ret. cbn [kern trace].
    assert (u64 (expirations l + n) = expirations l + n) as -> by (unfold wrap_u; apply Z.mod_small; unfold INT_MAX in HM; lia).
    split; [|lia]. split; [lia|]. exists (l ++ [(now k2 - t0, n)]). rewrite expirations_app. cbn [expirations foldr snd].
    pose proof (now_small k2). split_and!; [lia| | | |lia|unfold INT_MAX in HM; lia].
    + rewrite Htr, lines_after_app, <- app_assoc. cbn [lines_after]. rewrite line_is by lia. by rewrite Z.add_0_l.
    + apply Forall_app. split; [done|]. constructor; [cbn; lia|done].
    + right. eauto.
  - apply wp_ret. right. split; [done|]. destruct Hlast as [->|(l' & last & -> & Hl')]; [cbn in Hge; lia|]. exists l', last. done.
Qed.
End Correct.

(** ** A simulated clock

    Every read takes 0.7 seconds and finds two expirations. *)
Record clock := Clock { ns : Z }.
Definition clock_now (k : clock) : Z := Z.max 0 (Z.min (2 ^ 31 * BILLION - 1) (ns k)).

#[export] Instance clock_calls : TimerCalls clock := {|
  k_timerfd_create := fun k => (inl 3, k);
  k_timerfd_settime := fun _ _ k => (inl 0, k);
  k_read_expirations := fun _ k => (inl (Some 2), Clock (ns k + 700000000));
  k_monotonic := fun k => (inl (at_ns (clock_now k)), k)
|}.

#[export] Program Instance clock_laws : TimerLaws clock := {| now := clock_now |}.
Solve All Obligations with (intros; cbn; unfold clock_now, BILLION; cbn [ns]; try split; lia || done).

#[local] Instance timers_messages : Messages := Build_Messages (fun _ => []) 0 (fun _ => []) None.

Lemma timerfd_counts_witness :
  let '(o, q) := read_loop 5 3 3 (at_ns 0) (Proc (Clock 0) 0 []) in
  o = Ret tt /\ trace q = [Out (str "0.700: expirations read: 2; total=2" ++ [NL]); Out (str "1.400: expirations read: 2; total=4" ++ [NL])].
Proof.
  pose proof (timerfd_counts 5 3 3 0 (Proc (Clock 0) 0 []) ltac:(by_decide) ltac:(by_decide) ltac:(by_decide)) as Hs. unfold wp in Hs.
  assert ((read_loop 5 3 3 (at_ns 0) (Proc (Clock 0) 0 [])).1 = Ret tt) as Ho by (vm_compute; reflexivity).
  assert (trace (read_loop 5 3 3 (at_ns 0) (Proc (Clock 0) 0 [])).2 = [Out (str "0.700: expirations read: 2; total=2" ++ [NL]); Out (str "1.400: expirations read: 2; total=4" ++ [NL])]) as Ht
    by (vm_compute; reflexivity).
  destruct (read_loop 5 3 3 (at_ns 0) (Proc (Clock 0) 0 [])) as [o q]. cbn [fst snd] in *.
  destruct Hs as [[E|E]|(_ & _)]; [rewrite Ho in E; discriminate E..|]. split; [exact Ho|exact Ht].
Defined.
