(* ===== verification/Inotify.v ===== *)
(** * Watching files

    demo_inotify.c (tlpi-dist/inotify): adds a watch for each argument and prints the events that it reads, which
    lie in the buffer one after the other, each with its own length. *)

From Stdlib Require Import ZArith Lia String Ascii.
From S2P Require Import Prelude CString Kernel ErrorFns Seqnum.

Definition NAME_MAX : Z := 255.
Definition EVENT_SIZE : nat := 16.                 (* sizeof(struct inotify_event) *)
Definition BUF_LEN : Z := 10 * (Z.of_nat EVENT_SIZE + NAME_MAX + 1).
Definition IN_ALL_EVENTS : Z := 4095.

(** The names of the bits, in the order in which they are printed. *)
Definition event_bits : list (Z * string) :=
  [(1, "IN_ACCESS "); (4, "IN_ATTRIB "); (16, "IN_CLOSE_NOWRITE "); (8, "IN_CLOSE_WRITE "); (256, "IN_CREATE "); (512, "IN_DELETE ");
   (1024, "IN_DELETE_SELF "); (32768, "IN_IGNORED "); (1073741824, "IN_ISDIR "); (2, "IN_MODIFY "); (2048, "IN_MOVE_SELF ");
   (64, "IN_MOVED_FROM "); (128, "IN_MOVED_TO "); (32, "IN_OPEN "); (16384, "IN_Q_OVERFLOW "); (8192, "IN_UNMOUNT ")]%string.

Record inotify_event := Event { wd : Z; mask : Z; cookie : Z; len : Z }.

(** A little-endian 32-bit number at the start of [s], when its four bytes are there. *)
Definition u32_of (s : bytes) : option Z :=
  match s with
  | a :: b :: c :: d :: _ => Some (ord a + 256 * (ord b + 256 * (ord c + 256 * ord d)))
  | _ => None
  end.

(** The structure at the start of [s]. *)
Definition event_of (s : bytes) : option inotify_event :=
  w ← u32_of s; m ← u32_of (drop 4 s); c ← u32_of (drop 8 s); l ← u32_of (drop 12 s); Some (Event (s32 w) m c l).

(** The string at the start of [s]. *)
Definition string_of (s : bytes) : option bytes := (fun i => take i s) <$> index_of NUL s.

(** [%2d] and [%4d] *)
Definition padded (width : nat) (z : Z) : bytes := replicate (width - length (dec z)) " "%char ++ dec z.

Class InotifyCalls (K : Type) := {
  k_inotify_init : K -> (Z + Z) * K;
  k_inotify_add_watch : Z -> bytes -> Z -> K -> (Z + Z) * K
}.

Section Program.
Context `{!Messages} {K : Type} `{!FileIO K, !InotifyCalls K}.

(** [s] is the buffer from the event on. *)
Definition displayInotifyEvent (s : bytes) (i : inotify_event) : M (proc K) unit :=
  printf (str "    wd =" ++ padded 2 (wd i) ++ str "; ") ;;
  (if 0 <? cookie i then printf (str "cookie =" ++ padded 4 (s32 (cookie i)) ++ str "; ") else mret tt) ;;
  printf (str "mask = ") ;;
  for_each (fun '(bit, name) => if negb (Z.land (mask i) bit =? 0) then printf (str name) else mret tt) event_bits ;;
  printf [NL] ;;
  (if 0 <? len i then name ← the (string_of (drop EVENT_SIZE s)); printf (str "        name = " ++ name ++ [NL]) else mret tt).

(** The loop over the buffer: what lies from [p] to the end of what was read. *)
Definition process_events (fuel : nat) (buf : bytes) : M (proc K) unit :=
  loop fuel (fun p =>
    if bool_decide (p = []) then mret (inr tt)
    else
      event ← the (event_of p);
      displayInotifyEvent p event ;;
      mret (inl (drop (EVENT_SIZE + Z.to_nat (len event)) p))) buf.

Fixpoint add_watches (fd : Z) (paths : list bytes) : M (proc K) unit :=
  match paths with
  | [] => mret tt
  | path :: paths' =>
      w ← syscall (-1) (k_inotify_add_watch fd path IN_ALL_EVENTS);
      (if w =? -1 then errExit (str "inotify_add_watch") else mret tt) ;;
      printf (str "Watching " ++ path ++ str " using wd " ++ dec w ++ [NL]) ;;
      add_watches fd paths'
  end.

Definition read_events (fuel : nat) (fd : Z) : M (proc K) unit :=
  r ← read fd BUF_LEN;
  let '(numRead, buf) := r in
  (if numRead =? 0 then fatal (str "read() from inotify fd returned 0!") else mret tt) ;;
  (if numRead =? -1 then errExit (str "read") else mret tt) ;;
  printf (str "Read " ++ dec numRead ++ str " bytes from inotify fd" ++ [NL]) ;;
  process_events fuel buf.

(** The loop never ends; this is a number of its rounds. *)
Fixpoint read_rounds (n fuel : nat) (fd : Z) : M (proc K) unit :=
  match n with O => mret tt | S n' => read_events fuel fd ;; read_rounds n' fuel fd end.

Definition inotify_main (n fuel : nat) (argv : list bytes) : M (proc K) unit :=
  (if bool_decide (length argv < 2)%nat || asks_help argv then usageErr (default [] (argv !! 0%nat) ++ str " pathname..." ++ [NL]) else mret tt) ;;
  fd ← syscall (-1) k_inotify_init;
  if fd =? -1 then errExit (str "inotify_init") else add_watches fd (drop 1 argv) ;; read_rounds n fuel fd.
End Program.

(** ** What the kernel writes, and what is printed of it *)

(** An event with its name and the number of bytes that follow the name. *)
Record ev := Ev { e_wd : Z; e_mask : Z; e_cookie : Z; e_name : option (bytes * nat) }.

Definition le32 (z : Z) : bytes := [chr (z mod 256); chr (z / 256 mod 256); chr (z / 256 / 256 mod 256); chr (z / 256 / 256 / 256 mod 256)].
Definition name_field (e : ev) : bytes := match e_name e with Some (name, pad) => name ++ replicate (S pad) NUL | None => [] end.
Definition encode (e : ev) : bytes := le32 (u32 (e_wd e)) ++ le32 (e_mask e) ++ le32 (e_cookie e) ++ le32 (strlen (name_field e)) ++ name_field e.

Definition ev_ok (e : ev) : Prop := in_s 32 (e_wd e) /\ in_u 32 (e_mask e) /\ in_u 32 (e_cookie e) /\ strlen (name_field e) < 2 ^ 32 /\
  match e_name e with Some (name, _) => NUL ∉ name | None => True end.

Definition shown (e : ev) : list event :=
  [Out (str "    wd =" ++ padded 2 (e_wd e) ++ str "; ")] ++
  (if 0 <? e_cookie e then [Out (str "cookie =" ++ padded 4 (s32 (e_cookie e)) ++ str "; ")] else []) ++
  [Out (str "mask = ")] ++ ((fun x => Out (str x.2)) <$> filter (fun x => Z.land (e_mask e) x.1 <> 0) event_bits) ++
  [Out [NL]] ++ (match e_name e with Some (name, _) => [Out (str "        name = " ++ name ++ [NL])] | None => [] end).

Lemma u32_of_le32 z rest : in_u 32 z -> u32_of (le32 z ++ rest) = Some z.
Proof.
  intros [H0 H1]. unfold le32, u32_of. cbn [app]. f_equal. rewrite !ord_chr by (apply Z.mod_pos_bound; lia).
  rewrite (Z.mod_small (z / 256 / 256 / 256)).
  - pose proof (Z.div_mod z 256). pose proof (Z.div_mod (z / 256) 256). pose proof (Z.div_mod (z / 256 / 256) 256). lia.
  - rewrite !Z.div_div by lia. split; [apply Z.div_pos; lia|apply Z.div_lt_upper_bound; lia].
Qed.

Lemma length_le32 z : length (le32 z) = 4%nat.
Proof. done. Qed.

Lemma s32_u32 z : in_s 32 z -> s32 (u32 z) = z.
Proof.
  intros H. rewrite <- (wrap_s_id 32 z) at 2 by done. unfold wrap_s, wrap_u. by rewrite Zplus_mod_idemp_l.
Qed.

Lemma event_of_encode e rest : ev_ok e -> event_of (encode e ++ rest) = Some (Event (e_wd e) (e_mask e) (e_cookie e) (strlen (name_field e))).
Proof.
  intros (Hw & Hm & Hc & Hl & _). unfold event_of, encode. rewrite <- !app_assoc.
  set (tail := name_field e ++ rest). set (n := strlen (name_field e)) in *. assert (in_u 32 n) as Hn by (pose proof (strlen_nonneg (name_field e)); done).
  change (drop 4 (le32 (u32 (e_wd e)) ++ ?x)) with x. change (drop 8 (?x ++ ?y ++ ?z)) with z.
  change (drop 12 (?x ++ ?y ++ ?z ++ ?t)) with t.
  rewrite !u32_of_le32 by (done || by apply wrap_u_range). cbn [mbind option_bind]. by rewrite s32_u32.
Qed.

Lemma length_encode e : length (encode e) = (EVENT_SIZE + length (name_field e))%nat.
Proof. done. Qed.

Lemma drop_fixed e rest : drop EVENT_SIZE (encode e ++ rest) = name_field e ++ rest.
Proof. done. Qed.

Section Correct.
Context `{!Messages} {K : Type} `{!FileIO K, !InotifyCalls K}.

Lemma for_each_bits m l (p : proc K) : for_each (fun '(bit, name) => if negb (Z.land m bit =? 0) then printf (str name) else mret tt) l p =
  (Ret tt, Proc (kern p) (errno p) (trace p ++ ((fun x : Z * string => Out (str x.2)) <$> filter (fun x => Z.land m x.1 <> 0) l))).
Proof.
  revert p. induction l as [|[bit name] l IH]; intros [k e t]; [cbn; by rewrite app_nil_r|]. cbn [for_each]. rewrite filter_cons. cbn [fst].
  destruct (Z.eqb_spec (Z.land m bit) 0) as [->|Hne]; cbn [negb].
  - rewrite decide_False by (intros Hn; by apply Hn). rewrite (bind_Ret _ _ _ tt (Proc k e t)) by done. by rewrite IH.
  - rewrite decide_True by done. rewrite (bind_Ret _ _ _ tt (Proc k e (t ++ [Out (str name)]))), IH by done. cbn [kern errno trace].
    rewrite fmap_cons. by rewrite <- app_assoc.
Qed.

Lemma display_shows e rest (p : proc K) : ev_ok e ->
  displayInotifyEvent (encode e ++ rest) (Event (e_wd e) (e_mask e) (e_cookie e) (strlen (name_field e))) p
  = (Ret tt, Proc (kern p) (errno p) (trace p ++ shown e)).
Proof.
  intros (_ & _ & _ & _ & Hname). destruct p as [k en t]. unfold displayInotifyEvent. cbn [wd mask cookie len].
  rewrite (bind_Ret _ _ _ tt (Proc k en (t ++ [Out (str "    wd =" ++ padded 2 (e_wd e) ++ str "; ")]))) by done.
  rewrite (bind_Ret _ _ _ tt (Proc k en ((t ++ [Out (str "    wd =" ++ padded 2 (e_wd e) ++ str "; ")]) ++
    (if 0 <? e_cookie e then [Out (str "cookie =" ++ padded 4 (s32 (e_cookie e)) ++ str "; ")] else [])))) by (destruct (0 <? e_cookie e); [done|by rewrite app_nil_r]).
  erewrite bind_Ret by done. erewrite bind_Ret by apply for_each_bits. erewrite bind_Ret by done. cbn [kern errno trace]. rewrite drop_fixed. unfold shown.
  generalize ((fun x : Z * string => Out (str x.2)) <$> filter (fun x => Z.land (e_mask e) x.1 <> 0) event_bits) as bits. intros bits.
  destruct e as [w m c [[name pad]|]]; cbn [e_name e_wd e_mask e_cookie name_field] in *.
  - rewrite (proj2 (Z.ltb_lt _ _)) by (unfold strlen; rewrite length_app; cbn; lia). unfold string_of.
    replace ((name ++ replicate (S pad) NUL) ++ rest) with (name ++ NUL :: (replicate pad NUL ++ rest)) by (cbn; by rewrite <- app_assoc).
    rewrite index_of_here by done. cbn [fmap option_fmap option_map]. rewrite take_app_length. cbn [the]. erewrite bind_Ret by reflexivity.
    unfold printf, modify. cbn [kern errno trace]. by rewrite <- !app_assoc.
  - change (0 <? strlen []) with false. cbv iota. unfold mret, M_ret. by rewrite <- !app_assoc, app_nil_r.
Qed.

(** whatever events a read delivers, demo_inotify prints each of them, in order, with its watch, its cookie, the names of its
    bits and its file name, and finds the next one behind it; nothing outside of what was read is looked at. *)
Theorem process_events_prints fuel es (p : proc K) : Forall ev_ok es -> (length es < fuel)%nat ->
  process_events fuel (concat (encode <$> es)) p = (Ret tt, Proc (kern p) (errno p) (trace p ++ concat (shown <$> es))).
Proof.
  revert es p. induction fuel as [|fuel IH]; intros es p Hes Hf; [lia|]. unfold process_events. destruct es as [|e es].
  - apply loop_done. cbn. rewrite app_nil_r. by destruct p.
  - apply Forall_cons in Hes as [He Hes]. rewrite !fmap_cons. cbn [concat].
    erewrite loop_next.
    2: { rewrite bool_decide_eq_false_2 by (by unfold encode, le32). rewrite event_of_encode by done. cbn [the].
      erewrite bind_Ret by (unfold mret, M_ret; reflexivity). erewrite bind_Ret by (by apply display_shows). reflexivity. }
    cbn [len]. assert (drop (EVENT_SIZE + Z.to_nat (strlen (name_field e))) (encode e ++ concat (encode <$> es)) = concat (encode <$> es)) as ->.
    { unfold strlen. rewrite Nat2Z.id, <- length_encode. by rewrite drop_app_length. }
    cbn in Hf. pose proof (IH es (Proc (kern p) (errno p) (trace p ++ shown e)) Hes ltac:(lia)) as H1. unfold process_events in H1. rewrite H1. cbn [kern errno trace].
    by rewrite <- app_assoc.
Qed.
End Correct.

#[local] Instance inotify_messages : Messages := Build_Messages (fun _ => []) 0 (fun _ => []) None.

(** A directory in which a file was renamed, and a watch that was removed. *)
Lemma process_events_prints_witness :
  let es := [Ev 1 64 77 (Some (str "old", 12%nat)); Ev 1 32768 0 None] in
  exists q, process_events (K := streams) 3 (concat (encode <$> es)) (Proc (Streams ∅ ∅ ∅) 0 []) = (Ret tt, q) /\
    trace q = [Out (str "    wd = 1; "); Out (str "cookie =  77; "); Out (str "mask = "); Out (str "IN_MOVED_FROM "); Out [NL];
               Out (str "        name = old" ++ [NL]); Out (str "    wd = 1; "); Out (str "mask = "); Out (str "IN_IGNORED "); Out [NL]].
Proof.
  intros es. eexists. split.
  - apply (process_events_prints 3 es (Proc (Streams ∅ ∅ ∅) 0 [])); [|by_decide].
    repeat constructor; try by_decide; cbn; rewrite ?not_elem_of_cons; split_and!; try done; apply not_elem_of_nil.
  - vm_compute. reflexivity.
Defined.
