(* ===== verification/Epoll.v ===== *)
(** * Waiting for several descriptors

    epoll_input.c and poll_pipes.c (tlpi-dist/altio).  The first reads any number of FIFOs as their
    data arrive, whichever is ready first, and closes each when its writers have; the second fills
    some pipes at random and asks which can be read. *)

From Stdlib Require Import ZArith Lia String Ascii.
From S2P Require Import Prelude CString Kernel GetNum ErrorFns Seqnum.
From S2P Require Inotify.

(** ** epoll_input.c *)

Definition MAX_BUF : Z := 1000.
Definition MAX_EVENTS : Z := 5.
Definition EPOLLIN : Z := 1.
Definition EPOLLERR : Z := 8.
Definition EPOLLHUP : Z := 16.

Class EpollCalls (K : Type) := {
  k_epoll_create : Z -> K -> (Z + Z) * K;
  k_epoll_add : Z -> Z -> Z -> K -> (Z + Z) * K;             (* EPOLL_CTL_ADD: epfd, fd, events *)
  k_epoll_wait : Z -> Z -> K -> (list (Z * Z) + Z) * K       (* epfd, maxevents: (data.fd, events) *)
}.

Definition has (events bit : Z) : bool := negb (Z.land events bit =? 0).
Definition quoted (s : bytes) : bytes := chr 34 :: s ++ [chr 34].

Section Input.
Context `{!Messages} {K : Type} `{!FileIO K, !EpollCalls K}.

Definition opened_line (path : bytes) (fd : Z) : bytes := str "Opened " ++ quoted path ++ str " on fd " ++ dec fd ++ [NL].
Definition waiting_line : bytes := str "About to epoll_wait()" ++ [NL].
Definition ready_line (ready : Z) : bytes := str "Ready: " ++ dec ready ++ [NL].
Definition events_line (fd events : Z) : bytes :=
  str "  fd=" ++ dec fd ++ str "; events: " ++ (if has events EPOLLIN then str "EPOLLIN " else []) ++
  (if has events EPOLLHUP then str "EPOLLHUP " else []) ++ (if has events EPOLLERR then str "EPOLLERR " else []) ++ [NL].
(** [%.*s] of what was read. *)
Definition read_line (bs : bytes) : bytes :=
  str "    read " ++ dec (strlen bs) ++ str " bytes: " ++ c_str bs ++ [NL].
Definition closing_line (fd : Z) : bytes := str "    closing fd " ++ dec fd ++ [NL].
Definition bye_line : bytes := str "All file descriptors closed; bye" ++ [NL].

Fixpoint open_inputs (epfd : Z) (paths : list bytes) : M (proc K) unit :=
  match paths with
  | [] => mret tt
  | path :: paths' =>
      fd ← open_ path O_RDONLY 0;
      (if fd =? -1 then errExit (str "open") else mret tt) ;;
      printf (opened_line path fd) ;;
      r ← syscall (-1) (k_epoll_add epfd fd EPOLLIN);
      (if r =? -1 then errExit (str "epoll_ctl") else mret tt) ;;
      open_inputs epfd paths'
  end.

(** One event of the list; the result is the new [numOpenFds]. *)
Definition deal_with (fd events numOpenFds : Z) : M (proc K) Z :=
  printf (events_line fd events) ;;
  if has events EPOLLIN then
    r ← read fd MAX_BUF;
    let '(s, buf) := r in
    (if s =? -1 then errExit (str "read") else mret tt) ;;
    printf (read_line buf) ;;
    mret numOpenFds
  else if has events (Z.lor EPOLLHUP EPOLLERR) then
    printf (closing_line fd) ;;
    r ← close fd;
    (if r =? -1 then errExit (str "close") else mret tt) ;;
    mret (numOpenFds - 1)
  else mret numOpenFds.

Fixpoint deal_with_all (evlist : list (Z * Z)) (numOpenFds : Z) : M (proc K) Z :=
  match evlist with
  | [] => mret numOpenFds
  | (fd, events) :: evlist' => n ← deal_with fd events numOpenFds; deal_with_all evlist' n
  end.

Definition wait_loop (fuel : nat) (epfd numOpenFds : Z) : M (proc K) unit :=
  loop fuel (fun numOpenFds =>
    if 0 <? numOpenFds then
      printf waiting_line ;;
      r ← syscall None (fun k => let '(r, k') := k_epoll_wait epfd MAX_EVENTS k in
                                 (match r with inl l => inl (Some l) | inr e => inr e end, k'));
      match r with
      | None => e ← get_errno; if e =? EINTR then mret (inl numOpenFds) else errExit (str "epoll_wait")
      | Some evlist =>
          printf (ready_line (Z.of_nat (length evlist))) ;;
          n ← deal_with_all evlist numOpenFds;
          mret (inl n)
      end
    else mret (inr tt)) numOpenFds.

Definition epoll_main (fuel : nat) (argv : list bytes) : M (proc K) unit :=
  (if bool_decide (length argv < 2)%nat || asks_help argv then usageErr (default [] (argv !! 0%nat) ++ str " file..." ++ [NL]) else mret tt) ;;
  let paths := drop 1 argv in
  epfd ← syscall (-1) (k_epoll_create (Z.of_nat (length paths)));
  if epfd =? -1 then errExit (str "epoll_create")
  else
    open_inputs epfd paths ;;
    wait_loop fuel epfd (Z.of_nat (length paths)) ;;
    printf bye_line ;;
    exit_ EXIT_SUCCESS.
End Input.

(** *** What it relies on

    Of a kernel whose calls succeed, other than waits that are interrupted.  [source] is what a FIFO
    will deliver before its writers close it, [interest] the descriptors that are waited for. *)
Class EpollLaws (K : Type) `{!FileIO K, !EpollCalls K} := {
  sound : K -> Prop;
  source : K -> Z -> bytes;
  interest : K -> gset Z;
  interruptions : K -> nat;
  create_epoll : forall n k, sound k -> 0 < n -> exists epfd k', k_epoll_create n k = (inl epfd, k') /\ 0 <= epfd /\ sound k' /\
    source k' = source k /\ interest k' = interest k /\ interruptions k' = interruptions k;
  open_fifo : forall path k, sound k -> exists fd k', k_open path O_RDONLY 0 k = (inl fd, k') /\ 0 <= fd /\ (fd ∉ interest k) /\ sound k' /\
    source k' = source k /\ interest k' = interest k /\ interruptions k' = interruptions k;
  add_fifo : forall epfd fd k, sound k -> exists r k', k_epoll_add epfd fd EPOLLIN k = (inl r, k') /\ 0 <= r /\ sound k' /\
    source k' = source k /\ interest k' = {[fd]} ∪ interest k /\ interruptions k' = interruptions k;
  wait_events : forall epfd k r k', sound k -> interest k <> ∅ -> k_epoll_wait epfd MAX_EVENTS k = (r, k') ->
    sound k' /\ source k' = source k /\ interest k' = interest k /\
    match r with
    | inl l => l <> [] /\ NoDup l.*1 /\ (interruptions k' <= interruptions k)%nat /\
        Forall (fun x => x.1 ∈ interest k /\
          (if has x.2 EPOLLIN then source k x.1 <> [] else has x.2 (Z.lor EPOLLHUP EPOLLERR) = true /\ source k x.1 = [])) l
    | inr e => e = EINTR /\ (interruptions k' < interruptions k)%nat
    end;
  read_fifo : forall fd k, sound k -> source k fd <> [] -> exists bs k', k_read fd MAX_BUF k = (inl bs, k') /\ bs <> [] /\ sound k' /\
    source k fd = bs ++ source k' fd /\ (forall fd', fd' <> fd -> source k' fd' = source k fd') /\
    interest k' = interest k /\ interruptions k' = interruptions k;
  close_fifo : forall fd k, sound k -> fd ∈ interest k -> exists r k', k_close fd k = (inl r, k') /\ 0 <= r /\ sound k' /\
    (forall fd', fd' <> fd -> source k' fd' = source k fd') /\ interest k' = interest k ∖ {[fd]} /\ interruptions k' = interruptions k
}.

(** *** What it does *)

Inductive act := Opened (path : bytes) (fd : Z) | Waiting | Ready (n : nat) | Event (fd events : Z) | Got (fd : Z) (bs : bytes) | Closing (fd : Z).

Definition line_of_act (a : act) : event :=
  Out match a with
      | Opened path fd => opened_line path fd
      | Waiting => waiting_line
      | Ready n => ready_line (Z.of_nat n)
      | Event fd events => events_line fd events
      | Got fd bs => read_line bs
      | Closing fd => closing_line fd
      end.

(** What was read from [fd]; the descriptors that were closed. *)
Definition got (fd : Z) (acts : list act) : bytes :=
  concat (omap (fun a => match a with Got fd' bs => if decide (fd' = fd) then Some bs else None | _ => None end) acts).
Definition closed (acts : list act) : list Z := omap (fun a => match a with Closing fd => Some fd | _ => None end) acts.

Section Correct.
Context `{!Messages} {K : Type} `{!FileIO K, !EpollCalls K, !EpollLaws K}.
Implicit Types (p q : proc K) (acts : list act).

Lemma got_app fd l l' : got fd (l ++ l') = got fd l ++ got fd l'.
Proof. unfold got. by rewrite omap_app, concat_app. Qed.
Lemma closed_app l l' : closed (l ++ l') = closed l ++ closed l'.
Proof. unfold closed. by rewrite omap_app. Qed.


Lemma got_none fd acts : Forall (fun a => match a with Got fd' _ => fd' <> fd | _ => True end) acts -> got fd acts = [].
Proof.
  unfold got. induction 1 as [|a l Ha _ IH]; [done|]. cbn. destruct a; try done. by rewrite decide_False.
Qed.

(** After [acts] from a state with the trace [t0], where the descriptors [fds] were to be read and had [src] to deliver. *)
Record reached (t0 : list event) (fds : gset Z) (src : Z -> bytes) acts q : Prop := {
  reached_sound : sound (kern q);
  reached_trace : trace q = t0 ++ (line_of_act <$> acts);
  reached_open : forall fd, fd ∈ interest (kern q) -> src fd = got fd acts ++ source (kern q) fd;
  reached_closed : forall fd, fd ∈ fds -> fd ∉ interest (kern q) -> src fd = got fd acts;
  reached_perm : closed acts ++ elements (interest (kern q)) ≡ₚ elements fds
}.

(** What there is still to do. *)
Definition weight (fds : gset Z) (k : K) : nat :=
  (sum_list_with (fun fd => if decide (fd ∈ interest k) then S (length (source k fd)) else 0) (elements fds) + interruptions k)%nat.

Lemma sum_list_with_lt {A} (f g : A -> nat) l x : x ∈ l -> (f x < g x)%nat -> (forall y, (f y <= g y)%nat) -> (sum_list_with f l < sum_list_with g l)%nat.
Proof.
  intros Hx Hlt Hle. induction l as [|y l IH]; [by apply elem_of_nil in Hx|]. cbn. pose proof (Hle y).
  assert (sum_list_with f l <= sum_list_with g l)%nat by (clear -Hle; induction l as [|z l IH]; cbn; [lia|specialize (Hle z); lia]).
  apply elem_of_cons in Hx as [->|Hx]; [lia|]. specialize (IH Hx). lia.
Qed.

Lemma reached_subset t0 fds src acts q fd : reached t0 fds src acts q -> fd ∈ interest (kern q) -> fd ∈ fds.
Proof.
  intros Hr Hfd. apply elem_of_elements. rewrite <- (reached_perm _ _ _ _ _ Hr). apply elem_of_app. right. by apply elem_of_elements.
Qed.

(** Lines that read and close nothing, and calls that change nothing. *)
Lemma reached_says t0 fds src acts q acts' q' : reached t0 fds src acts q -> sound (kern q') ->
  Forall (fun a => match a with Got _ _ | Closing _ => False | _ => True end) acts' ->
  source (kern q') = source (kern q) -> interest (kern q') = interest (kern q) -> trace q' = trace q ++ (line_of_act <$> acts') ->
  reached t0 fds src (acts ++ acts') q'.
Proof.
  intros [Hs Ht Ho Hc Hp] Hs' Ha Hsrc Hint Ht'.
  assert (forall fd, got fd acts' = []) as Hg by (intros fd; apply got_none; eapply Forall_impl; [exact Ha|]; by intros []).
  assert (closed acts' = []) as Hcl.
  { clear -Ha. unfold closed. induction Ha as [|a l Ha _ IH]; [done|]. cbn. by destruct a. }
  split; rewrite ?Hsrc, ?Hint; try done.
  - by rewrite Ht', Ht, <- app_assoc, fmap_app.
  - intros fd. rewrite got_app, Hg, app_nil_r. apply Ho.
  - intros fd. rewrite got_app, Hg, app_nil_r. apply Hc.
  - by rewrite closed_app, Hcl, app_nil_r.
Qed.

(** *** One event *)

Definition event_ok (k : K) (fd events : Z) : Prop :=
  fd ∈ interest k /\ (if has events EPOLLIN then source k fd <> [] else has events (Z.lor EPOLLHUP EPOLLERR) = true /\ source k fd = []).

(** What one event changes. *)
Record dealt (fds : gset Z) fd (k k' : K) : Prop := {
  dealt_interest : forall fd', fd' <> fd -> fd' ∈ interest k' <-> fd' ∈ interest k;
  dealt_source : forall fd', fd' <> fd -> source k' fd' = source k fd';
  dealt_interruptions : interruptions k' = interruptions k;
  dealt_weight : (weight fds k' < weight fds k)%nat
}.

Lemma dealt_intro fds fd k k' : fd ∈ fds -> fd ∈ interest k ->
  (forall fd', fd' <> fd -> fd' ∈ interest k' <-> fd' ∈ interest k) ->
  (forall fd', fd' <> fd -> source k' fd' = source k fd') -> interruptions k' = interruptions k ->
  (fd ∈ interest k' -> (length (source k' fd) < length (source k fd))%nat) -> dealt fds fd k k'.
Proof.
  intros Hf Hi Hint Hsrc Hdel Hless. split; try done. unfold weight. rewrite Hdel. apply Nat.add_lt_mono_r.
  apply (sum_list_with_lt _ _ _ fd); [by apply elem_of_elements| |].
  - rewrite (decide_True _ _ Hi). case_decide as Hd; [specialize (Hless Hd)|]; lia.
  - intros y. destruct (decide (y = fd)) as [->|Hne].
    + rewrite (decide_True _ _ Hi). case_decide as Hd; [specialize (Hless Hd)|]; lia.
    + rewrite (Hsrc y Hne). pose proof (Hint y Hne). repeat case_decide; try lia. tauto.
Qed.

Lemma bind_unit {S B} (m : M S unit) (k : unit -> M S B) s s' : m s = (Ret tt, s') -> (m ≫= k) s = k tt s'.
Proof. apply bind_Ret. Qed.

Lemma deal_with_spec t0 fds src acts fd events q : reached t0 fds src acts q -> event_ok (kern q) fd events ->
  exists acts' q', deal_with fd events (Z.of_nat (size (interest (kern q)))) q = (Ret (Z.of_nat (size (interest (kern q')))), q') /\
    reached t0 fds src (acts ++ acts') q' /\ dealt fds fd (kern q) (kern q').
Proof.
  intros Hr [Hfd Hev]. pose proof (reached_sound _ _ _ _ _ Hr) as Hs. pose proof (reached_subset _ _ _ _ _ _ Hr Hfd) as Hin.
  destruct q as [k e t]. cbn [kern] in *. unfold deal_with. rewrite (bind_unit _ _ _ (Proc k e (t ++ [Out (events_line fd events)]))) by done.
  destruct (has events EPOLLIN).
  - destruct (read_fifo fd k Hs Hev) as (bs & k' & Hk & Hbs & Hs' & Hsrc & Hother & Hint & Hdel).
    exists [Event fd events; Got fd bs], (Proc k' e ((t ++ [Out (events_line fd events)]) ++ [Out (read_line bs)])). split_and!.
    + erewrite bind_Ret by (unfold read, syscall; cbn [kern]; rewrite Hk; reflexivity). cbv iota beta.
      rewrite (proj2 (Z.eqb_neq (strlen bs) (-1))) by (pose proof (strlen_nonneg bs); lia). cbn [kern]. rewrite Hint. reflexivity.
    + destruct Hr as [_ Ht Ho Hc Hp]. split; cbn [kern trace] in *; rewrite ?Hint; try done.
      * rewrite Ht, fmap_app. cbn [fmap list_fmap]. by rewrite <- !app_assoc.
      * intros fd' Hfd'. rewrite (Ho fd' Hfd'), got_app. destruct (decide (fd' = fd)) as [->|Hne].
        -- rewrite Hsrc. unfold got at 2. cbn. rewrite decide_True by done. cbn. by rewrite app_nil_r, <- app_assoc.
        -- rewrite (Hother fd' Hne), (got_none fd' [_; _]), app_nil_r; [done|]. repeat constructor. congruence.
      * intros fd' Hf Hn. rewrite (Hc fd' Hf Hn), got_app, (got_none fd' [_; _]), app_nil_r; [done|]. repeat constructor.
        intros ->. by apply Hn.
      * by rewrite closed_app, app_nil_r.
    + apply dealt_intro; cbn [kern]; try done; [by rewrite Hint|]. intros _. rewrite Hsrc, length_app.
      destruct bs; [done|]. cbn. lia.
  - destruct Hev as [-> Hempty]. destruct (close_fifo fd k Hs Hfd) as (r & k' & Hk & Hr0 & Hs' & Hother & Hint & Hdel).
    exists [Event fd events; Closing fd], (Proc k' e ((t ++ [Out (events_line fd events)]) ++ [Out (closing_line fd)])). split_and!.
    + erewrite bind_Ret by reflexivity. cbn [kern errno trace].
      erewrite bind_Ret by (unfold close, syscall; cbn [kern]; rewrite Hk; reflexivity). rewrite (proj2 (Z.eqb_neq r (-1))) by lia.
      erewrite bind_Ret by reflexivity. cbn [kern]. unfold mret, M_ret. do 2 f_equal. rewrite Hint.
      rewrite size_difference by set_solver. rewrite size_singleton.
      assert (size (interest k) <> 0%nat) as Hn by (apply size_non_empty_iff; set_solver). lia.
    + destruct Hr as [_ Ht Ho Hc Hp]. split; cbn [kern trace] in *; rewrite ?Hint; try done.
      * rewrite Ht, fmap_app. cbn [fmap list_fmap]. by rewrite <- !app_assoc.
      * intros fd' [Hfd' Hne%not_elem_of_singleton]%elem_of_difference. rewrite (Ho fd' Hfd'), got_app, (got_none fd' [_; _]), app_nil_r by by repeat constructor.
        by rewrite Hother.
      * intros fd' Hf Hn. rewrite got_app, (got_none fd' [_; _]), app_nil_r by by repeat constructor.
        destruct (decide (fd' = fd)) as [->|Hne]; [rewrite (Ho fd Hfd), Hempty; by rewrite app_nil_r|apply Hc; [done|set_solver]].
      * rewrite closed_app, <- Hp, <- app_assoc. f_equiv. change (closed [Event fd events; Closing fd]) with [fd]. rewrite <- (elements_singleton (C := gset Z) fd), <- elements_disj_union by set_solver.
        by rewrite <- union_difference_singleton_L.
    + apply dealt_intro; cbn [kern]; try done; rewrite Hint; set_solver.
Qed.

(** *** The list of a wait, and the loop *)

Definition events_ok (k : K) (l : list (Z * Z)) : Prop := NoDup l.*1 /\ Forall (fun x => event_ok k x.1 x.2) l.

Lemma dealt_events fds fd ev k k' l : dealt fds fd k k' -> events_ok k ((fd, ev) :: l) -> events_ok k' l.
Proof.
  intros [Hint Hsrc _ _] [[Hn Hnd]%NoDup_cons Hl]. split; [done|]. apply Forall_cons in Hl as [_ Hl].
  rewrite Forall_forall in *. intros x Hx. assert (x.1 <> fd) as Hne by (intros <-; apply Hn, list_elem_of_fmap; by exists x).
  unfold event_ok. rewrite Hint, Hsrc by done. by apply Hl.
Qed.

Lemma deal_with_all_spec t0 fds src l : forall acts q, reached t0 fds src acts q -> events_ok (kern q) l ->
  exists acts' q', deal_with_all l (Z.of_nat (size (interest (kern q)))) q = (Ret (Z.of_nat (size (interest (kern q')))), q') /\
    reached t0 fds src (acts ++ acts') q' /\ (weight fds (kern q') <= weight fds (kern q))%nat /\
    (l <> [] -> (weight fds (kern q') < weight fds (kern q))%nat).
Proof.
  induction l as [|[fd ev] l IH]; intros acts q Hr Hl.
  - exists [], q. rewrite app_nil_r. by split_and!.
  - assert (event_ok (kern q) fd ev) as He by (by destruct Hl as [_ [? _]%Forall_cons]).
    destruct (deal_with_spec t0 fds src acts fd ev q Hr He) as (acts1 & q1 & Hrun & Hr1 & Hd).
    destruct (IH _ _ Hr1 (dealt_events _ _ _ _ _ _ Hd Hl)) as (acts2 & q2 & Hrun2 & Hr2 & Hw & _).
    pose proof (dealt_weight _ _ _ _ Hd). exists (acts1 ++ acts2), q2. rewrite app_assoc. split_and!; [|done|lia|lia].
    cbn [deal_with_all]. by rewrite (bind_Ret _ _ _ _ _ Hrun).
Qed.

Lemma wait_round t0 fds src acts epfd q : reached t0 fds src acts q -> interest (kern q) <> ∅ ->
  exists acts' q', (forall fuel, wait_loop (S fuel) epfd (Z.of_nat (size (interest (kern q)))) q = wait_loop fuel epfd (Z.of_nat (size (interest (kern q')))) q') /\
    reached t0 fds src (acts ++ acts') q' /\ (weight fds (kern q') < weight fds (kern q))%nat.
Proof.
  intros Hr Hne. pose proof (reached_sound _ _ _ _ _ Hr) as Hs. destruct q as [k e t]. cbn [kern] in *.
  destruct (k_epoll_wait epfd MAX_EVENTS k) as [r k'] eqn:Hk. destruct (wait_events epfd k r k' Hs Hne Hk) as (Hs' & Hsrc & Hint & Hres).
  assert ((0 <? Z.of_nat (size (interest k))) = true) as Hpos.
  { apply Z.ltb_lt. assert (size (interest k) <> 0%nat) by (intros E%size_empty_inv; by apply Hne, leibniz_equiv). lia. }
  assert (weight fds k' + interruptions k = weight fds k + interruptions k')%nat as Hw by (unfold weight; rewrite Hsrc, Hint; lia).
  destruct r as [l|errnum].
  - destruct Hres as (Hl & Hnd & Hdel & Hev). set (q1 := Proc k' e ((t ++ [Out waiting_line]) ++ [Out (ready_line (Z.of_nat (length l)))])).
    assert (reached t0 fds src (acts ++ [Waiting; Ready (length l)]) q1) as Hr1.
    { eapply reached_says; [exact Hr|done|by repeat constructor|done..|]. unfold q1. cbn [trace]. by rewrite <- app_assoc. }
    assert (events_ok (kern q1) l) as Hok by (split; [done|]; unfold event_ok; cbn; by rewrite Hsrc, Hint).
    destruct (deal_with_all_spec t0 fds src l _ q1 Hr1 Hok) as (acts2 & q2 & Hrun & Hr2 & _ & Hlt).
    exists ([Waiting; Ready (length l)] ++ acts2), q2. rewrite app_assoc. split_and!; [|done|specialize (Hlt Hl); cbn [kern q1] in Hlt; lia].
    intros fuel. apply loop_next. rewrite Hpos. erewrite bind_Ret by reflexivity. cbn [kern errno trace].
    erewrite bind_Ret by (unfold syscall; cbn [kern]; rewrite Hk; reflexivity). cbv beta iota. erewrite bind_Ret by reflexivity.
    cbn [kern errno trace]. fold q1. change (interest (kern q1)) with (interest k') in Hrun. rewrite Hint in Hrun.
    by rewrite (bind_Ret _ _ _ _ _ Hrun).
  - destruct Hres as (-> & Hdel). set (q1 := Proc k' EINTR (t ++ [Out waiting_line])). exists [Waiting], q1. split_and!.
    + intros fuel. apply loop_next. rewrite Hpos. erewrite bind_Ret by reflexivity. cbn [kern errno trace].
      erewrite bind_Ret by (unfold syscall; cbn [kern]; rewrite Hk; reflexivity). cbv beta iota. erewrite bind_Ret by reflexivity. cbn [errno kern q1]. by rewrite Hint.
    + eapply reached_says; [exact Hr|done|by repeat constructor|done..].
    + cbn [kern q1]. lia.
Qed.

Lemma wait_loop_ends t0 fds src epfd fuel : forall acts q, reached t0 fds src acts q -> (weight fds (kern q) < fuel)%nat ->
  exists acts' q', wait_loop fuel epfd (Z.of_nat (size (interest (kern q)))) q = (Ret tt, q') /\
    reached t0 fds src (acts ++ acts') q' /\ interest (kern q') = ∅.
Proof.
  induction fuel as [|fuel IH]; intros acts q Hr Hf; [lia|]. destruct (decide (interest (kern q) = ∅)) as [E|E].
  - exists [], q. rewrite app_nil_r. split_and!; try done. apply loop_done. by rewrite E, size_empty.
  - destruct (wait_round t0 fds src acts epfd q Hr E) as (acts1 & q1 & Hrun & Hr1 & Hw).
    destruct (IH _ _ Hr1 ltac:(lia)) as (acts2 & q2 & Hrun2 & Hr2 & E2). exists (acts1 ++ acts2), q2.
    rewrite app_assoc. split_and!; [|done..]. by rewrite Hrun.
Qed.

(** *** Opening, and the whole *)

Definition opening (paths : list bytes) (ds : list Z) : list act := zip_with Opened paths ds.

Lemma open_inputs_spec epfd paths : forall q, sound (kern q) -> exists ds q', open_inputs epfd paths q = (Ret tt, q') /\
  length ds = length paths /\ NoDup ds /\ (forall fd, fd ∈ ds -> fd ∉ interest (kern q)) /\ sound (kern q') /\
  source (kern q') = source (kern q) /\ interest (kern q') = list_to_set ds ∪ interest (kern q) /\
  trace q' = trace q ++ (line_of_act <$> opening paths ds).
Proof.
  induction paths as [|path paths IH]; intros [k e t] Hs; cbn [kern trace] in *.
  - exists [], (Proc k e t). cbn. split_and!; try done; [by apply NoDup_nil|by intros fd ?%elem_of_nil|set_solver|by rewrite app_nil_r].
  - destruct (open_fifo path k Hs) as (fd & k1 & Hk1 & Hfd & Hnew & Hs1 & Hsrc1 & Hint1 & _).
    destruct (add_fifo epfd fd k1 Hs1) as (r & k2 & Hk2 & Hr & Hs2 & Hsrc2 & Hint2 & _).
    destruct (IH (Proc k2 e (t ++ [Out (opened_line path fd)])) Hs2) as (ds & q' & Hrun & Hlen & Hnd & Hnot & Hs' & Hsrc' & Hint' & Ht').
    cbn [kern trace] in *. exists (fd :: ds), q'. split_and!.
    + cbn [open_inputs]. erewrite bind_Ret by (unfold open_, syscall; cbn [kern]; rewrite Hk1; reflexivity). cbn [kern errno trace].
      rewrite (proj2 (Z.eqb_neq fd (-1))) by lia. do 2 erewrite bind_Ret by reflexivity. cbn [kern errno trace].
      erewrite bind_Ret by (unfold syscall; cbn [kern]; rewrite Hk2; reflexivity). cbn [kern errno trace].
      rewrite (proj2 (Z.eqb_neq r (-1))) by lia. by erewrite bind_Ret by reflexivity.
    + cbn. by rewrite Hlen.
    + apply NoDup_cons. split; [|done]. intros Hin%Hnot. rewrite Hint2 in Hin. set_solver.
    + intros fd' [->|Hin]%elem_of_cons; [done|]. apply Hnot in Hin. rewrite Hint2, Hint1 in Hin. set_solver.
    + done.
    + congruence.
    + rewrite Hint', Hint2, Hint1. cbn. set_solver.
    + rewrite Ht', <- app_assoc. done.
Qed.

(** with working calls, however many waits are interrupted and in whatever order and pieces the data arrive, epoll_input
    opens a descriptor for each of its arguments, reads from each everything its FIFO delivers, in order, closes each of them
    once, not before it was read to the end, and ends with status 0 after saying so.  What it does is [acts], of which it
    prints a line each. *)
Theorem epoll_input_reads argv p : sound (kern p) -> interest (kern p) = ∅ -> (1 < length argv)%nat -> asks_help argv = false ->
  exists n acts ds q, (forall fuel, (n <= fuel)%nat -> epoll_main fuel argv p = (Exit EXIT_SUCCESS, q)) /\
    trace q = trace p ++ (line_of_act <$> opening (drop 1 argv) ds ++ acts) ++ [Out bye_line] /\
    length ds = length (drop 1 argv) /\ NoDup ds /\ closed acts ≡ₚ ds /\ forall fd, fd ∈ ds -> got fd acts = source (kern p) fd.
Proof.
  intros Hs Hnone Hargs Hhelp. destruct p as [k e t]. cbn [kern trace] in *. set (paths := drop 1 argv).
  assert (0 < Z.of_nat (length paths)) as Hpos by (unfold paths; rewrite length_drop; lia).
  destruct (create_epoll (Z.of_nat (length paths)) k Hs Hpos) as (epfd & k1 & Hk1 & Hfd & Hs1 & Hsrc1 & Hint1 & _).
  destruct (open_inputs_spec epfd paths (Proc k1 e t) Hs1) as (ds & q1 & Hopen & Hlen & Hnd & _ & Hs2 & Hsrc2 & Hint2 & Ht2).
  cbn [kern trace] in *. assert (interest (kern q1) = list_to_set ds) as Hint by (rewrite Hint2, Hint1, Hnone; set_solver).
  assert (elements (list_to_set ds : gset Z) ≡ₚ ds) as Hel by (by apply elements_list_to_set).
  assert (reached (trace q1) (list_to_set ds) (source k) [] q1) as Hr0.
  { split; rewrite ?Hint, ?Hsrc2, ?Hsrc1; try done; try (by rewrite app_nil_r). all: set_solver. }
  destruct (wait_loop_ends _ _ _ epfd (S (weight (list_to_set ds) (kern q1))) [] q1 Hr0 ltac:(lia)) as (acts & q2 & Hrun & Hr & Hend).
  exists (S (weight (list_to_set ds) (kern q1))), acts, ds, (Proc (kern q2) (errno q2) (trace q2 ++ [Out bye_line])). split_and!; [| |done|done| |].
  - intros fuel Hfuel. unfold epoll_main. rewrite bool_decide_eq_false_2 by lia. rewrite Hhelp. cbn [orb].
    erewrite bind_Ret by reflexivity. cbv zeta. fold paths. erewrite bind_Ret by (unfold syscall; cbn [kern]; rewrite Hk1; reflexivity).
    rewrite (proj2 (Z.eqb_neq epfd (-1))) by lia. cbn [kern errno trace]. rewrite (bind_Ret _ _ _ _ _ Hopen).
    assert (Z.of_nat (size (interest (kern q1))) = Z.of_nat (length paths)) as Hsize.
    { rewrite Hint, <- Hlen. f_equal. by apply size_list_to_set. }
    rewrite Hsize in Hrun. unfold wait_loop in *. rewrite (bind_Ret _ _ _ tt q2); [reflexivity|].
    rewrite <- Hrun. apply loop_fuel; [lia|]. by rewrite Hrun.
  - cbn [trace]. rewrite (reached_trace _ _ _ _ _ Hr), Ht2, (fmap_app _ (opening paths ds)). cbn [app trace]. by rewrite <- !app_assoc.
  - pose proof (reached_perm _ _ _ _ _ Hr) as Hp. rewrite Hend, elements_empty, app_nil_r in Hp. cbn in Hp. by rewrite Hp.
  - intros fd Hfd'. symmetry. apply (reached_closed _ _ _ _ _ Hr); [set_solver|]. rewrite Hend. set_solver.
Qed.
End Correct.

(** *** A kernel

    The bytes of a descriptor come in chunks; the first waits are interrupted, and the others answer with
    up to five of the descriptors. *)

Record fifos := Fifos { base : streams; watched : gset Z; signals : nat }.

Definition next_fd (w : gset Z) : Z := foldr Z.max 2 (elements w) + 1.

Definition on_base {A} (f : streams -> A * streams) (k : fifos) : A * fifos :=
  let '(r, b) := f (base k) in (r, Fifos b (watched k) (signals k)).

Definition is_chunk (r : rd) : Prop := match r with Chunk _ _ => True | RFail _ => False end.
Definition chunks (b : streams) : Prop := forall fd, Forall is_chunk (default [] (s_in b !! fd)).

Definition event_at (b : streams) (fd : Z) : Z * Z :=
  (fd, match default [] (s_in b !! fd) with [] => EPOLLHUP | _ => EPOLLIN end).

#[export] Instance fifos_io : FileIO fifos := {
  k_open path flags mode k := (inl (next_fd (watched k)), k);
  k_close fd k := (inl 0, Fifos (base k) (watched k ∖ {[fd]}) (signals k));
  k_read fd n := on_base (streams_read fd n);
  k_write fd data := on_base (streams_write fd data);
  k_lseek fd off whence k := (inr EINVAL, k)
}.

#[export] Instance fifos_epoll : EpollCalls fifos := {
  k_epoll_create n k := (inl 100, k);
  k_epoll_add epfd fd events k := (inl 0, Fifos (base k) ({[fd]} ∪ watched k) (signals k));
  k_epoll_wait epfd maxevents k :=
    match signals k with
    | S n => (inr EINTR, Fifos (base k) (watched k) n)
    | O => (inl (take (Z.to_nat maxevents) (event_at (base k) <$> elements (watched k))), k)
    end
}.

Lemma streams_read_chunks fd b : chunks b -> pending b fd <> [] -> exists bs b', streams_read fd MAX_BUF b = (inl bs, b') /\ bs <> [] /\
  chunks b' /\ pending b fd = bs ++ pending b' fd /\ forall fd', fd' <> fd -> pending b' fd' = pending b fd'.
Proof.
  intros Hc Hp. destruct (streams_read fd MAX_BUF b) as [[bs|e] b'] eqn:E.
  - exists bs, b'. destruct (k_read_ok (K := streams) b fd MAX_BUF bs b' ltac:(done) E) as (Hpend & _ & Hend & _).
    split_and!; [done|by intros ->; apply Hp, Hend| |done|].
    + intros fd'. pose proof (Hc fd') as Hf. pose proof (Hc fd) as Hfd. unfold streams_read in E.
      destruct (default [] (s_in b !! fd)) as [|[c cs|e] rs] eqn:Er; [by injection E as _ <-| |by apply Forall_cons in Hfd as [? _]].
      injection E as _ <-. cbn [s_in]. destruct (decide (fd' = fd)) as [->|Hne]; [|by rewrite lookup_insert_ne].
      rewrite lookup_insert_eq. apply Forall_cons in Hfd as [_ Hrs]. cbn. destruct (drop 999 cs); cbn; [exact Hrs|by apply Forall_cons].
    + intros fd' Hne. unfold streams_read in E. cbn. destruct (default [] (s_in b !! fd)) as [|[c cs|e] rs]; injection E as _ <-; cbn; [done| |];
        by rewrite lookup_insert_ne.
  - unfold streams_read in E. pose proof (Hc fd) as Hfd. destruct (default [] (s_in b !! fd)) as [|[c cs|e'] rs]; [done|done|].
    by apply Forall_cons in Hfd as [? _].
Qed.

Lemma next_fd_above w fd : fd ∈ w -> fd < next_fd w.
Proof.
  unfold next_fd. rewrite <- elem_of_elements. induction (elements w) as [|x l IH]; [by intros ?%elem_of_nil|].
  cbn. intros [->|H%IH]%elem_of_cons; lia.
Qed.

Lemma next_fd_pos w : 0 <= next_fd w.
Proof. unfold next_fd. induction (elements w) as [|x l IH]; cbn; lia. Qed.

#[export] Program Instance fifos_laws : EpollLaws fifos := {|
  sound := fun k => chunks (base k);
  source := fun k => pending (base k);
  interest := watched;
  interruptions := signals
|}.
Next Obligation. intros n k Hs _. exists 100, k. by split_and!. Qed.
Next Obligation.
  intros path k Hs. exists (next_fd (watched k)), k. split_and!; try done; [apply next_fd_pos|]. intros Hin%next_fd_above. lia.
Qed.
Next Obligation. intros epfd fd k Hs. eexists _, _. split; [reflexivity|]. by split_and!. Qed.
Next Obligation.
  intros epfd k r k' Hc Hne. cbn. destruct (signals k) as [|n] eqn:Es; intros [= <- <-]; cbn; [|by split_and!; try lia].
  split_and!; try done; try lia.
  - intros E. destruct (elements (watched k)) as [|x l] eqn:El; [|done]. apply Hne. by apply leibniz_equiv, elements_empty_iff.
  - rewrite fmap_take, <- list_fmap_compose. eapply sublist_NoDup; [|apply sublist_take]. rewrite (list_fmap_ext _ id) by done. rewrite list_fmap_id. apply NoDup_elements.
  - apply Forall_take, Forall_fmap, Forall_forall. intros fd Hin%elem_of_elements. split; [done|]. cbn.
    pose proof (Hc fd) as Hf. destruct (default [] (s_in (base k) !! fd)) as [|[c cs|e] rs]; [done|done|by apply Forall_cons in Hf as [? _]].
Qed.
Next Obligation.
  intros fd k Hc Hp. destruct (streams_read_chunks fd (base k) Hc Hp) as (bs & b' & Hr & Hbs & Hc' & Hsrc & Hother).
  exists bs, (Fifos b' (watched k) (signals k)). cbn. unfold on_base. rewrite Hr. by split_and!.
Qed.
Next Obligation.
  intros fd k Hc Hin. eexists _, _. split; [reflexivity|]. cbn. split_and!; try done.
Qed.

#[local] Instance epoll_messages : Messages := Build_Messages (fun _ => []) 0 (fun _ => []) None.

(** A FIFO that delivers its text in two pieces and one that delivers nothing. *)
Definition two_fifos : proc fifos :=
  Proc (Fifos (Streams {[3 := [Chunk "a" (str "b"); Chunk "c" []]]} ∅ ∅) ∅ 1) 0 [].

Example epoll_runs : trace (epoll_main 10 [str "epoll_input"; str "x"; str "y"] two_fifos).2 =
  (line_of_act <$> [Opened (str "x") 3; Opened (str "y") 4; Waiting; Waiting; Ready 2; Event 3 EPOLLIN; Got 3 (str "ab"); Event 4 EPOLLHUP; Closing 4;
                   Waiting; Ready 1; Event 3 EPOLLIN; Got 3 (str "c"); Waiting; Ready 1; Event 3 EPOLLHUP; Closing 3]) ++ [Out bye_line].
Proof. vm_compute. reflexivity. Qed.

Lemma epoll_input_reads_witness : exists n acts ds q,
  (forall fuel, (n <= fuel)%nat -> epoll_main fuel [str "epoll_input"; str "x"; str "y"] two_fifos = (Exit EXIT_SUCCESS, q)) /\
  length ds = 2%nat /\ closed acts ≡ₚ ds /\ forall fd, fd ∈ ds -> got fd acts = if fd =? 3 then str "abc" else [].
Proof.
  destruct (epoll_input_reads [str "epoll_input"; str "x"; str "y"] two_fifos) as (n & acts & ds & q & Hrun & _ & Hlen & _ & Hcl & Hgot).
  - intros fd. cbn. destruct (decide (fd = 3)) as [->|Hne]; [by repeat constructor|]. by rewrite lookup_singleton_ne.
  - reflexivity.
  - by_decide.
  - reflexivity.
  - exists n, acts, ds, q. split_and!; [done..|]. intros fd Hfd. rewrite (Hgot fd Hfd). cbn. destruct (Z.eqb_spec fd 3) as [->|Hne]; [reflexivity|].
    by rewrite lookup_singleton_ne.
Defined.

(** ** poll_pipes.c *)

Definition POLLIN : Z := 1.

Class PollCalls (K : Type) := {
  k_calloc : Z -> Z -> K -> (unit + Z) * K;
  k_pipe : K -> ((Z * Z) + Z) * K;
  k_random : K -> Z * K;                                 (* after the seed was set *)
  k_poll : list Z -> K -> (Z * list Z + Z) * K           (* the result, and the revents of each entry *)
}.

Section Pipes.
Context `{!Messages} {K : Type} `{!FileIO K, !PollCalls K}.

Definition writing_line (pfd : Z * Z) : bytes :=
  str "Writing to fd: " ++ Inotify.padded 3 pfd.2 ++ str " (read fd: " ++ Inotify.padded 3 pfd.1 ++ str ")" ++ [NL].
Definition returned_line (ready : Z) : bytes := str "poll() returned: " ++ dec ready ++ [NL].
Definition readable_line (j : nat) (fd : Z) : bytes := str "Readable: " ++ dec (Z.of_nat j) ++ str " " ++ Inotify.padded 3 fd ++ [NL].

Definition calloc (n size : Z) : M (proc K) unit :=
  r ← syscall None (fun k => let '(r, k') := k_calloc n size k in (match r with inl _ => inl (Some tt) | inr e => inr e end, k'));
  match r with Some _ => mret tt | None => errExit (str "malloc") end.

(** The pipes from the [j]th on, [n] of them. *)
Fixpoint make_pipes (n j : nat) : M (proc K) (list (Z * Z)) :=
  match n with
  | O => mret []
  | S n' =>
      r ← syscall None (fun k => let '(r, k') := k_pipe k in (match r with inl e => inl (Some e) | inr e => inr e end, k'));
      match r with
      | None => errExit (str "pipe " ++ dec (Z.of_nat j))
      | Some pfd => rest ← make_pipes n' (S j); mret (pfd :: rest)
      end
  end.

Definition random : M (proc K) Z := fun p => let '(r, k') := k_random (kern p) in (Ret r, Proc k' (errno p) (trace p)).

Fixpoint write_some (n : nat) (numPipes : Z) (pfds : list (Z * Z)) : M (proc K) unit :=
  match n with
  | O => mret tt
  | S n' =>
      r ← random;
      pfd ← the (pfds !! Z.to_nat (Z.rem r numPipes));
      printf (writing_line pfd) ;;
      w ← write pfd.2 (str "a");
      (if w =? -1 then errExit (str "write " ++ dec pfd.2) else mret tt) ;;
      write_some n' numPipes pfds
  end.

Fixpoint show_ready (j : nat) (fds revents : list Z) : M (proc K) unit :=
  match fds, revents with
  | fd :: fds', r :: revents' =>
      (if negb (Z.land r POLLIN =? 0) then printf (readable_line j fd) else mret tt) ;;
      show_ready (S j) fds' revents'
  | _, _ => mret tt
  end.

Definition poll_main (argv : list bytes) : M (proc K) unit :=
  (if bool_decide (length argv < 2)%nat || asks_help argv
   then usageErr (default [] (argv !! 0%nat) ++ str " num-pipes [num-writes]" ++ [NL]) else mret tt) ;;
  numPipes ← getInt (argv !! 1%nat) GN_GT_0 (Some (str "num-pipes"));
  calloc numPipes 8 ;;
  calloc numPipes 8 ;;
  pfds ← make_pipes (Z.to_nat numPipes) 0;
  numWrites ← (if bool_decide (2 < length argv)%nat then getInt (argv !! 2%nat) GN_GT_0 (Some (str "num-writes")) else mret 1);
  write_some (Z.to_nat numWrites) numPipes pfds ;;
  r ← syscall None (fun k => let '(r, k') := k_poll pfds.*1 k in (match r with inl x => inl (Some x) | inr e => inr e end, k'));
  match r with
  | None => errExit (str "poll")
  | Some (ready, revents) =>
      printf (returned_line ready) ;;
      show_ready 0 pfds.*1 revents ;;
      exit_ EXIT_SUCCESS
  end.
End Pipes.

(** What it relies on: of a kernel whose calls succeed, a pipe takes [PIPE_SIZE] bytes before a write
    waits, and [poll] waits until there is data in one of the pipes. *)
Definition PIPE_SIZE : Z := 65536.

Class PollLaws (K : Type) `{!FileIO K, !PollCalls K} := {
  works : K -> Prop;
  contents : K -> list (Z * Z * nat);       (* the ends of each pipe and how many bytes it holds *)
  calloc_works : forall n size k, works k -> exists k', k_calloc n size k = (inl tt, k') /\ works k' /\ contents k' = contents k;
  pipe_works : forall k, works k -> exists pfd k', k_pipe k = (inl pfd, k') /\ works k' /\ contents k' = contents k ++ [(pfd, O)];
  random_works : forall k, works k -> exists r k', k_random k = (r, k') /\ 0 <= r /\ works k' /\ contents k' = contents k;
  write_works : forall i pfd n k, works k -> contents k !! i = Some (pfd, n) -> Z.of_nat n < PIPE_SIZE ->
    exists k', k_write pfd.2 (str "a") k = (inl 1, k') /\ works k' /\ contents k' = <[i := (pfd, S n)]> (contents k);
  poll_works : forall k, works k -> Exists (fun x => x.2 <> O) (contents k) ->
    exists k', k_poll ((contents k).*1).*1 k =
      (inl (Z.of_nat (length (filter (fun x => x.2 <> O) (contents k))), (fun x => if decide (x.2 = O) then 0 else POLLIN) <$> contents k), k')
}.

Section PipesCorrect.
Context `{!Messages} {K : Type} `{!FileIO K, !PollCalls K, !PollLaws K}.
Implicit Types (p q : proc K).

(** [a] is the decimal numeral of a positive number, or another text [getInt] reads as [n]. *)
Definition reads_as (a name : bytes) (n : Z) : Prop :=
  0 < n /\ forall p, getInt (Some a) GN_GT_0 (Some name) p = (Ret n, Proc (kern p) 0 (trace p)).

(** How often each of the pipes is chosen. *)
Definition times (choices : list nat) (i : nat) : nat := length (filter (fun c => c = i) choices).
Definition filled (pfds : list (Z * Z)) (choices : list nat) : list (Z * Z * nat) := imap (fun i pfd => (pfd, times choices i)) pfds.

Lemma make_pipes_spec n : forall j p, works (kern p) -> exists pfds q, make_pipes n j p = (Ret pfds, q) /\ length pfds = n /\
  works (kern q) /\ errno q = errno p /\ trace q = trace p /\ contents (kern q) = contents (kern p) ++ ((fun pfd => (pfd, O)) <$> pfds).
Proof.
  induction n as [|n IH]; intros j p Hw.
  - exists [], p. rewrite app_nil_r. by split_and!.
  - destruct (pipe_works (kern p) Hw) as (pfd & k1 & Hk & Hw1 & Hc1).
    destruct (IH (S j) (Proc k1 (errno p) (trace p)) Hw1) as (pfds & q & Hrun & Hl & Hw2 & He & Ht & Hc2). exists (pfd :: pfds), q.
    split_and!; try done; [|cbn; by rewrite Hl|].
    + cbn [make_pipes]. erewrite bind_Ret by (unfold syscall; rewrite Hk; reflexivity). cbv beta iota. by rewrite (bind_Ret _ _ _ _ _ Hrun).
    + rewrite Hc2. cbn [kern]. rewrite Hc1, <- app_assoc. done.
Qed.

Lemma filled_snoc pfds choices c pfd : pfds !! c = Some pfd ->
  filled pfds choices !! c = Some (pfd, times choices c) /\
  filled pfds (choices ++ [c]) = <[c := (pfd, S (times choices c))]> (filled pfds choices).
Proof.
  intros Hc. pose proof (lookup_lt_Some _ _ _ Hc) as Hlt. unfold filled. split; [by rewrite list_lookup_imap, Hc|].
  apply list_eq. intros i. destruct (decide (i = c)) as [->|Hne].
  - rewrite list_lookup_insert_eq by (by rewrite length_imap). rewrite list_lookup_imap, Hc. cbn. do 2 f_equal.
    unfold times. rewrite filter_app, filter_cons, decide_True, length_app by done. cbn. lia.
  - rewrite list_lookup_insert_ne, !list_lookup_imap by done. destruct (pfds !! i); [|done]. cbn. do 2 f_equal.
    unfold times. rewrite filter_app, filter_cons, decide_False, length_app by congruence. cbn. lia.
Qed.

Lemma times_le choices i : (times choices i <= length choices)%nat.
Proof. unfold times. apply length_filter. Qed.

Lemma write_some_spec n pfds : pfds <> [] -> forall choices p, works (kern p) -> contents (kern p) = filled pfds choices -> Z.of_nat (length choices + n) <= PIPE_SIZE ->
  exists more q, write_some n (Z.of_nat (length pfds)) pfds p = (Ret tt, q) /\ length more = n /\ Forall (fun c => c < length pfds)%nat more /\
    works (kern q) /\ errno q = errno p /\ contents (kern q) = filled pfds (choices ++ more) /\
    trace q = trace p ++ ((fun c => Out (writing_line (pfds !!! c))) <$> more).
Proof.
  intros Hne. induction n as [|n IH]; intros choices p Hw Hc Hl.
  - exists [], p. rewrite !app_nil_r. by split_and!.
  - destruct (random_works (kern p) Hw) as (r & k1 & Hk1 & Hr & Hw1 & Hc1). set (c := Z.to_nat (Z.rem r (Z.of_nat (length pfds)))).
    assert (0 < Z.of_nat (length pfds)) as Hpos by (destruct pfds; [done|cbn; lia]).
    assert (c < length pfds)%nat as Hlt by (unfold c; pose proof (Z.rem_bound_pos r (Z.of_nat (length pfds)) Hr Hpos); lia).
    destruct (lookup_lt_is_Some_2 pfds c Hlt) as [pfd Hpfd]. destruct (filled_snoc pfds choices c pfd Hpfd) as [Hat Hins].
    pose proof (times_le choices c). destruct (write_works c pfd (times choices c) k1 Hw1) as (k2 & Hk2 & Hw2 & Hc2); [by rewrite Hc1, Hc|lia|].
    destruct (IH (choices ++ [c]) (Proc k2 (errno p) (trace p ++ [Out (writing_line pfd)])) Hw2) as (more & q & Hrun & Hlen & Hall & Hw3 & He & Hc3 & Ht).
    { cbn [kern]. by rewrite Hc2, Hc1, Hc, Hins. } { rewrite length_app. cbn. lia. }
    exists (c :: more), q. split_and!; try done; [|cbn; by rewrite Hlen|by apply Forall_cons| |].
    + cbn [write_some]. erewrite bind_Ret by (unfold random; rewrite Hk1; reflexivity). fold c. rewrite Hpfd. cbn [the].
      do 2 erewrite bind_Ret by reflexivity. cbn [kern errno trace]. erewrite bind_Ret by (unfold write, syscall; cbn [kern]; rewrite Hk2; reflexivity).
      by erewrite bind_Ret by reflexivity.
    + by rewrite Hc3, <- app_assoc.
    + rewrite Ht. cbn. rewrite <- app_assoc. do 3 f_equal. by rewrite (list_lookup_total_correct _ _ _ Hpfd).
Qed.

Lemma filled_fst pfds choices : (filled pfds choices).*1 = pfds.
Proof.
  apply list_eq. intros i. unfold filled. rewrite list_lookup_fmap, list_lookup_imap. by destruct (pfds !! i).
Qed.

Lemma filled_nil pfds : filled pfds [] = (fun pfd => (pfd, O)) <$> pfds.
Proof. apply list_eq. intros i. unfold filled. rewrite list_lookup_fmap, list_lookup_imap. by destruct (pfds !! i). Qed.

Lemma times_chosen choices i : times choices i <> O <-> i ∈ choices.
Proof.
  unfold times. split.
  - intros Hn. destruct (filter (fun c => c = i) choices) as [|c l] eqn:E; [done|].
    assert (c ∈ filter (fun c => c = i) choices) as [-> Hin]%list_elem_of_filter; [rewrite E; by left|done].
  - intros Hin Hn%nil_length_inv. assert (i ∈ filter (fun c => c = i) choices) as Hf by (by apply list_elem_of_filter).
    rewrite Hn in Hf. by apply elem_of_nil in Hf.
Qed.

(** The lines of the pipes that hold something, the first being the [j]th. *)
Fixpoint readable_lines (j : nat) (held : list (Z * Z * nat)) : list event :=
  match held with
  | [] => []
  | (pfd, n) :: held' => (if decide (n = O) then [] else [Out (readable_line j pfd.1)]) ++ readable_lines (S j) held'
  end.

Lemma show_ready_spec held : forall j p,
  show_ready j (held.*1).*1 ((fun x : Z * Z * nat => if decide (x.2 = O) then 0 else POLLIN) <$> held) p
  = (Ret tt, Proc (kern p) (errno p) (trace p ++ readable_lines j held)).
Proof.
  induction held as [|[pfd n] held IH]; intros j p; [cbn; rewrite app_nil_r; by destruct p|].
  rewrite !fmap_cons. cbn [show_ready readable_lines fst snd]. destruct (decide (n = O)) as [E|E].
  - change (negb (Z.land 0 POLLIN =? 0)) with false. cbv iota. rewrite (bind_Ret _ _ _ tt p) by done. by rewrite IH.
  - change (negb (Z.land POLLIN POLLIN =? 0)) with true. cbv iota. erewrite bind_Ret by reflexivity. rewrite IH. cbn [kern errno trace].
    by rewrite <- app_assoc.
Qed.

(** with working calls, poll_pipes makes as many pipes as it was told to and writes to as many of them as it was told to,
    chosen at random; then [poll] reports, and the program prints, in their order, exactly the pipes that were chosen, each
    once, and their number. *)
Theorem poll_pipes_reports argv np nw p : works (kern p) -> contents (kern p) = [] -> asks_help argv = false ->
  reads_as (default [] (argv !! 1%nat)) (str "num-pipes") np ->
  match argv with [_; _] => nw = 1 | _ :: _ :: w :: _ => reads_as w (str "num-writes") nw | _ => False end -> nw <= PIPE_SIZE ->
  exists choices pfds q, poll_main argv p = (Exit EXIT_SUCCESS, q) /\
    length pfds = Z.to_nat np /\ length choices = Z.to_nat nw /\ Forall (fun c => c < length pfds)%nat choices /\
    trace q = trace p ++ ((fun c => Out (writing_line (pfds !!! c))) <$> choices) ++
      [Out (returned_line (Z.of_nat (length (filter (fun x => x.2 <> O) (filled pfds choices)))))] ++ readable_lines 0 (filled pfds choices).
Proof.
  intros Hw Hnone Hhelp [Hnp Hget] Hargs Hmax.
  destruct (calloc_works np 8 (kern p) Hw) as (k1 & Hk1 & Hw1 & Hc1). destruct (calloc_works np 8 k1 Hw1) as (k2 & Hk2 & Hw2 & Hc2).
  destruct (make_pipes_spec (Z.to_nat np) 0 (Proc k2 0 (trace p)) Hw2) as (pfds & q3 & Hmake & Hlen & Hw3 & He3 & Ht3 & Hc3).
  cbn [kern errno trace] in *. rewrite Hc2, Hc1, Hnone in Hc3. cbn [app] in Hc3.
  assert (0 < nw /\ exists q4, (if bool_decide (2 < length argv)%nat then getInt (argv !! 2%nat) GN_GT_0 (Some (str "num-writes")) else mret 1) q3 = (Ret nw, q4) /\
    kern q4 = kern q3 /\ trace q4 = trace q3) as (Hnw & q4 & Hcount & Hk4 & Ht4).
  { destruct argv as [|a0 [|a1 [|w rest]]]; try done.
    - subst nw. split; [done|]. by exists q3.
    - destruct Hargs as [Hpos Hg]. split; [done|]. rewrite bool_decide_eq_true_2 by (cbn; lia). cbn [lookup list_lookup]. rewrite Hg. by eexists. }
  assert (pfds <> []) as Hne by (intros ->; cbn in Hlen; lia).
  assert (Z.of_nat (length pfds) = np) as Hnp' by lia. rewrite <- Hk4 in Hc3, Hw3. rewrite <- filled_nil in Hc3.
  destruct (write_some_spec (Z.to_nat nw) pfds Hne [] q4 Hw3 Hc3 ltac:(cbn; lia)) as (choices & q5 & Hwrite & Hl5 & Hall & Hw5 & He5 & Hc5 & Ht5).
  rewrite Hnp' in Hwrite. cbn [app] in Hc5.
  assert (exists c, c ∈ choices) as [c Hc] by (destruct choices as [|c l]; [cbn in Hl5; lia|exists c; by left]).
  destruct (poll_works (kern q5) Hw5) as [k6 Hk6].
  { apply Exists_exists. rewrite Hc5. rewrite Forall_forall in Hall. destruct (lookup_lt_is_Some_2 pfds c (Hall c Hc)) as [pfd Hpfd].
    exists (pfd, times choices c). split; [|by apply times_chosen]. apply list_elem_of_lookup. exists c. by apply filled_snoc. }
  rewrite Hc5 in Hk6.
  pose proof (show_ready_spec (filled pfds choices) 0) as Hshow. rewrite filled_fst in Hk6, Hshow.
  eexists choices, pfds, _. split; [|split_and!; [done..|]].
  - unfold poll_main. assert (~ (length argv < 2)%nat) as Hlt2 by (clear -Hargs; destruct argv as [|? [|? ?]]; cbn in *; try done; lia).
    rewrite (bool_decide_eq_false_2 (length argv < 2)%nat Hlt2), Hhelp. cbn [orb].
    erewrite bind_Ret by reflexivity. destruct (argv !! 1%nat) as [a1|] eqn:Ha1; [|by destruct argv as [|? [|? ?]]].
    cbn [default from_option id] in Hget. rewrite (bind_Ret _ _ _ _ _ (Hget p)).
    assert (forall k k' (q : proc K), kern q = k -> k_calloc np 8 k = (inl tt, k') -> calloc np 8 q = (Ret tt, Proc k' (errno q) (trace q))) as Hcalloc.
    { intros k k' q <- Hk. unfold calloc. by erewrite bind_Ret by (unfold syscall; rewrite Hk; reflexivity). }
    rewrite (bind_Ret _ _ _ _ _ (Hcalloc _ _ (Proc (kern p) 0 (trace p)) eq_refl Hk1)). rewrite (bind_Ret _ _ _ _ _ (Hcalloc _ _ (Proc k1 0 (trace p)) eq_refl Hk2)).
    cbn [errno trace]. rewrite (bind_Ret _ _ _ _ _ Hmake), (bind_Ret _ _ _ _ _ Hcount), (bind_Ret _ _ _ _ _ Hwrite).
    erewrite bind_Ret by (unfold syscall; rewrite Hk6; reflexivity). cbv beta iota. erewrite bind_Ret by reflexivity.
    rewrite (bind_Ret _ _ _ _ _ (Hshow _)). unfold exit_. reflexivity.
  - cbn [trace]. rewrite Ht5, Ht4, Ht3. cbn [trace]. by rewrite <- !app_assoc.
Qed.
End PipesCorrect.

(** *** A kernel: the pipes, whose descriptors are given out in order, and the numbers [random] will return *)

Record pipeset := Pipeset { pipes : list (Z * Z * nat); numbers : list nat }.

Definition ends_of (i : nat) : Z * Z := (3 + 2 * Z.of_nat i, 4 + 2 * Z.of_nat i).

#[export] Instance pipeset_io : FileIO pipeset := {
  k_open _ _ _ k := (inr ENOENT, k);
  k_close _ k := (inl 0, k);
  k_read _ _ k := (inl [], k);
  k_write fd data k := (inl (strlen data), Pipeset (alter (fun x => (x.1, x.2 + length data)%nat) (Z.to_nat ((fd - 4) / 2)) (pipes k)) (numbers k));
  k_lseek _ _ _ k := (inr EINVAL, k)
}.

#[export] Instance pipeset_calls : PollCalls pipeset := {
  k_calloc n size k := (inl tt, k);
  k_pipe k := let pfd := ends_of (length (pipes k)) in (inl pfd, Pipeset (pipes k ++ [(pfd, O)]) (numbers k));
  k_random k := match numbers k with r :: l => (Z.of_nat r, Pipeset (pipes k) l) | [] => (0, k) end;
  k_poll fds k := (inl (Z.of_nat (length (filter (fun x => x.2 <> O) (pipes k))), (fun x => if decide (x.2 = O) then 0 else POLLIN) <$> pipes k), k)
}.

#[export] Program Instance pipeset_laws : PollLaws pipeset := {|
  works := fun k => forall i x, pipes k !! i = Some x -> x.1 = ends_of i;
  contents := pipes
|}.
Next Obligation. intros n size k Hw. by exists k. Qed.
Next Obligation.
  intros k Hw. eexists _, _. split; [reflexivity|]. cbn. split; [|done]. intros i x [Hi|[Hi Hx]]%lookup_app_Some; [by apply Hw|].
  apply list_lookup_singleton_Some in Hx as [Hx <-]. cbn. f_equal. lia.
Qed.
Next Obligation. intros k Hw. cbn. destruct (numbers k); eexists _, _; (split; [reflexivity|]); split_and!; done || lia. Qed.
Next Obligation.
  intros i pfd n k Hw Hi _. pose proof (Hw i _ Hi) as Hends. cbn in Hends. subst pfd. eexists. split; [reflexivity|]. cbn [pipes ends_of snd fst length].
  replace (Z.to_nat ((4 + 2 * Z.of_nat i - 4) / 2)) with i by (replace (4 + 2 * Z.of_nat i - 4) with (Z.of_nat i * 2) by lia; rewrite Z.div_mul by done; lia).
  assert (alter (fun x : Z * Z * nat => (x.1, (x.2 + length (str "a"))%nat)) i (pipes k) = <[i := (ends_of i, S n)]> (pipes k)) as Ha.
  { apply list_eq. intros j. destruct (decide (j = i)) as [->|Hne].
    - rewrite list_lookup_alter_eq, Hi, list_lookup_insert_eq by (by eapply lookup_lt_Some). cbn. do 2 f_equal. lia.
    - by rewrite list_lookup_alter_ne, list_lookup_insert_ne by done. }
  rewrite Ha. split; [|done]. intros j x. destruct (decide (j = i)) as [->|Hne].
  - rewrite list_lookup_insert_eq by (by eapply lookup_lt_Some). by intros [= <-].
  - rewrite list_lookup_insert_ne by done. apply Hw.
Qed.
Next Obligation. intros k _ _. by eexists. Qed.

Lemma poll_pipes_reports_witness : exists (choices : list nat) (pfds : list (Z * Z)) q,
  poll_main [str "poll_pipes"; str "3"; str "2"] (Proc (Pipeset [] [5; 2]%nat) 0 []) = (Exit EXIT_SUCCESS, q) /\
  length pfds = 3%nat /\ length choices = 2%nat /\
  trace q = [Out (writing_line (7, 8)); Out (writing_line (7, 8)); Out (returned_line 1); Out (readable_line 2 7)].
Proof.
  destruct (poll_pipes_reports [str "poll_pipes"; str "3"; str "2"] 3 2 (Proc (Pipeset [] [5; 2]%nat) 0 [])) as (choices & pfds & q & Hrun & Hp & Hc & _).
  - by intros [|i] x Hi.
  - reflexivity.
  - reflexivity.
  - split; [done|]. intros q. reflexivity.
  - split; [done|]. intros q. reflexivity.
  - discriminate.
  - exists choices, pfds, q. split; [done|]. split; [done|]. split; [done|]. apply (f_equal (fun x => trace x.2)) in Hrun.
    cbn [snd] in Hrun. rewrite <- Hrun. vm_compute. reflexivity.
Defined.
