(* ===== verification/Hup.v ===== *)
(** * A daemon that opens its log file again on SIGHUP

    daemon_SIGHUP.c (tlpi-dist/daemons).  The handler sets a flag, which main looks at when it is awake.  A
    step is one call of main, or the arrival of a signal, or something others do to the files: the log file
    is moved away, so that a new one is made when it is opened next, or the configuration is written.
    becomeDaemon, modelled in Daemon.v, is one call here.  The mode of a new log file is not modelled. *)

From Stdlib Require Import ZArith Lia String Ascii.
From S2P Require Import Prelude CString Kernel Threads.

Definition SLEEP_TIME : Z := 15.
Definition SBUF_SIZE : nat := 100.

(** What is logged. *)
Inductive message := Opened_log | Closing_log | Read_config (s : bytes) | Main_message (n : Z).

Definition message_text (m : message) : bytes :=
  match m with
  | Opened_log => str "Opened log file"
  | Closing_log => str "Closing log file"
  | Read_config s => str "Read config file: " ++ s
  | Main_message n => str "Main: " ++ dec n
  end.

(** A line of the log; there is no time stamp when localtime or strftime fails. *)
Definition log_line (now : option bytes) (m : message) : bytes :=
  match now with Some t => t | None => str "???Unknown time????" end ++ str ": " ++ message_text m ++ [NL].

Inductive pc :=
| Act | Daemonize
| Opening (first : bool)          (* logOpen, at the start or after logClose *)
| Reading (first : bool)          (* readConfigFile *)
| Sleeping | Testing              (* sleep, and the test of the flag *)
| Closing                         (* logClose *)
| Ticking                         (* if (unslept == 0) ... *)
| Killed | End (o : ending).

(** A line of the log: the file it went to, the time and the message. *)
Definition entry : Type := Z * (option bytes * message).

(** A file is a number; [log_path] is the one that has the name of the log file. *)
Record state := State {
  at_ : pc; hupReceived : bool; unslept : Z; count : Z; logfp : option Z; handling : bool;
  log_path : Z; config : option bytes; log : list entry; slept : Z
}.

(** Main makes a step, its call answered well or not; [now] is the time of day, [rest] what sleep returns. *)
Inductive input := Step (a : answer) (now : option bytes) (rest : Z) | Sighup | Rotate (file : Z) | Configure (c : option bytes).

Definition goto (s : state) (p : pc) : state :=
  State p (hupReceived s) (unslept s) (count s) (logfp s) (handling s) (log_path s) (config s) (log s) (slept s).
Definition with_flag (s : state) (hup : bool) : state :=
  State (at_ s) hup (unslept s) (count s) (logfp s) (handling s) (log_path s) (config s) (log s) (slept s).
Definition with_time (s : state) (rest n t : Z) : state :=
  State (at_ s) (hupReceived s) rest n (logfp s) (handling s) (log_path s) (config s) (log s) t.
Definition with_log (s : state) (f : option Z) (l : list entry) : state :=
  State (at_ s) (hupReceived s) (unslept s) (count s) f (handling s) (log_path s) (config s) l (slept s).

(** To the stream that is open; there has to be one. *)
Definition logMessage (now : option bytes) (m : message) (s : state) : option state :=
  match logfp s with Some f => Some (with_log s (Some f) (log s ++ [(f, (now, m))])) | None => None end.

(** The line [fgets] takes from the file, without its last character; nothing when that would be the one before the array. *)
Definition first_line (c : bytes) : option bytes :=
  match c with
  | [] => Some []
  | _ =>
      let line := take (SBUF_SIZE - 1) (match index_of NL c with Some i => take (S i) c | None => c end) in
      match (match index_of NUL line with Some i => take i line | None => line end) with
      | [] => None
      | s => Some (take (length s - 1) s)
      end
  end.

Definition logOpen (now : option bytes) (s : state) : option state := logMessage now Opened_log (with_log s (Some (log_path s)) (log s)).
Definition logClose (now : option bytes) (s : state) : option state := s' ← logMessage now Closing_log s; Some (with_log s' None (log s')).

(** A file that cannot be opened is ignored; one that cannot be read ([Spurious]) is like one with no lines. *)
Definition readConfigFile (a : answer) (now : option bytes) (s : state) : option state :=
  match config s, a with
  | None, _ | _, Fails _ => Some s
  | Some c, Fine => l ← first_line c; logMessage now (Read_config l) s
  | Some _, Spurious => logMessage now (Read_config []) s
  end.

(** On to [p]; nothing is undefined behaviour. *)
Definition on_to (s : state) (r : option state) (p : pc) : option state :=
  Some (match r with Some s' => goto s' p | None => goto s (End Undefined) end).

Definition main_step (a : answer) (now : option bytes) (rest : Z) (s : state) : option state :=
  match at_ s with
  | Act =>
      match a with
      | Fails e => Some (goto s (End (Failed e "sigaction")))
      | _ => Some (State Daemonize (hupReceived s) (unslept s) (count s) (logfp s) true (log_path s) (config s) (log s) (slept s))
      end
  | Daemonize => match a with Fails e => Some (goto s (End (Failed e "becomeDaemon"))) | _ => Some (goto s (Opening true)) end
  | Opening first =>
      match a with
      | Fails _ => Some (goto s (End (Exited EXIT_FAILURE)))
      | _ => on_to s (logOpen now s) (Reading first)
      end
  | Reading first =>
      let r := readConfigFile a now s in
      if first then on_to s (s' ← r; Some (with_time s' SLEEP_TIME (count s') (slept s'))) Sleeping else on_to s r Ticking
  | Sleeping =>
      if (0 <=? rest) && (rest <=? unslept s)
      then Some (goto (with_time s rest (count s) (slept s + (unslept s - rest))) Testing) else None
  | Testing => if hupReceived s then Some (goto (with_flag s false) Closing) else Some (goto s Ticking)
  | Closing => on_to s (logClose now s) (Opening false)
  | Ticking =>
      if unslept s =? 0 then
        on_to s (if count s =? INT_MAX then None
                 else s' ← logMessage now (Main_message (count s + 1)) s; Some (with_time s' SLEEP_TIME (count s + 1) (slept s))) Sleeping
      else Some (goto s Sleeping)
  | Killed | End _ => None
  end.

Definition is_end (s : state) : bool := match at_ s with Killed | End _ => true | _ => false end.

Definition sighupHandler (s : state) : state := with_flag s true.

(** Before there is a handler the signal kills. *)
Definition do_input (i : input) (s : state) : option state :=
  match i with
  | Step a now rest => main_step a now rest s
  | Sighup => Some (if is_end s then s else if handling s then sighupHandler s else goto s Killed)
  | Rotate f => Some (State (at_ s) (hupReceived s) (unslept s) (count s) (logfp s) (handling s) f (config s) (log s) (slept s))
  | Configure c => Some (State (at_ s) (hupReceived s) (unslept s) (count s) (logfp s) (handling s) (log_path s) c (log s) (slept s))
  end.

Fixpoint run (l : list input) (s : state) : option state :=
  match l with [] => Some s | i :: l' => match do_input i s with Some s' => run l' s' | None => None end end.

(** The file that has the name at first, and the configuration. *)
Definition start_state (file : Z) (c : option bytes) : state := State Act false 0 0 None false file c [] 0.

(** ** What holds all the time *)

(** The numbers of the main messages. *)
Definition numbers (l : list entry) : list Z := omap (fun e => match e.2.2 with Main_message n => Some n | _ => None end) l.

Lemma numbers_snoc l e : numbers (l ++ [e]) = numbers l ++ match e.2.2 with Main_message n => [n] | _ => [] end.
Proof. unfold numbers. rewrite omap_app. cbn. by destruct (e.2.2). Qed.

#[local] Arguments numbers : simpl never.

Definition starting (p : pc) : bool := match p with Act | Daemonize | Opening true | Reading true => true | _ => false end.

Record inv (s : state) : Prop := {
  inv_open : match at_ s with Reading _ | Sleeping | Testing | Closing | Ticking => exists f, logfp s = Some f | _ => True end;
  inv_handling : match at_ s with Act | Killed | End _ => True | _ => handling s = true end;
  inv_count : numbers (log s) = seqZ 1 (count s) /\ 0 <= count s;
  inv_slept : if starting (at_ s) then count s = 0 /\ slept s = 0
              else if is_end s then SLEEP_TIME * count s <= slept s
              else 0 <= unslept s <= SLEEP_TIME /\ slept s = SLEEP_TIME * count s + (SLEEP_TIME - unslept s)
}.

Lemma numbers_next l n : numbers l = seqZ 1 n -> 0 <= n -> numbers l ++ [n + 1] = seqZ 1 (n + 1).
Proof. intros -> Hn. rewrite seqZ_app by lia. f_equal. unfold seqZ. simpl. f_equal. lia. Qed.

Lemma hup_inv_step i s s' : inv s -> do_input i s = Some s' -> inv s'.
Proof.
  intros [Ho Hh [Hn Hc] Hs] Hi. destruct s as [p hup un cnt fp hd path cfg lg sl]. cbn [at_ logfp handling log count unslept slept config is_end] in *.
  unfold is_end in Hs. cbn [at_] in Hs.
  destruct i as [a now rest| |f|c]; cbn [do_input] in Hi; [|unfold is_end in Hi; cbn [at_ handling] in Hi|injection Hi as <-; by split..].
  2: { destruct p; try (injection Hi as <-; by split); destruct hd; try done; injection Hi as <-; split; cbn; try done; unfold SLEEP_TIME in *; cbn in Hs; try lia; destruct first; cbn in *; lia. }
  unfold main_step in Hi. cbn [at_] in Hi. destruct p as [| |first|first| | | | | |o]; cbn [starting] in Hs; [| | | | | | | |done|done].
  - destruct a; injection Hi as <-; split; cbn; try done; unfold SLEEP_TIME; lia.
  - destruct a; injection Hi as <-; split; cbn; try done; unfold SLEEP_TIME; lia.
  - destruct a; unfold on_to, logOpen, logMessage in Hi; cbn in Hi; injection Hi as <-; split; cbn; rewrite ?numbers_snoc; cbn; rewrite ?app_nil_r; try done; eauto;
      destruct first; cbn in *; unfold SLEEP_TIME in *; lia.
  - destruct Ho as [f ->]. assert (exists r, readConfigFile a now (State (Reading first) hup un cnt (Some f) hd path cfg lg sl) = r /\
      match r with None => True | Some s' => exists e, s' = State (Reading first) hup un cnt (Some f) hd path cfg (lg ++ e) sl /\ numbers (lg ++ e) = numbers lg end) as (r & Hr & Hr').
    { eexists. split; [reflexivity|]. unfold readConfigFile. cbn [config]. destruct cfg as [c|]; [|exists []; by rewrite app_nil_r].
      destruct a; [|exists []; by rewrite app_nil_r|]; destruct (first_line c) as [l|]; cbn; try done; eexists; (split; [reflexivity|]); by rewrite numbers_snoc, app_nil_r. }
    rewrite Hr in Hi. destruct r as [s1|].
    + destruct Hr' as (e & -> & Hne). destruct first; injection Hi as <-; split; cbn; rewrite ?Hne; try done; eauto; cbn in Hs; unfold SLEEP_TIME in *; lia.
    + destruct first; injection Hi as <-; split; cbn; try done; cbn in Hs; unfold SLEEP_TIME in *; lia.
  - unfold is_end in Hs. cbn in Hs. cbn [unslept] in Hi. destruct ((0 <=? rest) && (rest <=? un)) eqn:Hl; [|done]. injection Hi as <-. z_bool. split; cbn; try done. unfold is_end. cbn. lia.
  - destruct hup; injection Hi as <-; by split.
  - destruct Ho as [f ->]. unfold on_to, logClose, logMessage in Hi. cbn in Hi. injection Hi as <-. split; cbn; rewrite ?numbers_snoc; cbn; rewrite ?app_nil_r; done.
  - destruct Ho as [f ->]. cbn [unslept count] in Hi. destruct (un =? 0) eqn:Eu; z_bool; [|injection Hi as <-; split; cbn; eauto]. unfold on_to, logMessage in Hi. cbn in Hi.
    destruct (cnt =? INT_MAX); cbn in Hi; injection Hi as <-; split; cbn; try done; unfold is_end in *; cbn in *; unfold SLEEP_TIME in *; eauto; try lia.
    rewrite numbers_snoc. cbn. split; [by apply numbers_next|lia].
Qed.

(** ** The log file is opened again *)

Definition opens (e : entry) : bool := match e.2.2 with Opened_log => true | _ => false end.

(** The main messages before the log is opened again. *)
Fixpoint mains (l : list entry) : nat :=
  match l with
  | [] => 0
  | e :: l' => match e.2.2 with Opened_log => 0 | Main_message _ => S (mains l') | _ => mains l' end
  end.

(** How many of them there can be before it is, where it is sure to be. *)
Definition due (s : state) : option nat :=
  match at_ s with
  | Daemonize | Opening _ | Closing | Killed | End _ => Some 0%nat
  | Reading _ | Ticking => if hupReceived s then Some 1%nat else None
  | Sleeping | Testing => if hupReceived s then Some 0%nat else None
  | Act => None
  end.

(** And how many calls of main. *)
Definition calls (s : state) : nat :=
  match at_ s with Act => 3 | Daemonize => 2 | Opening _ => 1 | Closing => 2 | Testing => 3 | Sleeping => 4 | Ticking => 5 | Reading _ => 6 | Killed | End _ => 0 end.

Definition is_step (i : input) : bool := match i with Step _ _ _ => true | _ => false end.
Definition is_rotate (i : input) : bool := match i with Rotate _ => true | _ => false end.
Definition steps (l : list input) : nat := length (filter (fun i => is_step i = true) l).

(** What an input does where the log is sure to be opened: it is, or the end is nearer. *)
Definition nearer (i : input) (s s' : state) (n1 : list entry) : Prop :=
  forall k, due s = Some k ->
    (exists t, n1 = [(log_path s, (t, Opened_log))] /\ logfp s' = Some (log_path s) /\ log_path s' = log_path s) \/
    (Forall (fun e => opens e = false) n1 /\ exists k', due s' = Some k' /\ (k' + mains n1 <= k)%nat /\
       (is_end s' = true \/ (calls s' + (if is_step i then 1 else 0) <= calls s)%nat)).

Lemma nearer_silent i s s' :
  (forall k, due s = Some k -> exists k', due s' = Some k' /\ (k' <= k)%nat /\
     (is_end s' = true \/ (calls s' + (if is_step i then 1 else 0) <= calls s)%nat)) ->
  log s' = log s -> exists n1, log s' = log s ++ n1 /\ nearer i s s' n1.
Proof.
  intros Hd Hl. exists []. rewrite app_nil_r. split; [done|]. intros k Hk. right. split; [constructor|].
  destruct (Hd k Hk) as (k' & H1 & H2 & H3). exists k'. rewrite Nat.add_0_r. by split_and!.
Qed.

Lemma do_input_cases i s s' : inv s -> do_input i s = Some s' -> exists n1, log s' = log s ++ n1 /\ nearer i s s' n1.
Proof.
  intros [Ho Hh _ _] Hi. destruct s as [p hup un cnt fp hd path cfg lg sl]. cbn [at_ logfp handling] in Ho, Hh.
  destruct i as [a now rest| |f|c]; cbn [do_input] in Hi.
  - unfold main_step in Hi. cbn [at_] in Hi.
    destruct p as [| |first|first| | | | | |o]; [| | | | | | | |done|done].
    + apply nearer_silent; try done; destruct a; injection Hi as <-; done.
    + apply nearer_silent; try done; destruct a; injection Hi as <-; try done; intros k [= <-]; exists 0%nat; (split_and!; [done|done|]); [right|left|right]; done || cbn; lia.
    + destruct a; unfold on_to, logOpen, logMessage in Hi; cbn in Hi; injection Hi as <-.
      * eexists. split; [reflexivity|]. intros k _. left. exists now. by split_and!.
      * apply nearer_silent; try done. intros k [= <-]. exists 0%nat. split_and!; [done|done|by left].
      * eexists. split; [reflexivity|]. intros k _. left. exists now. by split_and!.
    + destruct Ho as [f ->].
      assert (exists r, readConfigFile a now (State (Reading first) hup un cnt (Some f) hd path cfg lg sl) = r /\
        match r with None => True | Some s1 => exists e, s1 = State (Reading first) hup un cnt (Some f) hd path cfg (lg ++ e) sl /\ Forall (fun e => opens e = false) e /\ mains e = 0%nat end) as (r & Hr & Hr').
      { eexists. split; [reflexivity|]. unfold readConfigFile. cbn [config]. destruct cfg as [c|]; [|exists []; rewrite app_nil_r; by split_and!].
        destruct a; [|exists []; rewrite app_nil_r; by split_and!|]; destruct (first_line c) as [l|]; cbn; try done; eexists; (split; [reflexivity|]); (split; [by repeat constructor|done]). }
      rewrite Hr in Hi. destruct r as [s1|].
      * destruct Hr' as (e & -> & Hop & Hm). assert (exists p', s' = State p' hup (if first then SLEEP_TIME else un) cnt (Some f) hd path cfg (lg ++ e) sl /\ p' = if first then Sleeping else Ticking) as (p' & -> & Hp').
        { destruct first; injection Hi as <-; by eexists. }
        exists e. split; [done|]. intros k Hk. right. split; [done|]. rewrite Hm. cbn in Hk |- *. destruct hup; [|done]. injection Hk as <-.
        destruct first; subst p'; (eexists; split_and!; [reflexivity|lia|right; cbn; lia]).
      * apply nearer_silent; try done; destruct first; injection Hi as <-; try done; intros k _; exists 0%nat; (split_and!; [done|lia|by left]).
    + cbn [unslept] in Hi. destruct ((0 <=? rest) && (rest <=? un)); [|done]. injection Hi as <-. apply nearer_silent; try done.
      intros k Hk. cbn in Hk |- *. destruct hup; [|done]. injection Hk as <-. exists 0%nat. split_and!; [done|lia|right; cbn; lia].
    + apply nearer_silent; try done; cbn [hupReceived] in Hi; destruct hup; injection Hi as <-; try done;
        intros k Hk; cbn in Hk |- *; try done; exists 0%nat; (split_and!; [done|lia|right; cbn; lia]).
    + destruct Ho as [f ->]. unfold on_to, logClose, logMessage in Hi. cbn in Hi. injection Hi as <-. eexists. split; [reflexivity|].
      intros k _. right. split; [by repeat constructor|]. exists 0%nat. cbn. split_and!; [done|lia|right; lia].
    + destruct Ho as [f ->]. cbn [unslept count] in Hi. destruct (un =? 0); [|injection Hi as <-; apply nearer_silent; try done].
      * unfold on_to, logMessage in Hi. cbn in Hi. destruct (cnt =? INT_MAX); cbn in Hi; injection Hi as <-.
        -- apply nearer_silent; try done. intros k _. exists 0%nat. split_and!; [done|lia|by left].
        -- eexists. split; [reflexivity|]. intros k Hk. right. split; [by repeat constructor|]. cbn in Hk |- *.
           destruct hup; [|done]. injection Hk as <-. exists 0%nat. split_and!; [done|lia|right; lia].
      * intros k Hk. cbn in Hk |- *. destruct hup; [|done]. injection Hk as <-. exists 0%nat. split_and!; [done|lia|right; cbn; lia].
  - apply nearer_silent; try done; destruct p; cbn in Hi; try destruct hd; try done; injection Hi as <-; try done;
      intros k Hk; cbn in Hk |- *; try (exists 0%nat; split_and!; [done|lia|by left]); try (injection Hk as <-; exists 0%nat; split_and!; [done|lia|right; lia]);
      destruct hup; try done; injection Hk as <-; eexists; (split_and!; [reflexivity|lia|right; lia]).
  - injection Hi as <-. apply nearer_silent; try done. intros k Hk. exists k. split_and!; [done|lia|right; unfold calls; cbn [at_ is_step]; lia].
  - injection Hi as <-. apply nearer_silent; try done. intros k Hk. exists k. split_and!; [done|lia|right; unfold calls; cbn [at_ is_step]; lia].
Qed.

Lemma mains_app n1 l : Forall (fun e => opens e = false) n1 -> mains (n1 ++ l) = (mains n1 + mains l)%nat.
Proof. induction 1 as [|e n1 He _ IH]; [done|]. unfold opens in He. cbn. rewrite IH. by destruct (e.2.2). Qed.

Lemma hup_inv_run l : forall s s2, inv s -> run l s = Some s2 -> inv s2.
Proof.
  induction l as [|i l IH]; intros s s2 Hs Hr; cbn in Hr; [by injection Hr as <-|].
  destruct (do_input i s) as [s'|] eqn:Hi; [|done]. eapply IH; [|done]. by eapply hup_inv_step.
Qed.

Lemma run_grows l : forall s s2, inv s -> run l s = Some s2 -> exists new, log s2 = log s ++ new.
Proof.
  induction l as [|i l IH]; intros s s2 Hs Hr; cbn in Hr; [injection Hr as <-; exists []; by rewrite app_nil_r|].
  destruct (do_input i s) as [s'|] eqn:Hi; [|done]. destruct (do_input_cases i s s' Hs Hi) as (n1 & Hl & _).
  destruct (IH _ _ (hup_inv_step _ _ _ Hs Hi) Hr) as [n2 Hl2]. exists (n1 ++ n2). by rewrite Hl2, Hl, app_assoc.
Qed.

Lemma run_opens l : forall s s2 k, inv s -> run l s = Some s2 -> due s = Some k ->
  exists new, log s2 = log s ++ new /\ (mains new <= k)%nat /\
    (existsb opens new = true \/ is_end s2 = true \/ (calls s2 + steps l <= calls s)%nat).
Proof.
  induction l as [|i l IH]; intros s s2 k Hs Hr Hk; cbn in Hr.
  { injection Hr as <-. exists []. rewrite app_nil_r. split_and!; [done|cbn; lia|right; right; unfold steps; cbn; lia]. }
  destruct (do_input i s) as [s'|] eqn:Hi; [|done]. pose proof (hup_inv_step _ _ _ Hs Hi) as Hs'.
  destruct (do_input_cases i s s' Hs Hi) as (n1 & Hl & Hd).
  destruct (Hd k Hk) as [(t & -> & _)|(Hn1 & k' & Hk' & Hle & Hc)].
  { destruct (run_grows l s' s2 Hs' Hr) as [n2 Hl2]. exists ([(log_path s, (t, Opened_log))] ++ n2). rewrite Hl2, Hl, app_assoc.
    split_and!; [done|cbn; lia|by left]. }
  destruct (IH s' s2 k' Hs' Hr Hk') as (n2 & Hl2 & Hm & Hend). exists (n1 ++ n2). rewrite Hl2, Hl, app_assoc, mains_app by done.
  split_and!; [done|lia|]. rewrite existsb_app.
  destruct Hend as [->|[Hend|Hcs]]; [left; by rewrite orb_true_r|by right; left|].
  right. destruct Hc as [Hc|Hc]; [left|right].
  - clear -Hc Hr. revert s' s2 Hc Hr. induction l as [|i l IH]; intros s' s2 Hc Hr; cbn in Hr; [by injection Hr as <-|].
    destruct i as [a now rest| |f|c]; cbn in Hr; rewrite ?Hc in Hr; try (eapply IH; [|exact Hr]; done).
    exfalso. unfold is_end in Hc. unfold main_step in Hr. by destruct (at_ s').
  - unfold steps in *. rewrite filter_cons. destruct (decide (is_step i = true)) as [Hi'|Hi'].
    + rewrite Hi' in Hc. cbn. lia.
    + apply not_true_is_false in Hi'. rewrite Hi' in Hc. lia.
Qed.

(** Where the stream is the one that has the name, or there is none, the next lines go there. *)
Definition to_path (s : state) : Prop := logfp s = None \/ logfp s = Some (log_path s).

(** More lines for the file that has the name. *)
Definition follows (s s' : state) : Prop :=
  to_path s' /\ log_path s' = log_path s /\ exists n1, log s' = log s ++ n1 /\ Forall (fun e => e.1 = log_path s) n1.

Lemma do_input_to_path i s s' : to_path s -> is_rotate i = false -> do_input i s = Some s' ->
  follows s s'.
Proof.
  assert (forall s s', to_path s -> log_path s' = log_path s -> logfp s' = logfp s -> log s' = log s ->
    follows s s') as Hsame.
  { intros s0 s1 Hs Hp Hf Hl. unfold follows, to_path. rewrite Hp, Hf, Hl. split_and!; [done..|]. exists []. by rewrite app_nil_r. }
  assert (forall now m s s', to_path s -> logMessage now m s = Some s' -> logfp s' = Some (log_path s) /\ log_path s' = log_path s /\ log s' = log s ++ [(log_path s, (now, m))]) as Hmsg.
  { intros now m s0 s1 Hs Hm. unfold logMessage in Hm. destruct (logfp s0) as [f|] eqn:Hf; [|done]. injection Hm as <-. cbn.
    destruct Hs as [Hs|Hs]; [congruence|]. by rewrite Hf in Hs; injection Hs as ->. }
  intros Hs Hrot Hi. destruct i as [a now rest| |f|c]; cbn [do_input] in Hi; [|injection Hi as <-; apply Hsame; try done; destruct (is_end s), (handling s); done|done|injection Hi as <-; by apply Hsame].
  assert (forall r p, on_to s r p = Some s' -> (forall s1, r = Some s1 -> follows s s1) ->
    follows s s') as Hon.
  { intros r p Ho Hr. unfold on_to in Ho. injection Ho as <-. destruct r as [s1|]; [exact (Hr s1 eq_refl)|by apply Hsame]. }
  assert (forall m s1, logMessage now m s = Some s1 -> follows s s1) as Hone.
  { intros m s1 Hm. destruct (Hmsg now m s s1 Hs Hm) as (H1 & H2 & H3). split_and!; [right; congruence|done|]. eexists. split; [done|]. by constructor. }
  assert (forall s1, readConfigFile a now s = Some s1 -> follows s s1) as Hconf.
  { intros s1 Hm. unfold readConfigFile in Hm. destruct (config s) as [c|]; [|injection Hm as <-; by apply Hsame].
    destruct a; try (injection Hm as <-; by apply Hsame); destruct (first_line c) as [l|]; try done; by eapply Hone. }
  unfold main_step in Hi. destruct (at_ s) as [| |first|first| | | | | |o].
  - destruct a; injection Hi as <-; by apply Hsame.
  - destruct a; injection Hi as <-; by apply Hsame.
  - assert (forall s1, logOpen now s = Some s1 -> follows s s1) as Hopen.
    { intros s1 Hm. destruct (Hmsg now _ (with_log s (Some (log_path s)) (log s)) s1 ltac:(by right) Hm) as (H1 & H2 & H3). cbn in H1, H2, H3. split_and!; [right; congruence|done|]. eexists. split; [done|]. by constructor. }
    destruct a; [|injection Hi as <-; by apply Hsame|]; eapply Hon; eauto.
  - destruct first; [|by eapply Hon; eauto]. eapply Hon; [exact Hi|]. intros s1 Hr.
    destruct (readConfigFile a now s) as [s0|] eqn:Hc; [|done]. injection Hr as <-. by destruct (Hconf s0 eq_refl) as (H1 & H2 & H3).
  - destruct ((0 <=? rest) && (rest <=? unslept s)); [|done]. injection Hi as <-. by apply Hsame.
  - destruct (hupReceived s); injection Hi as <-; by apply Hsame.
  - eapply Hon; [exact Hi|]. intros s1 Hr. unfold logClose in Hr. destruct (logMessage now Closing_log s) as [s0|] eqn:Hm; [|done]. injection Hr as <-.
    destruct (Hone _ _ Hm) as (H1 & H2 & H3). split_and!; [by left|done|done].
  - destruct (unslept s =? 0); [|injection Hi as <-; by apply Hsame]. eapply Hon; [exact Hi|]. intros s1 Hr. destruct (count s =? INT_MAX); [done|].
    destruct (logMessage now (Main_message (count s + 1)) s) as [s0|] eqn:Hm; [|done]. injection Hr as <-. by destruct (Hone _ _ Hm) as (H1 & H2 & H3).
  - done.
  - done.
Qed.

(** From the first line on that says that the log is opened. *)
Fixpoint reopened (l : list entry) : list entry :=
  match l with [] => [] | e :: l' => if opens e then l else reopened l' end.

Lemma do_input_path i s s' : is_rotate i = false -> do_input i s = Some s' -> log_path s' = log_path s.
Proof.
  intros Hrot Hi. destruct s as [p hup un cnt fp hd path cfg lg sl]. destruct i as [a now rest| |f|c]; cbn [do_input] in Hi; [| |done|by injection Hi as <-].
  2: { destruct (is_end _); cbn [handling] in Hi; [|destruct hd]; by injection Hi as <-. }
  unfold main_step, on_to, logOpen, logClose, readConfigFile, logMessage in Hi. cbn in Hi. repeat (case_match; simplify_eq/=); try done.
  all: match goal with H : context [first_line ?l] |- _ => destruct (first_line l); by simplify_eq/= end.
Qed.

Lemma run_follows l : forall s s2, to_path s -> existsb is_rotate l = false -> run l s = Some s2 ->
  exists new, log s2 = log s ++ new /\ Forall (fun e => e.1 = log_path s) new.
Proof.
  induction l as [|i l IH]; intros s s2 Hs Hrot Hr; cbn in Hr, Hrot; [injection Hr as <-; exists []; by rewrite app_nil_r|].
  destruct (do_input i s) as [s'|] eqn:Hi; [|done]. apply orb_false_elim in Hrot as [Hri Hrl].
  destruct (do_input_to_path i s s' Hs Hri Hi) as (Hs' & Hp & n1 & Hl & Hn). destruct (IH s' s2 Hs' Hrl Hr) as (n2 & Hl2 & Hn2).
  exists (n1 ++ n2). rewrite Hl2, Hl, app_assoc. split; [done|]. apply Forall_app. by rewrite Hp in Hn2.
Qed.

Lemma run_reopened l : forall s s2 k, inv s -> existsb is_rotate l = false -> run l s = Some s2 -> due s = Some k ->
  exists new, log s2 = log s ++ new /\ Forall (fun e => e.1 = log_path s) (reopened new).
Proof.
  induction l as [|i l IH]; intros s s2 k Hs Hrot Hr Hd; cbn in Hr, Hrot; [injection Hr as <-; exists []; by rewrite app_nil_r|].
  destruct (do_input i s) as [s'|] eqn:Hi; [|done]. apply orb_false_elim in Hrot as [Hri Hrl]. pose proof (hup_inv_step _ _ _ Hs Hi) as Hs'.
  destruct (do_input_cases i s s' Hs Hi) as (n1 & Hl & Hd'). destruct (Hd' k Hd) as [(t & -> & Hf & Hp)|(Hn1 & k' & Hk' & _)].
  - destruct (run_follows l s' s2 ltac:(right; congruence) Hrl Hr) as (n2 & Hl2 & Hn2). eexists. rewrite Hl2, Hl, <- app_assoc. split; [reflexivity|].
    cbn. constructor; [done|]. by rewrite <- Hp.
  - destruct (IH s' s2 k' Hs' Hrl Hr Hk') as (n2 & Hl2 & Hn2). exists (n1 ++ n2). rewrite Hl2, Hl, app_assoc. split; [done|].
    rewrite (do_input_path i s s' Hri Hi) in Hn2. clear -Hn1 Hn2. induction Hn1 as [|e n1 He _ IH]; [done|]. cbn. by rewrite He.
Qed.

(** ** What the program does *)

Lemma start_inv file c : inv (start_state file c).
Proof. by split. Qed.

Lemma sighup_due s : inv s -> at_ s <> Act -> exists k, do_input Sighup s = Some (if is_end s then s else sighupHandler s) /\
  due (if is_end s then s else sighupHandler s) = Some k /\ (k <= 1)%nat /\ (calls (if is_end s then s else sighupHandler s) <= 6)%nat.
Proof.
  intros [_ Hh _ _] Ha. unfold do_input, is_end. destruct s as [p hup un cnt fp hd path cfg lg sl]. cbn [at_ handling] in *.
  destruct p; try done; rewrite ?Hh; cbn; (eexists; split_and!; [reflexivity..|lia|lia]).
Qed.

(** C22: once there is a handler, a SIGHUP at any time makes the daemon open its log again, whatever the signals and the files do: at
    most one main message is logged before that, and it is done when main has made six calls, unless the program has ended, as it does
    when the log cannot be opened or a line of the configuration begins with a NUL.  If the log is not moved away meanwhile, all lines
    from then on are in the file that has the name, and not in the one that was moved away before the signal. *)
Theorem daemon_SIGHUP_reopens file c l1 l2 s s2 :
  run l1 (start_state file c) = Some s -> at_ s <> Act -> run (Sighup :: l2) s = Some s2 ->
  exists new, log s2 = log s ++ new /\ (mains new <= 1)%nat /\
    ((6 <= steps l2)%nat -> existsb opens new = true \/ is_end s2 = true) /\
    (existsb is_rotate l2 = false -> Forall (fun e => e.1 = log_path s) (reopened new)).
Proof.
  intros H1 Ha H2. pose proof (hup_inv_run _ _ _ (start_inv file c) H1) as Hs. destruct (sighup_due s Hs Ha) as (k & Hi & Hk & Hk1 & Hc).
  cbn [run] in H2. rewrite Hi in H2. pose proof (hup_inv_step _ _ _ Hs Hi) as Hs'. remember (if is_end s then s else sighupHandler s) as s' eqn:Es.
  assert (log s' = log s /\ log_path s' = log_path s) as [Hl Hp] by (subst s'; by destruct (is_end s)).
  destruct (run_opens l2 s' s2 k Hs' H2 Hk) as (new & Hl2 & Hm & Hend). exists new. rewrite <- Hl, <- Hp. split_and!; [done|lia| |].
  - intros Hst. destruct Hend as [Hend|[Hend|Hend]]; [by left|by right|right]. unfold calls in Hend at 1. unfold is_end. destruct (at_ s2); done || lia.
  - intros Hrot. destruct (run_reopened l2 s' s2 k Hs' Hrot H2 Hk) as (new' & Hl2' & Hf). rewrite Hl2 in Hl2'. by apply app_inv_head in Hl2' as <-.
Qed.

(** signals do not disturb the messages: they are numbered from 1 with none left out or repeated, and the daemon has slept fifteen
    seconds for each and as much of the next interval as is over, however often a sleep was cut short. *)
Theorem daemon_SIGHUP_counts file c l s : run l (start_state file c) = Some s -> is_end s = false ->
  numbers (log s) = seqZ 1 (count s) /\
  (if starting (at_ s) then slept s = 0 else slept s = SLEEP_TIME * count s + (SLEEP_TIME - unslept s) /\ 0 <= unslept s <= SLEEP_TIME) /\
  (forall a now rest, 0 <= rest <= unslept s -> exists s', do_input (Step a now rest) s = Some s').
Proof.
  intros H1 He. destruct (hup_inv_run _ _ _ (start_inv file c) H1) as [_ _ [Hn _] Hs]. rewrite He in Hs. split_and!; [done|destruct (starting (at_ s)); [apply Hs|by destruct Hs]|].
  intros a now rest Hr. cbn [do_input]. unfold main_step, on_to. unfold is_end in He. destruct (at_ s) as [| |first|first| | | | | |o]; [destruct a|destruct a|destruct a|destruct first|..|done|done]; try by eexists.
  - destruct (_ && _) eqn:E; [by eexists|z_bool; lia].
  - destruct (hupReceived s); by eexists.
  - destruct (unslept s =? 0); by eexists.
Qed.

(** A daemon that gets the signal while it sleeps, and whose log was moved away just before: messages 1 and 2 are on the two sides. *)
Definition hup_fine (rest : Z) : input := Step Fine None rest.
Definition hup_before : list input := replicate 4 (hup_fine 0) ++ [hup_fine 0; hup_fine 0; hup_fine 0; Rotate 8].
Definition hup_after : list input := [hup_fine 7; hup_fine 0; hup_fine 0; hup_fine 0; hup_fine 0; hup_fine 0; hup_fine 0; hup_fine 0; hup_fine 0].

Definition hup_config : option bytes := Some (str "verbose" ++ [NL]).
Definition hup_asleep : state := default (start_state 3 hup_config) (run hup_before (start_state 3 hup_config)).
Definition hup_woken : state := default hup_asleep (run (Sighup :: hup_after) hup_asleep).

Lemma daemon_SIGHUP_reopens_witness :
  exists new, log hup_woken = log hup_asleep ++ new /\ (mains new <= 1)%nat /\ (existsb opens new = true \/ is_end hup_woken = true) /\
    Forall (fun e => e.1 = log_path hup_asleep) (reopened new).
Proof.
  destruct (daemon_SIGHUP_reopens 3 hup_config hup_before hup_after hup_asleep hup_woken) as (new & Hl & Hm & Ho & Hf);
    [vm_compute; reflexivity|vm_compute; discriminate|vm_compute; reflexivity|].
  exists new. split; [exact Hl|]. split; [exact Hm|]. split; [apply Ho; vm_compute; lia|apply Hf; vm_compute; reflexivity].
Defined.

Lemma daemon_SIGHUP_counts_witness : numbers (log hup_woken) = seqZ 1 (count hup_woken) /\ slept hup_woken = 30.
Proof.
  destruct (daemon_SIGHUP_counts 3 hup_config (hup_before ++ Sighup :: hup_after) hup_woken) as (Hn & Hs & _); [vm_compute; reflexivity..|].
  split; [exact Hn|]. destruct Hs as [Hs _]. exact Hs.
Defined.

Example hup_log : map (fun e => (e.1, log_line e.2.1 e.2.2)) (log hup_woken) =
  map (fun e => (e.1, str "???Unknown time????: " ++ str e.2 ++ [NL]))
    [(3, "Opened log file"%string); (3, "Read config file: verbose"%string); (3, "Main: 1"%string); (3, "Closing log file"%string);
     (8, "Opened log file"%string); (8, "Read config file: verbose"%string); (8, "Main: 2"%string)].
Proof. vm_compute. reflexivity. Qed.

(** Without a newline at its end the last character of the line is lost, and the program writes before the array when it starts with a NUL. *)
Example first_line_unfinished : first_line (str "on") = Some (str "o") /\ first_line (NUL :: str "on") = None /\ first_line [] = Some [].
Proof. vm_compute. split_and!; reflexivity. Qed.
