(* ===== verification/Select.v ===== *)
(** * select

    t_select.c (tlpi-dist/altio), which waits for the descriptors that its arguments name; the sets of
    descriptors are used by SelfPipe.v too. *)

From Stdlib Require Import ZArith Lia String Ascii.
From S2P Require Import Prelude CString Kernel GetNum ErrorFns Seqnum.
From S2P Require Threads.
Import Threads (zsum).

Definition FD_SETSIZE : Z := 1024.
Abbreviation fd_set := (gset Z).

(** Outside of the array it is undefined. *)
Definition FD_SET (fd : Z) (set : fd_set) : option fd_set :=
  if (0 <=? fd) && (fd <? FD_SETSIZE) then Some ({[fd]} ∪ set) else None.
Definition FD_ISSET (fd : Z) (set : fd_set) : bool := bool_decide (fd ∈ set).

(** A time: seconds and microseconds; select leaves in it what remains. *)
Definition timeval : Type := Z * Z.

Definition pad3 (s : bytes) : bytes := replicate (3 - length s) "0"%char ++ s.
Definition timeout_line (t : timeval) : bytes :=
  str "timeout after select(): " ++ dec t.1 ++ str "." ++ pad3 (dec (t.2 `quot` 10000)) ++ [NL].
Definition ready_line (ready : Z) : bytes := str "ready = " ++ dec ready ++ [NL].

(** What select reports: how many descriptors, those to read and to write, and the time that remains. *)
Record selected := Selected { ready : Z; readable : fd_set; writable : fd_set; remaining : timeval }.

Class SelectCalls (K : Type) := {
  k_select : Z -> fd_set -> fd_set -> option timeval -> K -> (selected + Z) * K
}.

Section Program.
Context `{!Messages} {K : Type} `{!SelectCalls K}.

Definition usageError {A} (progName : bytes) : M (proc K) A :=
  eprintf (str "Usage: " ++ progName ++ str " {timeout|-} fd-num[rw]..." ++ [NL]) ;;
  eprintf (str "    - means infinite timeout; " ++ [NL]) ;;
  eprintf (str "    r = monitor for read" ++ [NL]) ;;
  eprintf (str "    w = monitor for write" ++ [NL; NL]) ;;
  eprintf (str "    e.g.: " ++ progName ++ str " - 0rw 1w" ++ [NL]) ;;
  exit_ EXIT_FAILURE.

Definition is_rw (c : ascii) : bool := Ascii.eqb c "r" || Ascii.eqb c "w".

(** [sscanf] with ["%d%2[rw]"]: nothing when it does not read both; a number that is no [int] is undefined. *)
Definition scan_spec (arg : bytes) : M (proc K) (option (Z * bytes)) :=
  let r := strtol arg 10 in
  if (st_end r =? 0)%nat then mret None
  else if st_erange r || (st_value r <? INT_MIN) || (INT_MAX <? st_value r) then undef_
  else match take 2 (span is_rw (drop (st_end r) arg)).1 with
       | [] => mret None
       | buf => mret (Some (st_value r, buf))
       end.

(** The sets, where the letter asks for it. *)
Definition add_if (b : bool) (fd : Z) (set : fd_set) : M (proc K) fd_set :=
  if b then match FD_SET fd set with Some set' => mret set' | None => undef_ end else mret set.

Fixpoint read_specs (prog : bytes) (args : list bytes) (nfds : Z) (readfds writefds : fd_set) : M (proc K) (Z * fd_set * fd_set) :=
  match args with
  | [] => mret (nfds, readfds, writefds)
  | arg :: args' =>
      r ← scan_spec arg;
      match r with
      | None => usageError prog
      | Some (fd, buf) =>
          if FD_SETSIZE <=? fd then cmdLineErr (str "file descriptor exceeds limit (" ++ dec FD_SETSIZE ++ str ")" ++ [NL])
          else
            readfds' ← add_if (bool_decide ("r"%char ∈ buf)) fd readfds;
            writefds' ← add_if (bool_decide ("w"%char ∈ buf)) fd writefds;
            read_specs prog args' (if nfds <=? fd then fd + 1 else nfds) readfds' writefds'
      end
  end.

Definition get_timeout (arg : bytes) : M (proc K) (option timeval) :=
  if bool_decide (arg = str "-") then mret None
  else t ← getLong (Some arg) 0 (Some (str "timeout")); mret (Some (t, 0)).

Definition fd_line (s : selected) (fd : Z) : bytes :=
  dec fd ++ str ": " ++ (if FD_ISSET fd (readable s) then str "r" else []) ++ (if FD_ISSET fd (writable s) then str "w" else []) ++ [NL].

Definition t_select_main (argv : list bytes) : M (proc K) unit :=
  match argv with
  | prog :: tmo :: args =>
      if asks_help argv then usageError prog
      else
        pto ← get_timeout tmo;
        r ← read_specs prog args 0 ∅ ∅;
        let '(nfds, readfds, writefds) := r in
        s ← syscall None (fun k => let '(r, k') := k_select nfds readfds writefds pto k in
                                   (match r with inl s => inl (Some s) | inr e => inr e end, k'));
        match s with
        | None => errExit (str "select")
        | Some s =>
            printf (ready_line (ready s)) ;;
            for_each (fun fd => printf (fd_line s fd)) (seqZ 0 nfds) ;;
            (match pto with Some _ => printf (timeout_line (remaining s)) | None => mret tt end) ;;
            exit_ EXIT_SUCCESS
        end
  | _ => usageError (default [] (argv !! 0%nat))
  end.
End Program.

(** *** What it reports *)

Lemma size_below (X : fd_set) n : (forall fd, fd ∈ X -> 0 <= fd < n) ->
  Z.of_nat (size X) = zsum (fun fd => if FD_ISSET fd X then 1 else 0) (seqZ 0 n).
Proof.
  intros HX. assert (X = list_to_set (filter (fun fd => fd ∈ X) (seqZ 0 n))) as E.
  { apply set_eq. intros fd. rewrite elem_of_list_to_set, list_elem_of_filter, elem_of_seqZ. split; [intros H; apply HX in H as ?|]; naive_solver lia. }
  rewrite E at 1. rewrite size_list_to_set by apply NoDup_filter, NoDup_seqZ.
  clear E. induction (seqZ 0 n) as [|fd l IH]; [done|]. rewrite filter_cons. cbn [zsum foldr]. fold (zsum (fun fd => if FD_ISSET fd X then 1 else 0) l).
  unfold FD_ISSET at 1. rewrite <- IH. case_decide; case_bool_decide; cbn [length]; try done; lia.
Qed.

(** select reports descriptors it was asked about, and counts them. *)
Class SelectLaws (K : Type) `{!SelectCalls K} := {
  select_sound : forall nfds r w t k s k', k_select nfds r w t k = (inl s, k') ->
    readable s ⊆ r /\ writable s ⊆ w /\ ready s = Z.of_nat (size (readable s)) + Z.of_nat (size (writable s))
}.

(** A descriptor and whether it is to be read or written, and the argument that asks for it. *)
Record spec := Spec { sfd : Z; sr : bool; sw : bool }.
Definition spec_ok (x : spec) : Prop := 0 <= sfd x < FD_SETSIZE /\ sr x || sw x = true.
Definition spec_text (x : spec) : bytes := dec (sfd x) ++ (if sr x then str "r" else []) ++ (if sw x then str "w" else []).

Definition read_set (l : list spec) : fd_set := list_to_set (sfd <$> filter (fun x => sr x = true) l).
Definition write_set (l : list spec) : fd_set := list_to_set (sfd <$> filter (fun x => sw x = true) l).
Definition fds_of (l : list spec) : Z := foldr (fun x n => Z.max (sfd x + 1) n) 0 l.

Lemma fds_of_nonneg l : 0 <= fds_of l.
Proof. unfold fds_of. induction l as [|x l IH]; cbn [foldr]; lia. Qed.

Section Correct.
Context `{!Messages} {K : Type} `{!SelectCalls K}.

Lemma scan_spec_text x (p : proc K) : spec_ok x ->
  scan_spec (spec_text x) p = (Ret (Some (sfd x, (if sr x then str "r" else []) ++ (if sw x then str "w" else []))), p).
Proof.
  intros [Hr Hm]. unfold FD_SETSIZE in Hr. unfold scan_spec, spec_text. rewrite strtol_dec; [|unfold LONG_MIN, LONG_MAX; lia|by destruct (sr x), (sw x)].
  cbn [st_end st_erange st_value]. destruct (length (dec (sfd x)) =? 0)%nat eqn:E.
  { z_bool. apply Nat.eqb_eq, nil_length_inv in E. by destruct (dec_nonempty _ E). }
  replace (sfd x <? INT_MIN) with false by (unfold INT_MIN; lia). replace (INT_MAX <? sfd x) with false by (unfold INT_MAX; lia).
  cbn [orb]. rewrite drop_app_length. by destruct (sr x), (sw x).
Qed.

Lemma add_if_set b fd set (p : proc K) : 0 <= fd < FD_SETSIZE -> add_if b fd set p = (Ret (if b then {[fd]} ∪ set else set), p).
Proof.
  intros Hr. unfold add_if, FD_SET. destruct b; [|done]. replace (0 <=? fd) with true by lia. by replace (fd <? FD_SETSIZE) with true by lia.
Qed.

Lemma read_specs_sets prog l : forall n r w (p : proc K), Forall spec_ok l -> 0 <= n ->
  read_specs prog (spec_text <$> l) n r w p = (Ret (Z.max n (fds_of l), read_set l ∪ r, write_set l ∪ w), p).
Proof.
  induction l as [|x l IH]; intros n r w p Hl Hn.
  { cbn. unfold read_set, write_set. cbn. rewrite !(left_id_L ∅ (∪)). by rewrite Z.max_l by lia. }
  inversion Hl as [|? ? Hx Hl']; subst. destruct Hx as [Hr Hm]. cbn [fmap list_fmap read_specs]. rewrite (bind_Ret _ _ _ _ _ (scan_spec_text x p (conj Hr Hm))). cbv beta iota.
  replace (FD_SETSIZE <=? sfd x) with false by lia. rewrite !(bind_Ret _ _ _ _ _ (add_if_set _ _ _ _ Hr)).
  rewrite IH by (done || destruct (n <=? sfd x); lia). do 2 f_equal. f_equal.
  - f_equal; [cbn [fds_of foldr]; fold (fds_of l); destruct (n <=? sfd x) eqn:E; z_bool; lia|].
    unfold read_set. rewrite filter_cons. destruct (sr x) eqn:Er, (sw x) eqn:Ew; case_bool_decide; cbn in *; try set_solver.
  - unfold write_set. rewrite filter_cons. destruct (sr x) eqn:Er, (sw x) eqn:Ew; case_bool_decide; cbn in *; try set_solver.
Qed.

Lemma in_read_set l fd : Forall spec_ok l -> fd ∈ read_set l \/ fd ∈ write_set l -> 0 <= fd < fds_of l.
Proof.
  unfold read_set, write_set. rewrite !elem_of_list_to_set, !list_elem_of_fmap. intros Hl Hin.
  assert (exists x, x ∈ l /\ fd = sfd x) as (x & Hx & ->) by (destruct Hin as [(x & -> & [_ ?]%list_elem_of_filter)|(x & -> & [_ ?]%list_elem_of_filter)]; eauto).
  rewrite Forall_forall in Hl. destruct (Hl x Hx) as [[Hp _] _]. split; [done|]. clear -Hx.
  induction Hx as [x l|x y l _ IH]; cbn [fds_of foldr]; [lia|]. fold (fds_of l). lia.
Qed.

Lemma get_timeout_dec t (p : proc K) : LONG_MIN <= t <= LONG_MAX -> get_timeout (dec t) p = (Ret (Some (t, 0)), Proc (kern p) 0 (trace p)).
Proof.
  intros Ht. unfold get_timeout. rewrite bool_decide_eq_false_2.
  2: { intros E. pose proof (strtol_dec_end t Ht) as Hs. rewrite E in Hs. discriminate Hs. }
  unfold getLong. destruct (getNum_cases (str "getLong") (dec t) 0 (Some (str "timeout")) p (dec_c_string t)) as [(v & [Hv _] & Hrun)|[Hno _]].
  - change (base_of 0) with 10 in Hv. rewrite strtol_dec_end in Hv by done. injection Hv as <-. by rewrite (bind_Ret _ _ _ _ _ Hrun).
  - exfalso. apply (Hno t). split_and!; [|apply dec_nonempty|done|done]. change (base_of 0) with 10. by rewrite strtol_dec_end.
Qed.

Definition tmo_text (pto : option Z) : bytes := match pto with Some t => dec t | None => str "-" end.

(** How many letters are in the line of a descriptor. *)
Definition letters (s : selected) (fd : Z) : Z := (if FD_ISSET fd (readable s) then 1 else 0) + (if FD_ISSET fd (writable s) then 1 else 0).

Lemma for_each_prints {A} (line : A -> bytes) l : forall (p : proc K),
  for_each (fun x => printf (line x)) l p = (Ret tt, Proc (kern p) (errno p) (trace p ++ (Out <$> (line <$> l)))).
Proof.
  induction l as [|x l IH]; intros [k e t]; cbn [for_each fmap list_fmap]; [by rewrite app_nil_r|].
  erewrite bind_Ret by reflexivity. rewrite IH. cbn [kern errno trace]. by rewrite <- app_assoc.
Qed.

(** whatever select reports: t_select asks it about the descriptors that its arguments name, each for what its letters say, with
    the timeout of its first argument, and prints for each descriptor a line with the letters reported for it; there are as many
    letters as the number that is printed first.  When select fails it stops. *)
Theorem t_select_reports `{!SelectLaws K} prog pto l (p : proc K) :
  Forall spec_ok l -> (forall t, pto = Some t -> LONG_MIN <= t <= LONG_MAX) ->
  match k_select (fds_of l) (read_set l) (write_set l) ((fun t => (t, 0)) <$> pto) (kern p) with
  | (inl s, k') => exists e,
      t_select_main (prog :: tmo_text pto :: (spec_text <$> l)) p =
        (Exit EXIT_SUCCESS, Proc k' e (trace p ++ (Out <$> (ready_line (ready s) :: (fd_line s <$> seqZ 0 (fds_of l)) ++
                                                     match pto with Some _ => [timeout_line (remaining s)] | None => [] end)))) /\
      zsum (letters s) (seqZ 0 (fds_of l)) = ready s
  | (inr e, k') => stopped (t_select_main (prog :: tmo_text pto :: (spec_text <$> l)) p).1
  end.
Proof.
  intros Hl Ht. unfold t_select_main. replace (asks_help (prog :: tmo_text pto :: (spec_text <$> l))) with false.
  2: { unfold asks_help. cbn [lookup list_lookup]. destruct pto as [t|]; [|done]. destruct (strcmp (dec t) HELP =? 0) eqn:E; [|done]. z_bool.
       apply strcmp_eq in E; [|apply dec_c_string|by by_decide]. pose proof (strtol_dec_end t (Ht t eq_refl)) as Hs. rewrite E in Hs. discriminate Hs. }
  assert (exists e, get_timeout (tmo_text pto) p = (Ret ((fun t => (t, 0)) <$> pto), Proc (kern p) e (trace p))) as [e He].
  { destruct pto as [t|]; [eexists; by apply get_timeout_dec, Ht|exists (errno p)]. by destruct p. }
  rewrite (bind_Ret _ _ _ _ _ He), (bind_Ret _ _ _ _ _ (read_specs_sets prog l 0 ∅ ∅ _ Hl ltac:(lia))). cbv beta iota.
  rewrite !(right_id_L ∅ (∪)). pose proof (fds_of_nonneg l) as Hn. rewrite Z.max_r by done.
  destruct (k_select _ _ _ _ (kern p)) as [[s|en] k'] eqn:Hk.
  - exists e. erewrite bind_Ret by (unfold syscall; cbn [kern]; rewrite Hk; reflexivity). cbv beta iota. cbn [errno trace].
    erewrite bind_Ret by reflexivity. rewrite (bind_Ret _ _ _ _ _ (for_each_prints _ _ _)). cbn [kern errno trace]. split.
    + destruct pto; (erewrite bind_Ret by reflexivity); unfold exit_; do 2 f_equal; cbn; rewrite ?fmap_app, ?app_nil_r, <- ?app_assoc; reflexivity.
    + destruct (select_sound _ _ _ _ _ _ _ Hk) as (Hr & Hw & ->).
      rewrite (size_below (readable s) (fds_of l)), (size_below (writable s) (fds_of l)) by (intros fd Hfd; apply in_read_set; set_solver).
      clear. induction (seqZ 0 (fds_of l)) as [|fd ls IH]; [done|]. cbn [zsum foldr] in *. unfold zsum in IH. rewrite IH. unfold letters. lia.
  - erewrite bind_Ret by (unfold syscall; cbn [kern]; rewrite Hk; reflexivity). cbv beta iota.
    apply (wp_errExit (str "select") _ (fun o _ => stopped o)). auto.
Qed.
End Correct.

(** Everything it asks about is ready, at once. *)
#[local] Instance all_ready : SelectCalls unit := { k_select nfds r w t k := (inl (Selected (Z.of_nat (size r) + Z.of_nat (size w)) r w (7, 250000)), k) }.
#[local] Instance all_ready_laws : SelectLaws unit.
Proof. split. intros nfds r w t k s k' [= <- _]. by split_and!. Qed.
#[local] Instance no_messages : Messages := {| ename _ := []; MAX_ENAME := 133; strerror _ := []; EF_DUMPCORE := None |}.

Lemma t_select_reports_witness :
  exists e, t_select_main [str "t_select"; str "9"; str "3rw"; str "1w"] (Proc tt 0 []) =
    (Exit EXIT_SUCCESS, Proc tt e (Out <$> [ready_line 3; str "0: " ++ [NL]; str "1: w" ++ [NL]; str "2: " ++ [NL]; str "3: rw" ++ [NL];
       str "timeout after select(): 7.025" ++ [NL]])).
Proof.
  pose proof (t_select_reports (str "t_select") (Some 9) [Spec 3 true true; Spec 1 false true] (Proc tt 0 [])
    ltac:(by repeat constructor) ltac:(intros t [= <-]; unfold LONG_MIN, LONG_MAX; lia)) as H.
  cbn [k_select all_ready] in H. destruct H as (e & Hrun & _). exists e. exact Hrun.
Defined.
