(* ===== verification/SelfPipe.v ===== *)
(** * Waiting for a signal and for descriptors at once

    self_pipe.c (tlpi-dist/altio).  The handler of SIGINT writes a byte to a pipe, whose other end is one of the
    descriptors that select waits for.  A step is one call of main or the arrival of a SIGINT.  What goes to
    stderr is left out. *)

From Stdlib Require Import ZArith Lia String Ascii.
From S2P Require Import Prelude CString Kernel GetNum Seqnum.
From S2P Require Select Threads.
Import Select (fd_set, timeval, FD_SETSIZE, FD_SET, FD_ISSET, ready_line, timeout_line, get_timeout).
Import Threads (sys, Sys, shared, threads, printed, ended, effect, Go, Say, Wait, Stop, ending, Exited, Failed, Undefined, thread, Main, Worker, run, run_one, perform).

(** The capacity of a pipe. *)
Definition PIPE_CAP : nat := Nat.mul 256 256.

(** What a call returns: success, an error, the read end of a new pipe, or the descriptors named by arguments that
    are ready and the time that remains. *)
Inductive answer := Fine | Fails (errnum : Z) | Pipe (rd : Z) | Ready (fds : fd_set) (rest : timeval).

(** The process: is there a handler, are the ends of the pipe nonblocking, how many bytes are in it; how often the
    handler has run, and whether a signal has killed the process. *)
Record vars := Vars { handling : bool; nonblock_r : bool; nonblock_w : bool; pending : nat; caught : nat; killed : bool }.

Record locals := Loc { pto : option timeval; nfds : Z; readfds : fd_set; pfd : Z; ready : Z }.

Inductive main_pc :=
| Begin
| Args (pto : option timeval) (j : nat) (nfds : Z) (readfds : fd_set)
| Make_pipe (pto : option timeval) (nfds : Z) (readfds : fd_set)
| Get_flags (wr : bool) (l : locals)
| Set_flags (wr : bool) (l : locals)
| Act (l : locals)
| Select (l : locals)
| Test (l : locals)                 (* FD_ISSET(pfd[0], &readfds) *)
| Drain (l : locals)
| Show_ready (l : locals)
| Report (j : nat) (l : locals)
| Show_pipe (l : locals)
| Show_timeout (l : locals)
| Leave (l : locals).

Abbreviation thr := (thread main_pc unit).

Definition caught_line : bytes := str "A signal was caught" ++ [NL].
Definition fd_line (set : fd_set) (fd : Z) : bytes := dec fd ++ str ": " ++ (if FD_ISSET fd set then str "r" else []) ++ [NL].
Definition pipe_line (set : fd_set) (fd : Z) : bytes :=
  dec fd ++ str ": " ++ (if FD_ISSET fd set then str "r" else []) ++ str "   (read end of pipe)" ++ [NL].

(** What [getInt] and [getLong] make of an argument. *)
Definition fd_arg (arg : bytes) : option Z :=
  match (getInt (Some arg) 0 (Some (str "fd")) (Proc tt 0 [])).1 with Ret fd => Some fd | _ => None end.
Definition timeout_arg (arg : bytes) : option (option timeval) :=
  match (get_timeout arg (Proc tt 0 [])).1 with Ret t => Some t | _ => None end.

Section Program.
Context (argv : list bytes).

Definition main_exec (a : answer) (m : main_pc) (g : vars) : effect vars thr :=
  let go m := Go (Main m) g in
  let checked call k := match a with Fails e => Stop (Failed e call) | _ => k end in
  match m with
  | Begin =>
      match argv !! 1%nat with
      | None => Stop (Exited EXIT_FAILURE)
      | Some arg =>
          if asks_help argv then Stop (Exited EXIT_FAILURE)
          else match timeout_arg arg with Some pto => go (Args pto 2 0 ∅) | None => Stop (Exited EXIT_FAILURE) end
      end
  | Args pto j nfds readfds =>
      match argv !! j with
      | None => go (Make_pipe pto nfds readfds)
      | Some arg =>
          match fd_arg arg with
          | None => Stop (Exited EXIT_FAILURE)
          | Some fd =>
              if FD_SETSIZE <=? fd then Stop (Exited EXIT_FAILURE)
              else match FD_SET fd readfds with
                   | Some readfds' => go (Args pto (S j) (if nfds <=? fd then fd + 1 else nfds) readfds')
                   | None => Stop Undefined
                   end
          end
      end
  | Make_pipe pto nfds readfds =>
      match a with
      | Fails e => Stop (Failed e "pipe")
      | Pipe rd =>
          if rd <? 0 then Wait
          else match FD_SET rd readfds with
               | Some readfds' => go (Get_flags false (Loc pto (Z.max nfds (rd + 1)) readfds' rd 0))
               | None => Stop Undefined
               end
      | _ => Wait
      end
  | Get_flags wr l => checked "fcntl-F_GETFL"%string (go (Set_flags wr l))
  | Set_flags wr l =>
      checked "fcntl-F_SETFL"%string
        (if wr then Go (Main (Act l)) (Vars (handling g) (nonblock_r g) true (pending g) (caught g) (killed g))
         else Go (Main (Get_flags true l)) (Vars (handling g) true (nonblock_w g) (pending g) (caught g) (killed g)))
  | Act l =>
      checked "sigaction"%string (Go (Main (Select l)) (Vars true (nonblock_r g) (nonblock_w g) (pending g) (caught g) (killed g)))
  | Select l =>
      match a with
      | Fails e => if e =? EINTR then go (Select l) else Stop (Failed e "select")
      | Ready fds rest =>
          let set := filter (fun fd => fd < nfds l) ((if bool_decide (0 < pending g)%nat then {[pfd l]} ∩ readfds l else ∅) ∪ fds) in
          if bool_decide (fds ⊆ readfds l ∖ {[pfd l]}) && (negb (bool_decide (set = ∅)) || bool_decide (is_Some (pto l)))
          then go (Test (Loc ((fun _ => rest) <$> pto l) (nfds l) set (pfd l) (Z.of_nat (size set))))
          else Wait
      | _ => Wait
      end
  | Test l => if FD_ISSET (pfd l) (readfds l) then Say (Main (Drain l)) caught_line else go (Show_ready l)
  | Drain l =>
      match a with
      | Fails e => if e =? EAGAIN then Wait else Stop (Failed e "read")
      | _ =>
          match pending g with
          | S n => Go (Main (Drain l)) (Vars (handling g) (nonblock_r g) (nonblock_w g) n (caught g) (killed g))
          | O => if nonblock_r g then go (Show_ready l) else Wait       (* EAGAIN *)
          end
      end
  | Show_ready l => Say (Main (Report 2 l)) (ready_line (ready l))
  | Report j l =>
      match argv !! j with
      | None => go (Show_pipe l)
      | Some arg =>
          match fd_arg arg with
          | None => Stop (Exited EXIT_FAILURE)
          | Some fd => Say (Main (Report (S j) l)) (fd_line (readfds l) fd)
          end
      end
  | Show_pipe l => Say (Main (Show_timeout l)) (pipe_line (readfds l) (pfd l))
  | Show_timeout l => match pto l with Some t => Say (Main (Leave l)) (timeout_line t) | None => go (Leave l) end
  | Leave l => Stop (Exited EXIT_SUCCESS)
  end.

(** SIGINT arrives; without a handler it kills. *)
Definition handler (a : answer) (g : vars) : effect vars thr :=
  if handling g then
    match a with
    | Fails e => if e =? EAGAIN then Wait else Stop (Failed e "write")
    | _ =>
        if bool_decide (pending g < PIPE_CAP)%nat then Go (Worker tt) (Vars true (nonblock_r g) (nonblock_w g) (S (pending g)) (S (caught g)) (killed g))
        else if nonblock_w g then Go (Worker tt) (Vars true (nonblock_r g) (nonblock_w g) (pending g) (S (caught g)) (killed g))
        else Wait
    end
  else Go (Worker tt) (Vars false (nonblock_r g) (nonblock_w g) (pending g) (caught g) true).

Definition exec (self : nat) (a : answer) (ts : list thr) (t : thr) (g : vars) : effect vars thr :=
  if killed g then Wait
  else match t with Main m => main_exec a m g | Worker _ => handler a g end.

Definition start_state : sys vars thr := Sys (Vars false false false 0 0 false) [Main Begin; Worker tt] [] None.

(** ** The invariant *)

(** What has been printed by the time main is at [m]. *)
Definition fd_lines (n : nat) (l : locals) : list bytes := fd_line (readfds l) <$> omap fd_arg (take n (drop 2 argv)).
Definition sofar (m : main_pc) : list bytes :=
  let was l := if FD_ISSET (pfd l) (readfds l) then [caught_line] else [] in
  match m with
  | Drain l | Show_ready l => was l
  | Report j l => was l ++ [ready_line (ready l)] ++ fd_lines (j - 2) l
  | Show_pipe l => was l ++ [ready_line (ready l)] ++ fd_lines (length argv) l
  | Show_timeout l => was l ++ [ready_line (ready l)] ++ fd_lines (length argv) l ++ [pipe_line (readfds l) (pfd l)]
  | Leave l => was l ++ [ready_line (ready l)] ++ fd_lines (length argv) l ++ [pipe_line (readfds l) (pfd l)] ++
               match pto l with Some t => [timeout_line t] | None => [] end
  | _ => []
  end.

(** Before sigaction, and before select has returned. *)
Definition early (m : main_pc) : bool :=
  match m with Begin | Args _ _ _ _ | Make_pipe _ _ _ | Get_flags _ _ | Set_flags _ _ | Act _ => true | _ => false end.

(** select looks at the pipe. *)
Definition watched (l : locals) : Prop := pfd l ∈ readfds l /\ pfd l < nfds l.

Definition place_ok (m : main_pc) (g : vars) : Prop :=
  match m with
  | Begin | Args _ _ _ _ | Make_pipe _ _ _ => True
  | Get_flags wr l | Set_flags wr l => watched l /\ (wr = true -> nonblock_r g = true)
  | Act l => watched l /\ nonblock_r g = true /\ nonblock_w g = true
  | Select l => watched l /\ (0 < pending g <-> 0 < caught g)%nat
  | Report j l => (2 <= j)%nat /\ (pfd l ∈ readfds l -> 0 < caught g)%nat
  | Test l | Drain l | Show_ready l | Show_pipe l | Show_timeout l | Leave l => (pfd l ∈ readfds l -> 0 < caught g)%nat
  end.

Record inv (m : main_pc) (s : sys vars thr) : Prop := {
  inv_threads : threads s = [Main m; Worker tt];
  inv_early : if early m then handling (shared s) = false /\ pending (shared s) = 0%nat /\ caught (shared s) = 0%nat
              else handling (shared s) = true /\ nonblock_r (shared s) = true /\ nonblock_w (shared s) = true /\ killed (shared s) = false;
  inv_place : place_ok m (shared s);
  inv_printed : printed s = sofar m
}.

Lemma self_pipe_start_inv : inv Begin start_state.
Proof. by split. Qed.

Lemma fd_lines_next l j arg fd : argv !! j = Some arg -> fd_arg arg = Some fd -> (2 <= j)%nat ->
  fd_lines (S j - 2) l = fd_lines (j - 2) l ++ [fd_line (readfds l) fd].
Proof.
  intros Ha Hf Hj. unfold fd_lines. replace (S j - 2)%nat with (S (j - 2)) by lia.
  rewrite (take_S_r _ _ arg) by (rewrite lookup_drop; by replace (2 + (j - 2))%nat with j by lia).
  rewrite omap_app, fmap_app. cbn. by rewrite Hf.
Qed.

Lemma fd_lines_all l j : argv !! j = None -> (2 <= j)%nat -> fd_lines (j - 2) l = fd_lines (length argv) l.
Proof.
  intros Ha%lookup_ge_None Hj. unfold fd_lines. by rewrite !take_ge by (rewrite length_drop; lia).
Qed.

Definition end_ok (m : main_pc) (s : sys vars thr) : Prop := ended s = Some (Exited EXIT_SUCCESS) -> exists l, m = Leave l.

Lemma self_pipe_main_step m a s s' : inv m s -> killed (shared s) = false -> perform 0 (main_exec a m (shared s)) s = Some s' -> ended s = None ->
  exists m', inv m' s' /\ end_ok m' s'.
Proof.
  intros [Ht He Hp Ho] Hk Hs Hend. destruct s as [g ts out en]. cbn [shared threads printed ended] in *. subst ts out en.
  assert (forall e, Some (Sys g [Main m; Worker tt] (sofar m) (Some e)) = Some s' -> (e = Exited EXIT_SUCCESS -> exists l, m = Leave l) ->
    exists m', inv m' s' /\ end_ok m' s') as Hstop.
  { intros e [= <-] Hl. exists m. split; [by split|]. intros [= ->]. by apply Hl. }
  assert (forall m' g' out, Some (Sys g' [Main m'; Worker tt] out None) = Some s' -> inv m' (Sys g' [Main m'; Worker tt] out None) ->
    exists m', inv m' s' /\ end_ok m' s') as Hgo.
  { intros m' g' out [= <-] Hi. by exists m'. }
  unfold main_exec in Hs. destruct m as [|pto j n set|pto n set|wr l|wr l|l|l|l|l|l|j l|l|l|l]; cbn [early] in He; cbn [place_ok] in Hp.
  - destruct (argv !! 1%nat) as [arg|]; [|eapply Hstop; [exact Hs|done]]. destruct (asks_help argv); [eapply Hstop; [exact Hs|done]|].
    destruct (timeout_arg arg); [eapply Hgo; [exact Hs|by split]|eapply Hstop; [exact Hs|done]].
  - destruct (argv !! j) as [arg|]; [|eapply Hgo; [exact Hs|by split]]. destruct (fd_arg arg) as [fd|]; [|eapply Hstop; [exact Hs|done]].
    destruct (FD_SETSIZE <=? fd); [eapply Hstop; [exact Hs|done]|].
    destruct (FD_SET fd set); [eapply Hgo; [exact Hs|by split]|eapply Hstop; [exact Hs|done]].
  - destruct a as [|e|rd|]; [done|eapply Hstop; [exact Hs|done]| |done]. destruct (rd <? 0) eqn:Er; [done|].
    destruct (FD_SET rd set) as [set'|] eqn:Es; [|eapply Hstop; [exact Hs|done]].
    eapply Hgo; [exact Hs|]. split; try done. split; [|done]. unfold FD_SET in Es. destruct (_ && _); [|done]. injection Es as <-.
    split; cbn; [set_solver|lia].
  - destruct a as [|e| |]; try (eapply Hstop; [exact Hs|done]); (eapply Hgo; [exact Hs|by split]).
  - destruct Hp as [Hw Hr]. destruct a as [|e| |]; try (eapply Hstop; [exact Hs|done]); destruct wr; (eapply Hgo; [exact Hs|]); split; try done; cbn; split_and!; auto.
  - destruct He as (_ & Hp0 & Hc0), Hp as (Hw & Hr & Hwr).
    destruct a as [|e| |]; try (eapply Hstop; [exact Hs|done]); (eapply Hgo; [exact Hs|]); split; try done; cbn; (split; [done|]); rewrite Hp0, Hc0; lia.
  - destruct a as [|e| |fds rest]; try done.
    { destruct (e =? EINTR); [eapply Hgo; [exact Hs|by split]|eapply Hstop; [exact Hs|done]]. }
    cbv zeta in Hs. destruct (_ && _) eqn:E; [|done]. apply andb_prop in E as [Hf _]. apply bool_decide_eq_true in Hf. eapply Hgo; [exact Hs|]. split; try done. cbn. destruct Hp as [_ Hp].
    rewrite elem_of_filter, elem_of_union. intros [_ [Hin|Hin]]; [|set_solver]. case_bool_decide; [by apply Hp|set_solver].
  - destruct (FD_ISSET (pfd l) (readfds l)) eqn:E; (eapply Hgo; [exact Hs|]); split; try done; cbn; by rewrite E.
  - destruct a as [|e| |]; try (destruct (e =? EAGAIN); [done|eapply Hstop; [exact Hs|done]]);
      (destruct He as (Hh & Hr & Hw & _); rewrite Hr in Hs; destruct (pending g) as [|n]; (eapply Hgo; [exact Hs|by split])).
  - eapply Hgo; [exact Hs|by split].
  - destruct Hp as [Hj Hp]. destruct (argv !! j) as [arg|] eqn:Ea.
    + destruct (fd_arg arg) as [fd|] eqn:Ef; [|eapply Hstop; [exact Hs|done]]. eapply Hgo; [exact Hs|]. split; try done; cbn [sofar printed]; [split; [lia|done]|].
      rewrite (fd_lines_next l j arg fd Ea Ef Hj), <- !app_assoc. done.
    + eapply Hgo; [exact Hs|]. split; try done; cbn [sofar printed]. by rewrite (fd_lines_all l j Ea Hj).
  - eapply Hgo; [exact Hs|]. split; try done; cbn [sofar printed]. by rewrite <- !app_assoc.
  - destruct (pto l) as [t|] eqn:Ep; (eapply Hgo; [exact Hs|]); split; try done; cbn [sofar printed]; rewrite Ep, <- ?app_assoc; [done|by rewrite app_nil_r].
  - eapply Hstop; [exact Hs|]. intros _. by exists l.
Qed.

Lemma handler_step m a s s' : inv m s -> killed (shared s) = false -> perform 1 (handler a (shared s)) s = Some s' -> ended s = None ->
  inv m s' /\ end_ok m s'.
Proof.
  intros [Ht He Hp Ho] Hk Hs Hend. destruct s as [g ts out en]. cbn [shared threads printed ended] in *. subst ts out en.
  unfold handler in Hs. destruct (handling g) eqn:Hh.
  2: { injection Hs as <-. destruct (early m) eqn:Ee; [|by destruct He]. split; [|done]. split; try done. rewrite Ee. exact He. }
  destruct (early m) eqn:Ee; [by destruct He|]. destruct He as (_ & Hr & Hw & _).
  assert (forall n, Some (Sys (Vars true (nonblock_r g) (nonblock_w g) n (S (caught g)) (killed g)) [Main m; Worker tt] (sofar m) None) = Some s' ->
    (0 < n)%nat -> inv m s' /\ end_ok m s') as Hgo.
  { intros n [= <-] Hn. split; [|done]. split; try done; rewrite ?Ee; [done|]. cbn. destruct m; cbn in Ee, Hp |- *; try done; try lia; destruct Hp; split; try done; lia. }
  assert (forall e, Some (Sys g [Main m; Worker tt] (sofar m) (Some (Failed e "write"))) = Some s' -> inv m s' /\ end_ok m s') as Hstop.
  { intros e [= <-]. split; [split; try done; by rewrite Ee|done]. }
  rewrite Hw in Hgo, Hs. destruct a as [|e| |]; [|destruct (e =? EAGAIN); [done|by eapply Hstop]|..];
    case_bool_decide as Hc; (eapply Hgo; [exact Hs|]); unfold PIPE_CAP in Hc; lia.
Qed.

Lemma self_pipe_step i a m s s' : inv m s -> run_one exec i a s = Some s' -> exists m', inv m' s' /\ end_ok m' s' /\ (i <> 0%nat -> m' = m).
Proof.
  intros Hi Hr. unfold run_one in Hr. destruct (ended s) eqn:Hend; [done|]. pose proof (inv_threads _ _ Hi) as Ht. rewrite Ht in Hr.
  destruct (killed (shared s)) eqn:Hk; [destruct i as [|[|i]]; cbn in Hr; unfold exec in Hr; by rewrite ?Hk in Hr|].
  destruct i as [|[|i]]; cbn in Hr; [| |done]; unfold exec in Hr; rewrite Hk in Hr.
  - destruct (self_pipe_main_step m a s s' Hi Hk Hr Hend) as (m' & H1 & H2). by exists m'.
  - exists m. by destruct (handler_step m a s s' Hi Hk Hr Hend).
Qed.

Lemma self_pipe_run sched : forall m s s', inv m s -> end_ok m s -> run exec sched s = Some s' -> exists m', inv m' s' /\ end_ok m' s'.
Proof.
  induction sched as [|[i a] sched IH]; intros m s s' Hi He Hr; cbn in Hr; [injection Hr as <-; eauto|].
  destruct (run_one exec i a s) as [s1|] eqn:E; [|done]. destruct (self_pipe_step i a m s s1 Hi E) as (m1 & H1 & H2 & _). by eapply IH.
Qed.

(** ** A signal is not missed *)

(** What select has left. *)
Definition after (m : main_pc) : option locals :=
  match m with Test l | Drain l | Show_ready l | Report _ l | Show_pipe l | Show_timeout l | Leave l => Some l | _ => None end.

(** Main is at select and the handler has run, or select has returned and the pipe was ready. *)
Definition noticed (m : main_pc) (g : vars) : Prop :=
  match m with Select _ => (0 < caught g)%nat | _ => exists l, after m = Some l /\ pfd l ∈ readfds l end.

Lemma noticed_step i a m s s' m' : inv m s -> noticed m (shared s) -> run_one exec i a s = Some s' -> inv m' s' -> noticed m' (shared s').
Proof.
  intros [Ht _ Hp _] Hn Hr [Ht' _ _ _]. unfold run_one in Hr. destruct (ended s); [done|]. destruct s as [g ts out en]. cbn [shared threads] in *. subst ts.
  unfold exec in Hr. destruct i as [|[|i]]; cbn in Hr; [| |done]; destruct (killed g); try done.
  - destruct m as [| | | | | |l| | | | | | |]; cbn [noticed] in Hn; try (by destruct Hn as (? & ? & _)); cbn [place_ok] in Hp; unfold main_exec in Hr; cbv zeta in Hr.
    { destruct Hp as [[Hw1 Hw2] Hp]. rewrite (bool_decide_eq_true_2 (0 < pending g)%nat) in Hr by tauto.
      destruct a as [|e| |fds rest]; [done|destruct (e =? EINTR); by simplify_eq/=|done|]. destruct (_ && _); simplify_eq/=. eexists. split; [done|]. cbn. set_solver. }
    all: repeat case_match; simplify_eq/=; try done; destruct Hn as (? & ? & ?); simplify_eq/=; eauto.
  - unfold handler in Hr. assert (m' = m) as ->.
    { repeat case_match; simplify_eq/=; done. }
    assert ((caught g <= caught (shared s'))%nat) by (repeat case_match; simplify_eq/=; lia).
    destruct m; cbn [noticed] in *; try done; lia.
Qed.

Lemma noticed_run sched : forall m s s', inv m s -> end_ok m s -> noticed m (shared s) -> run exec sched s = Some s' ->
  exists m', inv m' s' /\ end_ok m' s' /\ noticed m' (shared s').
Proof.
  induction sched as [|[i a] sched IH]; intros m s s' Hi He Hn Hr; cbn in Hr; [injection Hr as <-; eauto|].
  destruct (run_one exec i a s) as [s1|] eqn:E; [|done]. destruct (self_pipe_step i a m s s1 Hi E) as (m1 & H1 & H2 & _).
  exact (IH m1 s1 s' H1 H2 (noticed_step i a m s s1 m1 Hi Hn E H1) Hr).
Qed.

(** What the program prints, when select said that the pipe was ready or did not. *)
Definition report (b : bool) (n : Z) (set : fd_set) (rd : Z) (pto : option timeval) : list bytes :=
  (if b then [caught_line] else []) ++ [ready_line n] ++ (fd_line set <$> omap fd_arg (drop 2 argv)) ++ [pipe_line set rd] ++
  match pto with Some t => [timeout_line t] | None => [] end.

Lemma leave_prints l s : inv (Leave l) s -> printed s = report (FD_ISSET (pfd l) (readfds l)) (ready l) (readfds l) (pfd l) (pto l).
Proof.
  intros [_ _ _ ->]. cbn [sofar]. unfold report, fd_lines. by rewrite (take_ge (drop 2 argv)) by (rewrite length_drop; lia).
Qed.

(** C23: a signal whose handler ran before select looked is not missed, although the handler may have run just before: select then
    does not wait, and when the program comes to its end it has said that a signal was caught and shows the pipe as readable. *)
Theorem self_pipe_catches sched s l :
  run exec sched start_state = Some s -> threads s !! 0%nat = Some (Main (Select l)) -> ended s = None -> (0 < caught (shared s))%nat ->
  (forall rest, exists s', run_one exec 0 (Ready ∅ rest) s = Some s') /\
  (forall sched2 s2, run exec sched2 s = Some s2 -> ended s2 = Some (Exited EXIT_SUCCESS) ->
     exists n set rd t, rd ∈ set /\ printed s2 = report true n set rd t).
Proof.
  intros Hr Hm He Hc. destruct (self_pipe_run sched _ _ _ (self_pipe_start_inv) ltac:(done) Hr) as (m & Hi & Hend).
  pose proof (inv_threads _ _ Hi) as Ht. rewrite Ht in Hm. injection Hm as ->. split.
  - intros rest. destruct Hi as [_ (_ & _ & _ & Hk) [[Hw1 Hw2] Hp] _]. eapply Threads.run_one_enabled; [done|by rewrite Ht|].
    unfold exec. rewrite Hk. cbn. rewrite (bool_decide_eq_true_2 (0 < pending (shared s))%nat) by tauto. rewrite (bool_decide_eq_true_2 (∅ ⊆ _)) by set_solver.
    rewrite bool_decide_eq_false_2; [done|]. intros E. assert (pfd l ∈ (∅ : fd_set)) as Hin; [|set_solver]. rewrite <- E. set_solver.
  - intros sched2 s2 Hr2 He2. destruct (noticed_run sched2 _ _ _ Hi Hend Hc Hr2) as (m2 & Hi2 & Hend2 & Hn2).
    destruct (Hend2 He2) as [l2 ->]. destruct Hn2 as (l' & [= <-] & Hin). exists (ready l2), (readfds l2), (pfd l2), (pto l2). split; [done|].
    rewrite (leave_prints l2 s2 Hi2). unfold FD_ISSET. by rewrite bool_decide_eq_true_2.
Qed.

(** ** The program comes to its end *)

Definition rank (m : main_pc) (g : vars) : nat :=
  let n := length argv in
  match m with
  | Begin => 2 * n + 19 + pending g
  | Args _ j _ _ => n - j + (n + 18) + pending g
  | Make_pipe _ _ _ => n + 17 + pending g
  | Get_flags wr _ => n + (if wr then 14 else 16) + pending g
  | Set_flags wr _ => n + (if wr then 13 else 15) + pending g
  | Act _ => n + 12 + pending g
  | Select _ => n + 11 + pending g
  | Test _ => n + 10 + pending g
  | Drain _ => n + 9 + pending g
  | Show_ready _ => n + 8
  | Report j _ => n - j + 7
  | Show_pipe _ => 6
  | Show_timeout _ => 5
  | Leave _ => 4
  end.

(** A call of main, other than a select that is interrupted; and a signal. *)
Definition is_call (x : nat * answer) : bool :=
  match x with (O, Fails e) => negb (e =? EINTR) | (O, _) => true | _ => false end.
Definition calls (sched : list (nat * answer)) : nat := length (filter (fun x => is_call x = true) sched).
Definition signals (sched : list (nat * answer)) : nat := length (filter (fun x => x.1 <> 0%nat) sched).

Lemma rank_step i a m s s' m' : inv m s -> run_one exec i a s = Some s' -> inv m' s' ->
  (rank m' (shared s') + (if is_call (i, a) then 1 else 0) <= rank m (shared s) + (if decide (i = 0%nat) then 0 else 1))%nat \/ ended s' <> None.
Proof.
  intros [Ht _ Hp _] Hr [Ht' _ _ _]. unfold run_one in Hr. destruct (ended s); [done|]. destruct s as [g ts out en]. cbn [shared threads] in *. subst ts.
  unfold exec in Hr. destruct i as [|[|i]]; cbn in Hr; [| |done]; destruct (killed g); try done.
  - destruct m; cbn [place_ok] in Hp; unfold main_exec in Hr; cbv zeta in Hr;
      try (assert (ended s' <> None) by (repeat case_match; simplify_eq/=; done); by right);
      repeat case_match; simplify_eq/=; try (by right); left; unfold is_call; cbn -[Nat.mul]; try lia.
    all: match goal with H : argv !! _ = Some _ |- _ => apply lookup_lt_Some in H; lia | H : argv !! _ = None |- _ => apply lookup_ge_None in H; lia | _ => destruct wr; lia end.
  - left. unfold handler in Hr. assert (m' = m) as -> by (repeat case_match; simplify_eq/=; done).
    assert ((pending (shared s') <= pending g + 1)%nat) by (repeat case_match; simplify_eq/=; lia).
    destruct (decide (1 = 0)%nat) as [E|_]; [discriminate E|]. destruct m; cbn [rank is_call shared]; lia.
Qed.

Lemma calls_cons i a sched : calls ((i, a) :: sched) = ((if is_call (i, a) then 1 else 0) + calls sched)%nat.
Proof. unfold calls. rewrite filter_cons. destruct (is_call (i, a)) eqn:E; case_decide; done || congruence. Qed.
Lemma signals_cons i a sched : signals ((i, a) :: sched) = ((if decide (i = 0%nat) then 0 else 1) + signals sched)%nat.
Proof. unfold signals. rewrite filter_cons. cbn [fst]. repeat case_decide; done || congruence. Qed.

Lemma calls_bounded sched : forall m s s', inv m s -> run exec sched s = Some s' -> (calls sched <= rank m (shared s) + signals sched)%nat.
Proof.
  induction sched as [|[i a] sched IH]; intros m s s' Hi Hr; cbn in Hr; [by apply Nat.le_0_l|].
  destruct (run_one exec i a s) as [s1|] eqn:E; [|done]. destruct (self_pipe_step i a m s s1 Hi E) as (m1 & H1 & _). rewrite calls_cons, signals_cons.
  destruct (rank_step i a m s s1 m1 Hi E H1) as [Hle|Hend].
  - specialize (IH m1 s1 s' H1 Hr). lia.
  - destruct sched as [|[i1 a1] sched].
    + change (calls []) with 0%nat. assert (4 <= rank m (shared s))%nat by (unfold rank; cbv zeta; destruct m; try destruct wr; lia). destruct (is_call (i, a)), (decide (i = 0%nat)); lia.
    + cbn in Hr. unfold run_one in Hr. by destruct (ended s1).
Qed.

(** the program comes to its end: main makes at most twenty calls, two more for each argument and one for each signal, not counting
    the times that select is interrupted; once select has returned it never waits; and when it ends successfully it says that a signal was
    caught only if the handler ran. *)
Theorem self_pipe_ends sched s : run exec sched start_state = Some s ->
  (calls sched <= 2 * length argv + 20 + signals sched)%nat /\
  (forall m l, threads s !! 0%nat = Some (Main m) -> after m = Some l -> ended s = None -> exists s', run_one exec 0 Fine s = Some s') /\
  (ended s = Some (Exited EXIT_SUCCESS) -> exists b n set rd t,
     printed s = report b n set rd t /\ b = FD_ISSET rd set /\ (b = true -> 0 < caught (shared s))%nat).
Proof.
  intros Hr. destruct (self_pipe_run sched _ _ _ self_pipe_start_inv ltac:(done) Hr) as (m & Hi & Hend). split_and!.
  - pose proof (calls_bounded sched _ _ _ self_pipe_start_inv Hr) as Hc. unfold rank, start_state in Hc. cbn [shared pending] in Hc. lia.
  - intros m1 l Hm Ha He. pose proof Hi as [Ht Hh _ _]. rewrite Ht in Hm. injection Hm as ->. eapply Threads.run_one_enabled; [done|by rewrite Ht|].
    assert (early m1 = false) as Hm1 by (by destruct m1). rewrite Hm1 in Hh. destruct Hh as (_ & Hnb & _ & Hk). unfold exec. rewrite Hk.
    destruct m1; try done; cbn; rewrite ?Hnb; by repeat case_match.
  - intros He. destruct (Hend He) as [l ->]. exists (FD_ISSET (pfd l) (readfds l)), (ready l), (readfds l), (pfd l), (pto l).
    split_and!; [by apply leave_prints|done|]. intros Hb. apply bool_decide_eq_true in Hb. by apply (inv_place _ _ Hi).
Qed.
End Program.

(** The handler runs between sigaction and select, and the descriptor that is named is ready too. *)
Definition sp_argv : list bytes := [str "self_pipe"; str "5"; str "0"].
Definition sp_before : list (nat * answer) :=
  [(0, Fine); (0, Fine); (0, Fine); (0, Pipe 3); (0, Fine); (0, Fine); (0, Fine); (0, Fine); (0, Fine); (1, Fine); (0, Fails EINTR)]%nat.
Definition sp_after : list (nat * answer) :=
  (0%nat, Ready {[0]} (4, 990000)) :: replicate 9 (0%nat, Fine).
Definition sp_state (sched : list (nat * answer)) : sys vars thr := default start_state (run (exec sp_argv) sched start_state).

Lemma self_pipe_catches_witness : exists n set rd t, rd ∈ (set : fd_set) /\ printed (sp_state (sp_before ++ sp_after)) = report sp_argv true n set rd t.
Proof.
  destruct (run (exec sp_argv) sp_before start_state) as [s|] eqn:E; [|vm_compute in E; discriminate E].
  assert (exists l, threads s !! 0%nat = Some (Main (Select l)) /\ ended s = None /\ caught (shared s) = 1%nat) as (l & Hm & He & Hc).
  { vm_compute in E. injection E as <-. eexists. split; [reflexivity|]. by split. }
  destruct (self_pipe_catches sp_argv sp_before s l E Hm He ltac:(lia)) as [_ Hend].
  apply (Hend sp_after); [|vm_compute; reflexivity].
  vm_compute in E. injection E as <-. vm_compute. reflexivity.
Defined.

Lemma self_pipe_ends_witness : exists b n set rd t, printed (sp_state (sp_before ++ sp_after)) = report sp_argv b n set rd t.
Proof.
  destruct (self_pipe_ends sp_argv (sp_before ++ sp_after) (sp_state (sp_before ++ sp_after))) as (_ & _ & Hend); [vm_compute; reflexivity|].
  destruct Hend as (b & n & set & rd & t & H & _); [vm_compute; reflexivity|]. by exists b, n, set, rd, t.
Defined.

Example self_pipe_output : printed (sp_state (sp_before ++ sp_after)) =
  (fun s => str s ++ [NL]) <$> ["A signal was caught"; "ready = 2"; "0: r"; "3: r   (read end of pipe)"; "timeout after select(): 4.099"]%string.
Proof. vm_compute. reflexivity. Qed.

(** A negative descriptor is outside of the set. *)
Example self_pipe_negative : exists s, run (exec [str "self_pipe"; str "5"; str "-1"]) [(0, Fine); (0, Fine)]%nat start_state = Some s /\ ended s = Some Undefined.
Proof. eexists. split; [vm_compute; reflexivity|reflexivity]. Qed.
