(* ===== verification/SelectMq.v ===== *)
(** * Waiting for a terminal and for message queues at once

    select_mq.c (tlpi-dist/altio).  A child per queue copies its messages into a pipe, each behind a
    header; the parent waits for the terminal and for the pipe.  A step is one call of one process.  The
    messages that will arrive are in the queues from the start, and a child that takes none yet stands for
    their delay; [Spurious] is a select that finds nothing typed so far; the parameter [eof] says
    whether the terminal is at its end after what is typed, or only silent.  What goes to stderr is left
    out. *)

From Stdlib Require Import ZArith Lia String Ascii.
From S2P Require Import Prelude CString Kernel GetNum Threads.
From S2P Require SvMsg.
Import SvMsg (mbuf, Mbuf, mtype, mtext).

Definition BUF_SIZE : Z := 200.
Definition MAX_MTEXT : Z := 400.
(** The capacity of a pipe. *)
Definition PIPE_CAP : Z := 65536.

(** ** Headers

    The bytes of [struct pbuf] before [mtext]: two ints and a long, little-endian. *)

Fixpoint le (n : nat) (z : Z) : bytes := match n with O => [] | S n' => chr z :: le n' (z / 256) end.
Fixpoint un_le (s : bytes) : Z := match s with [] => 0 | c :: s' => ord c + 256 * un_le s' end.

Definition HEADER : nat := 16.
Definition header (msqid len type : Z) : bytes := le 4 msqid ++ le 4 len ++ le 8 type.
Definition msqid_of (h : bytes) : Z := s32 (un_le (take 4 h)).
Definition len_of (h : bytes) : Z := s32 (un_le (take 4 (drop 4 h))).
Definition mtype_of (h : bytes) : Z := s64 (un_le (take 8 (drop 8 h))).

(** What a child writes for a message. *)
Definition frame (msqid : Z) (m : mbuf) : bytes := header msqid (strlen (mtext m)) (mtype m) ++ mtext m.

(** ** The processes *)

Inductive parent_pc :=
| PFork (j : nat)
| PSelect
| PInput (tty mq : bool)
| PShow (buf : bytes) (mq : bool)
| PPipe (mq : bool)
| PBody (pmsg : bytes)
| PShowMsg (pmsg text : bytes)
| PEnd.

(** [CEnd] keeps what the child had in hand. *)
Inductive child_pc := CStart (arg : bytes) | CRecv (msqid : Z) | CWrite (msqid : Z) (m : mbuf) | CEnd (held : list (Z * mbuf)).

Abbreviation process := (thread parent_pc child_pc).

Record world := World { queues : gmap Z (list mbuf); pipe : bytes; typed : list bytes }.

(** [%s] and [%.*s]: up to a null byte. *)
Definition c_part (s : bytes) : bytes := match index_of NUL s with Some i => take i s | None => s end.

Definition tty_line (buf : bytes) : bytes :=
  str "Read from terminal: " ++ c_part buf ++ match last buf with Some c => if Ascii.eqb c NL then [] else [NL] | None => [] end.
Definition mq_line (msqid type len : Z) (text : bytes) : bytes :=
  str "MQ " ++ dec msqid ++ str ": type=" ++ dec type ++ str " length=" ++ dec len ++ str " <" ++ c_part text ++ str ">" ++ [NL].

(** What [getInt] makes of an argument. *)
Definition queue_id (arg : bytes) : option Z :=
  match getInt (Some arg) 0 (Some (str "msqid")) (Proc tt 0 []) with (Ret id, _) => Some id | _ => None end.

Section Program.
(** The arguments, and whether the input comes to an end after what is typed. *)
Context (argv : list bytes) (eof : bool).

Definition parent_exec (a : answer) (c : parent_pc) (g : world) : effect world process :=
  let failing := fun k => match a with Fails _ => Go (Main PEnd) g | _ => k end in
  match c with
  | PFork j =>
      match argv !! j with
      | Some arg =>
          match a with
          | Fails e => Stop (Failed e "fork")
          | _ => Create (Main (PFork (S j))) (Worker (CStart arg))
          end
      | None => Go (Main PSelect) g
      end
  | PSelect =>
      let tty := match a with Spurious => false | _ => eof || negb (bool_decide (typed g = [])) end in
      let mq := negb (bool_decide (pipe g = [])) in
      failing (if tty || mq then Go (Main (PInput tty mq)) g else Wait)
  | PInput tty mq =>
      if tty then
        failing
          match typed g with
          | [] => if eof then Go (Main (PShow [] mq)) g else Wait        (* [read] returns 0 *)
          | s :: rest =>
              let buf := take (Z.to_nat (BUF_SIZE - 1)) s in
              let left := drop (Z.to_nat (BUF_SIZE - 1)) s in
              Go (Main (PShow buf mq)) (World (queues g) (pipe g) (if bool_decide (left = []) then rest else left :: rest))
          end
      else Go (Main (PPipe mq)) g
  | PShow buf mq => Say (Main (PPipe mq)) (tty_line buf)
  | PPipe mq =>
      if mq then
        (* The children keep the write end open: an empty pipe blocks. *)
        failing (if bool_decide (pipe g = []) then Wait
                 else Go (Main (PBody (take HEADER (pipe g)))) (World (queues g) (drop HEADER (pipe g)) (typed g)))
      else Go (Main PSelect) g
  | PBody pmsg =>
      (* A header or a body of which only a part has come leaves the rest of the structure as it was. *)
      let len := Z.to_nat (len_of pmsg) in
      failing (if (len =? 0)%nat then Go (Main PEnd) g          (* taken for an end of file *)
               else if (len_of pmsg <? 0) || (MAX_MTEXT <? len_of pmsg) || (length pmsg <? HEADER)%nat then Stop Undefined
               else if bool_decide (pipe g = []) then Wait
               else if (length (pipe g) <? len)%nat then Stop Undefined
               else Go (Main (PShowMsg pmsg (take len (pipe g)))) (World (queues g) (drop len (pipe g)) (typed g)))
  | PShowMsg pmsg text => Say (Main PSelect) (mq_line (msqid_of pmsg) (mtype_of pmsg) (len_of pmsg) text)
  | PEnd => Wait
  end.

Definition childMon (a : answer) (c : child_pc) (g : world) : effect world process :=
  match c with
  | CStart arg => match queue_id arg with Some id => Go (Worker (CRecv id)) g | None => Go (Worker (CEnd [])) g end
  | CRecv id =>
      match a, queues g !! id with
      | Fails _, _ | _, None => Go (Worker (CEnd [])) g
      | _, Some [] => Wait
      | _, Some (m :: ms) =>
          if MAX_MTEXT <? strlen (mtext m) then Go (Worker (CEnd [])) g
          else Go (Worker (CWrite id m)) (World (<[id := ms]> (queues g)) (pipe g) (typed g))
      end
  | CWrite id m =>
      match a with
      | Fails _ => Go (Worker (CEnd [(id, m)])) g
      | _ => if PIPE_CAP <? strlen (pipe g ++ frame id m) then Wait
             else Go (Worker (CRecv id)) (World (queues g) (pipe g ++ frame id m) (typed g))
      end
  | CEnd _ => Wait
  end.

Definition exec (self : nat) (a : answer) (ts : list process) (t : process) (g : world) : effect world process :=
  match t with Main c => parent_exec a c g | Worker c => childMon a c g end.

Definition start_state (g : world) : sys world process := Sys g [Main (PFork 1)] [] None.
End Program.

(** ** Headers are read back *)

Lemma le_length n : forall z, length (le n z) = n.
Proof. induction n as [|n IH]; intros z; cbn; [done|]. by rewrite IH. Qed.

Lemma un_le_le n : forall z, un_le (le n z) = z mod 256 ^ Z.of_nat n.
Proof.
  induction n as [|n IH]; intros z; [cbn; by rewrite Z.mod_1_r|]. cbn [le un_le]. rewrite IH, Nat2Z.inj_succ, Z.pow_succ_r by lia.
  assert (ord (chr z) = z mod 256) as ->.
  { transitivity (ord (chr (z mod 256))); [|apply ord_chr, Z.mod_pos_bound; lia]. unfold chr. by rewrite Z.mod_mod. }
  rewrite Z.rem_mul_r by (lia || apply Z.pow_pos_nonneg; lia). lia.
Qed.

Lemma header_length i l t : length (header i l t) = HEADER.
Proof. unfold header. by rewrite !length_app, !le_length. Qed.

Lemma wrap_s_mod w z : 0 < w -> in_s w z -> wrap_s w (z mod 2 ^ w) = z.
Proof.
  intros Hw Hz. rewrite <- (wrap_s_id w z) at 2 by done. unfold wrap_s. by rewrite Zplus_mod_idemp_l.
Qed.

Lemma header_fields i l t : in_s 32 i -> in_s 32 l -> in_s 64 t ->
  msqid_of (header i l t) = i /\ len_of (header i l t) = l /\ mtype_of (header i l t) = t.
Proof.
  intros Hi Hl Ht. unfold msqid_of, len_of, mtype_of, header.
  rewrite (take_app_length' (le 4 i)), (drop_app_length' (le 4 i)) by by rewrite le_length.
  rewrite (take_app_length' (le 4 l)) by by rewrite le_length.
  assert (drop 8 (le 4 i ++ le 4 l ++ le 8 t) = le 8 t) as ->.
  { rewrite app_assoc, drop_app_length'; [done|]. by rewrite length_app, !le_length. }
  rewrite (take_ge (le 8 t)) by by rewrite le_length.
  rewrite !un_le_le. change (256 ^ Z.of_nat 4) with (2 ^ 32). change (256 ^ Z.of_nat 8) with (2 ^ 64). by rewrite !wrap_s_mod.
Qed.

(** ** What has become of every message *)

(** What the parent has printed. *)
Inductive shown := Tty (buf : bytes) | Mq (id : Z) (m : mbuf).

Definition shown_line (e : shown) : bytes :=
  match e with Tty buf => tty_line buf | Mq id m => mq_line id (mtype m) (strlen (mtext m)) (mtext m) end.
Definition tty_of (evs : list shown) : bytes := concat (omap (fun e => match e with Tty buf => Some buf | Mq _ _ => None end) evs).
Definition mq_of (evs : list shown) : list (Z * mbuf) := omap (fun e => match e with Tty _ => None | Mq id m => Some (id, m) end) evs.

(** The messages of one queue. *)
Definition from (id : Z) (l : list (Z * mbuf)) : list mbuf := snd <$> filter (fun x => x.1 = id) l.

Lemma from_app id l l' : from id (l ++ l') = from id l ++ from id l'.
Proof. unfold from. by rewrite filter_app, fmap_app. Qed.
Lemma from_one id m : from id [(id, m)] = [m].
Proof. unfold from. by rewrite filter_cons, decide_True. Qed.
Lemma from_other id id' m : id' <> id -> from id [(id', m)] = [].
Proof. intros Hne. unfold from. by rewrite filter_cons, decide_False. Qed.

(** A message that fits, has a body and a type of the kernel's. *)
Definition good (m : mbuf) : Prop := 0 < strlen (mtext m) <= MAX_MTEXT /\ in_s 64 (mtype m).

Definition frames_of (fr : list (Z * mbuf)) : bytes := concat ((fun x => frame x.1 x.2) <$> fr).

Lemma frames_of_snoc fr id m : frames_of (fr ++ [(id, m)]) = frames_of fr ++ frame id m.
Proof. unfold frames_of. rewrite fmap_app, concat_app. cbn. by rewrite app_nil_r. Qed.

Lemma frame_length id m : strlen (frame id m) = 16 + strlen (mtext m).
Proof. unfold frame, strlen. rewrite length_app, header_length. unfold HEADER. lia. Qed.

Lemma frames_of_cons id m fr : frames_of ((id, m) :: fr) = frame id m ++ frames_of fr.
Proof. done. Qed.

#[local] Arguments frame : simpl never.
#[local] Arguments header : simpl never.
#[local] Arguments le : simpl never.

Lemma frames_nil fr : frames_of fr = [] <-> fr = [].
Proof.
  split; [|by intros ->]. destruct fr as [|[id m] fr]; [done|]. rewrite frames_of_cons. intros [Hf _]%app_nil.
  apply (f_equal strlen) in Hf. rewrite frame_length in Hf. unfold strlen in Hf. cbn [length] in Hf. lia.
Qed.

(** What a child has in hand. *)
Definition held (t : process) : list (Z * mbuf) := match t with Worker (CWrite id m) => [(id, m)] | Worker (CEnd l) => l | _ => [] end.

Section Correct.
Context (prog : bytes) (args : list bytes) (ids : list Z) (q0 : gmap Z (list mbuf)) (typed0 : list bytes).
Context (Hids : Forall2 (fun arg id => queue_id arg = Some id) args ids) (Hnodup : NoDup ids).
Context (Hqueues : Forall (fun id => exists ms, q0 !! id = Some ms /\ Forall good ms) ids) (Hrange : Forall (in_s 32) ids).
Context (Htyped : Forall (fun s => s <> []) typed0).
Let ex := exec (prog :: args) false.

(** The child of a queue; what it may hold. *)
Definition child_ok (id : Z) (t : process) : Prop :=
  match t with
  | Worker (CStart arg) => queue_id arg = Some id
  | Worker (CRecv id') => id' = id
  | Worker (CWrite id' m) => id' = id /\ good m
  | Worker (CEnd l) => exists ms, l = pair id <$> ms
  | Main _ => False
  end.

(** How far the parent is: the children it has started, what it has taken out of the pipe and of the terminal and not shown yet, and
    the frames that are in the pipe. *)
Definition parent_ok (c : parent_pc) (started : nat) (hand fr : list (Z * mbuf)) (tty : bytes) (g : world) : Prop :=
  match c with
  | PFork j => j = S started /\ hand = [] /\ tty = [] /\ pipe g = frames_of fr
  | PSelect => hand = [] /\ tty = [] /\ pipe g = frames_of fr
  | PInput i p => (i || p = true) /\ (i = true -> typed g <> []) /\ (p = true -> fr <> []) /\ hand = [] /\ tty = [] /\ pipe g = frames_of fr
  | PShow buf p => (p = true -> fr <> []) /\ hand = [] /\ tty = buf /\ pipe g = frames_of fr
  | PPipe p => (p = true -> fr <> []) /\ hand = [] /\ tty = [] /\ pipe g = frames_of fr
  | PBody pmsg => tty = [] /\ exists id m, hand = [(id, m)] /\ in_s 32 id /\ good m /\ pmsg = header id (strlen (mtext m)) (mtype m) /\ pipe g = mtext m ++ frames_of fr
  | PShowMsg pmsg text => tty = [] /\ exists id m, hand = [(id, m)] /\ in_s 32 id /\ good m /\ pmsg = header id (strlen (mtext m)) (mtype m) /\ text = mtext m /\ pipe g = frames_of fr
  | PEnd => True
  end.

Record inv_at (c : parent_pc) (cs : list process) (evs : list shown) (hand fr : list (Z * mbuf)) (tty : bytes) (s : sys world process) : Prop := {
  inv_threads : threads s = Main c :: cs;
  inv_children : Forall2 child_ok (take (length cs) ids) cs;
  inv_started : (forall j, c <> PFork j) -> length cs = length ids;
  inv_some : (length cs <= length ids)%nat;
  inv_parent : parent_ok c (length cs) hand fr tty (shared s);
  inv_frames : Forall (fun x => in_s 32 x.1 /\ good x.2) fr;
  inv_queues : Forall (fun id => exists ms, queues (shared s) !! id = Some ms /\ Forall good ms) ids;
  inv_flow : forall id, id ∈ ids -> default [] (q0 !! id) =
    from id (mq_of evs) ++ from id hand ++ from id fr ++ from id (concat (held <$> cs)) ++ default [] (queues (shared s) !! id);
  inv_typed : Forall (fun s => s <> []) (typed (shared s)) /\ concat typed0 = tty_of evs ++ tty ++ concat (typed (shared s));
  inv_printed : printed s = shown_line <$> evs;
  inv_ended : match ended s with None | Some (Failed _ _) => True | _ => False end
}.
Definition inv (s : sys world process) : Prop := exists c cs evs hand fr tty, inv_at c cs evs hand fr tty s.

(** *** Children *)

Lemma held_elsewhere id id' t : child_ok id' t -> id <> id' -> from id (held t) = [].
Proof.
  intros Ht Hne. destruct t as [c|[arg|i|i m|l]]; try done; cbn [child_ok held] in *.
  - destruct Ht as [-> _]. by apply from_other.
  - destruct Ht as [ms ->]. clear -Hne. induction ms as [|m ms IH]; [done|].
    change (from id ([(id', m)] ++ (pair id' <$> ms)) = []). by rewrite from_app, from_other, IH by congruence.
Qed.

Lemma held_all id l cs : Forall2 child_ok l cs -> id ∉ l -> from id (concat (held <$> cs)) = [].
Proof.
  induction 1 as [|id' t l cs Ht _ IH]; intros Hn; [done|]. apply not_elem_of_cons in Hn as [Hne Hn]. rewrite fmap_cons. cbn [concat].
  by rewrite from_app, (held_elsewhere id id' t), IH.
Qed.

(** Of the messages of a queue only its child has any. *)
Lemma held_at (l : list Z) cs i id t : Forall2 child_ok l cs -> NoDup l -> l !! i = Some id -> cs !! i = Some t ->
  from id (concat (held <$> cs)) = from id (held t).
Proof.
  intros Hc. revert i. induction Hc as [|id' t' l cs Ht Hc IH]; intros i Hnd Hl Hi; [done|]. apply NoDup_cons in Hnd as [Hn Hnd].
  rewrite fmap_cons. cbn [concat]. rewrite from_app. destruct i as [|i]; cbn in Hl, Hi.
  - injection Hl as ->. injection Hi as ->. rewrite (held_all _ _ _ Hc Hn), app_nil_r. done.
  - rewrite (held_elsewhere id id' t'), (IH i) by (done || (intros ->; by eapply Hn, list_elem_of_lookup_2)). done.
Qed.

Lemma held_other (l : list Z) cs i id id' t t' : Forall2 child_ok l cs -> l !! i = Some id -> cs !! i = Some t -> child_ok id t' -> id' <> id ->
  from id' (concat (held <$> <[i := t']> cs)) = from id' (concat (held <$> cs)).
Proof.
  intros Hc. revert i. induction Hc as [|id0 t0 l cs Ht Hc IH]; intros i Hl Hi Ht' Hne; [done|].
  destruct i as [|i]; cbn in Hl, Hi; cbn [insert list_insert fmap list_fmap concat]; rewrite !from_app.
  - injection Hl as ->. injection Hi as ->. by rewrite (held_elsewhere id' id t'), (held_elsewhere id' id t).
  - f_equal. by apply IH.
Qed.

Lemma parent_ok_more c n hand fr tty g id m qs :
  parent_ok c n hand fr tty g -> parent_ok c n hand (fr ++ [(id, m)]) tty (World qs (pipe g ++ frame id m) (typed g)).
Proof.
  assert (forall b : bool, (b = true -> fr <> []) -> b = true -> fr ++ [(id, m)] <> []) as Hne by (intros b _ _; by destruct fr).
  destruct c; cbn [parent_ok pipe typed]; rewrite ?frames_of_snoc; [| | | | | | |done].
  - intros (? & ? & ? & ->). done.
  - intros (? & ? & ->). done.
  - intros (? & ? & ? & ? & ? & ->). split_and!; eauto.
  - intros (? & ? & ? & ->). split_and!; eauto.
  - intros (? & ? & ? & ->). split_and!; eauto.
  - intros (? & id' & m' & ? & ? & ? & ? & ->). split; [done|]. exists id', m'. by rewrite app_assoc.
  - intros (? & id' & m' & ? & ? & ? & ? & ? & ->). split; [done|]. by exists id', m'.
Qed.

Lemma smq_child_goes c cs evs hand fr tty g ts out i id t t' fr' g' :
  inv_at c cs evs hand fr tty (Sys g ts out None) -> cs !! i = Some t -> ids !! i = Some id -> child_ok id t' ->
  parent_ok c (length cs) hand fr' tty g' -> Forall (fun x => in_s 32 x.1 /\ good x.2) fr' -> typed g' = typed g ->
  (forall id', id' <> id -> queues g' !! id' = queues g !! id' /\ from id' fr' = from id' fr) ->
  (exists ms, queues g' !! id = Some ms /\ Forall good ms) ->
  from id fr' ++ from id (held t') ++ default [] (queues g' !! id) = from id fr ++ from id (held t) ++ default [] (queues g !! id) ->
  inv_at c (<[i := t']> cs) evs hand fr' tty (Sys g' (<[S i := t']> ts) out None).
Proof.
  intros [Hth Hch Hst Hso Hpa Hfr Hqu Hfl [Hty Htty] Hpr _] Hi Hid Ht' Hpa' Hfr' Htyp Hoth Hown Heq. cbn [threads shared printed] in *. subst ts.
  pose proof (lookup_lt_Some _ _ _ Hi) as Hlt. assert (take (length cs) ids !! i = Some id) as Hid' by (rewrite lookup_take_lt; done).
  assert (NoDup (take (length cs) ids)) as Hnd by (eapply sublist_NoDup; [exact Hnodup|apply sublist_take]).
  assert (Forall2 child_ok (take (length cs) ids) (<[i := t']> cs)) as Hch'.
  { apply Forall2_same_length_lookup. split; [rewrite length_insert; by eapply Forall2_length|]. intros j x y Hx Hy.
    destruct (decide (j = i)) as [->|Hne].
    - rewrite list_lookup_insert_eq in Hy by done. by simplify_eq.
    - rewrite list_lookup_insert_ne in Hy by done. by eapply (Forall2_lookup_lr _ _ _ _ _ _ Hch). }
  split; cbn [threads shared printed ended]; rewrite ?length_insert; try done.
  - apply Forall_forall. intros id' Hin. destruct (decide (id' = id)) as [->|Hne]; [done|]. rewrite (proj1 (Hoth id' Hne)).
    rewrite Forall_forall in Hqu. by apply Hqu.
  - intros id' Hin. rewrite Hfl by done. do 2 f_equal. destruct (decide (id' = id)) as [->|Hne].
    + rewrite (held_at _ _ _ _ _ Hch Hnd Hid' Hi), (held_at _ _ i id t' Hch' Hnd Hid') by by apply list_lookup_insert_eq. by rewrite <- Heq.
    + destruct (Hoth id' Hne) as [-> ->]. by rewrite (held_other _ _ _ _ _ _ _ Hch Hid' Hi Ht' Hne).
  - by rewrite Htyp.
Qed.

Lemma smq_child_step c cs evs hand fr tty g ts out a i w s' :
  inv_at c cs evs hand fr tty (Sys g ts out None) -> cs !! i = Some (Worker w) ->
  perform (S i) (childMon a w g) (Sys g ts out None) = Some s' -> exists t' fr', inv_at c (<[i := t']> cs) evs hand fr' tty s'.
Proof.
  intros HI Hi Hp. pose proof HI as [Hth Hch Hst Hso Hpa Hfr Hqu Hfl [Hty Htty] Hpr _]. cbn [threads shared printed] in *.
  destruct (Forall2_lookup_r _ _ _ _ _ Hch Hi) as (id & Hid & Hok). apply lookup_take_Some in Hid as [Hid _].
  pose proof (list_elem_of_lookup_2 _ _ _ Hid) as Hin. rewrite Forall_forall in Hqu. destruct (Hqu id Hin) as (ms & Hms & Hgood).
  assert (forall t', child_ok id t' -> held t' = held (Worker w) -> exists t'0 fr', inv_at c (<[i := t'0]> cs) evs hand fr' tty (Sys g (<[S i := t']> ts) out None)) as Hstay.
  { intros t' Ht' Hh. exists t', fr. eapply smq_child_goes; try done; [by exists ms|by rewrite Hh]. }
  destruct w as [arg|i'|i' m|l]; cbn [child_ok] in Hok; cbn [childMon] in Hp.
  - rewrite Hok in Hp. injection Hp as <-. by apply Hstay.
  - subst i'. rewrite Hms in Hp. assert (child_ok id (Worker (CEnd []))) as Hend by by exists [].
    destruct a as [|e|], ms as [|m ms]; try done; try (injection Hp as <-; by apply Hstay).
    all: apply Forall_cons in Hgood as [Hm Hgood]; rewrite (proj2 (Z.ltb_ge _ _)) in Hp by apply Hm; injection Hp as <-;
      exists (Worker (CWrite id m)), fr; eapply smq_child_goes; try done; cbn [queues];
      [intros id' Hne; by rewrite lookup_insert_ne|exists ms; by rewrite lookup_insert_eq|].
    all: rewrite lookup_insert_eq, Hms; cbn [held]; by rewrite from_one.
  - destruct Hok as [-> Hm]. destruct a as [|e|].
    2: { injection Hp as <-. exists (Worker (CEnd [(id, m)])), fr. eapply smq_child_goes; try done; [by exists [m]|by exists ms]. }
    all: destruct (PIPE_CAP <? _); [done|]; injection Hp as <-; exists (Worker (CRecv id)), (fr ++ [(id, m)]); eapply smq_child_goes; try done; cbn [queues];
      [by apply parent_ok_more| | |by exists ms|cbn [held]; by rewrite from_app, from_one, <- app_assoc].
    all: try (apply Forall_app; split; [done|]; repeat constructor; try apply Hm; rewrite Forall_forall in Hrange; by apply Hrange).
    all: intros id' Hne; split; [done|]; by rewrite from_app, from_other, app_nil_r by congruence.
  - done.
Qed.

(** *** The parent *)

Lemma smq_parent_goes c c' cs evs evs' hand hand' fr fr' tty tty' g g' ts out out' :
  inv_at c cs evs hand fr tty (Sys g ts out None) -> (forall j, c' = PFork j -> c = PFork j) ->
  ((forall j, c <> PFork j) \/ length cs = length ids) ->
  parent_ok c' (length cs) hand' fr' tty' g' -> Forall (fun x => in_s 32 x.1 /\ good x.2) fr' -> queues g' = queues g ->
  mq_of evs' ++ hand' ++ fr' = mq_of evs ++ hand ++ fr ->
  Forall (fun s => s <> []) (typed g') -> tty_of evs' ++ tty' ++ concat (typed g') = tty_of evs ++ tty ++ concat (typed g) ->
  out' = shown_line <$> evs' -> inv_at c' cs evs' hand' fr' tty' (Sys g' (<[0%nat := Main c']> ts) out' None).
Proof.
  intros [Hth Hch Hst Hso Hpa Hfr Hqu Hfl [Hty Htty] Hpr _] Hfork Hall Hpa' Hfr' Hq Hmq Hty' Htt Hout. cbn [threads shared printed] in *. subst ts.
  split; cbn [threads shared printed ended]; try done.
  - intros Hc'. destruct Hall as [Hall|Hall]; [by apply Hst|done].
  - by rewrite Hq.
  - intros id Hin. rewrite Hfl, Hq, !(assoc_L (++)) by done. f_equal. f_equal. rewrite <- !from_app, <- !(assoc_L (++)). by rewrite Hmq.
  - split; [done|]. by rewrite Htt.
Qed.

Lemma frame_take id m rest : take HEADER (frame id m ++ rest) = header id (strlen (mtext m)) (mtype m) /\ drop HEADER (frame id m ++ rest) = mtext m ++ rest.
Proof.
  unfold frame. rewrite <- app_assoc. split; [by rewrite take_app_length' by by rewrite header_length|by rewrite drop_app_length' by by rewrite header_length].
Qed.

Lemma good_int m : good m -> in_s 32 (strlen (mtext m)).
Proof. intros [[H1 H2] _]. unfold MAX_MTEXT in H2. unfold in_s. lia. Qed.

Lemma mq_of_snoc evs e : mq_of (evs ++ [e]) = mq_of evs ++ match e with Tty _ => [] | Mq id m => [(id, m)] end.
Proof. unfold mq_of. rewrite omap_app. by destruct e. Qed.
Lemma tty_of_snoc evs e : tty_of (evs ++ [e]) = tty_of evs ++ match e with Tty buf => buf | Mq _ _ => [] end.
Proof. unfold tty_of. rewrite omap_app, concat_app. destruct e; cbn; by rewrite ?app_nil_r. Qed.

Lemma fork_step cs evs hand fr tty g ts out a j s' : inv_at (PFork j) cs evs hand fr tty (Sys g ts out None) ->
  perform 0 (parent_exec (prog :: args) false a (PFork j) g) (Sys g ts out None) = Some s' -> inv s'.
Proof.
  intros HI Hp. pose proof HI as [Hth Hch Hst Hso Hpa Hfr Hqu Hfl Hty Hpr Hend]. cbn [threads shared printed ended] in *. destruct Hpa as (-> & -> & -> & Hpipe).
  cbn [parent_exec orb] in Hp. change ((prog :: args) !! S (length cs)) with (args !! length cs) in Hp.
  destruct (args !! length cs) as [arg|] eqn:Ea.
  - destruct (Forall2_lookup_l _ _ _ _ _ Hids Ea) as (id & Hid & Harg).
    assert (inv (Sys g (<[0%nat := Main (PFork (S (S (length cs))))]> ts ++ [Worker (CStart arg)]) out None)) as HI'.
    { exists (PFork (S (S (length cs)))), (cs ++ [Worker (CStart arg)]), evs, [], fr, []. subst ts.
      split; cbn [threads shared printed ended]; rewrite ?length_app, ?Nat.add_1_r; try done.
      - rewrite (take_S_r _ _ _ Hid). apply Forall2_app; [done|]. constructor; [exact Harg|constructor].
      - intros Hj. by destruct (Hj (S (S (length cs)))).
      - apply lookup_lt_Some in Hid. lia.
      - intros id' Hin. rewrite (Hfl id' Hin), fmap_app, concat_app. change (concat (held <$> [Worker (CStart arg)])) with (@nil (Z * mbuf)). by rewrite app_nil_r. }
    destruct a; cbn [perform] in Hp; injection Hp as <-; [done| |done].
    exists (PFork (S (length cs))), cs, evs, [], fr, []. by split.
  - injection Hp as <-. exists PSelect, cs, evs, [], fr, []. eapply smq_parent_goes; try done; [|by apply Hty].
    right. apply lookup_ge_None in Ea. rewrite (Forall2_length _ _ _ Hids) in Ea. lia.
Qed.

(** A step of the parent that fails, or takes nothing on its way. *)
Lemma parent_stays c c' cs evs hand fr tty g ts out :
  inv_at c cs evs hand fr tty (Sys g ts out None) -> (forall j, c <> PFork j) -> (forall j, c' <> PFork j) -> parent_ok c' (length cs) hand fr tty g ->
  inv (Sys g (<[0%nat := Main c']> ts) out None).
Proof.
  intros HI Hc Hc' Hok. exists c', cs, evs, hand, fr, tty. eapply smq_parent_goes; try done; [|by left|..]; try apply HI.
  intros j Hj. by destruct (Hc' j).
Qed.

Lemma parent_step c cs evs hand fr tty g ts out a s' : inv_at c cs evs hand fr tty (Sys g ts out None) ->
  perform 0 (parent_exec (prog :: args) false a c g) (Sys g ts out None) = Some s' -> inv s'.
Proof.
  intros HI Hp. pose proof HI as [_ _ _ _ Hpa Hfr _ _ [Hty Htty] Hpr _]. cbn [threads shared printed ended] in *.
  assert ((forall j, c <> PFork j) -> inv (Sys g (<[0%nat := Main PEnd]> ts) out None)) as Hfail by (intros Hc; by eapply parent_stays).
  destruct c as [j| |i p|buf p|p|pmsg|pmsg text|]; [by eapply fork_step|..]; specialize (Hfail ltac:(done)); cbn [parent_exec orb] in Hp.
  - destruct Hpa as (-> & -> & Hpipe). set (i := match a with Spurious => false | _ => negb (bool_decide (typed g = [])) end) in Hp.
    set (p := negb (bool_decide (pipe g = []))) in Hp. assert (i = true -> typed g <> []) as Hi.
    { unfold i. destruct a; try done; by rewrite negb_true_iff, bool_decide_eq_false. }
    assert (p = true -> fr <> []) as Hpp by (unfold p; rewrite negb_true_iff, bool_decide_eq_false, Hpipe, frames_nil; done).
    assert (i || p = true -> inv (Sys g (<[0%nat := Main (PInput i p)]> ts) out None)) as Hgo by (intros Hip; by eapply parent_stays).
    clearbody i p. destruct (i || p); destruct a; try done; cbn [perform] in Hp; injection Hp as <-; auto.
  - destruct Hpa as (Hip & Hi & Hpp & -> & -> & Hpipe). destruct i.
    + destruct (typed g) as [|s rest] eqn:Et; [by destruct (Hi eq_refl)|]. apply Forall_cons in Hty as [Hs Hrest].
      assert (inv (Sys (World (queues g) (pipe g) (if bool_decide (drop (Z.to_nat (BUF_SIZE - 1)) s = []) then rest else drop (Z.to_nat (BUF_SIZE - 1)) s :: rest))
        (<[0%nat := Main (PShow (take (Z.to_nat (BUF_SIZE - 1)) s) p)]> ts) out None)) as Hgo.
      { exists (PShow (take (Z.to_nat (BUF_SIZE - 1)) s) p), cs, evs, [], fr, (take (Z.to_nat (BUF_SIZE - 1)) s). eapply smq_parent_goes; try done; [by left| |]; cbn [typed]; case_bool_decide as Hd; try done.
        - by constructor.
        - rewrite Et. cbn [concat]. rewrite <- (take_drop (Z.to_nat (BUF_SIZE - 1)) s) at 2. by rewrite Hd, app_nil_r.
        - rewrite Et. cbn [concat]. by rewrite (assoc_L (++) (take _ s)), take_drop. }
      destruct a; cbn [perform] in Hp; injection Hp as <-; done.
    + injection Hp as <-. by eapply parent_stays.
  - destruct Hpa as (Hpp & -> & -> & Hpipe). cbn [perform] in Hp. injection Hp as <-. exists (PPipe p), cs, (evs ++ [Tty buf]), [], fr, [].
    eapply smq_parent_goes; try done; [by left| | |].
    + by rewrite mq_of_snoc, app_nil_r.
    + by rewrite tty_of_snoc, <- app_assoc.
    + by rewrite fmap_app, Hpr.
  - destruct Hpa as (Hpp & -> & -> & Hpipe). destruct p; [|injection Hp as <-; by eapply parent_stays].
    destruct fr as [|[id m] fr]; [by destruct (Hpp eq_refl)|]. rewrite frames_of_cons in Hpipe. apply Forall_cons in Hfr as [[Hid Hm] Hfr].
    destruct (frame_take id m (frames_of fr)) as [Ht Hd]. rewrite Hpipe, Ht, Hd in Hp.
    assert (inv (Sys (World (queues g) (mtext m ++ frames_of fr) (typed g)) (<[0%nat := Main (PBody (header id (strlen (mtext m)) (mtype m)))]> ts) out None)) as Hgo.
    { exists (PBody (header id (strlen (mtext m)) (mtype m))), cs, evs, [(id, m)], fr, []. eapply smq_parent_goes; try done; [by left|]. split; [done|]. by exists id, m. }
    destruct (bool_decide (frame id m ++ frames_of fr = [])); destruct a; cbn [perform] in Hp; try done; injection Hp as <-; done.
  - destruct Hpa as (-> & id & m & -> & Hid & Hm & -> & Hpipe). destruct (header_fields id (strlen (mtext m)) (mtype m) Hid (good_int m Hm) (proj2 Hm)) as (_ & Hlen & _).
    rewrite Hlen, header_length, Hpipe in Hp. destruct Hm as [[Hpos Hmax] Hty64].
    rewrite (proj2 (Nat.eqb_neq _ _)), (proj2 (Z.ltb_ge (strlen (mtext m)) 0)), (proj2 (Z.ltb_ge MAX_MTEXT _)) in Hp by lia. rewrite (Nat.ltb_irrefl HEADER) in Hp. cbn [orb] in Hp.
    assert (Z.to_nat (strlen (mtext m)) = length (mtext m)) as El by (unfold strlen; lia).
    rewrite El, bool_decide_eq_false_2, (proj2 (Nat.ltb_ge _ _)), take_app_length, drop_app_length in Hp.
    2: { rewrite length_app. lia. } 2: { intros [Hn _]%app_nil. rewrite Hn in Hpos. by vm_compute in Hpos. }
    assert (inv (Sys (World (queues g) (frames_of fr) (typed g)) (<[0%nat := Main (PShowMsg (header id (strlen (mtext m)) (mtype m)) (mtext m))]> ts) out None)) as Hgo.
    { exists (PShowMsg (header id (strlen (mtext m)) (mtype m)) (mtext m)), cs, evs, [(id, m)], fr, []. eapply smq_parent_goes; try done; [by left|].
      split; [done|]. exists id, m. by split_and!. }
    destruct a; cbn [perform] in Hp; injection Hp as <-; done.
  - destruct Hpa as (-> & id & m & -> & Hid & Hm & -> & -> & Hpipe). destruct (header_fields id (strlen (mtext m)) (mtype m) Hid (good_int m Hm) (proj2 Hm)) as (Hi & Hlen & Ht).
    rewrite Hi, Hlen, Ht in Hp. cbn [perform] in Hp. injection Hp as <-. exists PSelect, cs, (evs ++ [Mq id m]), [], fr, [].
    eapply smq_parent_goes; try done; [by left| | |].
    + by rewrite mq_of_snoc, <- app_assoc.
    + by rewrite tty_of_snoc, app_nil_r.
    + by rewrite fmap_app, Hpr.
  - done.
Qed.

Lemma select_mq_step ok s s' : inv s -> step ex ok s s' -> inv s'.
Proof.
  intros (c & cs & evs & hand & fr & tty & HI) (He & i & a & t & _ & Hi & Hp)%step_inv. destruct s as [g ts out e]. cbn [threads shared ended] in *. subst e.
  pose proof (inv_threads _ _ _ _ _ _ _ HI) as Hts. cbn [threads] in Hts. destruct i as [|i]; rewrite Hts in Hi; cbn in Hi.
  - injection Hi as <-. by eapply parent_step.
  - destruct (Forall2_lookup_r _ _ _ _ _ (inv_children _ _ _ _ _ _ _ HI) Hi) as (id & _ & Hok). destruct t as [|w]; [done|].
    destruct (smq_child_step _ _ _ _ _ _ _ _ _ _ _ _ _ HI Hi Hp) as (t' & fr' & HI').
    by exists c, (<[i := t']> cs), evs, hand, fr', tty.
Qed.

Definition start : sys world process := start_state (World q0 [] typed0).

Lemma select_mq_start : inv start.
Proof. exists (PFork 1), [], [], [], [], []. split; cbn; try done; [intros Hc; by destruct (Hc 1%nat)|lia]. Qed.

Lemma select_mq_reach ok s : rtc (step ex ok) start s -> inv s.
Proof.
  intros [n Hn]%rtc_nsteps. revert Hn. pose proof select_mq_start as H0. revert H0. generalize start.
  induction n as [|n IH]; intros s0 H0 Hn; inversion Hn; subst; [done|]. eapply IH; [by eapply select_mq_step|done].
Qed.

(** *** What is left to do *)

Definition left_parent (c : parent_pc) : Z :=
  match c with
  | PFork j => 3 * (Z.of_nat (length ids) + 1 - Z.of_nat j) + 6
  | PSelect => 5
  | PInput _ _ => 4
  | PShow _ _ => 7
  | PPipe mq => if mq then 3 else 6
  | PBody _ => 18
  | PShowMsg _ _ => 17
  | PEnd => 0
  end.
Definition left_thread (t : process) : Z :=
  match t with
  | Main c => left_parent c
  | Worker w => match w with CStart _ => 2 | CRecv _ => 1 | CWrite _ _ => 418 | CEnd _ => 0 end
  end.
Definition left_queues (qs : gmap Z (list mbuf)) : Z := zsum (fun id => 418 * Z.of_nat (length (default [] (qs !! id)))) ids.
Definition left_typed (l : list bytes) : Z := zsum (fun s => strlen s + 10) l.
Definition mu (s : sys world process) : Z :=
  zsum left_thread (threads s) + left_queues (queues (shared s)) + strlen (pipe (shared s)) + left_typed (typed (shared s)) +
  match ended s with None => 1 | Some _ => 0 end.

Lemma zsum_cons {A} (f : A -> Z) x l : zsum f (x :: l) = f x + zsum f l.
Proof. done. Qed.

Lemma zsum_ext {A} (f f' : A -> Z) l : (forall x, x ∈ l -> f' x = f x) -> zsum f' l = zsum f l.
Proof. induction l as [|x l IH]; intros Hf; [done|]. rewrite !zsum_cons, Hf, IH; [done| |by left]. intros y Hy. apply Hf. by right. Qed.

Lemma zsum_at {A} (f f' : A -> Z) l x : NoDup l -> x ∈ l -> (forall y, y <> x -> f' y = f y) -> zsum f' l = zsum f l - f x + f' x.
Proof.
  intros Hnd Hx Hf. induction Hnd as [|y l Hy Hnd IH]; [by apply elem_of_nil in Hx|]. rewrite !zsum_cons. apply elem_of_cons in Hx as [->|Hx].
  - rewrite (zsum_ext f f' l); [lia|]. intros z Hz. apply Hf. by intros ->.
  - rewrite IH, (Hf y) by (done || by intros ->). lia.
Qed.

Lemma left_queues_take qs id m ms : id ∈ ids -> qs !! id = Some (m :: ms) -> left_queues (<[id := ms]> qs) = left_queues qs - 418.
Proof.
  intros Hin Hq. unfold left_queues.
  rewrite (zsum_at (fun id => 418 * Z.of_nat (length (default [] (qs !! id)))) (fun id0 => 418 * Z.of_nat (length (default [] (<[id := ms]> qs !! id0)))) ids id Hnodup Hin).
  - rewrite lookup_insert_eq, Hq. change (default [] (Some ms)) with ms. change (default [] (Some (m :: ms))) with (m :: ms). cbn [length]. lia.
  - intros y Hy. by rewrite lookup_insert_ne.
Qed.

Lemma zsum_nonneg_forall {A} (f : A -> Z) l : Forall (fun x => 0 <= f x) l -> 0 <= zsum f l.
Proof. induction 1 as [|x l Hx _ IH]; [done|]. rewrite zsum_cons. lia. Qed.

Lemma smq_mu_nonneg s : inv s -> 0 <= mu s.
Proof.
  intros (c & cs & evs & hand & fr & tty & HI). unfold mu. rewrite (inv_threads _ _ _ _ _ _ _ HI), zsum_cons.
  assert (0 <= left_queues (queues (shared s))) by (apply zsum_nonneg; intros; lia).
  assert (0 <= left_typed (typed (shared s))) by (apply zsum_nonneg; intros x; pose proof (strlen_nonneg x); lia).
  pose proof (strlen_nonneg (pipe (shared s))).
  assert (0 <= zsum left_thread cs).
  { apply zsum_nonneg_forall. pose proof (inv_children _ _ _ _ _ _ _ HI) as Hch. revert Hch. generalize (take (length cs) ids). clear.
    intros l Hch. induction Hch as [|id t l cs Ht _ IH]; [constructor|]. constructor; [|done]. destruct t as [|[]]; try done; cbn; lia. }
  assert (0 <= left_parent c).
  { pose proof (inv_parent _ _ _ _ _ _ _ HI) as Hp. pose proof (inv_some _ _ _ _ _ _ _ HI). destruct c as [j| | | | [] | | |]; cbn in *; try lia. }
  cbn [left_thread]. destruct (ended s); lia.
Qed.

Lemma mu_thread g g' ts out out' e e' i t t' : ts !! i = Some t ->
  mu (Sys g' (<[i := t']> ts) out' e') - mu (Sys g ts out e) =
  left_thread t' - left_thread t + (left_queues (queues g') - left_queues (queues g)) + (strlen (pipe g') - strlen (pipe g)) +
  (left_typed (typed g') - left_typed (typed g)) + (match e' with None => 1 | Some _ => 0 end - match e with None => 1 | Some _ => 0 end).
Proof. intros Hi. unfold mu. cbn [threads shared ended]. rewrite (zsum_insert _ _ _ _ _ Hi). lia. Qed.

Lemma left_typed_take s rest : s <> [] ->
  let left := drop (Z.to_nat (BUF_SIZE - 1)) s in
  left_typed (if bool_decide (left = []) then rest else left :: rest) <= left_typed (s :: rest) - 10.
Proof.
  intros Hs left. unfold left_typed. rewrite (zsum_cons _ s). case_bool_decide as Hl; [pose proof (strlen_nonneg s); lia|]. rewrite zsum_cons.
  assert (length left <> 0)%nat as Hlen by (by intros ?%nil_length_inv). unfold left, strlen in *. rewrite length_drop in *. unfold BUF_SIZE in *. lia.
Qed.

(** A condition of the step at hand. *)
Ltac case_if H := match type of H with context [if ?b then _ else _] => destruct b eqn:? end.

Lemma mu_step ok s s' : inv s -> step ex ok s s' -> mu s' < mu s.
Proof.
  intros (c & cs & evs & hand & fr & tty & HI) (He & i & a & t & _ & Hi & Hp)%step_inv. destruct s as [g ts out e]. cbn [threads shared ended] in *. subst e.
  pose proof HI as [Hts Hch Hst Hso Hpa Hfr Hqu Hfl [Hty Htty] Hpr _]. cbn [threads shared printed] in *.
  assert (forall t' g' out', left_thread t' - left_thread t + (left_queues (queues g') - left_queues (queues g)) + (strlen (pipe g') - strlen (pipe g)) +
    (left_typed (typed g') - left_typed (typed g)) < 0 -> mu (Sys g' (<[i := t']> ts) out' None) < mu (Sys g ts out None)) as Hgo.
  { intros t' g' out' Hlt. pose proof (mu_thread g g' ts out out' None None i t t' Hi). lia. }
  assert (forall e', mu (Sys g ts out (Some e')) < mu (Sys g ts out None)) as Hstop by (intros e'; unfold mu; cbn [threads shared ended]; lia).
  destruct i as [|i]; pose proof Hi as Hi0; rewrite Hts in Hi0; cbn in Hi0.
  - injection Hi0 as <-. cbn [ex exec] in Hp. unfold ex, exec in Hp.
    destruct c as [j| |i p|buf p|p|pmsg|pmsg text|]; cbn [parent_exec parent_ok orb] in Hp, Hpa; cbn [left_thread] in Hgo.
    + destruct Hpa as (-> & _). destruct ((prog :: args) !! S (length cs)); [|cbn [perform] in Hp; injection Hp as <-; apply Hgo; cbn; lia].
      destruct a; cbn [perform] in Hp; injection Hp as <-; try apply Hstop; unfold mu; cbn [threads shared ended];
        rewrite zsum_app, (zsum_insert _ _ _ _ _ Hi), zsum_cons; cbn [zsum foldr left_thread left_parent]; lia.
    + destruct a; repeat case_if Hp; cbn [perform] in Hp; try done; injection Hp as <-; apply Hgo; cbn; lia.
    + destruct Hpa as (Hip & Hne & _). destruct i.
      * destruct (typed g) as [|s rest] eqn:Et; [by destruct (Hne eq_refl)|]. apply Forall_cons in Hty as [Hs _]. pose proof (left_typed_take s rest Hs) as Hl. cbv zeta in Hl.
        destruct a; cbn [perform] in Hp; injection Hp as <-; apply Hgo; cbn [queues pipe typed left_thread left_parent]; rewrite ?Et; lia.
      * cbn in Hip. subst p. injection Hp as <-. apply Hgo. cbn. lia.
    + cbn [perform] in Hp. injection Hp as <-. apply Hgo. destruct p; cbn; lia.
    + destruct p; [|injection Hp as <-; apply Hgo; cbn; lia]. destruct Hpa as (Hpp & _ & _ & Hpipe).
      destruct fr as [|[id m] fr]; [by destruct (Hpp eq_refl)|]. rewrite frames_of_cons in Hpipe. destruct (frame_take id m (frames_of fr)) as [_ Hd].
      destruct a; repeat case_if Hp; cbn [perform] in Hp; try done; injection Hp as <-; apply Hgo; cbn [queues pipe typed left_thread left_parent]; try lia.
      all: rewrite Hpipe, Hd, !strlen_app, frame_length; lia.
    + destruct a; repeat case_if Hp; cbn [perform] in Hp; try done; injection Hp as <-; try apply Hstop; apply Hgo;
        cbn [queues pipe typed left_thread left_parent]; unfold strlen; rewrite ?length_drop; z_bool; lia.
    + cbn [perform] in Hp. injection Hp as <-. apply Hgo. cbn. lia.
    + done.
  - destruct (Forall2_lookup_r _ _ _ _ _ Hch Hi0) as (id & Hid & Hok). apply lookup_take_Some in Hid as [Hid _].
    pose proof (list_elem_of_lookup_2 _ _ _ Hid) as Hin. destruct t as [|w]; [done|]. unfold ex, exec in Hp.
    destruct w as [arg|i'|i' m|l]; cbn [childMon child_ok] in Hp, Hok; cbn [left_thread] in Hgo.
    + destruct (queue_id arg); cbn [perform] in Hp; injection Hp as <-; apply Hgo; cbn; lia.
    + subst i'. destruct (queues g !! id) as [[|m ms]|] eqn:Eq.
      * destruct a; cbn [perform] in Hp; try done. injection Hp as <-. apply Hgo. cbn. lia.
      * pose proof (left_queues_take _ _ _ _ Hin Eq). destruct a; repeat case_if Hp; cbn [perform] in Hp; injection Hp as <-; apply Hgo; cbn [queues pipe typed left_thread]; lia.
      * destruct a; cbn [perform] in Hp; injection Hp as <-; apply Hgo; cbn; lia.
    + destruct Hok as [-> [[_ Hmax] _]]. destruct a; repeat case_if Hp; cbn [perform] in Hp; try done; injection Hp as <-; apply Hgo; cbn [queues pipe typed left_thread]; try lia.
      all: rewrite strlen_app, frame_length; unfold MAX_MTEXT in Hmax; lia.
    + done.
Qed.

(** *** Without failures *)

Definition works (a : answer) : Prop := match a with Fails _ => False | _ => True end.
Definition alive (t : process) : Prop := match t with Main PEnd | Worker (CEnd _) => False | _ => True end.
Definition all_alive (s : sys world process) : Prop := ended s = None /\ Forall alive (threads s).

Lemma alive_step s s' : inv s -> all_alive s -> step ex works s s' -> all_alive s'.
Proof.
  intros (c & cs & evs & hand & fr & tty & HI) [_ Hal] (He & i & a & t & Ha & Hi & Hp)%step_inv. destruct s as [g ts out e]. cbn [threads shared ended] in *. subst e.
  pose proof HI as [Hts Hch _ _ Hpa _ Hqu _ _ _ _]. cbn [threads shared] in *.
  assert (forall t' g' out', alive t' -> all_alive (Sys g' (<[i := t']> ts) out' None)) as Hgo by (intros; split; [done|by apply Forall_insert]).
  destruct i as [|i]; pose proof Hi as Hi0; rewrite Hts in Hi0; cbn in Hi0.
  - injection Hi0 as <-. unfold ex, exec in Hp. destruct c as [j| |i p|buf p|p|pmsg|pmsg text|]; cbn [parent_exec parent_ok orb] in Hp, Hpa.
    + destruct Hpa as (-> & _). destruct ((prog :: args) !! S (length cs)); [|injection Hp as <-; by apply Hgo].
      destruct a; [|done|]; cbn [perform] in Hp; injection Hp as <-; (split; [done|]); (apply Forall_app; split; [by apply Forall_insert|by repeat constructor]).
    + destruct a; [|done|]; repeat case_if Hp; cbn [perform] in Hp; try done; injection Hp as <-; by apply Hgo.
    + destruct i; [|injection Hp as <-; by apply Hgo]. destruct (typed g); destruct a; try done; cbn [perform] in Hp; try done; injection Hp as <-; by apply Hgo.
    + cbn [perform] in Hp. injection Hp as <-. by apply Hgo.
    + destruct p; [|injection Hp as <-; by apply Hgo]. destruct a; [|done|]; repeat case_if Hp; cbn [perform] in Hp; try done; injection Hp as <-; by apply Hgo.
    + destruct Hpa as (_ & id & m & _ & Hid & Hm & -> & Hpipe). destruct (header_fields id (strlen (mtext m)) (mtype m) Hid (good_int m Hm) (proj2 Hm)) as (_ & Hlen & _).
      rewrite Hlen, header_length, Hpipe in Hp. destruct Hm as [[Hpos Hmax] _]. rewrite (Nat.ltb_irrefl HEADER) in Hp.
      destruct a; [|done|]; repeat case_if Hp; cbn [perform] in Hp; try done; injection Hp as <-; try (by apply Hgo); exfalso;
        repeat match goal with E : (_ || _) = true |- _ => apply orb_true_iff in E as [E|E] | E : (_ =? _)%nat = true |- _ => apply Nat.eqb_eq in E | E : (_ <? _)%nat = true |- _ => apply Nat.ltb_lt in E end;
        z_bool; unfold strlen in *; rewrite ?length_app in *; try done; lia.
    + cbn [perform] in Hp. injection Hp as <-. by apply Hgo.
    + done.
  - destruct (Forall2_lookup_r _ _ _ _ _ Hch Hi0) as (id & Hid & Hok). apply lookup_take_Some in Hid as [Hid _].
    pose proof (list_elem_of_lookup_2 _ _ _ Hid) as Hin. rewrite Forall_forall in Hqu. destruct (Hqu id Hin) as (ms & Hms & Hgood).
    destruct t as [|w]; [done|]. unfold ex, exec in Hp. destruct w as [arg|i'|i' m|l]; cbn [childMon child_ok] in Hp, Hok.
    + rewrite Hok in Hp. injection Hp as <-. by apply Hgo.
    + subst i'. rewrite Hms in Hp. destruct ms as [|m ms]; [by destruct a|]. apply Forall_cons in Hgood as [[[_ Hm] _] _].
      rewrite (proj2 (Z.ltb_ge _ _)) in Hp by done. destruct a; [|done|]; injection Hp as <-; by apply Hgo.
    + destruct a; [|done|]; repeat case_if Hp; cbn [perform] in Hp; try done; injection Hp as <-; by apply Hgo.
    + done.
Qed.

Lemma alive_reach s : rtc (step ex works) start s -> all_alive s.
Proof.
  intros [n Hn]%rtc_nsteps. assert (all_alive start) as H0 by (split; [done|by repeat constructor]). pose proof select_mq_start as HI0.
  revert HI0 H0 Hn. generalize start. induction n as [|n IH]; intros s0 HI0 H0 Hn; inversion Hn; subst; [done|].
  eapply IH; [by eapply select_mq_step|by eapply alive_step|done].
Qed.

(** Where nothing can go on all has been shown. *)
Lemma stuck_shown s : inv s -> all_alive s -> (forall s', ~ step ex works s s') ->
  exists evs, printed s = shown_line <$> evs /\ tty_of evs = concat typed0 /\ forall id, id ∈ ids -> from id (mq_of evs) = default [] (q0 !! id).
Proof.
  intros (c & cs & evs & hand & fr & tty & HI) [He Hal] Hstuck.
  assert (forall i t, threads s !! i = Some t -> ex i Fine (threads s) t (shared s) = Wait) as Hwait.
  { intros i t Hi. destruct (ex i Fine (threads s) t (shared s)) eqn:E; try done;
      (destruct (run_one_enabled ex i Fine t s He Hi) as [s' Hs']; [by rewrite E|]; destruct (Hstuck s'); by exists i, Fine). }
  destruct s as [g ts out e]. pose proof HI as [Hts Hch Hst _ Hpa _ Hqu Hfl [Hty Htty] Hpr _]. cbn [threads shared printed ended] in *. subst ts e.
  pose proof (Hwait 0%nat _ eq_refl) as H0. unfold ex, exec in H0. apply Forall_cons in Hal as [Hal Hals].
  assert (c = PSelect /\ typed g = [] /\ pipe g = []) as (-> & Ht & Hp).
  { destruct c as [j| |i p|buf p|p|pmsg|pmsg text|]; cbn [parent_exec parent_ok orb] in H0, Hpa; try done.
    - by destruct ((prog :: args) !! j).
    - destruct (bool_decide_reflect (typed g = [])), (bool_decide_reflect (pipe g = [])); try done.
    - destruct i; [|done]. destruct Hpa as (_ & Hne & _). destruct (typed g); [by destruct (Hne eq_refl)|done].
    - destruct p; [|done]. destruct Hpa as (Hne & _ & _ & Hpipe). rewrite bool_decide_eq_false_2 in H0; [done|]. rewrite Hpipe, frames_nil. by apply Hne.
    - destruct Hpa as (_ & id & m & _ & _ & [[Hpos _] _] & _ & Hpipe). rewrite bool_decide_eq_false_2 in H0.
      + destruct (_ =? _)%nat; [done|]. destruct (_ || _); [done|]. by destruct (_ <? _)%nat.
      + rewrite Hpipe. intros [Hn _]%app_nil. rewrite Hn in Hpos. by vm_compute in Hpos. }
  destruct Hpa as (-> & -> & Hpipe). rewrite Hp in Hpipe. symmetry in Hpipe. apply frames_nil in Hpipe as ->.
  assert (length cs = length ids) as Hlen by by apply Hst. rewrite Hlen, take_ge in Hch by done.
  exists evs. split; [done|]. rewrite Ht in Htty. cbn in Htty. rewrite app_nil_r in Htty. split; [done|].
  intros id Hin. rewrite Hfl by done. apply list_elem_of_lookup in Hin as [i Hi]. destruct (Forall2_lookup_l _ _ _ _ _ Hch Hi) as (t & Hti & Hok).
  rewrite (held_at _ _ _ _ _ Hch Hnodup Hi Hti). pose proof (Hwait (S i) _ Hti) as H1.
  rewrite Forall_lookup in Hals. specialize (Hals _ _ Hti). rewrite Forall_forall in Hqu. destruct (Hqu id (list_elem_of_lookup_2 _ _ _ Hi)) as (ms & Hms & Hgood).
  destruct t as [|[arg|i'|i' m|l]]; try done; unfold ex, exec in H1; cbn [childMon child_ok] in H1, Hok.
  - by rewrite Hok in H1.
  - subst i'. rewrite Hms in *. destruct ms as [|m ms]; [cbn; by rewrite !app_nil_r|]. by destruct (_ <? _).
  - destruct Hok as [-> [[_ Hm] _]]. rewrite Hp in H1. cbn [Datatypes.app] in H1. rewrite (proj2 (Z.ltb_ge _ _)) in H1; [done|].
    rewrite frame_length. unfold MAX_MTEXT, PIPE_CAP in *. lia.
Qed.

(** The longest run. *)
Definition longest : Z := 3 * Z.of_nat (length ids) + 7 + left_queues q0 + left_typed typed0.

(** C5: select_mq shows what is typed and what arrives in each of its queues.  For different queues whose messages have a body of at
    most 400 bytes, whatever the calls answer: no run has more than the stated number of steps; what has been shown of the terminal
    is a beginning of what was typed, and of each queue, with identifiers, types, lengths and texts, a beginning of its messages in
    their order, though all children write into one pipe.  When no call fails, a run that cannot go on has shown everything.  The
    terminal has no end of input after what is typed ([eof_spins] says what happens at one). *)
Theorem select_mq_shows n s : nsteps (step ex any) n start s ->
  Z.of_nat n <= longest /\
  (exists evs, printed s = shown_line <$> evs /\ tty_of evs `prefix_of` concat typed0 /\
     forall id, id ∈ ids -> from id (mq_of evs) `prefix_of` default [] (q0 !! id)) /\
  (rtc (step ex works) start s -> (forall s', ~ step ex works s s') ->
     exists evs, printed s = shown_line <$> evs /\ tty_of evs = concat typed0 /\ forall id, id ∈ ids -> from id (mq_of evs) = default [] (q0 !! id)).
Proof.
  intros Hn. assert (inv s) as HI by (apply (select_mq_reach any), rtc_nsteps; by exists n). split_and!.
  - transitivity (mu start).
    + eapply (nsteps_zbounded_inv (step ex any) inv mu); [apply smq_mu_nonneg| |apply select_mq_start|done].
      intros a b Ha Hab. split; [by eapply select_mq_step|by eapply mu_step].
    + unfold mu, longest. cbn [start start_state threads shared ended queues pipe typed zsum foldr left_thread left_parent]. unfold strlen. cbn [length]. lia.
  - destruct HI as (c & cs & evs & hand & fr & tty & HI). exists evs. split; [apply HI|]. split.
    + destruct (inv_typed _ _ _ _ _ _ _ HI) as [_ ->]. by apply prefix_app_r.
    + intros id Hin. rewrite (inv_flow _ _ _ _ _ _ _ HI id Hin). by apply prefix_app_r.
  - intros Hr Hstuck. by apply stuck_shown; [|apply alive_reach|].
Qed.
End Correct.

(** ** Runs *)

Definition two_queues : gmap Z (list mbuf) := <[7 := [Mbuf 1 (str "a"); Mbuf 2 (str "b")]]> (<[9 := [Mbuf 5 (str "c")]]> ∅).

(** Along a schedule of the processes, every call answered well. *)
Definition along (l : list nat) : list (nat * answer) := (fun i => (i, Fine)) <$> l.

Lemma select_mq_shows_witness : exists s, run (exec [str "select_mq"; str "7"; str "9"] false) (along [0; 0; 0; 1; 2; 2; 1; 2; 1; 0; 0; 0; 0; 0; 0]%nat)
    (start_state (World two_queues [] [str "x"])) = Some s /\
  exists evs, printed s = shown_line <$> evs /\ tty_of evs `prefix_of` str "x" /\ forall id, id ∈ [7; 9] -> from id (mq_of evs) `prefix_of` default [] (two_queues !! id).
Proof.
  destruct (run _ _ _) as [s|] eqn:E; [|by vm_compute in E]. exists s. split; [done|].
  assert (rtc (step (exec [str "select_mq"; str "7"; str "9"] false) any) (start_state (World two_queues [] [str "x"])) s) as [n Hn]%rtc_nsteps by (eapply run_rtc; [|exact E]; by apply Forall_true).
  destruct (select_mq_shows (str "select_mq") [str "7"; str "9"] [7; 9] two_queues [str "x"]) with (n := n) (s := s) as (_ & He & _); [| | | | |exact Hn|exact He].
  - repeat constructor; vm_compute; reflexivity.
  - by_decide.
  - repeat constructor; (eexists; split; [vm_compute; reflexivity|]; repeat constructor; try by_decide; by vm_compute).
  - repeat constructor; by vm_compute.
  - by repeat constructor.
Defined.

(** A message without a body is taken for the end of the pipe, and the parent leaves. *)
Example empty_message_ends : match run (exec [str "select_mq"; str "7"] false) (along [0; 0; 1; 1; 1; 0; 0; 0; 0]%nat)
    (start_state (World {[ 7 := [Mbuf 1 []; Mbuf 2 (str "b")] ]} [] [])) with
  | Some s => threads s !! 0%nat = Some (Main PEnd) | None => False end.
Proof. vm_compute. reflexivity. Qed.

(** At the end of the input the parent finds the terminal ready for ever, and prints its line once more in every round. *)
Lemma eof_spins argv n g ts out : typed g = [] -> pipe g = [] ->
  run (exec argv true) (along (concat (replicate n [0; 0; 0; 0]%nat))) (Sys g (Main PSelect :: ts) out None) =
  Some (Sys g (Main PSelect :: ts) (out ++ replicate n (tty_line [])) None).
Proof.
  destruct g as [q p t]; cbn [typed pipe]; intros -> ->. revert out. induction n as [|n IH]; intros out; [by rewrite app_nil_r|].
  change (replicate (S n) (tty_line [])) with ([tty_line []] ++ replicate n (tty_line [])). rewrite app_assoc, <- IH. reflexivity.
Qed.
