(* ===== verification/Scm.v ===== *)
(** * Descriptors and credentials passed over a socket

    scm_rights_send.c, scm_rights_recv.c, scm_cred_send.c and scm_cred_recv.c (tlpi-dist/sockets).  A message has a
    payload of one int and at most one item of ancillary data, in the layout that CMSG_DATA and its like give it on a
    64-bit machine.  The laws say what each call does to a descriptor in its state (new, bound, listening,
    connected, accepted) and to the network of bound sockets and connections that the processes share; a
    call on a descriptor of another kind has no law.  A receiver is two parts, before and from its first
    call that waits, with the sender between them.  getopt is a parameter: the options it delivers and the
    operands it leaves. *)

From Stdlib Require Import ZArith Lia String Ascii.
From S2P Require Import Prelude CString Kernel ErrorFns Sockets.
From S2P Require SelectMq.
Import SelectMq (le, un_le).

Definition SOCK_DGRAM : Z := 2.
Definition SO_PASSCRED : Z := 16.
Definition SCM_RIGHTS : Z := 1.
Definition SCM_CREDENTIALS : Z := 2.
Definition BUF_SIZE : Z := 100.
Definition INT_SIZE : Z := 4.
Definition UCRED_SIZE : Z := 12.

(** With the header of 16 bytes; room is made in multiples of 8. *)
Definition CMSG_LEN (n : Z) : Z := 16 + n.
Definition CMSG_SPACE (n : Z) : Z := 16 + (n + 7) / 8 * 8.

Record cmsghdr := Cmsg { cmsg_len : Z; cmsg_level : Z; cmsg_type : Z; cmsg_data : bytes }.
Record ucred := Ucred { pid : Z; uid : Z; gid : Z }.

Class MsgCalls (K : Type) := {
  k_remove : bytes -> K -> (Z + Z) * K;
  k_accept_any : Z -> K -> (Z + Z) * K;                                    (* without the peer's address *)
  k_sendmsg : Z -> bytes -> option cmsghdr -> K -> (Z + Z) * K;
  k_recvmsg : Z -> Z -> Z -> K -> (bytes * option cmsghdr + Z) * K;        (* socket, room for data and for control *)
  k_own_ids : K -> ucred;                                                  (* getpid, getuid, getgid *)
  k_peercred : Z -> K -> (ucred + Z) * K
}.

#[export] Instance ucred_eq_dec : EqDecision ucred.
Proof. solve_decision. Defined.

(** The members of a ucred: a signed and two unsigned ints. *)
Definition put_ucred (c : ucred) : bytes := le 4 (pid c) ++ le 4 (uid c) ++ le 4 (gid c).
Definition get_ucred (s : bytes) : ucred := Ucred (s32 (un_le (take 4 s))) (un_le (take 4 (drop 4 s))) (un_le (take 4 (drop 8 s))).
Definition ids_text (c : ucred) : bytes := str "pid=" ++ dec (pid c) ++ str ", uid=" ++ dec (uid c) ++ str ", gid=" ++ dec (gid c) ++ [NL].

Definition RIGHTS_PATH : bytes := str "scm_rights".
Definition CRED_PATH : bytes := str "scm_cred".

Definition data_line (z : Z) : bytes := str "Received data = " ++ dec z ++ [NL].

Section Programs.
Context `{!Messages} {K : Type} `{!FileIO K, !SocketOps K, !MsgCalls K}.

Definition sock_type (dgram : bool) : Z := if dgram then SOCK_DGRAM else SOCK_STREAM.

(** The switch on the options: [-d], and in one program [-n]; another ends in the usage message. *)
Fixpoint read_opts (allow_n : bool) (usage : M (proc K) (bool * bool)) (opts : list ascii) (dn : bool * bool) : M (proc K) (bool * bool) :=
  match opts with
  | [] => mret dn
  | o :: opts' =>
      if Ascii.eqb o "d" then read_opts allow_n usage opts' (true, dn.2)
      else if allow_n && Ascii.eqb o "n" then read_opts allow_n usage opts' (dn.1, true)
      else usage
  end.

(** *** scm_rights_send.c *)

Definition rights_send (prog : bytes) (opts : list ascii) (operands : list bytes) : M (proc K) unit :=
  dn ← read_opts false (usageErr (prog ++ str " [-d] file" ++ [NL] ++ str "        -d    use datagram socket" ++ [NL])) opts (false, false);
  match operands with
  | [file] =>
      fd ← open_ file O_RDONLY 0;
      (if fd =? -1 then errExit (str "open") else mret tt) ;;
      eprintf (str "Sending fd " ++ dec fd ++ [NL]) ;;
      sfd ← unixConnect (Some RIGHTS_PATH) (sock_type dn.1);
      (if sfd =? -1 then errExit (str "unixConnect") else mret tt) ;;
      ns ← syscall (-1) (k_sendmsg sfd (le 4 12345) (Some (Cmsg (CMSG_LEN INT_SIZE) SOL_SOCKET SCM_RIGHTS (le 4 fd))));
      (if ns =? -1 then errExit (str "sendmsg") else mret tt) ;;
      eprintf (str "sendmsg() returned " ++ dec ns ++ [NL]) ;;
      exit_ EXIT_SUCCESS
  | _ => usageErr (prog ++ str " [-d] file" ++ [NL])
  end.

(** *** What the two receivers share *)

(** The socket that waits for the sender; [say] prints to the stream the program uses. *)
Definition open_socket (say : bytes -> M (proc K) unit) (path : bytes) (dgram : bool) : M (proc K) Z :=
  r ← syscall (-1) (k_remove path);
  (if r =? -1 then e ← get_errno; if e =? ENOENT then mret tt else errExit (str "remove-" ++ path) else mret tt) ;;
  if dgram then
    say (str "Receiving via datagram socket" ++ [NL]) ;;
    sfd ← unixBind (Some path) SOCK_DGRAM;
    if sfd =? -1 then errExit (str "unixBind") else mret sfd
  else
    say (str "Receiving via stream socket" ++ [NL]) ;;
    lfd ← unixListen (Some path) 5;
    if lfd =? -1 then errExit (str "unixListen") else mret lfd.

(** The socket to receive from. *)
Definition accept_one (dgram : bool) (fd : Z) : M (proc K) Z :=
  if dgram then mret fd
  else
    sfd ← syscall (-1) (k_accept_any fd);
    if sfd =? -1 then errExit (str "accept") else mret sfd.

(** The data of the control message of this size and type; a payload of less than an int leaves the rest of [data]
    without a value. *)
Definition receive (say : bytes -> M (proc K) unit) (sfd n type : Z) (not_type : bytes) : M (proc K) bytes :=
  r ← syscall None (fun k => let '(r, k') := k_recvmsg sfd INT_SIZE (CMSG_SPACE n) k in
                             (match r with inl m => inl (Some m) | inr e => inr e end, k'));
  match r with
  | None => errExit (str "recvmsg")
  | Some (data, control) =>
      say (str "recvmsg() returned " ++ dec (strlen data) ++ [NL]) ;;
      (if 0 <? strlen data then if strlen data =? INT_SIZE then say (data_line (s32 (un_le data))) else undef_ else mret tt) ;;
      match control with
      | None => fatal (str "bad cmsg header / message length")
      | Some c =>
          if negb (cmsg_len c =? CMSG_LEN n) then fatal (str "bad cmsg header / message length")
          else if negb (cmsg_level c =? SOL_SOCKET) then fatal (str "cmsg_level != SOL_SOCKET")
          else if negb (cmsg_type c =? type) then fatal not_type
          else mret (cmsg_data c)
      end
  end.

(** *** scm_rights_recv.c *)



(** *** scm_cred_send.c *)

(** A number of the command line, unless it is absent or a hyphen. *)
Definition given (arg : option bytes) (own : Z) : Z :=
  match arg with Some a => if bool_decide (a = str "-") then own else atoi a | None => own end.

Definition ucred_of (operands : list bytes) (own : ucred) : ucred :=
  Ucred (given (operands !! 1%nat) (pid own)) (u32 (given (operands !! 2%nat) (uid own))) (u32 (given (operands !! 3%nat) (gid own))).

Definition data_of (operands : list bytes) : Z := match operands with a :: _ => atoi a | [] => 12345 end.

Definition cred_send (prog : bytes) (opts : list ascii) (operands : list bytes) : M (proc K) unit :=
  dn ← read_opts true (usageErr (prog ++ str " [-d] [-n] [data [PID [UID [GID]]]]" ++ [NL] ++ str "        -d    use datagram socket" ++ [NL] ++
                                 str "        -n    don't construct explicit credentials structure" ++ [NL])) opts (false, false);
  own ← gets (fun p => k_own_ids (kern p));
  let c := ucred_of operands own in
  (if dn.2 : bool then printf (str "Not explicitly sending a credentials structure" ++ [NL])
   else printf (str "Send credentials " ++ ids_text c)) ;;
  sfd ← unixConnect (Some CRED_PATH) (sock_type dn.1);
  (if sfd =? -1 then errExit (str "unixConnect") else mret tt) ;;
  ns ← syscall (-1) (k_sendmsg sfd (le 4 (data_of operands))
         (if dn.2 : bool then None else Some (Cmsg (CMSG_LEN UCRED_SIZE) SOL_SOCKET SCM_CREDENTIALS (put_ucred c))));
  (if ns =? -1 then errExit (str "sendmsg") else mret tt) ;;
  printf (str "sendmsg() returned " ++ dec ns ++ [NL]) ;;
  exit_ EXIT_SUCCESS.

(** *** scm_cred_recv.c *)

Definition cred_recv (prog : bytes) (opts : list ascii) : M (proc K) unit :=
  dn ← read_opts false (usageErr (prog ++ str " [-d]" ++ [NL] ++ str "        -d    use datagram socket" ++ [NL])) opts (false, false);
  fd ← open_socket printf CRED_PATH dn.1;
  sfd ← accept_one dn.1 fd;
  r ← setsockopt sfd SOL_SOCKET SO_PASSCRED 1;
  (if r =? -1 then errExit (str "setsockopt") else mret tt) ;;
  data ← receive printf sfd UCRED_SIZE SCM_CREDENTIALS (str "cmsg_type != SCM_CREDENTIALS");
  printf (str "Received credentials " ++ ids_text (get_ucred data)) ;;
  c ← syscall None (fun k => let '(r, k') := k_peercred sfd k in (match r with inl c => inl (Some c) | inr e => inr e end, k'));
  match c with
  | None => errExit (str "getsockopt")
  | Some c =>
      printf (str "Credentials from SO_PEERCRED: pid=" ++ dec (pid c) ++ str ", euid=" ++ dec (uid c) ++ str ", egid=" ++ dec (gid c) ++ [NL]) ;;
      exit_ EXIT_SUCCESS
  end.
End Programs.

(** ** Sockets of the UNIX domain, and the process that has them

    What the processes share are the files, the addresses sockets are bound to, with the connections that wait to be
    accepted and the datagrams on their way, and what has been sent on a connection.  A message that passes a
    descriptor passes what can still be read from it. *)

Record message := Message { payload : bytes; passed : option bytes; creds : ucred }.

(** [e_creds]: the bound socket asks for credentials. *)
Record endpoint := Endpoint { e_type : Z; e_listening : bool; e_creds : bool; e_pending : list nat; e_queue : list message }.
Record network := Network { files : gmap bytes bytes; bound : gmap bytes endpoint; conns : gmap nat (list message) }.

Inductive sock :=
| Fresh (type : Z)
| Bound (type : Z) (addr : bytes)
| Listening (addr : bytes)
| Stream (conn : nat)              (* connected: what is sent goes along the connection *)
| Accepted (conn : nat)            (* its other end *)
| Peer (addr : bytes).             (* a connected datagram socket *)

(** A process: its descriptors for files, with what can still be read, its sockets, those that ask for credentials, its
    own credentials, whether it may give others, and its standard output. *)
Record view := View {
  net : network; rest_of : gmap Z bytes; socks : gmap Z sock; passcred : gset Z; own : ucred; privileged : bool; shown : bytes
}.

Definition set_net (n : network) (v : view) : view := View n (rest_of v) (socks v) (passcred v) (own v) (privileged v) (shown v).
Definition set_rest (fd : Z) (c : bytes) (v : view) : view := View (net v) (<[fd := c]> (rest_of v)) (socks v) (passcred v) (own v) (privileged v) (shown v).
Definition set_sock (fd : Z) (s : sock) (v : view) : view := View (net v) (rest_of v) (<[fd := s]> (socks v)) (passcred v) (own v) (privileged v) (shown v).
Definition new_sock (fd : Z) (s : sock) (v : view) : view := View (net v) (rest_of v) (<[fd := s]> (socks v)) (passcred v ∖ {[fd]}) (own v) (privileged v) (shown v).
Definition ask_creds (fd : Z) (v : view) : view := View (net v) (rest_of v) (socks v) ({[fd]} ∪ passcred v) (own v) (privileged v) (shown v).
Definition show (s : bytes) (v : view) : view := View (net v) (rest_of v) (socks v) (passcred v) (own v) (privileged v) (shown v ++ s).

Definition set_bound (b : gmap bytes endpoint) (n : network) : network := Network (files n) b (conns n).
Definition put_endpoint (addr : bytes) (e : endpoint) (n : network) : network := set_bound (<[addr := e]> (bound n)) n.
Definition unlink (path : bytes) (n : network) : network := Network (delete path (files n)) (delete (sun_path path) (bound n)) (conns n).

(** The lowest number that is no descriptor, the standard ones apart, if the process may open one more. *)
Definition used (fd : Z) (v : view) : bool := match rest_of v !! fd, socks v !! fd with None, None => false | _, _ => true end.
Fixpoint free_from (n : nat) (fd : Z) (v : view) : option Z :=
  match n with O => None | S n' => if used fd v then free_from n' (fd + 1) v else Some fd end.
Definition free_fd (v : view) : option Z := free_from 1021 3 v.

(** The state after a message is sent on a socket, or taken from one. *)
Definition put_message (sfd : Z) (m : message) (v : view) : option view :=
  let n := net v in
  match socks v !! sfd with
  | Some (Stream c) => l ← conns n !! c; Some (set_net (Network (files n) (bound n) (<[c := l ++ [m]]> (conns n))) v)
  | Some (Peer addr) => e ← bound n !! addr; Some (set_net (put_endpoint addr (Endpoint (e_type e) (e_listening e) (e_creds e) (e_pending e) (e_queue e ++ [m])) n) v)
  | _ => None
  end.
Definition take_message (sfd : Z) (v : view) : option (message * view) :=
  let n := net v in
  match socks v !! sfd with
  | Some (Accepted c) =>
      match conns n !! c with Some (m :: l) => Some (m, set_net (Network (files n) (bound n) (<[c := l]> (conns n))) v) | _ => None end
  | Some (Bound t addr) =>
      match bound n !! addr with
      | Some (Endpoint t' lis cr pe (m :: l)) => Some (m, set_net (put_endpoint addr (Endpoint t' lis cr pe l) n) v)
      | _ => None
      end
  | _ => None
  end.

(** Whether the sender's own credentials go with a message that has none: if the receiver asks for them or has yet to
    accept the connection. *)
Definition takes_creds (sfd : Z) (v : view) : Prop :=
  match socks v !! sfd with
  | Some (Stream c) => exists addr e, bound (net v) !! addr = Some e /\ c ∈ e_pending e
  | Some (Peer addr) => exists e, bound (net v) !! addr = Some e /\ e_creds e = true
  | _ => False
  end.

Definition ucred_ok (c : ucred) : Prop := in_s 32 (pid c) /\ 0 <= uid c < 2 ^ 32 /\ 0 <= gid c < 2 ^ 32.

(** What the calls do.  Each is promised to succeed only where unix(7) and its own page say it does: a socket is new before
    it is bound or connected, an address is free before it is bound to, a connection goes to a listening socket of its type with
    room in its backlog, and so on; nothing is said of other calls.  Left out are failures for want of memory or of a
    permission.  [with_net] puts what other processes did to the shared part into the state. *)
Class ScmLaws (K : Type) `{!FileIO K, !SocketOps K, !MsgCalls K} := {
  see : K -> view;
  with_net : network -> K -> K;
  see_with_net : forall n k, see (with_net n k) = set_net n (see k);
  remove_law : forall path k, exists r k', k_remove path k = (r, k') /\ (r = inl 0 \/ r = inr ENOENT) /\ see k' = set_net (unlink path (net (see k))) (see k);
  socket_law : forall t fd k, t = SOCK_STREAM \/ t = SOCK_DGRAM -> free_fd (see k) = Some fd ->
    exists k', k_socket AF_UNIX t 0 k = (inl fd, k') /\ see k' = new_sock fd (Fresh t) (see k);
  bind_law : forall fd t path k, socks (see k) !! fd = Some (Fresh t) -> files (net (see k)) !! path = None -> bound (net (see k)) !! sun_path path = None ->
    exists k', k_bind fd (sun_path path) k = (inl 0, k') /\
      see k' = set_net (put_endpoint (sun_path path) (Endpoint t false false [] []) (net (see k))) (set_sock fd (Bound t (sun_path path)) (see k));
  listen_law : forall fd addr e b k, socks (see k) !! fd = Some (Bound SOCK_STREAM addr) -> bound (net (see k)) !! addr = Some e -> 0 < b ->
    exists k', k_listen fd b k = (inl 0, k') /\
      see k' = set_net (put_endpoint addr (Endpoint (e_type e) true (e_creds e) (e_pending e) (e_queue e)) (net (see k))) (set_sock fd (Listening addr) (see k));
  connect_stream_law : forall fd addr e k, socks (see k) !! fd = Some (Fresh SOCK_STREAM) ->
    bound (net (see k)) !! addr = Some e -> e_type e = SOCK_STREAM -> e_listening e = true -> e_pending e = [] ->
    exists c k', k_connect fd addr k = (inl 0, k') /\ conns (net (see k)) !! c = None /\
      see k' = set_net (Network (files (net (see k))) (<[addr := Endpoint SOCK_STREAM true (e_creds e) [c] (e_queue e)]> (bound (net (see k))))
                                (<[c := []]> (conns (net (see k))))) (set_sock fd (Stream c) (see k));
  connect_dgram_law : forall fd addr e k, socks (see k) !! fd = Some (Fresh SOCK_DGRAM) -> bound (net (see k)) !! addr = Some e -> e_type e = SOCK_DGRAM ->
    exists k', k_connect fd addr k = (inl 0, k') /\ see k' = set_sock fd (Peer addr) (see k);
  accept_law : forall lfd addr e c cs fd k, socks (see k) !! lfd = Some (Listening addr) -> bound (net (see k)) !! addr = Some e -> e_pending e = c :: cs ->
    free_fd (see k) = Some fd ->
    exists k', k_accept_any lfd k = (inl fd, k') /\
      see k' = set_net (put_endpoint addr (Endpoint (e_type e) (e_listening e) (e_creds e) cs (e_queue e)) (net (see k))) (new_sock fd (Accepted c) (see k));
  open_law : forall file c fd k, files (net (see k)) !! file = Some c -> free_fd (see k) = Some fd ->
    exists k', k_open file O_RDONLY 0 k = (inl fd, k') /\ see k' = set_rest fd c (see k);
  read_law : forall fd c k, rest_of (see k) !! fd = Some c ->
    exists a b k', k_read fd BUF_SIZE k = (inl a, k') /\ c = a ++ b /\ (a = [] -> c = []) /\ see k' = set_rest fd b (see k);
  stdout_law : forall s k, exists k', k_write STDOUT_FILENO s k = (inl (strlen s), k') /\ see k' = show s (see k);
  passcred_bound_law : forall fd t addr e k, socks (see k) !! fd = Some (Bound t addr) -> bound (net (see k)) !! addr = Some e ->
    exists k', k_setsockopt fd SOL_SOCKET SO_PASSCRED 1 k = (inl 0, k') /\
      see k' = set_net (put_endpoint addr (Endpoint (e_type e) (e_listening e) true (e_pending e) (e_queue e)) (net (see k))) (ask_creds fd (see k));
  passcred_accepted_law : forall fd c k, socks (see k) !! fd = Some (Accepted c) ->
    exists k', k_setsockopt fd SOL_SOCKET SO_PASSCRED 1 k = (inl 0, k') /\ see k' = ask_creds fd (see k);
  own_law : forall k, k_own_ids k = own (see k);
  peercred_law : forall fd s k, socks (see k) !! fd = Some s -> exists c k', k_peercred fd k = (inl c, k') /\ see k' = see k;
  send_rights_law : forall sfd data fd c k v', 0 <= fd <= INT_MAX -> rest_of (see k) !! fd = Some c ->
    put_message sfd (Message data (Some c) (own (see k))) (see k) = Some v' ->
    exists k', k_sendmsg sfd data (Some (Cmsg (CMSG_LEN INT_SIZE) SOL_SOCKET SCM_RIGHTS (le 4 fd))) k = (inl (strlen data), k') /\ see k' = v';
  send_plain_law : forall sfd data k v', takes_creds sfd (see k) -> put_message sfd (Message data None (own (see k))) (see k) = Some v' ->
    exists k', k_sendmsg sfd data None k = (inl (strlen data), k') /\ see k' = v';
  send_creds_law : forall sfd data c k v', ucred_ok c -> put_message sfd (Message data None c) (see k) = Some v' ->
    exists r k', k_sendmsg sfd data (Some (Cmsg (CMSG_LEN UCRED_SIZE) SOL_SOCKET SCM_CREDENTIALS (put_ucred c))) k = (r, k') /\
      if privileged (see k) || bool_decide (c = own (see k)) then r = inl (strlen data) /\ see k' = v' else r = inr EPERM /\ see k' = see k;
  recv_rights_law : forall sfd m c v' fd k, take_message sfd (see k) = Some (m, v') -> passed m = Some c -> sfd ∉ passcred (see k) -> length (payload m) = 4%nat ->
    free_fd v' = Some fd ->
    exists k', k_recvmsg sfd INT_SIZE (CMSG_SPACE INT_SIZE) k = (inl (payload m, Some (Cmsg (CMSG_LEN INT_SIZE) SOL_SOCKET SCM_RIGHTS (le 4 fd))), k') /\
      see k' = set_rest fd c v';
  recv_creds_law : forall sfd m v' k, take_message sfd (see k) = Some (m, v') -> passed m = None -> sfd ∈ passcred (see k) -> length (payload m) = 4%nat ->
    exists k', k_recvmsg sfd INT_SIZE (CMSG_SPACE UCRED_SIZE) k = (inl (payload m, Some (Cmsg (CMSG_LEN UCRED_SIZE) SOL_SOCKET SCM_CREDENTIALS (put_ucred (creds m)))), k') /\
      see k' = v'
}.

(** ** What they do

    A receiver runs until it has to wait for the sender: to [accept] a connection, or with datagrams to [recvmsg].  The
    two parts of each receiver are given names. *)

Lemma bind_assoc {S A B C} (m : M S A) (f : A -> M S B) (g : B -> M S C) s : ((m ≫= f) ≫= g) s = (m ≫= (fun a => f a ≫= g)) s.
Proof. unfold mbind, M_bind. by destruct (m s) as [[] s']. Qed.

Lemma bind_ext {S A B} (m : M S A) (f g : A -> M S B) s : (forall a s', f a s' = g a s') -> (m ≫= f) s = (m ≫= g) s.
Proof. intros Hfg. unfold mbind, M_bind. destruct (m s) as [[] s']; auto. Qed.

Section Halves.
Context `{!Messages} {K : Type} `{!FileIO K, !SocketOps K, !MsgCalls K}.

Definition rights_setup (prog : bytes) (opts : list ascii) : M (proc K) (bool * Z) :=
  dn ← read_opts false (usageErr (prog ++ str " [-d]" ++ [NL] ++ str "        -d    use datagram socket" ++ [NL])) opts (false, false);
  fd ← open_socket eprintf RIGHTS_PATH dn.1;
  mret (dn.1, fd).



(** With datagrams, credentials are asked for before there is anything to wait for. *)
Definition ask_passcred (sfd : Z) : M (proc K) unit :=
  r ← setsockopt sfd SOL_SOCKET SO_PASSCRED 1;
  if r =? -1 then errExit (str "setsockopt") else mret tt.

Definition cred_setup (prog : bytes) (opts : list ascii) : M (proc K) (bool * Z) :=
  dn ← read_opts false (usageErr (prog ++ str " [-d]" ++ [NL] ++ str "        -d    use datagram socket" ++ [NL])) opts (false, false);
  fd ← open_socket printf CRED_PATH dn.1;
  (if dn.1 : bool then ask_passcred fd else mret tt) ;;
  mret (dn.1, fd).

Definition show_creds (sfd : Z) : M (proc K) unit :=
  data ← receive printf sfd UCRED_SIZE SCM_CREDENTIALS (str "cmsg_type != SCM_CREDENTIALS");
  printf (str "Received credentials " ++ ids_text (get_ucred data)) ;;
  c ← syscall None (fun k => let '(r, k') := k_peercred sfd k in (match r with inl c => inl (Some c) | inr e => inr e end, k'));
  match c with
  | None => errExit (str "getsockopt")
  | Some c =>
      printf (str "Credentials from SO_PEERCRED: pid=" ++ dec (pid c) ++ str ", euid=" ++ dec (uid c) ++ str ", egid=" ++ dec (gid c) ++ [NL]) ;;
      exit_ EXIT_SUCCESS
  end.

Definition cred_rest (x : bool * Z) : M (proc K) unit :=
  sfd ← accept_one x.1 x.2;
  (if x.1 : bool then mret tt else ask_passcred sfd) ;;
  show_creds sfd.

Lemma cred_recv_halves prog opts (p : proc K) : cred_recv prog opts p = (x ← cred_setup prog opts; cred_rest x) p.
Proof.
  unfold cred_recv, cred_setup. rewrite bind_assoc. apply bind_ext. intros [[] n] p1; cbn [fst]; rewrite bind_assoc; apply bind_ext; intros fd p2.
  - transitivity ((ask_passcred fd ;; show_creds fd) p2); [rewrite (bind_Ret (accept_one true fd) _ p2 fd p2) by done; unfold ask_passcred; rewrite bind_assoc; apply bind_ext; intros r p3; by destruct (r =? -1)|].
    rewrite bind_assoc. apply bind_ext. by intros [] p3.
  - transitivity (cred_rest (false, fd) p2); [|done]. unfold cred_rest. cbn [fst snd].
    apply bind_ext. intros sfd p3. unfold ask_passcred. rewrite bind_assoc. apply bind_ext. intros r p4. by destruct (r =? -1).
Qed.
End Halves.

Section Correct.
Context `{!Messages} {K : Type} `{!FileIO K, !SocketOps K, !MsgCalls K, !ScmLaws K}.

Definition sees (p : proc K) : view := see (kern p).

Definition has_opt (c : ascii) (opts : list ascii) : bool := existsb (fun o => Ascii.eqb o c) opts.
Definition opts_ok (allow_n : bool) (opts : list ascii) : Prop := Forall (fun o => o = "d"%char \/ allow_n = true /\ o = "n"%char) opts.

Lemma read_opts_ok allow_n usage opts : forall dn (p : proc K), opts_ok allow_n opts ->
  read_opts allow_n usage opts dn p = (Ret (dn.1 || has_opt "d" opts, dn.2 || has_opt "n" opts), p).
Proof.
  induction opts as [|o opts IH]; intros [d n] p Ho; cbn [read_opts has_opt existsb]; [by rewrite !orb_false_r|].
  inversion Ho as [|? ? Hh Ht]; subst. destruct Hh as [->|[-> ->]]; cbn [Ascii.eqb Bool.eqb andb fst snd]; rewrite IH by done; cbn [fst snd];
    by rewrite ?orb_true_r, ?orb_true_l, ?orb_false_l.
Qed.

Lemma wp_opts allow_n usage opts dn (p : proc K) Q : opts_ok allow_n opts -> Q (Ret (dn.1 || has_opt "d" opts, dn.2 || has_opt "n" opts)) p ->
  wp (read_opts allow_n usage opts dn) p Q.
Proof. intros Ho HQ. eapply wp_intro; [by apply read_opts_ok|done]. Qed.

(** A call that succeeds. *)
Lemma wp_ok (f : K -> (Z + Z) * K) r k' (p : proc K) (Q : outcome Z -> proc K -> Prop) :
  f (kern p) = (inl r, k') -> Q (Ret r) (Proc k' (errno p) (trace p)) -> wp (syscall (-1) f) p Q.
Proof. intros Hf HQ. apply wp_syscall. by rewrite Hf. Qed.

(** *** Descriptors *)

Lemma free_from_ge n : forall fd v fd', free_from n fd v = Some fd' -> fd <= fd' < fd + Z.of_nat n.
Proof.
  induction n as [|n IH]; intros fd v fd' Hf; [done|]. cbn [free_from] in Hf. destruct (used fd v); [|injection Hf as <-; lia].
  apply IH in Hf. lia.
Qed.

Lemma free_fd_range v fd : free_fd v = Some fd -> 3 <= fd <= INT_MAX.
Proof. intros Hf%free_from_ge. unfold INT_MAX. lia. Qed.

(** The first three numbers. *)
Lemma free_from_first n v :
  free_from (3 + n) 3 v = if used 3 v then if used 4 v then if used 5 v then free_from n 6 v else Some 5 else Some 4 else Some 3.
Proof. done. Qed.

Lemma free_fd_first v :
  free_fd v = if used 3 v then if used 4 v then if used 5 v then free_from 1018 6 v else Some 5 else Some 4 else Some 3.
Proof. exact (free_from_first 1018 v). Qed.

Lemma free_fd_none v : rest_of v = ∅ -> socks v = ∅ -> free_fd v = Some 3.
Proof. intros Hr Hs. rewrite free_fd_first. unfold used at 1. by rewrite Hr, Hs, !lookup_empty. Qed.

Lemma free_fd_4 v : used 3 v = true -> used 4 v = false -> free_fd v = Some 4.
Proof. intros H3 H4. by rewrite free_fd_first, H3, H4. Qed.

Lemma free_fd_5 v : used 3 v = true -> used 4 v = true -> used 5 v = false -> free_fd v = Some 5.
Proof. intros H3 H4 H5. by rewrite free_fd_first, H3, H4, H5. Qed.

(** *** The two kinds of socket *)

Definition short (path : bytes) : Prop := strlen path < SUN_PATH - 1.

Lemma paths_short : short RIGHTS_PATH /\ short CRED_PATH.
Proof. by split. Qed.

Lemma build_address path (p : proc K) : short path -> unixBuildAddress (Some path) p = (Ret (0, sun_path path), p).
Proof.
  intros Hs. unfold short in Hs. unfold unixBuildAddress. replace (SUN_PATH - 1 <=? strlen path) with false by lia.
  replace (strlen path <? SUN_PATH) with true by lia. unfold sun_path. rewrite take_ge; [done|]. unfold strlen, SUN_PATH in *. lia.
Qed.

(** The new socket at an address of its own. *)
Definition passive (fd t : Z) (path : bytes) (lis : bool) (v : view) : view :=
  View (put_endpoint (sun_path path) (Endpoint t lis false [] []) (net v)) (rest_of v)
    (<[fd := if lis then Listening (sun_path path) else Bound t (sun_path path)]> (socks v)) (passcred v ∖ {[fd]}) (own v) (privileged v) (shown v).

Lemma wp_passive path t lis b fd (p : proc K) (Q : outcome Z -> proc K -> Prop) : short path -> t = SOCK_STREAM \/ t = SOCK_DGRAM ->
  (lis = true -> t = SOCK_STREAM /\ 0 < b) -> free_fd (sees p) = Some fd -> files (net (sees p)) !! path = None -> bound (net (sees p)) !! sun_path path = None ->
  (forall q, sees q = passive fd t path lis (sees p) -> trace q = trace p -> Q (Ret fd) q) -> wp (unixPassiveSocket (Some path) t lis b) p Q.
Proof.
  intros Hs Ht Hlis Hfd Hfile Hb HQ. unfold unixPassiveSocket.
  pose proof (free_fd_range _ _ Hfd) as Hr. assert ((fd =? -1) = false) as E by lia.
  apply wp_bind. eapply wp_intro; [by apply build_address|]. cbn [fst snd]. change (0 =? -1) with false. cbv iota.
  destruct (socket_law t fd (kern p) Ht Hfd) as (k1 & H1 & Hv1). apply wp_bind. eapply wp_ok; [exact H1|]. rewrite E.
  destruct (bind_law fd t path k1) as (k2 & H2 & Hv2); [rewrite Hv1; apply lookup_insert_eq|by rewrite Hv1|by rewrite Hv1|].
  apply wp_bind. eapply wp_ok; [exact H2|]. cbn [kern errno trace]. change (0 =? -1) with false. cbv iota. apply wp_bind. destruct lis.
  - destruct (Hlis eq_refl) as [-> Hpos].
    destruct (listen_law fd (sun_path path) (Endpoint SOCK_STREAM false false [] []) b k2) as (k3 & H3 & Hv3); [by rewrite Hv2; apply lookup_insert_eq|by rewrite Hv2; apply lookup_insert_eq|done|].
    eapply wp_ok; [exact H3|]. cbn [kern errno trace]. change (0 =? -1) with false. cbv iota. apply wp_ret, HQ; [|done].
    unfold sees, passive. cbn [kern]. rewrite Hv3, Hv2, Hv1. unfold set_net, set_sock, new_sock, put_endpoint, set_bound.
    cbn [net rest_of socks passcred own privileged shown files bound conns e_type e_creds e_pending e_queue]. by rewrite !insert_insert_eq.
  - apply wp_ret. change (0 =? -1) with false. cbv iota. apply wp_ret, HQ; [|done].
    unfold sees, passive. cbn [kern]. rewrite Hv2, Hv1. unfold set_net, set_sock, new_sock, put_endpoint, set_bound.
    cbn [net rest_of socks passcred own privileged shown files bound conns]. by rewrite !insert_insert_eq.
Qed.

(** What a connected socket is connected to. *)
Definition connected (v : view) (fd : Z) (t : Z) (addr : bytes) (e : endpoint) (v' : view) : Prop :=
  if t =? SOCK_STREAM then
    exists c, conns (net v) !! c = None /\
      v' = set_net (Network (files (net v)) (<[addr := Endpoint SOCK_STREAM true (e_creds e) [c] (e_queue e)]> (bound (net v))) (<[c := []]> (conns (net v)))) (new_sock fd (Stream c) v)
  else v' = new_sock fd (Peer addr) v.

Lemma wp_connected path t e fd (p : proc K) (Q : outcome Z -> proc K -> Prop) : short path -> t = SOCK_STREAM \/ t = SOCK_DGRAM ->
  free_fd (sees p) = Some fd -> bound (net (sees p)) !! sun_path path = Some e -> e_type e = t -> (t = SOCK_STREAM -> e_listening e = true /\ e_pending e = []) ->
  (forall q, connected (sees p) fd t (sun_path path) e (sees q) -> trace q = trace p -> Q (Ret fd) q) -> wp (unixConnect (Some path) t) p Q.
Proof.
  intros Hs Ht Hfd He Het Hlis HQ. unfold unixConnect.
  pose proof (free_fd_range _ _ Hfd) as Hr. assert ((fd =? -1) = false) as E by lia.
  apply wp_bind. eapply wp_intro; [by apply build_address|]. cbn [fst snd]. change (0 =? -1) with false. cbv iota.
  destruct (socket_law t fd (kern p) Ht Hfd) as (k1 & H1 & Hv1). apply wp_bind. eapply wp_ok; [exact H1|]. rewrite E.
  assert (forall s, <[fd := s]> (<[fd := Fresh t]> (socks (sees p))) = <[fd := s]> (socks (sees p))) as Hins by (intros s; apply insert_insert_eq).
  apply wp_bind. destruct Ht as [-> | ->]; unfold connected in HQ.
  - destruct (Hlis eq_refl) as [Hl Hp].
    destruct (connect_stream_law fd (sun_path path) e k1) as (c & k2 & H2 & Hc & Hv2); [rewrite Hv1; apply lookup_insert_eq|by rewrite Hv1|done..|].
    eapply wp_ok; [exact H2|]. cbn [kern errno trace]. change (0 =? -1) with false. cbv iota. apply wp_ret, HQ; [|done].
    change (SOCK_STREAM =? SOCK_STREAM) with true. cbv iota. exists c. rewrite Hv1 in Hc. split; [done|].
    unfold sees at 1. cbn [kern]. rewrite Hv2, Hv1. unfold set_net, set_sock, new_sock. cbn [net rest_of socks passcred own privileged shown]. by rewrite insert_insert_eq.
  - destruct (connect_dgram_law fd (sun_path path) e k1) as (k2 & H2 & Hv2); [rewrite Hv1; apply lookup_insert_eq|by rewrite Hv1|done|].
    eapply wp_ok; [exact H2|]. cbn [kern errno trace]. change (0 =? -1) with false. cbv iota. apply wp_ret, HQ; [|done].
    change (SOCK_DGRAM =? SOCK_STREAM) with false. cbv iota.
    unfold sees at 1. cbn [kern]. rewrite Hv2, Hv1. unfold set_sock, new_sock. cbn [net rest_of socks passcred own privileged shown]. by rewrite insert_insert_eq.
Qed.

(** [say] prints a line on one of the streams. *)
Definition prints (say : bytes -> M (proc K) unit) (on : bytes -> event) : Prop :=
  forall s (p : proc K) (Q : outcome unit -> proc K -> Prop), Q (Ret tt) (Proc (kern p) (errno p) (trace p ++ [on s])) -> wp (say s) p Q.

Lemma free_fd_net n v : free_fd (set_net n v) = free_fd v.
Proof.
  unfold free_fd. generalize 3. generalize 1021%nat. intros m. induction m as [|m IH]; intros fd; [done|]. cbn [free_from].
  change (used fd (set_net n v)) with (used fd v). by rewrite IH.
Qed.

Lemma wp_open_socket say on path dgram fd (p : proc K) Q : prints say on -> short path -> free_fd (sees p) = Some fd ->
  (forall q, sees q = passive fd (sock_type dgram) path (negb dgram) (set_net (unlink path (net (sees p))) (sees p)) -> (exists s, trace q = trace p ++ [on s]) ->
     Q (Ret fd) q) -> wp (open_socket say path dgram) p Q.
Proof.
  intros Hsay Hs Hfd HQ. unfold open_socket. pose proof (free_fd_range _ _ Hfd) as Hr. assert ((fd =? -1) = false) as E by lia.
  set (v := set_net (unlink path (net (sees p))) (sees p)) in *.
  assert (forall p1, sees p1 = v -> trace p1 = trace p ->
    wp (if dgram then
          say (str "Receiving via datagram socket" ++ [NL]) ;;
          sfd ← unixBind (Some path) SOCK_DGRAM;
          if sfd =? -1 then errExit (str "unixBind") else mret sfd
        else
          say (str "Receiving via stream socket" ++ [NL]) ;;
          lfd ← unixListen (Some path) 5;
          if lfd =? -1 then errExit (str "unixListen") else mret lfd) p1 Q) as Hgo.
  { intros p1 Hv1 Ht1. assert (free_fd v = Some fd) as Hfd1 by (unfold v; by rewrite free_fd_net).
    assert (files (net v) !! path = None /\ bound (net v) !! sun_path path = None) as [Hf Hb] by (split; apply lookup_delete_eq).
    destruct dgram; apply wp_bind, Hsay, wp_bind.
    all: eapply (wp_passive path _ _ _ fd); [done|by (left + right)|by (intros [=] + split)|unfold sees in *; cbn [kern]; rewrite Hv1; done..|].
    all: intros q Hq Ht; rewrite E; apply wp_ret, HQ; [rewrite Hq; unfold sees in *; cbn [kern]; by rewrite Hv1|].
    all: eexists; rewrite Ht; cbn [trace]; by rewrite Ht1. }
  destruct (remove_law path (kern p)) as (r & k' & Hrm & Hcase & Hv). apply wp_bind, wp_syscall. rewrite Hrm.
  destruct Hcase as [-> | ->]; apply wp_bind; [apply wp_ret|apply wp_bind, wp_get_errno, wp_ret]; by apply Hgo.
Qed.

(** *** A message on its way *)

(** The receiver waits at the address; the message is there. *)
Definition waiting (path : bytes) (dgram cr : bool) (n : network) : Prop :=
  bound n !! sun_path path = Some (Endpoint (sock_type dgram) (negb dgram) cr [] []).
Definition carries (path : bytes) (dgram cr : bool) (m : message) (n : network) : Prop :=
  if dgram then bound n !! sun_path path = Some (Endpoint SOCK_DGRAM false cr [] [m])
  else exists c, bound n !! sun_path path = Some (Endpoint SOCK_STREAM true cr [c] []) /\ conns n !! c = Some [m].

Lemma sock_type_cases dgram : sock_type dgram = SOCK_STREAM \/ sock_type dgram = SOCK_DGRAM.
Proof. destruct dgram; by (left + right). Qed.

Lemma wp_connect_waiting path dgram cr fd (p : proc K) (Q : outcome Z -> proc K -> Prop) : short path -> free_fd (sees p) = Some fd ->
  waiting path dgram cr (net (sees p)) ->
  (forall q, connected (sees p) fd (sock_type dgram) (sun_path path) (Endpoint (sock_type dgram) (negb dgram) cr [] []) (sees q) -> trace q = trace p -> Q (Ret fd) q) ->
  wp (unixConnect (Some path) (sock_type dgram)) p Q.
Proof.
  intros Hs Hfd Hw HQ. eapply wp_connected; [done|apply sock_type_cases|done|exact Hw|done| |exact HQ].
  intros Ht. destruct dgram; [discriminate Ht|done].
Qed.

(** A message put on the connected socket is on its way to the one that waits. *)
Lemma put_carries path dgram cr fd m v v1 : waiting path dgram cr (net v) ->
  connected v fd (sock_type dgram) (sun_path path) (Endpoint (sock_type dgram) (negb dgram) cr [] []) v1 ->
  exists v2, put_message fd m v1 = Some v2 /\ carries path dgram cr m (net v2) /\ (cr = dgram -> takes_creds fd v1) /\
    rest_of v1 = rest_of v /\ own v1 = own v /\ privileged v1 = privileged v.
Proof.
  intros Hw Hc. unfold connected, put_message, carries, takes_creds, waiting in *. destruct dgram; cbn [sock_type negb] in *.
  - change (SOCK_DGRAM =? SOCK_STREAM) with false in Hc. cbv iota in Hc. subst v1. cbn [new_sock net socks bound]. rewrite lookup_insert_eq, Hw.
    cbn [mbind option_bind e_type e_listening e_creds e_pending e_queue]. eexists. split; [reflexivity|]. cbn [set_net net put_endpoint set_bound bound].
    rewrite lookup_insert_eq. split_and!; try done. intros ->. by eexists.
  - change (SOCK_STREAM =? SOCK_STREAM) with true in Hc. cbv iota in Hc. destruct Hc as (c & Hc & ->). cbn [set_net new_sock net socks conns bound files e_creds e_queue].
    rewrite !lookup_insert_eq. cbn [mbind option_bind]. eexists. split; [reflexivity|]. cbn [set_net net bound conns].
    split; [exists c; by rewrite !lookup_insert_eq|]. split_and!; try done. intros _. eexists _, _. rewrite lookup_insert_eq. split; [done|]. by left.
Qed.

(** The receiver's side: a process with the waiting socket as its only descriptor. *)
Record waits (path : bytes) (dgram : bool) (v : view) : Prop := {
  wt_socks : socks v = {[3 := if dgram then Bound SOCK_DGRAM (sun_path path) else Listening (sun_path path)]};
  wt_rest : rest_of v = ∅
}.

(** What [accept_one] gives has the message. *)
Lemma wp_accept_one path dgram cr m (p : proc K) Q : waits path dgram (sees p) -> carries path dgram cr m (net (sees p)) ->
  (forall q sfd v', take_message sfd (sees q) = Some (m, v') -> free_fd v' = Some (sfd + 1) -> 3 <= sfd <= 4 -> (if dgram then sfd = 3 /\ sees q = sees p else exists c, socks (sees q) !! sfd = Some (Accepted c)) ->
     passcred (sees q) ⊆ passcred (sees p) -> shown (sees q) = shown (sees p) -> passcred v' = passcred (sees q) -> shown v' = shown (sees p) -> trace q = trace p ->
     is_Some (socks v' !! sfd) -> Q (Ret sfd) q) ->
  wp (accept_one dgram 3) p Q.
Proof.
  intros [Hs Hr] Hc HQ. unfold accept_one, carries in *. destruct dgram.
  - apply wp_ret. eapply (HQ p 3 (set_net (put_endpoint (sun_path path) (Endpoint SOCK_DGRAM false cr [] []) (net (sees p))) (sees p))); try done.
    + unfold take_message. rewrite Hs, lookup_singleton_eq, Hc. done.
    + rewrite free_fd_net. apply free_fd_4; unfold used; by rewrite Hs, Hr, lookup_empty; vm_compute.
    + cbn [set_net socks]. rewrite Hs, lookup_singleton_eq. by eexists.
  - destruct Hc as (c & Hb & Hc).
    assert (free_fd (sees p) = Some 4) as Hf4 by (apply free_fd_4; unfold used; by rewrite Hs, Hr, lookup_empty; vm_compute).
    destruct (accept_law 3 (sun_path path) (Endpoint SOCK_STREAM true cr [c] []) c [] 4 (kern p)) as (k' & Hk & Hv); [fold (sees p); by rewrite Hs, lookup_singleton_eq|done|done|done|].
    apply wp_bind. eapply wp_ok; [exact Hk|]. change (4 =? -1) with false. cbv iota. apply wp_ret.
    cbn [e_type e_listening e_creds e_queue] in Hv.
    set (v := set_net (put_endpoint (sun_path path) (Endpoint SOCK_STREAM true cr [] []) (net (sees p))) (new_sock 4 (Accepted c) (sees p))).
    assert (sees (Proc k' (errno p) (trace p)) = v) as Hq by done.
    eapply (HQ _ 4 (set_net (Network (files (net v)) (bound (net v)) (<[c := []]> (conns (net v)))) v)); rewrite ?Hq.
    + unfold take_message. cbn [v set_net new_sock net socks put_endpoint set_bound bound conns files]. by rewrite lookup_insert_eq, Hc.
    + rewrite free_fd_net. unfold v. rewrite free_fd_net. apply free_fd_5; unfold used, new_sock; cbn [rest_of socks]; rewrite Hs, Hr, lookup_empty; by vm_compute.
    + lia.
    + exists c. cbn [v set_net new_sock socks]. by rewrite lookup_insert_eq.
    + cbn [v set_net new_sock passcred]. set_solver.
    + done.
    + done.
    + done.
    + done.
    + cbn [v set_net new_sock socks]. rewrite lookup_insert_eq. by eexists.
Qed.

Lemma wp_receive say on sfd n type not_type m data (p : proc K) Q : prints say on ->
  (exists k', k_recvmsg sfd INT_SIZE (CMSG_SPACE n) (kern p) = (inl (payload m, Some (Cmsg (CMSG_LEN n) SOL_SOCKET type data)), k') /\
     length (payload m) = 4%nat /\
     forall q, kern q = k' -> trace q = trace p ++ [on (str "recvmsg() returned 4" ++ [NL]); on (data_line (s32 (un_le (payload m))))] -> Q (Ret data) q) ->
  wp (receive say sfd n type not_type) p Q.
Proof.
  intros Hsay (k' & Hr & Hl & HQ). unfold receive. apply wp_bind, wp_syscall. rewrite Hr.
  assert (strlen (payload m) = 4) as Hs by (unfold strlen; lia). rewrite Hs. apply wp_bind, Hsay. cbn [Z.ltb Z.compare].
  change (4 =? INT_SIZE) with true. cbn [kern errno trace]. apply wp_bind, Hsay. cbn [cmsg_len cmsg_level cmsg_type cmsg_data]. rewrite !Z.eqb_refl. cbn [negb].
  apply wp_ret, HQ; [done|]. cbn [trace]. by rewrite <- app_assoc.
Qed.

(** Four bytes are read back as the int they were made of. *)
Lemma un_le_int z : in_s 32 z -> s32 (un_le (le 4 z)) = z.
Proof. intros Hz. rewrite SelectMq.un_le_le. change (256 ^ Z.of_nat 4) with (2 ^ 32). by apply SelectMq.wrap_s_mod. Qed.

Lemma get_put_ucred c : ucred_ok c -> get_ucred (put_ucred c) = c.
Proof.
  destruct c as [p u g]. intros (Hp & Hu & Hg). cbn [pid uid gid] in *. unfold get_ucred, put_ucred. cbn [pid uid gid].
  rewrite (take_app_length' (le 4 p)), (drop_app_length' (le 4 p)) by by rewrite SelectMq.le_length.
  rewrite (take_app_length' (le 4 u)) by by rewrite SelectMq.le_length.
  assert (drop 8 (le 4 p ++ le 4 u ++ le 4 g) = le 4 g) as ->.
  { rewrite app_assoc, drop_app_length'; [done|]. by rewrite length_app, !SelectMq.le_length. }
  rewrite (take_ge (le 4 g)) by by rewrite SelectMq.le_length.
  rewrite un_le_int by done. rewrite !SelectMq.un_le_le. change (256 ^ Z.of_nat 4) with (2 ^ 32). by rewrite !Z.mod_small by done.
Qed.


Lemma wp_exit_ {A} z (p : proc K) (Q : outcome A -> proc K -> Prop) : Q (Exit z) p -> wp (exit_ z) p Q.
Proof. done. Qed.

(** [p] goes on after another process has left the shared part as [n]. *)
Definition over (n : network) (p : proc K) : proc K := Proc (with_net n (kern p)) (errno p) (trace p).

Lemma sees_over n p : sees (over n p) = set_net n (sees p).
Proof. apply see_with_net. Qed.

(** A process that has only its standard descriptors. *)
Definition starts (v : view) : Prop := rest_of v = ∅ /\ socks v = ∅ /\ passcred v = ∅.

(** The receiver has to wait for another process: there is no connection to accept, or no datagram to receive. *)
Definition blocked_at (x : bool * Z) (v : view) : Prop :=
  if x.1 then take_message x.2 v = None /\ exists t addr, socks v !! x.2 = Some (Bound t addr)
  else exists addr e, socks v !! x.2 = Some (Listening addr) /\ bound (net v) !! addr = Some e /\ e_pending e = [].





(** *** Credentials *)

Lemma take_ask fd sfd m v v' : take_message sfd v = Some (m, v') -> take_message sfd (ask_creds fd v) = Some (m, ask_creds fd v').
Proof.
  unfold take_message. cbn [ask_creds socks net]. destruct (socks v !! sfd) as [[| t addr| |c|c|]|]; try done.
  - destruct (bound (net v) !! addr) as [[t' lis cr pe [|x l]]|]; try done. by intros [= <- <-].
  - destruct (conns (net v) !! c) as [[|x l]|]; try done. by intros [= <- <-].
Qed.

Lemma cred_setup_waits prog opts (p : proc K) : opts_ok false opts -> starts (sees p) ->
  wp (cred_setup prog opts) p (fun o q => let d := has_opt "d" opts in o = Ret (d, 3) /\ blocked_at (d, 3) (sees q) /\
    waits CRED_PATH d (sees q) /\ (d = true -> 3 ∈ passcred (sees q)) /\ waiting CRED_PATH d d (net (sees q))).
Proof.
  intros Ho (Hr & Hs & Hp). unfold cred_setup. apply wp_bind, wp_opts; [done|]. cbn [fst snd orb]. set (d := has_opt "d" opts). clearbody d.
  apply wp_bind. eapply (wp_open_socket printf Out CRED_PATH d 3); [by intros ???|done|by apply free_fd_none|].
  intros q Hq _. apply wp_bind. unfold passive, set_net in Hq. cbn [net rest_of socks passcred own privileged shown] in Hq. rewrite Hr, Hs, Hp in Hq.
  set (n0 := put_endpoint (sun_path CRED_PATH) (Endpoint (sock_type d) (negb d) false [] []) (unlink CRED_PATH (net (sees p)))) in Hq.
  assert (bound n0 !! sun_path CRED_PATH = Some (Endpoint (sock_type d) (negb d) false [] [])) as Hb by apply lookup_insert_eq.
  destruct d; cbn [negb sock_type] in *.
  - unfold ask_passcred, setsockopt. apply wp_bind. unfold sees in Hq at 1.
    destruct (passcred_bound_law 3 SOCK_DGRAM (sun_path CRED_PATH) (Endpoint SOCK_DGRAM false false [] []) (kern q)) as (k' & Hk & Hv);
      [rewrite Hq; apply lookup_insert_eq|rewrite Hq; exact Hb|].
    eapply wp_ok; [exact Hk|]. change (0 =? -1) with false. cbv iota. apply wp_ret, wp_ret. cbv zeta. unfold sees. cbn [kern]. rewrite Hv, Hq.
    unfold ask_creds, set_net, put_endpoint, set_bound. cbn [net rest_of socks passcred own privileged shown e_type e_listening e_pending e_queue].
    split_and!; [done|..].
    + unfold blocked_at. cbn [fst snd]. unfold take_message. cbn [socks net bound]. rewrite !lookup_insert_eq. split; [done|]. by eexists _, _.
    + split; cbn [socks rest_of]; [reflexivity|done].
    + intros _. cbn [passcred]. set_solver.
    + unfold waiting. cbn [bound]. apply lookup_insert_eq.
  - apply wp_ret, wp_ret. cbv zeta. rewrite Hq. split_and!; [done|..].
    + unfold blocked_at. cbn [fst snd socks net]. eexists _, _. rewrite lookup_insert_eq. by split_and!.
    + split; cbn [socks rest_of]; [reflexivity|done].
    + done.
    + exact Hb.
Qed.

(** The credentials of the command line, or with -n the sender's own. *)
Definition sent_creds (opts : list ascii) (operands : list bytes) (own : ucred) : ucred := if has_opt "n" opts then own else ucred_of operands own.

Lemma sent_creds_ok opts operands own : ucred_ok own -> ucred_ok (sent_creds opts operands own).
Proof.
  intros Hok. unfold sent_creds. destruct (has_opt "n" opts); [done|]. destruct Hok as (Hp & _). unfold ucred_of. split; [|split]; cbn [pid uid gid].
  - unfold given. destruct (operands !! 1%nat) as [a|]; [|done]. case_bool_decide; [done|]. unfold atoi. apply wrap_s_range. lia.
  - apply (wrap_u_range 32). lia.
  - apply (wrap_u_range 32). lia.
Qed.

Lemma cred_send_carries prog opts operands (p : proc K) : opts_ok true opts -> starts (sees p) -> ucred_ok (own (sees p)) ->
  waiting CRED_PATH (has_opt "d" opts) (has_opt "d" opts) (net (sees p)) ->
  let c := sent_creds opts operands (own (sees p)) in
  wp (cred_send prog opts operands) p (fun o q =>
    if has_opt "n" opts || privileged (sees p) || bool_decide (c = own (sees p)) then
      o = Exit EXIT_SUCCESS /\ carries CRED_PATH (has_opt "d" opts) (has_opt "d" opts) (Message (le 4 (data_of operands)) None c) (net (sees q))
    else stopped o).
Proof.
  intros Ho (Hr & Hs & _) Hok Hw c. pose proof (sent_creds_ok opts operands _ Hok) as Hc. fold c in Hc. pose proof (own_law (kern p)) as Hown. fold (sees p) in Hown.
  unfold cred_send. apply wp_bind, wp_opts; [done|]. cbn [fst snd orb]. set (d := has_opt "d" opts) in *.
  apply wp_bind, wp_gets. rewrite Hown. apply wp_bind.
  assert (forall (p1 : proc K) (Q : outcome unit -> proc K -> Prop), (forall q, kern q = kern p1 -> Q (Ret tt) q) -> wp (if has_opt "n" opts then printf (str "Not explicitly sending a credentials structure" ++ [NL])
    else printf (str "Send credentials " ++ ids_text (ucred_of operands (own (sees p))))) p1 Q) as Hprint.
  { intros p1 Q HQ. destruct (has_opt "n" opts); by apply wp_printf, HQ. }
  apply Hprint. intros q0 Hq0. assert (sees q0 = sees p) as Hq0' by (unfold sees; by rewrite Hq0).
  apply wp_bind, (wp_connect_waiting CRED_PATH d d 3); [done|by rewrite Hq0'; apply free_fd_none|by rewrite Hq0'|].
  rewrite Hq0'. intros q Hcon _. change (3 =? -1) with false. cbv iota. apply wp_bind, wp_ret.
  destruct (put_carries CRED_PATH d d 3 (Message (le 4 (data_of operands)) None c) _ _ Hw Hcon) as (v2 & Hput & Hcar & Htakes & _ & Hown2 & Hpriv).
  set (control := if has_opt "n" opts then None else Some (Cmsg (CMSG_LEN UCRED_SIZE) SOL_SOCKET SCM_CREDENTIALS (put_ucred (ucred_of operands (own (sees p)))))).
  assert (exists r k', k_sendmsg 3 (le 4 (data_of operands)) control (kern q) = (r, k') /\
    if has_opt "n" opts || privileged (sees p) || bool_decide (c = own (sees p)) then r = inl 4 /\ see k' = v2 else r = inr EPERM) as (r & k2 & Hsend & Hcase).
  { unfold control, c, sent_creds in *. destruct (has_opt "n" opts); cbn [orb].
    - destruct (send_plain_law 3 (le 4 (data_of operands)) (kern q) v2) as (k' & Hk & Hv); [by apply Htakes|by rewrite <- Hown2 in Hput|]. eexists _, k'. by split.
    - destruct (send_creds_law 3 (le 4 (data_of operands)) (ucred_of operands (own (sees p))) (kern q) v2 Hc Hput) as (r & k' & Hk & Hv). exists r, k'. split; [done|].
      fold (sees q) in Hv. rewrite Hown2, Hpriv in Hv. destruct (_ || _); [done|]. by destruct Hv. }
  apply wp_bind, wp_syscall. fold control. rewrite Hsend.
  destruct (has_opt "n" opts || privileged (sees p) || bool_decide (c = own (sees p))); cycle 1.
  { subst r. apply wp_bind, wp_errExit. intros o e [-> | ->]; cbn; [by left|by right]. }
  destruct Hcase as [-> Hv2]. change (4 =? -1) with false. cbv iota. apply wp_bind, wp_ret, wp_bind, wp_printf, wp_exit_. split; [done|].
  unfold sees. cbn [kern]. by rewrite Hv2.
Qed.

Lemma cred_rest_shows d data c (p : proc K) : waits CRED_PATH d (sees p) -> (d = true -> 3 ∈ passcred (sees p)) -> in_s 32 data -> ucred_ok c ->
  carries CRED_PATH d d (Message (le 4 data) None c) (net (sees p)) ->
  wp (cred_rest (d, 3)) p (fun o q => o = Exit EXIT_SUCCESS /\
    Out (data_line data) ∈ trace q /\ Out (str "Received credentials " ++ ids_text c) ∈ trace q).
Proof.
  intros Hw Hpc Hdata Hc Hcar. unfold cred_rest. cbn [fst snd]. apply wp_bind. eapply wp_accept_one; [done|done|].
  intros q sfd v' Htake _ _ Hkind _ _ Hpc' _ _ Hsock.
  assert (forall q1 v1, take_message sfd (sees q1) = Some (Message (le 4 data) None c, v1) -> sfd ∈ passcred (sees q1) -> is_Some (socks v1 !! sfd) ->
    wp (show_creds sfd) q1 (fun o q => o = Exit EXIT_SUCCESS /\ Out (data_line data) ∈ trace q /\ Out (str "Received credentials " ++ ids_text c) ∈ trace q)) as Hshow.
  { intros q1 v1 Ht Hin [s Hs1]. unfold show_creds. destruct (recv_creds_law sfd _ v1 (kern q1) Ht eq_refl Hin eq_refl) as (k3 & Hrecv & Hv3).
    apply wp_bind. eapply (wp_receive _ Out); [by intros ???|]. exists k3. split; [exact Hrecv|]. split; [done|]. intros q2 Hk Htr. cbn [payload creds] in *.
    apply wp_bind, wp_printf. rewrite get_put_ucred by done.
    destruct (peercred_law sfd s (kern q2)) as (c2 & k4 & Hpeer & _); [by rewrite Hk, Hv3|].
    apply wp_bind, wp_syscall. cbn [kern]. rewrite Hpeer. apply wp_bind, wp_printf, wp_exit_. cbn [trace errno kern] in *. split; [done|].
    rewrite Htr, un_le_int by done. set_solver. }
  apply wp_bind. destruct d.
  - destruct Hkind as [-> Hq]. apply wp_ret. apply (Hshow q v'); [done|rewrite Hq; by apply Hpc|done].
  - destruct Hkind as [a Ha]. unfold ask_passcred, setsockopt. apply wp_bind.
    destruct (passcred_accepted_law sfd a (kern q) Ha) as (k' & Hk & Hv). eapply wp_ok; [exact Hk|]. change (0 =? -1) with false. cbv iota. apply wp_ret.
    apply (Hshow _ (ask_creds sfd v')); [|unfold sees; cbn [kern]; rewrite Hv; cbn [ask_creds passcred]; set_solver|done].
    unfold sees at 1. cbn [kern]. rewrite Hv. by apply take_ask.
Qed.

(** the credentials that scm_cred_recv prints are those that scm_cred_send gives or, with -n or where its command line says nothing, its
    own, and the data is what its command line says; a sender that gives others than its own without a privilege ends with a message. *)
Theorem credentials_passed prog opts operands prog' opts' (p s : proc K) :
  opts_ok true opts -> opts_ok false opts' -> has_opt "d" opts = has_opt "d" opts' -> starts (sees p) -> starts (sees s) -> ucred_ok (own (sees s)) ->
  let c := sent_creds opts operands (own (sees s)) in
  cred_recv prog' opts' p = (x ← cred_setup prog' opts'; cred_rest x) p /\
  wp (cred_setup prog' opts') p (fun o p1 => exists x, o = Ret x /\ blocked_at x (sees p1) /\
    wp (cred_send prog opts operands) (over (net (sees p1)) s) (fun o1 s1 =>
      if has_opt "n" opts || privileged (sees s) || bool_decide (c = own (sees s)) then
        o1 = Exit EXIT_SUCCESS /\
        wp (cred_rest x) (over (net (sees s1)) p1) (fun o2 p2 => o2 = Exit EXIT_SUCCESS /\
          Out (data_line (data_of operands)) ∈ trace p2 /\ Out (str "Received credentials " ++ ids_text c) ∈ trace p2)
      else stopped o1)).
Proof.
  intros Ho Ho' Hd Hp Hs Hok c. split; [apply cred_recv_halves|]. eapply wp_mono; [by apply cred_setup_waits|].
  cbv zeta. intros o p1 (-> & Hbl & Hw & Hpc & Hwait). eexists. split; [done|]. split; [done|]. rewrite <- Hd in *.
  assert (in_s 32 (data_of operands)) as Hdata.
  { unfold data_of. destruct operands; [done|]. unfold atoi. apply wrap_s_range. lia. }
  pose proof (cred_send_carries prog opts operands (over (net (sees p1)) s) Ho) as Hsend. rewrite sees_over in Hsend. cbn [set_net net own privileged] in Hsend.
  specialize (Hsend Hs Hok Hwait). cbv zeta in Hsend. fold c in Hsend. eapply wp_mono; [exact Hsend|]. intros o1 s1 Hcase. destruct (_ || _); [|done].
  destruct Hcase as [-> Hcar]. split; [done|].
  apply (cred_rest_shows _ (data_of operands)); [|by rewrite sees_over|done|by apply sent_creds_ok|by rewrite sees_over].
  rewrite sees_over. destruct Hw as [H1 H2]. by split.
Qed.
End Correct.

(** ** A machine for which they hold

    Its sockets are those of the section above: a call that is made on a descriptor of the wrong kind fails. *)

Definition fails {A} (e : Z) (v : view) : (A + Z) * view := (inr e, v).
Definition EMFILE : Z := 24.
Definition ECONNREFUSED : Z := 111.

#[local] Instance view_files : FileIO view := {
  k_open file flags mode v :=
    match files (net v) !! file, free_fd v with Some c, Some fd => (inl fd, set_rest fd c v) | Some _, None => fails EMFILE v | None, _ => fails ENOENT v end;
  k_close fd v := (inl 0, View (net v) (delete fd (rest_of v)) (delete fd (socks v)) (passcred v) (own v) (privileged v) (shown v));
  k_read fd n v := match rest_of v !! fd with
                   | Some c => (inl (take (Z.to_nat n) c), set_rest fd (drop (Z.to_nat n) c) v)
                   | None => fails EBADF v
                   end;
  k_write fd s v := if fd =? STDOUT_FILENO then (inl (strlen s), show s v) else fails EBADF v;
  k_lseek _ _ _ := fails EINVAL
}.

Definition view_connect (fd : Z) (addr : bytes) (v : view) : (Z + Z) * view :=
  match socks v !! fd, bound (net v) !! addr with
  | Some (Fresh t), Some e =>
      if negb (t =? e_type e) then fails EINVAL v
      else if t =? SOCK_STREAM then
        if e_listening e then
          let c := fresh (dom (conns (net v))) in
          (inl 0, set_net (Network (files (net v)) (<[addr := Endpoint SOCK_STREAM true (e_creds e) (e_pending e ++ [c]) (e_queue e)]> (bound (net v)))
                                   (<[c := []]> (conns (net v)))) (set_sock fd (Stream c) v))
        else fails ECONNREFUSED v
      else (inl 0, set_sock fd (Peer addr) v)
  | Some (Fresh _), None => fails ECONNREFUSED v
  | _, _ => fails EBADF v
  end.

Definition view_setsockopt (fd level opt val : Z) (v : view) : (Z + Z) * view :=
  match socks v !! fd with
  | Some (Bound t addr) =>
      match bound (net v) !! addr with
      | Some e => (inl 0, set_net (put_endpoint addr (Endpoint (e_type e) (e_listening e) true (e_pending e) (e_queue e)) (net v)) (ask_creds fd v))
      | None => fails EINVAL v
      end
  | Some _ => (inl 0, ask_creds fd v)
  | None => fails EBADF v
  end.

#[local] Instance view_sockets : SocketOps view := {
  k_getaddrinfo _ _ _ v := (inl [], v);
  k_getnameinfo _ v := (inr 1, v);
  k_socket f t p v := match free_fd v with Some fd => (inl fd, new_sock fd (Fresh t) v) | None => fails EMFILE v end;
  k_connect := view_connect;
  k_bind fd addr v :=
    match socks v !! fd, bound (net v) !! addr with
    | Some (Fresh t), None => (inl 0, set_net (put_endpoint addr (Endpoint t false false [] []) (net v)) (set_sock fd (Bound t addr) v))
    | _, _ => fails EINVAL v
    end;
  k_listen fd b v :=
    match socks v !! fd with
    | Some (Bound t addr) =>
        match bound (net v) !! addr with
        | Some e => (inl 0, set_net (put_endpoint addr (Endpoint (e_type e) true (e_creds e) (e_pending e) (e_queue e)) (net v)) (set_sock fd (Listening addr) v))
        | None => fails EINVAL v
        end
    | _ => fails EINVAL v
    end;
  k_setsockopt := view_setsockopt;
  k_sclose fd v := (inl 0, View (net v) (delete fd (rest_of v)) (delete fd (socks v)) (passcred v) (own v) (privileged v) (shown v))
}.

Definition view_accept (lfd : Z) (v : view) : (Z + Z) * view :=
  match socks v !! lfd with
  | Some (Listening addr) =>
      match bound (net v) !! addr, free_fd v with
      | Some (Endpoint t lis cr (c :: cs) q), Some fd => (inl fd, set_net (put_endpoint addr (Endpoint t lis cr cs q) (net v)) (new_sock fd (Accepted c) v))
      | _, _ => fails EMFILE v
      end
  | _ => fails EINVAL v
  end.

Definition view_sendmsg (sfd : Z) (data : bytes) (control : option cmsghdr) (v : view) : (Z + Z) * view :=
  let send m := match put_message sfd m v with Some v' => (inl (strlen data), v') | None => fails EBADF v end in
  match control with
  | None => send (Message data None (own v))
  | Some c =>
      if cmsg_type c =? SCM_RIGHTS then send (Message data (rest_of v !! s32 (un_le (cmsg_data c))) (own v))
      else let u := get_ucred (cmsg_data c) in
           if privileged v || bool_decide (u = own v) then send (Message data None u) else fails EPERM v
  end.

Definition view_recvmsg (sfd n room : Z) (v : view) : (bytes * option cmsghdr + Z) * view :=
  match take_message sfd v with
  | None => fails EBADF v
  | Some (m, v') =>
      match passed m, free_fd v' with
      | Some c, Some fd => (inl (payload m, Some (Cmsg (CMSG_LEN INT_SIZE) SOL_SOCKET SCM_RIGHTS (le 4 fd))), set_rest fd c v')
      | Some _, None => (inl (payload m, None), v')
      | None, _ => (inl (payload m, if bool_decide (sfd ∈ passcred v) then Some (Cmsg (CMSG_LEN UCRED_SIZE) SOL_SOCKET SCM_CREDENTIALS (put_ucred (creds m))) else None), v')
      end
  end.

#[local] Instance view_msgs : MsgCalls view := {
  k_remove path v := (match files (net v) !! path, bound (net v) !! sun_path path with None, None => inr ENOENT | _, _ => inl 0 end, set_net (unlink path (net v)) v);
  k_accept_any := view_accept;
  k_sendmsg := view_sendmsg;
  k_recvmsg := view_recvmsg;
  k_own_ids := own;
  k_peercred fd v := match socks v !! fd with Some _ => (inl (own v), v) | None => fails EBADF v end
}.

#[local] Instance view_laws : ScmLaws view.
Proof.
  refine {| see := fun v => v; with_net := set_net |}.
  - done.
  - intros path k. eexists _, _. split; [reflexivity|]. split; [|done]. repeat case_match; auto.
  - intros t fd k _ Hfd. cbn -[free_fd]. rewrite Hfd. by eexists.
  - intros fd t path k Hs _ Hb. cbn -[free_fd]. rewrite Hs, Hb. by eexists.
  - intros fd addr e b k Hs Hb _. cbn -[free_fd]. rewrite Hs, Hb. by eexists.
  - intros fd addr e k Hs Hb Ht Hl Hp. cbn -[free_fd put_message take_message le un_le put_ucred get_ucred]. unfold view_connect. rewrite Hs, Hb, Ht, Hl, Hp. change (SOCK_STREAM =? SOCK_STREAM) with true. cbn [negb].
    exists (fresh (dom (conns (net k)))). eexists. split; [reflexivity|]. split; [|done]. apply not_elem_of_dom, is_fresh.
  - intros fd addr e k Hs Hb Ht. cbn -[free_fd put_message take_message le un_le put_ucred get_ucred]. unfold view_connect. rewrite Hs, Hb, Ht. by eexists.
  - intros lfd addr [t lis cr pe q] c cs fd k Hs Hb Hp Hfd. cbn in Hp. subst pe. cbn -[free_fd put_message take_message le un_le put_ucred get_ucred]. unfold view_accept. rewrite Hs, Hb, Hfd. by eexists.
  - intros file c fd k Hf Hfd. cbn -[free_fd]. rewrite Hf, Hfd. by eexists.
  - intros fd c k Hc. cbn -[free_fd]. rewrite Hc. exists (take (Z.to_nat BUF_SIZE) c), (drop (Z.to_nat BUF_SIZE) c). eexists. split_and!; [reflexivity|by rewrite take_drop| |done].
    destruct c; [done|]. change (Z.to_nat BUF_SIZE) with 100%nat. done.
  - intros s k. eexists. by split.
  - intros fd t addr e k Hs Hb. cbn -[free_fd put_message take_message le un_le put_ucred get_ucred]. unfold view_setsockopt. rewrite Hs, Hb. by eexists.
  - intros fd c k Hs. cbn -[free_fd put_message take_message le un_le put_ucred get_ucred]. unfold view_setsockopt. rewrite Hs. by eexists.
  - done.
  - intros fd s k Hs. cbn -[free_fd]. rewrite Hs. by eexists _, _.
  - intros sfd data fd c k v' Hfd Hc Hput. cbn -[free_fd put_message take_message le un_le put_ucred get_ucred]. unfold view_sendmsg. cbn [cmsg_type cmsg_data]. change (SCM_RIGHTS =? SCM_RIGHTS) with true. cbn iota.
    rewrite un_le_int by (unfold in_s, INT_MAX in *; lia). rewrite Hc, Hput. by eexists.
  - intros sfd data k v' _ Hput. cbn -[put_message]. rewrite Hput. by eexists.
  - intros sfd data c k v' Hc Hput. cbn -[free_fd put_message take_message le un_le put_ucred get_ucred]. unfold view_sendmsg. cbn [cmsg_type cmsg_data]. change (SCM_CREDENTIALS =? SCM_RIGHTS) with false. cbn iota zeta.
    rewrite get_put_ucred, Hput by done. destruct (privileged k || bool_decide (c = own k)); eexists _, _; by split.
  - intros sfd m c v' fd k Ht Hm _ _ Hfd. cbn -[free_fd put_message take_message le un_le put_ucred get_ucred]. unfold view_recvmsg. rewrite Ht, Hm, Hfd. by eexists.
  - intros sfd m v' k Ht Hm Hp _. cbn -[free_fd put_message take_message le un_le put_ucred get_ucred]. unfold view_recvmsg. rewrite Ht, Hm, bool_decide_eq_true_2 by done. by eexists.
Defined.

#[local] Instance no_messages : Messages := {| ename _ := []; MAX_ENAME := 133; strerror _ := []; EF_DUMPCORE := None |}.

Definition shared_files : network := Network {[ str "motd" := str "welcome" ]} ∅ ∅.
Definition receiver_start : proc view := Proc (View shared_files ∅ ∅ ∅ (Ucred 200 1001 1001) false []) 0 [].
Definition sender_start : proc view := Proc (View shared_files ∅ ∅ ∅ (Ucred 100 1000 1000) false []) 0 [].

(** The three parts of a run, one after the other. *)
Definition receiver_waits (opts : list ascii) : proc view := (rights_setup (str "scm_rights_recv") opts receiver_start).2.


Definition cred_waits : proc view := (cred_setup (str "scm_cred_recv") [] receiver_start).2.
Definition cred_sent (operands : list bytes) : outcome unit * proc view :=
  cred_send (str "scm_cred_send") [] operands (over (net (kern cred_waits)) sender_start).
Definition cred_done (operands : list bytes) : outcome unit * proc view := cred_rest (false, 3) (over (net (kern (cred_sent operands).2)) cred_waits).

Lemma credentials_passed_witness : let r := cred_done [str "7"; str "-"; str "1000"] in r.1 = Exit EXIT_SUCCESS /\
  Out (data_line 7) ∈ trace r.2 /\ Out (str "Received credentials pid=100, uid=1000, gid=1000" ++ [NL]) ∈ trace r.2.
Proof.
  destruct (credentials_passed (str "scm_cred_send") [] [str "7"; str "-"; str "1000"] (str "scm_cred_recv") [] receiver_start sender_start
    ltac:(constructor) ltac:(constructor) eq_refl ltac:(by split_and!) ltac:(by split_and!) ltac:(by split_and!)) as [_ Hrun].
  unfold wp in Hrun. fold cred_waits in Hrun. destruct Hrun as (x & Hx & _ & Hsend).
  assert (x = (false, 3)) as -> by (vm_compute in Hx; by injection Hx as <-).
  change ((has_opt "n" [] || privileged (sees sender_start) ||
    bool_decide (sent_creds [] [str "7"; str "-"; str "1000"] (own (sees sender_start)) = own (sees sender_start)))) with true in Hsend.
  destruct Hsend as (_ & Hexit & Hd & Hc). split; [exact Hexit|]. split; [exact Hd|exact Hc].
Defined.

(** Others' credentials need a privilege. *)
Example creds_refused : (cred_sent [str "7"; str "1"]).1 = Exit EXIT_FAILURE.
Proof. vm_compute. reflexivity. Qed.

(** Without a receiver there is nothing to connect to, and with the other kind of socket it is refused. *)
Example no_receiver : (rights_send (str "scm_rights_send") [] [str "motd"] sender_start).1 = Exit EXIT_FAILURE.
Proof. vm_compute. reflexivity. Qed.
Example other_kind :
  (rights_send (str "scm_rights_send") ["d"%char] [str "motd"] (over (net (kern (receiver_waits []))) sender_start)).1 = Exit EXIT_FAILURE.
Proof. vm_compute. reflexivity. Qed.
