(* ===== verification/DirList.v ===== *)
(** * Directories

    list_files.c, list_files_readdir_r.c, file_type_stats.c and nftw_dir_tree.c (tlpi-dist/dirs_links).
    Directory streams are the kernel's, with the laws of [DirLaws]; nftw is a parameter, of which the
    programs see the visits it makes, in order, and whether it succeeds. *)

From Stdlib Require Import ZArith Lia String Ascii.
From S2P Require Import Prelude CString Kernel ErrorFns.
From S2P Require Tail.
Import Tail (opt, Opt, BadOpt, an_int).

Class ListCalls (K : Type) := {
  k_opendir : bytes -> K -> (Z + Z) * K;
  k_readdir : Z -> K -> (option bytes + Z) * K;        (* the name of the next entry, or nothing at the end *)
  k_readdir_r : Z -> K -> (option bytes + Z) * K;
  k_closedir : Z -> K -> (Z + Z) * K;
  k_pathconf_name_max : bytes -> K -> (Z + Z) * K
}.

Section Programs.
Context `{!Messages} {K : Type} `{!ListCalls K} (malloc_ok : Z -> bool).

Definition opendir (path : bytes) : M (proc K) (option Z) :=
  syscall None (fun k => let '(r, k') := k_opendir path k in (match r with inl d => inl (Some d) | inr e => inr e end, k')).

Definition skipped (name : bytes) : bool := (strcmp name (str ".") =? 0) || (strcmp name (str "..") =? 0).

Definition show_entry (isCurrent : bool) (dirpath name : bytes) : M (proc K) unit :=
  (if isCurrent then mret tt else printf (dirpath ++ str "/")) ;; printf (name ++ [NL]).

Definition closedir_or_report (dirp : Z) : M (proc K) unit :=
  r ← syscall (-1) (k_closedir dirp); if r =? -1 then errMsg (str "closedir") else mret tt.

Definition opendir_failed (dirpath : bytes) : M (proc K) unit := errMsg (str "opendir failed on '" ++ dirpath ++ str "'").

(** *** list_files.c *)

Definition listFiles (fuel : nat) (dirpath : bytes) : M (proc K) unit :=
  let isCurrent := strcmp dirpath (str ".") =? 0 in
  dirp ← opendir dirpath;
  match dirp with
  | None => opendir_failed dirpath
  | Some dirp =>
      loop fuel (fun _ =>
        set_errno 0 ;;
        dp ← syscall None (k_readdir dirp);
        match dp with
        | None => mret (inr tt)
        | Some name => if skipped name then mret (inl tt) else show_entry isCurrent dirpath name ;; mret (inl tt)
        end) tt ;;
      e ← get_errno;
      (if negb (e =? 0) then errExit (str "readdir") else mret tt) ;;
      closedir_or_report dirp
  end.

Fixpoint each_dir (ls : bytes -> M (proc K) unit) (args : list bytes) : M (proc K) unit :=
  match args with [] => mret tt | a :: args' => ls a ;; each_dir ls args' end.

Definition list_files_main (fuel : nat) (prog : bytes) (args : list bytes) : M (proc K) unit :=
  match args with
  | a :: _ => if strcmp a (str "--help") =? 0 then usageErr (prog ++ str " [dir-path...]" ++ [NL]) else mret tt
  | [] => mret tt
  end ;;
  match args with [] => listFiles fuel (str ".") | _ => each_dir (listFiles fuel) args end ;;
  exit_ EXIT_SUCCESS.

(** *** list_files_readdir_r.c *)

(** [offsetof(struct dirent, d_name)]. *)
Definition d_name_offset : Z := 19.

(** [readdir_r] delivers the number of its error. *)
Definition readdir_r (dirp : Z) : M (proc K) (Z * option bytes) := fun p =>
  match k_readdir_r dirp (kern p) with
  | (inl r, k') => (Ret (0, r), Proc k' (errno p) (trace p))
  | (inr e, k') => (Ret (e, None), Proc k' (errno p) (trace p))
  end.

Definition listFiles_r (fuel : nat) (dirpath : bytes) : M (proc K) unit :=
  let isCurrent := strcmp dirpath (str ".") =? 0 in
  nameMax ← syscall (-1) (k_pathconf_name_max dirpath);
  let nameMax := s32 nameMax in
  let nameMax := if nameMax =? -1 then 255 else nameMax in
  (if negb (malloc_ok (u64 (d_name_offset + nameMax + 1))) then errExit (str "malloc") else mret tt) ;;
  dirp ← opendir dirpath;
  match dirp with
  | None => opendir_failed dirpath
  | Some dirp =>
      loop fuel (fun _ =>
        r ← readdir_r dirp;
        let '(e, result) := r in
        set_errno e ;;
        if negb (e =? 0) then errExit (str "readdir_r")
        else match result with
             | None => mret (inr tt)
             | Some name => if skipped name then mret (inl tt) else show_entry isCurrent dirpath name ;; mret (inl tt)
             end) tt ;;
      closedir_or_report dirp
  end.

Definition list_files_readdir_r_main (fuel : nat) (args : list bytes) : M (proc K) unit :=
  match args with [] => listFiles_r fuel (str ".") | _ => each_dir (listFiles_r fuel) args end ;;
  exit_ EXIT_SUCCESS.
End Programs.

(** ** Both programs print the same

    [dirs] has what can be opened and, for what cannot, the error; [entries] what a stream has still to deliver. *)

Class DirLaws (K : Type) `{!ListCalls K} := {
  dirs : K -> bytes -> list bytes + Z;
  entries : K -> Z -> list bytes;
  opendir_law : forall path k, match k_opendir path k with
    | (inl d, k') => dirs k path = inl (entries k' d) /\ dirs k' = dirs k
    | (inr e, k') => dirs k path = inr e /\ dirs k' = dirs k
    end;
  readdir_law : forall d k, exists k', k_readdir d k = (inl (head (entries k d)), k') /\ entries k' d = tail (entries k d) /\ dirs k' = dirs k;
  readdir_r_law : forall d k, exists k', k_readdir_r d k = (inl (head (entries k d)), k') /\ entries k' d = tail (entries k d) /\ dirs k' = dirs k;
  closedir_law : forall d k, exists r k', k_closedir d k = (inl r, k') /\ r <> -1 /\ dirs k' = dirs k;
  pathconf_law : forall path k, dirs (k_pathconf_name_max path k).2 = dirs k
}.

Section Correct.
Context `{!Messages} {K : Type} `{!ListCalls K, !DirLaws K}.
Implicit Types (p q : proc K).

(** What is printed of an entry, and of a directory. *)
Definition entry_lines (dirpath name : bytes) : list event :=
  if skipped name then [] else (if strcmp dirpath (str ".") =? 0 then [] else [Out (dirpath ++ str "/")]) ++ [Out (name ++ [NL])].
Definition dir_lines (d : bytes -> list bytes + Z) (dirpath : bytes) : list event :=
  match d dirpath with
  | inl es => concat (entry_lines dirpath <$> es)
  | inr e => [Err (error_line true e (str "opendir failed on '" ++ dirpath ++ str "'"))]
  end.

(** [ls] prints the lines of a directory, whatever the directory, and returns. *)
Definition lists (d : bytes -> list bytes + Z) (ls : bytes -> M (proc K) unit) (path : bytes) : Prop :=
  forall p, dirs (kern p) = d -> exists q, ls path p = (Ret tt, q) /\ dirs (kern q) = d /\ trace q = trace p ++ dir_lines d path.

Lemma show_entry_run path name p : skipped name = false ->
  exists q, show_entry (strcmp path (str ".") =? 0) path name p = (Ret tt, q) /\ kern q = kern p /\ errno q = errno p /\
    trace q = trace p ++ entry_lines path name.
Proof.
  intros Hs. unfold show_entry, entry_lines. rewrite Hs. destruct (_ =? 0); [by eexists|].
  eexists. split; [by erewrite bind_Ret by reflexivity|]. split_and!; try done. cbn [trace]. by rewrite <- app_assoc.
Qed.

Lemma closedir_run d p : exists q, closedir_or_report d p = (Ret tt, q) /\ dirs (kern q) = dirs (kern p) /\ trace q = trace p.
Proof.
  destruct (closedir_law d (kern p)) as (r & k' & Hk & Hr & Hd). exists (Proc k' (errno p) (trace p)). split; [|done].
  unfold closedir_or_report. erewrite bind_Ret by (unfold syscall; rewrite Hk; reflexivity). by rewrite (proj2 (Z.eqb_neq _ _)).
Qed.

(** A loop that takes the next entry in each round. *)
Lemma entries_loop (body : unit -> M (proc K) (unit + unit)) dir path d :
  (forall p, dirs (kern p) = d -> exists q, dirs (kern q) = d /\ entries (kern q) dir = tail (entries (kern p) dir) /\
     match entries (kern p) dir with
     | [] => body tt p = (Ret (inr tt), q) /\ trace q = trace p /\ errno q = 0
     | name :: _ => body tt p = (Ret (inl tt), q) /\ trace q = trace p ++ entry_lines path name
     end) ->
  forall fuel p, dirs (kern p) = d -> (length (entries (kern p) dir) < fuel)%nat ->
  exists q, loop fuel body tt p = (Ret tt, q) /\ dirs (kern q) = d /\ errno q = 0 /\
    trace q = trace p ++ concat (entry_lines path <$> entries (kern p) dir).
Proof.
  intros Hbody. induction fuel as [|fuel IH]; intros p Hd Hfuel; [lia|].
  destruct (Hbody p Hd) as (q1 & Hd1 & He1 & Hrun). destruct (entries (kern p) dir) as [|name es]; cbn [tail length] in *.
  - destruct Hrun as (Hrun & Ht & He). exists q1. rewrite app_nil_r. split_and!; try done. by apply loop_done.
  - destruct Hrun as (Hrun & Ht). destruct (IH q1 Hd1) as (q & Hq & Hdq & Heq & Htq); [rewrite He1; lia|].
    exists q. split_and!; try done; [by erewrite loop_next|]. rewrite Htq, Ht, He1, <- app_assoc. done.
Qed.

Lemma opendir_run path p : match dirs (kern p) path with
  | inl es => exists d q, opendir path p = (Ret (Some d), q) /\ entries (kern q) d = es /\ dirs (kern q) = dirs (kern p) /\ trace q = trace p
  | inr e => exists q, opendir path p = (Ret None, q) /\ errno q = e /\ dirs (kern q) = dirs (kern p) /\ trace q = trace p
  end.
Proof.
  pose proof (opendir_law path (kern p)) as Ho. unfold opendir, syscall. destruct (k_opendir path (kern p)) as [[d|e] k'] eqn:Hk;
    destruct Ho as [-> Hd]; [exists d|]; eexists; split_and!; (reflexivity || done).
Qed.

Lemma opendir_failed_run path p : exists q, opendir_failed path p = (Ret tt, q) /\ kern q = kern p /\
  trace q = trace p ++ [Err (error_line true (errno p) (str "opendir failed on '" ++ path ++ str "'"))].
Proof. by eexists. Qed.

Lemma listFiles_lists d path fuel : (match d path with inl es => length es < fuel | inr _ => True end)%nat -> lists d (listFiles fuel) path.
Proof.
  intros Hfuel p Hd. pose proof (opendir_run path p) as Ho. rewrite Hd in Ho. unfold listFiles, dir_lines. cbv zeta. destruct (d path) as [es|e].
  - destruct Ho as (dirp & q1 & Hrun & He & Hd1 & Ht1). rewrite (bind_Ret _ _ _ _ _ Hrun). cbv iota.
    edestruct (entries_loop (fun _ => set_errno 0 ;; dp ← syscall None (k_readdir dirp);
        match dp with None => mret (inr tt) | Some name => if skipped name then mret (inl tt) else show_entry (strcmp path (str ".") =? 0) path name ;; mret (inl tt) end)
        dirp path d) as (q2 & Hloop & Hd2 & He2 & Ht2); [|exact Hd1|rewrite He; exact Hfuel|].
    { intros p1 Hp1. destruct (readdir_law dirp (kern p1)) as (k' & Hk & Hen & Hdk).
      assert (forall B (k : option bytes -> M (proc K) B), (set_errno 0 ;; dp ← syscall None (k_readdir dirp); k dp) p1 = k (head (entries (kern p1) dirp)) (Proc k' 0 (trace p1))) as Hstart.
      { intros B k. erewrite bind_Ret by reflexivity. erewrite bind_Ret by (unfold syscall; cbn [kern]; rewrite Hk; reflexivity). done. }
      rewrite Hstart. destruct (entries (kern p1) dirp) as [|name es']; cbn [head tail] in *.
      - exists (Proc k' 0 (trace p1)). split_and!; try done. cbn [kern]. congruence.
      - destruct (skipped name) eqn:Hs.
        + exists (Proc k' 0 (trace p1)). unfold entry_lines. rewrite Hs, app_nil_r. split_and!; try done. cbn [kern]. congruence.
        + destruct (show_entry_run path name (Proc k' 0 (trace p1)) Hs) as (q & Hq & Hkq & _ & Htq). exists q.
          rewrite Hkq. cbn [kern trace] in *. split_and!; [congruence|done|by rewrite (bind_Ret _ _ _ _ _ Hq)|done]. }
    rewrite (bind_Ret _ _ _ _ _ Hloop). erewrite bind_Ret by reflexivity. rewrite He2. cbn [Z.eqb negb]. erewrite bind_Ret by reflexivity.
    destruct (closedir_run dirp q2) as (q3 & Hc & Hd3 & Ht3). exists q3. split_and!; [done|congruence|]. by rewrite Ht3, Ht2, Ht1, He.
  - destruct Ho as (q1 & Hrun & He & Hd1 & Ht1). rewrite (bind_Ret _ _ _ _ _ Hrun). cbv iota.
    destruct (opendir_failed_run path q1) as (q2 & Hf & Hk2 & Ht2). exists q2. split_and!; [done|congruence|]. by rewrite Ht2, Ht1, He.
Qed.

Lemma listFiles_r_lists malloc_ok d path fuel : (forall n, malloc_ok n = true) ->
  (match d path with inl es => length es < fuel | inr _ => True end)%nat -> lists d (listFiles_r malloc_ok fuel) path.
Proof.
  intros Hm Hfuel p Hd. unfold listFiles_r. cbv zeta. pose proof (pathconf_law path (kern p)) as Hpc.
  assert (exists r q0, syscall (-1) (k_pathconf_name_max path) p = (Ret r, q0) /\ dirs (kern q0) = d /\ trace q0 = trace p) as (r & q0 & Hrun0 & Hd0 & Ht0).
  { unfold syscall. destruct (k_pathconf_name_max path (kern p)) as [[r|e] k']; do 2 eexists; (split; [reflexivity|split; [cbn in *; congruence|done]]). }
  rewrite (bind_Ret _ _ _ _ _ Hrun0), Hm. cbn [negb]. erewrite bind_Ret by reflexivity.
  pose proof (opendir_run path q0) as Ho. rewrite Hd0 in Ho. unfold dir_lines. destruct (d path) as [es|e].
  - destruct Ho as (dirp & q1 & Hrun & He & Hd1 & Ht1). rewrite (bind_Ret _ _ _ _ _ Hrun). cbv iota.
    edestruct (entries_loop (fun _ => r ← readdir_r dirp; let '(e, result) := r in set_errno e ;;
        if negb (e =? 0) then errExit (str "readdir_r")
        else match result with None => mret (inr tt) | Some name => if skipped name then mret (inl tt) else show_entry (strcmp path (str ".") =? 0) path name ;; mret (inl tt) end)
        dirp path d) as (q2 & Hloop & Hd2 & He2 & Ht2); [|exact Hd1|rewrite He; exact Hfuel|].
    { intros p1 Hp1. destruct (readdir_r_law dirp (kern p1)) as (k' & Hk & Hen & Hdk).
      erewrite bind_Ret by (unfold readdir_r; rewrite Hk; reflexivity). cbv iota beta. erewrite bind_Ret by reflexivity. cbn [Z.eqb negb].
      cbn [kern errno trace]. destruct (entries (kern p1) dirp) as [|name es']; cbn [head tail] in *.
      - exists (Proc k' 0 (trace p1)). split_and!; try done. cbn [kern]. congruence.
      - destruct (skipped name) eqn:Hs.
        + exists (Proc k' 0 (trace p1)). unfold entry_lines. rewrite Hs, app_nil_r. split_and!; try done. cbn [kern]. congruence.
        + destruct (show_entry_run path name (Proc k' 0 (trace p1)) Hs) as (q & Hq & Hkq & _ & Htq). exists q.
          rewrite Hkq. cbn [kern trace] in *. split_and!; [congruence|done|by rewrite (bind_Ret _ _ _ _ _ Hq)|done]. }
    rewrite (bind_Ret _ _ _ _ _ Hloop). destruct (closedir_run dirp q2) as (q3 & Hc & Hd3 & Ht3). exists q3.
    split_and!; [done|congruence|]. rewrite Ht3, Ht2, Ht1, He. congruence.
  - destruct Ho as (q1 & Hrun & He & Hd1 & Ht1). rewrite (bind_Ret _ _ _ _ _ Hrun). cbv iota.
    destruct (opendir_failed_run path q1) as (q2 & Hf & Hk2 & Ht2). exists q2. split_and!; [done|congruence|]. rewrite Ht2, Ht1, He. congruence.
Qed.

Lemma each_dir_lists d ls args : Forall (lists d ls) args -> forall p, dirs (kern p) = d ->
  exists q, each_dir ls args p = (Ret tt, q) /\ dirs (kern q) = d /\ trace q = trace p ++ concat (dir_lines d <$> args).
Proof.
  induction 1 as [|a args Ha _ IH]; intros p Hd; [exists p; by rewrite app_nil_r|].
  destruct (Ha p Hd) as (q1 & H1 & Hd1 & Ht1). destruct (IH q1 Hd1) as (q & H2 & Hd2 & Ht2). exists q.
  split_and!; [cbn [each_dir]; by rewrite (bind_Ret _ _ _ _ _ H1)|done|]. rewrite Ht2, Ht1, <- app_assoc. done.
Qed.

(** The directories the arguments name. *)
Definition listed (args : list bytes) : list bytes := match args with [] => [str "."] | _ => args end.

(** list_files and list_files_readdir_r print the same for the same arguments, --help aside: for each directory, in order, a
    line for each of its entries other than . and .., with the path before it unless the path is the current directory, or a
    message that it cannot be opened; and both end with status 0. *)
Theorem list_files_agree malloc_ok fuel prog args p : (forall n, malloc_ok n = true) -> head args <> Some (str "--help") -> Forall c_string args ->
  Forall (fun a => match dirs (kern p) a with inl es => length es < fuel | inr _ => True end)%nat (listed args) ->
  exists q1 q2, list_files_main fuel prog args p = (Exit EXIT_SUCCESS, q1) /\ list_files_readdir_r_main malloc_ok fuel args p = (Exit EXIT_SUCCESS, q2) /\
    trace q1 = trace p ++ concat (dir_lines (dirs (kern p)) <$> listed args) /\ trace q2 = trace q1.
Proof.
  intros Hm Hhelp Hc Hfuel.
  assert (forall ls, Forall (lists (dirs (kern p)) ls) (listed args) ->
    exists q, match args with [] => ls (str ".") | _ => each_dir ls args end p = (Ret tt, q) /\
      trace q = trace p ++ concat (dir_lines (dirs (kern p)) <$> listed args)) as Hall.
  { intros ls Hl. destruct args as [|a args].
    - apply Forall_cons in Hl as [Hl _]. destruct (Hl p eq_refl) as (q & Hq & _ & Ht). exists q. split; [done|]. cbn. by rewrite app_nil_r.
    - destruct (each_dir_lists _ _ _ Hl p eq_refl) as (q & Hq & _ & Ht). by exists q. }
  destruct (Hall (listFiles fuel)) as (q1 & H1 & Ht1); [eapply Forall_impl; [exact Hfuel|]; intros; by apply listFiles_lists|].
  destruct (Hall (listFiles_r malloc_ok fuel)) as (q2 & H2 & Ht2); [eapply Forall_impl; [exact Hfuel|]; intros; by apply listFiles_r_lists|].
  exists q1, q2. split_and!; [| |done|congruence].
  - unfold list_files_main. rewrite (bind_Ret _ _ _ tt p); [by rewrite (bind_Ret _ _ _ _ _ H1)|].
    destruct args as [|a args]; [done|]. rewrite (proj2 (Z.eqb_neq _ _)); [done|]. apply Forall_cons in Hc as [Ha _].
    rewrite strcmp_eq; [|done|by_decide]. intros ->. by destruct Hhelp.
  - unfold list_files_readdir_r_main. by rewrite (bind_Ret _ _ _ _ _ H2).
Qed.
End Correct.

(** ** Walks over a tree *)

Definition S_IFMT : Z := 61440.
Definition S_IFSOCK : Z := 49152.
Definition S_IFLNK : Z := 40960.
Definition S_IFREG : Z := 32768.
Definition S_IFBLK : Z := 24576.
Definition S_IFDIR : Z := 16384.
Definition S_IFCHR : Z := 8192.
Definition S_IFIFO : Z := 4096.

(** What nftw tells of a file: the arguments of its callback. *)
Inductive ftw_type := FTW_F | FTW_D | FTW_DNR | FTW_DP | FTW_NS | FTW_SL | FTW_SLN | FTW_other.
Record visit := Visit { pathname : bytes; st_mode : Z; st_ino : Z; type : ftw_type; base : Z; level : Z }.

Definition FTW_PHYS : Z := 1.
Definition FTW_MOUNT : Z := 2.
Definition FTW_DEPTH : Z := 8.

(** [%*d] and [%*s]. *)
Definition right_aligned (w : nat) (s : bytes) : bytes := replicate (w - length s) " "%char ++ s.
Definition left_aligned (w : nat) (s : bytes) : bytes := s ++ replicate (w - length s) " "%char.

(** [nftw path flags] is the visits and whether it succeeds; the callbacks here let it go on. *)
Section Walks.
Context {K : Type} (nftw : bytes -> Z -> list visit * bool) (nftw_error : bytes).

(** *** file_type_stats.c *)

Record counts := Counts { numReg : Z; numDir : Z; numSymLk : Z; numSocket : Z; numFifo : Z; numChar : Z; numBlock : Z }.
Definition zero : counts := Counts 0 0 0 0 0 0 0.

(** A mode whose type is none of the seven is counted nowhere. *)
Definition countFile (c : counts) (v : visit) : M (proc K) counts :=
  let up := fun n => an_int (n + 1) in
  let t := Z.land (st_mode v) S_IFMT in
  let 'Counts r d l s f h b := c in
  if t =? S_IFREG then n ← up r; mret (Counts n d l s f h b)
  else if t =? S_IFDIR then n ← up d; mret (Counts r n l s f h b)
  else if t =? S_IFCHR then n ← up h; mret (Counts r d l s f n b)
  else if t =? S_IFBLK then n ← up b; mret (Counts r d l s f h n)
  else if t =? S_IFLNK then n ← up l; mret (Counts r d n s f h b)
  else if t =? S_IFIFO then n ← up f; mret (Counts r d l s n h b)
  else if t =? S_IFSOCK then n ← up s; mret (Counts r d l n f h b)
  else mret c.

Fixpoint count_all (c : counts) (vs : list visit) : M (proc K) counts :=
  match vs with [] => mret c | v :: vs' => c ← countFile c v; count_all c vs' end.

(** [percent n m] is [n * 100.0 / m] with one digit after the point, in at least six characters. *)
Definition printStats (percent : Z -> Z -> bytes) (msg : bytes) (num numFiles : Z) : M (proc K) unit :=
  printf (left_aligned 15 msg ++ str "   " ++ right_aligned 6 (dec num) ++ str " " ++ percent num numFiles ++ str "%" ++ [NL]).

Definition file_type_stats_main (percent : Z -> Z -> bytes) (prog : bytes) (args : list bytes) : M (proc K) unit :=
  match args with
  | [path] =>
      if strcmp path (str "--help") =? 0 then usageErr (prog ++ str " dir-path" ++ [NL])
      else
        let '(vs, good) := nftw path FTW_PHYS in
        c ← count_all zero vs;
        (if negb good then eprintf (str "nftw: " ++ nftw_error ++ [NL]) ;; exit_ EXIT_FAILURE else mret tt) ;;
        let 'Counts numReg numDir numSymLk numSocket numFifo numChar numBlock := c in
        numFiles ← an_int (numReg + numDir + numSymLk + numSocket + numFifo + numChar + numBlock);
        (if numFiles =? 0 then printf (str "No files found" ++ [NL])
         else
           printf (str "Total files:      " ++ right_aligned 6 (dec numFiles) ++ [NL]) ;;
           printStats percent (str "Regular:") numReg numFiles ;;
           printStats percent (str "Directory:") numDir numFiles ;;
           printStats percent (str "Char device:") numChar numFiles ;;
           printStats percent (str "Block device:") numBlock numFiles ;;
           printStats percent (str "Symbolic link:") numSymLk numFiles ;;
           printStats percent (str "FIFO:") numFifo numFiles ;;
           printStats percent (str "Socket:") numSocket numFiles) ;;
        exit_ EXIT_SUCCESS
  | _ => usageErr (prog ++ str " dir-path" ++ [NL])
  end.

(** *** nftw_dir_tree.c *)

Definition tree_usageError {A} (progName : bytes) (msg : option bytes) : M (proc K) A :=
  match msg with Some m => eprintf (m ++ [NL]) | None => mret tt end ;;
  eprintf (str "Usage: " ++ progName ++ str " [-d] [-m] [-p] [directory-path]" ++ [NL]) ;;
  eprintf (chr 9 :: str "-d Use FTW_DEPTH flag" ++ [NL]) ;;
  eprintf (chr 9 :: str "-m Use FTW_MOUNT flag" ++ [NL]) ;;
  eprintf (chr 9 :: str "-p Use FTW_PHYS flag" ++ [NL]) ;;
  exit_ EXIT_FAILURE.

Definition type_letter (mode : Z) : ascii :=
  let t := Z.land mode S_IFMT in
  if t =? S_IFREG then "-" else if t =? S_IFDIR then "d" else if t =? S_IFCHR then "c" else if t =? S_IFBLK then "b"
  else if t =? S_IFLNK then "l" else if t =? S_IFIFO then "p" else if t =? S_IFSOCK then "s" else "?".

Definition type_name (t : ftw_type) : bytes :=
  str match t with
      | FTW_D => "D  " | FTW_DNR => "DNR" | FTW_DP => "DP " | FTW_F => "F  " | FTW_SL => "SL " | FTW_SLN => "SLN" | FTW_NS => "NS "
      | FTW_other => "  "
      end.

Definition dirTree (v : visit) : M (proc K) unit :=
  printf [type_letter (st_mode v)] ;;
  printf (str " " ++ type_name (type v) ++ str "  ") ;;
  (match type v with FTW_NS => printf (str "        ") | _ => printf (right_aligned 7 (dec (st_ino v)) ++ str " ") end) ;;
  printf (str " " ++ right_aligned (Z.to_nat (4 * level v)) []) ;;
  name ← (if (0 <=? base v) && (base v <=? strlen (pathname v)) then mret (drop (Z.to_nat (base v)) (pathname v)) else undef_);
  printf (name ++ [NL]).

Fixpoint tree_all (vs : list visit) : M (proc K) unit :=
  match vs with [] => mret tt | v :: vs' => dirTree v ;; tree_all vs' end.

Fixpoint tree_options (progName : bytes) (opts : list opt) (flags : Z) : M (proc K) Z :=
  match opts with
  | [] => mret flags
  | Opt c _ :: opts' =>
      if Ascii.eqb c "d" then tree_options progName opts' (Z.lor flags FTW_DEPTH)
      else if Ascii.eqb c "m" then tree_options progName opts' (Z.lor flags FTW_MOUNT)
      else if Ascii.eqb c "p" then tree_options progName opts' (Z.lor flags FTW_PHYS)
      else tree_usageError progName None
  | BadOpt _ :: _ => tree_usageError progName None
  end.

Definition nftw_dir_tree_main (progName : bytes) (opts : list opt) (operands : list bytes) : M (proc K) unit :=
  flags ← tree_options progName opts 0;
  (if (1 <? length operands)%nat then tree_usageError progName None else mret tt) ;;
  let '(vs, good) := nftw (match operands with a :: _ => a | [] => str "." end) flags in
  tree_all vs ;;
  (if negb good then eprintf (str "nftw: " ++ nftw_error ++ [NL]) ;; exit_ EXIT_FAILURE else mret tt) ;;
  exit_ EXIT_SUCCESS.

(** *** The numbers add up *)

(** How many of the files have a type. *)
Definition of_type (t : Z) (vs : list visit) : Z := Z.of_nat (length (filter (fun v => Z.land (st_mode v) S_IFMT = t) vs)).
Definition known_types : list Z := [S_IFREG; S_IFDIR; S_IFCHR; S_IFBLK; S_IFLNK; S_IFIFO; S_IFSOCK].

Lemma of_type_cons t v vs : of_type t (v :: vs) = (if Z.land (st_mode v) S_IFMT =? t then 1 else 0) + of_type t vs.
Proof. unfold of_type. rewrite filter_cons. destruct (Z.eqb_spec (Z.land (st_mode v) S_IFMT) t); [rewrite decide_True by done|rewrite decide_False by done]; cbn [length]; lia. Qed.

Definition counts_of (c : counts) (vs : list visit) : counts :=
  Counts (numReg c + of_type S_IFREG vs) (numDir c + of_type S_IFDIR vs) (numSymLk c + of_type S_IFLNK vs) (numSocket c + of_type S_IFSOCK vs)
    (numFifo c + of_type S_IFIFO vs) (numChar c + of_type S_IFCHR vs) (numBlock c + of_type S_IFBLK vs).

Definition small_counts (c : counts) (n : Z) : Prop :=
  Forall (fun x => 0 <= x <= INT_MAX - n) [numReg c; numDir c; numSymLk c; numSocket c; numFifo c; numChar c; numBlock c].

Lemma counts_of_cons c v vs (p : proc K) : small_counts c (1 + Z.of_nat (length vs)) ->
  exists c', countFile c v p = (Ret c', p) /\ small_counts c' (Z.of_nat (length vs)) /\ counts_of c' vs = counts_of c (v :: vs).
Proof.
  destruct c as [r d l s f h b]. unfold small_counts. rewrite !Forall_cons. cbn [numReg numDir numSymLk numSocket numFifo numChar numBlock].
  intros (Hr & Hd & Hl & Hs & Hf & Hh & Hb & _). unfold countFile, counts_of. rewrite !of_type_cons. cbv zeta.
  assert (forall n, 0 <= n <= INT_MAX - (1 + Z.of_nat (length vs)) -> an_int (n + 1) p = (Ret (n + 1), p)) as Hint.
  { intros n Hn. unfold an_int. rewrite (proj2 (andb_true_iff _ _)); [done|]. split; apply Z.leb_le; unfold INT_MIN, INT_MAX in *; lia. }
  generalize (Z.land (st_mode v) S_IFMT). intros t.
  repeat match goal with |- context [if t =? ?x then (an_int _ ≫= _) else _] => destruct (Z.eqb_spec t x) as [->|?]; cbv iota; [erewrite bind_Ret by (apply Hint; eassumption)|] end;
    (eexists; split; [reflexivity|]; rewrite !Forall_cons; cbn [numReg numDir numSymLk numSocket numFifo numChar numBlock]).
  all: split; [split_and!; (lia || by constructor)|].
  all: cbn -[of_type]; f_equal; try lia.
  all: repeat match goal with |- context [?y =? ?x] => rewrite (proj2 (Z.eqb_neq y x)) by done end; lia.
Qed.

Lemma count_all_spec vs : forall c (p : proc K), small_counts c (Z.of_nat (length vs)) -> count_all c vs p = (Ret (counts_of c vs), p).
Proof.
  induction vs as [|v vs IH]; intros c p Hc.
  { destruct c. unfold counts_of, of_type. cbn. by rewrite !Z.add_0_r. }
  destruct (counts_of_cons c v vs p) as (c' & Hrun & Hc' & Heq); [cbn [length] in Hc; by replace (1 + Z.of_nat (length vs)) with (Z.of_nat (S (length vs))) by lia|].
  cbn [count_all]. rewrite (bind_Ret _ _ _ _ _ Hrun), IH by done. by rewrite Heq.
Qed.

(** The files whose type is one of the seven. *)
Definition of_known_type (vs : list visit) : Z := Z.of_nat (length (filter (fun v => Z.land (st_mode v) S_IFMT ∈ known_types) vs)).

Lemma types_add_up vs : foldr (fun t n => of_type t vs + n) 0 known_types = of_known_type vs.
Proof.
  induction vs as [|v vs IH]; [done|]. cbn [foldr known_types] in *. rewrite !of_type_cons. unfold of_known_type in *. rewrite filter_cons.
  generalize dependent (Z.land (st_mode v) S_IFMT). intros t. destruct (decide (t ∈ known_types)) as [Hk|Hk].
  - unfold known_types in Hk. rewrite !elem_of_cons in Hk. cbn [length].
    destruct Hk as [->|[->|[->|[->|[->|[->|[->|[]%elem_of_nil]]]]]]]; cbn -[of_type length Z.of_nat filter]; lia.
  - unfold known_types in Hk. rewrite !not_elem_of_cons in Hk. destruct Hk as (? & ? & ? & ? & ? & ? & ? & _).
    repeat match goal with |- context [t =? ?x] => rewrite (proj2 (Z.eqb_neq t x)) by done end. lia.
Qed.

Lemma of_type_bound t vs : 0 <= of_type t vs <= Z.of_nat (length vs).
Proof. unfold of_type. pose proof (length_filter (fun v => Z.land (st_mode v) S_IFMT = t) vs). lia. Qed.

(** The line of one type. *)
Definition stat_line (percent : Z -> Z -> bytes) (msg : string) (t : Z) (vs : list visit) : event :=
  Out (left_aligned 15 (str msg) ++ str "   " ++ right_aligned 6 (dec (of_type t vs)) ++ str " " ++ percent (of_type t vs) (of_known_type vs) ++ str "%" ++ [NL]).

(** file_type_stats, when nftw succeeds and reports fewer than 2 to the 31 files, prints for each of the seven types how many of
    the reported files have it, and as the total the number of files that have one of them, which is the sum of the seven; or that
    there are no files. *)
Theorem file_type_stats_adds_up percent prog path vs (p : proc K) : c_string path -> path <> str "--help" ->
  nftw path FTW_PHYS = (vs, true) -> Z.of_nat (length vs) <= INT_MAX ->
  foldr (fun t n => of_type t vs + n) 0 known_types = of_known_type vs /\
  exists q, file_type_stats_main percent prog [path] p = (Exit EXIT_SUCCESS, q) /\
    trace q = trace p ++
      if of_known_type vs =? 0 then [Out (str "No files found" ++ [NL])]
      else [Out (str "Total files:      " ++ right_aligned 6 (dec (of_known_type vs)) ++ [NL]);
            stat_line percent "Regular:" S_IFREG vs; stat_line percent "Directory:" S_IFDIR vs; stat_line percent "Char device:" S_IFCHR vs;
            stat_line percent "Block device:" S_IFBLK vs; stat_line percent "Symbolic link:" S_IFLNK vs; stat_line percent "FIFO:" S_IFIFO vs;
            stat_line percent "Socket:" S_IFSOCK vs].
Proof.
  intros Hc Hhelp Hnftw Hlen. pose proof (types_add_up vs) as Hsum. split; [done|].
  unfold file_type_stats_main. rewrite (proj2 (Z.eqb_neq _ _)) by (by rewrite strcmp_eq by (done || by_decide)).
  rewrite Hnftw. rewrite (bind_Ret _ _ _ (counts_of zero vs) p) by (apply count_all_spec; unfold small_counts; repeat constructor; cbn; unfold INT_MAX in *; lia).
  cbn [negb]. erewrite bind_Ret by reflexivity. unfold counts_of, zero. cbn [numReg numDir numSymLk numSocket numFifo numChar numBlock].
  rewrite !Z.add_0_l. cbn [foldr known_types] in Hsum.
  assert (of_type S_IFREG vs + of_type S_IFDIR vs + of_type S_IFLNK vs + of_type S_IFSOCK vs + of_type S_IFIFO vs + of_type S_IFCHR vs + of_type S_IFBLK vs
    = of_known_type vs) as -> by lia.
  assert (0 <= of_known_type vs <= INT_MAX) as Hr.
  { split; [unfold of_known_type; lia|]. etrans; [|exact Hlen]. unfold of_known_type. pose proof (length_filter (fun v => Z.land (st_mode v) S_IFMT ∈ known_types) vs). lia. }
  rewrite (bind_Ret _ _ _ (of_known_type vs) p).
  2: { unfold an_int. rewrite (proj2 (andb_true_iff _ _)); [done|]. split; apply Z.leb_le; unfold INT_MIN in *; lia. }
  destruct (of_known_type vs =? 0).
  - eexists. split; [by erewrite bind_Ret by reflexivity|]. done.
  - eexists. split.
    + erewrite bind_Ret; [reflexivity|]. do 7 (erewrite bind_Ret by reflexivity). reflexivity.
    + cbn [trace]. by rewrite <- !app_assoc.
Qed.
End Walks.

(** ** Two runs *)

Record sim := Sim { s_dirs : gmap bytes (list bytes); s_streams : list (list bytes) }.

Definition sim_opendir (path : bytes) (k : sim) : (Z + Z) * sim :=
  match s_dirs k !! path with
  | Some es => (inl (Z.of_nat (length (s_streams k))), Sim (s_dirs k) (s_streams k ++ [es]))
  | None => (inr ENOENT, k)
  end.
Definition sim_entries (k : sim) (d : Z) : list bytes := if d <? 0 then [] else default [] (s_streams k !! Z.to_nat d).
Definition sim_readdir (d : Z) (k : sim) : (option bytes + Z) * sim :=
  (inl (head (sim_entries k d)), if d <? 0 then k else Sim (s_dirs k) (<[Z.to_nat d := tail (sim_entries k d)]> (s_streams k))).

#[export] Instance sim_list : ListCalls sim := {|
  k_opendir := sim_opendir; k_readdir := sim_readdir; k_readdir_r := sim_readdir;
  k_closedir _ k := (inl 0, k); k_pathconf_name_max _ k := (inl 255, k)
|}.

Lemma sim_readdir_law d k : exists k', sim_readdir d k = (inl (head (sim_entries k d)), k') /\ sim_entries k' d = tail (sim_entries k d) /\ s_dirs k' = s_dirs k.
Proof.
  unfold sim_readdir. eexists. split_and!; [reflexivity| |by destruct (d <? 0)]. destruct (d <? 0) eqn:E; unfold sim_entries; cbn [s_streams]; rewrite E; [done|].
  destruct (decide (Z.to_nat d < length (s_streams k))%nat) as [Hlt|Hge]; [by rewrite list_lookup_insert_eq|].
  rewrite list_insert_ge by lia. by rewrite lookup_ge_None_2 by lia.
Qed.

#[export] Program Instance sim_dir_laws : DirLaws sim := {|
  dirs k path := match s_dirs k !! path with Some es => inl es | None => inr ENOENT end; entries := sim_entries
|}.
Next Obligation.
  intros path k. cbn. unfold sim_opendir. destruct (s_dirs k !! path) as [es|] eqn:E; [|done]. split; [|done].
  unfold sim_entries. cbn [s_streams]. rewrite (proj2 (Z.ltb_ge _ _)) by lia. by rewrite Nat2Z.id, list_lookup_middle.
Qed.
Next Obligation. intros d k. destruct (sim_readdir_law d k) as (k' & H1 & H2 & H3). exists k'. cbn. by rewrite H3. Qed.
Next Obligation. intros d k. destruct (sim_readdir_law d k) as (k' & H1 & H2 & H3). exists k'. cbn. by rewrite H3. Qed.
Next Obligation. intros d k. by exists 0, k. Qed.
Next Obligation. done. Qed.

Section Runs.
Local Instance no_messages : Messages := {| ename _ := []; MAX_ENAME := 133; strerror _ := []; EF_DUMPCORE := None |}.
Definition home : proc sim := Proc (Sim (<[str "src" := [str "."; str ".."; str "a.c"; str "b.c"]]> ∅) []) 0 [].

Lemma list_files_agree_witness : exists q1 q2, list_files_main 9 (str "list_files") [str "src"; str "none"] home = (Exit 0, q1) /\
  list_files_readdir_r_main (fun _ => true) 9 [str "src"; str "none"] home = (Exit 0, q2) /\ trace q2 = trace q1 /\
  take 4 (trace q1) = [Out (str "src/"); Out (str "a.c" ++ [NL]); Out (str "src/"); Out (str "b.c" ++ [NL])].
Proof.
  destruct (list_files_agree (fun _ => true) 9 (str "list_files") [str "src"; str "none"] home) as (q1 & q2 & H1 & H2 & H3 & H4); [done|done|repeat constructor; by_decide|repeat constructor; by_decide|].
  exists q1, q2. split_and!; try done. rewrite H3. vm_compute. reflexivity.
Defined.

Definition some_files : list visit :=
  [Visit (str "d") 16877 1 FTW_D 0 0; Visit (str "d/f") 33188 2 FTW_F 2 1; Visit (str "d/g") 33188 3 FTW_F 2 1; Visit (str "d/l") 41471 4 FTW_SL 2 1].

Lemma file_type_stats_adds_up_witness : exists q,
  file_type_stats_main (K := unit) (fun _ _ => (some_files, true)) [] (fun _ _ => str "  50.0") (str "file_type_stats") [str "d"] (Proc tt 0 []) = (Exit 0, q) /\
  take 2 (trace q) = [Out (str "Total files:           4" ++ [NL]); Out (str "Regular:               2   50.0%" ++ [NL])].
Proof.
  destruct (file_type_stats_adds_up (K := unit) (fun _ _ => (some_files, true)) [] (fun _ _ => str "  50.0") (str "file_type_stats") (str "d") some_files (Proc tt 0 []))
    as (_ & q & H1 & H2); [by_decide|done|done|by_decide|].
  exists q. split; [done|]. rewrite H2. vm_compute. reflexivity.
Defined.

Example dir_tree_run : trace (nftw_dir_tree_main (K := unit) (fun _ _ => (drop 3 some_files, true)) [] (str "nftw_dir_tree") [] [] (Proc tt 0 [])).2 =
  [Out (str "l"); Out (str " SL   "); Out (str "      4 "); Out (str "     "); Out (str "l" ++ [NL])].
Proof. vm_compute. reflexivity. Qed.
End Runs.
