(* ===== verification/Stat.v ===== *)
(** * What stat tells of a file

    t_stat.c (tlpi-dist/files) and the exercise made from it, exercise3_tstat.c (15-file-attributes), which
    prints the times with nanoseconds.  The fields are those of [struct stat]; the numbers of a device, and
    the calendar, are parameters. *)

From Stdlib Require Import ZArith Lia String Ascii.
From S2P Require Import Prelude CString Kernel ErrorFns.
From S2P Require Attr.

Record timespec := Time { tv_sec : Z; tv_nsec : Z }.

Record stat := Stat {
  st_dev : Z; st_ino : Z; st_mode : Z; st_nlink : Z; st_uid : Z; st_gid : Z; st_rdev : Z; st_size : Z; st_blksize : Z; st_blocks : Z;
  st_atim : timespec; st_mtim : timespec; st_ctim : timespec
}.

Class StatCalls (K : Type) := {
  k_stat : bytes -> K -> (stat + Z) * K;
  k_lstat : bytes -> K -> (stat + Z) * K
}.

Definition S_IFMT : Z := 61440.
Definition S_IFSOCK : Z := 49152.
Definition S_IFLNK : Z := 40960.
Definition S_IFREG : Z := 32768.
Definition S_IFBLK : Z := 24576.
Definition S_IFDIR : Z := 16384.
Definition S_IFCHR : Z := 8192.
Definition S_IFIFO : Z := 4096.
Definition S_ISUID : Z := 2048.
Definition S_ISGID : Z := 1024.
Definition S_ISVTX : Z := 512.

Definition type_is (mode t : Z) : bool := Z.land mode S_IFMT =? t.
Definition any_bit (mode bits : Z) : bool := negb (Z.land mode bits =? 0).

Definition year_format : string := String.append " %Y" (String NL EmptyString).

(** [%lo]. *)
Fixpoint octal_digits (fuel : nat) (n : Z) : bytes :=
  match fuel with
  | O => []
  | S fuel' => if n <? 8 then [chr (48 + n)] else octal_digits fuel' (n / 8) ++ [chr (48 + n mod 8)]
  end.
Definition octal (n : Z) : bytes := octal_digits (S (Z.to_nat (Z.log2 n))) n.

(** [%09ld] of a number that is not negative. *)
Definition nine_digits (n : Z) : bytes := replicate (9 - length (dec n)) "0"%char ++ dec n.

Section Programs.
Context `{!Messages} {K : Type} `{!StatCalls K} (major minor : Z -> Z).
Context {tm : Type} (localtime : Z -> option tm) (strftime : string -> tm -> bytes) (ctime : Z -> option bytes).

Definition file_type (mode : Z) : string :=
  if type_is mode S_IFREG then "regular file" else if type_is mode S_IFDIR then "directory"
  else if type_is mode S_IFCHR then "character device" else if type_is mode S_IFBLK then "block device"
  else if type_is mode S_IFLNK then "symbolic (soft) link" else if type_is mode S_IFIFO then "FIFO or pipe"
  else if type_is mode S_IFSOCK then "socket" else "unknown file type?".

(** The lines before and after the line of the mode, without the times, which both programs have. *)
Definition first_lines (sb : stat) : M (proc K) unit :=
  printf (str "File type:                ") ;;
  printf (str (file_type (st_mode sb)) ++ [NL]) ;;
  printf (str "Device containing i-node: major=" ++ dec (major (st_dev sb)) ++ str "   minor=" ++ dec (minor (st_dev sb)) ++ [NL]) ;;
  printf (str "I-node number:            " ++ dec (st_ino sb) ++ [NL]).

Definition later_lines (sb : stat) : M (proc K) unit :=
  let mode := st_mode sb in
  (if any_bit mode (Z.lor S_ISUID (Z.lor S_ISGID S_ISVTX)) then
     printf (str "    special bits set:     " ++ (if any_bit mode S_ISUID then str "set-UID " else []) ++
             (if any_bit mode S_ISGID then str "set-GID " else []) ++ (if any_bit mode S_ISVTX then str "sticky " else []) ++ [NL])
   else mret tt) ;;
  printf (str "Number of (hard) links:   " ++ dec (st_nlink sb) ++ [NL]) ;;
  printf (str "Ownership:                UID=" ++ dec (st_uid sb) ++ str "   GID=" ++ dec (st_gid sb) ++ [NL]) ;;
  (if type_is mode S_IFCHR || type_is mode S_IFBLK then
     printf (str "Device number (st_rdev):  major=" ++ dec (major (st_rdev sb)) ++ str "; minor=" ++ dec (minor (st_rdev sb)) ++ [NL])
   else mret tt) ;;
  printf (str "File size:                " ++ dec (st_size sb) ++ str " bytes" ++ [NL]) ;;
  printf (str "Optimal I/O block size:   " ++ dec (st_blksize sb) ++ str " bytes" ++ [NL]) ;;
  printf (str "512B blocks allocated:    " ++ dec (st_blocks sb) ++ [NL]).

(** *** t_stat.c *)

(** A time that the calendar cannot show is a null pointer for [%s]. *)
Definition time_line (title : string) (t : timespec) : M (proc K) unit :=
  s ← the (ctime (tv_sec t)); printf (str title ++ s).

Definition displayStatInfo (sb : stat) : M (proc K) unit :=
  first_lines sb ;;
  printf (str "Mode:                     " ++ octal (st_mode sb) ++ str " (" ++ Attr.filePermStr (st_mode sb) 0 ++ str ")" ++ [NL]) ;;
  later_lines sb ;;
  time_line "Last file access:         " (st_atim sb) ;;
  time_line "Last file modification:   " (st_mtim sb) ;;
  time_line "Last status change:       " (st_ctim sb).

(** A call that delivers a [struct stat] or nothing. *)
Definition attempt (f : K -> (stat + Z) * K) : M (proc K) (option stat) :=
  syscall None (fun k => let '(r, k') := f k in (match r with inl a => inl (Some a) | inr e => inr e end, k')).

(** [statLink] and the name of the file, from the arguments after the program's name; nothing for the usage line. *)
Definition parse_args (args : list bytes) : option (bool * bytes) :=
  let first := fun (s : string) => match args with a :: _ => strcmp a (str s) =? 0 | [] => false end in
  let statLink := first "-l"%string in
  match args !! (if statLink then 1%nat else 0%nat) with
  | Some file => if first "--help"%string then None else Some (statLink, file)
  | None => None
  end.

Definition t_stat_main (prog : bytes) (args : list bytes) : M (proc K) unit :=
  match parse_args args with
  | None => usageErr (prog ++ str " [-l] file" ++ [NL] ++ str "        -l = use lstat() instead of stat()" ++ [NL])
  | Some (statLink, file) =>
      sb ← (if statLink then attempt (k_lstat file) else attempt (k_stat file));
      match sb with
      | None => errExit (if statLink then str "lstat" else str "stat")
      | Some sb => displayStatInfo sb ;; exit_ EXIT_SUCCESS
      end
  end.

(** *** exercise3_tstat.c *)

(** The result is what [buf] holds.  [strftime] may fill 80 bytes and delivers nothing usable when these are too few; [tmp] has
    only 20. *)
Definition fmttime (timeinfo : tm) (nsec : Z) : M (proc K) bytes :=
  let day := strftime "%a %b %d %H:%M:%S" timeinfo in
  let year := strftime year_format timeinfo in
  (if 80 <=? strlen day then undef_ else mret tt) ;;
  (if 20 <=? strlen (str "." ++ nine_digits nsec) then undef_ else mret tt) ;;
  (if 20 <=? strlen year then undef_ else mret tt) ;;
  mret (day ++ str "." ++ nine_digits nsec ++ year).

(** A null pointer from [localtime] is not checked for. *)
Definition time_line3 (title : string) (t : timespec) : M (proc K) unit :=
  timeinfo ← the (localtime (tv_sec t));
  buf ← fmttime timeinfo (tv_nsec t);
  printf (str title ++ buf).

Definition displayStatInfo3 (sb : stat) : M (proc K) unit :=
  first_lines sb ;;
  printf (str "Mode:                     " ++ octal (st_mode sb) ++ [NL]) ;;
  later_lines sb ;;
  time_line3 "Last file access:         " (st_atim sb) ;;
  time_line3 "Last file modification:   " (st_mtim sb) ;;
  time_line3 "Last status change:       " (st_ctim sb).

Definition exercise3_main (prog : bytes) (args : list bytes) : M (proc K) Z :=
  match parse_args args with
  | None => printf (prog ++ str " [-l] file" ++ [NL] ++ str "        -l = use lstat() instead of stat()" ++ [NL]) ;; mret 1
  | Some (statLink, file) =>
      sb ← (if statLink then attempt (k_lstat file) else attempt (k_stat file));
      match sb with
      | None => printf (if statLink then str "error: lstat" ++ [NL] else str "error: stat" ++ [NL]) ;; mret 1
      | Some sb => displayStatInfo3 sb ;; mret 0
      end
  end.

(** ** The two programs compared *)

(** Lines of output, the same whatever the state. *)
Definition says (m : M (proc K) unit) (l : list event) : Prop :=
  forall p, exists q, m p = (Ret tt, q) /\ kern q = kern p /\ errno q = errno p /\ trace q = trace p ++ l.

Lemma stat_says_printf s : says (printf s) [Out s].
Proof. intros p. by eexists. Qed.
Lemma says_nothing : says (mret tt) [].
Proof. intros p. exists p. by rewrite app_nil_r. Qed.
Lemma says_seq m m' l l' : says m l -> says m' l' -> says (m ;; m') (l ++ l').
Proof.
  intros Hm Hm' p. destruct (Hm p) as (q & H1 & Hk & He & Ht). destruct (Hm' q) as (q' & H2 & Hk' & He' & Ht'). exists q'.
  rewrite (bind_Ret _ _ _ _ _ H1). split_and!; try congruence. by rewrite Ht', Ht, <- app_assoc.
Qed.
Lemma says_if (b : bool) m m' l l' : says m l -> says m' l' -> says (if b then m else m') (if b then l else l').
Proof. by destruct b. Qed.

Lemma lines_same sb : exists l1 l2, says (first_lines sb) l1 /\ says (later_lines sb) l2.
Proof.
  eexists _, _. split.
  - unfold first_lines. repeat (apply says_seq; [apply stat_says_printf|]). apply stat_says_printf.
  - unfold later_lines. cbv zeta. apply says_seq; [apply says_if; [apply stat_says_printf|apply says_nothing]|].
    do 2 (apply says_seq; [apply stat_says_printf|]). apply says_seq; [apply says_if; [apply stat_says_printf|apply says_nothing]|].
    do 2 (apply says_seq; [apply stat_says_printf|]). apply stat_says_printf.
Qed.

(** A time both programs can show: the parts [day], with the time of day, and [year]. *)
Definition shows (t : timespec) (day year : bytes) : Prop :=
  ctime (tv_sec t) = Some (day ++ year) /\ (exists x, localtime (tv_sec t) = Some x /\ strftime "%a %b %d %H:%M:%S" x = day /\
    strftime year_format x = year) /\ strlen day < 80 /\ strlen year < 20 /\ 0 <= tv_nsec t < 1000000000.

Lemma nine_digits_length n : 0 <= n < 1000000000 -> strlen (nine_digits n) = 9.
Proof.
  intros Hn. unfold nine_digits. rewrite strlen_app. unfold strlen. rewrite length_replicate. cut (length (dec n) <= 9)%nat; [lia|].
  unfold dec. rewrite (proj2 (Z.ltb_ge _ _)) by lia. unfold dec_nat.
  assert (forall f m d, 0 <= m < 10 ^ Z.of_nat d -> (length (dec_digits f m) <= Nat.max 1 d)%nat) as Hd.
  { induction f as [|f IH]; intros m d Hm; cbn [dec_digits]; [cbn; lia|]. destruct (m <? 10) eqn:E; [cbn; lia|]. z_bool.
    rewrite length_app. cbn [length]. destruct d as [|d]; [cbn in Hm; lia|].
    rewrite Nat2Z.inj_succ, Z.pow_succ_r in Hm by lia. destruct d as [|d]; [cbn in Hm; lia|].
    assert (0 <= m / 10 < 10 ^ Z.of_nat (S d)) as Hm' by (split; [apply Z.div_pos; lia|apply Z.div_lt_upper_bound; lia]).
    specialize (IH _ _ Hm'). lia. }
  apply (Hd _ n 9%nat). split; [lia|]. change (10 ^ Z.of_nat 9) with 1000000000. lia.
Qed.

Lemma time_lines title t day year : shows t day year ->
  says (time_line title t) [Out (str title ++ day ++ year)] /\ says (time_line3 title t) [Out (str title ++ day ++ str "." ++ nine_digits (tv_nsec t) ++ year)].
Proof.
  intros (Hc & (x & Hl & Hd & Hy) & Hd80 & Hy20 & Hn). unfold time_line, time_line3, fmttime. rewrite Hc, Hl. split; [by apply stat_says_printf|].
  intros p. cbn [the]. erewrite bind_Ret by reflexivity. cbv zeta. rewrite Hd, Hy. pose proof (nine_digits_length _ Hn) as Hn9.
  rewrite (proj2 (Z.leb_gt 80 (strlen day))) by done. rewrite (proj2 (Z.leb_gt 20 (strlen year))) by done.
  rewrite (proj2 (Z.leb_gt 20 (strlen (str "." ++ nine_digits (tv_nsec t))))) by (rewrite strlen_app, Hn9; by vm_compute).
  erewrite bind_Ret; [apply stat_says_printf|]. do 3 (erewrite bind_Ret by reflexivity). reflexivity.
Qed.

(** What the programs ask for. *)
Definition asked (statLink : bool) (file : bytes) (k : K) : (stat + Z) * K := if statLink then k_lstat file k else k_stat file k.

Lemma attempt_asked (statLink : bool) file (p : proc K) :
  (if statLink then attempt (k_lstat file) else attempt (k_stat file)) p =
  match asked statLink file (kern p) with
  | (inl sb, k') => (Ret (Some sb), Proc k' (errno p) (trace p))
  | (inr e, k') => (Ret None, Proc k' e (trace p))
  end.
Proof. unfold attempt, syscall, asked. destruct statLink; [destruct (k_lstat file (kern p)) as [[sb|e] k']|destruct (k_stat file (kern p)) as [[sb|e] k']]; done. Qed.

(** t_stat and the exercise made from it take the same arguments, ask for the same file and fail together; of a file whose times
    the calendar can show they print the same lines, but that the exercise leaves out the permission string behind the mode and puts
    the nanoseconds, a point and nine digits, between the seconds and the year of each of the three times. *)
Theorem stat_programs_agree prog args (p : proc K) :
  match parse_args args with
  | None => exists q1 q2, t_stat_main prog args p = (Exit EXIT_FAILURE, q1) /\ exercise3_main prog args p = (Ret 1, q2) /\ kern q1 = kern p /\ kern q2 = kern p
  | Some (statLink, file) =>
      match asked statLink file (kern p) with
      | (inr e, k') => exists o q1 q2, t_stat_main prog args p = (o, q1) /\ stopped o /\ exercise3_main prog args p = (Ret 1, q2) /\ kern q1 = k' /\ kern q2 = k'
      | (inl sb, k') => forall day1 year1 day2 year2 day3 year3,
          shows (st_atim sb) day1 year1 -> shows (st_mtim sb) day2 year2 -> shows (st_ctim sb) day3 year3 ->
          exists first later q1 q2, t_stat_main prog args p = (Exit EXIT_SUCCESS, q1) /\ exercise3_main prog args p = (Ret 0, q2) /\ kern q1 = k' /\ kern q2 = k' /\
            trace q1 = trace p ++ first ++ [Out (str "Mode:                     " ++ octal (st_mode sb) ++ str " (" ++ Attr.filePermStr (st_mode sb) 0 ++ str ")" ++ [NL])] ++ later ++
              [Out (str "Last file access:         " ++ day1 ++ year1); Out (str "Last file modification:   " ++ day2 ++ year2); Out (str "Last status change:       " ++ day3 ++ year3)] /\
            trace q2 = trace p ++ first ++ [Out (str "Mode:                     " ++ octal (st_mode sb) ++ [NL])] ++ later ++
              [Out (str "Last file access:         " ++ day1 ++ str "." ++ nine_digits (tv_nsec (st_atim sb)) ++ year1);
               Out (str "Last file modification:   " ++ day2 ++ str "." ++ nine_digits (tv_nsec (st_mtim sb)) ++ year2);
               Out (str "Last status change:       " ++ day3 ++ str "." ++ nine_digits (tv_nsec (st_ctim sb)) ++ year3)]
      end
  end.
Proof.
  unfold t_stat_main, exercise3_main. destruct (parse_args args) as [[statLink file]|]; [|by do 2 eexists].
  pose proof (attempt_asked statLink file p) as Hask. destruct (asked statLink file (kern p)) as [[sb|e] k'].
  - intros day1 year1 day2 year2 day3 year3 [H1 H1']%(time_lines "Last file access:         ") [H2 H2']%(time_lines "Last file modification:   ") [H3 H3']%(time_lines "Last status change:       ").
    destruct (lines_same sb) as (first & later & Hf & Hl). exists first, later.
    assert (forall mode m1 m2 m3 l1 l2 l3, says m1 [l1] -> says m2 [l2] -> says m3 [l3] ->
      says (first_lines sb ;; printf mode ;; later_lines sb ;; m1 ;; m2 ;; m3) (first ++ [Out mode] ++ later ++ [l1; l2; l3])) as Hall.
    { intros mode m1 m2 m3 l1 l2 l3 Hm1 Hm2 Hm3. apply says_seq; [done|]. apply says_seq; [apply stat_says_printf|]. apply says_seq; [done|].
      apply (says_seq _ _ [l1] [l2; l3]); [done|]. by apply (says_seq _ _ [l2] [l3]). }
    destruct (Hall (str "Mode:                     " ++ octal (st_mode sb) ++ str " (" ++ Attr.filePermStr (st_mode sb) 0 ++ str ")" ++ [NL]) _ _ _ _ _ _ H1 H2 H3 (Proc k' (errno p) (trace p))) as (q1 & Hq1 & Hk1 & _ & Ht1).
    destruct (Hall (str "Mode:                     " ++ octal (st_mode sb) ++ [NL]) _ _ _ _ _ _ H1' H2' H3' (Proc k' (errno p) (trace p))) as (q2 & Hq2 & Hk2 & _ & Ht2).
    exists q1, q2. split_and!; [| |done|done|exact Ht1|exact Ht2].
    + rewrite (bind_Ret _ _ _ _ _ Hask). cbv iota. unfold displayStatInfo. by rewrite (bind_Ret _ _ _ _ _ Hq1).
    + rewrite (bind_Ret _ _ _ _ _ Hask). cbv iota. unfold displayStatInfo3. by rewrite (bind_Ret _ _ _ _ _ Hq2).
  - destruct (wp_elim _ _ _ (wp_errExit (A := unit) (if statLink then str "lstat" else str "stat") (Proc k' e (trace p))
      (fun o q => stopped o /\ kern q = k') ltac:(by intros))) as (o & q1 & Hq1 & Ho & Hk1).
    exists o, q1. eexists. rewrite !(bind_Ret _ _ _ _ _ Hask). cbv iota. split_and!; [done|done|by erewrite bind_Ret by reflexivity|done|done].
Qed.
End Programs.

#[export] Instance gmap_stat : StatCalls (gmap bytes stat) := {|
  k_stat file k := (match k !! file with Some sb => inl sb | None => inr ENOENT end, k);
  k_lstat file k := (match k !! file with Some sb => inl sb | None => inr ENOENT end, k)
|}.

Section Runs.
Local Instance no_messages : Messages := {| ename _ := []; MAX_ENAME := 133; strerror _ := []; EF_DUMPCORE := None |}.

Definition a_stat : stat :=
  let t := Time 1000000000 5 in Stat 2049 77 33188 1 1000 1000 0 12 4096 8 t t t.
Definition sim_strftime (format : string) (_ : Z) : bytes := if String.eqb format year_format then str " 2001" ++ [NL] else str "Sun Sep 09 01:46:40".
Definition sim_ctime (_ : Z) : option bytes := Some (str "Sun Sep 09 01:46:40" ++ str " 2001" ++ [NL]).

Lemma stat_programs_agree_witness :
  let p := Proc (<[str "f" := a_stat]> ∅ : gmap bytes stat) 0 [] in
  exists q1 q2, t_stat_main (fun d => d / 256) (fun d => d mod 256) sim_ctime (str "t_stat") [str "f"] p = (Exit 0, q1) /\
    exercise3_main (fun d => d / 256) (fun d => d mod 256) Some sim_strftime (str "t_stat") [str "f"] p = (Ret 0, q2) /\
    last (trace q1) = Some (Out (str "Last status change:       Sun Sep 09 01:46:40 2001" ++ [NL])) /\
    last (trace q2) = Some (Out (str "Last status change:       Sun Sep 09 01:46:40.000000005 2001" ++ [NL])).
Proof.
  intros p. pose proof (stat_programs_agree (fun d => d / 256) (fun d => d mod 256) Some sim_strftime sim_ctime (str "t_stat") [str "f"] p) as H.
  change (parse_args [str "f"]) with (Some (false, str "f")) in H. cbv iota in H.
  assert (asked false (str "f") (kern p) = (inl a_stat, kern p)) as E by (vm_compute; reflexivity). rewrite E in H.
  assert (shows Some sim_strftime sim_ctime (Time 1000000000 5) (str "Sun Sep 09 01:46:40") (str " 2001" ++ [NL])) as Hs.
  { split_and!; [reflexivity| |by_decide|by_decide|by_decide|by_decide]. exists 1000000000. by split_and!. }
  destruct (H _ _ _ _ _ _ Hs Hs Hs) as (first & later & q1 & q2 & H1 & H2 & _ & _ & H3 & H4). exists q1, q2. split; [exact H1|]. split; [exact H2|].
  rewrite H3, H4. cbn [trace p]. rewrite !app_nil_l. split; (rewrite !last_app; vm_compute; reflexivity).
Defined.
End Runs.
