(* ===== verification/Locks.v ===== *)
(** * File locks

    region_locking.c, create_pid_file.c and i_fcntl_locking.c (tlpi-dist/filelock).  The fcntl
    calls on locks are a class of the kernel; another program may hold a lock, and what it does in
    between is not modelled.  [printf] to a terminal and [fflush] only add to the trace. *)

From Stdlib Require Import ZArith Lia String Ascii.
From S2P Require Import Prelude CString Kernel ErrorFns ProcFs.

Definition F_RDLCK : Z := 0.
Definition F_WRLCK : Z := 1.
Definition F_UNLCK : Z := 2.
Definition F_GETLK : Z := 5.
Definition F_SETLK : Z := 6.
Definition F_SETLKW : Z := 7.
Definition FD_CLOEXEC : Z := 1.
Definition CPF_CLOEXEC : Z := 1.
Definition S_ISGID : Z := 1024.
Definition S_IXGRP : Z := 8.
(** S_IRUSR | S_IWUSR *)
Definition PID_FILE_MODE : Z := 384.

Record flock := Flock { l_type : Z; l_whence : Z; l_start : Z; l_len : Z; l_pid : Z }.

Class LockOps (K : Type) := {
  own_pid : Z;                                            (* getpid() *)
  k_fcntl_lock : Z -> Z -> flock -> K -> (flock + Z) * K; (* descriptor, command; the lock it leaves *)
  k_getfd : Z -> K -> (Z + Z) * K;                        (* F_GETFD *)
  k_setfd : Z -> Z -> K -> (Z + Z) * K;                   (* F_SETFD *)
  k_ftruncate : Z -> Z -> K -> (Z + Z) * K;
  k_fstat_mode : Z -> K -> (Z + Z) * K
}.

Section Locks.
Context {K : Type} `{!Messages, !FileIO K, !LockOps K}.

(** The result, and the lock after the call. *)
Definition fcntl_lock (fd cmd : Z) (fl : flock) : M (proc K) (Z * flock) :=
  syscall (-1, fl) (fun k => let '(r, k') := k_fcntl_lock fd cmd fl k in
                             (match r with inl fl' => inl (0, fl') | inr e => inr e end, k')).

(** ** region_locking.c

    [fl.l_pid] is not set before the call: [pid0] is what is there. *)
Definition lockReg (pid0 fd cmd type whence start len : Z) : M (proc K) Z :=
  r ← fcntl_lock fd cmd (Flock type whence start len pid0); mret r.1.

Definition lockRegion (pid0 fd type whence start len : Z) : M (proc K) Z := lockReg pid0 fd F_SETLK type whence start len.
Definition lockRegionWait (pid0 fd type whence start len : Z) : M (proc K) Z := lockReg pid0 fd F_SETLKW type whence start len.

Definition regionIsLocked (pid0 fd type whence start len : Z) : M (proc K) Z :=
  r ← fcntl_lock fd F_GETLK (Flock type whence start len pid0);
  if r.1 =? -1 then mret (-1)
  else mret (if l_type r.2 =? F_UNLCK then 0 else l_pid r.2).

(** ** create_pid_file.c *)

Definition BUF_SIZE : Z := 100.

(** The line with the process ID, cut to the buffer. *)
Definition pid_line : bytes := take (Z.to_nat (BUF_SIZE - 1)) (dec own_pid ++ [NL]).

Definition set_cloexec (fd : Z) (pidFile : bytes) : M (proc K) unit :=
  flags ← syscall (-1) (k_getfd fd);
  if flags =? -1 then errExit (str "Could not get flags for PID file " ++ pidFile)
  else
    r ← syscall (-1) (k_setfd fd (Z.lor flags FD_CLOEXEC));
    if r =? -1 then errExit (str "Could not set flags for PID file " ++ pidFile) else mret tt.

Definition createPidFile (pid0 : Z) (progName pidFile : bytes) (flags : Z) : M (proc K) Z :=
  fd ← open_ pidFile (Z.lor O_RDWR O_CREAT) PID_FILE_MODE;
  if fd =? -1 then errExit (str "Could not open PID file " ++ pidFile)
  else
    (if negb (Z.land flags CPF_CLOEXEC =? 0) then set_cloexec fd pidFile else mret tt) ;;
    l ← lockRegion pid0 fd F_WRLCK SEEK_SET 0 0;
    (if l =? -1 then
       e ← get_errno;
       if (e =? EAGAIN) || (e =? EACCES)
       then fatal (str "PID file '" ++ pidFile ++ str "' is locked; probably '" ++ progName ++ str "' is already running")
       else errExit (str "Unable to lock PID file '" ++ pidFile ++ str "'")
     else mret tt) ;;
    t ← syscall (-1) (k_ftruncate fd 0);
    if t =? -1 then errExit (str "Could not truncate PID file '" ++ pidFile ++ str "'")
    else
      w ← write fd pid_line;
      if negb (w =? strlen pid_line) then fatal (str "Writing to PID file '" ++ pidFile ++ str "'") else mret fd.
End Locks.

(** *** Only one holds the file

    The file behind a descriptor, what a file holds, and the process that has a write lock on the
    whole of it.  The laws say what the calls do to one file: opening without O_TRUNC leaves its
    contents, and the lock is given only to a process when no other has one. *)

Class PidFileLaws (K : Type) `{!FileIO K, !LockOps K} := {
  file_of : K -> Z -> option bytes;
  content : K -> bytes -> bytes;
  owner : K -> bytes -> option Z;
  k_open_file : forall path mode k, match k_open path (Z.lor O_RDWR O_CREAT) mode k with
    | (inl fd, k') => 0 <= fd /\ file_of k' fd = Some path /\ content k' path = content k path /\ owner k' path = owner k path
    | (inr _, k') => content k' path = content k path /\ owner k' path = owner k path end;
  k_getfd_file : forall fd k path, file_of k fd = Some path -> let '(r, k') := k_getfd fd k in
    file_of k' fd = Some path /\ content k' path = content k path /\ owner k' path = owner k path;
  k_setfd_file : forall fd v k path, file_of k fd = Some path -> let '(r, k') := k_setfd fd v k in
    file_of k' fd = Some path /\ content k' path = content k path /\ owner k' path = owner k path;
  k_setlk_file : forall fd pid0 k path, file_of k fd = Some path ->
    match k_fcntl_lock fd F_SETLK (Flock F_WRLCK SEEK_SET 0 0 pid0) k with
    | (inl _, k') => (owner k path = None \/ owner k path = Some own_pid) /\ owner k' path = Some own_pid /\
                     file_of k' fd = Some path /\ content k' path = content k path
    | (inr _, k') => owner k' path = owner k path /\ content k' path = content k path end;
  k_ftruncate_file : forall fd k path, file_of k fd = Some path -> match k_ftruncate fd 0 k with
    | (inl r, k') => r = 0 /\ file_of k' fd = Some path /\ content k' path = [] /\ owner k' path = owner k path
    | (inr _, k') => owner k' path = owner k path end;
  k_write_file : forall fd data k path, file_of k fd = Some path -> content k path = [] -> match k_write fd data k with
    | (inl n, k') => 0 <= n /\ content k' path = take (Z.to_nat n) data /\ owner k' path = owner k path
    | (inr _, k') => owner k' path = owner k path end
}.

Section PidFile.
Context `{!Messages} {K : Type} `{!FileIO K, !LockOps K, !PidFileLaws K}.
Implicit Types (p : proc K).

(** [fd] is open on the file, which is as it was. *)
Definition opened (path : bytes) (fd : Z) (k k' : K) : Prop :=
  file_of k' fd = Some path /\ content k' path = content k path /\ owner k' path = owner k path.

Lemma opened_trans path fd k k1 k2 : opened path fd k k1 -> opened path fd k1 k2 -> opened path fd k k2.
Proof. unfold opened. intros (? & ? & ?) (? & ? & ?). split_and!; congruence. Qed.

(** The program was stopped, with the file as it was. *)
Definition untouched (path : bytes) (k k' : K) : Prop := content k' path = content k path /\ owner k' path = owner k path.

Lemma set_cloexec_spec fd path k0 p :
  opened path fd k0 (kern p) ->
  wp (set_cloexec fd path) p (fun o p' => o = Ret tt /\ opened path fd k0 (kern p') \/ stopped o /\ untouched path k0 (kern p')).
Proof.
  intros H0. match goal with |- wp _ _ ?Q0 => set (Q := Q0) end.
  assert (forall p1 msg, opened path fd k0 (kern p1) -> wp (errExit msg) p1 Q) as Hstop.
  { intros p1 msg (_ & ? & ?). apply wp_errExit. intros o e Ho. by right. }
  unfold set_cloexec. apply wp_bind, wp_syscall. pose proof (k_getfd_file fd (kern p) path (proj1 H0)) as H1.
  destruct (k_getfd fd (kern p)) as [r k1]. apply (opened_trans _ _ _ _ _ H0) in H1.
  destruct r as [flags|e]; cbn [recast]; [|by apply Hstop].
  destruct (flags =? -1); [by apply Hstop|].
  apply wp_bind, wp_syscall. cbn [kern]. pose proof (k_setfd_file fd (Z.lor flags FD_CLOEXEC) k1 path (proj1 H1)) as H2.
  destruct (k_setfd fd (Z.lor flags FD_CLOEXEC) k1) as [r k2]. apply (opened_trans _ _ _ _ _ H1) in H2.
  destruct r as [r|e]; cbn [recast]; [|by apply Hstop]. destruct (r =? -1); [by apply Hstop|]. apply wp_ret. by left.
Qed.

(** C29: at most one process gets past [createPidFile].  It returns only when no other process
    held the lock, and then this process holds it and the file consists of its process ID and a
    newline.  When another process holds the lock, the program is stopped, and the file with the
    other's process ID and the lock are as they were. *)
Theorem createPidFile_exclusive pid0 progName pidFile flags p :
  wp (createPidFile pid0 progName pidFile flags) p (fun o p' =>
    match o with
    | Ret fd => (forall q, owner (kern p) pidFile = Some q -> q = own_pid) /\
                owner (kern p') pidFile = Some own_pid /\ content (kern p') pidFile = pid_line
    | _ => stopped o /\ (forall q, owner (kern p) pidFile = Some q -> q <> own_pid -> untouched pidFile (kern p) (kern p'))
    end).
Proof.
  match goal with |- wp _ _ ?Q0 => set (Q := Q0) end.
  assert (forall o p1, stopped o -> untouched pidFile (kern p) (kern p1) -> Q o p1) as Huntouched.
  { intros o p1 Ho H1. unfold Q. by destruct o; try (by destruct Ho); split. }
  assert (forall o p1, stopped o -> (owner (kern p) pidFile = None \/ owner (kern p) pidFile = Some own_pid) -> Q o p1) as Hours.
  { intros o p1 Ho H1. unfold Q. destruct o; try (by destruct Ho); split; try done; intros q Hq Hne; rewrite Hq in H1; by destruct H1 as [|[= ->]]. }
  unfold createPidFile. apply wp_bind, wp_syscall. pose proof (k_open_file pidFile PID_FILE_MODE (kern p)) as H1.
  destruct (k_open pidFile _ _ (kern p)) as [[fd|e] k1]; cbn [recast].
  2: { apply wp_errExit. intros o e1 Ho. by apply Huntouched. }
  destruct H1 as [Hfd H1]. rewrite (proj2 (Z.eqb_neq _ _)) by lia.
  apply wp_bind. eapply (wp_mono _ _ (fun o p' => o = Ret tt /\ opened pidFile fd (kern p) (kern p') \/ stopped o /\ untouched pidFile (kern p) (kern p'))).
  { destruct (negb _); [by apply set_cloexec_spec|apply wp_ret; by left]. }
  intros o p2 [[-> H2]|[Ho H2]]; [|apply stopped_bind; auto]. apply wp_bind, wp_bind, wp_syscall.
  pose proof (k_setlk_file fd pid0 (kern p2) pidFile (proj1 H2)) as H3. destruct H2 as (_ & Hc2 & Ho2).
  destruct (k_fcntl_lock fd F_SETLK _ (kern p2)) as [[fl|e] k3]; apply wp_ret; cbn [fst].
  2: { destruct H3 as [Ho3 Hc3]. change (-1 =? -1) with true. cbv iota. apply wp_bind, wp_bind, wp_get_errno.
       destruct (_ || _); [apply wp_fatal|apply wp_errExit]; intros o e' Ho; apply stopped_bind; try done;
         intros o' Ho'; apply Huntouched; try done; split; cbn [kern]; congruence. }
  destruct H3 as (Hfree & Ho3 & Hf3 & Hc3). rewrite Ho2 in Hfree. change (0 =? -1) with false. cbv iota.
  apply wp_bind, wp_ret, wp_bind, wp_syscall. cbn [kern]. pose proof (k_ftruncate_file fd k3 pidFile Hf3) as H4.
  destruct (k_ftruncate fd 0 k3) as [[r|e] k4]; cbn [recast].
  2: { apply wp_errExit. intros o e1 Ho. by apply Hours. }
  destruct H4 as (-> & Hf4 & Hc4 & Ho4). change (0 =? -1) with false. cbv iota.
  apply wp_bind, wp_syscall. cbn [kern]. pose proof (k_write_file fd pid_line k4 pidFile Hf4 Hc4) as H5.
  destruct (k_write fd pid_line k4) as [[n|e] k5]; cbn [recast].
  2: { rewrite (proj2 (Z.eqb_neq _ _)) by (pose proof (strlen_nonneg pid_line); lia). apply wp_fatal. intros. by apply Hours. }
  destruct H5 as (Hn & Hc5 & Ho5). destruct (Z.eqb_spec n (strlen pid_line)) as [->|]; cbn [negb].
  - apply wp_ret. unfold Q. cbn [kern]. split_and!; [|congruence|].
    + intros q Hq. rewrite Hq in Hfree. by destruct Hfree as [|[= ->]].
    + rewrite Hc5, take_ge; [done|]. unfold strlen. lia.
  - apply wp_fatal. intros. by apply Hours.
Qed.
End PidFile.

(** *** One file to lock *)

Record pidfs := Pidfs { pf_text : bytes; pf_owner : option Z }.

Definition PIDFILE : bytes := str "/run/d.pid".

#[export] Instance pidfs_io : FileIO pidfs := {|
  k_open := fun path _ _ k => (if decide (path = PIDFILE) then inl 3 else inr ENOENT, k);
  k_close := fun _ k => (inl 0, k);
  k_read := fun _ _ k => (inl [], k);
  k_write := fun _ data k => (inl (strlen data), Pidfs (pf_text k ++ data) (pf_owner k));
  k_lseek := fun _ _ _ k => (inr EINVAL, k)
|}.

#[export] Instance pidfs_locks : LockOps pidfs := {|
  own_pid := 77;
  k_fcntl_lock := fun _ _ fl k => match pf_owner k with
    | Some q => if q =? 77 then (inl fl, k) else (inr EAGAIN, k)
    | None => (inl fl, Pidfs (pf_text k) (Some 77)) end;
  k_getfd := fun _ k => (inl 0, k);
  k_setfd := fun _ _ k => (inl 0, k);
  k_ftruncate := fun _ _ k => (inl 0, Pidfs [] (pf_owner k));
  k_fstat_mode := fun _ k => (inl 420, k)
|}.

#[export] Program Instance pidfs_laws : PidFileLaws pidfs := {|
  file_of := fun _ fd => if fd =? 3 then Some PIDFILE else None; content := fun k _ => pf_text k; owner := fun k _ => pf_owner k |}.
Next Obligation. intros path mode k. cbn. by case_decide; subst. Qed.
Next Obligation. done. Qed.
Next Obligation. done. Qed.
Next Obligation.
  intros fd pid0 [t [q|]] path Hf; cbn in *; [|by split_and!; try left]. destruct (Z.eqb_spec q 77) as [->|]; cbn; auto.
Qed.
Next Obligation. done. Qed.
Next Obligation. intros fd data k path Hf Hc. cbn in *. rewrite Hc. unfold strlen. split_and!; [lia| |done]. by rewrite Nat2Z.id, firstn_all. Qed.

#[local] Instance terse : Messages := Build_Messages (fun _ => []) 0 (fun _ => []) None.

(** A second daemon is refused; a first one gets the file. *)
Lemma createPidFile_exclusive_witness :
  (exists p', createPidFile 0 (str "d") PIDFILE CPF_CLOEXEC (Proc (Pidfs (str "old") None) 0 []) = (Ret 3, p') /\
     content (kern p') PIDFILE = str "77" ++ [NL]) /\
  (exists p', createPidFile 0 (str "d") PIDFILE 0 (Proc (Pidfs (str "12") (Some 12)) 0 []) = (Exit 1, p') /\
     untouched PIDFILE (Pidfs (str "12") (Some 12)) (kern p')).
Proof.
  pose proof (createPidFile_exclusive 0 (str "d") PIDFILE CPF_CLOEXEC (Proc (Pidfs (str "old") None) 0 [])) as H1.
  pose proof (createPidFile_exclusive 0 (str "d") PIDFILE 0 (Proc (Pidfs (str "12") (Some 12)) 0 [])) as H2.
  split; eexists; (split; [vm_compute; reflexivity|]).
  - exact (proj2 (proj2 H1)).
  - refine (proj2 H2 12 _ _); [vm_compute; reflexivity|by_decide].
Defined.

(** ** i_fcntl_locking.c *)

Definition MAX_LINE : Z := 100.

(** The variables sscanf fills; a line that does not fill one leaves what was there before. *)
Record command := Command { fileNum : Z; cmdCh : ascii; lock : ascii; st : Z; len : Z; whence : ascii }.

Definition set_fileNum (v : command) n := Command n (cmdCh v) (lock v) (st v) (len v) (whence v).
Definition set_cmdCh (v : command) c := Command (fileNum v) c (lock v) (st v) (len v) (whence v).
Definition set_lock (v : command) c := Command (fileNum v) (cmdCh v) c (st v) (len v) (whence v).
Definition set_st (v : command) n := Command (fileNum v) (cmdCh v) (lock v) n (len v) (whence v).
Definition set_len (v : command) n := Command (fileNum v) (cmdCh v) (lock v) (st v) n (whence v).
Definition set_whence (v : command) c := Command (fileNum v) (cmdCh v) (lock v) (st v) (len v) c.

(** The conversions of the two formats: [%d] and [%lld], and [%c] with a blank before it.  A number
    that is out of range is undefined in C; here it saturates, as in strtol. *)
Inductive conv := Number (put : command -> Z -> command) | Letter (put : command -> ascii -> command).

Fixpoint sscanf (s : bytes) (fmt : list conv) (v : command) (n : Z) : Z * command :=
  match fmt with
  | [] => (n, v)
  | f :: fmt' =>
      match (span isspace s).2, f with
      | [], _ => (if n =? 0 then -1 else n, v)
      | c :: s', Letter put => sscanf s' fmt' (put v c) (n + 1)
      | _, Number put =>
          let r := strtol s 10 in
          if Nat.eqb (st_end r) 0 then (n, v) else sscanf (drop (st_end r) s) fmt' (put v (st_value r)) (n + 1)
      end
  end.

Definition lock_format : list conv := [Letter set_cmdCh; Letter set_lock; Number set_st; Number set_len; Letter set_whence].

(** strchr on a set of letters. *)
Definition one_of (set : string) (c : ascii) : bool := match strchr (str set) c with Some _ => true | None => false end.

(** [%-10s] and [%2d] *)
Definition left_justified (n : nat) (s : bytes) : bytes := s ++ replicate (n - length s) " "%char.
Definition right_justified (n : nat) (s : bytes) : bytes := replicate (n - length s) " "%char ++ s.

Section Interactive.
Context `{!Messages} {K : Type} `{!FileIO K, !LockOps K}.

Definition mandLockingEnabled (fd : Z) : M (proc K) bool :=
  m ← syscall (-1) (k_fstat_mode fd);
  if m =? -1 then errExit (str "stat") else mret (negb (Z.land m S_ISGID =? 0) && (Z.land m S_IXGRP =? 0)).

Definition locking_kind (fd : Z) : M (proc K) bytes :=
  m ← mandLockingEnabled fd; mret (if m : bool then str "mandatory" else str "advisory").

(** [fdList] without its unused first element; the files are numbered from 1. *)
Definition displayCmdFmt (files : list bytes) (fdList : list Z) : M (proc K) unit :=
  (match files with
   | [_] => printf ([NL] ++ str "Format: cmd lock start length [whence]" ++ [NL; NL])
   | _ =>
       printf ([NL] ++ str "Format: " ++ (match files with [] => [] | _ => str "file-num " end) ++
               str "cmd lock start length [whence]" ++ [NL; NL]) ;;
       printf (str "    file-num is a number from the following list" ++ [NL]) ;;
       for_each (fun '(j, (f, fd)) =>
         kind ← locking_kind fd;
         printf (str "        " ++ right_justified 2 (dec (Z.of_nat (S j))) ++ str "  " ++ left_justified 10 f ++
                 str " [" ++ kind ++ str " locking]" ++ [NL])) (imap pair (zip files fdList))
   end) ;;
  printf (str "    'cmd' is 'g' (GETLK), 's' (SETLK), or 'w' (SETLKW)" ++ [NL]) ;;
  printf (str "    'lock' is 'r' (READ), 'w' (WRITE), or 'u' (UNLOCK)" ++ [NL]) ;;
  printf (str "    'start' and 'length' specify byte range to lock" ++ [NL]) ;;
  printf (str "    'whence' is 's' (SEEK_SET, default), 'c' (SEEK_CUR), or 'e' (SEEK_END)" ++ [NL; NL]).

Definition pid_prefix : bytes := str "[PID=" ++ dec own_pid ++ str "] ".

(** The request of a valid command, and what is said of it. *)
Definition perform_lock (pid0 fd : Z) (v : command) : M (proc K) unit :=
  let cmd := if Ascii.eqb (cmdCh v) "g" then F_GETLK else if Ascii.eqb (cmdCh v) "s" then F_SETLK else F_SETLKW in
  let type := if Ascii.eqb (lock v) "r" then F_RDLCK else if Ascii.eqb (lock v) "w" then F_WRLCK else F_UNLCK in
  let wh := if Ascii.eqb (whence v) "c" then SEEK_CUR else if Ascii.eqb (whence v) "e" then SEEK_END else SEEK_SET in
  r ← fcntl_lock fd cmd (Flock type wh (st v) (len v) pid0);
  let '(status, fl) := r in
  if cmd =? F_GETLK then
    if status =? -1 then errMsg (str "fcntl - F_GETLK")
    else if l_type fl =? F_UNLCK then printf (pid_prefix ++ str "Lock can be placed" ++ [NL])
    else printf (pid_prefix ++ str "Denied by " ++ (if l_type fl =? F_RDLCK then str "READ" else str "WRITE") ++
                 str " lock on " ++ dec (l_start fl) ++ str ":" ++ dec (l_len fl) ++
                 str " (held by PID " ++ dec (l_pid fl) ++ str ")" ++ [NL])
  else if status =? 0 then
    printf (pid_prefix ++ (if Ascii.eqb (lock v) "u" then str "unlocked" else str "got lock") ++ [NL])
  else
    e ← get_errno;
    if (e =? EAGAIN) || (e =? EACCES) then printf (pid_prefix ++ str "failed (incompatible lock)" ++ [NL])
    else if e =? EDEADLK then printf (pid_prefix ++ str "failed (deadlock)" ++ [NL])
    else errMsg (str "fcntl - F_SETLK(W)").

(** One line, without its newline; the variables afterwards. *)
Definition lock_command (pid0 : Z) (files : list bytes) (fdList : list Z) (line : bytes) (v : command) : M (proc K) command :=
  match line with
  | [] => mret v
  | c :: _ =>
      if Ascii.eqb c "?" then displayCmdFmt files fdList ;; mret v
      else
        let v := set_whence v "s" in
        let single := Nat.eqb (length files) 1 in
        let '(numRead, v) :=
          if single then sscanf line lock_format (set_fileNum v 1) 0
          else sscanf line (Number (fun v n => set_fileNum v (s32 n)) :: lock_format) v 0 in
        if (fileNum v <? 1) || (Z.of_nat (length files) + 1 <=? fileNum v) then
          printf (str "File number must be in range 1 to " ++ dec (Z.of_nat (length files)) ++ [NL]) ;; mret v
        else
          fd ← the (fdList !! Z.to_nat (fileNum v - 1));
          if negb ((4 <=? numRead) && single || (5 <=? numRead) && negb single) ||
             negb (one_of "gsw" (cmdCh v)) || negb (one_of "rwu" (lock v)) || negb (one_of "sce" (whence v))
          then printf (str "Invalid command!" ++ [NL]) ;; mret v
          else perform_lock pid0 fd v ;; mret v
  end.

(** The bytes of an array up to the first null byte. *)
Definition as_string (s : bytes) : bytes := (span (fun c => negb (Ascii.eqb c NUL)) s).1.

(** The loop over the lines of standard input. *)
Definition lock_loop (fuel : nat) (pid0 : Z) (files : list bytes) (fdList : list Z) (stdin : bytes) (v0 : command)
    : M (proc K) unit :=
  loop fuel (fun '(stdin, v) =>
    printf (str "PID=" ++ dec own_pid ++ str "> ") ;;
    match stdin with
    | [] => exit_ EXIT_SUCCESS
    | _ =>
        let '(line, stdin') := fgets (Z.to_nat (MAX_LINE - 1)) stdin in
        match as_string line with
        | [] => undef_
        | s => v' ← lock_command pid0 files fdList (take (length s - 1) s) v; mret (inl (stdin', v'))
        end
    end) (stdin, v0).

Fixpoint open_files (files : list bytes) : M (proc K) (list Z) :=
  match files with
  | [] => mret []
  | f :: files' =>
      fd ← open_ f O_RDWR 0;
      if fd =? -1 then errExit (str "open (" ++ f ++ str ")") else fds ← open_files files'; mret (fd :: fds)
  end.

(** [callocs] says whether memory is given. *)
Definition locking_main (fuel : nat) (callocs : bool) (pid0 : Z) (argv : list bytes) (stdin : bytes) (v0 : command)
    : M (proc K) unit :=
  let files := drop 1 argv in
  (if bool_decide (length argv < 2)%nat || match files with f :: _ => strcmp f (str "--help") =? 0 | [] => false end
   then usageErr (default [] (argv !! 0%nat) ++ str " file..." ++ [NL]) else mret tt) ;;
  if negb callocs then errExit (str "calloc")
  else
    fdList ← open_files files;
    printf (str "File       Locking" ++ [NL]) ;;
    printf (str "----       -------" ++ [NL]) ;;
    for_each (fun '(f, fd) => kind ← locking_kind fd; printf (left_justified 10 f ++ str " " ++ kind ++ [NL])) (zip files fdList) ;;
    printf [NL] ;;
    printf (str "Enter ? for help" ++ [NL]) ;;
    lock_loop fuel pid0 files fdList stdin v0.
End Interactive.

(** *** The program ends with its input *)

Section Ends.
Context `{!Messages} {K : Type} `{!FileIO K, !LockOps K}.
Implicit Types (p : proc K).

Definition goes_on {A} (o : outcome A) (p : proc K) : Prop := match o with Ret _ => True | o => stopped o end.

Lemma goes_on_bind {A B} (m : M (proc K) A) (k : A -> M (proc K) B) p :
  wp m p goes_on -> (forall a p', wp (k a) p' goes_on) -> wp (m ≫= k) p goes_on.
Proof.
  intros Hm Hk. apply wp_bind. eapply wp_mono; [exact Hm|]. intros o p' Ho. unfold goes_on in Ho.
  destruct o; try (apply (stopped_bind _ k p' goes_on) in Ho; [exact Ho|]; intros [] ? ; by try destruct H). apply Hk.
Qed.

Lemma goes_on_if {A} (b : bool) (m m' : M (proc K) A) p : wp m p goes_on -> wp m' p goes_on -> wp (if b then m else m') p goes_on.
Proof. by destruct b. Qed.

Lemma goes_on_for_each {A} (l : list A) (body : A -> M (proc K) unit) p :
  (forall a p', wp (body a) p' goes_on) -> wp (for_each body l) p goes_on.
Proof. intros Hb. revert p. induction l as [|a l IH]; intros p; [by apply wp_ret|]. apply goes_on_bind; auto. Qed.

Lemma goes_on_errExit {A} msg p : wp (errExit (A := A) msg) p goes_on.
Proof. apply wp_errExit. intros o e Ho. by destruct o. Qed.

Lemma goes_on_syscall {A} (fail : A) f p : wp (syscall fail f) p goes_on.
Proof. apply wp_syscall. by destruct (f (kern p)) as [[] ?]. Qed.

Lemma goes_on_printf s p : wp (printf s) p goes_on.
Proof. by apply wp_printf. Qed.

Lemma goes_on_errMsg msg p : wp (errMsg msg) p goes_on.
Proof. by apply wp_errMsg. Qed.

(** Split on the tests of the code. *)
Ltac goes_on_cases :=
  repeat match goal with |- wp (if ?b then _ else _) _ _ => destruct b end;
  try first [exact (goes_on_printf _ _) | exact (goes_on_errMsg _ _)].

Create HintDb going.
#[local] Hint Resolve goes_on_bind goes_on_if goes_on_errExit goes_on_syscall goes_on_printf goes_on_errMsg : going.

Lemma goes_on_kind fd p : wp (locking_kind fd) p goes_on.
Proof.
  apply goes_on_bind; [|by intros; apply wp_ret]. apply goes_on_bind; [auto with going|]. intros.
  apply goes_on_if; [auto with going|by apply wp_ret].
Qed.

Lemma goes_on_display files fdList p : wp (displayCmdFmt files fdList) p goes_on.
Proof.
  apply goes_on_bind; [|auto 10 with going]. destruct files as [|f [|f' files]]; [|auto with going|];
    (apply goes_on_bind; [auto with going|]; intros; apply goes_on_bind; [auto with going|]; intros;
     apply goes_on_for_each; intros [j [? fd]] ?; apply goes_on_bind; [apply goes_on_kind|auto with going]).
Qed.

Lemma goes_on_perform pid0 fd v p : wp (perform_lock pid0 fd v) p goes_on.
Proof.
  apply goes_on_bind; [apply goes_on_syscall|]. intros [status fl] p'.
  goes_on_cases. apply goes_on_bind; [by apply wp_get_errno|]. intros e q. goes_on_cases.
Qed.

Lemma lock_command_goes_on pid0 files fdList line v p :
  length fdList = length files -> wp (lock_command pid0 files fdList line v) p goes_on.
Proof.
  intros Hlen. unfold lock_command. destruct line as [|c line]; [by apply wp_ret|].
  apply goes_on_if; [apply goes_on_bind; [apply goes_on_display|by intros; apply wp_ret]|].
  destruct (if Nat.eqb (length files) 1 then _ else _) as [numRead v'].
  destruct (_ || _) eqn:E; [apply goes_on_bind; [auto with going|by intros; apply wp_ret]|].
  apply orb_false_elim in E as [E1 E2]. z_bool.
  destruct (lookup_lt_is_Some_2 fdList (Z.to_nat (fileNum v' - 1))) as [fd ->]; [lia|].
  apply goes_on_bind; [by apply wp_ret|]. intros fd' p'.
  destruct (_ || _); (apply goes_on_bind; [exact (goes_on_printf _ _) || exact (goes_on_perform _ _ _ _)|by intros; apply wp_ret]).
Qed.

Lemma fgets_consumes n c s :
  let '(l, r) := fgets (S n) (c :: s) in l <> [] /\ c :: s = l ++ r /\ (length r <= length s)%nat.
Proof.
  revert c s. induction n as [|n IH]; intros c s.
  - simpl. destruct (Ascii.eqb c NL); split_and!; done || simpl; lia.
  - change (fgets (S (S n)) (c :: s)) with
      (if Ascii.eqb c NL then ([c], s) else let '(l, r) := fgets (S n) s in (c :: l, r)).
    destruct (Ascii.eqb c NL); [split_and!; done|]. destruct s as [|d s]; [split_and!; done|].
    specialize (IH d s). destruct (fgets (S n) (d :: s)) as [l r]. destruct IH as (_ & E & Hl).
    split_and!; [done|by rewrite E|simpl; lia].
Qed.

(** With more fuel than there is input, the loop ends: at the end of the input with status 0,
    by an error that [mandLockingEnabled] meets, or at a line whose first byte is a null byte,
    where the store that removes the newline is out of bounds. *)
Lemma lock_loop_ends fuel pid0 files fdList stdin v0 p :
  length fdList = length files -> (length stdin < fuel)%nat ->
  wp (lock_loop fuel pid0 files fdList stdin v0) p (fun o p' =>
    o = Exit EXIT_SUCCESS \/ stopped o \/ o = Undef /\ NUL ∈ stdin).
Proof.
  intros Hlen Hfuel. apply (loop_wp (fun '(s, _) _ => exists s0, stdin = s0 ++ s) (fun '(s, _) _ => length s)); [|by exists []|done].
  intros [s v] q [s0 Hs]. apply wp_bind, wp_printf. cbn [recast]. destruct s as [|c s]; [by left|].
  pose proof (fgets_consumes 98 c s) as Hf. change (Z.to_nat (MAX_LINE - 1)) with 99%nat.
  destruct (fgets 99 (c :: s)) as [l r]. destruct Hf as (Hne & Hf & Hl).
  destruct (as_string l) as [|d ds] eqn:Ea.
  - right. right. split; [done|]. destruct l as [|d l]; [done|].
    unfold as_string in Ea. simpl in Ea. destruct (Ascii.eqb_spec d NUL) as [->|]; simpl in Ea; [|by destruct (span _ l)].
    rewrite Hs, Hf. apply elem_of_app. right. left.
  - apply wp_bind. eapply wp_mono; [exact (lock_command_goes_on _ _ _ _ _ _ Hlen)|].
    intros [v'| | | |] q' Ho; cbn in *; [|by destruct Ho as [[=]|[=]]; subst; right; left; (left + right)..].
    split; [|lia]. exists (s0 ++ l). rewrite <- app_assoc, <- Hf. done.
Qed.
End Ends.

(** A first lock, and an invalid command. *)
Example lock_loop_runs :
  (lock_loop 40 0 [str "f"] [3] (str "s w 0 10" ++ [NL] ++ str "x" ++ [NL]) (Command 0 NUL NUL 0 0 NUL)
     (Proc (Pidfs [] None) 0 [])).2
  = Proc (Pidfs [] (Some 77)) 0 (Out <$> [str "PID=77> "; str "[PID=77] got lock" ++ [NL]; str "PID=77> ";
                                         str "Invalid command!" ++ [NL]; str "PID=77> "]).
Proof. vm_compute. reflexivity. Qed.
