(* ===== verification/Xattr.v ===== *)
(** * Extended attributes

    setfattr.c (16-extended-attributes) and xattr_view.c (tlpi-dist/xattr).  getopt belongs to the
    C library: a program gets the options it delivers, each with its argument, and the operands it
    leaves.  The calls on attributes are a class of the kernel. *)

From Stdlib Require Import ZArith Lia String Ascii.
From stdpp Require Import gmap strings.
From S2P Require Import Prelude CString Kernel ErrorFns.

Class XattrIO (K : Type) := {
  k_setxattr : bytes -> bytes -> bytes -> Z -> K -> (Z + Z) * K;      (* path, name, value, flags *)
  k_removexattr : bytes -> bytes -> K -> (Z + Z) * K;
  k_listxattr : bytes -> Z -> K -> (bytes + Z) * K;                   (* each name and a null byte *)
  k_getxattr : bytes -> bytes -> Z -> K -> (bytes + Z) * K
}.

(** ** setfattr.c *)

(** The global variables. *)
Record options := Options { no_deref_flag : Z; name : option bytes; value : option bytes; remove_name : option bytes }.
Definition no_options : options := Options 0 None None None.

Section Setfattr.
Context {K : Type} `{!XattrIO K}.

Definition print_usage {A} : M (proc K) A := printf (str "Usage: See man setfattr(1)" ++ [NL]) ;; exit_ EXIT_SUCCESS.
Definition print_version_and_exit {A} : M (proc K) A :=
  printf (str "setfattr (tlpi exercise) v0.1" ++ [NL]) ;; exit_ EXIT_SUCCESS.

Definition parse_argument (s : options) (o : ascii * option bytes) : M (proc K) options :=
  let '(c, optarg) := o in
  if Ascii.eqb c "h" then mret (Options 1 (name s) (value s) (remove_name s))
  else if Ascii.eqb c "V" then print_version_and_exit
  else if Ascii.eqb c "H" then print_usage
  else if Ascii.eqb c "n" then mret (Options (no_deref_flag s) optarg (value s) (remove_name s))
  else if Ascii.eqb c "v" then mret (Options (no_deref_flag s) (name s) optarg (remove_name s))
  else if Ascii.eqb c "x" then
    printf (str "Option -x: " ++ default [] optarg ++ [NL]) ;;
    mret (Options (no_deref_flag s) (name s) (value s) optarg)
  else if Ascii.eqb c "?" then mret s
  else abort_.

Fixpoint parse_arguments (opts : list (ascii * option bytes)) (s : options) : M (proc K) options :=
  match opts with
  | [] => mret s
  | o :: opts' => s ← parse_argument s o; parse_arguments opts' s
  end.

Definition validate_arguments (s : options) : M (proc K) unit :=
  (match name s, remove_name s with
   | None, None => eprintf (str "Either '-n' or '-x' must be specified" ++ [NL]) ;; print_usage
   | _, _ => mret tt
   end) ;;
  (match name s, remove_name s with
   | Some _, Some _ => eprintf (str "Must specify only one of '-n' or '-x'" ++ [NL]) ;; print_usage
   | _, _ => mret tt
   end) ;;
  (match name s, value s with
   | Some _, None => eprintf (str "Name specified without a value '-v'" ++ [NL]) ;; print_usage
   | _, _ => mret tt
   end).

Definition unable (verb name file : bytes) : bytes :=
  str "Unable to " ++ verb ++ str " attr '" ++ name ++ str "' on '" ++ file ++ str "'" ++ [NL].

Definition do_set_attr (n v : bytes) (files : list bytes) : M (proc K) Z :=
  for_each (fun file =>
    r ← syscall (-1) (k_setxattr file n v 0);
    if r =? -1 then eprintf (unable (str "set") n file) else mret tt) files ;;
  mret 0.

Definition do_remove_attr (n : bytes) (files : list bytes) : M (proc K) Z :=
  for_each (fun file =>
    r ← syscall (-1) (k_removexattr file n);
    if r =? -1 then eprintf (unable (str "remove") n file) else mret tt) files ;;
  mret 0.

(** A null name or value would be given to the kernel, or to strlen. *)
Definition setfattr_main (opts : list (ascii * option bytes)) (operands : list bytes) : M (proc K) Z :=
  s ← parse_arguments opts no_options;
  validate_arguments s ;;
  match name s with
  | Some n => v ← the (value s); do_set_attr n v operands
  | None => n ← the (remove_name s); do_remove_attr n operands
  end.
End Setfattr.

(** ** xattr_view.c *)

Section View.
Context `{!Messages} {K : Type} `{!XattrIO K}.

Definition XATTR_SIZE : Z := 10000.

Definition view_usage {A} (progName : bytes) : M (proc K) A :=
  eprintf (str "Usage: " ++ progName ++ str " [-x] file..." ++ [NL]) ;; exit_ EXIT_FAILURE.

Definition before_nul (s : bytes) : bytes := (span (fun c => negb (Ascii.eqb c NUL)) s).1.

(** [%02x] of a [char] converted to [unsigned int]: a [char] is signed. *)
Definition hex_byte (c : ascii) : bytes :=
  if ord c <? 128 then [hex_digit false (ord c / 16); hex_digit false (ord c mod 16)]
  else str "ffffff" ++ [hex_digit false (ord c / 16); hex_digit false (ord c mod 16)].

Definition view_value (hexDisplay : bool) (r : option bytes) : bytes :=
  match r with
  | None => str "couldn't get value"
  | Some v => str "value=" ++ (if hexDisplay then concat ((fun c => hex_byte c ++ str " ") <$> v) else before_nul v)
  end.

(** The walk over the list of names; one that is not terminated would be read past its end. *)
Fixpoint view_names (fuel : nat) (file : bytes) (hexDisplay : bool) (list : bytes) : M (proc K) unit :=
  match fuel, list with
  | _, [] => mret tt
  | O, _ => fun s => (NoFuel, s)
  | Datatypes.S fuel', _ =>
      let nm := before_nul list in
      if Nat.eqb (length nm) (length list) then undef_
      else
        printf (str "        name=" ++ nm ++ str "; ") ;;
        r ← syscall None (fun k => let '(r, k') := k_getxattr file nm XATTR_SIZE k in
                                   (match r with inl v => inl (Some v) | inr e => inr e end, k'));
        printf (view_value hexDisplay r ++ [NL]) ;;
        view_names fuel' file hexDisplay (drop (S (length nm)) list)
  end.

Definition view_file (hexDisplay : bool) (file : bytes) : M (proc K) unit :=
  l ← syscall None (fun k => let '(r, k') := k_listxattr file XATTR_SIZE k in
                             (match r with inl v => inl (Some v) | inr e => inr e end, k'));
  match l with
  | None => errExit (str "listxattr")
  | Some names =>
      printf (file ++ str ":" ++ [NL]) ;;
      view_names (length names) file hexDisplay names ;;
      printf [NL]
  end.

(** The options are "x" and "?".  [optind >= argc + 2] is never true. *)
Fixpoint view_options (progName : bytes) (opts : list ascii) (hexDisplay : bool) : M (proc K) bool :=
  match opts with
  | [] => mret hexDisplay
  | c :: opts' => if Ascii.eqb c "?" then view_usage progName else view_options progName opts' true
  end.

Definition view_main (progName : bytes) (opts : list ascii) (operands : list bytes) : M (proc K) unit :=
  hexDisplay ← view_options progName opts false;
  for_each (view_file hexDisplay) operands ;;
  exit_ EXIT_SUCCESS.
End View.

(** ** What setfattr does to the files *)

Class XattrLaws (K : Type) `{!XattrIO K} := {
  named : K -> bytes -> option Z;
  xattrs : K -> Z -> gmap bytes bytes;
  setxattr_law : forall path n v k, match k_setxattr path n v 0 k with
    | (inl r, k') => r = 0 /\ named k' = named k /\ exists i, named k path = Some i /\
        xattrs k' i = <[n := v]> (xattrs k i) /\ forall j, j <> i -> xattrs k' j = xattrs k j
    | (inr _, k') => named k' = named k /\ xattrs k' = xattrs k end;
  removexattr_law : forall path n k, match k_removexattr path n k with
    | (inl r, k') => r = 0 /\ named k' = named k /\ exists i, named k path = Some i /\
        xattrs k' i = delete n (xattrs k i) /\ forall j, j <> i -> xattrs k' j = xattrs k j
    | (inr _, k') => named k' = named k /\ xattrs k' = xattrs k end
}.

(** [update] was done to the files of the operands, but for those of [failed], and to no other. *)
Record updated {K} `{!XattrIO K, !XattrLaws K} (update : gmap bytes bytes -> gmap bytes bytes)
    (operands failed : list bytes) (k k' : K) : Prop := {
  updated_named : named k' = named k;
  updated_failed : failed `sublist_of` operands;
  updated_done : forall f, f ∈ operands -> f ∈ failed \/
    exists i, named k f = Some i /\ xattrs k' i = update (xattrs k i);
  updated_rest : forall i, xattrs k' i = xattrs k i \/
    xattrs k' i = update (xattrs k i) /\ exists f, f ∈ operands /\ named k f = Some i
}.

Section Correct.
Context {K : Type} `{!XattrIO K, !XattrLaws K}.
Implicit Types (p : proc K).

(** The loops of [do_set_attr] and [do_remove_attr]: an update that done twice is done once. *)
Lemma each_file (update : gmap bytes bytes -> gmap bytes bytes) call (msg : bytes -> bytes) files p :
  (forall m, update (update m) = update m) ->
  (forall path k, match call path k with
    | (inl r, k') => r = 0 /\ named k' = named k /\ exists i, named k path = Some i /\
        xattrs k' i = update (xattrs k i) /\ forall j, j <> i -> xattrs k' j = xattrs k j
    | (inr e, k') => named k' = named k /\ xattrs k' = xattrs k end) ->
  wp (for_each (fun file => r ← syscall (-1) (call file); if r =? -1 then eprintf (msg file) else mret tt) files) p
    (fun o p' => exists failed, o = Ret tt /\ updated update files failed (kern p) (kern p') /\
                                trace p' = trace p ++ (Err <$> (msg <$> failed))).
Proof.
  intros Hidem Hcall. apply (for_each_wp (fun files p' => exists failed,
    updated update files failed (kern p) (kern p') /\ trace p' = trace p ++ (Err <$> (msg <$> failed)))).
  - intros seen f rest q _ (failed & [Hn Hs Hd Hr] & Ht). apply wp_bind, wp_syscall. specialize (Hcall f (kern q)).
    destruct (call f (kern q)) as [[r|e] k']; cbn [recast].
    + destruct Hcall as (-> & Hn' & i & Hi & Hui & Hother). apply wp_ret. exists failed. split; [|done].
      rewrite Hn in Hi.
      assert (xattrs k' i = update (xattrs (kern p) i)) as Hk.
      { rewrite Hui. destruct (Hr i) as [->|[-> _]]; [done|apply Hidem]. }
      assert (forall j, xattrs k' j = update (xattrs (kern p) j) \/ xattrs k' j = xattrs (kern q) j) as Hkeep.
      { intros j. destruct (decide (j = i)) as [->|Hne]; [by left|right; auto]. }
      split; cbn [kern].
      * congruence.
      * by apply sublist_inserts_r.
      * intros g [Hg| ->%list_elem_of_singleton]%elem_of_app; [|right; eauto].
        destruct (Hd g Hg) as [|(j & Hj & Hu)]; [by left|right]. exists j. split; [done|].
        destruct (Hkeep j) as [| ->]; done.
      * intros j. destruct (decide (j = i)) as [->|Hne].
        -- right. split; [done|]. exists f. split; [apply elem_of_app; right; by left|done].
        -- rewrite Hother by done. destruct (Hr j) as [|(? & g & Hg & ?)]; [by left|right].
           split; [done|]. exists g. split; [apply elem_of_app; by left|done].
    + destruct Hcall as [Hn' Hx]. change (-1 =? -1) with true. cbv iota. apply wp_eprintf. exists (failed ++ [f]).
      cbn [kern trace]. rewrite !fmap_app, app_assoc, Ht. split; [|done]. split; cbn [kern].
      * congruence.
      * by apply sublist_app.
      * intros g [Hg| ->%list_elem_of_singleton]%elem_of_app; [|left; apply elem_of_app; right; by left].
        rewrite Hx. destruct (Hd g Hg); [left; apply elem_of_app; by left|by right].
      * intros j. rewrite Hx. destruct (Hr j) as [|(? & g & Hg & ?)]; [by left|right].
        split; [done|]. exists g. split; [apply elem_of_app; by left|done].
  - exists []. split; [|by rewrite app_nil_r]. split; try done. by intros f Hf%elem_of_nil. by left.
  - intros p' (failed & Hu & Ht). eauto.
Qed.

(** setfattr.  With a name and a value, the attribute is set on every operand, and with a name
    to remove it is removed; the operands on which that failed are reported, each by a line, and
    no other file and no other attribute changes; the status is 0 in any case.  A combination of
    options that is refused changes nothing, and the status is 0 as well. *)
Theorem setfattr_main_sets opts operands s p p1 :
  parse_arguments opts no_options p = (Ret s, p1) ->
  kern p1 = kern p /\
  exists o p', setfattr_main opts operands p = (o, p') /\
  match name s, value s, remove_name s with
  | Some n, Some v, None => exists failed, o = Ret 0 /\ updated (<[n := v]>) operands failed (kern p) (kern p') /\
      trace p' = trace p1 ++ (Err <$> (unable (str "set") n <$> failed))
  | None, _, Some n => exists failed, o = Ret 0 /\ updated (delete n) operands failed (kern p) (kern p') /\
      trace p' = trace p1 ++ (Err <$> (unable (str "remove") n <$> failed))
  | _, _, _ => o = Exit EXIT_SUCCESS /\ kern p' = kern p
  end.
Proof.
  intros Hparse.
  assert (kern p1 = kern p) as Hk.
  { clear operands. revert Hparse. generalize no_options. revert p. induction opts as [|[c a] opts IH]; intros p s0; simpl.
    - by intros [= _ <-].
    - unfold parse_argument. repeat case_match; intros E; try discriminate E; apply IH in E; exact E. }
  split; [done|]. apply wp_elim. unfold setfattr_main. unfold wp. rewrite (bind_Ret _ _ _ _ _ Hparse), <- Hk.
  match goal with |- ?G => change (wp (validate_arguments s ;; match name s with
    | Some n => v ← the (value s); do_set_attr n v operands
    | None => n ← the (remove_name s); do_remove_attr n operands end) p1 (fun o p' =>
      match name s, value s, remove_name s with
      | Some n, Some v, None => exists failed, o = Ret 0 /\ updated (<[n := v]>) operands failed (kern p1) (kern p') /\
          trace p' = trace p1 ++ (Err <$> (unable (str "set") n <$> failed))
      | None, _, Some n => exists failed, o = Ret 0 /\ updated (delete n) operands failed (kern p1) (kern p') /\
          trace p' = trace p1 ++ (Err <$> (unable (str "remove") n <$> failed))
      | _, _, _ => o = Exit EXIT_SUCCESS /\ kern p' = kern p1 end)) end.
  apply wp_bind. unfold validate_arguments. destruct (name s) as [n|], (value s) as [v|], (remove_name s) as [r|]; try done.
  - apply wp_bind, wp_ret, wp_bind, wp_ret, wp_ret, wp_bind, wp_ret, wp_bind.
    eapply wp_mono; [apply (each_file (<[n := v]>)); [intros m; apply insert_insert_eq|intros; apply setxattr_law]|].
    intros o p' (failed & -> & Hu & Ht). apply wp_ret. eauto.
  - apply wp_bind, wp_ret, wp_bind, wp_ret, wp_ret, wp_bind, wp_ret, wp_bind.
    eapply wp_mono; [apply (each_file (delete r)); [intros m; apply delete_delete_eq|intros; apply removexattr_law]|].
    intros o p' (failed & -> & Hu & Ht). apply wp_ret. eauto.
  - apply wp_bind, wp_ret, wp_bind, wp_ret, wp_ret, wp_bind, wp_ret, wp_bind.
    eapply wp_mono; [apply (each_file (delete r)); [intros m; apply delete_delete_eq|intros; apply removexattr_law]|].
    intros o p' (failed & -> & Hu & Ht). apply wp_ret. eauto.
Qed.
End Correct.

(** ** Two files with attributes *)

Abbreviation attr_store := (gmap Z (list (bytes * bytes))).

Definition file_number (path : bytes) : option Z :=
  if decide (path = str "a") then Some 1 else if decide (path = str "link-to-a") then Some 1
  else if decide (path = str "b") then Some 2 else None.

Definition attrs_of (k : attr_store) (i : Z) : list (bytes * bytes) := default [] (k !! i).
Definition put_attr (n v : bytes) (l : list (bytes * bytes)) : list (bytes * bytes) :=
  filter (fun x => x.1 <> n) l ++ [(n, v)].
Definition drop_attr (n : bytes) (l : list (bytes * bytes)) : list (bytes * bytes) := filter (fun x => x.1 <> n) l.
Definition map_of (l : list (bytes * bytes)) : gmap bytes bytes := foldl (fun m x => <[x.1 := x.2]> m) ∅ l.

Lemma map_of_snoc l n v : map_of (l ++ [(n, v)]) = <[n := v]> (map_of l).
Proof. unfold map_of. by rewrite foldl_snoc. Qed.

Lemma map_of_drop n l : map_of (drop_attr n l) = delete n (map_of l).
Proof.
  induction l as [|[m v] l IH] using rev_ind; [done|]. rewrite map_of_snoc. unfold drop_attr. rewrite filter_app.
  fold (drop_attr n l). cbn [filter list_filter]. case_decide as Hd; cbn in Hd.
  - rewrite map_of_snoc, IH. by rewrite delete_insert_ne.
  - subst m. by rewrite app_nil_r, IH, delete_insert_eq.
Qed.

Lemma map_of_put n v l : map_of (put_attr n v l) = <[n := v]> (map_of l).
Proof. unfold put_attr. rewrite map_of_snoc. fold (drop_attr n l). by rewrite map_of_drop, insert_delete_eq. Qed.

#[export] Instance store_xattr : XattrIO attr_store := {|
  k_setxattr := fun path n v _ k => match file_number path with
    | Some i => (inl 0, <[i := put_attr n v (attrs_of k i)]> k) | None => (inr ENOENT, k) end;
  k_removexattr := fun path n k => match file_number path with
    | Some i => (inl 0, <[i := drop_attr n (attrs_of k i)]> k) | None => (inr ENOENT, k) end;
  k_listxattr := fun path _ k => match file_number path with
    | Some i => (inl (concat ((fun x => x.1 ++ [NUL]) <$> attrs_of k i)), k) | None => (inr ENOENT, k) end;
  k_getxattr := fun path n _ k => match file_number path with
    | Some i => (match map_of (attrs_of k i) !! n with Some v => inl v | None => inr ENOENT end, k)
    | None => (inr ENOENT, k) end
|}.

Lemma store_change k i l : attrs_of (<[i := l]> k) i = l /\ forall j, j <> i -> attrs_of (<[i := l]> k) j = attrs_of k j.
Proof.
  unfold attrs_of. split; [by rewrite lookup_insert_eq|]. intros j Hne. by rewrite lookup_insert_ne.
Qed.

#[export] Program Instance store_laws : XattrLaws attr_store := {|
  named := fun _ => file_number; xattrs := fun k i => map_of (attrs_of k i) |}.
Next Obligation.
  intros path n v k. cbn. destruct (file_number path) as [i|]; [|done].
  destruct (store_change k i (put_attr n v (attrs_of k i))) as [H1 H2].
  split_and!; [done..|]. exists i. rewrite H1, map_of_put. split_and!; [done..|]. intros j Hj. by rewrite H2.
Qed.
Next Obligation.
  intros path n k. cbn. destruct (file_number path) as [i|]; [|done].
  destruct (store_change k i (drop_attr n (attrs_of k i))) as [H1 H2].
  split_and!; [done..|]. exists i. rewrite H1, map_of_drop. split_and!; [done..|]. intros j Hj. by rewrite H2.
Qed.

Definition set_opts : list (ascii * option bytes) := [("n"%char, Some (str "user.x")); ("v"%char, Some (str "1"))].

(** The file without the name is reported; the two names of the other file do no harm. *)
Lemma setfattr_main_sets_witness :
  exists p' failed,
    setfattr_main set_opts [str "a"; str "none"; str "link-to-a"] (Proc (∅ : attr_store) 0 []) = (Ret 0, p') /\
    updated (<[str "user.x" := str "1"]>) [str "a"; str "none"; str "link-to-a"] failed ∅ (kern p') /\
    length failed = 1%nat.
Proof.
  destruct (setfattr_main_sets set_opts [str "a"; str "none"; str "link-to-a"]
              (Options 0 (Some (str "user.x")) (Some (str "1")) None) (Proc (∅ : attr_store) 0 []) (Proc ∅ 0 []))
    as [_ (o & p' & E & failed & -> & Hu & Ht)]; [reflexivity|].
  exists p', failed. split; [exact E|]. split; [exact Hu|]. vm_compute in E. injection E as <-.
  destruct failed as [|f [|g failed]]; [discriminate Ht|reflexivity|discriminate Ht].
Defined.

#[local] Instance mute : Messages := Build_Messages (fun _ => []) 0 (fun _ => []) None.

(** What was set is shown; a byte of 128 or more is shown as a negative [char]. *)
Example set_and_view :
  let k := kern (setfattr_main set_opts [str "a"] (Proc (∅ : attr_store) 0 [])).2 in
  (view_main (str "xattr_view") [] [str "link-to-a"] (Proc k 0 [])).2
  = Proc k 0 (Out <$> [str "link-to-a:" ++ [NL]; str "        name=user.x; "; str "value=1" ++ [NL]; [NL]]).
Proof. vm_compute. reflexivity. Qed.

Example hex_of_127_and_128 : view_value true (Some [chr 127; chr 128]) = str "value=7f ffffff80 ".
Proof. vm_compute. reflexivity. Qed.
