(* ===== verification/AclShow.v ===== *)
(** * Showing access control lists

    acl_view.c (tlpi-dist/acl) and dispacl.c (17-access-control-lists).  Beyond what acl_update
    calls, these programs read the permissions of an entry and free what libacl gave them. *)

From Stdlib Require Import ZArith Lia String Ascii.
From S2P Require Import Prelude CString Kernel ErrorFns Users Acl.

Class AclRead (A E : Type) := {
  acl_get_permset : A -> E -> unit + Z;
  acl_get_perm : A -> E -> Z -> Z + Z;                (* 1, 0 *)
  acl_free_qualifier : A -> E -> unit + Z;
  acl_free : A -> unit + Z
}.

(** [%-ns] *)
Definition padded (n : nat) (s : bytes) : bytes := s ++ replicate (n - length s) " "%char.

Definition tag_name (tag : Z) : bytes :=
  if tag =? ACL_USER_OBJ then str "user_obj"
  else if tag =? ACL_USER then str "user"
  else if tag =? ACL_GROUP_OBJ then str "group_obj"
  else if tag =? ACL_GROUP then str "group"
  else if tag =? ACL_MASK then str "mask"
  else if tag =? ACL_OTHER then str "other" else str "???".

Section Show.
Context `{!Messages, !UserDb} {K A E : Type} `{!LibAcl K A E, !AclRead A E}.

Definition get_acl (path : bytes) (type : Z) : M (proc K) (option A) :=
  syscall None (fun k => let '(r, k') := acl_get_file path type k in (match r with inl a => inl (Some a) | inr e => inr e end, k')).

(** ** acl_view.c *)

Definition view_usage {B} (progName : bytes) : M (proc K) B :=
  eprintf (str "Usage: " ++ progName ++ str " [-d] filename" ++ [NL]) ;; exit_ EXIT_FAILURE.

(** The qualifier of a user or a group: its name, or its number, printed as an int. *)
Definition show_qualifier (acl : A) (entry : E) (name_of : Z -> option bytes) : M (proc K) unit :=
  id ← need "acl_get_qualifier" (acl_get_qualifier acl entry);
  printf ((match name_of id with None => padded 8 (dec (s32 id)) | Some name => padded 8 name end) ++ str " ") ;;
  need "acl_free" (acl_free_qualifier acl entry).

Definition show_perm (acl : A) (entry : E) (what : string) (perm : Z) (c : ascii) : M (proc K) unit :=
  permVal ← need what (acl_get_perm acl entry perm);
  printf [if permVal =? 1 then c else "-"%char].

Definition show_entry (acl : A) (entry : E) : M (proc K) unit :=
  tag ← need "acl_get_tag_type" (acl_get_tag_type acl entry);
  printf (padded 12 (tag_name tag)) ;;
  (if tag =? ACL_USER then show_qualifier acl entry userNameFromId
   else if tag =? ACL_GROUP then show_qualifier acl entry groupNameFromId
   else printf (str "         ")) ;;
  need "acl_get_permset" (acl_get_permset acl entry) ;;
  show_perm acl entry "acl_get_perm - ACL_READ" ACL_READ "r" ;;
  show_perm acl entry "acl_get_perm - ACL_WRITE" ACL_WRITE "w" ;;
  show_perm acl entry "acl_get_perm - ACL_EXECUTE" ACL_EXECUTE "x" ;;
  printf [NL].

(** The walk over the entries, which ends at an error, too. *)
Definition each_entry (fuel : nat) (acl : A) (body : E -> M (proc K) unit) : M (proc K) unit :=
  loop fuel (fun n => match acl_get_entry acl n with
                      | inl (Some entry) => body entry ;; mret (inl (S n))
                      | _ => mret (inr tt)
                      end) O.

(** The options are "d" and "?". *)
Fixpoint view_type (progName : bytes) (opts : list ascii) (type : Z) : M (proc K) Z :=
  match opts with
  | [] => mret type
  | c :: opts' => if Ascii.eqb c "?" then view_usage progName else view_type progName opts' ACL_TYPE_DEFAULT
  end.

Definition acl_view_main (fuel : nat) (progName : bytes) (opts : list ascii) (operands : list bytes) : M (proc K) unit :=
  type ← view_type progName opts ACL_TYPE_ACCESS;
  match operands with
  | [file] =>
      r ← get_acl file type;
      match r with
      | None => errExit (str "acl_get_file")
      | Some acl =>
          each_entry fuel acl (show_entry acl) ;;
          need "acl_free" (acl_free acl) ;;
          exit_ EXIT_SUCCESS
      end
  | _ => view_usage progName
  end.

(** ** dispacl.c *)

Definition print_usage {B} : M (proc K) B :=
  eprintf (str "Usage:n $ ./prog_dispacl u <user> <file>" ++ [NL] ++ str " $ ./prog_dispacl g <group> <file>" ++ [NL]) ;;
  exit_ EXIT_FAILURE.

Definition disp_fail {B} (msg : bytes) : M (proc K) B := eprintf (msg ++ [NL]) ;; exit_ EXIT_FAILURE.

(** The globals it sets: the user, the group and the file. *)
Definition parse_arguments (argv : list bytes) : M (proc K) (option bytes * option bytes * bytes) :=
  match argv with
  | [_; kind; who; file] =>
      if decide (kind = str "u") then mret (Some who, None, file)
      else if decide (kind = str "g") then mret (None, Some who, file)
      else print_usage
  | _ => eprintf (str "Expected 3 arguments" ++ [NL]) ;; print_usage
  end.

Definition disp_entry (acl : A) (entry : E) : M (proc K) unit :=
  match acl_get_tag_type acl entry with
  | inl tag => printf (padded 12 (tag_name tag) ++ [NL])
  | inr e => set_errno e ;; disp_fail (str "Unexpected error on acl_get_tag_type")
  end.

Definition do_display_acl (fuel : nat) (file : bytes) : M (proc K) Z :=
  r ← get_acl file ACL_TYPE_ACCESS;
  match r with
  | None => disp_fail (str "Unable to open ACL for file " ++ file)
  | Some acl =>
      each_entry fuel acl (disp_entry acl) ;;
      match acl_free acl with
      | inl _ => mret 0
      | inr e => set_errno e ;; disp_fail (str "Unable to free ACL")
      end
  end.

Definition dispacl_main (fuel : nat) (argv : list bytes) : M (proc K) Z :=
  a ← parse_arguments argv; do_display_acl fuel a.2.
End Show.

(** ** What they print *)

(** Reading an ACL that was got does not fail. *)
Class ReadLaws (K A E : Type) `{!LibAcl K A E, !AclRead A E, !EqDecision E, !AclLaws K A E} := {
  entry_read : forall a n, acl_get_entry a n = inl (fst <$> items a !! n);
  tag_read : forall a e x, (e, x) ∈ items a -> acl_get_tag_type a e = inl (tag x);
  qual_read : forall a e x, (e, x) ∈ items a -> qualified (tag x) = true -> acl_get_qualifier a e = inl (qual x);
  permset_read : forall a e x, (e, x) ∈ items a -> acl_get_permset a e = inl tt;
  perm_read : forall a e x m, (e, x) ∈ items a ->
    acl_get_perm a e m = inl (if Z.land (perms x) m =? 0 then 0 else 1);
  qualifier_freed : forall a e x, (e, x) ∈ items a -> acl_free_qualifier a e = inl tt;
  freed : forall a, acl_free a = inl tt
}.

Lemma mjoin_singletons {B C} (f : B -> C) l : mjoin ((fun x => [f x]) <$> l) = f <$> l.
Proof. induction l as [|x l IH]; [done|]. csimpl. by rewrite IH. Qed.

Section Correct.
Context `{!Messages, !UserDb} {K A E : Type} `{!LibAcl K A E, !AclRead A E, !EqDecision E, !AclLaws K A E, !ReadLaws K A E}.
Implicit Types (p : proc K).

(** The column of the qualifier. *)
Definition qualifier_text (x : AccessControlEntry) : bytes :=
  let column name_of := (match name_of (qual x) with None => padded 8 (dec (s32 (qual x))) | Some s => padded 8 s end) ++ str " " in
  if tag x =? ACL_USER then column userNameFromId
  else if tag x =? ACL_GROUP then column groupNameFromId
  else str "         ".

Definition entry_text (x : AccessControlEntry) : list bytes :=
  let perm m c := [if Z.land (perms x) m =? 0 then "-"%char else c] in
  [padded 12 (tag_name (tag x)); qualifier_text x; perm ACL_READ "r"%char; perm ACL_WRITE "w"%char; perm ACL_EXECUTE "x"%char; [NL]].

(** A run that returns, prints [out] and touches nothing else. *)
Definition prints (m : M (proc K) unit) (out : list bytes) : Prop :=
  forall p, m p = (Ret tt, Proc (kern p) (errno p) (trace p ++ (Out <$> out))).

Lemma prints_printf s : prints (printf s) [s].
Proof. done. Qed.

Lemma prints_bind m m' out out' : prints m out -> prints m' out' -> prints (m ;; m') (out ++ out').
Proof. intros H1 H2 p. rewrite (bind_Ret _ _ _ _ _ (H1 p)), H2. by rewrite fmap_app, app_assoc. Qed.

Lemma prints_ret : prints (mret tt) [].
Proof. intros [k e t]. simpl. by rewrite app_nil_r. Qed.

Lemma prints_need {B} what (b : B) (m : B -> M (proc K) unit) out : prints (m b) out -> prints (x ← need what (inl b); m x) out.
Proof. intros H1 p. apply H1. Qed.

Lemma show_entry_prints a e x : (e, x) ∈ items a -> prints (show_entry a e) (entry_text x).
Proof.
  intros Hin. unfold show_entry. rewrite (tag_read _ _ _ Hin). apply prints_need.
  assert (forall name_of, qualified (tag x) = true -> prints (show_qualifier a e name_of)
    [(match name_of (qual x) with None => padded 8 (dec (s32 (qual x))) | Some s => padded 8 s end) ++ str " "]) as Hqual.
  { intros name_of Hq p. unfold show_qualifier. rewrite (qual_read _ _ _ Hin Hq), (qualifier_freed _ _ _ Hin). done. }
  assert (forall what m c, prints (show_perm a e what m c) [[if Z.land (perms x) m =? 0 then "-"%char else c]]) as Hperm.
  { intros what m c p. unfold show_perm. rewrite (perm_read _ _ _ _ Hin). by destruct (_ =? 0). }
  unfold entry_text. apply (prints_bind _ _ [_]); [apply prints_printf|]. apply (prints_bind _ _ [_]).
  { unfold qualifier_text. destruct (tag x =? ACL_USER) eqn:Eu; [apply Hqual; unfold qualified; by rewrite Eu|].
    destruct (tag x =? ACL_GROUP) eqn:Eg; [apply Hqual; unfold qualified; by rewrite Eg, orb_true_r|apply prints_printf]. }
  rewrite (permset_read _ _ _ Hin). apply (prints_bind _ _ []); [apply prints_ret|].
  repeat (apply (prints_bind _ _ [_]); [apply Hperm|]). apply prints_printf.
Qed.

Lemma each_entry_prints fuel a body (text : AccessControlEntry -> list bytes) :
  (length (items a) < fuel)%nat ->
  (forall e x, (e, x) ∈ items a -> prints (body e) (text x)) ->
  prints (each_entry fuel a body) (mjoin (text <$> (items a).*2)).
Proof.
  intros Hfuel Hbody. unfold each_entry.
  assert (forall fuel n, (length (items a) < n + fuel)%nat -> (n <= length (items a))%nat ->
    prints (loop fuel (fun n => match acl_get_entry a n with
      | inl (Some entry) => body entry ;; mret (inl (S n)) | _ => mret (inr tt) end) n)
      (mjoin (text <$> drop n (items a).*2))) as Hloop; [|by apply (Hloop fuel O); [lia|lia]].
  clear fuel Hfuel. induction fuel as [|fuel IH]; intros n Hn Hle p; [lia|]. rewrite loop_S, entry_read.
  destruct (items a !! n) as [[e x]|] eqn:Ei.
  - cbn [fmap option_fmap option_map fst].
    assert ((items a).*2 !! n = Some x) as E2 by (by rewrite list_lookup_fmap, Ei).
    rewrite (drop_S _ _ _ E2). cbn [fmap list_fmap mjoin list_join].
    assert (prints (body e) (text x)) as Hb by (apply Hbody; by eapply list_elem_of_lookup_2).
    rewrite (bind_Ret _ _ _ (inl (S n)) (Proc (kern p) (errno p) (trace p ++ (Out <$> text x)))).
    + rewrite IH; [|lia|apply lookup_lt_Some in Ei; lia]. cbn [kern errno trace]. by rewrite fmap_app, app_assoc.
    + by rewrite (bind_Ret _ _ _ _ _ (Hb p)).
  - apply lookup_ge_None in Ei. rewrite drop_ge by (by rewrite length_fmap). apply prints_ret.
Qed.

(** acl_view prints a line for every entry of the file's access ACL, or of its default ACL with
    the option, in order, and ends with status 0; or it is stopped because there is no ACL to
    get. *)
Theorem acl_view_prints fuel progName (default_acl : bool) file p :
  (length (file_acl (kern p) file (if default_acl then ACL_TYPE_DEFAULT else ACL_TYPE_ACCESS)) < fuel)%nat ->
  exists o p', acl_view_main fuel progName (if default_acl then ["d"%char] else []) [file] p = (o, p') /\
    (o = Exit EXIT_SUCCESS /\
       trace p' = trace p ++ (Out <$> mjoin (entry_text <$> file_acl (kern p) file (if default_acl then ACL_TYPE_DEFAULT else ACL_TYPE_ACCESS))) \/
     stopped o).
Proof.
  set (type := if default_acl then ACL_TYPE_DEFAULT else ACL_TYPE_ACCESS). intros Hfuel.
  apply wp_elim. unfold acl_view_main. apply wp_bind.
  apply (wp_intro _ _ (Ret type) p); [by destruct default_acl|]. apply wp_bind, wp_syscall.
  pose proof (get_file_law (kern p) file type) as Hget.
  destruct (acl_get_file file type (kern p)) as [[a|e] k']; [|apply wp_errExit; auto].
  destruct Hget as (Hitems & _ & _). rewrite <- Hitems in Hfuel |- *. rewrite length_fmap in Hfuel.
  apply wp_bind. eapply wp_intro.
  { apply (each_entry_prints fuel a (show_entry a) entry_text Hfuel). intros e x. apply show_entry_prints. }
  rewrite freed. apply wp_bind, wp_ret. left. split; [done|]. done.
Qed.

(** dispacl prints the tags of all entries; whose entry was asked for makes no difference. *)
Lemma dispacl_prints_tags fuel prog who file p :
  (length (file_acl (kern p) file ACL_TYPE_ACCESS) < fuel)%nat ->
  (forall e k', acl_get_file file ACL_TYPE_ACCESS (kern p) <> (inr e, k')) ->
  exists p', dispacl_main fuel [prog; str "u"; who; file] p = (Ret 0, p') /\
    trace p' = trace p ++ (Out <$> ((fun x => padded 12 (tag_name (tag x)) ++ [NL]) <$> file_acl (kern p) file ACL_TYPE_ACCESS)).
Proof.
  intros Hfuel Hgot. unfold dispacl_main. rewrite (bind_Ret _ _ _ (Some who, None, file) p) by done. cbn [snd].
  pose proof (get_file_law (kern p) file ACL_TYPE_ACCESS) as Hget. unfold do_display_acl.
  destruct (acl_get_file file ACL_TYPE_ACCESS (kern p)) as [[a|e] k'] eqn:Eg; [|by destruct (Hgot e k')].
  destruct Hget as (Hitems & _ & _). rewrite <- Hitems in Hfuel |- *. rewrite length_fmap in Hfuel.
  rewrite (bind_Ret _ _ _ (Some a) (Proc k' (errno p) (trace p))) by (unfold get_acl, syscall; by rewrite Eg).
  rewrite (bind_Ret _ _ _ _ _ (each_entry_prints fuel a (disp_entry a) (fun x => [padded 12 (tag_name (tag x)) ++ [NL]]) Hfuel
    (fun e x Hin p0 => ltac:(unfold disp_entry; by rewrite (tag_read _ _ _ Hin))) (Proc k' (errno p) (trace p)))).
  rewrite freed. eexists. split; [done|]. cbn [trace]. by rewrite mjoin_singletons.
Qed.
End Correct.

(** ** The ACLs in memory of Acl.v *)

#[export] Instance list_acl_read : AclRead acl_val nat := {|
  acl_get_permset := fun _ _ => inl tt;
  acl_get_perm := fun a e m =>
    match list_find (fun p => p.1 = e) (av_items a) with
    | Some (_, p) => inl (if Z.land (perms p.2) m =? 0 then 0 else 1) | None => inr EINVAL end;
  acl_free_qualifier := fun _ _ => inl tt;
  acl_free := fun _ => inl tt
|}.

#[export] Program Instance list_acl_read_laws : ReadLaws acl_files acl_val nat.
Next Obligation. done. Qed.
Next Obligation. intros a e x Hin. simpl. by destruct (find_item a e x Hin) as [i ->]. Qed.
Next Obligation. intros a e x Hin _. simpl. by destruct (find_item a e x Hin) as [i ->]. Qed.
Next Obligation. done. Qed.
Next Obligation. intros a e x m Hin. simpl. by destruct (find_item a e x Hin) as [i ->]. Qed.
Next Obligation. done. Qed.
Next Obligation. done. Qed.

#[local] Instance no_messages : Messages := Build_Messages (fun _ => []) 0 (fun _ => []) None.
#[local] Instance one_user : UserDb :=
  Build_UserDb (fun u => if u =? 1000 then Some (Passwd (str "pat") 1000 100 [] []) else None)
    (fun _ => None) (fun _ => None) (fun _ => None).

Definition one_file : proc acl_files := Proc {[ (str "f", ACL_TYPE_ACCESS) := some_acl ]} 0 [].

Lemma acl_view_prints_witness :
  exists p', acl_view_main 4 (str "acl_view") [] [str "f"] one_file = (Exit EXIT_SUCCESS, p') /\
    trace p' = Out <$> [str "user_obj    "; str "         "; str "r"; str "w"; str "-"; [NL];
                        str "user        "; str "pat      "; str "r"; str "w"; str "x"; [NL];
                        str "other       "; str "         "; str "r"; str "-"; str "-"; [NL]].
Proof.
  destruct (acl_view_prints 4 (str "acl_view") false (str "f") one_file) as (o & p' & E & [[-> Ht]|Hs]); [by_decide| |].
  - exists p'. split; [exact E|]. rewrite Ht. vm_compute. reflexivity.
  - exfalso. apply (f_equal fst) in E. vm_compute in E. subst o. by destruct Hs as [[=]|[=]].
Defined.
