(* ===== verification/Exec.v ===== *)
(** * Running programs

    execlp.c (tlpi-dist/procexec).  The kernel's execve and the allocations are a class; a
    successful execve does not return, so a function that may call it gives either the program
    image that replaces the process or its result. *)

From Stdlib Require Import ZArith Lia String Ascii.
From S2P Require Import Prelude CString Kernel.

(** A program image: path, argument vector up to its null pointer, environment. *)
Inductive image := Image (path : bytes) (argv envp : list bytes).

Class Exec (K : Type) := {
  k_execve : bytes -> list bytes -> list bytes -> K -> option Z * K;   (* None: the image is replaced *)
  k_alloc : K -> bool * K                                              (* whether memory is given *)
}.

(** ** execlp *)

Section Execlp.
Context {K : Type} `{!Exec K}.

Definition alloc : M (proc K) bool := fun p =>
  let '(b, k') := k_alloc (kern p) in (Ret b, Proc k' (if b then errno p else ENOMEM) (trace p)).

(** An allocation whose result is used unchecked. *)
Definition alloc_unchecked : M (proc K) unit := ok ← alloc; if ok : bool then mret tt else undef_.

(** [inl] when the call does not return. *)
Definition execve (path : bytes) (argv envp : list bytes) : M (proc K) (image + unit) := fun p =>
  match k_execve path argv envp (kern p) with
  | (None, k') => (Ret (inl (Image path argv envp)), Proc k' (errno p) (trace p))
  | (Some e, k') => (Ret (inr tt), Proc k' e (trace p))
  end.

(** An argument vector in memory: the pointers stored so far, the last of them null ([None]) when
    it is complete. *)
Definition SHELL_PATH : bytes := str "/bin/sh".

Definition strings (argv : list (option bytes)) : list bytes := omap id argv.

(** [execShScript]: [shArgv] has [argc + 1] elements; the loop stores [argv[j]] at [j + 1]. *)
Fixpoint sh_argv (js : list nat) (argc : nat) (argv : list (option bytes)) (shArgv : list (option bytes))
    : M (proc K) (list (option bytes)) :=
  match js with
  | [] => mret shArgv
  | j :: js' =>
      if (Datatypes.S j <? argc + 1)%nat
      then sh_argv js' argc argv (shArgv ++ [default None (argv !! j)])
      else undef_
  end.

Definition execShScript (argc : nat) (argv : list (option bytes)) (envp : list bytes) : M (proc K) (image + unit) :=
  shArgv ← sh_argv (seq 0 (argc + 1)) argc argv [Some SHELL_PATH];
  execve SHELL_PATH (strings shArgv) envp.

(** The loop over the variable arguments.  [cap] is how many pointers the block really has room
    for: [realloc] is given the size of one pointer. *)
Fixpoint build_argv (rest : list bytes) (argv : list (option bytes)) (argvSize cap : nat)
    : M (proc K) (option (list (option bytes))) :=
  let argc := length argv in
  if (argc <=? cap)%nat then
    match last argv with
    | Some None | None => mret (Some argv)
    | Some (Some _) =>
        let resize := (argvSize <=? argc + 1)%nat in
        ok ← (if resize then alloc else mret true);
        if negb ok then mret None
        else
          let argvSize' := if resize then (argvSize + 100)%nat else argvSize in
          let cap' := if resize then 1%nat else cap in
          if (argc <? cap')%nat then
            match rest with
            | [] => mret (Some (argv ++ [None]))
            | a :: rest' => build_argv rest' (argv ++ [Some a]) argvSize' cap'
            end
          else undef_
    end
  else undef_.

(** A failed [strdup] leaves a null pointer, where the copy of the environment then ends. *)
Fixpoint dup_environ (environ : list bytes) : M (proc K) (list bytes) :=
  match environ with
  | [] => mret []
  | e :: environ' => ok ← alloc; r ← dup_environ environ'; mret (if ok : bool then e :: r else [])
  end.

(** The loop over the prefixes of PATH; its result is the last error and whether EACCES was seen. *)
Fixpoint try_prefixes (fuel : nat) (prStart filename : bytes) (argv : list (option bytes)) (envp : list bytes)
    (fndEACCES : bool) : M (proc K) (image + (Z * bool)) :=
  match fuel with
  | O => fun s => (NoFuel, s)
  | Datatypes.S fuel' =>
      let prEnd := match strchr prStart ":" with Some i => i | None => length prStart end in
      let prefix := take prEnd prStart in
      alloc_unchecked ;;
      let pathname := (match prefix with [] => str "." | _ => prefix end) ++ str "/" ++ filename in
      r ← execve pathname (strings argv) envp;
      match r with
      | inl i => mret (inl i)
      | inr _ =>
          savedErrno ← get_errno;
          r' ← (if negb (savedErrno =? EACCES) && (savedErrno =? ENOEXEC)
                then execShScript (length argv) argv envp else mret (inr tt));
          let fnd := fndEACCES || (savedErrno =? EACCES) in
          match r' with
          | inl i => mret (inl i)
          | inr _ =>
              if (prEnd <? length prStart)%nat
              then try_prefixes fuel' (drop (Datatypes.S prEnd) prStart) filename argv envp fnd
              else mret (inr (savedErrno, fnd))
          end
      end
  end.

(** Either the file itself, or the search in PATH. *)
Definition try_file (filename : bytes) (argv : list (option bytes)) (envp : list bytes) (path_var : option bytes)
    : M (proc K) (image + (Z * bool)) :=
  alloc_unchecked ;;
  match strchr filename "/" with
  | Some _ =>
      r ← execve filename (strings argv) envp;
      match r with
      | inl i => mret (inl i)
      | inr _ =>
          savedErrno ← get_errno;
          r' ← (if savedErrno =? ENOEXEC then execShScript (length argv) argv envp else mret (inr tt));
          mret (match r' with inl i => inl i | inr _ => inr (savedErrno, false) end)
      end
  | None =>
      let PATH := match path_var with None | Some [] => str "." | Some p => p end in
      try_prefixes (Datatypes.S (length PATH)) PATH filename argv envp false
  end.

Definition execlp (filename : bytes) (args : list bytes) (environ : list bytes) (path_var : option bytes)
    : M (proc K) (image + Z) :=
  ok ← alloc;
  if negb ok then mret (inr (-1))
  else
    r ← build_argv (drop 1 args) [args !! 0%nat] 100 100;
    match r with
    | None => mret (inr (-1))
    | Some argv =>
        ok ← alloc;
        if negb ok then mret (inr (-1))
        else
          envp ← dup_environ environ;
          res ← try_file filename argv envp path_var;
          match res with
          | inl i => mret (inl i)
          | inr (savedErrno, fndEACCES) =>
              set_errno (if fndEACCES : bool then EACCES else savedErrno) ;; mret (inr (-1))
          end
    end.
End Execlp.

(** *** What it does *)

Class ExecLaws (K : Type) `{!Exec K} := {
  exec_answer : K -> bytes -> option Z;
  k_alloc_ok : forall k, (k_alloc k).1 = true /\ exec_answer (k_alloc k).2 = exec_answer k;
  k_execve_ok : forall path argv envp k, (k_execve path argv envp k).1 = exec_answer k path /\
    exec_answer (k_execve path argv envp k).2 = exec_answer k
}.

(** The prefixes of a PATH. *)
Fixpoint split_colon (s : bytes) : list bytes :=
  match s with
  | [] => [[]]
  | c :: s' =>
      if Ascii.eqb c ":" then [] :: split_colon s'
      else match split_colon s' with p :: ps => (c :: p) :: ps | [] => [[c]] end
  end.

Definition candidate (filename prefix : bytes) : bytes :=
  (match prefix with [] => str "." | _ => prefix end) ++ str "/" ++ filename.

(** The result of trying paths in turn: the first that can be executed, else the error to report. *)
Fixpoint search (answer : bytes -> option Z) (fnd : bool) (paths : list bytes) : bytes + (Z * bool) :=
  match paths with
  | [] => inr (0, fnd)
  | [p] => match answer p with None => inl p | Some e => inr (e, fnd || (e =? EACCES)) end
  | p :: ps => match answer p with None => inl p | Some e => search answer (fnd || (e =? EACCES)) ps end
  end.

Section ExeclpCorrect.
Context {K : Type} `{!Exec K, !ExecLaws K}.
Implicit Types (p : proc K).

(** A run that returns [r], prints nothing, and leaves what execve answers as it was. *)
Definition returns {A} (m : M (proc K) A) (p : proc K) (r : A) (Q : proc K -> Prop) : Prop :=
  exists p', m p = (Ret r, p') /\ exec_answer (kern p') = exec_answer (kern p) /\ trace p' = trace p /\ Q p'.

Lemma returns_ret {A} (a : A) p : returns (mret a) p a (fun p' => p' = p).
Proof. by exists p. Qed.

Lemma returns_bind {A B} (m : M (proc K) A) (k : A -> M (proc K) B) p a b (Q Q' : proc K -> Prop) :
  returns m p a Q -> (forall p', Q p' -> exec_answer (kern p') = exec_answer (kern p) -> trace p' = trace p ->
    returns (k a) p' b Q') -> returns (m ≫= k) p b Q'.
Proof.
  intros (p1 & E1 & A1 & T1 & H1) Hk. destruct (Hk p1 H1 A1 T1) as (p2 & E2 & A2 & T2 & H2).
  exists p2. rewrite (bind_Ret _ _ _ _ _ E1). split_and!; [done|congruence|congruence|done].
Qed.

Lemma returns_alloc p : returns alloc p true (fun p' => errno p' = errno p).
Proof.
  unfold returns, alloc. destruct (k_alloc_ok (kern p)) as [H1 H2]. destruct (k_alloc (kern p)) as [b k'].
  simpl in *. subst b. by eexists.
Qed.

Lemma returns_alloc_unchecked p : returns alloc_unchecked p tt (fun p' => errno p' = errno p).
Proof.
  eapply returns_bind; [apply returns_alloc|]. intros p' He _ _. exists p'. by rewrite He.
Qed.

Lemma returns_execve path argv envp p :
  returns (execve path argv envp) p
    (match exec_answer (kern p) path with None => inl (Image path argv envp) | Some _ => inr tt end)
    (fun p' => forall e, exec_answer (kern p) path = Some e -> errno p' = e).
Proof.
  unfold returns, execve. destruct (k_execve_ok path argv envp (kern p)) as [H1 H2].
  destruct (k_execve path argv envp (kern p)) as [[e|] k']; simpl in *; rewrite <- H1;
    eexists; (split; [done|]); split_and!; try done; by intros ? [= <-].
Qed.

Lemma sh_argv_overflows js argc argv sh p :
  argc ∈ js -> exists p', sh_argv js argc argv sh p = (Undef, p').
Proof.
  revert sh p. induction js as [|j js IH]; intros sh p Hin; [by apply elem_of_nil in Hin|]. simpl.
  destruct (Nat.ltb_spec (S j) (argc + 1)); [|by eexists]. apply IH.
  apply elem_of_cons in Hin as [->|]; [lia|done].
Qed.

(** [execShScript] always stores past the end of its array. *)
Lemma execShScript_undefined argc argv envp p : exists p', execShScript argc argv envp p = (Undef, p').
Proof.
  destruct (sh_argv_overflows (seq 0 (argc + 1)) argc argv [Some SHELL_PATH] p) as [p' E].
  { apply elem_of_seq. lia. }
  exists p'. unfold execShScript. by rewrite (bind_Undef _ _ _ _ E).
Qed.

Lemma build_argv_ok pre rest p :
  pre <> [] -> (length pre + length rest <= 98)%nat ->
  build_argv rest (Some <$> pre) 100 100 p = (Ret (Some ((Some <$> pre ++ rest) ++ [None])), p).
Proof.
  revert pre. induction rest as [|a rest IH]; intros pre Hne Hl; cbn [build_argv length] in *.
  all: rewrite length_fmap, (proj2 (Nat.leb_le _ _)) by lia.
  all: assert (exists x, last (Some <$> pre) = Some (Some x)) as [x ->]
    by (destruct (exists_last Hne) as (pre' & x & ->); exists x; rewrite fmap_app; apply last_snoc).
  all: rewrite (proj2 (Nat.leb_gt 100 _)) by lia; rewrite (bind_Ret _ _ _ true p) by done; cbn [negb].
  all: rewrite (proj2 (Nat.ltb_lt _ _)) by lia.
  - by rewrite app_nil_r.
  - pose proof (IH (pre ++ [a])) as IH'. rewrite fmap_app in IH'. simpl fmap in IH'.
    rewrite IH', <- app_assoc; [done|by destruct pre|rewrite length_app; simpl; lia].
Qed.

Lemma returns_build_argv pre rest p :
  pre <> [] -> (length pre + length rest <= 98)%nat ->
  returns (build_argv rest (Some <$> pre) 100 100) p (Some ((Some <$> pre ++ rest) ++ [None])) (fun p' => p' = p).
Proof. intros. exists p. by rewrite build_argv_ok. Qed.

Lemma returns_get_errno p : returns get_errno p (errno p) (fun p' => p' = p).
Proof. by exists p. Qed.

Lemma strings_argv (args : list bytes) : strings ((Some <$> args) ++ [None]) = args.
Proof. unfold strings. induction args as [|a args IH]; [done|]. simpl. by f_equal. Qed.

Lemma returns_dup_environ env p : returns (dup_environ env) p env (fun _ => True).
Proof.
  revert p. induction env as [|e env IH]; intros p; [by exists p|].
  eapply returns_bind; [apply returns_alloc|]. intros p1 _ _ _.
  eapply returns_bind; [apply IH|]. intros p2 _ _ _. by exists p2.
Qed.

Lemma split_colon_here s i : strchr s ":" = Some i -> split_colon s = take i s :: split_colon (drop (S i) s).
Proof.
  rewrite strchr_index by done. revert i. induction s as [|c s IH]; intros i; [done|]. simpl.
  destruct (Ascii.eqb c ":"); [by intros [= <-]|].
  destruct (index_of ":" s) as [j|] eqn:E; [|done]. intros [= <-]. simpl. by rewrite (IH j eq_refl).
Qed.

Lemma split_colon_none s : strchr s ":" = None -> split_colon s = [s].
Proof.
  rewrite strchr_index by done. induction s as [|c s IH]; [done|]. simpl.
  destruct (Ascii.eqb c ":"); [done|]. destruct (index_of ":" s); [done|]. intros _. by rewrite IH.
Qed.

Lemma search_cons answer fnd q qs :
  qs <> [] ->
  search answer fnd (q :: qs)
  = match answer q with None => inl q | Some e => search answer (fnd || (e =? EACCES)) qs end.
Proof. by destruct qs. Qed.

Lemma split_colon_nonempty s : split_colon s <> [].
Proof. destruct s as [|c s]; [done|]. simpl. destruct (Ascii.eqb c ":"); [done|]. by destruct (split_colon s). Qed.

Lemma try_prefixes_ok fuel s filename argv envp fnd p :
  (length s < fuel)%nat ->
  Forall (fun c => exec_answer (kern p) c <> Some ENOEXEC) (candidate filename <$> split_colon s) ->
  returns (try_prefixes fuel s filename argv envp fnd) p
    (match search (exec_answer (kern p)) fnd (candidate filename <$> split_colon s) with
     | inl c => inl (Image c (strings argv) envp) | inr x => inr x end) (fun _ => True).
Proof.
  revert s fnd p. induction fuel as [|fuel IH]; intros s fnd p Hf Hne; [lia|]. cbn [try_prefixes].
  set (prEnd := match strchr s ":" with Some i => i | None => length s end).
  set (rest := match strchr s ":" with Some i => split_colon (drop (S i) s) | None => [] end).
  assert (split_colon s = take prEnd s :: rest) as Hsplit.
  { unfold prEnd, rest. destruct (strchr s ":") eqn:E; [by apply split_colon_here|].
    rewrite split_colon_none, take_ge by done. done. }
  assert (if (prEnd <? length s)%nat then rest = split_colon (drop (S prEnd) s) else rest = []) as Hrest.
  { unfold prEnd, rest. destruct (strchr s ":") as [i|] eqn:E; [|by rewrite Nat.ltb_irrefl].
    rewrite strchr_index in E by done. apply index_of_Some in E as [E _]. apply lookup_lt_Some in E.
    by rewrite (proj2 (Nat.ltb_lt _ _)). }
  rewrite Hsplit in Hne |- *. cbn [fmap list_fmap] in Hne |- *. fold (candidate filename (take prEnd s)).
  apply Forall_cons in Hne as [Hc Hne].
  eapply returns_bind; [apply returns_alloc_unchecked|]. intros p1 _ A1 T1.
  eapply returns_bind; [apply returns_execve|]. intros p2 He A2 T2. rewrite A1 in He |- *.
  destruct (exec_answer (kern p) (candidate filename (take prEnd s))) as [e|] eqn:Ea.
  2: { destruct (candidate filename <$> rest) eqn:Ec; simpl; rewrite Ea; by exists p2. }
  specialize (He e eq_refl).
  eapply returns_bind; [apply returns_get_errno|].
  intros p3 -> _ _. rewrite He.
  assert ((e =? ENOEXEC) = false) as -> by (apply Z.eqb_neq; congruence). rewrite andb_false_r.
  eapply returns_bind; [apply returns_ret|]. intros p4 -> _ _.
  destruct (Nat.ltb_spec prEnd (length s)) as [Hlt|_].
  - rewrite Hrest. rewrite search_cons, Ea by (intros E; apply fmap_nil_inv in E; by apply (split_colon_nonempty (drop (S prEnd) s))).
    assert (exec_answer (kern p2) = exec_answer (kern p)) as A by congruence. rewrite <- A.
    apply IH; [rewrite length_drop; lia|]. by rewrite A, <- Hrest.
  - rewrite Hrest. simpl. rewrite Ea. by exists p2.
Qed.

(** The files that are tried. *)
Definition paths_tried (filename : bytes) (path_var : option bytes) : list bytes :=
  match strchr filename "/" with
  | Some _ => [filename]
  | None => candidate filename <$> split_colon (match path_var with None | Some [] => str "." | Some s => s end)
  end.

(** The end of execlp: its result, and what [errno] is when no file could be executed. *)
Definition code (x : Z * bool) : Z := let '(e, denied) := x in if denied then EACCES else e.
Definition outcome (args environ : list bytes) (r : bytes + (Z * bool)) : image + Z :=
  match r with inl c => inl (Image c args environ) | inr _ => inr (-1) end.
Definition found (args environ : list bytes) (r : bytes + (Z * bool)) (res : image + (Z * bool)) : Prop :=
  match r, res with
  | inl c, inl i => i = Image c args environ
  | inr x, inr x' => code x' = code x
  | _, _ => False
  end.

Lemma returns_finish args environ r res p :
  found args environ r res ->
  returns (match res with
           | inl i => mret (inl i)
           | inr (savedErrno, fndEACCES) => set_errno (if fndEACCES : bool then EACCES else savedErrno) ;; mret (inr (-1))
           end) p (outcome args environ r) (fun p' => forall x, r = inr x -> errno p' = code x).
Proof.
  intros Hres. destruct r as [c|[e d]], res as [i|[e' d']]; try done; cbn [found outcome] in *.
  - subst i. by exists p.
  - eexists. split; [reflexivity|]. split_and!; try done. cbn [errno]. intros x [= <-]. by rewrite <- Hres.
Qed.

Lemma try_file_ok filename args environ path_var p :
  Forall (fun c => exec_answer (kern p) c <> Some ENOEXEC) (paths_tried filename path_var) ->
  exists res, found args environ (search (exec_answer (kern p)) false (paths_tried filename path_var)) res /\
    returns (try_file filename ((Some <$> args) ++ [None]) environ path_var) p res (fun _ => True).
Proof.
  unfold paths_tried, try_file. intros Hall. destruct (strchr filename "/").
  - simpl in Hall. inversion_clear Hall as [|? ? Hx _]. 
    exists (match exec_answer (kern p) filename with None => inl (Image filename args environ) | Some e => inr (e, false) end).
    split; [cbn [search]; destruct (exec_answer (kern p) filename) as [e|]; [|done]; cbn; destruct (Z.eqb_spec e EACCES); congruence|].
    eapply returns_bind; [apply returns_alloc_unchecked|]. intros p5 _ A5 T5.
    eapply returns_bind; [apply returns_execve|]. intros p6 He6 A6 T6. rewrite A5 in He6 |- *. rewrite strings_argv.
    destruct (exec_answer (kern p) filename) as [e|] eqn:Ea; [|exists p6; split_and!; done || congruence].
    specialize (He6 e eq_refl). eapply returns_bind; [apply returns_get_errno|]. intros p7 -> _ _. rewrite He6.
    assert ((e =? ENOEXEC) = false) as -> by (apply Z.eqb_neq; congruence).
    eapply returns_bind; [apply returns_ret|]. intros p8 -> _ _. exists p6. split_and!; done || congruence.
  - set (PATH := match path_var with None | Some [] => str "." | Some s => s end) in *.
    exists (match search (exec_answer (kern p)) false (candidate filename <$> split_colon PATH) with
            | inl c => inl (Image c args environ) | inr x => inr x end).
    split; [by destruct (search _ _ _)|].
    eapply returns_bind; [apply returns_alloc_unchecked|]. intros p5 _ A5 T5. rewrite <- A5 in Hall |- *.
    destruct (try_prefixes_ok (S (length PATH)) PATH filename ((Some <$> args) ++ [None]) environ false p5) as (p6 & E6 & A6 & T6 & _);
      [lia|done|].
    exists p6. rewrite E6, strings_argv. split_and!; done || congruence.
Qed.

(** C32: execlp, for fewer than 99 arguments and when memory is given.  A file name without a slash
    is looked for under the prefixes of PATH in turn ("." for an empty prefix, and for a PATH that
    is empty or not set); the first that can be executed replaces the process, with the caller's
    arguments and environment; when there is none, the result is -1 and [errno] is EACCES if any
    attempt gave that, else the last error.  A file name with a slash is the only one tried.  No
    file tried may be a script (ENOEXEC): see [execShScript_undefined]. *)
Theorem execlp_searches filename args environ path_var p :
  args <> [] -> (length args <= 98)%nat ->
  let paths := paths_tried filename path_var in
  Forall (fun c => exec_answer (kern p) c <> Some ENOEXEC) paths ->
  exists p', trace p' = trace p /\
    match search (exec_answer (kern p)) false paths with
    | inl c => execlp filename args environ path_var p = (Ret (inl (Image c args environ)), p')
    | inr (e, denied) => execlp filename args environ path_var p = (Ret (inr (-1)), p') /\
                         errno p' = if denied : bool then EACCES else e
    end.
Proof.
  intros Hne Hlen paths Hall.
  assert (returns (execlp filename args environ path_var) p (outcome args environ (search (exec_answer (kern p)) false paths))
    (fun p' => forall x, search (exec_answer (kern p)) false paths = inr x -> errno p' = code x)) as (p' & E & _ & T & He).
  2: { exists p'. split; [done|]. destruct (search _ _ paths) as [c|[e denied]]; [done|]. split; [done|]. exact (He _ eq_refl). }
  unfold execlp. eapply returns_bind; [apply returns_alloc|]. intros p1 _ A1 T1. cbn [negb].
  destruct args as [|a args]; [done|]. change ([(a :: args) !! 0%nat]) with (Some <$> [a]). cbn [drop].
  eapply returns_bind; [apply (returns_build_argv [a] args); [done|simpl in *; lia]|].
  intros p2 -> _ _. eapply returns_bind; [apply returns_alloc|]. intros p3 _ A3 T3. cbn [negb].
  eapply returns_bind; [apply returns_dup_environ|]. intros p4 _ A4 T4.
  assert (exec_answer (kern p4) = exec_answer (kern p)) as A by congruence. rewrite <- A in Hall |- *.
  destruct (try_file_ok filename (a :: args) environ path_var p4 Hall) as (res & Hf & Hr).
  eapply returns_bind; [exact Hr|]. intros p5 _ A5 T5. by apply returns_finish.
Qed.
End ExeclpCorrect.

(** *** Kernels that can do it *)

(** A kernel as the list of what execve answers for some files, and for all others. *)
Record programs := Programs { known : list (bytes * option Z); otherwise : Z }.

Definition programs_answer (k : programs) (path : bytes) : option Z :=
  match List.find (fun '(q, _) => bool_decide (q = path)) (known k) with
  | Some (_, r) => r
  | None => Some (otherwise k)
  end.

#[export] Instance programs_exec : Exec programs := {|
  k_execve := fun path _ _ k => (programs_answer k path, k);
  k_alloc := fun k => (true, k)
|}.

#[export] Program Instance programs_laws : ExecLaws programs := {| exec_answer := programs_answer |}.
Solve All Obligations with done.

Definition two_dirs : programs := Programs [(str "/bin/ls", None); (str "/root/ls", Some EACCES)] ENOENT.

Lemma execlp_searches_witness :
  exists p', trace p' = [] /\
    execlp (str "ls") [str "ls"; str "-l"] [str "A=1"] (Some (str "/root:/bin")) (Proc two_dirs 0 [])
    = (Ret (inl (Image (str "/bin/ls") [str "ls"; str "-l"] [str "A=1"])), p').
Proof.
  refine (execlp_searches (str "ls") [str "ls"; str "-l"] [str "A=1"] (Some (str "/root:/bin"))
            (Proc two_dirs 0 []) _ _ _); [discriminate|vm_compute; lia|].
  repeat (constructor; [vm_compute; discriminate|]). constructor.
Defined.
