(* ===== verification/System.v ===== *)
(** * system

    system.c and simple_system.c (tlpi-dist/procexec).  The kernel of a process is a pair: what the
    class [Processes] works on, and the signal state, the blocked signals and the dispositions,
    which is modelled here.  [fork] gives the child a copy of the signal state; what the child does
    with it is [system_child]. *)

From Stdlib Require Import ZArith Lia String Ascii.
From stdpp Require Import gmap sets.
From S2P Require Import Prelude CString Kernel.

Definition SIGINT : Z := 2.
Definition SIGQUIT : Z := 3.
Definition SIGCHLD : Z := 17.

Inductive handler := SIG_DFL | SIG_IGN | Handler (address : Z).
Record disposition := Sigaction { sa_handler : handler; sa_flags : Z; sa_mask : gset Z }.

Record sigstate := Sigstate { blocked : gset Z; actions : gmap Z disposition }.

(** The disposition of a signal; one that was never set is the default. *)
Definition action (st : sigstate) (sig : Z) : disposition :=
  default (Sigaction SIG_DFL 0 ∅) (actions st !! sig).

Inductive how := SIG_BLOCK | SIG_SETMASK.

Class Processes (K : Type) := {
  k_fork : K -> (Z + Z) * K;                 (* in the parent: the child's process ID *)
  k_waitpid : Z -> K -> (Z + Z) * K;         (* the status *)
  k_exec_sh : list bytes -> K -> option Z * K
}.

Section System.
Context {K : Type} `{!Processes K}.
Abbreviation P := (proc (K * sigstate)).

Definition lift {A} (f : K -> (A + Z) * K) (ks : K * sigstate) : (A + Z) * (K * sigstate) :=
  let '(r, k') := f ks.1 in (r, (k', ks.2)).

Definition sigprocmask (h : how) (set : gset Z) : M P (gset Z) := fun p =>
  let '(k, st) := kern p in
  let new := match h with SIG_BLOCK => set ∪ blocked st | SIG_SETMASK => set end in
  (Ret (blocked st), Proc (k, Sigstate new (actions st)) (errno p) (trace p)).

Definition sigaction (sig : Z) (act : disposition) : M P disposition := fun p =>
  let '(k, st) := kern p in
  (Ret (action st sig), Proc (k, Sigstate (blocked st) (<[sig := act]> (actions st))) (errno p) (trace p)).

Definition fork : M P Z := syscall (-1) (lift k_fork).
(** The result, and the status it stores. *)
Definition waitpid (pid : Z) : M P (option Z) :=
  syscall None (lift (fun k => let '(r, k') := k_waitpid pid k in (match r with inl s => inl (Some s) | inr e => inr e end, k'))).

Definition sh_args (command : bytes) : list bytes := [str "sh"; str "-c"; command].

(** [inl] the argument vector of the shell that replaces the process. *)
Definition execl_sh (command : bytes) : M P (list bytes + unit) := fun p =>
  let '(k, st) := kern p in
  match k_exec_sh (sh_args command) k with
  | (None, k') => (Ret (inl (sh_args command)), Proc (k', st) (errno p) (trace p))
  | (Some e, k') => (Ret (inr tt), Proc (k', st) e (trace p))
  end.

(** ** system.c *)

(** What [system] does before it forks: the original mask and dispositions. *)
Definition system_setup : M P (gset Z * disposition * disposition) :=
  origMask ← sigprocmask SIG_BLOCK {[SIGCHLD]};
  let saIgnore := Sigaction SIG_IGN 0 ∅ in
  saOrigInt ← sigaction SIGINT saIgnore;
  saOrigQuit ← sigaction SIGQUIT saIgnore;
  mret (origMask, saOrigInt, saOrigQuit).

Definition ignored (a : disposition) : bool := match sa_handler a with SIG_IGN => true | _ => false end.

(** The child: the shell it becomes, or it ends with 127. *)
Definition system_child (command : bytes) (orig : gset Z * disposition * disposition) : M P (list bytes) :=
  let '(origMask, saOrigInt, saOrigQuit) := orig in
  let saDefault := Sigaction SIG_DFL 0 ∅ in
  (if negb (ignored saOrigInt) then sigaction SIGINT saDefault ;; mret tt else mret tt) ;;
  (if negb (ignored saOrigQuit) then sigaction SIGQUIT saDefault ;; mret tt else mret tt) ;;
  sigprocmask SIG_SETMASK origMask ;;
  r ← execl_sh command;
  match r with inl i => mret i | inr _ => exit_ 127 end.

(** The parent's loop. *)
Definition wait_child (fuel : nat) (childPid : Z) : M P Z :=
  loop fuel (fun _ : unit =>
    r ← waitpid childPid;
    match r with
    | Some status => mret (inr status)
    | None => e ← get_errno; if negb (e =? EINTR) then mret (inr (-1)) else mret (inl tt)
    end) tt.

Definition system_restore (orig : gset Z * disposition * disposition) : M P unit :=
  let '(origMask, saOrigInt, saOrigQuit) := orig in
  savedErrno ← get_errno;
  sigprocmask SIG_SETMASK origMask ;;
  sigaction SIGINT saOrigInt ;;
  sigaction SIGQUIT saOrigQuit ;;
  set_errno savedErrno.

Definition system_command (fuel : nat) (command : bytes) : M P Z :=
  orig ← system_setup;
  childPid ← fork;
  status ← (if childPid =? -1 then mret (-1) else wait_child fuel childPid);
  system_restore orig ;;
  mret status.

Definition system (fuel : nat) (command : option bytes) : M P Z :=
  match command with
  | None => s ← system_command fuel (str ":"); mret (if s =? 0 then 1 else 0)
  | Some c => system_command fuel c
  end.

(** ** simple_system.c *)

Definition simple_child (command : bytes) : M P (list bytes) :=
  r ← execl_sh command; match r with inl i => mret i | inr _ => exit_ 127 end.

Definition simple_system (command : bytes) : M P Z :=
  childPid ← fork;
  if childPid =? -1 then mret (-1)
  else r ← waitpid childPid; mret (match r with None => -1 | Some status => status end).
End System.

(** ** What it keeps *)

(** Waiting may be interrupted any finite number of times. *)
Class WaitLaws (K : Type) `{!Processes K} := {
  wait_delays : K -> nat;
  k_fork_pid : forall k, match k_fork k with (inl pid, k') => 0 < pid | (inr _, k') => True end;
  k_waitpid_delay : forall pid k k', k_waitpid pid k = (inr EINTR, k') -> (wait_delays k' < wait_delays k)%nat
}.

(** Two signal states a program cannot tell apart. *)
Definition same_signals (st st' : sigstate) : Prop :=
  blocked st' = blocked st /\ forall sig, action st' sig = action st sig.

(** What is left of the signal state when a program is executed: handlers become the default. *)
Definition executed (a : disposition) : handler :=
  match sa_handler a with SIG_IGN => SIG_IGN | _ => SIG_DFL end.

Section Correct.
Context {K : Type} `{!Processes K, !WaitLaws K}.
Implicit Types (p : proc (K * sigstate)).

(** The signal state while the child runs. *)
Definition set_up (st : sigstate) : sigstate :=
  Sigstate ({[SIGCHLD]} ∪ blocked st)
    (<[SIGQUIT := Sigaction SIG_IGN 0 ∅]> (<[SIGINT := Sigaction SIG_IGN 0 ∅]> (actions st))).
Definition originals (st : sigstate) : gset Z * disposition * disposition :=
  (blocked st, action st SIGINT, action st SIGQUIT).

Lemma action_insert mask acts sig act sig' :
  action (Sigstate mask (<[sig := act]> acts)) sig' = if decide (sig = sig') then act else action (Sigstate mask acts) sig'.
Proof.
  unfold action. cbn [actions]. destruct (decide (sig = sig')) as [->|]; [by rewrite lookup_insert_eq|].
  by rewrite lookup_insert_ne.
Qed.

Lemma system_setup_eq (k : K) st e t :
  system_setup (Proc (k, st) e t) = (Ret (originals st), Proc (k, set_up st) e t).
Proof.
  change (system_setup (Proc (k, st) e t)) with
    (Ret (blocked st, action st SIGINT,
          action (Sigstate (blocked (set_up st)) (<[SIGINT := Sigaction SIG_IGN 0 ∅]> (actions st))) SIGQUIT),
     Proc (k, set_up st) e t).
  by rewrite action_insert.
Qed.

Lemma system_restore_eq (k : K) st e t :
  exists st', system_restore (originals st) (Proc (k, set_up st) e t) = (Ret tt, Proc (k, st') e t) /\ same_signals st st'.
Proof.
  eexists. split; [reflexivity|]. split; [done|]. intros sig. cbn [blocked actions set_up]. rewrite !action_insert.
  repeat case_decide; by subst.
Qed.

Lemma wait_child_spec fuel pid (k : K) st e t :
  (wait_delays k < fuel)%nat ->
  exists status k' e', wait_child fuel pid (Proc (k, st) e t) = (Ret status, Proc (k', st) e' t).
Proof.
  unfold wait_child. revert k e. induction fuel as [|fuel IH]; intros k e Hf; [lia|].
  destruct (k_waitpid pid k) as [[s|en] k'] eqn:E.
  - exists s, k', e. apply loop_done. unfold waitpid, mbind, M_bind, syscall, lift. cbn. by rewrite E.
  - destruct (Z.eqb_spec en EINTR) as [->|Hne].
    + apply k_waitpid_delay in E as Hd. destruct (IH k' EINTR ltac:(lia)) as (s & k2 & e2 & Hrun).
      exists s, k2, e2. rewrite <- Hrun. apply loop_next. unfold waitpid, mbind, M_bind, syscall, lift. cbn. by rewrite E.
    + exists (-1), k', en. apply loop_done. unfold waitpid, mbind, M_bind, syscall, lift. cbn. rewrite E. cbn.
      by rewrite (proj2 (Z.eqb_neq _ _) Hne).
Qed.

(** What the child becomes, from the signal state [st] of the caller: the shell runs with the
    caller's mask, and every signal is treated as in a program the caller would have executed. *)
Definition child_of (command : bytes) (k : K) (st : sigstate) (e : Z) (t : list event) : Prop :=
  let r := system_child command (originals st) (Proc (k, set_up st) e t) in
  blocked (kern r.2).2 = blocked st /\
  (forall sig, executed (action (kern r.2).2 sig) = executed (action st sig)) /\
  r.1 = match (k_exec_sh (sh_args command) k).1 with None => Ret (sh_args command) | Some _ => Exit 127 end.

Lemma system_child_spec command k st e t : child_of command k st e t.
Proof.
  unfold child_of, system_child, originals.
  set (acts := if ignored (action st SIGINT) then actions (set_up st)
               else <[SIGINT := Sigaction SIG_DFL 0 ∅]> (actions (set_up st))).
  set (acts' := if ignored (action st SIGQUIT) then acts else <[SIGQUIT := Sigaction SIG_DFL 0 ∅]> acts).
  assert (forall sig, executed (action (Sigstate (blocked st) acts') sig) = executed (action st sig)) as Hacts.
  { intros sig. unfold acts', acts, set_up. cbn [actions].
    destruct (ignored (action st SIGINT)) eqn:Ei, (ignored (action st SIGQUIT)) eqn:Eq;
      rewrite !action_insert; repeat case_decide; subst; try done;
      unfold executed; cbn [sa_handler]; unfold ignored in *; by repeat case_match. }
  assert (forall r : outcome (list bytes) * proc (K * sigstate), (let '(o, p') := r in (kern p').2 = Sigstate (blocked st) acts' /\ o = match (k_exec_sh (sh_args command) k).1 with None => Ret (sh_args command) | Some _ => Exit 127 end) ->
    blocked (kern r.2).2 = blocked st /\
    (forall sig, executed (action (kern r.2).2 sig) = executed (action st sig)) /\
    r.1 = match (k_exec_sh (sh_args command) k).1 with None => Ret (sh_args command) | Some _ => Exit 127 end) as Hr.
  { intros [o p'] [Hs Ho]. cbn [fst snd]. rewrite Hs. by split_and!. }
  apply Hr. clear Hr. unfold acts', acts.
  destruct (ignored (action st SIGINT)), (ignored (action st SIGQUIT)); unfold mbind, M_bind, execl_sh; cbn;
    destruct (k_exec_sh (sh_args command) k) as [[en|] k']; cbn; by split.
Qed.

(** C17: system() ends, however often its wait is interrupted, with the signal state of the caller
    as it was: the same mask and the same disposition of every signal, the -1 of a failed fork
    included; and between, the child has become the shell that runs the command with that same
    mask, its signals ignored exactly if the caller ignores them, or has ended with 127.  Nothing
    is printed, and [errno] is not changed by what is restored. *)
Theorem system_transparent fuel (command : bytes) (k : K) st e t :
  (wait_delays (k_fork k).2 < fuel)%nat ->
  exists status k' st' e',
    system fuel (Some command) (Proc (k, st) e t) = (Ret status, Proc (k', st') e' t) /\
    same_signals st st' /\
    match k_fork k with
    | (inr en, _) => status = -1 /\ e' = en
    | (inl childPid, kf) =>
        wait_child fuel childPid (Proc (kf, set_up st) e t) = (Ret status, Proc (k', set_up st) e' t) /\
        child_of command kf st e t
    end.
Proof.
  intros Hf. unfold system, system_command. pose proof (k_fork_pid k) as Hpid.
  setoid_rewrite (bind_Ret _ _ _ _ _ (system_setup_eq k st e t)).
  destruct (k_fork k) as [[pid|en] kf] eqn:Ef; cbn [snd] in Hf.
  - destruct (wait_child_spec fuel pid kf (set_up st) e t Hf) as (status & k' & e' & Ew).
    destruct (system_restore_eq k' st e' t) as (st' & Er & Hs).
    exists status, k', st', e'. split_and!; [|done|done|apply system_child_spec].
    rewrite (bind_Ret _ _ _ pid (Proc (kf, set_up st) e t)).
    2: { unfold fork, syscall, lift. cbn. by rewrite Ef. }
    rewrite (proj2 (Z.eqb_neq _ _)) by lia. rewrite (bind_Ret _ _ _ _ _ Ew). by rewrite (bind_Ret _ _ _ _ _ Er).
  - destruct (system_restore_eq kf st en t) as (st' & Er & Hs).
    exists (-1), kf, st', en. split_and!; try done.
    rewrite (bind_Ret _ _ _ (-1) (Proc (kf, set_up st) en t)).
    2: { unfold fork, syscall, lift. cbn. by rewrite Ef. }
    rewrite (bind_Ret _ _ _ (-1) (Proc (kf, set_up st) en t)) by done. by rewrite (bind_Ret _ _ _ _ _ Er).
Qed.

(** simple_system.c has no loop: an interrupted wait is reported as a failure of the command. *)
Lemma simple_system_interrupted command (k : K) st e t pid kf k' :
  k_fork k = (inl pid, kf) -> k_waitpid pid kf = (inr EINTR, k') ->
  simple_system command (Proc (k, st) e t) = (Ret (-1), Proc (k', st) EINTR t).
Proof.
  intros Ef Ew. pose proof (k_fork_pid k) as Hpid. rewrite Ef in Hpid. unfold simple_system.
  rewrite (bind_Ret _ _ _ pid (Proc (kf, st) e t)).
  2: { unfold fork, syscall, lift. cbn. by rewrite Ef. }
  rewrite (proj2 (Z.eqb_neq _ _)) by lia.
  rewrite (bind_Ret _ _ _ None (Proc (k', st) EINTR t)); [done|]. unfold waitpid, syscall, lift. cbn. by rewrite Ew.
Qed.
End Correct.

(** ** A kernel to run it on *)

(** What the waits for the next child answer, and whether a child can be made. *)
Record children := Children { waits : list (Z + Z); room : bool }.

Definition is_eintr (r : Z + Z) : bool := match r with inr e => e =? EINTR | inl _ => false end.

#[export] Instance children_processes : Processes children := {|
  k_fork := fun k => (if room k then inl 100 else inr EAGAIN, k);
  k_waitpid := fun _ k => match waits k with [] => (inl 0, k) | r :: rs => (r, Children rs (room k)) end;
  k_exec_sh := fun _ k => (None, k)
|}.

#[export] Program Instance children_laws : WaitLaws children := {| wait_delays := fun k => length (waits k) |}.
Next Obligation. intros [w []]; simpl; [lia|done]. Qed.
Next Obligation.
  intros pid [w r] k'. cbn. destruct w as [|a w]; intros E; [discriminate E|].
  injection E as -> <-. cbn. apply Nat.lt_succ_diag_r.
Qed.

(** A caller that catches SIGINT and ignores SIGQUIT; the wait is interrupted twice. *)
Definition catches : sigstate :=
  Sigstate {[SIGCHLD]} {[SIGINT := Sigaction (Handler 4096) 0 ∅; SIGQUIT := Sigaction SIG_IGN 0 ∅]}.

Lemma system_transparent_witness :
  exists status k' st' e',
    system 4 (Some (str "date")) (Proc (Children [inr EINTR; inr EINTR; inl 256] true, catches) 0 [])
    = (Ret status, Proc (k', st') e' []) /\ same_signals catches st'.
Proof.
  destruct (system_transparent 4 (str "date") (Children [inr EINTR; inr EINTR; inl 256] true) catches 0 [])
    as (status & k' & st' & e' & H1 & H2 & _); [vm_compute; lia|].
  by exists status, k', st', e'.
Defined.
